(* ===== verification/_CoqProject ===== *)
-Q . S2P
Prelude.v
Bytes.v
Bitmap.v
Pmm.v
PmmBoot.v
PmmTheorems.v
Kmalloc.v
KmallocProofs.v
KmallocTheorems.v
Region.v
Crc32.v
Utf8.v
Fips180.v
Sha256.v
Gpt.v
Buffer.v
BufferTheorems.v
CString.v
Printf.v
PrintfTheorems.v
ProcTab.v
ProcTabTheorems.v
VfsPath.v
Vfs.v
VfsTheorems.v
Procfs.v
Registry.v
RegDoors.v
RegistryProofs.v
RegistryTheorems.v
RwLock.v
ProcLife.v
Sched.v
SchedProofs.v
SchedTheorems.v
Ipc.v
Spawn.v
Ring.v
Object.v
ObjectProofs.v
ObjectSteps.v
ObjectTheorems.v
ObjectIo.v
ObjectIoTheorems.v
DirHandles.v
Paging.v
PagingProofs.v
PagingTheorems.v
PagingSpaces.v
Uaccess.v
Elf.v
ElfArgs.v
ElfTheorems.v
Timer.v
TimerTheorems.v
Ext4Disk.v
Ext4Map.v
Ext4Alloc.v
Ext4Dir.v
Ext4Ops.v
Ext4Proofs.v
Ext4AllocProofs.v
Ext4Blocks.v
SmallDisk.v
Ext4AllocTheorems.v
Ext4MountTheorems.v
Ext4DirBlock.v
Ext4DirProofs.v
Ext4DirTheorems.v
Ext4ExtentTree.v
Ext4ExtentTheorems.v
Ext4FileMap.v
Ext4FileTheorems.v
