(* ===== verification/Prelude.v ===== *)
(** * NexsOS1: verification of the kernel's core

    NexsOS1 is a small operating system: a C kernel for x86-64 and AArch64, and
    the user programs that run on it.  This library models the parts of the
    kernel that keep state other parts rely on, and proves what each promises.
    The paths below are relative to src/.

    ** The parts, and how they meet

    Memory (kernel/mm, kernel/lib/kmalloc.c).  The page allocator hands out
    4 KiB frames from two zones; the heap takes runs of pages from it and hands
    out blocks; the buffer cache keeps disk blocks in memory.
    - Bitmap: the scans over the zones' bitmaps.  Pmm, PmmBoot, PmmTheorems: the
      zones, page descriptors, allocation and freeing of pmm.c, and its boot:
      where the metadata goes and which frames are free after pmm_init.
    - Kmalloc, KmallocProofs, KmallocTheorems: the buckets, the bump area, large
      blocks, the lock.  The heap is written against the class [PageAlloc] of
      page allocators; KmallocTheorems shows that Pmm implements it.
    - Buffer, BufferTheorems: the sections of buffer.c under
      buffer_lock, the calls, and their interleaving by many CPUs.
    - Paging (kernel/arch/amd64/mm/mmu.c, kernel/mm/vmm.c): the four levels of
      x86-64 tables over a memory of words and the frames of [PageAlloc]; map,
      unmap, look up, protect, ranges, the tables of a process.  PagingProofs:
      what a walk reads and what a new table or the split of a large page
      leaves; PagingTheorems: one page, and concrete tables; PagingSpaces: ranges,
      protection, and what processes share.
    - Uaccess: the checked copies to and from user memory over these tables, and
      the traps the accesses themselves take.
    - Elf, ElfArgs, ElfTheorems (kernel/sched/elf.c): the loader that
      puts a program file and its arguments into a new set of tables.

    Processes (kernel/sched/process.c).
    - ProcTab, ProcTabTheorems: the process table, levels and capabilities, who
      may kill or message whom, the environments, status queries.
    - Sched, SchedProofs, SchedTheorems: runqueues, the stages of schedule(),
      work stealing, wait queues, stop, continue and terminate, deferred freeing.
    - ProcLife: exit statuses kept after the process is freed; the choice of
      victims of a subtree kill.
    - Ipc: bounded message queues on top of the scheduler's state.
    - Spawn: creation quotas, the children counts, and how the children of a
      dying process are handed on.

    Objects (kernel/core/object.c): what a process reaches through handles.
    - Ring, Object: handle tables, reference and end counts, pipes, ports,
      duplication, grants, redirection, teardown; the section under object_lock
      is the step.  ObjectProofs (the counts, and what a step leaves alone),
      ObjectSteps (every step keeps the counts), ObjectTheorems.
    - ObjectIo: opening by name, read, write, wait, control and seek, over the
      state of the components behind the objects: the switch, the registry with
      the process table, the mailboxes, the exit statuses.  A call may fault on
      a freed object or a null pointer.  ObjectIoTheorems, DirHandles: what the
      calls keep, what a new handle may do, what a directory handle reaches, and
      the concrete state the witnesses run on.

    Files (kernel/fs).
    - Gpt: partition tables, with the checksums of Crc32.
    - VfsPath: path canonicalisation, the write policy, chdir.  Vfs, VfsTheorems:
      mounts, routing to providers, listings, unmounting.  The providers of the
      switch are records of functions, as in the code.
    - Procfs: the provider of /proc, over the process table.
    - The ext4 provider (kernel/fs/ext4.c), by its sections.  Ext4Disk: the
      device by sectors, the superblock and descriptors, the bitmaps, the repair
      at mount, the inode table.  Ext4Map: from paths to inodes and from inodes to
      blocks: extent trees, pointer blocks, the cache of interior blocks, reading,
      directories, paths.  Ext4Alloc: blocks and inodes taken and given back, the
      growth of a mapping, the release of a file.  Ext4Dir: insertion and removal
      of names.  Ext4Ops: mount, open, read, write, list, create, unlink.  The
      superblock, descriptors, inodes, tree nodes and entries are the bytes of the
      disk (Bytes), read and written field by field.  A transfer or an allocation
      ends as an oracle says.
    - Ext4Proofs (runs of the monad under every oracle; the bitmaps),
      Ext4AllocProofs, Ext4Blocks (the allocator's invariant, what taking and
      freeing do to it, what a call leaves alone, inodes), Ext4AllocTheorems;
      Ext4MountTheorems (the repair at mount); Ext4DirBlock, Ext4DirProofs,
      Ext4DirTheorems; Ext4ExtentTree, Ext4ExtentTheorems (extent trees as lists
      of extents);
      Ext4FileMap, an interface for a mapping from blocks of a file to blocks of
      the disk, with two instances, pointers in the inode and in pointer blocks,
      and an extent tree; Ext4FileTheorems, proved against the interface.
      SmallDisk: the image the witnesses run on.

    Time (kernel/core/timer.c).
    - Timer, TimerTheorems: the clock, the schedule of ticks, and the software
      timers of every CPU under any interleaving of calls.

    The registry (kernel/lib/registry.c), a tree of named values.
    - Registry: the tree, the virtual keys that reach process environments
      (through ProcTab), access control.  RegDoors: the /reg mount, the system
      call, the write through a handle to a key (kernel/core/object.c) and
      SYS_SET_STYLE (kernel/core/syscall_dispatch.c), which writes as the system.
      RegistryProofs, RegistryTheorems: what they guarantee.
    - RwLock: the reader/writer lock over the tree.

    Arithmetic and text: Region (screen regions), Crc32, Utf8, Sha256 (compared
    with the standard, which Fips180 writes down on its own), the string functions
    the others call (CString), and the formatted printer of the kernel build
    (kernel/lib/vsnprintf.c: Printf, PrintfTheorems).  The printer ends normally,
    in behaviour C leaves undefined, or, never, out of fuel; the three are
    different results.

    ** Conventions

    Machine integers are Z; [u8], [u32], [u64], [i32] and so on below write out
    the wrap-around where the C type has it.  Pointers to kernel objects are
    addresses (memory), indices (tables) or keys (processes by pid).  A
    definition bears the name of the C function it translates; a part of a
    function has a name of its own and its comment says which part.  A panic,
    a fault or a wait that cannot end is a value of the result type.  State is
    passed explicitly; where the code drops a lock in the middle of a function
    the model has one definition per locked section, and a step relation
    interleaves the sections of any number of CPUs.

    Loops.  A loop over a list or a table is structural recursion or a fold.
    [loop] (below) runs a step a bounded number of times; the bounds are chosen
    so that they are never met, and this is proved, not assumed: the boot-time
    placement and gap loops run at most [length regions + 1] passes (PmmBoot),
    the heap's retry loop ends within the fuel given by its chunk size
    (KmallocProofs), paths and keys are split with as many rounds as they have
    bytes, the scheduler's retry loop never reaches its limit of [MAX_PROCESSES]
    (schedule_finds_task), the propagation of a subtree kill settles within its
    number of passes (kill_marks_exact), the printer's loop over a format runs
    once per character at most and prints 64-bit numbers in at most 64 digits
    (format_terminates), the walk over a directory block takes 512 steps of eight
    bytes or fewer ([DIR_STEPS]), the loops over the blocks of a file or directory
    run at most size / 4096 + 2 times (their theorems say that each call returns),
    the descent of an extent tree is cut off by the code itself, loops over a
    range of pages run once per page, and the walk to an ancestor within
    [MAX_PROCESSES] finds every ancestor there is (ancestry_authority_exact).

    ** What the theorems show

    - Functional behaviour of each operation, errors included:
      alloc_page_takes_free_frame, alloc_pages_takes_run,
      kmalloc_returns_new_block, krealloc_moves, buffer_get_transparent,
      sync_makes_durable, resolve_longest_mount, operations_reach_provider,
      vfs_init_mounts_root, registry_del_removes_key,
      registry_enum_lists_leaves, gpt_init_reads_table, pick_order,
      kill_subtree_exact, exit_status_kept, region_subtract_difference,
      map_changes_one_page, unmap_removes_one_page,
      protect_changes_only_flags, new_space_is_kernel_half, program_loaded,
      proc_listing.
    - Invariants over every sequence or interleaving: heap_blocks_disjoint,
      cache_cap_and_uniqueness, tasks_run_on_one_cpu, no_message_missed,
      mounts_outlive_operations, rw_lock_exclusion_progress, children_counted,
      handles_exact, object_calls_keep_counts, timers_queued_once,
      blocks_handed_out_once (whatever fails on the way),
      mount_establishes_invariant.
    - Security: rights_never_gained, handles_opened_by_policy,
      directory_handle_confined, spawn_never_gains,
      registry_ownership_stable, write_authority_by_names,
      ancestry_authority_exact, kfree_once, gpt_rejects_corruption,
      user_mapping_private, kernel_mapping_visible, user_copy_checked,
      pages_protected, deleted_timer_unlinked.
    - Refinement of an abstract description: registry_set_updates_map (a map
      from paths to values), messages_in_order (a queue per sender),
      streams_in_order (pipes and ports), directory_block_refines_map and
      directory_refines_map (a map from names to inodes), extent_tree_refines_map
      (a map from blocks to blocks), output_is_truncated_text (the text a format
      describes), and the page allocator as an instance of the heap's interface.
    - Equivalence with a reference: find_free_is_scan, sha256_streaming,
      crc32_is_table_driven, resolve_path_normal_form, tick_schedule_exact.
    - Round trips: proc_env_set_get, arguments_on_stack,
      printed_number_reads_back, block_taken_and_given_back,
      written_data_is_read_back, appended_data_is_read_back.
    - Progress: schedule_finds_task, waiters_woken,
      early_init_places_metadata, format_terminates.

    Some theorems carry a hypothesis because the code does not prevent the case
    it excludes; next to them an example runs the code into that case: for extent
    trees hole_in_full_leaf_loses_block, for stopped processes
    resumed_while_current_runs_twice and resumed_while_pending_runs_twice, for the
    rollback of a creation rollback_leaves_dead_owner, for timers
    late_clear_strands_timer.  Others say what the code guarantees and no more, and
    an example shows the rest: set_style_changes_foreign_key,
    high_address_passes_user_test, unmount_takes_lower_slot,
    receive_destroys_message, deep_path_climbs.  The theorems on ext4 directories are
    about those whose blocks the inode names itself (twelve at most), those on
    files about every block a file without extents can have and about extent
    trees of depth 0 and 1, which are the ones the driver grows, filled from the
    front.  The release of a file's blocks is modelled and has no theorem beyond
    the allocator's.

    ** What is not modelled

    Assembly and the drivers (kernel/arch, kernel/drivers), the AArch64 tables and
    the maps built at boot, pixel rendering, and everything in user space.
    Within the modelled files: messages to the log, and diagnostics that only
    panic on a state the invariants exclude.  The ext4
    provider is taken one call at a time: its sections under fs->lock are not
    interleaved, and ext4_umount, which frees the state in memory, is left out. *)
From Stdlib Require Import ZArith Lia.
From stdpp Require Import base numbers list.
#[export] Set Default Goal Selector "1".

Global Open Scope Z_scope.

(** ** Fixed-width integers *)

(** C's conversions to an unsigned type of 8, 16, 32 or 64 bits. *)
Definition u8 (x : Z) : Z := x mod 2 ^ 8.
Definition u16 (x : Z) : Z := x mod 2 ^ 16.
Definition u32 (x : Z) : Z := x mod 2 ^ 32.
Definition u64 (x : Z) : Z := x mod 2 ^ 64.

(** Conversion to a signed 32- or 64-bit integer (two's complement). *)
Definition i32 (x : Z) : Z := (x + 2 ^ 31) mod 2 ^ 32 - 2 ^ 31.
Definition i64 (x : Z) : Z := (x + 2 ^ 63) mod 2 ^ 64 - 2 ^ 63.

(** [~x] on a 32- and a 64-bit word. *)
Definition not32 (x : Z) : Z := u32 (Z.lnot x).
Definition not64 (x : Z) : Z := u64 (Z.lnot x).

(** [~0ULL]. *)
Definition ones64 : Z := 2 ^ 64 - 1.

#[global] Arguments u8 x : simpl never.
#[global] Arguments u16 x : simpl never.
#[global] Arguments u32 x : simpl never.
#[global] Arguments u64 x : simpl never.
#[global] Arguments i32 x : simpl never.
#[global] Arguments i64 x : simpl never.

Definition is_u8 (x : Z) : Prop := 0 <= x < 2 ^ 8.
Definition is_u32 (x : Z) : Prop := 0 <= x < 2 ^ 32.
Definition is_u64 (x : Z) : Prop := 0 <= x < 2 ^ 64.

Lemma u64_small x : 0 <= x < 2 ^ 64 -> u64 x = x.
Proof. intros; unfold u64; apply Z.mod_small; lia. Qed.

Lemma u32_small x : 0 <= x < 2 ^ 32 -> u32 x = x.
Proof. intros; unfold u32; apply Z.mod_small; lia. Qed.

Lemma u64_range x : 0 <= u64 x < 2 ^ 64.
Proof. unfold u64; apply Z.mod_pos_bound; lia. Qed.

Lemma u32_range x : 0 <= u32 x < 2 ^ 32.
Proof. unfold u32; apply Z.mod_pos_bound; lia. Qed.

Lemma i32_small x : - 2 ^ 31 <= x < 2 ^ 31 -> i32 x = x.
Proof. intros; unfold i32; rewrite Z.mod_small; lia. Qed.

Lemma i64_small x : - 2 ^ 63 <= x < 2 ^ 63 -> i64 x = x.
Proof. intros; unfold i64; rewrite Z.mod_small; lia. Qed.

Lemma testbit_u64 x i : 0 <= i < 64 -> Z.testbit (u64 x) i = Z.testbit x i.
Proof. intros; unfold u64; apply Z.mod_pow2_bits_low; lia. Qed.

Lemma testbit_not64 x i : 0 <= i < 64 -> Z.testbit (not64 x) i = negb (Z.testbit x i).
Proof.
  intros; unfold not64; rewrite testbit_u64 by lia; rewrite Z.lnot_spec by lia; done.
Qed.

Lemma testbit_ones64 i : 0 <= i < 64 -> Z.testbit ones64 i = true.
Proof.
  intros; change ones64 with (Z.ones 64); apply Z.ones_spec_low; lia.
Qed.

Lemma testbit_shl1 k i : 0 <= k -> Z.testbit (Z.shiftl 1 k) i = (i =? k).
Proof.
  intros Hk; rewrite Z.shiftl_1_l, Z.pow2_bits_eqb by lia; apply Z.eqb_sym.
Qed.

(** A non-negative integer all of whose bits from [n] up are clear is below
    [2 ^ n]. *)
Lemma bits_below x n :
  0 <= n -> 0 <= x -> (forall i, n <= i -> Z.testbit x i = false) -> x < 2 ^ n.
Proof.
  intros Hn Hx Hb; assert (Hm : x = x mod 2 ^ n).
  { apply Z.bits_inj'; intros i Hi.
    destruct (Z_lt_le_dec i n).
    - rewrite Z.mod_pow2_bits_low by lia; done.
    - rewrite Z.mod_pow2_bits_high by lia; apply Hb; lia. }
  rewrite Hm; apply Z.mod_pos_bound; lia.
Qed.

Lemma testbit_above x n i : 0 <= x < 2 ^ n -> n <= i -> Z.testbit x i = false.
Proof.
  intros Hx Hi. destruct (Z.eq_dec x 0) as [-> | Hne].
  { apply Z.bits_0. }
  apply Z.bits_above_log2; [lia |].
  apply Z.lt_le_trans with n; [| lia]; apply Z.log2_lt_pow2; lia.
Qed.

Lemma lor_u64 x y : is_u64 x -> is_u64 y -> is_u64 (Z.lor x y).
Proof.
  unfold is_u64; intros Hx Hy; assert (0 <= Z.lor x y) by (apply Z.lor_nonneg; lia).
  split; [done |]; apply bits_below; [lia | done |]; intros i Hi.
  rewrite Z.lor_spec, (testbit_above x 64), (testbit_above y 64) by lia; done.
Qed.

Lemma land_u64 x y : is_u64 x -> is_u64 (Z.land x y).
Proof.
  unfold is_u64; intros Hx; assert (0 <= Z.land x y) by (apply Z.land_nonneg; lia).
  split; [done |]; apply bits_below; [lia | done |]; intros i Hi.
  rewrite Z.land_spec, (testbit_above x 64) by lia; done.
Qed.

Lemma shl1_u64 k : 0 <= k < 64 -> is_u64 (Z.shiftl 1 k).
Proof.
  unfold is_u64; intros; rewrite Z.shiftl_1_l; split; [lia |].
  apply Z.pow_lt_mono_r; lia.
Qed.

(** Masking with the complement, and rounding to a power of two with it. *)
Lemma land_not64 x m : is_u64 x -> Z.land x (not64 m) = Z.ldiff x m.
Proof.
  intros Hx; apply Z.bits_inj'; intros i Hi; rewrite Z.land_spec, Z.ldiff_spec.
  destruct (Z_lt_le_dec i 64); [rewrite testbit_not64 by lia; done |].
  rewrite (testbit_above x 64) by (unfold is_u64 in *; lia); done.
Qed.

Lemma align_down x a :
  is_u64 x -> 0 <= a < 64 -> Z.land x (not64 (2 ^ a - 1)) = x / 2 ^ a * 2 ^ a.
Proof.
  intros Hx Ha; rewrite land_not64 by done.
  replace (2 ^ a - 1) with (Z.ones a) by (rewrite Z.ones_equiv; lia).
  rewrite Z.ldiff_ones_r, Z.shiftl_mul_pow2, Z.shiftr_div_pow2 by lia; done.
Qed.

(** Two 64-bit words with the same 64 bits are equal. *)
Lemma u64_bits_eq x y :
  is_u64 x -> is_u64 y ->
  (forall i, 0 <= i < 64 -> Z.testbit x i = Z.testbit y i) -> x = y.
Proof.
  intros Hx Hy Hb; apply Z.bits_inj'; intros i Hi.
  destruct (Z_lt_le_dec i 64); [apply Hb; lia |].
  rewrite (testbit_above x 64), (testbit_above y 64) by (unfold is_u64 in *; lia); done.
Qed.

(** ** Arrays indexed by a C integer

    An access outside the array is undefined in C.  Here a read outside it
    gives [d] and a write outside it changes nothing; the theorems are about
    states in which every access is in range. *)
Definition zlen {A} (l : list A) : Z := Z.of_nat (length l).

Definition znth {A} (d : A) (l : list A) (i : Z) : A :=
  if i <? 0 then d else default d (l !! Z.to_nat i).

Definition zset {A} (l : list A) (i : Z) (x : A) : list A :=
  if i <? 0 then l else <[Z.to_nat i := x]> l.

Section arrays.
Context {A : Type}.
Implicit Types (l : list A) (x d : A) (i j : Z).

Lemma zlen_nonneg l : 0 <= zlen l.
Proof. unfold zlen; lia. Qed.

Lemma zlen_zset l i x : zlen (zset l i x) = zlen l.
Proof. unfold zlen, zset; destruct (i <? 0); [done |]; by rewrite length_insert. Qed.

Lemma zlen_replicate n x : 0 <= n -> zlen (replicate (Z.to_nat n) x) = n.
Proof. intros; unfold zlen; rewrite length_replicate; lia. Qed.

Lemma znth_zset_eq d l i x : 0 <= i < zlen l -> znth d (zset l i x) i = x.
Proof.
  unfold zlen, znth, zset; intros.
  destruct (Z.ltb_spec i 0); [lia |]; by rewrite list_lookup_insert_eq by lia.
Qed.

Lemma znth_zset_ne d l i j x : i <> j -> znth d (zset l i x) j = znth d l j.
Proof.
  unfold znth, zset; intros.
  destruct (Z.ltb_spec i 0), (Z.ltb_spec j 0); try done.
  rewrite list_lookup_insert_ne by lia; done.
Qed.

Lemma znth_zset d l i j x :
  0 <= i < zlen l -> znth d (zset l i x) j = if i =? j then x else znth d l j.
Proof.
  intros; destruct (Z.eqb_spec i j) as [<- |]; auto using znth_zset_eq, znth_zset_ne.
Qed.

Lemma znth_out d l i : i < 0 \/ zlen l <= i -> znth d l i = d.
Proof.
  unfold znth, zlen; intros; destruct (Z.ltb_spec i 0); [done |].
  rewrite lookup_ge_None_2 by lia; done.
Qed.

Lemma znth_lookup d l i x : 0 <= i -> l !! Z.to_nat i = Some x -> znth d l i = x.
Proof. unfold znth; intros ? E; destruct (Z.ltb_spec i 0); [lia |]; by rewrite E. Qed.

Lemma znth_in_range d l i :
  0 <= i < zlen l -> l !! Z.to_nat i = Some (znth d l i).
Proof.
  unfold znth, zlen; intros; destruct (Z.ltb_spec i 0); [lia |].
  destruct (lookup_lt_is_Some_2 l (Z.to_nat i)) as [y Hy]; [lia |].
  by rewrite Hy.
Qed.

Lemma znth_replicate d n x i : 0 <= i < n -> znth d (replicate (Z.to_nat n) x) i = x.
Proof.
  intros; apply znth_lookup; [lia |]; apply lookup_replicate_2; lia.
Qed.

Lemma zlen_cons x l : zlen (x :: l) = zlen l + 1.
Proof. unfold zlen; simpl; lia. Qed.

Lemma zlen_app l1 l2 : zlen (l1 ++ l2) = zlen l1 + zlen l2.
Proof. unfold zlen; rewrite length_app; lia. Qed.

Lemma znth_app_l d l1 l2 i : i < zlen l1 -> znth d (l1 ++ l2) i = znth d l1 i.
Proof. unfold znth, zlen; intros; destruct (Z.ltb_spec i 0); [done |]; by rewrite lookup_app_l by lia. Qed.

Lemma znth_app_r d l1 l2 i : zlen l1 <= i -> znth d (l1 ++ l2) i = znth d l2 (i - zlen l1).
Proof.
  unfold znth, zlen; intros; destruct (Z.ltb_spec i 0), (Z.ltb_spec (i - Z.of_nat (length l1)) 0); try lia.
  rewrite lookup_app_r by lia; do 2 f_equal; lia.
Qed.

Lemma znth_cons_pos d x l i : 0 < i -> znth d (x :: l) i = znth d l (i - 1).
Proof. intros; change (x :: l) with ([x] ++ l); by rewrite znth_app_r by (unfold zlen; simpl; lia). Qed.

Lemma Forall_zset (P : A -> Prop) l i x : Forall P l -> P x -> Forall P (zset l i x).
Proof.
  intros; unfold zset; destruct (i <? 0); [done |]; by apply Forall_insert.
Qed.

Lemma Forall_znth (P : A -> Prop) d l i : Forall P l -> P d -> P (znth d l i).
Proof.
  intros Hl Hd; destruct (Z_lt_le_dec i 0); [by rewrite znth_out by lia |].
  destruct (Z_lt_le_dec i (zlen l)); [| by rewrite znth_out by lia].
  eapply Forall_lookup_1; [done |]; by apply (znth_in_range d); lia.
Qed.

(** Two arrays of one length with the same elements are equal. *)
Lemma znth_ext d (l1 l2 : list A) :
  zlen l1 = zlen l2 ->
  (forall i, 0 <= i < zlen l1 -> znth d l1 i = znth d l2 i) -> l1 = l2.
Proof.
  intros Hlen Heq; apply list_eq_same_length with (length l1); [unfold zlen in *; lia | done |].
  intros i x y Hi Hx Hy.
  rewrite <- (znth_lookup d l1 (Z.of_nat i) x), <- (znth_lookup d l2 (Z.of_nat i) y);
    rewrite ?Nat2Z.id; try done; try lia.
  apply Heq; unfold zlen; lia.
Qed.
End arrays.

Create Rewrite HintDb arr.
Create HintDb pmm.
#[export] Hint Rewrite @zlen_zset : arr.

(** ** Loops

    A C loop is a step function on the loop's variables: [inl] goes round
    again, [inr] leaves with a value.  [loop] runs it with a bound on the number
    of rounds; [None] means the bound was too small. *)
Fixpoint loop {S R} (fuel : nat) (step : S -> S + R) (s : S) : option R :=
  match fuel with
  | O => None
  | S n =>
    match step s with
    | inl s' => loop n step s'
    | inr r => Some r
    end
  end.

(** Total correctness of a loop: an invariant [I], a measure [m] below the fuel
    that every further round decreases, and a postcondition [P]. *)
Lemma loop_total {S R} (I : S -> Prop) (m : S -> nat) (P : R -> Prop) (step : S -> S + R) :
  (forall s, I s -> match step s with
                    | inl s' => I s' /\ (m s' < m s)%nat
                    | inr r => P r
                    end) ->
  forall fuel s, I s -> (m s < fuel)%nat -> exists r, loop fuel step s = Some r /\ P r.
Proof.
  intros Hstep fuel; induction fuel as [| fuel IH]; intros s Hs Hm; [lia |].
  simpl; specialize (Hstep s Hs); destruct (step s) as [s' | r]; [| by eauto].
  destruct Hstep; apply IH; [done | lia].
Qed.

(** Invariant rule for [for (k = m; k < m + n; k++)]. *)
Lemma foldl_seqZ_inv {S} (I : Z -> S -> Prop) (f : S -> Z -> S) m n s :
  0 <= n -> I m s ->
  (forall k t, m <= k < m + n -> I k t -> I (k + 1) (f t k)) ->
  I (m + n) (foldl f s (seqZ m n)).
Proof.
  intros Hn; revert m s; pattern n; apply natlike_ind; [| | done]; clear n Hn.
  - intros m s Hs _; rewrite Z.add_0_r; done.
  - intros n Hn IH m s Hs Hstep; rewrite seqZ_cons by lia; simpl.
    rewrite Z.pred_succ; replace (m + Z.succ n) with (Z.succ m + n) by lia.
    apply IH.
    + apply Hstep; [lia | done].
    + intros k t Hk; apply Hstep; lia.
Qed.

(** ** Counting *)

(** How many of [0 .. n-1] satisfy [p]. *)
Fixpoint zcount (p : Z -> bool) (n : nat) : Z :=
  match n with
  | O => 0
  | S m => zcount p m + (if p (Z.of_nat m) then 1 else 0)
  end.

Lemma zcount_bounds p n : 0 <= zcount p n <= Z.of_nat n.
Proof. induction n as [| n IH]; simpl; [lia |]; destruct (p _); lia. Qed.

Lemma zcount_ext p q n :
  (forall i, 0 <= i < Z.of_nat n -> p i = q i) -> zcount p n = zcount q n.
Proof.
  induction n as [| n IH]; simpl; intros H; [done |].
  rewrite IH by (intros; apply H; lia); rewrite (H (Z.of_nat n)) by lia; done.
Qed.

(** Turning one satisfying index off lowers the count by one. *)
Lemma zcount_off p q n k :
  0 <= k < Z.of_nat n -> p k = true -> q k = false ->
  (forall i, i <> k -> p i = q i) -> zcount q n = zcount p n - 1.
Proof.
  induction n as [| n IH]; simpl; intros Hk Hp Hq Hext; [lia |].
  destruct (Z.eq_dec k (Z.of_nat n)) as [-> | Hne].
  - rewrite Hp, Hq, (zcount_ext q p) by (intros; symmetry; apply Hext; lia); lia.
  - rewrite IH by (lia || done); rewrite (Hext (Z.of_nat n)) by lia; lia.
Qed.

Lemma zcount_on p q n k :
  0 <= k < Z.of_nat n -> p k = false -> q k = true ->
  (forall i, i <> k -> p i = q i) -> zcount q n = zcount p n + 1.
Proof.
  intros Hk Hp Hq Hext; enough (zcount p n = zcount q n - 1) by lia.
  apply (zcount_off q p n k); auto; intros; symmetry; auto.
Qed.

(** Turning off [c] satisfying indices from [k] on. *)
Lemma zcount_off_range p q n k c :
  0 <= k -> 0 <= c -> k + c <= Z.of_nat n ->
  (forall i, k <= i < k + c -> p i = true) ->
  (forall i, q i = p i && negb ((k <=? i) && (i <? k + c))) ->
  zcount q n = zcount p n - c.
Proof.
  intros Hk Hc; revert q; pattern c; apply natlike_ind; [| | done]; clear c Hc.
  - intros q _ _ Hq; rewrite (zcount_ext q p); [lia |]; intros i _; rewrite Hq.
    destruct (Z.leb_spec k i), (Z.ltb_spec i (k + 0)); try lia; by rewrite andb_true_r.
  - intros c Hc IH q Hn Hp Hq.
    rewrite (zcount_off (fun i => p i && negb ((k <=? i) && (i <? k + c))) q n (k + c)).
    + rewrite IH; [lia | lia | intros; apply Hp; lia | done].
    + lia.
    + cbv beta; rewrite Hp by lia; destruct (Z.ltb_spec (k + c) (k + c)); [lia |].
      rewrite andb_false_r; done.
    + rewrite Hq; destruct (Z.leb_spec k (k + c)), (Z.ltb_spec (k + c) (k + Z.succ c)); lia || rewrite ?andb_false_r; done.
    + intros i Hi; rewrite Hq; f_equal; f_equal; f_equal.
      destruct (Z.ltb_spec i (k + c)), (Z.ltb_spec i (k + Z.succ c)); lia || done.
Qed.

Lemma zcount_all p n :
  (forall i, 0 <= i < Z.of_nat n -> p i = true) -> zcount p n = Z.of_nat n.
Proof.
  induction n as [| n IH]; cbn [zcount]; intros H; [done |].
  rewrite IH by (intros; apply H; lia); rewrite (H (Z.of_nat n)) by lia; lia.
Qed.

Lemma zcount_skip p a b :
  0 <= a <= b -> (forall i, a <= i < b -> p i = false) ->
  zcount p (Z.to_nat b) = zcount p (Z.to_nat a).
Proof.
  intros [Ha Hab]; replace b with (a + (b - a)) by lia.
  generalize (b - a), (Z.le_0_sub a b) as E; intros c E; assert (0 <= c) by lia; clear E.
  pattern c; apply natlike_ind; [| | done].
  - intros _; f_equal; lia.
  - intros d Hd IH Hp; rewrite <- IH by (intros; apply Hp; lia).
    replace (Z.to_nat (a + Z.succ d)) with (S (Z.to_nat (a + d))) by lia; cbn [zcount].
    rewrite Hp by lia; lia.
Qed.

Lemma zcount_pos p n k : 0 <= k < Z.of_nat n -> p k = true -> 0 < zcount p n.
Proof.
  intros Hk Hp.
  assert (E := zcount_off p (fun i => if i =? k then false else p i) n k Hk Hp).
  cbv beta in E; rewrite Z.eqb_refl in E.
  assert (B := zcount_bounds (fun i => if i =? k then false else p i) n).
  rewrite E in B; [lia | done |].
  intros i Hi; apply Z.eqb_neq in Hi; by rewrite Hi.
Qed.

Lemma zcount_zero p n : zcount p n = 0 -> forall k, 0 <= k < Z.of_nat n -> p k = false.
Proof.
  intros H k Hk; destruct (p k) eqn:E; [| done]; assert (P := zcount_pos p n k Hk E); lia.
Qed.

(** ** Tactics of the development *)

(** Case analysis on the first [if] of the goal, with the test turned into the
    order or equality it decides. *)
Ltac case_if :=
  match goal with
  | |- context [if ?a <? ?b then _ else _] => destruct (Z.ltb_spec a b)
  | |- context [if ?a <=? ?b then _ else _] => destruct (Z.leb_spec a b)
  | |- context [if ?a =? ?b then _ else _] => destruct (Z.eqb_spec a b)
  | |- context [if ?b then _ else _] => destruct b eqn:?
  end.

(** The same in a hypothesis. *)
Ltac case_if_in H :=
  match type of H with
  | context [if ?a <? ?b then _ else _] => destruct (Z.ltb_spec a b)
  | context [if ?a <=? ?b then _ else _] => destruct (Z.leb_spec a b)
  | context [if ?a =? ?b then _ else _] => destruct (Z.eqb_spec a b)
  | context [if ?b then _ else _] => destruct b eqn:?
  end.

(** [i] lies in the [c] indices from [k] on. *)
Definition in_range (k c i : Z) : bool := (k <=? i) && (i <? k + c).

Lemma in_range_spec k c i : in_range k c i = true <-> k <= i < k + c.
Proof. unfold in_range; rewrite andb_true_iff, Z.leb_le, Z.ltb_lt; lia. Qed.

Lemma in_range_false k c i : in_range k c i = false <-> i < k \/ k + c <= i.
Proof.
  rewrite <- not_true_iff_false, in_range_spec; lia.
Qed.

(** Turns boolean order tests among the hypotheses into propositions. *)
Ltac zbool :=
  repeat match goal with
  | H : (_ <? _) = true |- _ => apply Z.ltb_lt in H
  | H : (_ <? _) = false |- _ => apply Z.ltb_ge in H
  | H : (_ <=? _) = true |- _ => apply Z.leb_le in H
  | H : (_ <=? _) = false |- _ => apply Z.leb_gt in H
  | H : (_ =? _) = true |- _ => apply Z.eqb_eq in H
  | H : (_ =? _) = false |- _ => apply Z.eqb_neq in H
  | H : andb _ _ = true |- _ => apply andb_true_iff in H; destruct H
  | H : orb _ _ = false |- _ => apply orb_false_iff in H; destruct H
  | H : negb _ = true |- _ => apply negb_true_iff in H
  | H : negb _ = false |- _ => apply negb_false_iff in H
  end.
