(* ===== verification/Bytes.v ===== *)
(** * Buffers of bytes

    A buffer is the list of its bytes.  Words in it are little-endian; a write
    replaces a part and keeps the length. *)
From Stdlib Require Import ZArith Lia.
From stdpp Require Import base numbers list.
From S2P Require Import Prelude.

Definition le16 (b : list Z) (o : Z) : Z := znth 0 b o + 256 * znth 0 b (o + 1).
Definition le32 (b : list Z) (o : Z) : Z := le16 b o + 65536 * le16 b (o + 2).
Definition le64 (b : list Z) (o : Z) : Z := le32 b o + 2 ^ 32 * le32 b (o + 4).

(** The bytes of a 16-bit and of a 32-bit word. *)
Definition bytes16 (x : Z) : list Z := [x mod 256; x / 256 mod 256].
Definition bytes32 (x : Z) : list Z := bytes16 x ++ bytes16 (x / 65536).

(** [n] bytes at offset [o]. *)
Definition slice (b : list Z) (o n : Z) : list Z := take (Z.to_nat n) (drop (Z.to_nat o) b).

(** [l] written at offset [o]; [poke]: nothing if it does not fit. *)
Definition splice (b : list Z) (o : Z) (l : list Z) : list Z :=
  take (Z.to_nat o) b ++ l ++ drop (Z.to_nat (o + zlen l)) b.

Definition poke (b : list Z) (o : Z) (l : list Z) : option (list Z) :=
  if (0 <=? o) && (o + zlen l <=? zlen b) then Some (splice b o l) else None.

Definition zeroes (n : Z) : list Z := replicate (Z.to_nat n) 0.

Create Rewrite HintDb bytes.

Section splice.
Implicit Types (b l : list Z) (o i x : Z).

Lemma zlen_splice b o l : 0 <= o -> o + zlen l <= zlen b -> zlen (splice b o l) = zlen b.
Proof. unfold splice, zlen; intros; rewrite !length_app, length_take, length_drop; lia. Qed.

Lemma znth_splice b o l i : 0 <= o -> o + zlen l <= zlen b -> 0 <= i < zlen b ->
  znth 0 (splice b o l) i = if (o <=? i) && (i <? o + zlen l) then znth 0 l (i - o) else znth 0 b i.
Proof.
  unfold splice, zlen, znth; intros Ho Hl Hi; destruct (Z.ltb_spec i 0); [lia |]; destruct (Z.leb_spec o i); simpl.
  - rewrite lookup_app_r, length_take by (rewrite length_take; lia); destruct (Z.ltb_spec i (o + Z.of_nat (length l))).
    + destruct (Z.ltb_spec (i - o) 0); [lia |]; rewrite lookup_app_l by lia; do 2 f_equal; lia.
    + rewrite lookup_app_r, lookup_drop by lia; do 2 f_equal; lia.
  - rewrite lookup_app_l by (rewrite length_take; lia); by rewrite lookup_take_lt by lia.
Qed.

Lemma znth_splice_ne b o l i : 0 <= o -> o + zlen l <= zlen b -> 0 <= i < o \/ o + zlen l <= i -> znth 0 (splice b o l) i = znth 0 b i.
Proof.
  intros Ho Hl Hi; destruct (decide (i < zlen b)) as [Hb | Hb]; [| by rewrite !znth_out by (rewrite ?zlen_splice by done; lia)].
  rewrite znth_splice by (pose proof (zlen_nonneg l); lia); destruct (Z.leb_spec o i), (Z.ltb_spec i (o + zlen l)); try done; lia.
Qed.

Lemma znth_splice_in b o l i : 0 <= o -> o + zlen l <= zlen b -> 0 <= i < zlen l -> znth 0 (splice b o l) (o + i) = znth 0 l i.
Proof.
  intros Ho Hl Hi; rewrite znth_splice by lia; destruct (Z.leb_spec o (o + i)), (Z.ltb_spec (o + i) (o + zlen l)); try lia; simpl; f_equal; lia.
Qed.

Lemma poke_ok b o l :
  0 <= o -> o + zlen l <= zlen b ->
  exists b', poke b o l = Some b' /\ zlen b' = zlen b /\
    forall i, 0 <= i < zlen b -> znth 0 b' i = if (o <=? i) && (i <? o + zlen l) then znth 0 l (i - o) else znth 0 b i.
Proof.
  intros Ho Hl; exists (splice b o l); unfold poke; destruct (Z.leb_spec 0 o), (Z.leb_spec (o + zlen l) (zlen b)); try lia.
  split; [done |]; split; [by apply zlen_splice | intros i Hi; by apply znth_splice].
Qed.

(** *** Words *)

Lemma zlen_bytes16 x : zlen (bytes16 x) = 2.
Proof. reflexivity. Qed.

Lemma zlen_bytes32 x : zlen (bytes32 x) = 4.
Proof. reflexivity. Qed.

Lemma zlen_zeroes n : 0 <= n -> zlen (zeroes n) = n.
Proof. apply zlen_replicate. Qed.

Lemma znth_zeroes n i : znth 0 (zeroes n) i = 0.
Proof.
  destruct (decide (0 <= i < n)); [by apply znth_replicate |]; apply znth_out; unfold zeroes, zlen; rewrite length_replicate; lia.
Qed.

(** The bytes of a part, read one by one. *)
Lemma znth_slice b o n i : 0 <= o -> 0 <= i < n -> znth 0 (slice b o n) i = znth 0 b (o + i).
Proof.
  intros Ho Hi; unfold slice, znth; destruct (Z.ltb_spec i 0), (Z.ltb_spec (o + i) 0); try lia.
  rewrite lookup_take_lt by lia; rewrite lookup_drop; do 2 f_equal; lia.
Qed.

Lemma zlen_slice b o n : 0 <= o -> 0 <= n -> o + n <= zlen b -> zlen (slice b o n) = n.
Proof. unfold slice, zlen; intros; rewrite length_take, length_drop; lia. Qed.

Lemma slice_ext b b' o n : zlen b' = zlen b -> 0 <= o -> (forall i, o <= i < o + n -> znth 0 b' i = znth 0 b i) -> slice b' o n = slice b o n.
Proof.
  intros Hl Ho E; assert (Z : zlen (slice b' o n) = zlen (slice b o n)) by (unfold slice, zlen in *; rewrite !length_take, !length_drop; lia).
  apply (znth_ext 0); [done |]; intros i Hi; assert (i < n) by (unfold slice, zlen in *; rewrite length_take in Hi; lia); rewrite !znth_slice by lia; apply E; lia.
Qed.

Lemma slice_all b n : zlen b = n -> slice b 0 n = b.
Proof. intros <-; unfold slice, zlen; by rewrite Nat2Z.id, drop_0, take_ge. Qed.

(** A word depends on its bytes only. *)
Lemma le16_ext b b' o o' : (forall k, 0 <= k < 2 -> znth 0 b (o + k) = znth 0 b' (o' + k)) -> le16 b o = le16 b' o'.
Proof. intros E; unfold le16; pose proof (E 0 ltac:(lia)) as E0; rewrite !Z.add_0_r in E0; by rewrite E0, (E 1) by lia. Qed.

Lemma le32_ext b b' o o' : (forall k, 0 <= k < 4 -> znth 0 b (o + k) = znth 0 b' (o' + k)) -> le32 b o = le32 b' o'.
Proof.
  intros E; unfold le32; f_equal; [| f_equal]; apply le16_ext; intros k Hk; rewrite <- ?Z.add_assoc; apply E; lia.
Qed.

Lemma le16_bytes16 x : 0 <= x < 65536 -> le16 (bytes16 x) 0 = x.
Proof.
  intros Hx; change (x mod 256 + 256 * (x / 256 mod 256) = x).
  rewrite (Z.mod_small (x / 256)) by (split; [apply Z.div_pos | apply Z.div_lt_upper_bound]; lia); pose proof (Z.div_mod x 256); lia.
Qed.

Lemma le32_bytes32 x : 0 <= x < 2 ^ 32 -> le32 (bytes32 x) 0 = x.
Proof.
  intros Hx; unfold le32, bytes32.
  assert (E1 : le16 (bytes16 x ++ bytes16 (x / 65536)) 0 = x mod 65536).
  { change (x mod 256 + 256 * (x / 256 mod 256) = x mod 65536); change 65536 with (256 * 256); rewrite (Z.rem_mul_r x 256 256) by lia; done. }
  assert (E2 : le16 (bytes16 x ++ bytes16 (x / 65536)) (0 + 2) = le16 (bytes16 (x / 65536)) 0).
  { apply le16_ext; intros k Hk; rewrite znth_app_r by (rewrite zlen_bytes16; lia); rewrite zlen_bytes16; f_equal; lia. }
  rewrite E1, E2, le16_bytes16 by (split; [apply Z.div_pos | apply Z.div_lt_upper_bound]; lia); pose proof (Z.div_mod x 65536); lia.
Qed.

Lemma le16_splice_eq b o x : 0 <= o -> o + 2 <= zlen b -> 0 <= x < 65536 -> le16 (splice b o (bytes16 x)) o = x.
Proof.
  intros Ho Hb Hx; rewrite <- (le16_bytes16 x) at 2 by done; apply le16_ext; intros k Hk; by rewrite znth_splice_in by (rewrite ?zlen_bytes16; lia).
Qed.

Lemma le32_splice_eq b o x : 0 <= o -> o + 4 <= zlen b -> 0 <= x < 2 ^ 32 -> le32 (splice b o (bytes32 x)) o = x.
Proof.
  intros Ho Hb Hx; rewrite <- (le32_bytes32 x) at 2 by done; apply le32_ext; intros k Hk; by rewrite znth_splice_in by (rewrite ?zlen_bytes32; lia).
Qed.

Lemma le16_splice_ne b o l p : 0 <= o -> o + zlen l <= zlen b -> 0 <= p -> p + 2 <= o \/ o + zlen l <= p -> le16 (splice b o l) p = le16 b p.
Proof. intros Ho Hl Hp Hd; apply le16_ext; intros k Hk; apply znth_splice_ne; lia. Qed.

Lemma le32_splice_ne b o l p : 0 <= o -> o + zlen l <= zlen b -> 0 <= p -> p + 4 <= o \/ o + zlen l <= p -> le32 (splice b o l) p = le32 b p.
Proof. intros Ho Hl Hp Hd; apply le32_ext; intros k Hk; apply znth_splice_ne; lia. Qed.

Lemma bytes_range b i : Forall (fun c => 0 <= c < 256) b -> 0 <= znth 0 b i < 256.
Proof. intros F; by apply (Forall_znth (fun c => 0 <= c < 256)). Qed.

Lemma le16_range b o : Forall (fun c => 0 <= c < 256) b -> 0 <= le16 b o < 65536.
Proof. intros F; unfold le16; pose proof (bytes_range b o F); pose proof (bytes_range b (o + 1) F); lia. Qed.

Lemma le32_range b o : Forall (fun c => 0 <= c < 256) b -> 0 <= le32 b o < 2 ^ 32.
Proof. intros F; unfold le32; pose proof (le16_range b o F); pose proof (le16_range b (o + 2) F); lia. Qed.

Lemma bytes16_ok x : Forall (fun c => 0 <= c < 256) (bytes16 x).
Proof. repeat constructor; apply Z.mod_pos_bound; lia. Qed.

Lemma bytes32_ok x : Forall (fun c => 0 <= c < 256) (bytes32 x).
Proof. apply Forall_app; split; apply bytes16_ok. Qed.

Lemma splice_ok b o l : Forall (fun c => 0 <= c < 256) b -> Forall (fun c => 0 <= c < 256) l -> Forall (fun c => 0 <= c < 256) (splice b o l).
Proof. intros Hb Hl; unfold splice; rewrite !Forall_app; split; [by apply Forall_take | split; [done | by apply Forall_drop]]. Qed.
End splice.

#[export] Hint Rewrite zlen_splice zlen_bytes16 zlen_bytes32 zlen_zeroes zlen_slice using (rewrite ?zlen_bytes16, ?zlen_bytes32; lia) : bytes.
