(* ===== verification/Bitmap.v ===== *)
(** * The page bitmap of the physical memory manager

    [kernel/mm/pmm.c], lines 131-243 and 1010-1057: one bit per page frame, in
    64-bit words, 1 = allocated or reserved.  The searches have word-level fast
    paths; each is proved equal to the search that looks at one bit at a time. *)
From stdpp Require Import base numbers list.
From S2P Require Import Prelude.

(** ** Operations on one bit *)

Definition bitmap_set (bitmap : list Z) (bit : Z) : list Z :=
  zset bitmap (bit / 64)
    (Z.lor (znth 0 bitmap (bit / 64)) (Z.shiftl 1 (bit mod 64))).

Definition bitmap_clear (bitmap : list Z) (bit : Z) : list Z :=
  zset bitmap (bit / 64)
    (Z.land (znth 0 bitmap (bit / 64)) (not64 (Z.shiftl 1 (bit mod 64)))).

Definition bitmap_test (bitmap : list Z) (bit : Z) : bool :=
  negb (Z.land (znth 0 bitmap (bit / 64)) (Z.shiftl 1 (bit mod 64)) =? 0).

(** [__builtin_ctzll]: the number of trailing zero bits of a non-zero word. *)
Fixpoint ctz_from (x : Z) (i : Z) (n : nat) : Z :=
  match n with
  | O => i
  | S m => if Z.testbit x i then i else ctz_from x (i + 1) m
  end.
Definition ctzll (x : Z) : Z := ctz_from x 0 64.

#[global] Arguments bitmap_set bitmap bit : simpl never.
#[global] Arguments bitmap_clear bitmap bit : simpl never.
#[global] Arguments bitmap_test bitmap bit : simpl never.

(** ** Searching for a free bit *)

(** Head of [bitmap_find_free]: single bits up to a word boundary.  [inl i]:
    go on from [i]; [inr i]: bit [i] is free. *)
Definition find_free_head (bitmap : list Z) (end_ : Z) (i : Z) : Z + (Z + Z) :=
  if (i <? end_) && negb (Z.land i 63 =? 0) then
    if negb (bitmap_test bitmap i) then inr (inr i) else inl (u64 (i + 1))
  else inr (inl i).

(** Body: whole words; a word with no free bit is skipped in one comparison. *)
Definition find_free_body (bitmap : list Z) (end_ : Z) (i : Z) : Z + (Z + Z) :=
  if u64 (i + 64) <=? end_ then
    let w := znth 0 bitmap (i / 64) in
    if negb (w =? ones64) then inr (inr (u64 (i + ctzll (not64 w))))
    else inl (u64 (i + 64))
  else inr (inl i).

(** Tail: the last bits, fewer than a word. *)
Definition find_free_tail (bitmap : list Z) (end_ : Z) (i : Z) : Z + (Z + Z) :=
  if i <? end_ then
    if negb (bitmap_test bitmap i) then inr (inr i) else inl (u64 (i + 1))
  else inr (inl i).

(** Rounds enough for a loop that starts at [start] and advances to [end_]. *)
Definition scan_fuel (start end_ : Z) : nat := S (Z.to_nat (end_ - start)).

Definition bitmap_find_free (bitmap : list Z) (start end_ : Z) : Z :=
  let fuel := scan_fuel start end_ in
  match loop fuel (find_free_head bitmap end_) start with
  | Some (inr r) => i64 r
  | Some (inl i) =>
    match loop fuel (find_free_body bitmap end_) i with
    | Some (inr r) => i64 r
    | Some (inl i) =>
      match loop fuel (find_free_tail bitmap end_) i with
      | Some (inr r) => i64 r
      | _ => -1
      end
    | None => -1
    end
  | None => -1
  end.

(** ** Searching for a run of free bits *)

Record run_state := { rs_found : Z; rs_first : Z; rs_i : Z }.

Definition find_contiguous_step (bitmap : list Z) (end_ count : Z) (s : run_state) :
    run_state + Z :=
  if rs_i s <? end_ then
    if (rs_found s =? 0) && (Z.land (rs_i s) 63 =? 0) && (u64 (rs_i s + 64) <=? end_)
       && (znth 0 bitmap (rs_i s / 64) =? ones64)
    then inl {| rs_found := rs_found s; rs_first := rs_first s; rs_i := u64 (rs_i s + 64) |}
    else if negb (bitmap_test bitmap (rs_i s)) then
      let first := if rs_found s =? 0 then rs_i s else rs_first s in
      let found := u64 (rs_found s + 1) in
      if found =? count then inr (i64 first)
      else inl {| rs_found := found; rs_first := first; rs_i := u64 (rs_i s + 1) |}
    else inl {| rs_found := 0; rs_first := rs_first s; rs_i := u64 (rs_i s + 1) |}
  else inr (-1).

Definition bitmap_find_contiguous (bitmap : list Z) (start end_ count : Z) : Z :=
  default (-1)
    (loop (scan_fuel start end_) (find_contiguous_step bitmap end_ count)
       {| rs_found := 0; rs_first := 0; rs_i := start |}).

(** ** Fragmentation scan *)

(** The scan's variables: length of the current run, longest run so far,
    number of runs, and whether the last bit was free. *)
Record frag := { fr_cur : Z; fr_max : Z; fr_runs : Z; fr_in : bool }.

Definition frag0 : frag := {| fr_cur := 0; fr_max := 0; fr_runs := 0; fr_in := false |}.

(** [n] more free bits. *)
Definition frag_free (n : Z) (f : frag) : frag :=
  let runs := if fr_in f then fr_runs f else u64 (fr_runs f + 1) in
  let cur := if fr_in f then fr_cur f else 0 in
  let cur := u64 (cur + n) in
  {| fr_cur := cur; fr_max := if fr_max f <? cur then cur else fr_max f;
     fr_runs := runs; fr_in := true |}.

Definition frag_used (f : frag) : frag :=
  {| fr_cur := 0; fr_max := fr_max f; fr_runs := fr_runs f; fr_in := false |}.

(** One word of the scan, of which [bits] bits belong to the zone. *)
Definition frag_word (w bits : Z) (f : frag) : frag :=
  if (w =? 0) && (bits =? 64) then frag_free 64 f
  else if w =? ones64 then frag_used f
  else
    foldl (fun f b => if Z.land w (Z.shiftl 1 b) =? 0 then frag_free 1 f else frag_used f)
      f (seqZ 0 bits).

(** [pmm_get_fragmentation] on a zone of [npages] pages: longest run of free
    pages and number of runs. *)
Definition fragmentation (bitmap : list Z) (npages : Z) : Z * Z :=
  let nwords := u64 (npages + 63) / 64 in
  let f :=
    foldl (fun f wi =>
        let bits := if (wi =? nwords - 1) && negb (npages mod 64 =? 0)
                    then npages mod 64 else 64 in
        frag_word (znth 0 bitmap wi) bits f)
      frag0 (seqZ 0 nwords) in
  (fr_max f, fr_runs f).

(** ** Reference definitions: one bit at a time *)

Definition is_free (bitmap : list Z) (bit : Z) : bool := negb (bitmap_test bitmap bit).

(** The least index in [i .. i+n-1] that satisfies [p], or -1. *)
Fixpoint first_from (p : Z -> bool) (i : Z) (n : nat) : Z :=
  match n with
  | O => -1
  | S m => if p i then i else first_from p (i + 1) m
  end.

(** All of [r .. r+n-1] satisfy [p]. *)
Fixpoint all_from (p : Z -> bool) (r : Z) (n : nat) : bool :=
  match n with
  | O => true
  | S m => p r && all_from p (r + 1) m
  end.

(** The number of free pages of a zone of [n] pages. *)
Definition free_count (bitmap : list Z) (n : Z) : Z := zcount (is_free bitmap) (Z.to_nat n).

(** A bitmap that has a word for each of [n] pages. *)
Definition bitmap_ok (bitmap : list Z) (n : Z) : Prop :=
  Forall is_u64 bitmap /\ 0 <= n <= 64 * zlen bitmap.

(** ** Single bits *)

Lemma land_shl1_zero w k : 0 <= k -> (Z.land w (Z.shiftl 1 k) =? 0) = negb (Z.testbit w k).
Proof.
  intros Hk; destruct (Z.testbit w k) eqn:E; simpl.
  - apply Z.eqb_neq; intros H.
    assert (T : Z.testbit (Z.land w (Z.shiftl 1 k)) k = true)
      by (rewrite Z.land_spec, testbit_shl1, E, Z.eqb_refl by lia; done).
    rewrite H, Z.bits_0 in T; done.
  - apply Z.eqb_eq, Z.bits_inj'; intros i Hi.
    rewrite Z.land_spec, testbit_shl1, Z.bits_0 by lia.
    destruct (Z.eqb_spec i k) as [-> |]; [by rewrite E | by rewrite andb_false_r].
Qed.

Lemma bitmap_test_bit bm k : bitmap_test bm k = Z.testbit (znth 0 bm (k / 64)) (k mod 64).
Proof.
  unfold bitmap_test; rewrite land_shl1_zero by (pose proof (Z.mod_pos_bound k 64); lia).
  apply negb_involutive.
Qed.

Lemma word_u64 bm i : Forall is_u64 bm -> is_u64 (znth 0 bm i).
Proof. intros; apply Forall_znth; [done | unfold is_u64; lia]. Qed.

Lemma div64_range k n : 0 <= k -> k < 64 * n -> 0 <= k / 64 < n.
Proof. intros; split; [apply Z.div_pos; lia | apply Z.div_lt_upper_bound; lia]. Qed.

Lemma zlen_bitmap_set bm k : zlen (bitmap_set bm k) = zlen bm.
Proof. apply zlen_zset. Qed.

Lemma zlen_bitmap_clear bm k : zlen (bitmap_clear bm k) = zlen bm.
Proof. apply zlen_zset. Qed.

(** A bit index is its word and its position in the word. *)
Lemma bit_index_eq j k : (j / 64 = k / 64 /\ j mod 64 = k mod 64) <-> j = k.
Proof.
  split; [| by intros ->]; intros [Hd Hm].
  rewrite (Z.div_mod j 64), (Z.div_mod k 64), Hd, Hm by lia; done.
Qed.

Lemma test_set bm k j :
  0 <= k < 64 * zlen bm -> bitmap_test (bitmap_set bm k) j = (j =? k) || bitmap_test bm j.
Proof.
  intros Hk; rewrite !bitmap_test_bit; unfold bitmap_set.
  assert (0 <= k / 64 < zlen bm) by (apply div64_range; lia).
  assert (B := Z.mod_pos_bound k 64); assert (C := Z.mod_pos_bound j 64).
  rewrite znth_zset by done; destruct (Z.eqb_spec (k / 64) (j / 64)) as [E | E].
  - rewrite Z.lor_spec, testbit_shl1 by lia; rewrite <- E, orb_comm; f_equal.
    apply Bool.eq_iff_eq_true; rewrite !Z.eqb_eq, <- (bit_index_eq j k); intuition congruence.
  - destruct (Z.eqb_spec j k) as [-> |]; [congruence | done].
Qed.

Lemma test_clear bm k j :
  0 <= k < 64 * zlen bm ->
  bitmap_test (bitmap_clear bm k) j = negb (j =? k) && bitmap_test bm j.
Proof.
  intros Hk; rewrite !bitmap_test_bit; unfold bitmap_clear.
  assert (0 <= k / 64 < zlen bm) by (apply div64_range; lia).
  assert (B := Z.mod_pos_bound k 64); assert (C := Z.mod_pos_bound j 64).
  rewrite znth_zset by done; destruct (Z.eqb_spec (k / 64) (j / 64)) as [E | E].
  - rewrite Z.land_spec, testbit_not64, testbit_shl1 by lia; rewrite <- E, andb_comm; f_equal.
    f_equal; apply Bool.eq_iff_eq_true; rewrite !Z.eqb_eq, <- (bit_index_eq j k); intuition congruence.
  - destruct (Z.eqb_spec j k) as [-> |]; [congruence | done].
Qed.

Lemma is_free_set bm k j :
  0 <= k < 64 * zlen bm -> is_free (bitmap_set bm k) j = negb (j =? k) && is_free bm j.
Proof. intros; unfold is_free; rewrite test_set by done; apply negb_orb. Qed.

Lemma is_free_clear bm k j :
  0 <= k < 64 * zlen bm -> is_free (bitmap_clear bm k) j = (j =? k) || is_free bm j.
Proof.
  intros; unfold is_free; rewrite test_clear, negb_andb, negb_involutive by done; done.
Qed.

Lemma bitmap_set_ok bm n k : bitmap_ok bm n -> bitmap_ok (bitmap_set bm k) n.
Proof.
  intros [Hw Hn]; split; [| by rewrite zlen_bitmap_set].
  apply Forall_zset; [done |]; apply lor_u64; [by apply word_u64 |].
  apply shl1_u64; apply Z.mod_pos_bound; lia.
Qed.

Lemma bitmap_clear_ok bm n k : bitmap_ok bm n -> bitmap_ok (bitmap_clear bm k) n.
Proof.
  intros [Hw Hn]; split; [| by rewrite zlen_bitmap_clear].
  apply Forall_zset; [done |]; apply land_u64; by apply word_u64.
Qed.

#[export] Hint Resolve bitmap_set_ok bitmap_clear_ok : pmm.
#[export] Hint Rewrite zlen_bitmap_set zlen_bitmap_clear : arr.

Lemma free_count_set bm n k :
  bitmap_ok bm n -> 0 <= k < n -> is_free bm k = true ->
  free_count (bitmap_set bm k) n = free_count bm n - 1.
Proof.
  intros [_ Hn] Hk Hf; apply (zcount_off _ _ _ k); [lia | done | |].
  - rewrite is_free_set, Z.eqb_refl by lia; done.
  - intros i Hi; rewrite is_free_set by lia; apply Z.eqb_neq in Hi; by rewrite Hi.
Qed.

Lemma free_count_clear bm n k :
  bitmap_ok bm n -> 0 <= k < n -> is_free bm k = false ->
  free_count (bitmap_clear bm k) n = free_count bm n + 1.
Proof.
  intros [_ Hn] Hk Hf; apply (zcount_on _ _ _ k); [lia | done | |].
  - rewrite is_free_clear, Z.eqb_refl by lia; done.
  - intros i Hi; rewrite is_free_clear by lia; apply Z.eqb_neq in Hi; by rewrite Hi.
Qed.

(** ** [bitmap_find_free] is the bit-by-bit search *)

(** [r] is the least index of [s .. e-1] satisfying [p], or -1 if none does. *)
Definition least_in (p : Z -> bool) (s e r : Z) : Prop :=
  (r = -1 /\ forall i, s <= i < e -> p i = false) \/
  (s <= r < e /\ p r = true /\ forall i, s <= i < r -> p i = false).

Lemma least_in_unique p s e r1 r2 :
  0 <= s -> least_in p s e r1 -> least_in p s e r2 -> r1 = r2.
Proof.
  intros Hs [[-> H1] | (B1 & P1 & H1)] [[-> H2] | (B2 & P2 & H2)]; [done | | |].
  - rewrite H1 in P2 by lia; done.
  - rewrite H2 in P1 by lia; done.
  - destruct (Z.lt_trichotomy r1 r2) as [L | [-> | L]]; [| done |].
    + rewrite H2 in P1 by lia; done.
    + rewrite H1 in P2 by lia; done.
Qed.

Lemma first_from_least p n i : least_in p i (i + Z.of_nat n) (first_from p i n).
Proof.
  revert i; induction n as [| n IH]; intros i; cbn [first_from].
  - left; split; [done | lia].
  - destruct (p i) eqn:E.
    + right; repeat split; try done; lia.
    + destruct (IH (i + 1)) as [[-> H] | (B & P & H)]; [left | right].
      * split; [done |]; intros j Hj; destruct (Z.eq_dec j i) as [-> |]; [done | apply H; lia].
      * repeat split; try done; try lia.
        intros j Hj; destruct (Z.eq_dec j i) as [-> |]; [done | apply H; lia].
Qed.

(** Putting a prefix with no hit in front of a search. *)
Lemma least_in_extend p s m e r :
  s <= m -> (forall i, s <= i < m -> p i = false) -> least_in p m e r -> least_in p s e r.
Proof.
  intros Hm Hpre [[-> H] | (B & P & H)]; [left | right].
  - split; [done |]; intros i Hi; destruct (Z_lt_le_dec i m); [apply Hpre | apply H]; lia.
  - repeat split; try done; try lia.
    intros i Hi; destruct (Z_lt_le_dec i m); [apply Hpre | apply H]; lia.
Qed.

Lemma ctz_from_spec x n i :
  (exists k, i <= k < i + Z.of_nat n /\ Z.testbit x k = true) ->
  i <= ctz_from x i n < i + Z.of_nat n /\ Z.testbit x (ctz_from x i n) = true /\
  forall k, i <= k < ctz_from x i n -> Z.testbit x k = false.
Proof.
  revert i; induction n as [| n IH]; intros i (k & Hk & Tk); [lia |]; cbn [ctz_from].
  destruct (Z.testbit x i) eqn:E; [repeat split; try done; lia |].
  destruct (IH (i + 1)) as (B & T & L).
  { exists k; split; [| done]; destruct (Z.eq_dec k i) as [-> |]; [congruence | lia]. }
  repeat split; try done; try lia.
  intros j Hj; destruct (Z.eq_dec j i) as [-> |]; [done | apply L; lia].
Qed.

(** A word that is not all ones has a clear bit, and [ctzll (~w)] is the lowest. *)
Lemma ctzll_not_full w :
  is_u64 w -> w <> ones64 ->
  0 <= ctzll (not64 w) < 64 /\ Z.testbit w (ctzll (not64 w)) = false /\
  forall k, 0 <= k < ctzll (not64 w) -> Z.testbit w k = true.
Proof.
  intros Hw Hne; destruct (ctz_from_spec (not64 w) 64 0) as (B & T & L).
  - destruct (first_from_least (fun k => negb (Z.testbit w k)) 64 0) as [[_ H] | (B & P & _)].
    + destruct Hne; apply u64_bits_eq; [done | unfold is_u64, ones64; lia |].
      intros i Hi; rewrite testbit_ones64 by lia; specialize (H i).
      cbv beta in H; destruct (Z.testbit w i); [done | discriminate H; lia].
    + eexists; split; [apply B |]; rewrite testbit_not64 by lia; done.
  - change (ctz_from (not64 w) 0 64) with (ctzll (not64 w)) in *.
    change (0 + Z.of_nat 64) with 64 in B; split; [done |].
    rewrite testbit_not64 in T by lia; apply negb_true_iff in T; split; [done |].
    intros k Hk; specialize (L k Hk); rewrite testbit_not64 in L by lia.
    by apply negb_false_iff in L.
Qed.

Lemma land63 i : Z.land i 63 = i mod 64.
Proof. change 63 with (Z.ones 6); rewrite Z.land_ones by lia; done. Qed.

(** Bits of an aligned word. *)
Lemma is_free_aligned bm i k :
  i mod 64 = 0 -> 0 <= k < 64 ->
  is_free bm (i + k) = negb (Z.testbit (znth 0 bm (i / 64)) k).
Proof.
  intros Hi Hk; unfold is_free; rewrite bitmap_test_bit.
  assert (E : i = 64 * (i / 64)) by (pose proof (Z.div_mod i 64); lia).
  replace (i + k) with (k + (i / 64) * 64) at 1 2 by lia.
  rewrite Z.div_add, Z.mod_add, (Z.div_small k), (Z.mod_small k) by lia; done.
Qed.

Lemma full_word_used bm i k :
  i mod 64 = 0 -> znth 0 bm (i / 64) = ones64 -> i <= k < i + 64 -> is_free bm k = false.
Proof.
  intros Hi Hw Hk; replace k with (i + (k - i)) by lia.
  rewrite is_free_aligned, Hw, testbit_ones64 by lia; done.
Qed.

(** What each phase of [bitmap_find_free] leaves behind, seen from the index
    [s] it started at: either the answer, or an index to go on from with no
    free bit before it. *)
Definition phase_ok (bm : list Z) (s e : Z) (Q : Z -> Prop) (r : Z + Z) : Prop :=
  match r with
  | inr r => least_in (is_free bm) s e r /\ s <= r
  | inl i => s <= i /\ (i <= e \/ i = s) /\ (forall j, s <= j < i -> is_free bm j = false) /\ Q i
  end.

Definition at_most_2_62 (e : Z) : Prop := e <= 2 ^ 62.

Lemma phase_bitwise bm s e (step : Z -> Z + (Z + Z)) (more : Z -> bool) (Q : Z -> Prop) :
  0 <= s -> at_most_2_62 e ->
  (forall i, step i = if (i <? e) && more i
                      then if negb (bitmap_test bm i) then inr (inr i) else inl (u64 (i + 1))
                      else inr (inl i)) ->
  (forall i, s <= i -> (i <? e) && more i = false -> Q i) ->
  exists r, loop (scan_fuel s e) step s = Some r /\ phase_ok bm s e Q r.
Proof.
  unfold at_most_2_62; intros Hs He Hstep HQ.
  apply (loop_total
    (fun i => s <= i /\ (i <= e \/ i = s) /\ forall j, s <= j < i -> is_free bm j = false)
    (fun i => Z.to_nat (e - i))); [| repeat split; lia | unfold scan_fuel; lia].
  intros i (Hi & Hie & Hpre); rewrite Hstep.
  destruct ((i <? e) && more i) eqn:E.
  - apply andb_true_iff in E; destruct E as [E _]; zbool.
    change (negb (bitmap_test bm i)) with (is_free bm i); destruct (is_free bm i) eqn:F.
    + split; [| lia]; right; repeat split; auto; lia.
    + rewrite u64_small by lia; repeat split; try lia.
      intros j Hj; destruct (Z.eq_dec j i) as [-> |]; [done | apply Hpre; lia].
  - repeat split; auto.
Qed.

Lemma phase_body bm s e :
  0 <= s <= 2 ^ 62 -> at_most_2_62 e -> Forall is_u64 bm -> (s mod 64 = 0 \/ e <= s) ->
  exists r, loop (scan_fuel s e) (find_free_body bm e) s = Some r /\
            phase_ok bm s e (fun _ => True) r.
Proof.
  unfold at_most_2_62; intros Hs He Hbm Hal.
  apply (loop_total
    (fun i => s <= i /\ (i <= e \/ i = s) /\ (i mod 64 = 0 \/ e <= i) /\
              forall j, s <= j < i -> is_free bm j = false)
    (fun i => Z.to_nat (e - i))); [| repeat split; try lia | unfold scan_fuel; lia].
  intros i (Hi & Hie & Hia & Hpre); unfold find_free_body.
  rewrite (u64_small (i + 64)) by lia.
  destruct (Z.leb_spec (i + 64) e) as [Hw |]; [| repeat split; auto; lia].
  assert (Ha : i mod 64 = 0) by lia.
  destruct (Z.eqb_spec (znth 0 bm (i / 64)) ones64) as [Hf | Hf]; simpl.
  - repeat split; try lia.
    + left; rewrite Zplus_mod, Ha; done.
    + intros j Hj; destruct (Z_lt_le_dec j i); [apply Hpre; lia |].
      apply (full_word_used bm i); auto; lia.
  - destruct (ctzll_not_full (znth 0 bm (i / 64))) as (B & T & L); [by apply word_u64 | done |].
    rewrite u64_small by lia; split; [| lia]; right; repeat split; try lia.
    + rewrite is_free_aligned, T by lia; done.
    + intros j Hj; destruct (Z_lt_le_dec j i); [apply Hpre; lia |].
      replace j with (i + (j - i)) by lia; rewrite is_free_aligned, L by lia; done.
Qed.

(** The result of a search, whatever phase found it. *)
Lemma least_in_i64 p s e r : e <= 2 ^ 62 -> 0 <= s -> least_in p s e r -> i64 r = r.
Proof. intros He Hs [[-> _] | (B & _)]; [done | apply i64_small; lia]. Qed.

(** A longer bound on the rounds does not change the answer. *)
Lemma loop_mono {S R} (step : S -> S + R) n m s r :
  (n <= m)%nat -> loop n step s = Some r -> loop m step s = Some r.
Proof.
  revert m s; induction n as [| n IH]; intros m s Hm H; [done |].
  destruct m as [| m]; [lia |]; simpl in *; destruct (step s); [apply IH; [lia | done] | done].
Qed.

Lemma scan_fuel_mono s s' e : s <= s' -> (scan_fuel s' e <= scan_fuel s e)%nat.
Proof. unfold scan_fuel; lia. Qed.

Lemma find_free_least bm s e :
  0 <= s <= 2 ^ 62 -> e <= 2 ^ 62 -> Forall is_u64 bm ->
  least_in (is_free bm) s e (bitmap_find_free bm s e).
Proof.
  intros Hs He Hbm; unfold bitmap_find_free.
  destruct (phase_bitwise bm s e (find_free_head bm e) (fun i => negb (Z.land i 63 =? 0))
              (fun i => i mod 64 = 0 \/ e <= i)) as ([i | r] & E & Hp);
    [lia | done | done | | |].
  { cbv beta; intros i Hi H; rewrite land63 in H; destruct (Z.ltb_spec i e); [| by right].
    left; simpl in H; zbool; done. }
  - rewrite E; destruct Hp as (Hi & Hie & Hpre & Hal).
    destruct (phase_body bm i e) as (r & E2 & Hp2); [lia | done | done | done |].
    rewrite (loop_mono _ _ _ _ _ (scan_fuel_mono s i e Hi) E2).
    destruct r as [k | r]; simpl in Hp2.
    + destruct Hp2 as (Hk & Hke & Hpre2 & _).
      destruct (phase_bitwise bm k e (find_free_tail bm e) (fun _ => true) (fun i => e <= i))
        as (r & E3 & Hp3); [lia | done | | |].
      { intros j; rewrite andb_true_r; done. }
      { intros j Hj H; rewrite andb_true_r in H; zbool; done. }
      apply (loop_mono _ _ (scan_fuel s e)) in E3; [| apply scan_fuel_mono; lia].
      rewrite E3.
      destruct r as [m | r]; simpl in Hp3.
      * destruct Hp3 as (Hm & _ & Hpre3 & Hme); left; split; [done |].
        intros j Hj; destruct (Z_lt_le_dec j i); [apply Hpre; lia |].
        destruct (Z_lt_le_dec j k); [apply Hpre2; lia | apply Hpre3; lia].
      * destruct Hp3 as [Hl _]; rewrite (least_in_i64 _ k e r) by (done || lia).
        apply (least_in_extend _ s i); [lia | auto |].
        apply (least_in_extend _ i k); auto; lia.
    + destruct Hp2 as [Hl _]; rewrite (least_in_i64 _ i e r) by (done || lia).
      apply (least_in_extend _ s i); auto; lia.
  - rewrite E; destruct Hp as [Hl _].
    rewrite (least_in_i64 _ s e r) by (done || lia); done.
Qed.

(** ** [bitmap_find_contiguous] finds the lowest run *)

(** [r] is the start of the lowest run of [count] free bits inside [s .. e-1],
    or -1 if there is none. *)
Definition lowest_run (bm : list Z) (s e count r : Z) : Prop :=
  (r = -1 /\ forall q, s <= q -> q + count <= e -> exists j, q <= j < q + count /\ is_free bm j = false) \/
  (s <= r /\ r + count <= e /\ (forall j, r <= j < r + count -> is_free bm j = true) /\
   forall q, s <= q < r -> exists j, q <= j < q + count /\ is_free bm j = false).

Definition run_inv (bm : list Z) (s e count : Z) (st : run_state) : Prop :=
  s <= rs_i st /\ (rs_i st <= e \/ rs_i st = s) /\ 0 <= rs_found st < count /\
  s <= rs_i st - rs_found st /\
  (rs_found st <> 0 -> rs_first st = rs_i st - rs_found st) /\
  (forall j, rs_i st - rs_found st <= j < rs_i st -> is_free bm j = true) /\
  (forall q, s <= q < rs_i st - rs_found st -> exists j, q <= j < q + count /\ is_free bm j = false).

Lemma find_contiguous_lowest bm s e count :
  0 <= s <= 2 ^ 62 -> e <= 2 ^ 62 -> 0 < count ->
  lowest_run bm s e count (bitmap_find_contiguous bm s e count).
Proof.
  intros Hs He Hc; unfold bitmap_find_contiguous.
  edestruct (loop_total (run_inv bm s e count) (fun st => Z.to_nat (e - rs_i st))
               (lowest_run bm s e count)) as (r & -> & Hr); [| | | exact Hr].
  2:{ unfold run_inv; simpl; repeat split; try lia. }
  2:{ unfold scan_fuel; simpl; lia. }
  intros [fd ft i] (Hi & Hie & Hf & Hfs & Hft & Hrun & Hno); simpl in *.
  unfold find_contiguous_step; simpl; destruct (Z.ltb_spec i e) as [Hlt |].
  2:{ left; split; [done |]; intros q Hq Hqe.
      destruct (Z_lt_le_dec q (i - fd)); [apply Hno; lia | lia]. }
  rewrite (u64_small (i + 64)), (u64_small (i + 1)), (u64_small (fd + 1)) by lia.
  destruct (_ && _) eqn:Hskip.
  - zbool; rewrite land63 in *; split; [| simpl; lia].
    unfold run_inv; simpl; repeat split; try lia.
    intros q Hq; destruct (Z_lt_le_dec q (i - fd)); [apply Hno; lia |].
    exists q; split; [lia |]; apply (full_word_used bm i); auto; lia.
  - clear Hskip; change (negb (bitmap_test bm i)) with (is_free bm i).
    destruct (is_free bm i) eqn:F.
    + assert (Hfirst : (if fd =? 0 then i else ft) = i - fd)
        by (destruct (Z.eqb_spec fd 0); [lia | auto]).
      assert (Hrun' : forall j, i - fd <= j < i + 1 -> is_free bm j = true).
      { intros j Hj; destruct (Z.eq_dec j i) as [-> |]; [done | apply Hrun; lia]. }
      rewrite Hfirst; destruct (Z.eqb_spec (fd + 1) count).
      * rewrite i64_small by lia; right; repeat split; try lia.
        -- intros j Hj; apply Hrun'; lia.
        -- intros q Hq; apply Hno; lia.
      * split; [| simpl; lia]; unfold run_inv; simpl; repeat split; try lia.
        -- intros j Hj; apply Hrun'; lia.
        -- intros q Hq; apply Hno; lia.
    + split; [| simpl; lia]; unfold run_inv; simpl; repeat split; try lia.
      intros q Hq; destruct (Z_lt_le_dec q (i - fd)); [apply Hno; lia |].
      exists i; split; [lia | done].
Qed.

(** ** The fragmentation scan *)

(** Bit [i] is the first of a run of free bits. *)
Definition run_start (bm : list Z) (i : Z) : bool :=
  is_free bm i && ((i =? 0) || negb (is_free bm (i - 1))).

Definition free_run (bm : list Z) (r len : Z) : Prop :=
  forall j, r <= j < r + len -> is_free bm j = true.

(** The scan's variables describe the first [i] bits. *)
Record frag_inv (bm : list Z) (i : Z) (f : frag) : Prop := {
  fi_in : fr_in f = true ->
    0 < fr_cur f <= i /\ free_run bm (i - fr_cur f) (fr_cur f) /\
    (fr_cur f = i \/ is_free bm (i - fr_cur f - 1) = false);
  fi_out : fr_in f = false -> i = 0 \/ is_free bm (i - 1) = false;
  fi_runs : fr_runs f = zcount (run_start bm) (Z.to_nat i);
  fi_max : 0 <= fr_max f <= i;
  fi_longest : forall r len, 0 <= r -> r + len <= i -> free_run bm r len -> len <= fr_max f;
  fi_attained : exists r, 0 <= r /\ r + fr_max f <= i /\ free_run bm r (fr_max f) }.

Lemma frag_inv0 bm : frag_inv bm 0 frag0.
Proof.
  constructor; simpl; try done; try lia; exists 0.
  repeat split; try lia; intros j Hj; lia.
Qed.

Lemma frag_free_inv bm i n f :
  0 <= i -> 0 < n -> i + n < 2 ^ 64 -> free_run bm i n ->
  frag_inv bm i f -> frag_inv bm (i + n) (frag_free n f).
Proof.
  intros Hi Hn Hb Hrun [Hin Hout Hruns Hmax Hlong (r0 & Hr0 & Hr0e & Hr0f)].
  assert (Hcur : let c := if fr_in f then fr_cur f else 0 in
            0 <= c <= i /\ free_run bm (i - c) c /\ (c = i \/ is_free bm (i - c - 1) = false)).
  { destruct (fr_in f); simpl.
    - destruct (Hin eq_refl) as (? & ? & ?); repeat split; auto; lia.
    - rewrite Z.sub_0_r; repeat split; try lia; [intros j Hj; lia |].
      destruct (Hout eq_refl); auto. }
  assert (Hst : run_start bm i = negb (fr_in f)).
  { unfold run_start; rewrite (Hrun i) by lia; destruct (fr_in f).
    - destruct (Hin eq_refl) as (? & Hf & _); rewrite (Hf (i - 1)) by lia.
      destruct (Z.eqb_spec i 0); [lia | done].
    - destruct (Hout eq_refl) as [-> | ->]; [done | by rewrite orb_true_r]. }
  assert (Hz := zcount_bounds (run_start bm) (Z.to_nat i)).
  unfold frag_free; simpl; set (c := if fr_in f then fr_cur f else 0) in *.
  destruct Hcur as (Hc & Hcf & Hcl); rewrite (u64_small (c + n)) by lia.
  assert (Hcn : free_run bm (i - c) (c + n)).
  { intros j Hj; destruct (Z_lt_le_dec j i); [apply Hcf | apply Hrun]; lia. }
  constructor; simpl.
  - intros _; split; [lia |]; replace (i + n - (c + n)) with (i - c) by lia.
    split; [done |]; destruct Hcl as [-> |]; [by left | right; done].
  - done.
  - rewrite (zcount_skip _ (i + 1) (i + n)).
    + replace (Z.to_nat (i + 1)) with (S (Z.to_nat i)) by lia; cbn [zcount].
      rewrite Z2Nat.id, Hst, Hruns by lia; destruct (fr_in f); simpl; [lia |].
      rewrite u64_small by lia; lia.
    + lia.
    + intros j Hj; unfold run_start; rewrite (Hrun (j - 1)) by lia.
      destruct (Z.eqb_spec j 0); [lia |]; simpl; apply andb_false_r.
  - case_if; lia.
  - intros r len Hr Hre Hrf; destruct (Z_le_gt_dec (r + len) i).
    + assert (len <= fr_max f) by (apply (Hlong r); auto); case_if; lia.
    + assert (i - c <= r).
      { destruct (Z_lt_le_dec r (i - c)); [| done]; destruct Hcl as [-> | Hu]; [lia |].
        rewrite Hrf in Hu by lia; done. }
      case_if; lia.
  - case_if.
    + exists (i - c); repeat split; [lia | lia | done].
    + exists r0; repeat split; [lia | lia | done].
Qed.

Lemma frag_used_inv bm i n f :
  0 <= i -> 0 < n -> (forall j, i <= j < i + n -> is_free bm j = false) ->
  frag_inv bm i f -> frag_inv bm (i + n) (frag_used f).
Proof.
  intros Hi Hn Hu [Hin Hout Hruns Hmax Hlong (r0 & Hr0 & Hr0e & Hr0f)].
  constructor; simpl; try done; try lia.
  - intros _; right; apply Hu; lia.
  - rewrite Hruns; symmetry; apply zcount_skip; [lia |].
    intros j Hj; unfold run_start; rewrite Hu by lia; done.
  - intros r len Hr Hre Hrf; destruct (Z_le_gt_dec (r + len) i); [apply (Hlong r); auto |].
    destruct (Z_le_gt_dec len 0); [lia |].
    specialize (Hu (Z.max r i)); rewrite Hrf in Hu by lia; discriminate Hu; lia.
  - exists r0; repeat split; auto; lia.
Qed.

Lemma frag_word_inv bm i bits f :
  0 <= i -> i mod 64 = 0 -> 0 < bits <= 64 -> i + bits < 2 ^ 64 -> Forall is_u64 bm ->
  frag_inv bm i f -> frag_inv bm (i + bits) (frag_word (znth 0 bm (i / 64)) bits f).
Proof.
  intros Hi Ha Hb Hlt Hbm Hf; unfold frag_word.
  destruct (_ && _) eqn:E.
  - zbool; subst bits; apply frag_free_inv; auto; try lia.
    intros j Hj; replace j with (i + (j - i)) by lia.
    match goal with H : znth 0 bm _ = 0 |- _ => rewrite is_free_aligned, H, Z.bits_0 by lia end; done.
  - clear E; destruct (Z.eqb_spec (znth 0 bm (i / 64)) ones64) as [Hw | Hw].
    + apply frag_used_inv; auto; try lia; intros j Hj; apply (full_word_used bm i); auto; lia.
    + apply (foldl_seqZ_inv (fun k => frag_inv bm (i + k)) _ 0 bits f); [lia | by rewrite Z.add_0_r |].
      intros k t Hk Ht; rewrite land_shl1_zero by lia; rewrite Z.add_assoc.
      assert (Hfk := is_free_aligned bm i k Ha ltac:(lia)).
      destruct (Z.testbit _ k); simpl in Hfk |- *.
      * apply frag_used_inv; auto; try lia.
        intros j Hj; replace j with (i + k) by lia; done.
      * apply frag_free_inv; auto; try lia.
        intros j Hj; replace j with (i + k) by lia; done.
Qed.

Lemma fragmentation_inv bm n :
  bitmap_ok bm n -> n <= 2 ^ 62 ->
  exists f, fragmentation bm n = (fr_max f, fr_runs f) /\ frag_inv bm n f.
Proof.
  intros [Hbm Hn] Hlt; unfold fragmentation; rewrite u64_small by lia.
  eexists; split; [reflexivity |].
  assert (Hd := Z.div_mod (n + 63) 64 ltac:(lia)); assert (Hm := Z.mod_pos_bound (n + 63) 64 ltac:(lia)).
  set (nw := (n + 63) / 64) in *.
  replace n with (Z.min (64 * (0 + nw)) n) at 1 by lia.
  apply (foldl_seqZ_inv (fun wi => frag_inv bm (Z.min (64 * wi) n))); [lia | |].
  { replace (Z.min (64 * 0) n) with 0 by lia; apply frag_inv0. }
  intros k t Hk Ht; rewrite (Z.min_l (64 * k)) in Ht by lia.
  set (bits := if _ && _ then _ else _).
  assert (Hbits : 0 < bits <= 64 /\ Z.min (64 * (k + 1)) n = 64 * k + bits).
  { assert (Hd2 := Z.div_mod n 64 ltac:(lia)); assert (Hm2 := Z.mod_pos_bound n 64 ltac:(lia)).
    unfold bits; destruct (Z.eqb_spec k (nw - 1)), (Z.eqb_spec (n mod 64) 0); simpl; lia. }
  destruct Hbits as [Hbits ->].
  replace (znth 0 bm k) with (znth 0 bm (64 * k / 64)) by (f_equal; rewrite Z.mul_comm, Z.div_mul; lia).
  apply frag_word_inv; auto; try lia.
  rewrite Z.mul_comm, Z.mod_mul by lia; done.
Qed.
