(* ===== verification/Pmm.v ===== *)
(** * The physical memory manager

    [kernel/mm/pmm.c]: two zones of page frames, a bitmap and a free count per
    zone, one descriptor per frame; boot-time construction, single-page,
    contiguous and aligned allocation, and freeing. *)
From stdpp Require Import base numbers list.
From S2P Require Import Prelude Bitmap.

(** ** Platform constants *)

(** [HAL_RAM_START] ([arch.h] of each architecture) and [KERNEL_VIRT_BASE]
    ([memlayout.h]). *)
Class Arch := { MEMORY_BASE : Z; KERNEL_VIRT_BASE : Z }.

Definition aarch64 : Arch :=
  {| MEMORY_BASE := 0x40000000; KERNEL_VIRT_BASE := 0xFFFF000000000000 |}.
Definition amd64 : Arch :=
  {| MEMORY_BASE := 0; KERNEL_VIRT_BASE := 0xFFFF800000000000 |}.

(** The direct map leaves room for 1 TiB of physical address space. *)
Class ArchOk (A : Arch) : Prop := {
  arch_base : 0 <= MEMORY_BASE <= 2 ^ 38;
  arch_virt : 0 <= KERNEL_VIRT_BASE <= 2 ^ 64 - 2 ^ 40;
  arch_virt_aligned : KERNEL_VIRT_BASE mod 4096 = 0;
  arch_base_aligned : MEMORY_BASE mod 4096 = 0;
  arch_virt_pos : 0 < KERNEL_VIRT_BASE }.

#[export] Instance aarch64_ok : ArchOk aarch64.
Proof. constructor; vm_compute; repeat split; done. Qed.
#[export] Instance amd64_ok : ArchOk amd64.
Proof. constructor; vm_compute; repeat split; done. Qed.

Definition PAGE_SIZE : Z := 4096.
Definition page_align (addr : Z) : Z := Z.land (u64 (addr + PAGE_SIZE - 1)) (not64 (PAGE_SIZE - 1)).
Definition phys_to_pfn (phys : Z) : Z := Z.shiftr phys 12.
Definition pfn_to_phys (pfn : Z) : Z := u64 (Z.shiftl pfn 12).
Definition PG_RESERVED : Z := 1.
Definition PG_KERNEL : Z := 2.

(** ** State *)

Record page := { pg_flags : Z; pg_refcount : Z }.
Definition page0 : page := {| pg_flags := 0; pg_refcount := 0 |}.

Record zone := {
  z_start_pfn : Z;
  z_end_pfn : Z;
  z_free_pages : Z;
  z_bitmap : list Z;
  z_next_free_pfn : Z }.
Definition zone0 : zone := {| z_start_pfn := 0; z_end_pfn := 0; z_free_pages := 0;
                              z_bitmap := []; z_next_free_pfn := 0 |}.

Inductive zone_id := ZONE_DMA | ZONE_NORMAL.

(** What the manager does to the memory it manages: fills ([memset]) and
    cache cleaning followed by a barrier; newest first. *)
Inductive mem_event :=
| Memset (addr len byte : Z)
| CacheClean (addr len : Z).

Record pmm := {
  page_array : list page;
  page_array_va : Z;              (** where [page_array] is; 0 = NULL *)
  zone_dma : zone;
  zone_normal : zone;
  total_pages : Z;
  free_pages : Z;
  usable_pages : Z;
  pmm_metadata_end_phys : Z;
  stat_alloc_calls : Z;
  stat_free_calls : Z;
  stat_ticks_total : Z;
  stat_ticks_max : Z;
  mem_log : list mem_event }.

Definition pmm0 : pmm :=
  {| page_array := []; page_array_va := 0; zone_dma := zone0; zone_normal := zone0;
     total_pages := 0; free_pages := 0; usable_pages := 0; pmm_metadata_end_phys := 0;
     stat_alloc_calls := 0; stat_free_calls := 0; stat_ticks_total := 0; stat_ticks_max := 0;
     mem_log := [] |}.

(** A call either returns or stops the machine in [panic]. *)
Inductive outcome (A : Type) := Ret (a : A) | Panic.
Arguments Ret {A} a.
Arguments Panic {A}.

Definition obind {A B} (m : outcome A) (k : A -> outcome B) : outcome B :=
  match m with Ret a => k a | Panic => Panic end.

Definition zone_of (s : pmm) (id : zone_id) : zone :=
  match id with ZONE_DMA => zone_dma s | ZONE_NORMAL => zone_normal s end.

Definition set_zone (s : pmm) (id : zone_id) (z : zone) : pmm :=
  {| page_array := page_array s; page_array_va := page_array_va s;
     zone_dma := match id with ZONE_DMA => z | ZONE_NORMAL => zone_dma s end;
     zone_normal := match id with ZONE_DMA => zone_normal s | ZONE_NORMAL => z end;
     total_pages := total_pages s; free_pages := free_pages s; usable_pages := usable_pages s;
     pmm_metadata_end_phys := pmm_metadata_end_phys s;
     stat_alloc_calls := stat_alloc_calls s; stat_free_calls := stat_free_calls s;
     stat_ticks_total := stat_ticks_total s; stat_ticks_max := stat_ticks_max s;
     mem_log := mem_log s |}.

Definition set_page (s : pmm) (pfn : Z) (pg : page) : pmm :=
  {| page_array := zset (page_array s) pfn pg; page_array_va := page_array_va s;
     zone_dma := zone_dma s; zone_normal := zone_normal s;
     total_pages := total_pages s; free_pages := free_pages s; usable_pages := usable_pages s;
     pmm_metadata_end_phys := pmm_metadata_end_phys s;
     stat_alloc_calls := stat_alloc_calls s; stat_free_calls := stat_free_calls s;
     stat_ticks_total := stat_ticks_total s; stat_ticks_max := stat_ticks_max s;
     mem_log := mem_log s |}.

Definition set_free (s : pmm) (n : Z) : pmm :=
  {| page_array := page_array s; page_array_va := page_array_va s;
     zone_dma := zone_dma s; zone_normal := zone_normal s;
     total_pages := total_pages s; free_pages := n; usable_pages := usable_pages s;
     pmm_metadata_end_phys := pmm_metadata_end_phys s;
     stat_alloc_calls := stat_alloc_calls s; stat_free_calls := stat_free_calls s;
     stat_ticks_total := stat_ticks_total s; stat_ticks_max := stat_ticks_max s;
     mem_log := mem_log s |}.

Definition log_mem (s : pmm) (ev : list mem_event) : pmm :=
  {| page_array := page_array s; page_array_va := page_array_va s;
     zone_dma := zone_dma s; zone_normal := zone_normal s;
     total_pages := total_pages s; free_pages := free_pages s; usable_pages := usable_pages s;
     pmm_metadata_end_phys := pmm_metadata_end_phys s;
     stat_alloc_calls := stat_alloc_calls s; stat_free_calls := stat_free_calls s;
     stat_ticks_total := stat_ticks_total s; stat_ticks_max := stat_ticks_max s;
     mem_log := ev ++ mem_log s |}.

(** The instrumentation at the end of an allocation. *)
Definition count_alloc (s : pmm) (ticks : Z) : pmm :=
  {| page_array := page_array s; page_array_va := page_array_va s;
     zone_dma := zone_dma s; zone_normal := zone_normal s;
     total_pages := total_pages s; free_pages := free_pages s; usable_pages := usable_pages s;
     pmm_metadata_end_phys := pmm_metadata_end_phys s;
     stat_alloc_calls := u64 (stat_alloc_calls s + 1); stat_free_calls := stat_free_calls s;
     stat_ticks_total := u64 (stat_ticks_total s + ticks);
     stat_ticks_max := if stat_ticks_max s <? ticks then ticks else stat_ticks_max s;
     mem_log := mem_log s |}.

Definition count_free (s : pmm) : pmm :=
  {| page_array := page_array s; page_array_va := page_array_va s;
     zone_dma := zone_dma s; zone_normal := zone_normal s;
     total_pages := total_pages s; free_pages := free_pages s; usable_pages := usable_pages s;
     pmm_metadata_end_phys := pmm_metadata_end_phys s;
     stat_alloc_calls := stat_alloc_calls s; stat_free_calls := u64 (stat_free_calls s + 1);
     stat_ticks_total := stat_ticks_total s; stat_ticks_max := stat_ticks_max s;
     mem_log := mem_log s |}.

(** ** Operations *)

Section ops.
Context {A : Arch}.

Definition phys_to_virt (phys : Z) : Z := u64 (phys + KERNEL_VIRT_BASE).
Definition virt_to_phys (virt : Z) : Z := u64 (virt - KERNEL_VIRT_BASE).

(** The kernel virtual address of frame [pfn]. *)
Definition page_va (pfn : Z) : Z := phys_to_virt (u64 (MEMORY_BASE + pfn_to_phys pfn)).

(** [zone_init]. *)
Definition zone_init (start_pfn end_pfn : Z) : zone :=
  let npages := u64 (end_pfn - start_pfn) in
  {| z_start_pfn := start_pfn; z_end_pfn := end_pfn; z_free_pages := npages;
     z_bitmap := replicate (Z.to_nat (u64 (npages + 63) / 64)) 0; z_next_free_pfn := 0 |}.

(** [zone_alloc_page]: [ticks] is the difference of the two timer readings
    around the search, [dma] asks for the cache cleaning; NULL is 0. *)
Definition zone_alloc_page (id : zone_id) (dma : bool) (ticks : Z) (s : pmm) : pmm * Z :=
  let z := zone_of s id in
  let npages := u64 (z_end_pfn z - z_start_pfn z) in
  let pfn := bitmap_find_free (z_bitmap z) (z_next_free_pfn z) npages in
  let pfn := if pfn <? 0 then bitmap_find_free (z_bitmap z) 0 (z_next_free_pfn z) else pfn in
  if pfn <? 0 then (s, 0)
  else
    let z := {| z_start_pfn := z_start_pfn z; z_end_pfn := z_end_pfn z;
                z_free_pages := u64 (z_free_pages z - 1);
                z_bitmap := bitmap_set (z_bitmap z) pfn;
                z_next_free_pfn := (pfn + 1) mod npages |} in
    let s := set_zone s id z in
    let abs_pfn := u64 (z_start_pfn z + pfn) in
    let s := set_page s abs_pfn {| pg_flags := 0; pg_refcount := 1 |} in
    let addr := page_va abs_pfn in
    let s := log_mem s [Memset addr PAGE_SIZE 0] in
    let s := if dma then log_mem s [CacheClean addr PAGE_SIZE] else s in
    let s := set_free s (u64 (free_pages s - 1)) in
    (count_alloc s ticks, addr).

Definition pmm_alloc_page (ticks : Z) (s : pmm) : pmm * Z :=
  let '(s, page) := zone_alloc_page ZONE_NORMAL false ticks s in
  if page =? 0 then zone_alloc_page ZONE_DMA false ticks s else (s, page).

Definition pmm_alloc_page_dma (ticks : Z) (s : pmm) : pmm * Z :=
  let '(s, page) := zone_alloc_page ZONE_NORMAL true ticks s in
  if page =? 0 then zone_alloc_page ZONE_DMA true ticks s else (s, page).

(** The two loops of [alloc_pages_impl] over the pages of the run. *)
Definition set_run (bm : list Z) (pfn count : Z) : list Z :=
  foldl (fun bm i => bitmap_set bm (u64 (pfn + i))) bm (seqZ 0 count).
Definition init_pages (s : pmm) (abs_pfn count : Z) : pmm :=
  foldl (fun s i => set_page s (u64 (abs_pfn + i)) {| pg_flags := 0; pg_refcount := 1 |})
    s (seqZ 0 count).

(** [alloc_pages_impl]. *)
Definition alloc_pages_impl (count : Z) (dma : bool) (ticks : Z) (s : pmm) : pmm * Z :=
  if count =? 0 then (s, 0)
  else if count =? 1 then
    if dma then pmm_alloc_page_dma ticks s else pmm_alloc_page ticks s
  else
    let z := zone_normal s in
    let pfn := bitmap_find_contiguous (z_bitmap z) 0 (u64 (z_end_pfn z - z_start_pfn z)) count in
    if pfn <? 0 then (s, 0)
    else
      let z := {| z_start_pfn := z_start_pfn z; z_end_pfn := z_end_pfn z;
                  z_free_pages := u64 (z_free_pages z - count);
                  z_bitmap := set_run (z_bitmap z) pfn count;
                  z_next_free_pfn := z_next_free_pfn z |} in
      let s := set_zone s ZONE_NORMAL z in
      let abs_pfn := u64 (z_start_pfn z + pfn) in
      let s := init_pages s abs_pfn count in
      let addr := page_va abs_pfn in
      let len := u64 (PAGE_SIZE * count) in
      let s := log_mem s [Memset addr len 0] in
      let s := if dma then log_mem s [CacheClean addr len] else s in
      let s := set_free s (u64 (free_pages s - count)) in
      (count_alloc s ticks, addr).

Definition pmm_alloc_pages (count ticks : Z) (s : pmm) : pmm * Z :=
  alloc_pages_impl count false ticks s.
Definition pmm_alloc_pages_dma (count ticks : Z) (s : pmm) : pmm * Z :=
  alloc_pages_impl count true ticks s.

(** [pmm_free_page].  The test against [MEMORY_BASE] at its top is under
    [#if ARCH_MEMORY_BASE > 0]; the tree defines no such macro, so it is not
    compiled and is not here. *)
Definition pmm_free_page (page : Z) (s : pmm) : outcome pmm :=
  if page =? 0 then Ret s
  else
    let phys := virt_to_phys page in
    let pfn := phys_to_pfn (u64 (phys - MEMORY_BASE)) in
    if total_pages s <=? pfn then Ret s
    else
      let pg := znth page0 (page_array s) pfn in
      if negb (Z.land (pg_flags pg) PG_RESERVED =? 0) then Ret s
      else
        let old := pg_refcount pg in
        let s := set_page s pfn {| pg_flags := pg_flags pg; pg_refcount := u32 (old - 1) |} in
        if 1 <? old then Ret s
        else
          let id := if pfn <? z_end_pfn (zone_dma s) then ZONE_DMA else ZONE_NORMAL in
          let zone_pfn := if pfn <? z_end_pfn (zone_dma s) then pfn
                          else u64 (pfn - z_end_pfn (zone_dma s)) in
          let z := zone_of s id in
          if negb (bitmap_test (z_bitmap z) zone_pfn) then Panic
          else
            let z := {| z_start_pfn := z_start_pfn z; z_end_pfn := z_end_pfn z;
                        z_free_pages := u64 (z_free_pages z + 1);
                        z_bitmap := bitmap_clear (z_bitmap z) zone_pfn;
                        z_next_free_pfn := z_next_free_pfn z |} in
            let s := set_zone s id z in
            let s := log_mem s [Memset page PAGE_SIZE 0xCC] in
            let s := set_free s (u64 (free_pages s + 1)) in
            Ret (count_free s).

Definition pmm_free_pages (page count : Z) (s : pmm) : outcome pmm :=
  foldl (fun m i => obind m (pmm_free_page (u64 (page + i * PAGE_SIZE)))) (Ret s) (seqZ 0 count).

(** [pmm_alloc_aligned]. *)
Definition pmm_alloc_aligned (size align ticks : Z) (s : pmm) : outcome (pmm * Z) :=
  let pages := u64 (u64 (size + PAGE_SIZE) - 1) / PAGE_SIZE in
  let align_pages := u64 (u64 (align + PAGE_SIZE) - 1) / PAGE_SIZE in
  if align_pages <=? 1 then Ret (pmm_alloc_pages_dma pages ticks s)
  else
    let total := u64 (u64 (pages + align_pages) - 1) in
    let '(s, mem) := pmm_alloc_pages_dma total ticks s in
    if mem =? 0 then Ret (s, 0)
    else
      let aligned := Z.land (u64 (u64 (mem + align) - 1)) (not64 (u64 (align - 1))) in
      let skip := u64 (aligned - mem) / PAGE_SIZE in
      obind (if 0 <? skip then pmm_free_pages mem skip s else Ret s) (fun s =>
      let unused := u64 (u64 (total - skip) - pages) in
      obind (if 0 <? unused
             then pmm_free_pages (u64 (aligned + u64 (pages * PAGE_SIZE))) unused s
             else Ret s) (fun s => Ret (s, aligned))).

(** [pmm_phys_to_page] gives the index of the descriptor in [page_array]. *)
Definition pmm_phys_to_page (phys : Z) (s : pmm) : option Z :=
  let pfn := phys_to_pfn (u64 (phys - MEMORY_BASE)) in
  if total_pages s <=? pfn then None else Some pfn.

Definition pmm_page_to_phys (pfn : Z) : Z := u64 (MEMORY_BASE + pfn_to_phys pfn).

Definition pmm_get_free_pages (s : pmm) : Z := free_pages s.
Definition pmm_get_total_pages (s : pmm) : Z := total_pages s.
Definition pmm_get_usable_pages (s : pmm) : Z := usable_pages s.
Definition pmm_metadata_top (s : pmm) : Z := pmm_metadata_end_phys s.

(** [pmm_get_counters]: calls of the two kinds, search ticks in all and at
    most. *)
Definition pmm_get_counters (s : pmm) : Z * Z * Z * Z :=
  (stat_alloc_calls s, stat_free_calls s, stat_ticks_total s, stat_ticks_max s).

(** [pmm_get_fragmentation] of the normal zone. *)
Definition pmm_get_fragmentation (s : pmm) : Z * Z :=
  let z := zone_normal s in
  fragmentation (z_bitmap z) (u64 (z_end_pfn z - z_start_pfn z)).

(** ** Boot *)

Definition MEM_REGION_USABLE : Z := 1.
Record mem_region := { r_base : Z; r_size : Z; r_type : Z }.
Definition r_end (r : mem_region) : Z := u64 (r_base r + r_size r).
Definition usable (r : mem_region) : bool := r_type r =? MEM_REGION_USABLE.

(** One frame of [pmm_reserve_range]. *)
Definition reserve_pfn (s : pmm) (pfn : Z) : pmm :=
  let pg := znth page0 (page_array s) pfn in
  if negb (Z.land (pg_flags pg) PG_RESERVED =? 0) then s
  else
    let s := set_page s pfn {| pg_flags := Z.lor PG_RESERVED PG_KERNEL; pg_refcount := 1 |} in
    let id := if pfn <? z_end_pfn (zone_dma s) then ZONE_DMA else ZONE_NORMAL in
    let zone_pfn := if pfn <? z_end_pfn (zone_dma s) then pfn
                    else u64 (pfn - z_end_pfn (zone_dma s)) in
    let z := zone_of s id in
    let s := set_zone s id
               {| z_start_pfn := z_start_pfn z; z_end_pfn := z_end_pfn z;
                  z_free_pages := u64 (z_free_pages z - 1);
                  z_bitmap := bitmap_set (z_bitmap z) zone_pfn;
                  z_next_free_pfn := z_next_free_pfn z |} in
    set_free s (u64 (free_pages s - 1)).

(** [pmm_reserve_range]: the loop stops at [end_pfn] or at [total_pages]. *)
Definition pmm_reserve_range (start_pfn end_pfn : Z) (s : pmm) : pmm :=
  foldl reserve_pfn s (seqZ start_pfn (Z.min end_pfn (total_pages s) - start_pfn)).

(** The end of the DMA zone: [phys_to_pfn(DMA_ZONE_END - MEMORY_BASE)]. *)
Definition dma_end_pfn : Z := phys_to_pfn (u64 (u64 (MEMORY_BASE + 0x1000000) - MEMORY_BASE)).

(** [sizeof(struct page)]: two 32-bit fields, a list head and a pointer. *)
Definition sizeof_page : Z := 32.
Definition bitmap_bytes (npages : Z) : Z := u64 (u64 (npages + 63) / 64 * 8).

(** The metadata's size in bytes. *)
Definition metadata_size (total : Z) : Z :=
  page_align (u64 (u64 (u64 (total * sizeof_page) + bitmap_bytes dma_end_pfn)
                   + bitmap_bytes (u64 (total - dma_end_pfn)))).

(** Step 1 of [pmm_early_init]: highest usable end and the sum of usable RAM. *)
Definition scan_regions (regions : list mem_region) : Z * Z :=
  match regions with
  | [] => (u64 (MEMORY_BASE + 2 ^ 30), 2 ^ 30)
  | _ =>
    foldl (fun '(mx, bytes) r =>
        if usable r then
          (if mx <? r_end r then r_end r else mx,
           if MEMORY_BASE <? r_end r
           then u64 (bytes + u64 (r_end r - (if MEMORY_BASE <? r_base r then r_base r else MEMORY_BASE)))
           else bytes)
        else (mx, bytes)) (0, 0) regions
  end.

(** One pass over the table: move [target] past every region that is not
    usable and that the metadata at [target] would overlap. *)
Definition bump_one (size : Z) (acc : Z * bool) (r : mem_region) : Z * bool :=
  let '(target, bumped) := acc in
  if usable r then (target, bumped)
  else
    let r_stop := page_align (r_end r) in
    if (target <? r_stop) && (r_base r <? u64 (target + size)) then (r_stop, true)
    else (target, bumped).
Definition bump_pass (regions : list mem_region) (size target : Z) : Z * bool :=
  foldl (bump_one size) (target, false) regions.

Definition bump_step (regions : list mem_region) (size target : Z) : Z + Z :=
  let '(target, bumped) := bump_pass regions size target in
  if bumped then inl target else inr target.

(** Step 3: the first usable region that can hold the metadata.  A pass that
    moves [target] puts some region behind it for good, so [length regions + 1]
    passes reach the fixpoint. *)
Definition place_in (regions : list mem_region) (kernel_end size : Z) (r : mem_region) : option Z :=
  if usable r && (size <=? r_size r) then
    let kernel_limit := page_align (virt_to_phys kernel_end) in
    let target := if r_base r <? kernel_limit then kernel_limit else r_base r in
    match loop (S (length regions)) (bump_step regions size) target with
    | Some target => if u64 (target + size) <=? r_end r then Some target else None
    | None => None
    end
  else None.

Fixpoint place_metadata (all regions : list mem_region) (kernel_end size : Z) : Z :=
  match regions with
  | [] => 0
  | r :: rest =>
    match place_in all kernel_end size r with
    | Some target => target
    | None => place_metadata all rest kernel_end size
    end
  end.

(** [pmm_early_init]; [kernel_end] is the linker symbol [__kernel_end]. *)
Definition pmm_early_init (regions : list mem_region) (kernel_end : Z) (s : pmm) : outcome pmm :=
  let '(mx, bytes) := scan_regions regions in
  let limit := u64 (MEMORY_BASE + 256 * 2 ^ 30) in
  let mx := if limit <? mx then limit else mx in
  let total := u64 (mx - MEMORY_BASE) / PAGE_SIZE in
  let us := bytes / PAGE_SIZE in
  let us := if total <? us then total else us in
  let size := metadata_size total in
  let metadata_phys := place_metadata regions regions kernel_end size in
  if metadata_phys =? 0 then Panic
  else Ret
    {| page_array := replicate (Z.to_nat total) page0;
       page_array_va := phys_to_virt metadata_phys;
       zone_dma := zone_dma s; zone_normal := zone_normal s;
       total_pages := total; free_pages := free_pages s; usable_pages := us;
       pmm_metadata_end_phys := u64 (metadata_phys + size);
       stat_alloc_calls := stat_alloc_calls s; stat_free_calls := stat_free_calls s;
       stat_ticks_total := stat_ticks_total s; stat_ticks_max := stat_ticks_max s;
       mem_log := Memset (phys_to_virt metadata_phys) size 0 :: mem_log s |}.

(** The next usable stretch at or after [cursor]: lowest base, and its end;
    [2 ^ 64 - 1] if there is none. *)
Definition next_usable_step (cursor : Z) (acc : Z * Z) (r : mem_region) : Z * Z :=
  let '(nb, ne) := acc in
  if negb (usable r) then (nb, ne)
  else if r_end r <=? cursor then (nb, ne)
  else
    let base := if r_base r <? cursor then cursor else r_base r in
    if base <? nb then (base, r_end r) else (nb, ne).
Definition next_usable (regions : list mem_region) (cursor : Z) : Z * Z :=
  foldl (next_usable_step cursor) (2 ^ 64 - 1, 0) regions.

(** One round of the loop of [pmm_init] that reserves what no usable region
    covers. *)
Definition gap_step (regions : list mem_region) (st : Z * pmm) : (Z * pmm) + pmm :=
  let '(cursor, s) := st in
  let '(nb, ne) := next_usable regions cursor in
  let done := nb =? 2 ^ 64 - 1 in
  let nb := if done then u64 (MEMORY_BASE + u64 (total_pages s * PAGE_SIZE)) else nb in
  let s := if cursor <? nb
           then pmm_reserve_range (phys_to_pfn (u64 (cursor - MEMORY_BASE)))
                  (phys_to_pfn (u64 (page_align nb - MEMORY_BASE))) s
           else s in
  if done then inr s else inl (ne, s).

(** [pmm_init]; [kernel_start] and [kernel_end] are linker symbols.  The last
    loop gets [length regions + 1] rounds: each but the last consumes a region. *)
Definition pmm_init (regions : list mem_region) (kernel_start kernel_end : Z) (s : pmm) : outcome pmm :=
  obind (if page_array_va s =? 0 then pmm_early_init regions kernel_end s else Ret s) (fun s =>
  let dma_z := zone_init 0 dma_end_pfn in
  let normal_z := zone_init dma_end_pfn (total_pages s) in
  let s := set_zone (set_zone s ZONE_DMA dma_z) ZONE_NORMAL normal_z in
  let s := set_free s (u64 (z_free_pages dma_z + z_free_pages normal_z)) in
  let meta := virt_to_phys (page_array_va s) in
  let s := pmm_reserve_range (phys_to_pfn (u64 (virt_to_phys kernel_start - MEMORY_BASE)))
             (phys_to_pfn (u64 (page_align (virt_to_phys kernel_end) - MEMORY_BASE))) s in
  let s := pmm_reserve_range (phys_to_pfn (u64 (meta - MEMORY_BASE)))
             (phys_to_pfn (u64 (page_align
                (u64 (u64 (u64 (meta + u64 (total_pages s * sizeof_page)) + bitmap_bytes dma_end_pfn)
                      + bitmap_bytes (u64 (total_pages s - dma_end_pfn)))) - MEMORY_BASE))) s in
  let s := foldl (fun s r =>
               if usable r then s
               else pmm_reserve_range (phys_to_pfn (u64 (r_base r - MEMORY_BASE)))
                      (phys_to_pfn (u64 (page_align (r_end r) - MEMORY_BASE))) s) s regions in
  match regions with
  | [] => Ret s
  | _ =>
    match loop (S (length regions)) (gap_step regions) (MEMORY_BASE, s) with
    | Some s => Ret s
    | None => Panic
    end
  end).

End ops.

(** ** Invariant *)

(** The three states of a frame's descriptor. *)
Definition page_alloc : page := {| pg_flags := 0; pg_refcount := 1 |}.
Definition page_resv : page := {| pg_flags := 3; pg_refcount := 1 |}.
Definition page_used (pg : page) : Prop := pg = page_alloc \/ pg = page_resv.

Definition npages (z : zone) : Z := z_end_pfn z - z_start_pfn z.

(** A zone agrees with the descriptors of its frames: the free count is the
    number of clear bits, a clear bit goes with an unreferenced descriptor, a
    set bit with exactly one reference. *)
Record zone_wf (pages : list page) (z : zone) : Prop := {
  zw_start : 0 <= z_start_pfn z;
  zw_le : 0 <= npages z;
  zw_end : z_end_pfn z <= 2 ^ 27;
  zw_bitmap : bitmap_ok (z_bitmap z) (npages z);
  zw_free : z_free_pages z = free_count (z_bitmap z) (npages z);
  zw_next : 0 <= z_next_free_pfn z < Z.max 1 (npages z);
  zw_clear : forall k, 0 <= k < npages z -> is_free (z_bitmap z) k = true ->
    znth page0 pages (z_start_pfn z + k) = page0;
  zw_set : forall k, 0 <= k < npages z -> is_free (z_bitmap z) k = false ->
    page_used (znth page0 pages (z_start_pfn z + k)) }.

Record pmm_wf (s : pmm) : Prop := {
  pw_dma_start : z_start_pfn (zone_dma s) = 0;
  pw_adjacent : z_start_pfn (zone_normal s) = z_end_pfn (zone_dma s);
  pw_total : z_end_pfn (zone_normal s) = total_pages s;
  pw_pages : zlen (page_array s) = total_pages s;
  pw_dma : zone_wf (page_array s) (zone_dma s);
  pw_normal : zone_wf (page_array s) (zone_normal s);
  pw_free : free_pages s = z_free_pages (zone_dma s) + z_free_pages (zone_normal s) }.

(** Frame [q] is free; its descriptor. *)
Definition frame_free (s : pmm) (q : Z) : bool :=
  if q <? z_end_pfn (zone_dma s) then is_free (z_bitmap (zone_dma s)) q
  else is_free (z_bitmap (zone_normal s)) (q - z_end_pfn (zone_dma s)).
Definition frame (s : pmm) (q : Z) : page := znth page0 (page_array s) q.

Lemma zone_of_wf s id : pmm_wf s -> zone_wf (page_array s) (zone_of s id).
Proof. intros []; destruct id; done. Qed.

Lemma zone_range s id :
  pmm_wf s -> 0 <= z_start_pfn (zone_of s id) /\ z_end_pfn (zone_of s id) <= total_pages s.
Proof.
  intros [? ? ? ? [? ? ? _ _ _ _ _] [? ? ? _ _ _ _ _] ?]; unfold npages in *; destruct id; simpl; lia.
Qed.

Lemma total_bound s : pmm_wf s -> 0 <= total_pages s <= 2 ^ 27.
Proof.
  intros [? ? ? ? [? ? ? _ _ _ _ _] [? ? ? _ _ _ _ _] ?]; unfold npages in *; lia.
Qed.

(** The frames of a zone, through the zone's bitmap. *)
Lemma frame_free_zone s id k :
  pmm_wf s -> 0 <= k < npages (zone_of s id) ->
  frame_free s (z_start_pfn (zone_of s id) + k) = is_free (z_bitmap (zone_of s id)) k.
Proof.
  intros [Hd Ha Ht Hp _ _ _] Hk; unfold frame_free, npages in *; destruct id; simpl in *.
  - destruct (Z.ltb_spec (z_start_pfn (zone_dma s) + k) (z_end_pfn (zone_dma s))); [| lia].
    f_equal; lia.
  - destruct (Z.ltb_spec (z_start_pfn (zone_normal s) + k) (z_end_pfn (zone_dma s))); [lia |].
    f_equal; lia.
Qed.

(** Every frame belongs to one zone. *)
Lemma frame_zone s q :
  pmm_wf s -> 0 <= q < total_pages s ->
  exists id k, 0 <= k < npages (zone_of s id) /\ q = z_start_pfn (zone_of s id) + k /\
    id = (if q <? z_end_pfn (zone_dma s) then ZONE_DMA else ZONE_NORMAL) /\
    k = (if q <? z_end_pfn (zone_dma s) then q else q - z_end_pfn (zone_dma s)).
Proof.
  intros [Hd Ha Ht Hp _ _ _] Hq; unfold npages.
  destruct (Z.ltb_spec q (z_end_pfn (zone_dma s))).
  - exists ZONE_DMA, q; simpl; repeat split; lia.
  - exists ZONE_NORMAL, (q - z_end_pfn (zone_dma s)); simpl; repeat split; lia.
Qed.

Lemma frame_clear s q :
  pmm_wf s -> 0 <= q < total_pages s -> frame_free s q = true -> frame s q = page0.
Proof.
  intros W Hq Hf; destruct (frame_zone s q W Hq) as (id & k & Hk & -> & _).
  rewrite frame_free_zone in Hf by done; apply (zw_clear _ _ (zone_of_wf s id W)); done.
Qed.

Lemma frame_set s q :
  pmm_wf s -> 0 <= q < total_pages s -> frame_free s q = false -> page_used (frame s q).
Proof.
  intros W Hq Hf; destruct (frame_zone s q W Hq) as (id & k & Hk & -> & _).
  rewrite frame_free_zone in Hf by done; apply (zw_set _ _ (zone_of_wf s id W)); done.
Qed.

(** ** Taking and giving frames keep the invariant *)

(** [c] free frames of a zone, from its [k]-th on, become used. *)
Lemma zone_wf_take pages pages' z bm' k c nxt pg :
  zone_wf pages z -> 0 <= k -> 0 <= c -> k + c <= npages z ->
  bitmap_ok bm' (npages z) ->
  (forall j, is_free bm' j = is_free (z_bitmap z) j && negb (in_range k c j)) ->
  (forall j, k <= j < k + c -> is_free (z_bitmap z) j = true) ->
  (forall q, znth page0 pages' q =
     if in_range (z_start_pfn z + k) c q then pg else znth page0 pages q) ->
  page_used pg -> 0 <= nxt < Z.max 1 (npages z) ->
  zone_wf pages' {| z_start_pfn := z_start_pfn z; z_end_pfn := z_end_pfn z;
                    z_free_pages := u64 (z_free_pages z - c); z_bitmap := bm';
                    z_next_free_pfn := nxt |}.
Proof.
  intros [Hs Hl He Hb Hf Hn Hc Hu] Hk Hc0 Hkc Hb' Hbm Hfree Hpg Hused Hnx.
  assert (Hcount : free_count bm' (npages z) = free_count (z_bitmap z) (npages z) - c).
  { apply (zcount_off_range _ _ _ k); auto; lia. }
  assert (B := zcount_bounds (is_free (z_bitmap z)) (Z.to_nat (npages z))).
  assert (B' := zcount_bounds (is_free bm') (Z.to_nat (npages z))).
  unfold free_count in *.
  constructor; simpl; try done; unfold npages in *; simpl.
  - unfold free_count; rewrite u64_small by lia; lia.
  - intros j Hj Hjf; rewrite Hbm in Hjf; apply andb_true_iff in Hjf; destruct Hjf as [Hj1 Hj2].
    apply negb_true_iff, in_range_false in Hj2.
    rewrite Hpg; destruct (in_range (z_start_pfn z + k) c _) eqn:E; [| auto].
    apply in_range_spec in E; lia.
  - intros j Hj Hjf; rewrite Hpg; destruct (in_range (z_start_pfn z + k) c _) eqn:E; [done |].
    apply in_range_false in E; apply Hu; [done |]; rewrite Hbm in Hjf.
    destruct (in_range k c j) eqn:E2; [apply in_range_spec in E2; lia |].
    by rewrite andb_true_r in Hjf.
Qed.

(** Changing descriptors outside a zone does not concern it. *)
Lemma zone_wf_frame pages pages' z :
  zone_wf pages z ->
  (forall q, z_start_pfn z <= q < z_end_pfn z -> znth page0 pages' q = znth page0 pages q) ->
  zone_wf pages' z.
Proof.
  intros [Hs Hl He Hb Hf Hn Hc Hu] Heq; constructor; try done; unfold npages in *.
  - intros k Hk Hfk; rewrite Heq by lia; auto.
  - intros k Hk Hfk; rewrite Heq by lia; auto.
Qed.

(** One used frame of a zone becomes free. *)
Lemma zone_wf_give pages z k :
  zone_wf pages z -> 0 <= k < npages z -> z_end_pfn z <= zlen pages ->
  is_free (z_bitmap z) k = false ->
  zone_wf (zset pages (z_start_pfn z + k) page0)
    {| z_start_pfn := z_start_pfn z; z_end_pfn := z_end_pfn z;
       z_free_pages := u64 (z_free_pages z + 1); z_bitmap := bitmap_clear (z_bitmap z) k;
       z_next_free_pfn := z_next_free_pfn z |}.
Proof.
  intros [Hs Hl He Hb Hf Hn Hc Hu] Hk Hlen Hfk.
  assert (Hcount := free_count_clear _ _ _ Hb Hk Hfk).
  assert (B := zcount_bounds (is_free (bitmap_clear (z_bitmap z) k)) (Z.to_nat (npages z))).
  assert (Hr : 0 <= z_start_pfn z + k < zlen pages) by (unfold npages in *; lia).
  assert (Hkb : 0 <= k < 64 * zlen (z_bitmap z)) by (destruct Hb; lia).
  unfold free_count in *.
  constructor; simpl; auto with pmm; unfold npages in *; simpl.
  - unfold free_count; rewrite u64_small by lia; lia.
  - intros j Hj Hjf; rewrite znth_zset by done; rewrite is_free_clear in Hjf by done.
    case_if; [done |]; apply Hc; [done |].
    destruct (Z.eqb_spec j k); [lia | done].
  - intros j Hj Hjf; rewrite znth_zset by done; rewrite is_free_clear in Hjf by done; zbool.
    case_if; [lia | auto].
Qed.

(** [s'] is [s] with the [c] free frames from [q] on used, described by [pg]. *)
Record took (s s' : pmm) (q c : Z) (pg : page) : Prop := {
  tk_wf : pmm_wf s';
  tk_total : total_pages s' = total_pages s;
  tk_dma_end : z_end_pfn (zone_dma s') = z_end_pfn (zone_dma s);
  tk_free : free_pages s' = free_pages s - c;
  tk_before : forall p, q <= p < q + c -> frame_free s p = true;
  tk_frames : forall p, 0 <= p < total_pages s ->
    frame_free s' p = frame_free s p && negb (in_range q c p);
  tk_pages : forall p, frame s' p = if in_range q c p then pg else frame s p }.

Lemma take_frames s s' id bm' k c nxt pg :
  pmm_wf s -> 0 <= k -> 0 <= c -> k + c <= npages (zone_of s id) ->
  bitmap_ok bm' (npages (zone_of s id)) ->
  (forall j, is_free bm' j = is_free (z_bitmap (zone_of s id)) j && negb (in_range k c j)) ->
  (forall j, k <= j < k + c -> is_free (z_bitmap (zone_of s id)) j = true) ->
  page_used pg -> 0 <= nxt < Z.max 1 (npages (zone_of s id)) ->
  zlen (page_array s') = zlen (page_array s) ->
  (forall q, frame s' q = if in_range (z_start_pfn (zone_of s id) + k) c q then pg else frame s q) ->
  (forall id', zone_of s' id' =
     zone_of (set_zone s id
       {| z_start_pfn := z_start_pfn (zone_of s id); z_end_pfn := z_end_pfn (zone_of s id);
          z_free_pages := u64 (z_free_pages (zone_of s id) - c); z_bitmap := bm';
          z_next_free_pfn := nxt |}) id') ->
  total_pages s' = total_pages s -> free_pages s' = u64 (free_pages s - c) ->
  took s s' (z_start_pfn (zone_of s id) + k) c pg.
Proof.
  intros W Hk Hc Hkc Hb' Hbm Hfree Hused Hnx Hlen Hpg Hz Htot Hfr.
  assert (Wz := zone_wf_take _ (page_array s') _ bm' k c nxt pg (zone_of_wf s id W)
                  Hk Hc Hkc Hb' Hbm Hfree Hpg Hused Hnx).
  assert (Hcnt : u64 (z_free_pages (zone_of s id) - c) = z_free_pages (zone_of s id) - c
                 /\ u64 (free_pages s - c) = free_pages s - c).
  { assert (B := zcount_bounds (is_free bm') (Z.to_nat (npages (zone_of s id)))).
    assert (E : free_count bm' (npages (zone_of s id)) = z_free_pages (zone_of s id) - c).
    { rewrite (zw_free _ _ (zone_of_wf s id W)); apply (zcount_off_range _ _ _ k); auto; lia. }
    unfold free_count in E.
    assert (Bd := zcount_bounds (is_free (z_bitmap (zone_dma s))) (Z.to_nat (npages (zone_dma s)))).
    assert (Bn := zcount_bounds (is_free (z_bitmap (zone_normal s))) (Z.to_nat (npages (zone_normal s)))).
    assert (T := total_bound s W); destruct W as [Wd Wa Wt Wp [? ? ? _ Fd _ _ _] [? ? ? _ Fn _ _ _] Wf].
    unfold free_count, npages in *; rewrite !u64_small; destruct id; simpl in *; lia. }
  destruct Hcnt as [Hcz Hcf].
  pose proof (Hz ZONE_DMA) as Hzd; pose proof (Hz ZONE_NORMAL) as Hzn; simpl in Hzd, Hzn.
  assert (W' : pmm_wf s').
  { destruct W as [Wd Wa Wt Wp Wzd Wzn Wf]; unfold npages in *.
    destruct id; simpl in *; constructor; rewrite ?Hzd, ?Hzn; simpl; try done; try lia.
    - apply (zone_wf_frame (page_array s)); [done |]; intros q Hq; unfold frame in Hpg; rewrite Hpg.
      destruct (in_range _ c q) eqn:E; [apply in_range_spec in E; lia | done].
    - apply (zone_wf_frame (page_array s)); [done |]; intros q Hq; unfold frame in Hpg; rewrite Hpg.
      destruct (in_range _ c q) eqn:E; [apply in_range_spec in E; lia | done]. }
  assert (Hend : z_end_pfn (zone_dma s') = z_end_pfn (zone_dma s))
    by (rewrite Hzd; destruct id; done).
  constructor; try done; try lia.
  - intros p Hp; replace p with (z_start_pfn (zone_of s id) + (p - z_start_pfn (zone_of s id))) by lia.
    rewrite frame_free_zone by (done || lia); apply Hfree; lia.
  - intros p Hp; unfold frame_free; rewrite Hend, Hzd, Hzn.
    destruct W as [Wd Wa Wt Wp [? ? ? _ _ _ _ _] _ _]; unfold npages in *.
    destruct (Z.ltb_spec p (z_end_pfn (zone_dma s))); destruct id; simpl in *; rewrite ?Hbm.
    1, 4: f_equal; f_equal; apply Bool.eq_iff_eq_true; rewrite !in_range_spec; lia.
    all: destruct (in_range _ c p) eqn:E; [apply in_range_spec in E; lia | by rewrite andb_true_r].
Qed.

(** ** Addresses *)

Section addresses.
Context {A : Arch} {HA : ArchOk A}.

Lemma page_va_eq q : 0 <= q <= 2 ^ 27 -> page_va q = KERNEL_VIRT_BASE + MEMORY_BASE + 4096 * q.
Proof.
  intros Hq; pose proof arch_base; pose proof arch_virt.
  unfold page_va, phys_to_virt, pfn_to_phys; rewrite Z.shiftl_mul_pow2 by lia.
  rewrite (u64_small (q * _)) by lia; rewrite (u64_small (MEMORY_BASE + _)), u64_small by lia; lia.
Qed.

Lemma page_va_nonzero q : 0 <= q <= 2 ^ 27 -> page_va q <> 0.
Proof.
  intros; rewrite page_va_eq by done; pose proof arch_base; pose proof arch_virt_pos; lia.
Qed.

Lemma page_va_inj p q : 0 <= p <= 2 ^ 27 -> 0 <= q <= 2 ^ 27 -> page_va p = page_va q -> p = q.
Proof. intros ? ?; rewrite !page_va_eq by done; lia. Qed.

Lemma page_va_aligned q : 0 <= q <= 2 ^ 27 -> page_va q mod 4096 = 0.
Proof.
  intros; rewrite page_va_eq by done; pose proof arch_virt_aligned; pose proof arch_base_aligned.
  rewrite (Z.mul_comm 4096), Z.mod_add by lia; rewrite Zplus_mod, H0, H1; done.
Qed.

(** The frame number [pmm_free_page] computes for an address in frame [q]. *)
Lemma va_to_pfn q off :
  0 <= q <= 2 ^ 27 -> 0 <= off < 4096 ->
  phys_to_pfn (u64 (virt_to_phys (page_va q + off) - MEMORY_BASE)) = q.
Proof.
  intros Hq Ho; rewrite page_va_eq by done; pose proof arch_base; pose proof arch_virt.
  unfold virt_to_phys, phys_to_pfn.
  rewrite (u64_small (_ - KERNEL_VIRT_BASE)), u64_small by lia.
  rewrite Z.shiftr_div_pow2 by lia; change (2 ^ 12) with 4096.
  replace (_ - _ - _) with (off + q * 4096) by lia; rewrite Z.div_add, Z.div_small by lia; lia.
Qed.

Lemma page_va_offset q i :
  0 <= q -> 0 <= i -> q + i <= 2 ^ 27 -> u64 (page_va q + i * PAGE_SIZE) = page_va (q + i).
Proof.
  intros; rewrite !page_va_eq by lia; pose proof arch_base; pose proof arch_virt.
  unfold PAGE_SIZE; rewrite u64_small; lia.
Qed.

(** ** Allocating *)

Lemma in_range_1 k j : in_range k 1 j = (j =? k).
Proof.
  apply Bool.eq_iff_eq_true; rewrite in_range_spec, Z.eqb_eq; lia.
Qed.

(** The search of [zone_alloc_page]: from the hint, then from the start. *)
Definition zone_search (z : zone) : Z :=
  let pfn := bitmap_find_free (z_bitmap z) (z_next_free_pfn z) (u64 (z_end_pfn z - z_start_pfn z)) in
  if pfn <? 0 then bitmap_find_free (z_bitmap z) 0 (z_next_free_pfn z) else pfn.

Lemma zone_search_spec pages z :
  zone_wf pages z ->
  (zone_search z < 0 /\ forall k, 0 <= k < npages z -> is_free (z_bitmap z) k = false) \/
  (0 <= zone_search z < npages z /\ is_free (z_bitmap z) (zone_search z) = true).
Proof.
  intros [Hs Hl He [Hb Hbn] Hf Hn Hc Hu]; unfold zone_search, npages in *.
  rewrite (u64_small (_ - _)) by lia.
  pose proof (find_free_least (z_bitmap z) (z_next_free_pfn z) (z_end_pfn z - z_start_pfn z)
                ltac:(lia) ltac:(lia) Hb) as L1.
  pose proof (find_free_least (z_bitmap z) 0 (z_next_free_pfn z) ltac:(lia) ltac:(lia) Hb) as L2.
  case_if.
  - destruct L1 as [[_ L1] | ?]; [| lia].
    destruct L2 as [[-> L2] | (B & F & _)]; [left | right].
    + split; [lia |]; intros k Hk; destruct (Z_lt_le_dec k (z_next_free_pfn z)); [apply L2 | apply L1]; lia.
    + split; [lia | done].
  - right; destruct L1 as [? | (B & F & _)]; [lia | split; [lia | done]].
Qed.

(** The trace an allocation leaves in memory. *)
Definition alloc_log (dma : bool) (addr len : Z) (log : list mem_event) : list mem_event :=
  (if dma then [CacheClean addr len] else []) ++ Memset addr len 0 :: log.

Lemma zone_alloc_spec id dma ticks s s' addr :
  pmm_wf s -> zone_alloc_page id dma ticks s = (s', addr) ->
  (addr = 0 /\ s' = s /\
   forall k, 0 <= k < npages (zone_of s id) -> is_free (z_bitmap (zone_of s id)) k = false) \/
  (exists q, z_start_pfn (zone_of s id) <= q < z_end_pfn (zone_of s id) /\
     addr = page_va q /\ took s s' q 1 page_alloc /\
     mem_log s' = alloc_log dma addr PAGE_SIZE (mem_log s)).
Proof.
  intros W E; pose proof (zone_of_wf s id W) as Wz; pose proof (zone_range s id W) as R.
  pose proof (total_bound s W) as T.
  unfold zone_alloc_page in E; fold (zone_search (zone_of s id)) in E.
  destruct (zone_search_spec _ _ Wz) as [[Hneg Hall] | [Hk Hfree]].
  - destruct (Z.ltb_spec (zone_search (zone_of s id)) 0); [| lia].
    injection E as <- <-; left; auto.
  - destruct (Z.ltb_spec (zone_search (zone_of s id)) 0); [lia |]; right.
    assert (Hd : 0 <= z_end_pfn (zone_of s id) - z_start_pfn (zone_of s id) < 2 ^ 64)
      by (unfold npages in *; lia).
    rewrite (u64_small (_ - z_start_pfn _)) in E by lia; set (k := zone_search _) in *.
    simpl in E; rewrite (u64_small (_ + k)) in E by (unfold npages in *; lia).
    assert (Hq : 0 <= z_start_pfn (zone_of s id) + k < total_pages s) by (unfold npages in *; lia).
    injection E as Es Ea; exists (z_start_pfn (zone_of s id) + k).
    split; [unfold npages in *; lia |]; split; [done |]; split.
    + apply (take_frames s s' id (bitmap_set (z_bitmap (zone_of s id)) k) k 1
               ((k + 1) mod (z_end_pfn (zone_of s id) - z_start_pfn (zone_of s id))));
        try done; try lia.
      * apply bitmap_set_ok, Wz.
      * intros j; rewrite in_range_1, andb_comm; apply is_free_set.
        destruct (zw_bitmap _ _ Wz); lia.
      * intros j Hj; replace j with k by lia; done.
      * by left.
      * unfold npages; pose proof (Z.mod_pos_bound (k + 1) (z_end_pfn (zone_of s id) - z_start_pfn (zone_of s id))).
        unfold npages in *; lia.
      * subst s'; destruct dma; simpl; apply zlen_zset.
      * intros q; subst s'; unfold frame; rewrite in_range_1, Z.eqb_sym.
        destruct dma; simpl; apply znth_zset; rewrite (pw_pages s W); done.
      * intros id'; subst s'; destruct dma; destruct id'; done.
      * subst s'; destruct dma; done.
      * subst s'; destruct dma; done.
    + subst s' addr; destruct dma; done.
Qed.

(** The two single-page allocators differ in the cache cleaning only. *)
Definition pmm_alloc_one (dma : bool) (ticks : Z) (s : pmm) : pmm * Z :=
  if dma then pmm_alloc_page_dma ticks s else pmm_alloc_page ticks s.

Lemma pmm_alloc_one_eq dma ticks s :
  pmm_alloc_one dma ticks s =
  let '(s, page) := zone_alloc_page ZONE_NORMAL dma ticks s in
  if page =? 0 then zone_alloc_page ZONE_DMA dma ticks s else (s, page).
Proof. destruct dma; done. Qed.

Lemma pmm_alloc_one_spec dma ticks s s' addr :
  pmm_wf s -> pmm_alloc_one dma ticks s = (s', addr) ->
  (addr = 0 /\ s' = s /\ forall q, 0 <= q < total_pages s -> frame_free s q = false) \/
  (exists q, 0 <= q < total_pages s /\ addr = page_va q /\ took s s' q 1 page_alloc /\
     mem_log s' = alloc_log dma addr PAGE_SIZE (mem_log s)).
Proof.
  intros W E; rewrite pmm_alloc_one_eq in E.
  destruct (zone_alloc_page ZONE_NORMAL dma ticks s) as [s1 a1] eqn:E1.
  destruct (zone_alloc_spec _ _ _ _ _ _ W E1) as [(-> & -> & Hn) | (q & Hq & -> & Htk & Hlog)].
  - simpl in E; destruct (zone_alloc_spec _ _ _ _ _ _ W E) as [(-> & -> & Hd) | (q & Hq & -> & Htk & Hlog)].
    + left; repeat split; auto; intros q Hq.
      destruct (frame_zone s q W Hq) as (id & k & Hk & -> & _); rewrite frame_free_zone by done.
      destruct id; auto.
    + right; exists q; pose proof (zone_range s ZONE_DMA W); simpl in *; split_and!; try done; lia.
  - pose proof (zone_range s ZONE_NORMAL W); pose proof (total_bound s W).
    destruct (Z.eqb_spec (page_va q) 0) as [Hz |]; [exfalso; revert Hz; apply page_va_nonzero; lia |].
    injection E as <- <-; right; exists q; simpl in *; split_and!; try done; lia.
Qed.

(** Folding the one-element updates over a range. *)
Lemma fold_set_bits bm n k c :
  bitmap_ok bm n -> 0 <= k -> 0 <= c -> k + c <= n -> n <= 2 ^ 62 ->
  let bm' := set_run bm k c in
  bitmap_ok bm' n /\ zlen bm' = zlen bm /\
  forall j, is_free bm' j = is_free bm j && negb (in_range k c j).
Proof.
  intros Hb Hk Hc Hkc Hn; cbv zeta.
  apply (foldl_seqZ_inv (fun i bm' => bitmap_ok bm' n /\ zlen bm' = zlen bm /\
    forall j, is_free bm' j = is_free bm j && negb (in_range k i j)) _ 0 c bm); [lia | |].
  - split_and!; auto; intros j; destruct (in_range k 0 j) eqn:E; [apply in_range_spec in E; lia |].
    by rewrite andb_true_r.
  - intros i t Hi (Ht & Hl & Hf); rewrite u64_small by lia.
    split_and!; [by apply bitmap_set_ok | by rewrite zlen_bitmap_set |].
    intros j; rewrite is_free_set, Hf by (destruct Ht; lia).
    rewrite andb_comm, <- andb_assoc, <- negb_orb; f_equal; f_equal.
    apply Bool.eq_iff_eq_true; rewrite orb_true_iff, !in_range_spec, Z.eqb_eq; lia.
Qed.

Lemma fold_set_pages s q c :
  0 <= q -> 0 <= c -> q + c <= zlen (page_array s) -> zlen (page_array s) <= 2 ^ 62 ->
  let s' := init_pages s q c in
  zlen (page_array s') = zlen (page_array s) /\
  (forall p, frame s' p = if in_range q c p then page_alloc else frame s p) /\
  (forall id, zone_of s' id = zone_of s id) /\ total_pages s' = total_pages s /\
  free_pages s' = free_pages s /\ mem_log s' = mem_log s.
Proof.
  intros Hq Hc Hqc Hl; cbv zeta.
  apply (foldl_seqZ_inv (fun i s' => zlen (page_array s') = zlen (page_array s) /\
    (forall p, frame s' p = if in_range q i p then page_alloc else frame s p) /\
    (forall id, zone_of s' id = zone_of s id) /\ total_pages s' = total_pages s /\
    free_pages s' = free_pages s /\ mem_log s' = mem_log s) _ 0 c s); [lia | |].
  - split_and!; auto; intros p; destruct (in_range q 0 p) eqn:E; [apply in_range_spec in E; lia | done].
  - intros i t Hi (H1 & H2 & H3 & H4 & H5 & H6); rewrite u64_small by lia.
    split_and!; try done; [by simpl; rewrite zlen_zset |].
    intros p; unfold frame in *; simpl; rewrite znth_zset, H2 by lia.
    destruct (Z.eqb_spec (q + i) p) as [<- |].
    + replace (in_range q (i + 1) (q + i)) with true; [done |].
      symmetry; apply in_range_spec; lia.
    + replace (in_range q (i + 1) p) with (in_range q i p); [done |].
      apply Bool.eq_iff_eq_true; rewrite !in_range_spec; lia.
Qed.

(** A contiguous request of more than one page. *)
Lemma alloc_many_spec count dma ticks s s' addr :
  pmm_wf s -> 1 < count -> alloc_pages_impl count dma ticks s = (s', addr) ->
  (addr = 0 /\ s' = s /\
   forall q, z_start_pfn (zone_normal s) <= q -> q + count <= z_end_pfn (zone_normal s) ->
     exists p, q <= p < q + count /\ frame_free s p = false) \/
  (exists q, z_start_pfn (zone_normal s) <= q /\ q + count <= z_end_pfn (zone_normal s) /\
     addr = page_va q /\ took s s' q count page_alloc /\
     mem_log s' = alloc_log dma addr (PAGE_SIZE * count) (mem_log s)).
Proof.
  intros W Hc E; pose proof (pw_normal s W) as Wz; pose proof (zone_range s ZONE_NORMAL W) as R.
  pose proof (total_bound s W) as T; simpl in R.
  assert (Hd : 0 <= npages (zone_normal s) <= 2 ^ 27) by (destruct Wz; unfold npages in *; lia).
  unfold alloc_pages_impl in E; destruct (Z.eqb_spec count 0), (Z.eqb_spec count 1); try lia.
  rewrite (u64_small (_ - z_start_pfn _)) in E by (unfold npages in *; lia).
  fold (npages (zone_normal s)) in E.
  pose proof (find_contiguous_lowest (z_bitmap (zone_normal s)) 0 (npages (zone_normal s)) count
                ltac:(lia) ltac:(lia) ltac:(lia)) as L.
  set (k := bitmap_find_contiguous _ _ _ _) in *.
  assert (Hff : forall j, 0 <= j < npages (zone_normal s) ->
            frame_free s (z_start_pfn (zone_normal s) + j) = is_free (z_bitmap (zone_normal s)) j)
    by (intros j Hj; apply (frame_free_zone s ZONE_NORMAL j W Hj)).
  destruct L as [[Hk Hno] | (Hk0 & Hkc & Hfree & _)].
  - rewrite Hk in E; simpl in E; injection E as <- <-; left; split_and!; auto.
    intros q Hq Hqe; destruct (Hno (q - z_start_pfn (zone_normal s))) as (j & Hj & Hjf);
      [lia | unfold npages; lia |].
    exists (z_start_pfn (zone_normal s) + j); split; [lia |].
    rewrite Hff by (unfold npages in *; lia); done.
  - destruct (Z.ltb_spec k 0); [lia |]; right; exists (z_start_pfn (zone_normal s) + k).
    cbv zeta in E; cbn [z_start_pfn] in E.
    rewrite (u64_small (z_start_pfn _ + k)) in E by (unfold npages in *; lia).
    rewrite (u64_small (PAGE_SIZE * count)) in E by (unfold PAGE_SIZE; lia).
    match type of E with context [init_pages ?a ?q _] =>
      pose proof (fold_set_pages a q count) as F; set (s1 := init_pages a q count) in * end.
    simpl in F; rewrite (pw_pages s W) in F.
    destruct F as (F1 & F2 & F3 & F4 & F5 & F6); [lia | lia | unfold npages in *; lia | lia |].
    destruct (fold_set_bits (z_bitmap (zone_normal s)) (npages (zone_normal s)) k count)
      as (B1 & B2 & B3); [apply Wz | lia | lia | lia | lia |].
    injection E as Es Ea; split; [lia |]; split; [unfold npages in *; lia |]; split; [done |].
    split.
    + apply (take_frames s s' ZONE_NORMAL (set_run (z_bitmap (zone_normal s)) k count) k count (z_next_free_pfn (zone_normal s)) page_alloc W);
        try done; try lia; [by left | apply Wz | | | | |].
      all: subst s'; destruct dma; simpl; rewrite ?F1, ?(pw_pages s W); try done.
      all: try (intros p; unfold frame in *; simpl; rewrite F2; done).
      all: try (intros id'; rewrite <- (F3 id'); destruct id'; done).
      all: rewrite F5; done.
    + subst s' addr; destruct dma; simpl; rewrite F6; done.
Qed.

(** ** Freeing *)

(** The frame number [pmm_free_page] derives from an address. *)
Definition addr_pfn (page : Z) : Z := phys_to_pfn (u64 (virt_to_phys page - MEMORY_BASE)).

(** [s'] is [s] with the [c] allocated frames from [q] on free again. *)
Record gave (s s' : pmm) (q c : Z) : Prop := {
  gv_wf : pmm_wf s';
  gv_total : total_pages s' = total_pages s;
  gv_dma_end : z_end_pfn (zone_dma s') = z_end_pfn (zone_dma s);
  gv_free : free_pages s' = free_pages s + c;
  gv_frames : forall p, 0 <= p < total_pages s ->
    frame_free s' p = frame_free s p || in_range q c p;
  gv_pages : forall p, frame s' p = if in_range q c p then page0 else frame s p }.

Lemma gave_refl s q : pmm_wf s -> gave s s q 0.
Proof.
  intros W; assert (E : forall p, in_range q 0 p = false) by (intros p; apply in_range_false; lia).
  constructor; auto; try lia; intros p; rewrite E; [by rewrite orb_false_r | done].
Qed.

Lemma in_range_snoc q c d p : 0 <= c -> 0 <= d ->
  in_range q (c + d) p = in_range q c p || in_range (q + c) d p.
Proof.
  intros; apply Bool.eq_iff_eq_true; rewrite orb_true_iff, !in_range_spec; lia.
Qed.

Lemma gave_trans s s1 s2 q c d : 0 <= c -> 0 <= d ->
  gave s s1 q c -> gave s1 s2 (q + c) d -> gave s s2 q (c + d).
Proof.
  intros Hc Hd [W1 T1 D1 F1 Fr1 P1] [W2 T2 D2 F2 Fr2 P2]; constructor; try done; try lia.
  - intros p Hp; rewrite in_range_snoc, Fr2, Fr1, orb_assoc by lia; done.
  - intros p; rewrite in_range_snoc, P2, P1 by lia; destruct (in_range q c p), (in_range (q + c) d p); done.
Qed.

(** One allocated frame of a zone becomes free. *)
Lemma give_frame s s' id k :
  pmm_wf s -> 0 <= k < npages (zone_of s id) -> is_free (z_bitmap (zone_of s id)) k = false ->
  zlen (page_array s') = zlen (page_array s) ->
  (forall p, frame s' p = if p =? z_start_pfn (zone_of s id) + k then page0 else frame s p) ->
  (forall id', zone_of s' id' =
     zone_of (set_zone s id
       {| z_start_pfn := z_start_pfn (zone_of s id); z_end_pfn := z_end_pfn (zone_of s id);
          z_free_pages := u64 (z_free_pages (zone_of s id) + 1);
          z_bitmap := bitmap_clear (z_bitmap (zone_of s id)) k;
          z_next_free_pfn := z_next_free_pfn (zone_of s id) |}) id') ->
  total_pages s' = total_pages s -> free_pages s' = u64 (free_pages s + 1) ->
  gave s s' (z_start_pfn (zone_of s id) + k) 1.
Proof.
  intros W Hk Hfk Hlen Hpg Hz Htot Hfr; pose proof (zone_of_wf s id W) as Wz.
  pose proof (zone_range s id W) as Rz; pose proof (total_bound s W) as T.
  assert (Wz' := zone_wf_give _ _ k Wz Hk ltac:(rewrite (pw_pages s W); lia) Hfk).
  assert (Hko : 0 <= k < 64 * zlen (z_bitmap (zone_of s id)))
    by (destruct (zw_bitmap _ _ Wz); lia).
  assert (Hcnt : u64 (z_free_pages (zone_of s id) + 1) = z_free_pages (zone_of s id) + 1 /\
                 u64 (free_pages s + 1) = free_pages s + 1).
  { assert (Bd := zcount_bounds (is_free (z_bitmap (zone_dma s))) (Z.to_nat (npages (zone_dma s)))).
    assert (Bn := zcount_bounds (is_free (z_bitmap (zone_normal s))) (Z.to_nat (npages (zone_normal s)))).
    clear - W Bd Bn T; destruct W as [Wd Wa Wt Wp [? ? ? _ Fd _ _ _] [? ? ? _ Fn _ _ _] Wf].
    unfold free_count, npages in *; rewrite !u64_small; destruct id; simpl in *; lia. }
  destruct Hcnt as [Hcz Hcf].
  pose proof (Hz ZONE_DMA) as Hzd; pose proof (Hz ZONE_NORMAL) as Hzn; simpl in Hzd, Hzn.
  assert (Hpa : forall p, znth page0 (page_array s') p =
            znth page0 (zset (page_array s) (z_start_pfn (zone_of s id) + k) page0) p).
  { intros p; unfold frame in Hpg; rewrite Hpg, znth_zset, Z.eqb_sym; [done |].
    rewrite (pw_pages s W); unfold npages in *; lia. }
  constructor; try done; try lia.
  - destruct W as [Wd Wa Wt Wp Wzd Wzn Wf]; unfold npages in *.
    assert (Wz2 := zone_wf_frame _ (page_array s') _ Wz' (fun q _ => Hpa q)).
    destruct id; simpl in *; constructor; rewrite ?Hzd, ?Hzn; simpl; try done; try lia.
    all: apply (zone_wf_frame (page_array s)); [done |]; intros p Hp'; rewrite Hpa; apply znth_zset_ne; lia.
  - rewrite Hzd; destruct id; done.
  - intros p Hp'; rewrite in_range_1; unfold frame_free; rewrite Hzd, Hzn.
    destruct W as [Wd Wa Wt Wp _ _ _]; unfold npages in *.
    destruct id; simpl in *; destruct (Z.ltb_spec p (z_end_pfn (zone_dma s))); rewrite ?is_free_clear by done.
    1, 4: rewrite orb_comm; f_equal; apply Bool.eq_iff_eq_true; rewrite !Z.eqb_eq; lia.
    all: destruct (Z.eqb_spec p (z_start_pfn (zone_of s ZONE_DMA) + k)) as [E |]; simpl in *; try lia.
    all: match goal with |- context [?x =? ?y] => replace (x =? y) with false by (symmetry; apply Z.eqb_neq; lia) end.
    all: by rewrite orb_false_r.
  - intros p; rewrite in_range_1; apply Hpg.
Qed.

(** Freeing every kind of address. *)
Lemma free_page_null s : pmm_free_page 0 s = Ret s.
Proof. done. Qed.

Lemma free_page_outside page s :
  total_pages s <= addr_pfn page -> pmm_free_page page s = Ret s.
Proof.
  intros H; unfold pmm_free_page; fold (addr_pfn page).
  destruct (page =? 0), (Z.leb_spec (total_pages s) (addr_pfn page)); done || lia.
Qed.

Lemma free_page_reserved page s :
  page <> 0 -> frame s (addr_pfn page) = page_resv -> pmm_free_page page s = Ret s.
Proof.
  intros Hp H; unfold pmm_free_page; fold (addr_pfn page) (frame s (addr_pfn page)); rewrite H.
  destruct (page =? 0), (total_pages s <=? addr_pfn page); done.
Qed.

(** Past the first tests, a frame with one reference reaches its bitmap. *)
Lemma free_page_double page s :
  pmm_wf s -> page <> 0 -> 0 <= addr_pfn page < total_pages s ->
  frame_free s (addr_pfn page) = true -> pmm_free_page page s = Panic.
Proof.
  intros W Hp Hq Hf; pose proof (frame_clear s _ W Hq Hf) as Hpg.
  unfold pmm_free_page; fold (addr_pfn page) (frame s (addr_pfn page)); rewrite Hpg.
  set (q := addr_pfn page) in *; destruct (Z.eqb_spec page 0), (Z.leb_spec (total_pages s) q); try lia.
  unfold frame_free in Hf; pose proof (total_bound s W).
  change (negb (Z.land (pg_flags page0) PG_RESERVED =? 0)) with false; cbv iota zeta.
  change (1 <? pg_refcount page0) with false; cbv iota.
  set (s0 := set_page s q _); change (zone_dma s0) with (zone_dma s).
  destruct (Z.ltb_spec q (z_end_pfn (zone_dma s))).
  - change (zone_of s0 ZONE_DMA) with (zone_dma s); unfold is_free in Hf; by rewrite Hf.
  - assert (0 <= z_end_pfn (zone_dma s))
      by (destruct W as [? ? ? ? [? ? ? _ _ _ _ _] _ _]; unfold npages in *; lia).
    change (zone_of s0 ZONE_NORMAL) with (zone_normal s).
    rewrite u64_small by lia; unfold is_free in Hf; by rewrite Hf.
Qed.

Lemma free_page_release page s :
  pmm_wf s -> page <> 0 -> 0 <= addr_pfn page < total_pages s ->
  frame_free s (addr_pfn page) = false -> frame s (addr_pfn page) = page_alloc ->
  exists s', pmm_free_page page s = Ret s' /\ gave s s' (addr_pfn page) 1 /\
    mem_log s' = Memset page PAGE_SIZE 0xCC :: mem_log s.
Proof.
  intros W Hp Hq Hf Hpg; pose proof (total_bound s W) as T.
  unfold pmm_free_page; fold (addr_pfn page) (frame s (addr_pfn page)); rewrite Hpg.
  set (q := addr_pfn page) in *; destruct (Z.eqb_spec page 0), (Z.leb_spec (total_pages s) q); try lia.
  destruct (frame_zone s q W Hq) as (id & k & Hk & Eq & Hid & Hkq).
  assert (D : 0 <= z_end_pfn (zone_dma s) <= total_pages s)
    by (destruct W as [? ? ? ? [? ? ? _ _ _ _ _] [? ? ? _ _ _ _ _] _]; unfold npages in *; lia).
  change (negb (Z.land (pg_flags page_alloc) PG_RESERVED =? 0)) with false; cbv iota zeta.
  change (1 <? pg_refcount page_alloc) with false; cbv iota.
  change {| pg_flags := pg_flags page_alloc; pg_refcount := u32 (pg_refcount page_alloc - 1) |}
    with page0.
  set (s0 := set_page s q page0); change (zone_dma s0) with (zone_dma s); rewrite <- Hid.
  replace (if q <? z_end_pfn (zone_dma s) then q else u64 (q - z_end_pfn (zone_dma s))) with k
    by (rewrite Hkq; case_if; [done | rewrite u64_small by lia; done]).
  pose proof Hf as Hfk; rewrite Eq, frame_free_zone in Hfk by done.
  pose proof (zone_of_wf s id W) as Wz; pose proof (zone_range s id W) as Rz.
  change (zone_of s0 id) with (zone_of s id).
  assert (Ht : bitmap_test (z_bitmap (zone_of s id)) k = true)
    by (unfold is_free in Hfk; by apply negb_false_iff in Hfk).
  rewrite Ht; cbn [negb]; eexists; split; [reflexivity |]; split; [| destruct id; done].
  rewrite Eq; apply (give_frame s _ id k); auto.
  - simpl; apply zlen_zset.
  - intros p; unfold frame; rewrite <- Eq, Z.eqb_sym; apply znth_zset; rewrite (pw_pages s W); done.
Qed.

Lemma addr_pfn_page_va q : 0 <= q <= 2 ^ 27 -> addr_pfn (page_va q) = q.
Proof.
  intros; unfold addr_pfn; rewrite <- (Z.add_0_r (page_va q)); apply va_to_pfn; lia.
Qed.

(** [pmm_free_pages] on a run of allocated frames. *)
Lemma free_pages_release s q c :
  pmm_wf s -> 0 <= q -> 0 <= c -> q + c <= total_pages s ->
  (forall p, q <= p < q + c -> frame_free s p = false /\ frame s p = page_alloc) ->
  exists s', pmm_free_pages (page_va q) c s = Ret s' /\ gave s s' q c.
Proof.
  intros W Hq Hc Hqc Hal; pose proof (total_bound s W) as T; unfold pmm_free_pages.
  apply (foldl_seqZ_inv (fun i m => exists s', m = Ret s' /\ gave s s' q i) _ 0 c (Ret s));
    [lia | by eauto using gave_refl |].
  intros i m Hi (t & -> & G); simpl; rewrite page_va_offset by lia.
  pose proof G as [W1 T1 D1 F1 Fr1 P1].
  assert (E : addr_pfn (page_va (q + i)) = q + i) by (apply addr_pfn_page_va; lia).
  assert (Hir : in_range q i (q + i) = false) by (apply in_range_false; lia).
  destruct (Hal (q + i)) as [Ha1 Ha2]; [lia |].
  destruct (free_page_release (page_va (q + i)) t W1) as (s' & E' & G' & _).
  - apply page_va_nonzero; lia.
  - rewrite E; lia.
  - rewrite E, Fr1, Hir, Ha1 by lia; done.
  - rewrite E, P1, Hir; done.
  - exists s'; split; [done |]; rewrite E in G'; apply (gave_trans s t s' q i 1); auto; lia.
Qed.

(** Taking a run and giving back its two ends leaves the middle taken. *)
Lemma took_trim s s1 s2 s3 q n a b :
  pmm_wf s -> 0 <= a -> 0 <= b -> 0 <= n -> 0 <= q -> q + a + n + b <= total_pages s ->
  took s s1 q (a + n + b) page_alloc -> gave s1 s2 q a -> gave s2 s3 (q + a + n) b ->
  took s s3 (q + a) n page_alloc.
Proof.
  intros W Ha Hb Hn Hq Hqt [W1 T1 D1 F1 B1 Fr1 P1] [W2 T2 D2 F2 Fr2 P2] [W3 T3 D3 F3 Fr3 P3].
  constructor; try done; try lia.
  - intros p Hp; apply B1; lia.
  - intros p Hp; rewrite Fr3, Fr2, Fr1 by lia.
    destruct (frame_free s p) eqn:Ef; simpl.
    + rewrite !(in_range_snoc q), !negb_orb by lia; replace (q + (a + n)) with (q + a + n) by lia.
      apply Bool.eq_iff_eq_true; rewrite !orb_true_iff, !andb_true_iff, !negb_true_iff, !in_range_spec, !in_range_false.
      lia.
    + assert (Hno : in_range q (a + n + b) p = false).
      { apply not_true_iff_false; rewrite in_range_spec; intros Hr.
        rewrite (B1 p Hr) in Ef; done. }
      apply in_range_false in Hno.
      apply not_true_iff_false; rewrite !orb_true_iff, !in_range_spec; lia.
  - intros p; rewrite P3, P2, P1.
    destruct (in_range q (a + n + b) p) eqn:E1, (in_range q a p) eqn:E2,
      (in_range (q + a + n) b p) eqn:E3, (in_range (q + a) n p) eqn:E4;
      rewrite ?in_range_spec, ?in_range_false in *; try lia; try done.
    all: assert (Hr : q <= p < q + (a + n + b)) by lia; pose proof (B1 p Hr) as Hf.
    all: symmetry; apply frame_clear; auto; lia.
Qed.

(** ** Aligned allocation *)

Lemma alloc_pages_dma_spec c ticks s s' addr :
  pmm_wf s -> 0 < c -> alloc_pages_impl c true ticks s = (s', addr) ->
  (addr = 0 /\ s' = s) \/
  (exists q, 0 <= q /\ q + c <= total_pages s /\ addr = page_va q /\ took s s' q c page_alloc).
Proof.
  intros W Hc E; destruct (Z.eq_dec c 1) as [-> |].
  - destruct (pmm_alloc_one_spec true ticks s s' addr W E) as [(-> & -> & _) | (q & Hq & Ha & Ht & _)];
      [by left | right; exists q; split_and!; auto; lia].
  - destruct (alloc_many_spec c true ticks s s' addr W ltac:(lia) E)
      as [(-> & -> & _) | (q & Hq & Hqe & Ha & Ht & _)]; [by left | right].
    pose proof (zone_range s ZONE_NORMAL W); simpl in *; exists q; split_and!; auto; lia.
Qed.

(** Rounding a page address up to a multiple of [2 ^ a] skips whole pages,
    fewer than [2 ^ (a - 12)] of them. *)
Lemma align_up_page q a :
  0 <= q -> q + 2 ^ (a - 12) <= 2 ^ 27 -> 12 <= a <= 38 ->
  let aligned := Z.land (u64 (u64 (page_va q + 2 ^ a) - 1)) (not64 (u64 (2 ^ a - 1))) in
  exists skip, 0 <= skip < 2 ^ (a - 12) /\ aligned = page_va (q + skip) /\
    aligned mod 2 ^ a = 0 /\ u64 (aligned - page_va q) / PAGE_SIZE = skip.
Proof.
  intros Hq Hqa Ha; cbv zeta; set (n := 2 ^ (a - 12)) in *.
  assert (En : 2 ^ a = 4096 * n)
    by (unfold n; replace a with (12 + (a - 12)) at 1 by lia; rewrite Z.pow_add_r by lia; done).
  assert (Hn : 0 < n) by (apply Z.pow_pos_nonneg; lia).
  pose proof arch_base; pose proof arch_virt.
  pose proof (page_va_aligned q ltac:(lia)) as Hal; pose proof (page_va_eq q ltac:(lia)) as Ev.
  assert (Ev2 := fun i => page_va_eq (q + i)).
  rewrite (u64_small (2 ^ a - 1)), (u64_small (page_va q + 2 ^ a)) by lia.
  rewrite u64_small, align_down by (unfold is_u64; lia).
  set (v := page_va q) in *.
  pose proof (Z.div_mod (v + 2 ^ a - 1) (2 ^ a) ltac:(lia)) as Dm.
  pose proof (Z.mod_pos_bound (v + 2 ^ a - 1) (2 ^ a) ltac:(lia)) as Mb.
  set (d := (v + 2 ^ a - 1) / 2 ^ a) in *; set (r := (v + 2 ^ a - 1) mod 2 ^ a) in *.
  assert (Ediv : v = 4096 * (v / 4096)) by (pose proof (Z.div_mod v 4096); lia).
  set (w := v / 4096) in *; exists (d * n - w).
  assert (0 <= d * n - w < n) by nia.
  split; [done |]; split; [rewrite Ev2 by lia; nia |].
  split; [apply Z.mod_mul; lia |].
  rewrite u64_small by nia; unfold PAGE_SIZE.
  replace (d * 2 ^ a - v) with ((d * n - w) * 4096) by nia; apply Z.div_mul; lia.
Qed.

Lemma alloc_aligned_spec size a ticks s :
  pmm_wf s -> 0 < size <= 2 ^ 38 -> 0 <= a <= 38 ->
  let n := (size + 4095) / 4096 in
  exists s' addr, pmm_alloc_aligned size (2 ^ a) ticks s = Ret (s', addr) /\
    ((addr = 0 /\ s' = s) \/
     (exists q, 0 <= q /\ q + n <= total_pages s /\ addr = page_va q /\ addr mod 2 ^ a = 0 /\
        took s s' q n page_alloc)).
Proof.
  intros W Hsz Ha n; pose proof (total_bound s W) as T; unfold pmm_alloc_aligned.
  assert (Hpow : 0 < 2 ^ a <= 2 ^ 38) by (split; [lia | apply Z.pow_le_mono_r; lia]).
  rewrite (u64_small (size + _)), (u64_small (2 ^ a + PAGE_SIZE)) by (unfold PAGE_SIZE; lia).
  rewrite (u64_small (size + PAGE_SIZE - 1)), (u64_small (2 ^ a + PAGE_SIZE - 1))
    by (unfold PAGE_SIZE; lia).
  replace ((size + PAGE_SIZE - 1) / PAGE_SIZE) with n by (unfold n, PAGE_SIZE; f_equal; lia).
  assert (Hn : 1 <= n <= 2 ^ 26 + 1).
  { unfold n; split; [apply Z.div_le_lower_bound; lia | apply Z.div_le_upper_bound; lia]. }
  destruct (Z_le_gt_dec a 12) as [Hle | Hgt].
  - assert (Hp : 2 ^ a <= 2 ^ 12) by (apply Z.pow_le_mono_r; lia).
    assert (Hap : (2 ^ a + PAGE_SIZE - 1) / PAGE_SIZE <= 1)
      by (unfold PAGE_SIZE; assert ((2 ^ a + 4096 - 1) / 4096 < 2) by (apply Z.div_lt_upper_bound; lia); lia).
    destruct (Z.leb_spec ((2 ^ a + PAGE_SIZE - 1) / PAGE_SIZE) 1); [| lia].
    destruct (pmm_alloc_pages_dma n ticks s) as [s' addr] eqn:E; exists s', addr; split; [done |].
    destruct (alloc_pages_dma_spec n ticks s s' addr W ltac:(lia) E) as [? | (q & Hq & Hqn & -> & Ht)];
      [by left | right; exists q; split_and!; auto].
    pose proof (page_va_aligned q ltac:(lia)) as Hm.
    apply Z.mod_divide; [lia |]; apply Z.mod_divide in Hm; [| lia].
    apply (Z.divide_trans _ 4096); [| done]; exists (2 ^ (12 - a)).
    rewrite <- Z.pow_add_r by lia; replace (12 - a + a) with 12 by lia; done.
  - set (m := 2 ^ (a - 12)).
    assert (Em : 2 ^ a = 4096 * m)
      by (unfold m; replace a with (12 + (a - 12)) at 1 by lia; rewrite Z.pow_add_r by lia; done).
    assert (Hm : 2 ^ 1 <= m) by (apply Z.pow_le_mono_r; lia).
    replace ((2 ^ a + PAGE_SIZE - 1) / PAGE_SIZE) with m.
    2:{ unfold PAGE_SIZE; rewrite Em; replace (4096 * m + 4096 - 1) with (4095 + m * 4096) by lia.
        rewrite Z.div_add, Z.div_small by lia; lia. }
    destruct (Z.leb_spec m 1); [lia |].
    rewrite (u64_small (n + m)), (u64_small (n + m - 1)) by lia.
    destruct (pmm_alloc_pages_dma (n + m - 1) ticks s) as [s1 mem] eqn:E.
    destruct (alloc_pages_dma_spec (n + m - 1) ticks s s1 mem W ltac:(lia) E)
      as [[-> ->] | (q & Hq & Hqn & -> & Ht)]; [by exists s, 0; auto |].
    destruct (Z.eqb_spec (page_va q) 0) as [Hz |]; [exfalso; revert Hz; apply page_va_nonzero; lia |].
    destruct (align_up_page q a) as (k & Hk & Eal & Hmod & Eskip); [lia | fold m; lia | lia |].
    fold m in Hk; rewrite Eskip; rewrite Eal in Hmod |- *.
    rewrite (u64_small (n + m - 1 - k)), (u64_small (n + m - 1 - k - n)) by lia.
    assert (G1 : exists s2, (if 0 <? k then pmm_free_pages (page_va q) k s1 else Ret s1) = Ret s2 /\
                            gave s1 s2 q k).
    { destruct Ht as [W1 T1 D1 F1 B1 Fr1 P1].
      destruct (Z.ltb_spec 0 k); [| replace k with 0 by lia; eauto using gave_refl].
      apply free_pages_release; [done | lia | lia | lia |].
      intros p Hp; assert (Hr : in_range q (n + m - 1) p = true) by (apply in_range_spec; lia).
      rewrite P1, Fr1, Hr by lia; by rewrite andb_false_r. }
    destruct G1 as (s2 & -> & G1); simpl.
    set (b := n + m - 1 - k - n) in *; assert (Hb : 0 <= b) by lia.
    assert (G2 : exists s3, (if 0 <? b then
                 pmm_free_pages (u64 (page_va (q + k) + u64 (n * PAGE_SIZE))) b s2 else Ret s2) = Ret s3 /\
                            gave s2 s3 (q + k + n) b).
    { pose proof Ht as [W1 T1 D1 F1 B1 Fr1 P1]; pose proof G1 as [W2 T2 D2 F2 Fr2 P2].
      destruct (Z.ltb_spec 0 b); [| replace b with 0 by lia; eauto using gave_refl].
      rewrite (u64_small (n * _)) by (unfold PAGE_SIZE; lia); rewrite page_va_offset by lia.
      apply free_pages_release; [done | lia | lia | lia |].
      intros p Hp; assert (Hr : in_range q (n + m - 1) p = true) by (apply in_range_spec; lia).
      assert (Hr2 : in_range q k p = false) by (apply in_range_false; lia).
      rewrite P2, Fr2, P1, Fr1, Hr, Hr2 by lia; by rewrite andb_false_r. }
    destruct G2 as (s3 & -> & G2); simpl; eexists _, _; split; [reflexivity |]; right.
    exists (q + k); split_and!; [lia | lia | done | done |].
    replace (n + m - 1) with (k + n + b) in Ht by lia.
    apply (took_trim s s1 s2 s3 q n k b); auto; lia.
Qed.

End addresses.
