(* ===== verification/PmmBoot.v ===== *)
(** * Boot of the physical memory manager

    [pmm_early_init] places the metadata, [pmm_init] builds the zones and
    reserves what is not free RAM ([kernel/mm/pmm.c], lines 299-542).  The
    definitions are in [Pmm]; here is what they establish. *)
From stdpp Require Import base numbers list.
From S2P Require Import Prelude Bitmap Pmm.

Section boot.
Context {A : Arch} {HA : ArchOk A}.

(** ** Reserving frames *)

(** While booting, a frame that is not free is reserved. *)
Definition boot_ok (s : pmm) : Prop :=
  pmm_wf s /\ forall q, 0 <= q < total_pages s -> frame_free s q = false -> frame s q = page_resv.

(** [s'] is [s] with the frames in [P] reserved as well. *)
Record reserved_in (s s' : pmm) (P : Z -> bool) : Prop := {
  ri_ok : boot_ok s';
  ri_total : total_pages s' = total_pages s;
  ri_va : page_array_va s' = page_array_va s;
  ri_frames : forall p, 0 <= p < total_pages s -> frame_free s' p = frame_free s p && negb (P p) }.

Lemma reserved_in_refl s P :
  boot_ok s -> (forall p, 0 <= p < total_pages s -> P p = false) -> reserved_in s s P.
Proof.
  intros W HP; constructor; auto; intros p Hp; rewrite HP by done; by rewrite andb_true_r.
Qed.

Lemma reserved_in_trans s s1 s2 P Q R :
  reserved_in s s1 P -> reserved_in s1 s2 Q ->
  (forall p, 0 <= p < total_pages s -> R p = P p || Q p) -> reserved_in s s2 R.
Proof.
  intros [W1 T1 V1 F1] [W2 T2 V2 F2] HR; constructor; try done; try congruence.
  intros p Hp; rewrite F2, F1, HR, negb_orb, andb_assoc by lia; done.
Qed.

Lemma reserve_pfn_spec s q :
  boot_ok s -> 0 <= q < total_pages s -> reserved_in s (reserve_pfn s q) (fun p => p =? q).
Proof.
  intros [W Hb] Hq; pose proof (total_bound s W) as T; unfold reserve_pfn; fold (frame s q).
  destruct (frame_free s q) eqn:Hf.
  2:{ rewrite (Hb q Hq Hf); change (negb _) with true; cbv iota.
      constructor; [by split | done | done |]; intros p Hp.
      destruct (Z.eqb_spec p q) as [-> |]; [by rewrite Hf | by rewrite andb_true_r]. }
  rewrite (frame_clear s q W Hq Hf).
  change (negb (Z.land (pg_flags page0) PG_RESERVED =? 0)) with false; cbv iota zeta.
  destruct (frame_zone s q W Hq) as (id & k & Hk & Eq & Hid & Hkq).
  change (Z.lor PG_RESERVED PG_KERNEL) with 3; fold page_resv.
  set (s0 := set_page s q page_resv); change (zone_dma s0) with (zone_dma s); rewrite <- Hid.
  assert (D : 0 <= z_end_pfn (zone_dma s))
    by (destruct W as [? ? ? ? [? ? ? _ _ _ _ _] _ _]; unfold npages in *; lia).
  replace (if q <? z_end_pfn (zone_dma s) then q else u64 (q - z_end_pfn (zone_dma s))) with k
    by (rewrite Hkq; case_if; [done | rewrite u64_small by lia; done]).
  change (zone_of s0 id) with (zone_of s id); pose proof (zone_of_wf s id W) as Wz.
  match goal with |- reserved_in _ ?t _ => set (s' := t) end.
  assert (Hfk := Hf); rewrite Eq, frame_free_zone in Hfk by done.
  assert (Tk : took s s' (z_start_pfn (zone_of s id) + k) 1 page_resv).
  { apply (take_frames s s' id (bitmap_set (z_bitmap (zone_of s id)) k) k 1
             (z_next_free_pfn (zone_of s id))); try done; try lia.
    - apply bitmap_set_ok, Wz.
    - intros j; rewrite in_range_1, andb_comm; apply is_free_set; destruct (zw_bitmap _ _ Wz); lia.
    - intros j Hj; replace j with k by lia; done.
    - by right.
    - apply Wz.
    - change (page_array s') with (zset (page_array s) q page_resv); apply zlen_zset.
    - intros p; unfold frame; change (page_array s') with (zset (page_array s) q page_resv).
      rewrite in_range_1, Z.eqb_sym, <- Eq; apply znth_zset; rewrite (pw_pages s W); done. }
  rewrite <- Eq in Tk; destruct Tk as [W' T' D' F' B' Fr' P'].
  constructor; try done.
  - split; [done |]; intros p Hp Hpf; rewrite T' in Hp; rewrite P'; rewrite Fr' in Hpf by done.
    rewrite in_range_1 in *; destruct (p =? q); [done |]; rewrite andb_true_r in Hpf; auto.
  - intros p Hp; rewrite Fr', in_range_1 by done; done.
Qed.

(** [pmm_reserve_range] reserves exactly the frames of the range that exist. *)
Lemma reserve_range_spec s a b :
  boot_ok s -> 0 <= a -> reserved_in s (pmm_reserve_range a b s) (fun p => (a <=? p) && (p <? b)).
Proof.
  intros W Ha; unfold pmm_reserve_range; set (n := Z.min b (total_pages s) - a).
  destruct (Z_le_gt_dec n 0) as [Hn | Hn].
  { rewrite seqZ_nil by lia; apply (reserved_in_refl s); [done |].
    intros p Hp; cbv beta; unfold n in Hn; destruct (Z.leb_spec a p), (Z.ltb_spec p b); lia || done. }
  assert (Q : reserved_in s (foldl reserve_pfn s (seqZ a n)) (fun p => (a <=? p) && (p <? a + n))).
  { apply (foldl_seqZ_inv (fun i s' => reserved_in s s' (fun p => (a <=? p) && (p <? i)))); [lia | |].
    - apply reserved_in_refl; [done |]; intros p Hp; cbv beta; destruct (Z.leb_spec a p), (Z.ltb_spec p a); lia || done.
    - intros i t Hi Ht; eapply reserved_in_trans; [exact Ht | |].
      + apply reserve_pfn_spec; [apply Ht | rewrite (ri_total _ _ _ Ht); unfold n in Hi; lia].
      + intros p Hp; cbv beta; destruct (Z.leb_spec a p), (Z.ltb_spec p (i + 1)), (Z.ltb_spec p i), (Z.eqb_spec p i);
          lia || done. }
  destruct Q as [Q1 Q2 Q3 Q4]; constructor; try done; intros p Hp; rewrite Q4 by done.
  f_equal; f_equal; f_equal; apply Bool.eq_iff_eq_true; rewrite !Z.ltb_lt; unfold n; lia.
Qed.

(** ** The zones before anything is reserved *)

Lemma znth_replicate_any {B} (d : B) n i : znth d (replicate n d) i = d.
Proof.
  destruct (Z_lt_le_dec i 0); [apply znth_out; lia |].
  destruct (Z_lt_le_dec i (zlen (replicate n d))) as [H |]; [| apply znth_out; lia].
  apply znth_lookup; [done |]; unfold zlen in H; rewrite length_replicate in H.
  apply lookup_replicate_2; lia.
Qed.

Lemma is_free_zeros n k : is_free (replicate n 0) k = true.
Proof. unfold is_free; rewrite bitmap_test_bit, znth_replicate_any, Z.bits_0; done. Qed.

Lemma zone_init_wf pages a b :
  0 <= a <= b -> b <= 2 ^ 27 -> (forall q, znth page0 pages q = page0) ->
  zone_wf pages (zone_init a b).
Proof.
  intros Ha Hb Hp; unfold zone_init; rewrite (u64_small (b - a)), (u64_small (b - a + 63)) by lia.
  pose proof (Z.div_mod (b - a + 63) 64 ltac:(lia)); pose proof (Z.mod_pos_bound (b - a + 63) 64 ltac:(lia)).
  constructor; unfold npages; simpl; try lia; try done.
  - split; [apply Forall_replicate; unfold is_u64; lia |].
    rewrite zlen_replicate by (apply Z.div_pos; lia); lia.
  - unfold free_count; rewrite zcount_all by (intros; apply is_free_zeros); lia.
  - intros k _; rewrite is_free_zeros; done.
Qed.

(** The state [pmm_init] starts reserving from. *)
Definition fresh_zones (s : pmm) : pmm :=
  let dma_z := zone_init 0 dma_end_pfn in
  let normal_z := zone_init dma_end_pfn (total_pages s) in
  let s := set_zone (set_zone s ZONE_DMA dma_z) ZONE_NORMAL normal_z in
  set_free s (u64 (z_free_pages dma_z + z_free_pages normal_z)).

Lemma dma_end_pfn_eq : dma_end_pfn = 4096.
Proof.
  pose proof arch_base; unfold dma_end_pfn, phys_to_pfn.
  rewrite (u64_small (MEMORY_BASE + _)), u64_small by lia.
  replace (MEMORY_BASE + 16777216 - MEMORY_BASE) with 16777216 by lia; done.
Qed.

Lemma fresh_zones_ok s :
  4096 <= total_pages s <= 2 ^ 27 -> page_array s = replicate (Z.to_nat (total_pages s)) page0 ->
  boot_ok (fresh_zones s) /\ forall p, 0 <= p < total_pages s -> frame_free (fresh_zones s) p = true.
Proof.
  intros Ht Hp; pose proof dma_end_pfn_eq as Ed.
  assert (Hpg : forall q, znth page0 (page_array s) q = page0) by (intros; rewrite Hp; apply znth_replicate_any).
  assert (Hall : forall p, frame_free (fresh_zones s) p = true).
  { intros p; unfold frame_free, fresh_zones; simpl; case_if; apply is_free_zeros. }
  assert (Wd : zone_wf (page_array s) (zone_init 0 dma_end_pfn)).
  { apply zone_init_wf; [lia | lia | done]. }
  assert (Wn : zone_wf (page_array s) (zone_init dma_end_pfn (total_pages s))).
  { apply zone_init_wf; [lia | lia | done]. }
  split; [split |]; [constructor; simpl; try done | |].
  - rewrite Hp, zlen_replicate by lia; done.
  - rewrite (u64_small (dma_end_pfn - 0)), (u64_small (total_pages s - dma_end_pfn)) by lia.
    rewrite u64_small by lia; done.
  - intros q _; rewrite Hall; done.
  - auto.
Qed.

(** ** Frames no usable region covers *)

(** Address [a] is in a usable region. *)
Definition covered (regions : list mem_region) (a : Z) : Prop :=
  exists r, r ∈ regions /\ usable r = true /\ r_base r <= a < r_end r.

(** A region of the physical address space the direct map has room for. *)
Definition region_ok (r : mem_region) : Prop :=
  0 <= r_base r /\ 0 <= r_size r /\ r_base r + r_size r <= 2 ^ 40.

Lemma r_end_eq r : region_ok r -> r_end r = r_base r + r_size r.
Proof. intros (? & ? & ?); unfold r_end; rewrite u64_small; lia. Qed.

(** One region of the search for the next usable stretch. *)
Lemma next_usable_cons r regions cursor nb0 ne0 :
  foldl (next_usable_step cursor) (nb0, ne0) (r :: regions) =
  if usable r && (cursor <? r_end r) && (Z.max (r_base r) cursor <? nb0)
  then foldl (next_usable_step cursor) (Z.max (r_base r) cursor, r_end r) regions
  else foldl (next_usable_step cursor) (nb0, ne0) regions.
Proof.
  simpl; destruct (usable r); [simpl | done].
  replace (if r_base r <? cursor then cursor else r_base r) with (Z.max (r_base r) cursor)
    by (case_if; lia).
  destruct (Z.leb_spec (r_end r) cursor), (Z.ltb_spec cursor (r_end r)); try lia; [done |].
  simpl; case_if; done.
Qed.

Lemma next_usable_acc regions cursor nb0 ne0 nb ne :
  foldl (next_usable_step cursor) (nb0, ne0) regions = (nb, ne) ->
  nb <= nb0 /\
  (forall r, r ∈ regions -> usable r = true -> cursor < r_end r -> nb <= Z.max (r_base r) cursor) /\
  ((nb, ne) = (nb0, ne0) \/
   exists r, r ∈ regions /\ usable r = true /\ cursor < r_end r /\
     nb = Z.max (r_base r) cursor /\ ne = r_end r).
Proof.
  revert nb0 ne0; induction regions as [| r regions IH]; intros nb0 ne0 E.
  { injection E as -> ->; split_and!; [lia | intros r Hr; apply elem_of_nil in Hr; done | by left]. }
  rewrite next_usable_cons in E; setoid_rewrite elem_of_cons.
  destruct (_ && _) eqn:C.
  - apply IH in E as (H1 & H2 & H3); zbool; split_and!; [lia | |].
    + intros r' [-> | Hr']; auto.
    + right; destruct H3 as [[= -> ->] | (r' & ? & ?)]; [exists r | exists r']; intuition.
  - apply IH in E as (H1 & H2 & H3); split_and!; [done | |].
    + intros r' [-> | Hr'] Hu Hc; [| auto].
      rewrite Hu in C; apply Z.ltb_lt in Hc; rewrite Hc in C; simpl in C; zbool; lia.
    + destruct H3 as [? | (r' & ? & ?)]; [by left | right; exists r'; intuition].
Qed.

(** The stretch found: no usable address lies between the cursor and it. *)
Lemma next_usable_spec regions cursor nb ne :
  Forall region_ok regions -> cursor <= 2 ^ 62 -> next_usable regions cursor = (nb, ne) ->
  (nb = 2 ^ 64 - 1 /\ forall a, cursor <= a -> ~ covered regions a) \/
  (nb <> 2 ^ 64 - 1 /\ cursor <= nb <= ne /\ cursor < ne /\ ne <= 2 ^ 62 /\
   (forall a, cursor <= a < nb -> ~ covered regions a) /\
   (forall a, nb <= a < ne -> covered regions a) /\
   exists r, r ∈ regions /\ usable r = true /\ cursor < r_end r /\ ne = r_end r).
Proof.
  intros Hok Hc E; apply next_usable_acc in E as (_ & Hmin & [[= -> ->] | (r & Hr & Hu & Hrc & -> & ->)]).
  - left; split; [done |]; intros a Ha (r & Hr & Hu & Hra).
    pose proof (proj1 (Forall_forall _ _) Hok r Hr) as Ho; pose proof (r_end_eq r Ho); destruct Ho as (? & ? & ?).
    specialize (Hmin r Hr Hu ltac:(lia)); lia.
  - right; pose proof (proj1 (Forall_forall _ _) Hok r Hr) as Ho; pose proof (r_end_eq r Ho) as Er.
    destruct Ho as (? & ? & ?); split_and!; try lia.
    + intros a Ha (r' & Hr' & Hu' & Hra'); specialize (Hmin r' Hr' Hu' ltac:(lia)); lia.
    + intros a Ha; exists r; split_and!; auto; lia.
    + exists r; auto.
Qed.


(** ** Reserving a range of addresses *)

(** Page [p] has an address in [[a, b)], counting the page an empty range cuts. *)
Definition page_meets (a b p : Z) : bool :=
  (MEMORY_BASE + 4096 * p <? b) && (a <? MEMORY_BASE + 4096 * (p + 1)).

Lemma page_align_eq b : 0 <= b <= 2 ^ 63 -> page_align b = (b + 4095) / 4096 * 4096.
Proof.
  intros Hb; unfold page_align, PAGE_SIZE; rewrite u64_small by lia.
  replace (b + 4096 - 1) with (b + 4095) by lia.
  change (4096 - 1) with (2 ^ 12 - 1); rewrite align_down by (unfold is_u64; lia); done.
Qed.

Lemma reserve_bytes_spec s a b :
  boot_ok s -> MEMORY_BASE <= a <= 2 ^ 62 -> MEMORY_BASE <= b <= 2 ^ 62 ->
  reserved_in s (pmm_reserve_range (phys_to_pfn (u64 (a - MEMORY_BASE)))
                   (phys_to_pfn (u64 (page_align b - MEMORY_BASE))) s) (page_meets a b).
Proof.
  intros W Ha Hb; pose proof arch_base; pose proof arch_base_aligned as Hm.
  rewrite page_align_eq by lia.
  pose proof (Z.div_mod (b + 4095) 4096 ltac:(lia)); pose proof (Z.mod_pos_bound (b + 4095) 4096 ltac:(lia)).
  pose proof (Z.div_mod MEMORY_BASE 4096 ltac:(lia)).
  set (B := (b + 4095) / 4096) in *; set (M := MEMORY_BASE / 4096) in *.
  rewrite (u64_small (a - _)), u64_small by lia; unfold phys_to_pfn.
  rewrite !Z.shiftr_div_pow2 by lia; change (2 ^ 12) with 4096.
  replace ((B * 4096 - MEMORY_BASE) / 4096) with (B - M)
    by (replace (B * 4096 - MEMORY_BASE) with ((B - M) * 4096) by lia; rewrite Z.div_mul; lia).
  pose proof (Z.div_mod (a - MEMORY_BASE) 4096 ltac:(lia)).
  pose proof (Z.mod_pos_bound (a - MEMORY_BASE) 4096 ltac:(lia)).
  set (q := (a - MEMORY_BASE) / 4096) in *.
  destruct (reserve_range_spec s q (B - M) W ltac:(lia)) as [R1 R2 R3 R4].
  constructor; try done; intros p Hp; rewrite R4 by done; f_equal; f_equal; unfold page_meets.
  rewrite andb_comm; f_equal; apply Bool.eq_iff_eq_true; rewrite ?Z.ltb_lt, ?Z.leb_le; lia.
Qed.

(** A range that starts below the base of RAM wraps round: nothing is
    reserved. *)
Lemma reserve_below_base s a e :
  boot_ok s -> 0 <= a < MEMORY_BASE ->
  reserved_in s (pmm_reserve_range (phys_to_pfn (u64 (a - MEMORY_BASE))) e s) (fun _ => false).
Proof.
  intros W Ha; pose proof arch_base; pose proof (total_bound s (proj1 W)).
  set (x := phys_to_pfn _).
  assert (Hx : 2 ^ 40 <= x).
  { unfold x, phys_to_pfn, u64; rewrite Z.shiftr_div_pow2 by lia.
    rewrite <- (Z_mod_plus_full _ 1), Z.mod_small by lia; apply Z.div_le_lower_bound; lia. }
  destruct (reserve_range_spec s x e W ltac:(lia)) as [R1 R2 R3 R4].
  constructor; try done; intros p Hp; rewrite R4 by done; f_equal; f_equal.
  destruct (Z.leb_spec x p); [lia | done].
Qed.

(** ** The regions the boot loader reserves *)

(** [p] is a page of a reserved region that does not start below RAM. *)
Definition in_reserved (regions : list mem_region) (p : Z) : bool :=
  existsb (fun r => negb (usable r) && (MEMORY_BASE <=? r_base r)
                    && page_meets (r_base r) (r_end r) p) regions.

Definition reserve_region (s : pmm) (r : mem_region) : pmm :=
  if usable r then s
  else pmm_reserve_range (phys_to_pfn (u64 (r_base r - MEMORY_BASE)))
         (phys_to_pfn (u64 (page_align (r_end r) - MEMORY_BASE))) s.

Lemma reserve_region_spec s r :
  boot_ok s -> region_ok r -> reserved_in s (reserve_region s r) (in_reserved [r]).
Proof.
  intros W Hr; pose proof (r_end_eq r Hr) as E; destruct Hr as (? & ? & ?); pose proof arch_base.
  unfold reserve_region, in_reserved; simpl.
  destruct (usable r); simpl; [by apply reserved_in_refl |].
  destruct (Z.leb_spec MEMORY_BASE (r_base r)); simpl; [| apply reserve_below_base; [done | lia]].
  destruct (reserve_bytes_spec s (r_base r) (r_end r) W) as [R1 R2 R3 R4]; try lia.
  constructor; try done; intros p Hp; rewrite R4, orb_false_r by done; done.
Qed.

Lemma reserve_regions_spec regions s :
  boot_ok s -> Forall region_ok regions ->
  reserved_in s (foldl reserve_region s regions) (in_reserved regions).
Proof.
  intros W Hok; revert s W; induction Hok as [| r regions Hr _ IH]; intros s W.
  { by apply reserved_in_refl. }
  pose proof (reserve_region_spec s r W Hr) as H1.
  eapply reserved_in_trans; [exact H1 | apply IH, H1 |].
  intros p Hp; unfold in_reserved; simpl; rewrite orb_false_r; done.
Qed.

(** ** The gaps *)

Definition ahead (regions : list mem_region) (cursor : Z) : nat :=
  length (List.filter (fun r => usable r && (cursor <? r_end r)) regions).

Lemma ahead_mono regions c c' : c <= c' -> (ahead regions c' <= ahead regions c)%nat.
Proof.
  intros Hc; unfold ahead; induction regions as [| r regions IH]; simpl; [lia |].
  destruct (usable r); simpl; [| done].
  destruct (Z.ltb_spec c' (r_end r)), (Z.ltb_spec c (r_end r)); simpl; lia.
Qed.

Lemma ahead_less regions c r :
  r ∈ regions -> usable r = true -> c < r_end r -> (ahead regions (r_end r) < ahead regions c)%nat.
Proof.
  intros Hr Hu Hc; induction Hr as [r regions | r r' regions Hr IH]; unfold ahead in *; simpl.
  - rewrite Hu, Z.ltb_irrefl, (proj2 (Z.ltb_lt _ _) Hc); simpl.
    pose proof (ahead_mono regions c (r_end r) ltac:(lia)); unfold ahead in *; lia.
  - specialize (IH Hu Hc); destruct (usable r'); simpl; [| done].
    destruct (Z.ltb_spec (r_end r) (r_end r')), (Z.ltb_spec c (r_end r')); simpl; lia.
Qed.

(** Every address of page [p] from [c] on is in a usable region. *)
Definition page_covered (regions : list mem_region) (c p : Z) : Prop :=
  forall a, MEMORY_BASE + 4096 * p <= a < MEMORY_BASE + 4096 * (p + 1) -> c <= a -> covered regions a.

(** The loop reserves exactly the pages with an address no usable region
    covers. *)
Lemma gap_loop regions n : Forall region_ok regions -> forall cursor s,
  boot_ok s -> MEMORY_BASE <= cursor <= 2 ^ 62 -> (ahead regions cursor < n)%nat ->
  exists s', loop n (gap_step regions) (cursor, s) = Some s' /\
    boot_ok s' /\ total_pages s' = total_pages s /\
    forall p, 0 <= p < total_pages s ->
      frame_free s' p = true <-> frame_free s p = true /\ page_covered regions cursor p.
Proof.
  intros Hok; induction n as [| n IH]; intros cursor s W Hc Hn; [lia |].
  pose proof (total_bound s (proj1 W)) as Ht; pose proof arch_base as Hb; simpl.
  destruct (next_usable regions cursor) as [nb ne] eqn:E.
  apply next_usable_spec in E as [(-> & Hno) | (Hnb & Hr1 & Hr2 & Hr3 & Hgap & Hcov & r & Hr & Hu & Hcr & ->)]; [| | done | lia].
  - rewrite Z.eqb_refl.
    rewrite (u64_small (total_pages s * PAGE_SIZE)), (u64_small (MEMORY_BASE + _)) by (unfold PAGE_SIZE; lia).
    set (top := MEMORY_BASE + total_pages s * PAGE_SIZE) in *.
    assert (Et : top = MEMORY_BASE + 4096 * total_pages s) by (unfold top, PAGE_SIZE; lia).
    destruct (Z.ltb_spec cursor top) as [Hlt | Hge].
    + destruct (reserve_bytes_spec s cursor top W) as [R1 R2 R3 R4]; [lia | lia |].
      eexists; split_and!; [done | done | done |]; intros p Hp; rewrite R4 by done.
      unfold page_meets; rewrite (proj2 (Z.ltb_lt _ top)) by lia; simpl.
      rewrite andb_true_iff, negb_true_iff, Z.ltb_ge; apply and_iff_compat_l; split.
      * intros Hp' a Ha Hca; lia.
      * intros Hcp; destruct (Z_lt_le_dec cursor (MEMORY_BASE + 4096 * (p + 1))); [exfalso | done].
        apply (Hno (Z.max cursor (MEMORY_BASE + 4096 * p))); [lia | apply Hcp; lia].
    + eexists; split_and!; [done | done | done |]; intros p Hp; split; [| by intros []].
      intros Hf; split; [done |]; intros a Ha Hca; lia.
  - rewrite (proj2 (Z.eqb_neq nb _) Hnb); set (s1 := if _ <? _ then _ else _).
    assert (R : reserved_in s s1 (fun p => (cursor <? nb) && page_meets cursor nb p)).
    { unfold s1; destruct (Z.ltb_spec cursor nb); [| by apply reserved_in_refl].
      apply reserve_bytes_spec; [done | lia | lia]. }
    destruct R as [R1 R2 R3 R4].
    destruct (IH (r_end r) s1 R1) as (s' & -> & W' & T' & F'); [lia | |].
    { pose proof (ahead_less regions cursor r Hr Hu Hcr); lia. }
    exists s'; split_and!; [done | done | congruence |]; intros p Hp.
    rewrite F', R4 by (rewrite ?R2; done).
    rewrite andb_true_iff, negb_true_iff, Logic.and_assoc; apply and_iff_compat_l; unfold page_meets; split.
    + intros [Hm Hp'] a Ha Hca; destruct (Z_lt_le_dec a nb) as [Hanb |].
      * rewrite !andb_false_iff, !Z.ltb_ge in Hm; lia.
      * destruct (Z_lt_le_dec a (r_end r)); [apply Hcov; lia | apply Hp'; lia].
    + intros Hp'; split; [| intros a Ha Hca; apply Hp'; lia].
      rewrite !andb_false_iff, !Z.ltb_ge.
      destruct (Z_le_gt_dec nb cursor); [by left | right].
      destruct (Z_lt_le_dec (MEMORY_BASE + 4096 * p) nb); [right | by left].
      destruct (Z_lt_le_dec cursor (MEMORY_BASE + 4096 * (p + 1))); [exfalso | done].
      apply (Hgap (Z.max cursor (MEMORY_BASE + 4096 * p))); [lia | apply Hp'; lia].
Qed.

(** ** [pmm_init] *)

(** The metadata's end, as [pmm_init] computes it. *)
Definition meta_end (s : pmm) : Z :=
  u64 (u64 (u64 (virt_to_phys (page_array_va s) + u64 (total_pages s * sizeof_page))
            + bitmap_bytes dma_end_pfn) + bitmap_bytes (u64 (total_pages s - dma_end_pfn))).

(** The ranges [pmm_init] is given lie in RAM. *)
Record init_ok (regions : list mem_region) (ks ke : Z) (s : pmm) : Prop := {
  io_va : page_array_va s <> 0;
  io_total : 4096 <= total_pages s <= 2 ^ 26;
  io_pages : page_array s = replicate (Z.to_nat (total_pages s)) page0;
  io_ks : MEMORY_BASE <= virt_to_phys ks <= 2 ^ 40;
  io_ke : MEMORY_BASE <= virt_to_phys ke <= 2 ^ 40;
  io_meta : MEMORY_BASE <= virt_to_phys (page_array_va s) <= 2 ^ 40;
  io_regions : Forall region_ok regions }.

Lemma bitmap_bytes_bound n : 0 <= n <= 2 ^ 27 -> 0 <= bitmap_bytes n <= 2 ^ 25.
Proof.
  intros Hn; unfold bitmap_bytes; rewrite (u64_small (n + 63)) by lia.
  assert (0 <= (n + 63) / 64 <= 2 ^ 21 + 1)
    by (split; [apply Z.div_pos; lia | apply Z.div_le_upper_bound; lia]).
  set (d := (n + 63) / 64) in *; rewrite u64_small by lia; lia.
Qed.

Lemma meta_end_bound regions ks ke s :
  init_ok regions ks ke s -> virt_to_phys (page_array_va s) <= meta_end s <= 2 ^ 62.
Proof.
  intros [? ? ? ? ? ? ?]; pose proof arch_base; unfold meta_end, sizeof_page; rewrite dma_end_pfn_eq.
  rewrite (u64_small (total_pages s - 4096)), (u64_small (total_pages s * 32)) by lia.
  pose proof (bitmap_bytes_bound 4096 ltac:(lia)).
  pose proof (bitmap_bytes_bound (total_pages s - 4096) ltac:(lia)).
  rewrite (u64_small (virt_to_phys _ + _)), (u64_small (_ + bitmap_bytes 4096)), u64_small by lia; lia.
Qed.

(** The frames [pmm_init] leaves free. *)
Definition init_free (regions : list mem_region) (ks ke : Z) (s : pmm) (p : Z) : Prop :=
  page_meets (virt_to_phys ks) (virt_to_phys ke) p = false /\
  page_meets (virt_to_phys (page_array_va s)) (meta_end s) p = false /\
  in_reserved regions p = false /\
  (regions <> [] -> page_covered regions MEMORY_BASE p).

(** Everything up to the gap loop. *)
Definition init_reserve (regions : list mem_region) (ks ke : Z) (s : pmm) : pmm :=
  let meta := virt_to_phys (page_array_va s) in
  foldl reserve_region
    (pmm_reserve_range (phys_to_pfn (u64 (meta - MEMORY_BASE)))
       (phys_to_pfn (u64 (page_align (meta_end s) - MEMORY_BASE)))
       (pmm_reserve_range (phys_to_pfn (u64 (virt_to_phys ks - MEMORY_BASE)))
          (phys_to_pfn (u64 (page_align (virt_to_phys ke) - MEMORY_BASE)))
          (fresh_zones s))) regions.

Lemma pmm_init_eq regions ks ke s :
  init_ok regions ks ke s ->
  pmm_init regions ks ke s =
  match regions with
  | [] => Ret (init_reserve regions ks ke s)
  | _ => match loop (S (length regions)) (gap_step regions) (MEMORY_BASE, init_reserve regions ks ke s) with
         | Some s' => Ret s'
         | None => Panic
         end
  end.
Proof.
  intros I; unfold pmm_init; rewrite (proj2 (Z.eqb_neq _ _) (io_va _ _ _ _ I)); cbv beta iota delta [obind].
  fold (fresh_zones s); fold reserve_region.
  assert (E : total_pages (pmm_reserve_range (phys_to_pfn (u64 (virt_to_phys ks - MEMORY_BASE)))
     (phys_to_pfn (u64 (page_align (virt_to_phys ke) - MEMORY_BASE))) (fresh_zones s)) = total_pages s).
  { destruct I as [? ? ? ? ? ? ?]; pose proof arch_base.
    eapply (ri_total (fresh_zones s)), reserve_bytes_spec; [apply fresh_zones_ok; [lia | done] | lia | lia]. }
  cbv zeta; rewrite E; done.
Qed.

Lemma init_reserve_spec regions ks ke s :
  init_ok regions ks ke s ->
  let s' := init_reserve regions ks ke s in
  boot_ok s' /\ total_pages s' = total_pages s /\
  forall p, 0 <= p < total_pages s ->
    frame_free s' p = true <->
    page_meets (virt_to_phys ks) (virt_to_phys ke) p = false /\
    page_meets (virt_to_phys (page_array_va s)) (meta_end s) p = false /\
    in_reserved regions p = false.
Proof.
  intros I; pose proof (meta_end_bound _ _ _ _ I); destruct I as [? ? ? ? ? ? ?]; pose proof arch_base.
  destruct (fresh_zones_ok s) as [W0 F0]; [lia | done |].
  opose proof (reserve_bytes_spec (fresh_zones s) (virt_to_phys ks) (virt_to_phys ke) W0 _ _) as R1; [lia | lia |].
  opose proof (reserve_bytes_spec _ (virt_to_phys (page_array_va s)) (meta_end s) (ri_ok _ _ _ R1) _ _)
    as R2; [lia | lia |].
  pose proof (reserve_regions_spec regions _ (ri_ok _ _ _ R2) ltac:(done)) as R3.
  cbv zeta; fold (init_reserve regions ks ke s) in R3.
  pose proof (ri_total _ _ _ R1) as T1; change (total_pages (fresh_zones s)) with (total_pages s) in T1.
  pose proof (ri_total _ _ _ R2) as T2; rewrite T1 in T2.
  split_and!; [apply R3 | rewrite (ri_total _ _ _ R3); done |]; intros p Hp.
  rewrite (ri_frames _ _ _ R3), (ri_frames _ _ _ R2), (ri_frames _ _ _ R1), F0 by (rewrite ?T1, ?T2; done).
  rewrite !andb_true_iff, !negb_true_iff; tauto.
Qed.

Lemma pmm_init_spec regions ks ke s :
  init_ok regions ks ke s ->
  exists s', pmm_init regions ks ke s = Ret s' /\ pmm_wf s' /\ total_pages s' = total_pages s /\
    forall p, 0 <= p < total_pages s -> frame_free s' p = true <-> init_free regions ks ke s p.
Proof.
  intros I; rewrite (pmm_init_eq _ _ _ _ I); pose proof (init_reserve_spec _ _ _ _ I) as (W & T & F).
  pose proof arch_base; unfold init_free; destruct regions as [| r rest].
  { eexists; split_and!; [done | apply W | done |]; intros p Hp; rewrite F by done; tauto. }
  destruct (gap_loop (r :: rest) (S (length (r :: rest))) (io_regions _ _ _ _ I) MEMORY_BASE _ W)
    as (s' & -> & W' & T' & F'); [lia | |].
  { unfold ahead; pose proof (List.filter_length_le (fun r => usable r && (MEMORY_BASE <? r_end r)) (r :: rest)); lia. }
  exists s'; split_and!; [done | apply W' | congruence |]; intros p Hp.
  rewrite F', F by (rewrite ?T; done); intuition congruence.
Qed.

(** ** Where the metadata goes *)

(** Metadata of [size] bytes at [t] keeps clear of region [r]. *)
Definition clear_of (size t : Z) (r : mem_region) : Prop :=
  usable r = true \/ page_align (r_end r) <= t \/ t + size <= r_base r.

Lemma region_stop_bound r : region_ok r -> r_end r <= page_align (r_end r) <= 2 ^ 62 + 4096.
Proof.
  intros Hr; pose proof (r_end_eq r Hr); destruct Hr as (? & ? & ?).
  rewrite page_align_eq by lia.
  pose proof (Z.div_mod (r_end r + 4095) 4096 ltac:(lia)).
  pose proof (Z.mod_pos_bound (r_end r + 4095) 4096 ltac:(lia)); lia.
Qed.

(** One region: the target is kept if it is clear of the region, and otherwise
    moved to the region's end; no feasible place is skipped. *)
Lemma bump_one_spec size t b r t' b' :
  region_ok r -> 0 <= size <= 2 ^ 62 -> 0 <= t <= 2 ^ 62 + 4096 -> bump_one size (t, b) r = (t', b') ->
  0 <= t' <= 2 ^ 62 + 4096 /\ t <= t' /\ (forall x, t <= x -> clear_of size x r -> t' <= x) /\
  ((t', b') = (t, b) /\ clear_of size t r \/
   b' = true /\ usable r = false /\ t < page_align (r_end r) <= t').
Proof.
  intros Hr Hs Ht E; pose proof (region_stop_bound r Hr); unfold bump_one, clear_of in *.
  destruct (usable r); [injection E as <- <-; split_and!; try lia; auto |].
  rewrite u64_small in E by lia.
  destruct (Z.ltb_spec t (page_align (r_end r))), (Z.ltb_spec (r_base r) (t + size)); simpl in E;
    injection E as <- <-; split_and!; try lia; try (by left; auto); try (by intros; lia).
Qed.

Lemma bump_pass_spec size regions : Forall region_ok regions -> forall t b t' b',
  0 <= size <= 2 ^ 62 -> 0 <= t <= 2 ^ 62 + 4096 -> foldl (bump_one size) (t, b) regions = (t', b') ->
  0 <= t' <= 2 ^ 62 + 4096 /\ t <= t' /\ (forall x, t <= x -> Forall (clear_of size x) regions -> t' <= x) /\
  ((t', b') = (t, b) /\ Forall (clear_of size t) regions \/
   b' = true /\ exists r, r ∈ regions /\ usable r = false /\ t < page_align (r_end r) <= t').
Proof.
  induction 1 as [| r regions Hr Hrs IH]; intros t b t' b' Hs Ht E.
  { injection E as <- <-; split_and!; try lia; auto. }
  change (foldl (bump_one size) (bump_one size (t, b) r) regions = (t', b')) in E.
  destruct (bump_one size (t, b) r) as [t1 b1] eqn:E1.
  apply bump_one_spec in E1 as (Ht1 & Hle & Hmin & Hc); [| done | done | done].
  apply IH in E as (Ht' & Hle' & Hmin' & Hc'); [| done | done].
  split_and!; try lia.
  { intros x Hx [? ?]%Forall_cons; apply Hmin'; [apply Hmin; done | done]. }
  destruct Hc' as [[[= -> ->] Hc'] | (-> & r' & Hr' & Hu' & Hlt)].
  - destruct Hc as [[[= -> ->] Hc] | (-> & Hu & Hlt)]; [left; split; [done | by constructor] |].
    right; split; [done |]; exists r; split_and!; [by apply elem_of_cons; left | done | lia | lia].
  - right; split; [done |]; exists r'; split_and!; [by apply elem_of_cons; right | done | lia | lia].
Qed.

Definition blocking (regions : list mem_region) (t : Z) : nat :=
  length (List.filter (fun r => negb (usable r) && (t <? page_align (r_end r))) regions).

Lemma blocking_mono regions t t' : t <= t' -> (blocking regions t' <= blocking regions t)%nat.
Proof.
  intros Hc; unfold blocking; induction regions as [| r regions IH]; simpl; [lia |].
  destruct (usable r); simpl; [done |].
  destruct (Z.ltb_spec t' (page_align (r_end r))), (Z.ltb_spec t (page_align (r_end r))); simpl; lia.
Qed.

Lemma blocking_less regions t t' r :
  r ∈ regions -> usable r = false -> t < page_align (r_end r) <= t' ->
  (blocking regions t' < blocking regions t)%nat.
Proof.
  intros Hr Hu Hc; induction Hr as [r regions | r r' regions Hr IH]; unfold blocking in *; simpl.
  - rewrite Hu, (proj2 (Z.ltb_lt t _)), (proj2 (Z.ltb_ge t' _)) by lia; simpl.
    pose proof (blocking_mono regions t t' ltac:(lia)); unfold blocking in *; lia.
  - specialize (IH Hu Hc); destruct (usable r'); simpl; [done |].
    destruct (Z.ltb_spec t' (page_align (r_end r'))), (Z.ltb_spec t (page_align (r_end r'))); simpl; lia.
Qed.

(** The search ends, at the lowest place from [t] on that keeps clear of every
    region. *)
Lemma bump_loop size regions t :
  Forall region_ok regions -> 0 <= size <= 2 ^ 62 -> 0 <= t <= 2 ^ 62 + 4096 ->
  exists t', loop (S (length regions)) (bump_step regions size) t = Some t' /\
    (t <= t' <= 2 ^ 62 + 4096 /\ Forall (clear_of size t') regions /\
     forall x, t <= x -> Forall (clear_of size x) regions -> t' <= x).
Proof.
  intros Hok Hs Ht.
  apply (loop_total
    (fun c => t <= c <= 2 ^ 62 + 4096 /\ forall x, t <= x -> Forall (clear_of size x) regions -> c <= x)
    (blocking regions)).
  - intros c (Hc & Hmin); unfold bump_step.
    change (bump_pass regions size c) with (foldl (bump_one size) (c, false) regions).
    destruct (foldl (bump_one size) (c, false) regions) as [c' b'] eqn:E.
    apply bump_pass_spec in E as (Hc' & Hle & Hmin' & [[[= -> ->] Hcl] | (-> & r & Hr & Hu & Hlt)]); try done; try lia.
    split; [split; [lia |] | by eapply blocking_less].
    intros x Hx Hf; apply Hmin'; auto.
  - split; [lia | auto].
  - unfold blocking.
    pose proof (List.filter_length_le (fun r => negb (usable r) && (t <? page_align (r_end r))) regions); lia.
Qed.

(** ** [pmm_early_init] *)

(** The number of frames between the base of RAM and the highest usable
    address, at most 256 GiB. *)
Definition span_pages (regions : list mem_region) : Z :=
  let mx := (scan_regions regions).1 in
  let limit := u64 (MEMORY_BASE + 256 * 2 ^ 30) in
  u64 ((if limit <? mx then limit else mx) - MEMORY_BASE) / PAGE_SIZE.

(** A region table and linker symbols the boot code is meant for. *)
Record boot_table (regions : list mem_region) (ks ke : Z) : Prop := {
  bt_regions : Forall region_ok regions;
  bt_span : 4096 <= span_pages regions <= 2 ^ 26;
  bt_ks : MEMORY_BASE <= virt_to_phys ks <= 2 ^ 40;
  bt_ke : MEMORY_BASE < virt_to_phys ke <= 2 ^ 40 }.

(** [x] is a place for [size] bytes of metadata in region [r]. *)
Definition place_ok (regions : list mem_region) (ke size : Z) (r : mem_region) (x : Z) : Prop :=
  usable r = true /\ r_base r <= x /\ page_align (virt_to_phys ke) <= x /\ x + size <= r_end r /\
  Forall (clear_of size x) regions.

Lemma metadata_size_bound n : 4096 <= n <= 2 ^ 26 -> 0 < metadata_size n <= 2 ^ 40.
Proof.
  intros Hn; unfold metadata_size, sizeof_page; rewrite dma_end_pfn_eq.
  pose proof (bitmap_bytes_bound 4096 ltac:(lia)).
  pose proof (bitmap_bytes_bound (n - 4096) ltac:(lia)).
  rewrite (u64_small (n * 32)), (u64_small (n - 4096)), (u64_small (_ + bitmap_bytes 4096)), u64_small by lia.
  set (m := n * 32 + _ + _) in *; rewrite page_align_eq by lia.
  pose proof (Z.div_mod (m + 4095) 4096 ltac:(lia)).
  pose proof (Z.mod_pos_bound (m + 4095) 4096 ltac:(lia)); lia.
Qed.

Lemma place_in_spec regions ks ke size r :
  boot_table regions ks ke -> 0 < size <= 2 ^ 40 -> r ∈ regions ->
  match place_in regions ke size r with
  | Some x => place_ok regions ke size r x
  | None => forall x, ~ place_ok regions ke size r x
  end.
Proof.
  intros [Hok _ _ Hke] Hs Hr; pose proof arch_base; unfold place_in, place_ok.
  pose proof (proj1 (Forall_forall _ _) Hok r Hr) as Ho; pose proof (r_end_eq r Ho).
  destruct Ho as (? & ? & ?); destruct (usable r); cbn [andb]; [| by intros x (? & _)].
  destruct (Z.leb_spec size (r_size r)); [| intros x (_ & ? & _ & ? & _); lia].
  set (lim := page_align (virt_to_phys ke)).
  assert (0 <= lim <= 2 ^ 62).
  { unfold lim; rewrite page_align_eq by lia.
    pose proof (Z.div_mod (virt_to_phys ke + 4095) 4096 ltac:(lia)).
    pose proof (Z.mod_pos_bound (virt_to_phys ke + 4095) 4096 ltac:(lia)); lia. }
  replace (if r_base r <? lim then lim else r_base r) with (Z.max (r_base r) lim) by (case_if; lia).
  destruct (bump_loop size regions (Z.max (r_base r) lim) Hok) as (t & -> & Ht & Hcl & Hmin); try lia.
  rewrite u64_small by lia; destruct (Z.leb_spec (t + size) (r_end r)).
  - split_and!; try lia; done.
  - intros x (_ & ? & ? & ? & ?); specialize (Hmin x ltac:(lia) ltac:(done)); lia.
Qed.

Lemma place_metadata_spec regions ks ke size : boot_table regions ks ke -> 0 < size <= 2 ^ 40 ->
  forall rest, (forall r, r ∈ rest -> r ∈ regions) ->
  (place_metadata regions rest ke size = 0 /\
   forall r x, r ∈ rest -> ~ place_ok regions ke size r x) \/
  (0 < place_metadata regions rest ke size < 2 ^ 40 /\
   exists r, r ∈ rest /\ place_ok regions ke size r (place_metadata regions rest ke size)).
Proof.
  intros B Hs; induction rest as [| r rest IH]; intros Hsub.
  { left; split; [done |]; intros r x Hr; apply elem_of_nil in Hr; done. }
  pose proof (Hsub r ltac:(by apply elem_of_cons; left)) as Hr.
  pose proof (place_in_spec regions ks ke size r B Hs Hr) as Hp; simpl.
  destruct (place_in regions ke size r) as [t |].
  - right; split; [| exists r; split; [by apply elem_of_cons; left | done]].
    destruct B as [Hok _ _ ?]; pose proof (proj1 (Forall_forall _ _) Hok r Hr) as Ho.
    pose proof (r_end_eq r Ho); destruct Ho as (? & ? & ?); pose proof arch_base.
    assert (virt_to_phys ke <= page_align (virt_to_phys ke)).
    { rewrite page_align_eq by lia.
      pose proof (Z.div_mod (virt_to_phys ke + 4095) 4096 ltac:(lia)).
      pose proof (Z.mod_pos_bound (virt_to_phys ke + 4095) 4096 ltac:(lia)); lia. }
    destruct Hp as (_ & ? & ? & ? & _); lia.
  - destruct IH as [[-> Hno] | [? (r' & Hr' & Hok)]]; [intros; apply Hsub; by apply elem_of_cons; right | |].
    + left; split; [done |]; intros r' x [-> | Hr']%elem_of_cons; auto.
    + right; split; [done |]; exists r'; split; [by apply elem_of_cons; right | done].
Qed.

(** What [pmm_early_init] establishes. *)
Lemma early_init_spec regions ks ke s :
  boot_table regions ks ke ->
  let n := span_pages regions in
  match pmm_early_init regions ke s with
  | Panic => forall r x, r ∈ regions -> ~ place_ok regions ke (metadata_size n) r x
  | Ret s' =>
    exists r m, r ∈ regions /\ place_ok regions ke (metadata_size n) r m /\ 0 < m < 2 ^ 40 /\
      total_pages s' = n /\ page_array s' = replicate (Z.to_nat n) page0 /\
      page_array_va s' = phys_to_virt m /\ pmm_metadata_end_phys s' = m + metadata_size n
  end.
Proof.
  intros B n; pose proof (metadata_size_bound n (bt_span _ _ _ B)) as Hs.
  pose proof (place_metadata_spec regions ks ke (metadata_size n) B Hs regions ltac:(auto)) as P.
  unfold pmm_early_init; destruct (scan_regions regions) as [mx bytes] eqn:Esc; cbv zeta.
  assert (En : u64 ((if u64 (MEMORY_BASE + 256 * 2 ^ 30) <? mx
    then u64 (MEMORY_BASE + 256 * 2 ^ 30) else mx) - MEMORY_BASE) / PAGE_SIZE = n)
    by (unfold n, span_pages; rewrite Esc; done).
  rewrite En; set (m := place_metadata regions regions ke (metadata_size n)) in *.
  destruct P as [[-> Hno] | [Hm (r & Hr & Hok)]]; [done |].
  rewrite (proj2 (Z.eqb_neq m 0)) by lia; exists r, m; simpl.
  split_and!; try done; try lia; apply u64_small; lia.
Qed.
End boot.
