(* ===== verification/PmmTheorems.v ===== *)
(** * What the physical memory manager guarantees

    The properties of [kernel/mm/pmm.c]: the bitmap searches against
    bit-by-bit reference searches, allocation and freeing against the set of
    free frames, and the state boot leaves. *)
From stdpp Require Import base numbers list.
From S2P Require Import Prelude Bitmap Pmm PmmBoot.

(** ** Bitmap searches *)

(** the word-at-a-time search of [bitmap_find_free] returns what a
    bit-by-bit scan of [start, end) returns: the lowest free bit, or -1. *)
Theorem find_free_is_scan bm s e :
  0 <= s <= 2 ^ 62 -> e <= 2 ^ 62 -> Forall is_u64 bm ->
  bitmap_find_free bm s e = first_from (is_free bm) s (Z.to_nat (e - s)).
Proof.
  intros Hs He Hb; apply (least_in_unique (is_free bm) s e); [lia | by apply find_free_least |].
  destruct (Z_le_gt_dec s e).
  - pose proof (first_from_least (is_free bm) (Z.to_nat (e - s)) s) as H.
    rewrite Z2Nat.id in H by lia; by replace (s + (e - s)) with e in H by lia.
  - replace (Z.to_nat (e - s)) with 0%nat by lia; left; split; [done | lia].
Qed.

Lemma find_free_is_scan_witness :
  bitmap_find_free [ones64; 2 ^ 64 - 1 - 2 ^ 5; 0] 3 150 = 69.
Proof.
  rewrite find_free_is_scan; [reflexivity | lia | lia |].
  repeat constructor; unfold ones64; lia.
Defined.

Lemma all_from_true p r n : all_from p r n = true <-> forall j, r <= j < r + Z.of_nat n -> p j = true.
Proof.
  revert r; induction n as [| n IH]; intros r; simpl; [split; [lia | done] |].
  rewrite andb_true_iff, IH; split.
  - intros [Hr Hn] j Hj; destruct (Z.eq_dec j r) as [-> |]; [done | apply Hn; lia].
  - intros H; split; [apply H; lia | intros j Hj; apply H; lia].
Qed.

Lemma all_from_false p r n :
  all_from p r n = false <-> exists j, r <= j < r + Z.of_nat n /\ p j = false.
Proof.
  revert r; induction n as [| n IH]; intros r; simpl; [split; [done | intros (j & ? & _); lia] |].
  rewrite andb_false_iff, IH; split.
  - intros [Hr | (j & Hj & Hf)]; [exists r | exists j]; split; done || lia.
  - intros (j & Hj & Hf); destruct (Z.eq_dec j r) as [-> |]; [by left | right; exists j; split; done || lia].
Qed.

(** [bitmap_find_contiguous], with its jumps over full words, returns the
    lowest start of [count] consecutive free bits inside [start, end), or -1 if
    there is none: the result of trying every start in turn. *)
Theorem find_contiguous_is_scan bm s e count :
  0 <= s <= 2 ^ 62 -> e <= 2 ^ 62 -> 0 < count ->
  bitmap_find_contiguous bm s e count =
  first_from (fun q => all_from (is_free bm) q (Z.to_nat count)) s (Z.to_nat (e - count + 1 - s)).
Proof.
  intros Hs He Hc; set (p := fun q => all_from (is_free bm) q (Z.to_nat count)).
  apply (least_in_unique p s (Z.max s (e - count + 1))); [lia | |].
  - destruct (find_contiguous_lowest bm s e count Hs He Hc) as [[-> Hno] | (H1 & H2 & H3 & H4)]; [left | right].
    + split; [done |]; intros q Hq; apply all_from_false; rewrite Z2Nat.id by lia; apply Hno; lia.
    + split_and!; try lia; [apply all_from_true; rewrite Z2Nat.id by lia; done |].
      intros q Hq; apply all_from_false; rewrite Z2Nat.id by lia; auto.
  - pose proof (first_from_least p (Z.to_nat (e - count + 1 - s)) s) as H.
    by replace (s + Z.of_nat (Z.to_nat (e - count + 1 - s))) with (Z.max s (e - count + 1)) in H by lia.
Qed.

Lemma find_contiguous_is_scan_witness :
  bitmap_find_contiguous [ones64; 2 ^ 64 - 1 - 2 ^ 5; 1] 0 150 3 = 129.
Proof. rewrite find_contiguous_is_scan; [reflexivity | lia | lia | lia]. Defined.

(** [pmm_get_fragmentation] reports the number of maximal runs of free
    pages and the length of a longest one. *)
Theorem fragmentation_exact bm n :
  bitmap_ok bm n -> n <= 2 ^ 62 ->
  let '(longest, runs) := fragmentation bm n in
  runs = zcount (run_start bm) (Z.to_nat n) /\
  (exists r, 0 <= r /\ r + longest <= n /\ free_run bm r longest) /\
  forall r len, 0 <= r -> r + len <= n -> free_run bm r len -> len <= longest.
Proof.
  intros Hb Hn; destruct (fragmentation_inv bm n Hb Hn) as (f & -> & [_ _ Hr Hm Hl Ha]); auto.
Qed.

Lemma fragmentation_exact_witness :
  fragmentation [2 ^ 64 - 1 - 2 ^ 5; 1] 100 = (35, 2) /\
  forall r len, 0 <= r -> r + len <= 100 -> free_run [2 ^ 64 - 1 - 2 ^ 5; 1] r len -> len <= 35.
Proof.
  split; [reflexivity |].
  assert (bitmap_ok [2 ^ 64 - 1 - 2 ^ 5; 1] 100) as Hb.
  { split; [repeat constructor; lia | vm_compute; done]. }
  apply (fragmentation_exact [2 ^ 64 - 1 - 2 ^ 5; 1] 100 Hb ltac:(lia)).
Defined.

(** ** A small memory

    Eight frames, four in each zone: frame 0 is reserved, frame 5 allocated. *)
Definition small : pmm :=
  {| page_array := [page_resv; page0; page0; page0; page0; page_alloc; page0; page0];
     page_array_va := 0xFFFF000040001000;
     zone_dma := {| z_start_pfn := 0; z_end_pfn := 4; z_free_pages := 3; z_bitmap := [1];
                    z_next_free_pfn := 0 |};
     zone_normal := {| z_start_pfn := 4; z_end_pfn := 8; z_free_pages := 3; z_bitmap := [2];
                       z_next_free_pfn := 0 |};
     total_pages := 8; free_pages := 6; usable_pages := 8; pmm_metadata_end_phys := 0x40002000;
     stat_alloc_calls := 0; stat_free_calls := 0; stat_ticks_total := 0; stat_ticks_max := 0;
     mem_log := [] |}.

Lemma below4 (P : Z -> Prop) : P 0 -> P 1 -> P 2 -> P 3 -> forall k, 0 <= k < 4 -> P k.
Proof.
  intros H0 H1 H2 H3 k Hk; assert (k = 0 \/ k = 1 \/ k = 2 \/ k = 3) as [-> | [-> | [-> | ->]]] by lia; done.
Qed.

(** A zone of four frames, its fields checked by evaluation. *)
Lemma zone4_wf pages z :
  npages z = 4 -> 0 <= z_start_pfn z -> z_end_pfn z <= 2 ^ 27 -> bitmap_ok (z_bitmap z) 4 ->
  z_free_pages z = free_count (z_bitmap z) 4 -> z_next_free_pfn z = 0 ->
  (let agree k := if is_free (z_bitmap z) k then znth page0 pages (z_start_pfn z + k) = page0
                  else page_used (znth page0 pages (z_start_pfn z + k)) in
   agree 0 /\ agree 1 /\ agree 2 /\ agree 3) ->
  zone_wf pages z.
Proof.
  intros Hn Hs He Hb Hf Hx (A0 & A1 & A2 & A3); constructor; rewrite ?Hn; try done; try lia.
  - apply (below4 (fun k => is_free _ k = true -> znth page0 pages (_ + k) = page0));
      intros E; rewrite E in *; done.
  - apply (below4 (fun k => is_free _ k = false -> page_used (znth page0 pages (_ + k))));
      intros E; rewrite E in *; done.
Qed.

Lemma small_wf : pmm_wf small.
Proof.
  assert (H1 : bitmap_ok [1] 4) by (split; [repeat constructor; lia | by vm_compute]).
  assert (H2 : bitmap_ok [2] 4) by (split; [repeat constructor; lia | by vm_compute]).
  constructor; try reflexivity; apply zone4_wf; try done; unfold page_used; vm_compute; auto.
Qed.

(** ** Allocation *)

Section allocation.
Context {A : Arch} {HA : ArchOk A}.

(** [pmm_alloc_page] fails only when no frame is free, and then changes
    nothing.  Otherwise it returns the address of a frame that was free, marks
    that frame and no other used with one reference, lowers the free count by
    one, zeroes the page, and keeps the invariant that ties bitmaps, free
    counts and descriptors together. *)
Theorem alloc_page_takes_free_frame ticks s :
  pmm_wf s ->
  let '(s', addr) := pmm_alloc_page ticks s in
  (addr = 0 /\ s' = s /\ forall q, 0 <= q < total_pages s -> frame_free s q = false) \/
  (exists q, 0 <= q < total_pages s /\ addr = page_va q /\ addr <> 0 /\
     took s s' q 1 page_alloc /\ mem_log s' = Memset addr PAGE_SIZE 0 :: mem_log s).
Proof.
  intros W; destruct (pmm_alloc_page ticks s) as [s' addr] eqn:E; pose proof (total_bound s W).
  destruct (pmm_alloc_one_spec false ticks s s' addr W E) as [? | (q & Hq & -> & Ht & Hl)]; [by left |].
  right; exists q; split_and!; try done; try lia; apply page_va_nonzero; lia.
Qed.

(** C1: [pmm_alloc_pages(n)] and [pmm_alloc_pages_dma(n)] for [n > 1] fail only
    when the normal zone has no run of [n] free frames, and then change
    nothing.  Otherwise they return the address of [n] consecutive frames that
    were all free, mark exactly those used, and zero exactly their bytes.  The
    DMA variant then cleans the caches over the same bytes and fences; the other
    does not, although the comments of pmm.c (MM-PMM-02, and above
    [alloc_pages_impl]) say that both do. *)
Theorem alloc_pages_takes_run count dma ticks s :
  pmm_wf s -> 1 < count ->
  let '(s', addr) := alloc_pages_impl count dma ticks s in
  (addr = 0 /\ s' = s /\
   forall q, z_start_pfn (zone_normal s) <= q -> q + count <= z_end_pfn (zone_normal s) ->
     exists p, q <= p < q + count /\ frame_free s p = false) \/
  (exists q, z_start_pfn (zone_normal s) <= q /\ q + count <= z_end_pfn (zone_normal s) /\
     addr = page_va q /\ took s s' q count page_alloc /\
     mem_log s' = alloc_log dma addr (PAGE_SIZE * count) (mem_log s)).
Proof.
  intros W Hc; destruct (alloc_pages_impl count dma ticks s) as [s' addr] eqn:E.
  by apply (alloc_many_spec count dma ticks).
Qed.

(** [pmm_alloc_aligned] returns either 0, with the state unchanged, or the
    address of the requested number of consecutive frames, aligned as asked:
    the frames it over-allocated to find the alignment are all given back, and
    no frame but the returned ones changes. *)
Theorem alloc_aligned_exact size a ticks s :
  pmm_wf s -> 0 < size <= 2 ^ 38 -> 0 <= a <= 38 ->
  let n := (size + 4095) / 4096 in
  exists s' addr, pmm_alloc_aligned size (2 ^ a) ticks s = Ret (s', addr) /\
    ((addr = 0 /\ s' = s) \/
     (exists q, 0 <= q /\ q + n <= total_pages s /\ addr = page_va q /\ addr mod 2 ^ a = 0 /\
        took s s' q n page_alloc)).
Proof. intros W Hs Ha; apply alloc_aligned_spec; done. Qed.

(** ** Freeing *)

(** every branch of [pmm_free_page].  The null address, an address
    outside RAM (also one below its base, which wraps round) and a reserved
    frame are ignored; freeing a frame that is already free stops the machine;
    an allocated frame becomes free, its descriptor is cleared, the free count
    rises by one and the page is filled with 0xCC. *)
Theorem free_page_branches page s :
  pmm_wf s ->
  let q := addr_pfn page in
  if (page =? 0) || (total_pages s <=? q) then pmm_free_page page s = Ret s
  else if frame_free s q then pmm_free_page page s = Panic
  else (frame s q = page_resv /\ pmm_free_page page s = Ret s) \/
       (frame s q = page_alloc /\
        exists s', pmm_free_page page s = Ret s' /\ gave s s' q 1 /\
          mem_log s' = Memset page PAGE_SIZE 0xCC :: mem_log s).
Proof.
  intros W q; destruct (Z.eqb_spec page 0) as [-> | Hp]; simpl; [apply free_page_null |].
  destruct (Z.leb_spec (total_pages s) q); [by apply free_page_outside |].
  assert (Hq : 0 <= q).
  { unfold q, addr_pfn, phys_to_pfn; apply Z.shiftr_nonneg, u64_range. }
  destruct (frame_free s q) eqn:Hf; [by apply free_page_double |].
  destruct (frame_set s q W ltac:(lia) Hf) as [Ha | Hr]; [right | left]; split; try done.
  - by apply free_page_release.
  - by apply free_page_reserved.
Qed.

(** what [pmm_alloc_pages(n)] returned, [pmm_free_pages(page, n)] gives
    back: it does not panic, and every frame's bit and descriptor and the free
    count are what they were before the allocation. *)
Theorem alloc_free_roundtrip count ticks s :
  pmm_wf s -> 0 < count ->
  let '(s1, addr) := pmm_alloc_pages count ticks s in
  addr <> 0 ->
  exists s2, pmm_free_pages addr count s1 = Ret s2 /\ pmm_wf s2 /\
    free_pages s2 = free_pages s /\
    (forall p, 0 <= p < total_pages s -> frame_free s2 p = frame_free s p /\ frame s2 p = frame s p).
Proof.
  intros W Hc; unfold pmm_alloc_pages; destruct (alloc_pages_impl count false ticks s) as [s1 addr] eqn:E.
  intros Ha; assert (exists q, 0 <= q /\ q + count <= total_pages s /\ addr = page_va q /\
                       took s s1 q count page_alloc) as (q & Hq & Hqc & -> & T).
  { destruct (Z.eq_dec count 1) as [-> |].
    - destruct (pmm_alloc_one_spec false ticks s s1 addr W E) as [(-> & _) | (q & Hq & -> & T & _)]; [done |].
      exists q; split_and!; done || lia.
    - destruct (alloc_many_spec count false ticks s s1 addr W ltac:(lia) E)
        as [(-> & _) | (q & Hq & Hqe & -> & T & _)]; [done |].
      pose proof (zone_range s ZONE_NORMAL W); simpl in *; exists q; split_and!; done || lia. }
  destruct T as [W1 T1 D1 F1 B1 Fr1 P1].
  destruct (free_pages_release s1 q count W1) as (s2 & E2 & [W2 T2 D2 F2 Fr2 P2]); try lia.
  { intros p Hp; rewrite Fr1, P1, (proj2 (in_range_spec q count p)), andb_false_r by lia; done. }
  exists s2; split_and!; [done | done | lia |]; intros p Hp; rewrite Fr2, Fr1, P2, P1 by lia.
  destruct (in_range q count p) eqn:Hi; [| by rewrite andb_true_r, orb_false_r].
  assert (Hp' : q <= p < q + count).
  { unfold in_range in Hi; zbool; lia. }
  rewrite (B1 p Hp'), (frame_clear s p W Hp (B1 p Hp')); done.
Qed.
End allocation.

Lemma alloc_page_takes_free_frame_witness :
  (pmm_alloc_page (A := aarch64) 0 small).2 = page_va (A := aarch64) 4 /\
  pmm_wf (pmm_alloc_page (A := aarch64) 0 small).1.
Proof.
  split; [reflexivity |].
  pose proof (alloc_page_takes_free_frame (A := aarch64) 0 small small_wf) as H.
  destruct (pmm_alloc_page 0 small) as [s' addr].
  destruct H as [(_ & -> & _) | (q & _ & _ & _ & T & _)]; [exact small_wf | exact (tk_wf _ _ _ _ _ T)].
Defined.

Lemma alloc_pages_takes_run_witness :
  (alloc_pages_impl (A := aarch64) 2 true 0 small).2 = page_va (A := aarch64) 6 /\
  pmm_wf (alloc_pages_impl (A := aarch64) 2 true 0 small).1.
Proof.
  split; [reflexivity |].
  pose proof (alloc_pages_takes_run (A := aarch64) 2 true 0 small small_wf ltac:(lia)) as H.
  destruct (alloc_pages_impl 2 true 0 small) as [s' addr].
  destruct H as [(_ & -> & _) | (q & _ & _ & _ & T & _)]; [exact small_wf | exact (tk_wf _ _ _ _ _ T)].
Defined.

Lemma alloc_aligned_exact_witness :
  exists s' addr, pmm_alloc_aligned (A := aarch64) 4096 (2 ^ 13) 0 small = Ret (s', addr) /\
    addr = page_va (A := aarch64) 6 /\ pmm_wf s'.
Proof.
  destruct (alloc_aligned_exact (A := aarch64) 4096 13 0 small small_wf ltac:(lia) ltac:(lia))
    as (s' & addr & E & H).
  exists s', addr; split; [exact E |].
  assert (Ha : addr = page_va (A := aarch64) 6).
  { change addr with (snd (s', addr)).
    assert (H' : match pmm_alloc_aligned (A := aarch64) 4096 (2 ^ 13) 0 small with
                 | Ret r => r.2 | Panic => 0 end = page_va (A := aarch64) 6) by reflexivity.
    rewrite E in H'; exact H'. }
  split; [exact Ha |].
  destruct H as [[-> ->] | (q & _ & _ & _ & _ & T)]; [exact small_wf | exact (tk_wf _ _ _ _ _ T)].
Defined.

Lemma free_page_branches_witness :
  pmm_free_page (A := aarch64) (page_va (A := aarch64) 6) small = Panic /\
  exists s', pmm_free_page (A := aarch64) (page_va (A := aarch64) 5) small = Ret s' /\ gave small s' 5 1.
Proof.
  split; [exact (free_page_branches (A := aarch64) (page_va (A := aarch64) 6) small small_wf) |].
  destruct (free_page_branches (A := aarch64) (page_va (A := aarch64) 5) small small_wf)
    as [[H _] | [_ (s' & E & G & _)]]; [discriminate H |].
  exists s'; split; [exact E | exact G].
Defined.

Lemma alloc_free_roundtrip_witness :
  exists s2, pmm_free_pages (A := aarch64) (page_va (A := aarch64) 6) 2
               (pmm_alloc_pages (A := aarch64) 2 0 small).1 = Ret s2 /\ free_pages s2 = 6.
Proof.
  pose proof (alloc_free_roundtrip (A := aarch64) 2 0 small small_wf ltac:(lia)) as H.
  assert (Ea : (pmm_alloc_pages (A := aarch64) 2 0 small).2 = page_va (A := aarch64) 6) by reflexivity.
  destruct (pmm_alloc_pages 2 0 small) as [s1 addr]; simpl in Ea; rewrite Ea in H.
  destruct H as (s2 & E & _ & F & _); [vm_compute; discriminate |].
  exists s2; split; [exact E | exact F].
Defined.

(** ** Boot *)

Section boot.
Context {A : Arch} {HA : ArchOk A}.

(** [pmm_early_init] places the descriptors and bitmaps inside a usable
    region, above the kernel image, clear of every region the boot loader
    reserved (a boot module, say), and records where they end; it panics only
    when no usable region has such a place.  The search for a place always
    ends. *)
Theorem early_init_places_metadata regions ks ke s :
  boot_table regions ks ke ->
  let size := metadata_size (span_pages regions) in
  match pmm_early_init regions ke s with
  | Panic => forall r x, r ∈ regions -> ~ place_ok regions ke size r x
  | Ret s' =>
    exists r m, r ∈ regions /\ place_ok regions ke size r m /\
      page_array_va s' = phys_to_virt m /\ pmm_metadata_end_phys s' = m + size /\
      total_pages s' = span_pages regions
  end.
Proof.
  intros B; pose proof (early_init_spec regions ks ke s B) as H; cbv zeta in *.
  destruct (pmm_early_init regions ke s); [| done].
  destruct H as (r & m & ? & ? & ? & ? & ? & ? & ?); exists r, m; auto.
Qed.

Lemma early_init_ok regions ks ke s s' :
  boot_table regions ks ke -> pmm_early_init regions ke s = Ret s' -> init_ok regions ks ke s'.
Proof.
  intros B E; pose proof (early_init_spec regions ks ke s B) as H; rewrite E in H.
  destruct H as (r & m & Hr & (_ & _ & Hk & _) & Hm & Ht & Hp & Hv & _); destruct B as [? ? ? ?].
  pose proof arch_base; pose proof arch_virt.
  assert (virt_to_phys ke <= page_align (virt_to_phys ke)).
  { rewrite page_align_eq by lia.
    pose proof (Z.div_mod (virt_to_phys ke + 4095) 4096 ltac:(lia)).
    pose proof (Z.mod_pos_bound (virt_to_phys ke + 4095) 4096 ltac:(lia)); lia. }
  assert (Hva : page_array_va s' = m + KERNEL_VIRT_BASE)
    by (rewrite Hv; unfold phys_to_virt; rewrite u64_small; lia).
  assert (Hvm : virt_to_phys (page_array_va s') = m)
    by (rewrite Hva; unfold virt_to_phys; rewrite u64_small; lia).
  constructor; rewrite ?Ht, ?Hvm; try done; lia.
Qed.

(** after [pmm_init] the frames that can be handed out are exactly those
    all of whose bytes lie in usable regions and none of whose bytes belongs to
    the kernel image, to the allocator's own metadata or to a reserved region;
    the holes of the memory map are not free, and the state satisfies the
    allocator's invariant.  [pmm_init] returns whenever the metadata can be
    placed. *)
Theorem init_frees_exactly_usable regions ks ke s :
  boot_table regions ks ke -> page_array_va s = 0 ->
  match pmm_early_init regions ke s with
  | Panic => pmm_init regions ks ke s = Panic
  | Ret s1 =>
    exists s', pmm_init regions ks ke s = Ret s' /\ pmm_init regions ks ke s1 = Ret s' /\
      pmm_wf s' /\ total_pages s' = span_pages regions /\
      forall p, 0 <= p < total_pages s' -> frame_free s' p = true <-> init_free regions ks ke s1 p
  end.
Proof.
  intros B Hva; destruct (pmm_early_init regions ke s) as [s1 |] eqn:E.
  - pose proof (early_init_ok _ _ _ _ _ B E) as I.
    destruct (pmm_init_spec _ _ _ _ I) as (s' & E' & W & T & F).
    pose proof (early_init_spec regions ks ke s B) as H; rewrite E in H.
    destruct H as (_ & _ & _ & _ & _ & Ht & _).
    exists s'; split_and!; try done; [| congruence | rewrite T; done].
    rewrite <- E'; unfold pmm_init; rewrite Hva, E, (proj2 (Z.eqb_neq _ _) (io_va _ _ _ _ I)).
    reflexivity.
  - unfold pmm_init; rewrite Hva, E; reflexivity.
Qed.
End boot.

(** 128 MiB of RAM with a 1 MiB boot module after the kernel, and a hole. *)
Definition table128 : list mem_region :=
  [ {| r_base := 0x40000000; r_size := 0x4000000; r_type := 1 |};
    {| r_base := 0x40200000; r_size := 0x100000; r_type := 2 |};
    {| r_base := 0x44100000; r_size := 0x3F00000; r_type := 1 |} ].

Lemma table128_ok : boot_table (A := aarch64) table128 0xFFFF000040080000 0xFFFF000040200000.
Proof.
  constructor; [| vm_compute; split; discriminate | vm_compute; split; discriminate
                | vm_compute; split; [reflexivity | discriminate]].
  repeat constructor; vm_compute; discriminate.
Qed.

Lemma early_init_places_metadata_witness :
  exists m, place_metadata (A := aarch64) table128 table128 0xFFFF000040200000
              (metadata_size (A := aarch64) (span_pages (A := aarch64) table128)) = m /\
    m = 0x40300000 /\
    match pmm_early_init (A := aarch64) table128 0xFFFF000040200000 pmm0 with
    | Ret s' => total_pages s' = 32768
    | Panic => False
    end.
Proof.
  exists 0x40300000; split; [reflexivity | split; [reflexivity |]].
  pose proof (early_init_places_metadata (A := aarch64) table128 0xFFFF000040080000 0xFFFF000040200000
                pmm0 table128_ok) as H.
  assert (E : match pmm_early_init (A := aarch64) table128 0xFFFF000040200000 pmm0 with
              | Ret _ => true | Panic => false end = true) by reflexivity.
  destruct (pmm_early_init table128 0xFFFF000040200000 pmm0); [| discriminate E].
  destruct H as (_ & _ & _ & _ & _ & _ & H); exact H.
Defined.

Lemma init_frees_exactly_usable_witness :
  exists s1 s', pmm_early_init (A := aarch64) table128 0xFFFF000040200000 pmm0 = Ret s1 /\
    pmm_init (A := aarch64) table128 0xFFFF000040080000 0xFFFF000040200000 pmm0 = Ret s' /\ pmm_wf s'.
Proof.
  pose proof (init_frees_exactly_usable (A := aarch64) table128 0xFFFF000040080000 0xFFFF000040200000
                pmm0 table128_ok eq_refl) as H.
  assert (E : match pmm_early_init (A := aarch64) table128 0xFFFF000040200000 pmm0 with
              | Ret _ => true | Panic => false end = true) by reflexivity.
  destruct (pmm_early_init table128 0xFFFF000040200000 pmm0) as [s1 |]; [| discriminate E].
  destruct H as (s' & H & _ & W & _); exists s1, s'; split; [reflexivity | split; [exact H | exact W]].
Defined.
