(* ===== verification/Kmalloc.v ===== *)
(** * The kernel heap

    [kernel/lib/kmalloc.c]: nine power-of-two buckets with LIFO free lists over
    a bump area that grows by 4 MiB chunks, and page-granular large blocks.
    The page allocator is reached through an interface, which [Pmm]
    implements. *)
From stdpp Require Import base numbers list gmap.
From S2P Require Import Prelude Bitmap Pmm.

(** ** What the heap needs of the page allocator *)

(** [pa_held p a]: byte [a] lies in a page that was allocated and not freed. *)
Class PageAlloc (P : Type) := {
  pa_alloc : Z -> P -> P * Z;
  pa_free : Z -> Z -> P -> outcome P;
  pa_valid : P -> Prop;
  pa_held : P -> Z -> Prop }.

Definition in_pages (b n a : Z) : Prop := b <= a < b + 4096 * n.

Class PageAllocOk (P : Type) `{PageAlloc P} : Prop := {
  pa_alloc_fail p n p' : pa_valid p -> 0 < n -> pa_alloc n p = (p', 0) -> p' = p;
  pa_alloc_ok p n p' b : pa_valid p -> 0 < n -> pa_alloc n p = (p', b) -> b <> 0 ->
    pa_valid p' /\ b mod 4096 = 0 /\ 0 < b /\ b + 4096 * n < 2 ^ 64 - 4096 /\
    (forall a, in_pages b n a -> ~ pa_held p a) /\
    (forall a, pa_held p' a <-> pa_held p a \/ in_pages b n a);
  pa_free_ok p n b : pa_valid p -> 0 <= n -> b mod 4096 = 0 ->
    (forall a, in_pages b n a -> pa_held p a) ->
    exists p', pa_free b n p = Ret p' /\ pa_valid p' /\
      (forall a, pa_held p' a <-> pa_held p a /\ ~ in_pages b n a) }.

(** ** State *)

Definition KMALLOC_CHUNK_SIZE : Z := 4 * 1024 * 1024.
Definition NUM_BUCKETS : Z := 9.
Definition BLOCK_MAGIC : Z := 0xDEADBEEF.
Definition BLOCK_FREE : Z := 0xDEADDEAD.
Definition LARGE_IDX : Z := 0xFFFFFFFF.
(** [sizeof(struct block_header)], padded to its alignment. *)
Definition HDR : Z := 32.

Record block_header := { magic : Z; hsize : Z; hnext : Z; bucket_idx : Z }.
(** Memory that never held a header reads as zeroes. *)
Definition header0 : block_header := {| magic := 0; hsize := 0; hnext := 0; bucket_idx := 0 |}.

(** The static variables of the file; [hdrs] is the part of memory that holds
    headers, by address; [km_log] the writes to payloads, newest first. *)
Record heap := {
  heap_ptr : Z;
  heap_end : Z;
  heap_total : Z;
  buckets : list Z;
  heap_initialized : bool;
  hdrs : gmap Z block_header;
  kmalloc_lock : bool;
  stat_bytes_in_use : Z;
  stat_high_water : Z;
  stat_live_allocs : Z;
  km_log : list (Z * Z * option Z) }.

Definition heap0 : heap :=
  {| heap_ptr := 0; heap_end := 0; heap_total := 0; buckets := replicate 9 0;
     heap_initialized := false; hdrs := ∅; kmalloc_lock := false;
     stat_bytes_in_use := 0; stat_high_water := 0; stat_live_allocs := 0; km_log := [] |}.

Definition set_bump (h : heap) (ptr stop total : Z) : heap :=
  {| heap_ptr := ptr; heap_end := stop; heap_total := total; buckets := buckets h;
     heap_initialized := heap_initialized h; hdrs := hdrs h; kmalloc_lock := kmalloc_lock h;
     stat_bytes_in_use := stat_bytes_in_use h; stat_high_water := stat_high_water h;
     stat_live_allocs := stat_live_allocs h; km_log := km_log h |}.
Definition set_buckets (h : heap) (bs : list Z) : heap :=
  {| heap_ptr := heap_ptr h; heap_end := heap_end h; heap_total := heap_total h; buckets := bs;
     heap_initialized := heap_initialized h; hdrs := hdrs h; kmalloc_lock := kmalloc_lock h;
     stat_bytes_in_use := stat_bytes_in_use h; stat_high_water := stat_high_water h;
     stat_live_allocs := stat_live_allocs h; km_log := km_log h |}.
Definition set_init (h : heap) : heap :=
  {| heap_ptr := heap_ptr h; heap_end := heap_end h; heap_total := heap_total h; buckets := buckets h;
     heap_initialized := true; hdrs := hdrs h; kmalloc_lock := kmalloc_lock h;
     stat_bytes_in_use := stat_bytes_in_use h; stat_high_water := stat_high_water h;
     stat_live_allocs := stat_live_allocs h; km_log := km_log h |}.
Definition set_hdr (h : heap) (b : Z) (hd : block_header) : heap :=
  {| heap_ptr := heap_ptr h; heap_end := heap_end h; heap_total := heap_total h; buckets := buckets h;
     heap_initialized := heap_initialized h; hdrs := <[b := hd]> (hdrs h); kmalloc_lock := kmalloc_lock h;
     stat_bytes_in_use := stat_bytes_in_use h; stat_high_water := stat_high_water h;
     stat_live_allocs := stat_live_allocs h; km_log := km_log h |}.
Definition set_lock (h : heap) (l : bool) : heap :=
  {| heap_ptr := heap_ptr h; heap_end := heap_end h; heap_total := heap_total h; buckets := buckets h;
     heap_initialized := heap_initialized h; hdrs := hdrs h; kmalloc_lock := l;
     stat_bytes_in_use := stat_bytes_in_use h; stat_high_water := stat_high_water h;
     stat_live_allocs := stat_live_allocs h; km_log := km_log h |}.
Definition set_stats (h : heap) (bytes high live : Z) : heap :=
  {| heap_ptr := heap_ptr h; heap_end := heap_end h; heap_total := heap_total h; buckets := buckets h;
     heap_initialized := heap_initialized h; hdrs := hdrs h; kmalloc_lock := kmalloc_lock h;
     stat_bytes_in_use := bytes; stat_high_water := high; stat_live_allocs := live; km_log := km_log h |}.
Definition log_write (h : heap) (ev : Z * Z * option Z) : heap :=
  {| heap_ptr := heap_ptr h; heap_end := heap_end h; heap_total := heap_total h; buckets := buckets h;
     heap_initialized := heap_initialized h; hdrs := hdrs h; kmalloc_lock := kmalloc_lock h;
     stat_bytes_in_use := stat_bytes_in_use h; stat_high_water := stat_high_water h;
     stat_live_allocs := stat_live_allocs h; km_log := ev :: km_log h |}.

Definition header_at (h : heap) (b : Z) : block_header := default header0 (hdrs h !! b).

(** A call returns, stops the machine, or spins on a lock nobody releases. *)
Inductive kres (A : Type) := KRet (a : A) | KPanic | KSpin.
Arguments KRet {A}.
Arguments KPanic {A}.
Arguments KSpin {A}.
Definition kbind {A B} (m : kres A) (k : A -> kres B) : kres B :=
  match m with KRet a => k a | KPanic => KPanic | KSpin => KSpin end.
Declare Scope kmalloc_scope.
Notation "'let!' x := m 'in' k" := (kbind m (fun x => k))
  (at level 10, x pattern, m at level 100, k at level 200) : kmalloc_scope.
Open Scope kmalloc_scope.

(** ** Helpers *)

Definition km_stat_alloc (size : Z) (h : heap) : heap :=
  let n := u64 (stat_bytes_in_use h + size) in
  set_stats h n (if stat_high_water h <? n then n else stat_high_water h) (u64 (stat_live_allocs h + 1)).
Definition km_stat_free (size : Z) (h : heap) : heap :=
  set_stats h (u64 (stat_bytes_in_use h - size)) (stat_high_water h) (u64 (stat_live_allocs h - 1)).

Definition get_bucket_index (size : Z) : Z :=
  if size <=? 16 then 0
  else if size <=? 32 then 1
  else if size <=? 64 then 2
  else if size <=? 128 then 3
  else if size <=? 256 then 4
  else if size <=? 512 then 5
  else if size <=? 1024 then 6
  else if size <=? 2048 then 7
  else if size <=? 4096 then 8
  else -1.

Definition get_bucket_size (idx : Z) : Z := Z.shiftl 16 idx.

(** [spin_lock_irqsave] and [spin_unlock_irqrestore] on [kmalloc_lock]. *)
Definition lock (h : heap) : kres heap := if kmalloc_lock h then KSpin else KRet (set_lock h true).
Definition unlock (h : heap) : heap := set_lock h false.

Definition new_header (size idx : Z) : block_header :=
  {| magic := BLOCK_MAGIC; hsize := u32 size; hnext := 0; bucket_idx := u32 idx |}.

(** ** The sections of [kmalloc] that run under the lock *)

(** [heap_ptr + bucket_sz <= heap_end]. *)
Definition has_room (idx : Z) (h : heap) : bool := u64 (heap_ptr h + get_bucket_size idx) <=? heap_end h.

(** Pop the bucket's free list or carve the bump area; [None] if neither
    works. *)
Definition take_block (idx size : Z) (h : heap) : option (heap * Z) :=
  let blk := znth 0 (buckets h) idx in
  if negb (blk =? 0) then
    let h := set_buckets h (zset (buckets h) idx (hnext (header_at h blk))) in
    Some (set_hdr h blk (new_header size idx), u64 (blk + HDR))
  else if has_room idx h then
    let blk := heap_ptr h in
    let h := set_bump h (u64 (heap_ptr h + get_bucket_size idx)) (heap_end h) (heap_total h) in
    Some (set_hdr h blk (new_header size idx), u64 (blk + HDR))
  else None.

(** Make a fresh chunk the bump area. *)
Definition install_chunk (chunk : Z) (h : heap) : heap :=
  set_bump h chunk (u64 (chunk + KMALLOC_CHUNK_SIZE)) (u64 (heap_total h + KMALLOC_CHUNK_SIZE)).

(** What [kmalloc_init] does with its first chunk. *)
Definition seed_chunk (chunk : Z) (h : heap) : heap :=
  let h := set_bump h chunk (u64 (chunk + KMALLOC_CHUNK_SIZE)) KMALLOC_CHUNK_SIZE in
  set_init (set_buckets h (replicate 9 0)).

(** The section of [kfree] under the lock; with it, what is left to do after
    the lock is dropped: the pages of a large block to give back. *)
Definition release_block (blk : Z) (h : heap) : heap * option Z :=
  let hd := header_at h blk in
  if negb (magic hd =? BLOCK_MAGIC) then (h, None)
  else if bucket_idx hd =? LARGE_IDX then
    let total_req := u64 (hsize hd + HDR) in
    let pages := u64 (total_req + 4095) / 4096 in
    let h := km_stat_free (hsize hd) h in
    (set_hdr h blk {| magic := 0; hsize := hsize hd; hnext := hnext hd; bucket_idx := bucket_idx hd |},
     Some pages)
  else if NUM_BUCKETS <=? bucket_idx hd then (h, None)
  else
    let h := km_stat_free (hsize hd) h in
    let h := set_hdr h blk {| magic := BLOCK_FREE; hsize := hsize hd;
                              hnext := znth 0 (buckets h) (bucket_idx hd); bucket_idx := bucket_idx hd |} in
    (set_buckets h (zset (buckets h) (bucket_idx hd) blk), None).

(** ** The operations *)

Section ops.
Context {P : Type} `{PageAlloc P}.

Definition kmalloc_init (h : heap) (p : P) : kres (heap * P) :=
  let! h := lock h in
  if heap_initialized h then KRet (unlock h, p)
  else
    let '(p, chunk) := pa_alloc ((KMALLOC_CHUNK_SIZE + 4095) / 4096) p in
    if chunk =? 0 then KRet (unlock h, p)
    else KRet (unlock (seed_chunk chunk h), p).

(** The [for (;;)] of [kmalloc], run by one CPU; [None] means the bound on the
    rounds was too small. *)
Fixpoint kmalloc_loop (fuel : nat) (idx size : Z) (h : heap) (p : P) : option (kres (heap * P * Z)) :=
  match fuel with
  | O => None
  | S n =>
    match take_block idx size h with
    | Some (h, res) => Some (KRet (h, p, res))
    | None =>
      let h := unlock h in
      let '(p, chunk) := pa_alloc (KMALLOC_CHUNK_SIZE / 4096) p in
      match lock h with
      | KRet h =>
        if chunk =? 0 then
          if negb (znth 0 (buckets h) idx =? 0) || has_room idx h then kmalloc_loop n idx size h p
          else Some (KRet (h, p, 0))
        else if has_room idx h then
          let h := unlock h in
          match pa_free chunk (KMALLOC_CHUNK_SIZE / 4096) p with
          | Ret p =>
            match lock h with
            | KRet h => kmalloc_loop n idx size h p
            | KPanic => Some KPanic
            | KSpin => Some KSpin
            end
          | Panic => Some KPanic
          end
        else kmalloc_loop n idx size (install_chunk chunk h) p
      | KPanic => Some KPanic
      | KSpin => Some KSpin
      end
    end
  end.

(** [kmalloc]; [flags] is the interrupt state [spin_lock_irqsave] saves, which
    the exit path of the small case tests before it unlocks. *)
Definition kmalloc (size flags : Z) (h : heap) (p : P) : kres (heap * P * Z) :=
  let! (h, p) := (if heap_initialized h then KRet (h, p) else kmalloc_init h p) in
  if size =? 0 then KRet (h, p, 0)
  else if 2 ^ 64 - 1 - HDR <? size then KRet (h, p, 0)
  else
    let total_req := u64 (size + HDR) in
    let idx := get_bucket_index total_req in
    let! h := lock h in
    if 0 <=? idx then
      let! (h, p, res) := match kmalloc_loop 3 idx size h p with Some r => r | None => KSpin end in
      let h := if negb (flags =? 0) then unlock h else h in
      KRet (if negb (res =? 0) then km_stat_alloc size h else h, p, res)
    else
      let h := unlock h in
      let pages := u64 (total_req + 4095) / 4096 in
      let '(p, ptr) := pa_alloc pages p in
      if ptr =? 0 then KRet (h, p, 0)
      else
        let h := set_hdr h ptr (new_header size LARGE_IDX) in
        KRet (km_stat_alloc size h, p, u64 (ptr + HDR)).

Definition kcalloc (nmemb size flags : Z) (h : heap) (p : P) : kres (heap * P * Z) :=
  if negb (nmemb =? 0) && ((2 ^ 64 - 1) / nmemb <? size) then KRet (h, p, 0)
  else
    let total := u64 (nmemb * size) in
    let! (h, p, ptr) := kmalloc total flags h p in
    KRet (if negb (ptr =? 0) then log_write h (ptr, total, None) else h, p, ptr).

Definition kfree (ptr : Z) (h : heap) (p : P) : kres (heap * P) :=
  if ptr =? 0 then KRet (h, p)
  else
    let blk := u64 (ptr - HDR) in
    let! h := lock h in
    let '(h, pages) := release_block blk h in
    let h := unlock h in
    match pages with
    | None => KRet (h, p)
    | Some n => match pa_free blk n p with Ret p => KRet (h, p) | Panic => KPanic end
    end.

Definition krealloc (ptr new_size flags : Z) (h : heap) (p : P) : kres (heap * P * Z) :=
  if ptr =? 0 then kmalloc new_size flags h p
  else if new_size =? 0 then
    let! (h, p) := kfree ptr h p in KRet (h, p, 0)
  else
    let! h := lock h in
    let hd := header_at h (u64 (ptr - HDR)) in
    let h := unlock h in
    if negb (magic hd =? BLOCK_MAGIC) then KRet (h, p, 0)
    else
      let! (h, p, new_ptr) := kmalloc new_size flags h p in
      if new_ptr =? 0 then KRet (h, p, 0)
      else
        let copy_size := if hsize hd <? new_size then hsize hd else new_size in
        let h := log_write h (new_ptr, copy_size, Some ptr) in
        let! (h, p) := kfree ptr h p in
        KRet (h, p, new_ptr).
End ops.

Definition kmalloc_get_stats (h : heap) : Z * Z * Z * Z :=
  (heap_total h, stat_bytes_in_use h, stat_high_water h, stat_live_allocs h).
