(* ===== verification/KmallocProofs.v ===== *)
(** * Safety of the kernel heap

    Who owns each byte: the blocks, the bump area, and the pages a CPU holds
    between two sections of the heap's code.  Every section keeps ownership
    exclusive. *)
From stdpp Require Import base numbers list gmap.
From S2P Require Import Prelude Bitmap Pmm Kmalloc.

(** ** Buckets *)

Ltac eval_shl :=
  repeat match goal with
  | |- context [Z.shiftl 16 ?k] =>
    let v := eval vm_compute in (Z.shiftl 16 k) in change (Z.shiftl 16 k) with v
  end.

(** The slot [get_bucket_index] picks is the smallest that holds the request. *)
Lemma bucket_index_spec size :
  let i := get_bucket_index size in
  (i = -1 /\ 4096 < size) \/
  (0 <= i < 9 /\ size <= get_bucket_size i /\ forall j, 0 <= j < i -> get_bucket_size j < size).
Proof.
  cbv zeta; unfold get_bucket_index, get_bucket_size.
  repeat case_if; [right .. | left; lia]; (split; [lia |]); (split; [eval_shl; lia |]); intros j Hj;
    (assert (j = 0 \/ j = 1 \/ j = 2 \/ j = 3 \/ j = 4 \/ j = 5 \/ j = 6 \/ j = 7) as Hc by lia;
     repeat destruct Hc as [-> | Hc]; try subst j; eval_shl; lia).
Qed.

Lemma bucket_size_bound i : 0 <= i < 9 -> 16 <= get_bucket_size i <= 4096 /\ get_bucket_size i mod 16 = 0.
Proof.
  intros Hi; assert (i = 0 \/ i = 1 \/ i = 2 \/ i = 3 \/ i = 4 \/ i = 5 \/ i = 6 \/ i = 7 \/ i = 8) as Hc by lia.
  repeat destruct Hc as [-> | Hc]; try subst i; vm_compute; repeat split; discriminate.
Qed.

(** ** Ownership *)

Inductive owner := OBlk (b : Z) | OBump | OFly (t : nat).
#[export] Instance owner_eq_dec : EqDecision owner.
Proof. solve_decision. Defined.

Definition is_block (hd : block_header) : Prop := magic hd = BLOCK_MAGIC \/ magic hd = BLOCK_FREE.

(** The bytes a block takes, from its header on. *)
Definition extent (hd : block_header) : Z :=
  if bucket_idx hd =? LARGE_IDX then 4096 * ((hsize hd + HDR + 4095) / 4096)
  else get_bucket_size (bucket_idx hd).

(** [fl] gives the pages each CPU holds while it is outside the lock. *)
Definition owns (h : heap) (fl : gmap nat (Z * Z)) (k : owner) (x : Z) : Prop :=
  match k with
  | OBlk b => exists hd, hdrs h !! b = Some hd /\ is_block hd /\ b <= x < b + extent hd
  | OBump => heap_ptr h <= x < heap_end h
  | OFly t => exists a n, fl !! t = Some (a, n) /\ in_pages a n x
  end.

Definition large_wf (hd : block_header) : Prop :=
  bucket_idx hd = LARGE_IDX /\ magic hd = BLOCK_MAGIC /\ 0 <= hsize hd < 2 ^ 32.
Definition small_wf (hd : block_header) : Prop :=
  0 <= bucket_idx hd < 9 /\
  (magic hd = BLOCK_MAGIC -> 0 < hsize hd /\ hsize hd + HDR <= get_bucket_size (bucket_idx hd)).

Record block_at (b : Z) (hd : block_header) : Prop := {
  ba_kind : large_wf hd /\ b mod 4096 = 0 \/ small_wf hd;
  ba_pos : 0 < b;
  ba_align : b mod 16 = 0;
  ba_end : b + extent hd < 2 ^ 64 - 4096 }.

Lemma extent_pos b hd : block_at b hd -> 0 < extent hd.
Proof.
  intros [Kd _ _ _]; unfold extent; destruct Kd as [((-> & _ & ?) & _) | (? & _)]; [rewrite Z.eqb_refl |].
  - assert (1 <= (hsize hd + HDR + 4095) / 4096) by (apply Z.div_le_lower_bound; unfold HDR; lia); lia.
  - case_if; [unfold LARGE_IDX in *; lia |]; pose proof (bucket_size_bound (bucket_idx hd) ltac:(lia)); lia.
Qed.

(** The free list of bucket [i], from its head. *)
Fixpoint chain (m : gmap Z block_header) (i b : Z) (l : list Z) : Prop :=
  match l with
  | [] => b = 0
  | x :: l => b = x /\ 0 < x /\ exists hd, m !! x = Some hd /\ magic hd = BLOCK_FREE /\
                bucket_idx hd = i /\ chain m i (hnext hd) l
  end.

Section safety.
Context {P : Type} `{PAO : PageAllocOk P}.

Record heap_inv (h : heap) (fl : gmap nat (Z * Z)) (p : P) : Prop := {
  hi_valid : pa_valid p;
  hi_buckets : zlen (buckets h) = 9;
  hi_blocks : forall b hd, hdrs h !! b = Some hd -> is_block hd -> block_at b hd;
  hi_bump : 0 <= heap_ptr h <= heap_end h /\ heap_end h < 2 ^ 64 - 4096 /\ heap_ptr h mod 16 = 0 /\
            (heap_ptr h = 0 -> heap_end h = 0);
  hi_fly : forall t a n, fl !! t = Some (a, n) -> 0 < a /\ 0 < n /\ a mod 4096 = 0 /\ a + 4096 * n < 2 ^ 64 - 4096;
  hi_owner : forall k1 k2 x, owns h fl k1 x -> owns h fl k2 x -> k1 = k2;
  hi_held : forall k x, owns h fl k x -> pa_held p x;
  hi_free : forall i, 0 <= i < 9 -> exists l, chain (hdrs h) i (znth 0 (buckets h) i) l /\ NoDup l }.

(** Exchanging two owners. *)
Definition swap (a b k : owner) : owner :=
  if decide (k = a) then b else if decide (k = b) then a else k.

Lemma swap_inj a b k1 k2 : swap a b k1 = swap a b k2 -> k1 = k2.
Proof. unfold swap; repeat case_decide; congruence. Qed.

Lemma swap_other a b k : k <> a -> k <> b -> swap a b k = k.
Proof. intros; unfold swap; repeat case_decide; congruence. Qed.
Lemma swap_l a b : swap a b a = b.
Proof. unfold swap; by case_decide. Qed.
Lemma swap_r a b : swap a b b = a.
Proof. unfold swap; repeat case_decide; congruence. Qed.

(** If what is owned afterwards was owned before, up to exchanging two owners,
    ownership stays exclusive. *)
Lemma owner_swap h fl p h' fl' a b :
  heap_inv h fl p -> (forall k x, owns h' fl' k x -> owns h fl (swap a b k) x) ->
  (forall k1 k2 x, owns h' fl' k1 x -> owns h' fl' k2 x -> k1 = k2) /\
  (forall k x, owns h' fl' k x -> pa_held p x).
Proof.
  intros I Hsub; split.
  - intros k1 k2 x H1 H2; eapply swap_inj, (hi_owner _ _ _ I); [apply Hsub, H1 | apply Hsub, H2].
  - intros k x Hx; eapply (hi_held _ _ _ I), Hsub, Hx.
Qed.

Lemma chain_ext m m' i b l :
  (forall x, x ∈ l -> m' !! x = m !! x) -> chain m i b l -> chain m' i b l.
Proof.
  revert b; induction l as [| x l IH]; intros b He; simpl; [done |].
  intros (-> & Hx & hd & Hm & ? & ? & Hc); split_and!; try done; exists hd.
  split_and!; try done; [rewrite He; [done | by apply elem_of_cons; left] |].
  apply IH; [| done]; intros y Hy; apply He; by apply elem_of_cons; right.
Qed.

Lemma chain_free m i b l x :
  chain m i b l -> x ∈ l -> exists hd, m !! x = Some hd /\ magic hd = BLOCK_FREE /\ bucket_idx hd = i.
Proof.
  revert b; induction l as [| y l IH]; intros b; simpl; [intros _ Hx; by apply elem_of_nil in Hx |].
  intros (-> & _ & hd & Hm & ? & ? & Hc) [-> | Hx]%elem_of_cons; [by exists hd | by eapply IH].
Qed.

(** Changing a header that is on no other free list. *)
Lemma chain_set_other m i b l y hd hd' :
  chain m i b l -> m !! y = Some hd -> (magic hd <> BLOCK_FREE \/ bucket_idx hd <> i) ->
  chain (<[y := hd']> m) i b l.
Proof.
  intros Hc Hy Hne; eapply chain_ext; [| done]; intros x Hx.
  rewrite lookup_insert_ne; [done |]; intros <-.
  destruct (chain_free _ _ _ _ _ Hc Hx) as (hd2 & E & ? & ?); rewrite Hy in E; injection E as <-; tauto.
Qed.

Lemma chain_set_fresh m i b l y hd' :
  chain m i b l -> (forall hd, m !! y = Some hd -> magic hd <> BLOCK_FREE) ->
  chain (<[y := hd']> m) i b l.
Proof.
  intros Hc Hy; eapply chain_ext; [| done]; intros x Hx.
  rewrite lookup_insert_ne; [done |]; intros <-.
  destruct (chain_free _ _ _ _ _ Hc Hx) as (hd2 & E & ? & ?); by eapply Hy.
Qed.

Lemma u32_idx i : 0 <= i < 9 -> u32 i = i.
Proof. intros; apply u32_small; lia. Qed.

(** [size] fits the slots of bucket [idx]. *)
Definition fits (idx size : Z) : Prop := 0 <= idx < 9 /\ 0 < size /\ size + HDR <= get_bucket_size idx.

Lemma new_header_small idx size :
  fits idx size -> small_wf (new_header size idx) /\ extent (new_header size idx) = get_bucket_size idx /\
  hsize (new_header size idx) = size /\ bucket_idx (new_header size idx) = idx.
Proof.
  intros (Hi & Hs & Hf); pose proof (bucket_size_bound idx Hi) as [? _].
  unfold small_wf, extent, new_header, HDR in *; simpl; rewrite u32_idx, u32_small by lia.
  rewrite (proj2 (Z.eqb_neq idx LARGE_IDX)) by (unfold LARGE_IDX; lia); split_and!; done || lia.
Qed.

Lemma chain_nil_or m i b l : chain m i b l -> b = 0 -> l = [].
Proof. destruct l; [done |]; simpl; intros (-> & ? & _) ?; lia. Qed.

(** Taking a block off its free list. *)
Lemma pop_inv h fl p idx size blk :
  heap_inv h fl p -> fits idx size -> znth 0 (buckets h) idx = blk -> blk <> 0 ->
  heap_inv (set_hdr (set_buckets h (zset (buckets h) idx (hnext (header_at h blk)))) blk (new_header size idx)) fl p /\
  0 < blk /\ (exists hd, hdrs h !! blk = Some hd /\ magic hd = BLOCK_FREE /\ bucket_idx hd = idx).
Proof.
  intros I Hfit Hb Hnz; pose proof Hfit as (Hi & Hs & Hf); destruct (new_header_small idx size Hfit) as (Sw & Ex & _).
  destruct (hi_free _ _ _ I idx Hi) as (l & Hc & Hnd); rewrite Hb in Hc.
  destruct l as [| b l]; [by simpl in Hc |]; simpl in Hc; destruct Hc as (<- & Hpos & hd & Hl & Hm & Hix & Hc).
  apply NoDup_cons in Hnd as [Hnin Hnd]; unfold header_at; rewrite Hl; simpl.
  assert (Hblk : is_block hd) by (by right).
  pose proof (hi_blocks _ _ _ I blk hd Hl Hblk) as Ba.
  assert (Ehd : extent hd = get_bucket_size idx).
  { unfold extent; rewrite Hix, (proj2 (Z.eqb_neq idx LARGE_IDX)) by (unfold LARGE_IDX; lia); done. }
  split; [| split; [done | by exists hd]].
  match goal with |- heap_inv ?h' _ _ => destruct (owner_swap h fl p h' fl OBump OBump I) as [Ho Hh] end.
  { intros k x Hx; replace (swap OBump OBump k) with k by (unfold swap; repeat case_decide; congruence).
    destruct k as [b | |]; simpl in *; [| done | done].
    destruct Hx as (hd' & Hb' & Hk & Hx); destruct (decide (b = blk)) as [-> | Hne].
    - rewrite lookup_insert_eq in Hb'; injection Hb' as <-; exists hd; rewrite Ehd, <- Ex; done.
    - rewrite lookup_insert_ne in Hb' by done; by exists hd'. }
  destruct I as [Iv Ib Ibl Ibu If _ _ Ifr]; constructor; try done.
  - simpl; rewrite zlen_zset; done.
  - simpl; intros b hd' Hb' Hk; destruct (decide (b = blk)) as [-> | Hne].
    + rewrite lookup_insert_eq in Hb'; injection Hb' as <-; destruct Ba as [_ B1 B2 B3].
      constructor; try done; [by right | rewrite Ex, <- Ehd; done].
    + rewrite lookup_insert_ne in Hb' by done; auto.
  - intros i Hii; simpl; rewrite znth_zset by lia; destruct (Z.eqb_spec idx i) as [<- | Hne].
    + exists l; split; [| done]; eapply chain_ext; [| done].
      intros x Hx; rewrite lookup_insert_ne; [done | congruence].
    + destruct (Ifr i Hii) as (l' & Hc' & Hnd'); exists l'; split; [| done].
      eapply chain_set_other; [done | done | right; congruence].
Qed.

(** Carving a block off the bump area. *)
Lemma carve_inv h fl p idx size :
  heap_inv h fl p -> fits idx size -> has_room idx h = true ->
  heap_inv (set_hdr (set_bump h (u64 (heap_ptr h + get_bucket_size idx)) (heap_end h) (heap_total h))
              (heap_ptr h) (new_header size idx)) fl p /\
  0 < heap_ptr h /\ (forall hd, hdrs h !! heap_ptr h = Some hd -> ~ is_block hd).
Proof.
  intros I Hfit Hr; pose proof Hfit as (Hi & Hs & Hf); destruct (new_header_small idx size Hfit) as (Sw & Ex & _).
  pose proof (bucket_size_bound idx Hi) as [Hbs Hbm]; destruct (hi_bump _ _ _ I) as (B1 & B2 & B3 & B4).
  unfold has_room in Hr; apply Z.leb_le in Hr; set (b := heap_ptr h) in *; set (z := get_bucket_size idx) in *.
  rewrite u64_small in * by lia.
  assert (Hnz : 0 < b) by (destruct (Z.eq_dec b 0) as [E |]; [specialize (B4 E); lia | lia]).
  assert (Hfresh : forall x, b <= x < b + z -> forall k, owns h fl k x -> k = OBump).
  { intros x Hx k Hk; eapply (hi_owner _ _ _ I); [exact Hk | simpl; fold b; lia]. }
  assert (Hnb : forall hd, hdrs h !! b = Some hd -> ~ is_block hd).
  { intros hd Hl Hk; pose proof (extent_pos b hd (hi_blocks _ _ _ I b hd Hl Hk)).
    assert (OBlk b = OBump) by (apply (Hfresh b); [lia | exists hd; split_and!; done || lia]); done. }
  split; [| split; [done | done]].
  assert (Hown : forall k x, owns (set_hdr (set_bump h (b + z) (heap_end h) (heap_total h)) b (new_header size idx)) fl k x ->
    (k = OBlk b /\ b <= x < b + z) \/ (owns h fl k x /\ ~ b <= x < b + z)).
  { intros k x Hx; destruct k as [b' | | t]; simpl in Hx.
    - destruct Hx as (hd' & Hb' & Hk & Hx); destruct (decide (b' = b)) as [-> | Hne].
      + rewrite lookup_insert_eq in Hb'; injection Hb' as <-; left; split; [done | by rewrite Ex in Hx].
      + rewrite lookup_insert_ne in Hb' by done; right.
        assert (Ow : owns h fl (OBlk b') x) by (exists hd'; done).
        split; [done |]; intros Hc; by specialize (Hfresh x Hc _ Ow).
    - right; simpl; split; [fold b; lia | lia].
    - right; split; [done |]; intros Hc; by specialize (Hfresh x Hc (OFly t) Hx). }
  destruct I as [Iv Ib Ibl Ibu If Io Ih Ifr]; constructor; try done.
  - simpl; intros b' hd' Hb' Hk; destruct (decide (b' = b)) as [-> | Hne].
    + rewrite lookup_insert_eq in Hb'; injection Hb' as <-; constructor; [by right | done | done | rewrite Ex; fold z; lia].
    + rewrite lookup_insert_ne in Hb' by done; auto.
  - simpl; split_and!; try lia; rewrite Z.add_mod, B3, Hbm by lia; done.
  - intros k1 k2 x H1 H2; apply Hown in H1 as [[-> ?] | [H1 ?]]; apply Hown in H2 as [[-> ?] | [H2 ?]]; try done.
    by eapply Io.
  - intros k x Hx; apply Hown in Hx as [[-> Hx] | [Hx _]]; [apply (Ih OBump); simpl; fold b; lia | by eapply Ih].
  - intros i Hii; destruct (Ifr i Hii) as (l' & Hc' & Hnd'); exists l'; split; [| done]; simpl.
    eapply chain_set_fresh; [done |]; intros hd Hl Hm; apply (Hnb hd Hl); by right.
Qed.

(** What [take_block] returns: a block that was not in use, with the request's
    header, all other headers as they were. *)
Lemma take_block_inv h fl p idx size h' res :
  heap_inv h fl p -> fits idx size -> take_block idx size h = Some (h', res) ->
  heap_inv h' fl p /\
  exists b, res = b + HDR /\ 0 < b /\ hdrs h' = <[b := new_header size idx]> (hdrs h) /\
    (forall hd, hdrs h !! b = Some hd -> magic hd <> BLOCK_MAGIC) /\
    kmalloc_lock h' = kmalloc_lock h /\ stat_bytes_in_use h' = stat_bytes_in_use h /\
    heap_initialized h' = heap_initialized h.
Proof.
  intros I Hfit E; unfold take_block in E.
  destruct (Z.eqb_spec (znth 0 (buckets h) idx) 0) as [Hz | Hnz]; simpl in E.
  - destruct (has_room idx h) eqn:Hr; [injection E as <- <- | done].
    destruct (carve_inv h fl p idx size I Hfit Hr) as (I' & Hpos & Hnb); split; [done |].
    pose proof (hi_bump _ _ _ I) as (? & ? & _); exists (heap_ptr h); split_and!; try done.
    + apply u64_small; unfold HDR; lia.
    + intros hd Hl Hm; apply (Hnb hd Hl); by left.
  - injection E as <- <-; destruct (pop_inv h fl p idx size _ I Hfit eq_refl Hnz) as (I' & Hpos & hd & Hl & Hm & Hix).
    split; [done |]; exists (znth 0 (buckets h) idx); split_and!; try done.
    + pose proof (hi_blocks _ _ _ I _ hd Hl ltac:(by right)) as Ba; pose proof (extent_pos _ _ Ba).
      pose proof (ba_end _ _ Ba); apply u64_small; unfold HDR; lia.
    + intros hd' Hl' Hm'; rewrite Hl in Hl'; injection Hl' as <-; rewrite Hm in Hm'; done.
Qed.

Lemma large_pages hd :
  large_wf hd -> u64 (u64 (hsize hd + HDR) + 4095) / 4096 = extent hd / 4096 /\
  extent hd = 4096 * (extent hd / 4096).
Proof.
  intros (Hl & _ & Hs); unfold extent, HDR in *; rewrite Hl, Z.eqb_refl.
  rewrite (u64_small (hsize hd + 32)), u64_small by lia.
  rewrite (Z.mul_comm 4096), Z.div_mul by lia; lia.
Qed.

Lemma large_not_small hd : bucket_idx hd = LARGE_IDX -> ~ small_wf hd.
Proof. unfold small_wf, LARGE_IDX; lia. Qed.

(** The locked part of [kfree]: a small block moves to its free list, a large
    one to the CPU [t] that will give its pages back; a pointer to anything but
    a live block changes nothing. *)
Lemma release_block_inv h fl p blk t :
  heap_inv h fl p -> fl !! t = None ->
  (magic (header_at h blk) <> BLOCK_MAGIC /\ release_block blk h = (h, None)) \/
  (exists hd, hdrs h !! blk = Some hd /\ magic hd = BLOCK_MAGIC /\ small_wf hd /\
     exists h', release_block blk h = (h', None) /\ heap_inv h' fl p /\ kmalloc_lock h' = kmalloc_lock h /\
     hdrs h' = <[blk := {| magic := BLOCK_FREE; hsize := hsize hd;
                           hnext := znth 0 (buckets h) (bucket_idx hd); bucket_idx := bucket_idx hd |}]> (hdrs h)) \/
  (exists hd, hdrs h !! blk = Some hd /\ large_wf hd /\
     exists h', release_block blk h = (h', Some (extent hd / 4096)) /\
     heap_inv h' (<[t := (blk, extent hd / 4096)]> fl) p /\ kmalloc_lock h' = kmalloc_lock h /\
     hdrs h' = <[blk := {| magic := 0; hsize := hsize hd; hnext := hnext hd; bucket_idx := bucket_idx hd |}]> (hdrs h)).
Proof.
  intros I Ht; unfold release_block, header_at; destruct (hdrs h !! blk) as [hd |] eqn:Hl; [simpl | by left].
  destruct (Z.eqb_spec (magic hd) BLOCK_MAGIC) as [Hm | Hm]; [simpl; right | by left].
  assert (Hk : is_block hd) by (by left).
  pose proof (hi_blocks _ _ _ I blk hd Hl Hk) as Ba; pose proof Ba as [Kd Bp Bal Be].
  destruct Kd as [[Lw Hal] | Sw].
  - right; exists hd; split_and!; try done; destruct (large_pages hd Lw) as [Ep Ee].
    rewrite Ep, (proj1 Lw), Z.eqb_refl; eexists; split; [done |]; split; [| done].
    match goal with |- heap_inv ?h' ?fl' _ =>
      destruct (owner_swap h fl p h' fl' (OFly t) (OBlk blk) I) as [Ho Hh] end.
    { intros k x Hx; destruct (decide (k = OFly t)) as [-> |]; [rewrite swap_l |
        destruct (decide (k = OBlk blk)) as [-> |]; [rewrite swap_r | rewrite swap_other by done]].
      - simpl in *; destruct Hx as (a & n & Hf & Hx); rewrite lookup_insert_eq in Hf; injection Hf as <- <-.
        exists hd; unfold in_pages in Hx; rewrite Ee; done.
      - simpl in *; destruct Hx as (hd' & Hb' & Hk' & Hx); rewrite lookup_insert_eq in Hb'.
        injection Hb' as <-; destruct Hk' as [Hk' | Hk']; discriminate Hk'.
      - destruct k as [b | | t']; simpl in *; [| done |].
        + rewrite lookup_insert_ne in Hx by congruence; done.
        + rewrite lookup_insert_ne in Hx by congruence; done. }
    pose proof (extent_pos _ _ Ba); destruct I as [Iv Ib Ibl Ibu If _ _ Ifr]; constructor; try done.
    + simpl; intros b hd' Hb' Hk'; destruct (decide (b = blk)) as [-> | Hne].
      * rewrite lookup_insert_eq in Hb'; injection Hb' as <-; destruct Hk' as [Hk' | Hk']; discriminate Hk'.
      * rewrite lookup_insert_ne in Hb' by done; auto.
    + intros t' a n Hf; destruct (decide (t' = t)) as [-> |].
      * rewrite lookup_insert_eq in Hf; injection Hf as <- <-; split_and!; try done; lia.
      * rewrite lookup_insert_ne in Hf by done; eauto.
    + intros i Hi; destruct (Ifr i Hi) as (l & Hc & Hnd); exists l; split; [| done]; simpl.
      eapply chain_set_other; [done | done | left; rewrite Hm; done].
  - left; exists hd; split_and!; try done; pose proof Sw as [Hix _].
    rewrite (proj2 (Z.eqb_neq (bucket_idx hd) LARGE_IDX)) by (unfold LARGE_IDX; lia).
    rewrite (proj2 (Z.leb_gt NUM_BUCKETS (bucket_idx hd))) by (unfold NUM_BUCKETS; lia).
    eexists; split; [done |]; split; [| done].
    match goal with |- heap_inv ?h' _ _ => destruct (owner_swap h fl p h' fl OBump OBump I) as [Ho Hh] end.
    { intros k x Hx; replace (swap OBump OBump k) with k by (unfold swap; repeat case_decide; congruence).
      destruct k as [b | |]; simpl in *; [| done | done].
      destruct Hx as (hd' & Hb' & Hk' & Hx); destruct (decide (b = blk)) as [-> | Hne].
      - rewrite lookup_insert_eq in Hb'; injection Hb' as <-; exists hd; done.
      - rewrite lookup_insert_ne in Hb' by done; by exists hd'. }
    destruct I as [Iv Ib Ibl Ibu If _ _ Ifr]; constructor; try done.
    + simpl; rewrite zlen_zset; done.
    + simpl; intros b hd' Hb' Hk'; destruct (decide (b = blk)) as [-> | Hne].
      * rewrite lookup_insert_eq in Hb'; injection Hb' as <-; constructor; try done; right; done.
      * rewrite lookup_insert_ne in Hb' by done; auto.
    + intros i Hi; destruct (Ifr i Hi) as (l & Hc & Hnd); simpl; rewrite znth_zset by lia.
      assert (Hnin : blk ∉ l).
      { intros Hin; destruct (chain_free _ _ _ _ _ Hc Hin) as (hd' & Hl' & Hm' & _).
        rewrite Hl in Hl'; injection Hl' as <-; rewrite Hm in Hm'; discriminate Hm'. }
      destruct (Z.eqb_spec (bucket_idx hd) i) as [<- | Hne].
      * exists (blk :: l); split; [| by constructor]; simpl; split_and!; try done.
        eexists; rewrite lookup_insert_eq; split_and!; [done | done | done |]; simpl.
        eapply chain_set_other; [done | done | left; rewrite Hm; done].
      * exists l; split; [| done]; eapply chain_set_other; [done | done | left; rewrite Hm; done].
Qed.

(** A CPU that gets pages from the page allocator holds them exclusively. *)
Lemma fly_alloc_inv h fl p n p' a t :
  heap_inv h fl p -> fl !! t = None -> 0 < n -> pa_alloc n p = (p', a) ->
  (a = 0 /\ p' = p) \/ (a <> 0 /\ heap_inv h (<[t := (a, n)]> fl) p').
Proof.
  intros I Ht Hn E; destruct (Z.eq_dec a 0) as [-> | Ha].
  { left; split; [done |]; eapply pa_alloc_fail; [apply I | done | done]. }
  right; split; [done |].
  destruct (pa_alloc_ok p n p' a (hi_valid _ _ _ I) Hn E Ha) as (V & Al & Pos & Top & Fresh & Held).
  assert (Hown : forall k x, owns h (<[t := (a, n)]> fl) k x ->
    (k = OFly t /\ in_pages a n x) \/ owns h fl k x).
  { intros k x Hx; destruct k as [b | | t']; try by right.
    destruct Hx as (a' & n' & Hf & Hx); destruct (decide (t' = t)) as [-> |].
    - rewrite lookup_insert_eq in Hf; injection Hf as <- <-; by left.
    - rewrite lookup_insert_ne in Hf by done; right; by exists a', n'. }
  destruct I as [Iv Ib Ibl Ibu If Io Ih Ifr]; constructor; try done.
  - intros t' a' n' Hf; destruct (decide (t' = t)) as [-> |].
    + rewrite lookup_insert_eq in Hf; injection Hf as <- <-; done.
    + rewrite lookup_insert_ne in Hf by done; eauto.
  - intros k1 k2 x H1 H2; apply Hown in H1 as [[-> H1] | H1]; apply Hown in H2 as [[-> H2] | H2]; try done.
    + exfalso; by eapply Fresh, Ih.
    + exfalso; by eapply Fresh, Ih.
    + by eapply Io.
  - intros k x Hx; apply Held; apply Hown in Hx as [[_ Hx] | Hx]; [by right | left; by eapply Ih].
Qed.

(** Dropping what a CPU holds. *)
Lemma fly_sub h fl t k x :
  owns h (delete t fl) k x -> k <> OFly t /\ owns h fl k x.
Proof.
  destruct k as [b | | t']; try done; intros (a & n & Hf & Hx).
  apply lookup_delete_Some in Hf as [Hne Hf]; split; [congruence | by exists a, n].
Qed.

Lemma fly_free_inv h fl p a n t :
  heap_inv h fl p -> fl !! t = Some (a, n) ->
  exists p', pa_free a n p = Ret p' /\ heap_inv h (delete t fl) p'.
Proof.
  intros I Ht; destruct (hi_fly _ _ _ I t a n Ht) as (Pos & Hn & Al & Top).
  assert (Hhold : forall x, in_pages a n x -> owns h fl (OFly t) x) by (intros x Hx; by exists a, n).
  destruct (pa_free_ok p n a (hi_valid _ _ _ I) ltac:(lia) Al) as (p' & E & V & Held).
  { intros x Hx; eapply (hi_held _ _ _ I), Hhold, Hx. }
  exists p'; split; [done |]; destruct I as [Iv Ib Ibl Ibu If Io Ih Ifr]; constructor; try done.
  - intros t' a' n' Hf; apply lookup_delete_Some in Hf as [_ Hf]; eauto.
  - intros k1 k2 x [_ H1]%fly_sub [_ H2]%fly_sub; by eapply Io.
  - intros k x [Hne Hx]%fly_sub; apply Held; split; [by eapply Ih |].
    intros Hin; apply Hne; eapply Io; [done | by apply Hhold].
Qed.

Lemma align16 a : a mod 4096 = 0 -> a mod 16 = 0.
Proof.
  intros Ha; pose proof (Z.div_mod a 4096 ltac:(lia)).
  replace a with (a / 4096 * 256 * 16) by lia; apply Z.mod_mul; lia.
Qed.

(** Installing the pages a CPU holds as the bump area. *)
Lemma install_inv h fl p a t total :
  heap_inv h fl p -> fl !! t = Some (a, 1024) ->
  heap_inv (set_bump h a (u64 (a + KMALLOC_CHUNK_SIZE)) total) (delete t fl) p.
Proof.
  intros I Ht; destruct (hi_fly _ _ _ I t a 1024 Ht) as (Pos & _ & Al & Top).
  unfold KMALLOC_CHUNK_SIZE; rewrite u64_small by lia.
  match goal with |- heap_inv ?h' ?fl' _ =>
    destruct (owner_swap h fl p h' fl' (OFly t) OBump I) as [Ho Hh] end.
  { intros k x Hx; apply fly_sub in Hx as [Hne Hx].
    destruct (decide (k = OBump)) as [-> |]; [rewrite swap_r | by rewrite swap_other by done; destruct k].
    simpl in Hx; exists a, 1024; split; [done | unfold in_pages; lia]. }
  destruct I as [Iv Ib Ibl Ibu If _ _ Ifr]; constructor; try done.
  - simpl; split_and!; try lia.
    by apply align16.
  - intros t' a' n' Hf; apply lookup_delete_Some in Hf as [_ Hf]; eauto.
Qed.

(** The first chunk: the free lists are reset as well. *)
Lemma seed_inv h fl p a t :
  heap_inv h fl p -> fl !! t = Some (a, 1024) -> heap_inv (seed_chunk a h) (delete t fl) p.
Proof.
  intros I Ht; pose proof (install_inv h fl p a t KMALLOC_CHUNK_SIZE I Ht) as [Iv Ib Ibl Ibu If Io Ih Ifr].
  constructor; try done; intros i Hi; exists []; split; [| constructor].
  assert (i = 0 \/ i = 1 \/ i = 2 \/ i = 3 \/ i = 4 \/ i = 5 \/ i = 6 \/ i = 7 \/ i = 8) as Hc by lia.
  repeat destruct Hc as [-> | Hc]; try subst i; done.
Qed.

(** Turning the pages a CPU holds into a large block. *)
Lemma large_inv h fl p a n t size :
  heap_inv h fl p -> fl !! t = Some (a, n) -> 4096 < size + HDR < 2 ^ 64 - 4096 -> n = (size + HDR + 4095) / 4096 ->
  heap_inv (set_hdr h a (new_header size LARGE_IDX)) (delete t fl) p /\
  (forall hd, hdrs h !! a = Some hd -> ~ is_block hd).
Proof.
  intros I Ht Hs Hn; destruct (hi_fly _ _ _ I t a n Ht) as (Pos & Hn0 & Al & Top); unfold HDR in *.
  set (hd := new_header size LARGE_IDX).
  assert (Lw : large_wf hd) by (split_and!; [done | done | simpl; apply u32_range | simpl; apply u32_range]).
  assert (He : extent hd <= 4096 * n).
  { unfold extent, hd; simpl; change (u32 LARGE_IDX =? LARGE_IDX) with true; cbv iota; unfold HDR.
    assert (u32 size <= size) by (unfold u32; apply Z.mod_le; lia).
    assert ((u32 size + 32 + 4095) / 4096 <= n) by (rewrite Hn; apply Z.div_le_mono; lia); lia. }
  assert (Hnb : forall hd', hdrs h !! a = Some hd' -> ~ is_block hd').
  { intros hd' Hl Hk; pose proof (extent_pos _ _ (hi_blocks _ _ _ I a hd' Hl Hk)).
    assert (OBlk a = OFly t); [| done].
    eapply (hi_owner _ _ _ I) with (x := a); [exists hd' | exists a, n; unfold in_pages]; split_and!; done || lia. }
  split; [| done].
  match goal with |- heap_inv ?h' ?fl' _ =>
    destruct (owner_swap h fl p h' fl' (OFly t) (OBlk a) I) as [Ho Hh] end.
  { intros k x Hx; apply fly_sub in Hx as [Hne Hx].
    destruct (decide (k = OBlk a)) as [-> | Hk]; [rewrite swap_r | rewrite swap_other by done].
    - destruct Hx as (hd' & Hl & _ & Hx); simpl in Hl; rewrite lookup_insert_eq in Hl; injection Hl as <-.
      fold hd in Hx; exists a, n; split; [done | unfold in_pages; lia].
    - destruct k as [b | |]; simpl in *; [| done | done].
      rewrite lookup_insert_ne in Hx by congruence; done. }
  destruct I as [Iv Ib Ibl Ibu If _ _ Ifr]; constructor; try done.
  - simpl; intros b hd' Hb' Hk'; destruct (decide (b = a)) as [-> | Hne].
    + rewrite lookup_insert_eq in Hb'; injection Hb' as <-; fold hd; constructor; [left; done | done | | lia].
      by apply align16.
    + rewrite lookup_insert_ne in Hb' by done; auto.
  - intros t' a' n' Hf; apply lookup_delete_Some in Hf as [_ Hf]; eauto.
  - intros i Hi; destruct (Ifr i Hi) as (l & Hc & Hnd); exists l; split; [| done]; simpl.
    eapply chain_set_fresh; [done |]; intros hd' Hl Hm; apply (Hnb hd' Hl); by right.
Qed.

(** The lock, the counters and the log are no part of the invariant. *)
Lemma heap_inv_lock h fl p l : heap_inv h fl p -> heap_inv (set_lock h l) fl p.
Proof. intros [? ? ? ? ? ? ? ?]; constructor; done. Qed.
Lemma heap_inv_stats h fl p x y z : heap_inv h fl p -> heap_inv (set_stats h x y z) fl p.
Proof. intros [? ? ? ? ? ? ? ?]; constructor; done. Qed.
Lemma heap_inv_log h fl p e : heap_inv h fl p -> heap_inv (log_write h e) fl p.
Proof. intros [? ? ? ? ? ? ? ?]; constructor; done. Qed.
End safety.
