(* ===== verification/KmallocTheorems.v ===== *)
(** * What the kernel heap guarantees

    The properties of [kernel/lib/kmalloc.c], for any page allocator that keeps
    its promise, and [Pmm] as such an allocator. *)
From stdpp Require Import base numbers list gmap relations.
From S2P Require Import Prelude Bitmap Pmm PmmBoot Kmalloc KmallocProofs.

(** ** Several CPUs

    Each CPU runs the sections of [kmalloc], [kfree] and [kmalloc_init] that
    hold the lock, and talks to the page allocator between them; the sections
    of different CPUs interleave in any order. *)
Section cpus.
Context {P : Type} `{PAO : PageAllocOk P}.

Record config := { c_heap : heap; c_pages : P; c_fly : gmap nat (Z * Z) }.

Inductive kstep : config -> config -> Prop :=
  | StTake h p fl idx size h' res :
      0 < size -> size + HDR <= 4096 -> idx = get_bucket_index (u64 (size + HDR)) ->
      take_block idx size h = Some (h', res) ->
      kstep (Build_config h p fl) (Build_config (km_stat_alloc size h') p fl)
  | StAlloc h p fl t n p' a :
      fl !! t = None -> 0 < n -> pa_alloc n p = (p', a) -> a <> 0 ->
      kstep (Build_config h p fl) (Build_config h p' (<[t := (a, n)]> fl))
  | StInstall h p fl t a :
      fl !! t = Some (a, KMALLOC_CHUNK_SIZE / 4096) ->
      kstep (Build_config h p fl) (Build_config (install_chunk a h) p (delete t fl))
  | StSeed h p fl t a :
      fl !! t = Some (a, (KMALLOC_CHUNK_SIZE + 4095) / 4096) -> heap_initialized h = false ->
      kstep (Build_config h p fl) (Build_config (seed_chunk a h) p (delete t fl))
  | StLarge h p fl t a n size :
      4096 < size + HDR < 2 ^ 64 - 4096 -> n = u64 (u64 (size + HDR) + 4095) / 4096 ->
      fl !! t = Some (a, n) ->
      kstep (Build_config h p fl)
        (Build_config (km_stat_alloc size (set_hdr h a (new_header size LARGE_IDX))) p (delete t fl))
  | StRelease h p fl blk h' :
      release_block blk h = (h', None) -> kstep (Build_config h p fl) (Build_config h' p fl)
  | StReleaseLarge h p fl t blk h' n :
      fl !! t = None -> release_block blk h = (h', Some n) ->
      kstep (Build_config h p fl) (Build_config h' p (<[t := (blk, n)]> fl))
  | StGive h p fl t a n p' :
      fl !! t = Some (a, n) -> pa_free a n p = Ret p' ->
      kstep (Build_config h p fl) (Build_config h p' (delete t fl)).

Definition config_inv (c : config) : Prop := heap_inv (c_heap c) (c_fly c) (c_pages c).

Lemma heap0_inv p : pa_valid p -> heap_inv heap0 ∅ p.
Proof.
  intros V; constructor; simpl; try done; try lia.
  - intros k1 k2 x H1 H2; destruct k1; simpl in H1; [by destruct H1 as (? & ? & _) | lia |].
    by destruct H1 as (? & ? & ? & _).
  - intros k x H1; destruct k; simpl in H1; [by destruct H1 as (? & ? & _) | lia |].
    by destruct H1 as (? & ? & ? & _).
  - intros i Hi; exists []; split; [| constructor].
    assert (i = 0 \/ i = 1 \/ i = 2 \/ i = 3 \/ i = 4 \/ i = 5 \/ i = 6 \/ i = 7 \/ i = 8) as Hc by lia.
    repeat destruct Hc as [-> | Hc]; try subst i; done.
Qed.

Lemma fits_index size :
  0 < size -> size + HDR <= 4096 -> fits (get_bucket_index (u64 (size + HDR))) size.
Proof.
  unfold HDR; intros Hs Hb; rewrite u64_small by lia.
  destruct (bucket_index_spec (size + 32)) as [[_ ?] | (Hi & Hf & _)]; [lia | done].
Qed.

Lemma kstep_inv c c' : kstep c c' -> config_inv c -> config_inv c'.
Proof.
  unfold config_inv; destruct 1; simpl; intros I.
  - subst idx; apply heap_inv_stats.
    destruct (take_block_inv h fl p _ size h' res I (fits_index size ltac:(done) ltac:(done)) ltac:(done)); done.
  - destruct (fly_alloc_inv h fl p n p' a t I) as [[-> _] | [_ ?]]; done.
  - by apply install_inv.
  - by apply seed_inv.
  - apply heap_inv_stats; eapply (large_inv h fl p a n t size); try done.
    subst n; unfold HDR in *; rewrite (u64_small (size + 32)), u64_small by lia; done.
  - set (t := fresh (dom fl)); assert (Ht : fl !! t = None) by (apply not_elem_of_dom, is_fresh).
    destruct (release_block_inv h fl p blk t I Ht)
      as [[_ E] | [(hd & _ & _ & _ & h2 & E & I' & _) | (hd & _ & _ & h2 & E & _)]]; congruence.
  - destruct (release_block_inv h fl p blk t I ltac:(done))
      as [[_ E] | [(hd & _ & _ & _ & h2 & E & _) | (hd & _ & _ & h2 & E & I' & _)]]; congruence.
  - destruct (fly_free_inv h fl p a n t I ltac:(done)) as (p2 & E & I'); congruence.
Qed.

(** [b] is the header of a block in use. *)
Definition live (h : heap) (b : Z) (hd : block_header) : Prop :=
  hdrs h !! b = Some hd /\ magic hd = BLOCK_MAGIC.

Lemma payload_inside b hd : block_at b hd -> magic hd = BLOCK_MAGIC -> HDR + hsize hd <= extent hd.
Proof.
  intros [[[(E & _ & Hs) _] | [Hi Hf]] _ _ _] Hm; unfold extent, HDR in *.
  - rewrite E, Z.eqb_refl; pose proof (Z.div_mod (hsize hd + 32 + 4095) 4096 ltac:(lia)).
    pose proof (Z.mod_pos_bound (hsize hd + 32 + 4095) 4096 ltac:(lia)); lia.
  - rewrite (proj2 (Z.eqb_neq _ LARGE_IDX)) by (unfold LARGE_IDX; lia); specialize (Hf Hm); lia.
Qed.

(** C3: however the CPUs' sections interleave, the heap never hands out the
    same byte twice: two blocks in use have disjoint memory, header and
    payload, no block in use overlaps the bump area or pages a CPU holds, and
    giving pages back to the page allocator never panics. *)
Theorem heap_blocks_disjoint p c :
  pa_valid p -> rtc kstep (Build_config heap0 p ∅) c ->
  (forall b1 b2 hd1 hd2, live (c_heap c) b1 hd1 -> live (c_heap c) b2 hd2 -> b1 <> b2 ->
     b1 + HDR + hsize hd1 <= b2 \/ b2 + HDR + hsize hd2 <= b1) /\
  (forall b hd x, live (c_heap c) b hd -> b <= x < b + HDR + hsize hd ->
     ~ heap_ptr (c_heap c) <= x < heap_end (c_heap c) /\
     forall t a n, c_fly c !! t = Some (a, n) -> ~ in_pages a n x) /\
  (forall t a n, c_fly c !! t = Some (a, n) -> exists p', pa_free a n (c_pages c) = Ret p').
Proof.
  intros V R; assert (I : config_inv c).
  { assert (I0 : config_inv (Build_config heap0 p ∅)) by (by apply heap0_inv).
    induction R as [| c1 c2 c3 S _ IH]; [done |]; apply IH; by eapply kstep_inv. }
  destruct c as [h q fl]; unfold config_inv in I; simpl in *.
  assert (Own : forall b hd x, live h b hd -> b <= x < b + HDR + hsize hd -> owns h fl (OBlk b) x).
  { intros b hd x [Hl Hm] Hx; exists hd.
    pose proof (payload_inside b hd (hi_blocks _ _ _ I b hd Hl ltac:(by left)) Hm).
    split_and!; [done | by left | lia | lia]. }
  split_and!.
  - intros b1 b2 hd1 hd2 L1 L2 Hne.
    assert (Hsz : 0 <= hsize hd1 /\ 0 <= hsize hd2).
    { destruct L1 as [L1 M1], L2 as [L2 M2].
      pose proof (ba_kind _ _ (hi_blocks _ _ _ I _ _ L1 ltac:(by left))) as [[(_ & _ & ?) _] | [_ K1]];
      pose proof (ba_kind _ _ (hi_blocks _ _ _ I _ _ L2 ltac:(by left))) as [[(_ & _ & ?) _] | [_ K2]];
      try specialize (K1 M1); try specialize (K2 M2); lia. }
    destruct (Z_le_gt_dec (b1 + HDR + hsize hd1) b2); [by left |].
    destruct (Z_le_gt_dec (b2 + HDR + hsize hd2) b1); [by right | exfalso].
    set (x := Z.max b1 b2); assert (b1 <= x < b1 + HDR + hsize hd1 /\ b2 <= x < b2 + HDR + hsize hd2) as [X1 X2]
      by (unfold x, HDR in *; lia).
    pose proof (hi_owner _ _ _ I _ _ x (Own _ _ _ L1 X1) (Own _ _ _ L2 X2)) as [= ?]; done.
  - intros b hd x L Hx; pose proof (Own _ _ _ L Hx) as O; split.
    + intros Hb; by pose proof (hi_owner _ _ _ I (OBlk b) OBump x O Hb).
    + intros t a n Hf Hin; assert (OBlk b = OFly t); [| done].
      eapply (hi_owner _ _ _ I); [exact O | by exists a, n].
  - intros t a n Hf; destruct (fly_free_inv h fl q a n t I Hf) as (p' & E & _); by exists p'.
Qed.
End cpus.

(** ** One call *)

Section calls.
Context {P : Type} `{PAO : PageAllocOk P}.

Lemma kmalloc_init_spec h p :
  heap_inv h ∅ p -> kmalloc_lock h = false ->
  exists h' p', kmalloc_init h p = KRet (h', p') /\ heap_inv h' ∅ p' /\
    kmalloc_lock h' = false /\ hdrs h' = hdrs h.
Proof.
  intros I L; unfold kmalloc_init, lock; rewrite L; simpl.
  destruct (heap_initialized h).
  { do 2 eexists; split_and!; [done | | done | done]; by do 2 apply heap_inv_lock. }
  change ((KMALLOC_CHUNK_SIZE + 4095) / 4096) with 1024; destruct (pa_alloc 1024 p) as [p' a] eqn:E.
  destruct (fly_alloc_inv h ∅ p 1024 p' a 0%nat I (lookup_empty _) ltac:(done) E) as [[-> ->] | [Ha I']].
  { do 2 eexists; split_and!; [done | | done | done]; by do 2 apply heap_inv_lock. }
  rewrite (proj2 (Z.eqb_neq a 0) Ha); do 2 eexists; split_and!; [done | | done | done].
  apply heap_inv_lock; rewrite <- (delete_insert_id (M := gmap nat) ∅ 0%nat (a, 1024)) by done.
  apply (seed_inv (set_lock h true)); [by apply heap_inv_lock | apply lookup_insert_eq].
Qed.

(** The three ways a round of the growth loop goes. *)
Lemma loop_take n idx size h p h' res :
  take_block idx size h = Some (h', res) -> kmalloc_loop (S n) idx size h p = Some (KRet (h', p, res)).
Proof. intros E; cbn [kmalloc_loop]; rewrite E; done. Qed.

Lemma take_block_none idx size h :
  take_block idx size h = None -> (znth 0 (buckets h) idx =? 0) = true /\ has_room idx h = false.
Proof.
  unfold take_block; destruct (znth 0 (buckets h) idx =? 0); [simpl | done].
  by destruct (has_room idx h).
Qed.

Lemma loop_fail n idx size h p p' :
  take_block idx size h = None -> pa_alloc (KMALLOC_CHUNK_SIZE / 4096) p = (p', 0) ->
  kmalloc_loop (S n) idx size h p = Some (KRet (set_lock (unlock h) true, p', 0)).
Proof.
  intros E Ep; destruct (take_block_none _ _ _ E) as [Ez Er].
  cbn [kmalloc_loop]; rewrite E, Ep; unfold lock; change (kmalloc_lock (unlock h)) with false; cbv iota.
  change (buckets (set_lock (unlock h) true)) with (buckets h).
  change (has_room idx (set_lock (unlock h) true)) with (has_room idx h); rewrite Ez, Er; done.
Qed.

Lemma loop_grow n idx size h p p' a :
  take_block idx size h = None -> pa_alloc (KMALLOC_CHUNK_SIZE / 4096) p = (p', a) -> a <> 0 ->
  kmalloc_loop (S n) idx size h p = kmalloc_loop n idx size (install_chunk a (set_lock (unlock h) true)) p'.
Proof.
  intros E Ep Ha; destruct (take_block_none _ _ _ E) as [Ez Er].
  cbn [kmalloc_loop]; rewrite E, Ep; unfold lock; change (kmalloc_lock (unlock h)) with false; cbv iota.
  change (has_room idx (set_lock (unlock h) true)) with (has_room idx h).
  rewrite (proj2 (Z.eqb_neq a 0) Ha), Er; done.
Qed.

(** A fresh chunk has room for any bucket. *)
Lemma install_room h a idx :
  0 <= idx < 9 -> 0 < a -> a + 4096 * 1024 < 2 ^ 64 - 4096 -> has_room idx (install_chunk a h) = true.
Proof.
  intros Hi Pos Top; pose proof (bucket_size_bound idx Hi) as [? _].
  unfold has_room, install_chunk, KMALLOC_CHUNK_SIZE; cbn [heap_ptr heap_end set_bump].
  rewrite !u64_small by lia; apply Z.leb_le; lia.
Qed.

(** The growth loop ends within three rounds, with a block or with the page
    allocator exhausted. *)
Lemma kmalloc_loop_spec idx size h p :
  heap_inv h ∅ p -> fits idx size -> kmalloc_lock h = true ->
  exists h' p' res, kmalloc_loop 3 idx size h p = Some (KRet (h', p', res)) /\ heap_inv h' ∅ p' /\
    kmalloc_lock h' = true /\
    ((res = 0 /\ h' = h /\ p' = p /\ take_block idx size h = None /\ pa_alloc (KMALLOC_CHUNK_SIZE / 4096) p = (p, 0)) \/
     (exists b, res = b + HDR /\ 0 < b /\ hdrs h' = <[b := new_header size idx]> (hdrs h) /\
        forall hd, hdrs h !! b = Some hd -> magic hd <> BLOCK_MAGIC)).
Proof.
  intros I Hf L; destruct (take_block idx size h) as [[h1 r1] |] eqn:E1.
  { rewrite (loop_take _ _ _ _ _ _ _ E1).
    destruct (take_block_inv _ _ _ _ _ _ _ I Hf E1) as (I1 & b & Hr & Hb & Hh & Hn & HL & _).
    exists h1, p, r1; split_and!; [done | done | congruence |]; right; by exists b. }
  destruct (pa_alloc (KMALLOC_CHUNK_SIZE / 4096) p) as [p' a] eqn:E.
  destruct (fly_alloc_inv h ∅ p _ p' a 0%nat I (lookup_empty _) (eq_refl : 0 < KMALLOC_CHUNK_SIZE / 4096) E)
    as [[-> ->] | [Ha I']].
  { rewrite (loop_fail _ _ _ _ _ _ E1 E); exists (set_lock (unlock h) true), p, 0.
    split_and!; [done | by do 2 apply heap_inv_lock | done | left; split_and!; try done; destruct h; simpl in *; by subst]. }
  rewrite (loop_grow _ _ _ _ _ _ _ E1 E Ha); set (h2 := install_chunk a _).
  destruct (hi_fly _ _ _ I' 0%nat _ _ (lookup_insert_eq _ _ _)) as (Pos & _ & _ & Top).
  assert (I2 : heap_inv h2 ∅ p').
  { rewrite <- (delete_insert_id (M := gmap nat) ∅ 0%nat (a, KMALLOC_CHUNK_SIZE / 4096)) by done.
    apply install_inv; [by do 2 apply heap_inv_lock | apply lookup_insert_eq]. }
  assert (exists h3 r3, take_block idx size h2 = Some (h3, r3)) as (h3 & r3 & E3).
  { assert (R : has_room idx h2 = true) by (apply install_room; [apply Hf | done | exact Top]).
    unfold take_block; rewrite R; destruct (negb _); eauto. }
  rewrite (loop_take _ _ _ _ _ _ _ E3).
  destruct (take_block_inv _ _ _ _ _ _ _ I2 Hf E3) as (I3 & b & Hr3 & Hb & Hh & Hn & HL & _).
  exists h3, p', r3; split_and!; [done | done | by rewrite HL |]; right; by exists b.
Qed.

(** No block for [size] bytes: the bucket's list is empty, the bump area has no
    room for a block of it, and the page allocator refuses a chunk; a request
    above the buckets, and the page allocator refuses its pages. *)
Definition refused (size : Z) (h : heap) (p : P) : Prop :=
  if size + HDR <=? 4096 then
    let idx := get_bucket_index (size + HDR) in
    znth 0 (buckets h) idx = 0 /\ has_room idx h = false /\ pa_alloc (KMALLOC_CHUNK_SIZE / 4096) p = (p, 0)
  else pa_alloc ((size + HDR + 4095) / 4096) p = (p, 0).

(** [kmalloc] returned NULL: nothing changed, but that a heap not seeded before
    may have been seeded, and the lock. *)
Definition failed (h h' : heap) (p p' : P) (size res : Z) : Prop :=
  res = 0 /\ hdrs h' = hdrs h /\ (heap_initialized h = true -> set_lock h' false = h /\ p' = p) /\
  (size = 0 \/ refused size h' p').

(** A successful [kmalloc]: the block is new, all other headers are kept. *)
Definition allocated (h h' : heap) (size res : Z) : Prop :=
  exists b idx, res = b + HDR /\ 0 < b /\ hdrs h' = <[b := new_header size idx]> (hdrs h) /\
    (forall hd, hdrs h !! b = Some hd -> magic hd <> BLOCK_MAGIC).

Lemma kmalloc_spec size flags h p :
  heap_inv h ∅ p -> kmalloc_lock h = false -> 0 <= size < 2 ^ 64 - 8192 ->
  exists h' p' res, kmalloc size flags h p = KRet (h', p', res) /\ heap_inv h' ∅ p' /\
    kmalloc_lock h' = (0 <? size) && (size + HDR <=? 4096) && (flags =? 0) /\
    (failed h h' p p' size res \/ allocated h h' size res).
Proof.
  intros I0 L0 Hs; unfold kmalloc.
  assert (exists h1 p1, (if heap_initialized h then KRet (h, p) else kmalloc_init h p) = KRet (h1, p1) /\
            heap_inv h1 ∅ p1 /\ kmalloc_lock h1 = false /\ hdrs h1 = hdrs h /\ (heap_initialized h = true -> h1 = h /\ p1 = p))
    as (h1 & p1 & -> & I & L & Hh & Hsame).
  { destruct (heap_initialized h); [by exists h, p |].
    destruct (kmalloc_init_spec h p I0 L0) as (h1 & p1 & ? & ? & ? & ?); by exists h1, p1. }
  cbv beta iota delta [kbind]; unfold allocated, failed; rewrite <- Hh; clear Hh I0 L0.
  assert (Hback : forall h', set_lock h' false = h1 -> heap_initialized h = true -> set_lock h' false = h /\ p1 = p)
    by (intros h' Eq Hi; destruct (Hsame Hi) as [<- <-]; done).
  destruct (Z.eqb_spec size 0) as [-> | Hnz].
  { exists h1, p1, 0; split_and!; [done | done | done |]; left; split_and!; [done | done | | by left].
    apply Hback; destruct h1; simpl in *; by subst. }
  rewrite (proj2 (Z.ltb_ge _ size)) by (unfold HDR; lia).
  rewrite (proj2 (Z.ltb_lt 0 size)) by lia.
  unfold lock; rewrite L; cbv iota.
  assert (Il : heap_inv (set_lock h1 true) ∅ p1) by (by apply heap_inv_lock).
  destruct (Z.leb_spec (size + HDR) 4096) as [Hle | Hgt].
  - pose proof (fits_index size ltac:(lia) Hle) as Hf; set (idx := get_bucket_index _) in *.
    rewrite (proj2 (Z.leb_le 0 idx)) by (unfold fits in Hf; lia).
    destruct (kmalloc_loop_spec idx size _ p1 Il Hf eq_refl) as (h2 & p2 & res & -> & I2 & L2 & Hres).
    eexists _, p2, res; split; [done |]; split.
    { destruct (flags =? 0), (res =? 0); simpl; try apply heap_inv_stats; try apply heap_inv_lock; done. }
    split; [destruct (flags =? 0), (res =? 0); simpl; done |].
    destruct Hres as [(-> & -> & -> & Ht & Hp) | (b & -> & Hb & Hh2 & Hn)].
    + left; split_and!; [done | destruct (flags =? 0); done | |].
      * apply Hback; destruct h1, (flags =? 0); simpl in *; by subst.
      * right; unfold refused; rewrite (proj2 (Z.leb_le (size + HDR) 4096)) by lia.
        destruct (take_block_none _ _ _ Ht) as [Hb Hr]; apply Z.eqb_eq in Hb.
        assert (Ei : idx = get_bucket_index (size + HDR)) by (unfold idx, HDR in *; by rewrite u64_small by lia).
        rewrite <- Ei; destruct (flags =? 0); done.
    + right; exists b, idx; split_and!; try done; destruct (flags =? 0), (b + HDR =? 0); done.
  - assert (Hx : get_bucket_index (u64 (size + HDR)) = -1).
    { unfold HDR in *; rewrite u64_small by lia.
      destruct (bucket_index_spec (size + 32)) as [[-> _] | (Hi & Hf & _)]; [done |].
      pose proof (bucket_size_bound _ Hi); lia. }
    rewrite Hx; cbv iota; change (0 <=? -1) with false; cbv iota.
    set (n := u64 (u64 (size + HDR) + 4095) / 4096).
    assert (En : n = (size + HDR + 4095) / 4096)
      by (unfold n, HDR in *; rewrite (u64_small (size + 32)), u64_small by lia; done).
    assert (Hn : 0 < n) by (rewrite En; unfold HDR in *; apply Z.div_str_pos; lia).
    destruct (pa_alloc n p1) as [p2 a] eqn:E.
    destruct (fly_alloc_inv h1 ∅ p1 n p2 a 0%nat I (lookup_empty _) Hn E) as [[-> ->] | [Ha I2]].
    + exists (unlock (set_lock h1 true)), p1, 0; split_and!; [done | by do 2 apply heap_inv_lock | done |].
      left; split_and!; [done | done | apply Hback; destruct h1; simpl in *; by subst |].
      right; unfold refused; rewrite (proj2 (Z.leb_gt (size + HDR) 4096)) by lia; by rewrite <- En.
    + rewrite (proj2 (Z.eqb_neq a 0) Ha).
      destruct (hi_fly _ _ _ I2 0%nat a n (lookup_insert_eq _ _ _)) as (Pos & _ & _ & Top).
      destruct (large_inv h1 (<[0%nat := (a, n)]> ∅) p2 a n 0%nat size I2 (lookup_insert_eq _ _ _))
        as [I3 Hnb]; [unfold HDR in *; lia | done |].
      rewrite delete_insert_id in I3 by done.
      do 3 eexists; split; [done |]; split; [apply heap_inv_stats; exact (heap_inv_lock _ _ _ false I3) |].
      split; [done |]; right; exists a, LARGE_IDX; split_and!; [apply u64_small; unfold HDR; lia | done | done |].
      intros hd Hl Hm; apply (Hnb hd Hl); by left.
Qed.

Lemma kfree_spec ptr h p :
  heap_inv h ∅ p -> kmalloc_lock h = false -> ptr <> 0 ->
  let blk := u64 (ptr - HDR) in
  exists h' p', kfree ptr h p = KRet (h', p') /\ heap_inv h' ∅ p' /\ kmalloc_lock h' = false /\
    if magic (header_at h blk) =? BLOCK_MAGIC
    then exists hd', magic hd' <> BLOCK_MAGIC /\ hdrs h' = <[blk := hd']> (hdrs h)
    else h' = h /\ p' = p.
Proof.
  intros I L Hp blk; unfold kfree; rewrite (proj2 (Z.eqb_neq ptr 0) Hp); fold blk; unfold lock; rewrite L.
  cbv beta iota delta [kbind].
  assert (Il : heap_inv (set_lock h true) ∅ p) by (by apply heap_inv_lock).
  change (header_at h blk) with (header_at (set_lock h true) blk).
  destruct (release_block_inv _ ∅ p blk 0%nat Il (lookup_empty _))
    as [[Hm ->] | [(hd & Hl & Hm & _ & h2 & -> & I2 & L2 & Hh) | (hd & Hl & Hw & h2 & -> & I2 & L2 & Hh)]].
  - exists (unlock (set_lock h true)), p; rewrite (proj2 (Z.eqb_neq _ BLOCK_MAGIC) Hm).
    split_and!; [done | by apply heap_inv_lock | done | | done].
    destruct h; simpl in *; subst; done.
  - exists (unlock h2), p; unfold header_at; rewrite Hl; simpl; rewrite Hm, Z.eqb_refl.
    split_and!; [done | by apply heap_inv_lock | done |].
    eexists; split; [| exact Hh]; done.
  - destruct (fly_free_inv h2 _ p blk (extent hd / 4096) 0%nat I2 (lookup_insert_eq _ _ _)) as (p2 & -> & I3).
    rewrite delete_insert_id in I3 by done; pose proof Hw as (_ & Hm & _).
    exists (unlock h2), p2; unfold header_at; rewrite Hl; simpl; rewrite Hm, Z.eqb_refl.
    split_and!; [done | by apply heap_inv_lock | done |].
    eexists; split; [| exact Hh]; done.
Qed.

Lemma release_block_log blk h : km_log (release_block blk h).1 = km_log h.
Proof. unfold release_block; repeat case_match; done. Qed.

Lemma kfree_log ptr h p h' p' : kfree ptr h p = KRet (h', p') -> km_log h' = km_log h.
Proof.
  unfold kfree, lock; intros E; case_match; [by injection E as <- <- |].
  destruct (kmalloc_lock h); [done |]; cbv beta iota delta [kbind] in E.
  pose proof (release_block_log (u64 (ptr - HDR)) (set_lock h true)) as Lg.
  destruct (release_block (u64 (ptr - HDR)) (set_lock h true)) as [h2 [n |]]; simpl in Lg.
  - destruct (pa_free _ _ _); [injection E as <- <- | done]; done.
  - injection E as <- <-; done.
Qed.

(** ** Properties of the calls *)

(** C2: [kmalloc] of less than 2^64 - 8192 bytes never loops or panics.  It returns NULL only for size 0 or
    when the request cannot be met: for a small request the free list of its
    bucket is empty, the bump area has no room for a block of that bucket and the
    page allocator refuses the chunk of 1024 pages; for a large one the page
    allocator refuses exactly the pages asked for.  It then changes no block, and
    on a heap that was seeded nothing but the lock.  Otherwise it returns a block
    that was not in use, with its header filled in, and leaves every other block
    alone.  On return the lock is free,
    except that the small path leaves it taken when the saved interrupt state
    is 0. *)
Theorem kmalloc_returns_new_block size flags h p :
  heap_inv h ∅ p -> kmalloc_lock h = false -> 0 <= size < 2 ^ 64 - 8192 ->
  exists h' p' res, kmalloc size flags h p = KRet (h', p', res) /\ heap_inv h' ∅ p' /\
    kmalloc_lock h' = (0 <? size) && (size + HDR <=? 4096) && (flags =? 0) /\
    (failed h h' p p' size res \/ allocated h h' size res).
Proof. apply kmalloc_spec. Qed.

(** [kfree] of a block in use ends its use, and touches no other block; a
    second [kfree] of the same pointer, like one of a pointer that is no block
    in use, changes nothing at all. *)
Theorem kfree_once ptr h p :
  heap_inv h ∅ p -> kmalloc_lock h = false -> ptr <> 0 ->
  exists h' p', kfree ptr h p = KRet (h', p') /\ heap_inv h' ∅ p' /\ kmalloc_lock h' = false /\
    (forall b, b <> u64 (ptr - HDR) -> hdrs h' !! b = hdrs h !! b) /\
    magic (header_at h' (u64 (ptr - HDR))) <> BLOCK_MAGIC /\
    (magic (header_at h (u64 (ptr - HDR))) <> BLOCK_MAGIC -> h' = h /\ p' = p) /\
    kfree ptr h' p' = KRet (h', p').
Proof.
  intros I L Hp; destruct (kfree_spec ptr h p I L Hp) as (h' & p' & E & I' & L' & Hk); cbv zeta in *.
  set (blk := u64 (ptr - HDR)) in *; exists h', p'.
  assert (Hm' : magic (header_at h' blk) <> BLOCK_MAGIC).
  { destruct (Z.eqb_spec (magic (header_at h blk)) BLOCK_MAGIC) as [_ | Hm]; [| by destruct Hk as [-> _]].
    destruct Hk as (hd' & Hm & Hh); unfold header_at; rewrite Hh, lookup_insert_eq; done. }
  split_and!; try done.
  - intros b Hb; destruct (_ =? BLOCK_MAGIC); [| by destruct Hk as [-> _]].
    destruct Hk as (hd' & _ & ->); by rewrite lookup_insert_ne.
  - intros Hm; rewrite (proj2 (Z.eqb_neq _ BLOCK_MAGIC) Hm) in Hk; done.
  - destruct (kfree_spec ptr h' p' I' L' Hp) as (h2 & p2 & E2 & _ & _ & H2); cbv zeta in H2; fold blk in H2.
    rewrite (proj2 (Z.eqb_neq _ BLOCK_MAGIC) Hm') in H2; destruct H2 as [-> ->]; done.
Qed.

(** [krealloc] of a block in use either fails and keeps the block as it
    is, or returns a new block of the new size, has copied the smaller of the
    two sizes out of the old one, and has freed the old one. *)
Theorem krealloc_moves ptr new_size flags h p hd :
  heap_inv h ∅ p -> kmalloc_lock h = false -> ptr <> 0 -> 0 < new_size < 2 ^ 64 - 8192 -> flags <> 0 ->
  live h (u64 (ptr - HDR)) hd ->
  exists h' p' res, krealloc ptr new_size flags h p = KRet (h', p', res) /\ heap_inv h' ∅ p' /\
    kmalloc_lock h' = false /\
    ((res = 0 /\ hdrs h' = hdrs h) \/
     (exists b idx, res = b + HDR /\ b <> u64 (ptr - HDR) /\
        hdrs h' !! b = Some (new_header new_size idx) /\
        magic (header_at h' (u64 (ptr - HDR))) <> BLOCK_MAGIC /\
        (forall x, x <> b -> x <> u64 (ptr - HDR) -> hdrs h' !! x = hdrs h !! x) /\
        exists old, km_log h' = (res, Z.min (hsize hd) new_size, Some ptr) :: old)).
Proof.
  intros I L Hp Hs Hfl [Hl Hm]; set (blk := u64 (ptr - HDR)) in *; unfold krealloc.
  rewrite (proj2 (Z.eqb_neq ptr 0) Hp), (proj2 (Z.eqb_neq new_size 0)) by lia.
  unfold lock; rewrite L; cbv beta iota delta [kbind]; fold blk.
  change (header_at (set_lock h true) blk) with (header_at h blk).
  assert (Eh : header_at h blk = hd) by (unfold header_at; by rewrite Hl).
  rewrite Eh, Hm, Z.eqb_refl; cbn [negb].
  set (h0 := unlock (set_lock h true)).
  destruct (kmalloc_spec new_size flags h0 p) as (h1 & p1 & r & -> & I1 & L1 & Hr);
    [by do 2 apply heap_inv_lock | done | lia |].
  rewrite (proj2 (Z.eqb_neq flags 0) Hfl), andb_false_r in L1.
  destruct Hr as [(-> & Hh & _ & _) | (b & idx & -> & Hb & Hh & Hn)].
  { exists h1, p1, 0; split_and!; [done | done | done | by left]. }
  change (hdrs h0) with (hdrs h) in *; assert (Hne : b <> blk) by (intros ->; by apply (Hn hd)).
  rewrite (proj2 (Z.eqb_neq (b + HDR) 0)) by (unfold HDR; lia).
  replace (if hsize hd <? new_size then hsize hd else new_size) with (Z.min (hsize hd) new_size) by (case_if; lia).
  set (h1' := log_write h1 (b + HDR, Z.min (hsize hd) new_size, Some ptr)).
  destruct (kfree_spec ptr h1' p1) as (h2 & p2 & E & I2 & L2 & Hk); [by apply heap_inv_log | done | done |].
  cbv zeta in Hk; fold blk in Hk; assert (Hl1 : hdrs h1' !! blk = Some hd)
    by (change (hdrs h1') with (hdrs h1); rewrite Hh, lookup_insert_ne; done).
  assert (Eh1 : header_at h1' blk = hd) by (unfold header_at; by rewrite Hl1).
  rewrite Eh1, Hm, Z.eqb_refl in Hk.
  destruct Hk as (hd' & Hm' & Hh2); change (hdrs h1') with (hdrs h1) in Hh2; rewrite Hh in Hh2.
  pose proof (kfree_log _ _ _ _ _ E) as Lg; rewrite E; exists h2, p2, (b + HDR).
  split_and!; try done; right; exists b, idx; unfold header_at; rewrite Hh2.
  split_and!; try done; [by rewrite lookup_insert_ne, lookup_insert_eq | by rewrite lookup_insert_eq | | by exists (km_log h1)].
  intros x Hx1 Hx2; rewrite !lookup_insert_ne; done.
Qed.
End calls.

(** the bucket [kmalloc] serves a request from is the smallest of the nine
    that holds the request and its header; a request is large exactly when none
    does. *)
Theorem bucket_smallest size :
  let i := get_bucket_index size in
  (i = -1 /\ 4096 < size) \/
  (0 <= i < NUM_BUCKETS /\ size <= get_bucket_size i /\ forall j, 0 <= j < i -> get_bucket_size j < size).
Proof. apply bucket_index_spec. Qed.

(** ** [Pmm] keeps the promise *)

Section pmm_pages.
Context {A : Arch} {HA : ArchOk A}.

Definition pmm_held (s : pmm) (a : Z) : Prop :=
  exists q, 0 <= q < total_pages s /\ frame_free s q = false /\ frame s q = page_alloc /\
    in_pages (page_va q) 1 a.

(** The page allocator, at clock value [ticks]. *)
Definition pmm_page_alloc (ticks : Z) : PageAlloc pmm :=
  {| pa_alloc n s := pmm_alloc_pages n ticks s;
     pa_free b n s := pmm_free_pages b n s;
     pa_valid := pmm_wf;
     pa_held := pmm_held |}.

(** The bytes of [n] frames from [q] on. *)
Lemma pages_of_frames q n a : 0 <= q -> 0 <= n -> q + n <= 2 ^ 27 ->
  in_pages (page_va q) n a <-> exists p, q <= p < q + n /\ in_pages (page_va p) 1 a.
Proof.
  intros Hq Hn Hb; unfold in_pages; rewrite page_va_eq by lia; split.
  - intros Ha; set (d := a - (KERNEL_VIRT_BASE + MEMORY_BASE + 4096 * q)).
    pose proof (Z.div_mod d 4096 ltac:(lia)); pose proof (Z.mod_pos_bound d 4096 ltac:(lia)).
    exists (q + d / 4096); rewrite page_va_eq by (unfold d in *; lia); unfold d in *; lia.
  - intros (p & Hp & Ha); rewrite page_va_eq in Ha by lia; lia.
Qed.

Lemma page_unique p q a : 0 <= p <= 2 ^ 27 -> 0 <= q <= 2 ^ 27 ->
  in_pages (page_va p) 1 a -> in_pages (page_va q) 1 a -> p = q.
Proof. unfold in_pages; intros Hp Hq; rewrite !page_va_eq by lia; lia. Qed.

(** What [pmm_alloc_pages] returned, whatever the count. *)
Lemma alloc_pages_took n ticks s s' b :
  pmm_wf s -> 0 < n -> pmm_alloc_pages n ticks s = (s', b) ->
  (b = 0 /\ s' = s) \/
  (exists q, 0 <= q /\ q + n <= total_pages s /\ b = page_va q /\ took s s' q n page_alloc).
Proof.
  intros W Hn E; destruct (Z.eq_dec n 1) as [-> |].
  - destruct (pmm_alloc_one_spec false ticks s s' b W E) as [(-> & -> & _) | (q & Hq & -> & T & _)]; [by left |].
    right; exists q; split_and!; done || lia.
  - destruct (alloc_many_spec n false ticks s s' b W ltac:(lia) E)
      as [(-> & -> & _) | (q & Hq & Hqe & -> & T & _)]; [by left |].
    pose proof (zone_range s ZONE_NORMAL W); simpl in *; right; exists q; split_and!; done || lia.
Qed.

Lemma pmm_page_alloc_ok ticks : @PageAllocOk pmm (pmm_page_alloc ticks).
Proof.
  constructor; simpl.
  - intros s n s' W Hn E; destruct (alloc_pages_took _ _ _ _ _ W Hn E) as [[_ ->] | (q & ? & ? & Hz & _)]; [done |].
    pose proof (total_bound s W); exfalso; symmetry in Hz; revert Hz; apply page_va_nonzero; lia.
  - intros s n s' b W Hn E Hb; pose proof (total_bound s W) as T0; pose proof arch_base; pose proof arch_virt.
    destruct (alloc_pages_took _ _ _ _ _ W Hn E) as [[-> _] | (q & Hq & Hqn & -> & [W' T' _ _ Bf Fr Pg])]; [done |].
    split_and!; [done | apply page_va_aligned; lia | | | |].
    + rewrite page_va_eq by lia; pose proof arch_virt_pos; lia.
    + rewrite page_va_eq by lia; lia.
    + intros a Ha (p & Hp & Hf & _ & Hpa); apply pages_of_frames in Ha as (p' & Hp' & Ha); try lia.
      assert (p = p') as -> by (apply (page_unique p p' a); done || lia); rewrite Bf in Hf by lia; done.
    + intros a; rewrite pages_of_frames by lia; unfold pmm_held; rewrite T'; split.
      * intros (p & Hp & Hf & Ha & Hpa); rewrite Fr in Hf by lia; rewrite Pg in Ha.
        destruct (in_range q n p) eqn:Hi.
        -- right; exists p; split; [apply in_range_spec in Hi; done | done].
        -- rewrite andb_true_r in Hf; left; by exists p.
      * intros [(p & Hp & Hf & Ha & Hpa) | (p & Hp & Hpa)]; exists p; rewrite Fr, Pg by lia.
        -- assert (in_range q n p = false) as ->; [| by rewrite andb_true_r].
           apply not_true_iff_false; intros Hi%in_range_spec; rewrite Bf in Hf by lia; done.
        -- rewrite (proj2 (in_range_spec q n p) Hp), andb_false_r; split_and!; done || lia.
  - intros s n b W Hn Al Hheld; pose proof (total_bound s W).
    destruct (Z.eq_dec n 0) as [-> |].
    { exists s; split_and!; [done | done |]; intros a; unfold in_pages; split; [intros; split; [done | lia] | tauto]. }
    destruct (Hheld b) as (q & Hq & _ & _ & Hqb); [unfold in_pages; lia |].
    assert (Eb : b = page_va q).
    { pose proof (page_va_aligned q ltac:(lia)) as Aq; unfold in_pages in Hqb.
      pose proof (Z.div_mod b 4096 ltac:(lia)); pose proof (Z.div_mod (page_va q) 4096 ltac:(lia)); lia. }
    subst b; clear Hqb.
    assert (Hall : forall p, q <= p < q + n -> p < total_pages s /\ frame_free s p = false /\ frame s p = page_alloc).
    { intros p Hp. destruct (Hheld (page_va q + 4096 * (p - q))) as (p' & Hp' & Hf & Ha & Hin); [unfold in_pages; lia |].
      assert (p = p') as ->; [| split_and!; done || lia].
      unfold in_pages in Hin; rewrite !page_va_eq in Hin by lia; lia. }
    pose proof (Hall (q + n - 1) ltac:(lia)) as [Htop _].
    destruct (free_pages_release s q n W) as (s' & E & [W' T' _ _ Fr Pg]); try lia; [intros; apply Hall; done |].
    exists s'; split_and!; [done | done |]; intros a; rewrite pages_of_frames by lia; unfold pmm_held; rewrite T'; split.
    + intros (p & Hp & Hf & Ha & Hpa); rewrite Fr in Hf by lia; rewrite Pg in Ha.
      destruct (in_range q n p) eqn:Hi; [by rewrite orb_true_r in Hf |]; rewrite orb_false_r in Hf.
      split; [by exists p |]; intros (p' & Hp' & Hpa').
      assert (p = p') as -> by (apply (page_unique p p' a); done || lia); apply in_range_false in Hi; lia.
    + intros [(p & Hp & Hf & Ha & Hpa) Hno]; exists p; rewrite Fr, Pg by lia.
      assert (in_range q n p = false) as ->; [| by rewrite orb_false_r].
      apply not_true_iff_false; intros Hi%in_range_spec; apply Hno; by exists p.
Qed.
End pmm_pages.

(** the physical memory manager implements the interface the heap is
    verified against: allocation hands out pages nobody holds, freeing held
    pages succeeds and releases exactly those. *)
Theorem pmm_implements_pages (A : Arch) (HA : ArchOk A) ticks : @PageAllocOk pmm (pmm_page_alloc ticks).
Proof. apply pmm_page_alloc_ok. Qed.

(** ** A heap on 32 MiB of free memory *)

Definition free32 : pmm :=
  fresh_zones (A := aarch64)
    {| page_array := replicate (Z.to_nat 8192) page0; page_array_va := 1; zone_dma := zone0;
       zone_normal := zone0; total_pages := 8192; free_pages := 0; usable_pages := 8192;
       pmm_metadata_end_phys := 0; stat_alloc_calls := 0; stat_free_calls := 0;
       stat_ticks_total := 0; stat_ticks_max := 0; mem_log := [] |}.

Lemma free32_wf : pmm_wf free32.
Proof. apply (fresh_zones_ok (A := aarch64)); [simpl; lia | done]. Qed.

#[export] Instance pages32 : PageAlloc pmm := pmm_page_alloc (A := aarch64) 0.
#[export] Instance pages32_ok : PageAllocOk pmm.
Proof. exact (pmm_page_alloc_ok (A := aarch64) 0). Qed.

Lemma heap32_inv : heap_inv heap0 ∅ free32.
Proof. apply heap0_inv, free32_wf. Qed.

Lemma pmm_implements_pages_witness : pa_valid free32 /\ PageAllocOk pmm.
Proof. split; [exact free32_wf | exact (pmm_implements_pages aarch64 aarch64_ok 0)]. Defined.

Lemma kmalloc_returns_new_block_witness :
  exists h' p', kmalloc 100 1 heap0 free32 = KRet (h', p', 0xFFFF000041000020) /\ heap_inv h' ∅ p' /\
    kmalloc_lock h' = false.
Proof.
  destruct (kmalloc_returns_new_block 100 1 heap0 free32 heap32_inv eq_refl ltac:(lia))
    as (h' & p' & r & E & I & L & _).
  assert (E' : match kmalloc 100 1 heap0 free32 with KRet (_, _, r) => r | _ => 0 end = 0xFFFF000041000020)
    by (vm_compute; reflexivity).
  rewrite E in E'; subst r; exists h', p'; split; [exact E | split; [exact I | exact L]].
Defined.

(** One block of 100 bytes in use. *)
Definition heap1 : heap * pmm :=
  match kmalloc 100 1 heap0 free32 with KRet (h, p, _) => (h, p) | _ => (heap0, free32) end.

Lemma heap1_inv : heap_inv heap1.1 ∅ heap1.2 /\ kmalloc_lock heap1.1 = false.
Proof.
  unfold heap1; destruct (kmalloc_spec 100 1 heap0 free32 heap32_inv eq_refl ltac:(lia))
    as (h' & p' & r & -> & I & L & _); done.
Qed.

Lemma heap1_live : live heap1.1 0xFFFF000041000000 (new_header 100 4).
Proof. split; vm_compute; reflexivity. Qed.

Lemma kfree_once_witness :
  exists h' p', kfree 0xFFFF000041000020 heap1.1 heap1.2 = KRet (h', p') /\
    kfree 0xFFFF000041000020 h' p' = KRet (h', p').
Proof.
  destruct heap1_inv as [I L].
  destruct (kfree_once 0xFFFF000041000020 heap1.1 heap1.2 I L ltac:(discriminate))
    as (h' & p' & E & _ & _ & _ & _ & _ & E2).
  exists h', p'; split; [exact E | exact E2].
Defined.

Lemma krealloc_moves_witness :
  exists h' p' res, krealloc 0xFFFF000041000020 300 1 heap1.1 heap1.2 = KRet (h', p', res) /\
    heap_inv h' ∅ p'.
Proof.
  destruct heap1_inv as [I L].
  destruct (krealloc_moves 0xFFFF000041000020 300 1 heap1.1 heap1.2 (new_header 100 4) I L
              ltac:(discriminate) ltac:(lia) ltac:(discriminate) heap1_live)
    as (h' & p' & res & E & I' & _).
  exists h', p', res; split; [exact E | exact I'].
Defined.

Lemma heap_blocks_disjoint_witness :
  exists c, rtc kstep (Build_config heap0 free32 ∅) c /\ c_fly c = {[ 0%nat := (0xFFFF000041000000, 2) ]} /\
    exists p', pa_free 0xFFFF000041000000 2 (c_pages c) = Ret p'.
Proof.
  set (p' := (pmm_alloc_pages (A := aarch64) 2 0 free32).1).
  set (c := Build_config heap0 p' (<[0%nat := (0xFFFF000041000000, 2)]> ∅)).
  assert (R : rtc kstep (Build_config heap0 free32 ∅) c).
  { apply rtc_once; unfold c; apply (StAlloc heap0 free32 ∅ 0%nat 2 p' 0xFFFF000041000000).
    - reflexivity.
    - lia.
    - unfold p', pa_alloc, pages32, pmm_page_alloc.
      rewrite (surjective_pairing (pmm_alloc_pages 2 0 free32)) at 1; f_equal; vm_compute; reflexivity.
    - discriminate. }
  exists c; split; [exact R | split; [reflexivity |]].
  destruct (heap_blocks_disjoint free32 c (hi_valid _ _ _ heap32_inv) R) as (_ & _ & H).
  apply (H 0%nat); reflexivity.
Defined.
