(* ===== verification/Region.v ===== *)
(** * Regions of the screen

    [kernel/graphics/region.c]: a region is a list of at most 256 rectangles;
    the compositor uses it to work out what of a window is visible.  The
    meaning of a region is the set of its points. *)
From stdpp Require Import base numbers list.
From S2P Require Import Prelude.

(** ** Data *)

Record rect := { rx : Z; ry : Z; rw : Z; rh : Z }.

(** The first [count] entries of the array, and the array's capacity. *)
Record region := { rects : list rect; capacity : Z }.

Definition count (reg : region) : Z := zlen (rects reg).

Definition MAX_RECTS_PER_REGION : Z := 256.

(** [r.x + r.w] and [r.y + r.h] as C computes them. *)
Definition right (r : rect) : Z := i32 (rx r + rw r).
Definition bottom (r : rect) : Z := i32 (ry r + rh r).

(** ** Operations

    The booleans say whether each [kmalloc] the call makes succeeds. *)

Definition region_create (ok_struct ok_rects : bool) : option region :=
  if ok_struct && ok_rects then Some {| rects := []; capacity := 8 |} else None.

Definition region_scratch_reset : region := {| rects := []; capacity := MAX_RECTS_PER_REGION |}.

Definition region_copy_into (ok : bool) (dst src : region) : region :=
  if capacity dst <? count src then
    if ok then {| rects := rects src; capacity := count src |} else dst
  else {| rects := rects src; capacity := capacity dst |}.

(** [a] covers [b]. *)
Definition covers (a b : rect) : bool :=
  (rx a <=? rx b) && (ry a <=? ry b) && (right b <=? right a) && (bottom b <=? bottom a).

Definition region_add_rect (ok : bool) (reg : region) (x y w h : Z) : region :=
  if (w <=? 0) || (h <=? 0) then reg
  else
    let n := {| rx := x; ry := y; rw := w; rh := h |} in
    if existsb (fun r => covers r n) (rects reg) then reg
    else
      let kept := List.filter (fun r => negb (covers n r)) (rects reg) in
      let reg := {| rects := kept; capacity := capacity reg |} in
      if MAX_RECTS_PER_REGION <=? count reg then reg
      else if capacity reg <=? count reg then
        let new_cap := i32 (capacity reg * 2) in
        let new_cap := if MAX_RECTS_PER_REGION <? new_cap then MAX_RECTS_PER_REGION else new_cap in
        if ok then {| rects := kept ++ [n]; capacity := new_cap |} else reg
      else {| rects := kept ++ [n]; capacity := capacity reg |}.

(** The overlap of [r] with [s], by corner and (possibly non-positive) size. *)
Definition overlap (r s : rect) : rect :=
  let ix := if rx s <? rx r then rx r else rx s in
  let iy := if ry s <? ry r then ry r else ry s in
  let iw := if right r <? right s then right r else right s in
  let ih := if bottom r <? bottom s then bottom r else bottom s in
  {| rx := ix; ry := iy; rw := i32 (iw - ix); rh := i32 (ih - iy) |}.

(** The scratch region never grows: its array has all 256 slots. *)
Definition add (new_reg : region) (x y w h : Z) : region := region_add_rect false new_reg x y w h.

(** What one rectangle of the region contributes to the difference. *)
Definition subtract_one (sub : rect) (new_reg : region) (r : rect) : region :=
  let i := overlap r sub in
  if (rw i <=? 0) || (rh i <=? 0) then add new_reg (rx r) (ry r) (rw r) (rh r)
  else
    let new_reg := if ry r <? ry i then add new_reg (rx r) (ry r) (rw r) (i32 (ry i - ry r)) else new_reg in
    let new_reg := if bottom i <? bottom r
                   then add new_reg (rx r) (bottom i) (rw r) (i32 (bottom r - bottom i)) else new_reg in
    let new_reg := if rx r <? rx i then add new_reg (rx r) (ry i) (i32 (rx i - rx r)) (rh i) else new_reg in
    if right i <? right r then add new_reg (right i) (ry i) (i32 (right r - right i)) (rh i) else new_reg.

Definition region_subtract (ok : bool) (reg : region) (x y w h : Z) : region :=
  let sub := {| rx := x; ry := y; rw := w; rh := h |} in
  if (w <=? 0) || (h <=? 0) then reg
  else region_copy_into ok reg (foldl (subtract_one sub) region_scratch_reset (rects reg)).

Definition intersect_one (clip : rect) (new_reg : region) (r : rect) : region :=
  let i := overlap r clip in
  if (0 <? rw i) && (0 <? rh i) then add new_reg (rx i) (ry i) (rw i) (rh i) else new_reg.

Definition region_intersect_rect (ok : bool) (reg : region) (x y w h : Z) : region :=
  let clip := {| rx := x; ry := y; rw := w; rh := h |} in
  region_copy_into ok reg (foldl (intersect_one clip) region_scratch_reset (rects reg)).

Definition region_clear (reg : region) : region := {| rects := []; capacity := capacity reg |}.

(** ** Meaning *)

Definition point : Type := Z * Z.

Definition in_rect (r : rect) (p : point) : Prop :=
  rx r <= p.1 < rx r + rw r /\ ry r <= p.2 < ry r + rh r.

Definition in_region (reg : region) (p : point) : Prop := exists r, r ∈ rects reg /\ in_rect r p.

(** Coordinates on which the code's [int] arithmetic does not overflow. *)
Definition rect_ok (r : rect) : Prop :=
  - 2 ^ 29 <= rx r <= 2 ^ 29 /\ - 2 ^ 29 <= ry r <= 2 ^ 29 /\
  0 < rw r /\ rx r + rw r <= 2 ^ 29 /\ 0 < rh r /\ ry r + rh r <= 2 ^ 29.

Record region_ok (reg : region) : Prop := {
  rg_rects : Forall rect_ok (rects reg);
  rg_count : count reg <= capacity reg;
  rg_capacity : 0 < capacity reg <= MAX_RECTS_PER_REGION }.

Lemma right_eq r : rect_ok r -> right r = rx r + rw r.
Proof. intros (? & ? & ? & ? & ? & ?); unfold right; apply i32_small; lia. Qed.
Lemma bottom_eq r : rect_ok r -> bottom r = ry r + rh r.
Proof. intros (? & ? & ? & ? & ? & ?); unfold bottom; apply i32_small; lia. Qed.

Lemma covers_sub a b : rect_ok a -> rect_ok b -> covers a b = true -> forall p, in_rect b p -> in_rect a p.
Proof.
  intros Ha Hb; unfold covers, in_rect; rewrite !right_eq, !bottom_eq by done; intros Hc p Hp; zbool; lia.
Qed.

Definition region_le (a b : region) : Prop := forall p, in_region a p -> in_region b p.

Lemma in_region_app l r c p :
  in_region {| rects := l ++ [r]; capacity := c |} p <-> in_region {| rects := l; capacity := c |} p \/ in_rect r p.
Proof.
  unfold in_region; simpl; split.
  - intros (r' & [H | ->%list_elem_of_singleton]%elem_of_app & Hp); [left; by exists r' | by right].
  - intros [(r' & H & Hp) | Hp]; [exists r' | exists r]; split; try done; apply elem_of_app;
      [by left | right; by apply list_elem_of_singleton].
Qed.

Lemma elem_of_filter_iff {B} (f : B -> bool) l x : x ∈ List.filter f l <-> x ∈ l /\ f x = true.
Proof. rewrite !list_elem_of_In; apply List.filter_In. Qed.

Lemma filter_all {B} (f : B -> bool) l : length (List.filter f l) = length l -> List.filter f l = l.
Proof.
  induction l as [| x l IH]; simpl; [done |].
  pose proof (List.filter_length_le f l); destruct (f x); simpl; intros E; [f_equal; apply IH; lia | lia].
Qed.

(** The rectangle is added in full, or the region is left as it is: absorbing
    a rectangle makes room for the new one. *)
Lemma add_rect_spec ok reg x y w h :
  let n := {| rx := x; ry := y; rw := w; rh := h |} in
  region_ok reg -> rect_ok n ->
  let reg' := region_add_rect ok reg x y w h in
  region_ok reg' /\
  (forall p, in_region reg' p -> in_region reg p \/ in_rect n p) /\
  count reg' <= count reg + 1 /\
  (forall p, in_region reg p -> in_region reg' p) /\
  (count reg < MAX_RECTS_PER_REGION -> count reg < capacity reg \/ ok = true ->
   forall p, in_region reg p \/ in_rect n p -> in_region reg' p).
Proof.
  intros n Hr Hn reg'; unfold reg', region_add_rect; fold n; clear reg'.
  pose proof Hn as (_ & _ & Hw & _ & Hh & _); simpl in Hw, Hh.
  rewrite (proj2 (Z.leb_gt w 0)), (proj2 (Z.leb_gt h 0)) by lia; simpl.
  pose proof Hr as [Hrs Hc Hcap].
  destruct (existsb _ (rects reg)) eqn:Hex.
  { apply existsb_exists in Hex as (r & Hin & Hcv); apply list_elem_of_In in Hin.
    pose proof (proj1 (Forall_forall _ _) Hrs r Hin) as Hrr.
    split_and!; [done | auto | lia | auto |]; intros _ _ p [Hp | Hp]; [done |].
    exists r; split; [done | by apply (covers_sub r n)]. }
  set (kept := List.filter _ _).
  assert (Hk : forall r, r ∈ kept <-> r ∈ rects reg /\ covers n r = false).
  { intros r; unfold kept; rewrite elem_of_filter_iff, negb_true_iff; done. }
  assert (Hkl : zlen kept <= count reg).
  { unfold zlen, count, kept; pose proof (List.filter_length_le (fun r => negb (covers n r)) (rects reg)).
    unfold zlen; lia. }
  assert (Hkok : Forall rect_ok kept).
  { apply Forall_forall; intros r Hin; apply Hk in Hin as [Hin _]; by apply (proj1 (Forall_forall _ _) Hrs). }
  assert (Hsub : forall c p, in_region {| rects := kept; capacity := c |} p -> in_region reg p).
  { intros c p (r & Hin & Hp); apply Hk in Hin as [Hin _]; by exists r. }
  assert (Hfull : forall c p, in_region reg p \/ in_rect n p -> in_region {| rects := kept ++ [n]; capacity := c |} p).
  { intros c p Hp; apply in_region_app; destruct Hp as [(r & Hin & Hp) | Hp]; [| by right].
    destruct (covers n r) eqn:Hcv; [right | left; exists r; split; [by apply Hk | done]].
    apply (covers_sub n r); auto; by apply (proj1 (Forall_forall _ _) Hrs). }
  assert (Happ : forall c p, in_region {| rects := kept ++ [n]; capacity := c |} p -> in_region reg p \/ in_rect n p).
  { intros c p [Hp | Hp]%in_region_app; [left; by eapply Hsub | by right]. }
  assert (Hok1 : Forall rect_ok (kept ++ [n])) by (apply Forall_app; split; [done | by apply Forall_singleton]).
  unfold count in *; cbn [rects capacity]; unfold MAX_RECTS_PER_REGION in *.
  assert (Hlen : zlen (kept ++ [n]) = zlen kept + 1) by (unfold zlen; rewrite length_app; simpl; lia).
  rewrite (i32_small (capacity reg * 2)) by lia.
  assert (Hsame : capacity reg <= zlen kept -> forall c p, in_region reg p -> in_region {| rects := kept; capacity := c |} p).
  { intros Hge c p; assert (kept = rects reg) as -> by (apply filter_all; fold kept; unfold zlen in *; lia); done. }
  destruct (Z.leb_spec 256 (zlen kept)); [| destruct (Z.leb_spec (capacity reg) (zlen kept)); [destruct ok |]].
  - split_and!; [constructor; simpl; unfold count, MAX_RECTS_PER_REGION; simpl; auto; lia | eauto | simpl; lia | apply Hsame; lia | lia].
  - split_and!; [| eauto | simpl; lia | eauto | eauto].
    constructor; simpl; unfold count, MAX_RECTS_PER_REGION; simpl; auto; case_if; lia.
  - split_and!; [constructor; simpl; unfold count, MAX_RECTS_PER_REGION; simpl; auto; lia | eauto | simpl; lia | apply Hsame; lia |].
    intros _ [? | ?]; [lia | done].
  - split_and!; [| eauto | simpl; lia | eauto | eauto].
    constructor; simpl; unfold count, MAX_RECTS_PER_REGION; simpl; auto; lia.
Qed.

(** ** The scratch region *)

Definition scratch_ok (reg : region) : Prop := region_ok reg /\ capacity reg = MAX_RECTS_PER_REGION.

Lemma scratch_reset_ok : scratch_ok region_scratch_reset.
Proof. split; [constructor; [by apply Forall_nil | done | done] | done]. Qed.

Lemma add_capacity reg x y w h :
  capacity reg = MAX_RECTS_PER_REGION -> capacity (add reg x y w h) = MAX_RECTS_PER_REGION.
Proof.
  intros Hc; unfold add, region_add_rect; repeat case_match; simpl; try done; by rewrite Hc.
Qed.

(** [if (c) region_add_rect(new_reg, ...)] on the scratch region. *)
Lemma opt_add_spec (c : bool) acc x y w h :
  let n := {| rx := x; ry := y; rw := w; rh := h |} in
  scratch_ok acc -> (c = true -> rect_ok n) ->
  let acc' := if c then add acc x y w h else acc in
  scratch_ok acc' /\ (forall p, in_region acc' p -> in_region acc p \/ (c = true /\ in_rect n p)) /\
  count acc' <= count acc + 1 /\
  (count acc < MAX_RECTS_PER_REGION -> forall p, in_region acc p \/ (c = true /\ in_rect n p) -> in_region acc' p).
Proof.
  intros n [Hr Hcap] Hn acc'; unfold acc'; destruct c.
  - destruct (add_rect_spec false acc x y w h Hr (Hn eq_refl)) as (H1 & H2 & H3 & _ & H4).
    split_and!; [split; [done | by apply add_capacity] | | done |].
    + intros p Hp; destruct (H2 p Hp); auto.
    + intros Hlt p Hp; apply H4; [done | left; lia | tauto].
  - split_and!; [done | auto | lia |]; intros _ p [? | [? _]]; done.
Qed.

Lemma overlap_eq r s :
  rect_ok r -> rect_ok s ->
  overlap r s = {| rx := Z.max (rx r) (rx s); ry := Z.max (ry r) (ry s);
                   rw := Z.min (rx r + rw r) (rx s + rw s) - Z.max (rx r) (rx s);
                   rh := Z.min (ry r + rh r) (ry s + rh s) - Z.max (ry r) (ry s) |}.
Proof.
  intros Hr Hs; unfold overlap; rewrite !right_eq, !bottom_eq by done.
  destruct Hr as (? & ? & ? & ? & ? & ?), Hs as (? & ? & ? & ? & ? & ?).
  f_equal; try (rewrite i32_small); repeat case_if; lia.
Qed.

(** The four strips around the overlap are what is left of [r]. *)
Lemma strips r s p :
  let i := {| rx := Z.max (rx r) (rx s); ry := Z.max (ry r) (ry s);
              rw := Z.min (rx r + rw r) (rx s + rw s) - Z.max (rx r) (rx s);
              rh := Z.min (ry r + rh r) (ry s + rh s) - Z.max (ry r) (ry s) |} in
  0 < rw i -> 0 < rh i ->
  in_rect r p /\ ~ in_rect s p <->
    (ry r < ry i /\ in_rect {| rx := rx r; ry := ry r; rw := rw r; rh := ry i - ry r |} p) \/
    (ry i + rh i < ry r + rh r /\
     in_rect {| rx := rx r; ry := ry i + rh i; rw := rw r; rh := ry r + rh r - (ry i + rh i) |} p) \/
    (rx r < rx i /\ in_rect {| rx := rx r; ry := ry i; rw := rx i - rx r; rh := rh i |} p) \/
    (rx i + rw i < rx r + rw r /\
     in_rect {| rx := rx i + rw i; ry := ry i; rw := rx r + rw r - (rx i + rw i); rh := rh i |} p).
Proof. unfold in_rect; simpl; lia. Qed.

Lemma subtract_one_spec s acc r :
  rect_ok s -> scratch_ok acc -> rect_ok r ->
  let acc' := subtract_one s acc r in
  scratch_ok acc' /\ (forall p, in_region acc' p -> in_region acc p \/ (in_rect r p /\ ~ in_rect s p)) /\
  count acc' <= count acc + 4 /\
  (count acc + 4 <= MAX_RECTS_PER_REGION ->
   forall p, in_region acc p \/ (in_rect r p /\ ~ in_rect s p) -> in_region acc' p).
Proof.
  intros Hs Ha Hr; cbv zeta; unfold subtract_one; rewrite (overlap_eq r s Hr Hs).
  pose proof (strips r s) as Hst; cbv zeta in Hst.
  set (i := Build_rect (Z.max _ _) _ _ _) in *; pose proof Hr as (? & ? & ? & ? & ? & ?); pose proof Hs as (? & ? & ? & ? & ? & ?).
  destruct (Z.leb_spec (rw i) 0) as [Hw | Hw]; [| destruct (Z.leb_spec (rh i) 0) as [Hh | Hh]]; simpl orb; cbv iota.
  1,2: destruct (opt_add_spec true acc (rx r) (ry r) (rw r) (rh r) Ha) as (A1 & A2 & A3 & A4); [by destruct r |];
    (assert (Hdis : forall p, in_rect r p -> ~ in_rect s p) by (intros p; unfold in_rect, i in *; simpl in *; lia));
    destruct r as [x y w h]; simpl in *;
    split_and!; [exact A1 | intros p Hp; destruct (A2 p Hp) as [? | [_ ?]]; auto | lia |
                 intros Hlt p Hp; apply A4; [lia | tauto]].
  assert (Ei : right i = rx i + rw i /\ bottom i = ry i + rh i).
  { unfold right, bottom, i in *; simpl in *; rewrite !i32_small by lia; done. }
  destruct Ei as [-> ->]; rewrite right_eq, bottom_eq by done.
  rewrite (i32_small (ry i - ry r)), (i32_small (ry r + rh r - _)), (i32_small (rx i - rx r)),
    (i32_small (rx r + rw r - _)) by (unfold i in *; simpl in *; lia).
  destruct (opt_add_spec (ry r <? ry i) acc (rx r) (ry r) (rw r) (ry i - ry r) Ha) as (A1 & A2 & A3 & A4).
  { intros Hlt; zbool; unfold rect_ok, i in *; simpl in *; lia. }
  set (acc1 := if ry r <? ry i then _ else _) in *; clearbody acc1.
  destruct (opt_add_spec (ry i + rh i <? ry r + rh r) acc1 (rx r) (ry i + rh i) (rw r) (ry r + rh r - (ry i + rh i)) A1)
    as (B1 & B2 & B3 & B4).
  { intros Hlt; zbool; unfold rect_ok, i in *; simpl in *; lia. }
  set (acc2 := if ry i + rh i <? _ then _ else _) in *; clearbody acc2.
  destruct (opt_add_spec (rx r <? rx i) acc2 (rx r) (ry i) (rx i - rx r) (rh i) B1) as (C1 & C2 & C3 & C4).
  { intros Hlt; zbool; unfold rect_ok, i in *; simpl in *; lia. }
  set (acc3 := if rx r <? rx i then _ else _) in *; clearbody acc3.
  destruct (opt_add_spec (rx i + rw i <? rx r + rw r) acc3 (rx i + rw i) (ry i) (rx r + rw r - (rx i + rw i)) (rh i) C1)
    as (D1 & D2 & D3 & D4).
  { intros Hlt; zbool; unfold rect_ok, i in *; simpl in *; lia. }
  set (acc4 := if rx i + rw i <? _ then _ else _) in *; clearbody acc4.
  split_and!; [exact D1 | | lia |].
  - intros p Hp; rewrite Hst by done.
    destruct (D2 p Hp) as [Hp3 | [?%Z.ltb_lt ?]]; [| tauto].
    destruct (C2 p Hp3) as [Hp2 | [?%Z.ltb_lt ?]]; [| tauto].
    destruct (B2 p Hp2) as [Hp1 | [?%Z.ltb_lt ?]]; [| tauto].
    destruct (A2 p Hp1) as [? | [?%Z.ltb_lt ?]]; tauto.
  - intros Hlt p; rewrite Hst by done; rewrite <- !Z.ltb_lt; intros Hp.
    apply D4; [lia |]; destruct Hp as [Hp | [Hp | [Hp | [Hp | Hp]]]]; [left .. | by right];
      (apply C4; [lia |]); first [by right | left]; (apply B4; [lia |]); first [by right | left]; apply A4; auto; lia.
Qed.

(** Folding a step that adds at most [k] rectangles and whose effect on the
    points is [f r]. *)
Lemma fold_scratch (step : region -> rect -> region) (f : rect -> point -> Prop) (k : Z) :
  0 <= k ->
  (forall acc r, scratch_ok acc -> rect_ok r ->
     scratch_ok (step acc r) /\ (forall p, in_region (step acc r) p -> in_region acc p \/ f r p) /\
     count (step acc r) <= count acc + k /\
     (count acc + k <= MAX_RECTS_PER_REGION -> forall p, in_region acc p \/ f r p -> in_region (step acc r) p)) ->
  forall l acc, Forall rect_ok l -> scratch_ok acc ->
  let acc' := foldl step acc l in
  scratch_ok acc' /\ (forall p, in_region acc' p -> in_region acc p \/ exists r, r ∈ l /\ f r p) /\
  (count acc + k * zlen l <= MAX_RECTS_PER_REGION ->
   forall p, in_region acc p \/ (exists r, r ∈ l /\ f r p) -> in_region acc' p).
Proof.
  intros Hk Hstep; induction l as [| r l IH]; intros acc Hl Ha acc'; unfold acc'; simpl.
  { split_and!; [done | auto |]; intros _ p [? | (r & Hr & _)]; [done | by apply elem_of_nil in Hr]. }
  apply Forall_cons in Hl as [Hr Hl]; destruct (Hstep acc r Ha Hr) as (S1 & S2 & S3 & S4).
  destruct (IH (step acc r) Hl S1) as (I1 & I2 & I3); setoid_rewrite elem_of_cons.
  assert (Hz : zlen (r :: l) = zlen l + 1) by (unfold zlen; simpl; lia).
  assert (Hz0 : 0 <= zlen l) by (unfold zlen; lia).
  split_and!; [done | |].
  - intros p Hp; destruct (I2 p Hp) as [Hp1 | (r' & ? & ?)]; [| right; exists r'; auto].
    destruct (S2 p Hp1); [by left | right; exists r; auto].
  - rewrite Hz; intros Hlt p Hp; apply I3; [nia |].
    destruct Hp as [Hp | (r' & [-> | Hr'] & Hf)]; [left | left | right; by exists r']; apply S4; auto; nia.
Qed.

Lemma copy_into_spec ok dst src :
  region_ok dst -> scratch_ok src ->
  region_ok (region_copy_into ok dst src) /\
  (region_copy_into ok dst src = dst /\ ok = false /\ capacity dst < count src \/
   rects (region_copy_into ok dst src) = rects src).
Proof.
  intros [D1 D2 D3] [[S1 S2 S3] S4]; unfold region_copy_into.
  assert (0 <= count src) by (unfold count, zlen; lia).
  destruct (Z.ltb_spec (capacity dst) (count src)); [destruct ok |].
  - split; [constructor; simpl; auto; unfold count in *; simpl; lia | by right].
  - split; [done | by left].
  - split; [constructor; simpl; auto | by right].
Qed.

Lemma in_region_rects a b p : rects a = rects b -> in_region a p <-> in_region b p.
Proof. unfold in_region; intros ->; done. Qed.

Lemma intersect_one_spec c acc r :
  rect_ok c -> scratch_ok acc -> rect_ok r ->
  let acc' := intersect_one c acc r in
  scratch_ok acc' /\ (forall p, in_region acc' p -> in_region acc p \/ (in_rect r p /\ in_rect c p)) /\
  count acc' <= count acc + 1 /\
  (count acc + 1 <= MAX_RECTS_PER_REGION ->
   forall p, in_region acc p \/ (in_rect r p /\ in_rect c p) -> in_region acc' p).
Proof.
  intros Hc Ha Hr; cbv zeta; unfold intersect_one; rewrite (overlap_eq r c Hr Hc).
  set (i := Build_rect (Z.max _ _) _ _ _); pose proof Hr as (? & ? & ? & ? & ? & ?); pose proof Hc as (? & ? & ? & ? & ? & ?).
  assert (Hi : forall p, (0 <? rw i) && (0 <? rh i) = true /\ in_rect i p <-> in_rect r p /\ in_rect c p).
  { intros p; rewrite andb_true_iff, !Z.ltb_lt; unfold in_rect, i; simpl; lia. }
  destruct (opt_add_spec ((0 <? rw i) && (0 <? rh i)) acc (rx i) (ry i) (rw i) (rh i) Ha) as (A1 & A2 & A3 & A4).
  { intros Hlt; zbool; unfold rect_ok, i in *; simpl in *; lia. }
  change (Build_rect (rx i) (ry i) (rw i) (rh i)) with i in *.
  split_and!; [exact A1 | | exact A3 |].
  - intros p Hp; rewrite <- Hi; auto.
  - intros Hlt p; rewrite <- Hi; apply A4; lia.
Qed.

(** ** Properties *)

(** adding a rectangle adds exactly its points, as long as the list has
    fewer than 256 rectangles and growing the array, if it must, succeeds; the
    list never exceeds its array or 256 entries.  In every case no point is
    lost and none appears that was in neither. *)
Theorem region_add_union ok reg x y w h :
  let n := {| rx := x; ry := y; rw := w; rh := h |} in
  region_ok reg -> rect_ok n ->
  let reg' := region_add_rect ok reg x y w h in
  region_ok reg' /\
  (forall p, in_region reg' p -> in_region reg p \/ in_rect n p) /\
  (forall p, in_region reg p -> in_region reg' p) /\
  (count reg < MAX_RECTS_PER_REGION -> count reg < capacity reg \/ ok = true ->
   forall p, in_region reg' p <-> in_region reg p \/ in_rect n p).
Proof.
  intros n Hr Hn reg'; destruct (add_rect_spec ok reg x y w h Hr Hn) as (H1 & H2 & _ & H3 & H4).
  split_and!; [done | done | done |]; intros Hc Ho p; split; [apply H2 | apply H4; done].
Qed.

(** subtracting a rectangle never leaves a point of it in the region and
    never adds one; with at most 64 rectangles in the region, so that the 256
    slots of the scratch list cannot run out, exactly the points outside the
    rectangle remain.  If the array cannot grow the region is unchanged. *)
Theorem region_subtract_difference ok reg x y w h :
  let s := {| rx := x; ry := y; rw := w; rh := h |} in
  region_ok reg -> rect_ok s ->
  let reg' := region_subtract ok reg x y w h in
  region_ok reg' /\
  (reg' = reg /\ ok = false \/
   (forall p, in_region reg' p -> in_region reg p /\ ~ in_rect s p) /\
   (count reg <= 64 -> forall p, in_region reg' p <-> in_region reg p /\ ~ in_rect s p)).
Proof.
  intros s Hr Hs reg'; unfold reg', region_subtract; fold s.
  pose proof Hs as (_ & _ & Hw & _ & Hh & _); simpl in Hw, Hh.
  rewrite (proj2 (Z.leb_gt w 0)), (proj2 (Z.leb_gt h 0)) by lia; simpl.
  destruct (fold_scratch (subtract_one s) (fun r p => in_rect r p /\ ~ in_rect s p) 4 ltac:(lia)
              (fun acc r Ha Hrr => subtract_one_spec s acc r Hs Ha Hrr)
              (rects reg) _ (rg_rects _ Hr) scratch_reset_ok) as (F1 & F2 & F3).
  destruct (copy_into_spec ok reg _ Hr F1) as [C1 [(C2 & C3 & _) | C2]]; split; try done; [by left | right].
  assert (Hsub : forall p, in_region (foldl (subtract_one s) region_scratch_reset (rects reg)) p ->
            in_region reg p /\ ~ in_rect s p).
  { intros p Hp; destruct (F2 p Hp) as [(r & Hr' & _) | (r & Hin & Hp1 & Hp2)]; [by apply elem_of_nil in Hr' |].
    split; [by exists r | done]. }
  split; [intros p Hp; apply Hsub; by rewrite <- (in_region_rects _ _ p C2) |].
  intros Hc p; rewrite (in_region_rects _ _ p C2); split; [apply Hsub |].
  intros [(r & Hin & Hp) Hns]; apply F3; [change (count region_scratch_reset) with 0; unfold count, MAX_RECTS_PER_REGION in *; lia |].
  right; by exists r.
Qed.

(** clipping keeps exactly the points of the region inside the clip
    rectangle (at every region size: a rectangle is clipped to at most one), or
    leaves the region unchanged when the array cannot grow. *)
Theorem region_intersect_clip ok reg x y w h :
  let c := {| rx := x; ry := y; rw := w; rh := h |} in
  region_ok reg -> rect_ok c ->
  let reg' := region_intersect_rect ok reg x y w h in
  region_ok reg' /\
  (reg' = reg /\ ok = false \/ forall p, in_region reg' p <-> in_region reg p /\ in_rect c p).
Proof.
  intros c Hr Hc reg'; unfold reg', region_intersect_rect; fold c.
  destruct (fold_scratch (intersect_one c) (fun r p => in_rect r p /\ in_rect c p) 1 ltac:(lia)
              (fun acc r Ha Hrr => intersect_one_spec c acc r Hc Ha Hrr)
              (rects reg) _ (rg_rects _ Hr) scratch_reset_ok) as (F1 & F2 & F3).
  destruct (copy_into_spec ok reg _ Hr F1) as [C1 [(C2 & C3 & _) | C2]]; split; try done; [by left | right].
  intros p; rewrite (in_region_rects _ _ p C2); split.
  - intros Hp; destruct (F2 p Hp) as [(r & Hr' & _) | (r & Hin & Hp1 & Hp2)]; [by apply elem_of_nil in Hr' |].
    split; [by exists r | done].
  - intros [(r & Hin & Hp) Hns]; apply F3; [| right; by exists r].
    destruct Hr as [_ ? ?]; change (count region_scratch_reset) with 0; unfold count, MAX_RECTS_PER_REGION in *; lia.
Qed.

(** ** Witnesses *)

(** A window of 100 by 80 with a smaller one over its middle. *)
Definition window : region := {| rects := [ {| rx := 0; ry := 0; rw := 100; rh := 80 |} ]; capacity := 8 |}.

Lemma window_ok : region_ok window.
Proof.
  constructor; [apply Forall_singleton; unfold rect_ok; simpl; lia | done | done].
Qed.

Lemma region_add_union_witness :
  in_region (region_add_rect true window 50 50 100 100) (120, 120).
Proof.
  destruct (region_add_union true window 50 50 100 100 window_ok) as (_ & _ & _ & H).
  { unfold rect_ok; simpl; lia. }
  apply H; [reflexivity | right; reflexivity | right; unfold in_rect; simpl; lia].
Defined.

Lemma region_subtract_difference_witness :
  rects (region_subtract true window 20 20 30 30) =
    [ {| rx := 0; ry := 0; rw := 100; rh := 20 |}; {| rx := 0; ry := 50; rw := 100; rh := 30 |};
      {| rx := 0; ry := 20; rw := 20; rh := 30 |}; {| rx := 50; ry := 20; rw := 50; rh := 30 |} ] /\
  ~ in_region (region_subtract true window 20 20 30 30) (25, 25).
Proof.
  split; [vm_compute; reflexivity |].
  destruct (region_subtract_difference true window 20 20 30 30 window_ok) as (_ & [[_ H] | [H _]]).
  { unfold rect_ok; simpl; lia. }
  { discriminate H. }
  intros Hp; apply H in Hp; destruct Hp as [_ Hp]; apply Hp; unfold in_rect; simpl; lia.
Defined.

Lemma region_intersect_clip_witness :
  rects (region_intersect_rect true window 90 70 640 480) = [ {| rx := 90; ry := 70; rw := 10; rh := 10 |} ] /\
  region_ok (region_intersect_rect true window 90 70 640 480).
Proof.
  split; [vm_compute; reflexivity |].
  apply (region_intersect_clip true window 90 70 640 480 window_ok).
  unfold rect_ok; simpl; lia.
Defined.
