(* ===== verification/Crc32.v ===== *)
(** * CRC-32

    [kernel/lib/crc32.c], the branchless bit-by-bit form, against the
    table-driven form, with its error detection. *)
From stdpp Require Import base numbers list.
From S2P Require Import Prelude.

(** ** The code *)

Definition CRC_POLY : Z := 0xEDB88320.

(** [crc = (crc >> 1) ^ (0xEDB88320 & -(crc & 1))]. *)
Definition crc_bit (crc : Z) : Z :=
  Z.lxor (Z.shiftr crc 1) (Z.land CRC_POLY (u32 (- Z.land crc 1))).

(** One byte: eight bit steps. *)
Definition crc_byte (crc b : Z) : Z := Nat.iter 8 crc_bit (Z.lxor crc b).

Definition crc32 (data : list Z) : Z := not32 (foldl crc_byte 0xFFFFFFFF data).

(** ** The table-driven form *)

Definition crc_entry (i : Z) : Z := Nat.iter 8 crc_bit i.
Definition crc_table : list Z := crc_entry <$> seqZ 0 256.
Definition crc_byte_table (crc b : Z) : Z :=
  Z.lxor (znth 0 crc_table (Z.land (Z.lxor crc b) 255)) (Z.shiftr crc 8).
Definition crc32_table (data : list Z) : Z := not32 (foldl crc_byte_table 0xFFFFFFFF data).

(** ** The bit step is linear and one-to-one *)

Lemma neg_low_bit x : u32 (- Z.land x 1) = if Z.testbit x 0 then 2 ^ 32 - 1 else 0.
Proof.
  replace (Z.land x 1) with (Z.b2z (Z.testbit x 0)); [destruct (Z.testbit x 0); done |].
  change 1 with (Z.ones 1); rewrite Z.land_ones, Z.bit0_mod by lia; done.
Qed.

Lemma crc_bit_eq x :
  crc_bit x = Z.lxor (Z.shiftr x 1) (if Z.testbit x 0 then CRC_POLY else 0).
Proof. unfold crc_bit; rewrite neg_low_bit; destruct (Z.testbit x 0); done. Qed.

Lemma crc_bit_lxor x y : crc_bit (Z.lxor x y) = Z.lxor (crc_bit x) (crc_bit y).
Proof.
  rewrite !crc_bit_eq, Z.lxor_spec, Z.shiftr_lxor; apply Z.bits_inj'; intros i Hi.
  rewrite !Z.lxor_spec; destruct (Z.testbit x 0), (Z.testbit y 0); simpl xorb;
    rewrite ?Z.bits_0; destruct (Z.testbit (Z.shiftr x 1) i), (Z.testbit (Z.shiftr y 1) i), (Z.testbit CRC_POLY i); done.
Qed.

Lemma iter_bit_lxor n x y : Nat.iter n crc_bit (Z.lxor x y) = Z.lxor (Nat.iter n crc_bit x) (Nat.iter n crc_bit y).
Proof. induction n as [| n IH]; simpl; [done | by rewrite IH, crc_bit_lxor]. Qed.

Lemma lxor_u32 x y : is_u32 x -> is_u32 y -> is_u32 (Z.lxor x y).
Proof.
  unfold is_u32; intros Hx Hy; assert (0 <= Z.lxor x y) by (apply Z.lxor_nonneg; lia).
  split; [done |]; apply bits_below; [lia | done |]; intros i Hi.
  rewrite Z.lxor_spec, (testbit_above x 32), (testbit_above y 32) by lia; done.
Qed.

Lemma crc_bit_u32 x : is_u32 x -> is_u32 (crc_bit x).
Proof.
  intros Hx; rewrite crc_bit_eq; apply lxor_u32; [| destruct (Z.testbit x 0); unfold is_u32, CRC_POLY; lia].
  unfold is_u32 in *; rewrite Z.shiftr_div_pow2 by lia; split; [apply Z.div_pos; lia | apply Z.div_lt_upper_bound; lia].
Qed.

(** The top bit of the result is the bit shifted out, so nothing is lost. *)
Lemma crc_bit_top x : is_u32 x -> Z.testbit (crc_bit x) 31 = Z.testbit x 0.
Proof.
  intros Hx; rewrite crc_bit_eq, Z.lxor_spec, Z.shiftr_spec, (testbit_above x 32) by (unfold is_u32 in *; lia).
  destruct (Z.testbit x 0); done.
Qed.

Lemma crc_bit_inj x y : is_u32 x -> is_u32 y -> crc_bit x = crc_bit y -> x = y.
Proof.
  intros Hx Hy E; assert (E0 : Z.testbit x 0 = Z.testbit y 0) by (rewrite <- !crc_bit_top, E by done; done).
  rewrite !crc_bit_eq, E0 in E; apply Z.bits_inj'; intros i Hi.
  destruct (Z.eq_dec i 0) as [-> |]; [done |].
  assert (Es : Z.shiftr x 1 = Z.shiftr y 1).
  { apply (f_equal (fun z => Z.lxor z (if Z.testbit y 0 then CRC_POLY else 0))) in E.
    by rewrite !Z.lxor_assoc, !Z.lxor_nilpotent, !Z.lxor_0_r in E. }
  replace i with (i - 1 + 1) by lia; rewrite <- !Z.shiftr_spec, Es by lia; done.
Qed.

Lemma iter_bit_u32 n x : is_u32 x -> is_u32 (Nat.iter n crc_bit x).
Proof. induction n; simpl; auto using crc_bit_u32. Qed.

Lemma iter_bit_inj n x y :
  is_u32 x -> is_u32 y -> Nat.iter n crc_bit x = Nat.iter n crc_bit y -> x = y.
Proof.
  intros Hx Hy; induction n as [| n IH]; simpl; [done |].
  intros E; apply IH, crc_bit_inj; auto using iter_bit_u32.
Qed.

(** Shifting out zero bits only. *)
Lemma iter_bit_shift n x :
  0 <= x -> (forall i, 0 <= i < Z.of_nat n -> Z.testbit x i = false) ->
  Nat.iter n crc_bit x = Z.shiftr x (Z.of_nat n).
Proof.
  intros Hx; induction n as [| n IH]; intros Hz; [done |]; simpl Nat.iter; rewrite IH by (intros; apply Hz; lia).
  rewrite crc_bit_eq, Z.shiftr_spec, Hz by lia; rewrite Z.lxor_0_r, Z.shiftr_shiftr by lia; f_equal; lia.
Qed.

Lemma land_255_range x : 0 <= Z.land x 255 < 256.
Proof. change 255 with (Z.ones 8); rewrite Z.land_ones by lia; apply Z.mod_pos_bound; lia. Qed.

Lemma crc_table_nth i : 0 <= i < 256 -> znth 0 crc_table i = crc_entry i.
Proof.
  intros Hi; apply znth_lookup; [lia |]; unfold crc_table; rewrite list_lookup_fmap.
  rewrite (lookup_seqZ_lt 0 256) by lia; simpl; f_equal; f_equal; lia.
Qed.

(** Eight steps: the low byte picks the table entry, the rest is shifted. *)
Lemma crc_byte_is_table crc b :
  is_u32 crc -> 0 <= b < 256 -> crc_byte crc b = crc_byte_table crc b.
Proof.
  intros Hc Hb; unfold crc_byte, crc_byte_table; set (x := Z.lxor crc b).
  assert (Hx : is_u32 x) by (apply lxor_u32; [done | unfold is_u32; lia]).
  rewrite crc_table_nth by apply land_255_range; unfold crc_entry.
  assert (Ex : x = Z.lxor (Z.land x 255) (Z.ldiff x 255)).
  { apply Z.bits_inj'; intros i Hi; rewrite Z.lxor_spec, Z.land_spec, Z.ldiff_spec.
    destruct (Z.testbit x i), (Z.testbit 255 i); done. }
  rewrite Ex at 1; rewrite iter_bit_lxor; f_equal.
  rewrite iter_bit_shift; change (Z.of_nat 8) with 8.
  - apply Z.bits_inj'; intros i Hi; rewrite !Z.shiftr_spec, Z.ldiff_spec by lia; unfold x.
    rewrite Z.lxor_spec, (testbit_above b 8), (testbit_above 255 8) by lia.
    rewrite xorb_false_r, andb_true_r; done.
  - unfold is_u32 in Hx; apply Z.ldiff_nonneg; lia.
  - intros i Hi; rewrite Z.ldiff_spec; change 255 with (Z.ones 8); rewrite Z.ones_spec_low by lia.
    by rewrite andb_false_r.
Qed.

Definition is_byte (b : Z) : Prop := 0 <= b < 256.

Lemma crc_byte_u32 crc b : is_u32 crc -> is_byte b -> is_u32 (crc_byte crc b).
Proof. intros Hc Hb; apply iter_bit_u32, lxor_u32; [done | unfold is_u32, is_byte in *; lia]. Qed.

Lemma foldl_crc_u32 data crc : is_u32 crc -> Forall is_byte data -> is_u32 (foldl crc_byte crc data).
Proof.
  intros Hc Hd; revert crc Hc; induction Hd as [| b data Hb _ IH]; intros crc Hc; simpl; [done |].
  apply IH, crc_byte_u32; done.
Qed.

Lemma lxor_cancel_r a b c : Z.lxor a c = Z.lxor b c -> a = b.
Proof.
  intros E; apply (f_equal (fun z => Z.lxor z c)) in E.
  by rewrite !Z.lxor_assoc, !Z.lxor_nilpotent, !Z.lxor_0_r in E.
Qed.

Lemma crc_byte_inj c1 c2 b1 b2 :
  is_u32 c1 -> is_u32 c2 -> is_byte b1 -> is_byte b2 ->
  crc_byte c1 b1 = crc_byte c2 b2 -> Z.lxor c1 b1 = Z.lxor c2 b2.
Proof.
  intros H1 H2 B1 B2; unfold crc_byte; apply iter_bit_inj; (apply lxor_u32; [done | unfold is_u32, is_byte in *; lia]).
Qed.

Lemma foldl_crc_inj data c1 c2 :
  is_u32 c1 -> is_u32 c2 -> Forall is_byte data ->
  foldl crc_byte c1 data = foldl crc_byte c2 data -> c1 = c2.
Proof.
  intros H1 H2 Hd; revert c1 c2 H1 H2; induction Hd as [| b data Hb _ IH]; intros c1 c2 H1 H2; simpl; [done |].
  intros E; apply IH in E; [| by apply crc_byte_u32 ..].
  apply crc_byte_inj in E; [by apply lxor_cancel_r in E | done ..].
Qed.

Lemma not32_inj x y : is_u32 x -> is_u32 y -> not32 x = not32 y -> x = y.
Proof.
  unfold not32, u32, is_u32, Z.lnot; intros Hx Hy E.
  rewrite <- (Z_mod_plus_full (Z.pred (- x)) 1), <- (Z_mod_plus_full (Z.pred (- y)) 1) in E.
  rewrite !Z.mod_small in E by lia; lia.
Qed.

(** Buffers that differ in one byte. *)
Lemma crc32_differs pre b1 b2 post :
  Forall is_byte pre -> is_byte b1 -> is_byte b2 -> Forall is_byte post -> b1 <> b2 ->
  crc32 (pre ++ b1 :: post) <> crc32 (pre ++ b2 :: post).
Proof.
  intros Hpre H1 H2 Hpost Hne E; apply Hne; unfold crc32 in E; rewrite !foldl_app in E; simpl in E.
  set (c := foldl crc_byte 0xFFFFFFFF pre) in E.
  assert (Hc : is_u32 c) by (apply foldl_crc_u32; [unfold is_u32; lia | done]).
  apply not32_inj in E; [| by apply foldl_crc_u32, Hpost; apply crc_byte_u32 ..].
  apply foldl_crc_inj in E; [| by apply crc_byte_u32 .. | done].
  apply crc_byte_inj in E; [| done ..].
  rewrite !(Z.lxor_comm c) in E; by apply lxor_cancel_r in E.
Qed.

(** ** Properties *)

(** the bit-by-bit [crc32] computes the checksum of the usual table-driven
    algorithm, on every input. *)
Theorem crc32_is_table_driven data : Forall is_byte data -> crc32 data = crc32_table data.
Proof.
  intros Hd; unfold crc32, crc32_table; f_equal.
  assert (Hc : is_u32 0xFFFFFFFF) by (unfold is_u32; lia); revert Hc; generalize 0xFFFFFFFF.
  induction Hd as [| b data Hb _ IH]; intros c Hc; simpl; [done |].
  rewrite <- crc_byte_is_table by done; apply IH, crc_byte_u32; done.
Qed.

(** a corrupted byte never goes unnoticed: two buffers that differ in one
    byte have different checksums. *)
Theorem crc32_detects_byte pre b1 b2 post :
  Forall is_byte pre -> is_byte b1 -> is_byte b2 -> Forall is_byte post -> b1 <> b2 ->
  crc32 (pre ++ b1 :: post) <> crc32 (pre ++ b2 :: post).
Proof. apply crc32_differs. Qed.

(** ** Witnesses *)

(** The standard check value: the CRC of "123456789". *)
Lemma crc32_is_table_driven_witness :
  crc32 [0x31; 0x32; 0x33; 0x34; 0x35; 0x36; 0x37; 0x38; 0x39] = 0xCBF43926.
Proof.
  rewrite crc32_is_table_driven; [vm_compute; reflexivity |].
  repeat (apply Forall_cons; split; [unfold is_byte; lia |]); apply Forall_nil; exact I.
Defined.

Lemma crc32_detects_byte_witness : crc32 [1; 2; 3] <> crc32 [1; 7; 3].
Proof.
  apply (crc32_detects_byte [1] 2 7 [3]); [| unfold is_byte; lia | unfold is_byte; lia | | lia].
  - apply Forall_singleton; unfold is_byte; lia.
  - apply Forall_singleton; unfold is_byte; lia.
Defined.
