(* ===== verification/Utf8.v ===== *)
(** * UTF-8 decoding

    [kernel/lib/utf8.c]: one code point from a bounded buffer.  The reference
    is the encoder of the Unicode standard, on scalar values. *)
From stdpp Require Import base numbers list.
From S2P Require Import Prelude.

(** ** The code *)

(** [(s[i] & 0xC0) == 0x80]. *)
Definition is_cont (c : Z) : bool := Z.land c 0xC0 =? 0x80.

(** [utf8_decode(s, len, code)] for non-null pointers: the return value and
    what is stored in [*code], if anything.  [s] holds the bytes of the buffer;
    a read past [len] does not happen because of the tests on [len]. *)
Definition utf8_decode (s : list Z) (len : Z) : Z * option Z :=
  if len =? 0 then (0, None)
  else
    let c := znth 0 s 0 in
    if c <? 0x80 then (1, Some c)
    else if Z.land c 0xE0 =? 0xC0 then
      if (len <? 2) || negb (is_cont (znth 0 s 1)) then (0, None)
      else
        let code := Z.lor (Z.shiftl (Z.land c 0x1F) 6) (Z.land (znth 0 s 1) 0x3F) in
        if code <? 0x80 then (0, Some code) else (2, Some code)
    else if Z.land c 0xF0 =? 0xE0 then
      if (len <? 3) || negb (is_cont (znth 0 s 1)) || negb (is_cont (znth 0 s 2)) then (0, None)
      else
        let code := Z.lor (Z.lor (Z.shiftl (Z.land c 0x0F) 12) (Z.shiftl (Z.land (znth 0 s 1) 0x3F) 6))
                          (Z.land (znth 0 s 2) 0x3F) in
        if code <? 0x800 then (0, Some code)
        else if (0xD800 <=? code) && (code <=? 0xDFFF) then (0, Some code)
        else (3, Some code)
    else if Z.land c 0xF8 =? 0xF0 then
      if (len <? 4) || negb (is_cont (znth 0 s 1)) || negb (is_cont (znth 0 s 2))
         || negb (is_cont (znth 0 s 3)) then (0, None)
      else
        let code := Z.lor (Z.lor (Z.lor (Z.shiftl (Z.land c 0x07) 18) (Z.shiftl (Z.land (znth 0 s 1) 0x3F) 12))
                                 (Z.shiftl (Z.land (znth 0 s 2) 0x3F) 6))
                          (Z.land (znth 0 s 3) 0x3F) in
        if code <? 0x10000 then (0, Some code)
        else if 0x10FFFF <? code then (0, Some code)
        else (4, Some code)
    else (0, None).

(** ** The encoder of the standard *)

(** The Unicode scalar values. *)
Definition scalar (cp : Z) : Prop := 0 <= cp < 0xD800 \/ 0xE000 <= cp <= 0x10FFFF.

Definition utf8_encode (cp : Z) : list Z :=
  if cp <? 0x80 then [cp]
  else if cp <? 0x800 then [0xC0 + cp / 64; 0x80 + cp mod 64]
  else if cp <? 0x10000 then [0xE0 + cp / 4096; 0x80 + cp / 64 mod 64; 0x80 + cp mod 64]
  else [0xF0 + cp / 262144; 0x80 + cp / 4096 mod 64; 0x80 + cp / 64 mod 64; 0x80 + cp mod 64].

(** ** Bytes *)

(** What the masks say of a byte, checked on all 256. *)
Definition byte_facts (c : Z) : bool :=
  eqb (is_cont c) ((0x80 <=? c) && (c <? 0xC0)) &&
  eqb (Z.land c 0xE0 =? 0xC0) ((0xC0 <=? c) && (c <? 0xE0)) &&
  eqb (Z.land c 0xF0 =? 0xE0) ((0xE0 <=? c) && (c <? 0xF0)) &&
  eqb (Z.land c 0xF8 =? 0xF0) ((0xF0 <=? c) && (c <? 0xF8)) &&
  (Z.land c 0x3F =? c mod 64) && (Z.land c 0x1F =? c mod 32) && (Z.land c 0x0F =? c mod 16) &&
  (Z.land c 0x07 =? c mod 8).

Lemma byte_facts_all c : 0 <= c < 256 -> byte_facts c = true.
Proof.
  intros Hc; assert (H : forallb byte_facts (seqZ 0 256) = true) by (vm_compute; reflexivity).
  rewrite forallb_forall in H; apply H, list_elem_of_In, elem_of_seqZ; lia.
Qed.

Lemma mask_facts c : 0 <= c < 256 ->
  is_cont c = (0x80 <=? c) && (c <? 0xC0) /\
  (Z.land c 0xE0 =? 0xC0) = (0xC0 <=? c) && (c <? 0xE0) /\
  (Z.land c 0xF0 =? 0xE0) = (0xE0 <=? c) && (c <? 0xF0) /\
  (Z.land c 0xF8 =? 0xF0) = (0xF0 <=? c) && (c <? 0xF8) /\
  Z.land c 0x3F = c mod 64 /\ Z.land c 0x1F = c mod 32 /\ Z.land c 0x0F = c mod 16 /\ Z.land c 0x07 = c mod 8.
Proof.
  intros Hc; pose proof (byte_facts_all c Hc) as H; unfold byte_facts in H.
  rewrite !andb_true_iff, !eqb_true_iff, !Z.eqb_eq in H; tauto.
Qed.

Lemma lor_shift a b n : 0 <= n -> 0 <= b < 2 ^ n -> Z.lor (Z.shiftl a n) b = a * 2 ^ n + b.
Proof.
  intros Hn Hb; rewrite Z.shiftl_mul_pow2 by lia.
  rewrite Z.add_nocarry_lxor; [rewrite <- Z.lxor_lor; [done |] |];
    (apply Z.bits_inj'; intros i Hi; rewrite Z.land_spec, Z.bits_0;
     destruct (Z_lt_le_dec i n); [rewrite Z.mul_pow2_bits_low by lia; done |
       rewrite (testbit_above b n) by lia; apply andb_false_r]).
Qed.

(** The masks and shifts as arithmetic. *)
Lemma code2 c c1 : 0 <= c < 256 -> 0 <= c1 < 256 ->
  Z.lor (Z.shiftl (Z.land c 0x1F) 6) (Z.land c1 0x3F) = c mod 32 * 64 + c1 mod 64.
Proof.
  intros Hc H1; destruct (mask_facts c Hc) as (_ & _ & _ & _ & _ & -> & _); destruct (mask_facts c1 H1) as (_ & _ & _ & _ & -> & _).
  apply lor_shift; [lia | apply Z.mod_pos_bound; lia].
Qed.

Lemma shl_bound a n m : 0 <= a < 2 ^ m -> 0 <= n -> 0 <= m -> 0 <= Z.shiftl a n < 2 ^ (m + n).
Proof. intros; rewrite Z.shiftl_mul_pow2, Z.pow_add_r by lia; nia. Qed.

Lemma code3 c c1 c2 : 0 <= c < 256 -> 0 <= c1 < 256 -> 0 <= c2 < 256 ->
  Z.lor (Z.lor (Z.shiftl (Z.land c 0x0F) 12) (Z.shiftl (Z.land c1 0x3F) 6)) (Z.land c2 0x3F)
  = c mod 16 * 4096 + c1 mod 64 * 64 + c2 mod 64.
Proof.
  intros Hc H1 H2; destruct (mask_facts c Hc) as (_ & _ & _ & _ & _ & _ & -> & _).
  destruct (mask_facts c1 H1) as (_ & _ & _ & _ & -> & _); destruct (mask_facts c2 H2) as (_ & _ & _ & _ & -> & _).
  pose proof (Z.mod_pos_bound c1 64 ltac:(lia)); pose proof (Z.mod_pos_bound c2 64 ltac:(lia)).
  rewrite <- Z.lor_assoc, lor_shift; rewrite ?(lor_shift (c1 mod 64)) by lia; lia.
Qed.

Lemma code4 c c1 c2 c3 : 0 <= c < 256 -> 0 <= c1 < 256 -> 0 <= c2 < 256 -> 0 <= c3 < 256 ->
  Z.lor (Z.lor (Z.lor (Z.shiftl (Z.land c 0x07) 18) (Z.shiftl (Z.land c1 0x3F) 12))
               (Z.shiftl (Z.land c2 0x3F) 6)) (Z.land c3 0x3F)
  = c mod 8 * 262144 + c1 mod 64 * 4096 + c2 mod 64 * 64 + c3 mod 64.
Proof.
  intros Hc H1 H2 H3; destruct (mask_facts c Hc) as (_ & _ & _ & _ & _ & _ & _ & ->).
  destruct (mask_facts c1 H1) as (_ & _ & _ & _ & -> & _); destruct (mask_facts c2 H2) as (_ & _ & _ & _ & -> & _).
  destruct (mask_facts c3 H3) as (_ & _ & _ & _ & -> & _).
  pose proof (Z.mod_pos_bound c1 64 ltac:(lia)); pose proof (Z.mod_pos_bound c2 64 ltac:(lia)).
  pose proof (Z.mod_pos_bound c3 64 ltac:(lia)).
  rewrite <- !Z.lor_assoc, lor_shift; rewrite ?(lor_shift (c1 mod 64) _ 12), ?(lor_shift (c2 mod 64)) by (rewrite ?(lor_shift (c2 mod 64)); lia); lia.
Qed.

(** Division by constants, for [lia]. *)
Ltac divs := Z.to_euclidean_division_equations; lia.

(** The decoder, by the first byte, as arithmetic. *)
Lemma decode1 c l len : 0 < len -> 0 <= c < 0x80 -> utf8_decode (c :: l) len = (1, Some c).
Proof.
  intros Hl Hc; unfold utf8_decode; rewrite (proj2 (Z.eqb_neq len 0)) by lia; cbv zeta.
  change (znth 0 (c :: l) 0) with c; rewrite (proj2 (Z.ltb_lt c 0x80)) by lia; done.
Qed.

Lemma decode2 c c1 l len : 0xC0 <= c < 0xE0 -> 0 <= c1 < 256 -> 0 < len ->
  let code := (c - 0xC0) * 64 + c1 mod 64 in
  utf8_decode (c :: c1 :: l) len =
  if (2 <=? len) && (0x80 <=? c1) && (c1 <? 0xC0)
  then (if code <? 0x80 then 0 else 2, Some code) else (0, None).
Proof.
  intros Hc H1 Hl code; unfold utf8_decode; rewrite (proj2 (Z.eqb_neq len 0)) by lia; cbv zeta.
  change (znth 0 (c :: c1 :: l) 0) with c; change (znth 0 (c :: c1 :: l) 1) with c1.
  destruct (mask_facts c ltac:(lia)) as (_ & -> & -> & -> & _); destruct (mask_facts c1 H1) as (-> & _).
  rewrite code2 by lia; replace (c mod 32 * 64 + c1 mod 64) with code by (unfold code; divs).
  rewrite (proj2 (Z.ltb_ge c 0x80)), (proj2 (Z.leb_le 0xC0 c)), (proj2 (Z.ltb_lt c 0xE0)) by lia; simpl andb; cbv iota.
  destruct (Z.ltb_spec len 2), (Z.leb_spec 2 len); try lia; simpl; [done |].
  destruct (0x80 <=? c1), (c1 <? 0xC0); simpl; try done; case_if; done.
Qed.

Lemma decode3 c c1 c2 l len : 0xE0 <= c < 0xF0 -> 0 <= c1 < 256 -> 0 <= c2 < 256 -> 0 < len ->
  let code := (c - 0xE0) * 4096 + c1 mod 64 * 64 + c2 mod 64 in
  utf8_decode (c :: c1 :: c2 :: l) len =
  if (3 <=? len) && ((0x80 <=? c1) && (c1 <? 0xC0)) && ((0x80 <=? c2) && (c2 <? 0xC0))
  then (if (code <? 0x800) || (0xD800 <=? code) && (code <=? 0xDFFF) then 0 else 3, Some code) else (0, None).
Proof.
  intros Hc H1 H2 Hl code; unfold utf8_decode; rewrite (proj2 (Z.eqb_neq len 0)) by lia; cbv zeta.
  change (znth 0 (c :: c1 :: c2 :: l) 0) with c; change (znth 0 (c :: c1 :: c2 :: l) 1) with c1.
  change (znth 0 (c :: c1 :: c2 :: l) 2) with c2.
  destruct (mask_facts c ltac:(lia)) as (_ & -> & -> & -> & _); destruct (mask_facts c1 H1) as (-> & _);
    destruct (mask_facts c2 H2) as (-> & _).
  rewrite code3 by lia; replace (c mod 16 * 4096 + c1 mod 64 * 64 + c2 mod 64) with code by (unfold code; divs).
  rewrite (proj2 (Z.ltb_ge c 0x80)), (proj2 (Z.leb_le 0xE0 c)), (proj2 (Z.ltb_lt c 0xF0)), (proj2 (Z.ltb_ge c 0xE0)),
    andb_false_r by lia; simpl andb; cbv iota.
  destruct (Z.ltb_spec len 3), (Z.leb_spec 3 len); try lia; simpl; [done |].
  destruct (0x80 <=? c1), (c1 <? 0xC0), (0x80 <=? c2), (c2 <? 0xC0); simpl; try done.
  destruct (code <? 0x800), (_ && _); done.
Qed.

Lemma decode4 c c1 c2 c3 l len :
  0xF0 <= c < 0xF8 -> 0 <= c1 < 256 -> 0 <= c2 < 256 -> 0 <= c3 < 256 -> 0 < len ->
  let code := (c - 0xF0) * 262144 + c1 mod 64 * 4096 + c2 mod 64 * 64 + c3 mod 64 in
  utf8_decode (c :: c1 :: c2 :: c3 :: l) len =
  if (4 <=? len) && ((0x80 <=? c1) && (c1 <? 0xC0)) && ((0x80 <=? c2) && (c2 <? 0xC0))
     && ((0x80 <=? c3) && (c3 <? 0xC0))
  then (if (code <? 0x10000) || (0x10FFFF <? code) then 0 else 4, Some code) else (0, None).
Proof.
  intros Hc H1 H2 H3 Hl code; unfold utf8_decode; rewrite (proj2 (Z.eqb_neq len 0)) by lia; cbv zeta.
  change (znth 0 (c :: c1 :: c2 :: c3 :: l) 0) with c; change (znth 0 (c :: c1 :: c2 :: c3 :: l) 1) with c1.
  change (znth 0 (c :: c1 :: c2 :: c3 :: l) 2) with c2; change (znth 0 (c :: c1 :: c2 :: c3 :: l) 3) with c3.
  destruct (mask_facts c ltac:(lia)) as (_ & -> & -> & -> & _); destruct (mask_facts c1 H1) as (-> & _);
    destruct (mask_facts c2 H2) as (-> & _); destruct (mask_facts c3 H3) as (-> & _).
  rewrite code4 by lia.
  replace (c mod 8 * 262144 + c1 mod 64 * 4096 + c2 mod 64 * 64 + c3 mod 64) with code by (unfold code; divs).
  rewrite (proj2 (Z.ltb_ge c 0x80)), (proj2 (Z.leb_le 0xF0 c)), (proj2 (Z.ltb_lt c 0xF8)), (proj2 (Z.ltb_ge c 0xE0)),
    (proj2 (Z.ltb_ge c 0xF0)), !andb_false_r by lia; simpl andb; cbv iota.
  destruct (Z.ltb_spec len 4), (Z.leb_spec 4 len); try lia; simpl; [done |].
  destruct (0x80 <=? c1), (c1 <? 0xC0), (0x80 <=? c2), (c2 <? 0xC0), (0x80 <=? c3), (c3 <? 0xC0); simpl; try done.
  destruct (code <? 0x10000), (_ <? code); done.
Qed.

(** ** Properties *)

(** decoding the standard encoding of a Unicode scalar value gives the
    value back and consumes exactly the encoding, whatever follows it. *)
Theorem utf8_decode_encode cp rest len :
  scalar cp -> zlen (utf8_encode cp) <= len ->
  utf8_decode (utf8_encode cp ++ rest) len = (zlen (utf8_encode cp), Some cp).
Proof.
  intros Hs; unfold scalar, utf8_encode in *.
  destruct (Z.ltb_spec cp 0x80); [| destruct (Z.ltb_spec cp 0x800); [| destruct (Z.ltb_spec cp 0x10000)]];
    unfold zlen; simpl length; intros Hl; cbn [app].
  - rewrite decode1 by lia; done.
  - rewrite decode2 by divs.
    replace ((192 + cp / 64 - 192) * 64 + (128 + cp mod 64) mod 64) with cp by divs.
    rewrite (proj2 (Z.leb_le 2 len)), (proj2 (Z.leb_le 0x80 (_ + _))), (proj2 (Z.ltb_lt (_ + _) 0xC0)),
      (proj2 (Z.ltb_ge cp 0x80)) by divs; done.
  - rewrite decode3 by divs.
    replace ((224 + cp / 4096 - 224) * 4096 + (128 + cp / 64 mod 64) mod 64 * 64 + (128 + cp mod 64) mod 64) with cp by divs.
    rewrite (proj2 (Z.leb_le 3 len)), !(proj2 (Z.leb_le 0x80 (_ + _))), !(proj2 (Z.ltb_lt (_ + _) 0xC0)),
      (proj2 (Z.ltb_ge cp 0x800)) by divs; simpl.
    destruct (Z.leb_spec 0xD800 cp), (Z.leb_spec cp 0xDFFF); try lia; done.
  - rewrite decode4 by divs.
    replace ((240 + cp / 262144 - 240) * 262144 + (128 + cp / 4096 mod 64) mod 64 * 4096
             + (128 + cp / 64 mod 64) mod 64 * 64 + (128 + cp mod 64) mod 64) with cp by divs.
    rewrite (proj2 (Z.leb_le 4 len)), !(proj2 (Z.leb_le 0x80 (_ + _))), !(proj2 (Z.ltb_lt (_ + _) 0xC0)),
      (proj2 (Z.ltb_ge cp 0x10000)), (proj2 (Z.ltb_ge 0x10FFFF cp)) by divs; done.
Qed.

Lemma utf8_decode_encode_witness : utf8_decode [0xE2; 0x82; 0xAC; 0x41] 4 = (3, Some 0x20AC).
Proof. apply (utf8_decode_encode 0x20AC [0x41] 4); [unfold scalar; lia | vm_compute; discriminate]. Defined.

(** What an accepted prefix looks like. *)
Definition accepts (s : list Z) (len n : Z) (r : option Z) : Prop :=
  exists cp, r = Some cp /\ scalar cp /\ n = zlen (utf8_encode cp) /\ n <= len /\
    take (Z.to_nat n) s = utf8_encode cp.

Lemma decode_other c l len :
  0 <= c < 256 -> 0x80 <= c < 0xC0 \/ 0xF8 <= c -> utf8_decode (c :: l) len = (0, None).
Proof.
  intros Hc Hr; unfold utf8_decode; destruct (len =? 0); [done |]; cbv zeta; change (znth 0 (c :: l) 0) with c.
  destruct (mask_facts c Hc) as (_ & -> & -> & -> & _).
  rewrite (proj2 (Z.ltb_ge c 0x80)) by lia.
  destruct (Z.leb_spec 0xC0 c), (Z.ltb_spec c 0xE0), (Z.leb_spec 0xE0 c), (Z.ltb_spec c 0xF0),
    (Z.leb_spec 0xF0 c), (Z.ltb_spec c 0xF8); simpl; done || lia.
Qed.

Lemma decode_sound4 c c1 c2 c3 l len n r :
  0 <= c < 256 -> 0 <= c1 < 256 -> 0 <= c2 < 256 -> 0 <= c3 < 256 -> 0 < len ->
  utf8_decode (c :: c1 :: c2 :: c3 :: l) len = (n, r) -> n <> 0 -> accepts (c :: c1 :: c2 :: c3 :: l) len n r.
Proof.
  intros Hc H1 H2 H3 Hl E Hn; unfold accepts, scalar.
  assert (c < 0x80 \/ 0xC0 <= c < 0xE0 \/ 0xE0 <= c < 0xF0 \/ 0xF0 <= c < 0xF8 \/
          (0x80 <= c < 0xC0 \/ 0xF8 <= c)) as [Hr | [Hr | [Hr | [Hr | Hr]]]] by lia.
  - rewrite decode1 in E by lia; injection E as <- <-; exists c; unfold utf8_encode.
    rewrite (proj2 (Z.ltb_lt c 0x80)) by lia; split_and!; try done; lia.
  - rewrite decode2 in E by lia; cbv zeta in E; set (cp := (c - 0xC0) * 64 + c1 mod 64) in E.
    destruct (_ && _) eqn:Hb in E; [| by injection E as <- <-].
    destruct (Z.ltb_spec cp 0x80); injection E as <- <-; [done |]; zbool; exists cp; unfold utf8_encode.
    rewrite (proj2 (Z.ltb_ge cp 0x80)), (proj2 (Z.ltb_lt cp 0x800)) by (unfold cp; divs).
    split_and!; try done; [left; unfold cp; divs |].
    replace (192 + cp / 64) with c by (unfold cp; divs); replace (128 + cp mod 64) with c1 by (unfold cp; divs); done.
  - rewrite decode3 in E by lia; cbv zeta in E; set (cp := (c - 0xE0) * 4096 + c1 mod 64 * 64 + c2 mod 64) in E.
    destruct (_ && _) eqn:Hb in E; [| by injection E as <- <-].
    destruct (_ || _) eqn:Hx in E; injection E as <- <-; [done |].
    rewrite orb_false_iff, andb_false_iff, Z.ltb_ge, !Z.leb_gt in Hx; zbool; exists cp; unfold utf8_encode.
    rewrite (proj2 (Z.ltb_ge cp 0x80)), (proj2 (Z.ltb_ge cp 0x800)), (proj2 (Z.ltb_lt cp 0x10000)) by (unfold cp in *; divs).
    split_and!; try done; [unfold cp in *; divs |].
    replace (224 + cp / 4096) with c by (unfold cp; divs); replace (128 + cp / 64 mod 64) with c1 by (unfold cp; divs).
    replace (128 + cp mod 64) with c2 by (unfold cp; divs); done.
  - rewrite decode4 in E by lia; cbv zeta in E;
      set (cp := (c - 0xF0) * 262144 + c1 mod 64 * 4096 + c2 mod 64 * 64 + c3 mod 64) in E.
    destruct (_ && _) eqn:Hb in E; [| by injection E as <- <-].
    destruct (_ || _) eqn:Hx in E; injection E as <- <-; [done |].
    rewrite orb_false_iff, !Z.ltb_ge in Hx; zbool; exists cp; unfold utf8_encode.
    rewrite (proj2 (Z.ltb_ge cp 0x80)), (proj2 (Z.ltb_ge cp 0x800)), (proj2 (Z.ltb_ge cp 0x10000)) by lia.
    split_and!; try done; [right; lia |].
    replace (240 + cp / 262144) with c by (unfold cp; divs); replace (128 + cp / 4096 mod 64) with c1 by (unfold cp; divs).
    replace (128 + cp / 64 mod 64) with c2 by (unfold cp; divs); replace (128 + cp mod 64) with c3 by (unfold cp; divs).
    done.
  - rewrite decode_other in E by lia; by injection E as <- <-.
Qed.

(** Zeroes after the buffer make no difference: nothing past [len] counts. *)
Lemma decode_pad s len : utf8_decode (s ++ [0; 0; 0; 0]) len = utf8_decode s len.
Proof.
  assert (Hz : forall i, 0 <= i -> znth 0 (s ++ [0; 0; 0; 0]) i = znth 0 s i).
  { intros i Hi; unfold znth; rewrite (proj2 (Z.ltb_ge i 0)) by lia.
    destruct (decide (Z.to_nat i < length s)%nat).
    - by rewrite lookup_app_l.
    - rewrite lookup_app_r, (lookup_ge_None_2 s) by lia.
      destruct (Z.to_nat i - length s)%nat as [| [| [| [| k]]]]; done. }
  unfold utf8_decode; rewrite !Hz by lia; done.
Qed.

(** the decoder accepts nothing but the standard encoding of a scalar
    value inside the first [len] bytes: overlong forms, surrogates, values
    above U+10FFFF, stray and missing continuation bytes are all refused. *)
Theorem utf8_decode_only_standard s len n r :
  Forall (fun b => 0 <= b < 256) s -> 0 <= len <= zlen s ->
  utf8_decode s len = (n, r) -> n <> 0 ->
  exists cp, r = Some cp /\ scalar cp /\ n = zlen (utf8_encode cp) /\ n <= len /\
    take (Z.to_nat n) s = utf8_encode cp.
Proof.
  intros Hs Hl E Hn; rewrite <- decode_pad in E.
  assert (Hp : Forall (fun b => 0 <= b < 256) (s ++ [0; 0; 0; 0])) by (apply Forall_app; split; [done | repeat constructor; lia]).
  destruct (Z.eq_dec len 0) as [-> |]; [by injection E as <- <- |].
  destruct s as [| c s]; [unfold zlen in Hl; simpl in Hl; lia |].
  assert (exists c1 c2 c3 l, (c :: s) ++ [0; 0; 0; 0] = c :: c1 :: c2 :: c3 :: l) as (c1 & c2 & c3 & l & Es)
    by (destruct s as [| ? [| ? [| ? s]]]; cbn; eauto 10).
  rewrite Es in *; rewrite !Forall_cons in Hp; destruct Hp as (B0 & B1 & B2 & B3 & _).
  destruct (decode_sound4 c c1 c2 c3 l len n r B0 B1 B2 B3 ltac:(lia) E Hn) as (cp & -> & Sc & Hlen & Hle & Ht).
  exists cp; split_and!; try done; rewrite <- Es, take_app_le in Ht; [done |]; unfold zlen in *; lia.
Qed.

Lemma utf8_decode_only_standard_witness :
  utf8_decode [0xC3; 0xA9; 0x21] 3 = (2, Some 0xE9) /\ utf8_encode 0xE9 = [0xC3; 0xA9].
Proof.
  split; [reflexivity |].
  destruct (utf8_decode_only_standard [0xC3; 0xA9; 0x21] 3 2 (Some 0xE9)) as (cp & E & _ & _ & _ & T).
  - repeat (apply Forall_cons; split; [lia |]); apply Forall_nil; exact I.
  - vm_compute; split; discriminate.
  - reflexivity.
  - discriminate.
  - injection E as <-; symmetry; exact T.
Defined.
