(* ===== verification/Fips180.v ===== *)
(** * The secure hash standard, SHA-256 (FIPS 180-4)

    The specification the hash of the kernel is proved against, written from the
    standard and from nothing of the program: words are numbers below 2^32,
    rotations and shifts are arithmetic, the constants are the fractional parts
    of the roots of the first primes, the message schedule is its recurrence,
    and a message is its bytes. *)
From Stdlib Require Import ZArith Lia.
From stdpp Require Import base numbers list.
From S2P Require Import Prelude.

#[local] Open Scope Z_scope.

Module Fips.

Definition word (x : Z) : Prop := 0 <= x < 2 ^ 32.
Definition octet (x : Z) : Prop := 0 <= x < 2 ^ 8.

(** ** Functions on words (2.2.2, 4.1.2) *)

Definition ROTR (n x : Z) : Z := x mod 2 ^ n * 2 ^ (32 - n) + x / 2 ^ n.
Definition SHR (n x : Z) : Z := x / 2 ^ n.
Definition complement (x : Z) : Z := 2 ^ 32 - 1 - x.

Definition Ch (x y z : Z) : Z := Z.lxor (Z.land x y) (Z.land (complement x) z).
Definition Maj (x y z : Z) : Z := Z.lxor (Z.land x y) (Z.lxor (Z.land x z) (Z.land y z)).
Definition Sigma0 (x : Z) : Z := Z.lxor (ROTR 2 x) (Z.lxor (ROTR 13 x) (ROTR 22 x)).
Definition Sigma1 (x : Z) : Z := Z.lxor (ROTR 6 x) (Z.lxor (ROTR 11 x) (ROTR 25 x)).
Definition sigma0 (x : Z) : Z := Z.lxor (ROTR 7 x) (Z.lxor (ROTR 18 x) (SHR 3 x)).
Definition sigma1 (x : Z) : Z := Z.lxor (ROTR 17 x) (Z.lxor (ROTR 19 x) (SHR 10 x)).

(** ** Constants (4.2.2, 5.3.3) *)

Definition is_prime (n : Z) : bool := (2 <=? n) && forallb (fun d => negb (n mod d =? 0)) (seqZ 2 (n - 2)).
Definition primes : list Z := List.filter is_prime (seqZ 2 310).

(** The largest [r] with [r^3 <= x], bit by bit from bit [n - 1] down. *)
Fixpoint icbrt (n : nat) (x r : Z) : Z :=
  match n with
  | O => r
  | S m => let t := r + 2 ^ Z.of_nat m in icbrt m x (if t * t * t <=? x then t else r)
  end.

(** The first 32 bits of the fractional parts of the cube roots of the first 64
    primes, and of the square roots of the first eight. *)
Definition K : list Z := (fun p => icbrt 36 (p * 2 ^ 96) 0 mod 2 ^ 32) <$> primes.
Definition H0 : list Z := (fun p => Z.sqrt (p * 2 ^ 64) mod 2 ^ 32) <$> take 8 primes.

(** ** Bytes (3.1): the big-endian reading *)

Definition be_value (l : list Z) : Z := foldl (fun v b => 256 * v + b) 0 l.
Fixpoint be_bytes (n : nat) (x : Z) : list Z :=
  match n with O => [] | S n => be_bytes n (x / 256) ++ [x mod 256] end.

(** ** The compression of a block (6.2.2) *)

Definition message_word (block : list Z) (t : Z) : Z := be_value (take 4 (drop (Z.to_nat (4 * t)) block)).

(** The message schedule: its first [n] words [W t].  [W_first] and [W_step]
    below are the recurrence of the standard. *)
Fixpoint schedule (n : nat) (block : list Z) : list Z :=
  match n with
  | O => []
  | S n =>
    let w := schedule n block in
    let t := Z.of_nat n in
    w ++ [if t <? 16 then message_word block t
          else (sigma1 (znth 0 w (t - 2)) + znth 0 w (t - 7) + sigma0 (znth 0 w (t - 15)) + znth 0 w (t - 16)) mod 2 ^ 32]
  end.
Definition W (block : list Z) : list Z := schedule 64 block.

(** The working variables [a] to [h]. *)
Definition vars : Type := Z * Z * Z * Z * Z * Z * Z * Z.

Definition round (w : list Z) (v : vars) (t : Z) : vars :=
  let '(a, b, c, d, e, f, g, h) := v in
  let T1 := (h + Sigma1 e + Ch e f g + znth 0 K t + znth 0 w t) mod 2 ^ 32 in
  let T2 := (Sigma0 a + Maj a b c) mod 2 ^ 32 in
  ((T1 + T2) mod 2 ^ 32, a, b, c, (d + T1) mod 2 ^ 32, e, f, g).

Definition compress (H : list Z) (block : list Z) : list Z :=
  match H with
  | [h0; h1; h2; h3; h4; h5; h6; h7] =>
    let '(a, b, c, d, e, f, g, h) := foldl (round (W block)) (h0, h1, h2, h3, h4, h5, h6, h7) (seqZ 0 64) in
    (fun x => x mod 2 ^ 32) <$> [a + h0; b + h1; c + h2; d + h3; e + h4; f + h5; g + h6; h + h7]
  | _ => []
  end.

(** ** Padding and the hash of a message (5.1.1, 5.2.1, 6.2) *)

(** A one bit, the least number of zero bits that leaves 64 bits in the last
    block, and the length in bits. *)
Definition pad (data : list Z) : list Z :=
  data ++ 128 :: replicate (Z.to_nat ((55 - zlen data) mod 64)) 0 ++ be_bytes 8 (8 * zlen data).

Fixpoint hash_blocks (n : nat) (H : list Z) (msg : list Z) : list Z :=
  match n with
  | O => H
  | S n => hash_blocks n (compress H (take 64 msg)) (drop 64 msg)
  end.

Definition SHA256 (data : list Z) : list Z :=
  let msg := pad data in mjoin (be_bytes 4 <$> hash_blocks (length msg / 64) H0 msg).

(** ** Facts *)

Lemma schedule_length n block : zlen (schedule n block) = Z.of_nat n.
Proof. induction n as [| n IH]; [done |]; cbn [schedule]; rewrite zlen_app, IH; change (zlen [_]) with 1; lia. Qed.

(** The schedule is built in order, so that a longer one has the same words. *)
Lemma schedule_longer m n block t : 0 <= t < Z.of_nat m -> (m <= n)%nat -> znth 0 (schedule n block) t = znth 0 (schedule m block) t.
Proof.
  intros Ht; induction 1 as [| n Hn IH]; [done |]; cbn [schedule].
  rewrite znth_app_l by (rewrite schedule_length; lia); exact IH.
Qed.

Lemma schedule_last n block :
  let w := schedule n block in
  let t := Z.of_nat n in
  znth 0 (schedule (S n) block) t =
    if t <? 16 then message_word block t
    else (sigma1 (znth 0 w (t - 2)) + znth 0 w (t - 7) + sigma0 (znth 0 w (t - 15)) + znth 0 w (t - 16)) mod 2 ^ 32.
Proof. cbn [schedule]; rewrite znth_app_r by (rewrite schedule_length; lia); by rewrite schedule_length, Z.sub_diag. Qed.

Lemma W_first block t : 0 <= t < 16 -> znth 0 (W block) t = message_word block t.
Proof.
  intros Ht; unfold W; rewrite (schedule_longer (S (Z.to_nat t))) by lia.
  pose proof (schedule_last (Z.to_nat t) block) as E; cbv zeta in E; rewrite Z2Nat.id in E by lia; rewrite E; by destruct (Z.ltb_spec t 16); [| lia].
Qed.

(** The recurrence of the standard. *)
Lemma W_step block t : 16 <= t < 64 ->
  let w := znth 0 (W block) in w t = (sigma1 (w (t - 2)) + w (t - 7) + sigma0 (w (t - 15)) + w (t - 16)) mod 2 ^ 32.
Proof.
  intros Ht; cbv zeta; unfold W; rewrite (schedule_longer (S (Z.to_nat t)) 64 block t) by lia.
  pose proof (schedule_last (Z.to_nat t) block) as E; cbv zeta in E; rewrite Z2Nat.id in E by lia; rewrite E; destruct (Z.ltb_spec t 16); [lia |].
  by rewrite !(schedule_longer (Z.to_nat t) 64) by lia.
Qed.

(** The digest of the one-block message of the standard's examples. *)
Example sha256_abc :
  SHA256 [0x61; 0x62; 0x63] =
  [0xba; 0x78; 0x16; 0xbf; 0x8f; 0x01; 0xcf; 0xea; 0x41; 0x41; 0x40; 0xde; 0x5d; 0xae; 0x22; 0x23;
   0xb0; 0x03; 0x61; 0xa3; 0x96; 0x17; 0x7a; 0x9c; 0xb4; 0x10; 0xff; 0x61; 0xf2; 0x00; 0x15; 0xad].
Proof. vm_compute; reflexivity. Qed.

End Fips.
