(* ===== verification/Sha256.v ===== *)
(** * SHA-256

    [kernel/lib/sha256.c], the streaming hash the partition integrity check
    uses, proved against [Fips180], the standard written on its own. *)
From Stdlib Require Import ZArith Lia.
From stdpp Require Import base numbers list.
From S2P Require Import Prelude Fips180.

(** ** The compression function *)

(** The table of the source, row by row, in decimal; [SHA256_K_fips] below
    checks the table against its definition in the standard. *)
Definition SHA256_K : list Z :=
  [1116352408; 1899447441; 3049323471; 3921009573; 961987163; 1508970993;
   2453635748; 2870763221; 3624381080; 310598401; 607225278; 1426881987;
   1925078388; 2162078206; 2614888103; 3248222580; 3835390401; 4022224774;
   264347078; 604807628; 770255983; 1249150122; 1555081692; 1996064986;
   2554220882; 2821834349; 2952996808; 3210313671; 3336571891; 3584528711;
   113926993; 338241895; 666307205; 773529912; 1294757372; 1396182291;
   1695183700; 1986661051; 2177026350; 2456956037; 2730485921; 2820302411;
   3259730800; 3345764771; 3516065817; 3600352804; 4094571909; 275423344;
   430227734; 506948616; 659060556; 883997877; 958139571; 1322822218;
   1537002063; 1747873779; 1955562222; 2024104815; 2227730452; 2361852424;
   2428436474; 2756734187; 3204031479; 3329325298].

Definition SHA256_ROR (x n : Z) : Z := Z.lor (Z.shiftr x n) (u32 (Z.shiftl x (32 - n))).

Definition xor3 (a b c : Z) : Z := Z.lxor (Z.lxor a b) c.

(** The message schedule [w]: sixteen big-endian words, then the rest. *)
Definition schedule_word (p : list Z) (i : Z) : Z :=
  Z.lor (Z.lor (Z.lor (u32 (Z.shiftl (znth 0 p (i * 4)) 24)) (u32 (Z.shiftl (znth 0 p (i * 4 + 1)) 16)))
               (u32 (Z.shiftl (znth 0 p (i * 4 + 2)) 8))) (znth 0 p (i * 4 + 3)).

Definition schedule_next (w : list Z) (i : Z) : list Z :=
  let s0 := xor3 (SHA256_ROR (znth 0 w (i - 15)) 7) (SHA256_ROR (znth 0 w (i - 15)) 18)
                 (Z.shiftr (znth 0 w (i - 15)) 3) in
  let s1 := xor3 (SHA256_ROR (znth 0 w (i - 2)) 17) (SHA256_ROR (znth 0 w (i - 2)) 19)
                 (Z.shiftr (znth 0 w (i - 2)) 10) in
  w ++ [u32 (znth 0 w (i - 16) + s0 + znth 0 w (i - 7) + s1)].

Definition schedule (p : list Z) : list Z :=
  foldl schedule_next (schedule_word p <$> seqZ 0 16) (seqZ 16 48).

(** The eight working variables. *)
Record regs := { ra : Z; rb : Z; rc : Z; rd : Z; re : Z; rf : Z; rg : Z; rh : Z }.

Definition sha_round (w : list Z) (r : regs) (i : Z) : regs :=
  let S1 := xor3 (SHA256_ROR (re r) 6) (SHA256_ROR (re r) 11) (SHA256_ROR (re r) 25) in
  let ch := Z.lxor (Z.land (re r) (rf r)) (Z.land (not32 (re r)) (rg r)) in
  let t1 := u32 (rh r + S1 + ch + znth 0 SHA256_K i + znth 0 w i) in
  let S0 := xor3 (SHA256_ROR (ra r) 2) (SHA256_ROR (ra r) 13) (SHA256_ROR (ra r) 22) in
  let mj := xor3 (Z.land (ra r) (rb r)) (Z.land (ra r) (rc r)) (Z.land (rb r) (rc r)) in
  let t2 := u32 (S0 + mj) in
  {| ra := u32 (t1 + t2); rb := ra r; rc := rb r; rd := rc r;
     re := u32 (rd r + t1); rf := re r; rg := rf r; rh := rg r |}.

(** [sha256_block] on the hash words: the new [c->h]. *)
Definition sha256_block (h : list Z) (p : list Z) : list Z :=
  let w := schedule p in
  let r := {| ra := znth 0 h 0; rb := znth 0 h 1; rc := znth 0 h 2; rd := znth 0 h 3;
              re := znth 0 h 4; rf := znth 0 h 5; rg := znth 0 h 6; rh := znth 0 h 7 |} in
  let r := foldl (sha_round w) r (seqZ 0 64) in
  [u32 (znth 0 h 0 + ra r); u32 (znth 0 h 1 + rb r); u32 (znth 0 h 2 + rc r); u32 (znth 0 h 3 + rd r);
   u32 (znth 0 h 4 + re r); u32 (znth 0 h 5 + rf r); u32 (znth 0 h 6 + rg r); u32 (znth 0 h 7 + rh r)].

(** ** The streaming interface *)

Record sha256_ctx := { ch : list Z; clen : Z; cbuf : list Z; buflen : Z }.

Definition SHA256_H0 : list Z :=
  [0x6a09e667; 0xbb67ae85; 0x3c6ef372; 0xa54ff53a; 0x510e527f; 0x9b05688c; 0x1f83d9ab; 0x5be0cd19].

(** [sha256_init] leaves [buf] as it is. *)
Definition sha256_init (c : sha256_ctx) : sha256_ctx :=
  {| ch := SHA256_H0; clen := 0; cbuf := cbuf c; buflen := 0 |}.

(** [memcpy(c->buf + off, p, n)]. *)
Definition buf_write (buf : list Z) (off : Z) (p : list Z) : list Z :=
  take (Z.to_nat off) buf ++ p ++ drop (Z.to_nat off + length p) buf.

(** One round of the loop of [sha256_update]; [p] is what is left of the
    input. *)
Definition update_step (st : sha256_ctx * list Z) : (sha256_ctx * list Z) + sha256_ctx :=
  let '(c, p) := st in
  if zlen p =? 0 then inr c
  else
    let n := Z.min (64 - buflen c) (zlen p) in
    let buf := buf_write (cbuf c) (buflen c) (take (Z.to_nat n) p) in
    let bl := buflen c + n in
    let c := if bl =? 64
             then {| ch := sha256_block (ch c) buf; clen := clen c; cbuf := buf; buflen := 0 |}
             else {| ch := ch c; clen := clen c; cbuf := buf; buflen := bl |} in
    inl (c, drop (Z.to_nat n) p).

(** Each round consumes a byte at least. *)
Definition sha256_update (c : sha256_ctx) (data : list Z) : sha256_ctx :=
  let c := {| ch := ch c; clen := u64 (clen c + zlen data); cbuf := cbuf c; buflen := buflen c |} in
  default c (loop (S (length data)) update_step (c, data)).

(** [while (c->buflen != 56) sha256_update(c, &zero, 1)]: the buffer length
    goes round modulo 64, so 64 rounds reach 56. *)
Definition zero_step (c : sha256_ctx) : sha256_ctx + sha256_ctx :=
  if buflen c =? 56 then inr c else inl (sha256_update c [0]).
Definition zero_fill (c : sha256_ctx) : sha256_ctx := default c (loop 64 zero_step c).

Definition be64 (bits : Z) : list Z := (fun i => u8 (Z.shiftr bits (56 - i * 8))) <$> seqZ 0 8.
Definition word_bytes (h : Z) : list Z := [u8 (Z.shiftr h 24); u8 (Z.shiftr h 16); u8 (Z.shiftr h 8); u8 h].

(** The digest, and the context left behind. *)
Definition sha256_final (c : sha256_ctx) : list Z * sha256_ctx :=
  let bits := u64 (clen c * 8) in
  let c := sha256_update c [0x80] in
  let c := zero_fill c in
  let c := sha256_update c (be64 bits) in
  (concat (word_bytes <$> ch c), c).

Definition ctx_uninit : sha256_ctx := {| ch := []; clen := 0; cbuf := replicate 64 0; buflen := 0 |}.

Definition sha256_buf (data : list Z) : list Z :=
  (sha256_final (sha256_update (sha256_init ctx_uninit) data)).1.

Definition sha256_merkle_pair (left right : list Z) : list Z :=
  (sha256_final (sha256_update (sha256_update (sha256_init ctx_uninit) left) right)).1.

(** The padded message as [sha256_final] feeds it, and the hash words after
    [n] blocks of 64 bytes. *)
Definition padded_message (data : list Z) : list Z :=
  data ++ 0x80 :: replicate (Z.to_nat ((55 - zlen data) mod 64)) 0 ++ be64 (u64 (zlen data * 8)).

Fixpoint block_words (n : nat) (h : list Z) (msg : list Z) : list Z :=
  match n with
  | O => h
  | S n => block_words n (sha256_block h (take 64 msg)) (drop 64 msg)
  end.

(** What the streaming interface is shown to compute, before the block function
    is compared with the standard. *)
Definition blockwise_digest (data : list Z) : list Z :=
  let msg := padded_message data in
  concat (word_bytes <$> block_words (length msg / 64) SHA256_H0 msg).

(** ** Absorbing byte by byte *)

(** The hash words and the bytes not hashed yet. *)
Definition absorb_byte (st : list Z * list Z) (b : Z) : list Z * list Z :=
  let '(h, pend) := st in
  let pend := pend ++ [b] in
  if (length pend =? 64)%nat then (sha256_block h pend, []) else (h, pend).
Definition absorb : list Z * list Z -> list Z -> list Z * list Z := foldl absorb_byte.

(** The context holds the absorbed state. *)
Record rep (c : sha256_ctx) (st : list Z * list Z) : Prop := {
  rep_h : ch c = st.1;
  rep_len : buflen c = zlen st.2;
  rep_buf : take (length st.2) (cbuf c) = st.2;
  rep_size : length (cbuf c) = 64%nat;
  rep_short : (length st.2 < 64)%nat }.

Lemma absorb_short h pend xs :
  (length pend + length xs < 64)%nat -> absorb (h, pend) xs = (h, pend ++ xs).
Proof.
  revert pend; induction xs as [| x xs IH]; intros pend Hl; simpl in *; [by rewrite app_nil_r |].
  rewrite length_app; simpl; rewrite (proj2 (Nat.eqb_neq (length pend + 1) 64)) by lia.
  rewrite (IH (pend ++ [x])) by (rewrite length_app; simpl; lia); by rewrite <- app_assoc.
Qed.

Lemma absorb_fill h pend xs :
  (length pend + length xs = 64)%nat -> xs <> [] -> absorb (h, pend) xs = (sha256_block h (pend ++ xs), []).
Proof.
  intros Hl Hne; destruct (exists_last Hne) as (ys & y & ->); unfold absorb; rewrite foldl_app; fold absorb.
  rewrite length_app in Hl; simpl in Hl; fold (absorb (h, pend) ys); rewrite absorb_short by lia; simpl.
  rewrite !length_app; simpl; rewrite (proj2 (Nat.eqb_eq _ 64)) by lia; by rewrite app_assoc.
Qed.

Lemma absorb_app st xs ys : absorb st (xs ++ ys) = absorb (absorb st xs) ys.
Proof. apply foldl_app. Qed.

Lemma buf_write_prefix buf pend xs :
  take (length pend) buf = pend -> length buf = 64%nat -> (length pend + length xs <= 64)%nat ->
  let buf' := buf_write buf (zlen pend) xs in
  length buf' = 64%nat /\ take (length pend + length xs) buf' = pend ++ xs.
Proof.
  intros Hp Hb Hl; unfold buf_write, zlen; rewrite Nat2Z.id, Hp; split.
  - rewrite !length_app, length_drop; lia.
  - rewrite app_assoc, take_app_length'; [done | by rewrite length_app].
Qed.

(** One round absorbs the bytes it takes. *)
Lemma update_step_rep c st p :
  rep c st -> p <> [] ->
  exists c' n, update_step (c, p) = inl (c', drop n p) /\ (0 < n <= length p)%nat /\
    rep c' (absorb st (take n p)) /\ clen c' = clen c.
Proof.
  intros [Hh Hl Hb Hs Hsh] Hne; destruct st as [h pend]; simpl in *.
  assert (Hpz : 0 < zlen p) by (destruct p; [done | unfold zlen; simpl; lia]).
  unfold update_step; rewrite (proj2 (Z.eqb_neq (zlen p) 0)) by lia; rewrite Hl.
  assert (Hpl : zlen pend = Z.of_nat (length pend)) by done.
  assert (Hpn : zlen p = Z.of_nat (length p)) by done.
  set (n := Z.min (64 - zlen pend) (zlen p)); set (xs := take (Z.to_nat n) p).
  assert (Hx : length xs = Z.to_nat n) by (unfold xs; rewrite length_take; unfold n; lia).
  destruct (buf_write_prefix (cbuf c) pend xs Hb Hs ltac:(unfold n in *; lia)) as [Hbl Hbp].
  eexists _, (Z.to_nat n); split; [done |]; split; [unfold n; lia |]; fold xs.
  destruct (Z.eqb_spec (zlen pend + n) 64) as [E | E].
  - split; [| done]; rewrite absorb_fill; [| unfold n in *; lia | intros Hn; rewrite Hn in Hx; simpl in Hx; unfold n in *; lia].
    constructor; simpl; try done; [| lia].
    rewrite Hh; f_equal; rewrite <- Hbp; rewrite take_ge by (unfold n in *; lia); done.
  - split; [| done]; rewrite absorb_short by (unfold n in *; lia).
    constructor; simpl; try done; rewrite ?length_app; [unfold zlen; rewrite length_app; unfold n in *; lia | done |].
    unfold n in *; lia.
Qed.

Lemma update_loop_rep fuel c st p :
  rep c st -> (length p < fuel)%nat ->
  exists c', loop fuel update_step (c, p) = Some c' /\ rep c' (absorb st p) /\ clen c' = clen c.
Proof.
  revert c st p; induction fuel as [| fuel IH]; intros c st p R Hf; [lia |]; cbn [loop].
  destruct (decide (p = [])) as [-> | Hne]; [by exists c |].
  destruct (update_step_rep c st p R Hne) as (c1 & n & -> & Hn & R1 & L1).
  destruct (IH c1 _ (drop n p) R1) as (c' & -> & R' & L'); [rewrite length_drop; lia |].
  exists c'; split_and!; [done | | congruence]; by rewrite <- absorb_app, take_drop in R'.
Qed.

Lemma update_rep c st data :
  rep c st -> rep (sha256_update c data) (absorb st data) /\
  clen (sha256_update c data) = u64 (clen c + zlen data).
Proof.
  intros R; unfold sha256_update; set (c0 := {| ch := _ |}).
  assert (R0 : rep c0 st) by (destruct R; constructor; done).
  destruct (update_loop_rep (S (length data)) c0 st data R0 ltac:(lia)) as (c' & -> & R' & L'); done.
Qed.

(** Feeding the parts of a message one after another. *)
Lemma updates_rep parts c st :
  rep c st -> 0 <= clen c < 2 ^ 64 ->
  rep (foldl sha256_update c parts) (absorb st (concat parts)) /\
  clen (foldl sha256_update c parts) = u64 (clen c + zlen (concat parts)).
Proof.
  revert c st; induction parts as [| p parts IH]; intros c st R Hc; simpl.
  { split; [done |]; change (zlen []) with 0; rewrite Z.add_0_r, u64_small; done. }
  destruct (update_rep c st p R) as [R1 L1]; destruct (IH _ _ R1) as [R2 L2].
  { rewrite L1; apply u64_range. }
  rewrite absorb_app; split; [done |]; rewrite L2, L1; unfold zlen; rewrite length_app.
  unfold u64; rewrite Z.add_mod_idemp_l by lia; f_equal; lia.
Qed.

(** The zeroes of the padding. *)
Lemma zero_fill_rep m c st fuel :
  rep c st -> Z.of_nat m = (56 - zlen st.2) mod 64 -> (m < fuel)%nat ->
  exists c', loop fuel zero_step c = Some c' /\ rep c' (absorb st (replicate m 0)) /\
    length (absorb st (replicate m 0)).2 = 56%nat.
Proof.
  revert c st fuel; induction m as [| m IH]; intros c st fuel R Hm Hf; (destruct fuel as [| fuel]; [lia |]);
    cbn [loop]; unfold zero_step at 1; pose proof (rep_short _ _ R) as Hs; rewrite (rep_len _ _ R).
  - assert (E : zlen st.2 = 56) by (unfold zlen in *; Z.to_euclidean_division_equations; lia).
    rewrite E; simpl; exists c; split_and!; [done | done | unfold zlen in E; lia].
  - assert (E : zlen st.2 <> 56) by (intros E; rewrite E in Hm; vm_compute (_ mod _) in Hm; lia).
    rewrite (proj2 (Z.eqb_neq _ _) E); destruct (update_rep c st [0] R) as [R1 _].
    destruct (IH _ _ fuel R1) as (c' & -> & R' & L'); [| lia |].
    + destruct st as [h pend]; simpl; rewrite length_app; simpl; unfold zlen in *; simpl in *.
      destruct (Nat.eqb_spec (length pend + 1) 64); simpl; rewrite ?length_app; simpl;
        Z.to_euclidean_division_equations; lia.
    + by exists c'.
Qed.

(** Absorbing a whole number of blocks hashes them. *)
Lemma absorb_blocks n h msg :
  length msg = (64 * n)%nat -> absorb (h, []) msg = (block_words n h msg, []).
Proof.
  revert h msg; induction n as [| n IH]; intros h msg Hl; [by destruct msg |].
  rewrite <- (take_drop 64 msg) at 1; rewrite absorb_app, absorb_fill; simpl app.
  - apply IH; rewrite length_drop; lia.
  - rewrite length_take, Hl; cbn [length]; lia.
  - intros E; apply (f_equal length) in E; rewrite length_take, Hl in E; cbn [length] in E; lia.
Qed.

Lemma absorb_pend_len xs : forall h pend, (length pend < 64)%nat ->
  Z.of_nat (length (absorb (h, pend) xs).2) = (Z.of_nat (length pend) + zlen xs) mod 64.
Proof.
  induction xs as [| x xs IH]; intros h pend Hl; simpl absorb.
  { unfold zlen; simpl; rewrite Z.mod_small; lia. }
  assert (Ex : zlen (x :: xs) = zlen xs + 1) by (unfold zlen; simpl; lia).
  rewrite Ex; simpl foldl; destruct (Nat.eqb_spec (length (pend ++ [x])) 64) as [E | E]; rewrite length_app in E; simpl in E.
  - fold (absorb (sha256_block h (pend ++ [x]), []) xs); rewrite IH by (simpl; lia); simpl.
    Z.to_euclidean_division_equations; lia.
  - fold (absorb (h, pend ++ [x]) xs); rewrite IH by (rewrite length_app; simpl; lia); rewrite length_app; simpl.
    f_equal; lia.
Qed.

Lemma be64_length bits : length (be64 bits) = 8%nat.
Proof. done. Qed.

Lemma padded_length data : exists n, length (padded_message data) = (64 * n)%nat.
Proof.
  exists (Z.to_nat ((zlen data + 9 + (55 - zlen data) mod 64) / 64)); unfold padded_message.
  rewrite length_app; cbn [length]; rewrite length_app, length_replicate, be64_length.
  pose proof (Z.mod_pos_bound (55 - zlen data) 64 ltac:(lia)); unfold zlen in *.
  apply Nat2Z.inj; rewrite Nat2Z.inj_mul, Z2Nat.id by (apply Z.div_pos; lia).
  rewrite !Nat2Z.inj_add, Nat2Z.inj_succ, Nat2Z.inj_add, Z2Nat.id by lia; Z.to_euclidean_division_equations; lia.
Qed.

(** [sha256_final] absorbs the padding. *)
Lemma final_rep c data :
  rep c (absorb (SHA256_H0, []) data) -> clen c = u64 (zlen data) ->
  (sha256_final c).1 = blockwise_digest data.
Proof.
  intros R Hl; unfold sha256_final, blockwise_digest; cbn [fst].
  destruct (update_rep _ _ [0x80] R) as [R1 _]; rewrite <- absorb_app in R1.
  set (m := Z.to_nat ((55 - zlen data) mod 64)); set (c1 := sha256_update c [128]) in *.
  pose proof (Z.mod_pos_bound (55 - zlen data) 64 ltac:(lia)).
  destruct (zero_fill_rep m c1 _ 64 R1) as (c2 & E2 & R2 & _); [| unfold m; lia |].
  { unfold zlen at 1; rewrite absorb_pend_len by (simpl; lia); unfold m.
    rewrite Z2Nat.id by lia; unfold zlen; rewrite length_app; simpl; Z.to_euclidean_division_equations; lia. }
  assert (Eb : u64 (clen c * 8) = u64 (zlen data * 8))
    by (rewrite Hl; unfold u64; rewrite Z.mul_mod_idemp_l by lia; done).
  rewrite Eb; unfold zero_fill; rewrite E2; change (default c1 (Some c2)) with c2.
  destruct (update_rep _ _ (be64 (u64 (zlen data * 8))) R2) as [R3 _].
  rewrite (rep_h _ _ R3), <- !absorb_app.
  replace ((data ++ [128]) ++ replicate m 0 ++ be64 (u64 (zlen data * 8))) with (padded_message data)
    by (unfold padded_message; fold m; rewrite <- !app_assoc; reflexivity).
  destruct (padded_length data) as (n & Hn); rewrite (absorb_blocks n _ _ Hn).
  rewrite Hn, Nat.mul_comm, Nat.div_mul by lia; done.
Qed.

Lemma init_rep c : length (cbuf c) = 64%nat -> rep (sha256_init c) (SHA256_H0, []).
Proof. intros; constructor; simpl; [done | done | done | done | lia]. Qed.

(** ** The block function is that of the standard *)

Lemma SHA256_K_fips : SHA256_K = Fips.K.
Proof. vm_compute; reflexivity. Qed.

Lemma SHA256_H0_fips : SHA256_H0 = Fips.H0.
Proof. vm_compute; reflexivity. Qed.

Lemma shiftl_u32 x n : 0 <= n <= 32 -> u32 (Z.shiftl x n) = x mod 2 ^ (32 - n) * 2 ^ n.
Proof.
  intros Hn; unfold u32; rewrite Z.shiftl_mul_pow2 by lia; replace (2 ^ 32) with (2 ^ (32 - n) * 2 ^ n) by (rewrite <- Z.pow_add_r by lia; f_equal; lia).
  rewrite Z.mul_mod_distr_r; [done | apply Z.pow_nonzero; lia ..].
Qed.

(** Numbers with no bit in common are joined by addition. *)
Lemma lor_shifted a b n : 0 <= n -> 0 <= b < 2 ^ n -> Z.lor (a * 2 ^ n) b = a * 2 ^ n + b.
Proof.
  intros Hn Hb; rewrite <- Z.add_lor_land; enough (Z.land (a * 2 ^ n) b = 0) as -> by lia.
  apply Z.bits_inj'; intros k Hk; rewrite Z.land_spec, Z.bits_0; destruct (Z.ltb_spec k n); [by rewrite Z.mul_pow2_bits_low by lia |].
  rewrite <- (Z.mod_small b (2 ^ n)) by lia; rewrite Z.mod_pow2_bits_high, andb_false_r by lia; done.
Qed.

Lemma ror_fips x n : Fips.word x -> 0 < n < 32 -> SHA256_ROR x n = Fips.ROTR n x.
Proof.
  intros Hx Hn; unfold SHA256_ROR, Fips.ROTR; rewrite shiftl_u32 by lia; replace (32 - (32 - n)) with n by lia.
  rewrite Z.lor_comm, Z.shiftr_div_pow2 by lia; apply lor_shifted; [lia |]; unfold Fips.word in Hx; split; [apply Z.div_pos; lia |].
  apply Z.div_lt_upper_bound; [lia |]; rewrite <- Z.pow_add_r by lia; replace (n + (32 - n)) with 32 by lia; lia.
Qed.

Lemma not32_fips x : Fips.word x -> not32 x = Fips.complement x.
Proof.
  unfold Fips.word, not32, Fips.complement, u32; intros Hx; replace (Z.lnot x) with (2 ^ 32 - 1 - x + -1 * 2 ^ 32) by (unfold Z.lnot; lia).
  rewrite Z.mod_add, Z.mod_small; lia.
Qed.

Lemma xor3_assoc a b c : xor3 a b c = Z.lxor a (Z.lxor b c).
Proof. apply Z.lxor_assoc. Qed.

Lemma u32_word x : Fips.word (u32 x).
Proof. apply u32_range. Qed.
#[local] Hint Resolve u32_word : core.

(** A word is put together from four bytes. *)
Lemma join_bytes a b c d :
  Fips.octet a -> Fips.octet b -> Fips.octet c -> Fips.octet d ->
  Z.lor (Z.lor (Z.lor (u32 (Z.shiftl a 24)) (u32 (Z.shiftl b 16))) (u32 (Z.shiftl c 8))) d = Fips.be_value [a; b; c; d] /\
  Fips.word (Fips.be_value [a; b; c; d]).
Proof.
  unfold Fips.octet; intros Ha Hb Hc Hd; split; [| unfold Fips.word, Fips.be_value; simpl; lia].
  rewrite !shiftl_u32, !Z.mod_small by (simpl; lia); rewrite (lor_shifted a (b * 2 ^ 16) 24) by lia.
  replace (a * 2 ^ 24 + b * 2 ^ 16) with ((a * 2 ^ 8 + b) * 2 ^ 16) by lia; rewrite (lor_shifted _ (c * 2 ^ 8) 16) by lia.
  replace ((a * 2 ^ 8 + b) * 2 ^ 16 + c * 2 ^ 8) with (((a * 2 ^ 8 + b) * 2 ^ 8 + c) * 2 ^ 8) by lia; rewrite (lor_shifted _ d 8) by lia.
  unfold Fips.be_value; simpl; lia.
Qed.

Lemma four_bytes p i :
  0 <= i -> i + 4 <= zlen p -> take 4 (drop (Z.to_nat i) p) = [znth 0 p i; znth 0 p (i + 1); znth 0 p (i + 2); znth 0 p (i + 3)].
Proof.
  unfold zlen; intros Hi Hl; assert (G : forall k, Z.of_nat k < 4 -> p !! (Z.to_nat i + k)%nat = Some (znth 0 p (i + Z.of_nat k))).
  { intros k Hk; destruct (lookup_lt_is_Some_2 p (Z.to_nat i + k)) as [x E]; [lia |]; rewrite E; f_equal; symmetry; apply znth_lookup; [lia |].
    by replace (Z.to_nat (i + Z.of_nat k)) with (Z.to_nat i + k)%nat by lia. }
  pose proof (G 0%nat ltac:(lia)) as E0; pose proof (G 1%nat ltac:(lia)) as E1; pose proof (G 2%nat ltac:(lia)) as E2; pose proof (G 3%nat ltac:(lia)) as E3.
  rewrite Nat.add_0_r, Z.add_0_r in E0; change (Z.of_nat 1) with 1 in E1; change (Z.of_nat 2) with 2 in E2; change (Z.of_nat 3) with 3 in E3.
  rewrite (drop_S _ _ _ E0), (drop_S p (znth 0 p (i + 1))), (drop_S p (znth 0 p (i + 2))), (drop_S p (znth 0 p (i + 3))); [done | ..];
    (eapply eq_trans; [| eassumption]; f_equal; lia).
Qed.

Lemma octet_znth p i : Forall Fips.octet p -> Fips.octet (znth 0 p i).
Proof.
  intros Hp; destruct (decide (0 <= i < zlen p)) as [Hi | Hi]; [| rewrite znth_out by lia; unfold Fips.octet; lia].
  unfold zlen in Hi; destruct (lookup_lt_is_Some_2 p (Z.to_nat i)) as [x E]; [lia |]; rewrite (znth_lookup 0 p i x) by (done || lia); by eapply Forall_lookup_1.
Qed.
#[local] Hint Resolve octet_znth : core.

(** A block of the standard. *)
Definition block_ok (p : list Z) : Prop := length p = 64%nat /\ Forall Fips.octet p.

Lemma schedule_word_fips p t : block_ok p -> 0 <= t < 16 -> schedule_word p t = Fips.message_word p t /\ Fips.word (Fips.message_word p t).
Proof.
  intros [Hl Hp] Ht; unfold schedule_word, Fips.message_word; rewrite four_bytes by (unfold zlen; lia); rewrite (Z.mul_comm t 4); apply join_bytes; auto.
Qed.

Lemma word_0 : Fips.word 0.
Proof. unfold Fips.word; lia. Qed.

Lemma schedule_words p n t : block_ok p -> Fips.word (znth 0 (Fips.schedule n p) t).
Proof.
  intros Hp; destruct (decide (0 <= t < Z.of_nat n)) as [Ht | Ht]; [| rewrite znth_out by (rewrite Fips.schedule_length; lia); apply word_0].
  rewrite (Fips.schedule_longer (S (Z.to_nat t))) by lia; pose proof (Fips.schedule_last (Z.to_nat t) p) as E; cbv zeta in E; rewrite Z2Nat.id in E by lia; rewrite E.
  destruct (Z.ltb_spec t 16); [apply schedule_word_fips; [done | lia] |]; apply u32_word.
Qed.
#[local] Hint Resolve schedule_words word_0 : core.

Lemma sigma_small_fips x n m k :
  Fips.word x -> 0 < n < 32 -> 0 < m < 32 -> 0 <= k ->
  xor3 (SHA256_ROR x n) (SHA256_ROR x m) (Z.shiftr x k) = Z.lxor (Fips.ROTR n x) (Z.lxor (Fips.ROTR m x) (Fips.SHR k x)).
Proof. intros; by rewrite xor3_assoc, !ror_fips, Z.shiftr_div_pow2. Qed.

Lemma sigma_big_fips x n m k :
  Fips.word x -> 0 < n < 32 -> 0 < m < 32 -> 0 < k < 32 ->
  xor3 (SHA256_ROR x n) (SHA256_ROR x m) (SHA256_ROR x k) = Z.lxor (Fips.ROTR n x) (Z.lxor (Fips.ROTR m x) (Fips.ROTR k x)).
Proof. intros; by rewrite xor3_assoc, !ror_fips. Qed.

Lemma seqZ_one s : seqZ s 1 = [s].
Proof. by rewrite seqZ_cons by lia. Qed.

Lemma first_words_fips p k : block_ok p -> (k <= 16)%nat -> schedule_word p <$> seqZ 0 (Z.of_nat k) = Fips.schedule k p.
Proof.
  intros Hp; induction k as [| k IH]; intros Hk; [done |]; rewrite Nat2Z.inj_succ, <- Z.add_1_r, seqZ_app, fmap_app, IH by lia; cbn [Fips.schedule]; f_equal.
  rewrite seqZ_one, Z.add_0_l; destruct (Z.ltb_spec (Z.of_nat k) 16); [| lia].
  cbn [fmap list_fmap]; f_equal; apply schedule_word_fips; [done | lia].
Qed.

Lemma schedule_next_fips p n : block_ok p -> (16 <= n)%nat -> schedule_next (Fips.schedule n p) (Z.of_nat n) = Fips.schedule (S n) p.
Proof.
  intros Hp Hn; cbn [Fips.schedule]; unfold schedule_next; destruct (Z.ltb_spec (Z.of_nat n) 16); [lia |].
  rewrite !sigma_small_fips by (auto || lia); unfold u32, Fips.sigma0, Fips.sigma1; f_equal; f_equal; f_equal; lia.
Qed.

Lemma next_words_fips p n m : block_ok p -> (16 <= m)%nat -> foldl schedule_next (Fips.schedule m p) (seqZ (Z.of_nat m) (Z.of_nat n)) = Fips.schedule (n + m) p.
Proof.
  intros Hp Hm; induction n as [| n IH]; [done |]; rewrite Nat2Z.inj_succ, <- Z.add_1_r, seqZ_app by lia; rewrite foldl_app, IH, seqZ_one.
  cbn [foldl]; rewrite <- Nat2Z.inj_add, (Nat.add_comm m n); apply schedule_next_fips; [done | lia].
Qed.

Lemma schedule_fips p : block_ok p -> schedule p = Fips.W p.
Proof.
  intros Hp; unfold schedule, Fips.W; pose proof (first_words_fips p 16 Hp ltac:(lia)) as E; change (Z.of_nat 16) with 16 in E; rewrite E.
  exact (next_words_fips p 48 16 Hp ltac:(lia)).
Qed.

(** The working variables of the two rounds. *)
Definition vars_of (r : regs) : Fips.vars := (ra r, rb r, rc r, rd r, re r, rf r, rg r, rh r).
Definition regs_ok (r : regs) : Prop :=
  Fips.word (ra r) /\ Fips.word (rb r) /\ Fips.word (rc r) /\ Fips.word (rd r) /\ Fips.word (re r) /\ Fips.word (rf r) /\ Fips.word (rg r) /\ Fips.word (rh r).

Lemma round_fips w r i : regs_ok r -> vars_of (sha_round w r i) = Fips.round w (vars_of r) i /\ regs_ok (sha_round w r i).
Proof.
  intros (Ha & Hb & Hc & Hd & He & Hf & Hg & Hh); unfold sha_round, vars_of, regs_ok, Fips.round; cbn [ra rb rc rd re rf rg rh]; split; [| by auto 10].
  rewrite !sigma_big_fips, not32_fips, xor3_assoc, SHA256_K_fips by (auto || lia); reflexivity.
Qed.

Lemma rounds_fips w l r : regs_ok r -> vars_of (foldl (sha_round w) r l) = foldl (Fips.round w) (vars_of r) l.
Proof. revert r; induction l as [| i l IH]; intros r Hr; [done |]; destruct (round_fips w r i Hr) as [E R]; simpl; by rewrite IH, E. Qed.

Definition words8 (h : list Z) : Prop := length h = 8%nat /\ Forall Fips.word h.

Lemma sha256_block_words h p : words8 (sha256_block h p).
Proof. split; [done |]; unfold sha256_block; repeat constructor; apply u32_range. Qed.

(** [sha256_block] is the compression of the standard. *)
Lemma sha256_block_fips h p : words8 h -> block_ok p -> sha256_block h p = Fips.compress h p.
Proof.
  intros [Hl Hw] Hp; do 8 (destruct h as [| ? h]; [done |]); destruct h; [| done]; repeat (apply Forall_cons in Hw as [? Hw]).
  unfold sha256_block, Fips.compress; cbv zeta; rewrite schedule_fips by done; generalize (Fips.W p); intros w.
  set (r0 := {| ra := _ |}); assert (R : regs_ok r0) by (unfold r0, regs_ok; cbn [ra rb rc rd re rf rg rh]; split_and!; assumption).
  pose proof (rounds_fips w (seqZ 0 64) r0 R) as E; change (vars_of r0) with (z, z0, z1, z2, z3, z4, z5, z6) in E; rewrite <- E.
  generalize (foldl (sha_round w) r0 (seqZ 0 64)); intros r; unfold vars_of; cbn [fmap list_fmap]; unfold u32.
  rewrite (Z.add_comm (ra r)), (Z.add_comm (rb r)), (Z.add_comm (rc r)), (Z.add_comm (rd r)), (Z.add_comm (re r)), (Z.add_comm (rf r)), (Z.add_comm (rg r)), (Z.add_comm (rh r)); reflexivity.
Qed.

Lemma block_words_fips n h msg :
  words8 h -> length msg = (64 * n)%nat -> Forall Fips.octet msg -> block_words n h msg = Fips.hash_blocks n h msg.
Proof.
  revert h msg; induction n as [| n IH]; intros h msg Hh Hl Hm; [done |]; simpl.
  assert (Hb : block_ok (take 64 msg)) by (split; [rewrite length_take; lia | by apply Forall_take]).
  rewrite <- (sha256_block_fips h (take 64 msg) Hh Hb); apply IH; [apply sha256_block_words | rewrite length_drop; lia | by apply Forall_drop].
Qed.

Lemma word_bytes_fips h : word_bytes h = Fips.be_bytes 4 h.
Proof.
  unfold word_bytes, u8; cbn [Fips.be_bytes app]; rewrite !Z.shiftr_div_pow2, !Z.div_div by lia; reflexivity.
Qed.

Lemma be64_fips x : be64 (u64 x) = Fips.be_bytes 8 x.
Proof.
  unfold be64; change (seqZ 0 8) with [0; 1; 2; 3; 4; 5; 6; 7]; cbn [fmap list_fmap Fips.be_bytes app]; rewrite !Z.div_div by lia; unfold u8, u64.
  rewrite !Z.shiftr_div_pow2 by lia; repeat (f_equal; try (Z.to_euclidean_division_equations; lia)).
Qed.

Lemma padded_message_fips data : padded_message data = Fips.pad data.
Proof. unfold padded_message, Fips.pad; by rewrite be64_fips, (Z.mul_comm (zlen data) 8). Qed.

Lemma be_bytes_octets n x : Forall Fips.octet (Fips.be_bytes n x).
Proof. revert x; induction n as [| n IH]; intros x; [constructor |]; simpl; apply Forall_app; split; [apply IH |]; repeat constructor; apply Z.mod_pos_bound; lia. Qed.

Lemma pad_octets data : Forall Fips.octet data -> Forall Fips.octet (Fips.pad data).
Proof.
  intros Hd; unfold Fips.pad; apply Forall_app; split; [done |]; constructor; [unfold Fips.octet; lia |]; apply Forall_app; split; [| apply be_bytes_octets].
  apply Forall_replicate; unfold Fips.octet; lia.
Qed.

Lemma blockwise_digest_fips data : Forall Fips.octet data -> blockwise_digest data = Fips.SHA256 data.
Proof.
  intros Hd; unfold blockwise_digest, Fips.SHA256; cbv zeta; destruct (padded_length data) as [n Hn]; rewrite <- padded_message_fips, Hn.
  assert (En : (64 * n / 64)%nat = n) by (rewrite Nat.mul_comm; apply Nat.div_mul; lia); rewrite En.
  rewrite <- SHA256_H0_fips, <- block_words_fips; [| | done | rewrite padded_message_fips; by apply pad_octets].
  - generalize (block_words n SHA256_H0 (padded_message data)); intros l; induction l as [| x l IH]; [done |]; cbn [fmap list_fmap concat mjoin list_join].
    by rewrite word_bytes_fips, IH.
  - split; [done |]; unfold SHA256_H0; repeat constructor; vm_compute; congruence.
Qed.

(** ** Properties *)

(** C32: hashing a message in pieces of any sizes, on a context whose buffer
    holds anything, gives the SHA-256 of the whole message as FIPS 180-4 defines
    it ([Fips180], written apart from the code: rotations as arithmetic, the
    schedule as its recurrence, the constants from the roots of the primes):
    the block function, the constants, the padding, the length field and the
    chaining are those of the standard, every loop of [sha256_update] and
    [sha256_final] ends, and the internal buffering cannot be observed. *)
Theorem sha256_streaming parts c :
  length (cbuf c) = 64%nat -> Forall Fips.octet (concat parts) ->
  (sha256_final (foldl sha256_update (sha256_init c) parts)).1 = Fips.SHA256 (concat parts).
Proof.
  intros Hc Ho; destruct (updates_rep parts _ _ (init_rep c Hc)) as [R L]; [done |].
  rewrite <- blockwise_digest_fips by done; apply final_rep; [exact R | rewrite L; done].
Qed.

(** a Merkle node is the hash of its two children side by side. *)
Theorem merkle_pair_is_hash left right : sha256_merkle_pair left right = sha256_buf (left ++ right).
Proof.
  unfold sha256_merkle_pair, sha256_buf.
  pose proof (init_rep ctx_uninit eq_refl) as R0.
  destruct (updates_rep [left; right] _ _ R0) as [R L]; [done |].
  destruct (updates_rep [left ++ right] _ _ R0) as [R' L']; [done |].
  cbn [foldl concat] in *; rewrite app_nil_r in *.
  rewrite (final_rep _ (left ++ right) R L), (final_rep _ (left ++ right) R' L'); done.
Qed.

(** ** Witnesses *)

(** The digest of "abc", fed as "a" and "bc". *)
Lemma sha256_streaming_witness :
  (sha256_final (foldl sha256_update (sha256_init ctx_uninit) [[0x61]; [0x62; 0x63]])).1 =
  [0xba; 0x78; 0x16; 0xbf; 0x8f; 0x01; 0xcf; 0xea; 0x41; 0x41; 0x40; 0xde; 0x5d; 0xae; 0x22; 0x23;
   0xb0; 0x03; 0x61; 0xa3; 0x96; 0x17; 0x7a; 0x9c; 0xb4; 0x10; 0xff; 0x61; 0xf2; 0x00; 0x15; 0xad].
Proof.
  rewrite sha256_streaming; [exact Fips.sha256_abc | reflexivity |]; repeat constructor; vm_compute; congruence.
Defined.
