(* ===== verification/Gpt.v ===== *)
(** * Partition tables

    [kernel/fs/gpt.c]: the GPT parser with its checksums, the MBR fallback, and
    the lookups by index and by role.  The block device is a parameter: a read
    of [count] sectors at [lba] gives their bytes, or fails. *)
From stdpp Require Import base numbers list.
From S2P Require Import Prelude Bytes Crc32.

(** ** Bytes *)

(** [bytes] written over the start of [buf]. *)
Definition load (buf bytes : list Z) : list Z := bytes ++ drop (length bytes) buf.

(** ** State *)

Record partition := {
  start_lba : Z; end_lba : Z; size_sectors : Z; pindex : Z; type_guid : list Z }.

Definition partition0 : partition :=
  {| start_lba := 0; end_lba := 0; size_sectors := 0; pindex := 0; type_guid := replicate 16 0 |}.

Definition MAX_PARTITIONS : Z := 16.

(** The globals [partitions] and [num_partitions]. *)
Record ptable := { partitions : list partition; num_partitions : Z }.

Definition ptable0 : ptable := {| partitions := replicate 16 partition0; num_partitions := 0 |}.

(** [GFault]: an access outside a buffer, or a division by zero. *)
Inductive gres := GRet (t : ptable) | GFault.

Definition GPT_SIGNATURE : Z := 0x5452415020494645.
Definition MBR_SIGNATURE : Z := 0xAA55.
Definition PAGE : Z := 4096.

(** ** MBR *)

(** Slot [i] of the table at byte 446. *)
Definition mbr_slot (t : ptable) (buf : list Z) (i : Z) : ptable :=
  let o := 446 + 16 * i in
  let ty := znth 0 buf (o + 4) in
  if ty =? 0 then t
  else
    let idx := i + 1 in
    if MAX_PARTITIONS <=? idx then t
    else
      let start := le32 buf (o + 8) in
      let sectors := le32 buf (o + 12) in
      let p := {| start_lba := start; size_sectors := sectors; end_lba := u64 (u64 (start + sectors) - 1);
                  pindex := idx; type_guid := ty :: replicate 15 0 |} in
      {| partitions := zset (partitions t) idx p;
         num_partitions := if num_partitions t <=? idx then idx + 1 else num_partitions t |}.

Definition mbr_init (t : ptable) (buf : list Z) : ptable :=
  if negb (le16 buf 510 =? MBR_SIGNATURE) then t
  else foldl (fun t i => mbr_slot t buf i) {| partitions := partitions t; num_partitions := 0 |} (seqZ 0 4).

(** ** GPT *)

(** The header's fields, by offset. *)
Definition h_signature (b : list Z) : Z := le64 b 0.
Definition h_header_size (b : list Z) : Z := le32 b 12.
Definition h_header_crc32 (b : list Z) : Z := le32 b 16.
Definition h_partition_entry_lba (b : list Z) : Z := le64 b 72.
Definition h_num_partition_entries (b : list Z) : Z := le32 b 80.
Definition h_partition_entry_size (b : list Z) : Z := le32 b 84.
Definition h_partition_entry_crc32 (b : list Z) : Z := le32 b 88.

(** The header with its checksum field zeroed. *)
Definition clear_crc (b : list Z) : list Z := take 16 b ++ [0; 0; 0; 0] ++ drop 20 b.

(** The entry at offset [o]: type, first and last sector. *)
Definition e_type (b : list Z) (o : Z) : list Z := slice b o 16.
Definition is_unused (b : list Z) (o : Z) : bool := forallb (fun x => x =? 0) (e_type b o).
Definition entry_partition (b : list Z) (o k : Z) : partition :=
  {| start_lba := le64 b (o + 32); end_lba := le64 b (o + 40);
     size_sectors := u64 (u64 (le64 b (o + 40) - le64 b (o + 32)) + 1); pindex := k; type_guid := e_type b o |}.

(** The parsing loop, over the entry numbers left. *)
Fixpoint parse_entries (b : list Z) (esz : Z) (ns : list Z) (t : ptable) : gres :=
  match ns with
  | [] => GRet t
  | i :: ns =>
    let o := u32 (i * esz) in
    if zlen b <? o + 16 then GFault
    else if is_unused b o then parse_entries b esz ns t
    else if MAX_PARTITIONS <=? num_partitions t then GRet t
    else if zlen b <? o + 48 then GFault
    else
      let k := num_partitions t in
      parse_entries b esz ns
        {| partitions := zset (partitions t) k (entry_partition b o k); num_partitions := k + 1 |}
  end.

(** The zeroed page with a sector read into it. *)
Definition page_with (sector : list Z) : list Z := load (replicate (Z.to_nat PAGE) 0) sector.

Section init.
Variable block_read : Z -> Z -> option (list Z).

(** The three places that give up on the GPT read LBA 0 into the page. *)
Definition mbr_fallback (t : ptable) (buf : list Z) : gres :=
  match block_read 0 1 with
  | None => GRet t
  | Some sector => GRet (mbr_init t (load buf sector))
  end.

(** From the entries on: [buf] is the page with the header. *)
Definition read_entries (ok_pages : bool) (t : ptable) (buf : list Z) : gres :=
  let esz := h_partition_entry_size buf in
  let total := u32 (h_num_partition_entries buf * esz) in
  let num_pages := u32 ((total + PAGE - 1) / PAGE) in
  let sectors := u32 (total + 511) / 512 in
  let '(total, sectors, ebuf) :=
    if 1 <? num_pages then
      if ok_pages then (total, sectors, replicate (Z.to_nat (PAGE * num_pages)) 0)
      else (u32 (32 * esz), u32 (u32 (32 * esz) + 511) / 512, buf)
    else (total, sectors, buf) in
  match block_read (h_partition_entry_lba buf) sectors with
  | None => GRet t
  | Some bytes =>
    if zlen ebuf <? zlen bytes then GFault
    else
      let ebuf := load ebuf bytes in
      if zlen ebuf <? total then GFault
      else if negb (crc32 (slice ebuf 0 total) =? h_partition_entry_crc32 buf) then mbr_fallback t buf
      else if esz =? 0 then GFault
      else parse_entries ebuf esz (seqZ 0 (total / esz))
             {| partitions := partitions t; num_partitions := 0 |}
  end.

(** [gpt_init]; the booleans say whether the page and the entries' pages could
    be allocated. *)
Definition gpt_init (ok_page ok_pages : bool) (t : ptable) : gres :=
  if negb ok_page then GRet t
  else
    match block_read 1 1 with
    | None => GRet t
    | Some sector =>
      let buf := page_with sector in
      if negb (h_signature buf =? GPT_SIGNATURE) then mbr_fallback t buf
      else if PAGE <? h_header_size buf then GFault
      else if negb (crc32 (slice (clear_crc buf) 0 (h_header_size buf)) =? h_header_crc32 buf)
      then mbr_fallback t buf
      else read_entries ok_pages t buf
    end.
End init.

(** ** Lookups *)

Definition gpt_get_partition (t : ptable) (index : Z) : option partition :=
  if (index <? 0) || (num_partitions t <=? index) then None
  else Some (znth partition0 (partitions t) index).

Definition nexs_d1 : list Z := [0x53; 0x58; 0x45; 0x4E].

Definition partition_role (p : partition) : Z :=
  let g := type_guid p in
  if negb (forallb (fun i => znth 0 g i =? znth 0 nexs_d1 i) (seqZ 0 4)) then 0
  else if negb (znth 0 g 6 =? 0x58) || negb (znth 0 g 7 =? 0x4E) then 0
  else u16 (Z.lor (znth 0 g 4) (u16 (Z.shiftl (znth 0 g 5) 8))).

Fixpoint find_role (t : ptable) (role : Z) (ns : list Z) : option partition :=
  match ns with
  | [] => None
  | i :: ns =>
    if partition_role (znth partition0 (partitions t) i) =? role
    then Some (znth partition0 (partitions t) i) else find_role t role ns
  end.

Definition partition_find_by_role (t : ptable) (role : Z) : option partition :=
  if role =? 0 then None else find_role t role (seqZ 0 (num_partitions t)).

(** ** What the parser reads *)

(** The device returns whole sectors of bytes. *)
Definition dev_ok (block_read : Z -> Z -> option (list Z)) : Prop :=
  forall lba n bytes, block_read lba n = Some bytes -> zlen bytes = 512 * n /\ Forall is_byte bytes.

(** The used entries among those numbered [ns], by offset. *)
Definition used_offsets (b : list Z) (esz : Z) (ns : list Z) : list Z :=
  List.filter (fun o => negb (is_unused b o)) ((fun i => i * esz) <$> ns).

(** Entries [offs] of [b], stored from slot [k] on. *)
Fixpoint store (b : list Z) (offs : list Z) (t : ptable) : ptable :=
  match offs with
  | [] => t
  | o :: offs =>
    let k := num_partitions t in
    store b offs {| partitions := zset (partitions t) k (entry_partition b o k); num_partitions := k + 1 |}
  end.

Lemma u32_entry i esz total : 0 <= i -> 0 < esz -> i < total / esz -> total < 2 ^ 32 -> u32 (i * esz) = i * esz.
Proof.
  intros Hi He Hlt Ht; apply u32_small; pose proof (Z.mul_div_le total esz ltac:(lia)); nia.
Qed.

(** The loop stores the first used entries, as many as there are slots. *)
Lemma parse_entries_spec b esz ns t :
  0 < esz -> 0 <= num_partitions t <= MAX_PARTITIONS ->
  (forall i, i ∈ ns -> 0 <= i /\ i * esz < 2 ^ 32 /\ i * esz + 48 <= zlen b) ->
  parse_entries b esz ns t =
  GRet (store b (take (Z.to_nat (MAX_PARTITIONS - num_partitions t)) (used_offsets b esz ns)) t).
Proof.
  intros He; revert t; induction ns as [| i ns IH]; intros t Ht Hn; [by destruct (Z.to_nat _) |].
  destruct (Hn i) as (Hi & Hu & Hb); [by apply elem_of_cons; left |].
  assert (Hn' : forall j, j ∈ ns -> 0 <= j /\ j * esz < 2 ^ 32 /\ j * esz + 48 <= zlen b)
    by (intros j Hj; apply Hn; by apply elem_of_cons; right).
  cbn [parse_entries]; cbv zeta; rewrite u32_small by nia.
  rewrite (proj2 (Z.ltb_ge _ (i * esz + 16))), (proj2 (Z.ltb_ge _ (i * esz + 48))) by lia.
  unfold used_offsets; cbn [fmap list_fmap]; cbn [List.filter].
  destruct (is_unused b (i * esz)); cbn [negb]; [by apply IH |].
  destruct (Z.leb_spec MAX_PARTITIONS (num_partitions t)).
  { replace (Z.to_nat (MAX_PARTITIONS - num_partitions t)) with 0%nat by lia; done. }
  rewrite IH by (simpl; done || lia); simpl num_partitions.
  replace (Z.to_nat (MAX_PARTITIONS - num_partitions t))
    with (S (Z.to_nat (MAX_PARTITIONS - (num_partitions t + 1)))) by lia; done.
Qed.

Lemma store_num b offs t : num_partitions (store b offs t) = num_partitions t + zlen offs.
Proof.
  revert t; induction offs as [| o offs IH]; intros t; cbn [store]; [unfold zlen; simpl; lia |].
  rewrite IH; simpl; unfold zlen; simpl; lia.
Qed.

Lemma store_len b offs t : zlen (partitions (store b offs t)) = zlen (partitions t).
Proof.
  revert t; induction offs as [| o offs IH]; intros t; cbn [store]; [done |]; rewrite IH; simpl; apply zlen_zset.
Qed.

Lemma store_before b offs t j :
  j < num_partitions t -> znth partition0 (partitions (store b offs t)) j = znth partition0 (partitions t) j.
Proof.
  revert t; induction offs as [| o offs IH]; intros t Hj; cbn [store]; [done |].
  rewrite IH by (simpl; lia); simpl; apply znth_zset_ne; lia.
Qed.

Lemma store_nth b offs t j o :
  0 <= num_partitions t -> num_partitions t + zlen offs <= zlen (partitions t) ->
  offs !! j = Some o ->
  let k := num_partitions t + Z.of_nat j in
  znth partition0 (partitions (store b offs t)) k = entry_partition b o k.
Proof.
  revert t j; induction offs as [| o' offs IH]; intros t j H0 Hl Hj; [done |].
  assert (Hz : zlen (o' :: offs) = zlen offs + 1) by (unfold zlen; simpl; lia).
  assert (0 <= zlen offs) by (unfold zlen; lia).
  destruct j as [| j]; cbn [store lookup] in *; cbv zeta.
  - injection Hj as ->; rewrite Z.add_0_r, store_before by (simpl; lia); simpl.
    rewrite znth_zset by lia; by rewrite Z.eqb_refl.
  - specialize (IH {| partitions := zset (partitions t) (num_partitions t) (entry_partition b o' (num_partitions t));
                      num_partitions := num_partitions t + 1 |} j).
    cbv zeta in IH; simpl num_partitions in IH; simpl partitions in IH.
    replace (num_partitions t + Z.of_nat (S j)) with (num_partitions t + 1 + Z.of_nat j) by lia.
    apply IH; [lia | rewrite zlen_zset; lia | done].
Qed.

(** ** Buffers *)

Lemma znth_load x bytes i : i < zlen bytes -> znth 0 (load x bytes) i = znth 0 bytes i.
Proof.
  intros Hi; unfold znth, load; case_if; [done |]; rewrite lookup_app_l; [done |]; unfold zlen in Hi; lia.
Qed.

Lemma slice_load x bytes o n : 0 <= o -> 0 <= n -> o + n <= zlen bytes -> slice (load x bytes) o n = slice bytes o n.
Proof.
  intros Ho Hn Hl; unfold slice, load, zlen in *; rewrite drop_app_le by lia.
  rewrite take_app_le by (rewrite length_drop; lia); done.
Qed.

Lemma le64_load x bytes o : o + 8 <= zlen bytes -> le64 (load x bytes) o = le64 bytes o.
Proof. intros Hl; unfold le64, le32, le16; rewrite !znth_load by lia; done. Qed.

Lemma entry_load x bytes o k :
  0 <= o -> o + 48 <= zlen bytes ->
  is_unused (load x bytes) o = is_unused bytes o /\ entry_partition (load x bytes) o k = entry_partition bytes o k.
Proof.
  intros Ho Hl; unfold is_unused, entry_partition, e_type; rewrite slice_load, !le64_load by lia; done.
Qed.

Lemma used_offsets_load x bytes esz ns :
  (forall i, i ∈ ns -> 0 <= i * esz /\ i * esz + 48 <= zlen bytes) ->
  used_offsets (load x bytes) esz ns = used_offsets bytes esz ns.
Proof.
  intros Hn; unfold used_offsets; induction ns as [| i ns IH]; [done |]; cbn [fmap list_fmap List.filter].
  destruct (Hn i) as [? ?]; [by apply elem_of_cons; left |].
  rewrite (proj1 (entry_load x bytes (i * esz) 0 ltac:(lia) ltac:(lia))), IH; [done |].
  intros j Hj; apply Hn; by apply elem_of_cons; right.
Qed.

Lemma used_offsets_in bytes esz ns o :
  o ∈ used_offsets bytes esz ns -> exists i, i ∈ ns /\ o = i * esz.
Proof.
  unfold used_offsets; rewrite list_elem_of_In, List.filter_In; intros [Ho _].
  apply list_elem_of_In, list_elem_of_fmap in Ho as (i & -> & Hi); by exists i.
Qed.

(** ** A valid table *)

(** The device holds a GPT header [hdr] whose checksum is right, and [bytes]
    where the header says the entries are. *)
Record gpt_on (block_read : Z -> Z -> option (list Z)) (hdr bytes : list Z) : Prop := {
  go_dev : dev_ok block_read;
  go_hdr : block_read 1 1 = Some hdr;
  go_sig : h_signature (page_with hdr) = GPT_SIGNATURE;
  go_size : h_header_size (page_with hdr) <= PAGE;
  go_crc : crc32 (slice (clear_crc (page_with hdr)) 0 (h_header_size (page_with hdr))) = h_header_crc32 (page_with hdr);
  go_esz : 48 <= h_partition_entry_size (page_with hdr);
  go_num : 0 < h_num_partition_entries (page_with hdr);
  go_total : h_num_partition_entries (page_with hdr) * h_partition_entry_size (page_with hdr) < 2 ^ 31;
  go_read : block_read (h_partition_entry_lba (page_with hdr))
    ((h_num_partition_entries (page_with hdr) * h_partition_entry_size (page_with hdr) + 511) / 512) = Some bytes }.

Definition total_of (hdr : list Z) : Z :=
  h_num_partition_entries (page_with hdr) * h_partition_entry_size (page_with hdr).

Section valid.
Variables (block_read : Z -> Z -> option (list Z)) (hdr bytes : list Z).
Hypothesis G : gpt_on block_read hdr bytes.
Abbreviation buf := (page_with hdr).
Abbreviation esz := (h_partition_entry_size buf).
Abbreviation num := (h_num_partition_entries buf).

Lemma total_pos : 0 < total_of hdr < 2 ^ 31.
Proof. destruct G; unfold total_of; split; [nia | done]. Qed.

Lemma bytes_len : total_of hdr <= zlen bytes <= total_of hdr + 511 /\ zlen bytes mod 512 = 0.
Proof.
  destruct (go_dev _ _ _ G _ _ _ (go_read _ _ _ G)) as [-> _]; fold (total_of hdr).
  rewrite Z.mul_comm, Z.mod_mul by lia; split; [| done]; Z.to_euclidean_division_equations; lia.
Qed.

Lemma page_len : zlen buf = PAGE.
Proof.
  destruct (go_dev _ _ _ G _ _ _ (go_hdr _ _ _ G)) as [Hl _]; unfold page_with, load, zlen, PAGE in *.
  rewrite length_app, length_drop, length_replicate; lia.
Qed.

(** Past the header, [gpt_init] comes to the checksum of the entries, in a
    buffer that starts with [bytes]. *)
Lemma gpt_init_entries t :
  exists x, zlen (load x bytes) >= total_of hdr /\
  gpt_init block_read true true t =
  if negb (crc32 (slice bytes 0 (total_of hdr)) =? h_partition_entry_crc32 buf) then mbr_fallback block_read t buf
  else parse_entries (load x bytes) esz (seqZ 0 num) {| partitions := partitions t; num_partitions := 0 |}.
Proof.
  pose proof total_pos as Tp; pose proof bytes_len as [Bl _]; pose proof page_len as Pl.
  pose proof G as [_ Hh Hs Hz Hc He Hn Ht Hr].
  unfold gpt_init; change (negb true) with false; cbv iota; rewrite Hh; cbv zeta.
  rewrite Hs, Z.eqb_refl, Hc, Z.eqb_refl, (proj2 (Z.ltb_ge _ _) Hz); change (negb true) with false; cbv iota.
  unfold read_entries; cbv zeta; fold (total_of hdr) in *.
  rewrite (u32_small (total_of hdr)), (u32_small (total_of hdr + 511)) by lia.
  set (np := u32 ((total_of hdr + PAGE - 1) / PAGE)).
  assert (Enp : np = (total_of hdr + PAGE - 1) / PAGE).
  { unfold np, PAGE; apply u32_small; Z.to_euclidean_division_equations; lia. }
  set (x := if 1 <? np then replicate (Z.to_nat (PAGE * np)) 0 else buf); exists x.
  assert (Ex : (if 1 <? np then (total_of hdr, (total_of hdr + 511) / 512, replicate (Z.to_nat (PAGE * np)) 0)
                else (total_of hdr, (total_of hdr + 511) / 512, buf)) = (total_of hdr, (total_of hdr + 511) / 512, x))
    by (unfold x; case_if; done).
  rewrite Ex, Hr; assert (Hxl : zlen bytes <= zlen x).
  { pose proof bytes_len as [_ Bm]; unfold x; destruct (Z.ltb_spec 1 np).
    - rewrite zlen_replicate by (unfold PAGE; lia); rewrite Enp; unfold PAGE in *; Z.to_euclidean_division_equations; lia.
    - rewrite Pl; unfold PAGE in *; Z.to_euclidean_division_equations; lia. }
  assert (Hll : zlen (load x bytes) = zlen x) by (unfold load, zlen in *; rewrite length_app, length_drop; lia).
  rewrite (proj2 (Z.ltb_ge (zlen x) (zlen bytes))), (proj2 (Z.ltb_ge (zlen (load x bytes)) _)) by lia.
  split; [lia |]; rewrite slice_load by lia; rewrite (proj2 (Z.eqb_neq esz 0)) by lia.
  unfold total_of; rewrite Z.div_mul by lia; done.
Qed.

Lemma entry_bounds i : i ∈ seqZ 0 num -> 0 <= i /\ 0 <= i * esz /\ i * esz < 2 ^ 32 /\ i * esz + 48 <= total_of hdr.
Proof.
  intros Hi%elem_of_seqZ; pose proof G as [_ _ _ _ _ He _ Ht _]; fold (total_of hdr) in Ht.
  assert (i * esz + esz <= total_of hdr) by (unfold total_of; nia); split_and!; nia.
Qed.
End valid.

(** ** Properties *)

(** on a disk with a valid GPT (checksums right, entries of at least 48
    bytes), [gpt_init] ends without a bad access, and [gpt_get_partition(k)]
    then gives the [k]-th used entry of the table, in table order, for the
    first sixteen of them and nothing else. *)
Theorem gpt_init_reads_table block_read hdr bytes t :
  gpt_on block_read hdr bytes -> zlen (partitions t) = MAX_PARTITIONS ->
  crc32 (slice bytes 0 (total_of hdr)) = h_partition_entry_crc32 (page_with hdr) ->
  let used := take 16 (used_offsets bytes (h_partition_entry_size (page_with hdr))
                         (seqZ 0 (h_num_partition_entries (page_with hdr)))) in
  exists t', gpt_init block_read true true t = GRet t' /\ num_partitions t' = zlen used /\
    forall k, gpt_get_partition t' k =
      (if k <? 0 then None else (fun o => entry_partition bytes o k) <$> used !! Z.to_nat k).
Proof.
  intros G Ht Hcrc used; destruct (gpt_init_entries block_read hdr bytes G t) as (x & Hx & ->).
  rewrite Hcrc, Z.eqb_refl; cbn [negb].
  pose proof (entry_bounds block_read hdr bytes G) as Eb; pose proof (bytes_len block_read hdr bytes G) as [Bl _].
  set (esz := h_partition_entry_size (page_with hdr)) in *; set (num := h_num_partition_entries (page_with hdr)) in *.
  assert (He : 48 <= esz) by apply G.
  rewrite parse_entries_spec; [| lia | simpl; unfold MAX_PARTITIONS; lia | intros i Hi; destruct (Eb i Hi) as (? & ? & ? & ?); lia].
  rewrite used_offsets_load by (intros i Hi; destruct (Eb i Hi) as (? & ? & ? & ?); lia).
  change (Z.to_nat (MAX_PARTITIONS - num_partitions _)) with 16%nat; fold used.
  assert (Hu : zlen used <= 16) by (unfold zlen, used; rewrite length_take; lia).
  eexists; split; [done |]; rewrite store_num; split; [done |]; intros k.
  unfold gpt_get_partition; rewrite store_num; simpl num_partitions; rewrite Z.add_0_l.
  destruct (Z.ltb_spec k 0); [done |]; simpl orb.
  destruct (Z.leb_spec (zlen used) k) as [Hk | Hk].
  { rewrite (lookup_ge_None_2 used); [done |]; unfold zlen in Hk; lia. }
  destruct (lookup_lt_is_Some_2 used (Z.to_nat k)) as [o Ho]; [unfold zlen in Hk; lia |].
  rewrite Ho; cbn [fmap option_fmap option_map]; f_equal.
  pose proof (store_nth (load x bytes) used {| partitions := partitions t; num_partitions := 0 |} (Z.to_nat k) o) as Hs.
  cbv zeta in Hs; simpl num_partitions in Hs; simpl partitions in Hs; rewrite Z2Nat.id, (Z.add_0_l k) in Hs by lia.
  rewrite Hs by (done || (unfold MAX_PARTITIONS in Ht; lia)).
  apply list_elem_of_lookup_2, elem_of_take in Ho as (j & Ho & _); apply list_elem_of_lookup_2, used_offsets_in in Ho as (i & Hi & ->).
  destruct (Eb i Hi) as (? & ? & ? & ?); apply entry_load; lia.
Qed.

(** C34: a damaged entry table is never used: when one byte of the entries of
    a valid table is changed, [gpt_init] falls back to the MBR. *)
Theorem gpt_rejects_corruption block_read hdr pre b b' post t :
  gpt_on block_read hdr (pre ++ b' :: post) -> is_byte b -> b <> b' -> zlen pre < total_of hdr ->
  crc32 (slice (pre ++ b :: post) 0 (total_of hdr)) = h_partition_entry_crc32 (page_with hdr) ->
  gpt_init block_read true true t = mbr_fallback block_read t (page_with hdr).
Proof.
  intros G Hb Hne Hp Hcrc; destruct (gpt_init_entries _ _ _ G t) as (x & _ & ->).
  assert (Hsl : forall c, slice (pre ++ c :: post) 0 (total_of hdr) =
            pre ++ c :: take (Z.to_nat (total_of hdr) - length pre - 1) post).
  { intros c; unfold slice; change (Z.to_nat 0) with 0%nat; rewrite drop_0; unfold zlen in Hp.
    rewrite take_app_ge by lia; f_equal.
    destruct (Z.to_nat (total_of hdr) - length pre)%nat as [| n] eqn:En; [lia |]; cbn [take]; do 2 f_equal; lia. }
  destruct (go_dev _ _ _ G _ _ _ (go_read _ _ _ G)) as [_ Hby].
  apply Forall_app in Hby as [Hpre Hby]; apply Forall_cons in Hby as [Hb' Hpost].
  destruct (Z.eqb_spec (crc32 (slice (pre ++ b' :: post) 0 (total_of hdr))) (h_partition_entry_crc32 (page_with hdr)))
    as [E |]; [exfalso | done].
  rewrite <- Hcrc, !Hsl in E; revert E; apply crc32_differs; auto; by apply Forall_take.
Qed.

(** after [mbr_init] on a sector with the right signature, every used slot
    [i] of the four is partition [i + 1], with the slot's start, size and type. *)
Theorem mbr_slots t buf i :
  zlen (partitions t) = MAX_PARTITIONS -> le16 buf 510 = MBR_SIGNATURE -> 0 <= i < 4 ->
  znth 0 buf (446 + 16 * i + 4) <> 0 ->
  gpt_get_partition (mbr_init t buf) (i + 1) =
  Some {| start_lba := le32 buf (446 + 16 * i + 8); size_sectors := le32 buf (446 + 16 * i + 12);
          end_lba := u64 (u64 (le32 buf (446 + 16 * i + 8) + le32 buf (446 + 16 * i + 12)) - 1);
          pindex := i + 1; type_guid := znth 0 buf (446 + 16 * i + 4) :: replicate 15 0 |}.
Proof.
  intros Ht Hs Hi Hty; unfold mbr_init; rewrite Hs, Z.eqb_refl; cbn [negb].
  set (p := Build_partition _ _ _ _ _).
  set (I := fun j t' => zlen (partitions t') = MAX_PARTITIONS /\ 0 <= num_partitions t' /\
    (i < j -> i + 1 < num_partitions t' /\ znth partition0 (partitions t') (i + 1) = p)).
  assert (F : I 4 (foldl (fun t i => mbr_slot t buf i) {| partitions := partitions t; num_partitions := 0 |} (seqZ 0 4))).
  { apply (foldl_seqZ_inv I _ 0 4); [lia | split_and!; simpl; done || lia |].
    intros j t' Hj (Hl & Hn & Hp); unfold mbr_slot; destruct (Z.eqb_spec (znth 0 buf (446 + 16 * j + 4)) 0) as [Hz | Hnz].
    { split_and!; try done; intros Hij; apply Hp; destruct (Z.eq_dec i j) as [-> |]; [done | lia]. }
    rewrite (proj2 (Z.leb_gt MAX_PARTITIONS (j + 1))) by (unfold MAX_PARTITIONS; lia).
    unfold I; simpl; rewrite zlen_zset; split_and!; [done | case_if; lia |]; intros Hij.
    rewrite znth_zset by (unfold MAX_PARTITIONS in Hl; lia).
    destruct (Z.eq_dec i j) as [-> | Hne].
    - rewrite Z.eqb_refl; split; [case_if; lia | done].
    - rewrite (proj2 (Z.eqb_neq (j + 1) (i + 1))) by lia.
      destruct Hp as [Hp1 Hp2]; [lia |]; split; [case_if; lia | done]. }
  revert F; generalize (foldl (fun t i => mbr_slot t buf i) {| partitions := partitions t; num_partitions := 0 |} (seqZ 0 4)).
  intros t4 (_ & _ & F); destruct F as [F1 F2]; [lia |]; unfold gpt_get_partition.
  rewrite (proj2 (Z.ltb_ge (i + 1) 0)), (proj2 (Z.leb_gt (num_partitions t4) (i + 1))) by lia; by rewrite F2.
Qed.

Lemma find_role_spec t role : forall n, 0 <= n -> forall m,
  match find_role t role (seqZ m n) with
  | Some p => exists i, m <= i < m + n /\ p = znth partition0 (partitions t) i /\ partition_role p = role /\
      forall j, m <= j < i -> partition_role (znth partition0 (partitions t) j) <> role
  | None => forall i, m <= i < m + n -> partition_role (znth partition0 (partitions t) i) <> role
  end.
Proof.
  intros n0 Hn0; pattern n0; apply natlike_ind; [intros m; simpl; lia | clear n0 Hn0 | done].
  intros n Hn IH m; rewrite seqZ_cons by lia; simpl.
  destruct (Z.eqb_spec (partition_role (znth partition0 (partitions t) m)) role) as [E | E].
  { exists m; split_and!; try done; lia. }
  replace (Z.pred (Z.succ n)) with n by lia; specialize (IH (Z.succ m)).
  destruct (find_role t role (seqZ (Z.succ m) n)) as [p |].
  - destruct IH as (i & Hi & -> & Hr & Hmin); exists i; split_and!; try done; try lia.
    intros j Hj; destruct (Z.eq_dec j m) as [-> |]; [done | apply Hmin; lia].
  - intros i Hi; destruct (Z.eq_dec i m) as [-> |]; [done | apply IH; lia].
Qed.

(** [partition_find_by_role] returns the first partition of the table
    that carries the role, and NULL exactly when the role is 0 or no partition
    carries it. *)
Theorem find_by_role_first t role :
  0 <= num_partitions t ->
  match partition_find_by_role t role with
  | Some p => role <> 0 /\ exists i, 0 <= i < num_partitions t /\ gpt_get_partition t i = Some p /\
      partition_role p = role /\
      forall j q, 0 <= j < i -> gpt_get_partition t j = Some q -> partition_role q <> role
  | None => role = 0 \/ forall i p, gpt_get_partition t i = Some p -> partition_role p <> role
  end.
Proof.
  intros Hn; unfold partition_find_by_role; destruct (Z.eqb_spec role 0); [by left |].
  assert (Hget : forall i p, gpt_get_partition t i = Some p ->
            0 <= i < num_partitions t /\ p = znth partition0 (partitions t) i).
  { intros i p; unfold gpt_get_partition; destruct (Z.ltb_spec i 0), (Z.leb_spec (num_partitions t) i);
      simpl; intros [= <-]; split; done || lia. }
  pose proof (find_role_spec t role (num_partitions t) Hn 0) as F.
  destruct (find_role t role (seqZ 0 (num_partitions t))) as [p |].
  - destruct F as (i & Hi & -> & Hr & Hmin); split; [done |]; exists i; split_and!; try done; try lia.
    + unfold gpt_get_partition; rewrite (proj2 (Z.ltb_ge i 0)), (proj2 (Z.leb_gt _ i)) by lia; done.
    + intros j q Hj (? & ->)%Hget; apply Hmin; lia.
  - right; intros i p (Hi & ->)%Hget; apply F; lia.
Qed.

(** ** A disk *)

Definition bytes_of (n : nat) (x : Z) : list Z := (fun i => u8 (Z.shiftr x (8 * i))) <$> seqZ 0 (Z.of_nat n).

(** A 92-byte header in a sector, with its checksum. *)
Definition header_sector (num esz ecrc : Z) : list Z :=
  let body crc :=
    bytes_of 8 GPT_SIGNATURE ++ bytes_of 4 0x10000 ++ bytes_of 4 92 ++ bytes_of 4 crc ++ replicate 52 0
    ++ bytes_of 8 2 ++ bytes_of 4 num ++ bytes_of 4 esz ++ bytes_of 4 ecrc in
  body (crc32 (body 0)) ++ replicate 420 0.

(** A NEXS type GUID. *)
Definition nexs_guid (role : Z) : list Z :=
  nexs_d1 ++ bytes_of 2 role ++ [0x58; 0x4E; 0x9C; 0; 0x4E; 0x45; 0x58; 0x53; 0x4F; 0x53].

Definition gpt_entry (role first last : Z) : list Z :=
  nexs_guid role ++ replicate 16 7 ++ bytes_of 8 first ++ bytes_of 8 last ++ replicate 80 0.

(** Four entries, the second unused. *)
Definition entries4 : list Z :=
  gpt_entry 1 34 99 ++ replicate 128 0 ++ gpt_entry 5 100 199 ++ gpt_entry 6 200 299.

Definition disk (entries : list Z) (lba n : Z) : option (list Z) :=
  if (lba =? 1) && (n =? 1) then Some (header_sector 4 128 (crc32 entries4))
  else if (lba =? 2) && (n =? 1) then Some entries
  else None.

Definition bytesb (l : list Z) : bool := forallb (fun b => (0 <=? b) && (b <? 256)) l.
Lemma bytesb_ok l : bytesb l = true -> Forall is_byte l.
Proof.
  unfold bytesb; rewrite forallb_forall; intros H; apply Forall_forall; intros b Hb.
  apply list_elem_of_In, H in Hb; unfold is_byte; zbool; lia.
Qed.

Lemma header_sector_ok :
  zlen (header_sector 4 128 (crc32 entries4)) = 512 * 1 /\ Forall is_byte (header_sector 4 128 (crc32 entries4)).
Proof. split; [vm_compute; reflexivity | apply bytesb_ok; vm_compute; reflexivity]. Qed.

Lemma disk_ok entries : zlen entries = 512 -> bytesb entries = true -> dev_ok (disk entries).
Proof.
  intros Hl Hb lba n bytes; unfold disk; pose proof header_sector_ok as Hh.
  assert (He : zlen entries = 512 * 1 /\ Forall is_byte entries) by (split; [lia | by apply bytesb_ok]).
  destruct ((lba =? 1) && (n =? 1)) eqn:E1; [| destruct ((lba =? 2) && (n =? 1)) eqn:E2]; intros E; try discriminate E;
    injection E as <-; apply andb_true_iff in E1 || apply andb_true_iff in E2.
  - destruct E1 as [_ ->%Z.eqb_eq]; exact Hh.
  - destruct E2 as [_ ->%Z.eqb_eq]; exact He.
Qed.

Lemma disk_gpt entries : zlen entries = 512 -> bytesb entries = true ->
  gpt_on (disk entries) (header_sector 4 128 (crc32 entries4)) entries.
Proof.
  intros Hl Hb; constructor; [by apply disk_ok | ..]; try (vm_compute; reflexivity);
    try (vm_compute; discriminate); unfold disk; vm_compute (h_partition_entry_lba _);
    vm_compute ((_ + 511) / 512); reflexivity.
Qed.

Lemma gpt_init_reads_table_witness :
  exists t', gpt_init (disk entries4) true true ptable0 = GRet t' /\ num_partitions t' = 3 /\
    start_lba <$> gpt_get_partition t' 1 = Some 100.
Proof.
  destruct (gpt_init_reads_table (disk entries4) (header_sector 4 128 (crc32 entries4)) entries4 ptable0)
    as (t' & E & N & Hg).
  - apply disk_gpt; vm_compute; reflexivity.
  - reflexivity.
  - vm_compute; reflexivity.
  - exists t'; split; [exact E | split; [rewrite N; vm_compute; reflexivity |]].
    rewrite Hg; vm_compute; reflexivity.
Defined.

Lemma gpt_rejects_corruption_witness :
  gpt_init (disk (take 32 entries4 ++ 35 :: drop 33 entries4)) true true ptable0 =
  mbr_fallback (disk (take 32 entries4 ++ 35 :: drop 33 entries4)) ptable0
    (page_with (header_sector 4 128 (crc32 entries4))).
Proof.
  apply (gpt_rejects_corruption _ _ (take 32 entries4) 34 35 (drop 33 entries4)).
  - apply disk_gpt; vm_compute; reflexivity.
  - unfold is_byte; lia.
  - discriminate.
  - vm_compute; reflexivity.
  - vm_compute; reflexivity.
Defined.

(** An MBR with a Linux partition in slot 1. *)
Definition mbr_sector : list Z :=
  replicate 446 0 ++ replicate 16 0 ++ [0x80; 0; 0; 0; 0x83; 0; 0; 0] ++ bytes_of 4 2048 ++ bytes_of 4 1000
  ++ replicate 32 0 ++ [0x55; 0xAA].

Lemma mbr_slots_witness : start_lba <$> gpt_get_partition (mbr_init ptable0 mbr_sector) 2 = Some 2048.
Proof.
  change 2 with (1 + 1); rewrite (mbr_slots ptable0 mbr_sector 1 eq_refl); [reflexivity | reflexivity | lia | discriminate].
Defined.

Lemma find_by_role_first_witness :
  exists t', gpt_init (disk entries4) true true ptable0 = GRet t' /\
    match partition_find_by_role t' 5 with Some p => partition_role p = 5 | None => False end.
Proof.
  assert (E : match gpt_init (disk entries4) true true ptable0 with
              | GRet t' => (0 <=? num_partitions t') &&
                           match partition_find_by_role t' 5 with Some _ => true | None => false end
              | GFault => false end = true) by (vm_compute; reflexivity).
  destruct (gpt_init (disk entries4) true true ptable0) as [t' |]; [| discriminate E].
  exists t'; split; [reflexivity |]; apply andb_true_iff in E; destruct E as [E1 E2]; apply Z.leb_le in E1.
  pose proof (find_by_role_first t' 5 E1) as H.
  destruct (partition_find_by_role t' 5) as [p |]; [| discriminate E2].
  destruct H as (_ & i & _ & _ & R & _); exact R.
Defined.

(** A header whose checksum is right but whose entry size is 0: the number of
    entries is computed by a division by it. *)
Definition disk_zero (lba n : Z) : option (list Z) :=
  if (lba =? 1) && (n =? 1) then Some (header_sector 4 0 0)
  else if n =? 0 then Some [] else None.

Theorem gpt_zero_entry_size_faults : gpt_init disk_zero true true ptable0 = GFault.
Proof. vm_compute; reflexivity. Qed.
