(* ===== verification/Buffer.v ===== *)
(** * The buffer cache

    [kernel/mm/buffer.c]: at most 1024 blocks of the disk in memory, found by
    hash, aged by an LRU list, pinned by a reference count, written back by
    [buffer_sync].  A buffer is named by an identifier (its address in C); the
    contents of a block are of some type [D]. *)
From stdpp Require Import base numbers list gmap relations.
From S2P Require Import Prelude.

Section buffer.
Context {D : Type}.

(** ** State *)

Record block_buffer := { block : Z; data : D; bflags : Z; ref_count : Z }.

Definition HASH_BUCKETS : Z := 64.
Definition MAX_BUFFERS : Z := 1024.
Definition MAX_DIRTY : Z := 64.
Definition BUFFER_UPTODATE : Z := 1.
Definition BUFFER_DIRTY : Z := 2.

(** The lists hold identifiers; [lru] has the most recently used first. *)
Record cache := {
  bufs : gmap nat block_buffer;
  lru_list : list nat;
  hash_table : list (list nat);
  total_buffers : Z }.

Definition buffer_init : cache :=
  {| bufs := ∅; lru_list := []; hash_table := replicate 64 []; total_buffers := 0 |}.

Definition set_buf (c : cache) (id : nat) (b : block_buffer) : cache :=
  {| bufs := <[id := b]> (bufs c); lru_list := lru_list c; hash_table := hash_table c;
     total_buffers := total_buffers c |}.
Definition set_lru (c : cache) (l : list nat) : cache :=
  {| bufs := bufs c; lru_list := l; hash_table := hash_table c; total_buffers := total_buffers c |}.
Definition set_total (c : cache) (n : Z) : cache :=
  {| bufs := bufs c; lru_list := lru_list c; hash_table := hash_table c; total_buffers := n |}.

Definition with_ref (b : block_buffer) (n : Z) : block_buffer :=
  {| block := block b; data := data b; bflags := bflags b; ref_count := n |}.
Definition with_flags (b : block_buffer) (f : Z) : block_buffer :=
  {| block := block b; data := data b; bflags := f; ref_count := ref_count b |}.

(** [list_del]. *)
Definition list_del (id : nat) (l : list nat) : list nat := filter (fun x => x <> id) l.

(** ** Sections under [buffer_lock] *)

Definition hash_block (blk : Z) : Z := u32 (blk mod HASH_BUCKETS).

Fixpoint lookup_in (c : cache) (blk : Z) (l : list nat) : option nat :=
  match l with
  | [] => None
  | id :: l =>
    match bufs c !! id with
    | Some b => if block b =? blk then Some id else lookup_in c blk l
    | None => lookup_in c blk l
    end
  end.
Definition lookup_block (c : cache) (blk : Z) : option nat :=
  lookup_in c blk (znth [] (hash_table c) (hash_block blk)).

Definition is_dirty (b : block_buffer) : bool := negb (Z.land (bflags b) BUFFER_DIRTY =? 0).
Definition evictable (b : block_buffer) : bool := (ref_count b =? 0) && negb (is_dirty b).

(** One buffer of [__evict_buffers]; past the [break] nothing changes. *)
Definition evict_one (c : cache) (id : nat) : cache :=
  if total_buffers c <=? MAX_BUFFERS / 2 then c
  else
    match bufs c !! id with
    | Some b =>
      if evictable b then
        let k := hash_block (block b) in
        {| bufs := delete id (bufs c);
           lru_list := list_del id (lru_list c);
           hash_table := zset (hash_table c) k (list_del id (znth [] (hash_table c) k));
           total_buffers := total_buffers c - 1 |}
      else c
    | None => c
    end.
Definition evict_buffers (c : cache) : cache := foldl evict_one c (reverse (lru_list c)).

Definition bump_ref (c : cache) (id : nat) : cache :=
  match bufs c !! id with
  | Some b => set_buf c id (with_ref b (u32 (ref_count b + 1)))
  | None => c
  end.

(** A hit: to the front of the LRU list, one more reference. *)
Definition hit (c : cache) (id : nat) : cache := bump_ref (set_lru c (id :: list_del id (lru_list c))) id.

(** The test of the cap and the reservation; [None] if the cache is full. *)
Definition take_slot (c : cache) : option cache :=
  if MAX_BUFFERS <=? total_buffers c then None else Some (set_total c (total_buffers c + 1)).

(** Reserving a slot, with eviction when the cache is full; [None] if it stays
    full. *)
Definition reserve (c : cache) : option cache :=
  take_slot (if MAX_BUFFERS <=? total_buffers c then evict_buffers c else c).

(** The second try, in the section after [buffer_sync]: it evicts whatever the
    number of buffers is by then, and tests the cap again. *)
Definition reserve_retry (c : cache) : option cache := take_slot (evict_buffers c).

(** The cache after an eviction that did not help. *)
Definition evicted_full (c : cache) : cache := evict_buffers c.

Definition release_slot (c : cache) : cache := set_total c (total_buffers c - 1).

(** Insertion of the buffer read for [blk], or the buffer that came first. *)
Definition insert_read (c : cache) (id : nat) (blk : Z) (d : D) : cache * nat :=
  match lookup_block c blk with
  | Some other => (bump_ref (release_slot c) other, other)
  | None =>
    let b := {| block := blk; data := d; bflags := BUFFER_UPTODATE; ref_count := 1 |} in
    let k := hash_block blk in
    ({| bufs := <[id := b]> (bufs c);
        lru_list := id :: lru_list c;
        hash_table := zset (hash_table c) k (id :: znth [] (hash_table c) k);
        total_buffers := total_buffers c |}, id)
  end.

Definition buffer_put (c : cache) (id : nat) : cache :=
  match bufs c !! id with
  | Some b => if 0 <? ref_count b then set_buf c id (with_ref b (ref_count b - 1)) else c
  | None => c
  end.

(** [buffer_sync], collecting: the first 64 dirty buffers, pinned. *)
Definition collect_one (acc : cache * list nat) (id : nat) : cache * list nat :=
  let '(c, ds) := acc in
  match bufs c !! id with
  | Some b => if is_dirty b && (zlen ds <? MAX_DIRTY) then (bump_ref c id, ds ++ [id]) else (c, ds)
  | None => (c, ds)
  end.
Definition sync_collect (c : cache) : cache * list nat := foldl collect_one (c, []) (lru_list c).

(** [buffer_sync], after the write of one of them ([ok] if it succeeded). *)
Definition sync_done (c : cache) (id : nat) (ok : bool) : cache :=
  match bufs c !! id with
  | Some b =>
    let b := if ok then with_flags b (Z.land (bflags b) (not32 BUFFER_DIRTY)) else b in
    set_buf c id (with_ref b (if 0 <? ref_count b then ref_count b - 1 else ref_count b))
  | None => c
  end.

(** ** The calls, run by one CPU

    The disk is a function from block numbers to contents; [rd] and [wr] say
    which transfers succeed. *)
Section calls.
Variables (rd wr : Z -> bool) (ok_meta ok_page : bool).

Definition write_back (st : cache * (Z -> D)) (id : nat) : cache * (Z -> D) :=
  let '(c, disk) := st in
  match bufs c !! id with
  | Some b =>
    if wr (block b) then (sync_done c id true, fun k => if k =? block b then data b else disk k)
    else (sync_done c id false, disk)
  | None => (c, disk)
  end.
Definition buffer_sync (c : cache) (disk : Z -> D) : cache * (Z -> D) :=
  let '(c, ds) := sync_collect c in foldl write_back (c, disk) ds.

(** [fresh_id] is the address [kmalloc] returns. *)
Definition buffer_get (blk : Z) (fresh_id : nat) (c : cache) (disk : Z -> D) : cache * (Z -> D) * option nat :=
  match lookup_block c blk with
  | Some id => (hit c id, disk, Some id)
  | None =>
    let '(slot, c, disk) :=
      match reserve c with
      | Some c => (true, c, disk)
      | None =>
        let '(c, disk) := buffer_sync (evicted_full c) disk in
        match reserve_retry c with
        | Some c => (true, c, disk)
        | None => (false, evicted_full c, disk)
        end
      end in
    if negb slot then (c, disk, None)
    else if negb ok_meta then (release_slot c, disk, None)
    else if negb ok_page then (release_slot c, disk, None)
    else if negb (rd blk) then (release_slot c, disk, None)
    else let '(c, id) := insert_read c fresh_id blk (disk blk) in (c, disk, Some id)
  end.
End calls.

(** What a file system does with a buffer it holds. *)
Definition write_buffer (c : cache) (id : nat) (d : D) : cache :=
  match bufs c !! id with
  | Some b => set_buf c id {| block := block b; data := d; bflags := Z.lor (bflags b) BUFFER_DIRTY;
                              ref_count := ref_count b |}
  | None => c
  end.
End buffer.

Arguments block_buffer : clear implicits.
Arguments cache : clear implicits.
