(* ===== verification/BufferTheorems.v ===== *)
(** * What the buffer cache guarantees *)
From stdpp Require Import base numbers list gmap relations.
From S2P Require Import Prelude Buffer.

(** ** The buffer cache: invariant and lemmas *)

Section proofs.
Context {D : Type}.
Implicit Types (c : cache D) (b : block_buffer D) (id : nat).

Lemma hash_block_range blk : 0 <= hash_block blk < 64.
Proof.
  unfold hash_block, HASH_BUCKETS; pose proof (Z.mod_pos_bound blk 64 ltac:(lia)); rewrite u32_small; lia.
Qed.

(** [r] slots are reserved by reads in flight. *)
Record cache_inv c (r : Z) : Prop := {
  ci_total : total_buffers c = zlen (lru_list c) + r;
  ci_reserved : 0 <= r;
  ci_cap : total_buffers c <= MAX_BUFFERS;
  ci_nodup : NoDup (lru_list c);
  ci_lru : forall id, id ∈ lru_list c <-> is_Some (bufs c !! id);
  ci_table : zlen (hash_table c) = 64;
  ci_hash : forall k id, 0 <= k < 64 ->
    id ∈ znth [] (hash_table c) k <-> exists b, bufs c !! id = Some b /\ hash_block (block b) = k;
  ci_unique : forall i j a b, bufs c !! i = Some a -> bufs c !! j = Some b -> block a = block b -> i = j }.

Lemma init_inv : cache_inv buffer_init 0.
Proof.
  constructor; try done; [by apply NoDup_nil | |].
  - intros id; simpl; rewrite elem_of_nil; split; [done | by intros [? ?]].
  - intros k id Hk; change (hash_table buffer_init) with (replicate 64 ([] : list nat)); assert (E : znth [] (replicate 64 []) k = ([] : list nat)).
    { apply znth_lookup; [lia |]; apply lookup_replicate_2; lia. }
    rewrite E, elem_of_nil; split; [done | by intros (b & ? & _)].
Qed.

(** *** Looking a block up *)

Lemma lookup_in_spec c blk l :
  match lookup_in c blk l with
  | Some id => id ∈ l /\ exists b, bufs c !! id = Some b /\ block b = blk
  | None => forall id b, id ∈ l -> bufs c !! id = Some b -> block b <> blk
  end.
Proof.
  induction l as [| id l IH]; simpl; [intros id b H; by apply elem_of_nil in H |].
  destruct (bufs c !! id) as [b |] eqn:E; [destruct (Z.eqb_spec (block b) blk) |].
  - split; [by apply elem_of_cons; left | by exists b].
  - destruct (lookup_in c blk l); [destruct IH; split; [by apply elem_of_cons; right | done] |].
    intros i b' [-> | Hi]%elem_of_cons Hb; [congruence | by eapply IH].
  - destruct (lookup_in c blk l); [destruct IH; split; [by apply elem_of_cons; right | done] |].
    intros i b' [-> | Hi]%elem_of_cons Hb; [congruence | by eapply IH].
Qed.

Lemma lookup_block_spec c r blk id :
  cache_inv c r -> lookup_block c blk = Some id <-> exists b, bufs c !! id = Some b /\ block b = blk.
Proof.
  intros I; unfold lookup_block; pose proof (hash_block_range blk) as Hk.
  pose proof (lookup_in_spec c blk (znth [] (hash_table c) (hash_block blk))) as L.
  destruct (lookup_in _ _ _) as [i |]; split.
  - intros [= <-]; apply L.
  - intros (b & Hb & Hblk); destruct L as (_ & b' & Hb' & Hblk'); f_equal.
    eapply (ci_unique _ _ I); [exact Hb' | exact Hb | congruence].
  - done.
  - intros (b & Hb & Hblk); exfalso; eapply L; [| exact Hb | done].
    apply (ci_hash _ _ I _ id Hk); exists b; by rewrite Hblk.
Qed.

Lemma lookup_block_none c r blk :
  cache_inv c r -> lookup_block c blk = None <-> forall id b, bufs c !! id = Some b -> block b <> blk.
Proof.
  intros I; split.
  - intros E id b Hb Hblk; assert (lookup_block c blk = Some id); [| congruence].
    apply (lookup_block_spec c r); [done | by exists b].
  - intros H; destruct (lookup_block c blk) as [id |] eqn:E; [| done].
    apply (lookup_block_spec c r) in E as (b & Hb & Hblk); [| done]; exfalso; by eapply H.
Qed.

(** *** Changing one buffer in place *)

(** Neither the flags, the count nor the contents matter to the lists. *)
Lemma set_buf_inv c r id b b' :
  cache_inv c r -> bufs c !! id = Some b -> block b' = block b -> cache_inv (set_buf c id b') r.
Proof.
  intros [I1 I2 I3 I4 I5 I6 I7 I8] Hb Hblk; constructor; simpl; try done.
  - intros i; rewrite I5; destruct (decide (i = id)) as [-> |].
    + rewrite lookup_insert_eq, Hb; split; eauto.
    + by rewrite lookup_insert_ne.
  - intros k i Hk; rewrite I7 by done; destruct (decide (i = id)) as [-> |].
    + rewrite lookup_insert_eq, Hb; split; intros (x & [= <-] & Hx); eexists; split; try done; congruence.
    + by rewrite lookup_insert_ne.
  - intros i j x y Hx Hy Hxy.
    assert (Hold : forall n z, <[id := b']> (bufs c) !! n = Some z ->
              exists z', bufs c !! n = Some z' /\ block z' = block z).
    { intros n z Hz; destruct (decide (n = id)) as [-> |].
      - rewrite lookup_insert_eq in Hz; injection Hz as <-; by exists b.
      - rewrite lookup_insert_ne in Hz by done; by exists z. }
    destruct (Hold i x Hx) as (x' & Hx' & Ex), (Hold j y Hy) as (y' & Hy' & Ey).
    apply (I8 i j x' y'); congruence.
Qed.

Lemma bump_ref_inv c r id : cache_inv c r -> cache_inv (bump_ref c id) r.
Proof.
  intros I; unfold bump_ref; destruct (bufs c !! id) as [b |] eqn:Hb; [| done].
  by eapply set_buf_inv.
Qed.

Lemma buffer_put_inv c r id : cache_inv c r -> cache_inv (buffer_put c id) r.
Proof.
  intros I; unfold buffer_put; destruct (bufs c !! id) as [b |] eqn:Hb; [| done].
  case_if; [by eapply set_buf_inv | done].
Qed.

Lemma sync_done_inv c r id ok : cache_inv c r -> cache_inv (sync_done c id ok) r.
Proof.
  intros I; unfold sync_done; destruct (bufs c !! id) as [b |] eqn:Hb; [| done].
  eapply set_buf_inv; [done | done |]; destruct ok; done.
Qed.

Lemma write_buffer_inv c r id d : cache_inv c r -> cache_inv (write_buffer c id d) r.
Proof.
  intros I; unfold write_buffer; destruct (bufs c !! id) as [b |] eqn:Hb; [| done].
  by eapply set_buf_inv.
Qed.

Lemma collect_one_inv acc r id : cache_inv acc.1 r -> cache_inv (collect_one acc id).1 r.
Proof.
  destruct acc as [c ds]; simpl; intros I; destruct (bufs c !! id) as [b |]; [| done].
  case_if; [by apply bump_ref_inv | done].
Qed.

Lemma foldl_inv {A B} (P : A -> Prop) (f : A -> B -> A) l : (forall a x, P a -> P (f a x)) -> forall a, P a -> P (foldl f a l).
Proof. intros Hf; induction l as [| x l IH]; simpl; auto. Qed.

Lemma sync_collect_inv c r : cache_inv c r -> cache_inv (sync_collect c).1 r.
Proof.
  intros I; unfold sync_collect; apply (foldl_inv (fun acc => cache_inv acc.1 r)); [| done].
  intros acc id; apply collect_one_inv.
Qed.

(** *** The lists *)

Lemma elem_of_list_del id l x : x ∈ list_del id l <-> x ∈ l /\ x <> id.
Proof. unfold list_del; rewrite list_elem_of_filter; tauto. Qed.

Lemma list_del_len id l : NoDup l -> id ∈ l -> zlen (list_del id l) = zlen l - 1.
Proof.
  unfold zlen; induction 1 as [| x l Hx Hnd IH]; intros Hin; [by apply elem_of_nil in Hin |].
  unfold list_del in *; rewrite filter_cons; apply elem_of_cons in Hin as [-> | Hin].
  - rewrite decide_False by tauto; assert (E : filter (fun y => y <> x) l = l); [| rewrite E; simpl; lia].
    clear - Hx; induction l as [| y l IH]; [done |]; rewrite filter_cons, decide_True.
    + f_equal; apply IH; intros H; apply Hx; by apply elem_of_cons; right.
    + intros ->; apply Hx; by apply elem_of_cons; left.
  - rewrite decide_True by (intros ->; done); simpl; specialize (IH Hin); lia.
Qed.

Lemma hit_inv c r id b : cache_inv c r -> bufs c !! id = Some b -> cache_inv (hit c id) r.
Proof.
  intros I Hb; apply bump_ref_inv; pose proof I as [I1 I2 I3 I4 I5 I6 I7 I8].
  assert (Hin : id ∈ lru_list c) by (apply I5; by exists b).
  assert (Hl : zlen (id :: list_del id (lru_list c)) = zlen (lru_list c)).
  { pose proof (list_del_len id _ I4 Hin) as E; unfold zlen in *; simpl; lia. }
  constructor; simpl; try done; [lia | |].
  - constructor; [rewrite elem_of_list_del; tauto | by apply NoDup_filter].
  - intros i; rewrite elem_of_cons, elem_of_list_del, <- I5; destruct (decide (i = id)) as [-> |]; tauto.
Qed.

(** *** Eviction *)

Definition drop_buf c id b : cache D :=
  let k := hash_block (block b) in
  {| bufs := delete id (bufs c); lru_list := list_del id (lru_list c);
     hash_table := zset (hash_table c) k (list_del id (znth [] (hash_table c) k));
     total_buffers := total_buffers c - 1 |}.

Lemma drop_buf_inv c r id b : cache_inv c r -> bufs c !! id = Some b -> cache_inv (drop_buf c id b) r.
Proof.
  intros [I1 I2 I3 I4 I5 I6 I7 I8] Hb; pose proof (hash_block_range (block b)) as Hk.
  assert (Hin : id ∈ lru_list c) by (apply I5; by exists b).
  pose proof (list_del_len id _ I4 Hin) as El; constructor; simpl; try done; try lia.
  - by apply NoDup_filter.
  - intros i; rewrite elem_of_list_del, I5; destruct (decide (i = id)) as [-> |].
    + rewrite lookup_delete_eq; split; [tauto | intros [? ?]; done].
    + rewrite lookup_delete_ne by done; tauto.
  - by rewrite zlen_zset.
  - intros k i Hk'; rewrite znth_zset by lia; destruct (Z.eqb_spec (hash_block (block b)) k) as [<- | Hne].
    + rewrite elem_of_list_del, I7 by done; destruct (decide (i = id)) as [-> |].
      * rewrite lookup_delete_eq; split; [tauto | intros (? & ? & _); done].
      * rewrite lookup_delete_ne by done; tauto.
    + rewrite I7 by done; destruct (decide (i = id)) as [-> |].
      * rewrite lookup_delete_eq, Hb; split; [intros (x & [= <-] & ?); done | intros (? & ? & _); done].
      * by rewrite lookup_delete_ne.
  - intros i j x y [_ Hx]%lookup_delete_Some [_ Hy]%lookup_delete_Some; eauto.
Qed.

Lemma evict_one_eq c id :
  evict_one c id = if total_buffers c <=? 512 then c else
    match bufs c !! id with Some b => if evictable b then drop_buf c id b else c | None => c end.
Proof. done. Qed.

Lemma evict_one_inv c r id : cache_inv c r -> cache_inv (evict_one c id) r.
Proof.
  intros I; rewrite evict_one_eq; case_if; [done |]; destruct (bufs c !! id) as [b |] eqn:Hb; [| done].
  destruct (evictable b); [by apply drop_buf_inv | done].
Qed.

Lemma evict_inv c r : cache_inv c r -> cache_inv (evict_buffers c) r.
Proof. intros I; unfold evict_buffers; apply (foldl_inv (fun c => cache_inv c r)); [intros; by apply evict_one_inv | done]. Qed.

(** *** Slots *)

Lemma take_slot_inv c r c' : cache_inv c r -> take_slot c = Some c' -> cache_inv c' (r + 1).
Proof.
  intros [? ? ? ? ? ? ? ?]; unfold take_slot; destruct (Z.leb_spec MAX_BUFFERS (total_buffers c)); [done |].
  intros [= <-]; constructor; simpl; try done; lia.
Qed.

Lemma reserve_inv c r c' : cache_inv c r -> reserve c = Some c' -> cache_inv c' (r + 1).
Proof.
  intros I; apply take_slot_inv; case_if; [by apply evict_inv | done].
Qed.

Lemma reserve_retry_inv c r c' : cache_inv c r -> reserve_retry c = Some c' -> cache_inv c' (r + 1).
Proof. intros I; by apply take_slot_inv, evict_inv. Qed.

Lemma release_inv c r : cache_inv c r -> 0 < r -> cache_inv (release_slot c) (r - 1).
Proof. intros [? ? ? ? ? ? ? ?] Hr; constructor; simpl; try done; lia. Qed.

Lemma insert_read_inv c r id blk d :
  cache_inv c r -> 0 < r -> bufs c !! id = None -> cache_inv (insert_read c id blk d).1 (r - 1).
Proof.
  intros I Hr Hid; unfold insert_read; destruct (lookup_block c blk) as [o |] eqn:E; simpl.
  { by apply bump_ref_inv, release_inv. }
  pose proof (proj1 (lookup_block_none c r blk I) E) as Hno; pose proof (hash_block_range blk) as Hk.
  destruct I as [I1 I2 I3 I4 I5 I6 I7 I8].
  assert (Hnin : id ∉ lru_list c) by (intros [? H]%I5; congruence).
  constructor; simpl; try done; try lia.
  - unfold zlen in *; simpl; lia.
  - by constructor.
  - intros i; rewrite elem_of_cons, I5; destruct (decide (i = id)) as [-> |].
    + rewrite lookup_insert_eq; split; [eauto | by left].
    + rewrite lookup_insert_ne by done; tauto.
  - by rewrite zlen_zset.
  - intros k i Hk'; rewrite znth_zset by lia; destruct (Z.eqb_spec (hash_block blk) k) as [<- | Hne].
    + rewrite elem_of_cons, I7 by done; destruct (decide (i = id)) as [-> |].
      * rewrite lookup_insert_eq; split; [intros _; eexists; split; done | by left].
      * rewrite lookup_insert_ne by done; tauto.
    + rewrite I7 by done; destruct (decide (i = id)) as [-> |].
      * rewrite lookup_insert_eq, Hid; split; [intros (? & ? & _); done | intros (x & [= <-] & ?); done].
      * by rewrite lookup_insert_ne.
  - intros i j x y Hx Hy Hxy; apply lookup_insert_Some in Hx as [[<- <-] | [? Hx]], Hy as [[<- <-] | [? Hy]];
      [done | exfalso; by eapply (Hno j y) | exfalso; by eapply (Hno i x) | by eapply I8].
Qed.
End proofs.

(** ** Several CPUs *)

Section cpus.
Context {D : Type}.

(** A call of [buffer_get] that gave the lock up: to flush the cache, which was
    full, before it tries again; or to read its block, with a slot reserved. *)
Inductive call := Retrying (blk : Z) | Reading (blk : Z).

Definition is_reading (x : call) : bool := match x with Reading _ => true | Retrying _ => false end.

(** The reads in flight. *)
Definition reads_of (cs : gmap nat call) : gmap nat call := filter (fun kx => is_reading kx.2 = true) cs.

(** The cache, and the call each CPU is in. *)
Record world := { w_cache : cache D; w_calls : gmap nat call }.
Definition w_reads (w : world) : gmap nat call := reads_of (w_calls w).

(** The sections under [buffer_lock], in any interleaving.  Those of
    [buffer_sync], which [buffer_get] calls between its two tries, may also be
    run by others, and are steps of their own. *)
Inductive bstep : world -> world -> Prop :=
  | BHit c cs blk id :
      lookup_block c blk = Some id -> bstep (Build_world c cs) (Build_world (hit c id) cs)
  | BReserve c cs t blk c' :
      cs !! t = None -> lookup_block c blk = None -> reserve c = Some c' ->
      bstep (Build_world c cs) (Build_world c' (<[t := Reading blk]> cs))
  | BFull c cs t blk :
      cs !! t = None -> lookup_block c blk = None -> reserve c = None ->
      bstep (Build_world c cs) (Build_world (evicted_full c) (<[t := Retrying blk]> cs))
  | BRetry c cs t blk c' :
      cs !! t = Some (Retrying blk) -> reserve_retry c = Some c' ->
      bstep (Build_world c cs) (Build_world c' (<[t := Reading blk]> cs))
  | BRefuse c cs t blk :
      cs !! t = Some (Retrying blk) -> reserve_retry c = None ->
      bstep (Build_world c cs) (Build_world (evicted_full c) (delete t cs))
  | BFail c cs t blk :
      cs !! t = Some (Reading blk) -> bstep (Build_world c cs) (Build_world (release_slot c) (delete t cs))
  | BInsert c cs t blk id d :
      cs !! t = Some (Reading blk) -> bufs c !! id = None ->
      bstep (Build_world c cs) (Build_world (insert_read c id blk d).1 (delete t cs))
  | BPut c cs id : bstep (Build_world c cs) (Build_world (buffer_put c id) cs)
  | BWrite c cs id d : bstep (Build_world c cs) (Build_world (write_buffer c id d) cs)
  | BCollect c cs : bstep (Build_world c cs) (Build_world (sync_collect c).1 cs)
  | BDone c cs id ok : bstep (Build_world c cs) (Build_world (sync_done c id ok) cs).

Definition world_inv (w : world) : Prop := cache_inv (w_cache w) (Z.of_nat (size (w_reads w))).

(** How the calls change the number of reads. *)
Lemma not_read cs t : (forall blk, cs !! t <> Some (Reading blk)) -> reads_of cs !! t = None.
Proof. intros H; apply map_lookup_filter_None; right; intros [blk | blk] E; [done | by apply H in E]. Qed.

Lemma reads_start cs t blk : (forall blk, cs !! t <> Some (Reading blk)) ->
  Z.of_nat (size (reads_of (<[t := Reading blk]> cs))) = Z.of_nat (size (reads_of cs)) + 1.
Proof.
  intros H; unfold reads_of; rewrite map_filter_insert_True by done; rewrite map_size_insert_None by (by apply not_read); lia.
Qed.

Lemma reads_end cs t blk : cs !! t = Some (Reading blk) ->
  Z.of_nat (size (reads_of (delete t cs))) = Z.of_nat (size (reads_of cs)) - 1 /\ 0 < Z.of_nat (size (reads_of cs)).
Proof.
  intros H; assert (E : reads_of cs !! t = Some (Reading blk)) by (by apply map_lookup_filter_Some_2).
  assert (size (reads_of cs) <> 0%nat) by (apply map_size_non_empty_iff; intros E'; by rewrite E' in E).
  unfold reads_of; rewrite map_filter_delete; fold (reads_of cs); rewrite map_size_delete_Some by eauto; lia.
Qed.

Lemma reads_refuse cs t : (forall blk, cs !! t <> Some (Reading blk)) -> reads_of (delete t cs) = reads_of cs.
Proof. intros H; unfold reads_of; rewrite map_filter_delete; by apply delete_id, not_read. Qed.

Lemma reads_full cs t blk : cs !! t = None -> reads_of (<[t := Retrying blk]> cs) = reads_of cs.
Proof. intros H; unfold reads_of; rewrite map_filter_insert_False by done; by rewrite delete_id. Qed.

Lemma bstep_inv w w' : bstep w w' -> world_inv w -> world_inv w'.
Proof.
  unfold world_inv, w_reads; destruct 1 as [c cs blk id E | c cs t blk c' Ht _ E | c cs t blk Ht _ E | c cs t blk c' Ht E |
    c cs t blk Ht E | c cs t blk Ht | c cs t blk id d Ht Hid | | | |]; simpl; intros I;
    eauto using buffer_put_inv, write_buffer_inv, sync_collect_inv, sync_done_inv.
  - destruct (proj1 (lookup_block_spec c _ blk id I) E) as (b & Hb & _); by eapply hit_inv.
  - rewrite reads_start by (intros ?; by rewrite Ht); by eapply reserve_inv.
  - rewrite reads_full by done; by apply evict_inv.
  - rewrite reads_start by (intros ?; by rewrite Ht); by eapply reserve_retry_inv.
  - rewrite reads_refuse by (intros ?; by rewrite Ht); by apply evict_inv.
  - destruct (reads_end _ _ _ Ht) as [-> ?]; by apply release_inv.
  - destruct (reads_end _ _ _ Ht) as [-> ?]; by apply insert_read_inv.
Qed.

(** C31: however the CPUs' sections interleave, those of a [buffer_get] that finds
    the cache full, flushes it and tries again included, the cache never holds
    more than 1024 buffers, counting the reads in flight; no block is cached
    twice; and the hash lookup finds a block exactly when it is cached. *)
Theorem cache_cap_and_uniqueness w :
  rtc bstep (Build_world buffer_init ∅) w ->
  zlen (lru_list (w_cache w)) + Z.of_nat (size (w_reads w)) <= MAX_BUFFERS /\
  total_buffers (w_cache w) = zlen (lru_list (w_cache w)) + Z.of_nat (size (w_reads w)) /\
  (forall i j a b, bufs (w_cache w) !! i = Some a -> bufs (w_cache w) !! j = Some b ->
     block a = block b -> i = j) /\
  (forall blk id, lookup_block (w_cache w) blk = Some id <->
     exists b, bufs (w_cache w) !! id = Some b /\ block b = blk).
Proof.
  intros R; assert (I : world_inv w).
  { assert (I0 : world_inv (Build_world buffer_init ∅)) by apply init_inv.
    induction R as [| w1 w2 w3 S _ IH]; [done |]; apply IH; by eapply bstep_inv. }
  unfold world_inv in I; split_and!; [pose proof (ci_total _ _ I); pose proof (ci_cap _ _ I); lia | apply I | apply I |].
  intros blk id; by eapply lookup_block_spec.
Qed.
End cpus.

(** ** Eviction *)

Section evict.
Context {D : Type}.
Implicit Types (c : cache D).

Lemma evict_stop c l : total_buffers c <= 512 -> foldl evict_one c l = c.
Proof.
  intros Hc; induction l as [| x l IH]; simpl; [done |]; rewrite evict_one_eq.
  rewrite (proj2 (Z.leb_le (total_buffers c) 512)) by lia; done.
Qed.

(** What [evict_one] leaves of a buffer. *)
Definition left_of c (gone : bool) id : option (block_buffer D) :=
  match bufs c !! id with
  | Some b => if gone && evictable b then None else Some b
  | None => None
  end.

Lemma evict_one_bufs c x id :
  512 < total_buffers c -> bufs (evict_one c x) !! id = left_of c (bool_decide (id = x)) id.
Proof.
  intros Hc; rewrite evict_one_eq, (proj2 (Z.leb_gt (total_buffers c) 512)) by lia; unfold left_of.
  destruct (decide (id = x)) as [-> | Hne].
  - rewrite bool_decide_true by done; destruct (bufs c !! x) as [b |] eqn:E; [| done].
    simpl; destruct (evictable b); [simpl; apply lookup_delete_eq | done].
  - rewrite bool_decide_false by done; simpl.
    destruct (bufs c !! x) as [b |]; [destruct (evictable b); simpl; [rewrite lookup_delete_ne by done |] |];
      destruct (bufs c !! id); done.
Qed.

Lemma evict_fold l c :
  NoDup l ->
  exists p q, l = p ++ q /\
    (forall id, bufs (foldl evict_one c l) !! id = left_of c (bool_decide (id ∈ p)) id) /\
    (q = [] \/ total_buffers (foldl evict_one c l) <= 512).
Proof.
  intros Hnd; revert c; induction Hnd as [| x l Hx Hnd IH]; intros c.
  { exists [], []; split_and!; [done | | by left]; intros id; unfold left_of; simpl.
    destruct (bufs c !! id); done. }
  destruct (Z_le_gt_dec (total_buffers c) 512) as [Hle | Hgt].
  { exists [], (x :: l); rewrite evict_stop by done; split_and!; [done | | by right].
    intros id; unfold left_of; simpl; destruct (bufs c !! id); done. }
  destruct (IH (evict_one c x)) as (p & q & -> & Hb & Hq); exists (x :: p), q; split_and!; [done | | done].
  intros id; simpl; rewrite Hb; unfold left_of at 1; rewrite evict_one_bufs by lia; unfold left_of.
  destruct (bufs c !! id) as [b |]; [| done].
  destruct (decide (id = x)) as [-> | Hne].
  - rewrite (bool_decide_true (x = x)), (bool_decide_true (x ∈ x :: p)) by (done || by apply elem_of_cons; left).
    simpl; destruct (evictable b) eqn:He; [done | by rewrite He, andb_false_r].
  - rewrite (bool_decide_false (id = x)) by done; simpl.
    assert (E : bool_decide (id ∈ p) = bool_decide (id ∈ x :: p)); [| by rewrite E].
    apply bool_decide_ext; rewrite elem_of_cons; tauto.
Qed.

(** eviction goes from the least recently used buffer on, drops every
    buffer it meets that is neither referenced nor dirty and no other, and
    stops when half the capacity is free or the list ends.  So pinned and
    dirty buffers are never lost, and a buffer is never dropped while an older
    evictable one is kept. *)
Theorem evict_oldest_clean c r :
  cache_inv c r ->
  exists old recent, reverse (lru_list c) = old ++ recent /\
    (forall id b, bufs c !! id = Some b ->
       bufs (evict_buffers c) !! id = if bool_decide (id ∈ old) && evictable b then None else Some b) /\
    (recent = [] \/ total_buffers (evict_buffers c) <= MAX_BUFFERS / 2) /\
    cache_inv (evict_buffers c) r.
Proof.
  intros I; destruct (evict_fold (reverse (lru_list c)) c) as (p & q & E & Hb & Hq).
  { rewrite reverse_Permutation; apply I. }
  exists p, q; split_and!; [done | | done | by apply evict_inv].
  intros id b Hid; fold (evict_buffers c) in Hb; rewrite Hb; unfold left_of; by rewrite Hid.
Qed.
End evict.

(** ** Contents, on one CPU *)

Section contents.
Context {D : Type}.
Implicit Types (c : cache D) (disk : Z -> D).

(** A buffer that is not dirty matches the disk. *)
Definition clean_ok c disk : Prop :=
  forall id b, bufs c !! id = Some b -> is_dirty b = false -> data b = disk (block b).

(** The contents of a block as a user of the cache sees them. *)
Definition view c disk (blk : Z) : D :=
  match lookup_block c blk with
  | Some id => match bufs c !! id with Some b => data b | None => disk blk end
  | None => disk blk
  end.

Lemma view_cached c r disk id b : cache_inv c r -> bufs c !! id = Some b -> view c disk (block b) = data b.
Proof.
  intros I Hb; unfold view.
  rewrite (proj2 (lookup_block_spec c r (block b) id I)) by (by exists b); by rewrite Hb.
Qed.

Lemma view_uncached c r disk blk :
  cache_inv c r -> (forall id b, bufs c !! id = Some b -> block b <> blk) -> view c disk blk = disk blk.
Proof. intros I Hn; unfold view; by rewrite (proj2 (lookup_block_none c r blk I) Hn). Qed.

(** The view is unchanged if the buffers hold the same contents, or dropped
    contents that are on the disk. *)
Lemma view_same c r c' r' disk disk' :
  cache_inv c r -> cache_inv c' r' ->
  (forall id b', bufs c' !! id = Some b' -> exists b, bufs c !! id = Some b /\ block b = block b' /\ data b = data b') ->
  (forall id b, bufs c !! id = Some b -> bufs c' !! id = None -> data b = disk' (block b)) ->
  (forall blk, (forall id b, bufs c !! id = Some b -> block b <> blk) -> disk' blk = disk blk) ->
  forall blk, view c' disk' blk = view c disk blk.
Proof.
  intros I I' Hsub Hgone Hdisk blk.
  destruct (lookup_block c' blk) as [id |] eqn:E'.
  - destruct (proj1 (lookup_block_spec c' r' blk id I') E') as (b' & Hb' & <-).
    destruct (Hsub id b' Hb') as (b & Hb & Eb & Ed).
    rewrite (view_cached c' r' disk' id b' I' Hb'), <- Eb, (view_cached c r disk id b I Hb); done.
  - pose proof (proj1 (lookup_block_none c' r' blk I') E') as Hn'.
    rewrite (view_uncached c' r' disk' blk I' Hn').
    destruct (lookup_block c blk) as [id |] eqn:E.
    + destruct (proj1 (lookup_block_spec c r blk id I) E) as (b & Hb & <-).
      rewrite (view_cached c r disk id b I Hb); symmetry; apply (Hgone id); [done |].
      destruct (bufs c' !! id) as [b' |] eqn:Hb'; [| done].
      destruct (Hsub id b' Hb') as (b2 & Hb2 & Eb2 & _); exfalso; apply (Hn' id b' Hb'); congruence.
    + pose proof (proj1 (lookup_block_none c r blk I) E) as Hn.
      rewrite (view_uncached c r disk blk I Hn); by apply Hdisk.
Qed.

(** The state one CPU sees: invariant, no slots in flight, clean buffers
    match the disk. *)
Definition coherent c disk (r : Z) : Prop := cache_inv c r /\ clean_ok c disk.

(** An operation that keeps what users see. *)
Definition transparent c disk (r : Z) c' disk' (r' : Z) : Prop :=
  coherent c' disk' r' /\ forall blk, view c' disk' blk = view c disk blk.

Lemma transparent_trans c0 d0 r0 c1 d1 r1 c2 d2 r2 :
  transparent c0 d0 r0 c1 d1 r1 -> transparent c1 d1 r1 c2 d2 r2 -> transparent c0 d0 r0 c2 d2 r2.
Proof. intros [_ V1] [C2 V2]; split; [done |]; intros blk; by rewrite V2. Qed.

Lemma transparent_refl c disk r : coherent c disk r -> transparent c disk r c disk r.
Proof. by split. Qed.

(** Changing the count only. *)
Lemma set_ref_transparent c disk r id b n :
  coherent c disk r -> bufs c !! id = Some b -> transparent c disk r (set_buf c id (with_ref b n)) disk r.
Proof.
  intros [I C] Hb; pose proof (set_buf_inv c r id b (with_ref b n) I Hb eq_refl) as I'.
  assert (Hold : forall i x, bufs (set_buf c id (with_ref b n)) !! i = Some x ->
    exists y, bufs c !! i = Some y /\ block y = block x /\ data y = data x /\ is_dirty y = is_dirty x).
  { intros i x Hx; simpl in Hx; apply lookup_insert_Some in Hx as [[<- <-] | [_ Hx]]; [by exists b | by exists x]. }
  split; [split; [done |] |].
  - intros i x Hx Hd; destruct (Hold i x Hx) as (y & Hy & <- & <- & Ed); apply (C i); [done | congruence].
  - apply (view_same c r _ r); try done.
    + intros i x Hx; destruct (Hold i x Hx) as (y & ? & ? & ? & _); by exists y.
    + intros i x Hx Hn; simpl in Hn; apply lookup_insert_None in Hn as [Hn _]; congruence.
Qed.

Lemma bump_ref_transparent c disk r id : coherent c disk r -> transparent c disk r (bump_ref c id) disk r.
Proof.
  intros C; unfold bump_ref; destruct (bufs c !! id) as [b |] eqn:Hb; [| by apply transparent_refl].
  by apply set_ref_transparent.
Qed.

Lemma evict_one_transparent c disk r id : coherent c disk r -> transparent c disk r (evict_one c id) disk r.
Proof.
  intros C; pose proof (evict_one_inv c r id (proj1 C)) as I'; destruct (Z_le_gt_dec (total_buffers c) 512).
  { rewrite evict_one_eq, (proj2 (Z.leb_le (total_buffers c) 512)) by lia; by apply transparent_refl. }
  destruct C as [I C]; pose proof (evict_one_bufs c id) as Hb; unfold left_of in Hb.
  assert (Hold : forall i x, bufs (evict_one c id) !! i = Some x -> bufs c !! i = Some x).
  { intros i x; rewrite Hb by lia; destruct (bufs c !! i); [case_match; congruence | done]. }
  split; [split; [done | intros i x Hx; by apply (C i), Hold] |].
  apply (view_same c r _ r); try done.
  - intros i x Hx; exists x; auto.
  - intros i x Hx; rewrite Hb, Hx by lia; destruct (bool_decide (i = id) && evictable x) eqn:E; [| done].
    intros _; apply (C i x Hx); unfold evictable in E.
    destruct (is_dirty x); [rewrite !andb_false_r in E; done | done].
Qed.

Lemma foldl_transparent {B} (f : cache D * (Z -> D) -> B -> cache D * (Z -> D)) r l :
  (forall c disk x, coherent c disk r -> transparent c disk r (f (c, disk) x).1 (f (c, disk) x).2 r) ->
  forall c disk, coherent c disk r ->
  transparent c disk r (foldl f (c, disk) l).1 (foldl f (c, disk) l).2 r.
Proof.
  intros Hf; induction l as [| x l IH]; intros c disk C; simpl; [by apply transparent_refl |].
  pose proof (Hf c disk x C) as T; destruct (f (c, disk) x) as [c1 d1]; simpl in T.
  eapply transparent_trans; [exact T | apply IH, T].
Qed.

Lemma evict_transparent c disk r : coherent c disk r -> transparent c disk r (evict_buffers c) disk r.
Proof.
  intros C; unfold evict_buffers; generalize (reverse (lru_list c)); intros l; revert c C.
  induction l as [| x l IH]; intros c C; simpl; [by apply transparent_refl |].
  eapply transparent_trans; [by apply evict_one_transparent | apply IH; by apply evict_one_transparent].
Qed.

Lemma collect_transparent c disk r : coherent c disk r -> transparent c disk r (sync_collect c).1 disk r.
Proof.
  intros C; unfold sync_collect.
  assert (H : forall l c0 ds, coherent c0 disk r -> transparent c0 disk r (foldl collect_one (c0, ds) l).1 disk r).
  { induction l as [| x l IH]; intros c0 ds C0; simpl; [by apply transparent_refl |].
    destruct (bufs c0 !! x) as [b |]; [case_if |]; try by apply IH.
    eapply transparent_trans; [by apply bump_ref_transparent | apply IH; by apply bump_ref_transparent]. }
  by apply H.
Qed.

Lemma clear_dirty f : Z.land (Z.land f (not32 BUFFER_DIRTY)) BUFFER_DIRTY = 0.
Proof. rewrite <- Z.land_assoc; change (Z.land (not32 BUFFER_DIRTY) BUFFER_DIRTY) with 0; apply Z.land_0_r. Qed.

(** What [sync_done] makes of the buffer. *)
Definition synced (ok : bool) (b : block_buffer D) : block_buffer D :=
  let b := if ok then with_flags b (Z.land (bflags b) (not32 BUFFER_DIRTY)) else b in
  with_ref b (if 0 <? ref_count b then ref_count b - 1 else ref_count b).

Lemma synced_same ok b : block (synced ok b) = block b /\ data (synced ok b) = data b.
Proof. destruct ok; done. Qed.

Lemma write_back_transparent wr c disk r id :
  coherent c disk r ->
  transparent c disk r (write_back wr (c, disk) id).1 (write_back wr (c, disk) id).2 r.
Proof.
  intros [I C]; unfold write_back; destruct (bufs c !! id) as [b |] eqn:Hb; [| by apply transparent_refl].
  assert (Hs : forall ok, sync_done c id ok = set_buf c id (synced ok b)) by (intros ok; unfold sync_done; by rewrite Hb).
  pose proof (fun ok => set_buf_inv c r id b (synced ok b) I Hb (proj1 (synced_same ok b))) as I'.
  assert (Hold : forall ok i x, bufs (set_buf c id (synced ok b)) !! i = Some x ->
    exists y, bufs c !! i = Some y /\ block y = block x /\ data y = data x).
  { intros ok i x Hx; simpl in Hx; apply lookup_insert_Some in Hx as [[<- <-] | [_ Hx]]; [exists b | by exists x].
    destruct (synced_same ok b); done. }
  assert (Hnone : forall ok i x, bufs c !! i = Some x -> bufs (set_buf c id (synced ok b)) !! i <> None).
  { intros ok i x Hx Hn; simpl in Hn; apply lookup_insert_None in Hn as [Hn _]; congruence. }
  destruct (wr (block b)); simpl fst; simpl snd; rewrite Hs; (split; [split; [apply I' |] |]).
  - intros i x Hx Hd; simpl in Hx; apply lookup_insert_Some in Hx as [[<- <-] | [Hne Hx]].
    + destruct (synced_same true b) as [-> ->]; by rewrite Z.eqb_refl.
    + destruct (Z.eqb_spec (block x) (block b)) as [E |]; [| by apply (C i)].
      exfalso; apply Hne; by eapply (ci_unique _ _ I).
  - apply (view_same c r _ r); [done | apply I' | exact (Hold true) | intros i x Hx Hn; by destruct (Hnone true i x Hx) |].
    intros blk Hn; destruct (Z.eqb_spec blk (block b)) as [-> |]; [by destruct (Hn id b Hb) | done].
  - intros i x Hx Hd; simpl in Hx; apply lookup_insert_Some in Hx as [[<- <-] | [_ Hx]]; [| by apply (C i)].
    apply (C id b Hb); done.
  - apply (view_same c r _ r); [done | apply I' | exact (Hold false) | intros i x Hx Hn; by destruct (Hnone false i x Hx) | done].
Qed.

Lemma sync_transparent wr c disk r :
  coherent c disk r -> transparent c disk r (buffer_sync wr c disk).1 (buffer_sync wr c disk).2 r.
Proof.
  intros C; unfold buffer_sync; pose proof (collect_transparent c disk r C) as T.
  destruct (sync_collect c) as [c1 ds]; simpl in T.
  eapply transparent_trans; [exact T | apply foldl_transparent; [| apply T]].
  intros; by apply write_back_transparent.
Qed.

(** No operation of these brings a buffer into the cache. *)
Definition shrinks c c' : Prop := forall id, bufs c !! id = None -> bufs c' !! id = None.

Lemma set_buf_shrinks c id b b' : bufs c !! id = Some b -> shrinks c (set_buf c id b').
Proof. intros Hb i Hi; simpl; rewrite lookup_insert_ne; [done | congruence]. Qed.

Lemma evict_shrinks c : shrinks c (evict_buffers c).
Proof.
  intros id Hid; unfold evict_buffers; apply (foldl_inv (fun c => bufs c !! id = None)); [| done].
  clear; intros c x Hx; rewrite evict_one_eq; case_if; [done |].
  destruct (bufs c !! x); [case_if |]; simpl; try done; rewrite lookup_delete_None; by right.
Qed.

Lemma bump_ref_shrinks c id : shrinks c (bump_ref c id).
Proof. unfold bump_ref; destruct (bufs c !! id) eqn:E; [by eapply set_buf_shrinks | by intros ? ?]. Qed.

Lemma sync_shrinks wr c disk : shrinks c (buffer_sync wr c disk).1.
Proof.
  intros id Hid; unfold buffer_sync, sync_collect.
  assert (H1 : bufs (foldl collect_one (c, []) (lru_list c)).1 !! id = None).
  { apply (foldl_inv (fun acc : cache D * list nat => bufs acc.1 !! id = None)); [| done].
    intros [c0 ds] x Hx; simpl in *; destruct (bufs c0 !! x); [case_if |]; simpl; try done; by apply bump_ref_shrinks. }
  destruct (foldl collect_one (c, []) (lru_list c)) as [c1 ds]; simpl in H1.
  apply (foldl_inv (fun st : cache D * (Z -> D) => bufs st.1 !! id = None)); [| done].
  intros [c0 d0] x Hx; simpl in *; destruct (bufs c0 !! x) as [b |] eqn:E; [| done].
  assert (Hs : forall ok, bufs (sync_done c0 x ok) !! id = None).
  { intros ok; unfold sync_done; rewrite E; simpl; rewrite lookup_insert_ne; [done | congruence]. }
  destruct (wr (block b)); apply Hs.
Qed.

Lemma hit_transparent c disk r id b :
  coherent c disk r -> bufs c !! id = Some b -> transparent c disk r (hit c id) disk r.
Proof.
  intros C Hb; pose proof (hit_inv c r id b (proj1 C) Hb) as I'.
  destruct (bump_ref_transparent c disk r id C) as [[_ C2] V2].
  assert (Eb : bufs (hit c id) = bufs (bump_ref c id)) by (unfold hit, bump_ref; simpl; rewrite Hb; done).
  split; [split; [done | unfold clean_ok; by rewrite Eb] |]; destruct C as [I C].
  apply (view_same c r _ r); try done; rewrite ?Eb; unfold bump_ref; rewrite Hb; simpl.
  - intros i x [[<- <-] | [_ Hx]]%lookup_insert_Some; [by exists b | by exists x].
  - intros i x Hx [Hn _]%lookup_insert_None; congruence.
Qed.

Lemma set_total_transparent c disk r n r' :
  coherent c disk r -> cache_inv (set_total c n) r' -> transparent c disk r (set_total c n) disk r'.
Proof.
  intros [I C] I'; split; [by split |]; apply (view_same c r _ r'); try done; [intros i x Hx; by exists x | intros i x Hx Hn; simpl in Hn; congruence].
Qed.

Lemma insert_transparent c disk r id blk :
  coherent c disk r -> 0 < r -> bufs c !! id = None ->
  let '(c', id') := insert_read c id blk (disk blk) in
  transparent c disk r c' disk (r - 1) /\
  exists b, bufs c' !! id' = Some b /\ block b = blk /\ data b = view c disk blk.
Proof.
  intros C Hr Hid; pose proof (insert_read_inv c r id blk (disk blk) (proj1 C) Hr Hid) as I'.
  unfold insert_read in *; destruct (lookup_block c blk) as [o |] eqn:E; simpl in I'.
  - destruct (proj1 (lookup_block_spec c r blk o (proj1 C)) E) as (b & Hb & <-).
    assert (T1 : transparent c disk r (release_slot c) disk (r - 1))
      by (apply set_total_transparent; [done | by apply release_inv; [apply C |]]).
    split; [eapply transparent_trans; [exact T1 | apply bump_ref_transparent, T1] |].
    rewrite (view_cached c r disk o b (proj1 C) Hb); unfold bump_ref; simpl; rewrite Hb; simpl.
    exists (with_ref b (u32 (ref_count b + 1))); rewrite lookup_insert_eq; done.
  - pose proof (proj1 (lookup_block_none c r blk (proj1 C)) E) as Hno; destruct C as [I C].
    set (nb := {| block := blk; data := disk blk; bflags := BUFFER_UPTODATE; ref_count := 1 |}) in *.
    split; [| exists nb; simpl; rewrite lookup_insert_eq, (view_uncached c r disk blk I Hno); done].
    split; [split; [done |] |].
    + intros i x Hx Hd; simpl in Hx; apply lookup_insert_Some in Hx as [[<- <-] | [_ Hx]]; [done | by apply (C i)].
    + intros k; destruct (Z.eq_dec k blk) as [-> | Hk].
      * rewrite (view_uncached c r disk blk I Hno); refine (view_cached _ _ disk id nb I' _).
        simpl; by rewrite lookup_insert_eq.
      * destruct (lookup_block c k) as [o |] eqn:Ek.
        -- destruct (proj1 (lookup_block_spec c r k o I) Ek) as (b & Hb & <-).
           rewrite (view_cached c r disk o b I Hb); refine (view_cached _ _ disk o b I' _).
           simpl; rewrite lookup_insert_ne; [done | congruence].
        -- pose proof (proj1 (lookup_block_none c r k I) Ek) as Hnk; rewrite (view_uncached c r disk k I Hnk).
           refine (view_uncached _ _ disk k I' _); simpl.
           intros i x [[<- <-] | [_ Hx]]%lookup_insert_Some; [done | by apply (Hnk i)].
Qed.

(** Getting a slot, with or without a write-back on the way. *)
Lemma slot_transparent wr c disk :
  coherent c disk 0 ->
  let '(slot, c', disk') :=
    match reserve c with
    | Some c => (true, c, disk)
    | None =>
      let '(c, disk) := buffer_sync wr (evicted_full c) disk in
      match reserve_retry c with
      | Some c => (true, c, disk)
      | None => (false, evicted_full c, disk)
      end
    end in
  transparent c disk 0 c' disk' (if slot then 1 else 0) /\ shrinks c c'.
Proof.
  intros C; destruct (reserve c) as [c1 |] eqn:E.
  - pose proof (reserve_inv c 0 c1 (proj1 C) E) as I1; unfold reserve, take_slot in E.
    set (c0 := if MAX_BUFFERS <=? total_buffers c then _ else _) in E.
    assert (T : transparent c disk 0 c0 disk 0) by (unfold c0; case_if; [by apply evict_transparent | by apply transparent_refl]).
    assert (Sh : shrinks c c0) by (unfold c0; case_if; [apply evict_shrinks | by intros ? ?]).
    case_if_in E; [done |]; injection E as <-; split; [| exact Sh].
    eapply transparent_trans; [exact T | apply set_total_transparent; [apply T | exact I1]].
  - pose proof (evict_transparent c disk 0 C) as T1; pose proof (sync_transparent wr (evicted_full c) disk 0 (proj1 T1)) as T2.
    pose proof (sync_shrinks wr (evicted_full c) disk) as S2.
    destruct (buffer_sync wr (evicted_full c) disk) as [c2 d2]; simpl in T2, S2.
    pose proof (evict_transparent c2 d2 0 (proj1 T2)) as T3.
    assert (T : transparent c disk 0 (evict_buffers c2) d2 0)
      by (eapply transparent_trans; [exact T1 | eapply transparent_trans; [exact T2 | exact T3]]).
    assert (Sh : shrinks c (evict_buffers c2)) by (intros i Hi; apply evict_shrinks, S2, evict_shrinks, Hi).
    unfold reserve_retry, take_slot, evicted_full; destruct (Z.leb_spec MAX_BUFFERS (total_buffers (evict_buffers c2)));
      (split; [| exact Sh]); [exact T |].
    eapply transparent_trans; [exact T | apply set_total_transparent; [apply T |]].
    assert (I3 : cache_inv (evict_buffers c2) 0) by apply T.
    destruct I3 as [? ? ? ? ? ? ? ?]; constructor; simpl; try done; lia.
Qed.

(** [buffer_get] is transparent: whatever it evicts or writes back, and
    whether or not memory and the disk cooperate, the contents users see of
    every block stay the same, clean buffers still match the disk, no slot is
    lost, and a buffer it returns holds the contents of the block asked for.
    It fails only for a block that was not cached. *)
Theorem buffer_get_transparent rd wr ok_meta ok_page blk fresh_id c disk :
  coherent c disk 0 -> bufs c !! fresh_id = None ->
  let '(c', disk', res) := buffer_get rd wr ok_meta ok_page blk fresh_id c disk in
  transparent c disk 0 c' disk' 0 /\
  match res with
  | Some id => exists b, bufs c' !! id = Some b /\ block b = blk /\ data b = view c disk blk
  | None => lookup_block c blk = None
  end.
Proof.
  intros C Hid; unfold buffer_get; destruct (lookup_block c blk) as [id |] eqn:E.
  { destruct (proj1 (lookup_block_spec c 0 blk id (proj1 C)) E) as (b & Hb & <-).
    split; [by eapply hit_transparent |]; rewrite (view_cached c 0 disk id b (proj1 C) Hb).
    unfold hit, bump_ref; simpl; rewrite Hb; simpl; exists (with_ref b (u32 (ref_count b + 1))).
    rewrite lookup_insert_eq; done. }
  pose proof (slot_transparent wr c disk C) as T.
  destruct (match reserve c with Some _ => _ | None => _ end) as [[slot c1] d1]; destruct T as [T Sh].
  destruct slot; simpl; [| split; done].
  assert (Rel : transparent c disk 0 (release_slot c1) d1 0).
  { eapply transparent_trans; [exact T | apply set_total_transparent; [apply T | apply (release_inv c1 1); [apply T | lia]]]. }
  destruct ok_meta; simpl; [| done]; destruct ok_page; simpl; [| done]; destruct (rd blk); simpl; [| done].
  pose proof (insert_transparent c1 d1 1 fresh_id blk (proj1 T) ltac:(lia) (Sh _ Hid)) as Ti.
  destruct (insert_read c1 fresh_id blk (d1 blk)) as [c2 id2]; destruct Ti as [Ti (b & Hb & Hblk & Hd)].
  split; [eapply transparent_trans; [exact T | exact Ti] |]; exists b; split_and!; try done.
  rewrite Hd; apply T.
Qed.

(** *** Write-back *)

Definition dirty_at c id : bool := match bufs c !! id with Some b => is_dirty b | None => false end.

Lemma bump_dirty c x id : dirty_at (bump_ref c x) id = dirty_at c id.
Proof.
  unfold dirty_at, bump_ref; destruct (bufs c !! x) as [b |] eqn:E; [| done]; simpl.
  destruct (decide (id = x)) as [-> |]; [rewrite lookup_insert_eq, E; done | by rewrite lookup_insert_ne].
Qed.

(** With at most 64 dirty buffers on the list, all of them are collected. *)
Lemma collect_all l : forall c ds,
  zlen ds + zlen (List.filter (dirty_at c) l) <= MAX_DIRTY ->
  (foldl collect_one (c, ds) l).2 = ds ++ List.filter (dirty_at c) l /\
  forall id, dirty_at (foldl collect_one (c, ds) l).1 id = dirty_at c id.
Proof.
  induction l as [| x l IH]; intros c ds Hl; simpl; [by rewrite app_nil_r |].
  assert (Ex : dirty_at c x = match bufs c !! x with Some b => is_dirty b | None => false end) by done.
  simpl in Hl; destruct (bufs c !! x) as [b |] eqn:Hb; rewrite Ex in *; [| by apply IH].
  destruct (is_dirty b) eqn:Hd; simpl; [| by apply IH].
  assert (Hf : List.filter (dirty_at (bump_ref c x)) l = List.filter (dirty_at c) l)
    by (apply List.filter_ext; intros; apply bump_dirty).
  assert (Hz : zlen (x :: List.filter (dirty_at c) l) = 1 + zlen (List.filter (dirty_at c) l)) by (unfold zlen; simpl; lia).
  assert (0 <= zlen (List.filter (dirty_at c) l)) by (unfold zlen; lia).
  rewrite (proj2 (Z.ltb_lt (zlen ds) MAX_DIRTY)) by lia.
  destruct (IH (bump_ref c x) (ds ++ [x])) as [-> H2].
  { rewrite Hf; unfold zlen at 1; rewrite length_app; simpl; unfold zlen in *; lia. }
  split; [by rewrite Hf, <- app_assoc |]; intros id; rewrite H2; apply bump_dirty.
Qed.

Lemma write_back_clean c disk x id :
  dirty_at (write_back (fun _ => true) (c, disk) x).1 id = dirty_at c id && negb (bool_decide (id = x)).
Proof.
  unfold write_back, sync_done; destruct (bufs c !! x) as [b |] eqn:E; simpl.
  - unfold dirty_at; simpl; destruct (decide (id = x)) as [-> | Hne].
    + rewrite lookup_insert_eq, bool_decide_true by done; unfold is_dirty; simpl; rewrite clear_dirty; by rewrite andb_false_r.
    + rewrite lookup_insert_ne, bool_decide_false by done; by rewrite andb_true_r.
  - destruct (decide (id = x)) as [-> | Hne]; [unfold dirty_at; by rewrite E |].
    rewrite bool_decide_false by done; by rewrite andb_true_r.
Qed.

Lemma write_all_clean ds : forall c disk id,
  dirty_at (foldl (write_back (fun _ => true)) (c, disk) ds).1 id = dirty_at c id && negb (bool_decide (id ∈ ds)).
Proof.
  induction ds as [| x ds IH]; intros c disk id; cbn [foldl].
  { rewrite bool_decide_false by (intros H; by apply elem_of_nil in H); by rewrite andb_true_r. }
  pose proof (write_back_clean c disk x id) as Hx; destruct (write_back (fun _ => true) (c, disk) x) as [c1 d1].
  rewrite IH; simpl in Hx; rewrite Hx, <- andb_assoc, <- negb_orb; do 2 f_equal.
  rewrite <- bool_decide_or; apply bool_decide_ext; by rewrite elem_of_cons.
Qed.

(** when the disk accepts the writes and at most 64 buffers are dirty,
    one [buffer_sync] makes the disk hold exactly what users of the cache see,
    in every block, and leaves no buffer dirty. *)
Theorem sync_makes_durable c disk r :
  coherent c disk r -> zlen (List.filter (dirty_at c) (lru_list c)) <= MAX_DIRTY ->
  let '(c', disk') := buffer_sync (fun _ => true) c disk in
  (forall id b, bufs c' !! id = Some b -> is_dirty b = false) /\ forall blk, disk' blk = view c disk blk.
Proof.
  intros C Hd; pose proof (sync_transparent (fun _ => true) c disk r C) as T.
  destruct (collect_all (lru_list c) c []) as [E1 E2]; [exact Hd |].
  unfold buffer_sync, sync_collect in *; destruct (foldl collect_one (c, []) (lru_list c)) as [c1 ds]; simpl in E1, E2.
  pose proof (write_all_clean ds c1 disk) as Hc.
  destruct (foldl (write_back (fun _ => true)) (c1, disk) ds) as [c2 d2]; simpl in Hc, T.
  destruct T as [[I2 C2] V2].
  assert (Hclean : forall id b, bufs c2 !! id = Some b -> is_dirty b = false).
  { intros id b Hb; specialize (Hc id); unfold dirty_at at 1 in Hc; rewrite Hb in Hc; rewrite Hc, E2.
    destruct (dirty_at c id) eqn:Hdi; [simpl | done]; rewrite bool_decide_true; [done |].
    rewrite E1; apply list_elem_of_In, List.filter_In; split; [| done]; apply list_elem_of_In, (ci_lru c r (proj1 C)).
    unfold dirty_at in Hdi; destruct (bufs c !! id); [eauto | done]. }
  split; [done |]; intros blk; rewrite <- V2; unfold view.
  destruct (lookup_block c2 blk) as [id |] eqn:El; [| done].
  destruct (proj1 (lookup_block_spec c2 r blk id I2) El) as (b & Hb & <-); rewrite Hb; symmetry; eauto.
Qed.
End contents.

(** ** Witnesses *)

(** Block 7 cached and modified, on a disk of zeroes. *)
Definition disk0 : Z -> Z := fun _ => 0.
Definition one_dirty : cache Z :=
  write_buffer (insert_read (set_total buffer_init 1) 1%nat 7 (disk0 7)).1 1%nat 42.

Lemma init_coherent : coherent (buffer_init : cache Z) disk0 0.
Proof. split; [apply init_inv | intros id b Hb; done]. Qed.

Lemma one_dirty_coherent : coherent one_dirty disk0 0.
Proof.
  split.
  - apply write_buffer_inv, (insert_read_inv _ 1 1%nat 7 (disk0 7)); [| lia | done].
    apply (reserve_inv buffer_init 0); [apply init_inv | done].
  - intros id b Hb; assert (Eb : bufs one_dirty = {[ 1%nat := {| block := 7; data := 42; bflags := 3; ref_count := 1 |} ]})
      by reflexivity.
    rewrite Eb in Hb; apply lookup_singleton_Some in Hb as [_ <-]; intros Hd; discriminate Hd.
Qed.

Lemma cache_cap_and_uniqueness_witness :
  exists w : world (D := Z), rtc bstep (Build_world buffer_init ∅) w /\
    lookup_block (w_cache w) 7 = Some 1%nat /\ total_buffers (w_cache w) = 1.
Proof.
  set (w := Build_world (insert_read (set_total buffer_init 1) 1%nat 7 (disk0 7)).1 (delete 0%nat (<[0%nat := Reading 7]> ∅))).
  assert (R : rtc bstep (Build_world (buffer_init : cache Z) ∅) w).
  { eapply rtc_l; [apply (BReserve buffer_init ∅ 0%nat 7 (set_total buffer_init 1)); reflexivity |].
    apply rtc_once, BInsert; reflexivity. }
  exists w; split; [exact R |].
  destruct (cache_cap_and_uniqueness w R) as (_ & Ht & _ & Hl).
  split; [apply Hl; eexists; split; reflexivity | rewrite Ht; reflexivity].
Defined.

Lemma evict_oldest_clean_witness :
  bufs (evict_buffers one_dirty) !! 1%nat = bufs one_dirty !! 1%nat /\ cache_inv (evict_buffers one_dirty) 0.
Proof.
  destruct (evict_oldest_clean one_dirty 0 (proj1 one_dirty_coherent)) as (old & recent & _ & Hb & _ & I).
  split; [| exact I].
  rewrite (Hb 1%nat {| block := 7; data := 42; bflags := 3; ref_count := 1 |}) by reflexivity.
  rewrite andb_false_r; reflexivity.
Defined.

Lemma buffer_get_transparent_witness :
  let '(c', disk', res) := buffer_get (fun _ => true) (fun _ => true) true true 9 2%nat one_dirty disk0 in
  res = Some 2%nat /\ view c' disk' 7 = 42.
Proof.
  pose proof (buffer_get_transparent (fun _ => true) (fun _ => true) true true 9 2%nat one_dirty disk0
                one_dirty_coherent eq_refl) as H.
  assert (E : (buffer_get (fun _ => true) (fun _ => true) true true 9 2%nat one_dirty disk0).2 = Some 2%nat) by reflexivity.
  destruct (buffer_get (fun _ => true) (fun _ => true) true true 9 2%nat one_dirty disk0) as [[c' disk'] res].
  destruct H as [[_ V] _]; split; [exact E | rewrite V; reflexivity].
Defined.

Lemma sync_makes_durable_witness : (buffer_sync (fun _ => true) one_dirty disk0).2 7 = 42.
Proof.
  pose proof (sync_makes_durable one_dirty disk0 0 one_dirty_coherent) as H.
  assert (Hd : zlen (List.filter (dirty_at one_dirty) (lru_list one_dirty)) <= MAX_DIRTY) by (vm_compute; discriminate).
  specialize (H Hd); destruct (buffer_sync (fun _ => true) one_dirty disk0) as [c' disk'].
  destruct H as [_ H]; cbn [snd]; rewrite (H 7); reflexivity.
Defined.
