(* ===== verification/CString.v ===== *)
(** * NUL-terminated strings (kernel/lib/string.c)

    A C string is the list of its bytes before the terminator, each read as an
    [unsigned char]; [is_cstr] says they are bytes other than NUL.  The file
    models the comparison and copy routines the registry and the process table
    use, and shows that [strcmp] is a total order. *)
From Stdlib Require Import ZArith Lia Ascii String.
From stdpp Require Import base numbers list.
From S2P Require Import Prelude.

Abbreviation str := (list Z).

Definition is_cstr (s : str) : Prop := Forall (fun c => 0 < c < 256) s.

(** A literal of the source as its bytes. *)
Fixpoint lit (s : string) : str :=
  match s with
  | EmptyString => []
  | String a t => Z.of_nat (nat_of_ascii a) :: lit t
  end.

Definition strlen (s : str) : Z := zlen s.

Fixpoint strcmp (s1 s2 : str) : Z :=
  match s1, s2 with
  | a :: t1, b :: t2 => if a =? b then strcmp t1 t2 else a - b
  | a :: _, [] => a
  | [], b :: _ => - b
  | [], [] => 0
  end.

(** [while (n-- > 1 && *s1 && *s1 == *s2)]: at most [n] bytes are compared. *)
Fixpoint strncmp (s1 s2 : str) (n : nat) {struct n} : Z :=
  match n with
  | O => 0
  | S m =>
    match s1, s2 with
    | a :: t1, b :: t2 => if a =? b then strncmp t1 t2 m else a - b
    | a :: _, [] => a
    | [], b :: _ => - b
    | [], [] => 0
    end
  end.

(** The string held by a buffer: its bytes before the first NUL. *)
Fixpoint cstr (buf : list Z) : str :=
  match buf with
  | [] => []
  | c :: t => if c =? 0 then [] else c :: cstr t
  end.

(** [strncpy(dest, src, n)]: [n] bytes of [dest] are written, the copy being
    padded with zeros; the rest of [dest] stays. *)
Definition strncpy (dest : list Z) (src : str) (n : nat) : list Z :=
  take n (src ++ replicate n 0) ++ drop n dest.

(** [strncpy(buf, src, size - 1); buf[size - 1] = 0], the idiom by which the
    kernel copies a string into a fixed array; the result is the string the
    array then holds. *)
Definition strcopy (size : Z) (src : str) : str :=
  cstr (zset (strncpy (replicate (Z.to_nat size) 0) src (Z.to_nat (size - 1))) (size - 1) 0).

(** [atoi]: the value stops at the ends of the [int] range. *)
Fixpoint atoi_digits (s : str) (sign res : Z) : Z :=
  match s with
  | [] => res * sign
  | c :: s =>
    if (48 <=? c) && (c <=? 57) then
      if (2147483647 - (c - 48)) / 10 <? res then (if 0 <? sign then 2147483647 else -2147483648)
      else atoi_digits s sign (res * 10 + (c - 48))
    else res * sign
  end.

Fixpoint skip_spaces (s : str) : str :=
  match s with c :: t => if c =? 32 then skip_spaces t else s | [] => [] end.

Definition atoi (s : str) : Z :=
  match skip_spaces s with
  | c :: t => if c =? 45 then atoi_digits t (-1) 0 else if c =? 43 then atoi_digits t 1 0 else atoi_digits (c :: t) 1 0
  | [] => 0
  end.

(** ** Lemmas *)

Lemma is_cstr_nil : is_cstr [].
Proof. constructor. Qed.

Lemma is_cstr_take n s : is_cstr s -> is_cstr (take n s).
Proof. apply Forall_take. Qed.

Lemma cstr_app_nul s t : is_cstr s -> cstr (s ++ 0 :: t) = s.
Proof.
  induction 1 as [| c s Hc _ IH]; simpl; [done |].
  destruct (Z.eqb_spec c 0); [lia |]; by rewrite IH.
Qed.

Lemma cstr_is_cstr buf : Forall is_u8 buf -> is_cstr (cstr buf).
Proof.
  induction 1 as [| c s Hc _ IH]; simpl; [constructor |].
  destruct (Z.eqb_spec c 0); [constructor |]; constructor; [| done].
  unfold is_u8 in Hc; lia.
Qed.

(** The copy idiom truncates to [size - 1] bytes and does nothing else. *)
Lemma strcopy_take size s :
  0 < size -> is_cstr s -> strcopy size s = take (Z.to_nat (size - 1)) s.
Proof.
  intros Hsize Hs; unfold strcopy, strncpy, zset.
  destruct (Z.ltb_spec (size - 1) 0); [lia |].
  set (n := Z.to_nat (size - 1)); replace (Z.to_nat size) with (S n) by (unfold n; lia).
  rewrite drop_replicate; replace (S n - n)%nat with 1%nat by lia.
  assert (Hl : length (take n (s ++ replicate n 0)) = n)
    by (rewrite length_take, length_app, length_replicate; lia).
  rewrite insert_app_r_alt by lia; rewrite Hl, Nat.sub_diag; simpl.
  destruct (le_lt_dec n (length s)) as [Hn | Hn].
  - rewrite take_app_le by done; by rewrite cstr_app_nul by (by apply is_cstr_take).
  - rewrite take_app_ge by lia; rewrite take_replicate, (take_ge s) by lia.
    replace (n - length s)%nat with (S (n - length s - 1)) by lia.
    rewrite Nat.min_l by lia; simpl; rewrite <- app_assoc; simpl.
    by rewrite cstr_app_nul.
Qed.

Lemma strcopy_fits size s : is_cstr s -> strlen s < size -> strcopy size s = s.
Proof.
  unfold strlen, zlen; intros Hs Hl; rewrite strcopy_take by (done || lia); apply take_ge; lia.
Qed.

Lemma strcmp_refl s : strcmp s s = 0.
Proof. induction s as [| c s IH]; simpl; [done |]; by rewrite Z.eqb_refl. Qed.

Lemma strcmp_eq s1 s2 : is_cstr s1 -> is_cstr s2 -> strcmp s1 s2 = 0 -> s1 = s2.
Proof.
  intros H1; revert s2; induction H1 as [| a s1 Ha _ IH]; intros s2 H2; destruct H2 as [| b s2 Hb H2];
    simpl; intros E; try done; try lia.
  destruct (Z.eqb_spec a b); [| lia]; f_equal; auto.
Qed.

Lemma strcmp_antisym s1 s2 : strcmp s1 s2 < 0 <-> 0 < strcmp s2 s1.
Proof.
  revert s2; induction s1 as [| a s1 IH]; intros [| b s2]; simpl; try lia.
  rewrite (Z.eqb_sym b a); destruct (Z.eqb_spec a b); [apply IH | lia].
Qed.

Lemma strcmp_lt_trans s1 s2 s3 :
  is_cstr s1 -> is_cstr s2 -> is_cstr s3 ->
  strcmp s1 s2 < 0 -> strcmp s2 s3 < 0 -> strcmp s1 s3 < 0.
Proof.
  intros H1; revert s2 s3; induction H1 as [| a s1 Ha _ IH];
    intros s2 s3 H2 H3; destruct H2 as [| b s2 Hb H2], H3 as [| c s3 Hc H3]; simpl; try lia.
  repeat case_if; subst; try lia; intros; eapply (IH s2 s3); eauto.
Qed.

Lemma strcmp_irrefl s : ~ strcmp s s < 0.
Proof. rewrite strcmp_refl; lia. Qed.

(** [strncmp] with the length of its second argument is the prefix test. *)
Lemma strncmp_prefix s p :
  is_cstr s -> is_cstr p -> strncmp s p (length p) = 0 <-> take (length p) s = p.
Proof.
  intros Hs Hp; revert s Hs; induction Hp as [| b p Hb _ IH]; intros s Hs; simpl; [by rewrite take_0 |].
  destruct Hs as [| a s Ha Hs]; simpl; [split; [lia | done] |].
  case_if; [subst; rewrite IH by done; split; congruence |].
  split; [lia | congruence].
Qed.
