(* ===== verification/Printf.v ===== *)
(** * Formatted output (kernel/lib/vsnprintf.c, kernel build)

    The parser of directives, the number printer and the bounded writer.  A
    format is its bytes before the terminator; the arguments are a list.  What is
    undefined in C is [Undefined]: a read past the terminator of the format, an
    argument that is not there or of another type, a string read past its array,
    a store through a null buffer, and an [int] (a width, a precision, a count)
    or an [int64_t] that leaves its range.  The kernel is built without [-fwrapv].
    Running out of the rounds of the loop is a result of its own, [OutOfFuel]. *)
From Stdlib Require Import ZArith Lia.
From stdpp Require Import base numbers list.
From S2P Require Import Prelude CString.

Definition FLAG_ZEROPAD : Z := 0x01.
Definition FLAG_LEFT : Z := 0x02.
Definition FLAG_PLUS : Z := 0x04.
Definition FLAG_SPACE : Z := 0x08.
Definition FLAG_SPECIAL : Z := 0x10.
Definition FLAG_UPPERCASE : Z := 0x20.
Definition FLAG_SIGN : Z := 0x40.

Definition flag (flags f : Z) : bool := negb (Z.land flags f =? 0).

(** What a run of the printer comes to. *)
Inductive outcome (A : Type) := Ok (a : A) | Undefined | OutOfFuel.
#[global] Arguments Ok {A} a.
#[global] Arguments Undefined {A}.
#[global] Arguments OutOfFuel {A}.

Definition INT_MAX : Z := 2147483647.

(** ** The writer: [if (written < (int)size - 1) buf[written++] = c; needed++;]

    [needed] is an [int]; [counted] says that it has not passed INT_MAX, and
    is tested after every step of the loop below. *)
Record sink := { out : list Z; needed : Z }.
Definition put (size : Z) (s : sink) (c : Z) : sink :=
  {| out := if (0 <? size) && (zlen (out s) <? i32 size - 1) then out s ++ [c] else out s; needed := needed s + 1 |}.
Definition puts (size : Z) (s : sink) (l : list Z) : sink := foldl (put size) s l.
Definition counted (s : sink) : bool := needed s <=? INT_MAX.
Definition sink0 : sink := {| out := []; needed := 0 |}.

(** ** Numbers *)

(** The digit of a value, lower or upper case. *)
Definition digit (upper : bool) (d : Z) : Z := if d <? 10 then 48 + d else if upper then 55 + d else 87 + d.

(** The digits in [tmp], least first: at most 64 for a 64-bit number. *)
Fixpoint digits_loop (fuel : nat) (upper : bool) (num base : Z) : list Z :=
  match fuel with
  | O => []
  | S fuel => if num =? 0 then [] else digit upper (num mod base) :: digits_loop fuel upper (num / base) base
  end.

Definition digits (upper : bool) (num base : Z) : list Z :=
  if num =? 0 then [48] else digits_loop 64 upper num base.

(** [tmp] with the zeroes up to the precision. *)
Definition padded (l : list Z) (precision : Z) : list Z := l ++ replicate (Z.to_nat (Z.min precision 64 - zlen l)) 48.

Definition sign_chars (flags : Z) : list Z :=
  if flag flags FLAG_SIGN then [45] else if flag flags FLAG_PLUS then [43] else if flag flags FLAG_SPACE then [32] else [].

(** A loop [while (width > 0) { put; width--; }]: the sink and the width after it. *)
Definition pad_loop (size : Z) (s : sink) (width c : Z) : sink * Z :=
  (puts size s (replicate (Z.to_nat width) c), if 0 <? width then 0 else width).

(** The characters stored and the number needed. *)
Definition print_num (size num base width precision flags : Z) : sink :=
  let tmp := padded (digits (flag flags FLAG_UPPERCASE) num base) precision in
  let width := width - zlen tmp in
  let width := if flag flags (Z.lor FLAG_SIGN (Z.lor FLAG_PLUS FLAG_SPACE)) then width - 1 else width in
  let s := sink0 in
  let '(s, width) := if negb (flag flags (Z.lor FLAG_ZEROPAD FLAG_LEFT)) then pad_loop size s width 32 else (s, width) in
  let s := puts size s (sign_chars flags) in
  let '(s, width) := if flag flags FLAG_ZEROPAD then pad_loop size s width 48 else (s, width) in
  let s := puts size s (rev tmp) in
  if flag flags FLAG_LEFT then fst (pad_loop size s width 32) else s.

(** ** Directives *)

Inductive arg := AInt (x : Z) | AStr (a : option (list Z)).

(** Flags: the bits, the rest of the format. *)
Definition flag_of (c : Z) : option Z :=
  if c =? 45 then Some FLAG_LEFT else if c =? 43 then Some FLAG_PLUS else if c =? 32 then Some FLAG_SPACE
  else if c =? 35 then Some FLAG_SPECIAL else if c =? 48 then Some FLAG_ZEROPAD else None.

Fixpoint parse_flags (fmt : str) (flags : Z) : Z * str :=
  match fmt with
  | c :: rest => match flag_of c with Some f => parse_flags rest (Z.lor flags f) | None => (flags, fmt) end
  | [] => (flags, [])
  end.

(** [n = n * 10 + (c - '0')] in an [int]. *)
Fixpoint parse_number (fmt : str) (n : Z) : option (Z * str) :=
  match fmt with
  | c :: rest =>
    if (48 <=? c) && (c <=? 57) then if n * 10 + (c - 48) <=? INT_MAX then parse_number rest (n * 10 + (c - 48)) else None
    else Some (n, fmt)
  | [] => Some (n, [])
  end.

Definition next_int (args : list arg) : option (Z * list arg) :=
  match args with AInt x :: args => Some (x, args) | _ => None end.

(** What follows a given character, if the format goes on with it. *)
Definition after (c : Z) (fmt : str) : option str :=
  match fmt with d :: rest => if d =? c then Some rest else None | [] => None end.

(** The width: flags, width, rest, arguments.  [-width] of INT_MIN is no [int]. *)
Definition parse_width (fmt : str) (flags : Z) (args : list arg) : option (Z * Z * str * list arg) :=
  match after 42 fmt with
  | Some rest =>
    '(x, args) ← next_int args;
    let w := i32 x in
    if w <? 0 then if - w <=? INT_MAX then Some (Z.lor flags FLAG_LEFT, - w, rest, args) else None
    else Some (flags, w, rest, args)
  | None => '(w, rest) ← parse_number fmt 0; Some (flags, w, rest, args)
  end.

Definition parse_precision (fmt : str) (args : list arg) : option (Z * str * list arg) :=
  match after 46 fmt with
  | Some rest =>
    match after 42 rest with
    | Some rest =>
      '(x, args) ← next_int args;
      let p := i32 x in Some (if p <? 0 then -1 else p, rest, args)
    | None => '(p, rest) ← parse_number rest 0; Some (p, rest, args)
    end
  | None => Some (-1, fmt, args)
  end.

(** [is_long] and the rest; a [size_t] has 8 bytes. *)
Definition parse_length (fmt : str) : Z * str :=
  match after 108 fmt with
  | Some rest => match after 108 rest with Some rest => (2, rest) | None => (1, rest) end
  | None => match after 122 fmt with Some rest => (2, rest) | None => (0, fmt) end
  end.

(** How much of a string is printed: [while (s[len]) { if (precision >= 0 && len
    >= precision) break; len++; }].  The array ends a string only with a NUL. *)
Fixpoint string_span (a : list Z) (precision len : Z) : option (list Z) :=
  match a with
  | [] => None
  | c :: a =>
    if c =? 0 then Some []
    else if (0 <=? precision) && (precision <=? len) then Some []
    else (cons c) <$> string_span a precision (len + 1)
  end.

(** What a directive prints: characters, or a number for [print_num]. *)
Inductive emission := Chars (l : list Z) | Number (num base width precision flags : Z).

Definition null_string : list Z := [40; 110; 117; 108; 108; 41; 0].

Definition print_string (s : list Z) (width flags : Z) : list Z :=
  let gap := replicate (Z.to_nat (width - zlen s)) 32 in
  if flag flags FLAG_LEFT then s ++ gap else gap ++ s.

Definition print_pointer (num width flags : Z) : list Z :=
  let pb := [48; 120] ++ out (print_num 30 num 16 16 (-1) FLAG_ZEROPAD) in
  let gap := replicate (Z.to_nat (width - zlen pb)) 32 in
  if flag flags FLAG_LEFT then pb ++ gap else gap ++ pb.

(** The conversion character [c]. *)
Definition convert (c width precision flags is_long : Z) (args : list arg) : option (emission * list arg) :=
  if c =? 99 then '(x, args) ← next_int args; Some (Chars [u8 x], args)
  else if c =? 115 then
    match args with
    | AStr a :: args => s ← string_span (default null_string a) precision 0; Some (Chars (print_string s width flags), args)
    | _ => None
    end
  else if (c =? 100) || (c =? 105) then
    '(x, args) ← next_int args;
    let num := u64 (if is_long =? 0 then i32 x else x) in
    if i64 num <? 0 then
      if - i64 num <? 2 ^ 63 then Some (Number (u64 (- i64 num)) 10 width precision (Z.lor flags FLAG_SIGN), args) else None
    else Some (Number num 10 width precision flags, args)
  else if (c =? 117) || (c =? 120) || (c =? 88) then
    '(x, args) ← next_int args;
    let num := if is_long =? 0 then u32 x else u64 x in
    Some (Number num (if c =? 117 then 10 else 16) width precision (if c =? 88 then Z.lor flags FLAG_UPPERCASE else flags), args)
  else if c =? 112 then '(x, args) ← next_int args; Some (Chars (print_pointer (u64 x) width flags), args)
  else if c =? 37 then Some (Chars [37], args)
  else Some (Chars [37; c], args).

(** A directive after its [%]. *)
Definition directive (fmt : str) (args : list arg) : option (emission * str * list arg) :=
  let '(flags, fmt) := parse_flags fmt 0 in
  '(flags, width, fmt, args) ← parse_width fmt flags args;
  '(precision, fmt, args) ← parse_precision fmt args;
  let '(is_long, fmt) := parse_length fmt in
  match fmt with
  | [] => None
  | c :: rest => '(e, args) ← convert c width precision flags is_long args; Some (e, rest, args)
  end.

(** ** [vsnprintf] *)

(** A number is printed twice: to count, and to store if there is room. *)
Definition emit_number (size : Z) (s : sink) (num base width precision flags : Z) : sink :=
  let written := zlen (out s) in
  let p := print_num (if written <? size then size - written else 0) num base width precision flags in
  {| out := if (0 <? size) && (written <? i32 size - 1) then out s ++ take (Z.to_nat (Z.min (needed p) (size - 1 - written))) (out p) else out s;
     needed := needed s + needed p |}.

Definition emit (size : Z) (s : sink) (e : emission) : sink :=
  match e with
  | Chars l => puts size s l
  | Number num base width precision flags => emit_number size s num base width precision flags
  end.

(** The loop over the format; every round takes a character at least. *)
Fixpoint format_loop (fuel : nat) (size : Z) (fmt : str) (args : list arg) (s : sink) : outcome sink :=
  match fuel with
  | O => OutOfFuel
  | S fuel =>
    match fmt with
    | [] => Ok s
    | c :: rest =>
      if negb (c =? 37) then
        let s := put size s c in
        if counted s then format_loop fuel size rest args s else Undefined
      else
        match directive rest args with
        | Some (e, rest, args) =>
          let s := emit size s e in
          if counted s then format_loop fuel size rest args s else Undefined
        | None => Undefined
        end
    end
  end.

(** The bytes stored, the terminator included, and the result.  [buf] says that
    there is a buffer: with a size and no buffer the first store, that of the
    terminator at the latest, is through the null pointer. *)
Definition vsnprintf (buf : bool) (size : Z) (fmt : str) (args : list arg) : outcome (list Z * Z) :=
  if (size =? 0) && buf then Ok ([], 0)
  else
    match format_loop (S (length fmt)) size fmt args sink0 with
    | Ok s =>
      if 0 <? size then if buf then Ok (out s ++ [0], needed s) else Undefined
      else Ok (out s, needed s)
    | Undefined => Undefined
    | OutOfFuel => OutOfFuel
    end.
