(* ===== verification/PrintfTheorems.v ===== *)
(** * Formatted output: theorems

    The bounded writer stores a prefix of the text a format denotes and returns
    the length of the whole; the parser ends; a number that is printed is read
    back by atoi. *)
From Stdlib Require Import ZArith Lia String.
From stdpp Require Import base numbers list.
From S2P Require Import Prelude CString Printf.

#[local] Open Scope Z_scope.

(** ** The text of a format *)

Definition number_text (num base width precision flags : Z) : list Z :=
  let ds := rev (padded (digits (flag flags FLAG_UPPERCASE) num base) precision) in
  let sg := sign_chars flags in
  let gap := Z.to_nat (width - zlen ds - zlen sg) in
  if flag flags FLAG_ZEROPAD then sg ++ replicate gap 48 ++ ds
  else if flag flags FLAG_LEFT then sg ++ ds ++ replicate gap 32
  else replicate gap 32 ++ sg ++ ds.

Definition emission_text (e : emission) : list Z :=
  match e with Chars l => l | Number num base width precision flags => number_text num base width precision flags end.

Fixpoint text_loop (fuel : nat) (fmt : str) (args : list arg) : option (list Z) :=
  match fuel with
  | O => None
  | S fuel =>
    match fmt with
    | [] => Some []
    | c :: rest =>
      if negb (c =? 37) then cons c <$> text_loop fuel rest args
      else '(e, rest, args) ← directive rest args; app (emission_text e) <$> text_loop fuel rest args
    end
  end.

Definition format_text (fmt : str) (args : list arg) : option (list Z) := text_loop (S (length fmt)) fmt args.

(** ** The writer *)

(** The sink after the text [t]. *)
Definition holds (size : Z) (s : sink) (t : list Z) : Prop := out s = take (Z.to_nat (size - 1)) t /\ needed s = zlen t.

Lemma i32_size size : 0 <= size < 2 ^ 31 -> i32 size = size.
Proof. intros; apply i32_small; lia. Qed.

Lemma put_ok size s t c : 0 <= size < 2 ^ 31 -> holds size s t -> holds size (put size s c) (t ++ [c]).
Proof.
  intros Hs [Ho Hn]; unfold holds, put; cbn [out needed]; rewrite i32_size, zlen_app, Hn by done; change (zlen [c]) with 1; split; [| done].
  rewrite Ho; unfold zlen; rewrite length_take; destruct (Z.ltb_spec 0 size); cbn [andb].
  - destruct (Z.ltb_spec (Z.of_nat (Z.to_nat (size - 1) `min` length t)) (size - 1)).
    + rewrite take_ge by lia; by rewrite take_ge by (rewrite length_app; simpl; lia).
    + by rewrite take_app_le by lia.
  - by replace (Z.to_nat (size - 1)) with 0%nat by lia.
Qed.

Lemma puts_ok size s t l : 0 <= size < 2 ^ 31 -> holds size s t -> holds size (puts size s l) (t ++ l).
Proof.
  intros Hs; revert s t; induction l as [| c l IH]; intros s t Hh; simpl; [by rewrite app_nil_r |].
  rewrite cons_middle, app_assoc; by apply IH, put_ok.
Qed.

Lemma holds_nil size : holds size sink0 [].
Proof. by split; [rewrite take_nil |]. Qed.

(** ** Numbers *)

Lemma zlen_rev {A} (l : list A) : zlen (rev l) = zlen l.
Proof. unfold zlen; by rewrite length_rev. Qed.

Lemma lor_is_0 a b : (Z.lor a b =? 0) = (a =? 0) && (b =? 0).
Proof. apply eq_true_iff_eq; rewrite andb_true_iff, !Z.eqb_eq; apply Z.lor_eq_0_iff. Qed.

Lemma sign_width flags : zlen (sign_chars flags) = if flag flags (Z.lor FLAG_SIGN (Z.lor FLAG_PLUS FLAG_SPACE)) then 1 else 0.
Proof.
  unfold sign_chars, flag; rewrite !Z.land_lor_distr_r, !lor_is_0.
  destruct (Z.land flags FLAG_SIGN =? 0), (Z.land flags FLAG_PLUS =? 0), (Z.land flags FLAG_SPACE =? 0); done.
Qed.

Lemma print_num_ok size num base width precision flags :
  0 <= size < 2 ^ 31 -> holds size (print_num size num base width precision flags) (number_text num base width precision flags).
Proof.
  intros Hs; unfold print_num, number_text; set (tmp := padded _ precision); rewrite zlen_rev, sign_width.
  set (sgn := flag flags (Z.lor FLAG_SIGN _)); set (gap := Z.to_nat (width - zlen tmp - if sgn then 1 else 0)).
  assert (Hg : Z.to_nat (if sgn then width - zlen tmp - 1 else width - zlen tmp) = gap) by (unfold gap; destruct sgn; lia).
  assert (Hz : flag flags (Z.lor FLAG_ZEROPAD FLAG_LEFT) = flag flags FLAG_ZEROPAD || flag flags FLAG_LEFT).
  { unfold flag; rewrite Z.land_lor_distr_r, lor_is_0; by destruct (_ =? 0), (_ =? 0). }
  rewrite Hz; set (w := if sgn then width - zlen tmp - 1 else width - zlen tmp) in *; pose proof (holds_nil size) as H0; unfold pad_loop.
  destruct (flag flags FLAG_ZEROPAD), (flag flags FLAG_LEFT); cbn [orb negb fst]; rewrite ?Hg.
  - replace (Z.to_nat (if 0 <? w then 0 else w)) with 0%nat by (destruct (Z.ltb_spec 0 w); lia); cbn [replicate puts foldl].
    rewrite app_assoc; do 2 (apply puts_ok; [done |]); by apply (puts_ok size sink0 []).
  - rewrite app_assoc; do 2 (apply puts_ok; [done |]); by apply (puts_ok size sink0 []).
  - rewrite app_assoc; do 2 (apply puts_ok; [done |]); by apply (puts_ok size sink0 []).
  - rewrite app_assoc; do 2 (apply puts_ok; [done |]); by apply (puts_ok size sink0 []).
Qed.

Lemma emit_ok size s t e : 0 <= size < 2 ^ 31 -> holds size s t -> holds size (emit size s e) (t ++ emission_text e).
Proof.
  intros Hs Hh; destruct e as [l | num base width precision flags]; simpl; [by apply puts_ok |]; unfold emit_number; rewrite i32_size by done.
  destruct Hh as [Ho Hn]; set (w := zlen (out s)); assert (Hw : w = Z.min (Z.max 0 (size - 1)) (zlen t)) by (unfold w; rewrite Ho; unfold zlen; rewrite length_take; lia).
  assert (Hs2 : 0 <= (if w <? size then size - w else 0) < 2 ^ 31) by (unfold w; pose proof (zlen_nonneg (out s)); destruct (Z.ltb_spec (zlen (out s)) size); lia).
  destruct (print_num_ok _ num base width precision flags Hs2) as [Po Pn]; set (p := print_num _ num base width precision flags) in *.
  set (x := number_text num base width precision flags) in *; unfold holds; cbn [out needed]; rewrite zlen_app, Hn, Pn; split; [| done].
  pose proof (zlen_nonneg x); destruct (Z.ltb_spec 0 size); cbn [andb]; [| rewrite Ho; by replace (Z.to_nat (size - 1)) with 0%nat by lia].
  destruct (Z.ltb_spec w (size - 1)).
  - destruct (Z.ltb_spec w size); [| lia]; rewrite Po, take_take, Ho; rewrite take_app; f_equal.
    unfold zlen in *; assert (length t = Z.to_nat w) as -> by lia.
    destruct (Z.min_spec (Z.of_nat (length x)) (size - 1 - w)) as [[? ->] | [? ->]]; [rewrite !take_ge by lia; done | f_equal; lia].
  - rewrite Ho, take_app_le; [done |]; unfold zlen in *; lia.
Qed.

(** ** Formats *)

(** What the loop gives for a text: it is stored as far as it fits, unless it is
    longer than an [int] can count. *)
Lemma format_loop_ok n size fmt args s t :
  0 <= size < 2 ^ 31 -> holds size s t -> zlen t <= INT_MAX ->
  match text_loop n fmt args with
  | Some t' =>
      if zlen (t ++ t') <=? INT_MAX then exists s', format_loop n size fmt args s = Ok s' /\ holds size s' (t ++ t')
      else format_loop n size fmt args s = Undefined
  | None => n = 0%nat \/ format_loop n size fmt args s = Undefined \/ format_loop n size fmt args s = OutOfFuel
  end.
Proof.
  intros Hs; revert fmt args s t; induction n as [| n IH]; intros fmt args s t Hh Ht; [by left |]; destruct fmt as [| c rest]; cbn [text_loop format_loop].
  { rewrite app_nil_r; destruct (Z.leb_spec (zlen t) INT_MAX); [by exists s | lia]. }
  destruct (c =? 37); cbn [negb].
  - destruct (directive rest args) as [[[e rest2] args2] |]; cbn [mbind option_bind]; [| by right; left].
    pose proof (emit_ok size s t e Hs Hh) as Hh2; unfold counted; destruct Hh2 as [Ho2 Hn2]; rewrite Hn2.
    destruct (Z.leb_spec (zlen (t ++ emission_text e)) INT_MAX) as [Hc | Hc].
    + specialize (IH rest2 args2 (emit size s e) (t ++ emission_text e) (conj Ho2 Hn2) Hc); destruct (text_loop n rest2 args2) as [t' |]; cbn.
      * by rewrite <- app_assoc in IH.
      * destruct IH as [-> | IH]; [by right; right | by right].
    + destruct (text_loop n rest2 args2) as [t' |]; cbn; [| by right; left]; rewrite app_assoc, zlen_app; pose proof (zlen_nonneg t'); by destruct (Z.leb_spec (zlen (t ++ emission_text e) + zlen t') INT_MAX); [lia |].
  - pose proof (put_ok size s t c Hs Hh) as Hh2; unfold counted; destruct Hh2 as [Ho2 Hn2]; rewrite Hn2.
    destruct (Z.leb_spec (zlen (t ++ [c])) INT_MAX) as [Hc | Hc].
    + specialize (IH rest args (put size s c) (t ++ [c]) (conj Ho2 Hn2) Hc); destruct (text_loop n rest args) as [t' |]; cbn.
      * by rewrite <- app_assoc in IH.
      * destruct IH as [-> | IH]; [by right; right | by right].
    + destruct (text_loop n rest args) as [t' |]; cbn; [| by right; left]; rewrite cons_middle, app_assoc, zlen_app; pose proof (zlen_nonneg t'); by destruct (Z.leb_spec (zlen (t ++ [c]) + zlen t') INT_MAX); [lia |].
Qed.

(** ** The parser ends *)

Lemma parse_flags_shorter fmt flags fl rest : parse_flags fmt flags = (fl, rest) -> (length rest <= length fmt)%nat.
Proof. revert flags; induction fmt as [| c fmt IH]; intros flags; simpl; [by intros [= _ <-] |]; destruct (flag_of c); [intros E%IH; lia | by intros [= _ <-]]. Qed.

Lemma parse_number_shorter fmt n m rest : parse_number fmt n = Some (m, rest) -> (length rest <= length fmt)%nat.
Proof.
  revert n; induction fmt as [| c fmt IH]; intros n; simpl; [by intros [= _ <-] |]; destruct ((48 <=? c) && _); [| by intros [= _ <-]].
  destruct (_ <=? INT_MAX); [intros E%IH; lia | done].
Qed.

Lemma after_shorter c fmt rest : after c fmt = Some rest -> (length rest < length fmt)%nat.
Proof. destruct fmt as [| d fmt]; [done |]; simpl; destruct (d =? c); [intros [= ->]; lia | done]. Qed.

#[local] Hint Resolve after_shorter parse_number_shorter parse_flags_shorter : core.

Lemma parse_width_shorter fmt flags args fl w rest args' : parse_width fmt flags args = Some (fl, w, rest, args') -> (length rest <= length fmt)%nat.
Proof.
  unfold parse_width; destruct (after 42 fmt) as [r |] eqn:Ea.
  - destruct (next_int args) as [[x a] |]; cbn [mbind option_bind]; [| done]; destruct (i32 x <? 0); [destruct (_ <=? INT_MAX); [| done] |]; intros [= _ _ <- _]; apply Nat.lt_le_incl; eauto.
  - destruct (parse_number fmt 0) as [[m r] |] eqn:E; cbn [mbind option_bind]; [| done]; intros [= _ _ <- _]; eauto.
Qed.

Lemma parse_precision_shorter fmt args p rest args' : parse_precision fmt args = Some (p, rest, args') -> (length rest <= length fmt)%nat.
Proof.
  unfold parse_precision; destruct (after 46 fmt) as [r |] eqn:Ea; [apply after_shorter in Ea | by intros [= _ <- _]].
  destruct (after 42 r) as [r2 |] eqn:Eb.
  - apply after_shorter in Eb; destruct (next_int args) as [[x a] |]; cbn [mbind option_bind]; [| done]; intros [= _ <- _]; lia.
  - destruct (parse_number r 0) as [[m r2] |] eqn:E; cbn [mbind option_bind]; [| done]; apply parse_number_shorter in E; intros [= _ <- _]; lia.
Qed.

Lemma parse_length_shorter fmt l rest : parse_length fmt = (l, rest) -> (length rest <= length fmt)%nat.
Proof.
  unfold parse_length; destruct (after 108 fmt) as [r |] eqn:Ea; [apply after_shorter in Ea; destruct (after 108 r) as [r2 |] eqn:Eb; [apply after_shorter in Eb |] |];
    [intros [= _ <-]; lia | intros [= _ <-]; lia |].
  destruct (after 122 fmt) as [r |] eqn:Eb; [apply after_shorter in Eb |]; intros [= _ <-]; lia.
Qed.

Lemma directive_shorter fmt args e rest args' : directive fmt args = Some (e, rest, args') -> (length rest < length fmt)%nat.
Proof.
  unfold directive; destruct (parse_flags fmt 0) as [fl f1] eqn:E1; apply parse_flags_shorter in E1.
  destruct (parse_width f1 fl args) as [[[[fl2 w] f2] a2] |] eqn:E2; cbn [mbind option_bind]; [apply parse_width_shorter in E2 | done].
  destruct (parse_precision f2 a2) as [[[p f3] a3] |] eqn:E3; cbn [mbind option_bind]; [apply parse_precision_shorter in E3 | done].
  destruct (parse_length f3) as [lg [| c f4]] eqn:E4; apply parse_length_shorter in E4; [done |]; simpl in E4.
  destruct (convert c w p fl2 lg a3) as [[e' a4] |]; cbn [mbind option_bind]; [| done]; intros [= _ <- _]; lia.
Qed.

(** With more rounds than characters the number of rounds makes no difference,
    and it suffices. *)
Lemma format_loop_enough m1 m2 size fmt args s :
  (length fmt < m1)%nat -> (length fmt < m2)%nat ->
  format_loop m1 size fmt args s = format_loop m2 size fmt args s /\ format_loop m1 size fmt args s <> OutOfFuel.
Proof.
  revert m2 fmt args s; induction m1 as [| m1 IH]; intros [| m2] fmt args s H1 H2; try lia; destruct fmt as [| c rest]; [done |]; cbn [format_loop]; simpl in H1, H2.
  destruct (c =? 37); cbn [negb]; [| destruct (counted _); [apply IH; lia | done]].
  destruct (directive rest args) as [[[e r] a] |] eqn:E; [| done]; apply directive_shorter in E; destruct (counted _); [apply IH; lia | done].
Qed.

Lemma digits_loop_enough n m upper num base :
  2 <= base -> 0 <= num < 2 ^ Z.of_nat n -> digits_loop (n + m) upper num base = digits_loop n upper num base /\ zlen (digits_loop n upper num base) <= Z.of_nat n.
Proof.
  intros Hb; revert num; induction n as [| n IH]; intros num Hn.
  - change (2 ^ Z.of_nat 0) with 1 in Hn; assert (num = 0) as -> by lia; split; [by destruct m | done].
  - cbn [digits_loop Nat.add]; destruct (Z.eqb_spec num 0); [split; [done | unfold zlen; simpl; lia] |].
    rewrite Nat2Z.inj_succ, Z.pow_succ_r in Hn by lia; destruct (IH (num / base)) as [E L]; [| rewrite E, zlen_cons; split; [done | lia]].
    split; [apply Z.div_pos; lia |]; apply Z.div_lt_upper_bound; nia.
Qed.



(** ** What is stored and returned *)



(** ** Numbers read back *)

(** A field is as wide as asked: [print_num] makes at least [width]
    characters, and no more unless the sign and the digits alone are more. *)
Lemma field_width_exact num base width precision flags :
  zlen (number_text num base width precision flags) =
  Z.max width (zlen (sign_chars flags) + Z.max (zlen (digits (flag flags FLAG_UPPERCASE) num base)) (Z.min precision 64)).
Proof.
  unfold number_text, padded; set (d := digits _ num base); set (sg := sign_chars flags); pose proof (zlen_nonneg d); pose proof (zlen_nonneg sg).
  assert (E : forall n (c : Z), zlen (replicate (Z.to_nat n) c) = Z.max 0 n) by (intros; unfold zlen; rewrite length_replicate; lia).
  destruct (flag flags FLAG_ZEROPAD), (flag flags FLAG_LEFT); rewrite !zlen_app, zlen_rev, !E, !zlen_app, !E; lia.
Qed.

(** The value of decimal digits read after [res]. *)
Definition decimal (res : Z) (l : str) : Z := foldl (fun r c => r * 10 + (c - 48)) res l.
Definition is_digit (c : Z) : Prop := 48 <= c <= 57.

Lemma decimal_grows l res : Forall is_digit l -> 0 <= res -> res <= decimal res l.
Proof.
  intros Hl; revert res; induction Hl as [| c l Hc Hl IH]; intros res Hr; simpl; [done |]; unfold is_digit in Hc.
  specialize (IH (res * 10 + (c - 48)) ltac:(lia)); unfold decimal in *; lia.
Qed.

Lemma atoi_digits_ok l sign res :
  Forall is_digit l -> 0 <= res <= 2147483647 ->
  atoi_digits l sign res = if decimal res l <=? 2147483647 then decimal res l * sign else if 0 <? sign then 2147483647 else -2147483648.
Proof.
  intros Hl; revert res; induction Hl as [| c l Hc Hl IH]; intros res Hr; simpl; [by destruct (Z.leb_spec res 2147483647); [| lia] |].
  unfold is_digit in Hc; destruct (Z.leb_spec 48 c), (Z.leb_spec c 57); try lia; cbn [andb].
  pose proof (decimal_grows l (res * 10 + (c - 48)) Hl ltac:(lia)) as Hg; unfold decimal in *.
  pose proof (Z.div_mod (2147483647 - (c - 48)) 10 ltac:(lia)); pose proof (Z.mod_pos_bound (2147483647 - (c - 48)) 10 ltac:(lia)).
  destruct (Z.ltb_spec ((2147483647 - (c - 48)) / 10) res); [| by rewrite IH by lia].
  destruct (Z.leb_spec (foldl (fun r c => r * 10 + (c - 48)) (res * 10 + (c - 48)) l) 2147483647); [lia | done].
Qed.

Lemma digits_loop_ok n num : 0 <= num < 10 ^ Z.of_nat n -> Forall is_digit (digits_loop n false num 10) /\ decimal 0 (rev (digits_loop n false num 10)) = num.
Proof.
  revert num; induction n as [| n IH]; intros num Hn; simpl; [change (10 ^ Z.of_nat 0) with 1 in Hn; split; [constructor | unfold decimal; simpl; lia] |].
  destruct (Z.eqb_spec num 0) as [-> | Hne]; [done |]; rewrite Nat2Z.inj_succ, Z.pow_succ_r in Hn by lia.
  pose proof (Z.div_mod num 10 ltac:(lia)); pose proof (Z.mod_pos_bound num 10 ltac:(lia)); destruct (IH (num / 10) ltac:(lia)) as [F V].
  assert (D : digit false (num mod 10) = 48 + num mod 10) by (unfold digit; destruct (Z.ltb_spec (num mod 10) 10); [done | lia]); rewrite D.
  split; [constructor; [unfold is_digit; lia | done] |]; simpl; unfold decimal in *; rewrite foldl_app, V; simpl; lia.
Qed.

Lemma digits_decimal num : 0 <= num < 2 ^ 64 -> Forall is_digit (digits false num 10) /\ decimal 0 (rev (digits false num 10)) = num.
Proof.
  intros Hn; unfold digits; destruct (Z.eqb_spec num 0) as [-> |]; [by split; [repeat constructor |] |].
  apply digits_loop_ok; split; [lia |]; assert (2 ^ 64 < 10 ^ Z.of_nat 64) by done; lia.
Qed.

Lemma i32_range x : - 2 ^ 31 <= i32 x < 2 ^ 31.
Proof. unfold i32; pose proof (Z.mod_pos_bound (x + 2 ^ 31) (2 ^ 32) ltac:(lia)); lia. Qed.

Lemma i64_u64 x : - 2 ^ 63 <= x < 2 ^ 63 -> i64 (u64 x) = x.
Proof. intros Hx; unfold i64, u64; rewrite Zplus_mod_idemp_l; pose proof (i64_small x Hx) as E; exact E. Qed.

(** The text of [%d]. *)
Definition decimal_text (x : Z) : str := (if x <? 0 then [45] else []) ++ rev (digits false (Z.abs x) 10).

Lemma number_text_plain num flags : flags = 0 \/ flags = FLAG_SIGN -> number_text num 10 0 (-1) flags = sign_chars flags ++ rev (digits false num 10).
Proof.
  intros Hf; unfold number_text, padded; pose proof (zlen_nonneg (digits (flag flags FLAG_UPPERCASE) num 10)); pose proof (zlen_nonneg (sign_chars flags)).
  replace (Z.to_nat (Z.min (-1) 64 - zlen (digits (flag flags FLAG_UPPERCASE) num 10))) with 0%nat by lia; rewrite app_nil_r, zlen_rev.
  replace (Z.to_nat (0 - zlen (digits (flag flags FLAG_UPPERCASE) num 10) - zlen (sign_chars flags))) with 0%nat by lia; by destruct Hf as [-> | ->].
Qed.

Lemma format_decimal x : format_text (lit "%d") [AInt x] = Some (decimal_text (i32 x)).
Proof.
  assert (Hx : - 2 ^ 31 <= i32 x < 2 ^ 31) by apply i32_range; assert (E : i64 (u64 (i32 x)) = i32 x) by (apply i64_u64; lia).
  assert (D : directive (lit "d") [AInt x] =
    Some (if i32 x <? 0 then Number (u64 (- i32 x)) 10 0 (-1) FLAG_SIGN else Number (u64 (i32 x)) 10 0 (-1) 0, [], [])).
  { transitivity ('(e, a) ← convert 100 0 (-1) 0 0 [AInt x]; Some (e, @nil Z, a)); [done |].
    unfold convert; cbn [Z.eqb Pos.eqb orb next_int mbind option_bind]; rewrite E; destruct (Z.ltb_spec (i32 x) 0); [| done].
    destruct (Z.ltb_spec (- i32 x) (2 ^ 63)); [done | lia]. }
  unfold format_text; change (lit "%d") with (37 :: lit "d"); cbn [length text_loop]; change (negb (37 =? 37)) with false; cbv iota; rewrite D; cbn [mbind option_bind].
  cbn [text_loop fmap option_fmap option_map]; f_equal; rewrite app_nil_r; unfold decimal_text.
  destruct (Z.ltb_spec (i32 x) 0); cbn [emission_text]; rewrite number_text_plain by auto; [| rewrite u64_small by lia; by rewrite Z.abs_eq by lia].
  rewrite u64_small by lia; by rewrite Z.abs_neq by lia.
Qed.

Lemma atoi_decimal x : - 2 ^ 31 <= x < 2 ^ 31 -> atoi (decimal_text x) = x.
Proof.
  intros Hx; destruct (digits_decimal (Z.abs x) ltac:(lia)) as [F V]; unfold decimal_text, atoi; set (l := rev (digits false (Z.abs x) 10)) in *.
  assert (Fl : Forall is_digit l) by (by apply Forall_rev).
  destruct (Z.ltb_spec x 0); cbn [app skip_spaces].
  - change (45 =? 32) with false; cbn [Z.eqb Pos.eqb]; rewrite atoi_digits_ok, V by (done || lia); destruct (Z.leb_spec (Z.abs x) 2147483647); [lia |].
    change (0 <? -1) with false; cbv iota; lia.
  - clearbody l; destruct l as [| c l]; [simpl; unfold decimal in V; simpl in V; lia |]; inversion Fl as [| ? ? Hc _]; subst; unfold is_digit in Hc; cbn [skip_spaces].
    destruct (Z.eqb_spec c 32), (Z.eqb_spec c 45), (Z.eqb_spec c 43); try lia; rewrite atoi_digits_ok, V by (done || lia).
    destruct (Z.leb_spec (Z.abs x) 2147483647); lia.
Qed.

Lemma digits_loop_short n m num : 0 <= num < 10 ^ Z.of_nat m -> zlen (digits_loop n false num 10) <= Z.of_nat m.
Proof.
  revert m num; induction n as [| n IH]; intros m num Hn; simpl; [unfold zlen; simpl; lia |].
  destruct (Z.eqb_spec num 0); [unfold zlen; simpl; lia |]; destruct m as [| m]; [change (10 ^ Z.of_nat 0) with 1 in Hn; lia |].
  rewrite Nat2Z.inj_succ, Z.pow_succ_r in Hn by lia; pose proof (Z.div_mod num 10 ltac:(lia)); pose proof (Z.mod_pos_bound num 10 ltac:(lia)).
  specialize (IH m (num / 10) ltac:(lia)); rewrite zlen_cons; lia.
Qed.

Lemma decimal_short x : - 2 ^ 31 <= x < 2 ^ 31 -> is_cstr (decimal_text x) /\ zlen (decimal_text x) <= 11.
Proof.
  intros Hx; destruct (digits_decimal (Z.abs x) ltac:(lia)) as [F _]; unfold decimal_text; split.
  - apply Forall_app; split; [destruct (x <? 0); repeat constructor; lia |]; apply Forall_rev; eapply Forall_impl; [exact F |]; unfold is_digit; intros; lia.
  - rewrite zlen_app, zlen_rev; assert (zlen (digits false (Z.abs x) 10) <= 10).
    { unfold digits; destruct (Z.abs x =? 0); [done |]; apply (digits_loop_short 64 10); change (10 ^ Z.of_nat 10) with 10000000000; lia. }
    destruct (x <? 0); [change (zlen [45]) with 1 | change (zlen (@nil Z)) with 0]; lia.
Qed.

Lemma print_decimal x size :
  12 <= size < 2 ^ 31 -> vsnprintf true size (lit "%d") [AInt x] = Ok (decimal_text (i32 x) ++ [0], zlen (decimal_text (i32 x))).
Proof.
  intros Hs; pose proof (i32_range x) as Hx; pose proof (format_loop_ok 3 size (lit "%d") [AInt x] sink0 [] ltac:(lia) (holds_nil size) ltac:(done)) as H.
  change (text_loop 3 (lit "%d") [AInt x]) with (format_text (lit "%d") [AInt x]) in H; rewrite format_decimal in H; cbn [app] in H.
  destruct (decimal_short (i32 x) Hx) as [_ Hl]; destruct (Z.leb_spec (zlen (decimal_text (i32 x))) INT_MAX); [| unfold INT_MAX in *; lia].
  destruct H as (s & E & Ho & Hn); unfold vsnprintf; destruct (Z.eqb_spec size 0); [lia |]; cbn [andb]; change (S (length (lit "%d"))) with 3%nat; rewrite E.
  destruct (Z.ltb_spec 0 size); [| lia]; rewrite Ho, Hn; by rewrite take_ge by (unfold zlen in Hl; lia).
Qed.

(** a number printed with [%d] is read back by [atoi].  In a buffer of 12
    bytes or more the text of an [int] fits, is stored whole with its NUL, and
    [atoi] of it is that [int], the ends of the range included. *)
Theorem printed_number_reads_back x size :
  12 <= size < 2 ^ 31 ->
  exists s, vsnprintf true size (lit "%d") [AInt x] = Ok (s ++ [0], zlen s) /\ is_cstr s /\ atoi s = i32 x.
Proof.
  intros Hs; exists (decimal_text (i32 x)); split; [by apply print_decimal |]; pose proof (i32_range x).
  split; [by apply decimal_short | by apply atoi_decimal].
Qed.

Lemma printed_number_reads_back_witness : exists s, vsnprintf true 16 (lit "%d") [AInt 2147483648] = Ok (s ++ [0], 11) /\ atoi s = -2147483648.
Proof.
  destruct (printed_number_reads_back 2147483648 16 ltac:(lia)) as (s & E & _ & H); exists s; split; [| rewrite H; by vm_compute].
  assert (V : match vsnprintf true 16 (lit "%d") [AInt 2147483648] with Ok (_, n) => n | _ => 0 end = 11) by (by vm_compute).
  rewrite E in V |- *; by rewrite V.
Defined.

(** ** What the comments say otherwise *)

(** Zero padding takes the sign into account, and truncation shows in the result. *)
Example zero_padded_negative : format_text (lit "%05d") [AInt (-42)] = Some (lit "-0042").
Proof. by vm_compute. Qed.
Example truncation_shows : vsnprintf true 4 (lit "%d") [AInt 123456] = Ok (lit "123" ++ [0], 6).
Proof. by vm_compute. Qed.
(** [-] does not override [0]: the field is padded with zeroes on the left. *)
Example left_zero_pads : format_text (lit "%-05d") [AInt 42] = Some (lit "00042").
Proof. by vm_compute. Qed.
(** A format that ends in a directive is read past its terminator. *)
Example trailing_percent_reads_on : format_text (lit "100%") [] = None.
Proof. by vm_compute. Qed.
(** The byte after the precision is read: an array of exactly that length is
    read past its end. *)
Example bounded_string_reads_on : format_text (lit "%.2s") [AStr (Some [65; 66])] = None /\ format_text (lit "%.2s") [AStr (Some [65; 66; 67])] = Some (lit "AB").
Proof. split; by vm_compute. Qed.
(** A width that is no [int] is undefined, and so is the magnitude of INT_MIN and
    the negation of the least 64-bit number; the largest width is not. *)
Example width_out_of_range : format_text (lit "%4294967296d") [AInt 1] = None /\ format_text (lit "%*d") [AInt (-2147483648); AInt 1] = None /\
  format_text (lit "%ld") [AInt (-9223372036854775808)] = None.
Proof. split_and!; by vm_compute. Qed.
Example largest_width : parse_width (lit "2147483647d") 0 [] = Some (0, 2147483647, lit "d", []).
Proof. by vm_compute. Qed.
