(* ===== verification/ProcTab.v ===== *)
(** * The process table: lookup, lineage, authority and environments

    Models the part of kernel/sched/process.c that other components ask
    questions of: the pool and its lookups, the privilege tests of
    kernel/include/kernel/sched.h, the two ancestry walks that decide who may
    kill or message whom, and the per-process environment block.  A process is
    the record of the fields these functions read or write. *)
From Stdlib Require Import ZArith Lia String.
From stdpp Require Import base numbers list.
From S2P Require Import Prelude CString.

Definition EPERM : Z := 1.
Definition ENOENT : Z := 2.
Definition ESRCH : Z := 3.
Definition EIO : Z := 5.
Definition E2BIG : Z := 7.
Definition ENOMEM : Z := 12.
Definition EACCES : Z := 13.
Definition EFAULT : Z := 14.
Definition EEXIST : Z := 17.
Definition EISDIR : Z := 21.
Definition EINVAL : Z := 22.
Definition ENOSPC : Z := 28.
Definition EROFS : Z := 30.
Definition ENOTEMPTY : Z := 39.

Definition MAX_PROCESSES : nat := 128.
Definition ENV_KEY_MAX : Z := 32.
Definition ENV_VAL_MAX : Z := 128.
Definition ENV_MAX : nat := 24.

Definition PLVL_MACHINE : Z := 0.
Definition PLVL_ROOT : Z := 1.
Definition PLVL_USER : Z := 2.
Definition PLVL_GUEST : Z := 3.

Definition CAP_SPAWN : Z := Z.shiftl 1 0.
Definition CAP_FS_WRITE : Z := Z.shiftl 1 1.
Definition CAP_IPC_ANY : Z := Z.shiftl 1 2.
Definition CAP_WINDOW : Z := Z.shiftl 1 3.
Definition CAP_REG_WRITE : Z := Z.shiftl 1 4.
Definition CAP_ALL : Z :=
  Z.lor CAP_SPAWN (Z.lor CAP_FS_WRITE (Z.lor CAP_IPC_ANY (Z.lor CAP_WINDOW CAP_REG_WRITE))).

(** An entry of the environment: name (empty in a free slot) and value. *)
Record env_entry := { ek : str; ev : str }.

(** [struct process]: the fields used here; [env = None] is a null block. *)
Record process := {
  pid : Z;
  pname : str;
  pstate : Z;
  level : Z;
  caps : Z;
  parent_pid : Z;
  owner_pid : Z;
  env : option (list env_entry)
}.

(** [process_pool]: a null pointer is a free slot. *)
Abbreviation pool := (list (option process)).

#[global] Instance env_entry_eq_dec : EqDecision env_entry.
Proof. solve_decision. Defined.

#[global] Instance process_eq_dec : EqDecision process.
Proof. solve_decision. Defined.

Definition with_owner (p : process) (o : Z) : process :=
  {| pid := pid p; pname := pname p; pstate := pstate p; level := level p; caps := caps p;
     parent_pid := parent_pid p; owner_pid := o; env := env p |}.

Definition with_env (p : process) (e : option (list env_entry)) : process :=
  {| pid := pid p; pname := pname p; pstate := pstate p; level := level p; caps := caps p;
     parent_pid := parent_pid p; owner_pid := owner_pid p; env := e |}.

(** ** Privilege tests; a null process is the kernel itself *)

Definition proc_is_machine (p : option process) : bool :=
  match p with None => true | Some p => level p =? PLVL_MACHINE end.

Definition proc_is_privileged (p : option process) : bool :=
  match p with None => true | Some p => level p <=? PLVL_ROOT end.

Definition proc_has_cap (p : option process) (cap : Z) : bool :=
  match p with
  | None => true
  | Some p => (level p =? PLVL_MACHINE) || (Z.land (caps p) cap =? cap)
  end.

Definition caps_for_level (l : Z) : Z :=
  if (l =? PLVL_MACHINE) || (l =? PLVL_ROOT) || (l =? PLVL_USER) then CAP_ALL
  else if l =? PLVL_GUEST then CAP_WINDOW
  else 0.

(** ** Lookups *)

(** [find_free_slot]: the first null slot, or -1. *)
Definition find_free_slot (pp : pool) : Z :=
  match list_find (fun s => s = None) pp with
  | Some (i, _) => Z.of_nat i
  | None => -1
  end.

(** Slot test of the scans: occupied, by a process with this [(int)pid]. *)
Definition slot_has (n : Z) (s : option process) : Prop :=
  match s with None => False | Some p => i32 (pid p) = n end.

#[global] Instance slot_has_dec n s : Decision (slot_has n s).
Proof. destruct s; simpl; apply _. Defined.

(** The slot the first match is in; the pointer the C function returns. *)
Definition find_slot (pp : pool) (n : Z) : option nat := fst <$> list_find (slot_has n) pp.

Definition process_find_by_pid (pp : pool) (n : Z) : option process :=
  '(_, s) ← list_find (slot_has n) pp; s.

(** Writes through the pointer a lookup returned. *)
Definition update_proc (pp : pool) (n : Z) (f : process -> process) : pool :=
  match find_slot pp n with
  | Some i => alter (fmap f) i pp
  | None => pp
  end.

Definition proc_pid_is_privileged (pp : pool) (n : Z) : bool :=
  match process_find_by_pid pp n with
  | Some p => proc_is_privileged (Some p)
  | None => false
  end.

Definition process_set_owner (pp : pool) (n owner : Z) : pool * Z :=
  match process_find_by_pid pp n, process_find_by_pid pp owner with
  | Some _, Some _ => (update_proc pp n (fun p => with_owner p owner), 0)
  | _, _ => (pp, - ESRCH)
  end.

(** The logical parent an ancestry walk follows. *)
Definition up_owner (p : process) : Z :=
  if 0 <? owner_pid p then owner_pid p else parent_pid p.

(** [proc_get_lineage]: parent and owner; the outputs keep the caller's
    [dflt] when there is no such process. *)
Definition proc_get_lineage (pp : pool) (n : Z) (dflt : Z * Z) : (Z * Z) * Z :=
  match process_find_by_pid pp n with
  | Some p => ((parent_pid p, up_owner p), 0)
  | None => (dflt, -1)
  end.

(** ** Who may kill or message whom *)

(** [for (depth = 0; target && depth < MAX_PROCESSES; depth++)]: follow [up]
    from [target], looking for [c]. *)
Fixpoint ancestry_walk (pp : pool) (up : process -> Z) (c : Z)
    (depth : nat) (target : option process) : bool :=
  match depth, target with
  | S d, Some t =>
    if up t =? c then true
    else if up t <=? 0 then false
    else ancestry_walk pp up c d (process_find_by_pid pp (up t))
  | _, _ => false
  end.

Definition process_kill_allowed (pp : pool) (caller : option process) (target : Z) : bool :=
  match caller with
  | None => true
  | Some c =>
    if proc_is_privileged caller then true
    else if i32 (pid c) =? target then true
    else
      match process_find_by_pid pp target with
      | None => true
      | t => ancestry_walk pp up_owner (i32 (pid c)) MAX_PROCESSES t
      end
  end.

(** [process_ipc_allowed] is called with a process, never with null. *)
Definition process_ipc_allowed (pp : pool) (caller : process) (target : Z) : bool :=
  if proc_has_cap (Some caller) CAP_IPC_ANY then true
  else if i32 (pid caller) =? target then true
  else if parent_pid caller =? target then true
  else ancestry_walk pp parent_pid (i32 (pid caller)) MAX_PROCESSES
         (process_find_by_pid pp target).

(** ** The environment block *)

(** [__env_find] on a block: the slot that holds [key]. *)
Definition env_find (b : list env_entry) (key : str) : option (nat * env_entry) :=
  match key with
  | [] => None
  | _ => list_find (fun e => ek e <> [] /\ strcmp (ek e) key = 0) b
  end.

(** [__env_find] on a process pointer. *)
Definition proc_env_find (p : option process) (key : str) : option (nat * env_entry) :=
  p ← p; b ← env p; env_find b key.

(** Returns the errno or what the buffer then holds. *)
Definition proc_env_get (pp : pool) (n : Z) (key : str) (size : Z) : Z + str :=
  if size =? 0 then inl (- EINVAL)
  else
    match proc_env_find (process_find_by_pid pp n) key with
    | Some (_, e) => inr (strcopy size (ev e))
    | None => inl (- ENOENT)
    end.

(** The update of a block by [proc_env_set]; [None] when it is full. *)
Definition env_store (b : list env_entry) (key : str) (value : option str)
    : option (list env_entry) :=
  let e := env_find b key in
  match value with
  | None | Some [] =>
    match e with
    | Some (i, x) => Some (<[i := {| ek := []; ev := ev x |}]> b)
    | None => Some b
    end
  | Some v =>
    let slot := match e with
                | Some (i, x) => Some (i, ek x)
                | None => '(i, _) ← list_find (fun x => ek x = []) b;
                          Some (i, strcopy ENV_KEY_MAX key)
                end in
    '(i, k) ← slot; Some (<[i := {| ek := k; ev := strcopy ENV_VAL_MAX v |}]> b)
  end.

Definition proc_env_set (pp : pool) (caller : option process) (n : Z) (key : str)
    (value : option str) : pool * Z :=
  if bool_decide (key = []) then (pp, - EINVAL)
  else if (ENV_KEY_MAX <=? strlen key)
          || match value with Some v => ENV_VAL_MAX <=? strlen v | None => false end
  then (pp, - EINVAL)
  else if match caller with
          | Some c => negb (i32 (pid c) =? n) && negb (proc_is_privileged caller)
          | None => false
          end
  then (pp, - EPERM)
  else
    match process_find_by_pid pp n with
    | None => (pp, - ESRCH)
    | Some p =>
      match env p with
      | None => (pp, - ENOMEM)
      | Some b =>
        match env_store b key value with
        | Some b' => (update_proc pp n (fun p => with_env p (Some b')), 0)
        | None => (pp, - ENOMEM)
        end
      end
    end.

(** The loop of [proc_env_enum]: names separated by newlines, stopping at the
    first that does not fit. *)
Fixpoint env_names (b : list env_entry) (size : Z) (out : str) : str :=
  match b with
  | [] => out
  | e :: r =>
    if bool_decide (ek e = []) then env_names r size out
    else if size <? zlen out + strlen (ek e) + 2 then out
    else env_names r size ((if bool_decide (out = []) then out else out ++ [10]) ++ ek e)
  end.

(** The names written, their number of bytes being the result. *)
Definition proc_env_enum (pp : pool) (n : Z) (size : Z) : option str :=
  if size =? 0 then None
  else
    Some match process_find_by_pid pp n with
         | Some p => match env p with Some b => env_names b size [] | None => [] end
         | None => []
         end.

(** ** Status queries *)

Definition PROC_CREATED : Z := 1.
Definition PROC_RUNNING : Z := 2.
Definition PROC_SLEEPING : Z := 3.
Definition PROC_ZOMBIE : Z := 4.
Definition PROC_DEAD : Z := 5.
Definition PROC_READY : Z := 6.
Definition PROC_STOPPED : Z := 7.

Definition proc_state_name (st : Z) : str :=
  if st =? PROC_CREATED then lit "created"
  else if st =? PROC_RUNNING then lit "running"
  else if st =? PROC_SLEEPING then lit "sleeping"
  else if st =? PROC_ZOMBIE then lit "zombie"
  else if st =? PROC_DEAD then lit "dead"
  else if st =? PROC_READY then lit "ready"
  else if st =? PROC_STOPPED then lit "stopped"
  else lit "unused".

(** [proc_get_info]: the name and state of the answer. *)
Definition proc_get_info (pp : pool) (n : Z) : option (str * Z) :=
  p ← process_find_by_pid pp n; Some (strcopy 32 (pname p), pstate p).

(** [proc_enum_pids]: the pids of the occupied slots, at most [max]. *)
Definition proc_enum_pids (pp : pool) (max : Z) : list Z :=
  take (Z.to_nat max) (omap (fmap (fun p => i32 (pid p))) pp).
