(* ===== verification/ProcTabTheorems.v ===== *)
(** * The process table: theorems

    The ancestry walks decide the ancestor relation: the depth bound
    [MAX_PROCESSES] never cuts a chain short, whatever cycles [owner_pid] may
    form.  The environment block behaves as a finite map per process, and only
    an authorised caller changes it. *)
From Stdlib Require Import ZArith Lia String.
From stdpp Require Import base numbers list.
From S2P Require Import Prelude CString ProcTab.

(** ** Lookups *)

Lemma find_by_pid_spec pp n p :
  process_find_by_pid pp n = Some p -> exists i, pp !! i = Some (Some p) /\ i32 (pid p) = n /\ find_slot pp n = Some i.
Proof.
  unfold process_find_by_pid, find_slot; destruct (list_find _ pp) as [[i s] |] eqn:E; [| done].
  simpl; intros ->; apply list_find_Some in E; naive_solver.
Qed.

Lemma find_by_pid_pid pp n p : process_find_by_pid pp n = Some p -> i32 (pid p) = n.
Proof. intros H; apply find_by_pid_spec in H; naive_solver. Qed.

(** Rewriting the fields of one process, its pid apart, is seen by that pid's
    lookup only. *)
Lemma find_update pp n f m :
  (forall p, pid (f p) = pid p) ->
  process_find_by_pid (update_proc pp n f) m =
  if n =? m then f <$> process_find_by_pid pp m else process_find_by_pid pp m.
Proof.
  intros Hf; unfold update_proc, find_slot, process_find_by_pid.
  destruct (list_find (slot_has n) pp) as [[i s] |] eqn:E; simpl.
  - apply list_find_Some in E as (Hi & Hn & Hmin).
    assert (Hd : forall o, slot_has m (f <$> o) <-> slot_has m o) by (intros [p |]; simpl; rewrite ?Hf; done).
    destruct (Z.eqb_spec n m) as [<- | Hne].
    + rewrite (proj2 (list_find_Some (slot_has n) pp i s)) by done.
      rewrite (proj2 (list_find_Some (slot_has n) (alter (fmap f) i pp) i (f <$> s))); [done |].
      split; [by rewrite list_lookup_alter_eq, Hi |]; split; [by apply Hd |].
      intros j y Hj Hlt; rewrite list_lookup_alter_ne in Hj by lia; eauto.
    + assert (Hs : ~ slot_has m s) by (destruct s as [p |]; simpl in *; congruence).
      destruct (list_find (slot_has m) pp) as [[j t] |] eqn:Em.
      * apply list_find_Some in Em as (Hj & Hm & Hminj).
        assert (i <> j) by congruence.
        rewrite (proj2 (list_find_Some (slot_has m) (alter (fmap f) i pp) j t)); [done |].
        split; [by rewrite list_lookup_alter_ne by done |]; split; [done |].
        intros k y Hk Hlt; destruct (decide (k = i)) as [-> | Hki].
        -- rewrite list_lookup_alter_eq, Hi in Hk; simplify_eq/=; by rewrite Hd.
        -- rewrite list_lookup_alter_ne in Hk by congruence; eauto.
      * apply list_find_None in Em; rewrite (proj2 (list_find_None _ _)); [done |].
        apply Forall_lookup; intros k y Hk; rewrite Forall_lookup in Em.
        destruct (decide (k = i)) as [-> | Hki].
        -- rewrite list_lookup_alter_eq, Hi in Hk; simplify_eq/=; by rewrite Hd.
        -- rewrite list_lookup_alter_ne in Hk by congruence; eauto.
  - destruct (Z.eqb_spec n m) as [<- |]; [by rewrite E | done].
Qed.

(** ** Ancestry *)

(** [c] is reached from [t] by following [up] through live processes. *)
Inductive ancestor (pp : pool) (up : process -> Z) (c : Z) : Z -> Prop :=
| ancestor_here t p :
    process_find_by_pid pp t = Some p -> up p = c -> ancestor pp up c t
| ancestor_up t p :
    process_find_by_pid pp t = Some p -> 0 < up p -> ancestor pp up c (up p) ->
    ancestor pp up c t.

(** The chain of pids such a walk visits. *)
Inductive chain (pp : pool) (up : process -> Z) (c : Z) : list Z -> Prop :=
| chain_here t p : process_find_by_pid pp t = Some p -> up p = c -> chain pp up c [t]
| chain_up t u p l :
    process_find_by_pid pp t = Some p -> 0 < u -> up p = u -> chain pp up c (u :: l) ->
    chain pp up c (t :: u :: l).

(** The pid of each slot. *)
Definition slot_pid (s : option process) : option Z := (fun p => i32 (pid p)) <$> s.

Section ancestry.
Context (pp : pool) (up : process -> Z) (c : Z).
#[local] Hint Constructors chain ancestor : core.

Lemma chain_suffix l1 t l2 : chain pp up c (l1 ++ t :: l2) -> chain pp up c (t :: l2).
Proof.
  induction l1 as [| x l1 IH]; simpl; [done |]; intros H; apply IH.
  inversion H as [? ? ? ? E | ? ? ? ? ? ? ? ? E]; simplify_eq; [by destruct l1 | done].
Qed.

(** A chain with a repetition can be cut at it, so there is one without. *)
Lemma ancestor_chain t : ancestor pp up c t -> exists l, NoDup (t :: l) /\ chain pp up c (t :: l).
Proof.
  induction 1 as [t p Ht Hp | t p Ht Hp _ (l & Hnd & Hch)].
  - exists []; split; [apply NoDup_singleton | eauto].
  - destruct (decide (t ∈ up p :: l)) as [Hin | Hin].
    + apply list_elem_of_split in Hin as (l1 & l2 & E).
      exists l2; rewrite E in *; split; [by apply NoDup_app in Hnd as (_ & _ & ?) |].
      by eapply chain_suffix.
    + exists (up p :: l); split; [by constructor | eauto].
Qed.

Lemma chain_live l : chain pp up c l -> Forall (fun t => Some t ∈ (slot_pid <$> pp)) l.
Proof.
  assert (Hl : forall t p, process_find_by_pid pp t = Some p ->
                           Some t ∈ (slot_pid <$> pp)).
  { intros t p Hp; apply find_by_pid_spec in Hp as (i & Hi & Hpid & _).
    apply list_elem_of_fmap; exists (Some p); split; [by unfold slot_pid; simpl; rewrite Hpid |].
    by eapply list_elem_of_lookup_2. }
  induction 1; eauto.
Qed.

Lemma chain_bound l : NoDup l -> chain pp up c l -> (length l <= length pp)%nat.
Proof.
  intros Hnd Hch; apply chain_live in Hch.
  rewrite <- (length_fmap Some), <- (length_fmap slot_pid pp).
  apply submseteq_length, NoDup_submseteq; [by apply NoDup_fmap_2; [apply _ |] |].
  intros x Hx; apply list_elem_of_fmap in Hx as (t & -> & Ht); rewrite Forall_forall in Hch; eauto.
Qed.

Lemma chain_walk t l d :
  chain pp up c (t :: l) -> (length (t :: l) <= d)%nat ->
  ancestry_walk pp up c d (process_find_by_pid pp t) = true.
Proof.
  intros Hch; remember (t :: l) as q eqn:Eq; revert t l Eq d.
  induction Hch as [t p Ht Hp | t u p l Ht Hu Hp Hch IH]; intros t' l' Eq d Hd; simplify_eq/=;
    destruct d as [| d]; try (simpl in Hd; lia); simpl; rewrite Ht.
  - by rewrite Z.eqb_refl.
  - case_if; [lia |]; case_if; [done |]; eapply IH; [done | simpl; lia].
Qed.

Lemma walk_ancestor d t : ancestry_walk pp up c d (process_find_by_pid pp t) = true -> ancestor pp up c t.
Proof.
  revert t; induction d as [| d IH]; intros t; simpl; [done |].
  destruct (process_find_by_pid pp t) as [p |] eqn:Ht; [| done].
  destruct (Z.eqb_spec (up p) c); [eauto |]; case_if; [done |]; eauto.
Qed.

Lemma ancestry_walk_exact t :
  (length pp <= MAX_PROCESSES)%nat ->
  ancestry_walk pp up c MAX_PROCESSES (process_find_by_pid pp t) = true <-> ancestor pp up c t.
Proof.
  intros Hlen; split; [apply walk_ancestor |].
  intros (l & Hnd & Hch)%ancestor_chain; eapply chain_walk; [done |].
  etransitivity; [by apply chain_bound | done].
Qed.
End ancestry.

(** C33: The kill check (kernel/sched/process.c, process_kill_allowed) allows
    exactly the kernel, privileged callers, the process itself, a target that
    does not exist, and the target's ancestors along the owner-or-parent chain;
    and the message check (process_ipc_allowed) exactly the holders of
    CAP_IPC_ANY, the process itself, a process messaging its parent, and
    the target's ancestors along the parent chain.  The bound of MAX_PROCESSES
    on either walk never hides an ancestor, even when owner links form a
    cycle. *)
Theorem ancestry_authority_exact pp c target :
  (length pp <= MAX_PROCESSES)%nat ->
  (process_kill_allowed pp (Some c) target = true <->
     proc_is_privileged (Some c) = true \/ i32 (pid c) = target \/
     process_find_by_pid pp target = None \/ ancestor pp up_owner (i32 (pid c)) target) /\
  (process_ipc_allowed pp c target = true <->
     proc_has_cap (Some c) CAP_IPC_ANY = true \/ i32 (pid c) = target \/
     parent_pid c = target \/ ancestor pp parent_pid (i32 (pid c)) target) /\
  process_kill_allowed pp None target = true.
Proof.
  intros Hlen; split; [| split; [| done]].
  - unfold process_kill_allowed; destruct (proc_is_privileged _); [naive_solver |].
    case_if; [naive_solver |]; rewrite <- (ancestry_walk_exact pp up_owner _ target Hlen).
    destruct (process_find_by_pid pp target); naive_solver.
  - unfold process_ipc_allowed; destruct (proc_has_cap _ _); [naive_solver |].
    case_if; [naive_solver |]; case_if; [naive_solver |].
    rewrite <- (ancestry_walk_exact pp parent_pid _ target Hlen); naive_solver.
Qed.

(** Four processes: 2 owns 3 through [owner_pid], 3 and 4 own one another, and
    4's parent is 1. *)
Definition demo_proc (n par own : Z) (e : option (list env_entry)) : process :=
  {| pid := n; pname := lit "p"; pstate := PROC_READY; level := PLVL_USER; caps := 0;
     parent_pid := par; owner_pid := own; env := e |}.

Definition demo_pool : pool :=
  [Some (demo_proc 1 0 0 None); Some (demo_proc 2 1 0 None);
   Some (demo_proc 3 1 4 None); Some (demo_proc 4 1 3 None)] ++ replicate 124 None.

Lemma ancestry_authority_exact_witness :
  process_kill_allowed demo_pool (Some (demo_proc 2 1 0 None)) 3 = false /\
  process_ipc_allowed demo_pool (demo_proc 1 0 0 None) 4 = true /\
  ancestor demo_pool parent_pid (i32 1) 4 /\ ~ ancestor demo_pool up_owner (i32 2) 3.
Proof.
  assert (Hl : (length demo_pool <= MAX_PROCESSES)%nat) by (vm_compute; lia).
  split; [vm_compute; reflexivity |]; split; [vm_compute; reflexivity |]; split.
  - destruct (ancestry_authority_exact demo_pool (demo_proc 1 0 0 None) 4 Hl) as (_ & H & _).
    destruct (proj1 H) as [E | [E | [E | E]]]; [vm_compute; reflexivity | | | | exact E];
      vm_compute in E; discriminate.
  - intros Ha; destruct (ancestry_authority_exact demo_pool (demo_proc 2 1 0 None) 3 Hl) as (H & _ & _).
    assert (E := proj2 H (or_intror (or_intror (or_intror Ha)))); vm_compute in E; discriminate.
Defined.

(** ** Environments *)

(** A block has its [ENV_MAX] slots, strings that fit them, and no name
    twice. *)
Record env_ok (b : list env_entry) : Prop := {
  env_slots : length b = ENV_MAX;
  env_names_ok : Forall (fun e => is_cstr (ek e) /\ is_cstr (ev e)) b;
  env_uniq i j x y : b !! i = Some x -> b !! j = Some y -> ek x <> [] -> ek x = ek y -> i = j
}.

Definition envs_ok (pp : pool) : Prop :=
  forall n p b, process_find_by_pid pp n = Some p -> env p = Some b -> env_ok b.

Section block.
Context (b : list env_entry) (Hb : env_ok b).

Lemma env_find_Some key i e :
  is_cstr key -> env_find b key = Some (i, e) <-> key <> [] /\ b !! i = Some e /\ ek e = key.
Proof.
  intros Hk; destruct Hb as [_ Hn Hu]; rewrite Forall_lookup in Hn; unfold env_find.
  destruct key as [| a key]; [naive_solver |]; rewrite list_find_Some; split.
  - intros (Hi & [Hne Hc] & _); split; [done |]; split; [done |].
    apply strcmp_eq; [by eapply Hn | done | done].
  - intros (_ & Hi & He); split; [done |]; split; [rewrite He, strcmp_refl; done |].
    intros j y Hj Hlt [Hy Hc]; apply strcmp_eq in Hc; [| by eapply Hn | done].
    assert (j = i) by (eapply Hu; [done | done | done | congruence]); lia.
Qed.

(** Filling slot [i] with a name no other slot has. *)
Lemma env_fill i x k v :
  b !! i = Some x -> is_cstr k -> is_cstr v ->
  (forall j y, b !! j = Some y -> ek y = k -> k <> [] -> j = i) ->
  env_ok (<[i := {| ek := k; ev := v |}]> b).
Proof.
  destruct Hb as [Hl Hn Hu]; intros Hi Hk Hv Hfree; split.
  - by rewrite length_insert.
  - apply Forall_insert; done.
  - intros j1 j2 y1 y2 H1 H2 Hne E.
    apply list_lookup_insert_Some in H1 as [(<- & <- & _) | [Hj1 H1]];
      apply list_lookup_insert_Some in H2 as [(<- & <- & _) | [Hj2 H2]]; simpl in *;
      [done | | | by eauto]; [symmetry in E; symmetry |]; eapply Hfree; eauto; congruence.
Qed.
End block.

(** What a block answers for a name. *)
Definition env_lookup (b : list env_entry) (key : str) : option str := ev ∘ snd <$> env_find b key.

Lemma env_lookup_fill b i x k v key :
  env_ok b -> b !! i = Some x -> is_cstr k -> is_cstr v -> is_cstr key -> key <> [] ->
  ek x = [] \/ ek x = k \/ k = [] ->
  (forall j y, b !! j = Some y -> ek y = k -> k <> [] -> j = i) ->
  env_lookup (<[i := {| ek := k; ev := v |}]> b) key =
  if bool_decide (key = k) then Some v
  else if bool_decide (key = ek x) then None else env_lookup b key.
Proof.
  intros Hb Hi Hk Hv Hkey Hne Hx Hfree; unfold env_lookup.
  assert (Hb' := env_fill b Hb i x k v Hi Hk Hv Hfree).
  assert (Hlen : (i < length b)%nat) by (by eapply lookup_lt_Some).
  case_bool_decide; [subst key |].
  { rewrite (proj2 (env_find_Some _ Hb' k i {| ek := k; ev := v |} Hk)); [done |].
    by rewrite list_lookup_insert_eq. }
  case_bool_decide as Hkx.
  { destruct (env_find _ _) as [[j e] |] eqn:E; [| done].
    apply (env_find_Some _ Hb') in E as (_ & Hj & He); [| done].
    apply list_lookup_insert_Some in Hj as [(<- & <- & _) | [Hj Hje]]; [by simpl in *; congruence |].
    destruct Hj; destruct Hb as [_ _ Hu]; eapply (Hu i j x e); congruence. }
  f_equal; destruct (env_find b key) as [[j e] |] eqn:E.
  - apply (env_find_Some _ Hb) in E as (_ & Hj & He); [| done].
    apply (env_find_Some _ Hb'); [done |]; split; [done |]; split; [| done].
    rewrite list_lookup_insert_ne by congruence; done.
  - destruct (env_find (<[i := _]> b) key) as [[j e] |] eqn:E'; [| done].
    apply (env_find_Some _ Hb') in E' as (_ & Hj & He); [| done].
    apply list_lookup_insert_Some in Hj as [(<- & <- & _) | [Hj Hje]]; [by simpl in *; congruence |].
    exfalso; assert (F := proj2 (env_find_Some _ Hb key j e Hkey) (conj Hne (conj Hje He))); congruence.
Qed.

(** [setenv] of a block as an update of the map it stands for. *)
Definition env_update (f : str -> option str) (key : str) (value : option str) (k : str) : option str :=
  if bool_decide (k = key) then
    match value with None | Some [] => None | Some v => Some v end
  else f k.

Lemma env_store_spec b key value b' :
  env_ok b -> is_cstr key -> key <> [] -> strlen key < ENV_KEY_MAX ->
  (forall v, value = Some v -> is_cstr v /\ strlen v < ENV_VAL_MAX) ->
  env_store b key value = Some b' ->
  env_ok b' /\
  forall k, is_cstr k -> k <> [] -> env_lookup b' k = env_update (env_lookup b) key value k.
Proof.
  intros Hb Hk Hne Hkl Hv; unfold env_store, env_update.
  assert (Hown : forall i x, env_find b key = Some (i, x) ->
    forall j y, b !! j = Some y -> ek y = ek x -> ek x <> [] -> j = i).
  { intros i x (_ & Hi & He)%(env_find_Some b Hb); [| done].
    intros j y Hj Hy _; destruct Hb as [_ _ Hu]; symmetry; eapply Hu; eauto; congruence. }
  assert (Hclear : forall i x, env_find b key = Some (i, x) ->
    env_ok (<[i := {| ek := []; ev := ev x |}]> b) /\
    forall k, is_cstr k -> k <> [] -> env_lookup (<[i := {| ek := []; ev := ev x |}]> b) k =
      if bool_decide (k = key) then None else env_lookup b k).
  { intros i x (_ & Hi & He)%(env_find_Some b Hb); [| done].
    destruct (proj1 (Forall_lookup _ b) (env_names_ok b Hb) i x Hi).
    split; [eapply env_fill; done || apply is_cstr_nil |].
    intros k Hkc Hkn; rewrite (env_lookup_fill b i x) by (done || apply is_cstr_nil || auto).
    rewrite (bool_decide_eq_false_2 (k = [])), He by done; done. }
  assert (Hnone : env_find b key = None -> env_lookup b key = None) by (unfold env_lookup; intros ->; done).
  destruct value as [[| a v] |].
  1, 3: destruct (env_find b key) as [[i x] |] eqn:E; intros [= <-]; [by apply Hclear |];
    split; [done |]; intros k _ _; case_bool_decide; subst; auto.
  destruct (Hv _ eq_refl) as [Hvc Hvl].
  destruct (env_find b key) as [[i x] |] eqn:E; simpl.
  - intros [= <-]; rewrite strcopy_fits by done; assert (Ho := Hown i x eq_refl).
    apply (env_find_Some b Hb) in E as (_ & Hi & He); [| done].
    split; [eapply env_fill; eauto; by rewrite He |].
    intros k Hkc Hkn; rewrite (env_lookup_fill b i x) by (eauto; by rewrite ?He); rewrite He.
    by repeat case_bool_decide.
  - destruct (list_find _ b) as [[i x] |] eqn:F; simpl; [| done]; intros [= <-].
    rewrite !strcopy_fits by done; apply list_find_Some in F as (Hi & Hx & _).
    assert (Ho : forall j y, b !! j = Some y -> ek y = key -> key <> [] -> j = i).
    { intros j y Hj Hy _; exfalso.
      assert (G := proj2 (env_find_Some b Hb key j y Hk) (conj Hne (conj Hj Hy))); congruence. }
    split; [by eapply env_fill |].
    intros k Hkc Hkn; rewrite (env_lookup_fill b i x) by auto.
    rewrite Hx, (bool_decide_eq_false_2 (k = [])) by done; done.
Qed.

(** The caller is the kernel, the process itself, or privileged. *)
Definition env_authorised (caller : option process) (n : Z) : Prop :=
  proc_is_privileged caller = true \/ exists c, caller = Some c /\ i32 (pid c) = n.

Definition is_empty (value : option str) : Prop := value = None \/ value = Some [].

(** What [proc_env_set] refuses before it looks at the table. *)
Definition env_args_ok (key : str) (value : option str) : Prop :=
  key <> [] /\ strlen key < ENV_KEY_MAX /\ (forall v, value = Some v -> strlen v < ENV_VAL_MAX).

Lemma proc_env_get_lookup pp n key size :
  0 < size ->
  proc_env_get pp n key size =
  match (p ← process_find_by_pid pp n; b ← env p; env_lookup b key) with
  | Some v => inr (strcopy size v)
  | None => inl (- ENOENT)
  end.
Proof.
  intros Hs; unfold proc_env_get, proc_env_find, env_lookup; case_if; [lia |].
  destruct (process_find_by_pid pp n) as [p |]; simpl; [| done].
  destruct (env p) as [b |]; simpl; [| done]; by destruct (env_find b key) as [[] |].
Qed.

(** The gates of [proc_env_set], passed or not. *)
Lemma proc_env_set_gates pp caller n key value :
  (env_args_ok key value /\ env_authorised caller n /\
   proc_env_set pp caller n key value =
   match process_find_by_pid pp n with
   | None => (pp, - ESRCH)
   | Some p =>
     match env p with
     | None => (pp, - ENOMEM)
     | Some b => match env_store b key value with
                 | Some b' => (update_proc pp n (fun p => with_env p (Some b')), 0)
                 | None => (pp, - ENOMEM)
                 end
     end
   end) \/
  (~ (env_args_ok key value /\ env_authorised caller n) /\
   exists r, proc_env_set pp caller n key value = (pp, r) /\ r <> 0).
Proof.
  unfold proc_env_set, env_args_ok, env_authorised.
  case_bool_decide as Hk; [right; split; [tauto | by eexists] |].
  destruct (_ || _) eqn:El.
  { right; split; [| by eexists]; intros ((_ & Hl & Hv) & _); apply orb_true_iff in El as [E | E].
    - zbool; lia.
    - destruct value as [v |]; [| done]; specialize (Hv v eq_refl); zbool; lia. }
  assert (Ha : key <> [] /\ strlen key < ENV_KEY_MAX /\ (forall v, value = Some v -> strlen v < ENV_VAL_MAX)).
  { split; [done |]; apply orb_false_iff in El as [E1 E2]; split; [by zbool |].
    intros v ->; by zbool. }
  destruct caller as [c |]; [| left; split; [done |]; split; [by left | done]].
  destruct (Z.eqb_spec (i32 (pid c)) n), (proc_is_privileged (Some c)); simpl;
    try (left; split; [done |]; split; [by (left + (right; eauto)) | done]).
  right; split; [naive_solver | by eexists].
Qed.

(** [setenv] and [getenv] (kernel/sched/process.c, proc_env_set and
    proc_env_get) make every process's environment a finite map.  A refused
    call changes nothing.  An accepted one comes from the process itself or a
    privileged caller; afterwards the written name reads back as the value (cut
    to the reader's buffer), or as ENOENT if the value was empty, and every
    other name of every process reads as before.  The call is accepted whenever
    the name and value fit, the caller is entitled, the process has a block,
    and the block holds the name or has a free slot. *)
Theorem proc_env_set_get pp caller n key value pp' r :
  envs_ok pp -> is_cstr key -> (forall v, value = Some v -> is_cstr v) ->
  proc_env_set pp caller n key value = (pp', r) ->
  envs_ok pp' /\
  (r <> 0 -> pp' = pp) /\
  (r = 0 -> env_authorised caller n /\
     forall m k size, 0 < size -> is_cstr k -> k <> [] ->
       proc_env_get pp' m k size =
       if bool_decide (m = n /\ k = key) then
         match value with None | Some [] => inl (- ENOENT) | Some v => inr (strcopy size v) end
       else proc_env_get pp m k size) /\
  (forall p b, env_args_ok key value -> env_authorised caller n ->
     process_find_by_pid pp n = Some p -> env p = Some b ->
     is_empty value \/ env_find b key <> None \/ (exists x, x ∈ b /\ ek x = []) -> r = 0).
Proof.
  intros Hok Hk Hv E.
  destruct (proc_env_set_gates pp caller n key value) as [(Ha & Hauth & G) | (Hno & r' & G & Hr)];
    rewrite G in E; [| simplify_eq; naive_solver].
  destruct (process_find_by_pid pp n) as [p |] eqn:Hp; [| simplify_eq; naive_solver].
  destruct (env p) as [b |] eqn:Hb; [| simplify_eq; naive_solver].
  destruct (env_store b key value) as [b' |] eqn:Hst; simplify_eq; cycle 1.
  { split; [done |]; split; [done |]; split; [done |]; intros ? ? _ _ [= <-]; rewrite Hb; intros [= <-].
    unfold env_store in Hst; destruct value as [[| a v] |];
      [by destruct (env_find b key) as [[] |] | | by destruct (env_find b key) as [[] |]].
    destruct (env_find b key) as [[] |]; [done |]; simpl in Hst.
    destruct (list_find _ b) as [[] |] eqn:F; [done |]; apply list_find_None in F.
    intros [[|] | [| (x & Hx & Hx')]]; try done; rewrite Forall_forall in F; by destruct (F x Hx). }
  destruct Ha as (Hne & Hl & Hvl); assert (Hbo := Hok n p b Hp Hb).
  destruct (env_store_spec b key value b') as [Hbo' Hlook]; [done.. | naive_solver | done |].
  split; [| split; [done |]; split; [| done]].
  - intros m q bq; rewrite find_update by done; case_if; [| by apply Hok]; subst m.
    rewrite Hp; simpl; intros [= <-]; simpl; by intros [= <-].
  - intros _; split; [done |]; intros m k size Hs Hkc Hkn; rewrite !proc_env_get_lookup, find_update by done.
    case_if; [subst m | by rewrite bool_decide_eq_false_2 by naive_solver].
    rewrite Hp; simpl; rewrite Hb, Hlook by done; simpl; unfold env_update; repeat case_bool_decide; try naive_solver.
    by destruct value as [[] |].
Qed.

Lemma empty_env_ok : env_ok (replicate ENV_MAX {| ek := []; ev := [] |}).
Proof.
  split; [apply length_replicate | apply Forall_replicate; split; apply is_cstr_nil |].
  intros i j x y [-> _]%lookup_replicate; done.
Qed.

Definition env_pool : pool := [Some (demo_proc 5 1 0 (Some (replicate ENV_MAX {| ek := []; ev := [] |})))].

Lemma env_pool_ok : envs_ok env_pool.
Proof.
  intros n p b Hp Hb; apply find_by_pid_spec in Hp as (i & Hi & _).
  destruct i as [| i]; [| by destruct i]; simplify_eq/=; apply empty_env_ok.
Qed.

Lemma proc_env_set_get_witness :
  exists pp', proc_env_set env_pool (Some (demo_proc 5 1 0 None)) 5 (lit "HOME") (Some (lit "/home"))
              = (pp', 0) /\
  proc_env_get pp' 5 (lit "HOME") 64 = inr (lit "/home") /\
  proc_env_get pp' 5 (lit "PATH") 64 = inl (- ENOENT).
Proof.
  destruct (proc_env_set env_pool (Some (demo_proc 5 1 0 None)) 5 (lit "HOME") (Some (lit "/home")))
    as [pp' r] eqn:E.
  assert (r = 0) as -> by (vm_compute in E; congruence).
  exists pp'; split; [reflexivity |].
  destruct (proc_env_set_get env_pool (Some (demo_proc 5 1 0 None)) 5 (lit "HOME") (Some (lit "/home"))
              pp' 0 env_pool_ok) as (_ & _ & H & _);
    [repeat constructor | intros v [= <-]; repeat constructor | exact E |].
  destruct (H eq_refl) as [_ G]; split.
  - rewrite G; [vm_compute; reflexivity | lia | repeat constructor | discriminate].
  - rewrite G; [vm_compute; reflexivity | lia | repeat constructor | discriminate].
Defined.
