(* ===== verification/VfsPath.v ===== *)
(** * Paths: canonicalisation and the write policy (kernel/fs/vfs.c)

    [vfs_resolve_path] turns a path given by a process into the absolute path
    the rest of the kernel works on; [vfs_write_allowed] is the one place where
    the authority to change the tree below such a path is decided.  The
    theorems relate the first to rewriting of component lists and the second to
    a policy stated on components, so that no spelling of a path changes the
    answer. *)
From Stdlib Require Import ZArith Lia String.
From stdpp Require Import base numbers list relations.
From S2P Require Import Prelude CString ProcTab.

Definition SLASH : Z := 47.

(** ** The string routines used (kernel/lib/string.c) *)

(** [strchr]: the offset of the first [c]; the terminator is found too. *)
Fixpoint strchr (s : str) (c : Z) : option nat :=
  match s with
  | [] => if c =? 0 then Some 0%nat else None
  | a :: t => if a =? c then Some 0%nat else S <$> strchr t c
  end.

(** [strncat] on a buffer that holds a string: at most [n] bytes of [src] and a
    terminator go where the old terminator was. *)
Definition strncat (buf : list Z) (src : str) (n : nat) : list Z :=
  let t := cstr buf ++ take n src ++ [0] in t ++ drop (length t) buf.

(** ** [vfs_resolve_path] *)

Definition PATH_TEMP : nat := 256.
Definition MAX_PARTS : nat := 32.

(** [temp]: the working copy, absolute.  [cwd] is the current process's
    directory; [None] when there is no current process. *)
Definition path_temp (cwd : option str) (inp : str) : list Z :=
  let blank := replicate PATH_TEMP 0 in
  let temp :=
    if znth 0 inp 0 =? SLASH then strncpy blank inp PATH_TEMP
    else
      let temp := strncpy blank (default (lit "/") cwd) PATH_TEMP in
      let len := length (cstr temp) in
      let temp :=
        if (0 <? Z.of_nat len) && negb (znth 0 temp (Z.of_nat len - 1) =? SLASH)
        then strncat temp (lit "/") (PATH_TEMP - len - 1) else temp in
      strncat temp inp (PATH_TEMP - length (cstr temp) - 1) in
  zset temp (Z.of_nat PATH_TEMP - 1) 0.

(** What one component does to [parts[0 .. part_count-1]]. *)
Definition add_part (parts : list str) (token : str) : list str :=
  if strcmp token (lit "..") =? 0 then
    if (0 <? length parts)%nat then take (length parts - 1) parts else parts
  else if negb (strcmp token (lit ".") =? 0) && (0 <? strlen token) then
    if (length parts <? MAX_PARTS)%nat then parts ++ [token] else parts
  else parts.

(** One round of [while (token && *token)]. *)
Definition parts_step (s : str * list str) : (str * list str) + list str :=
  let '(token, parts) := s in
  match token with
  | [] => inr parts
  | _ =>
    match strchr token SLASH with
    | Some i => inl (drop (S i) token, add_part parts (take i token))
    | None => inr (add_part parts token)
    end
  end.

(** The loop; each round drops at least one byte, so the length bounds it. *)
Definition path_parts (token : str) : list str :=
  default [] (loop (S (length token)) parts_step (token, [])).

(** [if (w < size - 1) out[w++] = c]. *)
Definition put (size : Z) (out : str) (c : Z) : str :=
  if zlen out <? size - 1 then out ++ [c] else out.

(** The reassembly loop. *)
Fixpoint put_parts (size : Z) (first : bool) (out : str) (parts : list str) : str :=
  match parts with
  | [] => out
  | p :: ps =>
    let out := if first then out else put size out SLASH in
    put_parts size false (foldl (put size) out p) ps
  end.

(** [None]: [size == 0] and [out] is not written. *)
Definition vfs_resolve_path (cwd : option str) (inp : str) (size : Z) : option str :=
  let temp := cstr (path_temp cwd inp) in
  let s := match temp with c :: t => if c =? SLASH then t else temp | [] => [] end in
  let parts := path_parts s in
  if size =? 0 then None
  else Some (put_parts size true (put size [] SLASH) parts).

(** ** [vfs_write_allowed] *)

(** [strncmp(path, "<tree>/", n) == 0 || strcmp(path, "<tree>") == 0]. *)
Definition in_tree (path : str) (tree : str) : bool :=
  (strncmp path (tree ++ [SLASH]) (S (length tree)) =? 0) || (strcmp path tree =? 0).

Definition vfs_write_allowed (current : option process) (path : str) : Z :=
  if negb (proc_has_cap current CAP_FS_WRITE) then - EPERM
  else if proc_is_machine current then 0
  else if in_tree path (lit "/tmp") || in_tree path (lit "/var/tmp") then 0
  else if in_tree path (lit "/home") then
    if match current with Some p => PLVL_GUEST <=? level p | None => false end
       && negb (in_tree path (lit "/home/shared"))
    then - EACCES else 0
  else if in_tree path (lit "/sys/bin") || in_tree path (lit "/sbin")
          || in_tree path (lit "/system") then - EACCES
  else if in_tree path (lit "/sys") || in_tree path (lit "/bin") then
    if negb (proc_is_privileged current) then - EACCES else 0
  else if negb (proc_is_privileged current) then - EACCES
  else 0.

(** ** [SYS_CHDIR] (kernel/core/syscall_dispatch.c)

    [stat path] is [vfs_stat]: [None] on failure, else the type of the node. *)
Definition ENOTDIR : Z := 20.
Definition VFS_TYPE_FILE : Z := 1.
Definition VFS_TYPE_DIR : Z := 2.

Definition sys_chdir (stat : str -> option Z) (cwd : str) (k_path : str) : str * Z :=
  match vfs_resolve_path (Some cwd) k_path 128 with
  | None => (cwd, - ENOENT)
  | Some resolved =>
    match stat resolved with
    | None => (cwd, - ENOENT)
    | Some t =>
      if negb (t =? VFS_TYPE_DIR) then (cwd, - ENOTDIR)
      else (cstr (strncpy (replicate 128 0) resolved 128), 0)
    end
  end.

(** ** What the functions are compared with *)

(** Splitting at every slash. *)
Fixpoint components (s : str) : list str :=
  match s with
  | [] => [[]]
  | c :: t =>
    if c =? SLASH then [] :: components t
    else match components t with h :: r => (c :: h) :: r | [] => [[c]] end
  end.

(** A name: a component that is neither empty nor one of the two dots. *)
Definition plain (c : str) : Prop :=
  is_cstr c /\ ~ SLASH ∈ c /\ c <> [] /\ c <> lit "." /\ c <> lit "..".

(** The meaning of a path: empty components and [.] say nothing, [..] undoes the
    name before it, and the parent of the root is the root. *)
Inductive lex_step : list str -> list str -> Prop :=
| lex_empty a b : lex_step (a ++ [] :: b) (a ++ b)
| lex_dot a b : lex_step (a ++ lit "." :: b) (a ++ b)
| lex_up a n b : plain n -> lex_step (a ++ n :: lit ".." :: b) (a ++ b)
| lex_root b : lex_step (lit ".." :: b) b.

(** The path with the given names. *)
Definition slashed (cs : list str) : str := concat (cons SLASH <$> cs).
Definition render (cs : list str) : str := match cs with [] => [SLASH] | _ => slashed cs end.

(** The path a process means: its directory first, unless absolute. *)
Definition full_path (cwd : option str) (inp : str) : str :=
  if znth 0 inp 0 =? SLASH then inp
  else
    let d := default (lit "/") cwd in
    match last d with
    | Some c => if c =? SLASH then d ++ inp else d ++ [SLASH] ++ inp
    | None => inp
    end.

(** The greatest number of names held while the components are read. *)
Fixpoint peak (d : nat) (cs : list str) : nat :=
  match cs with
  | [] => d
  | c :: t =>
    Nat.max d (peak (if decide (c = lit "..") then pred d
                     else if decide (c = [] \/ c = lit ".") then d else S d) t)
  end.

(** The write policy, on names. *)
Definition under (tree : list str) (cs : list str) : bool := bool_decide (tree `prefix_of` cs).

Definition write_policy (current : option process) (cs : list str) : Z :=
  if negb (proc_has_cap current CAP_FS_WRITE) then - EPERM
  else if proc_is_machine current then 0
  else if under [lit "tmp"] cs || under [lit "var"; lit "tmp"] cs then 0
  else if under [lit "home"] cs then
    if bool_decide (is_Some current) && negb (under [lit "home"; lit "shared"] cs)
       && (PLVL_GUEST <=? default 0 (level <$> current))
    then - EACCES else 0
  else if under [lit "sys"; lit "bin"] cs || under [lit "sbin"] cs || under [lit "system"] cs
  then - EACCES
  else if proc_is_privileged current then 0 else - EACCES.

(** ** The working copy *)

(** A buffer of [PATH_TEMP] bytes holding the string [s]. *)
Definition held (s : str) : list Z := s ++ replicate (PATH_TEMP - length s) 0.

Lemma strncpy_blank n s :
  (length s < n)%nat -> strncpy (replicate n 0) s n = s ++ replicate (n - length s) 0.
Proof.
  intros Hl; unfold strncpy; rewrite take_app_ge by lia.
  rewrite take_replicate, drop_replicate, Nat.min_l, Nat.sub_diag by lia; simpl.
  by rewrite app_nil_r.
Qed.

Lemma held_cstr s : is_cstr s -> (length s < PATH_TEMP)%nat -> cstr (held s) = s.
Proof.
  intros Hs Hl; unfold held; replace (PATH_TEMP - length s)%nat with (S (PATH_TEMP - length s - 1)) by lia.
  cbn [replicate]; by apply cstr_app_nul.
Qed.

Lemma held_strncat s t n :
  is_cstr s -> (length t <= n)%nat -> (length s + length t < PATH_TEMP)%nat ->
  strncat (held s) t n = held (s ++ t).
Proof.
  intros Hs Ht Hl; unfold strncat; rewrite held_cstr by (done || lia); rewrite take_ge by lia.
  unfold held; rewrite drop_app_ge by (rewrite !length_app; lia).
  rewrite drop_replicate, !length_app, <- !app_assoc; do 2 f_equal; cbn [length].
  replace (PATH_TEMP - (length s + length t))%nat
    with (S (PATH_TEMP - (length s + length t) - 1)) by lia.
  cbn [replicate app]; f_equal; f_equal; lia.
Qed.

Lemma held_zset s : (length s < PATH_TEMP)%nat -> zset (held s) (Z.of_nat PATH_TEMP - 1) 0 = held s.
Proof.
  intros Hl; unfold zset; destruct (Z.ltb_spec (Z.of_nat PATH_TEMP - 1) 0); [unfold PATH_TEMP in *; lia |].
  apply list_insert_id; unfold held; rewrite lookup_app_r by (unfold PATH_TEMP in *; lia).
  apply lookup_replicate_2; unfold PATH_TEMP in *; lia.
Qed.

Lemma held_last s :
  s <> [] -> znth 0 (held s) (zlen s - 1) = default 0 (last s).
Proof.
  intros Hs; unfold zlen; assert (0 < length s)%nat by (destruct s; simpl; [done | lia]).
  unfold znth; destruct (Z.ltb_spec (Z.of_nat (length s) - 1) 0); [lia |].
  unfold held; rewrite lookup_app_l by lia; rewrite last_lookup; f_equal; f_equal; lia.
Qed.

Lemma znth_head (s : str) : znth 0 s 0 = default 0 (head s).
Proof. by destruct s. Qed.

(** Nothing is lost while the joined path has room in [temp]. *)
Lemma path_temp_full cwd inp :
  is_cstr (default (lit "/") cwd) -> is_cstr inp ->
  (length (default (lit "/") cwd) + length inp + 1 < PATH_TEMP)%nat ->
  cstr (path_temp cwd inp) = full_path cwd inp.
Proof.
  intros Hd Hi Hl; unfold path_temp, full_path.
  destruct (znth 0 inp 0 =? SLASH).
  { rewrite strncpy_blank by lia; fold (held inp); rewrite held_zset, held_cstr by (done || lia); done. }
  set (d := default (lit "/") cwd) in *.
  rewrite strncpy_blank by lia; fold (held d); rewrite held_cstr by (done || lia).
  assert (Hjoin : forall s, is_cstr s -> (length s + length inp < PATH_TEMP)%nat ->
    cstr (zset (strncat (held s) inp (PATH_TEMP - length (cstr (held s)) - 1))
            (Z.of_nat PATH_TEMP - 1) 0) = s ++ inp).
  { intros s Hs Hsl; rewrite held_cstr by (done || lia).
    rewrite held_strncat by (done || lia); rewrite held_zset by (rewrite length_app; lia).
    apply held_cstr; [by apply Forall_app_2 | rewrite length_app; lia]. }
  destruct (last d) as [c |] eqn:El.
  - assert (d <> []) by (intros E; rewrite E in El; done).
    assert (0 < length d)%nat by (destruct d; simpl; [done | lia]).
    destruct (Z.ltb_spec 0 (Z.of_nat (length d))); [| lia].
    change (Z.of_nat (length d)) with (zlen d); rewrite held_last, El by done; simpl default.
    destruct (c =? SLASH); cbn [negb andb]; [apply Hjoin; [done | lia] |].
    rewrite held_strncat by (done || (change (length (lit "/")) with 1%nat; lia)).
    rewrite Hjoin; [by rewrite <- app_assoc | |].
    + apply Forall_app_2; [done |]; repeat constructor; lia.
    + rewrite length_app; change (length (lit "/")) with 1%nat; lia.
  - apply last_None in El; rewrite El; apply (Hjoin []); [constructor | simpl; lia].
Qed.

(** ** The component loop *)

Lemma strchr_components s :
  match strchr s SLASH with
  | Some i => components s = take i s :: components (drop (S i) s) /\ (i < length s)%nat
  | None => components s = [s]
  end.
Proof.
  induction s as [| c t IH]; [done |]; cbn [strchr components].
  destruct (Z.eqb_spec c SLASH) as [-> | Hc]; [split; [done | simpl; lia] |].
  destruct (strchr t SLASH) as [i |]; cbn [fmap option_fmap option_map].
  - destruct IH as [-> Hi]; simpl; split; [done | lia].
  - by rewrite IH.
Qed.

Lemma add_part_nil parts : add_part parts [] = parts.
Proof. done. Qed.

(** The loop ends and does to [parts] what each component does, in order. *)
Lemma path_parts_fold s : path_parts s = foldl add_part [] (components s).
Proof.
  unfold path_parts; set (target := foldl add_part [] (components s)).
  destruct (loop_total (fun st => foldl add_part (snd st) (components (fst st)) = target)
              (fun st => length (fst st)) (fun r => r = target) parts_step) with (S (length s)) (s, @nil str)
    as (r & -> & ->); simpl; [| done | lia | done].
  intros [token parts]; unfold parts_step; cbn [fst snd]; intros Ht.
  destruct token as [| c t]; [done |]; set (tok := c :: t) in *.
  pose proof (strchr_components tok) as Hc; destruct (strchr tok SLASH) as [i |].
  - destruct Hc as [Hc Hi]; rewrite Hc in Ht; split; [done |].
    cbn [fst snd]; rewrite length_drop; lia.
  - rewrite Hc in Ht; done.
Qed.

(** The same without the limit on the number of parts. *)
Definition lex_add (parts : list str) (c : str) : list str :=
  if decide (c = lit "..") then take (length parts - 1) parts
  else if decide (c = [] \/ c = lit ".") then parts else parts ++ [c].

Definition comp_ok (c : str) : Prop := is_cstr c /\ ~ SLASH ∈ c.

Lemma lit_cstr_dots : is_cstr (lit ".") /\ is_cstr (lit "..").
Proof. split; repeat constructor. Qed.

Lemma strcmp_decide s t :
  is_cstr s -> is_cstr t -> (strcmp s t =? 0) = bool_decide (s = t).
Proof.
  intros Hs Ht; case_bool_decide as E; [subst; by rewrite strcmp_refl |].
  apply Z.eqb_neq; intros Hz; by apply E, strcmp_eq.
Qed.

Lemma add_part_lex parts c :
  is_cstr c -> (length (lex_add parts c) <= MAX_PARTS)%nat -> add_part parts c = lex_add parts c.
Proof.
  intros Hc; destruct lit_cstr_dots as [H1 H2]; unfold add_part, lex_add.
  rewrite !strcmp_decide by done.
  case_decide as E1; [rewrite bool_decide_eq_true_2 by done | rewrite bool_decide_eq_false_2 by done].
  { intros _; destruct (Nat.ltb_spec 0 (length parts)); [done |]; destruct parts; [done | simpl in *; lia]. }
  case_decide as E2; [destruct E2 as [-> | ->]; done |].
  rewrite bool_decide_eq_false_2 by naive_solver; cbn [negb andb].
  rewrite length_app; simpl length; intros Hl.
  destruct (Z.ltb_spec 0 (strlen c)); [| destruct c; [naive_solver | unfold strlen, zlen in *; simpl in *; lia]].
  destruct (Nat.ltb_spec (length parts) MAX_PARTS); [done | lia].
Qed.

Lemma lex_add_length parts c :
  length (lex_add parts c) =
  if decide (c = lit "..") then pred (length parts)
  else if decide (c = [] \/ c = lit ".") then length parts else S (length parts).
Proof.
  unfold lex_add; repeat case_decide; rewrite ?length_take, ?length_app; simpl; lia.
Qed.

Lemma peak_ge d cs : (d <= peak d cs)%nat.
Proof. destruct cs; simpl; lia. Qed.

Lemma fold_add_lex cs parts :
  Forall is_cstr cs -> (peak (length parts) cs <= MAX_PARTS)%nat ->
  foldl add_part parts cs = foldl lex_add parts cs.
Proof.
  intros Hcs; revert parts; induction Hcs as [| c cs Hc _ IH]; intros parts Hp; [done |].
  cbn [foldl]; cbn [peak] in Hp; rewrite <- lex_add_length in Hp.
  pose proof (peak_ge (length (lex_add parts c)) cs).
  rewrite add_part_lex by (done || lia); apply IH; lia.
Qed.

(** ** Rewriting of component lists *)

Lemma plain_not_special c : plain c -> c <> [] /\ c <> lit "." /\ c <> lit "..".
Proof. intros (_ & _ & ?); done. Qed.

Lemma lex_add_plain parts c : plain c -> lex_add parts c = parts ++ [c].
Proof.
  intros Hc%plain_not_special; unfold lex_add; repeat case_decide; naive_solver.
Qed.

Lemma fold_lex_plain parts cs : Forall plain cs -> foldl lex_add parts cs = parts ++ cs.
Proof.
  intros H; revert parts; induction H as [| c cs Hc _ IH]; intros parts; simpl; [by rewrite app_nil_r |].
  rewrite lex_add_plain, IH, <- app_assoc by done; done.
Qed.

Lemma lex_add_ok parts c : Forall plain parts -> comp_ok c -> Forall plain (lex_add parts c).
Proof.
  intros Hp [Hc Hs]; unfold lex_add; repeat case_decide; [by apply Forall_take | done |].
  apply Forall_app_2; [done |]; constructor; [| done]; split; [done |]; split; [done |]; naive_solver.
Qed.

Lemma lex_add_up parts n : lex_add (parts ++ [n]) (lit "..") = parts.
Proof.
  unfold lex_add; rewrite decide_True, length_app by done; simpl length.
  replace (length parts + 1 - 1)%nat with (length parts) by lia; apply take_app_length.
Qed.

(** Reading one more component is a rewriting of what was read. *)
Lemma lex_add_step parts c b :
  Forall plain parts -> rtc lex_step (parts ++ c :: b) (lex_add parts c ++ b).
Proof.
  intros Hp; destruct (decide (c = lit "..")) as [-> | H1].
  - destruct parts as [| n parts _] using rev_ind; [apply rtc_once, lex_root |].
    rewrite lex_add_up, <- app_assoc; apply rtc_once, lex_up.
    apply Forall_app in Hp as [_ Hp]; by inversion Hp.
  - unfold lex_add; rewrite decide_False by done.
    case_decide as H2; [destruct H2 as [-> | ->]; apply rtc_once; constructor |].
    rewrite <- app_assoc; done.
Qed.

Lemma fold_lex_rewrites cs parts :
  Forall plain parts -> Forall comp_ok cs ->
  rtc lex_step (parts ++ cs) (foldl lex_add parts cs) /\ Forall plain (foldl lex_add parts cs).
Proof.
  intros Hp Hcs; revert parts Hp; induction Hcs as [| c cs Hc _ IH]; intros parts Hp; simpl.
  { by rewrite app_nil_r. }
  destruct (IH (lex_add parts c)) as [H1 H2]; [by apply lex_add_ok |].
  split; [| done]; etrans; [by apply lex_add_step | done].
Qed.

Lemma lex_add_dots parts : lex_add parts [] = parts /\ lex_add parts (lit ".") = parts.
Proof. done. Qed.

(** The names a list of components stands for do not depend on the order in
    which it is rewritten. *)
Lemma lex_step_fold p q : lex_step p q -> foldl lex_add [] p = foldl lex_add [] q.
Proof.
  intros []; rewrite ?foldl_app; simpl; [done | done | | done].
  by rewrite (lex_add_plain _ n), lex_add_up by done.
Qed.

Lemma lex_rewrites_unique p q :
  rtc lex_step p q -> Forall plain q -> foldl lex_add [] p = q.
Proof.
  induction 1 as [q | p r q Hs _ IH]; intros Hq; [by rewrite fold_lex_plain |].
  rewrite (lex_step_fold _ _ Hs); auto.
Qed.

Lemma components_ok s : is_cstr s -> Forall comp_ok (components s).
Proof.
  induction 1 as [| c s Hc _ IH]; cbn [components].
  { constructor; [split; [constructor | apply not_elem_of_nil] | constructor]. }
  destruct (Z.eqb_spec c SLASH) as [-> | Hn].
  { constructor; [split; [constructor | apply not_elem_of_nil] | done]. }
  assert (Hone : forall h, comp_ok h -> comp_ok (c :: h)).
  { intros h [H1 H2]; split; [by constructor | by apply not_elem_of_cons]. }
  destruct IH as [| h r Hh Hr]; constructor; auto; apply Hone; split; [constructor | apply not_elem_of_nil].
Qed.

(** ** The reassembly *)

Lemma put_take size s c :
  1 <= size -> put size (take (Z.to_nat (size - 1)) s) c = take (Z.to_nat (size - 1)) (s ++ [c]).
Proof.
  intros Hs; unfold put, zlen; rewrite length_take.
  destruct (Z.ltb_spec (Z.of_nat (Nat.min (Z.to_nat (size - 1)) (length s))) (size - 1)).
  - rewrite !take_ge by (rewrite ?length_app; simpl; lia); done.
  - rewrite take_app_le by lia; done.
Qed.

Lemma fold_put_take size p s :
  1 <= size ->
  foldl (put size) (take (Z.to_nat (size - 1)) s) p = take (Z.to_nat (size - 1)) (s ++ p).
Proof.
  intros Hs; revert s; induction p as [| c p IH]; intros s; simpl; [by rewrite app_nil_r |].
  rewrite put_take, IH, <- app_assoc by done; done.
Qed.

Lemma put_parts_take size parts s :
  1 <= size ->
  put_parts size false (take (Z.to_nat (size - 1)) s) parts
  = take (Z.to_nat (size - 1)) (s ++ slashed parts).
Proof.
  intros Hs; revert s; induction parts as [| p ps IH]; intros s; cbn [put_parts].
  { unfold slashed; simpl; by rewrite app_nil_r. }
  rewrite put_take, fold_put_take, IH by done; f_equal.
  unfold slashed; simpl; by rewrite <- !app_assoc.
Qed.

Lemma put_parts_render size parts :
  1 <= size -> put_parts size true (put size [] SLASH) parts = take (Z.to_nat (size - 1)) (render parts).
Proof.
  intros Hs; pose proof (put_take size [] SLASH Hs) as E; rewrite take_nil in E; rewrite E; simpl app.
  destruct parts as [| p ps]; [done |]; cbn [put_parts].
  rewrite fold_put_take, put_parts_take by done; done.
Qed.

(** ** Canonical paths *)

(** What [vfs_resolve_path] skips of the working copy does not matter. *)
Definition skip_slash (s : str) : str :=
  match s with c :: t => if c =? SLASH then t else s | [] => [] end.

Lemma components_skip s :
  foldl lex_add [] (components (skip_slash s)) = foldl lex_add [] (components s) /\
  peak 0 (components (skip_slash s)) = peak 0 (components s).
Proof.
  destruct s as [| c t]; [done |]; unfold skip_slash; destruct (c =? SLASH) eqn:E; [| done].
  cbn [components]; rewrite E; split; [done |]; cbn [peak].
  rewrite decide_False by done; rewrite decide_True by auto; lia.
Qed.

Lemma skip_cstr s : is_cstr s -> is_cstr (skip_slash s).
Proof. intros Hs; destruct Hs as [| c t Hc Ht]; simpl; [constructor |]; case_if; [done | by constructor]. Qed.

Lemma full_path_cstr cwd inp :
  is_cstr (default (lit "/") cwd) -> is_cstr inp -> is_cstr (full_path cwd inp).
Proof.
  intros Hd Hi; unfold full_path; case_if; [done |].
  destruct (last _); [| done]; case_if; repeat apply Forall_app_2; try done; repeat constructor.
Qed.

Lemma vfs_resolve_path_take cwd inp size :
  1 <= size ->
  vfs_resolve_path cwd inp size
  = Some (take (Z.to_nat (size - 1)) (render (path_parts (skip_slash (cstr (path_temp cwd inp)))))).
Proof.
  intros Hs; unfold vfs_resolve_path; destruct (Z.eqb_spec size 0); [lia |].
  by rewrite put_parts_render.
Qed.

Lemma vfs_resolve_path_lex cwd inp size :
  is_cstr (default (lit "/") cwd) -> is_cstr inp ->
  (length (default (lit "/") cwd) + length inp + 1 < PATH_TEMP)%nat ->
  (peak 0 (components (full_path cwd inp)) <= MAX_PARTS)%nat -> 1 <= size ->
  vfs_resolve_path cwd inp size
  = Some (take (Z.to_nat (size - 1)) (render (foldl lex_add [] (components (full_path cwd inp))))).
Proof.
  intros Hd Hi Hl Hp Hs; rewrite vfs_resolve_path_take, path_temp_full, path_parts_fold by done.
  destruct (components_skip (full_path cwd inp)) as [E1 E2].
  rewrite fold_add_lex; [by rewrite E1 | | cbn [length]; by rewrite E2].
  eapply Forall_impl; [apply components_ok, skip_cstr, full_path_cstr; done | by intros ? []].
Qed.

Lemma components_app_slash c s :
  ~ SLASH ∈ c -> components (c ++ SLASH :: s) = c :: components s.
Proof.
  induction c as [| x c IH]; [done |]; intros [H1 H2]%not_elem_of_cons; cbn [app components].
  destruct (Z.eqb_spec x SLASH); [congruence |]; by rewrite IH.
Qed.

Lemma components_noslash c : ~ SLASH ∈ c -> components c = [c].
Proof.
  induction c as [| x c IH]; [done |]; intros [H1 H2]%not_elem_of_cons; cbn [components].
  destruct (Z.eqb_spec x SLASH); [congruence |]; by rewrite IH.
Qed.

Lemma components_slashed cs :
  Forall plain cs -> cs <> [] -> components (slashed cs) = [] :: cs.
Proof.
  intros H Hne; unfold slashed; destruct H as [| c cs Hc H]; [done |]; clear Hne; cbn [fmap list_fmap concat].
  cbn [app components]; rewrite Z.eqb_refl; f_equal; revert c Hc.
  induction H as [| d cs Hd _ IH]; intros c Hc; cbn [fmap list_fmap concat].
  - rewrite app_nil_r; apply components_noslash, Hc.
  - cbn [app]; rewrite components_app_slash by apply Hc; f_equal; by apply IH.
Qed.

Lemma fold_lex_render cs : Forall plain cs -> foldl lex_add [] (components (render cs)) = cs.
Proof.
  intros H; destruct cs as [| c cs]; [done |]; cbn [render]; rewrite components_slashed by done.
  change (foldl lex_add [] (c :: cs) = c :: cs); by rewrite fold_lex_plain.
Qed.

Lemma peak_plain cs d : Forall plain cs -> peak d cs = (d + length cs)%nat.
Proof.
  intros H; revert d; induction H as [| c cs Hc%plain_not_special _ IH]; intros d; simpl; [lia |].
  rewrite !decide_False by naive_solver; rewrite IH; lia.
Qed.

Lemma peak_render cs : Forall plain cs -> peak 0 (components (render cs)) = length cs.
Proof.
  intros H; destruct cs as [| c cs]; [done |]; cbn [render]; rewrite components_slashed by done.
  cbn [peak]; rewrite decide_False by done; rewrite decide_True by auto.
  pose proof (peak_plain (c :: cs) 0 H) as E; cbn [peak] in E; lia.
Qed.

Lemma render_cstr cs : Forall plain cs -> is_cstr (render cs).
Proof.
  intros H; assert (is_cstr (slashed cs)); [| destruct cs; [repeat constructor | done]].
  unfold slashed; induction H as [| c cs Hc _ IH]; simpl; [constructor |].
  constructor; [unfold SLASH; lia |]; apply Forall_app_2; [apply Hc | done].
Qed.

Lemma render_head cs : znth 0 (render cs) 0 = SLASH.
Proof. by destruct cs. Qed.

(** C29: [vfs_resolve_path] computes the names a path stands for.  Reading [cwd] and
    the path together, with [.] and empty components meaning nothing and [..]
    undoing the name before it, in whatever order these rewritings are applied,
    one list of plain names remains; the output is the absolute path of exactly
    these names, cut to [size - 1] bytes.  This holds as long as the two strings
    fit in the 256-byte working copy together and the path never stands more
    than 32 levels deep. *)
Theorem resolve_path_normal_form cwd inp size :
  is_cstr (default (lit "/") cwd) -> is_cstr inp ->
  (length (default (lit "/") cwd) + length inp + 1 < PATH_TEMP)%nat ->
  (peak 0 (components (full_path cwd inp)) <= MAX_PARTS)%nat -> 1 <= size ->
  exists parts,
    rtc lex_step (components (full_path cwd inp)) parts /\ Forall plain parts /\
    (forall q, rtc lex_step (components (full_path cwd inp)) q -> Forall plain q -> q = parts) /\
    vfs_resolve_path cwd inp size = Some (take (Z.to_nat (size - 1)) (render parts)).
Proof.
  intros Hd Hi Hl Hp Hs; set (cs := components (full_path cwd inp)) in *.
  destruct (fold_lex_rewrites cs []) as [H1 H2]; [constructor | by apply components_ok, full_path_cstr |].
  exists (foldl lex_add [] cs); split; [done |]; split; [done |]; split.
  - intros q Hq Hpl; symmetry; by apply lex_rewrites_unique.
  - by apply vfs_resolve_path_lex.
Qed.

(** A canonical path that fits is left alone: resolving is idempotent. *)
Theorem resolve_path_fixed cwd cs size :
  Forall plain cs -> (length cs <= MAX_PARTS)%nat -> is_cstr (default (lit "/") cwd) ->
  (length (default (lit "/") cwd) + length (render cs) + 1 < PATH_TEMP)%nat ->
  zlen (render cs) < size ->
  vfs_resolve_path cwd (render cs) size = Some (render cs).
Proof.
  intros Hcs Hn Hd Hl Hs; assert (E : full_path cwd (render cs) = render cs)
    by (unfold full_path; by rewrite render_head).
  rewrite vfs_resolve_path_lex; rewrite ?E, ?peak_render; try done; [| by apply render_cstr | unfold zlen in *; lia].
  rewrite fold_lex_render by done; f_equal; apply take_ge; unfold zlen in Hs; lia.
Qed.

(** ** The write policy *)

(** What follows a name in a path. *)
Definition after_name (y : str) : Prop := y = [] \/ head y = Some SLASH.

Lemma name_split p c x y :
  ~ SLASH ∈ p -> ~ SLASH ∈ c -> after_name x -> after_name y ->
  p ++ x = c ++ y -> p = c /\ x = y.
Proof.
  intros Hp Hc Hx Hy; revert c Hc; induction p as [| a p IH]; intros [| b c] Hc E; simpl in *; subst; try done.
  - destruct Hx as [? | Hx]; [done |]; simpl in Hx; simplify_eq; by destruct Hc; left.
  - destruct Hy as [? | Hy]; [done |]; simpl in Hy; simplify_eq; by destruct Hp; left.
  - apply not_elem_of_cons in Hp as [_ Hp], Hc as [_ Hc]; simplify_eq.
    destruct (IH Hp c Hc) as [-> ->]; done.
Qed.

Lemma after_slashed cs y : after_name y -> after_name (slashed cs ++ y).
Proof. destruct cs; simpl; [done |]; by right. Qed.

Lemma slashed_prefix pre cs :
  Forall plain pre -> Forall plain cs ->
  (exists y, slashed cs = slashed pre ++ y /\ after_name y) <-> pre `prefix_of` cs.
Proof.
  intros Hp; revert cs; induction Hp as [| p pre (_ & Hp & _) _ IH]; intros cs Hcs.
  { split; [intros _; apply prefix_nil |]; intros _; exists (slashed cs); split; [done |].
    rewrite <- (app_nil_r (slashed cs)); apply after_slashed; by left. }
  destruct Hcs as [| c cs (_ & Hc & _) Hcs].
  { split; [intros (y & E & _); done | intros H; by apply prefix_nil_not in H]. }
  change (slashed (p :: pre)) with (SLASH :: p ++ slashed pre).
  change (slashed (c :: cs)) with (SLASH :: c ++ slashed cs).
  split.
  - intros (y & E & Hy); simpl in E; rewrite <- app_assoc in E; injection E as E.
    apply name_split in E as [-> E]; try done.
    + apply prefix_cons, IH; [done |]; eauto.
    + rewrite <- (app_nil_r (slashed cs)); apply after_slashed; by left.
    + by apply after_slashed.
  - intros E; pose proof (prefix_cons_inv_1 _ _ _ _ E) as ->.
    apply prefix_cons_inv_2, IH in E as (y & -> & Hy); [| done].
    exists y; simpl; by rewrite <- app_assoc.
Qed.

Lemma render_prefix pre cs :
  Forall plain pre -> pre <> [] -> Forall plain cs ->
  (exists y, render cs = slashed pre ++ y /\ after_name y) <-> pre `prefix_of` cs.
Proof.
  intros Hp Hne Hcs; destruct cs as [| c cs]; [| by apply slashed_prefix].
  destruct Hp as [| p pre Hp _]; [done |]; split; [| intros H; by apply prefix_nil_not in H].
  intros (y & E & _); exfalso; change (slashed (p :: pre)) with (SLASH :: p ++ slashed pre) in E; simpl in E.
  destruct Hp as (_ & _ & Hn & _); destruct p; [done |]; discriminate E.
Qed.

Lemma take_prefix_of (p s : str) : take (length p) s = p <-> p `prefix_of` s.
Proof.
  split; [intros E; rewrite <- E; apply prefix_take | intros [k ->]; apply take_app_length].
Qed.

Lemma in_tree_spec path tree :
  is_cstr path -> is_cstr tree ->
  in_tree path tree = true <-> exists y, path = tree ++ y /\ after_name y.
Proof.
  intros Hp Ht; unfold in_tree; rewrite orb_true_iff, !Z.eqb_eq.
  replace (S (length tree)) with (length (tree ++ [SLASH])) by (rewrite length_app; simpl; lia).
  assert (is_cstr (tree ++ [SLASH])) by (apply Forall_app_2; [done | repeat constructor]).
  rewrite strncmp_prefix, take_prefix_of by done.
  split.
  - intros [[k ->] | E%strcmp_eq]; [| subst; exists []; split; [by rewrite app_nil_r | by left] | done | done].
    exists (SLASH :: k); split; [by rewrite <- app_assoc | by right].
  - intros (y & -> & [-> | Hy]); [right; rewrite app_nil_r; apply strcmp_refl |].
    destruct y as [| c y]; [done |]; simpl in Hy; injection Hy as ->.
    left; exists y; by rewrite <- app_assoc.
Qed.

(** The string tests of the policy are tests on leading names. *)
Lemma in_tree_under pre cs :
  Forall plain pre -> pre <> [] -> Forall plain cs ->
  in_tree (render cs) (slashed pre) = under pre cs.
Proof.
  intros Hp Hne Hcs; apply eq_true_iff_eq; unfold under; rewrite bool_decide_eq_true.
  assert (is_cstr (slashed pre)) by (destruct pre; [done |]; by apply (render_cstr (_ :: _))).
  by rewrite in_tree_spec, render_prefix by (done || by apply render_cstr).
Qed.

#[global] Instance plain_dec c : Decision (plain c).
Proof. unfold plain, is_cstr; apply _. Defined.

(** A tree of the policy, by its literal and by its names. *)
Lemma in_tree_lit s pre cs :
  lit s = slashed pre -> pre <> [] -> bool_decide (Forall plain pre) = true -> Forall plain cs ->
  in_tree (render cs) (lit s) = under pre cs.
Proof. intros -> Hne Hp Hcs; apply in_tree_under; [by apply bool_decide_eq_true in Hp | done | done]. Qed.

Lemma write_allowed_policy current cs :
  Forall plain cs -> vfs_write_allowed current (render cs) = write_policy current cs.
Proof.
  intros Hcs; unfold vfs_write_allowed, write_policy.
  rewrite (in_tree_lit "/tmp" [lit "tmp"]), (in_tree_lit "/var/tmp" [lit "var"; lit "tmp"]),
    (in_tree_lit "/home" [lit "home"]), (in_tree_lit "/home/shared" [lit "home"; lit "shared"]),
    (in_tree_lit "/sys/bin" [lit "sys"; lit "bin"]), (in_tree_lit "/sbin" [lit "sbin"]),
    (in_tree_lit "/system" [lit "system"]), (in_tree_lit "/sys" [lit "sys"]),
    (in_tree_lit "/bin" [lit "bin"]) by (done || by vm_compute).
  destruct current as [p |]; [| done]; cbn [fmap option_fmap option_map default id].
  rewrite bool_decide_eq_true_2 by (by eexists); cbn [andb].
  rewrite (andb_comm (negb (under [lit "home"; lit "shared"] cs))).
  destruct (proc_is_privileged (Some p)); cbn [negb]; repeat case_match; done.
Qed.

(** C25: No spelling of a path changes who may write there, within the limits of
    the resolver: the directory and the input fit its working copy of 256 bytes,
    on the way through the path no more than 32 names are open at a time, and
    the resolved path fits the buffer.  Then, whatever absolute or relative path
    a process gives, with dots, doubled slashes or detours, the answer of
    [vfs_write_allowed] on the resolved path is the policy for the names the path
    stands for: [CAP_FS_WRITE] is required; the machine may write anywhere; /tmp
    and /var/tmp are open; /home is open, to a guest only below /home/shared;
    /sys/bin, /sbin and /system are closed; the rest, /sys and /bin among it, is
    for root.  Beyond 32 names the resolver drops names and a detour no longer
    undoes itself, so that a spelling can change the names and the answer (example
    [deep_path_climbs]). *)
Theorem write_authority_by_names current cwd inp size parts :
  is_cstr (default (lit "/") cwd) -> is_cstr inp ->
  (length (default (lit "/") cwd) + length inp + 1 < PATH_TEMP)%nat ->
  (peak 0 (components (full_path cwd inp)) <= MAX_PARTS)%nat ->
  rtc lex_step (components (full_path cwd inp)) parts -> Forall plain parts ->
  zlen (render parts) < size ->
  exists resolved, vfs_resolve_path cwd inp size = Some resolved /\
    vfs_write_allowed current resolved = write_policy current parts.
Proof.
  intros Hd Hi Hl Hp Hr Hpl Hs; pose proof (zlen_nonneg (render parts)).
  rewrite vfs_resolve_path_lex by (done || lia); rewrite (lex_rewrites_unique _ _ Hr Hpl).
  eexists; split; [done |]; rewrite take_ge by (unfold zlen in *; lia); by apply write_allowed_policy.
Qed.

(** ** The current directory *)

Definition cwd_ok (cwd : str) : Prop :=
  is_cstr cwd /\ head cwd = Some SLASH /\ (length cwd < 128)%nat.

Lemma add_part_ok parts c : Forall comp_ok parts -> comp_ok c -> Forall comp_ok (add_part parts c).
Proof.
  intros Hp Hc; unfold add_part; repeat case_match; try done; [by apply Forall_take |].
  apply Forall_app_2; [done | by constructor].
Qed.

Lemma fold_add_ok cs parts :
  Forall comp_ok cs -> Forall comp_ok parts -> Forall comp_ok (foldl add_part parts cs).
Proof.
  intros Hcs; revert parts; induction Hcs as [| c cs Hc _ IH]; intros parts Hp; simpl; [done |].
  by apply IH, add_part_ok.
Qed.

Lemma render_ok cs : Forall comp_ok cs -> is_cstr (render cs).
Proof.
  intros H; assert (is_cstr (slashed cs)); [| destruct cs; [repeat constructor | done]].
  unfold slashed; induction H as [| c cs [Hc _] _ IH]; simpl; [constructor |].
  constructor; [unfold SLASH; lia |]; by apply Forall_app_2.
Qed.

(** Whatever is dropped or cut, the output is an absolute path that fits. *)
Lemma resolve_path_shape cwd inp size :
  is_cstr (default (lit "/") cwd) -> is_cstr inp ->
  (length (default (lit "/") cwd) + length inp + 1 < PATH_TEMP)%nat -> 2 <= size ->
  exists out, vfs_resolve_path cwd inp size = Some out /\
    is_cstr out /\ head out = Some SLASH /\ zlen out < size.
Proof.
  intros Hd Hi Hl Hs; rewrite vfs_resolve_path_take, path_temp_full, path_parts_fold by (done || lia).
  set (ps := foldl _ _ _); assert (Hps : Forall comp_ok ps).
  { apply fold_add_ok; [by apply components_ok, skip_cstr, full_path_cstr | constructor]. }
  eexists; split; [done |]; split; [by apply is_cstr_take, render_ok |]; split.
  - replace (Z.to_nat (size - 1)) with (S (Z.to_nat (size - 2))) by lia; by destruct ps.
  - unfold zlen; rewrite length_take; lia.
Qed.

(** [SYS_CHDIR] keeps the current directory an absolute, terminated path of the
    field's 128 bytes, whatever path it is given, and moves only to the resolved
    path, and only when that is a directory. *)
Theorem chdir_keeps_cwd stat cwd k_path :
  cwd_ok cwd -> is_cstr k_path -> (length k_path < 128)%nat ->
  let '(cwd', rc) := sys_chdir stat cwd k_path in
  cwd_ok cwd' /\
  match vfs_resolve_path (Some cwd) k_path 128 with
  | Some r =>
    (stat r = Some VFS_TYPE_DIR /\ rc = 0 /\ cwd' = r) \/
    (stat r = None /\ rc = - ENOENT /\ cwd' = cwd) \/
    (exists t, stat r = Some t /\ t <> VFS_TYPE_DIR /\ rc = - ENOTDIR /\ cwd' = cwd)
  | None => False
  end.
Proof.
  intros (Hc & Hh & Hl) Hk Hkl.
  destruct (resolve_path_shape (Some cwd) k_path 128) as (r & Er & Hr & Hrh & Hrl);
    [done | done | simpl default; unfold PATH_TEMP; lia | lia |].
  unfold sys_chdir; rewrite Er; assert (length r < 128)%nat by (unfold zlen in Hrl; lia).
  destruct (stat r) as [t |] eqn:Es; [| by unfold cwd_ok; eauto 10].
  destruct (Z.eqb_spec t VFS_TYPE_DIR) as [-> |]; simpl negb; cbv iota beta; [| by unfold cwd_ok; eauto 12].
  rewrite strncpy_blank by lia; replace (128 - length r)%nat with (S (127 - length r)) by lia.
  cbn [replicate]; rewrite cstr_app_nul by done; unfold cwd_ok; auto.
Qed.

(** ** Witnesses *)

(** An order between concrete numbers. *)
Ltac num_eval := vm_compute; first [reflexivity | lia].

(** A decidable fact about concrete strings. *)
Ltac by_eval := unfold is_cstr; refine (bool_decide_eq_true_1 _ _); vm_compute; reflexivity.

Lemma home_path_names :
  rtc lex_step (components (full_path (Some (lit "/home/ann")) (lit "..//shared/./x/../b")))
    [lit "home"; lit "shared"; lit "b"].
Proof.
  change [lit "home"; lit "shared"; lit "b"]
    with (foldl lex_add [] (components (full_path (Some (lit "/home/ann")) (lit "..//shared/./x/../b")))).
  refine (proj1 (fold_lex_rewrites _ [] _ _)); [constructor |].
  apply components_ok, full_path_cstr; repeat constructor.
Qed.

Lemma resolve_path_normal_form_witness :
  exists parts, Forall plain parts /\
    vfs_resolve_path (Some (lit "/home/ann")) (lit "..//shared/./x/../b") 128
    = Some (take 127 (render parts)).
Proof.
  destruct (resolve_path_normal_form (Some (lit "/home/ann")) (lit "..//shared/./x/../b") 128)
    as (parts & _ & H & _ & E);
    [by_eval | by_eval | num_eval | num_eval | lia |].
  exists parts; split; [done |]; exact E.
Defined.

Lemma resolve_path_fixed_witness :
  vfs_resolve_path None (render [lit "etc"; lit "nexs"]) 128 = Some (lit "/etc/nexs").
Proof.
  apply (resolve_path_fixed None [lit "etc"; lit "nexs"] 128);
    [by_eval | num_eval | by_eval | num_eval | num_eval].
Defined.

Definition guest : process :=
  {| pid := 7; pname := lit "sh"; pstate := 1; level := PLVL_GUEST; caps := CAP_ALL;
     parent_pid := 1; owner_pid := 0; env := None |}.

Lemma write_authority_by_names_witness :
  exists resolved,
    vfs_resolve_path (Some (lit "/home/ann")) (lit "..//shared/./x/../b") 128 = Some resolved /\
    vfs_write_allowed (Some guest) resolved = 0.
Proof.
  apply (write_authority_by_names (Some guest) (Some (lit "/home/ann")) (lit "..//shared/./x/../b") 128
           [lit "home"; lit "shared"; lit "b"]);
    [by_eval | by_eval | num_eval | num_eval
    | exact home_path_names | by_eval | num_eval].
Defined.

Lemma chdir_keeps_cwd_witness :
  sys_chdir (fun _ => Some VFS_TYPE_DIR) (lit "/home") (lit "ann/..") = (lit "/home", 0) /\
  cwd_ok (fst (sys_chdir (fun _ => Some VFS_TYPE_DIR) (lit "/home") (lit "ann/.."))).
Proof.
  split; [by vm_compute |].
  apply (chdir_keeps_cwd (fun _ => Some VFS_TYPE_DIR) (lit "/home") (lit "ann/.."));
    [split; [by_eval | split; [done | num_eval]] | by_eval | num_eval].
Defined.

(** A component past the thirty-second is dropped, but a [..] after it is not:
    it undoes a name that was kept. *)
Example deep_path_climbs :
  let deep := repeat (lit "a") 32 in
  vfs_resolve_path None (render deep ++ lit "/x/..") 128 = Some (render (repeat (lit "a") 31)) /\
  foldl lex_add [] (components (render deep ++ lit "/x/..")) = deep.
Proof. by vm_compute. Qed.
