(* ===== verification/Vfs.v ===== *)
(** * The filesystem switch (kernel/fs/vfs.c)

    Registration of providers, the mount table, the choice of the root, routing
    of a path to a mount, and the dispatch of each operation to the provider.
    A provider is a record of optional functions, as [struct fs_ops] is of
    pointers; what providers read and change is a state of any type [W] that the
    dispatchers thread through.  A provider function gets the slot number of its
    mount and the mount's [fs_private].  [None] as the result of an operation is
    a call or access through a null pointer. *)
From Stdlib Require Import ZArith Lia String.
From stdpp Require Import base numbers list relations.
From S2P Require Import Prelude Gpt CString ProcTab VfsPath.

Definition EBUSY : Z := 16.
Definition ENOSYS : Z := 38.
Definition VFS_MAX_FS : nat := 4.
Definition VFS_MAX_MOUNTS : nat := 4.
Definition NEXS_ROLE_ROOT : Z := 5.
Definition OBJ_TYPE_FILE : Z := 1.
Definition OBJ_TYPE_PROCESS : Z := 2.

Record vfs_node := { n_mnt : option nat; n_id : Z; n_size : Z; n_type : Z }.
Record vfs_stat_buf := { st_size : Z; st_type : Z }.
Record vfs_objref := { obj_type : Z; o_pid : Z; window_id : Z; o_node : vfs_node }.

Definition node0 : vfs_node := {| n_mnt := None; n_id := 0; n_size := 0; n_type := 0 |}.

Record fs_ops {W : Type} := {
  op_name : str;
  op_mount : option (nat -> partition -> W -> W * (Z * Z));       (* rc, fs_private *)
  op_open : option (nat -> Z -> str -> vfs_node -> W -> W * (Z * vfs_node));
  op_read : option (vfs_node -> Z -> Z -> W -> W * (Z * list Z));
  op_write : option (nat -> Z -> str -> Z -> list Z -> Z -> W -> W * Z);
  op_list : option (nat -> Z -> str -> list Z -> Z -> W -> W * (Z * list Z));
  op_unlink : option (nat -> Z -> str -> W -> W * Z);
  op_create : option (nat -> Z -> str -> Z -> W -> W * Z);
  op_object_at : option (nat -> Z -> str -> vfs_objref -> W -> W * (Z * vfs_objref));
  op_umount : option (nat -> Z -> W -> W * Z)
}.
Arguments fs_ops : clear implicits.

Record vfs_mount {W : Type} := {
  ops : option (fs_ops W);
  fs_private : Z;
  mountpoint : option str;
  part_index : Z;
  in_use : bool;
  active_ops : Z
}.
Arguments vfs_mount : clear implicits.

(** [fs_drivers[0 .. fs_driver_count-1]] and [mounts]. *)
Record vfs {W : Type} := { fs_drivers : list (fs_ops W); mounts : list (vfs_mount W) }.
Arguments vfs : clear implicits.

Section vfs.
Context {W : Type}.
Implicit Types (v : vfs W) (w : W) (m : vfs_mount W) (o : fs_ops W).

Definition mount0 : vfs_mount W :=
  {| ops := None; fs_private := 0; mountpoint := None; part_index := 0; in_use := false; active_ops := 0 |}.

Definition vfs0 : vfs W := {| fs_drivers := []; mounts := replicate VFS_MAX_MOUNTS mount0 |}.

Definition slot v (i : nat) : vfs_mount W := default mount0 (mounts v !! i).

Definition set_slot v (i : nat) m : vfs W :=
  {| fs_drivers := fs_drivers v; mounts := <[i := m]> (mounts v) |}.

Definition with_ops m (o : option (fs_ops W)) : vfs_mount W :=
  {| ops := o; fs_private := fs_private m; mountpoint := mountpoint m; part_index := part_index m;
     in_use := in_use m; active_ops := active_ops m |}.

Definition with_active m (n : Z) : vfs_mount W :=
  {| ops := ops m; fs_private := fs_private m; mountpoint := mountpoint m; part_index := part_index m;
     in_use := in_use m; active_ops := n |}.

(** ** Registration and mounting *)

Definition vfs_register_fs v (o : option (fs_ops W)) : vfs W * Z :=
  match o with
  | Some o =>
    match op_mount o, op_open o, op_read o with
    | Some _, Some _, Some _ =>
      if (VFS_MAX_FS <=? length (fs_drivers v))%nat then (v, -1)
      else ({| fs_drivers := fs_drivers v ++ [o]; mounts := mounts v |}, 0)
    | _, _, _ => (v, -1)
    end
  | None => (v, -1)
  end.

(** The loop of [__vfs_try_mount_root] over the providers [ds]. *)
Fixpoint try_drivers (ds : list (fs_ops W)) v w (p : partition) (idx : Z) : option (vfs W * W * bool) :=
  match ds with
  | [] => Some (v, w, false)
  | d :: ds =>
    let m := slot v 0 in
    match op_mount d with
    | None => None
    | Some f =>
      let '(w, (rc, priv)) := f 0%nat p w in
      let m' := {| ops := Some d; fs_private := priv; mountpoint := Some (lit "/");
                   part_index := u32 idx; in_use := in_use m; active_ops := active_ops m |} in
      if rc =? 0 then
        Some (set_slot v 0 {| ops := ops m'; fs_private := fs_private m'; mountpoint := mountpoint m';
                              part_index := part_index m'; in_use := true;
                              active_ops := active_ops m' |}, w, true)
      else try_drivers ds (set_slot v 0 (with_ops m' None)) w p idx
    end
  end.

Definition vfs_try_mount_root v w (p : option partition) (idx : Z) : option (vfs W * W * bool) :=
  match p with
  | None => Some (v, w, false)
  | Some p => try_drivers (fs_drivers v) v w p idx
  end.

(** The fallback: partitions [ns] in table order. *)
Fixpoint scan_partitions v w (t : ptable) (ns : list Z) : option (vfs W * W) :=
  match ns with
  | [] => Some (v, w)
  | i :: ns =>
    match vfs_try_mount_root v w (gpt_get_partition t i) i with
    | None => None
    | Some (v, w, true) => Some (v, w)
    | Some (v, w, false) => scan_partitions v w t ns
    end
  end.

Definition vfs_init v w (t : ptable) : option (vfs W * W) :=
  match fs_drivers v with
  | [] => Some (v, w)
  | _ =>
    match partition_find_by_role t NEXS_ROLE_ROOT with
    | Some root => fst <$> vfs_try_mount_root v w (Some root) (i32 (pindex root))
    | None => scan_partitions v w t (seqZ 0 (num_partitions t))
    end
  end.

(** The first slot from 1 on that [P] holds of. *)
Definition find_from1 (P : vfs_mount W -> bool) v : option nat :=
  S ∘ fst <$> list_find (fun m => P m = true) (drop 1 (mounts v)).

Definition vfs_mount_at v (mp : option str) (o : option (fs_ops W)) (priv : Z) : vfs W * Z :=
  match mp, o with
  | Some mp, Some o =>
    match op_open o with
    | None => (v, -1)
    | Some _ =>
      match find_from1 (fun m => negb (in_use m)) v with
      | Some i =>
        (set_slot v i {| ops := Some o; fs_private := priv; mountpoint := Some mp; part_index := 0;
                         in_use := true; active_ops := 0 |}, 0)
      | None => (v, -1)
      end
    end
  | _, _ => (v, -1)
  end.

(** The slot test of [vfs_umount]: in use, at exactly this mountpoint. *)
Definition mounted_at (mp : str) m : bool :=
  in_use m && match mountpoint m with Some s => strcmp s mp =? 0 | None => false end.

(** The part of [vfs_umount] under [mounts_lock]: the retired copy with its slot,
    or the value to return. *)
Definition umount_locked v (mp : str) : vfs W * (Z + nat * vfs_mount W) :=
  match find_from1 (mounted_at mp) v with
  | None => (v, inl (-1))
  | Some i =>
    let m := slot v i in
    if negb (active_ops m =? 0) then (v, inl (- EBUSY))
    else (set_slot v i {| ops := None; fs_private := 0; mountpoint := None;
                          part_index := part_index m; in_use := false;
                          active_ops := active_ops m |}, inr (i, m))
  end.

Definition vfs_umount v w (mp : option str) : option (vfs W * W * Z) :=
  match mp with
  | None => Some (v, w, -1)
  | Some mp =>
    if strcmp mp (lit "/") =? 0 then Some (v, w, -1)
    else
      match umount_locked v mp with
      | (v, inl rc) => Some (v, w, rc)
      | (v, inr (i, m)) =>
        match ops m with
        | None => None
        | Some o =>
          let w := match op_umount o with Some f => fst (f i (fs_private m) w) | None => w end in
          Some (v, w, 0)
        end
      end
  end.

(** ** Routing *)

(** [match] for a mount at [mp]. *)
Definition mount_matches (mp path : str) : bool :=
  if (strlen mp =? 1) && (znth 0 mp 0 =? SLASH) then true
  else (strncmp path mp (length mp) =? 0) &&
       ((znth 0 path (strlen mp) =? SLASH) || (znth 0 path (strlen mp) =? 0)).

(** One round of the loop of [vfs_resolve]; [best] carries [best_len]. *)
Definition resolve_round (path : str) (best : option (nat * Z)) (im : nat * vfs_mount W) : option (nat * Z) :=
  let '(i, m) := im in
  match in_use m, mountpoint m with
  | true, Some mp =>
    if mount_matches mp path &&
       match best with None => true | Some (_, best_len) => best_len <=? strlen mp end
    then Some (i, strlen mp) else best
  | _, _ => best
  end.

Definition vfs_resolve v (path : str) : option nat * str :=
  match foldl (resolve_round path) None (imap pair (mounts v)) with
  | None => (None, path)
  | Some (i, best_len) =>
    if best_len <=? 1 then (Some i, path)
    else
      let rel := drop (Z.to_nat best_len) path in
      (Some i, match rel with [] => lit "/" | _ => rel end)
  end.

Definition vfs_acquire v (path : str) : vfs W * (option nat * str) :=
  match vfs_resolve v path with
  | (Some i, rel) => (set_slot v i (with_active (slot v i) (i32 (active_ops (slot v i) + 1))), (Some i, rel))
  | r => (v, r)
  end.

Definition vfs_release v (mnt : option nat) : vfs W :=
  match mnt with
  | Some i => set_slot v i (with_active (slot v i) (i32 (active_ops (slot v i) - 1)))
  | None => v
  end.

(** ** Dispatch *)

(** Acquire, run [call] on the provider, release; [none] when no mount is
    responsible.  The shape shared by the path operations. *)
Definition dispatch {A} v w (path : str) (none : A)
    (call : fs_ops W -> nat -> Z -> str -> W -> W * A) : option (vfs W * W * A) :=
  match vfs_acquire v path with
  | (v, (None, _)) => Some (v, w, none)
  | (v, (Some i, rel)) =>
    match ops (slot v i) with
    | None => None
    | Some o =>
      let '(w, a) := call o i (fs_private (slot v i)) rel w in
      Some (vfs_release v (Some i), w, a)
    end
  end.

Definition vfs_open v w (path : str) (out : vfs_node) : option (vfs W * W * (Z * vfs_node)) :=
  dispatch v w path (-1, out) (fun o i priv rel w =>
    match op_open o with Some f => f i priv rel out w | None => (w, (-1, out)) end).

(** Here a mount without [ops] is an error, not an access through null. *)
Definition vfs_resolve_object v w (path : str) (out : vfs_objref) : vfs W * W * (Z * vfs_objref) :=
  match vfs_acquire v path with
  | (v, (None, _)) => (v, w, (-1, out))
  | (v, (Some i, rel)) =>
    match ops (slot v i) with
    | None => (vfs_release v (Some i), w, (-1, out))
    | Some o =>
      let '(w, r) :=
        match op_object_at o with
        | Some f => f i (fs_private (slot v i)) rel out w
        | None =>
          match op_open o with
          | None => (w, (-1, out))
          | Some f =>
            let '(w, (rc, node)) := f i (fs_private (slot v i)) rel node0 w in
            if negb (rc =? 0) then (w, (-1, out))
            else (w, (if n_type node =? VFS_TYPE_DIR then -2 else 0,
                      {| obj_type := OBJ_TYPE_FILE; o_pid := o_pid out;
                         window_id := window_id out; o_node := node |}))
          end
        end in
      (vfs_release v (Some i), w, r)
    end
  end.

Definition vfs_read v w (node : vfs_node) (offset size : Z) : option (W * (Z * list Z)) :=
  match n_mnt node with
  | None => Some (w, (-1, []))
  | Some i =>
    match ops (slot v i) with
    | None => None
    | Some o =>
      match op_read o with
      | None => Some (w, (-1, []))
      | Some f => Some (f node offset size w)
      end
    end
  end.

(** [has_buf]: the caller gave a buffer. *)
Definition vfs_read_file v w (path : str) (has_buf : bool) (size offset : Z) :
    option (vfs W * W * (Z * list Z)) :=
  match vfs_open v w path node0 with
  | None => None
  | Some (v, w, (rc, node)) =>
    if negb (rc =? 0) then Some (v, w, (-1, []))
    else if negb has_buf || (size =? 0) then Some (v, w, (i32 (n_size node), []))
    else
      match vfs_read v w node offset size with
      | None => None
      | Some (w, r) => Some (v, w, r)
      end
  end.

Definition vfs_write_file v w (path : str) (buf : list Z) (size offset : Z) : option (vfs W * W * Z) :=
  dispatch v w path (-1) (fun o i priv rel w =>
    match op_write o with Some f => f i priv rel offset buf size w | None => (w, -1) end).

Definition vfs_unlink v w (path : str) : option (vfs W * W * Z) :=
  dispatch v w path (- ENOENT) (fun o i priv rel w =>
    match op_unlink o with Some f => f i priv rel w | None => (w, - ENOSYS) end).

Definition vfs_create v w (path : str) (type : Z) : option (vfs W * W * Z) :=
  dispatch v w path (- ENOENT) (fun o i priv rel w =>
    match op_create o with Some f => f i priv rel type w | None => (w, - ENOSYS) end).

Definition vfs_stat v w (path : str) : option (vfs W * W * (Z * option vfs_stat_buf)) :=
  match vfs_open v w path node0 with
  | None => None
  | Some (v, w, (rc, node)) =>
    if negb (rc =? 0) then Some (v, w, (-1, None))
    else Some (v, w, (0, Some {| st_size := n_size node; st_type := n_type node |}))
  end.

(** ** Listing *)

(** Offset of the last slash of [mp], or 0. *)
Fixpoint last_slash (mp : str) (i : nat) (acc : nat) : nat :=
  match mp with
  | [] => acc
  | c :: t => last_slash t (S i) (if c =? SLASH then i else acc)
  end.

(** The leaf, if [mp] sits directly inside [dir]. *)
Definition mount_child_of (mp dir : str) (leafsize : Z) : option str :=
  let lst := last_slash mp 0 0 in
  let inside :=
    if (lst =? 0)%nat then strcmp dir (lit "/") =? 0
    else strcmp (take (Nat.min lst 127) mp) dir =? 0 in
  if negb inside then None
  else
    match drop (S lst) mp with
    | [] => None
    | name => Some (strcopy leafsize name)
    end.

(** One round of the loop that appends child mounts; [inr] is the [break]. *)
Definition list_round (dir : str) (mnt : nat) (size : Z) (acc : (list Z * Z) + (list Z * Z))
    (im : nat * vfs_mount W) : (list Z * Z) + (list Z * Z) :=
  match acc with
  | inr r => inr r
  | inl (buf, off) =>
    let '(i, m) := im in
    match in_use m, mountpoint m with
    | true, Some mp =>
      if (i =? mnt)%nat then acc
      else
        match mount_child_of mp dir 64 with
        | None => acc
        | Some leaf =>
          let ll := strlen leaf in
          if size <=? off + ll + 2 then inr (buf, off)
          else
            let '(buf, off) :=
              if negb (off =? 0) && negb (znth 0 buf (off - 1) =? 32)
              then (zset buf off 32, off + 1) else (buf, off) in
            let buf := take (Z.to_nat off) buf ++ leaf ++ drop (Z.to_nat (off + ll)) buf in
            let off := off + ll in
            let buf := zset buf off 32 in
            let off := off + 1 in
            inl (zset buf off 0, off)
        end
    | _, _ => acc
    end
  end.

Definition append_mounts v (dir : str) (mnt : nat) (size : Z) (buf : list Z) (off : Z) : list Z * Z :=
  match foldl (list_round dir mnt size) (inl (buf, off)) (imap pair (mounts v)) with
  | inl r => r
  | inr r => r
  end.

Definition vfs_list_dir v w (path : str) (buf : list Z) (size : Z) : option (vfs W * W * (Z * list Z)) :=
  match vfs_acquire v path with
  | (v, (None, _)) => Some (v, w, (-1, buf))
  | (v, (Some i, rel)) =>
    match ops (slot v i) with
    | None => None
    | Some o =>
      match op_list o with
      | None => Some (vfs_release v (Some i), w, (-1, buf))
      | Some f =>
        let '(w, (res, buf)) := f i (fs_private (slot v i)) rel buf size w in
        let v := vfs_release v (Some i) in
        if res <? 0 then Some (v, w, (res, buf))
        else
          let '(buf, off) := append_mounts v path i size buf res in
          Some (v, w, (i32 off, buf))
      end
    end
  end.
End vfs.
