(* ===== verification/VfsTheorems.v ===== *)
(** * What the filesystem switch guarantees

    Routing goes to the longest mountpoint; a dispatched operation reaches the
    provider routing chose and leaves the mount table as it was; a mount is
    never retired under an operation, whatever the interleaving; the root is
    the partition with the root role, or the first mountable one; listings stay
    inside the caller's buffer. *)
From Stdlib Require Import ZArith Lia String.
From stdpp Require Import base numbers list relations.
From S2P Require Import Prelude Gpt CString ProcTab VfsPath Vfs.

Section vfs_proofs.
Context {W : Type}.
Implicit Types (v : vfs W) (w : W) (m : vfs_mount W) (o : fs_ops W).

(** A used slot has a provider and a canonical mountpoint. *)
Definition mount_ok m : Prop :=
  in_use m = true ->
  exists o ms, ops m = Some o /\ is_Some (op_open o) /\
    Forall plain ms /\ mountpoint m = Some (render ms).

Definition vfs_ok v : Prop :=
  length (mounts v) = VFS_MAX_MOUNTS /\ Forall mount_ok (mounts v) /\
  Forall (fun m => - 2 ^ 31 <= active_ops m < 2 ^ 31) (mounts v).

Lemma slot_lookup v i : (i < length (mounts v))%nat -> mounts v !! i = Some (slot v i).
Proof. intros H; unfold slot; destruct (lookup_lt_is_Some_2 _ _ H) as [m ->]; done. Qed.

Lemma slot_set v i j m :
  (i < length (mounts v))%nat -> slot (set_slot v i m) j = if decide (i = j) then m else slot v j.
Proof.
  intros H; unfold slot, set_slot; simpl; case_decide; subst;
    [by rewrite list_lookup_insert_eq | by rewrite list_lookup_insert_ne].
Qed.

(** ** Routing *)

(** A used slot whose mountpoint is a leading part of the names [cs]. *)
Definition serves v (i : nat) (ms cs : list str) : Prop :=
  exists m, mounts v !! i = Some m /\ in_use m = true /\ mountpoint m = Some (render ms) /\
    Forall plain ms /\ ms `prefix_of` cs.

Lemma slashed_length cs : Forall plain cs -> (2 * length cs <= length (slashed cs))%nat.
Proof.
  induction 1 as [| c cs Hc _ IH]; [done |].
  change (slashed (c :: cs)) with (SLASH :: c ++ slashed cs); cbn [length]; rewrite length_app.
  destruct Hc as (_ & _ & Hc & _); destruct c; [done |]; cbn [length]; lia.
Qed.

Lemma mount_matches_under ms cs :
  Forall plain ms -> Forall plain cs -> mount_matches (render ms) (render cs) = under ms cs.
Proof.
  intros Hm Hc; apply eq_true_iff_eq; unfold under, mount_matches; rewrite bool_decide_eq_true.
  destruct ms as [| x ms]; [simpl; split; [intros _; apply prefix_nil | done] |].
  pose proof (slashed_length (x :: ms) Hm) as Hl; cbn [render length] in *.
  set (mp := slashed (x :: ms)) in *; assert (Hcs := render_cstr cs Hc).
  assert (Hmp : is_cstr mp) by (by apply (render_cstr (x :: ms))).
  destruct (Z.eqb_spec (strlen mp) 1); [unfold strlen, zlen in *; lia |]; cbn [andb].
  rewrite <- (render_prefix (x :: ms) cs) by done; fold mp.
  rewrite andb_true_iff, orb_true_iff, !Z.eqb_eq, strncmp_prefix, take_prefix_of by done.
  split.
  - intros [[y Ey] Hn]; exists y; split; [done |]; rewrite Ey in Hn.
    unfold znth, strlen, zlen in Hn; destruct (Z.ltb_spec (Z.of_nat (length mp)) 0); [lia |].
    rewrite Nat2Z.id, lookup_app_r, Nat.sub_diag in Hn by lia.
    destruct y as [| c y]; [by left |]; right; simpl in Hn |- *; destruct Hn as [-> | ->]; [done |].
    rewrite Ey in Hcs; apply Forall_app in Hcs as [_ Hcs]; inversion Hcs; lia.
  - intros (y & Ey & Hy); split; [by exists y |]; rewrite Ey.
    unfold znth, strlen, zlen; destruct (Z.ltb_spec (Z.of_nat (length mp)) 0); [lia |].
    rewrite Nat2Z.id, lookup_app_r, Nat.sub_diag by lia.
    destruct Hy as [-> | Hy]; [by right |]; destruct y; [done |]; simpl in *; simplify_eq; by left.
Qed.

(** A slot the loop considers. *)
Definition candidate (path : str) (m : vfs_mount W) (len : Z) : Prop :=
  exists mp, in_use m = true /\ mountpoint m = Some mp /\ mount_matches mp path = true /\ len = strlen mp.

Lemma resolve_best path (L : list (nat * vfs_mount W)) :
  match foldl (resolve_round path) None L with
  | Some (i, len) =>
    (exists m, (i, m) ∈ L /\ candidate path m len) /\
    forall j m l, (j, m) ∈ L -> candidate path m l -> l <= len
  | None => forall j m l, (j, m) ∈ L -> ~ candidate path m l
  end.
Proof.
  induction L as [| [i m] L IH] using rev_ind; [intros j m l H; by apply not_elem_of_nil in H |].
  rewrite foldl_snoc; set (best := foldl _ None L) in *.
  assert (Hsnoc : forall j m' , (j, m') ∈ L ++ [(i, m)] -> (j, m') ∈ L \/ m' = m).
  { intros j m' [? | H%list_elem_of_singleton]%elem_of_app; [by left | right; congruence]. }
  assert (Hkeep : (forall l, ~ candidate path m l) \/
    (exists l, candidate path m l /\ match best with Some (_, b) => l < b | None => False end) ->
    match best with
    | Some (k, len) => (exists m', (k, m') ∈ L ++ [(i, m)] /\ candidate path m' len) /\
        forall j m' l, (j, m') ∈ L ++ [(i, m)] -> candidate path m' l -> l <= len
    | None => forall j m' l, (j, m') ∈ L ++ [(i, m)] -> ~ candidate path m' l
    end).
  { intros Hno; destruct best as [[k len] |].
    - destruct IH as [(m' & Hm' & Hc) Hmax]; split; [exists m'; split; [apply elem_of_app; by left | done] |].
      intros j m'' l [Hin | ->]%Hsnoc Hcand; [eauto |].
      destruct Hno as [Hno | (l' & (mp' & ? & E1 & ? & ->) & Hlt)]; [by destruct (Hno l) |].
      destruct Hcand as (mp & ? & E2 & ? & ->); rewrite E1 in E2; simplify_eq; lia.
    - intros j m'' l [Hin | ->]%Hsnoc Hcand; [by eapply IH |].
      destruct Hno as [Hno | (? & _ & [])]; by destruct (Hno l). }
  unfold resolve_round; destruct (in_use m) eqn:Eu, (mountpoint m) as [mp |] eqn:Em;
    try (apply Hkeep; left; intros l (? & ? & ? & ? & ?); congruence).
  destruct (mount_matches mp path) eqn:Ematch; cbn [andb];
    [| apply Hkeep; left; intros l (? & ? & ? & ? & ?); congruence].
  assert (Hcand : candidate path m (strlen mp)) by (by exists mp).
  destruct best as [[k len] |].
  - destruct (Z.leb_spec len (strlen mp)); [| apply Hkeep; right; eauto].
    destruct IH as [_ Hmax]; split; [exists m; split; [apply elem_of_app; right; by left | done] |].
    intros j m' l [Hin | ->]%Hsnoc Hc'; [specialize (Hmax j m' l Hin Hc'); lia |].
    destruct Hc' as (mp' & ? & E & ? & ->); simplify_eq; lia.
  - split; [exists m; split; [apply elem_of_app; right; by left | done] |].
    intros j m' l [Hin | ->]%Hsnoc Hc'; [by destruct (IH j m' l) |].
    destruct Hc' as (mp' & ? & E & ? & ->); simplify_eq; lia.
Qed.

Lemma elem_of_slots v i m : (i, m) ∈ imap pair (mounts v) <-> mounts v !! i = Some m.
Proof.
  rewrite elem_of_lookup_imap; split; [intros (j & x & E & H); simplify_eq; done | eauto].
Qed.

Lemma vfs_ok_mount v i m :
  vfs_ok v -> mounts v !! i = Some m -> mount_ok m.
Proof. intros (_ & H & _) E; by eapply Forall_lookup_1 in H. Qed.

Lemma candidate_serves v i cs m l :
  vfs_ok v -> Forall plain cs -> mounts v !! i = Some m -> candidate (render cs) m l ->
  exists ms, serves v i ms cs /\ l = strlen (render ms) /\ mountpoint m = Some (render ms).
Proof.
  intros Hv Hcs Hi (mp & Hu & Em & Hm & ->).
  destruct (vfs_ok_mount v i m Hv Hi Hu) as (o & ms & _ & _ & Hpl & Em'); rewrite Em in Em'; simplify_eq.
  rewrite mount_matches_under in Hm by done; apply bool_decide_eq_true in Hm.
  exists ms; split; [by exists m | done].
Qed.

Lemma serves_candidate v i ms cs :
  Forall plain cs -> serves v i ms cs ->
  exists m, mounts v !! i = Some m /\ candidate (render cs) m (strlen (render ms)).
Proof.
  intros Hcs (m & Hi & Hu & Em & Hpl & Hpre); exists m; split; [done |]; exists (render ms).
  rewrite mount_matches_under by done; repeat split; try done; by apply bool_decide_eq_true.
Qed.

Lemma slashed_app a b : slashed (a ++ b) = slashed a ++ slashed b.
Proof. unfold slashed; by rewrite fmap_app, concat_app. Qed.

(** Of two leading parts of a path, the one with fewer names is shorter. *)
Lemma render_longer ms ms' :
  Forall plain ms' -> ms `prefix_of` ms' -> ms <> ms' -> strlen (render ms) < strlen (render ms').
Proof.
  intros Hp [k ->] Hne; destruct k as [| c k]; [by rewrite app_nil_r in Hne |].
  apply Forall_app in Hp as [_ Hk]; pose proof (slashed_length _ Hk) as Hl; cbn [length] in Hl.
  unfold strlen, zlen; destruct ms as [| x ms]; [change (render ([] ++ c :: k)) with (slashed (c :: k)); cbn [render length]; lia |].
  change (render ((x :: ms) ++ c :: k)) with (slashed ((x :: ms) ++ c :: k)).
  change (render (x :: ms)) with (slashed (x :: ms)).
  rewrite slashed_app, length_app; lia.
Qed.

Lemma render_rest ms cs :
  ms <> [] -> drop (length (render ms)) (render (ms ++ cs)) = slashed cs.
Proof.
  destruct ms as [| x ms]; [done |]; intros _.
  change (render ((x :: ms) ++ cs)) with (slashed ((x :: ms) ++ cs)).
  change (render (x :: ms)) with (slashed (x :: ms)).
  rewrite slashed_app; apply drop_app_length.
Qed.

(** A path is served by the mount with the longest mountpoint that is a leading
    part of its names; the provider gets the path of the remaining names, the
    root's provider the whole path.  There is no mount only if none fits. *)
Theorem resolve_longest_mount v cs :
  vfs_ok v -> Forall plain cs ->
  match vfs_resolve v (render cs) with
  | (Some i, rel) =>
    exists ms, serves v i ms cs /\ rel = render (drop (length ms) cs) /\
      forall j ms', serves v j ms' cs -> (length ms' <= length ms)%nat
  | (None, _) => forall j ms, ~ serves v j ms cs
  end.
Proof.
  intros Hv Hcs; unfold vfs_resolve.
  pose proof (resolve_best (render cs) (imap pair (mounts v))) as Hb.
  destruct (foldl _ None _) as [[i len] |].
  2:{ intros j ms Hs; destruct (serves_candidate _ _ _ _ Hcs Hs) as (m & Hm & Hc).
      eapply Hb; [by apply elem_of_slots | done]. }
  destruct Hb as [(m & Hm & Hc) Hmax]; apply elem_of_slots in Hm.
  destruct (candidate_serves v i cs m len Hv Hcs Hm Hc) as (ms & Hs & -> & _).
  destruct Hs as (m' & Hs1 & Hs2 & Hs3 & Hpl & Hpre).
  assert (Hlong : forall j ms', serves v j ms' cs -> (length ms' <= length ms)%nat).
  { intros j ms' Hs'; destruct (serves_candidate _ _ _ _ Hcs Hs') as (mj & Hmj & Hcj).
    specialize (Hmax j mj _ ltac:(by apply elem_of_slots) Hcj).
    destruct Hs' as (? & _ & _ & _ & Hpl' & Hpre').
    destruct (decide (length ms' <= length ms)%nat) as [| Hgt]; [done |].
    destruct (prefix_weak_total ms ms' cs Hpre Hpre') as [H | H%prefix_length]; [| lia].
    pose proof (render_longer ms ms' Hpl' H ltac:(intros ->; lia)); lia. }
  assert (Hserve : serves v i ms cs) by (exists m'; auto).
  destruct Hpre as [k ->].
  destruct ms as [| x ms]; [simpl; by exists [] |].
  pose proof (slashed_length (x :: ms) Hpl) as Hl; cbn [length] in Hl.
  destruct (Z.leb_spec (strlen (render (x :: ms))) 1) as [Hle |]; [unfold strlen, zlen in Hle; cbn [render] in Hle; lia |].
  exists (x :: ms); split; [done |]; split; [| done]; rewrite drop_app_length.
  unfold strlen, zlen; rewrite Nat2Z.id, render_rest by done.
  destruct k as [| c k]; done.
Qed.

(** ** Dispatch *)

Lemma resolve_in_range v path i rel :
  vfs_resolve v path = (Some i, rel) -> exists m mp, mounts v !! i = Some m /\ in_use m = true /\ mountpoint m = Some mp.
Proof.
  unfold vfs_resolve; pose proof (resolve_best path (imap pair (mounts v))) as Hb.
  destruct (foldl _ None _) as [[k len] |]; [| done].
  destruct Hb as [(m & Hm%elem_of_slots & mp & Hu & Em & _) _]; case_if; intros; simplify_eq; eauto.
Qed.

(** Taking and giving back a pin leaves the table as it was. *)
Lemma release_acquire v i m :
  mounts v !! i = Some m -> - 2 ^ 31 <= active_ops m < 2 ^ 31 ->
  vfs_release (set_slot v i (with_active (slot v i) (i32 (active_ops (slot v i) + 1)))) (Some i) = v.
Proof.
  intros Hi Hr; assert (Hl := lookup_lt_Some _ _ _ Hi).
  unfold vfs_release; rewrite slot_set, decide_True by done.
  unfold slot; rewrite Hi; simpl; destruct v as [ds ms]; unfold set_slot; simpl in *; f_equal.
  rewrite list_insert_insert_eq; apply list_insert_id; rewrite Hi; f_equal.
  unfold with_active; simpl; destruct m as [? ? ? ? ? a]; simpl in *; f_equal.
  unfold i32; destruct (Z.eq_dec a (2 ^ 31 - 1)) as [-> |]; [by vm_compute |].
  rewrite (Z.mod_small (a + 1 + 2 ^ 31)) by lia; rewrite Z.mod_small by lia; lia.
Qed.

Lemma dispatch_spec {A} v w path (none : A) call :
  vfs_ok v ->
  match vfs_resolve v path with
  | (None, _) => dispatch v w path none call = Some (v, w, none)
  | (Some i, rel) => exists o, ops (slot v i) = Some o /\
      dispatch v w path none call =
      let '(w', a) := call o i (fs_private (slot v i)) rel w in Some (v, w', a)
  end.
Proof.
  intros Hv; unfold dispatch, vfs_acquire.
  destruct (vfs_resolve v path) as [[i |] rel] eqn:Er; [| done].
  destruct (resolve_in_range _ _ _ _ Er) as (m & mp & Hi & Hu & _).
  destruct (vfs_ok_mount v i m Hv Hi Hu) as (o & ms & Ho & _).
  assert (Es : slot v i = m) by (unfold slot; by rewrite Hi).
  assert (Hr : - 2 ^ 31 <= active_ops m < 2 ^ 31).
  { destruct Hv as (_ & _ & H); eapply Forall_lookup_1 in H; [exact H | done]. }
  pose proof (release_acquire v i m Hi Hr) as Hrel.
  rewrite slot_set, decide_True by (done || by eapply lookup_lt_Some).
  rewrite Es in *; exists o; split; [done |]; cbn [with_active ops fs_private]; rewrite Ho.
  destruct (call o i (fs_private m) rel w) as [w' a]; by rewrite Hrel.
Qed.

(** Each path operation runs the operation of the provider that routing chose,
    on the path relative to its mount, and leaves the mount table as it was; it
    never goes through a null pointer, and without a mount, or with a provider
    that lacks the operation, it returns the documented error. *)
Theorem operations_reach_provider v w path :
  vfs_ok v ->
  match vfs_resolve v path with
  | (None, _) =>
    (forall out, vfs_open v w path out = Some (v, w, (-1, out))) /\
    (forall buf size off, vfs_write_file v w path buf size off = Some (v, w, -1)) /\
    vfs_unlink v w path = Some (v, w, - ENOENT) /\
    (forall type, vfs_create v w path type = Some (v, w, - ENOENT))
  | (Some i, rel) => exists o, ops (slot v i) = Some o /\ let priv := fs_private (slot v i) in
    (forall f out, op_open o = Some f ->
       vfs_open v w path out = let '(w', r) := f i priv rel out w in Some (v, w', r)) /\
    (forall buf size off, vfs_write_file v w path buf size off =
       match op_write o with
       | Some f => let '(w', rc) := f i priv rel off buf size w in Some (v, w', rc)
       | None => Some (v, w, -1)
       end) /\
    vfs_unlink v w path =
      match op_unlink o with
      | Some f => let '(w', rc) := f i priv rel w in Some (v, w', rc)
      | None => Some (v, w, - ENOSYS)
      end /\
    (forall type, vfs_create v w path type =
       match op_create o with
       | Some f => let '(w', rc) := f i priv rel type w in Some (v, w', rc)
       | None => Some (v, w, - ENOSYS)
       end)
  end.
Proof.
  intros Hv; unfold vfs_open, vfs_write_file, vfs_unlink, vfs_create.
  destruct (vfs_resolve v path) as [[i |] rel] eqn:Er.
  2:{ repeat split; intros; match goal with |- dispatch v w path ?n ?c = _ =>
        pose proof (dispatch_spec v w path n c Hv) as H; rewrite Er in H; exact H end. }
  destruct (resolve_in_range _ _ _ _ Er) as (m & mp & Hi & Hu & _).
  destruct (vfs_ok_mount v i m Hv Hi Hu) as (o & ms & Ho & _).
  assert (Es : slot v i = m) by (unfold slot; by rewrite Hi).
  exists o; rewrite Es; split; [done |]; cbv zeta; repeat split; intros;
    match goal with |- dispatch v w path ?n ?c = _ =>
      pose proof (dispatch_spec v w path n c Hv) as Hd; rewrite Er, Es in Hd;
      destruct Hd as (o' & Ho' & ->); rewrite Ho in Ho'; simplify_eq; simpl
    end; repeat case_match; congruence.
Qed.

(** ** Unmounting and operations in flight

    Threads interleave the sections that run under [mounts_lock], and the
    atomic release.  A thread between its acquire and its release holds a slot
    and, for the statement only, the mount it found there. *)
Abbreviation threads := (list (option (nat * vfs_mount W))).

Inductive vfs_step : vfs W * threads -> vfs W * threads -> Prop :=
| step_acquire v ths k path v' i rel :
    ths !! k = Some None -> vfs_acquire v path = (v', (Some i, rel)) ->
    vfs_step (v, ths) (v', <[k := Some (i, slot v i)]> ths)
| step_release v ths k i m :
    ths !! k = Some (Some (i, m)) ->
    vfs_step (v, ths) (vfs_release v (Some i), <[k := None]> ths)
| step_umount v ths mp :
    vfs_step (v, ths) (fst (umount_locked v mp), ths)
| step_mount_at v ths mp (o : option (fs_ops W)) priv :
    vfs_step (v, ths) (fst (vfs_mount_at v mp o priv), ths).

Definition holds (i : nat) (t : option (nat * vfs_mount W)) : bool :=
  match t with Some (j, _) => (i =? j)%nat | None => false end.

(** How many threads hold slot [i]. *)
Fixpoint pins (i : nat) (ths : threads) : Z :=
  match ths with
  | [] => 0
  | t :: r => (if holds i t then 1 else 0) + pins i r
  end.

Lemma pins_bounds i ths : 0 <= pins i ths <= zlen ths.
Proof.
  unfold zlen; induction ths as [| t r IH]; simpl; [lia |]; destruct (holds i t); lia.
Qed.

Lemma pins_insert i ths k old new :
  ths !! k = Some old ->
  pins i (<[k := new]> ths)
  = pins i ths - (if holds i old then 1 else 0) + (if holds i new then 1 else 0).
Proof.
  revert k; induction ths as [| t r IH]; intros [| k] E; simplify_eq/=; [lia |].
  rewrite (IH k) by done; lia.
Qed.

Lemma pins_pos i m ths k : ths !! k = Some (Some (i, m)) -> 0 < pins i ths.
Proof.
  intros E; pose proof (pins_insert i ths k _ None E) as H; simpl in H; rewrite Nat.eqb_refl in H.
  pose proof (pins_bounds i (<[k := None]> ths)); lia.
Qed.

(** The same mount: its provider, state and place. *)
Definition same_mount (m m' : vfs_mount W) : Prop :=
  ops m = ops m' /\ fs_private m = fs_private m' /\ mountpoint m = mountpoint m' /\
  in_use m = true /\ in_use m' = true.

Definition pin_inv (s : vfs W * threads) : Prop :=
  let '(v, ths) := s in
  length (mounts v) = VFS_MAX_MOUNTS /\ zlen ths < 2 ^ 31 /\
  (forall i, (i < VFS_MAX_MOUNTS)%nat -> active_ops (slot v i) = pins i ths) /\
  (forall k i m, ths !! k = Some (Some (i, m)) -> (i < VFS_MAX_MOUNTS)%nat /\ same_mount m (slot v i)).

Lemma find_from1_spec (P : vfs_mount W -> bool) v i :
  find_from1 P v = Some i -> (0 < i < length (mounts v))%nat /\ P (slot v i) = true.
Proof.
  unfold find_from1; intros E; apply fmap_Some in E as ([j m] & (Hj & HP & _)%list_find_Some & ->); simpl.
  rewrite lookup_drop in Hj; pose proof (lookup_lt_Some _ _ _ Hj); split; [lia |].
  unfold slot; replace (S j) with (1 + j)%nat by lia; by rewrite Hj.
Qed.

Lemma pin_inv_acquire v ths k path v' i rel :
  pin_inv (v, ths) -> ths !! k = Some None -> vfs_acquire v path = (v', (Some i, rel)) ->
  pin_inv (v', <[k := Some (i, slot v i)]> ths).
Proof.
  intros (Hl & Hn & Hc & Hp) Hk; unfold vfs_acquire.
  destruct (vfs_resolve v path) as [[j |] r] eqn:Er; intros; simplify_eq.
  destruct (resolve_in_range _ _ _ _ Er) as (m & mp & Hi & Hu & _).
  assert (Hlt := lookup_lt_Some _ _ _ Hi); assert (Es : slot v i = m) by (unfold slot; by rewrite Hi).
  assert (Hlen : zlen (<[k := Some (i, slot v i)]> ths) = zlen ths) by (unfold zlen; by rewrite length_insert).
  split; [by unfold set_slot; simpl; rewrite length_insert |]; split; [by rewrite Hlen |]; split.
  - intros j Hj; rewrite slot_set, (pins_insert _ _ _ _ _ Hk) by done; simpl holds; rewrite (Hc i) by lia.
    destruct (decide (i = j)) as [<- | Hne].
    + rewrite Nat.eqb_refl; simpl; pose proof (pins_bounds i ths).
      pose proof (pins_bounds i (<[k := Some (i, slot v i)]> ths)) as B; rewrite Hlen in B.
      rewrite (pins_insert _ _ _ _ _ Hk) in B; simpl in B; rewrite Nat.eqb_refl in B.
      rewrite i32_small; lia.
    + destruct (Nat.eqb_spec j i); [congruence |]; rewrite Hc by done; lia.
  - intros k' j m' E; rewrite list_lookup_insert_Some in E; destruct E as [(<- & [= <- <-] & _) | (_ & E)].
    + split; [lia |]; rewrite slot_set, decide_True by done; rewrite Es; unfold same_mount; simpl; auto.
    + destruct (Hp k' j m' E) as [Hj Hs]; split; [done |]; rewrite slot_set by done.
      case_decide; subst; [by unfold same_mount in *; simpl | done].
Qed.

Lemma pin_inv_release v ths k i m :
  pin_inv (v, ths) -> ths !! k = Some (Some (i, m)) ->
  pin_inv (vfs_release v (Some i), <[k := None]> ths).
Proof.
  intros (Hl & Hn & Hc & Hp) Hk; destruct (Hp _ _ _ Hk) as [Hi _].
  assert (Hlt : (i < length (mounts v))%nat) by lia.
  assert (Hlen : zlen (<[k := None]> ths) = zlen ths) by (unfold zlen; by rewrite length_insert).
  split; [by simpl; rewrite length_insert |]; split; [by rewrite Hlen |]; unfold vfs_release; split.
  - intros j Hj; rewrite slot_set, (pins_insert _ _ _ _ _ Hk) by done; simpl holds; rewrite (Hc i) by lia.
    destruct (decide (i = j)) as [<- | Hne].
    + rewrite Nat.eqb_refl; simpl; pose proof (pins_bounds i ths); pose proof (pins_pos _ _ _ _ Hk).
      rewrite i32_small; lia.
    + destruct (Nat.eqb_spec j i); [congruence |]; rewrite Hc by done; lia.
  - intros k' j m' E; rewrite list_lookup_insert_Some in E; destruct E as [(_ & [=] & _) | (_ & E)].
    destruct (Hp k' j m' E) as [Hj Hs]; split; [done |]; rewrite slot_set by done.
    case_decide; subst; [by unfold same_mount in *; simpl | done].
Qed.

(** Replacing a slot nobody holds. *)
Lemma pin_inv_set v ths i m :
  pin_inv (v, ths) -> (i < length (mounts v))%nat -> pins i ths = 0 -> active_ops m = 0 ->
  pin_inv (set_slot v i m, ths).
Proof.
  intros (Hl & Hn & Hc & Hp) Hlt H0 Hm; split; [by simpl; rewrite length_insert |]; split; [done |]; split.
  - intros j Hj; rewrite slot_set by done; case_decide; subst; [lia | by apply Hc].
  - intros k j m' E; destruct (Hp k j m' E) as [Hj Hs]; split; [done |]; rewrite slot_set by done.
    case_decide; subst; [| done]; pose proof (pins_pos _ _ _ _ E); lia.
Qed.

Lemma pin_inv_unused v ths i :
  pin_inv (v, ths) -> in_use (slot v i) = false -> pins i ths = 0.
Proof.
  intros (_ & _ & _ & Hp) Hu; clear - Hp Hu; pose proof (pins_bounds i ths) as B.
  destruct (Z.eq_dec (pins i ths) 0) as [| Hne]; [done | exfalso].
  assert (exists k m, ths !! k = Some (Some (i, m))) as (k & m & E).
  { clear - Hne; induction ths as [| t r IH]; simpl in Hne; [done |].
    destruct (holds i t) eqn:Eh.
    - destruct t as [[j m] |]; [| done]; simpl in Eh; apply Nat.eqb_eq in Eh as ->; by exists 0%nat, m.
    - destruct IH as (k & m & E); [lia |]; by exists (S k), m. }
  destruct (Hp k i m E) as [_ (_ & _ & _ & _ & ?)]; congruence.
Qed.

Lemma pin_inv_step s s' : pin_inv s -> vfs_step s s' -> pin_inv s'.
Proof.
  intros Hinv Hs; destruct Hs as [v ths k path v' i rel Hk Ha | v ths k i m Hk | v ths mp | v ths mp o priv].
  - by eapply pin_inv_acquire.
  - by eapply pin_inv_release.
  - unfold umount_locked; destruct (find_from1 _ v) as [i |] eqn:Ef; [| done].
    destruct (find_from1_spec _ _ _ Ef) as [Hi _]; destruct (Z.eqb_spec (active_ops (slot v i)) 0) as [E0 |]; [| done].
    simpl; apply pin_inv_set; [done | lia | | done].
    destruct Hinv as (Hl & _ & Hc & _); rewrite <- Hc by lia; done.
  - unfold vfs_mount_at; destruct mp, o as [o |]; try done; destruct (op_open o); [| done].
    destruct (find_from1 _ v) as [i |] eqn:Ef; [| done].
    destruct (find_from1_spec _ _ _ Ef) as [Hi Hu%negb_true_iff].
    simpl; apply pin_inv_set; [done | lia | by eapply pin_inv_unused | done].
Qed.

Lemma pin_inv_reach s s' : pin_inv s -> rtc vfs_step s s' -> pin_inv s'.
Proof. intros H; induction 1; eauto using pin_inv_step. Qed.

(** What the system call makes of the locked part. *)
Lemma umount_by_pins v w mp ths :
  length (mounts v) = VFS_MAX_MOUNTS ->
  (forall j, find_from1 (mounted_at mp) v = Some j ->
    snd (umount_locked v mp) = if pins j ths =? 0 then inr (j, slot v j) else inl (- EBUSY)) ->
  match (if strcmp mp (lit "/") =? 0 then None else find_from1 (mounted_at mp) v) with
  | None => vfs_umount v w (Some mp) = Some (v, w, -1)
  | Some j =>
    if pins j ths =? 0 then ops (slot v j) <> None -> exists v' w', vfs_umount v w (Some mp) = Some (v', w', 0) /\ in_use (slot v' j) = false
    else vfs_umount v w (Some mp) = Some (v, w, - EBUSY)
  end.
Proof.
  intros Hl Hum; unfold vfs_umount; destruct (strcmp mp (lit "/") =? 0); [done |].
  unfold umount_locked in *; destruct (find_from1 (mounted_at mp) v) as [j |] eqn:Ef; [| done].
  destruct (find_from1_spec _ _ _ Ef) as [Hj _]; specialize (Hum j eq_refl); destruct (negb _), (pins j ths =? 0); try done.
  intros Ho; destruct (ops (slot v j)) as [o |]; [| done]; do 2 eexists; split; [done |].
  rewrite slot_set by lia; by rewrite decide_True.
Qed.

End vfs_proofs.

(** ** The choice of the root *)

Section root.
Context {W : Type} (accepts : fs_ops W -> partition -> bool).
Implicit Types (v : vfs W) (w : W) (d : fs_ops W).

(** Whether a provider takes a partition depends on the partition only. *)
Definition probes_partition d : Prop :=
  exists f, op_mount d = Some f /\ forall p w, (fst (snd (f 0%nat p w)) =? 0) = accepts d p.

(** The first provider that takes [p]. *)
Definition first_driver (ds : list (fs_ops W)) (p : partition) : option (fs_ops W) :=
  snd <$> list_find (fun d => accepts d p = true) ds.

Fixpoint first_mountable (ds : list (fs_ops W)) (t : ptable) (ns : list Z) : option (fs_ops W * Z) :=
  match ns with
  | [] => None
  | i :: ns =>
    match p ← gpt_get_partition t i; first_driver ds p with
    | Some d => Some (d, i)
    | None => first_mountable ds t ns
    end
  end.

(** The provider and partition number that should become the root. *)
Definition root_choice (ds : list (fs_ops W)) (t : ptable) : option (fs_ops W * Z) :=
  match partition_find_by_role t NEXS_ROLE_ROOT with
  | Some root => (fun d => (d, i32 (pindex root))) <$> first_driver ds root
  | None => first_mountable ds t (seqZ 0 (num_partitions t))
  end.

(** Slot 0 holds the root [r]; the rest of the table is that of [v]. *)
Definition rooted v v' (r : option (fs_ops W * Z)) : Prop :=
  fs_drivers v' = fs_drivers v /\ length (mounts v') = length (mounts v) /\
  (forall j, j <> 0%nat -> slot v' j = slot v j) /\
  match r with
  | Some (d, i) => ops (slot v' 0) = Some d /\ part_index (slot v' 0) = u32 i /\
      mountpoint (slot v' 0) = Some (lit "/") /\ in_use (slot v' 0) = true
  | None => in_use (slot v' 0) = in_use (slot v 0)
  end.

Lemma rooted_trans v1 v2 v3 r : rooted v1 v2 None -> rooted v2 v3 r -> rooted v1 v3 r.
Proof.
  intros (A1 & A2 & A3 & A4) (B1 & B2 & B3 & B4); split; [congruence |]; split; [congruence |]; split.
  - intros j Hj; rewrite B3, A3 by done; done.
  - destruct r as [[d i] |]; [done | congruence].
Qed.

Lemma rooted_set v m r :
  (0 < length (mounts v))%nat ->
  match r with
  | Some (d, i) => ops m = Some d /\ part_index m = u32 i /\ mountpoint m = Some (lit "/") /\ in_use m = true
  | None => in_use m = in_use (slot v 0)
  end -> rooted v (set_slot v 0 m) r.
Proof.
  intros Hl Hm; split; [done |]; split; [by simpl; rewrite length_insert |]; split.
  - intros j Hj; rewrite slot_set, decide_False by done; done.
  - by rewrite slot_set, decide_True by done.
Qed.

Lemma try_drivers_spec ds v w p idx :
  (0 < length (mounts v))%nat -> Forall probes_partition ds ->
  exists v' w', try_drivers ds v w p idx = Some (v', w', bool_decide (is_Some (first_driver ds p))) /\
    rooted v v' ((fun d => (d, idx)) <$> first_driver ds p).
Proof.
  intros Hl Hds; revert v w Hl; induction Hds as [| d ds (f & Ef & Hf) _ IH]; intros v w Hl; cbn [try_drivers].
  { exists v, w; split; [done |]; repeat split. }
  rewrite Ef; specialize (Hf p w); destruct (f 0%nat p w) as [w1 [rc priv]]; simpl in Hf; rewrite Hf.
  unfold first_driver; cbn [list_find]; destruct (accepts d p) eqn:Ea.
  - rewrite decide_True by done; do 2 eexists; split; [by rewrite bool_decide_eq_true_2 by (by eexists) |].
    by apply rooted_set.
  - rewrite decide_False by done; set (v1 := set_slot v 0 _).
    assert (R : rooted v v1 None) by (by apply rooted_set).
    destruct (IH v1 w1) as (v2 & w2 & E & R2); [destruct R as (_ & -> & _); done |].
    assert (Efd : snd <$> (prod_map S id <$> list_find (fun d => accepts d p = true) ds) = first_driver ds p).
    { unfold first_driver; by destruct (list_find _ ds) as [[] |]. }
    rewrite Efd; exists v2, w2; split; [done |]; by eapply rooted_trans.
Qed.

Lemma scan_partitions_spec t ns v w :
  (0 < length (mounts v))%nat -> Forall probes_partition (fs_drivers v) ->
  exists v' w', scan_partitions v w t ns = Some (v', w') /\
    rooted v v' (first_mountable (fs_drivers v) t ns).
Proof.
  revert v w; induction ns as [| i ns IH]; intros v w Hl Hd; cbn [scan_partitions first_mountable].
  { exists v, w; split; [done |]; repeat split. }
  unfold vfs_try_mount_root; destruct (gpt_get_partition t i) as [p |]; [| by apply IH]; cbn [mbind option_bind].
  destruct (try_drivers_spec (fs_drivers v) v w p i Hl Hd) as (v1 & w1 & -> & R).
  destruct (first_driver (fs_drivers v) p) as [d |]; [by exists v1, w1 |].
  cbn [bool_decide fmap option_fmap option_map] in *; assert (R' := R); destruct R' as (Ed & El & _).
  destruct (IH v1 w1) as (v2 & w2 & E & R2); [by rewrite El | by rewrite Ed |]; rewrite Ed in R2.
  exists v2, w2; split; [done |]; by eapply rooted_trans.
Qed.

(** [vfs_init] mounts as the root the partition that declares the root role, by
    the first provider that takes it, and nothing when none does; only without
    such a partition is it the first partition, in table order, that some
    provider takes.  It never calls through a null pointer and leaves the other
    slots alone. *)
Theorem vfs_init_mounts_root v w t :
  (0 < length (mounts v))%nat -> Forall probes_partition (fs_drivers v) ->
  exists v' w', vfs_init v w t = Some (v', w') /\ rooted v v' (root_choice (fs_drivers v) t).
Proof.
  intros Hl Hd; unfold vfs_init, root_choice.
  destruct (fs_drivers v) as [| d0 ds] eqn:Eds.
  { exists v, w; split; [done |].
    assert (Hn : forall ns, first_mountable [] t ns = None).
    { induction ns as [| i ns IH]; [done |]; simpl; by destruct (gpt_get_partition t i). }
    destruct (partition_find_by_role t NEXS_ROLE_ROOT); rewrite ?Hn; repeat split. }
  rewrite <- Eds in *; destruct (partition_find_by_role t NEXS_ROLE_ROOT) as [root |]; [| by apply scan_partitions_spec].
  destruct (try_drivers_spec (fs_drivers v) v w root (i32 (pindex root)) Hl Hd) as (v1 & w1 & E & R).
  exists v1, w1; unfold vfs_try_mount_root; by rewrite E.
Qed.
End root.

(** ** Listings *)

Section listing.
Context {W : Type}.
Implicit Types (v : vfs W).

(** The names of the mounts directly inside [dir], but the one in slot [mnt]. *)
Definition child_leaf (dir : str) (mnt : nat) (im : nat * vfs_mount W) : option str :=
  let '(i, m) := im in
  if in_use m && negb (i =? mnt)%nat then mp ← mountpoint m; mount_child_of mp dir 64 else None.

(** Names added to a listing while they fit, each followed by a space. *)
Fixpoint add_names (size : Z) (s : str) (leaves : list str) : str :=
  match leaves with
  | [] => s
  | l :: ls =>
    if size <=? zlen s + strlen l + 2 then s
    else
      let s := match last s with Some c => if c =? 32 then s else s ++ [32] | None => s end in
      add_names size (s ++ l ++ [32]) ls
  end.

(** [buf], of [size] bytes, holds the listing [s] and a terminator after it. *)
Definition lists (size : Z) (buf : list Z) (off : Z) (s : str) : Prop :=
  exists rest, buf = s ++ rest /\ off = zlen s /\ zlen buf = size /\ off < size.

Lemma zset_app (s rest : list Z) x c : zset (s ++ c :: rest) (zlen s) x = s ++ x :: rest.
Proof.
  unfold zset, zlen; destruct (Z.ltb_spec (Z.of_nat (length s)) 0); [lia |].
  rewrite Nat2Z.id, insert_app_r_alt, Nat.sub_diag by lia; done.
Qed.

Lemma last_znth (s rest : list Z) :
  s <> [] -> znth 0 (s ++ rest) (zlen s - 1) = default 0 (last s).
Proof.
  intros Hs; unfold znth, zlen; assert (0 < length s)%nat by (destruct s; [done | simpl; lia]).
  destruct (Z.ltb_spec (Z.of_nat (length s) - 1) 0); [lia |].
  rewrite lookup_app_l by lia; rewrite last_lookup; f_equal; f_equal; lia.
Qed.

(** Writing one byte at the end of the listing. *)
Lemma lists_push size buf off s c :
  lists size buf off s -> off + 1 < size -> lists size (zset buf off c) (off + 1) (s ++ [c]).
Proof.
  intros (rest & -> & -> & Hl & Ho) H1; unfold lists; destruct rest as [| x rest].
  { rewrite app_nil_r in Hl; lia. }
  rewrite zset_app; exists rest; rewrite <- app_assoc; unfold zlen in *; rewrite !length_app in *; simpl in *.
  repeat split; lia.
Qed.

Lemma lists_name size buf off s l :
  lists size buf off s -> off + strlen l < size ->
  lists size (take (Z.to_nat off) buf ++ l ++ drop (Z.to_nat (off + strlen l)) buf) (off + strlen l) (s ++ l).
Proof.
  intros (rest & -> & -> & Hl & Ho) H1; unfold lists, strlen, zlen in *; rewrite length_app in Hl.
  rewrite Nat2Z.id, take_app_length.
  replace (Z.to_nat (Z.of_nat (length s) + Z.of_nat (length l))) with (length s + length l)%nat by lia.
  rewrite drop_app_ge by lia; replace (length s + length l - length s)%nat with (length l) by lia.
  exists (drop (length l) rest); rewrite <- app_assoc; split; [done |].
  rewrite !length_app, length_drop; split; lia.
Qed.

Lemma lists_nul size buf off s : lists size buf off s -> lists size (zset buf off 0) off s.
Proof.
  intros (rest & -> & -> & Hl & Ho); unfold lists; destruct rest as [| x rest].
  { rewrite app_nil_r in Hl; lia. }
  rewrite zset_app; exists (0 :: rest); unfold zlen in *; rewrite !length_app in *; simpl in *; repeat split; lia.
Qed.

Lemma list_round_spec dir mnt size im buf off s :
  lists size buf off s ->
  match child_leaf dir mnt im with
  | None => list_round dir mnt size (inl (buf, off)) im = inl (buf, off)
  | Some l =>
    if size <=? zlen s + strlen l + 2 then list_round dir mnt size (inl (buf, off)) im = inr (buf, off)
    else exists buf' off', list_round dir mnt size (inl (buf, off)) im = inl (buf', off') /\
      lists size buf' off'
        ((match last s with Some c => if c =? 32 then s else s ++ [32] | None => s end) ++ l ++ [32])
  end.
Proof.
  intros Hs; destruct im as [i m]; unfold child_leaf, list_round.
  destruct (in_use m); cbn [andb]; [| done]; destruct (mountpoint m) as [mp |]; cbn [mbind option_bind];
    [| by destruct (i =? mnt)%nat].
  destruct (i =? mnt)%nat; cbn [negb]; [done |]; destruct (mount_child_of mp dir 64) as [l |]; [| done].
  assert (Ho : off = zlen s) by (destruct Hs as (? & _ & ? & _); done).
  rewrite <- Ho; destruct (Z.leb_spec size (off + strlen l + 2)) as [| Hfit]; [done |].
  pose proof (zlen_nonneg l) as Hl; unfold strlen in *.
  assert (Hpad : exists b o, (if negb (off =? 0) && negb (znth 0 buf (off - 1) =? 32)
      then (zset buf off 32, off + 1) else (buf, off)) = (b, o) /\ o + zlen l + 1 < size /\
      lists size b o (match last s with Some c => if c =? 32 then s else s ++ [32] | None => s end)).
  { destruct (last s) as [c |] eqn:El.
    - assert (Hne : s <> []) by (intros ->; done).
      assert (0 < off) by (subst off; unfold zlen; destruct s; [done | simpl; lia]).
      destruct (Z.eqb_spec off 0); [lia |]; cbn [negb andb].
      assert (Hz : znth 0 buf (off - 1) = c).
      { destruct Hs as (rest & -> & -> & _); rewrite last_znth, El by done; done. }
      rewrite Hz; destruct (c =? 32); cbn [negb].
      + exists buf, off; split; [done |]; split; [lia | done].
      + exists (zset buf off 32), (off + 1); split; [done |]; split; [lia |]; apply lists_push; [done | lia].
    - apply last_None in El; subst s; change (zlen []) with 0 in Ho; subst off.
      exists buf, 0; split; [done |]; split; [lia | done]. }
  destruct Hpad as (b & o & -> & Hb & Hlb).
  do 2 eexists; split; [done |]; apply lists_nul.
  rewrite (app_assoc _ l [32]); apply lists_push; [apply lists_name; [done | unfold strlen; lia] | unfold strlen; lia].
Qed.

(** The mounts inside a directory are added to its listing.  When the provider
    returned a listing shorter than the buffer, the result holds that listing
    followed by the names of the mounts that sit directly inside the directory,
    in slot order and separated by spaces, as many as fit; nothing is written
    past the [size] bytes, and the terminator fits too. *)
Theorem listing_shows_mounts v dir mnt size buf off :
  zlen buf = size -> 0 <= off < size ->
  exists buf' off', append_mounts v dir mnt size buf off = (buf', off') /\
    zlen buf' = size /\ off' < size /\
    take (Z.to_nat off') buf'
    = add_names size (take (Z.to_nat off) buf) (omap (child_leaf dir mnt) (imap pair (mounts v))).
Proof.
  intros Hb Ho; assert (Hs : lists size buf off (take (Z.to_nat off) buf)).
  { exists (drop (Z.to_nat off) buf); rewrite take_drop; unfold zlen in *; rewrite length_take; repeat split; lia. }
  assert (Hend : forall b o s, lists size b o s -> zlen b = size /\ o < size /\ take (Z.to_nat o) b = s).
  { intros b o s (rest & -> & -> & Hl & Hlt); split; [done |]; split; [done |].
    unfold zlen; rewrite Nat2Z.id; apply take_app_length. }
  unfold append_mounts; generalize (imap pair (mounts v)) as L; intros L.
  revert Hs; generalize (take (Z.to_nat off) buf) as s; clear Ho Hb; revert buf off.
  induction L as [| im L IH]; intros buf off s Hs; [simpl; eauto |].
  cbn [foldl omap list_omap]; pose proof (list_round_spec dir mnt size im buf off s Hs) as Hr.
  destruct (child_leaf dir mnt im) as [l |]; [| rewrite Hr; by apply IH].
  cbn [add_names]; destruct (size <=? zlen s + strlen l + 2).
  - rewrite Hr; assert (E : forall r : list Z * Z, foldl (list_round dir mnt size) (inr r) L = inr r).
    { clear; induction L; simpl; auto. }
    rewrite E; eauto.
  - destruct Hr as (b & o & -> & Hl); by apply IH.
Qed.
End listing.

(** ** Witnesses *)

(** A synthetic provider whose files are all empty, and which takes no disk. *)
Definition nullfs : fs_ops unit :=
  {| op_name := lit "nullfs";
     op_mount := Some (fun _ p w => (w, (if start_lba p =? 64 then 0 else -1, 7)));
     op_open := Some (fun i _ _ _ w => (w, (0, {| n_mnt := Some i; n_id := 1; n_size := 0; n_type := VFS_TYPE_FILE |})));
     op_read := Some (fun _ _ _ w => (w, (0, [])));
     op_write := None; op_list := Some (fun _ _ _ buf _ w => (w, (0, buf)));
     op_unlink := Some (fun _ _ _ w => (w, 0)); op_create := None;
     op_object_at := None; op_umount := None |}.

Definition nullfs_takes (d : fs_ops unit) (p : partition) : bool := start_lba p =? 64.

(** One partition with the root role, behind one without. *)
Definition two_partitions : ptable :=
  {| partitions :=
       [{| start_lba := 64; end_lba := 99; size_sectors := 36; pindex := 0; type_guid := replicate 16 0 |};
        {| start_lba := 64; end_lba := 199; size_sectors := 136; pindex := 1;
           type_guid := [0x53; 0x58; 0x45; 0x4E; 5; 0; 0x58; 0x4E; 0; 0; 0; 0; 0; 0; 0; 0] |}];
     num_partitions := 2 |}.

Definition vfs_reg : vfs unit := fst (vfs_register_fs vfs0 (Some nullfs)).

(** A table with the root and "/reg". *)
Definition vfs_two : vfs unit :=
  match vfs_init vfs_reg tt two_partitions with
  | Some (v, _) => fst (vfs_mount_at v (Some (lit "/reg")) (Some nullfs) 0)
  | None => vfs_reg
  end.

Lemma vfs_init_mounts_root_witness :
  exists v' w', vfs_init vfs_reg tt two_partitions = Some (v', w') /\
    rooted vfs_reg v' (Some (nullfs, 1)).
Proof.
  assert (E : root_choice nullfs_takes (fs_drivers vfs_reg) two_partitions = Some (nullfs, 1)) by (by vm_compute).
  rewrite <- E; apply (vfs_init_mounts_root nullfs_takes vfs_reg tt two_partitions); [vm_compute; lia |].
  constructor; [| constructor]; eexists; split; [done |]; intros p w; unfold nullfs_takes; simpl.
  by destruct (start_lba p =? 64).
Defined.

Definition mounted (part priv : Z) (mp : str) : vfs_mount unit :=
  {| ops := Some nullfs; fs_private := priv; mountpoint := Some mp; part_index := part;
     in_use := true; active_ops := 0 |}.

Lemma vfs_two_mounts :
  mounts vfs_two = [mounted 1 7 (render []); mounted 0 0 (render [lit "reg"]); mount0; mount0].
Proof. by vm_compute. Qed.

Lemma mounted_ok part priv ms : Forall plain ms -> mount_ok (mounted part priv (render ms)).
Proof. intros Hms _; exists nullfs, ms; split; [done |]; split; [by eexists | done]. Qed.

Lemma vfs_two_ok : vfs_ok vfs_two.
Proof.
  unfold vfs_ok; rewrite vfs_two_mounts; split; [done |]; split.
  - repeat apply Forall_cons_2; try apply mounted_ok; try done; by refine (bool_decide_eq_true_1 _ _).
  - repeat apply Forall_cons_2; simpl; try lia; constructor.
Qed.

Lemma resolve_longest_mount_witness :
  vfs_resolve vfs_two (render [lit "reg"; lit "x"]) = (Some 1%nat, lit "/x") /\
  match vfs_resolve vfs_two (render [lit "reg"; lit "x"]) with
  | (Some i, rel) => exists ms, serves vfs_two i ms [lit "reg"; lit "x"] /\ rel = render (drop (length ms) [lit "reg"; lit "x"])
  | (None, _) => False
  end.
Proof.
  split; [by vm_compute |].
  pose proof (resolve_longest_mount vfs_two [lit "reg"; lit "x"] vfs_two_ok ltac:(by refine (bool_decide_eq_true_1 _ _))) as H.
  change (vfs_resolve vfs_two (render [lit "reg"; lit "x"])) with (Some 1%nat, lit "/x") in *.
  destruct H as (ms & H1 & H2 & _); by exists ms.
Defined.

Lemma operations_reach_provider_witness :
  vfs_unlink vfs_two tt (lit "/reg/x") = Some (vfs_two, tt, 0).
Proof.
  pose proof (operations_reach_provider vfs_two tt (lit "/reg/x") vfs_two_ok) as H.
  change (vfs_resolve vfs_two (lit "/reg/x")) with (Some 1%nat, lit "/x") in H.
  destruct H as (o & Ho & _ & _ & H & _); rewrite H; injection Ho as <-; done.
Defined.


Lemma listing_shows_mounts_witness :
  exists buf' off', append_mounts vfs_two (lit "/") 0 16 (lit "etc" ++ replicate 13 0) 3 = (buf', off') /\
    zlen buf' = 16 /\ off' < 16 /\ take (Z.to_nat off') buf' = lit "etc reg ".
Proof. apply (listing_shows_mounts vfs_two (lit "/") 0 16 (lit "etc" ++ replicate 13 0) 3); [done | lia]. Defined.

(** A second mount at /reg takes the next slot and the paths; an operation pins
    it, and an unmount of /reg takes the first one down. *)
Example unmount_takes_lower_slot :
  let v := fst (vfs_mount_at vfs_two (Some (lit "/reg")) (Some nullfs) 0) in
  let '(pinned, at_path) := vfs_acquire v (lit "/reg/x") in
  (fst at_path, (fun '(v, _, rc) => (rc, in_use (slot v 1), active_ops (slot v 2))) <$> vfs_umount pinned tt (Some (lit "/reg"))) =
  (Some 2%nat, Some (0, false, 1)).
Proof. by vm_compute. Qed.

(** [vfs_read_file] reads after it has given its pin back: an unmount between
    its two halves makes the read go through a null pointer. *)
Example read_file_after_umount :
  match vfs_open vfs_two tt (lit "/reg/x") node0 with
  | Some (v, w, (0, node)) => vfs_read (fst (umount_locked v (lit "/reg"))) w node 0 4
  | _ => Some (tt, (0, []))
  end = None.
Proof. by vm_compute. Qed.
