(* ===== verification/Procfs.v ===== *)
(** * The process namespace (kernel/fs/procfs.c)

    /proc as a provider of the filesystem switch over the process table: the
    directory lists the pids, and each pid names the process as a typed object. *)
From Stdlib Require Import ZArith Lia String.
From stdpp Require Import base numbers list.
From S2P Require Import Prelude CString Printf PrintfTheorems ProcTab ProcTabTheorems VfsPath Vfs.

#[local] Open Scope Z_scope.

(** The path without its leading slashes. *)
Fixpoint procfs_skip_slashes (p : str) : str :=
  match p with c :: t => if c =? 47 then procfs_skip_slashes t else p | [] => [] end.

Definition procfs_object_at (mnt : nat) (priv : Z) (path : str) (o : vfs_objref) (w : pool) : pool * (Z * vfs_objref) :=
  let p := procfs_skip_slashes path in
  match p with
  | [] => (w, (-2, o))
  | _ =>
    if existsb (fun c => c =? 47) p then (w, (-1, o))
    else
      let n := atoi p in
      if n <=? 0 then (w, (-1, o))
      else match proc_get_info w n with
           | None => (w, (-1, o))
           | Some _ => (w, (0, {| obj_type := OBJ_TYPE_PROCESS; o_pid := n; window_id := window_id o; o_node := o_node o |}))
           end
  end.

(** Here a path may go on after the pid. *)
Definition procfs_open (mnt : nat) (priv : Z) (path : str) (o : vfs_node) (w : pool) : pool * (Z * vfs_node) :=
  let p := procfs_skip_slashes path in
  match p with
  | [] => (w, (0, {| n_mnt := Some mnt; n_id := 0; n_size := 0; n_type := VFS_TYPE_DIR |}))
  | _ =>
    let n := atoi p in
    if n <=? 0 then (w, (-1, o))
    else match proc_get_info w n with
         | None => (w, (-1, o))
         | Some _ => (w, (0, {| n_mnt := Some mnt; n_id := u64 n; n_size := 0; n_type := VFS_TYPE_FILE |}))
         end
  end.

(** The loop over the pids: the bytes put before the terminator. *)
Fixpoint list_loop (pids : list Z) (size : Z) (text : str) : str :=
  match pids with
  | [] => text
  | n :: pids =>
    match vsnprintf true 16 (lit "%d") [AInt n] with
    | Ok (num, nl) =>
      if (nl <=? 0) || (size <? zlen text + nl + 2) then text
      else list_loop pids size (text ++ (if 0 <? zlen text then [32] else []) ++ take (Z.to_nat nl) num)
    | _ => text
    end
  end.

Definition procfs_list (mnt : nat) (priv : Z) (path : str) (buf : list Z) (size : Z) (w : pool) : pool * (Z * list Z) :=
  match procfs_skip_slashes path with
  | [] =>
    let text := list_loop (proc_enum_pids w (Z.of_nat MAX_PROCESSES)) size [] in
    (w, (zlen text, text ++ [0] ++ drop (S (length text)) buf))
  | _ => (w, (-2, buf))
  end.

Definition procfs_ops : fs_ops pool :=
  {| op_name := lit "procfs"; op_mount := None; op_open := Some procfs_open; op_read := None; op_write := None;
     op_list := Some procfs_list; op_unlink := None; op_create := None; op_object_at := Some procfs_object_at; op_umount := None |}.

Definition procfs_init (v : vfs pool) : vfs pool * Z := vfs_mount_at v (Some (lit "/proc")) (Some procfs_ops) 0.

(** ** The listing *)

(** Names with a blank between them. *)
Definition add_name (text name : str) : str := text ++ (if 0 <? zlen text then [32] else []) ++ name.
Definition join (names : list str) : str := foldl add_name [] names.

Lemma zlen_add_name text name : zlen (add_name text name) <= zlen text + 1 + zlen name.
Proof. unfold add_name; rewrite !zlen_app; destruct (0 <? zlen text); [change (zlen [32]) with 1 | change (zlen (@nil Z)) with 0]; lia. Qed.

Lemma decimal_nonempty x : 0 < zlen (decimal_text x).
Proof.
  unfold decimal_text; rewrite zlen_app, zlen_rev; assert (0 < zlen (digits false (Z.abs x) 10)).
  { unfold digits; destruct (Z.eqb_spec (Z.abs x) 0); [done |]; cbn [digits_loop]; destruct (Z.eqb_spec (Z.abs x) 0); [lia |]; unfold zlen; cbn [length]; lia. }
  pose proof (zlen_nonneg (if x <? 0 then [45] else [])); lia.
Qed.

Lemma list_loop_ok pids size text :
  Forall (fun n => i32 n = n) pids -> zlen text + 1 <= size ->
  exists k, list_loop pids size text = foldl add_name text (decimal_text <$> take k pids) /\ zlen (list_loop pids size text) + 1 <= size /\
    forall n, pids !! k = Some n -> size < zlen (list_loop pids size text) + zlen (decimal_text n) + 2.
Proof.
  intros Hp; revert text; induction Hp as [| n pids Hn Hp IH]; intros text Ht; cbn [list_loop]; [by exists 0%nat |].
  rewrite print_decimal, Hn by lia; pose proof (decimal_nonempty n); destruct (Z.leb_spec (zlen (decimal_text n)) 0); [lia |]; cbn [orb].
  destruct (Z.ltb_spec size (zlen text + zlen (decimal_text n) + 2)).
  - exists 0%nat; split; [done |]; split; [done |]; simpl; intros m [= <-]; done.
  - replace (take (Z.to_nat (zlen (decimal_text n))) (decimal_text n ++ [0])) with (decimal_text n) by (unfold zlen; by rewrite Nat2Z.id, take_app_length).
    fold (add_name text (decimal_text n)); destruct (IH (add_name text (decimal_text n))) as (k & E & B1 & B2); [pose proof (zlen_add_name text (decimal_text n)); lia |].
    by exists (S k).
Qed.

Lemma pids_are_int pp m : Forall (fun n => i32 n = n) (proc_enum_pids pp m).
Proof.
  apply Forall_take, Forall_forall; intros n Hn; apply list_elem_of_omap in Hn as (s & _ & Hs); destruct s as [p |]; [| done]; injection Hs as <-.
  pose proof (i32_range (pid p)); by apply i32_small.
Qed.

Lemma listed_found pp m n : n ∈ proc_enum_pids pp m -> is_Some (process_find_by_pid pp n).
Proof.
  intros Hn; apply elem_of_take in Hn as (i & Hi & _); apply list_elem_of_lookup_2 in Hi; apply list_elem_of_omap in Hi as (s & Hs & E).
  destruct s as [p |]; [| done]; injection E as E; unfold process_find_by_pid; destruct (list_find (slot_has n) pp) as [[j t] |] eqn:F.
  - apply list_find_Some in F as (_ & Ht & _); destruct t as [q |]; [by eexists | done].
  - apply list_find_None in F; rewrite Forall_forall in F; by destruct (F _ Hs).
Qed.

(** A pid as a path names its process. *)
Lemma pid_names_process mnt priv n o w :
  0 < n < 2 ^ 31 -> is_Some (process_find_by_pid w n) ->
  procfs_object_at mnt priv (decimal_text n) o w = (w, (0, {| obj_type := OBJ_TYPE_PROCESS; o_pid := n; window_id := window_id o; o_node := o_node o |})).
Proof.
  intros Hn [p Hp]; destruct (digits_decimal (Z.abs n) ltac:(lia)) as [F _].
  assert (D : Forall is_digit (decimal_text n)) by (unfold decimal_text; destruct (Z.ltb_spec n 0); [lia |]; by apply Forall_rev).
  pose proof (decimal_nonempty n) as Hz; pose proof (atoi_decimal n ltac:(lia)) as Ha; unfold procfs_object_at.
  assert (E : procfs_skip_slashes (decimal_text n) = decimal_text n).
  { destruct D as [| c t Hc]; [done |]; simpl; unfold is_digit in Hc; destruct (Z.eqb_spec c 47); [lia | done]. }
  rewrite E, Ha; assert (X : existsb (fun c => c =? 47) (decimal_text n) = false).
  { clear -D; induction D as [| c t Hc D IH]; [done |]; simpl; unfold is_digit in Hc; destruct (Z.eqb_spec c 47); [lia | done]. }
  rewrite X; destruct (decimal_text n); [done |]; destruct (Z.leb_spec n 0); [lia |]; unfold proc_get_info; by rewrite Hp.
Qed.

(** /proc lists the processes, and each name in it names its process.  In a
    buffer of [size] bytes the listing is the pids of the table in slot order, in
    decimal, with blanks between: all of them, or as many as fit; it ends with a
    NUL inside the buffer; and opening any of the names gives a process object
    with that pid. *)
Theorem proc_listing mnt priv path buf size w :
  procfs_skip_slashes path = [] -> 0 < size ->
  exists k, let pids := proc_enum_pids w (Z.of_nat MAX_PROCESSES) in
    let text := join (decimal_text <$> take k pids) in
    procfs_list mnt priv path buf size w = (w, (zlen text, text ++ [0] ++ drop (S (length text)) buf)) /\
    zlen text + 1 <= size /\
    (forall n, pids !! k = Some n -> size < zlen text + zlen (decimal_text n) + 2) /\
    forall n o, n ∈ take k pids -> 0 < n ->
      procfs_object_at mnt priv (decimal_text n) o w = (w, (0, {| obj_type := OBJ_TYPE_PROCESS; o_pid := n; window_id := window_id o; o_node := o_node o |})).
Proof.
  intros Hp Hs; set (pids := proc_enum_pids w (Z.of_nat MAX_PROCESSES)); pose proof (pids_are_int w (Z.of_nat MAX_PROCESSES)) as Hi; fold pids in Hi.
  destruct (list_loop_ok pids size [] Hi ltac:(change (zlen (@nil Z)) with 0; lia)) as (k & E & H1 & H2); exists k; cbv zeta; unfold procfs_list; rewrite Hp; fold pids.
  fold (join (decimal_text <$> take k pids)) in E; rewrite E in *; split; [done |]; split; [done |]; split; [done |].
  intros n o Hn Hpos; apply elem_of_take in Hn as (i & Hi' & _); apply list_elem_of_lookup_2 in Hi'; apply pid_names_process.
  - rewrite Forall_forall in Hi; specialize (Hi n Hi'); pose proof (i32_range n); lia.
  - by eapply listed_found.
Qed.

(** Two processes in a table; the listing of /proc and a node of it. *)
#[local] Abbreviation two_pids := [Some (demo_proc 1 0 0 None); Some (demo_proc 12 1 0 None); None].

Lemma proc_listing_witness :
  procfs_list 0 0 [47] (replicate 8 255) 8 two_pids = (two_pids, (4, [49; 32; 49; 50; 0; 255; 255; 255])) /\
  exists k, zlen (join (decimal_text <$> take k (proc_enum_pids two_pids (Z.of_nat MAX_PROCESSES)))) + 1 <= 8.
Proof.
  split; [vm_compute; reflexivity |]; destruct (proc_listing 0 0 [47] (replicate 8 255) 8 two_pids eq_refl ltac:(done)) as (k & _ & H & _); by exists k.
Defined.

(** A path that goes on after the pid opens as a file of /proc, but names no
    object; letters after the digits are passed over by both. *)
Example path_after_pid :
  fst (snd (procfs_open 0 0 (lit "/12/fd") node0 two_pids)) = 0 /\
  fst (snd (procfs_object_at 0 0 (lit "/12/fd") {| obj_type := 0; o_pid := 0; window_id := 0; o_node := node0 |} two_pids)) = -1 /\
  o_pid (snd (snd (procfs_object_at 0 0 (lit "/12abc") {| obj_type := 0; o_pid := 0; window_id := 0; o_node := node0 |} two_pids))) = 12.
Proof. vm_compute; auto. Qed.
