(* ===== verification/Registry.v ===== *)
(** * The system registry (kernel/lib/registry.c)

    The registry is a tree of named nodes addressed by dotted keys.  A node
    owns its children, so the tree is a nested inductive type; a pointer to a
    node is the list of names on the way to it from the root ([path]), and a
    write through it is [modify_at].  The [parent] pointer is the path without
    its last name.  Whether the n-th [kmalloc] succeeds is an argument of the
    definitions that allocate ([kmalloc_ok], by call number and size).  The
    reader/writer lock is the subject of RwLock.v; here every operation runs
    under it. *)
From Stdlib Require Import ZArith Lia String.
From stdpp Require Import base numbers list.
From S2P Require Import Prelude CString ProcTab.

Definition MAX_KEY_LEN : Z := 64.
Definition MAX_VAL_LEN : Z := 128.
Definition sizeof_reg_node : Z := 224.
Definition DOT : Z := 46.
Definition SLASH : Z := 47.
Definition NEWLINE : Z := 10.
Definition SPACE : Z := 32.

(** [struct reg_node]: [n_children] is the length of [children]. *)
Inductive reg_node := RegNode {
  name : str;
  value : str;
  node_owner : Z;
  is_leaf : bool;
  children : list reg_node;
  cap_children : Z
}.

(** The static state of the file, with the number of allocations so far and the
    process table that virtual keys read. *)
Record registry := {
  reg_root : reg_node;
  registry_count : Z;
  allocs : nat;
  procs : pool;
  current_process : option process
}.

Abbreviation path := (list str).

(** A fresh node, and the BSS-zeroed root. *)
Definition empty_node (nm : str) : reg_node := RegNode nm [] 0 false [] 0.

Definition with_children (n : reg_node) (cs : list reg_node) (cap : Z) : reg_node :=
  RegNode (name n) (value n) (node_owner n) (is_leaf n) cs cap.

Definition with_leaf (n : reg_node) (v : str) (o : Z) (l : bool) : reg_node :=
  RegNode (name n) v o l (children n) (cap_children n).

Definition with_root (r : registry) (n : reg_node) (a : nat) : registry :=
  {| reg_root := n; registry_count := registry_count r; allocs := a;
     procs := procs r; current_process := current_process r |}.

Definition with_count (r : registry) (c : Z) : registry :=
  {| reg_root := reg_root r; registry_count := c; allocs := allocs r;
     procs := procs r; current_process := current_process r |}.

Definition with_procs (r : registry) (pp : pool) : registry :=
  {| reg_root := reg_root r; registry_count := registry_count r; allocs := allocs r;
     procs := pp; current_process := current_process r |}.

(** ** Following and writing through a pointer *)

Definition child_named (s : str) (cs : list reg_node) : option reg_node :=
  snd <$> list_find (fun c => name c = s) cs.

Fixpoint node_at (p : path) (n : reg_node) : option reg_node :=
  match p with
  | [] => Some n
  | s :: q => c ← child_named s (children n); node_at q c
  end.

Definition map_child (s : str) (f : reg_node -> reg_node) (n : reg_node) : reg_node :=
  with_children n ((fun c => if bool_decide (name c = s) then f c else c) <$> children n)
    (cap_children n).

Fixpoint modify_at (p : path) (f : reg_node -> reg_node) (n : reg_node) : reg_node :=
  match p with
  | [] => f n
  | s :: q => map_child s (modify_at q f) n
  end.

(** ** The sorted child array *)

(** The binary search that [node_find_child], [node_get_or_add] and
    [node_remove_child] run: [inl i] is the index of the match, [inr lo] the
    insertion point. *)
Definition bsearch_step (cs : list reg_node) (seg : str) (s : Z * Z) : (Z * Z) + (Z + Z) :=
  let '(lo, hi) := s in
  if lo <=? hi then
    let mid := lo + (hi - lo) / 2 in
    let cmp := strcmp (name (znth (empty_node []) cs mid)) seg in
    if cmp =? 0 then inr (inl mid)
    else if cmp <? 0 then inl (mid + 1, hi)
    else inl (lo, mid - 1)
  else inr (inr lo).

Definition bsearch (cs : list reg_node) (seg : str) : Z + Z :=
  default (inr 0) (loop (S (length cs)) (bsearch_step cs seg) (0, zlen cs - 1)).

Definition node_find_child (p : reg_node) (seg : str) : option reg_node :=
  match bsearch (children p) seg with
  | inl i => Some (znth (empty_node []) (children p) i)
  | inr _ => None
  end.

Section alloc.
Context (kmalloc_ok : nat -> Z -> bool).

Definition node_alloc (a : nat) (seg : str) : option reg_node :=
  if kmalloc_ok a sizeof_reg_node then Some (empty_node (strcopy MAX_KEY_LEN seg)) else None.

(** The new parent, the allocation counter, and the name of the child the
    returned pointer leads to ([None] on OOM).  The array grows before the
    node is allocated, and stays grown if that fails. *)
Definition node_get_or_add (a : nat) (p : reg_node) (seg : str)
    : reg_node * nat * option str :=
  match bsearch (children p) seg with
  | inl i => (p, a, Some (name (znth (empty_node []) (children p) i)))
  | inr lo =>
    let full := zlen (children p) =? cap_children p in
    let newcap := if cap_children p =? 0 then 4 else cap_children p * 2 in
    if full && negb (kmalloc_ok a (8 * newcap)) then (p, S a, None)
    else
      let a1 := if full then S a else a in
      let p1 := if full then with_children p (children p) newcap else p in
      match node_alloc a1 seg with
      | None => (p1, S a1, None)
      | Some n =>
        let i := Z.to_nat lo in
        (with_children p1 (take i (children p1) ++ n :: drop i (children p1)) (cap_children p1),
         S a1, Some (name n))
      end
  end.

(** ** Keys and paths *)

(** [while (p && p != dot && i < MAX_KEY_LEN - 1)]: the bytes of a segment,
    at most [room] of them, and what follows. *)
Fixpoint take_seg (room : nat) (p : str) : str * str :=
  match room, p with
  | S m, c :: q => if c =? DOT then ([], p) else let '(s, r) := take_seg m q in (c :: s, r)
  | _, _ => ([], p)
  end.

(** The overflow tail of a segment. *)
Fixpoint skip_tail (p : str) : str :=
  match p with
  | c :: q => if c =? DOT then p else skip_tail q
  | [] => []
  end.

(** One round of the loop of [walk_path]: the segment, and the rest of the key
    past the dot. *)
Definition next_seg (p : str) : str * str :=
  let '(seg, r) := take_seg (Z.to_nat (MAX_KEY_LEN - 1)) p in
  let r := skip_tail r in
  (seg, match r with c :: q => if c =? DOT then q else r | [] => [] end).

(** The segments the loop visits, empty ones skipped; a round consumes at
    least one byte, so the length of the key is fuel enough. *)
Fixpoint segments_from (fuel : nat) (p : str) : path :=
  match fuel, p with
  | S m, _ :: _ =>
    let '(seg, r) := next_seg p in
    if bool_decide (seg = []) then segments_from m r else seg :: segments_from m r
  | _, _ => []
  end.

Definition segments (key : str) : path := segments_from (length key) key.

(** [walk_path] with [create = 0]: the path of the node, if there is one. *)
Fixpoint walk_find (n : reg_node) (segs : path) : option path :=
  match segs with
  | [] => Some []
  | s :: r => c ← node_find_child n s; q ← walk_find c r; Some (name c :: q)
  end.

(** [walk_path] with [create = 1]: descends through [node_get_or_add],
    writing each new array back into the node it belongs to. *)
Fixpoint walk_create (a : nat) (n : reg_node) (segs : path) : reg_node * nat * option path :=
  match segs with
  | [] => (n, a, Some [])
  | s :: r =>
    match node_get_or_add a n s with
    | (n1, a1, None) => (n1, a1, None)
    | (n1, a1, Some cn) =>
      match child_named cn (children n1) with
      | None => (n1, a1, None)
      | Some c =>
        let '(c', a2, q) := walk_create a1 c r in
        (map_child cn (fun _ => c') n1, a2, cons cn <$> q)
      end
    end
  end.

(** A key with no segment resolves to null ([any == 0]). *)
Definition walk_path_find (r : registry) (key : str) : option path :=
  match segments key with
  | [] => None
  | segs => walk_find (reg_root r) segs
  end.

Definition walk_path_create (r : registry) (key : str) : registry * option path :=
  match segments key with
  | [] => (r, None)
  | segs => let '(n, a, q) := walk_create (allocs r) (reg_root r) segs in (with_root r n a, q)
  end.

Definition key_has_segment (key : str) : bool := existsb (fun c => negb (c =? DOT)) key.

(** ** Virtual keys *)

(** The digits of the pid, as an [int]; [None] when there is none. *)
Fixpoint read_digits (p : str) (acc : Z) : Z * str :=
  match p with
  | c :: q => if (48 <=? c) && (c <=? 57) then read_digits q (i32 (acc * 10 + (c - 48))) else (acc, p)
  | [] => (acc, [])
  end.

(** The pid and the field of [sys.proc.<pid>.<field>]. *)
Definition reg_proc_split (key : str) : option (Z * str) :=
  if negb (strncmp key (lit "sys.proc.") 9 =? 0) then None
  else
    let p := drop 9 key in
    match p with
    | c :: _ =>
      if (c <? 48) || (57 <? c) then None
      else
        match read_digits p 0 with
        | (n, c' :: f) => if c' =? DOT then Some (n, f) else None
        | (_, []) => None
        end
    | [] => None
    end.

Definition registry_key_is_virtual (key : str) : bool :=
  match reg_proc_split key with Some _ => true | None => false end.

(** Decimal digits of a non-negative number, and [%d]. *)
Fixpoint dec_digits (fuel : nat) (x : Z) : str :=
  match fuel with
  | O => []
  | S m => if x <? 10 then [48 + x] else dec_digits m (x / 10) ++ [48 + x mod 10]
  end.

Definition fmt_d (x : Z) : str :=
  if x <? 0 then 45 :: dec_digits 11 (- x) else dec_digits 11 x.

(** What [reg_virtual_proc] makes of a key: not ours, ours with this buffer
    content, or ours and definitively absent. *)
Inductive virtual_answer := NotVirtual | Answer (v : str) | Absent.

Definition reg_virtual_proc (r : registry) (key : str) (size : Z) : virtual_answer :=
  match reg_proc_split key with
  | None => NotVirtual
  | Some (n, f) =>
    match proc_get_info (procs r) n with
    | None => Answer []
    | Some (nm, st) =>
      if strcmp f (lit "name") =? 0 then Answer (strcopy size nm)
      else if strcmp f (lit "state") =? 0 then Answer (strcopy size (proc_state_name st))
      else if (strcmp f (lit "parent") =? 0) || (strcmp f (lit "owner") =? 0) then
        let '((par, own), _) := proc_get_lineage (procs r) n (0, 0) in
        Answer (strcopy size (fmt_d (if strcmp f (lit "owner") =? 0 then own else par)))
      else if strncmp f (lit "env.") 4 =? 0 then
        match drop 4 f with
        | [] => Absent
        | k => match proc_env_get (procs r) n k size with inr v => Answer v | inl _ => Absent end
        end
      else NotVirtual
    end
  end.

(** [Some]: the key was virtual and this is the answer. *)
Definition reg_virtual_proc_write (r : registry) (key : str) (v : option str)
    : option (registry * Z) :=
  match reg_proc_split key with
  | None => None
  | Some (n, f) =>
    if (strncmp f (lit "env.") 4 =? 0) && negb (bool_decide (drop 4 f = [])) then
      let '(pp, ret) := proc_env_set (procs r) (current_process r) n (drop 4 f) v in
      Some (with_procs r pp, ret)
    else Some (r, - EACCES)
  end.

(** ** Operations *)

(** [None] is a null pointer. *)
Definition registry_set (r : registry) (key val : option str) (owner : Z) : registry * Z :=
  match key, val with
  | Some key, Some val =>
    match reg_virtual_proc_write r key (Some val) with
    | Some ans => ans
    | None =>
      match walk_path_create r key with
      | (r1, None) => (r1, if key_has_segment key then - ENOMEM else - EINVAL)
      | (r1, Some q) =>
        let n := default (empty_node []) (node_at q (reg_root r1)) in
        if is_leaf n && negb (owner =? 0) && negb (node_owner n =? owner) then (r1, - EACCES)
        else
          let v := strcopy MAX_VAL_LEN val in
          let set n := if is_leaf n then with_leaf n v (node_owner n) true
                       else with_leaf n v owner true in
          let r2 := with_root r1 (modify_at q set (reg_root r1)) (allocs r1) in
          (if is_leaf n then r2 else with_count r2 (registry_count r2 + 1), 0)
      end
    end
  | _, _ => (r, - EINVAL)
  end.

(** The errno, or what the buffer then holds. *)
Definition registry_get (r : registry) (key : option str) (size : Z) : Z + str :=
  match key with
  | None => inl (- EINVAL)
  | Some key =>
    if size =? 0 then inl (- EINVAL)
    else
      match reg_virtual_proc r key size with
      | Answer v => inr v
      | Absent => inl (- ENOENT)
      | NotVirtual =>
        match walk_path_find r key with
        | None => inl (- ENOENT)
        | Some q =>
          let n := default (empty_node []) (node_at q (reg_root r)) in
          if is_leaf n then inr (strcopy size (value n)) else inl (- ENOENT)
        end
      end
  end.

(** Unlinks the child called [nm]; the array keeps its capacity. *)
Definition node_remove_child (p : reg_node) (nm : str) : reg_node :=
  match bsearch (children p) nm with
  | inl i =>
    with_children p (take (Z.to_nat i) (children p) ++ drop (S (Z.to_nat i)) (children p))
      (cap_children p)
  | inr _ => p
  end.

(** The pruning loop of [registry_del] from the node at [q] up; [rev_path] is
    the path reversed, so its tail is the parent. *)
Fixpoint prune (rev_path : path) (root : reg_node) : reg_node :=
  match rev_path with
  | [] => root
  | s :: up =>
    let n := default (empty_node []) (node_at (rev rev_path) root) in
    if bool_decide (children n = []) && negb (is_leaf n)
    then prune up (modify_at (rev up) (fun p => node_remove_child p s) root)
    else root
  end.

Definition registry_del (r : registry) (key : option str) (owner : Z) : registry * Z :=
  match key with
  | None => (r, - EINVAL)
  | Some key =>
    match reg_virtual_proc_write r key None with
    | Some ans => ans
    | None =>
      match walk_path_find r key with
      | None => (r, - ENOENT)
      | Some q =>
        let n := default (empty_node []) (node_at q (reg_root r)) in
        if negb (is_leaf n) then (r, - ENOENT)
        else if negb (owner =? 0) && negb (node_owner n =? owner) then (r, - EACCES)
        else
          let root := modify_at q (fun n => with_leaf n [] 0 false) (reg_root r) in
          (with_count (with_root r (prune (rev q) root) (allocs r)) (registry_count r - 1), 0)
      end
    end
  end.

(** [set_default] counts failures; [registry_init] installs the defaults. *)
Definition set_default (s : registry * Z) (kv : string * string) : registry * Z :=
  let '(r, failed) := s in
  let '(r', ret) := registry_set r (Some (lit (fst kv))) (Some (lit (snd kv))) 0 in
  (r', if ret =? 0 then failed else failed + 1).

Definition registry_defaults : list (string * string) :=
  [("theme.color", "dark"); ("style.name", "nexs"); ("background.name", "blue");
   ("system.hostname", "NeXs"); ("system.arch", "unknown"); ("system.version", "0.0.0");
   ("system.os", "NEXS"); ("system.boot_time", "0"); ("sys.ntfy.panel_open", "0");
   ("mouse.sensitivity", "1.0")]%string.

Definition registry_init (r : registry) : registry * Z :=
  foldl set_default (with_count r 0, 0) registry_defaults.

(** ** Enumeration *)

(** The path buffer of a child: a dot unless it is empty, then the name, as
    far as [path_cap] allows. *)
Definition extend_path (path_cap : Z) (p nm : str) : str :=
  let p1 := if negb (bool_decide (p = [])) && (zlen p + 1 <? path_cap) then p ++ [DOT] else p in
  p1 ++ take (Z.to_nat (path_cap - 1 - zlen p1)) nm.

(** The buffer after the key of a matching leaf was offered to it. *)
Definition emit (c : reg_node) (p prefix : str) (size : Z) (out : str) : str :=
  if is_leaf c &&
     ((zlen prefix =? 0) ||
      ((zlen prefix <=? zlen p) && (strncmp p prefix (length prefix) =? 0)))
  then if zlen out + zlen p + 2 <=? size then out ++ p ++ [NEWLINE] else out
  else out.

Fixpoint enum_dfs (n : reg_node) (p : str) (path_cap : Z) (prefix : str) (size : Z) (out : str) : str :=
  foldl (fun out c =>
    let p' := extend_path path_cap p (name c) in
    enum_dfs c p' path_cap prefix size (emit c p' prefix size out)) out (children n).

(** The names [proc_env_enum] wrote, one per newline, each prefixed. *)
Fixpoint split_lines (s acc : str) : list str :=
  match s with
  | [] => match acc with [] => [] | _ => [acc] end
  | c :: t => if c =? NEWLINE then acc :: split_lines t [] else split_lines t (acc ++ [c])
  end.

Fixpoint enum_env (names : list str) (prefix : str) (size : Z) (out : str) : str :=
  match names with
  | [] => out
  | k :: rest =>
    if size <? zlen out + strlen prefix + strlen k + 2 then out
    else enum_env rest prefix size
           ((if bool_decide (out = []) then out else out ++ [NEWLINE]) ++ prefix ++ k)
  end.

Definition registry_enum (r : registry) (prefix : option str) (size : Z) : Z + str :=
  if size =? 0 then inl (- EINVAL)
  else
    let stored := inr (enum_dfs (reg_root r) [] 256 (default [] prefix) size []) in
    match prefix with
    | None => stored
    | Some pre =>
      match reg_proc_split pre with
      | Some (n, f) =>
        if strcmp f (lit "env.") =? 0 then
          match proc_env_enum (procs r) n 512 with
          | Some (c :: s) => inr (enum_env (split_lines (c :: s) []) pre size [])
          | _ => inr []
          end
        else stored
      | None => stored
      end
    end.

(** ** Authority *)

Definition registry_write_allowed (r : registry) : bool :=
  proc_has_cap (current_process r) CAP_REG_WRITE.

(** A null process is privileged, so its pid is never asked for. *)
Definition registry_caller_owner (r : registry) : Z :=
  if proc_is_privileged (current_process r) then 0
  else match current_process r with Some p => i32 (pid p) | None => 0 end.
End alloc.
