(* ===== verification/RegDoors.v ===== *)
(** * The doors onto the registry: the /reg mount, sys_registry, key handles

    The second half of kernel/lib/registry.c: [regfs], which presents the tree
    as a file system, and the system call; the write through a handle to a key
    (core/object.c); and [SYS_SET_STYLE] (core/syscall_dispatch.c), which
    publishes the desktop's look in three keys of the system.  User memory is seen through the
    contract of kernel/include/kernel/hal_uaccess.h: a string argument is null,
    unmapped, or a string. *)
From Stdlib Require Import ZArith Lia String.
From stdpp Require Import base numbers list.
From S2P Require Import Prelude CString ProcTab Registry.

Definition VFS_TYPE_FILE : Z := 1.
Definition VFS_TYPE_DIR : Z := 2.
Definition REG_OP_READ : Z := 0.
Definition REG_OP_WRITE : Z := 1.
Definition REG_OP_ENUM : Z := 2.
Definition REG_OP_DEL : Z := 3.

(** ** Paths of the mount *)

Fixpoint skip_slashes (p : str) : str :=
  match p with
  | c :: q => if c =? SLASH then skip_slashes q else p
  | [] => []
  end.

(** [while (p && k + 1 < n)]: each round consumes a byte or a run of slashes. *)
Fixpoint path_loop (fuel : nat) (p key : str) (n : Z) : str :=
  match fuel, p with
  | S m, c :: q =>
    if negb (zlen key + 1 <? n) then key
    else if c =? SLASH then
      let p' := skip_slashes q in
      path_loop m p' (match p' with [] => key | _ => key ++ [DOT] end) n
    else path_loop m q (key ++ [c]) n
  | _, _ => key
  end.

Definition regfs_path_to_key (relpath : str) (n : Z) : str :=
  path_loop (length relpath) (skip_slashes relpath) [] n.

Section doors.
Context (kmalloc_ok : nat -> Z -> bool).

(** The node a mount path names: the root when the key is empty. *)
Definition regfs_node (r : registry) (pth : str) : option path :=
  match regfs_path_to_key pth MAX_KEY_LEN with
  | [] => Some []
  | key => walk_path_find r key
  end.

Definition node_of (r : registry) (q : path) : reg_node :=
  default (empty_node []) (node_at q (reg_root r)).

(** The [vfs_node] filled in: the node ([id]), its type and its size. *)
Record vfs_node := { vn_id : path; vn_type : Z; vn_size : Z }.

Definition regfs_open (r : registry) (pth : str) : Z + vfs_node :=
  match regfs_node r pth with
  | None => inl (- ENOENT)
  | Some q =>
    let n := node_of r q in
    inr {| vn_id := q;
           vn_type := if is_leaf n then VFS_TYPE_FILE else VFS_TYPE_DIR;
           vn_size := if is_leaf n then strlen (value n) else 0 |}
  end.

(** Reads through an open node, which must still be in the tree. *)
Definition regfs_read (r : registry) (vn : vfs_node) (offset size : Z) : Z + str :=
  let n := node_of r (vn_id vn) in
  if negb (is_leaf n) then inl (- EISDIR)
  else
    let vlen := strlen (value n) in
    if vlen <=? offset then inr []
    else
      let avail := vlen - offset in
      let cnt := if size <? avail then size else avail in
      inr (take (Z.to_nat cnt) (drop (Z.to_nat offset) (value n))).

(** The value [regfs_write] stores: the current one padded with spaces up to
    the offset and overlaid with the bytes written. *)
Definition overlay (cur : str) (off : Z) (bytes : list Z) : list Z :=
  let padded := cur ++ replicate (Z.to_nat (off - zlen cur)) SPACE in
  take (Z.to_nat off) padded ++ bytes ++ drop (Z.to_nat (off + zlen bytes)) padded.

Definition regfs_write (r : registry) (pth : str) (offset : Z) (buf : list Z) : registry * Z :=
  match regfs_path_to_key pth MAX_KEY_LEN with
  | [] => (r, - EINVAL)
  | key =>
    if MAX_VAL_LEN - 1 <=? offset then (r, - EINVAL)
    else if negb (registry_key_is_virtual key) && negb (registry_write_allowed r)
    then (r, - EPERM)
    else
      let size := zlen buf in
      let cnt := if MAX_VAL_LEN - 1 <? offset + size then MAX_VAL_LEN - 1 - offset else size in
      let cur := match registry_get r (Some key) MAX_VAL_LEN with inr v => v | inl _ => [] end in
      let val := cstr (overlay cur offset (take (Z.to_nat cnt) buf)) in
      let '(r', rc) := registry_set kmalloc_ok r (Some key) (Some val) (registry_caller_owner r) in
      (r', if rc =? 0 then cnt else rc)
  end.

(** Names of the children, separated by spaces, stopping at the first that
    does not fit. *)
Fixpoint list_names (cs : list reg_node) (size : Z) (out : str) : str :=
  match cs with
  | [] => out
  | c :: rest =>
    if size <? zlen out + strlen (name c) + 2 then out
    else list_names rest size ((if bool_decide (out = []) then out else out ++ [SPACE]) ++ name c)
  end.

Definition regfs_list (r : registry) (pth : str) (size : Z) : Z + str :=
  match regfs_node r pth with
  | None => inl (- ENOENT)
  | Some q => inr (list_names (children (node_of r q)) size [])
  end.

Definition regfs_create (r : registry) (pth : str) (type : Z) : registry * Z :=
  if negb (type =? VFS_TYPE_FILE) then (r, - EINVAL)
  else if negb (registry_write_allowed r) then (r, - EPERM)
  else
    match regfs_path_to_key pth MAX_KEY_LEN with
    | [] => (r, - EINVAL)
    | key => registry_set kmalloc_ok r (Some key) (Some []) (registry_caller_owner r)
    end.

Definition regfs_unlink (r : registry) (pth : str) : registry * Z :=
  if negb (registry_write_allowed r) then (r, - EPERM)
  else
    match regfs_path_to_key pth MAX_KEY_LEN with
    | [] => (r, - EINVAL)
    | key => registry_del r (Some key) (registry_caller_owner r)
    end.

(** ** The system call *)

(** A user pointer to a string. *)
Inductive user_string := UNull | UBad | UStr (s : str).

(** [arch_copy_string_from_user_n]: the bytes copied and whether the source
    was longer; [None] on an unmapped address. *)
Definition copy_string_from_user_n (u : user_string) (max_len : Z) : option (str * bool) :=
  match u with
  | UStr s => Some (take (Z.to_nat (max_len - 1)) s, max_len - 1 <? zlen s)
  | _ => None
  end.

Definition copy_string_from_user (u : user_string) (max_len : Z) : option str :=
  fst <$> copy_string_from_user_n u max_len.

Definition copy_string_from_user_strict (u : user_string) (max_len : Z) : Z + str :=
  match copy_string_from_user_n u max_len with
  | None => inl (-1)
  | Some (_, true) => inl (- E2BIG)
  | Some (s, false) => inr s
  end.

(** What the call does to the user's [value] buffer. *)
Record sys_result := { sys_reg : registry; sys_ret : Z; sys_out : option (list Z) }.

Definition sys_fail (r : registry) (e : Z) : sys_result :=
  {| sys_reg := r; sys_ret := e; sys_out := None |}.

(** REG_OP_ENUM; [out_ok] tells whether [value] may be written. *)
Definition sys_registry_enum (r : registry) (key : user_string) (value_null out_ok : bool)
    (size : Z) : sys_result :=
  if value_null || (size =? 0) then sys_fail r (- EINVAL)
  else
    let run prefix :=
      let cap := if 4096 <? size then 4096 else size in
      let r1 := with_root r (reg_root r) (S (allocs r)) in
      if negb (kmalloc_ok (allocs r) cap) then sys_fail r1 (- ENOMEM)
      else
        match registry_enum r1 prefix cap with
        | inl _ => sys_fail r1 (- EINVAL)
        | inr out =>
          if out_ok
          then {| sys_reg := r1; sys_ret := zlen out;
                  sys_out := Some (take (Z.to_nat (if cap <? zlen out + 1 then cap else zlen out + 1))
                                        (out ++ [0])) |}
          else sys_fail r1 (- EFAULT)
        end in
    match key with
    | UNull => run None
    | _ =>
      match copy_string_from_user key MAX_KEY_LEN with
      | None => sys_fail r (- EFAULT)
      | Some s => run (Some s)
      end
    end.

(** [value] is the source string of a write, [out_ok] whether the buffer of a
    read may be written. *)
Definition sys_registry (r : registry) (op : Z) (key val : user_string) (out_ok : bool) (size : Z)
    : sys_result :=
  if op =? REG_OP_ENUM then
    sys_registry_enum r key (match val with UNull => true | _ => false end) out_ok size
  else
    match copy_string_from_user_strict key MAX_KEY_LEN with
    | inl e => sys_fail r (if e =? - E2BIG then - E2BIG else - EFAULT)
    | inr k =>
      if op =? REG_OP_WRITE then
        match copy_string_from_user_strict val MAX_VAL_LEN with
        | inl e => sys_fail r (if e =? - E2BIG then - E2BIG else - EFAULT)
        | inr v =>
          if negb (registry_key_is_virtual k) && negb (registry_write_allowed r)
          then sys_fail r (- EPERM)
          else let '(r', ret) := registry_set kmalloc_ok r (Some k) (Some v) (registry_caller_owner r) in
               sys_fail r' ret
        end
      else if op =? REG_OP_READ then
        match registry_get r (Some k) MAX_VAL_LEN with
        | inl _ => sys_fail r (- ENOENT)
        | inr v =>
          let copy_len := if size <? strlen v + 1 then size else strlen v + 1 in
          if out_ok
          then {| sys_reg := r; sys_ret := 0; sys_out := Some (take (Z.to_nat copy_len) (v ++ [0])) |}
          else sys_fail r (- EFAULT)
        end
      else if op =? REG_OP_DEL then
        if negb (registry_key_is_virtual k) && negb (registry_write_allowed r)
        then sys_fail r (- EPERM)
        else let '(r', ret) := registry_del r (Some k) (registry_caller_owner r) in sys_fail r' ret
      else sys_fail r (- EINVAL)
    end.

(** ** A handle to a key *)

(** The write of [sys_object_write] through a handle to the key [key]; [ubuf] is
    the user buffer, [None] where it cannot be read. *)
Definition regkey_write (r : registry) (key : str) (ubuf : option (list Z)) (n : Z) : registry * Z :=
  if (n =? 0) || (MAX_VAL_LEN <? n) then (r, - EINVAL)
  else
    let cn := if n <? MAX_VAL_LEN then n else MAX_VAL_LEN - 1 in
    match ubuf with
    | None => (r, - EFAULT)
    | Some b =>
      let '(r, rc) := registry_set kmalloc_ok r (Some key) (Some (cstr (take (Z.to_nat cn) b))) (registry_caller_owner r) in
      (r, if rc =? 0 then n else rc)
    end.

(** ** The look of the desktop *)

Definition os1_style_names : list str := lit <$> ["nexs"; "classic"; "material"; "glass"; "minimal"; "retro"]%string.
Definition os1_theme_names : list str := lit <$> ["light"; "dark"]%string.
Definition os1_bg_names : list str :=
  lit <$> ["black"; "red"; "green"; "yellow"; "blue"; "magenta"; "cyan"; "white"; "gray"; "bred"; "bgreen"; "byellow";
           "bblue"; "bmagenta"; "bcyan"; "bwhite"]%string.

(** One of the three parts of [SYS_SET_STYLE]: the compositor knows the presets
    the names are for ([compositor_set_style] and its two companions), and a
    change it makes is published as the system. *)
Definition publish (key : str) (names : list str) (id : Z) (st : registry * Z) : registry * Z :=
  let '(r, rc) := st in
  if negb (0 <=? id) then (r, rc)
  else
    match names !! Z.to_nat id with
    | None => (r, Z.lor rc (-1))
    | Some name =>
      let '(r, e) := registry_set kmalloc_ok r (Some key) (Some name) 0 in
      (r, if e =? 0 then rc else Z.lor rc (- EIO))
    end.

Definition set_style (r : registry) (style theme bg : Z) : registry * Z :=
  if negb (proc_has_cap (current_process r) CAP_WINDOW) then (r, - EPERM)
  else
    publish (lit "background.name") os1_bg_names bg
      (publish (lit "theme.color") os1_theme_names theme
         (publish (lit "style.name") os1_style_names style (r, 0))).
End doors.
