(* ===== verification/RegistryProofs.v ===== *)
(** * The registry tree: invariant and lemmas

    The child arrays are sorted, so the binary search is a lookup by name; the
    tree then stands for the map [leaf_at] from paths to values and owners, and
    each operation on the tree is related to that map. *)
From Stdlib Require Import ZArith Lia String.
From stdpp Require Import base numbers list sorting.
From S2P Require Import Prelude CString ProcTab Registry.

Create HintDb reg.

(** ** The sorted child array *)

Definition node_lt (a b : reg_node) : Prop := strcmp (name a) (name b) < 0.

Record children_ok (cs : list reg_node) : Prop := {
  cs_sorted : StronglySorted node_lt cs;
  cs_names : Forall (fun c => is_cstr (name c) /\ name c <> []) cs
}.

Lemma child_named_cons s c cs :
  child_named s (c :: cs) = if decide (name c = s) then Some c else child_named s cs.
Proof.
  unfold child_named; simpl; destruct (decide (name c = s)); [done |].
  by destruct (list_find _ cs) as [[] |].
Qed.

Lemma child_named_None s cs : child_named s cs = None <-> Forall (fun c => name c <> s) cs.
Proof. unfold child_named; rewrite fmap_None; apply list_find_None. Qed.

Lemma child_named_app s l1 l2 :
  child_named s (l1 ++ l2) = match child_named s l1 with Some c => Some c | None => child_named s l2 end.
Proof.
  induction l1 as [| c l1 IH]; simpl; [done |]; rewrite !child_named_cons.
  by destruct (decide _).
Qed.

Lemma child_named_elem s cs c : child_named s cs = Some c -> c ∈ cs /\ name c = s.
Proof.
  unfold child_named; rewrite fmap_Some; intros ([i d] & H & ->).
  apply list_find_Some in H as (Hi & Hs & _); simpl; eauto using list_elem_of_lookup_2.
Qed.

(** Names are unique in a sorted array. *)
Lemma child_named_split s l1 c l2 :
  children_ok (l1 ++ c :: l2) -> name c = s -> child_named s (l1 ++ c :: l2) = Some c.
Proof.
  intros [Hs _] Hc; rewrite child_named_app, child_named_cons, decide_True by done.
  destruct (child_named s l1) as [d |] eqn:E; [| done].
  apply child_named_elem in E as [Hd Hn].
  assert (L := StronglySorted_app_1_elem_of node_lt _ _ d c Hs Hd ltac:(left)).
  unfold node_lt in L; rewrite Hn, <- Hc in L; by apply strcmp_irrefl in L.
Qed.

Lemma child_named_Some s cs c :
  children_ok cs -> child_named s cs = Some c <-> c ∈ cs /\ name c = s.
Proof.
  intros Hok; split; [apply child_named_elem |]; intros [Hin Hn].
  apply list_elem_of_split in Hin as (l1 & l2 & ->); by apply child_named_split.
Qed.

Lemma sorted_lookup cs i j x y :
  StronglySorted node_lt cs -> cs !! i = Some x -> cs !! j = Some y -> (i < j)%nat -> node_lt x y.
Proof.
  intros Hs; revert i j; induction Hs as [| c cs _ IH Hc]; intros i j Hi Hj Hij; [done |].
  destruct j as [| j]; [lia |]; destruct i as [| i]; simplify_eq/=.
  - rewrite Forall_lookup in Hc; eauto.
  - eapply IH; eauto; lia.
Qed.

(** What the search of a sorted array finds. *)
Definition bsearch_post (cs : list reg_node) (seg : str) (res : Z + Z) : Prop :=
  match res with
  | inl i => 0 <= i < zlen cs /\ name (znth (empty_node []) cs i) = seg
  | inr lo => 0 <= lo <= zlen cs /\
              (forall j, 0 <= j < lo -> strcmp (name (znth (empty_node []) cs j)) seg < 0) /\
              (forall j, lo <= j < zlen cs -> 0 < strcmp (name (znth (empty_node []) cs j)) seg)
  end.

Lemma bsearch_spec cs seg : children_ok cs -> is_cstr seg -> bsearch_post cs seg (bsearch cs seg).
Proof.
  intros [Hs Hn] Hseg; unfold bsearch.
  assert (Hlt : forall i j, 0 <= i < zlen cs -> 0 <= j < zlen cs -> i < j ->
            strcmp (name (znth (empty_node []) cs i)) (name (znth (empty_node []) cs j)) < 0).
  { intros i j Hi Hj Hij; eapply (sorted_lookup cs (Z.to_nat i) (Z.to_nat j));
      [done | by apply znth_in_range | by apply znth_in_range | lia]. }
  assert (Hc : forall i, 0 <= i < zlen cs -> is_cstr (name (znth (empty_node []) cs i))).
  { intros i Hi; rewrite Forall_lookup in Hn; eapply Hn, znth_in_range; done. }
  destruct (loop_total
    (fun '((lo, hi) : Z * Z) => 0 <= lo /\ hi < zlen cs /\ lo <= hi + 1 /\
       (forall j, 0 <= j < lo -> strcmp (name (znth (empty_node []) cs j)) seg < 0) /\
       (forall j, hi < j < zlen cs -> 0 < strcmp (name (znth (empty_node []) cs j)) seg))
    (fun '((lo, hi) : Z * Z) => Z.to_nat (hi - lo + 1)) (bsearch_post cs seg) (bsearch_step cs seg))
    with (fuel := S (length cs)) (s := (0, zlen cs - 1)) as (res & -> & Hres); [| | | done].
  - intros [lo hi] (H0 & H1 & H2 & Hl & Hh); unfold bsearch_step; destruct (Z.leb_spec lo hi).
    2: { simpl; split; [lia |]; split; [done |]; intros; apply Hh; lia. }
    assert (Hmid : lo <= lo + (hi - lo) / 2 <= hi)
      by (split; [| assert ((hi - lo) / 2 <= hi - lo) by (apply Z.div_le_upper_bound; lia)];
          assert (0 <= (hi - lo) / 2) by (apply Z.div_pos; lia); lia).
    set (mid := lo + (hi - lo) / 2) in *.
    destruct (Z.eqb_spec (strcmp (name (znth (empty_node []) cs mid)) seg) 0) as [E | E].
    { split; [lia |]; apply strcmp_eq; [apply Hc; lia | done | done]. }
    case_if; (split; [| lia]); repeat split; try lia; auto.
    + intros j Hj; destruct (Z.eq_dec j mid) as [-> |]; [lia |].
      destruct (Z_lt_le_dec j lo); [apply Hl; lia |].
      eapply strcmp_lt_trans; [| | | apply (Hlt j mid) | ]; auto; try apply Hc; lia.
    + intros j Hj; destruct (Z.eq_dec j mid) as [-> |]; [lia |].
      apply strcmp_antisym; eapply strcmp_lt_trans; [| | | | apply (Hlt mid j)];
        auto; try apply Hc; try lia; apply strcmp_antisym; lia.
  - assert (0 <= zlen cs) by apply zlen_nonneg; repeat split; try lia; intros; lia.
  - unfold zlen; lia.
Qed.

Lemma znth_split (d : reg_node) cs i :
  0 <= i < zlen cs ->
  cs = take (Z.to_nat i) cs ++ znth d cs i :: drop (S (Z.to_nat i)) cs.
Proof. intros Hi; symmetry; apply take_drop_middle, znth_in_range; done. Qed.

(** The search as a lookup by name. *)
Lemma node_find_child_named p seg :
  children_ok (children p) -> is_cstr seg -> node_find_child p seg = child_named seg (children p).
Proof.
  intros Hok Hseg; unfold node_find_child; assert (B := bsearch_spec _ _ Hok Hseg).
  destruct (bsearch (children p) seg) as [i | lo]; simpl in B.
  - destruct B as [Hi Hn]; rewrite (znth_split (empty_node []) (children p) i Hi) in Hok |- * at 2.
    by rewrite child_named_split.
  - destruct B as (Hlo & Hl & Hh); symmetry; apply child_named_None, Forall_lookup.
    intros j c Hj; assert (Hjl := lookup_lt_Some _ _ _ Hj).
    assert (E : znth (empty_node []) (children p) (Z.of_nat j) = c)
      by (apply znth_lookup; [lia |]; by rewrite Nat2Z.id).
    intros <-; destruct (Z_lt_le_dec (Z.of_nat j) lo) as [L | L].
    + specialize (Hl (Z.of_nat j) ltac:(lia)); rewrite E in Hl; by apply strcmp_irrefl in Hl.
    + specialize (Hh (Z.of_nat j) ltac:(unfold zlen; lia)); rewrite E, strcmp_refl in Hh; lia.
Qed.

(** ** Well-formed trees *)

(** Every child array is sorted, within its capacity, and named by non-empty
    segments; every value fits its field. *)
Inductive wf_node : reg_node -> Prop :=
| wf_intro n :
    is_cstr (value n) -> zlen (value n) < MAX_VAL_LEN ->
    children_ok (children n) -> zlen (children n) <= cap_children n ->
    Forall wf_node (children n) -> wf_node n.

Lemma wf_children n : wf_node n -> children_ok (children n).
Proof. by inversion 1. Qed.

Lemma wf_child n s c : wf_node n -> child_named s (children n) = Some c -> wf_node c /\ name c = s.
Proof.
  inversion 1 as [m _ _ _ _ Hf]; subst; intros [Hin Hn]%child_named_elem.
  rewrite Forall_forall in Hf; auto.
Qed.

Lemma wf_empty s : wf_node (empty_node s).
Proof.
  constructor; simpl; [apply is_cstr_nil | done | split; constructor | done | constructor].
Qed.

Lemma wf_node_at p n m : wf_node n -> node_at p n = Some m -> wf_node m.
Proof.
  revert n; induction p as [| s p IH]; simpl; intros n Hn; [by intros [= <-] |].
  destruct (child_named s (children n)) as [c |] eqn:E; simpl; [| done].
  apply IH; by eapply wf_child in E as [? _].
Qed.

(** The map the tree stands for: the value and owner of the leaf at a path. *)
Definition leaf_of (n : reg_node) : option (str * Z) :=
  if is_leaf n then Some (value n, node_owner n) else None.

Definition leaf_at (p : path) (n : reg_node) : option (str * Z) := node_at p n ≫= leaf_of.

Lemma leaf_at_cons s p n : leaf_at (s :: p) n = child_named s (children n) ≫= leaf_at p.
Proof. unfold leaf_at; simpl; by destruct (child_named s (children n)). Qed.

Lemma leaf_at_empty s p : leaf_at p (empty_node s) = None.
Proof. by destruct p. Qed.

(** ** Replacing children *)

Lemma child_named_map s t f n :
  (forall c, name c = t -> name (f c) = t) ->
  child_named s (children (map_child t f n)) =
  if decide (s = t) then f <$> child_named s (children n) else child_named s (children n).
Proof.
  intros Hf; cbn [map_child with_children children].
  induction (children n) as [| c cs IH]; [by destruct (decide _) |].
  rewrite fmap_cons, !child_named_cons, IH; repeat case_bool_decide; repeat case_decide; subst;
    simpl; try done; by rewrite Hf in * by done.
Qed.

(** Changing a child in place keeps the array sorted. *)
Lemma children_ok_names cs ds : name <$> ds = name <$> cs -> children_ok cs -> children_ok ds.
Proof.
  intros E [Hs Hn]; revert ds E; induction Hs as [| c cs _ IH Hc]; intros [| d ds] E; simplify_eq/=;
    [split; constructor |].
  apply Forall_cons in Hn as [Hcn Hn]; destruct (IH Hn ds) as [Hs' Hn']; [done |].
  assert (Hlt : Forall (node_lt d) ds).
  { apply Forall_forall; intros x Hx; apply (list_elem_of_fmap_2 name) in Hx.
    rewrite H0 in Hx; apply list_elem_of_fmap in Hx as (y & Hy & Hin).
    unfold node_lt; rewrite H, Hy; rewrite Forall_forall in Hc; by apply Hc. }
  split; constructor; auto; by rewrite H.
Qed.

Lemma map_child_names t f n :
  (forall c, name c = t -> name (f c) = t) ->
  name <$> children (map_child t f n) = name <$> children n.
Proof.
  intros Hf; simpl; rewrite <- list_fmap_compose; apply list_fmap_ext; intros i c _; simpl.
  case_bool_decide; [by rewrite Hf |]; done.
Qed.

Lemma wf_map_child t f n :
  (forall c, name c = t -> name (f c) = t) ->
  (forall c, child_named t (children n) = Some c -> wf_node (f c)) ->
  wf_node n -> wf_node (map_child t f n).
Proof.
  intros Hf Hw Hn; assert (E := map_child_names t f n Hf).
  inversion Hn as [m Hv Hl Hok Hcap Hch]; subst; constructor; try done.
  - by eapply children_ok_names.
  - simpl; unfold zlen in *; by rewrite length_fmap.
  - simpl; apply Forall_forall; intros c (d & -> & Hd)%list_elem_of_fmap.
    case_bool_decide; [apply Hw, child_named_Some; auto |]; rewrite Forall_forall in Hch; auto.
Qed.

(** ** Adding a child *)

(** The parent after [seg] was looked up or added. *)
Definition added (n n1 : reg_node) (seg : str) : Prop :=
  forall s, child_named s (children n1) =
    if decide (s = seg) then Some (default (empty_node seg) (child_named seg (children n)))
    else child_named s (children n).

Definition same_head (n m : reg_node) : Prop :=
  name m = name n /\ value m = value n /\ node_owner m = node_owner n /\ is_leaf m = is_leaf n.

(** Inserting at the point the search returns keeps the array sorted. *)
Lemma insert_sorted cs seg lo c :
  children_ok cs -> is_cstr seg -> seg <> [] -> name c = seg ->
  bsearch_post cs seg (inr lo) ->
  children_ok (take (Z.to_nat lo) cs ++ c :: drop (Z.to_nat lo) cs).
Proof.
  intros [Hs Hn] Hc Hne Hnm (Hlo & Hl & Hh); set (i := Z.to_nat lo) in *.
  rewrite <- (take_drop i cs) in Hs, Hn; apply Forall_app in Hn as [Hn1 Hn2].
  assert (Hz : forall j x, cs !! j = Some x -> znth (empty_node []) cs (Z.of_nat j) = x)
    by (intros; apply znth_lookup; [lia | by rewrite Nat2Z.id]).
  assert (Hb : forall x, x ∈ take i cs -> node_lt x c).
  { intros x (j & Hj)%list_elem_of_lookup_1; apply lookup_take_Some in Hj as [Hj Hji].
    unfold node_lt; rewrite Hnm, <- (Hz j x Hj); apply Hl; unfold i in *; lia. }
  assert (Ha : forall x, x ∈ drop i cs -> node_lt c x).
  { intros x (j & Hj)%list_elem_of_lookup_1; rewrite lookup_drop in Hj.
    assert (Hjl := lookup_lt_Some _ _ _ Hj).
    unfold node_lt; apply strcmp_antisym; rewrite Hnm, <- (Hz _ x Hj); apply Hh; unfold i, zlen in *; lia. }
  apply StronglySorted_app in Hs as (Hx & Hs1 & Hs2); split.
  - apply StronglySorted_app; split; [| split; [done |]].
    + intros x y Hin Hy; apply elem_of_cons in Hy as [-> | Hy]; auto.
    + constructor; [done |]; by apply Forall_forall.
  - apply Forall_app; split; [done |]; constructor; [by rewrite Hnm | done].
Qed.

Lemma child_named_insert cs c s i :
  child_named (name c) cs = None ->
  child_named s (take i cs ++ c :: drop i cs) =
  if decide (s = name c) then Some c else child_named s cs.
Proof.
  intros Hn; rewrite <- (take_drop i cs), child_named_app in Hn.
  assert (E : child_named s cs = child_named s (take i cs ++ drop i cs)) by (by rewrite take_drop).
  rewrite E, !child_named_app, child_named_cons.
  destruct (decide (s = name c)) as [-> | Hne].
  - rewrite decide_True by done; by destruct (child_named (name c) (take i cs)).
  - by rewrite decide_False by done.
Qed.

Section alloc.
Context (kmalloc_ok : nat -> Z -> bool).

(** Some allocation from number [a] on was refused. *)
Definition oom_after (a : nat) : Prop := exists k sz, (a <= k)%nat /\ kmalloc_ok k sz = false.

Lemma node_get_or_add_spec a n seg n1 a1 res :
  wf_node n -> is_cstr seg -> seg <> [] -> strlen seg < MAX_KEY_LEN ->
  node_get_or_add kmalloc_ok a n seg = (n1, a1, res) ->
  wf_node n1 /\ same_head n n1 /\ (a <= a1)%nat /\
  match res with
  | Some cn => cn = seg /\ added n n1 seg
  | None => children n1 = children n /\ oom_after a
  end.
Proof.
  intros Hn Hc Hne Hl; unfold node_get_or_add.
  inversion Hn as [m Hv Hvl Hok Hcap Hch]; subst m.
  assert (B := bsearch_spec _ _ Hok Hc); destruct (bsearch (children n) seg) as [i | lo] eqn:EB.
  - intros [= <- <- <-]; simpl in B; destruct B as [Hi Hnm].
    split; [done |]; split; [done |]; split; [done |]; split; [done |]; intros s.
    case_decide; [subst s | done].
    rewrite (znth_split (empty_node []) (children n) i Hi) in Hok |- *.
    by rewrite child_named_split.
  - assert (Hnone : child_named seg (children n) = None)
      by (rewrite <- node_find_child_named by done; unfold node_find_child; by rewrite EB).
    set (full := zlen (children n) =? cap_children n).
    set (newcap := if cap_children n =? 0 then 4 else cap_children n * 2).
    destruct (full && negb (kmalloc_ok a (8 * newcap))) eqn:Eg.
    { intros [= <- <- <-]; split; [done |]; split; [done |]; split; [lia |]; split; [done |].
      exists a, (8 * newcap); split; [lia |]; apply andb_true_iff in Eg as [_ Eg]; by apply negb_true_iff. }
    set (n0 := if full then with_children n (children n) newcap else n).
    set (a0 := if full then S a else a).
    assert (H0 : children n0 = children n /\ same_head n n0 /\ (a <= a0)%nat /\ zlen (children n) < cap_children n0).
    { assert (0 <= zlen (children n)) by apply zlen_nonneg.
      unfold n0, a0, full, newcap; destruct (Z.eqb_spec (zlen (children n)) (cap_children n)); simpl.
      - repeat split; [lia |]; case_if; lia.
      - repeat split; lia. }
    destruct H0 as (Hcs & Hh & Ha & Hcap0).
    unfold node_alloc; destruct (kmalloc_ok a0 sizeof_reg_node) eqn:Ek; intros [= <- <- <-].
    + rewrite strcopy_fits by done; split; [| split; [done |]; split; [lia |]; split; [done |]].
      * constructor; simpl; rewrite ?Hcs; destruct Hh as (_ & Hhv & _); rewrite ?Hhv; try done.
        -- by apply (insert_sorted _ seg).
        -- unfold zlen in *; rewrite length_app; simpl; rewrite length_take, length_drop; lia.
        -- apply Forall_app; split; [by apply Forall_take |]; constructor; [apply wf_empty | by apply Forall_drop].
      * intros s; simpl; rewrite Hcs, child_named_insert by done; by rewrite Hnone.
    + split; [| split; [done |]; split; [lia |]; split; [done |]; exists a0, sizeof_reg_node; auto].
      constructor; rewrite ?Hcs; destruct Hh as (_ & Hhv & _); rewrite ?Hhv; try done; lia.
Qed.
End alloc.

(** ** Keys *)

(** The text between dots: the reference for the key parser. *)
Fixpoint split_dots (key : str) : list str :=
  match key with
  | [] => [[]]
  | c :: t =>
    if c =? DOT then [] :: split_dots t
    else match split_dots t with s :: r => (c :: s) :: r | [] => [[c]] end
  end.

Definition clip (s : str) : str := take (Z.to_nat (MAX_KEY_LEN - 1)) s.

Definition key_path (key : str) : path := filter (fun s => s <> []) (clip <$> split_dots key).

Fixpoint before_dot (p : str) : str :=
  match p with c :: q => if c =? DOT then [] else c :: before_dot q | [] => [] end.

Fixpoint after_dot (p : str) : str :=
  match p with c :: q => if c =? DOT then q else after_dot q | [] => [] end.

Lemma take_seg_spec room p :
  exists r, take_seg room p = (take room (before_dot p), r) /\ skip_tail r = skip_tail p.
Proof.
  revert p; induction room as [| m IH]; intros p; [by exists p |].
  destruct p as [| c q]; [by exists [] |]; simpl; destruct (Z.eqb_spec c DOT) as [-> | Hne].
  - exists (DOT :: q); simpl; done.
  - destruct (IH q) as (r & -> & Hr); exists r; simpl; done.
Qed.

Lemma skip_tail_after p :
  match skip_tail p with c :: q => if c =? DOT then q else skip_tail p | [] => [] end = after_dot p.
Proof.
  induction p as [| c q IH]; simpl; [done |].
  destruct (c =? DOT) eqn:E; [by rewrite E | done].
Qed.

Lemma next_seg_spec p : next_seg p = (clip (before_dot p), after_dot p).
Proof.
  unfold next_seg; destruct (take_seg_spec (Z.to_nat (MAX_KEY_LEN - 1)) p) as (r & -> & ->).
  f_equal; apply skip_tail_after.
Qed.

Lemma key_path_step p : key_path p = filter (fun s => s <> []) [clip (before_dot p)] ++ key_path (after_dot p).
Proof.
  unfold key_path; rewrite <- filter_app; induction p as [| c q IH]; [done |]; simpl.
  destruct (c =? DOT); [done |].
  assert (E : exists s r, split_dots q = s :: r /\ before_dot q = s /\
    filter (fun s => s <> []) (clip <$> r) = filter (fun s => s <> []) (clip <$> split_dots (after_dot q))).
  { clear IH; induction q as [| d q IH]; simpl; [by exists [], [] |].
    destruct (d =? DOT); [by eexists _, _ |].
    destruct IH as (s & r & -> & -> & E); by eexists _, _. }
  destruct E as (s & r & -> & -> & E).
  rewrite fmap_cons, !filter_cons; simpl; by rewrite E.
Qed.

Lemma after_dot_length p : (length (after_dot p) <= length p - 1)%nat.
Proof.
  induction p as [| c q IH]; simpl; [lia |]; destruct (c =? DOT); [lia |].
  destruct q; simpl in *; lia.
Qed.

(** The parser of [walk_path] computes the non-empty pieces between dots, each
    cut to 63 bytes. *)
Lemma segments_key_path key : segments key = key_path key.
Proof.
  unfold segments; assert (H : (length key <= length key)%nat) by lia; revert H.
  generalize (length key) at 2 3; intros fuel; revert key.
  induction fuel as [| m IH]; intros key Hf; destruct key as [| c q]; try done; [simpl in Hf; lia |].
  cbn [segments_from]; rewrite next_seg_spec, key_path_step.
  assert (Ha := after_dot_length (c :: q)); cbn [length] in Ha, Hf.
  rewrite IH by lia; rewrite filter_cons, filter_nil.
  case_bool_decide as Hc; [by rewrite decide_False by tauto | by rewrite decide_True].
Qed.

Definition seg_ok (s : str) : Prop := is_cstr s /\ s <> [] /\ strlen s < MAX_KEY_LEN.

Lemma segments_ok key : is_cstr key -> Forall seg_ok (segments key).
Proof.
  intros Hk; rewrite segments_key_path; apply Forall_forall; intros s Hs.
  apply list_elem_of_filter in Hs as [Hne (t & -> & Ht)%list_elem_of_fmap].
  split; [| split; [done | unfold strlen, zlen, clip; rewrite length_take; unfold MAX_KEY_LEN; lia]].
  apply is_cstr_take; clear Hne; revert t Ht; induction Hk as [| c k Hc _ IH]; simpl; intros t Ht.
  - apply list_elem_of_singleton in Ht as ->; constructor.
  - destruct (c =? DOT); [apply elem_of_cons in Ht as [-> | Ht]; [constructor | auto] |].
    destruct (split_dots k) as [| u r].
    + apply list_elem_of_singleton in Ht as ->; repeat constructor; lia.
    + apply elem_of_cons in Ht as [-> | Ht]; [| apply IH; by right].
      constructor; [done |]; apply IH; by left.
Qed.

Lemma key_has_segment_path key : key_has_segment key = negb (bool_decide (segments key = [])).
Proof.
  rewrite segments_key_path; unfold key_has_segment, key_path.
  induction key as [| c k IH]; simpl; [done |].
  destruct (c =? DOT); simpl; [rewrite filter_cons_False by (unfold clip; rewrite take_nil; tauto); done |].
  destruct (split_dots k) as [| u r]; [done |]; rewrite fmap_cons, filter_cons_True; done.
Qed.

(** ** Walking the tree *)

Lemma walk_find_node_at n segs :
  wf_node n -> Forall seg_ok segs ->
  walk_find n segs = match node_at segs n with Some _ => Some segs | None => None end.
Proof.
  intros Hn Hs; revert n Hn; induction Hs as [| s segs (Hc & Hne & _) _ IH]; intros n Hn; simpl; [done |].
  rewrite node_find_child_named by (done || by apply wf_children).
  destruct (child_named s (children n)) as [c |] eqn:E; simpl; [| done].
  apply wf_child in E as [Hwc <-]; [| done]; rewrite IH by done.
  by destruct (node_at segs c).
Qed.

(** Changing the leaf fields of the node at [q]. *)
Definition leaf_update (f : reg_node -> reg_node) : Prop :=
  forall n, name (f n) = name n /\ children (f n) = children n /\ cap_children (f n) = cap_children n.

Lemma modify_at_name q f n : (forall m, name (f m) = name m) -> name (modify_at q f n) = name n.
Proof. intros Hf; destruct q; simpl; auto. Qed.

Lemma node_at_modify_below q t f n :
  (forall m, name (f m) = name m) ->
  node_at (q ++ t) (modify_at q f n) = node_at q n ≫= (fun m => node_at t (f m)).
Proof.
  intros Hf; revert n; induction q as [| s q IH]; intros n; [done |].
  cbn [app node_at modify_at]; rewrite child_named_map by (intros; rewrite modify_at_name; done).
  rewrite decide_True by done; destruct (child_named s (children n)) as [c |]; [| done].
  apply IH.
Qed.

Lemma node_at_app q t n : node_at (q ++ t) n = node_at q n ≫= node_at t.
Proof.
  revert n; induction q as [| s q IH]; intros n; [done |]; simpl.
  by destruct (child_named s (children n)); simpl.
Qed.

(** Two nodes alike but for what is below them. *)
Definition alike (n m : reg_node) : Prop :=
  same_head n m /\ length (children m) = length (children n).

Lemma alike_refl n : alike n n.
Proof. done. Qed.
#[local] Hint Resolve alike_refl : core.

Lemma node_at_modify_other q p f n :
  (forall m, name (f m) = name m) -> ~ q `prefix_of` p ->
  option_Forall2 alike (node_at p n) (node_at p (modify_at q f n)).
Proof.
  intros Hf; revert p n; induction q as [| s q IH]; intros p n Hp; [by destruct Hp; eexists |].
  destruct p as [| t p].
  { constructor; split; [done |]; simpl; apply length_fmap. }
  cbn [node_at modify_at]; rewrite child_named_map by (intros; rewrite modify_at_name; done).
  destruct (decide (t = s)) as [-> | Hne].
  - destruct (child_named s (children n)) as [c |]; simpl; [| constructor].
    apply IH; contradict Hp; by apply prefix_cons.
  - destruct (child_named t (children n)) as [c |]; simpl; [| constructor].
    destruct (node_at p c); by constructor.
Qed.

Lemma leaf_of_alike n m : alike n m -> leaf_of m = leaf_of n.
Proof. unfold leaf_of; intros [(_ & -> & -> & ->) _]; done. Qed.

Lemma leaf_at_modify_other q p f n :
  (forall m, name (f m) = name m) -> ~ q `prefix_of` p -> leaf_at p (modify_at q f n) = leaf_at p n.
Proof.
  intros Hf Hp; unfold leaf_at; destruct (node_at_modify_other q p f n Hf Hp); simpl; [| done].
  by apply leaf_of_alike.
Qed.

Lemma node_at_children t n m : children n = children m -> t <> [] -> node_at t n = node_at t m.
Proof. intros E; destruct t; simpl; [done |]; by rewrite E. Qed.

(** The map after the leaf at [q] was rewritten. *)
Lemma leaf_at_update q p f n :
  leaf_update f ->
  leaf_at p (modify_at q f n) =
  if decide (p = q) then node_at q n ≫= (fun m => leaf_of (f m)) else leaf_at p n.
Proof.
  intros Hf; assert (Hn : forall m, name (f m) = name m) by (intros; apply Hf).
  destruct (decide (q `prefix_of` p)) as [(t & ->) | Hp].
  - unfold leaf_at; rewrite node_at_modify_below by done; case_decide as E.
    + rewrite <- (app_nil_r q) in E at 2; apply app_inj_1 in E as [_ ->]; [| done].
      by destruct (node_at q n).
    + assert (Ht : t <> []) by (intros ->; by rewrite app_nil_r in E).
      rewrite node_at_app; destruct (node_at q n) as [m |]; simpl; [| done].
      rewrite (node_at_children t (f m) m); [done | apply Hf | done].
  - rewrite leaf_at_modify_other by done; by rewrite decide_False by (intros ->; by destruct Hp).
Qed.

Lemma wf_modify q f n :
  (forall m, name (f m) = name m) ->
  (forall m, node_at q n = Some m -> wf_node m -> wf_node (f m)) -> wf_node n -> wf_node (modify_at q f n).
Proof.
  intros Hf; revert n; induction q as [| s q IH]; intros n Hw Hn; simpl; [by apply Hw |].
  apply wf_map_child; [intros; by rewrite modify_at_name | | done].
  intros c Hc; apply IH.
  - intros m Hm; apply Hw; simpl; by rewrite Hc.
  - by eapply wf_child in Hc as [? _].
Qed.

Section create.
Context (kmalloc_ok : nat -> Z -> bool).

Lemma leaf_at_default p s o : leaf_at p (default (empty_node s) o) = o ≫= leaf_at p.
Proof. destruct o; simpl; [done |]; apply leaf_at_empty. Qed.

(** Creating a path adds no leaf and loses none. *)
Lemma walk_create_spec segs a n n' a' res :
  wf_node n -> Forall seg_ok segs -> walk_create kmalloc_ok a n segs = (n', a', res) ->
  wf_node n' /\ same_head n n' /\ (a <= a')%nat /\ (forall p, leaf_at p n' = leaf_at p n) /\
  match res with
  | Some q => q = segs /\ is_Some (node_at segs n')
  | None => oom_after kmalloc_ok a
  end.
Proof.
  intros Hn Hs; revert a n n' a' res Hn.
  induction Hs as [| s segs (Hc & Hne & Hl) Hs IH]; intros a n n' a' res Hn; simpl.
  { intros [= <- <- <-]; do 4 (split; [done |]); eauto. }
  destruct (node_get_or_add kmalloc_ok a n s) as [[n1 a1] [cn |]] eqn:E;
    apply node_get_or_add_spec in E as (Hw1 & Hh1 & Ha1 & E); try done.
  2: { intros [= <- <- <-]; destruct E as [Hcs Ho]; do 3 (split; [done |]); split; [| done].
       intros [| t p]; [by apply leaf_of_alike; split; [| by rewrite Hcs] |].
       by rewrite !leaf_at_cons, Hcs. }
  destruct E as [-> Hadd].
  assert (Es := Hadd s); rewrite decide_True in Es by done; rewrite Es.
  set (c := default (empty_node s) (child_named s (children n))) in *.
  assert (Hwc : wf_node c /\ name c = s) by (by eapply wf_child).
  destruct Hwc as [Hwc Hcn].
  destruct (walk_create kmalloc_ok a1 c segs) as [[c' a2] q] eqn:Ew.
  apply IH in Ew as (Hwc' & (Hc'n & _) & Ha2 & Hleaf & Hq); [| done].
  intros [= <- <- <-].
  assert (Hnm : forall d, name d = s -> name c' = s) by (intros; congruence).
  split; [apply wf_map_child; auto |]; split; [done |]; split; [lia |]; split.
  - intros [| t p]; [unfold leaf_at, leaf_of; simpl; destruct Hh1 as (_ & -> & -> & ->); done |].
    rewrite !leaf_at_cons, child_named_map, (Hadd t) by done; destruct (decide (t = s)) as [-> |]; [| done].
    simpl; rewrite Hleaf; apply leaf_at_default.
  - destruct q as [q |]; cbn [fmap option_fmap option_map node_at].
    + destruct Hq as [-> Hq]; split; [done |].
      rewrite child_named_map, decide_True, Es by done; done.
    + destruct Hq as (k & sz & Hk & Hf); exists k, sz; split; [lia | done].
Qed.
End create.

(** ** The leaves of the tree, in enumeration order *)

Fixpoint leaf_paths (n : reg_node) : list path :=
  mjoin ((fun c => (if is_leaf c then [[name c]] else []) ++ (cons (name c) <$> leaf_paths c))
           <$> children n).

Lemma elem_of_leaf_paths_cons s p n :
  wf_node n ->
  s :: p ∈ leaf_paths n <->
  exists c, child_named s (children n) = Some c /\ (p = [] /\ is_leaf c = true \/ p ∈ leaf_paths c).
Proof.
  intros Hn; assert (Hok := wf_children n Hn); destruct n as [nm v o l cs cap]; simpl in *.
  rewrite list_elem_of_join; split.
  - intros (ls & Hin & (c & -> & Hc)%list_elem_of_fmap); exists c.
    apply elem_of_app in Hin as [Hin | (q & [= -> ->] & Hq)%list_elem_of_fmap].
    + destruct (is_leaf c) eqn:El; [| by apply elem_of_nil in Hin].
      apply list_elem_of_singleton in Hin as [= -> ->].
      split; [by apply child_named_Some | auto].
    + split; [by apply child_named_Some | auto].
  - intros (c & (Hc & <-)%child_named_elem & Hp).
    eexists; split; [| apply list_elem_of_fmap; exists c; split; [reflexivity | done]].
    apply elem_of_app; destruct Hp as [[-> ->] | Hp]; [left; by apply list_elem_of_singleton |].
    right; apply list_elem_of_fmap; eauto.
Qed.

Lemma nil_not_leaf_path n : [] ∉ leaf_paths n.
Proof.
  destruct n as [nm v o l cs cap]; simpl; rewrite list_elem_of_join.
  intros (ls & Hin & (c & -> & Hc)%list_elem_of_fmap).
  apply elem_of_app in Hin as [Hin | (q & Hq & _)%list_elem_of_fmap]; [| done].
  destruct (is_leaf c); [by apply list_elem_of_singleton in Hin | by apply elem_of_nil in Hin].
Qed.

Lemma elem_of_leaf_paths p n :
  wf_node n -> p ∈ leaf_paths n <-> p <> [] /\ is_Some (leaf_at p n).
Proof.
  revert n; induction p as [| s p IH]; intros n Hn.
  { split; [intros H; by apply nil_not_leaf_path in H | naive_solver]. }
  rewrite elem_of_leaf_paths_cons, leaf_at_cons by done.
  destruct (child_named s (children n)) as [c |] eqn:E; simpl.
  2: { split; [naive_solver | intros [_ [x Hx]]; done]. }
  apply wf_child in E as [Hc _]; [| done]; assert (E := IH c Hc).
  unfold leaf_at, leaf_of in *; split.
  - intros (c' & [= <-] & [[-> Hl] | Hp]); (split; [done |]); [simpl; rewrite Hl; eauto | by apply E].
  - intros [_ Hs]; exists c; split; [done |]; destruct p as [| t p]; [| right; by apply E].
    left; split; [done |]; simpl in Hs; destruct (is_leaf c); [done | by destruct Hs].
Qed.

(** ** Enumeration *)

Fixpoint reg_node_tree_ind (P : reg_node -> Prop)
    (H : forall nm v o l cs cap, Forall P cs -> P (RegNode nm v o l cs cap)) (n : reg_node) : P n :=
  match n with
  | RegNode nm v o l cs cap =>
    H nm v o l cs cap ((fix go (cs : list reg_node) : Forall P cs :=
      match cs with
      | [] => List.Forall_nil P
      | c :: cs' => List.Forall_cons P c cs' (reg_node_tree_ind P H c) (go cs')
      end) cs)
  end.

(** Order of paths: segment by segment, a directory before what it holds. *)
Fixpoint path_lt (p q : path) : Prop :=
  match p, q with
  | _, [] => False
  | [], _ :: _ => True
  | a :: p', b :: q' => strcmp a b < 0 \/ (a = b /\ path_lt p' q')
  end.

Definition child_paths (c : reg_node) : list path :=
  (if is_leaf c then [[name c]] else []) ++ (cons (name c) <$> leaf_paths c).

Lemma leaf_paths_children n : leaf_paths n = mjoin (child_paths <$> children n).
Proof. by destruct n. Qed.

Lemma child_paths_head c p : p ∈ child_paths c -> exists q, p = name c :: q.
Proof.
  unfold child_paths; intros [Hp | (q & -> & _)%list_elem_of_fmap]%elem_of_app; [| by eexists].
  destruct (is_leaf c); [apply list_elem_of_singleton in Hp as ->; by eexists | by apply elem_of_nil in Hp].
Qed.

Lemma leaf_paths_sorted n : wf_node n -> StronglySorted path_lt (leaf_paths n).
Proof.
  induction n as [nm v o l cs cap IH] using reg_node_tree_ind; intros Hn.
  rewrite leaf_paths_children; inversion Hn as [m _ _ [Hs _] _ Hf]; subst; simpl in *; clear Hn.
  induction Hs as [| c cs _ IHcs Hc]; simpl; [constructor |].
  apply Forall_cons in IH as [IHc IH]; apply Forall_cons in Hf as [Hwc Hf].
  apply StronglySorted_app; split; [| split; [| by apply IHcs]].
  - intros p q (p' & ->)%child_paths_head (ls & Hq & (d & -> & Hd)%list_elem_of_fmap)%list_elem_of_join.
    apply child_paths_head in Hq as (q' & ->); left; rewrite Forall_forall in Hc; by apply Hc.
  - unfold child_paths; apply StronglySorted_app; split; [| split].
    + intros p q Hp (q' & -> & Hq)%list_elem_of_fmap; destruct (is_leaf c); [| by apply elem_of_nil in Hp].
      apply list_elem_of_singleton in Hp as ->; right; split; [done |].
      destruct q'; [by apply nil_not_leaf_path in Hq | done].
    + destruct (is_leaf c); repeat constructor.
    + specialize (IHc Hwc); clear -IHc; induction IHc as [| p ps _ IH Hp]; simpl; constructor; [done |].
      apply Forall_fmap; eapply Forall_impl; [done |]; intros q Hq; by right.
Qed.

Lemma path_lt_irrefl p : ~ path_lt p p.
Proof. induction p as [| s p IH]; simpl; [tauto |]; intros [H | [_ H]]; [by apply strcmp_irrefl in H | auto]. Qed.

Lemma leaf_paths_NoDup n : wf_node n -> NoDup (leaf_paths n).
Proof.
  intros H%leaf_paths_sorted; induction H as [| p ps _ IH Hp]; constructor; [| done].
  intros Hin; rewrite Forall_forall in Hp; by apply (path_lt_irrefl p), Hp.
Qed.

(** The dotted form of a path below the path [p]. *)
Definition dot_join (p s : str) : str := match p with [] => s | _ => p ++ DOT :: s end.

Definition dotted (p : str) (q : path) : str := foldl dot_join p q.

(** Offering a key to the output buffer: it is appended with a newline when it
    starts with [prefix] and still fits. *)
Definition offer (prefix : str) (size : Z) (out k : str) : str :=
  if bool_decide (prefix `prefix_of` k) && (zlen out + zlen k + 2 <=? size)
  then out ++ k ++ [NEWLINE] else out.

Lemma dotted_length p q : zlen p <= zlen (dotted p q).
Proof.
  revert p; induction q as [| s q IH]; intros p; simpl; [lia |]; etransitivity; [| apply IH].
  unfold dot_join; destruct p; unfold zlen; simpl; [lia |]; rewrite length_app; simpl; lia.
Qed.

Lemma dot_join_cstr p s : is_cstr p -> is_cstr s -> is_cstr (dot_join p s).
Proof.
  intros Hp Hs; unfold dot_join; destruct p; [done |]; apply Forall_app; split; [done |].
  constructor; [unfold DOT; lia | done].
Qed.

Lemma extend_path_join cap p s :
  zlen (dot_join p s) < cap -> extend_path cap p s = dot_join p s.
Proof.
  unfold extend_path, dot_join; destruct p as [| c p]; intros H.
  - rewrite take_ge; [done |]; unfold zlen in *; simpl in *; lia.
  - rewrite bool_decide_eq_false_2 by done.
    assert (Hl : zlen ((c :: p) ++ DOT :: s) = zlen (c :: p) + 1 + zlen s)
      by (unfold zlen; rewrite length_app; simpl; lia).
    assert (0 <= zlen s) by apply zlen_nonneg.
    destruct (Z.ltb_spec (zlen (c :: p) + 1) cap); [| lia]; simpl negb; cbn [andb].
    rewrite take_ge; [by rewrite <- app_assoc |].
    unfold zlen in *; rewrite length_app in *; simpl in *; lia.
Qed.

Lemma emit_offer c p prefix size out :
  is_cstr p -> is_cstr prefix ->
  emit c p prefix size out = if is_leaf c then offer prefix size out p else out.
Proof.
  intros Hp Hx; unfold emit, offer; destruct (is_leaf c); [| done]; simpl.
  assert (E : (zlen prefix =? 0) || (zlen prefix <=? zlen p) && (strncmp p prefix (length prefix) =? 0)
              = bool_decide (prefix `prefix_of` p)).
  { destruct (Z.eqb_spec (zlen prefix) 0) as [E | E]; simpl.
    - destruct prefix; [| done]; symmetry; apply bool_decide_eq_true_2, prefix_nil.
    - symmetry; case_bool_decide as Hd.
      + destruct Hd as [t ->]; rewrite (proj2 (strncmp_prefix (prefix ++ t) prefix Hp Hx)) by apply take_app_length.
        rewrite andb_true_r; symmetry; apply Z.leb_le; unfold zlen; rewrite length_app; lia.
      + symmetry; apply andb_false_iff; right; apply Z.eqb_neq; intros F; apply Hd.
        apply (strncmp_prefix p prefix Hp Hx) in F; exists (drop (length prefix) p).
        by rewrite <- F at 1; rewrite take_drop. }
  rewrite E; by destruct (bool_decide _); simpl.
Qed.

Lemma enum_dfs_spec n p cap prefix size out :
  wf_node n -> is_cstr p -> is_cstr prefix ->
  (forall q, q ∈ leaf_paths n -> zlen (dotted p q) < cap) ->
  enum_dfs n p cap prefix size out = foldl (offer prefix size) out (dotted p <$> leaf_paths n).
Proof.
  revert p out; induction n as [nm v o l cs k IH] using reg_node_tree_ind; intros p out Hn Hp Hx Hcap.
  rewrite leaf_paths_children in *; inversion Hn as [m _ _ [_ Hnm] _ Hf]; subst; clear Hn; simpl in *.
  revert out; induction cs as [| c cs IHcs]; intros out; [done |].
  apply Forall_cons in IH as [IHc IH], Hf as [Hwc Hf], Hnm as [[Hc _] Hnm]; simpl in *.
  rewrite fmap_app, foldl_app, <- IHcs; try done; [| intros q Hq; apply Hcap, elem_of_app; auto].
  f_equal; clear IHcs IH; set (p' := extend_path cap p (name c)).
  destruct (decide (child_paths c = [])) as [E | E].
  - rewrite E; simpl; unfold child_paths in E; apply app_eq_nil in E as [E1 E2].
    apply fmap_nil_inv in E2; unfold emit; destruct (is_leaf c); [done |]; simpl.
    enough (Hpc : is_cstr p') by (rewrite IHc by (try done; rewrite E2; intros q Hq; by apply elem_of_nil in Hq); by rewrite E2).
    unfold p', extend_path; apply Forall_app; split; [| by apply is_cstr_take].
    destruct (_ && _); [| done]; apply Forall_app; split; [done |]; repeat constructor.
  - assert (Ep : p' = dot_join p (name c)).
    { apply extend_path_join; destruct (child_paths c) as [| q qs] eqn:Eq; [done |].
      destruct (child_paths_head c q) as (q' & ->); [rewrite Eq; left |].
      eapply Z.le_lt_trans; [apply (dotted_length _ q') |].
      apply (Hcap (name c :: q')); left. }
    rewrite Ep; assert (Hj := dot_join_cstr p (name c) Hp Hc).
    rewrite IHc, emit_offer; try done; cycle 1.
    { intros q Hq; apply (Hcap (name c :: q)), elem_of_app; left; unfold child_paths.
      apply elem_of_app; right; by apply list_elem_of_fmap_2. }
    unfold child_paths; rewrite fmap_app, foldl_app, <- list_fmap_compose.
    by destruct (is_leaf c).
Qed.

(** ** Deleting *)

Lemma node_remove_child_spec p s :
  wf_node p -> is_cstr s ->
  wf_node (node_remove_child p s) /\ same_head p (node_remove_child p s) /\
  forall t, child_named t (children (node_remove_child p s)) =
            if decide (t = s) then None else child_named t (children p).
Proof.
  intros Hp Hs; inversion Hp as [m Hv Hvl Hok Hcap Hch]; subst m.
  assert (B := bsearch_spec _ _ Hok Hs); assert (F := node_find_child_named p s Hok Hs).
  unfold node_remove_child, node_find_child in *; destruct (bsearch (children p) s) as [i | lo].
  2: { split; [done |]; split; [done |]; intros t; by case_decide; subst. }
  destruct B as [Hi Hn]; clear F.
  set (l1 := take (Z.to_nat i) (children p)); set (l2 := drop (S (Z.to_nat i)) (children p)).
  set (c := znth (empty_node []) (children p) i) in *.
  assert (E : children p = l1 ++ c :: l2) by (by apply znth_split); rewrite E in Hok, Hch.
  destruct Hok as [Hsort Hnames]; apply StronglySorted_app in Hsort as (Hx & Hs1 & Hs2).
  apply StronglySorted_cons in Hs2 as [Hcl Hs2].
  apply Forall_app in Hnames as [Hn1 [_ Hn2]%Forall_cons], Hch as [Hc1 [_ Hc2]%Forall_cons].
  split; [constructor; simpl; try done | split; [done |]].
  - split; [apply StronglySorted_app; split; [| done] | by apply Forall_app].
    intros x y Hin Hy; apply Hx; [done | by right].
  - etransitivity; [| exact Hcap]; rewrite E; unfold zlen; rewrite !length_app; simpl; lia.
  - by apply Forall_app.
  - intros t; simpl; rewrite E, !child_named_app, child_named_cons, Hn.
    destruct (decide (t = s)) as [-> | Hne]; [| by rewrite decide_False by done].
    rewrite (proj2 (child_named_None s l1)), (proj2 (child_named_None s l2)); [done | |].
    + apply Forall_forall; intros d Hd Hdn; rewrite Forall_forall in Hcl; specialize (Hcl d Hd).
      unfold node_lt in Hcl; rewrite Hdn, Hn in Hcl; by apply strcmp_irrefl in Hcl.
    + apply Forall_forall; intros d Hd Hdn; specialize (Hx d c Hd ltac:(left)).
      unfold node_lt in Hx; rewrite Hdn, Hn in Hx; by apply strcmp_irrefl in Hx.
Qed.

(** A directory with nothing in it. *)
Definition dead (n : reg_node) : Prop := is_leaf n = false /\ children n = [].

Definition pruned (n : reg_node) : Prop := forall p m, p <> [] -> node_at p n = Some m -> ~ dead m.

Definition pruned_but (q : path) (n : reg_node) : Prop :=
  forall p m, p <> [] -> p <> q -> node_at p n = Some m -> ~ dead m.

Lemma dead_alike n m : alike n m -> dead m -> dead n.
Proof.
  intros [(_ & _ & _ & El) Ec] [Hl Hc]; split; [congruence |].
  rewrite Hc in Ec; by destruct (children n).
Qed.

Lemma dead_leaf p n : dead n -> leaf_at p n = None.
Proof.
  intros [Hl Hc]; destruct p; [unfold leaf_at, leaf_of; simpl; by rewrite Hl |].
  by rewrite leaf_at_cons, Hc.
Qed.

(** Unlinking a dead child. *)
Section unlink.
Context (root : reg_node) (up : path) (s : str) (d : reg_node).
Context (Hroot : wf_node root) (Hs : is_cstr s).
Context (Hd : node_at (up ++ [s]) root = Some d) (Hdead : dead d).
Let root' := modify_at up (fun p => node_remove_child p s) root.

#[local] Lemma remove_name m : name (node_remove_child m s) = name m.
Proof. unfold node_remove_child; by destruct (bsearch _ _). Qed.

Lemma unlink_wf : wf_node root'.
Proof.
  apply wf_modify; [apply remove_name | | done].
  intros m _ Hm; by apply node_remove_child_spec.
Qed.

Lemma unlink_below m t p :
  node_at up root = Some m -> node_at (up ++ t :: p) root' = if decide (t = s) then None else node_at (up ++ t :: p) root.
Proof.
  intros Hm; unfold root'; rewrite node_at_modify_below, node_at_app, Hm by apply remove_name; simpl.
  destruct (node_remove_child_spec m s) as (_ & _ & E); [by eapply wf_node_at | done |].
  rewrite E; by destruct (decide (t = s)).
Qed.

Lemma unlink_parent : exists m, node_at up root = Some m /\ child_named s (children m) = Some d.
Proof.
  rewrite node_at_app in Hd; destruct (node_at up root) as [m |]; [| done]; exists m; split; [done |].
  simpl in Hd; by destruct (child_named s (children m)).
Qed.

Lemma unlink_leaf p : leaf_at p root' = leaf_at p root.
Proof.
  destruct unlink_parent as (m & Hm & Hc).
  destruct (decide (up `prefix_of` p)) as [([| t q] & ->) | Hp].
  - rewrite app_nil_r; unfold leaf_at; rewrite <- (app_nil_r up) at 1; unfold root'.
    rewrite node_at_modify_below, Hm by apply remove_name; simpl; unfold leaf_of.
    by destruct (node_remove_child_spec m s) as (_ & (_ & -> & -> & ->) & _); [by eapply wf_node_at | done |].
  - unfold leaf_at; rewrite (unlink_below m) by done; destruct (decide (t = s)) as [-> |]; [| done].
    rewrite node_at_app, Hm; simpl; rewrite Hc; simpl; symmetry; by apply (dead_leaf q d).
  - by apply leaf_at_modify_other; [apply remove_name |].
Qed.

Lemma unlink_pruned : pruned_but (up ++ [s]) root -> pruned_but up root'.
Proof.
  destruct unlink_parent as (m & Hm & Hc); intros Hpr p x Hne Hnu Hx.
  destruct (decide (up `prefix_of` p)) as [([| t q] & ->) | Hp].
  - by rewrite app_nil_r in Hnu.
  - rewrite (unlink_below m) in Hx by done; destruct (decide (t = s)) as [| Ht]; [done |].
    apply (Hpr (up ++ t :: q)); [done | | done]; intros E; apply app_inv_head in E; congruence.
  - assert (A := node_at_modify_other up p (fun p => node_remove_child p s) root remove_name Hp).
    unfold root' in Hx; rewrite Hx in A; inversion A as [y ? Hy E |]; subst.
    intros Hx'; eapply (Hpr p y); [done | | done | by eapply dead_alike].
    intros ->; apply Hp; by eexists.
Qed.

Lemma unlink_root : is_leaf root' = is_leaf root.
Proof.
  unfold root'; destruct up as [| t q]; [| done]; simpl.
  by destruct (node_remove_child_spec root s) as (_ & (_ & _ & _ & E) & _).
Qed.

Lemma unlink_up : is_Some (node_at up root').
Proof.
  destruct unlink_parent as (m & Hm & _); rewrite <- (app_nil_r up) at 1; unfold root'.
  rewrite node_at_modify_below, Hm by apply remove_name; by eexists.
Qed.
End unlink.

Lemma prune_spec rq root :
  wf_node root -> Forall is_cstr rq -> is_Some (node_at (rev rq) root) ->
  wf_node (prune rq root) /\ is_leaf (prune rq root) = is_leaf root /\
  (forall p, leaf_at p (prune rq root) = leaf_at p root) /\
  (pruned_but (rev rq) root -> pruned (prune rq root)).
Proof.
  intros Hw Hrq; revert root Hw; induction Hrq as [| s up Hs _ IH]; intros root Hw [d Hd].
  { do 3 (split; [done |]); intros Hp p m Hne Hm; by apply (Hp p m). }
  cbn [prune]; rewrite Hd; simpl default; destruct (bool_decide (children d = []) && negb (is_leaf d)) eqn:E.
  - assert (Hdead : dead d) by (apply andb_true_iff in E as [? ?%negb_true_iff]; split; [done | by eapply bool_decide_eq_true_1]).
    simpl rev in *.
    destruct (IH (modify_at (rev up) (fun p => node_remove_child p s) root)) as (H1 & H2 & H3 & H4);
      [by apply unlink_wf | by eapply unlink_up |].
    split; [done |]; split; [rewrite H2; by eapply unlink_root |]; split.
    + intros p; rewrite H3; by eapply unlink_leaf.
    + intros Hp; apply H4; by eapply unlink_pruned.
  - do 3 (split; [done |]); intros Hp p m Hne Hm; destruct (decide (p = rev (s :: up))) as [-> | Hq].
    + rewrite Hd in Hm; simplify_eq; intros [Hl Hc]; rewrite Hl, Hc in E; done.
    + by apply (Hp p m).
Qed.
