(* ===== verification/RegistryTheorems.v ===== *)
(** * The registry: theorems

    The stored part of the registry is a map from key paths to (value, owner);
    [registry_set], [registry_get], [registry_del] and [registry_enum] are the
    update, lookup, removal and listing of that map, on every branch and
    whatever [kmalloc] does.  A key that belongs to one owner survives any
    sequence of calls, through any door, by unprivileged processes other than
    the owner. *)
From Stdlib Require Import ZArith Lia String.
From stdpp Require Import base numbers list sorting relations.
From S2P Require Import Prelude CString ProcTab Registry RegDoors RegistryProofs.

(** The invariant: a well-formed tree whose root carries no value, and a correct
    count of leaves. *)
Record reg_ok (r : registry) : Prop := {
  ok_tree : wf_node (reg_root r);
  ok_root : is_leaf (reg_root r) = false;
  ok_count : registry_count r = zlen (leaf_paths (reg_root r))
}.

(** The entry a key names. *)
Definition entry (r : registry) (key : str) : option (str * Z) := leaf_at (segments key) (reg_root r).

(** First-writer-wins: the system, or the owner, or nobody there yet. *)
Definition may_write (e : option (str * Z)) (owner : Z) : Prop :=
  match e with Some (_, o) => owner = 0 \/ o = owner | None => True end.

(** A key of the stored part. *)
Definition stored (key : str) : Prop := is_cstr key /\ reg_proc_split key = None.

Lemma root_no_leaf r : reg_ok r -> leaf_at [] (reg_root r) = None.
Proof. intros [_ H _]; unfold leaf_at, leaf_of; simpl; by rewrite H. Qed.

Lemma not_virtual_read r key size : reg_proc_split key = None -> reg_virtual_proc r key size = NotVirtual.
Proof. unfold reg_virtual_proc; by intros ->. Qed.

Lemma not_virtual_write r key v : reg_proc_split key = None -> reg_virtual_proc_write r key v = None.
Proof. unfold reg_virtual_proc_write; by intros ->. Qed.

Lemma walk_path_find_spec r key :
  reg_ok r -> is_cstr key ->
  walk_path_find r key =
  match segments key, node_at (segments key) (reg_root r) with
  | _ :: _, Some _ => Some (segments key)
  | _, _ => None
  end.
Proof.
  intros Hr Hk; assert (Hs := segments_ok key Hk); unfold walk_path_find.
  destruct (segments key) as [| s p]; [done |]; apply walk_find_node_at; [apply Hr | done].
Qed.

(** Lookup is lookup in the map. *)
Lemma registry_get_entry r key size :
  reg_ok r -> stored key -> size <> 0 ->
  registry_get r (Some key) size =
  match entry r key with Some (v, _) => inr (strcopy size v) | None => inl (- ENOENT) end.
Proof.
  intros Hr [Hk Hv] Hsz; unfold registry_get; destruct (Z.eqb_spec size 0) as [| Hz]; [done |].
  rewrite not_virtual_read, walk_path_find_spec by done; assert (H0 := root_no_leaf r Hr).
  unfold entry, leaf_at in *; destruct (segments key) as [| s p] eqn:E; [by rewrite H0 |].
  destruct (node_at (s :: p) (reg_root r)) as [n |] eqn:En; [| done].
  rewrite En; simpl; unfold leaf_of; by destruct (is_leaf n).
Qed.

(** ** Counting leaves *)

Lemma leaf_count_same n n' :
  wf_node n -> wf_node n' -> (forall p, p <> [] -> is_Some (leaf_at p n') <-> is_Some (leaf_at p n)) ->
  zlen (leaf_paths n') = zlen (leaf_paths n).
Proof.
  intros Hn Hn' H; unfold zlen; f_equal; apply Permutation_length, NoDup_Permutation;
    [by apply leaf_paths_NoDup.. |].
  intros p; rewrite !elem_of_leaf_paths by done; naive_solver.
Qed.

Lemma leaf_count_add n n' q :
  wf_node n -> wf_node n' -> q <> [] -> leaf_at q n = None ->
  (forall p, p <> [] -> is_Some (leaf_at p n') <-> p = q \/ is_Some (leaf_at p n)) ->
  zlen (leaf_paths n') = zlen (leaf_paths n) + 1.
Proof.
  intros Hn Hn' Hq Hnone H; unfold zlen.
  assert (E : leaf_paths n' ≡ₚ q :: leaf_paths n).
  { apply NoDup_Permutation; [by apply leaf_paths_NoDup | constructor; [| by apply leaf_paths_NoDup] |].
    - rewrite elem_of_leaf_paths by done; rewrite Hnone; intros [_ [x Hx]]; done.
    - intros p; rewrite elem_of_cons, !elem_of_leaf_paths by done; naive_solver. }
  apply Permutation_length in E; rewrite E; simpl; lia.
Qed.

(** The value a write stores. *)
Definition stored_value (val : str) : str := take (Z.to_nat (MAX_VAL_LEN - 1)) val.

Lemma stored_value_ok val :
  is_cstr val -> strcopy MAX_VAL_LEN val = stored_value val /\
                 is_cstr (stored_value val) /\ zlen (stored_value val) < MAX_VAL_LEN.
Proof.
  intros H; split; [by apply strcopy_take |]; split; [by apply is_cstr_take |].
  unfold stored_value, zlen; rewrite length_take; unfold MAX_VAL_LEN; lia.
Qed.

(** [registry_set]'s write through the pointer. *)
Definition write_leaf (v : str) (owner : Z) (n : reg_node) : reg_node :=
  if is_leaf n then with_leaf n v (node_owner n) true else with_leaf n v owner true.

Lemma write_leaf_update v owner : leaf_update (write_leaf v owner).
Proof. intros n; unfold write_leaf; by destruct (is_leaf n). Qed.

Lemma wf_with_leaf n v o l : is_cstr v -> zlen v < MAX_VAL_LEN -> wf_node n -> wf_node (with_leaf n v o l).
Proof. intros Hv Hl Hn; inversion Hn; subst; by constructor. Qed.

Lemma write_leaf_spec root q n v owner :
  wf_node root -> q <> [] -> node_at q root = Some n -> is_cstr v -> zlen v < MAX_VAL_LEN ->
  let root' := modify_at q (write_leaf v owner) root in
  wf_node root' /\ is_leaf root' = is_leaf root /\
  (forall p, leaf_at p root' =
     if decide (p = q) then Some (v, if is_leaf n then node_owner n else owner) else leaf_at p root) /\
  zlen (leaf_paths root') = zlen (leaf_paths root) + (if is_leaf n then 0 else 1).
Proof.
  intros Hw Hq Hn Hv Hl root'.
  assert (Hw' : wf_node root').
  { apply wf_modify; [apply write_leaf_update | | done]; intros m _ Hm; unfold write_leaf.
    destruct (is_leaf m); by apply wf_with_leaf. }
  assert (Hmod : forall p, leaf_at p root' =
    if decide (p = q) then Some (v, if is_leaf n then node_owner n else owner) else leaf_at p root).
  { intros p; unfold root'; rewrite leaf_at_update by apply write_leaf_update; rewrite Hn; simpl.
    case_decide; [| done]; unfold leaf_of, write_leaf; by destruct (is_leaf n). }
  assert (He : leaf_at q root = leaf_of n) by (unfold leaf_at; by rewrite Hn).
  split; [done |]; split; [by destruct q |]; split; [done |]; unfold leaf_of in He.
  destruct (is_leaf n); [rewrite Z.add_0_r; apply leaf_count_same | apply (leaf_count_add root _ q)];
    try done; intros p _; rewrite Hmod; case_decide; subst; rewrite ?He; try done; split; eauto; naive_solver.
Qed.

(** The four outcomes of a set on a stored key. *)
Lemma registry_set_cases kmalloc_ok r key val owner r' ret :
  reg_ok r -> stored key -> is_cstr val ->
  registry_set kmalloc_ok r (Some key) (Some val) owner = (r', ret) ->
  reg_ok r' /\ procs r' = procs r /\ current_process r' = current_process r /\
  ((ret = 0 /\ segments key <> [] /\ may_write (entry r key) owner /\
    forall p, leaf_at p (reg_root r') =
      if decide (p = segments key)
      then Some (stored_value val, match entry r key with Some (_, o) => o | None => owner end)
      else leaf_at p (reg_root r)) \/
   ((forall p, leaf_at p (reg_root r') = leaf_at p (reg_root r)) /\
    (ret = - EINVAL /\ segments key = [] \/
     ret = - EACCES /\ ~ may_write (entry r key) owner \/
     ret = - ENOMEM /\ oom_after kmalloc_ok (allocs r)))).
Proof.
  intros Hr [Hk Hv] Hval; unfold registry_set; rewrite not_virtual_write by done.
  unfold walk_path_create; rewrite key_has_segment_path; assert (Hs := segments_ok key Hk).
  destruct Hr as [Hw Hl Hc]; unfold entry; destruct (segments key) as [| s segs] eqn:E.
  { intros [= <- <-]; split; [done |]; split; [done |]; split; [done |]; right; split; auto. }
  rewrite <- E in *; assert (Hne : segments key <> []) by (by rewrite E).
  destruct (walk_create kmalloc_ok (allocs r) (reg_root r) (segments key)) as [[root a] res] eqn:Ew.
  apply walk_create_spec in Ew as (Hw1 & (_ & _ & _ & Hl1) & Ha & Hleaf & Hres); [| done | done].
  assert (Hcount : zlen (leaf_paths root) = registry_count r)
    by (rewrite Hc; apply leaf_count_same; [done.. |]; intros p _; by rewrite Hleaf).
  destruct res as [q |].
  2: { rewrite bool_decide_eq_false_2 by done; intros [= <- <-].
       split; [split; simpl; congruence |]; split; [done |]; split; [done |]; right; split; [done |]; auto. }
  destruct Hres as [-> [n Hn]]; cbn [with_root reg_root]; rewrite Hn; simpl default.
  assert (He : leaf_at (segments key) (reg_root r) = leaf_of n) by (rewrite <- Hleaf; unfold leaf_at; by rewrite Hn).
  rewrite He; unfold leaf_of, may_write.
  destruct (is_leaf n && negb (owner =? 0) && negb (node_owner n =? owner)) eqn:Eacl.
  { intros [= <- <-]; split; [split; simpl; congruence |]; split; [done |]; split; [done |].
    right; split; [done |]; right; left; split; [done |]; zbool; destruct (is_leaf n); [| done].
    naive_solver. }
  destruct (stored_value_ok val Hval) as (-> & Hvc & Hvl); set (v := stored_value val) in *.
  change (fun n0 => if is_leaf n0 then with_leaf n0 v (node_owner n0) true else with_leaf n0 v owner true)
    with (write_leaf v owner).
  destruct (write_leaf_spec root (segments key) n v owner) as (Hw2 & Hl2 & Hmod & Hc2); [done.. |].
  intros [= <- <-]; split; [| split; [by destruct (is_leaf n) | split; [by destruct (is_leaf n) |]]].
  - split; [by destruct (is_leaf n) | destruct (is_leaf n); simpl; congruence |].
    destruct (is_leaf n); simpl; lia.
  - left; split; [done |]; split; [done |]; split.
    + destruct (is_leaf n); [| done]; simpl in Eacl.
      destruct (Z.eqb_spec owner 0), (Z.eqb_spec (node_owner n) owner); auto; done.
    + intros p; destruct (is_leaf n); simpl; by rewrite Hmod, Hleaf.
Qed.

Lemma segments_cstr key : is_cstr key -> Forall is_cstr (segments key).
Proof. intros H%segments_ok; eapply Forall_impl; [done |]; by intros s []. Qed.

(** Clearing the leaf at [q] and pruning upwards. *)
Lemma clear_leaf_spec root q n :
  wf_node root -> q <> [] -> Forall is_cstr q -> node_at q root = Some n -> is_leaf n = true ->
  let root' := prune (rev q) (modify_at q (fun n => with_leaf n [] 0 false) root) in
  wf_node root' /\ is_leaf root' = is_leaf root /\
  (forall p, leaf_at p root' = if decide (p = q) then None else leaf_at p root) /\
  zlen (leaf_paths root') = zlen (leaf_paths root) - 1 /\
  (pruned root -> pruned root').
Proof.
  intros Hw Hq Hc Hn Hl; set (f := fun n => with_leaf n [] 0 false).
  assert (Hf : leaf_update f) by (by intros m).
  set (root1 := modify_at q f root).
  assert (Hw1 : wf_node root1) by (apply wf_modify; [done | intros m _ Hm; by apply wf_with_leaf; [apply is_cstr_nil | |] | done]).
  assert (Hq1 : node_at q root1 = Some (f n)).
  { rewrite <- (app_nil_r q) at 1; unfold root1; rewrite node_at_modify_below, Hn by done; done. }
  destruct (prune_spec (rev q) root1) as (Hw2 & Hl2 & Hleaf & Hpr);
    [done | by apply Forall_rev | rewrite rev_involutive, Hq1; eauto |].
  assert (Hmap : forall p, leaf_at p (prune (rev q) root1) = if decide (p = q) then None else leaf_at p root).
  { intros p; rewrite Hleaf; unfold root1; rewrite leaf_at_update, Hn by done; done. }
  intros root'; assert (Er : root' = prune (rev q) root1) by done; clearbody root'; subst root'.
  split; [done |]; split; [rewrite Hl2; by destruct q |]; split; [done |]; split.
  - enough (zlen (leaf_paths root) = zlen (leaf_paths (prune (rev q) root1)) + 1) by lia.
    apply (leaf_count_add _ root q); try done; [by rewrite (Hmap q), decide_True |].
    assert (He : leaf_at q root = leaf_of n) by (unfold leaf_at; by rewrite Hn).
    unfold leaf_of in He; rewrite Hl in He.
    intros p _; rewrite Hmap; case_decide; subst; [split; eauto | naive_solver].
  - intros Hp; apply Hpr; rewrite rev_involutive; intros p m Hpe Hpq Hm.
    destruct (decide (q `prefix_of` p)) as [([| s t] & ->) | Hpre].
    + by rewrite app_nil_r in Hpq.
    + unfold root1 in Hm; rewrite node_at_modify_below, Hn in Hm by done.
      apply (Hp (q ++ s :: t)); [done |]; rewrite node_at_app, Hn; exact Hm.
    + assert (A := node_at_modify_other q p f root (fun m => eq_refl) Hpre); unfold root1 in Hm.
      rewrite Hm in A; inversion A as [y ? Hy E |]; subst; intros Hd.
      eapply (Hp p y); [done | done | by eapply dead_alike].
Qed.

(** The outcomes of a delete on a stored key. *)
Lemma registry_del_cases r key owner r' ret :
  reg_ok r -> stored key -> registry_del r (Some key) owner = (r', ret) ->
  reg_ok r' /\ procs r' = procs r /\ current_process r' = current_process r /\
  ((ret = 0 /\ entry r key <> None /\ may_write (entry r key) owner /\
    (forall p, leaf_at p (reg_root r') =
       if decide (p = segments key) then None else leaf_at p (reg_root r)) /\
    (pruned (reg_root r) -> pruned (reg_root r'))) \/
   (r' = r /\ (ret = - ENOENT /\ entry r key = None \/
               ret = - EACCES /\ ~ may_write (entry r key) owner))).
Proof.
  intros Hr [Hk Hv]; unfold registry_del; rewrite not_virtual_write, walk_path_find_spec by done.
  assert (H0 := root_no_leaf r Hr); assert (Hcs := segments_cstr key Hk); unfold entry.
  destruct (segments key) as [| s p] eqn:E.
  { intros [= <- <-]; split; [done |]; split; [done |]; split; [done |]; right; auto. }
  rewrite <- E in *; destruct (node_at (segments key) (reg_root r)) as [n |] eqn:Hn.
  2: { intros [= <- <-]; split; [done |]; split; [done |]; split; [done |]; right; split; [done |].
       left; split; [done |]; unfold leaf_at; by rewrite Hn. }
  assert (He : leaf_at (segments key) (reg_root r) = leaf_of n) by (unfold leaf_at; by rewrite Hn).
  rewrite He, Hn; simpl default; unfold leaf_of; destruct (is_leaf n) eqn:Hl; simpl negb; cbv iota.
  2: { intros [= <- <-]; split; [done |]; split; [done |]; split; [done |]; right; auto. }
  destruct (negb (owner =? 0) && negb (node_owner n =? owner)) eqn:Eacl.
  { intros [= <- <-]; split; [done |]; split; [done |]; split; [done |]; right; split; [done |].
    right; split; [done |]; simpl; zbool; naive_solver. }
  destruct (clear_leaf_spec (reg_root r) (segments key) n) as (Hw & Hl2 & Hmap & Hc & Hp);
    [apply Hr | by rewrite E | done | done | done |].
  intros [= <- <-]; destruct Hr as [_ Hlr Hcr].
  split; [split; simpl; [done | congruence | lia] |]; split; [done |]; split; [done |]; left.
  split; [done |]; split; [done |]; split; [| done].
  simpl; destruct (Z.eqb_spec owner 0), (Z.eqb_spec (node_owner n) owner); auto; done.
Qed.

(** C23: [registry_set] (kernel/lib/registry.c) is a guarded update of the map of
    stored keys.  If it returns 0, the caller was the system, the key's owner or
    its first writer; the key then reads back as the value cut to 127 bytes,
    keeps its first owner, and every other key reads as before.  If it fails, no
    key changes, and the errno says why: EINVAL for a key with no segment,
    EACCES for someone else's key, ENOMEM only when an allocation was refused.
    The tree stays well formed (sorted child arrays within their capacity,
    values that fit, correct leaf count). *)
Theorem registry_set_updates_map kmalloc_ok r key val owner r' ret :
  reg_ok r -> stored key -> is_cstr val ->
  registry_set kmalloc_ok r (Some key) (Some val) owner = (r', ret) ->
  reg_ok r' /\
  (ret = 0 -> segments key <> [] /\ may_write (entry r key) owner /\
     entry r' key = Some (stored_value val, match entry r key with Some (_, o) => o | None => owner end)) /\
  (ret <> 0 -> ret = - EINVAL /\ segments key = [] \/
               ret = - EACCES /\ ~ may_write (entry r key) owner \/
               ret = - ENOMEM /\ oom_after kmalloc_ok (allocs r)) /\
  (forall k size, stored k -> size <> 0 ->
     registry_get r' (Some k) size =
     if decide (ret = 0 /\ segments k = segments key) then inr (strcopy size (stored_value val))
     else registry_get r (Some k) size).
Proof.
  intros Hr Hk Hval E; destruct (registry_set_cases _ _ _ _ _ _ _ Hr Hk Hval E) as (Hr' & _ & _ & C).
  split; [done |]; destruct C as [(-> & Hne & Hm & Hmap) | [Hmap C]].
  - split; [intros _; unfold entry; by rewrite Hmap, decide_True | split; [done |]].
    intros k size Hks Hs; rewrite !registry_get_entry by done; unfold entry; rewrite Hmap.
    repeat case_decide; naive_solver.
  - assert (ret <> 0) by (destruct C as [[-> _] | [[-> _] | [-> _]]]; done).
    split; [done |]; split; [done |]; intros k size Hks Hs; rewrite !registry_get_entry by done.
    unfold entry; rewrite Hmap, decide_False by tauto; done.
Qed.

(** [registry_del] removes exactly the named key.  It returns 0 only for an
    existing key and an entitled caller, and then the key reads ENOENT, every
    other key reads as before, and if no directory of the tree was empty none is
    afterwards: the key's ancestors left with nothing in them are freed.
    Otherwise it changes nothing and returns ENOENT exactly for an absent key
    and EACCES exactly for someone else's. *)
Theorem registry_del_removes_key r key owner r' ret :
  reg_ok r -> stored key -> registry_del r (Some key) owner = (r', ret) ->
  reg_ok r' /\
  (ret = 0 -> entry r key <> None /\ may_write (entry r key) owner /\
     (pruned (reg_root r) -> pruned (reg_root r'))) /\
  (ret <> 0 -> r' = r /\ (ret = - ENOENT /\ entry r key = None \/
                          ret = - EACCES /\ ~ may_write (entry r key) owner)) /\
  (forall k size, stored k -> size <> 0 ->
     registry_get r' (Some k) size =
     if decide (ret = 0 /\ segments k = segments key) then inl (- ENOENT)
     else registry_get r (Some k) size).
Proof.
  intros Hr Hk E; destruct (registry_del_cases _ _ _ _ _ Hr Hk E) as (Hr' & _ & _ & C).
  split; [done |]; destruct C as [(-> & He & Hm & Hmap & Hp) | [-> C]].
  - split; [done |]; split; [done |]; intros k size Hks Hs; rewrite !registry_get_entry by done.
    unfold entry; rewrite Hmap; repeat case_decide; naive_solver.
  - assert (ret <> 0) by (destruct C as [[-> _] | [-> _]]; done).
    split; [done |]; split; [done |]; intros k size Hks Hs; rewrite decide_False by tauto; done.
Qed.

(** ** Listing *)

(** The complete listing of the keys that start with [prefix]. *)
Definition listing (prefix : str) (ks : list str) : str :=
  mjoin ((fun k => k ++ [NEWLINE]) <$> filter (fun k => prefix `prefix_of` k) ks).

Lemma listing_cons prefix k ks :
  listing prefix (k :: ks) =
  (if bool_decide (prefix `prefix_of` k) then k ++ [NEWLINE] else []) ++ listing prefix ks.
Proof.
  unfold listing; rewrite filter_cons; case_bool_decide;
    [by rewrite decide_True | by rewrite decide_False].
Qed.

Lemma offer_bound prefix size ks out :
  zlen out + 1 <= size -> zlen (foldl (offer prefix size) out ks) + 1 <= size.
Proof.
  revert out; induction ks as [| k ks IH]; intros out H; simpl; [done |]; apply IH.
  unfold offer; destruct (_ && _) eqn:E; [| done]; zbool.
  unfold zlen in *; rewrite !length_app; simpl; lia.
Qed.

Lemma offer_listing prefix size ks out :
  zlen out + zlen (listing prefix ks) + 1 <= size ->
  foldl (offer prefix size) out ks = out ++ listing prefix ks.
Proof.
  assert (L : forall a b : list Z, zlen (a ++ b) = zlen a + zlen b)
    by (intros; unfold zlen; rewrite length_app; lia).
  revert out; induction ks as [| k ks IH]; intros out H; [by rewrite app_nil_r |].
  rewrite listing_cons in *; cbn [foldl]; unfold offer at 2; case_bool_decide; cbn [andb]; [| by apply IH].
  rewrite !L in H; change (zlen [NEWLINE]) with 1 in H; assert (0 <= zlen (listing prefix ks)) by apply zlen_nonneg.
  destruct (Z.leb_spec (zlen out + zlen k + 2) size); [| lia]; rewrite IH.
  - by rewrite <- !app_assoc.
  - rewrite !L; change (zlen [NEWLINE]) with 1; lia.
Qed.

(** [registry_enum] lists the stored keys (kernel/lib/registry.c, enum_dfs).
    It goes through every key that has a value, each once, in the order of their
    paths (segment by segment); a key that starts with the prefix is written
    with a newline if it still fits.  The result always leaves room for the
    terminator, and is the complete list whenever the buffer can hold it. *)
Theorem registry_enum_lists_leaves r prefix size :
  reg_ok r -> stored prefix -> 0 < size ->
  (forall p, p ∈ leaf_paths (reg_root r) -> zlen (dotted [] p) < 256) ->
  exists ps out,
    StronglySorted path_lt ps /\
    (forall p, p ∈ ps <-> p <> [] /\ is_Some (leaf_at p (reg_root r))) /\
    registry_enum r (Some prefix) size = inr out /\
    out = foldl (offer prefix size) [] (dotted [] <$> ps) /\
    zlen out + 1 <= size /\
    (zlen (listing prefix (dotted [] <$> ps)) + 1 <= size -> out = listing prefix (dotted [] <$> ps)).
Proof.
  intros Hr [Hk Hv] Hs Hcap; exists (leaf_paths (reg_root r)); eexists.
  destruct Hr as [Hw _ _]; split; [by apply leaf_paths_sorted |]; split; [intros; by apply elem_of_leaf_paths |].
  split; [| split; [reflexivity | split; [apply offer_bound; change (zlen (@nil Z)) with 0; lia |]]].
  - unfold registry_enum; destruct (Z.eqb_spec size 0); [lia |]; rewrite Hv; simpl.
    by rewrite enum_dfs_spec by (done || apply is_cstr_nil).
  - intros H; rewrite offer_listing; [done | change (zlen (@nil Z)) with 0; lia].
Qed.

(** ** Ownership across doors *)

(** Who is calling. *)
Definition as_caller (r : registry) (p : process) : registry :=
  {| reg_root := reg_root r; registry_count := registry_count r; allocs := allocs r;
     procs := procs r; current_process := Some p |}.

(** A call, through any door, by an unprivileged process whose pid is neither 0
    nor [o]; the change of the desktop's look may be anyone's. *)
Inductive foreign_call (kmalloc_ok : nat -> Z -> bool) (o : Z) : registry -> registry -> Prop :=
| call_sys r p op key val out_ok size :
    proc_is_privileged (Some p) = false -> i32 (pid p) <> 0 -> i32 (pid p) <> o ->
    (forall s, key = UStr s -> is_cstr s) -> (forall s, val = UStr s -> is_cstr s) ->
    foreign_call kmalloc_ok o r (sys_reg (sys_registry kmalloc_ok (as_caller r p) op key val out_ok size))
| call_write r p pth offset buf :
    proc_is_privileged (Some p) = false -> i32 (pid p) <> 0 -> i32 (pid p) <> o ->
    is_cstr pth -> Forall is_u8 buf -> 0 <= offset ->
    foreign_call kmalloc_ok o r (fst (regfs_write kmalloc_ok (as_caller r p) pth offset buf))
| call_create r p pth type :
    proc_is_privileged (Some p) = false -> i32 (pid p) <> 0 -> i32 (pid p) <> o ->
    is_cstr pth ->
    foreign_call kmalloc_ok o r (fst (regfs_create kmalloc_ok (as_caller r p) pth type))
| call_unlink r p pth :
    proc_is_privileged (Some p) = false -> i32 (pid p) <> 0 -> i32 (pid p) <> o ->
    is_cstr pth ->
    foreign_call kmalloc_ok o r (fst (regfs_unlink (as_caller r p) pth))
| call_handle r p key ubuf n :
    proc_is_privileged (Some p) = false -> i32 (pid p) <> 0 -> i32 (pid p) <> o ->
    is_cstr key -> (forall b, ubuf = Some b -> Forall is_u8 b) ->
    foreign_call kmalloc_ok o r (fst (regkey_write kmalloc_ok (as_caller r p) key ubuf n))
| call_style r p style theme bg :
    foreign_call kmalloc_ok o r (fst (set_style kmalloc_ok (as_caller r p) style theme bg)).

(** The values [SYS_SET_STYLE] publishes at a key. *)
Definition published (q : path) : list str :=
  if decide (q = segments (lit "style.name")) then os1_style_names
  else if decide (q = segments (lit "theme.color")) then os1_theme_names
  else if decide (q = segments (lit "background.name")) then os1_bg_names
  else [].

(** The key at [q] has value [v] and owner [o], in a well-formed registry. *)
Definition owned (q : path) (v : str) (o : Z) (r : registry) : Prop :=
  reg_ok r /\ leaf_at q (reg_root r) = Some (v, o).

Section ownership.
Context (kmalloc_ok : nat -> Z -> bool) (q : path) (v : str) (o : Z).

Lemma owned_as_caller' r p w : owned q w o r -> owned q w o (as_caller r p).
Proof. intros [[H1 H2 H3] H4]; split; [by split | done]. Qed.

Lemma owned_as_caller r p : owned q v o r -> owned q v o (as_caller r p).
Proof. apply owned_as_caller'. Qed.

(** A virtual write leaves the stored tree alone. *)
Lemma owned_virtual r key val r' ret :
  owned q v o r -> reg_virtual_proc_write r key val = Some (r', ret) -> owned q v o r'.
Proof.
  intros [[H1 H2 H3] H4]; unfold reg_virtual_proc_write; destruct (reg_proc_split key) as [[n f] |]; [| done].
  destruct (_ && _); [destruct (proc_env_set _ _ _ _ _) |]; intros [= <- <-]; (split; [by split | done]).
Qed.

Lemma owned_set r key val owner :
  owned q v o r -> is_cstr key -> (reg_proc_split key = None -> is_cstr val) ->
  owner <> 0 -> owner <> o ->
  owned q v o (fst (registry_set kmalloc_ok r (Some key) (Some val) owner)).
Proof.
  intros Ho Hk Hv H0 Hne.
  destruct (registry_set kmalloc_ok r (Some key) (Some val) owner) as [r' ret] eqn:E; simpl.
  destruct (reg_proc_split key) as [nf |] eqn:Es.
  - unfold registry_set in E; destruct (reg_virtual_proc_write r key (Some val)) as [[]|] eqn:Ev.
    + simplify_eq; by eapply owned_virtual.
    + unfold reg_virtual_proc_write in Ev; rewrite Es in Ev; destruct nf as [n f].
      destruct (_ && _); [by destruct (proc_env_set _ _ _ _ _) | done].
  - destruct Ho as [Hr Hq].
    destruct (registry_set_cases _ _ _ _ _ _ _ Hr (conj Hk Es) (Hv eq_refl) E) as (Hr' & _ & _ & C).
    split; [done |]; destruct C as [(-> & Hs & Hm & Hmap) | [Hmap _]]; rewrite Hmap; [| done].
    case_decide; [subst q | done]; unfold may_write, entry in Hm; rewrite Hq in Hm; naive_solver.
Qed.

Lemma owned_del r key owner :
  owned q v o r -> is_cstr key -> owner <> 0 -> owner <> o ->
  owned q v o (fst (registry_del r (Some key) owner)).
Proof.
  intros Ho Hk H0 Hne; destruct (registry_del r (Some key) owner) as [r' ret] eqn:E; simpl.
  destruct (reg_proc_split key) as [nf |] eqn:Es.
  - unfold registry_del in E; destruct (reg_virtual_proc_write r key None) as [[]|] eqn:Ev.
    + simplify_eq; by eapply owned_virtual.
    + unfold reg_virtual_proc_write in Ev; rewrite Es in Ev; destruct nf as [n f].
      destruct (_ && _); [by destruct (proc_env_set _ _ _ _ _) | done].
  - destruct Ho as [Hr Hq].
    destruct (registry_del_cases _ _ _ _ _ Hr (conj Hk Es) E) as (Hr' & _ & _ & C).
    split; [done |]; destruct C as [(-> & Hs & Hm & Hmap & _) | [-> _]]; [| done]; rewrite Hmap.
    case_decide; [subst q | done]; unfold may_write, entry in Hm; rewrite Hq in Hm; naive_solver.
Qed.

(** What the doors pass on is a string. *)
Lemma path_to_key_cstr pth n : is_cstr pth -> is_cstr (regfs_path_to_key pth n).
Proof.
  assert (Hskip : forall p, is_cstr p -> is_cstr (skip_slashes p)).
  { induction 1 as [| c p Hc Hp IH]; simpl; [constructor |]; destruct (c =? SLASH); [done | by constructor]. }
  intros Hp; unfold regfs_path_to_key; apply Hskip in Hp; revert Hp.
  generalize (skip_slashes pth) as p; assert (Hk : is_cstr []) by constructor; revert Hk.
  generalize (@nil Z) as key; induction (length pth) as [| m IH]; intros key Hk p Hp; simpl; [done |].
  destruct Hp as [| c p Hc Hp]; [done |]; destruct (negb _); [done |]; destruct (c =? SLASH).
  - specialize (Hskip p Hp); apply IH; [| done]; destruct (skip_slashes p); [done |].
    apply Forall_app; split; [done | repeat constructor].
  - apply IH; [| done]; apply Forall_app; split; [done |]; by constructor.
Qed.

Lemma cstr_bytes s : is_cstr s -> Forall is_u8 s.
Proof. intros H; eapply Forall_impl; [exact H |]; unfold is_u8; intros c Hc; lia. Qed.

Lemma overlay_cstr cur off bytes : is_cstr cur -> Forall is_u8 bytes -> is_cstr (cstr (overlay cur off bytes)).
Proof.
  intros Hc Hb; apply cstr_is_cstr; unfold overlay.
  assert (Hp : Forall is_u8 (cur ++ replicate (Z.to_nat (off - zlen cur)) SPACE)).
  { apply Forall_app; split; [by apply cstr_bytes |]; apply Forall_replicate; by unfold is_u8, SPACE. }
  repeat (apply Forall_app; split); [by apply Forall_take | done | by apply Forall_drop].
Qed.

Lemma registry_get_cstr r key w :
  reg_ok r -> stored key -> registry_get r (Some key) MAX_VAL_LEN = inr w -> is_cstr w.
Proof.
  intros Hr Hk; rewrite registry_get_entry by done; unfold entry, leaf_at.
  destruct (node_at (segments key) (reg_root r)) as [n |] eqn:En; [| done]; simpl; unfold leaf_of.
  destruct (is_leaf n); [| done]; intros [= <-].
  assert (Hn : wf_node n) by (eapply wf_node_at; [apply Hr | done]); inversion Hn; subst.
  rewrite strcopy_take by done; by apply is_cstr_take.
Qed.

(** What the unprivileged caller is known as. *)
Lemma caller_owner r p :
  proc_is_privileged (Some p) = false -> registry_caller_owner (as_caller r p) = i32 (pid p).
Proof. intros Hp; unfold registry_caller_owner; simpl current_process; by rewrite Hp. Qed.

Lemma sys_registry_owned r p op key val ok size :
  owned q v o r -> proc_is_privileged (Some p) = false -> i32 (pid p) <> 0 -> i32 (pid p) <> o ->
  (forall s, key = UStr s -> is_cstr s) -> (forall s, val = UStr s -> is_cstr s) ->
  owned q v o (sys_reg (sys_registry kmalloc_ok (as_caller r p) op key val ok size)).
Proof.
  intros Ho Hp H0 Hne Hk Hv; assert (Hoc := owned_as_caller r p Ho); assert (Hown := caller_owner r p Hp).
  unfold sys_registry, sys_registry_enum, copy_string_from_user_strict, copy_string_from_user_n.
  assert (Ho1 : owned q v o (with_root (as_caller r p) (reg_root r) (S (allocs r))))
    by (destruct Hoc as [[] ?]; split; [by split | done]).
  destruct (op =? REG_OP_ENUM).
  { repeat (done || case_match). }
  destruct key as [| | k]; try done; specialize (Hk k eq_refl).
  destruct (MAX_KEY_LEN - 1 <? zlen k); [done |]; rewrite Hown.
  assert (Hk' := is_cstr_take (Z.to_nat (MAX_KEY_LEN - 1)) k Hk).
  destruct (op =? REG_OP_WRITE).
  { destruct val as [| | w]; try done; specialize (Hv w eq_refl).
    destruct (MAX_VAL_LEN - 1 <? zlen w); [done |]; destruct (_ && _); [done |].
    assert (G := owned_set _ _ (take (Z.to_nat (MAX_VAL_LEN - 1)) w) (i32 (pid p)) Hoc Hk'
                   (fun _ => is_cstr_take _ w Hv) H0 Hne).
    by destruct (registry_set _ _ _ _ _). }
  destruct (op =? REG_OP_READ); [repeat (done || case_match) |].
  destruct (op =? REG_OP_DEL); [| done]; destruct (_ && _); [done |].
  assert (G := owned_del _ _ (i32 (pid p)) Hoc Hk' H0 Hne); by destruct (registry_del _ _ _).
Qed.

(** A change of the desktop's look keeps the owner, and the value unless the key
    is one of the three. *)
Lemma owned_publish key names id st :
  stored key -> Forall is_cstr names -> Forall (fun n => stored_value n = n) names ->
  (exists w, owned q w o (fst st) /\ (w = v \/ w ∈ published q)) ->
  (q = segments key -> published q = names) ->
  exists w, owned q w o (fst (publish kmalloc_ok key names id st)) /\ (w = v \/ w ∈ published q).
Proof.
  intros Hk Hn Hs (w & [Hr Hq] & Hw) Hp; destruct st as [r rc]; simpl in Hr, Hq; unfold publish; destruct (negb (0 <=? id)); [by exists w |].
  destruct (names !! Z.to_nat id) as [nm |] eqn:En; [| by exists w]; rewrite Forall_lookup in Hn, Hs.
  destruct (registry_set kmalloc_ok r (Some key) (Some nm) 0) as [r' e] eqn:E; simpl.
  destruct (registry_set_cases _ _ _ _ _ _ _ Hr Hk (Hn _ _ En) E) as (Hr' & _ & _ & C).
  destruct C as [(_ & _ & _ & Hmap) | [Hmap _]]; [| exists w; split; [split; [done | by rewrite Hmap] | done]].
  destruct (decide (q = segments key)) as [Eq | Hne].
  - exists nm; split; [split; [done |] | right; rewrite (Hp Eq); by eapply list_elem_of_lookup_2].
    rewrite Hmap, decide_True by done; unfold entry; rewrite <- Eq, Hq; by rewrite (Hs _ _ En).
  - exists w; split; [split; [done | by rewrite Hmap, decide_False by done] | done].
Qed.

Lemma forallb_names (names : list str) : forallb (fun n => forallb (fun c => (0 <? c) && (c <? 256)) n && bool_decide (stored_value n = n)) names = true ->
  Forall is_cstr names /\ Forall (fun n => stored_value n = n) names.
Proof.
  rewrite forallb_forall; intros H; split; apply Forall_forall; intros n Hn; apply list_elem_of_In, H, andb_true_iff in Hn as [H1 H2].
  - apply Forall_forall; intros c Hc; rewrite forallb_forall in H1; apply list_elem_of_In, H1, andb_true_iff in Hc as [? ?]; lia.
  - by apply bool_decide_eq_true in H2.
Qed.

Lemma stored_literal s : forallb (fun c => (0 <? c) && (c <? 256)) s = true -> reg_proc_split s = None -> stored s.
Proof. intros H E; split; [| done]; apply Forall_forall; intros c Hc; rewrite forallb_forall in H; apply list_elem_of_In, H, andb_true_iff in Hc as [? ?]; lia. Qed.

Lemma owned_style r p style theme bg w :
  owned q w o r -> w = v \/ w ∈ published q ->
  exists w', owned q w' o (fst (set_style kmalloc_ok (as_caller r p) style theme bg)) /\ (w' = v \/ w' ∈ published q).
Proof.
  intros Ho Hw; assert (Hoc := owned_as_caller' r p w Ho); unfold set_style; destruct (negb _); [by exists w |].
  assert (P : forall key names id st, forallb (fun c => (0 <? c) && (c <? 256)) key = true -> reg_proc_split key = None ->
    forallb (fun n => forallb (fun c => (0 <? c) && (c <? 256)) n && bool_decide (stored_value n = n)) names = true ->
    (q = segments key -> published q = names) ->
    (exists w, owned q w o (fst st) /\ (w = v \/ w ∈ published q)) ->
    exists w, owned q w o (fst (publish kmalloc_ok key names id st)) /\ (w = v \/ w ∈ published q)).
  { intros key names id st H1 H2 H3 H4 H5; destruct (forallb_names names H3); apply owned_publish; try done; by apply stored_literal. }
  repeat (apply P; [by vm_compute | by vm_compute | by vm_compute | intros ->; by vm_compute |]); exists w; done.
Qed.

(** No other foreign call touches the key. *)
Lemma foreign_call_owned r r' : foreign_call kmalloc_ok o r r' -> owned q v o r ->
  owned q v o r' \/ exists p style theme bg, r' = fst (set_style kmalloc_ok (as_caller r p) style theme bg).
Proof.
  intros Hc Ho; destruct Hc as [r p op key val ok size Hp H0 Hne Hk Hv | r p pth off buf Hp H0 Hne Hk Hb Hoff |
                                r p pth type Hp H0 Hne Hk | r p pth Hp H0 Hne Hk | r p key ubuf n Hp H0 Hne Hk Hb | r p style theme bg];
    [left .. | right; by exists p, style, theme, bg]; assert (Hoc := owned_as_caller r p Ho); assert (Hown := caller_owner r p Hp).
  - by eapply sys_registry_owned.
  - unfold regfs_write; assert (Hk' := path_to_key_cstr pth MAX_KEY_LEN Hk).
    destruct (regfs_path_to_key pth MAX_KEY_LEN) as [| c key] eqn:Ek; [done |]; rewrite <- Ek in *; clear Ek c key.
    destruct (MAX_VAL_LEN - 1 <=? off); [done |]; destruct (_ && _); [done |]; rewrite Hown.
    set (w := cstr _); assert (G : owned q v o (fst (registry_set kmalloc_ok (as_caller r p)
      (Some (regfs_path_to_key pth MAX_KEY_LEN)) (Some w) (i32 (pid p))))).
    { apply owned_set; try done; intros Hs; apply overlay_cstr; [| by apply Forall_take].
      destruct (registry_get _ _ _) eqn:Eg; [constructor |].
      by eapply registry_get_cstr in Eg; [| apply Hoc | split]. }
    by destruct (registry_set _ _ _ _ _).
  - unfold regfs_create; destruct (negb _); [done |]; destruct (negb _); [done |].
    assert (Hk' := path_to_key_cstr pth MAX_KEY_LEN Hk); rewrite Hown.
    destruct (regfs_path_to_key pth MAX_KEY_LEN); [done |]; apply owned_set; try done; intros _; apply is_cstr_nil.
  - unfold regfs_unlink; destruct (negb _); [done |].
    assert (Hk' := path_to_key_cstr pth MAX_KEY_LEN Hk); rewrite Hown.
    destruct (regfs_path_to_key pth MAX_KEY_LEN); [done |]; by apply owned_del.
  - unfold regkey_write; destruct (_ || _); [done |]; destruct ubuf as [b |]; [| done]; rewrite Hown; set (w := cstr _).
    assert (G : owned q v o (fst (registry_set kmalloc_ok (as_caller r p) (Some key) (Some w) (i32 (pid p))))).
    { apply owned_set; try done; intros _; apply cstr_is_cstr, Forall_take; by apply Hb. }
    by destruct (registry_set _ _ _ _ _).
Qed.
End ownership.

(** C22: First-writer-wins holds over whole histories and every door
    (sys_registry; write, create and unlink on the /reg mount; the write through
    a handle to a key; and [SYS_SET_STYLE]): whatever calls unprivileged
    processes other than the owner make, with whatever arguments and allocation
    failures, a key keeps its owner and its value, with one exception.  The three
    keys of the desktop's look, style.name, theme.color and background.name, keep
    their owner, but [SYS_SET_STYLE] sets them as the system for any caller with
    CAP_WINDOW: their value is the old one or one of the names the desktop
    publishes there.  In particular (owner 0) no such sequence changes any other
    key the system wrote. *)
Theorem registry_ownership_stable kmalloc_ok q v o r r' :
  reg_ok r -> leaf_at q (reg_root r) = Some (v, o) ->
  rtc (foreign_call kmalloc_ok o) r r' ->
  reg_ok r' /\ exists w, leaf_at q (reg_root r') = Some (w, o) /\ (w = v \/ w ∈ published q) /\
    (q <> segments (lit "style.name") -> q <> segments (lit "theme.color") -> q <> segments (lit "background.name") -> w = v).
Proof.
  intros Hr Hq Hsteps; assert (Hw : exists w, owned q w o r /\ (w = v \/ w ∈ published q)) by (exists v; split; [done | by left]); clear Hr Hq.
  enough (exists w, owned q w o r' /\ (w = v \/ w ∈ published q)) as (w & [Hr Hq] & E).
  { split; [done |]; exists w; split; [done |]; split; [done |]; intros H1 H2 H3; destruct E as [-> | E]; [done |].
    unfold published in E; rewrite !decide_False in E by done; by apply not_elem_of_nil in E. }
  induction Hsteps as [r | r r1 r2 Hc _ IH]; [done |]; apply IH; destruct Hw as (w & Ho & E).
  destruct (foreign_call_owned kmalloc_ok q w o r r1 Hc Ho) as [Ho1 | (p & style & theme & bg & ->)]; [by exists w | by eapply owned_style].
Qed.

(** ** Instances *)

Definition empty_registry : registry :=
  {| reg_root := empty_node []; registry_count := 0; allocs := 0; procs := []; current_process := None |}.

Lemma empty_registry_ok : reg_ok empty_registry.
Proof. split; [apply wf_empty | done | done]. Qed.

(** With memory to spare, boot installs its ten defaults. *)
Example registry_init_installs :
  let '(r, failed) := registry_init (fun _ _ => true) empty_registry in
  failed = 0 /\ registry_count r = 10 /\
  registry_get r (Some (lit "system.hostname")) 64 = inr (lit "NeXs") /\
  registry_enum r (Some (lit "sys.")) 64 = inr (lit "sys.ntfy.panel_open" ++ [NEWLINE]).
Proof. vm_compute; auto. Qed.

Lemma stored_theme : stored (lit "theme.color").
Proof. split; [repeat constructor | reflexivity]. Qed.

(** A registry with the one key theme.color, written by pid 7. *)
Definition theme_registry : registry :=
  fst (registry_set (fun _ _ => true) empty_registry (Some (lit "theme.color")) (Some (lit "dark")) 7).

Lemma theme_registry_ok : reg_ok theme_registry.
Proof.
  destruct (registry_set_cases (fun _ _ => true) empty_registry (lit "theme.color") (lit "dark") 7
              theme_registry 0) as [H _];
    [apply empty_registry_ok | apply stored_theme | repeat constructor | vm_compute; reflexivity | exact H].
Qed.

Lemma registry_set_updates_map_witness :
  reg_ok theme_registry /\
  registry_get theme_registry (Some (lit "theme.color")) 64 = inr (lit "dark") /\
  registry_get theme_registry (Some (lit "theme")) 64 = inl (- ENOENT).
Proof.
  destruct (registry_set_updates_map (fun _ _ => true) empty_registry (lit "theme.color") (lit "dark") 7
              theme_registry 0) as (H & _ & _ & G);
    [apply empty_registry_ok | apply stored_theme | repeat constructor | vm_compute; reflexivity |].
  split; [exact H |]; split.
  - rewrite G; [vm_compute; reflexivity | apply stored_theme | lia].
  - rewrite G; [vm_compute; reflexivity | split; [repeat constructor | reflexivity] | lia].
Defined.

Lemma registry_del_removes_key_witness :
  exists r', registry_del theme_registry (Some (lit "theme.color")) 7 = (r', 0) /\
  registry_get r' (Some (lit "theme.color")) 64 = inl (- ENOENT) /\ children (reg_root r') = [].
Proof.
  destruct (registry_del theme_registry (Some (lit "theme.color")) 7) as [r' ret] eqn:E.
  assert (ret = 0) as -> by (vm_compute in E; congruence).
  exists r'; split; [reflexivity |]; split; [| vm_compute in E; injection E as <-; reflexivity].
  destruct (registry_del_removes_key theme_registry (lit "theme.color") 7 r' 0) as (_ & _ & _ & G);
    [apply theme_registry_ok | apply stored_theme | exact E |].
  rewrite G; [vm_compute; reflexivity | apply stored_theme | lia].
Defined.

Lemma registry_enum_lists_leaves_witness :
  exists out, registry_enum theme_registry (Some (lit "theme")) 64 = inr out /\
  zlen out + 1 <= 64 /\ out = lit "theme.color" ++ [NEWLINE].
Proof.
  destruct (registry_enum_lists_leaves theme_registry (lit "theme") 64)
    as (ps & out & _ & _ & E & _ & Hb & _);
    [apply theme_registry_ok | split; [repeat constructor | reflexivity] | lia | |].
  - intros p Hp; vm_compute in Hp; apply list_elem_of_singleton in Hp as ->; vm_compute; reflexivity.
  - exists out; split; [exact E |]; split; [exact Hb |]; vm_compute in E; injection E as <-; reflexivity.
Defined.

(** An ordinary process of pid 9. *)
Definition user9 : process :=
  {| pid := 9; pname := lit "app"; pstate := PROC_RUNNING; level := PLVL_USER; caps := CAP_ALL;
     parent_pid := 1; owner_pid := 0; env := None |}.

(** Pid 9 fails to change the key of pid 7 and to write through a handle to it;
    then it sets the look of the desktop, which it may. *)
Definition asked : registry :=
  sys_reg (sys_registry (fun _ _ => true) (as_caller theme_registry user9) REG_OP_WRITE
             (UStr (lit "theme.color")) (UStr (lit "light")) true 0).
Definition tried : registry :=
  fst (regkey_write (fun _ _ => true) (as_caller asked user9) (lit "theme.color") (Some (lit "light")) 5).
Definition styled : registry := fst (set_style (fun _ _ => true) (as_caller tried user9) 0 0 4).

Lemma asked_call : foreign_call (fun _ _ => true) 7 theme_registry asked.
Proof. apply call_sys; [reflexivity | discriminate | discriminate | |]; intros s [= <-]; repeat constructor. Qed.

Lemma tried_call : foreign_call (fun _ _ => true) 7 asked tried.
Proof.
  apply call_handle; [reflexivity | discriminate | discriminate | repeat constructor |].
  intros b [= <-]; repeat constructor; unfold is_u8; lia.
Qed.

Lemma styled_call : foreign_call (fun _ _ => true) 7 tried styled.
Proof. apply call_style. Qed.

Lemma styled_reached : rtc (foreign_call (fun _ _ => true) 7) theme_registry styled.
Proof. eapply rtc_l; [exact asked_call |]; eapply rtc_l; [exact tried_call |]; eapply rtc_l; [exact styled_call | apply rtc_refl]. Qed.

Lemma registry_ownership_stable_witness :
  leaf_at (segments (lit "theme.color")) (reg_root tried) = Some (lit "dark", 7) /\
  exists w, leaf_at (segments (lit "theme.color")) (reg_root styled) = Some (w, 7) /\ (w = lit "dark" \/ w ∈ os1_theme_names).
Proof.
  split; [by vm_compute |].
  destruct (registry_ownership_stable (fun _ _ => true) (segments (lit "theme.color")) (lit "dark") 7 theme_registry styled theme_registry_ok
    ltac:(by vm_compute) styled_reached) as (_ & w & E & H & _); exists w; split; [exact E | exact H].
Defined.

(** The key of another process is set for a caller that may not write it. *)
Example set_style_changes_foreign_key :
  leaf_at (segments (lit "theme.color")) (reg_root styled) = Some (lit "light", 7).
Proof. by vm_compute. Qed.
