(* ===== verification/RwLock.v ===== *)
(** * The registry's reader/writer lock (kernel/lib/registry.c)

    Any number of CPUs run [reg_read_lock] / [reg_read_unlock] and
    [reg_write_lock] / [reg_write_unlock] interleaved.  A state holds the two
    spinlock words, the reader count, and the place each CPU has reached; a step
    is one atomic access by one CPU.  A spinlock (kernel/include/kernel/
    spinlock.h) is a flag: acquiring waits until it is clear, and any CPU may
    clear it, which the last reader out relies on. *)
From Stdlib Require Import ZArith Lia.
From stdpp Require Import base numbers list relations.
From S2P Require Import Prelude.

(** Places in the four functions. *)
Inductive pc :=
| Idle                 (* outside *)
| RCount               (* reg_read_lock: holds reg_cnt_lock, before ++reg_readers *)
| RWait                (* first reader: spinning on reg_res_lock *)
| RLeave               (* before the release of reg_cnt_lock *)
| RIn                  (* in the read section *)
| RUncount             (* reg_read_unlock: holds reg_cnt_lock, before --reg_readers *)
| RFree                (* last reader: before the release of reg_res_lock *)
| RDone                (* before the release of reg_cnt_lock *)
| WIn.                 (* in the write section *)

#[global] Instance pc_eq_dec : EqDecision pc.
Proof. solve_decision. Defined.

Record rw := { cnt_lock : bool; res_lock : bool; reg_readers : Z; cpus : list pc }.

Definition goto (s : rw) (i : nat) (p : pc) : list pc := <[i := p]> (cpus s).

(** One atomic access by CPU [i]; [None] when it must keep spinning. *)
Definition rw_read_step (s : rw) (i : nat) (p : pc) : option rw :=
  match p with
  | Idle => (* spin_lock_irqsave(&reg_cnt_lock) *)
    if cnt_lock s then None
    else Some {| cnt_lock := true; res_lock := res_lock s; reg_readers := reg_readers s; cpus := goto s i RCount |}
  | RCount => (* if (++reg_readers == 1) *)
    Some {| cnt_lock := cnt_lock s; res_lock := res_lock s; reg_readers := reg_readers s + 1;
            cpus := goto s i (if reg_readers s + 1 =? 1 then RWait else RLeave) |}
  | RWait => (* spin_lock(&reg_res_lock) *)
    if res_lock s then None
    else Some {| cnt_lock := cnt_lock s; res_lock := true; reg_readers := reg_readers s; cpus := goto s i RLeave |}
  | RLeave => (* spin_unlock(&reg_cnt_lock) *)
    Some {| cnt_lock := false; res_lock := res_lock s; reg_readers := reg_readers s; cpus := goto s i RIn |}
  | _ => None
  end.

Definition rw_unread_step (s : rw) (i : nat) (p : pc) : option rw :=
  match p with
  | RIn => (* spin_lock(&reg_cnt_lock) *)
    if cnt_lock s then None
    else Some {| cnt_lock := true; res_lock := res_lock s; reg_readers := reg_readers s; cpus := goto s i RUncount |}
  | RUncount => (* if (--reg_readers == 0) *)
    Some {| cnt_lock := cnt_lock s; res_lock := res_lock s; reg_readers := reg_readers s - 1;
            cpus := goto s i (if reg_readers s - 1 =? 0 then RFree else RDone) |}
  | RFree => (* spin_unlock(&reg_res_lock) *)
    Some {| cnt_lock := cnt_lock s; res_lock := false; reg_readers := reg_readers s; cpus := goto s i RDone |}
  | RDone => (* spin_unlock_irqrestore(&reg_cnt_lock) *)
    Some {| cnt_lock := false; res_lock := res_lock s; reg_readers := reg_readers s; cpus := goto s i Idle |}
  | _ => None
  end.

Definition rw_write_step (s : rw) (i : nat) (p : pc) : option rw :=
  match p with
  | Idle => (* reg_write_lock *)
    if res_lock s then None
    else Some {| cnt_lock := cnt_lock s; res_lock := true; reg_readers := reg_readers s; cpus := goto s i WIn |}
  | WIn => (* reg_write_unlock *)
    Some {| cnt_lock := cnt_lock s; res_lock := false; reg_readers := reg_readers s; cpus := goto s i Idle |}
  | _ => None
  end.

Inductive rw_step (s s' : rw) : Prop :=
| step_read i p : cpus s !! i = Some p -> rw_read_step s i p = Some s' -> rw_step s s'
| step_unread i p : cpus s !! i = Some p -> rw_unread_step s i p = Some s' -> rw_step s s'
| step_write i p : cpus s !! i = Some p -> rw_write_step s i p = Some s' -> rw_step s s'.

Definition rw_init (n : nat) : rw :=
  {| cnt_lock := false; res_lock := false; reg_readers := 0; cpus := replicate n Idle |}.

(** ** The invariant *)

(** How many CPUs are at a place. *)
Fixpoint at_pc (x : pc) (l : list pc) : Z :=
  match l with
  | [] => 0
  | p :: r => (if decide (p = x) then 1 else 0) + at_pc x r
  end.

Lemma at_pc_nonneg x l : 0 <= at_pc x l.
Proof. induction l; simpl; [lia |]; case_decide; lia. Qed.

Lemma at_pc_insert x l i a b :
  l !! i = Some a ->
  at_pc x (<[i := b]> l) =
  at_pc x l - (if decide (a = x) then 1 else 0) + (if decide (b = x) then 1 else 0).
Proof.
  revert i; induction l as [| p l IH]; intros i Hi; [done |]; destruct i as [| i]; simplify_eq/=; [lia |].
  rewrite (IH i Hi); lia.
Qed.

Lemma at_pc_pos x l i : l !! i = Some x -> 0 < at_pc x l.
Proof.
  revert i; induction l as [| p l IH]; intros i Hi; [done |]; destruct i as [| i]; simplify_eq/=.
  - rewrite decide_True by done; assert (H := at_pc_nonneg x l); lia.
  - assert (H := IH i Hi); case_decide; lia.
Qed.

Lemma at_pc_exists x l : 0 < at_pc x l -> exists i, l !! i = Some x.
Proof.
  induction l as [| p l IH]; simpl; [lia |]; case_decide; [by exists O; subst |].
  intros H'; destruct IH as [i Hi]; [lia | by exists (S i)].
Qed.

Definition b2z (b : bool) : Z := if b then 1 else 0.

(** CPUs that hold reg_cnt_lock, and whether the readers hold reg_res_lock. *)
Definition in_cnt (l : list pc) : Z :=
  at_pc RCount l + at_pc RWait l + at_pc RLeave l + at_pc RUncount l + at_pc RFree l + at_pc RDone l.

Record rw_inv (s : rw) : Prop := {
  inv_cnt : in_cnt (cpus s) = b2z (cnt_lock s);
  inv_readers : reg_readers s =
    at_pc RWait (cpus s) + at_pc RLeave (cpus s) + at_pc RIn (cpus s) + at_pc RUncount (cpus s);
  inv_wait : 0 < at_pc RWait (cpus s) -> reg_readers s = 1;
  inv_free : 0 < at_pc RFree (cpus s) -> reg_readers s = 0;
  inv_res : b2z (res_lock s) =
    at_pc WIn (cpus s) +
    (if decide (0 < reg_readers s - at_pc RWait (cpus s) + at_pc RFree (cpus s)) then 1 else 0)
}.

Lemma rw_init_inv n : rw_inv (rw_init n).
Proof.
  assert (H : forall x, x <> Idle -> at_pc x (replicate n Idle) = 0)
    by (intros x Hx; induction n as [| n IH]; simpl; [done |]; rewrite decide_False by done; lia).
  split; unfold in_cnt; simpl; rewrite ?H by done; try done; lia.
Qed.

(** Every count is non-negative. *)
Ltac counts l :=
  assert (0 <= at_pc RCount l /\ 0 <= at_pc RWait l /\ 0 <= at_pc RLeave l /\ 0 <= at_pc RIn l /\
          0 <= at_pc RUncount l /\ 0 <= at_pc RFree l /\ 0 <= at_pc RDone l /\ 0 <= at_pc WIn l)
    by (repeat split; apply at_pc_nonneg).

(** Checks the invariant after a step at a CPU at [Hi]. *)
Ltac rw_case s Hi :=
  counts (cpus s); assert (Hpos := at_pc_pos _ _ _ Hi);
  split; unfold in_cnt, goto in *; simpl in *; rewrite ?(at_pc_insert _ _ _ _ _ Hi) in *; simpl in *;
  repeat case_decide; simpl in *; try done; lia.

Lemma rw_step_inv s s' : rw_inv s -> rw_step s s' -> rw_inv s'.
Proof.
  intros [Hc Hr Hw Hf Hres] Hs; unfold in_cnt in *.
  destruct Hs as [i p Hi E | i p Hi E | i p Hi E]; destruct p; simpl in E; try done;
    destruct (cnt_lock s) eqn:?, (res_lock s) eqn:?; simplify_eq; simpl b2z in *;
    try (destruct (Z.eqb_spec (reg_readers s + 1) 1)); try (destruct (Z.eqb_spec (reg_readers s - 1) 0));
    rw_case s Hi.
Qed.

Lemma at_pc_two x l i j :
  l !! i = Some x -> l !! j = Some x -> i <> j -> 2 <= at_pc x l.
Proof.
  intros Hi Hj Hne.
  assert (H : 0 < at_pc x (<[i := if decide (x = Idle) then RIn else Idle]> l))
    by (apply (at_pc_pos x _ j); by rewrite list_lookup_insert_ne).
  rewrite (at_pc_insert x l i x) in H by done; rewrite decide_True in H by done.
  destruct (decide (x = Idle)) as [-> | Hx]; rewrite decide_False in H by done; lia.
Qed.

(** A CPU outside [Idle] can make its next access. *)
Definition can_step (s : rw) : Prop :=
  exists i p s', cpus s !! i = Some p /\ p <> Idle /\
    (rw_read_step s i p = Some s' \/ rw_unread_step s i p = Some s' \/ rw_write_step s i p = Some s').

Lemma rw_progress s : rw_inv s -> (exists i p, cpus s !! i = Some p /\ p <> Idle) -> can_step s.
Proof.
  intros [Hc Hr Hw Hf Hres] (i & p & Hi & Hp); unfold in_cnt in *; counts (cpus s).
  assert (Hrun : forall x, x <> Idle -> 0 < at_pc x (cpus s) ->
    (forall j, is_Some (rw_read_step s j x) \/ is_Some (rw_unread_step s j x) \/ is_Some (rw_write_step s j x)) ->
    can_step s).
  { intros x Hx (j & Hj)%at_pc_exists Hs; destruct (Hs j) as [[s' E] | [[s' E] | [s' E]]]; by exists j, x, s'; auto. }
  destruct (decide (0 < at_pc WIn (cpus s))).
  { apply (Hrun WIn); [done | done |]; simpl; eauto. }
  destruct (cnt_lock s) eqn:El; simpl in Hc.
  - destruct (decide (0 < at_pc RWait (cpus s))) as [Hw0 |].
    { assert (Hres0 : res_lock s = false)
        by (specialize (Hw Hw0); destruct (res_lock s); [simpl in Hres; case_decide; lia | done]).
      apply (Hrun RWait); [done | done |]; simpl; rewrite Hres0; eauto. }
    assert (Hx : exists x, 0 < at_pc x (cpus s) /\ x ∈ [RCount; RLeave; RUncount; RFree; RDone]).
    { destruct (decide (0 < at_pc RCount (cpus s))); [exists RCount; set_solver |].
      destruct (decide (0 < at_pc RLeave (cpus s))); [exists RLeave; set_solver |].
      destruct (decide (0 < at_pc RUncount (cpus s))); [exists RUncount; set_solver |].
      destruct (decide (0 < at_pc RFree (cpus s))); [exists RFree; set_solver |].
      exists RDone; split; [lia | set_solver]. }
    destruct Hx as (x & Hx & Hin); apply (Hrun x); [set_solver | done |].
    intros j; repeat (apply elem_of_cons in Hin as [-> | Hin]; [simpl; eauto |]); by apply elem_of_nil in Hin.
  - assert (Hpos := at_pc_pos _ _ _ Hi); destruct p; try done; try lia.
    apply (Hrun RIn); [done | done |]; simpl; rewrite El; eauto.
Qed.

(** C24: The registry's reader/writer lock (reg_read_lock, reg_read_unlock,
    reg_write_lock, reg_write_unlock), for any number of CPUs and any
    interleaving of their accesses: while a CPU is in the write section no other
    CPU is in the write section or in a read section; the reader count is the
    number of CPUs between their increment and their decrement; and the lock
    never deadlocks: whenever some CPU is inside the protocol, one that is
    inside it can proceed. *)
Theorem rw_lock_exclusion_progress n s :
  rtc rw_step (rw_init n) s ->
  (forall i j p, cpus s !! i = Some WIn -> cpus s !! j = Some p -> i <> j -> p <> WIn /\ p <> RIn) /\
  reg_readers s = at_pc RWait (cpus s) + at_pc RLeave (cpus s) + at_pc RIn (cpus s) + at_pc RUncount (cpus s) /\
  ((exists i p, cpus s !! i = Some p /\ p <> Idle) -> can_step s).
Proof.
  intros Hs; assert (Hinv : rw_inv s).
  { assert (H0 := rw_init_inv n); revert H0; induction Hs as [| x y z Hxy _ IH]; [done |].
    intros Hx; apply IH; by eapply rw_step_inv. }
  split; [| split; [apply Hinv | by apply rw_progress]].
  destruct Hinv as [Hc Hr Hw Hf Hres]; unfold in_cnt in *; counts (cpus s).
  intros i j p Hi Hj Hne; assert (Hpos := at_pc_pos _ _ _ Hi); split; intros ->.
  - assert (H2 := at_pc_two _ _ _ _ Hi Hj Hne); destruct (res_lock s); simpl in Hres; case_decide; lia.
  - assert (Hpr := at_pc_pos _ _ _ Hj); destruct (res_lock s); simpl in Hres; case_decide; lia.
Qed.

(** Runs a list of steps: 0 read, 1 unread, 2 write, by a CPU. *)
Fixpoint rw_run (s : rw) (l : list (nat * nat)) : option rw :=
  match l with
  | [] => Some s
  | (k, i) :: r =>
    p ← cpus s !! i;
    s' ← match k with O => rw_read_step s i p | 1%nat => rw_unread_step s i p | _ => rw_write_step s i p end;
    rw_run s' r
  end.

Lemma rw_run_steps l s s' : rw_run s l = Some s' -> rtc rw_step s s'.
Proof.
  revert s; induction l as [| [k i] l IH]; simpl; intros s H; [simplify_eq; apply rtc_refl |].
  destruct (cpus s !! i) as [p |] eqn:Ep; [| done]; simpl in H.
  destruct k as [| [| k]];
    match type of H with (?x ≫= _) = _ => destruct x as [s1 |] eqn:E1; [| done] end; simpl in H;
    (eapply rtc_l; [| by apply IH]); [by eapply step_read | by eapply step_unread | by eapply step_write].
Qed.

(** Two CPUs read at once while a third waits to write; the last reader out,
    not the first one in, lets it proceed. *)
Definition two_readers : list (nat * nat) := [(0, 0); (0, 0); (0, 0); (0, 0); (0, 1); (0, 1); (0, 1)]%nat.

Lemma rw_lock_exclusion_progress_witness :
  exists s, rw_run (rw_init 3) two_readers = Some s /\ cpus s = [RIn; RIn; Idle] /\
  reg_readers s = 2 /\ can_step s.
Proof.
  destruct (rw_run (rw_init 3) two_readers) as [s |] eqn:E; [| vm_compute in E; discriminate].
  destruct (rw_lock_exclusion_progress 3 s (rw_run_steps _ _ _ E)) as (_ & Hr & Hp).
  vm_compute in E; injection E as <-.
  eexists; split; [reflexivity |]; split; [reflexivity |]; split; [reflexivity |].
  apply Hp; exists 0%nat, RIn; split; [reflexivity | discriminate].
Defined.
