(* ===== verification/ProcLife.v ===== *)
(** * Exit statuses and subtree kills (kernel/sched/process.c)

    Two small state machines of the process layer: the ring that keeps the
    exit status of processes already freed, and the choice of the processes a
    subtree kill ends. *)
From Stdlib Require Import ZArith Lia.
From stdpp Require Import base numbers list relations.
From S2P Require Import Prelude CString ProcTab.

(** ** Exit statuses *)

Definition REAPED_MAX : Z := 32.

(** [reaped_ring] as [(pid, code)], and [reaped_next]. *)
Record reaped := { ring : list (Z * Z); reaped_next : Z }.

Definition reaped0 : reaped := {| ring := replicate 32 (0, 0); reaped_next := 0 |}.

(** What [__record_reaped] and [process_wait] read of a process. *)
Record corpse := { c_pid : Z; c_dead : bool; c_exited : bool; c_exit_code : Z }.

Definition exit_status (p : corpse) : Z := if c_exited p then Z.land (c_exit_code p) 0xff else -9.

Definition record_reaped (r : reaped) (p : corpse) : reaped :=
  if i32 (c_pid p) <=? 0 then r
  else {| ring := zset (ring r) (reaped_next r) (i32 (c_pid p), exit_status p);
          reaped_next := (reaped_next r + 1) mod REAPED_MAX |}.

Definition claim_reaped (r : reaped) (n : Z) : reaped * option Z :=
  match list_find (fun e => fst e = n) (ring r) with
  | Some (i, (_, code)) => ({| ring := <[i := (0, code)]> (ring r); reaped_next := reaped_next r |}, Some code)
  | None => (r, None)
  end.

(** [process_wait]: the pid and status, -1 while it lives, -2 when unknown. *)
Definition process_wait (pool : list corpse) (r : reaped) (n : Z) : reaped * (Z * option Z) :=
  match list_find (fun p => i32 (c_pid p) = n) pool with
  | Some (_, p) => if c_dead p then (r, (n, Some (exit_status p))) else (r, (-1, None))
  | None =>
    match claim_reaped r n with
    | (r, Some code) => (r, (n, Some code))
    | (r, None) => (r, (-2, None))
    end
  end.

(** ** Subtree kills *)

Record kill_snap := { k_pid : Z; k_parent : Z; windowless : bool; kill : bool; k_machine : bool }.

Definition with_kill (e : kill_snap) : kill_snap :=
  {| k_pid := k_pid e; k_parent := k_parent e; windowless := windowless e; kill := true; k_machine := k_machine e |}.

(** [__kill_snap_capture]: the live processes, and the place of the root. *)
Definition kill_snap_capture (pp : pool) (root : Z) : list kill_snap * Z :=
  let snap := omap (fmap (fun p =>
    {| k_pid := i32 (pid p); k_parent := parent_pid p; windowless := true; kill := false;
       k_machine := proc_is_machine (Some p) |})) pp in
  (snap, foldl (fun r ie => if k_pid (snd ie) =? root then Z.of_nat (fst ie) else r) (-1) (imap pair snap)).

(** [__kill_snap_probe_windows]; [window pid] is the compositor's answer. *)
Definition kill_snap_probe_windows (window : Z -> Z) (snap : list kill_snap) : list kill_snap :=
  (fun e => {| k_pid := k_pid e; k_parent := k_parent e; windowless := negb (0 <? window (k_pid e));
               kill := kill e; k_machine := k_machine e |}) <$> snap.

(** The body of the loop over [i]; the flag is [changed]. *)
Definition propagate_one (st : list kill_snap * bool) (i : nat) : list kill_snap * bool :=
  let '(snap, changed) := st in
  match snap !! i with
  | None => st
  | Some e =>
    if kill e || negb (windowless e) || k_machine e then st
    else if existsb (fun f => kill f && (k_pid f =? k_parent e)) snap
    then (<[i := with_kill e]> snap, true)
    else st
  end.

Definition propagate_pass (snap : list kill_snap) : list kill_snap * bool :=
  foldl propagate_one (snap, false) (seq 0 (length snap)).

(** [for (pass = 0; pass < n; pass++)], left when nothing changed. *)
Fixpoint propagate_passes (n : nat) (snap : list kill_snap) : list kill_snap :=
  match n with
  | O => snap
  | S n =>
    let '(snap, changed) := propagate_pass snap in
    if changed then propagate_passes n snap else snap
  end.

Definition kill_snap_propagate (snap : list kill_snap) : list kill_snap :=
  propagate_passes (length snap) snap.

(** [__kill_snap_execute]: the pids passed to [process_terminate], in order. *)
Definition kill_snap_execute (snap : list kill_snap) (root : Z) : list Z :=
  omap (fun e => if kill e && negb (k_pid e =? root) then Some (k_pid e) else None) snap ++ [root].

Definition process_kill_subtree (pp : pool) (window : Z -> Z) (root : Z) : list Z :=
  let '(snap, root_idx) := kill_snap_capture pp root in
  if root_idx <? 0 then []
  else
    match snap !! Z.to_nat root_idx with
    | None => []
    | Some e =>
      if k_machine e then []
      else
        let snap := kill_snap_probe_windows window snap in
        let snap := alter with_kill (Z.to_nat root_idx) snap in
        kill_snap_execute (kill_snap_propagate snap) root
    end.

(** ** The ring keeps a status until it is collected *)

Inductive ring_op := ORecord (p : corpse) | OClaim (n : Z).

Definition ring_run (r : reaped) (o : ring_op) : reaped :=
  match o with ORecord p => record_reaped r p | OClaim n => fst (claim_reaped r n) end.

(** The number of statuses the operations record. *)
Fixpoint records (ops : list ring_op) : Z :=
  match ops with
  | [] => 0
  | ORecord _ :: ops => 1 + records ops
  | OClaim _ :: ops => records ops
  end.

(** The operations are about other processes. *)
Definition others (n : Z) (ops : list ring_op) : Prop :=
  Forall (fun o => match o with ORecord p => i32 (c_pid p) <> n | OClaim m => m <> n end) ops.

(** Slot [i] alone holds the status of [n], and [k] slots after it have been
    written since. *)
Definition kept (n code : Z) (i : nat) (k : Z) (r : reaped) : Prop :=
  length (ring r) = 32%nat /\ (i < 32)%nat /\ ring r !! i = Some (n, code) /\
  (forall j c, j <> i -> ring r !! j <> Some (n, c)) /\
  0 <= reaped_next r < 32 /\ (reaped_next r - (Z.of_nat i + 1 + k)) mod 32 = 0 /\ 0 <= k < 32.

Lemma records_nonneg ops : 0 <= records ops.
Proof. induction ops as [| [] ops IH]; simpl; lia. Qed.

Lemma ring_set_other (l : list (Z * Z)) x i n code e :
  0 <= x < 32 -> length l = 32%nat -> (i < 32)%nat -> x <> Z.of_nat i -> fst e <> n ->
  l !! i = Some (n, code) -> (forall j c, j <> i -> l !! j <> Some (n, c)) ->
  zset l x e !! i = Some (n, code) /\ forall j c, j <> i -> zset l x e !! j <> Some (n, c).
Proof.
  intros Hx Hl Hi Hne He Hli Hlj; unfold zset; destruct (Z.ltb_spec x 0); [lia |]; split.
  - rewrite list_lookup_insert_ne by lia; done.
  - intros j c Hj E; rewrite list_lookup_insert_Some in E; destruct E as [(_ & -> & _) | (_ & E)]; [done |].
    by eapply Hlj.
Qed.

Lemma kept_record n code i k r p :
  kept n code i k r -> i32 (c_pid p) <> n -> k < 31 ->
  kept n code i k (record_reaped r p) \/ kept n code i (k + 1) (record_reaped r p).
Proof.
  intros K Hp Hk; unfold record_reaped; case_if; [by left | right].
  destruct K as (Hl & Hi & Hli & Hlj & Hn & Hm & Hkk).
  assert (Hne : reaped_next r <> Z.of_nat i).
  { intros E; rewrite E in Hm; apply Z.mod_divide in Hm as [q Hq]; lia. }
  destruct (ring_set_other (ring r) (reaped_next r) i n code (i32 (c_pid p), exit_status p)) as [H1 H2]; try done.
  assert (Hlen := zlen_zset (ring r) (reaped_next r) (i32 (c_pid p), exit_status p)).
  unfold kept, REAPED_MAX; simpl; split; [unfold zlen in Hlen; lia |]; split; [done |]; split; [done |]; split; [done |].
  split; [apply Z.mod_pos_bound; lia |]; split; [| lia].
  rewrite Zminus_mod_idemp_l; replace (reaped_next r + 1 - (Z.of_nat i + 1 + (k + 1))) with (reaped_next r - (Z.of_nat i + 1 + k)) by lia; done.
Qed.

Lemma kept_claim n code i k r m : 0 < n -> kept n code i k r -> m <> n -> kept n code i k (fst (claim_reaped r m)).
Proof.
  intros Hn0 K Hm; unfold claim_reaped; destruct (list_find _ (ring r)) as [[j [a c]] |] eqn:E; [| done].
  apply list_find_Some in E as (Hj & Ha & _); simpl in Ha; subst a; destruct K as (Hl & Hi & Hli & Hlj & Hr).
  assert (Hji : j <> i) by (intros ->; simplify_eq).
  unfold kept; simpl; split; [by rewrite length_insert |]; split; [done |]; split; [by rewrite list_lookup_insert_ne |].
  split; [| done]; intros x d Hx E; rewrite list_lookup_insert_Some in E; destruct E as [(_ & ? & _) | (_ & E)]; [simplify_eq; lia |].
  by eapply Hlj.
Qed.

Lemma kept_run n code i ops : 0 < n -> forall k r,
  kept n code i k r -> others n ops -> k + records ops < 32 ->
  exists k', kept n code i k' (foldl ring_run r ops).
Proof.
  intros Hn; induction ops as [| o ops IH]; intros k r K Ho Hk; simpl; [eauto |].
  inversion Ho as [| ? ? H1 H2]; subst; pose proof (records_nonneg ops); destruct o as [p | m]; simpl in *.
  - destruct (kept_record n code i k r p K H1) as [K' | K']; [lia | |]; (eapply IH; [exact K' | done | lia]).
  - eapply IH; [by apply kept_claim | done | done].
Qed.

(** The exit status of a freed process is not lost: as long as fewer than 32
    further statuses are recorded, [process_wait] on its pid returns it, once;
    after that the pid is unknown.  Other waits do not disturb it. *)
Theorem exit_status_kept r p ops :
  length (ring r) = 32%nat -> 0 <= reaped_next r < 32 -> 0 < i32 (c_pid p) ->
  (forall c, ~ (i32 (c_pid p), c) ∈ ring r) ->
  others (i32 (c_pid p)) ops -> records ops < 32 ->
  let n := i32 (c_pid p) in
  let r' := foldl ring_run (record_reaped r p) ops in
  exists r'', process_wait [] r' n = (r'', (n, Some (exit_status p))) /\
    process_wait [] r'' n = (r'', (-2, None)).
Proof.
  intros Hl Hn Hp Hfresh Ho Hr n r'.
  assert (K : kept n (exit_status p) (Z.to_nat (reaped_next r)) 0 (record_reaped r p)).
  { unfold record_reaped; fold n; destruct (Z.leb_spec n 0); [unfold n in *; lia |].
    assert (Hlen := zlen_zset (ring r) (reaped_next r) (n, exit_status p)); unfold kept, REAPED_MAX; simpl.
    split; [unfold zlen in Hlen; lia |]; split; [lia |]; unfold zset; destruct (Z.ltb_spec (reaped_next r) 0); [lia |].
    split; [apply list_lookup_insert_eq; lia |]; split.
    - intros j c Hj E; rewrite list_lookup_insert_ne in E by done; by eapply Hfresh, list_elem_of_lookup_2.
    - split; [apply Z.mod_pos_bound; lia |]; split; [| lia].
      rewrite Zminus_mod_idemp_l; replace (reaped_next r + 1 - (Z.of_nat (Z.to_nat (reaped_next r)) + 1 + 0)) with 0 by lia; done. }
  destruct (kept_run n _ _ ops Hp 0 _ K Ho) as (k & Hl' & Hi & Hli & Hlj & _); [lia |]; fold r' in Hl', Hli, Hlj.
  set (i := Z.to_nat (reaped_next r)) in *.
  assert (Ef : list_find (fun e : Z * Z => fst e = n) (ring r') = Some (i, (n, exit_status p))).
  { apply list_find_Some; split; [done |]; split; [done |]; intros j [a c] Hj Hji; simpl; intros ->.
    by apply (Hlj j c); [lia |]. }
  unfold process_wait, claim_reaped; cbn [list_find]; rewrite Ef; eexists; split; [done |]; cbn [ring].
  assert (En : list_find (fun e : Z * Z => fst e = n) (<[i := (0, exit_status p)]> (ring r')) = None).
  { apply list_find_None, Forall_lookup; intros j [a c] E; simpl; intros ->.
    rewrite list_lookup_insert_Some in E; destruct E as [(_ & E & _) | (Hne & E)].
    - apply (f_equal fst) in E; simpl in E; unfold n in E; lia.
    - apply (Hlj j c); [congruence | done]. }
  by rewrite En.
Qed.

Lemma exit_status_kept_witness :
  let p := {| c_pid := 9; c_dead := true; c_exited := true; c_exit_code := 3 |} in
  exists r'', process_wait [] (foldl ring_run (record_reaped reaped0 p) [OClaim 4]) 9 = (r'', (9, Some 3)) /\
    process_wait [] r'' 9 = (r'', (-2, None)).
Proof.
  apply (exit_status_kept reaped0 {| c_pid := 9; c_dead := true; c_exited := true; c_exit_code := 3 |} [OClaim 4]);
    [done | simpl; lia | by vm_compute | | | simpl; lia].
  - intros c H; apply elem_of_replicate in H as [H _]; discriminate H.
  - repeat constructor; by vm_compute.
Defined.

(** ** Which processes a subtree kill ends *)

(** Entry [i] is marked, or is a windowless, unprotected child of one that is
    to die. *)
Inductive doomed (snap : list kill_snap) : nat -> Prop :=
| doomed_marked i e : snap !! i = Some e -> kill e = true -> doomed snap i
| doomed_child i j e f :
    snap !! i = Some e -> windowless e = true -> k_machine e = false ->
    snap !! j = Some f -> k_pid f = k_parent e -> doomed snap j -> doomed snap i.

(** The entries but for the mark. *)
Definition same_but_kill (snap snap' : list kill_snap) : Prop :=
  length snap' = length snap /\
  forall i e e', snap !! i = Some e -> snap' !! i = Some e' ->
    k_pid e' = k_pid e /\ k_parent e' = k_parent e /\ windowless e' = windowless e /\ k_machine e' = k_machine e /\
    (kill e = true -> kill e' = true).

Definition marked (snap : list kill_snap) : nat := length (filter (fun e => kill e = true) snap).

(** No entry is left to mark. *)
Definition settled_at (snap : list kill_snap) (i : nat) : Prop :=
  forall e, snap !! i = Some e -> kill e = false -> windowless e = true -> k_machine e = false ->
    existsb (fun f => kill f && (k_pid f =? k_parent e)) snap = false.

Lemma same_but_kill_refl snap : same_but_kill snap snap.
Proof. split; [done |]; intros i e e' H1 H2; simplify_eq; done. Qed.

Lemma same_but_kill_trans s1 s2 s3 : same_but_kill s1 s2 -> same_but_kill s2 s3 -> same_but_kill s1 s3.
Proof.
  intros [L1 H1] [L2 H2]; split; [congruence |]; intros i e e3 E1 E3.
  destruct (lookup_lt_is_Some_2 s2 i) as [e2 E2]; [rewrite L1; by eapply lookup_lt_Some |].
  destruct (H1 i e e2 E1 E2) as (A1 & A2 & A3 & A4 & A5), (H2 i e2 e3 E2 E3) as (B1 & B2 & B3 & B4 & B5).
  repeat split; first [congruence | auto].
Qed.

Lemma marked_le snap : (marked snap <= length snap)%nat.
Proof. unfold marked; apply length_filter. Qed.

Lemma marked_insert snap i e :
  snap !! i = Some e -> kill e = false -> marked (<[i := with_kill e]> snap) = S (marked snap).
Proof.
  intros Hi He; unfold marked; rewrite <- (take_drop_middle snap i e Hi) at 2.
  rewrite insert_take_drop by (by eapply lookup_lt_Some).
  rewrite !filter_app, !filter_cons_True, filter_cons_False by (done || by rewrite He).
  rewrite !length_app; simpl; lia.
Qed.

(** What one step of the loop does. *)
Lemma propagate_one_spec snap changed i :
  let '(snap', changed') := propagate_one (snap, changed) i in
  same_but_kill snap snap' /\
  (forall k, doomed snap' k -> doomed snap k) /\
  ((snap' = snap /\ changed' = changed /\ settled_at snap i) \/ (changed' = true /\ (marked snap < marked snap')%nat)).
Proof.
  unfold propagate_one; destruct (snap !! i) as [e |] eqn:Ei.
  2:{ split; [apply same_but_kill_refl |]; split; [done |]; left; split; [done |]; split; [done |]; intros e E; congruence. }
  destruct (kill e || negb (windowless e) || k_machine e) eqn:Eg.
  { split; [apply same_but_kill_refl |]; split; [done |]; left; split; [done |]; split; [done |].
    intros e' E Hk Hw Hm; simplify_eq; rewrite Hk, Hw, Hm in Eg; done. }
  apply orb_false_iff in Eg as [Eg Em]; apply orb_false_iff in Eg as [Ek Ew%negb_false_iff].
  destruct (existsb _ snap) eqn:Ex.
  2:{ split; [apply same_but_kill_refl |]; split; [done |]; left; split; [done |]; split; [done |].
      intros e' E _ _ _; simplify_eq; done. }
  assert (Hnew : forall k f', <[i := with_kill e]> snap !! k = Some f' -> exists f, snap !! k = Some f /\
    k_pid f' = k_pid f /\ k_parent f' = k_parent f /\ windowless f' = windowless f /\ k_machine f' = k_machine f /\
    (kill f = true -> kill f' = true) /\ (kill f' = true -> k <> i -> kill f = true)).
  { intros k f' H; rewrite list_lookup_insert_Some in H; destruct H as [(<- & <- & _) | (Hne & H)];
      [exists e; split; [done |]; simpl; repeat split; try done; congruence | exists f'; split; [done |]; auto 10]. }
  split; [| split; [| right; split; [done |]; rewrite (marked_insert snap i e Ei Ek); lia]].
  - split; [by rewrite length_insert |]; intros k f f' H1 H2; destruct (Hnew k f' H2) as (f0 & E0 & H); simplify_eq.
    destruct H as (-> & -> & -> & -> & H & _); auto.
  - apply existsb_exists in Ex as (f & Hf & [Hk Hp]%andb_true_iff); apply list_elem_of_In, list_elem_of_lookup in Hf as [j Hj].
    assert (Hd : doomed snap i).
    { eapply (doomed_child snap i j e f); [done | done | done | done | by apply Z.eqb_eq | by eapply doomed_marked]. }
    intros k Hk'; induction Hk' as [k f' Hf' Hkf | k m f' g' Hf' Hw Hm Hg' Hpp _ IH].
    + destruct (decide (k = i)) as [-> | Hne]; [done |]; destruct (Hnew k f' Hf') as (f0 & E0 & _ & _ & _ & _ & _ & H).
      by apply (doomed_marked snap k f0 E0), H.
    + destruct (Hnew k f' Hf') as (f0 & E0 & P1 & P2 & P3 & P4 & _), (Hnew m g' Hg') as (g0 & G0 & Q1 & _).
      eapply (doomed_child snap k m f0 g0); [done | congruence | congruence | done | congruence | done].
Qed.

(** One pass: nothing changed and all is settled, or more entries are marked. *)
Lemma propagate_pass_spec snap :
  let '(snap', changed) := propagate_pass snap in
  same_but_kill snap snap' /\ (forall k, doomed snap' k -> doomed snap k) /\
  (if changed then (marked snap < marked snap')%nat else snap' = snap /\ forall i, settled_at snap i).
Proof.
  unfold propagate_pass.
  assert (H : forall m, let '(snap', changed) := foldl propagate_one (snap, false) (seq 0 m) in
    same_but_kill snap snap' /\ (forall k, doomed snap' k -> doomed snap k) /\
    (if changed then (marked snap < marked snap')%nat else snap' = snap /\ forall i, (i < m)%nat -> settled_at snap i)).
  { induction m as [| m IH]; [simpl; split; [apply same_but_kill_refl |]; split; [done |]; split; [done | lia] |].
    rewrite seq_S, foldl_snoc; destruct (foldl propagate_one (snap, false) (seq 0 m)) as [s1 ch].
    destruct IH as (S1 & D1 & C1); pose proof (propagate_one_spec s1 ch (0 + m)) as Hone.
    destruct (propagate_one (s1, ch) (0 + m)) as [s2 ch2]; destruct Hone as (S2 & D2 & Hc).
    split; [by eapply same_but_kill_trans |]; split; [auto |].
    destruct Hc as [(-> & -> & Hset) | (-> & Hlt)].
    - destruct ch; [done |]; destruct C1 as [-> C1]; split; [done |]; intros i Hi.
      destruct (decide (i = m)) as [-> |]; [done | apply C1; lia].
    - destruct ch; [lia | destruct C1 as [-> _]; done]. }
  specialize (H (length snap)); destruct (foldl _ _ _) as [snap' changed]; destruct H as (A & B & C).
  split; [done |]; split; [done |]; destruct changed; [done |]; destruct C as [-> C]; split; [done |].
  intros i; destruct (decide (i < length snap)%nat) as [Hi | Hi]; [by apply C |].
  intros e E; apply lookup_lt_Some in E; lia.
Qed.

Lemma propagate_passes_spec n snap :
  (length snap - marked snap <= n)%nat ->
  let snap' := propagate_passes n snap in
  same_but_kill snap snap' /\ (forall k, doomed snap' k -> doomed snap k) /\ forall i, settled_at snap' i.
Proof.
  revert snap; induction n as [| n IH]; intros snap Hn; simpl.
  - split; [apply same_but_kill_refl |]; split; [done |]; intros i e Hi Hk _ _; exfalso.
    pose proof (marked_insert snap i e Hi Hk) as H; pose proof (marked_le (<[i := with_kill e]> snap)) as H2.
    rewrite length_insert in H2; lia.
  - pose proof (propagate_pass_spec snap) as Hp; destruct (propagate_pass snap) as [s1 ch]; destruct Hp as (S1 & D1 & C1).
    destruct ch; [| destruct C1 as [-> C1]; done].
    destruct (IH s1) as (S2 & D2 & Hset); [destruct S1 as [-> _]; lia |].
    split; [by eapply same_but_kill_trans |]; split; [auto | done].
Qed.

(** The marks a subtree kill leaves are exact: an entry is marked when the loop
    ends if and only if it was marked before or hangs below a marked entry by a
    chain of processes that own no window and are not protected; the bound on
    the number of passes never cuts the propagation short. *)
Lemma kill_marks_exact snap i :
  (exists e, kill_snap_propagate snap !! i = Some e /\ kill e = true) <-> doomed snap i.
Proof.
  destruct (propagate_passes_spec (length snap) snap) as ([Hlen Hsame] & Hd & Hset); [lia |].
  unfold kill_snap_propagate; set (snap' := propagate_passes (length snap) snap) in *; split.
  - intros (e & E & Hk); apply Hd; by eapply doomed_marked.
  - induction 1 as [i e Hi Hk | i j e f Hi Hw Hm Hj Hp _ (f' & Hj' & Hkf)].
    + destruct (lookup_lt_is_Some_2 snap' i) as [e' E']; [rewrite Hlen; by eapply lookup_lt_Some |].
      exists e'; split; [done |]; by apply (Hsame i e e').
    + destruct (lookup_lt_is_Some_2 snap' i) as [e' E']; [rewrite Hlen; by eapply lookup_lt_Some |].
      exists e'; split; [done |]; destruct (kill e') eqn:Ek; [done | exfalso].
      destruct (Hsame i e e' Hi E') as (_ & Hpar & Hw' & Hm' & _), (Hsame j f f' Hj Hj') as (Hpid & _).
      assert (Hs := Hset i e' E' Ek); rewrite Hw', Hm' in Hs; specialize (Hs Hw Hm).
      apply not_true_iff_false in Hs; apply Hs, existsb_exists; exists f'; split; [by eapply list_elem_of_In, list_elem_of_lookup_2 |].
      rewrite Hkf; apply Z.eqb_eq; congruence.
Qed.

(** ** The processes a subtree kill ends *)

(** [q] is the target, or a process with no window and no protection whose
    parent is to die. *)
Inductive dies (pp : pool) (window : Z -> Z) (root : Z) : Z -> Prop :=
| dies_root : dies pp window root root
| dies_child p :
    Some p ∈ pp -> window (i32 (pid p)) <= 0 -> proc_is_machine (Some p) = false ->
    dies pp window root (parent_pid p) -> dies pp window root (i32 (pid p)).

Lemma capture_entry pp root e :
  e ∈ fst (kill_snap_capture pp root) <-> exists p, Some p ∈ pp /\ e =
    {| k_pid := i32 (pid p); k_parent := parent_pid p; windowless := true; kill := false; k_machine := proc_is_machine (Some p) |}.
Proof.
  unfold kill_snap_capture; cbn [fst]; rewrite list_elem_of_omap; split.
  - intros (o & Ho & E); apply fmap_Some in E as (p & -> & ->); eauto.
  - intros (p & Hp & ->); by exists (Some p).
Qed.

(** The root's index: the last entry with its pid, -1 without one. *)
Lemma root_index (snap : list kill_snap) root :
  let r := foldl (fun r ie => if k_pid (snd ie) =? root then Z.of_nat (fst ie) else r) (-1) (imap pair snap) in
  (r = -1 /\ forall e, e ∈ snap -> k_pid e <> root) \/
  (exists e, 0 <= r /\ snap !! Z.to_nat r = Some e /\ k_pid e = root).
Proof.
  induction snap as [| e snap IH] using rev_ind; [left; split; [done |]; intros e H; by apply not_elem_of_nil in H |].
  rewrite imap_app, foldl_app; cbn [imap foldl fst snd]; destruct (Z.eqb_spec (k_pid e) root) as [He | He].
  - right; exists e; split; [lia |]; rewrite Nat2Z.id; split; [| done].
    rewrite lookup_app_r by lia; by replace (length snap + 0 - length snap)%nat with 0%nat by lia.
  - destruct IH as [[-> H] | (e' & H0 & H1 & H2)]; [left | right].
    + split; [done |]; intros e'; rewrite elem_of_app, list_elem_of_singleton; intros [? | ->]; auto.
    + exists e'; split; [done |]; split; [by apply lookup_app_l_Some | done].
Qed.

Lemma capture_root pp root :
  let '(snap, r) := kill_snap_capture pp root in
  (r = -1 /\ forall e, e ∈ snap -> k_pid e <> root) \/
  (exists e, 0 <= r /\ snap !! Z.to_nat r = Some e /\ k_pid e = root).
Proof. apply root_index. Qed.

(** The pid of an entry after the propagation is the one before. *)
Lemma propagated_entry snap j :
  match kill_snap_propagate snap !! j, snap !! j with
  | Some e', Some e => k_pid e' = k_pid e
  | None, None => True
  | _, _ => False
  end.
Proof.
  destruct (propagate_passes_spec (length snap) snap) as ([Hlen Hsame] & _); [lia |].
  unfold kill_snap_propagate; set (snap' := propagate_passes (length snap) snap) in *.
  destruct (snap !! j) as [e |] eqn:E, (snap' !! j) as [e' |] eqn:E'; try done.
  - by apply (Hsame j e e').
  - apply lookup_lt_Some in E; apply lookup_ge_None in E'; lia.
  - apply lookup_lt_Some in E'; apply lookup_ge_None in E; lia.
Qed.

(** The snapshot as the propagation finds it: one entry per process, the
    target's alone marked. *)
Definition probed (window : Z -> Z) (p : process) : kill_snap :=
  {| k_pid := i32 (pid p); k_parent := parent_pid p; windowless := negb (0 <? window (i32 (pid p))); kill := false;
     k_machine := proc_is_machine (Some p) |}.

Definition unmarked (e : kill_snap) : kill_snap :=
  {| k_pid := k_pid e; k_parent := k_parent e; windowless := windowless e; kill := false; k_machine := k_machine e |}.

Definition snapshot (pp : pool) (window : Z -> Z) (root : Z) (i : nat) : list kill_snap :=
  alter with_kill i (kill_snap_probe_windows window (fst (kill_snap_capture pp root))).

Lemma snapshot_entry pp window root i j e :
  snapshot pp window root i !! j = Some e ->
  (exists p, Some p ∈ pp /\ unmarked e = probed window p) /\ (kill e = true -> j = i).
Proof.
  unfold snapshot, kill_snap_probe_windows; intros H.
  assert (H' : exists e0, (fst (kill_snap_capture pp root)) !! j = Some e0 /\
    (e = (if decide (j = i) then with_kill else id) {| k_pid := k_pid e0; k_parent := k_parent e0;
      windowless := negb (0 <? window (k_pid e0)); kill := kill e0; k_machine := k_machine e0 |})).
  { case_decide as Hj; [subst j; rewrite list_lookup_alter_eq in H | rewrite list_lookup_alter_ne in H by done];
      rewrite list_lookup_fmap in H; destruct (fst (kill_snap_capture pp root) !! _) as [e0 |]; simplify_eq/=; eauto. }
  destruct H' as (e0 & E0 & ->); apply list_elem_of_lookup_2, capture_entry in E0 as (p & Hp & ->); split.
  - exists p; split; [done |]; by case_decide.
  - case_decide; done.
Qed.

Lemma snapshot_process pp window root i p :
  Some p ∈ pp -> exists j e, snapshot pp window root i !! j = Some e /\ unmarked e = probed window p.
Proof.
  intros Hp; assert (Hin := proj2 (capture_entry pp root _) (ex_intro _ p (conj Hp eq_refl))).
  apply list_elem_of_lookup in Hin as [j Hj]; exists j; unfold snapshot, kill_snap_probe_windows.
  destruct (decide (j = i)) as [-> | Hne]; [rewrite list_lookup_alter_eq | rewrite list_lookup_alter_ne by done];
    rewrite list_lookup_fmap, Hj; simpl; eauto.
Qed.

Lemma unmarked_fields e window p :
  unmarked e = probed window p -> k_pid e = i32 (pid p) /\ k_parent e = parent_pid p /\
    windowless e = negb (0 <? window (i32 (pid p))) /\ k_machine e = proc_is_machine (Some p).
Proof. intros [= H1 H2 H3 H4]; done. Qed.

(** What the propagation marks is what is to die. *)
Lemma doomed_dies pp window root i e0 :
  snapshot pp window root i !! i = Some e0 -> k_pid e0 = root -> kill e0 = true ->
  forall q, (exists j e, snapshot pp window root i !! j = Some e /\ k_pid e = q /\ doomed (snapshot pp window root i) j) <->
    dies pp window root q.
Proof.
  intros E0 Hroot Hk0 q; split.
  - intros (j & e & Ej & <- & Hd); revert e Ej; induction Hd as [j e' Ej' Hk | j k e' f Ej' Hw Hm Ef Hp _ IH]; intros e Ej.
    + rewrite Ej in Ej'; injection Ej' as <-; apply snapshot_entry in Ej as H; destruct H as [_ Hi]; rewrite (Hi Hk) in Ej.
      rewrite Ej in E0; injection E0 as ->; rewrite Hroot; constructor.
    + rewrite Ej in Ej'; injection Ej' as <-; apply snapshot_entry in Ej as [(p & Hin & E) _].
      apply unmarked_fields in E as (-> & Hpar & Hwin & Hmac); rewrite Hw in Hwin; rewrite Hm in Hmac.
      apply dies_child; [done | | done | rewrite <- Hpar, <- Hp; by apply IH].
      symmetry in Hwin; apply negb_true_iff in Hwin; lia.
  - induction 1 as [| p Hp Hw Hm _ (j & f & Ej & Hpid & Hd)].
    + exists i, e0; split; [done |]; split; [done |]; by eapply doomed_marked.
    + destruct (snapshot_process pp window root i p Hp) as (k & e & Ek & E).
      apply unmarked_fields in E as (Ep & Hpar & Hwin & Hmac); exists k, e; split; [done |]; split; [done |].
      apply (doomed_child _ k j e f); try done; [| congruence | congruence].
      rewrite Hwin; apply negb_true_iff; lia.
Qed.

(** The pids terminated are those of the marked entries, and the target. *)
Lemma kill_executes snap root q :
  q ∈ kill_snap_execute (kill_snap_propagate snap) root <->
  (exists j e, snap !! j = Some e /\ k_pid e = q /\ doomed snap j) \/ q = root.
Proof.
  unfold kill_snap_execute; rewrite elem_of_app, list_elem_of_omap, list_elem_of_singleton; split.
  - intros [(x & Hx & E) | ->]; [left | by right]; apply list_elem_of_lookup in Hx as [j Hj].
    assert (H := propagated_entry snap j); rewrite Hj in H; destruct (snap !! j) as [e |] eqn:Ej; [| done].
    destruct (kill x) eqn:Hk; [| done]; destruct (k_pid x =? root); [done |]; injection E as <-.
    exists j, e; split; [done |]; split; [done |]; apply kill_marks_exact; eauto.
  - intros [(j & e & Ej & <- & Hd) | ->]; [| by right]; apply kill_marks_exact in Hd as (x & Hx & Hk).
    assert (H := propagated_entry snap j); rewrite Hx, Ej in H; destruct (Z.eqb_spec (k_pid x) root) as [Hr | Hr].
    + right; congruence.
    + left; exists x; split; [by eapply list_elem_of_lookup_2 |]; rewrite Hk, <- H.
      destruct (Z.eqb_spec (k_pid x) root); done.
Qed.

(** A subtree kill ends exactly the target and, from it downwards, every child
    that owns no window and is not protected; the target last, so that none of
    the others is handed to another parent meanwhile.  It ends nothing when the
    target does not exist or is protected. *)
Theorem kill_subtree_exact pp window root :
  (process_kill_subtree pp window root = [] /\
   ((forall p, Some p ∈ pp -> i32 (pid p) <> root) \/
    exists p, Some p ∈ pp /\ i32 (pid p) = root /\ proc_is_machine (Some p) = true)) \/
  (exists l, process_kill_subtree pp window root = l ++ [root] /\ root ∉ l /\
   forall q, q ∈ l ++ [root] <-> dies pp window root q).
Proof.
  unfold process_kill_subtree; assert (Hr := capture_root pp root); assert (Hc := capture_entry pp root).
  destruct (kill_snap_capture pp root) as [snap r] eqn:Ecap; cbn [fst] in Hc.
  destruct Hr as [[-> H] | (e & H0 & He & Hpid)].
  { left; split; [done |]; left; intros p Hp; exact (H _ (proj2 (Hc _) (ex_intro _ p (conj Hp eq_refl)))). }
  destruct (Z.ltb_spec r 0); [lia |]; rewrite He.
  destruct (proj1 (Hc e) (list_elem_of_lookup_2 _ _ _ He)) as (p & Hp & Ee).
  destruct (k_machine e) eqn:Em; [left; split; [done |]; right; exists p; subst e; done | right].
  set (i := Z.to_nat r) in *; set (s := alter _ _ _).
  assert (Hs : s = snapshot pp window root i) by (unfold s, snapshot; by rewrite Ecap).
  assert (E0 : exists e0, s !! i = Some e0 /\ k_pid e0 = root /\ kill e0 = true).
  { unfold s, kill_snap_probe_windows; rewrite list_lookup_alter_eq, list_lookup_fmap, He; by eexists. }
  destruct E0 as (e0 & E0 & Hp0 & Hk0); rewrite Hs in *; eexists; split; [done |]; split.
  - rewrite list_elem_of_omap; intros (x & _ & E); destruct (Z.eqb_spec (k_pid x) root); [by rewrite andb_false_r in E |].
    destruct (kill x); [| done]; by injection E.
  - intros q; change (q ∈ kill_snap_execute (kill_snap_propagate (snapshot pp window root i)) root <-> dies pp window root q).
    rewrite kill_executes, (doomed_dies pp window root i e0 E0 Hp0 Hk0 q); split; [| by left].
    intros [Hd | ->]; [done | constructor].
Qed.
