(* ===== verification/Sched.v ===== *)
(** * The scheduler (kernel/sched/process.c, sections 2, 3, 8 and 9)

    Per-CPU runqueues with their priority bitmap, the focus boost and the fair
    pick, work stealing, the deferred requeue and the deferred free of tasks,
    wait queues, job control and termination.  Each definition is one section
    under the locks the source takes, so a run of the system is a sequence of
    them.  A process is known by its pid; [tasks] holds the descriptors that
    exist, so a pid that is not in it is freed memory.  The saved register
    frames, address spaces, IPC queues and windows of a process are not part of
    the state.

    [None] as a result is a stop: a panic, or a list operation on a node that
    is still linked elsewhere, which would corrupt both lists. *)
From Stdlib Require Import ZArith Lia.
From stdpp Require Import base numbers list gmap.
From S2P Require Import Prelude CString ProcTab.

Inductive proc_state :=
| PROC_CREATED | PROC_RUNNING | PROC_SLEEPING | PROC_ZOMBIE | PROC_DEAD | PROC_READY | PROC_STOPPED.

#[global] Instance proc_state_eq_dec : EqDecision proc_state.
Proof. solve_decision. Defined.

Definition MAX_PRIO : Z := 32.
Definition PROC_PRIO_IDLE : Z := 31.
Definition MAX_CPUS : nat := 64.
Definition FOCUS_BOOST_MAX : Z := 4.

(** The scheduling fields of [struct process]. *)
Record task := {
  state : proc_state;
  priority : Z;
  time_slice : Z;
  quantum_reset : Z;
  first_run : bool;
  on_cpu : Z;
  reaping : bool;
  kill_pending : bool;
  wait_queue_ptr : option nat;
  machine : bool;
  cpu_time_counts : Z
}.

(** The scheduling fields of [struct cpu_info], with [sched_focus_streak]. *)
Record cpu_info := {
  runqueues : list (list Z);
  prio_bitmap : Z;
  current_task : option Z;
  idle_task : option Z;
  deferred_free_proc : list Z;
  pending_reenqueue : option Z;
  online : bool;
  focus_streak : Z;
  sched_run_count : Z
}.

Record sched := {
  tasks : gmap Z task;
  cpus : list cpu_info;
  waitqs : list (list Z);
  rr_cpu : Z
}.

Definition task0 : task :=
  {| state := PROC_DEAD; priority := 0; time_slice := 0; quantum_reset := 0; first_run := false;
     on_cpu := -1; reaping := false; kill_pending := false; wait_queue_ptr := None; machine := false;
     cpu_time_counts := 0 |}.

Definition cpu0 : cpu_info :=
  {| runqueues := replicate 32 []; prio_bitmap := 0; current_task := None; idle_task := None;
     deferred_free_proc := []; pending_reenqueue := None; online := false; focus_streak := 0;
     sched_run_count := 0 |}.

(** ** Field access and update *)

Definition task_of (s : sched) (p : Z) : task := default task0 (tasks s !! p).
Definition cpu_of (s : sched) (c : nat) : cpu_info := default cpu0 (cpus s !! c).
Definition runq (x : cpu_info) (q : nat) : list Z := default [] (runqueues x !! q).
Definition waitq (s : sched) (k : nat) : list Z := default [] (waitqs s !! k).

Definition set_tasks (s : sched) (m : gmap Z task) : sched :=
  {| tasks := m; cpus := cpus s; waitqs := waitqs s; rr_cpu := rr_cpu s |}.
Definition set_cpus (s : sched) (l : list cpu_info) : sched :=
  {| tasks := tasks s; cpus := l; waitqs := waitqs s; rr_cpu := rr_cpu s |}.
Definition set_waitqs (s : sched) (l : list (list Z)) : sched :=
  {| tasks := tasks s; cpus := cpus s; waitqs := l; rr_cpu := rr_cpu s |}.

(** A write through the pointer to process [p], and to [cpu_data[c]]. *)
Definition upd_task (s : sched) (p : Z) (f : task -> task) : sched := set_tasks s (alter f p (tasks s)).
Definition upd_cpu (s : sched) (c : nat) (f : cpu_info -> cpu_info) : sched := set_cpus s (alter f c (cpus s)).

Definition with_state (st : proc_state) (t : task) : task :=
  {| state := st; priority := priority t; time_slice := time_slice t; quantum_reset := quantum_reset t;
     first_run := first_run t; on_cpu := on_cpu t; reaping := reaping t; kill_pending := kill_pending t;
     wait_queue_ptr := wait_queue_ptr t; machine := machine t; cpu_time_counts := cpu_time_counts t |}.
Definition with_on_cpu (c : Z) (t : task) : task :=
  {| state := state t; priority := priority t; time_slice := time_slice t; quantum_reset := quantum_reset t;
     first_run := first_run t; on_cpu := c; reaping := reaping t; kill_pending := kill_pending t;
     wait_queue_ptr := wait_queue_ptr t; machine := machine t; cpu_time_counts := cpu_time_counts t |}.
Definition with_slice (n : Z) (t : task) : task :=
  {| state := state t; priority := priority t; time_slice := n; quantum_reset := quantum_reset t;
     first_run := first_run t; on_cpu := on_cpu t; reaping := reaping t; kill_pending := kill_pending t;
     wait_queue_ptr := wait_queue_ptr t; machine := machine t; cpu_time_counts := cpu_time_counts t |}.
Definition with_first_run (b : bool) (t : task) : task :=
  {| state := state t; priority := priority t; time_slice := time_slice t; quantum_reset := quantum_reset t;
     first_run := b; on_cpu := on_cpu t; reaping := reaping t; kill_pending := kill_pending t;
     wait_queue_ptr := wait_queue_ptr t; machine := machine t; cpu_time_counts := cpu_time_counts t |}.
Definition with_reaping (b : bool) (t : task) : task :=
  {| state := state t; priority := priority t; time_slice := time_slice t; quantum_reset := quantum_reset t;
     first_run := first_run t; on_cpu := on_cpu t; reaping := b; kill_pending := kill_pending t;
     wait_queue_ptr := wait_queue_ptr t; machine := machine t; cpu_time_counts := cpu_time_counts t |}.
Definition with_kill_pending (b : bool) (t : task) : task :=
  {| state := state t; priority := priority t; time_slice := time_slice t; quantum_reset := quantum_reset t;
     first_run := first_run t; on_cpu := on_cpu t; reaping := reaping t; kill_pending := b;
     wait_queue_ptr := wait_queue_ptr t; machine := machine t; cpu_time_counts := cpu_time_counts t |}.
Definition with_wait (w : option nat) (t : task) : task :=
  {| state := state t; priority := priority t; time_slice := time_slice t; quantum_reset := quantum_reset t;
     first_run := first_run t; on_cpu := on_cpu t; reaping := reaping t; kill_pending := kill_pending t;
     wait_queue_ptr := w; machine := machine t; cpu_time_counts := cpu_time_counts t |}.
Definition with_time (n : Z) (t : task) : task :=
  {| state := state t; priority := priority t; time_slice := time_slice t; quantum_reset := quantum_reset t;
     first_run := first_run t; on_cpu := on_cpu t; reaping := reaping t; kill_pending := kill_pending t;
     wait_queue_ptr := wait_queue_ptr t; machine := machine t; cpu_time_counts := n |}.

Definition with_runqueues (l : list (list Z)) (b : Z) (x : cpu_info) : cpu_info :=
  {| runqueues := l; prio_bitmap := b; current_task := current_task x; idle_task := idle_task x;
     deferred_free_proc := deferred_free_proc x; pending_reenqueue := pending_reenqueue x;
     online := online x; focus_streak := focus_streak x; sched_run_count := sched_run_count x |}.
Definition with_current (p : option Z) (x : cpu_info) : cpu_info :=
  {| runqueues := runqueues x; prio_bitmap := prio_bitmap x; current_task := p; idle_task := idle_task x;
     deferred_free_proc := deferred_free_proc x; pending_reenqueue := pending_reenqueue x;
     online := online x; focus_streak := focus_streak x; sched_run_count := sched_run_count x |}.
Definition with_deferred (l : list Z) (x : cpu_info) : cpu_info :=
  {| runqueues := runqueues x; prio_bitmap := prio_bitmap x; current_task := current_task x;
     idle_task := idle_task x; deferred_free_proc := l; pending_reenqueue := pending_reenqueue x;
     online := online x; focus_streak := focus_streak x; sched_run_count := sched_run_count x |}.
Definition with_pending (p : option Z) (x : cpu_info) : cpu_info :=
  {| runqueues := runqueues x; prio_bitmap := prio_bitmap x; current_task := current_task x;
     idle_task := idle_task x; deferred_free_proc := deferred_free_proc x; pending_reenqueue := p;
     online := online x; focus_streak := focus_streak x; sched_run_count := sched_run_count x |}.
Definition with_streak (n : Z) (x : cpu_info) : cpu_info :=
  {| runqueues := runqueues x; prio_bitmap := prio_bitmap x; current_task := current_task x;
     idle_task := idle_task x; deferred_free_proc := deferred_free_proc x;
     pending_reenqueue := pending_reenqueue x; online := online x; focus_streak := n;
     sched_run_count := sched_run_count x |}.
Definition with_run_count (n : Z) (x : cpu_info) : cpu_info :=
  {| runqueues := runqueues x; prio_bitmap := prio_bitmap x; current_task := current_task x;
     idle_task := idle_task x; deferred_free_proc := deferred_free_proc x;
     pending_reenqueue := pending_reenqueue x; online := online x; focus_streak := focus_streak x;
     sched_run_count := n |}.

(** ** Lists of processes

    A process has one list node, [run_list]: it is on at most one runqueue or
    wait queue. *)

(** [p->run_list.next != &p->run_list]. *)
Definition linked (s : sched) (p : Z) : bool :=
  existsb (fun x => existsb (fun l => bool_decide (p ∈ l)) (runqueues x)) (cpus s)
  || existsb (fun l => bool_decide (p ∈ l)) (waitqs s).

Definition without (p : Z) (l : list Z) : list Z := filter (fun x => x <> p) l.

(** [list_del_init(&p->run_list)]: off whatever list it is on. *)
Definition unlink (s : sched) (p : Z) : sched :=
  {| tasks := tasks s;
     cpus := (fun x => with_runqueues (without p <$> runqueues x) (prio_bitmap x) x) <$> cpus s;
     waitqs := without p <$> waitqs s;
     rr_cpu := rr_cpu s |}.

(** [(p->on_cpu >= 0) ? p->on_cpu : 0]. *)
Definition home_cpu (t : task) : nat := if 0 <=? on_cpu t then Z.to_nat (on_cpu t) else 0.

(** [__builtin_ctz] of a non-zero 32-bit word. *)
Definition ctz (w : Z) : nat :=
  match list_find (fun i => Z.testbit w i = true) (seqZ 0 32) with
  | Some (i, _) => i
  | None => 32
  end.

(** ** Runqueues *)

Definition is_corpse (st : proc_state) : bool := bool_decide (st = PROC_DEAD \/ st = PROC_ZOMBIE).

(** [__enqueue_task]. *)
Definition enqueue_task (s : sched) (p : Z) : option sched :=
  let t := task_of s p in
  if is_corpse (state t) then Some s
  else if bool_decide (state t = PROC_STOPPED) then Some s
  else if bool_decide (state t = PROC_READY) && linked s p then Some s
  else if linked s p then None
  else
    let c := home_cpu t in
    let s := upd_task s p (fun t => with_on_cpu (Z.of_nat c) (with_state PROC_READY t)) in
    let prio := if MAX_PRIO <=? priority t then MAX_PRIO - 1 else priority t in
    Some (upd_cpu s c (fun x =>
      with_runqueues (alter (fun l => l ++ [p]) (Z.to_nat prio) (runqueues x))
        (Z.lor (prio_bitmap x) (u32 (Z.shiftl 1 prio))) x)).

(** Clears bit [q] of a bitmap. *)
Definition clear_bit (b : Z) (q : Z) : Z := Z.land b (not32 (Z.shiftl 1 q)).

(** [__dequeue_task]. *)
Definition dequeue_task (s : sched) (p : Z) : sched :=
  let t := task_of s p in
  let s := unlink s p in
  upd_cpu s (home_cpu t) (fun x =>
    if (priority t <? MAX_PRIO) && bool_decide (runq x (Z.to_nat (priority t)) = [])
    then with_runqueues (runqueues x) (clear_bit (prio_bitmap x) (priority t)) x else x).

(** [reap_push]: a corpse is queued once. *)
Definition reap_push (s : sched) (c : nat) (p : Z) : sched :=
  if reaping (task_of s p) then s
  else upd_cpu (upd_task s p (with_reaping true)) c (fun x => with_deferred (p :: deferred_free_proc x) x).

(** ** The stages of [schedule] *)

(** [__sched_reap_deferred]: the descriptors are freed. *)
Definition sched_reap_deferred (s : sched) (c : nat) : sched :=
  let dead := deferred_free_proc (cpu_of s c) in
  upd_cpu (set_tasks s (foldl (fun m p => delete p m) (tasks s) dead)) c (with_deferred []).

(** [__sched_account_time], at counter value [now]. *)
Definition sched_account_time (s : sched) (c : nat) (prev : option Z) (now : Z) : sched :=
  let run := sched_run_count (cpu_of s c) in
  let s :=
    match prev with
    | Some p => if run =? 0 then s
                else upd_task s p (fun t => with_time (u64 (cpu_time_counts t + (now - run))) t)
    | None => s
    end in
  upd_cpu s c (with_run_count now).

(** [__sched_requeue_pending]. *)
Definition sched_requeue_pending (s : sched) (c : nat) : option sched :=
  match pending_reenqueue (cpu_of s c) with
  | None => Some s
  | Some pr =>
    let s := upd_cpu s c (with_pending None) in
    if is_corpse (state (task_of s pr)) then Some (reap_push (upd_task s pr (with_on_cpu (-1))) c pr)
    else enqueue_task s pr
  end.

(** A running task gives up the CPU: one tick of its quantum is spent. *)
Definition spend_slice (t : task) : task :=
  let n := i32 (time_slice t - 1) in
  with_state PROC_READY (with_slice (if n <=? 0 then quantum_reset t else n) t).

(** [__sched_retire_prev]; the flag says [SCHED_RETIRE_REAPED]. *)
Definition sched_retire_prev (s : sched) (c : nat) (prev : option Z) : option (sched * bool) :=
  match prev with
  | None => Some (s, false)
  | Some p =>
    if is_corpse (state (task_of s p)) then
      Some (upd_cpu (reap_push (upd_task s p (with_on_cpu (-1))) c p) c (with_current None), true)
    else
      let s := upd_task s p (with_first_run false) in
      let s :=
        if bool_decide (state (task_of s p) = PROC_RUNNING) then
          upd_task s p spend_slice
        else s in
      if bool_decide (state (task_of s p) = PROC_READY) && negb (priority (task_of s p) =? PROC_PRIO_IDLE)
      then (fun s => (s, false)) <$> enqueue_task s p
      else Some (s, false)
  end.

(** [__sched_pick_focus]. *)
Definition sched_pick_focus (s : sched) (c : nat) (focus : Z) : sched * option Z :=
  let x := cpu_of s c in
  if (focus <=? 0) || (FOCUS_BOOST_MAX <=? focus_streak x) then (s, None)
  else if existsb (fun l => bool_decide (focus ∈ l)) (runqueues x) then
    (upd_cpu (dequeue_task s focus) c (fun x => with_streak (u32 (focus_streak x + 1)) x), Some focus)
  else (s, None).

(** [__sched_pick_fair]. *)
Definition sched_pick_fair (s : sched) (c : nat) : sched * option Z :=
  let x := cpu_of s c in
  if prio_bitmap x =? 0 then (s, None)
  else
    let best := ctz (prio_bitmap x) in
    if MAX_PRIO <=? Z.of_nat best then (s, None)
    else
      match runq x best with
      | [] => (s, None)
      | next :: _ => (upd_cpu (dequeue_task s next) c (with_streak 0), Some next)
      end.

(** One attempt of [__sched_pick_local]: the focus first, then the fair pick. *)
Definition pick_once (s : sched) (c : nat) (focus : Z) : sched * option Z :=
  let '(s, next) := sched_pick_focus s c focus in
  match next with Some _ => (s, next) | None => sched_pick_fair s c end.

(** [__sched_pick_local], with the number of retries left. *)
Fixpoint pick_local (retries : nat) (s : sched) (c : nat) (focus : Z) : option (sched * option Z) :=
  match retries with
  | O => None
  | S n =>
    let '(s, next) := pick_once s c focus in
    match next with
    | None => Some (s, None)
    | Some p =>
      if bool_decide (state (task_of s p) = PROC_DEAD) then pick_local n (reap_push s c p) c focus
      else if bool_decide (state (task_of s p) = PROC_STOPPED) then pick_local n s c focus
      else Some (s, Some p)
    end
  end.

Definition sched_pick_local : sched -> nat -> Z -> option (sched * option Z) := pick_local MAX_PROCESSES.

(** [__sched_steal_work] over the CPUs [ks]; [trylock i] says whether the lock
    of CPU [i] was free. *)
Fixpoint steal_work (trylock : nat -> bool) (s : sched) (c : nat) (ks : list nat) : sched * option Z :=
  match ks with
  | [] => (s, None)
  | i :: ks =>
    let x := cpu_of s i in
    if (i =? c)%nat then steal_work trylock s c ks
    else if negb (online x) then steal_work trylock s c ks
    else if negb (trylock i) then steal_work trylock s c ks
    else if prio_bitmap x =? 0 then steal_work trylock s c ks
    else
      let p := ctz (prio_bitmap x) in
      match runq x p with
      | [] => steal_work trylock s c ks
      | next :: _ =>
        if (priority (task_of s next) =? PROC_PRIO_IDLE)
           || bool_decide (state (task_of s next) = PROC_DEAD)
        then steal_work trylock s c ks
        else
          let s := unlink s next in
          (upd_cpu s i (fun x =>
             if bool_decide (runq x p = [])
             then with_runqueues (runqueues x) (clear_bit (prio_bitmap x) (Z.of_nat p)) x else x),
           Some next)
      end
  end.

Definition sched_steal_work (trylock : nat -> bool) (s : sched) (c : nat) : sched * option Z :=
  steal_work trylock s c (seq 0 MAX_CPUS).

(** The end of [schedule] once the next task is known. *)
Definition sched_switch (s : sched) (c : nat) (prev : option Z) (next : Z) : sched :=
  let run s := upd_task s next (fun t => with_on_cpu (Z.of_nat c) (with_state PROC_RUNNING t)) in
  if bool_decide (prev = Some next) then run s
  else
    let s :=
      match prev with
      | Some p =>
        if bool_decide (state (task_of s p) = PROC_READY) && negb (priority (task_of s p) =? PROC_PRIO_IDLE)
        then upd_cpu (dequeue_task s p) c (with_pending (Some p)) else s
      | None => s
      end in
    run (upd_cpu s c (with_current (Some next))).

(** [schedule] on CPU [c]; [focus] is [keyboard_focus_pid]. *)
Definition schedule (trylock : nat -> bool) (focus now : Z) (s : sched) (c : nat) : option sched :=
  let s := sched_reap_deferred s c in
  let prev := current_task (cpu_of s c) in
  let s := sched_account_time s c prev now in
  match sched_requeue_pending s c with
  | None => None
  | Some s =>
    match sched_retire_prev s c prev with
    | None => None
    | Some (s, reaped) =>
      let prev := if reaped then None else prev in
      match sched_pick_local s c focus with
      | None => None
      | Some (s, Some next) => Some (sched_switch s c prev next)
      | Some (s, None) =>
        match sched_steal_work trylock s c with
        | (s, Some next) => Some (sched_switch s c prev next)
        | (s, None) =>
          if match prev with Some p => bool_decide (state (task_of s p) = PROC_RUNNING) | None => false end
          then Some s
          else
            match idle_task (cpu_of s c) with
            | Some next => Some (sched_switch s c prev next)
            | None => if reaped then None else Some s
            end
        end
      end
    end
  end.

(** ** Sleeping and waking *)

(** [sleep_on] by the current process of CPU [c]. *)
Definition sleep_on (s : sched) (c k : nat) : option sched :=
  match current_task (cpu_of s c) with
  | None => Some s
  | Some p =>
    let s := upd_task s p (fun t => with_wait (Some k) (with_state PROC_SLEEPING t)) in
    if linked s p then None
    else Some (set_waitqs s (alter (fun l => l ++ [p]) k (waitqs s)))
  end.

Definition wake_up (s : sched) (k : nat) : option sched :=
  match waitq s k with
  | [] => Some s
  | p :: _ =>
    let s := upd_task (unlink s p) p (with_wait None) in
    let s :=
      if on_cpu (task_of s p) <? 0 then
        let s := upd_task s p (with_on_cpu (rr_cpu s)) in
        {| tasks := tasks s; cpus := cpus s; waitqs := waitqs s;
           rr_cpu := (rr_cpu s + 1) mod Z.of_nat MAX_CPUS |}
      else s in
    enqueue_task s p
  end.

(** ** Job control and termination *)

Definition process_stop (s : sched) (p : Z) : sched * Z :=
  match tasks s !! p with
  | None => (s, - ESRCH)
  | Some t =>
    if machine t then (s, - EPERM)
    else if bool_decide (state t = PROC_RUNNING \/ state t = PROC_READY \/ state t = PROC_SLEEPING)
    then (upd_task s p (with_state PROC_STOPPED), 0)
    else (s, - EINVAL)
  end.

Definition process_cont (s : sched) (p : Z) : option (sched * Z) :=
  match tasks s !! p with
  | None => Some (s, - ESRCH)
  | Some t =>
    if bool_decide (state t = PROC_STOPPED)
    then (fun s => (s, 0)) <$> enqueue_task (upd_task s p (with_state PROC_READY)) p
    else Some (s, - EINVAL)
  end.

(** [__proc_still_current_anywhere]. *)
Definition still_current (s : sched) (p : Z) : bool :=
  existsb (fun x => bool_decide (current_task x = Some p)) (cpus s).

(** [process_terminate], called on CPU [c]; the descriptor is freed at once only
    on the common tail. *)
Definition process_terminate (s : sched) (c : nat) (p : Z) : sched * Z :=
  match tasks s !! p with
  | None => (s, -1)
  | Some t =>
    if machine t then (s, -1)
    else if is_corpse (state t) then (s, 0)
    else if bool_decide (current_task (cpu_of s c) = Some p) then
      (upd_task s p (with_state PROC_ZOMBIE), 0)
    else if bool_decide (state t = PROC_CREATED) then (upd_task s p (with_kill_pending true), 0)
    else
      let s :=
        match wait_queue_ptr t with
        | Some _ => upd_task (unlink s p) p (with_wait None)
        | None => s
        end in
      let s' := upd_task s p (with_state PROC_DEAD) in
      if bool_decide (state t = PROC_READY \/ state t = PROC_RUNNING) then (s', 0)
      else if still_current s' p then (s', 0)
      else (set_tasks s' (delete p (tasks s')), 0)
  end.
