(* ===== verification/SchedProofs.v ===== *)
(** * The scheduler's invariant and what each stage does to it *)
From Stdlib Require Import ZArith Lia.
From stdpp Require Import base numbers list gmap.
From S2P Require Import Prelude CString ProcTab Sched.

(** ** Reading an updated state *)

Lemma cpu_of_upd s c d f :
  (c < length (cpus s))%nat -> cpu_of (upd_cpu s c f) d = if decide (c = d) then f (cpu_of s c) else cpu_of s d.
Proof.
  intros Hc; unfold cpu_of, upd_cpu; simpl; case_decide; subst.
  - rewrite list_lookup_alter_eq; destruct (lookup_lt_is_Some_2 _ _ Hc) as [x ->]; done.
  - by rewrite list_lookup_alter_ne.
Qed.

Lemma cpu_of_task s p f c : cpu_of (upd_task s p f) c = cpu_of s c.
Proof. done. Qed.

Lemma waitq_cpu s c f k : waitq (upd_cpu s c f) k = waitq s k.
Proof. done. Qed.

Lemma waitq_task s p f k : waitq (upd_task s p f) k = waitq s k.
Proof. done. Qed.

Lemma tasks_upd s p f r :
  tasks (upd_task s p f) !! r = if decide (p = r) then f <$> tasks s !! r else tasks s !! r.
Proof.
  unfold upd_task; simpl; case_decide; subst; [apply lookup_alter_eq | by apply lookup_alter_ne].
Qed.

Lemma task_of_upd s p f : is_Some (tasks s !! p) -> task_of (upd_task s p f) p = f (task_of s p).
Proof. intros [t Ht]; unfold task_of; rewrite tasks_upd, decide_True, Ht by done; done. Qed.

Lemma task_of_Some s p t : tasks s !! p = Some t -> task_of s p = t.
Proof. unfold task_of; by intros ->. Qed.

Lemma elem_of_without p l r : r ∈ without p l <-> r ∈ l /\ r <> p.
Proof. unfold without; rewrite list_elem_of_filter; tauto. Qed.

Lemma without_notin p l : ~ p ∈ l -> without p l = l.
Proof.
  intros H; unfold without; induction l as [| x l IH]; [done |].
  apply not_elem_of_cons in H as [H1 H2]; rewrite filter_cons_True by congruence; by rewrite IH.
Qed.

Lemma runq_with l b x q : runq (with_runqueues l b x) q = default [] (l !! q).
Proof. done. Qed.

Lemma cpu_of_unlink s p c :
  cpu_of (unlink s p) c
  = with_runqueues (without p <$> runqueues (cpu_of s c)) (prio_bitmap (cpu_of s c)) (cpu_of s c).
Proof.
  unfold cpu_of, unlink; simpl; rewrite list_lookup_fmap; destruct (cpus s !! c) as [x |]; [done |].
  unfold cpu0, with_runqueues; simpl; f_equal.
Qed.

Lemma runq_unlink s p c q : runq (cpu_of (unlink s p) c) q = without p (runq (cpu_of s c) q).
Proof.
  rewrite cpu_of_unlink, runq_with; unfold runq; rewrite list_lookup_fmap.
  by destruct (runqueues (cpu_of s c) !! q).
Qed.

Lemma waitq_unlink s p k : waitq (unlink s p) k = without p (waitq s k).
Proof. unfold waitq, unlink; simpl; rewrite list_lookup_fmap; by destruct (waitqs s !! k). Qed.

(** ** Places a process can be in *)

Definition queued (s : sched) (c q : nat) (p : Z) : Prop := p ∈ runq (cpu_of s c) q.
Definition unqueued (s : sched) (p : Z) : Prop := forall c q, ~ queued s c q p.
Definition waiting (s : sched) (p : Z) : Prop := exists k, p ∈ waitq s k.

Lemma runq_elem x p : existsb (fun l => bool_decide (p ∈ l)) (runqueues x) = true <-> exists q, p ∈ runq x q.
Proof.
  rewrite existsb_exists; split.
  - intros (l & Hl & Hp%bool_decide_eq_true); apply list_elem_of_In, list_elem_of_lookup in Hl as [q Hq].
    exists q; unfold runq; by rewrite Hq.
  - intros (q & Hq); unfold runq in Hq; destruct (runqueues x !! q) as [l |] eqn:E; simpl in Hq;
      [| by apply not_elem_of_nil in Hq].
    exists l; split; [by eapply list_elem_of_In, list_elem_of_lookup_2 | by apply bool_decide_eq_true].
Qed.

Lemma runq_cpu0 q : runq cpu0 q = [].
Proof.
  unfold runq; change (runqueues cpu0) with (replicate 32 (@nil Z)).
  destruct (replicate 32 (@nil Z) !! q) as [l |] eqn:El; [| done].
  by apply lookup_replicate in El as [-> _].
Qed.

Lemma linked_spec s p : linked s p = true <-> (exists c q, queued s c q p) \/ waiting s p.
Proof.
  unfold linked; rewrite orb_true_iff; apply Morphisms_Prop.or_iff_morphism.
  - rewrite existsb_exists; split.
    + intros (x & Hx & Hp%runq_elem); apply list_elem_of_In, list_elem_of_lookup in Hx as [c Hc].
      destruct Hp as [q Hq]; exists c, q; unfold queued, cpu_of; by rewrite Hc.
    + intros (c & q & Hq); unfold queued, cpu_of in Hq; destruct (cpus s !! c) as [x |] eqn:E; simpl in Hq.
      * exists x; split; [by eapply list_elem_of_In, list_elem_of_lookup_2 | by apply runq_elem; exists q].
      * rewrite runq_cpu0 in Hq; by apply not_elem_of_nil in Hq.
  - rewrite existsb_exists; unfold waiting, waitq; split.
    + intros (l & Hl & Hp%bool_decide_eq_true); apply list_elem_of_In, list_elem_of_lookup in Hl as [k Hk].
      exists k; by rewrite Hk.
    + intros (k & Hk); destruct (waitqs s !! k) as [l |] eqn:E; simpl in Hk; [| by apply not_elem_of_nil in Hk].
      exists l; split; [by eapply list_elem_of_In, list_elem_of_lookup_2 | by apply bool_decide_eq_true].
Qed.

Lemma not_linked s p : unqueued s p -> ~ waiting s p -> linked s p = false.
Proof.
  intros Hq Hw; apply not_true_iff_false; rewrite linked_spec; intros [(c & q & H) | H]; [by eapply Hq | done].
Qed.

(** ** The invariant *)

(** Bit [q] of the bitmap says that runqueue [q] is not empty. *)
Definition rq_wf (x : cpu_info) : Prop :=
  length (runqueues x) = 32%nat /\ is_u32 (prio_bitmap x) /\
  forall q, (q < 32)%nat -> Z.testbit (prio_bitmap x) (Z.of_nat q) = negb (bool_decide (runq x q = [])).

(** A task that is not an idle task and is not being freed, on CPU [c]. *)
Definition live_on (c : nat) (t : task) : Prop :=
  on_cpu t = Z.of_nat c /\ 0 <= priority t < PROC_PRIO_IDLE /\ reaping t = false.

Definition runnable_state (st : proc_state) : Prop :=
  st = PROC_READY \/ st = PROC_DEAD \/ st = PROC_STOPPED.

(** [hole] is a CPU in the middle of [schedule], whose current task is not
    constrained. *)
Record inv (hole : option nat) (s : sched) : Prop := {
  i_len : length (cpus s) = MAX_CPUS;
  i_rr : 0 <= rr_cpu s < Z.of_nat MAX_CPUS;
  i_task : forall p t, tasks s !! p = Some t -> -1 <= on_cpu t < Z.of_nat MAX_CPUS;
  i_rq : forall c, rq_wf (cpu_of s c);
  i_nodup : forall c q, NoDup (runq (cpu_of s c) q);
  i_queued : forall c q p, queued s c q p ->
    exists t, tasks s !! p = Some t /\ live_on c t /\ priority t = Z.of_nat q /\ runnable_state (state t);
  i_pending : forall c p, pending_reenqueue (cpu_of s c) = Some p ->
    unqueued s p /\ exists t, tasks s !! p = Some t /\ live_on c t /\ runnable_state (state t);
  i_current : forall c p, hole <> Some c -> current_task (cpu_of s c) = Some p ->
    idle_task (cpu_of s c) = Some p \/
    (unqueued s p /\ pending_reenqueue (cpu_of s c) <> Some p /\
     exists t, tasks s !! p = Some t /\ live_on c t /\ state t <> PROC_READY /\ state t <> PROC_CREATED);
  i_wait : forall k p, p ∈ waitq s k ->
    unqueued s p /\ (forall c, pending_reenqueue (cpu_of s c) <> Some p) /\
    exists t, tasks s !! p = Some t /\ wait_queue_ptr t = Some k /\ reaping t = false /\
      0 <= priority t < PROC_PRIO_IDLE /\ (state t = PROC_SLEEPING \/ state t = PROC_STOPPED \/ state t = PROC_READY);
  i_wait_nodup : forall k, NoDup (waitq s k);
  i_wptr : forall p t k, tasks s !! p = Some t -> wait_queue_ptr t = Some k -> p ∈ waitq s k;
  i_deferred : forall c p, p ∈ deferred_free_proc (cpu_of s c) ->
    exists t, tasks s !! p = Some t /\ reaping t = true /\ priority t <> PROC_PRIO_IDLE /\
      (state t = PROC_DEAD \/ state t = PROC_ZOMBIE);
  i_deferred_once : forall c d p, p ∈ deferred_free_proc (cpu_of s c) -> p ∈ deferred_free_proc (cpu_of s d) -> c = d;
  i_idle : forall c p, idle_task (cpu_of s c) = Some p ->
    exists t, tasks s !! p = Some t /\ priority t = PROC_PRIO_IDLE /\ machine t = true /\ reaping t = false /\
      (state t = PROC_READY \/ state t = PROC_RUNNING);
  i_idle_once : forall c d p, idle_task (cpu_of s c) = Some p -> idle_task (cpu_of s d) = Some p -> c = d
}.

(** [p] is in none of the places the invariant speaks of. *)
Definition loose (hole : option nat) (s : sched) (p : Z) : Prop :=
  unqueued s p /\ ~ waiting s p /\
  forall c, pending_reenqueue (cpu_of s c) <> Some p /\ ~ p ∈ deferred_free_proc (cpu_of s c) /\
    idle_task (cpu_of s c) <> Some p /\ (hole <> Some c -> current_task (cpu_of s c) <> Some p).

Lemma loose_task h s p r f : loose h s p -> loose h (upd_task s r f) p.
Proof. done. Qed.

(** Contradiction with [p] being in none of the places of CPU [c]. *)
Ltac not_loose L c :=
  exfalso; let H1 := fresh in let H2 := fresh in let H3 := fresh in let H4 := fresh in
  destruct (L c) as (H1 & H2 & H3 & H4);
  first [by apply H1 | by apply H2 | by apply H3 | by apply H4].

(** A process in no place can be changed at will. *)
Lemma inv_loose_task h s p f :
  inv h s -> loose h s p ->
  (forall t, tasks s !! p = Some t -> -1 <= on_cpu (f t) < Z.of_nat MAX_CPUS /\ wait_queue_ptr (f t) = wait_queue_ptr t) ->
  inv h (upd_task s p f).
Proof.
  intros I (Lq & Lw & L) Hf.
  assert (Hne : forall r, r <> p -> tasks (upd_task s p f) !! r = tasks s !! r)
    by (intros; rewrite tasks_upd, decide_False by done; done).
  constructor; try apply I.
  - intros r t; rewrite tasks_upd; case_decide; [subst | by apply I].
    intros (t' & E & ->)%fmap_Some; by apply Hf.
  - intros c q r Hr; rewrite Hne by (intros ->; by eapply Lq); by apply I.
  - intros c r Hr; rewrite Hne by (intros ->; not_loose L c); by apply I.
  - intros c r Hc Hr; rewrite Hne by (intros ->; not_loose L c); by apply I.
  - intros k r Hr; rewrite Hne by (intros ->; apply Lw; by exists k); by apply I.
  - intros r t k; rewrite tasks_upd; case_decide; [subst | by apply I].
    intros (t' & E & ->)%fmap_Some; destruct (Hf t' E) as [_ ->]; by apply (i_wptr _ _ I).
  - intros c r Hr; rewrite Hne by (intros ->; not_loose L c); by apply (i_deferred _ _ I c).
  - intros c r Hr; rewrite Hne by (intros ->; not_loose L c); by apply (i_idle _ _ I c).
Qed.

(** [s'] differs from [s] in its runqueues only. *)
Definition rq_only (s s' : sched) : Prop :=
  tasks s' = tasks s /\ length (cpus s') = length (cpus s) /\ waitqs s' = waitqs s /\ rr_cpu s' = rr_cpu s /\
  forall c, current_task (cpu_of s' c) = current_task (cpu_of s c) /\
    idle_task (cpu_of s' c) = idle_task (cpu_of s c) /\
    deferred_free_proc (cpu_of s' c) = deferred_free_proc (cpu_of s c) /\
    pending_reenqueue (cpu_of s' c) = pending_reenqueue (cpu_of s c).

(** New entries of the runqueues must come from processes in no place. *)
Lemma inv_rq_change h s s' :
  inv h s -> rq_only s s' ->
  (forall c, rq_wf (cpu_of s' c)) -> (forall c q, NoDup (runq (cpu_of s' c) q)) ->
  (forall c q p, queued s' c q p -> queued s c q p \/
     (loose h s p /\ exists t, tasks s !! p = Some t /\ live_on c t /\ priority t = Z.of_nat q /\ runnable_state (state t))) ->
  inv h s'.
Proof.
  intros I (Et & El & Ew & Er & Ec) Hwf Hnd Hq.
  assert (Hun : forall p, unqueued s p -> ~ loose h s p -> unqueued s' p).
  { intros p Hp Hl c q [H | [H _]]%Hq; [by eapply Hp | done]. }
  assert (Ek : forall k, waitq s' k = waitq s k) by (intros; unfold waitq; by rewrite Ew).
  constructor; rewrite ?Et, ?El, ?Er; try apply I; try done.
  - intros c q p [H | [_ H]]%Hq; [by apply I | done].
  - intros c p; destruct (Ec c) as (_ & _ & _ & ->); intros H; destruct (i_pending _ _ I c p H) as [H1 H2].
    split; [| done]; apply Hun; [done |]; intros (_ & _ & L); not_loose L c.
  - intros c p Hc; destruct (Ec c) as (-> & -> & _ & ->); intros H.
    destruct (i_current _ _ I c p Hc H) as [? | (H1 & H2 & H3)]; [by left | right; split; [| done]].
    apply Hun; [done |]; intros (_ & _ & L); not_loose L c.
  - intros k p; rewrite Ek; intros H; destruct (i_wait _ _ I k p H) as (H1 & H2 & H3).
    split; [apply Hun; [done | intros (_ & Lw & _); apply Lw; by exists k] |]; split; [| done].
    intros c; destruct (Ec c) as (_ & _ & _ & ->); done.
  - intros k; rewrite Ek; apply I.
  - intros p t k; rewrite Ek; apply I.
  - intros c p; destruct (Ec c) as (_ & _ & -> & _); apply I.
  - intros c d p; destruct (Ec c) as (_ & _ & -> & _), (Ec d) as (_ & _ & -> & _); apply I.
  - intros c p; destruct (Ec c) as (_ & -> & _ & _); apply I.
  - intros c d p; destruct (Ec c) as (_ & -> & _ & _), (Ec d) as (_ & -> & _ & _); apply I.
Qed.

Lemma loose_rq h s s' p : rq_only s s' -> loose h s p -> unqueued s' p -> loose h s' p.
Proof.
  intros (_ & _ & Ew & _ & Ec) (_ & Lw & L) Hu; split; [done |]; split.
  - intros [k Hk]; apply Lw; exists k; unfold waitq in *; by rewrite <- Ew.
  - intros c; destruct (Ec c) as (-> & -> & -> & ->); apply L.
Qed.

(** A task that is queued is in no other place. *)
Lemma queued_places h s c q p :
  inv h s -> queued s c q p ->
  ~ waiting s p /\
  forall d, pending_reenqueue (cpu_of s d) <> Some p /\ ~ p ∈ deferred_free_proc (cpu_of s d) /\
    idle_task (cpu_of s d) <> Some p /\ (h <> Some d -> current_task (cpu_of s d) <> Some p).
Proof.
  intros I Hq; destruct (i_queued _ _ I c q p Hq) as (t & Et & (_ & Hp & Hr) & _ & Hs).
  split; [intros [k Hk]; apply (i_wait _ _ I) in Hk as [Hu _]; by eapply Hu |].
  intros d; repeat split.
  - intros H; apply (i_pending _ _ I) in H as [Hu _]; by eapply Hu.
  - intros H; apply (i_deferred _ _ I) in H as (t' & Et' & Hr' & _); congruence.
  - intros H; apply (i_idle _ _ I) in H as (t' & Et' & Hi & _); simplify_eq; lia.
  - intros Hh H; apply (i_current _ _ I d p Hh) in H as [H | (Hu & _)]; [| by eapply Hu].
    apply (i_idle _ _ I) in H as (t' & Et' & Hi & _); simplify_eq; lia.
Qed.

(** A queued task is in one runqueue only. *)
Lemma queued_once h s c q d r p :
  inv h s -> queued s c q p -> queued s d r p -> c = d /\ q = r.
Proof.
  intros I H1 H2; apply (i_queued _ _ I) in H1 as (t & Et & (Hc & _) & Hq & _).
  apply (i_queued _ _ I) in H2 as (t' & Et' & (Hc' & _) & Hq' & _); simplify_eq; lia.
Qed.

(** ** Bitmap updates *)

Lemma testbit_u32 x i : 0 <= i < 32 -> Z.testbit (u32 x) i = Z.testbit x i.
Proof. intros; unfold u32; apply Z.mod_pow2_bits_low; lia. Qed.

Lemma rq_wf_push x q p :
  rq_wf x -> (q < 32)%nat ->
  rq_wf (with_runqueues (alter (fun l => l ++ [p]) q (runqueues x))
           (Z.lor (prio_bitmap x) (u32 (Z.shiftl 1 (Z.of_nat q)))) x).
Proof.
  intros (Hl & Hb & Hw) Hq; split; [by simpl; rewrite length_alter |]; split.
  - unfold is_u32; simpl; assert (Hs := u32_range (Z.shiftl 1 (Z.of_nat q))); unfold is_u32 in Hb.
    assert (0 <= Z.lor (prio_bitmap x) (u32 (Z.shiftl 1 (Z.of_nat q)))) by (apply Z.lor_nonneg; lia).
    split; [done |]; apply bits_below; [lia | done |]; intros i Hi.
    rewrite Z.lor_spec, !(testbit_above _ 32) by lia; done.
  - intros r Hr; simpl; rewrite Z.lor_spec, Hw by done; rewrite testbit_u32, testbit_shl1 by lia.
    rewrite runq_with; unfold runq; destruct (decide (r = q)) as [-> | Hne].
    + rewrite list_lookup_alter_eq, Z.eqb_refl; destruct (lookup_lt_is_Some_2 (runqueues x) q) as [l ->]; [lia |].
      simpl; rewrite orb_true_r, bool_decide_eq_false_2; [done |]; by destruct l.
    + rewrite list_lookup_alter_ne by done; destruct (Z.eqb_spec (Z.of_nat r) (Z.of_nat q)); [lia |].
      by rewrite orb_false_r.
Qed.

Lemma clear_bit_u32 b q : is_u32 b -> is_u32 (clear_bit b q).
Proof.
  intros Hb; unfold clear_bit, is_u32 in *; assert (0 <= Z.land b (not32 (Z.shiftl 1 q))) by (apply Z.land_nonneg; lia).
  split; [done |]; apply bits_below; [lia | done |]; intros i Hi.
  rewrite Z.land_spec, (testbit_above b 32) by lia; done.
Qed.

Lemma testbit_clear b q i :
  0 <= q < 32 -> 0 <= i < 32 -> Z.testbit (clear_bit b q) i = Z.testbit b i && negb (i =? q).
Proof.
  intros Hq Hi; unfold clear_bit, not32; rewrite Z.land_spec, testbit_u32, Z.lnot_spec, testbit_shl1 by lia.
  done.
Qed.

(** Taking a process off queue [q]; the bit goes when the queue is empty. *)
Lemma rq_wf_pull x q p :
  rq_wf x -> (q < 32)%nat -> p ∈ runq x q -> (forall r, r <> q -> ~ p ∈ runq x r) ->
  rq_wf (with_runqueues (without p <$> runqueues x)
    (if bool_decide (without p (runq x q) = []) then clear_bit (prio_bitmap x) (Z.of_nat q) else prio_bitmap x) x).
Proof.
  intros (Hl & Hb & Hw) Hq Hin Hother.
  assert (Er : forall r, runq (with_runqueues (without p <$> runqueues x)
    (if bool_decide (without p (runq x q) = []) then clear_bit (prio_bitmap x) (Z.of_nat q) else prio_bitmap x) x) r
    = without p (runq x r)).
  { intros r; rewrite runq_with; unfold runq; rewrite list_lookup_fmap; by destruct (runqueues x !! r). }
  split; [by simpl; rewrite length_fmap |]; split; [simpl; case_bool_decide; [by apply clear_bit_u32 | done] |].
  intros r Hr; rewrite Er; cbn [with_runqueues prio_bitmap].
  destruct (decide (r = q)) as [-> | Hne].
  - case_bool_decide as E; [rewrite testbit_clear, Z.eqb_refl by lia; apply andb_false_r |].
    rewrite Hw by done; rewrite bool_decide_eq_false_2; [done |]; intros E'; rewrite E' in Hin; by apply not_elem_of_nil in Hin.
  - rewrite (without_notin p (runq x r)) by (by apply Hother).
    case_bool_decide; [| by apply Hw]; rewrite testbit_clear, Hw by lia.
    destruct (Z.eqb_spec (Z.of_nat r) (Z.of_nat q)); [lia |]; apply andb_true_r.
Qed.

(** ** Enqueue and dequeue *)

(** A process in no place, ready to be queued on its CPU. *)
Definition ready_on (h : option nat) (s : sched) (c : nat) (p : Z) : Prop :=
  loose h s p /\ exists t, tasks s !! p = Some t /\ live_on c t /\ state t = PROC_READY.

Lemma home_live c t : live_on c t -> home_cpu t = c.
Proof. intros (E & _); unfold home_cpu; rewrite E; destruct (Z.leb_spec 0 (Z.of_nat c)); lia. Qed.

Lemma runq_push x q r p b :
  (q < length (runqueues x))%nat ->
  runq (with_runqueues (alter (fun l => l ++ [p]) q (runqueues x)) b x) r
  = if decide (r = q) then runq x q ++ [p] else runq x r.
Proof.
  intros Hq; rewrite runq_with; unfold runq; case_decide; subst.
  - rewrite list_lookup_alter_eq; by destruct (lookup_lt_is_Some_2 _ _ Hq) as [l ->].
  - by rewrite list_lookup_alter_ne.
Qed.

Lemma live_prio_lt c t : live_on c t -> (Z.to_nat (priority t) < 31)%nat.
Proof. intros (_ & H & _); unfold PROC_PRIO_IDLE in H; lia. Qed.

Lemma cpu_lt h s c t p : inv h s -> tasks s !! p = Some t -> live_on c t -> (c < length (cpus s))%nat.
Proof. intros I Et (E & _); rewrite (i_len _ _ I); apply (i_task _ _ I) in Et; lia. Qed.

(** The list operations of [__enqueue_task] once the state is set. *)
Definition push_task (s : sched) (p : Z) (t : task) (c : nat) : sched :=
  let prio := if MAX_PRIO <=? priority t then MAX_PRIO - 1 else priority t in
  upd_cpu s c (fun x =>
    with_runqueues (alter (fun l => l ++ [p]) (Z.to_nat prio) (runqueues x))
      (Z.lor (prio_bitmap x) (u32 (Z.shiftl 1 prio))) x).

(** Pushing a ready process that is in no place keeps the invariant. *)
Lemma push_task_inv h s p t c :
  inv h s -> loose h s p -> tasks s !! p = Some t -> live_on c t -> runnable_state (state t) ->
  let s' := push_task s p t c in
  inv h s' /\ rq_only s s' /\ queued s' c (Z.to_nat (priority t)) p /\
  forall d r x, queued s' d r x <-> queued s d r x \/ (x = p /\ d = c /\ r = Z.to_nat (priority t)).
Proof.
  intros I L Et Hlive Hst s'; subst s'; unfold push_task.
  assert (Hp := live_prio_lt c t Hlive); assert (Hc := cpu_lt _ _ _ _ _ I Et Hlive).
  destruct (Z.leb_spec MAX_PRIO (priority t)) as [Hle | _]; [unfold MAX_PRIO in Hle; lia |].
  set (q := Z.to_nat (priority t)) in *.
  replace (Z.shiftl 1 (priority t)) with (Z.shiftl 1 (Z.of_nat q)) by (unfold q; destruct Hlive as (_ & ? & _); f_equal; lia).
  set (s' := upd_cpu s c _).
  assert (Ecpu : forall d, cpu_of s' d = if decide (c = d) then
      with_runqueues (alter (fun l => l ++ [p]) q (runqueues (cpu_of s c)))
        (Z.lor (prio_bitmap (cpu_of s c)) (u32 (Z.shiftl 1 (Z.of_nat q)))) (cpu_of s c) else cpu_of s d).
  { intros d; unfold s'; rewrite cpu_of_upd by done; done. }
  assert (Hlen : (q < length (runqueues (cpu_of s c)))%nat) by (destruct (i_rq _ _ I c) as [-> _]; lia).
  assert (Er : forall d r, runq (cpu_of s' d) r =
      if decide (d = c /\ r = q) then runq (cpu_of s c) q ++ [p] else runq (cpu_of s d) r).
  { intros d r; rewrite Ecpu; destruct (decide (c = d)) as [<- | Hd].
    - rewrite runq_push by done; repeat case_decide; naive_solver.
    - rewrite decide_False by naive_solver; done. }
  assert (Hiff : forall d r x, queued s' d r x <-> queued s d r x \/ (x = p /\ d = c /\ r = q)).
  { intros d r x; unfold queued; rewrite Er; case_decide as E.
    - destruct E as [-> ->]; rewrite elem_of_app, list_elem_of_singleton; tauto.
    - naive_solver. }
  assert (Hrq : rq_only s s').
  { split; [done |]; split; [by unfold s'; simpl; rewrite length_alter |]; split; [done |]; split; [done |].
    intros d; rewrite Ecpu; case_decide; subst; done. }
  split; [| split; [done |]; split; [apply Hiff; by right | done]].
  apply (inv_rq_change h s); [done | done | | |].
  - intros d; rewrite Ecpu; case_decide; [apply rq_wf_push; [apply I | lia] | apply I].
  - intros d r; rewrite Er; case_decide as E; [| apply I].
    apply NoDup_app; split; [apply I |]; split; [| apply NoDup_singleton].
    intros x Hx ->%list_elem_of_singleton; destruct L as [Lq _]; by eapply Lq.
  - intros d r x [H | (-> & -> & ->)]%Hiff; [by left | right; split; [done |]].
    exists t; split; [done |]; split; [done |]; split; [| done].
    unfold q; destruct Hlive as (_ & ? & _); lia.
Qed.

(** What an operation on process [p] leaves alone. *)
Definition frame (p : Z) (s s' : sched) : Prop :=
  (forall r, r <> p -> tasks s' !! r = tasks s !! r) /\
  (forall c, current_task (cpu_of s' c) = current_task (cpu_of s c) /\
    idle_task (cpu_of s' c) = idle_task (cpu_of s c) /\
    pending_reenqueue (cpu_of s' c) = pending_reenqueue (cpu_of s c)) /\
  (forall c q r, r <> p -> queued s' c q r <-> queued s c q r).

(** [__enqueue_task] of a process in no place and not stopped or dead. *)
Lemma enqueue_inv h s p t :
  inv h s -> loose h s p -> tasks s !! p = Some t -> 0 <= priority t < PROC_PRIO_IDLE -> reaping t = false ->
  is_corpse (state t) = false -> state t <> PROC_STOPPED ->
  exists s', enqueue_task s p = Some s' /\ inv h s' /\ frame p s s' /\ length (cpus s') = length (cpus s) /\
    queued s' (home_cpu t) (Z.to_nat (priority t)) p /\
    tasks s' !! p = Some (with_on_cpu (Z.of_nat (home_cpu t)) (with_state PROC_READY t)) /\
    (forall c, deferred_free_proc (cpu_of s' c) = deferred_free_proc (cpu_of s c)).
Proof.
  intros I L Et Hp Hr Hcorpse Hstop; unfold enqueue_task; rewrite (task_of_Some s p t Et), Hcorpse.
  rewrite bool_decide_eq_false_2 by done; rewrite (not_linked s p) by apply L; rewrite andb_false_r.
  set (f := fun t => with_on_cpu (Z.of_nat (home_cpu _)) (with_state PROC_READY t)); set (s1 := upd_task s p f).
  assert (Hb := i_task _ _ I p t Et).
  assert (Hh : Z.of_nat (home_cpu t) < Z.of_nat MAX_CPUS) by (unfold home_cpu, MAX_CPUS in *; case_if; lia).
  assert (I1 : inv h s1) by (apply inv_loose_task; [done | done |]; intros t' _; unfold f; simpl; split; [lia | done]).
  assert (Et1 : tasks s1 !! p = Some (f t)) by (unfold s1; rewrite tasks_upd, decide_True, Et by done; done).
  destruct (push_task_inv h s1 p (f t) (home_cpu t) I1 (loose_task _ _ _ _ _ L) Et1) as (I2 & R & Q & Hiff);
    [done | by left |].
  eexists; split; [reflexivity |]; split; [exact I2 |].
  destruct R as (Rt & Rl & Rw & Rr & Rc); split; [split; [| split] | split; [| split; [| split]]].
  - intros r Hne; etrans; [apply (f_equal (.!! r) Rt) |]; unfold s1; rewrite tasks_upd, decide_False by done; done.
  - intros c; destruct (Rc c) as (E1 & E2 & E3 & E4); done.
  - intros c q r Hne; etrans; [apply Hiff |]; split; [intros [? | (? & _)]; done | by left].
  - etrans; [exact Rl | done].
  - exact Q.
  - etrans; [apply (f_equal (.!! p) Rt) | exact Et1].
  - intros c; destruct (Rc c) as (E1 & E2 & E3 & E4); done.
Qed.

(** [__dequeue_task] and the removal in work stealing: the same effect. *)
Definition pull_task (s : sched) (p : Z) (c q : nat) : sched :=
  upd_cpu (unlink s p) c (fun x =>
    if bool_decide (runq x q = []) then with_runqueues (runqueues x) (clear_bit (prio_bitmap x) (Z.of_nat q)) x else x).

Lemma dequeue_pull s p t c :
  tasks s !! p = Some t -> live_on c t -> dequeue_task s p = pull_task s p c (Z.to_nat (priority t)).
Proof.
  intros Et Hlive; unfold dequeue_task, pull_task; rewrite (task_of_Some s p t Et), (home_live c t Hlive).
  destruct Hlive as (_ & Hp & _); unfold PROC_PRIO_IDLE in Hp; f_equal.
  destruct (Z.ltb_spec (priority t) MAX_PRIO); [| unfold MAX_PRIO in *; lia]; cbn [andb].
  by rewrite Z2Nat.id by lia.
Qed.

Lemma pull_task_inv h s p c q :
  inv h s -> queued s c q p -> (c < length (cpus s))%nat ->
  let s' := pull_task s p c q in
  inv h s' /\ rq_only s s' /\ loose h s' p /\
  (forall d, runq (cpu_of s' d) q = without p (runq (cpu_of s d) q)) /\
  forall d r x, queued s' d r x <-> queued s d r x /\ x <> p.
Proof.
  intros I Hq Hc s'.
  destruct (i_queued _ _ I c q p Hq) as (t & Et & Hlive & Hprio & _).
  assert (Hq31 : (q < 31)%nat) by (apply live_prio_lt in Hlive; lia).
  assert (Hw : forall k, waitq (unlink s p) k = waitq s k).
  { intros k; rewrite waitq_unlink; apply without_notin; intros Hk; by apply (queued_places h s c q p I Hq); exists k. }
  assert (Ecpu : forall d, cpu_of s' d =
      with_runqueues (without p <$> runqueues (cpu_of s d))
        (if decide (c = d) then if bool_decide (without p (runq (cpu_of s c) q) = [])
           then clear_bit (prio_bitmap (cpu_of s c)) (Z.of_nat q) else prio_bitmap (cpu_of s c)
         else prio_bitmap (cpu_of s d)) (cpu_of s d)).
  { intros d; unfold s', pull_task; rewrite cpu_of_upd by (simpl; by rewrite length_fmap).
    rewrite runq_unlink, !cpu_of_unlink; case_decide; subst; [by case_bool_decide | done]. }
  assert (Er : forall d r, runq (cpu_of s' d) r = without p (runq (cpu_of s d) r)).
  { intros d r; rewrite Ecpu, runq_with; unfold runq; rewrite list_lookup_fmap; by destruct (runqueues (cpu_of s d) !! r). }
  assert (Hiff : forall d r x, queued s' d r x <-> queued s d r x /\ x <> p).
  { intros d r x; unfold queued; rewrite Er; apply elem_of_without. }
  assert (R : rq_only s s').
  { split; [done |]; split; [by unfold s', pull_task; simpl; rewrite length_alter, length_fmap |]; split; [| split; [done |]].
    - apply list_eq; intros k; specialize (Hw k); unfold s', pull_task, waitq, unlink in *; simpl in *.
      rewrite list_lookup_fmap in *; destruct (waitqs s !! k); simpl in *; congruence.
    - intros d; rewrite Ecpu; done. }
  assert (I' : inv h s').
  { apply (inv_rq_change h s); [done | done | | |].
    - intros d; rewrite Ecpu; destruct (decide (c = d)) as [<- | Hd].
      + apply rq_wf_pull; [apply I | lia | done |].
        intros r Hr Hin; apply Hr; symmetry; by apply (queued_once h s c q c r p I Hq).
      + assert (Hno : forall r, without p (runq (cpu_of s d) r) = runq (cpu_of s d) r).
        { intros r; apply without_notin; intros Hin; apply Hd; by apply (queued_once h s c q d r p I Hq). }
        destruct (i_rq _ _ I d) as (Hl & Hb & Hbits); split; [by simpl; rewrite length_fmap |]; split; [done |].
        intros r Hr; cbn [with_runqueues prio_bitmap]; rewrite Hbits by done; rewrite runq_with, list_lookup_fmap.
        assert (E : default [] (without p <$> runqueues (cpu_of s d) !! r) = runq (cpu_of s d) r).
        { rewrite <- (Hno r); unfold runq; by destruct (runqueues (cpu_of s d) !! r). }
        by rewrite E.
    - intros d r; rewrite Er; apply NoDup_filter, I.
    - intros d r x [H _]%Hiff; by left. }
  split; [done |]; split; [done |]; split; [| split; [by intros; apply Er | done]].
  destruct (queued_places h s c q p I Hq) as [Lw L]; destruct R as (_ & _ & Ew & _ & Ec); split; [| split].
  - intros d r [_ H]%Hiff; done.
  - intros [k Hk]; apply Lw; exists k; unfold waitq in *; by rewrite <- Ew.
  - intros d; destruct (Ec d) as (-> & -> & -> & ->); apply L.
Qed.

(** [reap_push] of a corpse that is in no place. *)
Lemma reap_push_inv h s c p t :
  inv h s -> (c < length (cpus s))%nat -> loose h s p -> tasks s !! p = Some t -> reaping t = false ->
  0 <= priority t < PROC_PRIO_IDLE -> state t = PROC_DEAD \/ state t = PROC_ZOMBIE ->
  inv h (reap_push s c p) /\ frame p s (reap_push s c p) /\ length (cpus (reap_push s c p)) = length (cpus s) /\
  (forall d, runq (cpu_of (reap_push s c p) d) = runq (cpu_of s d)) /\ tasks (reap_push s c p) !! p = Some (with_reaping true t).
Proof.
  intros I Hc L Et Hr Hp Hs; unfold reap_push; rewrite (task_of_Some s p t Et), Hr.
  set (s1 := upd_task s p (with_reaping true)).
  assert (I1 : inv h s1) by (apply inv_loose_task; [done | done |]; intros t' E; split; [exact (i_task _ _ I p t' E) | done]).
  assert (Et1 : tasks s1 !! p = Some (with_reaping true t)) by (unfold s1; rewrite tasks_upd, decide_True, Et by done; done).
  set (s2 := upd_cpu s1 c _).
  assert (Ecpu : forall d, cpu_of s2 d = if decide (c = d)
      then with_deferred (p :: deferred_free_proc (cpu_of s c)) (cpu_of s c) else cpu_of s d).
  { intros d; unfold s2; rewrite cpu_of_upd by done; done. }
  assert (Eq : forall d r, runq (cpu_of s2 d) r = runq (cpu_of s d) r).
  { intros d r; rewrite Ecpu; case_decide; subst; done. }
  assert (Erest : forall d, current_task (cpu_of s2 d) = current_task (cpu_of s d) /\
      idle_task (cpu_of s2 d) = idle_task (cpu_of s d) /\
      pending_reenqueue (cpu_of s2 d) = pending_reenqueue (cpu_of s d)).
  { intros d; rewrite Ecpu; case_decide; subst; done. }
  assert (Hun : forall r, unqueued s1 r -> unqueued s2 r).
  { intros r H d q Hq; unfold queued in Hq; rewrite Eq in Hq; by eapply H. }
  split; [| split; [split; [| split] | split; [by simpl; rewrite length_alter | split; [| done]]]].
  - constructor; try apply I1; try done.
    + by unfold s2; simpl; rewrite length_alter; apply I1.
    + intros d; rewrite Ecpu; case_decide; [subst; destruct (i_rq _ _ I d) as (? & ? & ?); done | apply I].
    + intros d q; rewrite Eq; apply I.
    + intros d q r Hq; unfold queued in Hq; rewrite Eq in Hq; by apply (i_queued _ _ I1 d q r).
    + intros d r; destruct (Erest d) as (_ & _ & ->); intros H; apply (i_pending _ _ I1 d) in H as [H1 H2]; auto.
    + intros d r Hd; destruct (Erest d) as (-> & -> & ->); intros H.
      apply (i_current _ _ I1 d r Hd) in H as [H | (H1 & H2)]; auto.
    + intros k r H; apply (i_wait _ _ I1 k) in H as (H1 & H2 & H3); split; [auto |]; split; [| done].
      intros d; destruct (Erest d) as (_ & _ & ->); apply H2.
    + intros d r; rewrite Ecpu; case_decide; [subst | by apply (i_deferred _ _ I1)].
      intros [-> | H]%elem_of_cons; [| by apply (i_deferred _ _ I1 d)].
      exists (with_reaping true t); split; [done |]; split; [done |]; split; [simpl; lia | done].
    + destruct L as (_ & _ & L); assert (Hnew : forall d r, r ∈ deferred_free_proc (cpu_of s2 d) ->
        (r = p /\ d = c) \/ r ∈ deferred_free_proc (cpu_of s d)).
      { intros d r; rewrite Ecpu; case_decide; subst; simpl; [intros [-> | ?]%elem_of_cons; auto | auto]. }
      intros d e r [(-> & ->) | H1]%Hnew [(H2 & ->) | H3]%Hnew; subst; try done;
        [not_loose L e | not_loose L d | by apply (i_deferred_once _ _ I d e r)].
    + intros d r; destruct (Erest d) as (_ & -> & _); apply (i_idle _ _ I1).
    + intros d e r; destruct (Erest d) as (_ & -> & _), (Erest e) as (_ & -> & _); apply (i_idle_once _ _ I).
  - intros r Hr'; unfold s2, s1; simpl; by rewrite lookup_alter_ne.
  - intros d; destruct (Erest d) as (? & ? & ?); done.
  - intros d q r _; unfold queued; by rewrite Eq.
  - intros d; unfold runq; rewrite Ecpu; by case_decide; subst.
Qed.

(** ** Picking *)

Lemma ctz_spec w :
  is_u32 w -> w <> 0 ->
  (ctz w < 32)%nat /\ Z.testbit w (Z.of_nat (ctz w)) = true /\
  forall i, (i < ctz w)%nat -> Z.testbit w (Z.of_nat i) = false.
Proof.
  intros Hw Hne; unfold ctz; destruct (list_find _ _) as [[i b] |] eqn:E.
  - apply list_find_Some in E as (Hi & Hb & Hlt).
    assert (Hlt32 := lookup_lt_Some _ _ _ Hi); rewrite length_seqZ in Hlt32.
    apply lookup_seqZ in Hi as [-> _]; rewrite Z.add_0_l in Hb; split; [lia |]; split; [done |].
    intros j Hj; apply not_true_iff_false; apply (Hlt j (Z.of_nat j)); [| done].
    apply lookup_seqZ; lia.
  - exfalso; apply list_find_None in E; rewrite Forall_forall in E; apply Hne.
    apply Z.bits_inj'; intros i Hi; rewrite Z.bits_0.
    destruct (Z_lt_le_dec i 32); [| apply (testbit_above w 32); unfold is_u32 in Hw; lia].
    apply not_true_iff_false, E, elem_of_seqZ; lia.
Qed.

(** The highest-priority runqueue that is not empty. *)
Lemma best_queue x :
  rq_wf x -> prio_bitmap x <> 0 ->
  (ctz (prio_bitmap x) < 32)%nat /\ runq x (ctz (prio_bitmap x)) <> [] /\
  forall q, (q < ctz (prio_bitmap x))%nat -> runq x q = [].
Proof.
  intros (Hl & Hu & Hb) Hne; destruct (ctz_spec _ Hu Hne) as (H1 & H2 & H3); split; [done |]; split.
  - rewrite Hb in H2 by done; apply negb_true_iff, bool_decide_eq_false in H2; done.
  - intros q Hq; specialize (H3 q Hq); rewrite Hb in H3 by lia.
    by apply negb_false_iff, bool_decide_eq_true in H3.
Qed.

Lemma no_queue x : rq_wf x -> prio_bitmap x = 0 -> forall q, runq x q = [].
Proof.
  intros (Hl & Hu & Hb) H0 q; destruct (decide (q < 32)%nat) as [Hq | Hq].
  - specialize (Hb q Hq); rewrite H0, Z.bits_0 in Hb; symmetry in Hb.
    by apply negb_false_iff, bool_decide_eq_true in Hb.
  - unfold runq; rewrite lookup_ge_None_2 by lia; done.
Qed.

Lemma rq_only_trans s1 s2 s3 : rq_only s1 s2 -> rq_only s2 s3 -> rq_only s1 s3.
Proof.
  intros (A1 & A2 & A3 & A4 & A5) (B1 & B2 & B3 & B4 & B5); unfold rq_only; repeat split; try congruence;
    destruct (A5 c) as (? & ? & ? & ?), (B5 c) as (? & ? & ? & ?); congruence.
Qed.

(** A write to a field of a CPU that the invariant does not mention. *)
Lemma inv_streak h s c n :
  inv h s -> (c < length (cpus s))%nat ->
  let s' := upd_cpu s c (with_streak n) in
  inv h s' /\ rq_only s s' /\ forall d q, runq (cpu_of s' d) q = runq (cpu_of s d) q.
Proof.
  intros I Hc s'.
  assert (Ecpu : forall d, cpu_of s' d = if decide (c = d) then with_streak n (cpu_of s c) else cpu_of s d)
    by (intros d; unfold s'; by rewrite cpu_of_upd by done).
  assert (Er : forall d q, runq (cpu_of s' d) q = runq (cpu_of s d) q)
    by (intros d q; rewrite Ecpu; case_decide; by subst).
  assert (R : rq_only s s').
  { split; [done |]; split; [by unfold s'; simpl; rewrite length_alter |]; split; [done |]; split; [done |].
    intros d; rewrite Ecpu; by case_decide; subst. }
  split; [| done]; apply (inv_rq_change h s); [done | done | | |].
  - intros d; rewrite Ecpu; case_decide; [subst; destruct (i_rq _ _ I d) as (? & ? & ?); done | apply I].
  - intros d q; rewrite Er; apply I.
  - intros d q p; unfold queued; rewrite Er; by left.
Qed.

(** What a pick did: [p] was queued on [c] and is now in no place. *)
Definition picked (c : nat) (s s' : sched) (p : Z) : Prop :=
  inv (Some c) s' /\ rq_only s s' /\ loose (Some c) s' p /\ (exists q, queued s c q p) /\
  forall d r x, queued s' d r x <-> queued s d r x /\ x <> p.

Lemma pull_picked s c q p n :
  inv (Some c) s -> (c < length (cpus s))%nat -> queued s c q p ->
  picked c s (upd_cpu (dequeue_task s p) c (with_streak n)) p.
Proof.
  intros I Hc Hq; destruct (i_queued _ _ I c q p Hq) as (t & Et & Hlive & Hp & _).
  rewrite (dequeue_pull s p t c Et Hlive), Hp, Nat2Z.id.
  destruct (pull_task_inv _ s p c q I Hq Hc) as (I1 & R1 & L1 & _ & Q1).
  destruct (inv_streak _ (pull_task s p c q) c n I1) as (I2 & R2 & E2);
    [destruct R1 as (_ & -> & _); done |].
  assert (Q2 : forall d r x, queued (upd_cpu (pull_task s p c q) c (with_streak n)) d r x <-> queued s d r x /\ x <> p).
  { intros d r x; unfold queued; rewrite E2; apply Q1. }
  split; [done |]; split; [by eapply rq_only_trans |]; split; [| split; [by exists q | done]].
  apply (loose_rq _ (pull_task s p c q)); [done | done |]; intros d r [_ H]%Q2; done.
Qed.

Lemma pick_focus_spec s c focus :
  inv (Some c) s -> (c < length (cpus s))%nat ->
  match sched_pick_focus s c focus with
  | (s', Some p) => p = focus /\ focus_streak (cpu_of s c) < FOCUS_BOOST_MAX /\ picked c s s' p
  | (s', None) => s' = s
  end.
Proof.
  intros I Hc; unfold sched_pick_focus; destruct ((focus <=? 0) || _) eqn:Eg; [done |].
  zbool; destruct (existsb _ _) eqn:Ex; [| done]; apply runq_elem in Ex as [q Hq].
  split; [done |]; split; [done |].
  assert (E : upd_cpu (dequeue_task s focus) c (fun x => with_streak (u32 (focus_streak x + 1)) x)
    = upd_cpu (dequeue_task s focus) c (with_streak (u32 (focus_streak (cpu_of (dequeue_task s focus) c) + 1)))).
  { unfold upd_cpu, set_cpus; f_equal; unfold cpu_of.
    destruct (i_queued _ _ I c q focus Hq) as (t & Et & Hlive & _).
    apply list_eq; intros d; destruct (decide (d = c)) as [-> | Hd];
      [| by rewrite !list_lookup_alter_ne]. rewrite !list_lookup_alter_eq.
    by destruct (cpus (dequeue_task s focus) !! c). }
  rewrite E; by eapply pull_picked.
Qed.

Lemma pick_fair_spec s c :
  inv (Some c) s -> (c < length (cpus s))%nat ->
  match sched_pick_fair s c with
  | (s', Some p) => picked c s s' p /\ focus_streak (cpu_of s' c) = 0 /\
      exists q l, runq (cpu_of s c) q = p :: l /\ forall r, (r < q)%nat -> runq (cpu_of s c) r = []
  | (s', None) => s' = s /\ forall q, runq (cpu_of s c) q = []
  end.
Proof.
  intros I Hc; unfold sched_pick_fair; assert (W := i_rq _ _ I c).
  destruct (Z.eqb_spec (prio_bitmap (cpu_of s c)) 0) as [E0 | Hne]; [split; [done |]; by apply no_queue |].
  destruct (best_queue _ W Hne) as (H1 & H2 & H3); unfold MAX_PRIO.
  destruct (Z.leb_spec 32 (Z.of_nat (ctz (prio_bitmap (cpu_of s c))))); [lia |].
  destruct (runq (cpu_of s c) (ctz (prio_bitmap (cpu_of s c)))) as [| p l] eqn:E; [done |].
  assert (Hq : queued s c (ctz (prio_bitmap (cpu_of s c))) p) by (unfold queued; rewrite E; by left).
  assert (P := pull_picked s c _ p 0 I Hc Hq).
  split; [done |]; split; [| by eexists _, l].
  rewrite cpu_of_upd, decide_True by (done || (destruct (i_queued _ _ I _ _ _ Hq) as (t & Et & Hlive & _);
    rewrite (dequeue_pull s p t c Et Hlive); unfold pull_task; simpl; by rewrite length_alter, length_fmap)).
  done.
Qed.

(** The processes queued on CPU [c]. *)
Definition queue_set (s : sched) (c : nat) : gset Z := list_to_set (mjoin (runqueues (cpu_of s c))).

Lemma elem_of_queue_set s c p : p ∈ queue_set s c <-> exists q, queued s c q p.
Proof.
  unfold queue_set, queued; rewrite elem_of_list_to_set, list_elem_of_join; split.
  - intros (l & Hp & [q Hq]%list_elem_of_lookup); exists q; unfold runq; by rewrite Hq.
  - intros (q & Hq); unfold runq in Hq; destruct (runqueues (cpu_of s c) !! q) as [l |] eqn:E; simpl in Hq;
      [| by apply not_elem_of_nil in Hq].
    exists l; split; [done | by eapply list_elem_of_lookup_2].
Qed.

Lemma picked_smaller c s s' p : picked c s s' p -> (size (queue_set s' c) < size (queue_set s c))%nat.
Proof.
  intros (_ & _ & _ & [q Hq] & Hiff); apply subset_size; split.
  - intros x [r Hx]%elem_of_queue_set; apply elem_of_queue_set; exists r; by apply Hiff in Hx as [? _].
  - intros H; assert (Hp : p ∈ queue_set s' c) by (apply H, elem_of_queue_set; by exists q).
    apply elem_of_queue_set in Hp as [r Hr]; by apply Hiff in Hr as [_ ?].
Qed.

Lemma pick_once_spec s c focus :
  inv (Some c) s -> (c < length (cpus s))%nat ->
  match pick_once s c focus with
  | (s', Some p) => picked c s s' p
  | (s', None) => s' = s /\ forall q, runq (cpu_of s c) q = []
  end.
Proof.
  intros I Hc; unfold pick_once; pose proof (pick_focus_spec s c focus I Hc) as Hf.
  destruct (sched_pick_focus s c focus) as [s1 [p |]]; [by destruct Hf as (_ & _ & ?) |]; subst s1.
  pose proof (pick_fair_spec s c I Hc) as Hp; destruct (sched_pick_fair s c) as [s2 [p |]]; [by destruct Hp | done].
Qed.

(** What the local pick leaves alone: everything but the corpses and the stopped
    tasks it takes off the queues. *)
Definition picked_from (c : nat) (s s' : sched) (r : option Z) : Prop :=
  length (cpus s') = length (cpus s) /\
  (forall d, current_task (cpu_of s' d) = current_task (cpu_of s d) /\
    idle_task (cpu_of s' d) = idle_task (cpu_of s d) /\
    pending_reenqueue (cpu_of s' d) = pending_reenqueue (cpu_of s d)) /\
  (forall x t, tasks s !! x = Some t -> state t <> PROC_DEAD -> tasks s' !! x = Some t) /\
  (forall d q x t, queued s d q x -> tasks s !! x = Some t -> state t = PROC_READY -> r <> Some x -> queued s' d q x) /\
  match r with
  | Some p => loose (Some c) s' p /\ exists t, tasks s' !! p = Some t /\ live_on c t /\ state t = PROC_READY
  | None => forall q, runq (cpu_of s' c) q = []
  end.

Lemma picked_frame c s s' p :
  picked c s s' p ->
  length (cpus s') = length (cpus s) /\ tasks s' = tasks s /\
  (forall d, current_task (cpu_of s' d) = current_task (cpu_of s d) /\
    idle_task (cpu_of s' d) = idle_task (cpu_of s d) /\
    pending_reenqueue (cpu_of s' d) = pending_reenqueue (cpu_of s d)).
Proof.
  intros (_ & (Et & El & _ & _ & Ec) & _); split; [done |]; split; [done |].
  intros d; destruct (Ec d) as (? & ? & ? & ?); done.
Qed.

(** The loop continues after dropping [p], which was not ready. *)
Lemma picked_from_drop c s s1 s2 s' r p t :
  picked c s s1 p -> tasks s !! p = Some t -> state t <> PROC_READY -> frame p s1 s2 ->
  length (cpus s2) = length (cpus s1) -> (state t = PROC_DEAD \/ tasks s2 !! p = Some t) ->
  picked_from c s2 s' r -> picked_from c s s' r.
Proof.
  intros P Et Hst (Ft & Fc & Fq) Fl Fp (Hl & Hc & Ht & Hq & Hr).
  destruct (picked_frame _ _ _ _ P) as (Pl & Pt & Pc); destruct P as (_ & _ & _ & _ & Hiff).
  split; [congruence |]; split; [| split; [| split; [| done]]].
  - intros d; destruct (Hc d) as (-> & -> & ->), (Fc d) as (-> & -> & ->); apply Pc.
  - intros x u Hx Hu; apply Ht; [| done]; destruct (decide (x = p)) as [-> | Hne]; [| by rewrite Ft, Pt].
    rewrite Et in Hx; simplify_eq; by destruct Fp.
  - intros d q x u Hx Eu Hu Hrx; assert (Hne : x <> p) by congruence.
    eapply (Hq d q x u); [apply Fq; [done |]; by apply Hiff | by rewrite Ft, Pt | done | done].
Qed.

Lemma pick_local_spec n s c focus :
  inv (Some c) s -> (c < length (cpus s))%nat -> (size (queue_set s c) < n)%nat ->
  exists s' r, pick_local n s c focus = Some (s', r) /\ inv (Some c) s' /\ picked_from c s s' r.
Proof.
  revert s; induction n as [| n IH]; intros s I Hc Hsz; [lia |]; cbn [pick_local].
  pose proof (pick_once_spec s c focus I Hc) as Hp; destruct (pick_once s c focus) as [s1 [p |]].
  2:{ destruct Hp as [-> He]; exists s, None; split; [done |]; split; [done |]; repeat split; auto. }
  assert (P := Hp); destruct Hp as (I1 & R1 & L1 & (q & Hq) & Hiff).
  destruct (i_queued _ _ I c q p Hq) as (t & Et & Hlive & Hprio & Hst).
  destruct (picked_frame _ _ _ _ P) as (Pl & Pt & Pc); assert (Et1 : tasks s1 !! p = Some t) by (by rewrite Pt).
  assert (Hs1 := picked_smaller _ _ _ _ P); rewrite (task_of_Some s1 p t Et1).
  assert (Hlen1 : (c < length (cpus s1))%nat) by (by rewrite Pl).
  destruct Hst as [Hst | [Hst | Hst]]; rewrite Hst; cbn.
  - exists s1, (Some p); split; [done |]; split; [done |]; split; [done |]; split; [done |].
    split; [by rewrite Pt |]; split; [| by eauto].
    intros d r x u Hx _ _ Hne; apply Hiff; split; [done | congruence].
  - destruct Hlive as (Hon & Hpr & Hre).
    destruct (reap_push_inv _ s1 c p t I1 Hlen1 L1 Et1 Hre Hpr) as (I2 & F2 & Fl & Fr & Ft2); [by left |].
    destruct (IH (reap_push s1 c p)) as (s' & r & E & I' & PF); [done | by rewrite Fl | |].
    { replace (queue_set (reap_push s1 c p) c) with (queue_set s1 c); [lia |].
      apply leibniz_equiv; intros x; rewrite !elem_of_queue_set; unfold queued.
      split; intros [y Hy]; exists y; [by rewrite Fr | by rewrite Fr in Hy]. }
    exists s', r; split; [done |]; split; [done |].
    eapply picked_from_drop; [done | done | congruence | done | done | by left | done].
  - destruct (IH s1) as (s' & r & E & I' & PF); [done | done | lia |].
    exists s', r; split; [done |]; split; [done |].
    eapply (picked_from_drop c s s1 s1); [done | done | congruence | | done | by right | done].
    split; [done |]; split; [done |]; done.
Qed.

(** ** Stealing *)

Lemma steal_spec trylock s c ks :
  inv (Some c) s ->
  match steal_work trylock s c ks with
  | (s', Some p) => exists i q t, i <> c /\ queued s i q p /\ inv (Some c) s' /\ rq_only s s' /\
      loose (Some c) s' p /\ (forall d r x, queued s' d r x <-> queued s d r x /\ x <> p) /\
      tasks s !! p = Some t /\ live_on i t /\ (state t = PROC_READY \/ state t = PROC_STOPPED)
  | (s', None) => s' = s
  end.
Proof.
  intros I; induction ks as [| i ks IH]; cbn [steal_work]; [done |].
  destruct (Nat.eqb_spec i c) as [-> | Hi]; [done |]; destruct (online (cpu_of s i)); cbn [negb]; [| done].
  destruct (trylock i); cbn [negb]; [| done].
  destruct (Z.eqb_spec (prio_bitmap (cpu_of s i)) 0) as [| Hne]; [done |].
  destruct (best_queue _ (i_rq _ _ I i) Hne) as (H1 & H2 & _); set (q := ctz (prio_bitmap (cpu_of s i))) in *.
  destruct (runq (cpu_of s i) q) as [| p l] eqn:E; [done |].
  assert (Hq : queued s i q p) by (unfold queued; rewrite E; by left).
  destruct (i_queued _ _ I i q p Hq) as (t & Et & Hlive & Hp & Hst); rewrite (task_of_Some s p t Et).
  destruct ((priority t =? PROC_PRIO_IDLE) || _) eqn:Eg; [done |].
  apply orb_false_iff in Eg as [_ Hd%bool_decide_eq_false].
  destruct (pull_task_inv _ s p i q I Hq (cpu_lt _ _ _ _ _ I Et Hlive)) as (I1 & R1 & L1 & _ & Q1).
  exists i, q, t; split; [done |]; split; [done |]; split; [exact I1 |]; split; [exact R1 |]; split; [exact L1 |].
  split; [exact Q1 |]; split; [done |]; split; [done |]; unfold runnable_state in Hst; naive_solver.
Qed.

(** ** Updates the invariant allows *)

(** Fields the invariant does not mention. *)
Lemma inv_neutral_task h s p f :
  inv h s -> (forall t, on_cpu (f t) = on_cpu t /\ priority (f t) = priority t /\ state (f t) = state t /\
    reaping (f t) = reaping t /\ wait_queue_ptr (f t) = wait_queue_ptr t /\ machine (f t) = machine t) ->
  inv h (upd_task s p f).
Proof.
  intros I Hf.
  assert (Hback : forall r (P : task -> Prop), (forall t, P t -> P (f t)) ->
    (exists t, tasks s !! r = Some t /\ P t) -> exists t, tasks (upd_task s p f) !! r = Some t /\ P t).
  { intros r P HP (t & Et & Ht); rewrite tasks_upd, Et; case_decide; simpl; eauto. }
  assert (Hlive : forall c t, live_on c t -> live_on c (f t)).
  { intros c t; unfold live_on; destruct (Hf t) as (-> & -> & _ & -> & _); done. }
  constructor; try apply I.
  - intros r t; rewrite tasks_upd; case_decide; [subst | by apply I].
    intros (t' & E & ->)%fmap_Some; destruct (Hf t') as (-> & _); by apply (i_task _ _ I r).
  - intros c q r Hr; apply Hback; [| by apply I]; intros t (H1 & H2 & H3); destruct (Hf t) as (_ & -> & -> & _); auto.
  - intros c r Hr; destruct (i_pending _ _ I c r Hr) as [H1 H2]; split; [done |]; apply Hback; [| done].
    intros t (H3 & H4); destruct (Hf t) as (_ & _ & -> & _); auto.
  - intros c r Hc Hr; destruct (i_current _ _ I c r Hc Hr) as [H | (H1 & H2 & H3)]; [by left | right].
    split; [done |]; split; [done |]; apply Hback; [| done].
    intros t (H4 & H5); destruct (Hf t) as (_ & _ & -> & _); auto.
  - intros k r Hr; destruct (i_wait _ _ I k r Hr) as (H1 & H2 & H3); split; [done |]; split; [done |].
    apply Hback; [| done]; intros t; destruct (Hf t) as (_ & -> & -> & -> & -> & _); done.
  - intros r t k; rewrite tasks_upd; case_decide; [subst | by apply I].
    intros (t' & E & ->)%fmap_Some; destruct (Hf t') as (_ & _ & _ & _ & -> & _); by apply (i_wptr _ _ I).
  - intros c r Hr; apply Hback; [| by apply (i_deferred _ _ I c)].
    intros t; destruct (Hf t) as (_ & -> & -> & -> & _); done.
  - intros c r Hr; apply Hback; [| by apply (i_idle _ _ I c)].
    intros t; destruct (Hf t) as (_ & -> & -> & -> & _ & ->); done.
Qed.

(** An idle task is in no other place, so its state can change. *)
Lemma inv_idle_update h s c p f :
  inv h s -> idle_task (cpu_of s c) = Some p ->
  (forall t, -1 <= on_cpu t < Z.of_nat MAX_CPUS -> state t = PROC_READY \/ state t = PROC_RUNNING ->
     -1 <= on_cpu (f t) < Z.of_nat MAX_CPUS /\
     priority (f t) = priority t /\ machine (f t) = machine t /\ reaping (f t) = reaping t /\
     wait_queue_ptr (f t) = wait_queue_ptr t /\
     (state (f t) = PROC_READY \/ state (f t) = PROC_RUNNING)) ->
  inv h (upd_task s p f).
Proof.
  intros I Hidle Hf; destruct (i_idle _ _ I c p Hidle) as (t0 & Et0 & Hp0 & _ & Hr0 & Hs0).
  assert (Hb0 := i_task _ _ I p t0 Et0).
  assert (Hne : forall r (P : task -> Prop), (forall t, P t -> priority t <> PROC_PRIO_IDLE) ->
    (exists t, tasks s !! r = Some t /\ P t) -> exists t, tasks (upd_task s p f) !! r = Some t /\ P t).
  { intros r P HP (t & Et & Ht); assert (p <> r) by (intros ->; simplify_eq; by eapply HP).
    rewrite tasks_upd, decide_False by done; eauto. }
  assert (Hl : forall d t, live_on d t -> priority t <> PROC_PRIO_IDLE) by (intros d t (_ & H & _); lia).
  constructor; try apply I.
  - intros r t; rewrite tasks_upd; case_decide; [subst | by apply I].
    intros (t' & E & ->)%fmap_Some; simplify_eq; by apply Hf.
  - intros d q r Hr; apply Hne; [| by apply I]; intros t (H1 & _); eauto.
  - intros d r Hr; destruct (i_pending _ _ I d r Hr) as [H1 H2]; split; [done |]; apply Hne; [| done].
    intros t (H3 & _); eauto.
  - intros d r Hd Hr; destruct (i_current _ _ I d r Hd Hr) as [H | (H1 & H2 & H3)]; [by left | right].
    split; [done |]; split; [done |]; apply Hne; [| done]; intros t (H4 & _); eauto.
  - intros k r Hr; destruct (i_wait _ _ I k r Hr) as (H1 & H2 & H3); split; [done |]; split; [done |].
    apply Hne; [| done]; intros t (_ & _ & H4 & _); lia.
  - intros r t k; rewrite tasks_upd; case_decide; [subst | by apply I].
    intros (t' & E & ->)%fmap_Some; simplify_eq; destruct (Hf t0 Hb0 Hs0) as (_ & _ & _ & _ & -> & _); by apply (i_wptr _ _ I).
  - intros d r Hr; apply Hne; [| by apply (i_deferred _ _ I d)]; intros t (_ & H & _); done.
  - intros d r Hr; destruct (i_idle _ _ I d r Hr) as (t & Et & H1 & H2 & H3 & H4).
    rewrite tasks_upd; case_decide; [subst | by eauto 10].
    rewrite Et; simplify_eq; destruct (Hf t0 Hb0 Hs0) as (_ & E1 & E2 & E3 & _ & E4); eexists; split; [done |].
    rewrite E1, E2, E3; auto.
Qed.

(** The fields of a CPU other than its runqueues. *)
Lemma inv_cpu_change h s s' :
  inv h s -> tasks s' = tasks s -> waitqs s' = waitqs s -> rr_cpu s' = rr_cpu s ->
  length (cpus s') = length (cpus s) ->
  (forall d, runqueues (cpu_of s' d) = runqueues (cpu_of s d) /\ prio_bitmap (cpu_of s' d) = prio_bitmap (cpu_of s d) /\
     idle_task (cpu_of s' d) = idle_task (cpu_of s d) /\
     deferred_free_proc (cpu_of s' d) = deferred_free_proc (cpu_of s d)) ->
  (forall d p, pending_reenqueue (cpu_of s' d) = Some p -> pending_reenqueue (cpu_of s d) = Some p \/
     (unqueued s p /\ ~ waiting s p /\ exists t, tasks s !! p = Some t /\ live_on d t /\ runnable_state (state t))) ->
  (forall d p, h <> Some d -> current_task (cpu_of s' d) = Some p ->
     idle_task (cpu_of s d) = Some p \/
     (unqueued s p /\ pending_reenqueue (cpu_of s' d) <> Some p /\
      exists t, tasks s !! p = Some t /\ live_on d t /\ state t <> PROC_READY /\ state t <> PROC_CREATED)) ->
  inv h s'.
Proof.
  intros I Et Ew Er El Ec Hp Hcur.
  assert (Eq : forall d q, runq (cpu_of s' d) q = runq (cpu_of s d) q).
  { intros d q; unfold runq; by destruct (Ec d) as (-> & _). }
  assert (Hun : forall p, unqueued s p -> unqueued s' p).
  { intros p H d q Hq; unfold queued in Hq; rewrite Eq in Hq; by eapply H. }
  assert (Ek : forall k, waitq s' k = waitq s k) by (intros; unfold waitq; by rewrite Ew).
  constructor; rewrite ?Et, ?El, ?Er; try apply I.
  - intros d; destruct (Ec d) as (E1 & E2 & _), (i_rq _ _ I d) as (H1 & H2 & H3).
    split; [by rewrite E1 |]; split; [by rewrite E2 |]; intros q Hq; rewrite E2, Eq; by apply H3.
  - intros d q; rewrite Eq; apply I.
  - intros d q p Hq; unfold queued in Hq; rewrite Eq in Hq; by apply I.
  - intros d p H; destruct (Hp d p H) as [H0 | (H1 & _ & H2)]; [| auto].
    apply (i_pending _ _ I) in H0 as [H1 H2]; auto.
  - intros d p Hd H; destruct (Ec d) as (_ & _ & -> & _); destruct (Hcur d p Hd H) as [? | (H1 & H2 & H3)]; auto.
  - intros k p; rewrite Ek; intros H; destruct (i_wait _ _ I k p H) as (H1 & H2 & H3).
    split; [auto |]; split; [| done]; intros d Hd; destruct (Hp d p Hd) as [H4 | (_ & H4 & _)]; [by eapply H2 |].
    apply H4; by exists k.
  - intros k; rewrite Ek; apply I.
  - intros p t k; rewrite Ek; apply I.
  - intros d p; destruct (Ec d) as (_ & _ & _ & ->); apply I.
  - intros d e p; destruct (Ec d) as (_ & _ & _ & ->), (Ec e) as (_ & _ & _ & ->); apply I.
  - intros d p; destruct (Ec d) as (_ & _ & -> & _); apply I.
  - intros d e p; destruct (Ec d) as (_ & _ & -> & _), (Ec e) as (_ & _ & -> & _); apply I.
Qed.
