(* ===== verification/SchedTheorems.v ===== *)
(** * What the scheduler guarantees

    Every stage of [schedule], and the other operations, keep the invariant of
    SchedProofs; the theorems read off what it means: no task runs on two CPUs
    or is queued where it runs, no freed descriptor is reachable, the pick is
    by priority and then first come first served, and the focus boost is
    bounded. *)
From Stdlib Require Import ZArith Lia.
From stdpp Require Import base numbers list gmap relations.
From S2P Require Import Prelude CString ProcTab Sched SchedProofs.

(** ** The stages of [schedule] *)

(** The same descriptors exist. *)
Definition same_pids (s s' : sched) : Prop := forall r, is_Some (tasks s' !! r) <-> is_Some (tasks s !! r).

Lemma same_pids_trans s1 s2 s3 : same_pids s1 s2 -> same_pids s2 s3 -> same_pids s1 s3.
Proof. intros H1 H2 r; by rewrite (H2 r), (H1 r). Qed.

Lemma frame_pids p s s' :
  frame p s s' -> is_Some (tasks s !! p) -> is_Some (tasks s' !! p) -> same_pids s s'.
Proof.
  intros (Ht & _) H1 H2 r; destruct (decide (r = p)) as [-> |]; [done | by rewrite Ht].
Qed.

Lemma foldl_delete (l : list Z) (m : gmap Z task) r :
  foldl (fun m p => delete p m) m l !! r = if decide (r ∈ l) then None else m !! r.
Proof.
  revert m; induction l as [| p l IH]; intros m; cbn [foldl].
  { case_decide as H; [by apply not_elem_of_nil in H | done]. }
  rewrite IH; destruct (decide (r ∈ l)) as [H | H]; [by rewrite decide_True by (by right) |].
  destruct (decide (r = p)) as [-> | Hne].
  - rewrite decide_True by (by left); apply lookup_delete_eq.
  - rewrite decide_False by (rewrite elem_of_cons; tauto); by apply lookup_delete_ne.
Qed.

(** Freeing the corpses parked on a CPU loses no descriptor that is in use. *)
Lemma reap_deferred_inv s c :
  inv None s -> (c < length (cpus s))%nat -> inv None (sched_reap_deferred s c) /\
  (forall d, runqueues (cpu_of (sched_reap_deferred s c) d) = runqueues (cpu_of s d) /\
     current_task (cpu_of (sched_reap_deferred s c) d) = current_task (cpu_of s d) /\
     idle_task (cpu_of (sched_reap_deferred s c) d) = idle_task (cpu_of s d)) /\
  length (cpus (sched_reap_deferred s c)) = length (cpus s) /\
  (forall r, is_Some (tasks (sched_reap_deferred s c) !! r) -> is_Some (tasks s !! r)).
Proof.
  intros I Hc; unfold sched_reap_deferred; set (dead := deferred_free_proc (cpu_of s c)).
  set (s' := upd_cpu _ c _).
  assert (Et : forall r, tasks s' !! r = if decide (r ∈ dead) then None else tasks s !! r)
    by (intros r; apply foldl_delete).
  assert (Ecpu : forall d, cpu_of s' d = if decide (c = d) then with_deferred [] (cpu_of s c) else cpu_of s d)
    by (intros d; unfold s'; by rewrite cpu_of_upd by done).
  assert (Erest : forall d, runqueues (cpu_of s' d) = runqueues (cpu_of s d) /\
    current_task (cpu_of s' d) = current_task (cpu_of s d) /\ idle_task (cpu_of s' d) = idle_task (cpu_of s d) /\
    pending_reenqueue (cpu_of s' d) = pending_reenqueue (cpu_of s d) /\ prio_bitmap (cpu_of s' d) = prio_bitmap (cpu_of s d)).
  { intros d; rewrite Ecpu; by case_decide; subst. }
  assert (Er : forall d q, runq (cpu_of s' d) q = runq (cpu_of s d) q).
  { intros d q; unfold runq; by destruct (Erest d) as (-> & _). }
  assert (Hkeep : forall r (P : task -> Prop), (forall t, P t -> reaping t = false) ->
    (exists t, tasks s !! r = Some t /\ P t) -> exists t, tasks s' !! r = Some t /\ P t).
  { intros r P HP (t & E & Ht); exists t; rewrite Et, decide_False; [done |].
    intros H; apply (i_deferred _ _ I) in H as (t' & E' & Hr & _); simplify_eq.
    by rewrite (HP _ Ht) in Hr. }
  assert (Hun : forall p, unqueued s p -> unqueued s' p).
  { intros p H d q Hq; unfold queued in Hq; rewrite Er in Hq; by eapply H. }
  split; [| split; [| split]].
  - constructor; try apply I.
    + unfold s'; simpl; rewrite length_alter; apply I.
    + intros r t; rewrite Et; case_decide; [done | by apply I].
    + intros d; destruct (i_rq _ _ I d) as (H1 & H2 & H3), (Erest d) as (E1 & _ & _ & _ & E2).
      split; [by rewrite E1 |]; split; [by rewrite E2 |]; intros q Hq; rewrite E2, Er; by apply H3.
    + intros d q; rewrite Er; apply I.
    + intros d q r Hq; unfold queued in Hq; rewrite Er in Hq; apply Hkeep; [| by apply (i_queued _ _ I)].
      intros t ((_ & _ & H) & _); done.
    + intros d r; destruct (Erest d) as (_ & _ & _ & -> & _); intros H; apply (i_pending _ _ I) in H as [H1 H2].
      split; [auto |]; apply Hkeep; [| done]; intros t ((_ & _ & H) & _); done.
    + intros d r Hd; destruct (Erest d) as (_ & -> & -> & -> & _); intros H.
      apply (i_current _ _ I d r Hd) in H as [H | (H1 & H2 & H3)]; [by left | right].
      split; [auto |]; split; [done |]; apply Hkeep; [| done]; intros t ((_ & _ & H) & _); done.
    + intros k r H; apply (i_wait _ _ I) in H as (H1 & H2 & H3); split; [auto |]; split.
      * intros d; destruct (Erest d) as (_ & _ & _ & -> & _); apply H2.
      * apply Hkeep; [| done]; intros t (_ & H & _); done.
    + intros r t k; rewrite Et; case_decide; [done | by apply (i_wptr _ _ I)].
    + intros d r; rewrite Ecpu; case_decide as Hcd; [simpl; intros H; by apply not_elem_of_nil in H |].
      intros H; destruct (i_deferred _ _ I d r H) as (t & E & Ht); exists t; split; [| done].
      rewrite Et, decide_False; [done |]; intros Hd; by apply Hcd, (i_deferred_once _ _ I c d r).
    + intros d e r; rewrite !Ecpu; destruct (decide (c = d)), (decide (c = e)); simpl; intros H1 H2;
        try (by apply not_elem_of_nil in H1); try (by apply not_elem_of_nil in H2).
      by apply (i_deferred_once _ _ I d e r).
    + intros d r; destruct (Erest d) as (_ & _ & -> & _); intros H; apply Hkeep; [| by apply (i_idle _ _ I d)].
      intros t (_ & _ & H' & _); done.
    + intros d e r; destruct (Erest d) as (_ & _ & -> & _), (Erest e) as (_ & _ & -> & _); apply (i_idle_once _ _ I).
  - intros d; destruct (Erest d) as (? & ? & ? & _); done.
  - unfold s'; simpl; by rewrite length_alter.
  - intros r; rewrite Et; case_decide; [by intros [] | done].
Qed.

(** The current task of a CPU, as the invariant knows it. *)
Definition prev_ok (s : sched) (c : nat) (p : Z) : Prop :=
  idle_task (cpu_of s c) = Some p \/
  (unqueued s p /\ pending_reenqueue (cpu_of s c) <> Some p /\
   exists t, tasks s !! p = Some t /\ live_on c t /\ state t <> PROC_READY /\ state t <> PROC_CREATED).

(** While a CPU is scheduling, its current task is in no place but a wait
    queue. *)
Lemma prev_places s c p t :
  inv (Some c) s -> unqueued s p -> pending_reenqueue (cpu_of s c) <> Some p ->
  tasks s !! p = Some t -> live_on c t -> ~ waiting s p -> loose (Some c) s p.
Proof.
  intros I Hu Hp Et (Hc & Hpr & Hr) Hw; split; [done |]; split; [done |]; intros d; repeat split.
  - intros H; destruct (i_pending _ _ I d p H) as (_ & t' & Et' & (Hd & _) & _); simplify_eq.
    assert (d = c) as -> by lia; done.
  - intros H; destruct (i_deferred _ _ I d p H) as (t' & Et' & Hr' & _); simplify_eq; congruence.
  - intros H; destruct (i_idle _ _ I d p H) as (t' & Et' & Hi & _); simplify_eq; lia.
  - intros Hd H; destruct (i_current _ _ I d p Hd H) as [H' | (_ & _ & t' & Et' & (Hd' & _) & _)].
    + destruct (i_idle _ _ I d p H') as (t' & Et' & Hi & _); simplify_eq; lia.
    + simplify_eq; apply Hd; f_equal; lia.
Qed.

Lemma not_waiting s h p t :
  inv h s -> tasks s !! p = Some t -> state t <> PROC_SLEEPING -> state t <> PROC_STOPPED -> state t <> PROC_READY -> ~ waiting s p.
Proof.
  intros I Et H1 H2 H3 [k Hk]; apply (i_wait _ _ I) in Hk as (_ & _ & t' & Et' & _ & _ & _ & Hs).
  simplify_eq; naive_solver.
Qed.

Lemma inv_weaken s c : inv None s -> inv (Some c) s.
Proof. intros I; constructor; try apply I; intros d p _; by apply (i_current _ _ I). Qed.

Lemma close_hole s c :
  inv (Some c) s -> (forall p, current_task (cpu_of s c) = Some p -> prev_ok s c p) -> inv None s.
Proof.
  intros I H; constructor; try apply I; intros d p _; destruct (decide (d = c)) as [-> | Hd]; [apply H |].
  apply (i_current _ _ I); congruence.
Qed.

Lemma prev_ok_frame r s s' c p :
  frame r s s' -> p <> r -> pending_reenqueue (cpu_of s' c) <> Some p -> prev_ok s c p -> prev_ok s' c p.
Proof.
  intros (Ft & Fc & Fq) Hne Hp [H | (H1 & _ & t & H2 & H3)].
  - left; destruct (Fc c) as (_ & -> & _); done.
  - right; split; [intros d q Hq; apply Fq in Hq; [by eapply H1 | done] |]; split; [done |].
    exists t; by rewrite Ft.
Qed.

(** What the stages up to the pick keep. *)
Definition staged (c : nat) (s s' : sched) : Prop :=
  inv (Some c) s' /\ length (cpus s') = length (cpus s) /\ same_pids s s' /\
  pending_reenqueue (cpu_of s' c) = None /\ (forall d, idle_task (cpu_of s' d) = idle_task (cpu_of s d)).

Lemma clear_pending s c :
  inv (Some c) s -> (c < length (cpus s))%nat ->
  let s' := upd_cpu s c (with_pending None) in
  staged c s s' /\ (forall d, runqueues (cpu_of s' d) = runqueues (cpu_of s d)) /\
  (forall d, current_task (cpu_of s' d) = current_task (cpu_of s d)).
Proof.
  intros I Hc s'.
  assert (Ecpu : forall d, cpu_of s' d = if decide (c = d) then with_pending None (cpu_of s c) else cpu_of s d)
    by (intros d; unfold s'; by rewrite cpu_of_upd by done).
  assert (Erq : forall d, runqueues (cpu_of s' d) = runqueues (cpu_of s d)) by (intros d; rewrite Ecpu; by case_decide; subst).
  split; [| split; [done | intros d; rewrite Ecpu; by case_decide; subst]]; split; [| split; [by unfold s'; simpl; rewrite length_alter |]].
  - apply (inv_cpu_change _ s); try done; [by unfold s'; simpl; rewrite length_alter | | |].
    + intros d; rewrite Ecpu; by case_decide; subst.
    + intros d p; rewrite Ecpu; case_decide; [done | by left].
    + intros d p Hd; rewrite Ecpu; case_decide; [congruence |]; by apply (i_current _ _ I).
  - split; [done |]; split; [rewrite Ecpu, decide_True by done; done |].
    intros d; rewrite Ecpu; by case_decide; subst.
Qed.

(** Stage 2: the task parked by the previous [schedule] goes back to a queue, or
    to the reaper if it was killed meanwhile. *)
Lemma requeue_spec s c :
  inv (Some c) s -> (c < length (cpus s))%nat ->
  exists s', sched_requeue_pending s c = Some s' /\ staged c s s' /\
    current_task (cpu_of s' c) = current_task (cpu_of s c) /\ forall p, prev_ok s c p -> prev_ok s' c p.
Proof.
  intros I Hc; unfold sched_requeue_pending.
  destruct (pending_reenqueue (cpu_of s c)) as [pr |] eqn:Ep.
  2:{ exists s; split; [done |]; split; [| done]; split; [done |]; split; [done |]; split; [done |]; done. }
  destruct (i_pending _ _ I c pr Ep) as (Hu & t & Et & Hlive & Hst).
  destruct (clear_pending s c I Hc) as ((I1 & El1 & Ek1 & Ep1 & Ei1) & Erq1 & Ecur1).
  set (s1 := upd_cpu s c (with_pending None)) in *.
  assert (Et1 : tasks s1 !! pr = Some t) by done.
  assert (Hu1 : unqueued s1 pr) by (intros d q; unfold queued, runq; rewrite Erq1; apply Hu).
  assert (Hw1 : ~ waiting s1 pr).
  { intros [k Hk]; destruct (i_wait _ _ I k pr Hk) as (_ & H & _); by eapply H. }
  assert (L1 : loose (Some c) s1 pr).
  { eapply prev_places; [done | done | rewrite Ep1; done | done | done | done]. }
  assert (Hprev : forall s' p, frame pr s1 s' -> prev_ok s c p -> prev_ok s' c p).
  { intros s' p F Hok; assert (p <> pr).
    { intros ->; destruct Hok as [Hi0 | (_ & Hp0 & _)]; [| done].
      destruct (i_idle _ _ I c pr Hi0) as (t' & Et' & Hi & _); simplify_eq; destruct Hlive as (_ & ? & _); lia. }
    apply (prev_ok_frame pr s1 s'); [done | done | |].
    - destruct F as (_ & Fc & _); destruct (Fc c) as (_ & _ & ->); rewrite Ep1; done.
    - destruct Hok as [Hi0 | (Hu0 & Hp0 & Ht0)]; [left; by rewrite Ei1 | right].
      split; [intros d q; unfold queued, runq; rewrite Erq1; apply Hu0 |]; split; [rewrite Ep1; done | done]. }
  assert (Hfin : forall s', frame pr s1 s' -> inv (Some c) s' -> length (cpus s') = length (cpus s1) ->
    is_Some (tasks s' !! pr) -> staged c s s' /\
    current_task (cpu_of s' c) = current_task (cpu_of s c) /\ forall p, prev_ok s c p -> prev_ok s' c p).
  { intros s' F I' El' Hs'; split; [| split; [| by intros; apply Hprev]].
    - split; [done |]; split; [congruence |]; split; [apply (same_pids_trans _ s1); [done |]; eapply frame_pids; done |].
      destruct F as (_ & Fc & _); split; [destruct (Fc c) as (_ & _ & ->); done |].
      intros d; destruct (Fc d) as (_ & -> & _); apply Ei1.
    - destruct F as (_ & Fc & _); destruct (Fc c) as (-> & _); apply Ecur1. }
  destruct Hlive as (Hon & Hpr & Hre); rewrite (task_of_Some s1 pr t Et1); destruct Hst as [Hst | [Hst | Hst]].
  - rewrite Hst; cbn [is_corpse]; change (is_corpse PROC_READY) with false; cbv iota.
    destruct (enqueue_inv _ s1 pr t I1 L1 Et1 Hpr Hre) as (s' & E & I' & F & El' & _ & Etp & _);
      [by rewrite Hst | by rewrite Hst |].
    exists s'; split; [done |]; apply Hfin; [done | done | done | by eexists].
  - rewrite Hst; change (is_corpse PROC_DEAD) with true; cbv iota.
    set (s2 := upd_task s1 pr (with_on_cpu (-1))).
    assert (I2 : inv (Some c) s2) by (apply inv_loose_task; [done | done |]; intros; simpl; split; [lia | done]).
    assert (Et2 : tasks s2 !! pr = Some (with_on_cpu (-1) t)) by (unfold s2; rewrite tasks_upd, decide_True, Et1 by done; done).
    destruct (reap_push_inv _ s2 c pr (with_on_cpu (-1) t) I2) as (I3 & F3 & El3 & _ & Et3);
      [by rewrite <- El1 in Hc | done | done | done | done | by left |].
    eexists; split; [done |]; apply Hfin; [| done | by rewrite El3 | by eexists].
    destruct F3 as (A & B & C); split; [| split; [done | done]].
    intros r Hr; rewrite A by done; unfold s2; rewrite tasks_upd, decide_False by done; done.
  - unfold enqueue_task; rewrite (task_of_Some s1 pr t Et1), Hst; change (is_corpse PROC_STOPPED) with false; cbv iota.
    rewrite bool_decide_eq_true_2 by done; exists s1; split; [done |]; apply Hfin; [| done | done | by eexists].
    split; [done |]; split; [done |]; done.
Qed.

Lemma inv_no_current s c :
  inv (Some c) s -> (c < length (cpus s))%nat ->
  inv (Some c) (upd_cpu s c (with_current None)) /\
  forall d, cpu_of (upd_cpu s c (with_current None)) d = if decide (c = d) then with_current None (cpu_of s c) else cpu_of s d.
Proof.
  intros I Hc; assert (Ecpu : forall d, cpu_of (upd_cpu s c (with_current None)) d
    = if decide (c = d) then with_current None (cpu_of s c) else cpu_of s d) by (intros d; by rewrite cpu_of_upd by done).
  split; [| done]; apply (inv_cpu_change _ s); try done; [by simpl; rewrite length_alter | | |].
  - intros d; rewrite Ecpu; by case_decide; subst.
  - intros d p; rewrite Ecpu; case_decide; [subst; by left | by left].
  - intros d p Hd; rewrite Ecpu; case_decide; [congruence | by apply (i_current _ _ I)].
Qed.

(** The task leaving the CPU: reaped, or queued again when it can run, or left
    to whoever made it sleep or stop. *)
Definition retired (c : nat) (s' : sched) (p : Z) (reaped : bool) : Prop :=
  if reaped then current_task (cpu_of s' c) = None
  else current_task (cpu_of s' c) = Some p /\
    exists t, tasks s' !! p = Some t /\ state t <> PROC_RUNNING /\ state t <> PROC_DEAD /\
      (idle_task (cpu_of s' c) = Some p \/
       (live_on c t /\ (state t = PROC_READY -> queued s' c (Z.to_nat (priority t)) p))).

Lemma retire_idle s c p t :
  inv (Some c) s -> current_task (cpu_of s c) = Some p -> pending_reenqueue (cpu_of s c) = None ->
  idle_task (cpu_of s c) = Some p -> tasks s !! p = Some t ->
  exists s', sched_retire_prev s c (Some p) = Some (s', false) /\ staged c s s' /\ retired c s' p false.
Proof.
  intros I Hcur Hpend Hidle Et; destruct (i_idle _ _ I c p Hidle) as (t' & Et' & Hp & _ & _ & Hs); simplify_eq.
  unfold sched_retire_prev; rewrite (task_of_Some s p t Et).
  replace (is_corpse (state t)) with false by (destruct Hs as [-> | ->]; done).
  set (s1 := upd_task s p (with_first_run false)).
  assert (I1 : inv (Some c) s1) by (by apply inv_neutral_task).
  assert (Et1 : tasks s1 !! p = Some (with_first_run false t)) by (unfold s1; rewrite tasks_upd, decide_True, Et by done; done).
  assert (Hpids : forall f, same_pids s (upd_task s1 p f)).
  { intros f r; unfold s1; rewrite !tasks_upd; case_decide; [subst; rewrite Et; split; by eexists | done]. }
  rewrite (task_of_Some s1 p _ Et1); cbn [state with_first_run].
  destruct Hs as [Hs | Hs]; rewrite Hs.
  - rewrite (bool_decide_eq_false_2 (PROC_READY = PROC_RUNNING)) by done.
    rewrite (task_of_Some s1 p _ Et1); cbn [state with_first_run priority].
    rewrite Hs, Hp, Z.eqb_refl, andb_false_r; exists s1; split; [done |]; split.
    + split; [done |]; split; [done |]; split; [| done].
      intros r; unfold s1; rewrite tasks_upd; case_decide; [subst; rewrite Et; split; by eexists | done].
    + split; [done |]; eexists; split; [done |]; simpl; rewrite Hs; split; [done |]; split; [done | by left].
  - rewrite (bool_decide_eq_true_2 (PROC_RUNNING = PROC_RUNNING)) by done; set (s2 := upd_task s1 p spend_slice).
    assert (I2 : inv (Some c) s2) by (eapply inv_idle_update; [done | exact Hidle |]; intros u Hu _; split; [exact Hu | auto 10]).
    assert (Et2 : tasks s2 !! p = Some (spend_slice (with_first_run false t)))
      by (unfold s2; rewrite tasks_upd, decide_True, Et1 by done; done).
    rewrite (task_of_Some s2 p _ Et2); cbn [spend_slice state with_state priority with_slice with_first_run].
    rewrite Hp, Z.eqb_refl, andb_false_r; exists s2; split; [done |]; split.
    + split; [done |]; split; [done |]; split; [apply Hpids | done].
    + split; [done |]; eexists; split; [done |]; split; [done |]; split; [done | by left].
Qed.

Lemma retire_spec s c p :
  inv (Some c) s -> (c < length (cpus s))%nat -> current_task (cpu_of s c) = Some p ->
  pending_reenqueue (cpu_of s c) = None -> prev_ok s c p ->
  exists s' b, sched_retire_prev s c (Some p) = Some (s', b) /\ staged c s s' /\ retired c s' p b.
Proof.
  intros I Hc Hcur Hpend [Hidle | (Hu & _ & t & Et & Hlive & Hr & Hcr)].
  { destruct (i_idle _ _ I c p Hidle) as (t & Et & _).
    destruct (retire_idle s c p t I Hcur Hpend Hidle Et) as (s' & ?); by exists s', false. }
  assert (Hpn : pending_reenqueue (cpu_of s c) <> Some p) by (by rewrite Hpend).
  assert (Hlive' := Hlive); destruct Hlive' as (Hon & Hpr & Hre).
  unfold sched_retire_prev; rewrite (task_of_Some s p t Et); destruct (is_corpse (state t)) eqn:Ec.
  - apply bool_decide_eq_true in Ec.
    assert (L : loose (Some c) s p).
    { apply (prev_places s c p t); try done; apply (not_waiting s (Some c) p t); try done; destruct Ec as [-> | ->]; done. }
    set (s1 := upd_task s p (with_on_cpu (-1))).
    assert (I1 : inv (Some c) s1) by (apply inv_loose_task; [done | done |]; intros; simpl; split; [lia | done]).
    assert (Et1 : tasks s1 !! p = Some (with_on_cpu (-1) t)) by (unfold s1; rewrite tasks_upd, decide_True, Et by done; done).
    destruct (reap_push_inv _ s1 c p (with_on_cpu (-1) t) I1 Hc L Et1 Hre Hpr Ec) as (I2 & F2 & El2 & _ & Et2).
    destruct (inv_no_current (reap_push s1 c p) c I2) as [I3 Ecpu]; [by rewrite El2 |].
    destruct F2 as (Ft & Fc & _); eexists _, true; split; [done |]; split.
    + split; [done |]; split; [by simpl; rewrite length_alter, El2 |]; split; [| split].
      * intros r; destruct (decide (r = p)) as [-> | Hne].
        { change (tasks (upd_cpu (reap_push s1 c p) c (with_current None))) with (tasks (reap_push s1 c p)).
          rewrite Et2, Et; split; by eexists. }
        change (tasks (upd_cpu (reap_push s1 c p) c (with_current None))) with (tasks (reap_push s1 c p)).
        rewrite Ft by done; unfold s1; rewrite tasks_upd, decide_False by done; done.
      * rewrite Ecpu, decide_True by done; simpl; destruct (Fc c) as (_ & _ & ->); done.
      * intros d; rewrite Ecpu; destruct (Fc d) as (_ & E & _); case_decide; subst; done.
    + unfold retired; rewrite Ecpu, decide_True by done; done.
  - set (s1 := upd_task s p (with_first_run false)).
    assert (I1 : inv (Some c) s1) by (by apply inv_neutral_task).
    assert (Et1 : tasks s1 !! p = Some (with_first_run false t)) by (unfold s1; rewrite tasks_upd, decide_True, Et by done; done).
    assert (Hpids1 : same_pids s s1).
    { intros r; unfold s1; rewrite tasks_upd; case_decide; [subst; rewrite Et; split; by eexists | done]. }
    rewrite (task_of_Some s1 p _ Et1); cbn [state with_first_run].
    destruct (decide (state t = PROC_RUNNING)) as [Hrun | Hnrun].
    + rewrite (bool_decide_eq_true_2 (state t = PROC_RUNNING)) by done; set (s2 := upd_task s1 p spend_slice).
      assert (L : loose (Some c) s1 p).
      { apply loose_task, (prev_places s c p t); try done; apply (not_waiting s (Some c) p t); try done; by rewrite Hrun. }
      assert (I2 : inv (Some c) s2) by (apply inv_loose_task; [done | done |]; intros u Hu'; split; [by apply (i_task _ _ I1 p u) | done]).
      assert (Et2 : tasks s2 !! p = Some (spend_slice (with_first_run false t)))
        by (unfold s2; rewrite tasks_upd, decide_True, Et1 by done; done).
      rewrite (task_of_Some s2 p _ Et2); cbn [spend_slice state with_state priority with_slice with_first_run].
      rewrite bool_decide_eq_true_2 by done; destruct (Z.eqb_spec (priority t) PROC_PRIO_IDLE); [lia |]; cbn [negb andb].
      destruct (enqueue_inv _ s2 p _ I2 (loose_task _ _ _ _ _ L) Et2) as (s' & E & I' & F & El & Q & Etp & _);
        [done | done | done | done |].
      rewrite E; exists s', false; split; [done |]; destruct F as (Ft & Fc & Fq); split.
      * split; [done |]; split; [done |]; split; [| split].
        { apply (same_pids_trans _ s2); [apply (same_pids_trans _ s1); [done |]; intros r; unfold s2; rewrite tasks_upd;
            case_decide; [subst; rewrite Et1; split; by eexists | done] |].
          eapply frame_pids; [split; [exact Ft | split; done] | by eexists | by eexists]. }
        { destruct (Fc c) as (_ & _ & ->); done. }
        { intros d; destruct (Fc d) as (_ & -> & _); done. }
      * split; [destruct (Fc c) as (-> & _); done |].
        assert (Hh : home_cpu (spend_slice (with_first_run false t)) = c) by (apply home_live; done).
        rewrite Hh in *; eexists; split; [exact Etp |]; split; [done |]; split; [done | right]; split; [done |]; intros _; exact Q.
    + rewrite (bool_decide_eq_false_2 (state t = PROC_RUNNING)) by done.
      rewrite (task_of_Some s1 p _ Et1); cbn [state with_first_run priority].
      rewrite bool_decide_eq_false_2 by done; cbn [andb]; exists s1, false; split; [done |]; split.
      * split; [done |]; split; [done |]; split; [done | done].
      * split; [done |]; eexists; split; [done |]; split; [done |]; split; [| right; split; [done |]; intros H; by simpl in H].
        simpl; intros E; by rewrite E in Ec.
Qed.

(** The task about to run: taken off a queue, or the CPU's idle task. *)
Definition next_ok (s : sched) (c : nat) (next : Z) : Prop :=
  idle_task (cpu_of s c) = Some next \/
  (loose (Some c) s next /\ exists t, tasks s !! next = Some t /\ 0 <= priority t < PROC_PRIO_IDLE /\ reaping t = false).

Definition run_on (c : nat) (t : task) : task := with_on_cpu (Z.of_nat c) (with_state PROC_RUNNING t).

Lemma run_next s c next :
  inv (Some c) s -> (c < MAX_CPUS)%nat -> next_ok s c next -> current_task (cpu_of s c) = Some next ->
  pending_reenqueue (cpu_of s c) <> Some next -> inv None (upd_task s next (run_on c)).
Proof.
  intros I Hc Hn Hcur Hp; destruct Hn as [Hidle | (L & t & Et & Hpr & Hre)].
  - apply (close_hole _ c).
    + eapply inv_idle_update; [done | exact Hidle |]; intros u Hu _; simpl; split; [lia | auto 10].
    + intros p Hcur'; left; rewrite cpu_of_task in *; congruence.
  - apply (close_hole _ c); [apply inv_loose_task; [done | done |]; intros u _; simpl; split; [lia | done] |].
    intros p Hcur'; rewrite cpu_of_task in Hcur'; simplify_eq; right.
    split; [apply L |]; split; [done |]; exists (run_on c t); rewrite tasks_upd, decide_True, Et by done; done.
Qed.

(** Stage 6 when the task changes: the old one is parked, the new one current. *)
Definition park_prev (s : sched) (c : nat) (prev : option Z) : sched :=
  match prev with
  | Some p =>
    if bool_decide (state (task_of s p) = PROC_READY) && negb (priority (task_of s p) =? PROC_PRIO_IDLE)
    then upd_cpu (dequeue_task s p) c (with_pending (Some p)) else s
  | None => s
  end.

Lemma park_prev_spec s c prev next :
  inv (Some c) s -> (c < length (cpus s))%nat -> pending_reenqueue (cpu_of s c) = None ->
  next_ok s c next -> prev <> Some next ->
  (forall p, prev = Some p -> exists t, tasks s !! p = Some t /\
     (idle_task (cpu_of s c) = Some p \/
      (live_on c t /\ (state t = PROC_READY -> queued s c (Z.to_nat (priority t)) p)))) ->
  inv (Some c) (park_prev s c prev) /\ length (cpus (park_prev s c prev)) = length (cpus s) /\
  next_ok (park_prev s c prev) c next /\ pending_reenqueue (cpu_of (park_prev s c prev) c) <> Some next /\
  tasks (park_prev s c prev) = tasks s.
Proof.
  intros I Hc Hpend Hn Hne Hprev; unfold park_prev.
  assert (Hsame : inv (Some c) s /\ length (cpus s) = length (cpus s) /\ next_ok s c next /\
    pending_reenqueue (cpu_of s c) <> Some next /\ tasks s = tasks s) by (rewrite Hpend; done).
  destruct prev as [p |]; [| done]; destruct (Hprev p eq_refl) as (t & Et & Hp).
  rewrite (task_of_Some s p t Et); destruct (bool_decide_reflect (state t = PROC_READY)) as [Hr |]; [| done].
  destruct (Z.eqb_spec (priority t) PROC_PRIO_IDLE) as [| Hni]; [done |]; cbn [negb andb].
  destruct Hp as [Hi | [Hlive Hq]].
  { destruct (i_idle _ _ I c p Hi) as (t' & Et' & Hpi & _); simplify_eq. }
  specialize (Hq Hr); rewrite (dequeue_pull s p t c Et Hlive).
  destruct (pull_task_inv _ s p c _ I Hq Hc) as (I1 & R1 & L1 & _ & Q1).
  set (s1 := pull_task s p c _) in *; destruct R1 as (Rt & Rl & Rw & Rr & Rc).
  assert (Hc1 : (c < length (cpus s1))%nat) by (by rewrite Rl).
  set (s2 := upd_cpu s1 c (with_pending (Some p))).
  assert (Ecpu : forall d, cpu_of s2 d = if decide (c = d) then with_pending (Some p) (cpu_of s1 c) else cpu_of s1 d)
    by (intros d; unfold s2; by rewrite cpu_of_upd by done).
  split; [| split; [unfold s2, upd_cpu; cbn [cpus set_cpus]; by rewrite length_alter |]; split; [| split; [| done]]].
  - apply (inv_cpu_change _ s1); try done; [by unfold s2; simpl; rewrite length_alter | | |].
    + intros d; rewrite Ecpu; by case_decide; subst.
    + intros d r; rewrite Ecpu; case_decide; [subst; simpl; intros [= <-]; right | by left].
      split; [apply L1 |]; split; [apply L1 |]; exists t; split; [by rewrite <- Et, <- Rt |]; split; [done | by left].
    + intros d r Hd; rewrite Ecpu; case_decide; [congruence | by apply (i_current _ _ I1)].
  - destruct Hn as [Hi | (L & u & Eu & Hu)]; [left | right].
    + rewrite Ecpu, decide_True by done; simpl; destruct (Rc c) as (_ & -> & _); done.
    + split; [| exists u; split; [by rewrite <- Eu, <- Rt | done]].
      assert (Ls : loose (Some c) s1 next).
      { apply (loose_rq _ s); [done | done |]; intros d q [H _]%Q1; destruct L as [Lq _]; by eapply Lq. }
      destruct Ls as (A & B & C); split; [intros d q Hd; unfold queued in Hd; rewrite Ecpu in Hd; case_decide; exact (A _ _ Hd) |].
      split; [done |]; intros d; rewrite Ecpu; case_decide; [subst | apply C].
      destruct (C d) as (_ & C2 & C3 & C4); split; [simpl; congruence | done].
  - rewrite Ecpu, decide_True by done; simpl; congruence.
Qed.

Lemma switch_spec s c prev next :
  inv (Some c) s -> (c < length (cpus s))%nat -> pending_reenqueue (cpu_of s c) = None ->
  current_task (cpu_of s c) = prev -> next_ok s c next ->
  (forall p, prev = Some p -> exists t, tasks s !! p = Some t /\
     (idle_task (cpu_of s c) = Some p \/
      (live_on c t /\ (state t = PROC_READY -> p <> next -> queued s c (Z.to_nat (priority t)) p)))) ->
  inv None (sched_switch s c prev next) /\ current_task (cpu_of (sched_switch s c prev next) c) = Some next /\
  exists t, tasks (sched_switch s c prev next) !! next = Some t /\ state t = PROC_RUNNING /\ on_cpu t = Z.of_nat c.
Proof.
  intros I Hc Hpend Hcur Hn Hprev; assert (Hc' : (c < MAX_CPUS)%nat) by (by rewrite <- (i_len _ _ I)).
  assert (Hex : forall s1, tasks s1 = tasks s -> exists t, tasks (upd_task s1 next (run_on c)) !! next = Some t /\
    state t = PROC_RUNNING /\ on_cpu t = Z.of_nat c).
  { intros s1 E1; assert (exists t, tasks s !! next = Some t) as [t Et].
    { destruct Hn as [Hi | (_ & t & Et & _)]; [| eauto]; destruct (i_idle _ _ I c next Hi) as (t & Et & _); eauto. }
    exists (run_on c t); rewrite tasks_upd, decide_True, E1, Et by done; done. }
  unfold sched_switch; destruct (bool_decide_reflect (prev = Some next)) as [-> | Hne].
  - split; [apply run_next; [done | done | done | done | by rewrite Hpend] |]; split; [done | by apply Hex].
  - fold (park_prev s c prev).
    destruct (park_prev_spec s c prev next I Hc Hpend Hn Hne) as (I1 & El & Hn1 & Hp1 & Et1).
    { intros p Hp; destruct (Hprev p Hp) as (t & Et & H); exists t; split; [done |].
      destruct H as [? | [? H]]; [by left | right; split; [done |]]; intros Hr; apply H; [done | congruence]. }
    set (s1 := park_prev s c prev) in *; assert (Hc1 : (c < length (cpus s1))%nat) by (by rewrite El).
    set (s2 := upd_cpu s1 c (with_current (Some next))).
    assert (Ecpu : forall d, cpu_of s2 d = if decide (c = d) then with_current (Some next) (cpu_of s1 c) else cpu_of s1 d)
      by (intros d; unfold s2; by rewrite cpu_of_upd by done).
    assert (I2 : inv (Some c) s2).
    { apply (inv_cpu_change _ s1); try done; [by unfold s2; simpl; rewrite length_alter | | |].
      - intros d; rewrite Ecpu; by case_decide; subst.
      - intros d r; rewrite Ecpu; case_decide; [subst; by left | by left].
      - intros d r Hd; rewrite Ecpu; case_decide; [congruence | by apply (i_current _ _ I1)]. }
    change (inv None (upd_task s2 next (run_on c)) /\ current_task (cpu_of (upd_task s2 next (run_on c)) c) = Some next /\
      exists t, tasks (upd_task s2 next (run_on c)) !! next = Some t /\ state t = PROC_RUNNING /\ on_cpu t = Z.of_nat c).
    assert (Hcur2 : current_task (cpu_of s2 c) = Some next) by (rewrite Ecpu, decide_True by done; done).
    split; [| split; [done | by apply Hex]].
    apply run_next; [done | done | | done | rewrite Ecpu, decide_True by done; done].
    destruct Hn1 as [Hi | (L & t & Ht)]; [left; rewrite Ecpu, decide_True by done; done | right; split; [| by exists t]].
    destruct L as (A & B & C); split; [intros d q Hd; unfold queued in Hd; rewrite Ecpu in Hd; case_decide; exact (A _ _ Hd) |].
    split; [done |]; intros d; rewrite Ecpu; case_decide; [subst | apply C].
    destruct (C d) as (C1 & C2 & C3 & C4); split; [done |]; split; [done |]; split; [done | congruence].
Qed.

(** Stage 1 changes nothing the invariant speaks of. *)
Lemma account_inv s c prev now :
  inv None s -> (c < length (cpus s))%nat ->
  let s' := sched_account_time s c prev now in
  inv None s' /\ length (cpus s') = length (cpus s) /\ same_pids s s' /\
  forall d, runqueues (cpu_of s' d) = runqueues (cpu_of s d) /\ idle_task (cpu_of s' d) = idle_task (cpu_of s d) /\
    current_task (cpu_of s' d) = current_task (cpu_of s d).
Proof.
  intros I Hc s'; unfold s', sched_account_time.
  assert (Hrun : forall s1, inv None s1 -> (c < length (cpus s1))%nat ->
    inv None (upd_cpu s1 c (with_run_count now)) /\ length (cpus (upd_cpu s1 c (with_run_count now))) = length (cpus s1) /\
    forall d, runqueues (cpu_of (upd_cpu s1 c (with_run_count now)) d) = runqueues (cpu_of s1 d) /\
      idle_task (cpu_of (upd_cpu s1 c (with_run_count now)) d) = idle_task (cpu_of s1 d) /\
      current_task (cpu_of (upd_cpu s1 c (with_run_count now)) d) = current_task (cpu_of s1 d)).
  { intros s1 I1 Hc1.
    assert (Ecpu : forall d, cpu_of (upd_cpu s1 c (with_run_count now)) d
      = if decide (c = d) then with_run_count now (cpu_of s1 c) else cpu_of s1 d) by (intros d; by rewrite cpu_of_upd by done).
    split; [| split; [by simpl; rewrite length_alter | intros d; rewrite Ecpu; by case_decide; subst]].
    apply (inv_cpu_change _ s1); try done; [by simpl; rewrite length_alter | | |].
    - intros d; rewrite Ecpu; by case_decide; subst.
    - intros d r; rewrite Ecpu; case_decide; [subst; by left | by left].
    - intros d r Hd; rewrite Ecpu; case_decide; [subst | by apply (i_current _ _ I1)].
      by apply (i_current _ _ I1). }
  destruct prev as [p |]; [destruct (_ =? 0) |].
  1, 3: destruct (Hrun s I Hc) as (H1 & H2 & H3); done.
  set (f := fun t => _); assert (I1 : inv None (upd_task s p f)) by (by apply inv_neutral_task).
  destruct (Hrun (upd_task s p f) I1 Hc) as (H1 & H2 & H3); split; [done |]; split; [done |]; split; [| done].
  intros r; change (tasks (upd_cpu (upd_task s p f) c (with_run_count now))) with (tasks (upd_task s p f)).
  rewrite tasks_upd; case_decide; subst; [by rewrite fmap_is_Some | done].
Qed.

(** The idle task is never queued, so the queues hold less than the table. *)
Lemma queue_set_small h s c i n :
  inv h s -> idle_task (cpu_of s c) = Some i -> (size (tasks s) <= n)%nat -> (size (queue_set s c) < n)%nat.
Proof.
  intros I Hi Hn; destruct (i_idle _ _ I c i Hi) as (t & Et & Hp & _).
  assert (Hsub : queue_set s c ∪ {[i]} ⊆ dom (tasks s)).
  { apply union_subseteq; split; [| by apply singleton_subseteq_l, elem_of_dom].
    intros p [q Hq]%elem_of_queue_set; apply (i_queued _ _ I) in Hq as (u & Eu & _); by apply elem_of_dom. }
  assert (Hnot : i ∉ queue_set s c).
  { intros [q Hq]%elem_of_queue_set; apply (i_queued _ _ I) in Hq as (u & Eu & (_ & Hu & _) & _); simplify_eq; lia. }
  apply subseteq_size in Hsub; rewrite size_union, size_singleton, size_dom in Hsub by set_solver; lia.
Qed.

Lemma pids_size s s' : (forall r, is_Some (tasks s' !! r) -> is_Some (tasks s !! r)) -> (size (tasks s') <= size (tasks s))%nat.
Proof.
  intros H; rewrite <- !size_dom; apply subseteq_size; intros r Hr; apply elem_of_dom, H, elem_of_dom; done.
Qed.

(** The stages before the pick, together. *)
Lemma schedule_front s c now :
  inv None s -> (c < length (cpus s))%nat ->
  let s1 := sched_reap_deferred s c in
  let prev := current_task (cpu_of s1 c) in
  exists s2 s3 b, sched_requeue_pending (sched_account_time s1 c prev now) c = Some s2 /\
    sched_retire_prev s2 c prev = Some (s3, b) /\
    inv (Some c) s3 /\ length (cpus s3) = length (cpus s) /\ (size (tasks s3) <= size (tasks s))%nat /\
    pending_reenqueue (cpu_of s3 c) = None /\ idle_task (cpu_of s3 c) = idle_task (cpu_of s c) /\
    match prev with Some p => retired c s3 p b | None => b = false /\ current_task (cpu_of s3 c) = None end.
Proof.
  intros I Hc s1 prev; destruct (reap_deferred_inv s c I Hc) as (I1 & E1 & El1 & Ht1); fold s1 in I1, E1, El1, Ht1.
  assert (Hc1 : (c < length (cpus s1))%nat) by (by rewrite El1).
  destruct (account_inv s1 c prev now I1 Hc1) as (I2 & El2 & Hp2 & E2); set (sa := sched_account_time s1 c prev now) in *.
  assert (Hc2 : (c < length (cpus sa))%nat) by (by rewrite El2).
  destruct (requeue_spec sa c (inv_weaken _ c I2) Hc2) as (s2 & Er & (I3 & El3 & Hp3 & Hn3 & Ei3) & Ecur3 & Hok).
  destruct (E2 c) as (_ & Ei2 & Ecur2); destruct (E1 c) as (_ & _ & Ei1).
  assert (Hcur : current_task (cpu_of s2 c) = prev) by (etrans; [exact Ecur3 | exact Ecur2]).
  assert (Hsz : forall s3, same_pids s2 s3 -> (size (tasks s3) <= size (tasks s))%nat).
  { intros s3 H3; apply pids_size; intros r Hr; apply Ht1, Hp2, Hp3, H3; done. }
  destruct prev as [p |] eqn:Eprev.
  - destruct (retire_spec s2 c p) as (s3 & b & E3 & (I4 & El4 & Hp4 & Hn4 & Ei4) & Hret);
      [done | by rewrite El3 | done | done | |].
    { apply Hok; apply (i_current _ _ I2); [done | congruence]. }
    exists s2, s3, b; split; [done |]; split; [done |]; split; [done |]; split; [congruence |].
    split; [by apply Hsz |]; split; [done |]; split; [rewrite Ei4, Ei3, Ei2, Ei1; done | done].
  - exists s2, s2, false; split; [done |]; split; [done |]; split; [done |]; split; [congruence |].
    split; [by apply Hsz |]; split; [done |]; split; [rewrite Ei3, Ei2, Ei1; done | done].
Qed.

(** What [schedule] comes to on CPU [c]. *)
Definition scheduled (c : nat) (s' : sched) : Prop :=
  inv None s' /\ exists next t, current_task (cpu_of s' c) = Some next /\
    tasks s' !! next = Some t /\ state t = PROC_RUNNING /\ on_cpu t = Z.of_nat c.

Lemma switch_scheduled s c prev next :
  inv (Some c) s -> (c < length (cpus s))%nat -> pending_reenqueue (cpu_of s c) = None ->
  current_task (cpu_of s c) = prev -> next_ok s c next ->
  (forall p, prev = Some p -> exists t, tasks s !! p = Some t /\
     (idle_task (cpu_of s c) = Some p \/
      (live_on c t /\ (state t = PROC_READY -> p <> next -> queued s c (Z.to_nat (priority t)) p)))) ->
  scheduled c (sched_switch s c prev next).
Proof. intros; destruct (switch_spec s c prev next) as (? & ? & t & ?); try done; split; [done |]; by exists next, t. Qed.

Lemma schedule_spec trylock focus now s c i :
  inv None s -> (c < MAX_CPUS)%nat -> idle_task (cpu_of s c) = Some i -> (size (tasks s) <= MAX_PROCESSES)%nat ->
  exists s', schedule trylock focus now s c = Some s' /\ scheduled c s'.
Proof.
  intros I Hc Hidle Hsize; assert (Hcl : (c < length (cpus s))%nat) by (by rewrite (i_len _ _ I)).
  destruct (schedule_front s c now I Hcl) as (s2 & s3 & b & E2 & E3 & I3 & El3 & Hsz3 & Hn3 & Ei3 & Hret).
  unfold schedule; set (prev := current_task (cpu_of (sched_reap_deferred s c) c)) in *; rewrite E2, E3.
  rewrite Hidle in Ei3; assert (Hc3 : (c < length (cpus s3))%nat) by (by rewrite El3).
  destruct (pick_local_spec MAX_PROCESSES s3 c focus I3 Hc3) as (s4 & r & E4 & I4 & (El4 & Ec4 & Et4 & Eq4 & Hr)).
  { eapply queue_set_small; [done | done | lia]. }
  unfold sched_pick_local; rewrite E4; destruct (Ec4 c) as (Ecur4 & Eidle4 & Epend4).
  assert (Hc4 : (c < length (cpus s4))%nat) by (by rewrite El4).
  set (prev' := if b then None else prev).
  assert (Hcur3 : current_task (cpu_of s3 c) = prev').
  { unfold prev'; destruct prev as [p |]; [destruct b; [done | by destruct Hret] | by destruct Hret as [-> ?]]. }
  assert (Hp3 : forall p, prev' = Some p -> exists t, tasks s3 !! p = Some t /\ state t <> PROC_RUNNING /\
    state t <> PROC_DEAD /\ (idle_task (cpu_of s3 c) = Some p \/
      (live_on c t /\ (state t = PROC_READY -> queued s3 c (Z.to_nat (priority t)) p)))).
  { unfold prev'; intros p Hp; destruct prev as [q |]; [| by destruct b]; destruct b; [done |]; simplify_eq.
    destruct Hret as (_ & t & ?); by exists t. }
  destruct r as [next |].
  - destruct Hr as (Ln & t & Et & Hlive & _); eexists; split; [done |].
    apply switch_scheduled; [done | done | by rewrite Epend4 | by rewrite Ecur4 | |].
    { right; split; [done |]; exists t; split; [done |]; destruct Hlive as (_ & ? & ?); done. }
    intros p Hp; destruct (Hp3 p Hp) as (u & Eu & _ & Hd & Hu); exists u; split; [by apply Et4 |].
    destruct Hu as [? | [Hl Hq]]; [left; by rewrite Eidle4 | right; split; [done |]].
    intros Hrd Hne; apply (Eq4 c _ p u); [by apply Hq | done | done | congruence].
  - pose proof (steal_spec trylock s4 c (seq 0 MAX_CPUS) I4) as Hs; unfold sched_steal_work.
    destruct (steal_work trylock s4 c (seq 0 MAX_CPUS)) as [s5 [next |]].
    + destruct Hs as (j & q & t & Hj & Hq & I5 & (Rt & Rl & _ & _ & Rc) & L5 & Q5 & Et & Hlive & _).
      destruct (Rc c) as (Ecur5 & Eidle5 & _ & Epend5); eexists; split; [done |].
      apply switch_scheduled; [done | by rewrite Rl | by rewrite Epend5, Epend4 | by rewrite Ecur5, Ecur4 | |].
      { right; split; [done |]; exists t; rewrite Rt; split; [done |]; destruct Hlive as (_ & ? & ?); done. }
      intros p Hp; destruct (Hp3 p Hp) as (u & Eu & _ & Hd & Hu); exists u; rewrite Rt; split; [by apply Et4 |].
      destruct Hu as [? | [Hl Hqp]]; [left; by rewrite Eidle5, Eidle4 | right; split; [done |]].
      intros Hrd Hne; apply Q5; split; [| done]; apply (Eq4 c _ p u); [by apply Hqp | done | done | done].
    + subst s5.
      replace (match prev' with Some p => bool_decide (state (task_of s4 p) = PROC_RUNNING) | None => false end) with false.
      2:{ destruct prev' as [p |]; [| done]; destruct (Hp3 p eq_refl) as (u & Eu & Hnr & Hd & _).
          rewrite (task_of_Some s4 p u) by (by apply Et4); symmetry; by apply bool_decide_eq_false. }
      rewrite Eidle4, Ei3; eexists; split; [done |].
      apply switch_scheduled; [done | done | by rewrite Epend4 | by rewrite Ecur4 | left; by rewrite Eidle4, Ei3 |].
      intros p Hp; destruct (Hp3 p Hp) as (u & Eu & _ & Hd & Hu); exists u; split; [by apply Et4 |].
      destruct Hu as [? | [Hl Hq]]; [left; by rewrite Eidle4 | right; split; [done |]].
      intros Hrd Hne; apply (Eq4 c _ p u); [by apply Hq | done | done | done].
Qed.

(** ** The other operations *)

(** A change of state that suits every place the process is in. *)
Lemma inv_set_state h s p t st :
  inv h s -> tasks s !! p = Some t ->
  (forall c q, queued s c q p -> runnable_state st) ->
  (forall c, pending_reenqueue (cpu_of s c) = Some p -> runnable_state st) ->
  (forall c, h <> Some c -> current_task (cpu_of s c) = Some p -> st <> PROC_READY /\ st <> PROC_CREATED) ->
  (waiting s p -> st = PROC_SLEEPING \/ st = PROC_STOPPED \/ st = PROC_READY) ->
  (forall c, ~ p ∈ deferred_free_proc (cpu_of s c)) -> (forall c, idle_task (cpu_of s c) <> Some p) ->
  inv h (upd_task s p (with_state st)).
Proof.
  intros I Et Hq Hp Hc Hw Hd Hi.
  assert (Hback : forall r (P : task -> Prop), (r = p -> P t -> P (with_state st t)) ->
    (exists u, tasks s !! r = Some u /\ P u) -> exists u, tasks (upd_task s p (with_state st)) !! r = Some u /\ P u).
  { intros r P HP (u & Eu & Hu); rewrite tasks_upd; case_decide; [subst; rewrite Eu; simplify_eq | rewrite Eu]; eauto. }
  constructor; try apply I.
  - intros r u; rewrite tasks_upd; case_decide; [subst | by apply I].
    intros (u' & E & ->)%fmap_Some; exact (i_task _ _ I r u' E).
  - intros c q r Hr; apply Hback; [| by apply I]; intros -> (H1 & H2 & _); eauto.
  - intros c r Hr; destruct (i_pending _ _ I c r Hr) as [H1 H2]; split; [done |]; apply Hback; [| done].
    intros -> (H3 & _); eauto.
  - intros c r Hh Hr; destruct (i_current _ _ I c r Hh Hr) as [H | (H1 & H2 & H3)]; [by left | right].
    split; [done |]; split; [done |]; apply Hback; [| done]; intros -> (H4 & _); split; [done |]; by eapply Hc.
  - intros k r Hr; destruct (i_wait _ _ I k r Hr) as (H1 & H2 & H3); split; [done |]; split; [done |].
    apply Hback; [| done]; intros -> (H4 & H5 & H6 & _); split; [done |]; split; [done |]; split; [done |].
    apply Hw; by exists k.
  - intros r u k; rewrite tasks_upd; case_decide; [subst | by apply I].
    intros (u' & E & ->)%fmap_Some Hk; exact (i_wptr _ _ I r u' k E Hk).
  - intros c r Hr; apply Hback; [| by apply (i_deferred _ _ I c)]; intros ->; by destruct (Hd c).
  - intros c r Hr; apply Hback; [| by apply (i_idle _ _ I c)]; intros ->; by destruct (Hi c).
Qed.

(** A live process that is not a corpse and not a machine process: neither
    parked for freeing nor an idle task. *)
Lemma ordinary_places h s p t :
  inv h s -> tasks s !! p = Some t -> machine t = false -> is_corpse (state t) = false ->
  (forall c, ~ p ∈ deferred_free_proc (cpu_of s c)) /\ (forall c, idle_task (cpu_of s c) <> Some p).
Proof.
  intros I Et Hm Hc; split; intros c H.
  - destruct (i_deferred _ _ I c p H) as (u & Eu & _ & _ & Hs); simplify_eq; by destruct Hs as [E | E]; rewrite E in Hc.
  - destruct (i_idle _ _ I c p H) as (u & Eu & _ & Hmu & _); simplify_eq; congruence.
Qed.

Lemma stop_inv s p : inv None s -> inv None (fst (process_stop s p)).
Proof.
  intros I; unfold process_stop; destruct (tasks s !! p) as [t |] eqn:Et; [| done].
  destruct (machine t) eqn:Em; [done |].
  destruct (bool_decide_reflect (state t = PROC_RUNNING \/ state t = PROC_READY \/ state t = PROC_SLEEPING)) as [Hs |]; [| done].
  assert (Hc : is_corpse (state t) = false) by (destruct Hs as [-> | [-> | ->]]; done).
  destruct (ordinary_places _ s p t I Et Em Hc) as [Hd Hi].
  simpl; apply (inv_set_state _ s p t); try done; intros; unfold runnable_state; auto.
Qed.

(** Taking a sleeper off its wait queue. *)
Definition unwait (s : sched) (p : Z) : sched := upd_task (unlink s p) p (with_wait None).

Lemma unwait_spec h s p t k :
  inv h s -> p ∈ waitq s k -> tasks s !! p = Some t ->
  inv h (unwait s p) /\ ~ waiting (unwait s p) p /\ tasks (unwait s p) !! p = Some (with_wait None t) /\
  length (cpus (unwait s p)) = length (cpus s) /\ rr_cpu (unwait s p) = rr_cpu s /\
  (forall d, cpu_of (unwait s p) d = cpu_of s d).
Proof.
  intros I Hw Et; destruct (i_wait _ _ I k p Hw) as (Hu & Hp & _); unfold unwait.
  assert (Ecpu : forall d, cpu_of (unlink s p) d = cpu_of s d).
  { intros d; rewrite cpu_of_unlink; assert (E : without p <$> runqueues (cpu_of s d) = runqueues (cpu_of s d)).
    - apply list_eq; intros q; rewrite list_lookup_fmap.
      destruct (runqueues (cpu_of s d) !! q) as [l |] eqn:El; [| done]; simpl; f_equal; apply without_notin.
      intros Hl; apply (Hu d q); unfold queued, runq; by rewrite El.
    - rewrite E; by destruct (cpu_of s d). }
  set (s' := upd_task (unlink s p) p (with_wait None)).
  assert (Ecpu' : forall d, cpu_of s' d = cpu_of s d) by done.
  assert (Ew : forall j, waitq s' j = without p (waitq s j)) by (intros j; apply waitq_unlink).
  assert (Et' : tasks s' !! p = Some (with_wait None t)).
  { unfold s'; rewrite tasks_upd, decide_True by done; change (tasks (unlink s p)) with (tasks s); by rewrite Et. }
  assert (Hback : forall r (P : task -> Prop), (r = p -> forall u, P u -> P (with_wait None u)) ->
    (exists u, tasks s !! r = Some u /\ P u) -> exists u, tasks s' !! r = Some u /\ P u).
  { intros r P HP (u & Eu & Hu'); unfold s'; rewrite tasks_upd; change (tasks (unlink s p)) with (tasks s).
    case_decide; [subst; rewrite Eu; simplify_eq | rewrite Eu]; simpl; eauto. }
  assert (Hun : forall r, unqueued s r -> unqueued s' r).
  { intros r H d q Hq; unfold queued in Hq; rewrite Ecpu' in Hq; by eapply H. }
  split; [| split; [intros [j Hj]; rewrite Ew in Hj; by apply elem_of_without in Hj as [_ ?] |]];
    [| split; [done |]; split; [by simpl; rewrite length_fmap | done]].
  constructor; try apply I.
  - unfold s'; simpl; rewrite length_fmap; apply I.
  - intros r u; unfold s'; rewrite tasks_upd; change (tasks (unlink s p)) with (tasks s); case_decide; [subst | by apply I].
    intros (u' & E & ->)%fmap_Some; exact (i_task _ _ I r u' E).
  - intros d; rewrite Ecpu'; apply I.
  - intros d q; rewrite Ecpu'; apply I.
  - intros d q r Hq; unfold queued in Hq; rewrite Ecpu' in Hq; apply Hback; [done | by apply (i_queued _ _ I)].
  - intros d r; rewrite Ecpu'; intros H; apply (i_pending _ _ I) in H as [H1 H2]; split; [auto |]; by apply Hback.
  - intros d r Hd; rewrite Ecpu'; intros H; apply (i_current _ _ I d r Hd) in H as [H | (H1 & H2 & H3)]; [by left | right].
    split; [auto |]; split; [done |]; by apply Hback.
  - intros j r; rewrite Ew; intros [Hr Hne]%elem_of_without; apply (i_wait _ _ I) in Hr as (H1 & H2 & H3).
    split; [auto |]; split; [intros d; rewrite Ecpu'; apply H2 |]; apply Hback; [done | done].
  - intros j; rewrite Ew; apply NoDup_filter, I.
  - intros r u j; unfold s' at 1; rewrite tasks_upd; change (tasks (unlink s p)) with (tasks s); case_decide as Hd.
    + intros (u' & E & ->)%fmap_Some; done.
    + intros E Hj; rewrite Ew; apply elem_of_without; split; [by eapply (i_wptr _ _ I) | congruence].
  - intros d r; rewrite Ecpu'; intros H; apply Hback; [done | by apply (i_deferred _ _ I d)].
  - intros d e r; rewrite !Ecpu'; apply (i_deferred_once _ _ I).
  - intros d r; rewrite Ecpu'; intros H; apply Hback; [done | by apply (i_idle _ _ I d)].
  - intros d e r; rewrite !Ecpu'; apply (i_idle_once _ _ I).
Qed.

(** The kernel stack of the process is in use by some CPU. *)
Definition in_flight (s : sched) (p : Z) : Prop :=
  exists c, current_task (cpu_of s c) = Some p \/ pending_reenqueue (cpu_of s c) = Some p.

Lemma loose_parked s p t :
  inv None s -> tasks s !! p = Some t -> unqueued s p -> ~ waiting s p -> ~ in_flight s p ->
  (forall c, ~ p ∈ deferred_free_proc (cpu_of s c)) -> (forall c, idle_task (cpu_of s c) <> Some p) -> loose None s p.
Proof.
  intros I Et Hu Hw Hf Hd Hi; split; [done |]; split; [done |]; intros c; split; [| split; [done |]; split; [done |]].
  - intros H; apply Hf; exists c; by right.
  - intros _ H; apply Hf; exists c; by left.
Qed.

Lemma inv_delete s p : inv None s -> loose None s p -> inv None (set_tasks s (delete p (tasks s))).
Proof.
  intros I (Lq & Lw & L).
  assert (Hne : forall r, r <> p -> delete p (tasks s) !! r = tasks s !! r) by (intros; by apply lookup_delete_ne).
  constructor; try apply I; cbn [tasks set_tasks].
  - intros r t [_ H]%lookup_delete_Some; by apply I in H.
  - intros c q r Hr; rewrite Hne by (intros ->; by eapply Lq); by apply I.
  - intros c r Hr; rewrite Hne by (intros ->; not_loose L c); by apply I.
  - intros c r Hc Hr; rewrite Hne by (intros ->; not_loose L c); by apply I.
  - intros k r Hr; rewrite Hne by (intros ->; apply Lw; by exists k); by apply I.
  - intros r t k [_ H]%lookup_delete_Some; by apply I.
  - intros c r Hr; rewrite Hne by (intros ->; not_loose L c); by apply (i_deferred _ _ I c).
  - intros c r Hr; rewrite Hne by (intros ->; not_loose L c); by apply (i_idle _ _ I c).
Qed.

Lemma still_current_spec s p : still_current s p = true <-> exists c, current_task (cpu_of s c) = Some p.
Proof.
  unfold still_current; rewrite existsb_exists; split.
  - intros (x & Hx & Hp%bool_decide_eq_true); apply list_elem_of_In, list_elem_of_lookup in Hx as [c Hc].
    exists c; unfold cpu_of; by rewrite Hc.
  - intros (c & Hc); unfold cpu_of in Hc; destruct (cpus s !! c) as [x |] eqn:E; [| done].
    exists x; split; [by eapply list_elem_of_In, list_elem_of_lookup_2 | by apply bool_decide_eq_true].
Qed.

(** Marking dead a process that has been taken off its wait queue. *)
Lemma mark_dead_inv s p t :
  inv None s -> tasks s !! p = Some t -> machine t = false -> is_corpse (state t) = false -> ~ waiting s p ->
  inv None (upd_task s p (with_state PROC_DEAD)).
Proof.
  intros I Et Hm Hc Hw; destruct (ordinary_places _ s p t I Et Hm Hc) as [Hd Hi].
  apply (inv_set_state _ s p t); try done; intros; unfold runnable_state; auto.
Qed.

(** [process_terminate], for a caller that is not itself on a wait queue and a
    victim that is not stopped while a CPU or a runqueue still has it. *)
Definition kill_ok (s : sched) (c : nat) (p : Z) : Prop :=
  forall t, tasks s !! p = Some t ->
    (current_task (cpu_of s c) = Some p -> ~ waiting s p) /\
    (state t = PROC_STOPPED -> unqueued s p /\ ~ in_flight s p).

(** The last part of [process_terminate], after the wait queue. *)
Lemma terminate_tail s p t :
  inv None s -> tasks s !! p = Some t -> machine t = false -> is_corpse (state t) = false -> state t <> PROC_CREATED ->
  ~ waiting s p -> (state t = PROC_STOPPED -> unqueued s p /\ ~ in_flight s p) ->
  let s' := upd_task s p (with_state PROC_DEAD) in
  inv None s' /\ (state t <> PROC_READY -> state t <> PROC_RUNNING -> still_current s' p = false ->
    inv None (set_tasks s' (delete p (tasks s')))).
Proof.
  intros I Et Hm Hc Hcr Hw Hst s'; assert (I' : inv None s') by (by eapply mark_dead_inv); split; [done |].
  intros Hr Hrun Hcur; destruct (ordinary_places _ s p t I Et Hm Hc) as [Hd Hi].
  assert (Hsl : state t = PROC_SLEEPING \/ state t = PROC_STOPPED) by (by destruct (state t); auto).
  apply inv_delete; [done |].
  assert (Hncur : forall c, current_task (cpu_of s c) <> Some p).
  { intros c H; assert (still_current s' p = true) by (apply still_current_spec; by exists c); congruence. }
  assert (L : loose None s p); [| done].
  destruct Hsl as [Hsl | Hsl].
  - split; [| split; [done |]; intros c; split; [| by auto]].
    + intros c q Hq; apply (i_queued _ _ I) in Hq as (u & Eu & _ & _ & Hu); simplify_eq.
      unfold runnable_state in Hu; rewrite Hsl in Hu; naive_solver.
    + intros H; apply (i_pending _ _ I) in H as (_ & u & Eu & _ & Hu); simplify_eq.
      unfold runnable_state in Hu; rewrite Hsl in Hu; naive_solver.
  - destruct (Hst Hsl) as [Hu Hf]; by eapply loose_parked.
Qed.

Lemma terminate_inv s c p : inv None s -> kill_ok s c p -> inv None (fst (process_terminate s c p)).
Proof.
  intros I Hk; unfold process_terminate; destruct (tasks s !! p) as [t |] eqn:Et; [| done].
  destruct (machine t) eqn:Em; [done |]; destruct (is_corpse (state t)) eqn:Ec; [done |].
  destruct (ordinary_places _ s p t I Et Em Ec) as [Hd Hi]; destruct (Hk t Et) as [Hk1 Hk2].
  destruct (bool_decide_reflect (current_task (cpu_of s c) = Some p)) as [Hcur | _].
  { destruct (i_current _ _ I c p ltac:(done) Hcur) as [H | (Hu & Hp & u & Eu & (Hon & _) & _)]; [by destruct (Hi c) |].
    simplify_eq; apply (inv_set_state _ s p t); try done.
    - intros d q Hq; by destruct (Hu d q).
    - intros d H; apply (i_pending _ _ I) in H as H'; destruct H' as (_ & u & Eu & (Hd' & _) & _); simplify_eq.
      assert (d = c) as -> by lia; done.
    - intros Hw; by destruct (Hk1 Hcur). }
  destruct (bool_decide_reflect (state t = PROC_CREATED)) as [| Hcr]; [by apply inv_neutral_task |].
  set (s1 := match wait_queue_ptr t with Some _ => _ | None => s end).
  assert (H1 : inv None s1 /\ ~ waiting s1 p /\ (exists t1, tasks s1 !! p = Some t1 /\ state t1 = state t /\ machine t1 = machine t) /\
    forall d, cpu_of s1 d = cpu_of s d).
  { unfold s1; destruct (wait_queue_ptr t) as [k |] eqn:Ew.
    - assert (Hin := i_wptr _ _ I p t k Et Ew); destruct (unwait_spec None s p t k I Hin Et) as (A & B & C & _ & _ & D).
      split; [done |]; split; [done |]; split; [by exists (with_wait None t) | done].
    - split; [done |]; split; [| split; [by exists t | done]].
      intros [k Hin]; destruct (i_wait _ _ I k p Hin) as (_ & _ & u & Eu & Hu & _); simplify_eq; congruence. }
  destruct H1 as (I1 & Hw1 & (t1 & Et1 & Es1 & Em1) & Ecpu).
  destruct (terminate_tail s1 p t1) as [T1 T2]; try done; try congruence.
  { rewrite Es1; intros Hst; destruct (Hk2 Hst) as [Hu Hf]; split.
    - intros d q Hq; unfold queued in Hq; rewrite Ecpu in Hq; by eapply Hu.
    - intros [d Hf']; apply Hf; exists d; by rewrite <- Ecpu. }
  destruct (bool_decide_reflect (state t = PROC_READY \/ state t = PROC_RUNNING)) as [| Hnr]; [done |].
  destruct (still_current (upd_task s1 p (with_state PROC_DEAD)) p) eqn:Esc; [done |].
  apply T2; [rewrite Es1; tauto | rewrite Es1; tauto | done].
Qed.

(** [process_cont] of a process no CPU has in use.  (A stopped process is neither
    an idle task nor being freed: [process_stop] refuses both.) *)
Definition cont_ok (s : sched) (p : Z) : Prop :=
  ~ in_flight s p /\
  forall t, tasks s !! p = Some t -> 0 <= priority t < PROC_PRIO_IDLE /\ reaping t = false.

Lemma cont_inv s p :
  inv None s -> cont_ok s p -> exists s' rc, process_cont s p = Some (s', rc) /\ inv None s'.
Proof.
  intros I (Hf & Hok); unfold process_cont; destruct (tasks s !! p) as [t |] eqn:Et; [| by eauto].
  destruct (Hok t eq_refl) as [Hp Hr].
  destruct (bool_decide_reflect (state t = PROC_STOPPED)) as [Hs |]; [| by eauto].
  set (s1 := upd_task s p (with_state PROC_READY)).
  assert (Et1 : tasks s1 !! p = Some (with_state PROC_READY t)) by (unfold s1; rewrite tasks_upd, decide_True, Et by done; done).
  assert (Hd : forall c, ~ p ∈ deferred_free_proc (cpu_of s c)).
  { intros c H; destruct (i_deferred _ _ I c p H) as (u & Eu & _ & _ & [Hu | Hu]); congruence. }
  assert (Hi : forall c, idle_task (cpu_of s c) <> Some p).
  { intros c H; destruct (i_idle _ _ I c p H) as (u & Eu & _ & _ & _ & [Hu | Hu]); congruence. }
  assert (I1 : inv None s1).
  { apply (inv_set_state _ s p t); try done; unfold runnable_state; auto.
    intros c _ H; destruct Hf; exists c; by left. }
  destruct (linked s p) eqn:El.
  - unfold enqueue_task; rewrite (task_of_Some s1 p _ Et1); cbn [state with_state].
    change (linked s1 p) with (linked s p); rewrite El; cbn; eauto.
  - assert (Hnl : ~ (exists c q, queued s c q p) /\ ~ waiting s p).
    { split; [intros (c & q & Hq) | intros [k Hk]]; (assert (linked s p = true); [apply linked_spec | congruence]); [left | right; exists k]; eauto. }
    destruct Hnl as [Hq Hw]; assert (Hu : unqueued s p) by (intros c q H; apply Hq; eauto).
    assert (L : loose None s1 p) by (apply loose_task; by eapply loose_parked).
    destruct (enqueue_inv None s1 p _ I1 L Et1) as (s' & E & I' & _); [done | done | done | done |].
    rewrite E; simpl; eauto.
Qed.

(** [sleep_on] by the current process of a CPU, whatever its state: running,
    stopped or killed from another CPU. *)
Lemma sleep_inv s c k p s2 :
  inv None s -> (k < length (waitqs s))%nat -> current_task (cpu_of s c) = Some p -> idle_task (cpu_of s c) <> Some p ->
  sleep_on s c k = Some s2 -> inv None s2.
Proof.
  intros I Hk Hcur Hidle; unfold sleep_on; rewrite Hcur.
  destruct (i_current _ _ I c p ltac:(done) Hcur) as [? | (Hu & Hp & t & Et & Hlive & _)]; [done |].
  set (f := fun t => with_wait (Some k) (with_state PROC_SLEEPING t)); set (s1 := upd_task s p f).
  destruct (linked s1 p) eqn:El; [done |]; intros [= <-].
  assert (Hw : ~ waiting s p) by (intros H; change (linked s1 p) with (linked s p) in El; assert (linked s p = true) by (apply linked_spec; by right); congruence).
  set (s' := set_waitqs s1 _).
  assert (Ew : forall j, waitq s' j = if decide (k = j) then waitq s k ++ [p] else waitq s j).
  { intros j; unfold s', waitq; cbn [waitqs set_waitqs]; case_decide; subst.
    - rewrite list_lookup_alter_eq; change (waitqs s1) with (waitqs s).
      by destruct (lookup_lt_is_Some_2 _ _ Hk) as [l ->].
    - by rewrite list_lookup_alter_ne. }
  assert (Et' : forall r, tasks s' !! r = if decide (p = r) then f <$> tasks s !! r else tasks s !! r) by (intros; apply tasks_upd).
  assert (Hpend : forall d, pending_reenqueue (cpu_of s d) <> Some p).
  { intros d H; destruct (i_pending _ _ I d p H) as (_ & u & Eu & (Hd & _) & _); simplify_eq.
    destruct Hlive as (Hon & _); assert (d = c) as -> by lia; done. }
  destruct Hlive as (Hon & Hpr & Hre).
  assert (Hne : forall r (P : task -> Prop), (r = p -> forall u, tasks s !! p = Some u -> P u -> P (f u)) ->
    (exists u, tasks s !! r = Some u /\ P u) -> exists u, tasks s' !! r = Some u /\ P u).
  { intros r P HP (u & Eu & Hu'); rewrite Et'; case_decide; [subst; rewrite Eu; simpl; eauto | rewrite Eu; eauto]. }
  constructor; try apply I.
  - intros r u; rewrite Et'; case_decide; [subst | by apply I]; intros (u' & E & ->)%fmap_Some; exact (i_task _ _ I r u' E).
  - intros d q r Hq; apply Hne; [intros ->; by destruct (Hu d q) | by apply (i_queued _ _ I)].
  - intros d r Hr; destruct (i_pending _ _ I d r Hr) as [H1 H2]; split; [done |].
    apply Hne; [intros ->; by destruct (Hpend d) | done].
  - intros d r Hd Hr; destruct (i_current _ _ I d r Hd Hr) as [H | (H1 & H2 & H3)]; [by left | right].
    split; [done |]; split; [done |]; apply Hne; [| done]; intros -> u' _ (H & _); done.
  - intros j r; rewrite Ew; intros Hr.
    assert (Hr' : r ∈ waitq s j \/ (r = p /\ j = k)).
    { case_decide; [subst; apply elem_of_app in Hr as [? | ?%list_elem_of_singleton]; auto | by left]. }
    destruct Hr' as [Hin | [-> ->]].
    + destruct (i_wait _ _ I j r Hin) as (H1 & H2 & H3); split; [done |]; split; [done |].
      apply Hne; [intros ->; destruct Hw; by exists j | done].
    + split; [done |]; split; [done |]; exists (f t); rewrite Et', decide_True, Et by done.
      split; [done |]; split; [done |]; split; [done |]; split; [done | by left].
  - intros j; rewrite Ew; case_decide; [| apply I]; apply NoDup_app; split; [apply I |]; split; [| apply NoDup_singleton].
    intros x Hx ->%list_elem_of_singleton; apply Hw; by exists k.
  - intros r u j; rewrite Et', Ew; case_decide as Hd.
    + intros (u' & E & ->)%fmap_Some Hj; cbn in Hj; injection Hj as <-; subst; rewrite decide_True by done; apply elem_of_app; right; by left.
    + intros E Hj; assert (H := i_wptr _ _ I r u j E Hj); case_decide; [subst; apply elem_of_app; by left | done].
  - intros d r Hr; apply Hne; [| by apply (i_deferred _ _ I d)]; intros ->.
    destruct (i_deferred _ _ I d p Hr) as (u & Eu & Hre' & _); simplify_eq; congruence.
  - intros d r Hr; apply Hne; [| by apply (i_idle _ _ I d)]; intros ->.
    destruct (i_idle _ _ I d p Hr) as (u & Eu & Hpi & _); simplify_eq; lia.
Qed.

Lemma inv_rr s n :
  inv None s -> 0 <= n < Z.of_nat MAX_CPUS ->
  inv None {| tasks := tasks s; cpus := cpus s; waitqs := waitqs s; rr_cpu := n |}.
Proof. intros I Hn; by constructor; try apply I. Qed.

(** [wake_up] when its first sleeper has left its CPU. *)
Lemma wake_inv s k :
  inv None s -> (forall p l c, waitq s k = p :: l -> current_task (cpu_of s c) <> Some p) ->
  exists s', wake_up s k = Some s' /\ inv None s'.
Proof.
  intros I Hcur; unfold wake_up; destruct (waitq s k) as [| p l] eqn:Ew; [by eauto |].
  assert (Hin : p ∈ waitq s k) by (rewrite Ew; by left).
  destruct (i_wait _ _ I k p Hin) as (Hu & Hp & t & Et & _ & Hre & Hpr & Hs).
  destruct (unwait_spec None s p t k I Hin Et) as (I1 & Hw1 & Et1 & _ & Er1 & Ec1); fold (unwait s p).
  set (s1 := unwait s p) in *.
  assert (L1 : loose None s1 p).
  { split; [intros d q Hq; unfold queued in Hq; rewrite Ec1 in Hq; by eapply Hu |]; split; [done |].
    intros d; rewrite Ec1; split; [done |]; split; [| split; [| intros _; by eapply Hcur]].
    - intros H; destruct (i_deferred _ _ I d p H) as (u & Eu & Hru & _); simplify_eq; congruence.
    - intros H; destruct (i_idle _ _ I d p H) as (u & Eu & Hpi & _); simplify_eq; lia. }
  assert (Henq : forall s2 t2, inv None s2 -> loose None s2 p -> tasks s2 !! p = Some t2 ->
    priority t2 = priority t -> reaping t2 = reaping t -> state t2 = state t -> exists s', enqueue_task s2 p = Some s' /\ inv None s').
  { intros s2 t2 I2 L2 Et2 E1 E2 E3; destruct Hs as [Hs | [Hs | Hs]].
    - destruct (enqueue_inv None s2 p t2 I2 L2 Et2) as (s' & E & I' & _);
        [by rewrite E1 | by rewrite E2 | by rewrite E3, Hs | by rewrite E3, Hs | eauto].
    - unfold enqueue_task; rewrite (task_of_Some s2 p t2 Et2), E3, Hs; cbn; eauto.
    - destruct (enqueue_inv None s2 p t2 I2 L2 Et2) as (s' & E & I' & _);
        [by rewrite E1 | by rewrite E2 | by rewrite E3, Hs | by rewrite E3, Hs | eauto]. }
  rewrite (task_of_Some s1 p _ Et1); cbn [on_cpu with_wait]; destruct (on_cpu t <? 0).
  - assert (Hrr := i_rr _ _ I1); set (s2 := upd_task s1 p (with_on_cpu (rr_cpu s1))).
    assert (I2 : inv None s2) by (apply inv_loose_task; [done | done |]; intros u _; simpl; split; [lia | done]).
    assert (Et2 : tasks s2 !! p = Some (with_on_cpu (rr_cpu s1) (with_wait None t)))
      by (unfold s2; rewrite tasks_upd, decide_True, Et1 by done; done).
    apply (Henq _ (with_on_cpu (rr_cpu s1) (with_wait None t))); try done.
    apply (inv_rr s2); [done |]; apply Z.mod_pos_bound; unfold MAX_CPUS; lia.
  - by eapply Henq.
Qed.

(** A new process enters the table and is queued. *)
Lemma spawn_inv s p t :
  inv None s -> tasks s !! p = None -> -1 <= on_cpu t < Z.of_nat MAX_CPUS -> 0 <= priority t < PROC_PRIO_IDLE ->
  reaping t = false -> wait_queue_ptr t = None -> state t = PROC_CREATED ->
  exists s', enqueue_task (set_tasks s (<[p := t]> (tasks s))) p = Some s' /\ inv None s'.
Proof.
  intros I Hn Hon Hp Hr Hw Hs; set (s1 := set_tasks s _).
  assert (Hne : forall r (P : task -> Prop), (exists u, tasks s !! r = Some u /\ P u) ->
    exists u, tasks s1 !! r = Some u /\ P u).
  { intros r P (u & Eu & Hu); exists u; split; [| done]; cbn; rewrite lookup_insert_ne by congruence; done. }
  assert (I1 : inv None s1).
  { constructor; try apply I; cbn [tasks s1 set_tasks].
    - intros r u [(<- & <-) | (_ & H)]%lookup_insert_Some; [done | by apply I in H].
    - intros c q r H; apply Hne; by apply (i_queued _ _ I).
    - intros c r H; destruct (i_pending _ _ I c r H) as [H1 H2]; split; [done |]; by apply Hne.
    - intros c r Hc H; destruct (i_current _ _ I c r Hc H) as [? | (H1 & H2 & H3)]; [by left | right].
      split; [done |]; split; [done |]; by apply Hne.
    - intros k r H; destruct (i_wait _ _ I k r H) as (H1 & H2 & H3); split; [done |]; split; [done |]; by apply Hne.
    - intros r u k [(<- & <-) | (_ & H)]%lookup_insert_Some; [congruence | by apply I].
    - intros c r H; apply Hne; by apply (i_deferred _ _ I c).
    - intros c r H; apply Hne; by apply (i_idle _ _ I c). }
  assert (Hno : forall u, tasks s !! p = Some u -> False) by congruence.
  assert (L : loose None s1 p).
  { split; [intros c q H; apply (i_queued _ _ I) in H as (u & Eu & _); eauto |]; split.
    { intros [k H]; apply (i_wait _ _ I) in H as (_ & _ & u & Eu & _); eauto. }
    intros c; split; [intros H; apply (i_pending _ _ I) in H as (_ & u & Eu & _); eauto |].
    split; [intros H; apply (i_deferred _ _ I) in H as (u & Eu & _); eauto |].
    split; [intros H; apply (i_idle _ _ I) in H as (u & Eu & _); eauto |].
    intros _ H; apply (i_current _ _ I c p ltac:(done)) in H as [H | (_ & _ & u & Eu & _)]; [| eauto].
    apply (i_idle _ _ I) in H as (u & Eu & _); eauto. }
  destruct (enqueue_inv None s1 p t I1 L) as (s' & E & I' & _); try done; try (by rewrite Hs).
  - cbn; by rewrite lookup_insert_eq.
  - eauto.
Qed.

(** ** Runs of the system *)

(** The state [process_init] leaves, once the idle tasks exist. *)
Definition boot (s : sched) : Prop :=
  length (cpus s) = MAX_CPUS /\ 0 <= rr_cpu s < Z.of_nat MAX_CPUS /\ (forall k, waitq s k = []) /\
  (forall p t, tasks s !! p = Some t -> -1 <= on_cpu t < Z.of_nat MAX_CPUS /\ wait_queue_ptr t = None) /\
  (forall c d p, idle_task (cpu_of s c) = Some p -> idle_task (cpu_of s d) = Some p -> c = d) /\
  forall c, let x := cpu_of s c in
    runqueues x = replicate 32 [] /\ prio_bitmap x = 0 /\ pending_reenqueue x = None /\ deferred_free_proc x = [] /\
    (current_task x = None \/ current_task x = idle_task x) /\
    forall p, idle_task x = Some p -> exists t, tasks s !! p = Some t /\ priority t = PROC_PRIO_IDLE /\
      machine t = true /\ reaping t = false /\ (state t = PROC_READY \/ state t = PROC_RUNNING).

Lemma boot_inv s : boot s -> inv None s.
Proof.
  intros (Hl & Hr & Hw & Ht & Hi & Hc).
  assert (Er : forall c q, runq (cpu_of s c) q = []).
  { intros c q; unfold runq; destruct (Hc c) as (-> & _); destruct (replicate 32 (@nil Z) !! q) as [l |] eqn:E; [| done].
    by apply lookup_replicate in E as [-> _]. }
  assert (Hq : forall c q p, ~ queued s c q p) by (intros c q p; unfold queued; rewrite Er; apply not_elem_of_nil).
  constructor; try done.
  - intros p t H; by apply Ht in H as [? _].
  - intros c; destruct (Hc c) as (E1 & E2 & _); split; [by rewrite E1 |]; split; [rewrite E2; unfold is_u32; lia |].
    intros q _; rewrite E2, Er, Z.bits_0; done.
  - intros c q; rewrite Er; constructor.
  - intros c q p H; by destruct (Hq c q p).
  - intros c p; destruct (Hc c) as (_ & _ & -> & _); done.
  - intros c p _ H; left; destruct (Hc c) as (_ & _ & _ & _ & [E | E] & _); congruence.
  - intros k p; rewrite Hw; intros H; by apply not_elem_of_nil in H.
  - intros k; rewrite Hw; constructor.
  - intros p t k H E; destruct (Ht p t H) as [_ E']; congruence.
  - intros c p; destruct (Hc c) as (_ & _ & _ & -> & _); intros H; by apply not_elem_of_nil in H.
  - intros c d p; destruct (Hc c) as (_ & _ & _ & -> & _); intros H; by apply not_elem_of_nil in H.
  - intros c p; destruct (Hc c) as (_ & _ & _ & _ & _ & H); apply H.
Qed.

(** One operation by one CPU.  The side conditions of [cont_ok], [kill_ok] and
    [step_wake] leave out cases in which the code is wrong: each is an example
    at the end.  The idle task does not sleep (its loop only halts), and a
    process that is on a wait queue and still on its CPU runs nothing but
    [schedule], so that it does not kill itself. *)
Inductive sched_step : sched -> sched -> Prop :=
| step_schedule s c trylock focus now s' :
    (c < MAX_CPUS)%nat -> is_Some (idle_task (cpu_of s c)) -> (size (tasks s) <= MAX_PROCESSES)%nat ->
    schedule trylock focus now s c = Some s' -> sched_step s s'
| step_spawn s p t s' :
    tasks s !! p = None -> -1 <= on_cpu t < Z.of_nat MAX_CPUS -> 0 <= priority t < PROC_PRIO_IDLE ->
    reaping t = false -> wait_queue_ptr t = None -> state t = PROC_CREATED ->
    enqueue_task (set_tasks s (<[p := t]> (tasks s))) p = Some s' -> sched_step s s'
| step_sleep s c k p s' :
    (k < length (waitqs s))%nat -> current_task (cpu_of s c) = Some p -> idle_task (cpu_of s c) <> Some p ->
    sleep_on s c k = Some s' -> sched_step s s'
| step_stop s p : sched_step s (fst (process_stop s p))
| step_cont s p s' rc : cont_ok s p -> process_cont s p = Some (s', rc) -> sched_step s s'
| step_terminate s c p : kill_ok s c p -> sched_step s (fst (process_terminate s c p))
| step_wake s k s' :
    (forall p l c, waitq s k = p :: l -> current_task (cpu_of s c) <> Some p) ->
    wake_up s k = Some s' -> sched_step s s'.

Lemma step_inv s s' : inv None s -> sched_step s s' -> inv None s'.
Proof.
  intros I H; destruct H as [s c tl f now s' Hc [i Hi] Hs E | s p t s' H1 H2 H3 H4 H5 H6 E | s c k p s' H1 H2 H3 E
    | s p | s p s' rc Hok E | s c p Hk | s k s' Hok E].
  - destruct (schedule_spec tl f now s c i I Hc Hi Hs) as (s2 & E2 & I2 & _); congruence.
  - destruct (spawn_inv s p t I H1 H2 H3 H4 H5 H6) as (s2 & E2 & I2); congruence.
  - exact (sleep_inv s c k p s' I H1 H2 H3 E).
  - by apply stop_inv.
  - destruct (cont_inv s p I Hok) as (s2 & rc2 & E2 & I2); congruence.
  - by apply terminate_inv.
  - destruct (wake_inv s k I Hok) as (s2 & E2 & I2); congruence.
Qed.

Lemma reach_inv s0 s : boot s0 -> rtc sched_step s0 s -> inv None s.
Proof. intros Hb%boot_inv H; induction H; eauto using step_inv. Qed.

Lemma current_once s c d p :
  inv None s -> current_task (cpu_of s c) = Some p -> current_task (cpu_of s d) = Some p -> c = d.
Proof.
  intros I Hc Hd; destruct (i_current _ _ I c p ltac:(done) Hc) as [Ic | (_ & _ & t & Et & (Hon & Hp & _) & _)],
    (i_current _ _ I d p ltac:(done) Hd) as [Id | (_ & _ & u & Eu & (Hon' & Hp' & _) & _)].
  - by eapply (i_idle_once _ _ I).
  - destruct (i_idle _ _ I c p Ic) as (v & Ev & Hv & _); simplify_eq; lia.
  - destruct (i_idle _ _ I d p Id) as (v & Ev & Hv & _); simplify_eq; lia.
  - simplify_eq; lia.
Qed.



(** The order of picks.  A CPU takes the focused process if that is queued on it
    and was not taken [FOCUS_BOOST_MAX] times in a row; otherwise it takes the
    oldest task of its highest non-empty priority and the count starts again. *)
Theorem pick_order s0 s c focus :
  boot s0 -> rtc sched_step s0 s -> (c < MAX_CPUS)%nat ->
  match pick_once s c focus with
  | (s', Some p) =>
    (p = focus /\ focus_streak (cpu_of s c) < FOCUS_BOOST_MAX /\ exists q, p ∈ runq (cpu_of s c) q) \/
    (focus_streak (cpu_of s' c) = 0 /\
     (focus <= 0 \/ FOCUS_BOOST_MAX <= focus_streak (cpu_of s c) \/ forall q, ~ focus ∈ runq (cpu_of s c) q) /\
     exists q l, runq (cpu_of s c) q = p :: l /\ forall r, (r < q)%nat -> runq (cpu_of s c) r = [])
  | (_, None) => forall q, runq (cpu_of s c) q = []
  end.
Proof.
  intros Hb Hr Hc; assert (I := inv_weaken _ c (reach_inv s0 s Hb Hr)).
  assert (Hcl : (c < length (cpus s))%nat) by (by rewrite (i_len _ _ I)).
  unfold pick_once; pose proof (pick_focus_spec s c focus I Hcl) as Hf.
  destruct (sched_pick_focus s c focus) as [s1 [p |]] eqn:Ef.
  { left; destruct Hf as (-> & H & (_ & _ & _ & Hq & _)); done. }
  subst s1; pose proof (pick_fair_spec s c I Hcl) as Hp; destruct (sched_pick_fair s c) as [s2 [p |]]; [| by destruct Hp].
  right; destruct Hp as (_ & H0 & Hq); split; [done |]; split; [| done].
  unfold sched_pick_focus in Ef; destruct (Z.leb_spec focus 0); [by left | right]; cbn [orb] in Ef.
  destruct (Z.leb_spec FOCUS_BOOST_MAX (focus_streak (cpu_of s c))); [by left | right]; intros q Hin.
  destruct (existsb _ _) eqn:Ex; [done |]; apply not_true_iff_false in Ex; apply Ex, runq_elem; by exists q.
Qed.

(** ** Witnesses *)

Definition new_task (prio cpu : Z) (m : bool) (st : proc_state) : task :=
  {| state := st; priority := prio; time_slice := 5; quantum_reset := 5; first_run := true; on_cpu := cpu;
     reaping := false; kill_pending := false; wait_queue_ptr := None; machine := m; cpu_time_counts := 0 |}.

Definition idle_cpu (p : Z) : cpu_info :=
  {| runqueues := replicate 32 []; prio_bitmap := 0; current_task := Some p; idle_task := Some p;
     deferred_free_proc := []; pending_reenqueue := None; online := true; focus_streak := 0; sched_run_count := 0 |}.

(** Two CPUs running their idle tasks 100 and 101. *)
Definition two_cpus : sched :=
  {| tasks := <[100 := new_task 31 0 true PROC_RUNNING]> (<[101 := new_task 31 1 true PROC_RUNNING]> ∅);
     cpus := [idle_cpu 100; idle_cpu 101] ++ replicate 62 cpu0; waitqs := [[]]; rr_cpu := 0 |}.

Lemma two_cpus_boot : boot two_cpus.
Proof.
  assert (Hx : forall c, cpu_of two_cpus c = idle_cpu 100 /\ c = 0%nat \/
    cpu_of two_cpus c = idle_cpu 101 /\ c = 1%nat \/ cpu_of two_cpus c = cpu0).
  { intros [| [| c]]; [by left | right; by left | right; right].
    unfold cpu_of, two_cpus; cbn [cpus]; change ([idle_cpu 100; idle_cpu 101] ++ replicate 62 cpu0)
      with (idle_cpu 100 :: idle_cpu 101 :: replicate 62 cpu0); cbn [lookup list_lookup].
    destruct (replicate 62 cpu0 !! c) as [x |] eqn:E; [| done]; by apply lookup_replicate in E as [-> _]. }
  split; [done |]; split; [unfold MAX_CPUS; simpl; lia |]; split; [by intros [| [| k]] |]; split; [| split].
  - intros p t H; unfold two_cpus in H; cbn [tasks] in H; unfold MAX_CPUS.
    apply lookup_insert_Some in H as [(_ & <-) | (_ & H)]; [simpl; split; [lia | done] |].
    apply lookup_insert_Some in H as [(_ & <-) | (_ & H)]; [simpl; split; [lia | done] |].
    by rewrite lookup_empty in H.
  - intros c d p; destruct (Hx c) as [(-> & ->) | [(-> & ->) | ->]], (Hx d) as [(-> & ->) | [(-> & ->) | ->]];
      simpl; congruence.
  - intros c x; subst x; destruct (Hx c) as [(-> & _) | [(-> & _) | ->]]; repeat split; auto; try done;
      intros p [= <-]; eexists; (split; [reflexivity |]); simpl; auto.
Qed.

(** A user process is created and CPU 1 steals it. *)
Definition spawned : sched :=
  default two_cpus (enqueue_task (set_tasks two_cpus (<[7 := new_task 2 0 false PROC_CREATED]> (tasks two_cpus))) 7).

Lemma two_cpus_spawn : rtc sched_step two_cpus spawned.
Proof.
  apply rtc_once; eapply (step_spawn two_cpus 7 (new_task 2 0 false PROC_CREATED));
    [done | simpl; unfold MAX_CPUS; lia | simpl; unfold PROC_PRIO_IDLE; lia | done | done | done |].
  unfold spawned; by destruct (enqueue_task _ 7) as [s' |] eqn:E.
Qed.



Lemma pick_order_witness :
  snd (pick_once spawned 0 7) = Some 7 /\
  match pick_once spawned 0 7 with
  | (s', Some p) =>
    (p = 7 /\ focus_streak (cpu_of spawned 0) < FOCUS_BOOST_MAX /\ exists q, p ∈ runq (cpu_of spawned 0) q) \/
    (focus_streak (cpu_of s' 0) = 0 /\
     (7 <= 0 \/ FOCUS_BOOST_MAX <= focus_streak (cpu_of spawned 0) \/ forall q, ~ 7 ∈ runq (cpu_of spawned 0) q) /\
     exists q l, runq (cpu_of spawned 0) q = p :: l /\ forall r, (r < q)%nat -> runq (cpu_of spawned 0) r = [])
  | (_, None) => forall q, runq (cpu_of spawned 0) q = []
  end.
Proof.
  split; [by vm_compute |].
  apply (pick_order two_cpus spawned 0 7 two_cpus_boot two_cpus_spawn); unfold MAX_CPUS; lia.
Defined.

(** ** The excluded cases *)

Notation "'let?' x ':=' a 'in' b" := (match a with Some x => b | None => None end)
  (at level 200, x name, b at level 200).

(** A stopped process still on a runqueue is freed by [process_terminate]: the
    runqueue then holds freed memory. *)
Example kill_of_stopped_leaves_dangling_entry :
  let s := fst (process_stop spawned 7) in
  let s := fst (process_terminate s 1 7) in
  bool_decide (7 ∈ runq (cpu_of s 0) 2) = true /\ tasks s !! 7 = None.
Proof. by vm_compute. Qed.

(** Work stealing takes a stopped process and runs it. *)
Example stolen_stopped_process_runs :
  let s := fst (process_stop spawned 7) in
  (let? s := schedule (fun _ => true) 0 9 s 1 in Some (current_task (cpu_of s 1), state (task_of s 7)))
  = Some (Some 7, PROC_RUNNING).
Proof. by vm_compute. Qed.

(** A process stopped and resumed while its CPU still runs it is queued there,
    and another CPU can steal it and run it at the same time. *)
Example resumed_while_current_runs_twice :
  (let? s := schedule (fun _ => true) 0 9 spawned 0 in
   let s := fst (process_stop s 7) in
   let? r := process_cont s 7 in
   let? s := schedule (fun _ => true) 0 9 (fst r) 1 in
   Some (snd r, current_task (cpu_of s 0), current_task (cpu_of s 1))) = Some (0, Some 7, Some 7).
Proof. by vm_compute. Qed.

(** The same when the process has been switched away from and waits to be queued
    again: resuming it queues it at once, CPU 1 steals it and runs it, CPU 0
    queues it a second time, and CPU 2 can run it too. *)
Example resumed_while_pending_runs_twice :
  (let? s := schedule (fun _ => true) 0 9 spawned 0 in
   let? s := enqueue_task (set_tasks s (<[8 := new_task 1 0 false PROC_CREATED]> (tasks s))) 8 in
   let? s := schedule (fun _ => true) 0 9 s 0 in
   let s := fst (process_stop s 7) in
   let? r := process_cont s 7 in
   let? s := schedule (fun _ => true) 0 9 (fst r) 1 in
   let? s := schedule (fun _ => true) 0 9 s 0 in
   let? s := schedule (fun _ => true) 0 9 s 2 in
   Some (current_task (cpu_of s 1), current_task (cpu_of s 2))) = Some (Some 7, Some 7).
Proof. by vm_compute. Qed.

(** A process stopped while it sleeps and then resumed is READY, on its wait queue
    and on no runqueue: it runs when it is woken. *)
Example stopped_sleeper_resumed_stays_asleep :
  (let? s := schedule (fun _ => true) 0 9 spawned 0 in
   let? s := sleep_on s 0 0 in
   let? s := schedule (fun _ => true) 0 9 s 0 in
   let s := fst (process_stop s 7) in
   let? r := process_cont s 7 in
   Some (snd r, state (task_of (fst r) 7), waitq (fst r) 0)) = Some (0, PROC_READY, [7]).
Proof. by vm_compute. Qed.

(** A process woken between [sleep_on] and its own [schedule] can be stolen and
    run while its first CPU still runs it. *)
Example woken_before_schedule_runs_twice :
  (let? s := schedule (fun _ => true) 0 9 spawned 0 in
   let? s := sleep_on s 0 0 in
   let? s := wake_up s 0 in
   let? s := schedule (fun _ => true) 0 9 s 1 in
   Some (current_task (cpu_of s 0), current_task (cpu_of s 1))) = Some (Some 7, Some 7).
Proof. by vm_compute. Qed.
