(* ===== verification/Ipc.v ===== *)
(** * Messages between processes (kernel/sched/process.c, section 10)

    Every process has a bounded queue of messages.  A receiver that finds none
    it wants sleeps, and the sender of one wakes it.  The state is that of the
    scheduler with a mailbox per process; each definition is one section under
    the locks of the source, so that senders, receivers and the scheduler
    interleave freely.  User memory is a parameter: the message read, and
    whether the copy out succeeded. *)
From Stdlib Require Import ZArith Lia.
From stdpp Require Import base numbers list gmap relations.
From S2P Require Import Prelude CString ProcTab Sched SchedProofs SchedTheorems.

Definition MSG_QUEUE_MAX : Z := 256.
Definition ENOBUFS : Z := 105.
Definition IPC_RECV_RETRY : Z := 1.

Record ipc_message := { from : Z; mtype : Z; data1 : Z; data2 : Z; payload : list Z }.

#[global] Instance ipc_message_eq_dec : EqDecision ipc_message.
Proof. solve_decision. Defined.

(** The message fields of [struct process]. *)
Record mailbox := { msg_queue : list ipc_message; msg_count : Z; ipc_target_pid : Z }.

Definition mailbox0 : mailbox := {| msg_queue := []; msg_count := 0; ipc_target_pid := -1 |}.

Record ipc := { sch : sched; boxes : gmap Z mailbox }.

Definition box_of (st : ipc) (p : Z) : mailbox := default mailbox0 (boxes st !! p).
Definition set_box (st : ipc) (p : Z) (b : mailbox) : ipc := {| sch := sch st; boxes := <[p := b]> (boxes st) |}.
Definition set_sch (st : ipc) (s : sched) : ipc := {| sch := s; boxes := boxes st |}.

(** A receiver that asks for [src], -1 for anyone, wants the message. *)
Definition wanted (src : Z) (m : ipc_message) : Prop := src = -1 \/ from m = src.

#[global] Instance wanted_dec src m : Decision (wanted src m).
Proof. unfold wanted; apply _. Defined.

Definition pop_box (b : mailbox) (src : Z) : mailbox * option ipc_message :=
  match list_find (wanted src) (msg_queue b) with
  | Some (i, m) =>
    ({| msg_queue := delete i (msg_queue b);
        msg_count := if 0 <? msg_count b then msg_count b - 1 else msg_count b;
        ipc_target_pid := ipc_target_pid b |}, Some m)
  | None => (b, None)
  end.

Definition pop_message (st : ipc) (p src : Z) : ipc * option ipc_message :=
  let '(b, m) := pop_box (box_of st p) src in (set_box st p b, m).

Definition push_box (b : mailbox) (m : ipc_message) : mailbox :=
  {| msg_queue := msg_queue b ++ [m]; msg_count := msg_count b + 1; ipc_target_pid := ipc_target_pid b |}.

(** [kernel_ipc_send]; [alloc] says whether the node could be allocated. *)
Definition kernel_ipc_send (alloc : bool) (st : ipc) (target : Z) (m : ipc_message) : option (ipc * Z) :=
  if negb alloc then Some (st, -1)
  else
    match tasks (sch st) !! target with
    | None => Some (st, -1)
    | Some t =>
      if is_corpse (state t) then Some (st, -1)
      else
        let b := box_of st target in
        if MSG_QUEUE_MAX <=? msg_count b then Some (st, - ENOBUFS)
        else
          let st := set_box st target (push_box b m) in
          if bool_decide (state t = PROC_SLEEPING)
             && ((ipc_target_pid b =? -1) || (ipc_target_pid b =? from m))
          then (fun s => (set_sch st s, 0)) <$>
                 enqueue_task (upd_task (sch st) target (with_state PROC_READY)) target
          else Some (st, 0)
    end.

(** [sys_ipc_send] by the process [cur] of the pool; [user] is the message in
    user memory, if it can be read. *)
Definition sys_ipc_send (alloc : bool) (pp : pool) (cur : process) (st : ipc) (target : Z)
    (user : option ipc_message) : option (ipc * Z) :=
  match user with
  | None => Some (st, - EINVAL)
  | Some m =>
    if negb (process_ipc_allowed pp cur target) then Some (st, - EPERM)
    else kernel_ipc_send alloc st target
           {| from := i32 (pid cur); mtype := mtype m; data1 := data1 m; data2 := data2 m; payload := payload m |}
  end.

(** The first section of [sys_ipc_recv] by process [p]: what is returned to the
    caller if a message was there, and the message when it reached user memory. *)
Definition recv_now (st : ipc) (p src : Z) (copied : bool) : ipc * option (Z * option ipc_message) :=
  match pop_message st p src with
  | (st, Some m) => (st, Some (if copied then (0, Some m) else (- EFAULT, None)))
  | (st, None) => (st, None)
  end.

(** The second section: sleep if there is still nothing to receive. *)
Definition recv_commit (st : ipc) (p src : Z) : ipc :=
  let b := box_of st p in
  if existsb (fun m => bool_decide (wanted src m)) (msg_queue b) then st
  else
    set_box (set_sch st (upd_task (sch st) p (with_state PROC_SLEEPING))) p
      {| msg_queue := msg_queue b; msg_count := msg_count b; ipc_target_pid := src |}.

Definition sys_ipc_recv (st : ipc) (p src : Z) (copied : bool) : ipc * (Z * option ipc_message) :=
  match recv_now st p src copied with
  | (st, Some r) => (st, r)
  | (st, None) => (recv_commit st p src, (IPC_RECV_RETRY, None))
  end.

Definition sys_ipc_try_recv (st : ipc) (p src : Z) (copied : bool) : ipc * (Z * option ipc_message) :=
  match pop_message st p src with
  | (st, None) => (st, (-1, None))
  | (st, Some m) => (st, if copied then (0, Some m) else (-1, None))
  end.

(** How [SYS_READ] sleeps when the console had no key. *)
Definition read_sleep (st : ipc) (p : Z) : ipc :=
  let b := box_of st p in
  set_box (set_sch st (upd_task (sch st) p (with_state PROC_SLEEPING))) p
    {| msg_queue := msg_queue b; msg_count := msg_count b; ipc_target_pid := -1 |}.

(** [process_terminate] with [__proc_terminate_drain_ipc]. *)
Definition terminate (st : ipc) (c : nat) (p : Z) : ipc * Z :=
  let '(s, rc) := process_terminate (sch st) c p in
  match tasks (sch st) !! p with
  | None => (st, rc)
  | Some t =>
    if machine t || is_corpse (state t) || bool_decide (current_task (cpu_of (sch st) c) = Some p)
       || bool_decide (state t = PROC_CREATED)
    then (set_sch st s, rc)
    else (set_box (set_sch st s) p {| msg_queue := []; msg_count := 0; ipc_target_pid := ipc_target_pid (box_of st p) |}, rc)
  end.

(** ** Interleavings *)

(** Asleep waiting for a message. *)
Definition asleep (t : task) : Prop := state t = PROC_SLEEPING /\ wait_queue_ptr t = None.

(** What can be seen of a step: a message accepted; a receive of process [p], with
    whether its buffer could be written and what the call returned; a message
    taken off by the loop of a console read; or a mailbox that is new or emptied
    by a kill. *)
Inductive label :=
| Sent (p : Z) (m : ipc_message)
| Received (p : Z) (copied : bool) (r : option (Z * option ipc_message))
| Tried (p : Z) (copied : bool) (r : Z * option ipc_message)
| ReadOff (p : Z) (m : option ipc_message)
| Reset (p : Z).

Inductive ipc_step : ipc -> list label -> ipc -> Prop :=
| ipc_send alloc st target m st' rc :
    kernel_ipc_send alloc st target m = Some (st', rc) ->
    ipc_step st (if rc =? 0 then [Sent target m] else []) st'
| ipc_recv st p src copied :
    ipc_step st [Received p copied (snd (recv_now st p src copied))] (fst (recv_now st p src copied))
| ipc_try st p src copied :
    ipc_step st [Tried p copied (snd (sys_ipc_try_recv st p src copied))] (fst (sys_ipc_try_recv st p src copied))
| ipc_read st p : ipc_step st [ReadOff p (snd (pop_message st p (-1)))] (fst (pop_message st p (-1)))
| ipc_commit st p src : ipc_step st [] (recv_commit st p src)
| ipc_schedule st trylock focus now c s :
    schedule trylock focus now (sch st) c = Some s -> ipc_step st [] (set_sch st s)
| ipc_sleep st c k s : sleep_on (sch st) c k = Some s -> ipc_step st [] (set_sch st s)
| ipc_wake st k s : wake_up (sch st) k = Some s -> ipc_step st [] (set_sch st s)
| ipc_stop st p : ipc_step st [] (set_sch st (fst (process_stop (sch st) p)))
| ipc_cont st p s rc : process_cont (sch st) p = Some (s, rc) -> ipc_step st [] (set_sch st s)
| ipc_kill st c p : ipc_step st [Reset p] (fst (terminate st c p))
| ipc_spawn st p t s :
    tasks (sch st) !! p = None -> state t = PROC_CREATED ->
    enqueue_task (set_tasks (sch st) (<[p := t]> (tasks (sch st)))) p = Some s ->
    ipc_step st [Reset p] (set_box (set_sch st s) p mailbox0).

Inductive ipc_trace : ipc -> list label -> ipc -> Prop :=
| trace_nil st : ipc_trace st [] st
| trace_step st l st1 tr st2 : ipc_step st l st1 -> ipc_trace st1 tr st2 -> ipc_trace st (l ++ tr) st2.

(** ** The scheduler puts nobody to sleep in [ipc_recv] *)

Definition no_new_sleeper (s s' : sched) : Prop :=
  forall p t', tasks s' !! p = Some t' -> asleep t' -> exists t, tasks s !! p = Some t /\ asleep t.

Lemma sleeper_refl s : no_new_sleeper s s.
Proof. intros p t; eauto. Qed.

Lemma sleeper_trans s1 s2 s3 : no_new_sleeper s1 s2 -> no_new_sleeper s2 s3 -> no_new_sleeper s1 s3.
Proof. intros H1 H2 p t E A; destruct (H2 p t E A) as (t2 & E2 & A2); eauto. Qed.

Lemma sleeper_tasks s s' : tasks s' = tasks s -> no_new_sleeper s s'.
Proof. intros E p t; rewrite E; eauto. Qed.

Lemma sleeper_upd s p f : (forall t, asleep (f t) -> asleep t) -> no_new_sleeper s (upd_task s p f).
Proof.
  intros Hf r t; rewrite tasks_upd; case_decide as H; [subst r | eauto].
  destruct (tasks s !! p) as [t0 |]; simpl; [| done]; intros [= <-] A; eauto.
Qed.

Lemma sleeper_sub s s' : (forall r t, tasks s' !! r = Some t -> tasks s !! r = Some t) -> no_new_sleeper s s'.
Proof. intros H r t E A; eauto. Qed.

(** A queued process is not asleep, and no other descriptor changes. *)
Lemma enqueue_awake s p s' :
  enqueue_task s p = Some s' ->
  (forall t, tasks s' !! p = Some t -> state t <> PROC_SLEEPING) /\ forall r, r <> p -> tasks s' !! r = tasks s !! r.
Proof.
  assert (Hsame : state (task_of s p) <> PROC_SLEEPING ->
    (forall t, tasks s !! p = Some t -> state t <> PROC_SLEEPING) /\ forall r, r <> p -> tasks s !! r = tasks s !! r).
  { intros H; split; [| done]; intros t E; by rewrite (task_of_Some s p t E) in H. }
  unfold enqueue_task; destruct (is_corpse _) eqn:Ec.
  { intros [= <-]; apply Hsame; intros E; rewrite E in Ec; discriminate Ec. }
  destruct (bool_decide (state (task_of s p) = PROC_STOPPED)) eqn:Es.
  { intros [= <-]; apply Hsame; apply bool_decide_eq_true in Es; congruence. }
  destruct (bool_decide (state (task_of s p) = PROC_READY) && _) eqn:Er.
  { intros [= <-]; apply Hsame; apply andb_true_iff in Er as [Er _]; apply bool_decide_eq_true in Er; congruence. }
  destruct (linked s p); [done |]; intros [= <-]; split; intros r; cbn [upd_cpu set_cpus tasks]; rewrite tasks_upd.
  - rewrite decide_True by done; destruct (tasks s !! p); simpl; [intros [= <-]; done | done].
  - intros Hne; by rewrite decide_False.
Qed.

Lemma enqueue_sleeper s p s' : enqueue_task s p = Some s' -> no_new_sleeper s s'.
Proof.
  intros E; apply enqueue_awake in E as [H1 H2]; intros r t Er A.
  destruct (decide (r = p)) as [-> | Hne]; [destruct A; by eapply H1 in Er | rewrite <- H2 by done; eauto].
Qed.

Lemma reap_sleeper s c p : no_new_sleeper s (reap_push s c p).
Proof.
  unfold reap_push; case_if; [apply sleeper_refl |].
  eapply sleeper_trans; [by apply (sleeper_upd s p (with_reaping true)) | by apply sleeper_tasks].
Qed.

Lemma pick_once_tasks s c focus : tasks (fst (pick_once s c focus)) = tasks s.
Proof.
  unfold pick_once, sched_pick_focus, sched_pick_fair; repeat first [case_if | case_match]; simplify_eq; done.
Qed.

Lemma pick_local_sleeper n s c focus s' r : pick_local n s c focus = Some (s', r) -> no_new_sleeper s s'.
Proof.
  revert s; induction n as [| n IH]; intros s; simpl; [done |]; pose proof (pick_once_tasks s c focus) as Ht.
  destruct (pick_once s c focus) as [s1 [p |]]; simpl in Ht; [| intros [= <- _]; by apply sleeper_tasks].
  repeat case_if; intros E; [apply IH in E | apply IH in E | simplify_eq; by apply sleeper_tasks].
  - eapply sleeper_trans; [by apply sleeper_tasks |]; eapply sleeper_trans; [apply reap_sleeper | done].
  - eapply sleeper_trans; [by apply sleeper_tasks | done].
Qed.

Lemma steal_tasks trylock s c ks : tasks (fst (steal_work trylock s c ks)) = tasks s.
Proof. induction ks as [| i ks IH]; simpl; [done |]; repeat first [case_if | case_match]; done. Qed.

Lemma switch_sleeper s c prev next : no_new_sleeper s (sched_switch s c prev next).
Proof.
  assert (Hrun : forall s1, tasks s1 = tasks s -> no_new_sleeper s
    (upd_task s1 next (fun t => with_on_cpu (Z.of_nat c) (with_state PROC_RUNNING t)))).
  { intros s1 E; eapply sleeper_trans; [by apply (sleeper_tasks s s1) | apply sleeper_upd]; by intros t [H _]. }
  unfold sched_switch; case_if; [by apply Hrun |]; apply Hrun; destruct prev; [case_if |]; done.
Qed.

Lemma requeue_sleeper s c s' : sched_requeue_pending s c = Some s' -> no_new_sleeper s s'.
Proof.
  unfold sched_requeue_pending; case_match; [| intros [= <-]; apply sleeper_refl].
  case_if; [intros [= <-] | intros E].
  - eapply sleeper_trans; [| apply reap_sleeper]; eapply sleeper_trans; [| by apply sleeper_upd]; by apply sleeper_tasks.
  - eapply sleeper_trans; [| by eapply enqueue_sleeper]; by apply sleeper_tasks.
Qed.

Lemma retire_sleeper s c prev s' b : sched_retire_prev s c prev = Some (s', b) -> no_new_sleeper s s'.
Proof.
  unfold sched_retire_prev; destruct prev as [p |]; [| intros [= <- _]; apply sleeper_refl].
  case_if; [intros [= <- _] |].
  { eapply sleeper_trans; [by apply (sleeper_upd s p (with_on_cpu (-1))) |].
    eapply sleeper_trans; [apply reap_sleeper | by apply sleeper_tasks]. }
  set (s1 := upd_task s p (with_first_run false)); set (s2 := if bool_decide (state (task_of s1 p) = PROC_RUNNING) then upd_task s1 p spend_slice else s1).
  assert (H : no_new_sleeper s s2).
  { eapply sleeper_trans; [by apply (sleeper_upd s p (with_first_run false)) |]; unfold s2; case_if; [| apply sleeper_refl].
    apply sleeper_upd; by intros t [E _]. }
  case_if; [| by intros [= <- _]]; destruct (enqueue_task s2 p) eqn:E; [| done]; intros [= <- _].
  eapply sleeper_trans; [done | by eapply enqueue_sleeper].
Qed.

Lemma front_sleeper s c prev now : no_new_sleeper s (sched_account_time (sched_reap_deferred s c) c prev now).
Proof.
  eapply sleeper_trans; [apply (sleeper_sub s (sched_reap_deferred s c)) |].
  - intros r t; unfold sched_reap_deferred; cbn [upd_cpu set_cpus tasks set_tasks]; rewrite foldl_delete; by case_decide.
  - unfold sched_account_time; destruct prev as [p |]; [case_if |]; try (by apply sleeper_tasks).
    match goal with |- no_new_sleeper _ (upd_cpu ?x _ _) => apply (sleeper_trans _ x) end;
      [by apply sleeper_upd | by apply sleeper_tasks].
Qed.

Lemma sched_pick_sleeper s c focus s' r : sched_pick_local s c focus = Some (s', r) -> no_new_sleeper s s'.
Proof. apply pick_local_sleeper. Qed.

Lemma sched_steal_sleeper trylock s c : no_new_sleeper s (fst (sched_steal_work trylock s c)).
Proof. apply sleeper_tasks, steal_tasks. Qed.

Lemma schedule_sleeper trylock focus now s c s' : schedule trylock focus now s c = Some s' -> no_new_sleeper s s'.
Proof.
  unfold schedule; set (s1 := sched_account_time _ _ _ _).
  assert (H1 : no_new_sleeper s s1) by apply front_sleeper.
  destruct (sched_requeue_pending s1 c) as [s2 |] eqn:E2; [| done]; apply requeue_sleeper in E2.
  destruct (sched_retire_prev _ _ _) as [[s3 reaped] |] eqn:E3; [| done]; apply retire_sleeper in E3.
  destruct (sched_pick_local s3 c focus) as [[s4 r] |] eqn:E4; [| done]; apply sched_pick_sleeper in E4.
  assert (H4 : no_new_sleeper s s4) by eauto using sleeper_trans.
  destruct r as [next |]; [intros [= <-]; eapply sleeper_trans; [done | apply switch_sleeper] |].
  pose proof (sched_steal_sleeper trylock s4 c) as Ht; destruct (sched_steal_work trylock s4 c) as [s5 r]; simpl in Ht.
  assert (H5 : no_new_sleeper s s5) by eauto using sleeper_trans.
  repeat first [case_if | case_match]; intros E; simplify_eq; try done;
    (eapply sleeper_trans; [done | apply switch_sleeper]).
Qed.

Lemma sleep_on_sleeper s c k s' : sleep_on s c k = Some s' -> no_new_sleeper s s'.
Proof.
  unfold sleep_on; case_match; [| intros [= <-]; apply sleeper_refl]; case_if; [done |]; intros [= <-].
  match goal with |- no_new_sleeper _ (set_waitqs ?x _) => apply (sleeper_trans _ x) end;
    [apply sleeper_upd; by intros t [_ E] | by apply sleeper_tasks].
Qed.

Lemma wake_sleeper s k s' : wake_up s k = Some s' -> no_new_sleeper s s'.
Proof.
  unfold wake_up; destruct (waitq s k) as [| p l]; [intros [= <-]; apply sleeper_refl |].
  cbv zeta; match goal with |- enqueue_task ?x p = _ -> _ => set (s1 := x) end; intros E; apply enqueue_awake in E as [H1 H2]; intros r t Er A.
  destruct (decide (r = p)) as [-> | Hne]; [destruct A; by eapply H1 in Er |].
  exists t; split; [| done]; rewrite H2 in Er by done; unfold s1 in Er.
  match type of Er with context [if ?b then _ else _] => destruct b end;
    cbn [tasks] in Er; rewrite !tasks_upd, !decide_False in Er by done; exact Er.
Qed.

Lemma stop_sleeper s p : no_new_sleeper s (fst (process_stop s p)).
Proof.
  unfold process_stop; repeat first [case_if | case_match]; try apply sleeper_refl; apply sleeper_upd; by intros t' [E _].
Qed.

Lemma cont_sleeper s p s' rc : process_cont s p = Some (s', rc) -> no_new_sleeper s s'.
Proof.
  unfold process_cont; case_match; [case_if |]; [| intros [= <- _]; apply sleeper_refl ..].
  destruct (enqueue_task _ p) eqn:E; [| done]; intros [= <- _].
  eapply sleeper_trans; [| by eapply enqueue_sleeper]; apply sleeper_upd; by intros t' [E' _].
Qed.

(** A process told to die is not asleep; no other descriptor changes. *)
Lemma terminate_sleeper s c p : no_new_sleeper s (fst (process_terminate s c p)).
Proof.
  unfold process_terminate; destruct (tasks s !! p) as [t |] eqn:Et; [| apply sleeper_refl].
  repeat (case_if; [apply sleeper_refl || (apply sleeper_upd; first [by intros ? [E _] | done]) |]).
  set (s1 := match wait_queue_ptr t with Some _ => upd_task (unlink s p) p (with_wait None) | None => s end).
  assert (H1 : forall r, r <> p -> tasks s1 !! r = tasks s !! r).
  { intros r Hr; unfold s1; destruct (wait_queue_ptr t); [| done]; rewrite tasks_upd, decide_False by done; done. }
  assert (H : no_new_sleeper s (upd_task s1 p (with_state PROC_DEAD))).
  { intros r t' Er A; rewrite tasks_upd in Er; case_decide as Hr.
    - destruct (tasks s1 !! r); [| discriminate Er]; simpl in Er; injection Er as <-; by destruct A.
    - rewrite H1 in Er by done; eauto. }
  repeat case_if; try done; eapply sleeper_trans; [done |]; apply sleeper_sub.
  intros r t'; cbn [tasks set_tasks fst]; intros E; by apply lookup_delete_Some in E as [_ E].
Qed.

(** ** The invariant of mailboxes *)

Definition ipc_ok (st : ipc) : Prop :=
  forall p, msg_count (box_of st p) = zlen (msg_queue (box_of st p)) /\
    msg_count (box_of st p) <= MSG_QUEUE_MAX /\
    forall t, tasks (sch st) !! p = Some t -> asleep t ->
      Forall (fun m => ~ wanted (ipc_target_pid (box_of st p)) m) (msg_queue (box_of st p)).

Lemma box_of_set st p b r : box_of (set_box st p b) r = if decide (p = r) then b else box_of st r.
Proof.
  unfold box_of, set_box; simpl; case_decide; [subst; by rewrite lookup_insert_eq | by rewrite lookup_insert_ne].
Qed.

(** A step of the scheduler alone. *)
Lemma ok_sched st s : ipc_ok st -> no_new_sleeper (sch st) s -> ipc_ok (set_sch st s).
Proof.
  intros H Hn p; destruct (H p) as (H1 & H2 & H3); split; [done |]; split; [done |].
  intros t Et A; destruct (Hn p t Et A) as (t0 & E0 & A0); by eapply H3.
Qed.

(** A step that changes one mailbox. *)
Lemma ok_set_box st p b :
  ipc_ok st -> msg_count b = zlen (msg_queue b) -> msg_count b <= MSG_QUEUE_MAX ->
  (forall t, tasks (sch st) !! p = Some t -> asleep t -> Forall (fun m => ~ wanted (ipc_target_pid b) m) (msg_queue b)) ->
  ipc_ok (set_box st p b).
Proof. intros H H1 H2 H3 r; rewrite box_of_set; case_decide; [by subst | apply H]. Qed.

Lemma pop_box_spec b src :
  match pop_box b src with
  | (b', Some m) => exists l1 l2, msg_queue b = l1 ++ m :: l2 /\ msg_queue b' = l1 ++ l2 /\ wanted src m /\
      Forall (fun x => ~ wanted src x) l1 /\ ipc_target_pid b' = ipc_target_pid b /\
      (msg_count b = zlen (msg_queue b) -> msg_count b' = zlen (msg_queue b'))
  | (b', None) => b' = b /\ Forall (fun x => ~ wanted src x) (msg_queue b)
  end.
Proof.
  unfold pop_box; destruct (list_find _ _) as [[i m] |] eqn:E; [| split; [done | by apply list_find_None in E]].
  apply list_find_Some in E as (Hi & Hw & Hbefore); set (l := msg_queue b) in *.
  exists (take i l), (drop (S i) l); split; [by rewrite take_drop_middle |]; split; [apply delete_take_drop |].
  split; [done |]; split; [| split; [done |]].
  - apply Forall_lookup; intros j x Hx; rewrite lookup_take_Some in Hx; destruct Hx; by eapply Hbefore.
  - simpl; assert (Hlt := lookup_lt_Some _ _ _ Hi); unfold zlen; rewrite length_delete by (by eexists).
    intros Hc; case_if; lia.
Qed.

Lemma pop_ok st p src : ipc_ok st -> ipc_ok (fst (pop_message st p src)).
Proof.
  intros H; unfold pop_message; pose proof (pop_box_spec (box_of st p) src) as Hp; destruct (H p) as (H1 & H2 & H3).
  destruct (pop_box _ _) as [b [m |]]; simpl; [| destruct Hp as [-> _]; by apply ok_set_box].
  destruct Hp as (l1 & l2 & E1 & E2 & _ & _ & Et & Hc); specialize (Hc H1).
  apply ok_set_box; [done | done | rewrite H1, E1 in H2; rewrite Hc, E2; unfold zlen in *; rewrite length_app in *; simpl in *; lia |].
  intros t Ht A; rewrite Et, E2; specialize (H3 t Ht A); rewrite E1 in H3.
  apply Forall_app in H3 as [Ha Hb]; apply Forall_app; split; [done | by inversion Hb].
Qed.

Lemma recv_now_pop st p src copied : fst (recv_now st p src copied) = fst (pop_message st p src).
Proof. unfold recv_now; by destruct (pop_message st p src) as [? []]. Qed.

Lemma try_recv_pop st p src copied : fst (sys_ipc_try_recv st p src copied) = fst (pop_message st p src).
Proof. unfold sys_ipc_try_recv; by destruct (pop_message st p src) as [? []]. Qed.

Lemma commit_ok st p src : ipc_ok st -> ipc_ok (recv_commit st p src).
Proof.
  intros H; unfold recv_commit; destruct (existsb _ _) eqn:E; [done |]; destruct (H p) as (H1 & H2 & _); intros r.
  rewrite box_of_set; case_decide as Hr; [subst r | destruct (H r) as (A1 & A2 & A3)].
  - split; [done |]; split; [done |]; intros t _ _; apply Forall_forall; intros m Hin Hw; simpl in *.
    apply not_true_iff_false in E; apply E, existsb_exists; exists m; split; [by apply list_elem_of_In | by apply bool_decide_eq_true].
  - split; [done |]; split; [done |]; intros t; cbn [set_box set_sch sch]; rewrite tasks_upd, decide_False by done; apply A3.
Qed.

(** What a send does: nothing, or the message is appended and a receiver that
    waits for it is no longer asleep. *)
Lemma send_cases alloc st target m st' rc :
  kernel_ipc_send alloc st target m = Some (st', rc) ->
  (rc <> 0 /\ st' = st) \/
  (rc = 0 /\ boxes st' = <[target := push_box (box_of st target) m]> (boxes st) /\
   msg_count (box_of st target) < MSG_QUEUE_MAX /\ no_new_sleeper (sch st) (sch st') /\
   forall t, tasks (sch st') !! target = Some t -> asleep t -> ~ wanted (ipc_target_pid (box_of st target)) m).
Proof.
  unfold kernel_ipc_send; destruct alloc; [| intros [= <- <-]; by left]; cbn [negb].
  destruct (tasks (sch st) !! target) as [t |] eqn:Et; [| intros [= <- <-]; by left].
  destruct (is_corpse (state t)); [intros [= <- <-]; by left |].
  destruct (Z.leb_spec MSG_QUEUE_MAX (msg_count (box_of st target)));
    [intros [= <- <-]; left; split; [unfold ENOBUFS; lia | done] |].
  destruct (bool_decide _ && _) eqn:Ew; intros E; right.
  - destruct (enqueue_task _ target) as [s |] eqn:Eq; [| done]; injection E as <- <-.
    destruct (enqueue_awake _ _ _ Eq) as [Ha _]; split; [done |]; split; [done |]; split; [lia |]; split.
    + eapply sleeper_trans; [| by eapply enqueue_sleeper]; apply sleeper_upd; by intros t' [E' _].
    + intros t' E' [A _]; by eapply Ha in E'.
  - injection E as <- <-; split; [done |]; split; [done |]; split; [lia |]; split; [apply sleeper_refl |].
    intros t' E' [A _] Hw; simpl in E'; rewrite Et in E'; injection E' as <-.
    rewrite bool_decide_eq_true_2 in Ew by done; apply orb_false_iff in Ew as [E1 E2]; destruct Hw; lia.
Qed.

Lemma send_ok alloc st target m st' rc :
  ipc_ok st -> kernel_ipc_send alloc st target m = Some (st', rc) -> ipc_ok st'.
Proof.
  intros H E; apply send_cases in E as [[_ ->] | (_ & Eb & Hlt & Hn & Hw)]; [done |].
  assert (Es : st' = set_box (set_sch st (sch st')) target (push_box (box_of st target) m))
    by (destruct st'; simpl in Eb; by rewrite Eb).
  rewrite Es; destruct (H target) as (H1 & H2 & H3); apply ok_set_box; [by apply ok_sched | | |].
  - unfold push_box, zlen in *; simpl; rewrite length_app; simpl; lia.
  - unfold push_box; simpl; lia.
  - intros t Et A; destruct (Hn target t Et A) as (t0 & E0 & A0); simpl.
    apply Forall_app; split; [by eapply H3 | constructor; [by eapply Hw | done]].
Qed.

(** The mailbox a kill or a spawn leaves, and the tasks. *)
Lemma kill_cases st c p :
  no_new_sleeper (sch st) (sch (fst (terminate st c p))) /\
  (boxes (fst (terminate st c p)) = boxes st \/
   boxes (fst (terminate st c p)) =
     <[p := {| msg_queue := []; msg_count := 0; ipc_target_pid := ipc_target_pid (box_of st p) |}]> (boxes st)).
Proof.
  unfold terminate; pose proof (terminate_sleeper (sch st) c p) as Hs.
  destruct (process_terminate _ _ _) as [s rc]; simpl in Hs.
  destruct (tasks (sch st) !! p); [case_if |]; simpl; split; auto; apply sleeper_refl.
Qed.

Lemma kill_ok st c p : ipc_ok st -> ipc_ok (fst (terminate st c p)).
Proof.
  intros H; destruct (kill_cases st c p) as [Hn Hb]; destruct (fst (terminate st c p)) as [s bx]; simpl in Hn, Hb.
  destruct Hb as [-> | ->]; [exact (ok_sched st s H Hn) |].
  apply (ok_set_box (set_sch st s)); [by apply ok_sched | done | done |]; intros; by constructor.
Qed.

Lemma spawn_ok st p t s :
  ipc_ok st -> tasks (sch st) !! p = None -> state t = PROC_CREATED ->
  enqueue_task (set_tasks (sch st) (<[p := t]> (tasks (sch st)))) p = Some s ->
  ipc_ok (set_box (set_sch st s) p mailbox0).
Proof.
  intros H Hp Ht E; apply ok_set_box; [| done | done | intros; by constructor]; apply ok_sched; [done |].
  apply enqueue_awake in E as [Ha Hb]; intros r t' Er A; destruct (decide (r = p)) as [-> | Hne].
  - destruct A; by eapply Ha in Er.
  - rewrite Hb in Er by done; cbn [tasks set_tasks] in Er; rewrite lookup_insert_ne in Er by done; eauto.
Qed.

Lemma step_ok st l st' : ipc_ok st -> ipc_step st l st' -> ipc_ok st'.
Proof.
  intros H; destruct 1; rewrite ?recv_now_pop, ?try_recv_pop;
    eauto using send_ok, pop_ok, commit_ok, kill_ok, spawn_ok; (apply ok_sched; [done |]);
    eauto using schedule_sleeper, sleep_on_sleeper, wake_sleeper, stop_sleeper, cont_sleeper.
Qed.

Lemma trace_ok st tr st' : ipc_trace st tr st' -> ipc_ok st -> ipc_ok st'.
Proof. induction 1; eauto using step_ok. Qed.

(** ** What a trace accepts and delivers *)

Definition sent_to (p : Z) (l : label) : option ipc_message :=
  match l with Sent q m => if q =? p then Some m else None | _ => None end.

(** The messages of process [p] a step used up, told from what the caller got.  A
    receive that returns 0 used up the message it delivered; one that failed
    because its buffer could not be written destroyed one message, which
    [sys_ipc_recv] reports with -EFAULT and [sys_ipc_try_recv] with the -1 it also
    returns for an empty mailbox; any other receive used up none. *)
Inductive consumes (p : Z) : label -> list ipc_message -> Prop :=
| delivered m : consumes p (Received p true (Some (0, Some m))) [m]
| destroyed m : consumes p (Received p false (Some (- EFAULT, None))) [m]
| none_waiting copied : consumes p (Received p copied None) []
| try_delivered m : consumes p (Tried p true (0, Some m)) [m]
| try_destroyed m : consumes p (Tried p false (-1, None)) [m]
| try_none copied : consumes p (Tried p copied (-1, None)) []
| read_off m : consumes p (ReadOff p m) (option_list m)
| sent q m : consumes p (Sent q m) []
| reset q : consumes p (Reset q) []
| other_received q copied r : q <> p -> consumes p (Received q copied r) []
| other_tried q copied r : q <> p -> consumes p (Tried q copied r) []
| other_read q m : q <> p -> consumes p (ReadOff q m) [].

Definition of_sender (src : Z) (l : list ipc_message) : list ipc_message := filter (fun m => from m = src) l.

Lemma of_sender_app src l1 l2 : of_sender src (l1 ++ l2) = of_sender src l1 ++ of_sender src l2.
Proof. apply filter_app. Qed.

(** Taking the first wanted message takes the first of its sender. *)
Lemma of_sender_pop src s l1 m l2 :
  wanted src m -> Forall (fun x => ~ wanted src x) l1 ->
  of_sender s (m :: l1 ++ l2) = of_sender s (l1 ++ m :: l2).
Proof.
  intros Hw Hl; rewrite of_sender_app; unfold of_sender; rewrite !filter_cons, filter_app.
  case_decide as Hm; [| done]; assert (Hnil : filter (fun x => from x = s) l1 = []); [| by rewrite Hnil].
  induction Hl as [| x l1 Hx _ IH]; [done |]; rewrite filter_cons_False; [done |]; intros E; apply Hx.
  destruct Hw as [-> | Hw]; [by left | right; congruence].
Qed.

Lemma pop_order st p src r s :
  of_sender s (msg_queue (box_of st r)) =
  of_sender s ((if p =? r then option_list (snd (pop_message st p src)) else []) ++
    msg_queue (box_of (fst (pop_message st p src)) r)).
Proof.
  unfold pop_message; pose proof (pop_box_spec (box_of st p) src) as Hp; destruct (pop_box _ _) as [b [m |]]; simpl.
  - destruct Hp as (l1 & l2 & E1 & E2 & Hw & Hl & _); rewrite box_of_set; case_decide as Hr.
    + subst r; rewrite Z.eqb_refl, E1, E2; exact (eq_sym (of_sender_pop src s l1 m l2 Hw Hl)).
    + destruct (Z.eqb_spec p r); done.
  - destruct Hp as [-> _]; rewrite box_of_set; destruct (Z.eqb_spec p r); by case_decide; subst.
Qed.

(** What each receive uses up is what it took off. *)
Lemma receive_consumes st q src copied p :
  let ms := if q =? p then option_list (snd (pop_message st q src)) else [] in
  consumes p (Received q copied (snd (recv_now st q src copied))) ms /\
  consumes p (Tried q copied (snd (sys_ipc_try_recv st q src copied))) ms.
Proof.
  destruct (Z.eqb_spec q p) as [<- |]; [| split; by constructor].
  unfold recv_now, sys_ipc_try_recv; destruct (pop_message st q src) as [? [m |]]; destruct copied; split; constructor.
Qed.

Lemma step_order st l st' p s :
  ipc_step st l st' -> Reset p ∉ l ->
  exists mss, Forall2 (consumes p) l mss /\
  of_sender s (msg_queue (box_of st p) ++ omap (sent_to p) l) = of_sender s (concat mss ++ msg_queue (box_of st' p)).
Proof.
  assert (Hnil : forall st st', msg_queue (box_of st' p) = msg_queue (box_of st p) -> exists mss, Forall2 (consumes p) [] mss /\
    of_sender s (msg_queue (box_of st p) ++ omap (sent_to p) []) = of_sender s (concat mss ++ msg_queue (box_of st' p))).
  { intros ? ? E; exists []; split; [constructor |]; simpl; by rewrite app_nil_r, E. }
  destruct 1 as [alloc st tgt m st' rc E | st q src copied | st q src copied | st q | st q src | | | | | | st c q | st q t s' Hq Ht E]; intros Hr;
    try by apply Hnil.
  - apply send_cases in E as [[Hrc ->] | (-> & Eb & _)].
    + destruct (Z.eqb_spec rc 0); [done |]; by apply Hnil.
    + exists [[]]; split; [by repeat constructor |]; simpl; unfold box_of at 2; rewrite Eb; destruct (Z.eqb_spec tgt p) as [-> | Hne].
      * by rewrite lookup_insert_eq.
      * rewrite lookup_insert_ne, ?app_nil_r by done; done.
  - eexists [_]; split; [constructor; [apply (receive_consumes st q src copied p) | constructor] |]; rewrite recv_now_pop; cbn; rewrite !app_nil_r; apply pop_order.
  - eexists [_]; split; [constructor; [apply (receive_consumes st q src copied p) | constructor] |]; rewrite try_recv_pop; cbn; rewrite !app_nil_r; apply pop_order.
  - exists [if q =? p then option_list (snd (pop_message st q (-1))) else []]; split.
    + constructor; [destruct (Z.eqb_spec q p) as [-> |]; by constructor | constructor].
    + cbn; rewrite !app_nil_r; apply pop_order.
  - apply Hnil; unfold recv_commit; case_if; [done |]; rewrite box_of_set; by case_decide; subst.
  - assert (Hne : q <> p) by (intros ->; by apply Hr; left); exists [[]]; split; [by repeat constructor |].
    destruct (kill_cases st c q) as [_ [Hb | Hb]]; simpl; unfold box_of; rewrite Hb, ?app_nil_r; rewrite ?lookup_insert_ne by done; done.
  - assert (Hne : q <> p) by (intros ->; by apply Hr; left); exists [[]]; split; [by repeat constructor |].
    simpl; rewrite box_of_set, decide_False, ?app_nil_r by done; done.
Qed.

Lemma none_wanted src l : Forall (fun x => ~ wanted src x) l -> filter (wanted src) l = [].
Proof. induction 1 as [| x l Hx _ IH]; [done |]; by rewrite filter_cons_False. Qed.

Lemma pop_first st p src : snd (pop_message st p src) = head (filter (wanted src) (msg_queue (box_of st p))).
Proof.
  unfold pop_message; pose proof (pop_box_spec (box_of st p) src) as Hp; destruct (pop_box _ _) as [b [m |]]; simpl.
  - destruct Hp as (l1 & l2 & -> & _ & Hw & Hl & _); rewrite filter_app, filter_cons_True by done.
    by rewrite none_wanted.
  - destruct Hp as [_ Hl]; by rewrite none_wanted.
Qed.

(** C11: In every interleaving of senders, receivers and the scheduler on any number
    of CPUs: at most [MSG_QUEUE_MAX] messages wait for a process and the count is
    their number; and no wakeup is lost, a process asleep in [sys_ipc_recv] has no
    message waiting that it asked for, even when the message came between its
    look at the queue and its going to sleep. *)
Theorem no_message_missed st tr st' p :
  ipc_ok st -> ipc_trace st tr st' ->
  msg_count (box_of st' p) = zlen (msg_queue (box_of st' p)) /\ msg_count (box_of st' p) <= MSG_QUEUE_MAX /\
  forall t, tasks (sch st') !! p = Some t -> state t = PROC_SLEEPING -> wait_queue_ptr t = None ->
    Forall (fun m => ~ wanted (ipc_target_pid (box_of st' p)) m) (msg_queue (box_of st' p)).
Proof.
  intros H Ht; destruct (trace_ok _ _ _ Ht H p) as (H1 & H2 & H3); split; [done |]; split; [done |].
  intros t Et Hs Hw; by apply (H3 t).
Qed.

(** C30: Messages are delivered at most once and in order.  In every interleaving in
    which a process is not killed or created, what it had waiting from a sender
    followed by what was accepted from that sender is what its calls used up of
    that sender followed by what still waits, in the same order.  What a call used
    up is told by its result: a receive that returns 0 delivers exactly the
    message it used up; one whose buffer cannot be written destroys a message
    (-EFAULT, or -1 from [sys_ipc_try_recv]); the loop of a console read takes
    the messages it discards; nothing else is lost.  And a receive succeeds
    whenever a message from the source it asks for waits and its buffer can be
    written: it delivers the oldest of them, and it finds nothing only if there is
    none. *)
Theorem messages_in_order st tr st' p src :
  ipc_trace st tr st' -> Reset p ∉ tr ->
  (exists mss, Forall2 (consumes p) tr mss /\
    of_sender src (msg_queue (box_of st p) ++ omap (sent_to p) tr) = of_sender src (concat mss ++ msg_queue (box_of st' p))) /\
  (forall want copied, let oldest := head (filter (wanted want) (msg_queue (box_of st' p))) in
    snd (recv_now st' p want copied) = (fun m => if copied then (0, Some m) else (- EFAULT, None)) <$> oldest /\
    snd (sys_ipc_try_recv st' p want copied) = match oldest with Some m => if copied then (0, Some m) else (-1, None) | None => (-1, None) end).
Proof.
  intros Ht Hr; split.
  2: { intros want copied; simpl; rewrite <- pop_first; unfold recv_now, sys_ipc_try_recv; by destruct (pop_message _ _ _) as [? [m |]]. }
  induction Ht as [st | st l st1 tr st2 Hs _ IH]; [exists []; split; [constructor | by rewrite app_nil_r] |].
  rewrite elem_of_app in Hr; destruct (step_order _ _ _ p src Hs) as (m1 & F1 & H1); [tauto |]; destruct IH as (m2 & F2 & H2); [tauto |].
  exists (m1 ++ m2); split; [by apply Forall2_app |].
  rewrite omap_app, concat_app, !of_sender_app in *; rewrite app_assoc, H1, <- !app_assoc; by f_equal.
Qed.

(** ** Witnesses *)

(** Process 7 runs on CPU 0; process 4 sends it a message just after it looked
    for one and before it goes to sleep. *)
Definition running7 : sched := default spawned (schedule (fun _ => true) 0 9 spawned 0).
Definition quiet : ipc := {| sch := running7; boxes := ∅ |}.
Definition hello : ipc_message := {| from := 4; mtype := 1; data1 := 0; data2 := 0; payload := [] |}.
Definition looked : ipc := fst (recv_now quiet 7 4 true).
Definition posted : ipc := fst (default (looked, -1) (kernel_ipc_send true looked 7 hello)).
Definition committed : ipc := recv_commit posted 7 4.

Lemma race_trace : ipc_trace quiet [Received 7 true None; Sent 7 hello] committed.
Proof.
  apply (trace_step quiet [Received 7 true None] looked [Sent 7 hello]); [exact (ipc_recv quiet 7 4 true) |].
  apply (trace_step looked [Sent 7 hello] posted []).
  - refine (ipc_send true looked 7 hello posted 0 _); vm_compute; reflexivity.
  - apply (trace_step posted [] committed []); [apply ipc_commit | constructor].
Qed.

Lemma quiet_ok : ipc_ok quiet.
Proof. intros p; unfold box_of; simpl; rewrite lookup_empty; simpl; split; [done |]; split; [done |]; intros; by constructor. Qed.

Lemma no_message_missed_witness :
  state (task_of (sch committed) 7) = PROC_RUNNING /\
  msg_count (box_of committed 7) = zlen (msg_queue (box_of committed 7)) /\
  msg_queue (box_of committed 7) = [hello].
Proof.
  split; [by vm_compute |]; split; [| by vm_compute].
  exact (proj1 (no_message_missed quiet [Received 7 true None; Sent 7 hello] committed 7 quiet_ok race_trace)).
Defined.

Lemma messages_in_order_witness :
  exists mss, Forall2 (consumes 7) [Received 7 true None; Sent 7 hello] mss /\ concat mss = [] /\
    snd (sys_ipc_try_recv committed 7 4 true) = (0, Some hello).
Proof.
  destruct (messages_in_order quiet [Received 7 true None; Sent 7 hello] committed 7 4 race_trace) as [(mss & F & E) H].
  { intros H; apply elem_of_cons in H as [H | H]; [discriminate H |]; apply list_elem_of_singleton in H; discriminate H. }
  exists mss; split; [exact F |]; split; [| exact (proj2 (H 4 true))].
  clear - F; inversion F as [| ? ? ? ? A F2]; subst; inversion A; subst; [| done].
  inversion F2 as [| ? ? ? ? A2 F3]; subst; inversion A2; subst; by inversion F3.
Defined.

(** ** What the code does not prevent *)

(** A read of the console that goes to sleep does not look again: a message
    posted after the look leaves the reader asleep with the message waiting. *)
Example console_read_sleeps_on_a_message :
  let st := read_sleep posted 7 in
  state (task_of (sch st) 7) = PROC_SLEEPING /\ msg_queue (box_of st 7) = [hello].
Proof. by vm_compute. Qed.

(** A process killed while it runs on another CPU undoes the kill by receiving:
    it goes on as a sleeper. *)
Example receive_undoes_kill :
  let '(st, rc) := terminate quiet 1 7 in
  rc = 0 /\ state (task_of (sch st) 7) = PROC_DEAD /\ state (task_of (sch (recv_commit st 7 4)) 7) = PROC_SLEEPING.
Proof. by vm_compute. Qed.

(** A message to a process that sleeps on a wait queue makes it ready without
    queueing it; killed then, it is on no queue and no CPU, and stays a corpse
    that nobody frees. *)
Example message_to_wait_queue_sleeper :
  (let? s := sleep_on running7 0 0 in
   let? s := schedule (fun _ => true) 0 9 s 0 in
   let? r := kernel_ipc_send true {| sch := s; boxes := ∅ |} 7 hello in
   let s := sch (fst r) in
   let s' := sch (fst (terminate (fst r) 1 7)) in
   Some (state (task_of s 7), waitq s 0, state (task_of s' 7), linked s' 7, still_current s' 7))
  = Some (PROC_READY, [7], PROC_DEAD, false, false).
Proof. by vm_compute. Qed.

(** A receive whose buffer cannot be written destroys the message; the caller of
    [sys_ipc_try_recv] is told the same as when there is none. *)
Example receive_destroys_message :
  let '(st, r) := sys_ipc_try_recv committed 7 4 false in
  r = (-1, None) /\ msg_queue (box_of committed 7) = [hello] /\ msg_queue (box_of st 7) = [] /\ snd (sys_ipc_try_recv st 7 4 true) = r.
Proof. by vm_compute. Qed.
