(* ===== verification/Spawn.v ===== *)
(** * Process creation and the family tree (kernel/sched/process.c, sections 2, 6 and 7)

    The pool of descriptors with its quotas: admission, the identity a child is
    given, and what happens to the children of a process that leaves.  The
    pages taken from and given back to the page allocator are counted.  The
    controlling terminal, the standard handles, the address space, and the
    first context are not part of the state; whether they could be set up is a
    parameter. *)
From Stdlib Require Import ZArith Lia String.
From stdpp Require Import base numbers list relations.
From S2P Require Import Prelude CString ProcTab ProcLife.

Definition MAX_PROCS_PER_PARENT : Z := 32.
Definition RESERVED_PROC_SLOTS : Z := 8.
Definition PROC_MEM_BUDGET_PAGES : Z := 256.
Definition PROC_CREATED_ST : Z := 1.
Definition PRIO_IDLE : Z := 31.
Definition PRIO_MAX : Z := 32.
Definition PLVL_COUNT : Z := 4.
Definition PROCESS_NAME_MAX : Z := 32.
Definition STACK_PAGES : Z := 32.

(** The fields of [struct process] that creation and teardown use, beside those
    of ProcTab.  [env_page] says that an environment page is attached. *)
Record pcb := {
  base : process;
  asid : Z;
  prio : Z;
  child_count : Z;
  exit_code : Z;
  exited : bool;
  cwd : str;
  kernel_stack : bool
}.

Record table := {
  process_pool : list (option pcb);
  active_count : Z;
  next_pid : Z;
  next_idle_pid : Z;
  proc_limit : Z;
  reaped_ring : reaped;
  pages_out : Z
}.

Definition with_parent (n : Z) (p : process) : process :=
  {| pid := pid p; pname := pname p; pstate := pstate p; level := level p; caps := caps p;
     parent_pid := n; owner_pid := owner_pid p; env := env p |}.

Definition with_base (f : process -> process) (p : pcb) : pcb :=
  {| base := f (base p); asid := asid p; prio := prio p; child_count := child_count p; exit_code := exit_code p;
     exited := exited p; cwd := cwd p; kernel_stack := kernel_stack p |}.
Definition with_children (f : Z -> Z) (p : pcb) : pcb :=
  {| base := base p; asid := asid p; prio := prio p; child_count := f (child_count p); exit_code := exit_code p;
     exited := exited p; cwd := cwd p; kernel_stack := kernel_stack p |}.
Definition with_stack (p : pcb) : pcb :=
  {| base := base p; asid := asid p; prio := prio p; child_count := child_count p; exit_code := exit_code p;
     exited := exited p; cwd := cwd p; kernel_stack := true |}.

Definition set_pool (t : table) (pp : list (option pcb)) : table :=
  {| process_pool := pp; active_count := active_count t; next_pid := next_pid t; next_idle_pid := next_idle_pid t;
     proc_limit := proc_limit t; reaped_ring := reaped_ring t; pages_out := pages_out t |}.
Definition set_active (t : table) (n : Z) : table :=
  {| process_pool := process_pool t; active_count := n; next_pid := next_pid t; next_idle_pid := next_idle_pid t;
     proc_limit := proc_limit t; reaped_ring := reaped_ring t; pages_out := pages_out t |}.
Definition set_reaped (t : table) (r : reaped) : table :=
  {| process_pool := process_pool t; active_count := active_count t; next_pid := next_pid t;
     next_idle_pid := next_idle_pid t; proc_limit := proc_limit t; reaped_ring := r; pages_out := pages_out t |}.
Definition set_pages (t : table) (n : Z) : table :=
  {| process_pool := process_pool t; active_count := active_count t; next_pid := next_pid t;
     next_idle_pid := next_idle_pid t; proc_limit := proc_limit t; reaped_ring := reaped_ring t; pages_out := n |}.

(** The pool as the lookups of ProcTab see it. *)
Definition bases (pp : list (option pcb)) : pool := (fun o : option pcb => base <$> o) <$> pp.
Definition find_pcb (pp : list (option pcb)) (n : Z) : option nat := find_slot (bases pp) n.
Definition proc_at (pp : list (option pcb)) (i : nat) : option pcb := mjoin (pp !! i).

(** ** The family tree *)

(** [__child_count_dec]. *)
Definition child_count_dec (pp : list (option pcb)) (dead : pcb) : list (option pcb) :=
  if parent_pid (base dead) <=? 0 then pp
  else
    match find_pcb pp (parent_pid (base dead)) with
    | Some i => alter (fmap (with_children (fun n => if 0 <? n then n - 1 else n))) i pp
    | None => pp
    end.

(** The body of the loop of [__reparent_children] over slot [i]. *)
Definition adopt_one (dead_pid : Z) (heir : option nat) (heir_pid : Z) (pp : list (option pcb)) (i : nat)
    : list (option pcb) :=
  match proc_at pp i with
  | None => pp
  | Some p =>
    let p := if owner_pid (base p) =? dead_pid then with_base (fun b => with_owner b 0) p else p in
    if negb (parent_pid (base p) =? dead_pid) then <[i := Some p]> pp
    else
      let pp := <[i := Some (with_base (with_parent heir_pid) p)]> pp in
      match heir with
      | Some h => alter (fmap (with_children (fun n => n + 1))) h pp
      | None => pp
      end
  end.

(** [__reparent_children]; [dead] is no longer in the pool. *)
Definition reparent_children (pp : list (option pcb)) (dead : pcb) : list (option pcb) :=
  let heir := if 0 <? parent_pid (base dead) then find_pcb pp (parent_pid (base dead)) else None in
  let heir := match heir with
              | Some h => Some h
              | None => if pid (base dead) =? 1 then None else find_pcb pp 1
              end in
  let heir_pid := match h ← heir; proc_at pp h with Some h => i32 (pid (base h)) | None => 0 end in
  foldl (adopt_one (i32 (pid (base dead))) heir heir_pid) pp (seq 0 MAX_PROCESSES).

(** ** Creation *)

(** [__proc_create_check_quota]; the creator is null for the kernel. *)
Definition check_quota (t : table) (creator : option pcb) : Z :=
  if proc_limit t <=? active_count t then -1
  else if proc_is_privileged (base <$> creator) then 0
  else
    match creator with
    | Some c =>
      if MAX_PROCS_PER_PARENT <=? child_count c then -1
      else if proc_limit t - RESERVED_PROC_SLOTS <=? active_count t then -1
      else 0
    | None => 0
    end.

(** [__proc_create_identity] on the zeroed descriptor of [slot]. *)
Definition create_identity (t : table) (slot : nat) (name : str) (priority lvl req_caps : Z)
    (creator : option pcb) (envblk : bool) : table * pcb :=
  let idle := priority =? PRIO_IDLE in
  let n := if idle then next_idle_pid t else next_pid t in
  let t := {| process_pool := process_pool t; active_count := active_count t;
              next_pid := if idle then next_pid t else next_pid t + 1;
              next_idle_pid := if idle then next_idle_pid t + 1 else next_idle_pid t;
              proc_limit := proc_limit t; reaped_ring := reaped_ring t; pages_out := pages_out t |} in
  let lvl := if lvl <? PLVL_COUNT then lvl else PLVL_GUEST in
  let lvl := match creator with
             | Some c => if lvl <? level (base c) then level (base c) else lvl
             | None => lvl
             end in
  let cs := Z.land req_caps (caps_for_level lvl) in
  let cs := match creator with
            | Some c => if negb (proc_is_machine (Some (base c))) then Z.land cs (caps (base c)) else cs
            | None => cs
            end in
  let wd := match creator with
            | Some c => if bool_decide (cwd c = []) then lit "/" else cwd c
            | None => lit "/"
            end in
  (t, {| base := {| pid := n; pname := strcopy PROCESS_NAME_MAX name; pstate := PROC_CREATED_ST; level := lvl;
                    caps := cs; parent_pid := match creator with Some c => i32 (pid (base c)) | None => 0 end;
                    owner_pid := 0;
                    env := if envblk
                           then match creator with
                                | Some c => match env (base c) with
                                            | Some e => Some e
                                            | None => Some (replicate ENV_MAX {| ek := []; ev := [] |})
                                            end
                                | None => Some (replicate ENV_MAX {| ek := []; ev := [] |})
                                end
                           else None |};
         asid := u16 (Z.of_nat slot + 1);
         prio := if PRIO_MAX <=? priority then PRIO_MAX - 1 else priority;
         child_count := 0; exit_code := 0; exited := false; cwd := strcopy 128 wd; kernel_stack := false |}).

(** [__proc_create_rollback], as it is called: without the environment page.
    [proc] is what the descriptor holds now. *)
Definition create_rollback (t : table) (slot : nat) (proc : pcb) : table :=
  let pp := <[slot := None]> (process_pool t) in
  set_pages (set_active (set_pool t (child_count_dec pp proc)) (active_count t - 1)) (pages_out t - 1).

(** What the allocations and the setup of a creation answer. *)
Record setup := { env_ok : bool; page_ok : bool; stdio_ok : bool; stack_ok : bool }.

(** [process_create_caps] up to the release of the lock, by the process of slot
    [who], null for the kernel: the slot claimed. *)
Definition create_claim (a : setup) (t : table) (who : option nat) (name : str)
    (priority lvl req_caps : Z) : table * option nat :=
  let envblk := negb (priority =? PRIO_IDLE) && env_ok a in
  let taken t := set_pages t (pages_out t + if envblk then 1 else 0) in
  let creator := w ← who; proc_at (process_pool t) w in
  if negb (check_quota t creator =? 0) then (t, None)
  else
    let slot := find_free_slot (bases (process_pool t)) in
    if slot <? 0 then (t, None)
    else if negb (page_ok a) then (t, None)
    else
      let slot := Z.to_nat slot in
      let '(t, proc) := create_identity (taken t) slot name priority lvl req_caps creator envblk in
      let pp := <[slot := Some proc]> (process_pool t) in
      let pp := match who with Some w => alter (fmap (with_children (fun n => n + 1))) w pp | None => pp end in
      (set_pages (set_active (set_pool t pp) (active_count t + 1)) (pages_out t + 1), Some slot).

(** The rest, for the descriptor [proc] in [slot]: the standard handles and the
    stack, or the way back. *)
Definition create_finish (a : setup) (t : table) (slot : nat) (proc : pcb) : table * option nat :=
  if negb (stdio_ok a) then (create_rollback t slot proc, None)
  else if negb (stack_ok a) then (create_rollback t slot proc, None)
  else (set_pages (set_pool t (alter (fmap with_stack) slot (process_pool t))) (pages_out t + STACK_PAGES), Some slot).

Definition process_create_caps (a : setup) (t : table) (who : option nat) (name : str)
    (priority lvl req_caps : Z) : table * option nat :=
  match create_claim a t who name priority lvl req_caps with
  | (t, Some slot) => match proc_at (process_pool t) slot with Some proc => create_finish a t slot proc | None => (t, None) end
  | (t, None) => (t, None)
  end.

Definition process_create (a : setup) (t : table) (who : option nat) (name : str) (priority lvl : Z)
    : table * option nat :=
  let lvl := if lvl <? PLVL_COUNT then lvl else PLVL_GUEST in
  process_create_caps a t who name priority lvl (caps_for_level lvl).

(** ** Teardown *)

(** [__process_free_resources]: environment, stack and descriptor pages. *)
Definition free_resources (t : table) (p : pcb) : table :=
  set_pages t (pages_out t - (if env (base p) then 1 else 0) - (if kernel_stack p then STACK_PAGES else 0) - 1).

(** [__proc_terminate_pool_remove]. *)
Definition pool_remove (t : table) (slot : nat) : table :=
  match proc_at (process_pool t) slot with
  | None => t
  | Some p =>
    let t := set_reaped t (record_reaped (reaped_ring t)
               {| c_pid := pid (base p); c_dead := true; c_exited := exited p; c_exit_code := exit_code p |}) in
    let pp := <[slot := None]> (process_pool t) in
    set_active (set_pool t (reparent_children (child_count_dec pp p) p)) (active_count t - 1)
  end.

(** [__process_release_created] for the descriptor in [slot]. *)
Definition release_created (t : table) (slot : nat) : table :=
  match proc_at (process_pool t) slot with
  | None => t
  | Some p =>
    let pp := <[slot := None]> (process_pool t) in
    let t := set_active (set_pool t (reparent_children (child_count_dec pp p) p)) (active_count t - 1) in
    free_resources t p
  end.

(** The limit of [process_init]. *)
Definition process_limit (free_pages : Z) : Z :=
  let budget := free_pages / PROC_MEM_BUDGET_PAGES in
  let limit := if budget <? Z.of_nat MAX_PROCESSES then i32 budget else Z.of_nat MAX_PROCESSES in
  if limit <? 8 then 8 else limit.

Definition process_init (free_pages : Z) : table :=
  {| process_pool := replicate MAX_PROCESSES None; active_count := 0; next_pid := 1; next_idle_pid := 32000;
     proc_limit := process_limit free_pages; reaped_ring := reaped0; pages_out := 0 |}.

(** ** Sums over the pool *)

Fixpoint zsum (f : option pcb -> Z) (pp : list (option pcb)) : Z :=
  match pp with
  | [] => 0
  | o :: pp => f o + zsum f pp
  end.

Lemma zsum_insert f pp i a b : pp !! i = Some a -> zsum f (<[i := b]> pp) = zsum f pp - f a + f b.
Proof.
  revert i; induction pp as [| o pp IH]; intros [| i]; simpl; intros H; simplify_eq; [lia |].
  rewrite (IH i H); lia.
Qed.

Lemma zsum_two f g k pp pp' :
  length pp' = length pp ->
  (forall i a b, pp !! i = Some a -> pp' !! i = Some b -> f b = g a + k a) -> zsum f pp' = zsum g pp + zsum k pp.
Proof.
  revert pp'; induction pp as [| a pp IH]; intros [| b pp'] Hl H; simpl in *; try lia.
  rewrite (H 0%nat a b) by done; rewrite (IH pp'); [lia | lia |]; intros i x y Hx Hy; by apply (H (S i)).
Qed.

Lemma zsum_app f pp pp' : zsum f (pp ++ pp') = zsum f pp + zsum f pp'.
Proof. induction pp as [| a pp IH]; simpl; [| rewrite IH]; lia. Qed.

Lemma zsum_zero pp : zsum (fun _ => 0) pp = 0.
Proof. induction pp; simpl; lia. Qed.

Lemma zsum_ext f g pp : (forall i a, pp !! i = Some a -> f a = g a) -> zsum f pp = zsum g pp.
Proof.
  intros H; rewrite (zsum_two f g (fun _ => 0) pp pp); [rewrite zsum_zero; lia | done |].
  intros i a b Ha Hb; rewrite Ha in Hb; injection Hb as <-; rewrite (H i a Ha); lia.
Qed.

Lemma zsum_pos f pp i a : (forall o, 0 <= f o) -> pp !! i = Some a -> f a <= zsum f pp.
Proof.
  intros Hf; revert i; induction pp as [| o pp IH]; intros [| i]; simpl; intros H; simplify_eq.
  - assert (Hz : 0 <= zsum f pp) by (clear - Hf; induction pp as [| o pp IH]; simpl; [| specialize (Hf o)]; lia); lia.
  - specialize (IH i H); specialize (Hf o); lia.
Qed.

(** 1 for a process whose parent is [n], and for any process. *)
Definition is_kid (n : Z) (o : option pcb) : Z :=
  match o with Some p => if parent_pid (base p) =? n then 1 else 0 | None => 0 end.
Definition is_proc (o : option pcb) : Z := match o with Some _ => 1 | None => 0 end.

Definition kids (pp : list (option pcb)) (n : Z) : Z := zsum (is_kid n) pp.

Lemma is_kid_nonneg n o : 0 <= is_kid n o.
Proof. destruct o as [p |]; simpl; [destruct (_ =? _)|]; lia. Qed.

(** ** The operations, slot by slot *)

Definition occ (pp : list (option pcb)) (i : nat) (p : pcb) : Prop := pp !! i = Some (Some p).
Definition ppid (p : pcb) : Z := i32 (pid (base p)).

Definition distinct (pp : list (option pcb)) : Prop :=
  forall i j p q, occ pp i p -> occ pp j q -> ppid p = ppid q -> i = j.

Lemma proc_at_occ pp i p : proc_at pp i = Some p <-> occ pp i p.
Proof.
  unfold proc_at, occ; destruct (pp !! i) as [[q |] |]; simpl; split; intros H; simplify_eq; done.
Qed.

Lemma find_pcb_spec pp n :
  match find_pcb pp n with
  | Some i => exists p, occ pp i p /\ ppid p = n
  | None => forall i p, occ pp i p -> ppid p <> n
  end.
Proof.
  unfold find_pcb, find_slot, bases; destruct (list_find (slot_has n) _) as [[i o] |] eqn:E; simpl.
  - apply list_find_Some in E as (Hi & Ho & _); rewrite list_lookup_fmap in Hi; destruct (pp !! i) as [[p |] |] eqn:Ep; simplify_eq/=; [eauto | done].
  - intros i p Hp; apply list_find_None in E; rewrite Forall_lookup in E; intros Hn; apply (E i (Some (base p))).
    + by rewrite list_lookup_fmap, Hp.
    + done.
Qed.

Lemma find_pcb_occ pp i p : distinct pp -> occ pp i p -> find_pcb pp (ppid p) = Some i.
Proof.
  intros Hd Hp; pose proof (find_pcb_spec pp (ppid p)) as H; destruct (find_pcb pp (ppid p)) as [j |].
  - destruct H as (q & Hq & E); f_equal; by eapply Hd.
  - by apply H in Hp.
Qed.

(** What leaving does to the others: the parent's count, then each is
    [cleaned] of the dead, and the heir has [gained] the children. *)
Definition decremented (parent : Z) (q : pcb) : pcb :=
  if (0 <? parent) && (ppid q =? parent) then with_children (fun n => if 0 <? n then n - 1 else n) q else q.

Definition cleaned (dead_pid heir_pid : Z) (q : pcb) : pcb :=
  let q := if owner_pid (base q) =? dead_pid then with_base (fun b => with_owner b 0) q else q in
  if parent_pid (base q) =? dead_pid then with_base (with_parent heir_pid) q else q.

Definition gained (n : Z) (q : pcb) : pcb := with_children (fun m => m + n) q.

Lemma child_count_dec_spec pp dead j :
  distinct pp -> child_count_dec pp dead !! j = fmap (decremented (parent_pid (base dead))) <$> pp !! j.
Proof.
  intros Hd; unfold child_count_dec, decremented; destruct (Z.leb_spec (parent_pid (base dead)) 0) as [Hp | Hp].
  { destruct (pp !! j) as [[q |] |] eqn:E; simpl; try done; by destruct (Z.ltb_spec 0 (parent_pid (base dead))); [lia |]. }
  replace (0 <? parent_pid (base dead)) with true by lia; simpl.
  pose proof (find_pcb_spec pp (parent_pid (base dead))) as H; destruct (find_pcb pp _) as [i |].
  - destruct H as (p & Hi & Epid); destruct (decide (j = i)) as [-> | Hne].
    + rewrite list_lookup_alter_eq, Hi; simpl; rewrite <- Epid, Z.eqb_refl; done.
    + rewrite list_lookup_alter_ne by done; destruct (pp !! j) as [[q |] |] eqn:E; simpl; try done.
      destruct (Z.eqb_spec (ppid q) (parent_pid (base dead))) as [E2 |]; [| done].
      destruct Hne; eapply Hd; [exact E | exact Hi | congruence].
  - destruct (pp !! j) as [[q |] |] eqn:E; simpl; try done.
    destruct (Z.eqb_spec (ppid q) (parent_pid (base dead))); [by destruct (H j q E) | done].
Qed.


(** The children of slot [j] if it is the heir. *)
Definition if_heir (heir : option nat) (j : nat) (n : Z) : Z := if decide (heir = Some j) then n else 0.

Lemma gained_0 q : gained 0 q = q.
Proof. destruct q; unfold gained, with_children; simpl; by rewrite Z.add_0_r. Qed.

Lemma gained_gained a b q : gained a (gained b q) = gained (b + a) q.
Proof. unfold gained, with_children; simpl; by rewrite Z.add_assoc. Qed.

Lemma cleaned_gained d h n q : cleaned d h (gained n q) = gained n (cleaned d h q).
Proof.
  unfold cleaned, gained, with_children, with_base; simpl.
  destruct (owner_pid (base q) =? d); simpl; by destruct (parent_pid (base q) =? d).
Qed.

Lemma cleaned_id d h q : owner_pid (base q) <> d -> parent_pid (base q) <> d -> cleaned d h q = q.
Proof.
  intros H1 H2; unfold cleaned; destruct (Z.eqb_spec (owner_pid (base q)) d); [done |]; by destruct (Z.eqb_spec (parent_pid (base q)) d).
Qed.

Lemma adopt_one_spec d heir h pp i j :
  adopt_one d heir h pp i !! j =
  fmap (fun q => gained (if_heir heir j (default 0 (is_kid d <$> pp !! i))) (if decide (j = i) then cleaned d h q else q))
    <$> pp !! j.
Proof.
  unfold adopt_one, proc_at; destruct (pp !! i) as [[p |] |] eqn:Ei; simpl.
  2, 3: destruct (pp !! j) as [[q |] |] eqn:Ej; simpl; try done; unfold if_heir; case_decide; rewrite gained_0;
    (case_decide; [subst; congruence | done]).
  set (p1 := if owner_pid (base p) =? d then _ else _).
  assert (Hp1 : parent_pid (base p1) = parent_pid (base p)) by (unfold p1; by destruct (_ =? _)).
  assert (Hlt := lookup_lt_Some _ _ _ Ei); rewrite Hp1.
  assert (Hc : cleaned d h p = if parent_pid (base p) =? d then with_base (with_parent h) p1 else p1)
    by (unfold cleaned; fold p1; by rewrite Hp1).
  destruct (Z.eqb_spec (parent_pid (base p)) d) as [Hpar | Hpar]; simpl.
  - assert (Hset : forall k, <[i := Some (with_base (with_parent h) p1)]> pp !! k =
      fmap (fun q => if decide (k = i) then cleaned d h q else q) <$> pp !! k).
    { intros k; destruct (decide (k = i)) as [-> | Hk].
      - rewrite list_lookup_insert_eq, Ei by done; simpl; by rewrite Hc.
      - rewrite list_lookup_insert_ne by done; by destruct (pp !! k) as [[|] |]. }
    unfold if_heir; destruct heir as [k |].
    + destruct (decide (k = j)) as [-> | Hk].
      * rewrite list_lookup_alter_eq, Hset, decide_True by done; destruct (pp !! j) as [[q |] |]; done.
      * rewrite list_lookup_alter_ne, Hset, decide_False by congruence.
        destruct (pp !! j) as [[q |] |]; simpl; rewrite ?gained_0; done.
    + rewrite Hset, decide_False by done; destruct (pp !! j) as [[q |] |]; simpl; rewrite ?gained_0; done.
  - replace (if_heir heir j 0) with 0 by (unfold if_heir; by case_decide).
    destruct (decide (j = i)) as [-> | Hk].
    + rewrite list_lookup_insert_eq, Ei by done; simpl; by rewrite gained_0, Hc.
    + rewrite list_lookup_insert_ne by done; destruct (pp !! j) as [[q |] |]; simpl; rewrite ?gained_0; done.
Qed.

(** The loop of [__reparent_children], stopped before slot [m]. *)
Lemma adopt_loop d heir h pp m j :
  (m <= length pp)%nat ->
  foldl (adopt_one d heir h) pp (seq 0 m) !! j =
  fmap (fun q => gained (if_heir heir j (kids (take m pp) d)) (if decide (j < m)%nat then cleaned d h q else q)) <$> pp !! j.
Proof.
  revert j; induction m as [| m IH]; intros j Hm.
  { cbn [seq foldl take]; change (kids [] d) with 0; unfold if_heir; destruct (pp !! j) as [[q |] |]; cbn; try done.
    case_decide; by rewrite gained_0. }
  rewrite seq_S, foldl_snoc, adopt_one_spec, !IH by lia; simpl.
  destruct (lookup_lt_is_Some_2 pp m) as [o Ho]; [lia |]; rewrite Ho, (take_S_r _ _ _ Ho).
  unfold kids; rewrite zsum_app; cbn [zsum default fmap option_fmap option_map].
  match goal with |- context [is_kid d (?f <$> o)] =>
    assert (Hk : id (is_kid d (f <$> o)) = is_kid d o)
      by (destruct o; [cbn; by rewrite (decide_False (P := (m < m)%nat)) by lia | done]); rewrite Hk end.
  destruct (pp !! j) as [[q |] |] eqn:Ej; simpl; try done; do 2 f_equal.
  unfold if_heir; destruct (decide (j = m)) as [-> | Hj].
  - rewrite (decide_False (P := (m < m)%nat)), (decide_True (P := (m < S m)%nat)) by lia.
    destruct (decide (heir = Some m)); rewrite ?gained_0, ?cleaned_gained, ?gained_gained; [f_equal; lia | done].
  - destruct (decide (j < m)%nat), (decide (j < S m)%nat); try lia;
      (destruct (decide (heir = Some j)); rewrite ?gained_0, ?gained_gained; [f_equal; lia | done]).
Qed.

(** The heir of a dead process that is no longer in the pool. *)
Definition heir_slot (pp : list (option pcb)) (dead : pcb) : option nat :=
  match if 0 <? parent_pid (base dead) then find_pcb pp (parent_pid (base dead)) else None with
  | Some h => Some h
  | None => if pid (base dead) =? 1 then None else find_pcb pp 1
  end.
Definition heir_pid (pp : list (option pcb)) (dead : pcb) : Z :=
  match h ← heir_slot pp dead; proc_at pp h with Some h => ppid h | None => 0 end.

Lemma reparent_spec pp dead j :
  length pp = MAX_PROCESSES ->
  reparent_children pp dead !! j =
  fmap (fun q => gained (if_heir (heir_slot pp dead) j (kids pp (ppid dead)))
                   (cleaned (ppid dead) (heir_pid pp dead) q)) <$> pp !! j.
Proof.
  intros Hl; unfold reparent_children; fold (heir_slot pp dead); fold (heir_pid pp dead); fold (ppid dead).
  rewrite adopt_loop by lia; rewrite take_ge by lia; destruct (pp !! j) as [[q |] |] eqn:E; simpl; try done.
  rewrite decide_True; [done |]; apply lookup_lt_Some in E; lia.
Qed.

Lemma length_child_count_dec pp dead : length (child_count_dec pp dead) = length pp.
Proof. unfold child_count_dec; case_match; [done |]; case_match; [by rewrite length_alter | done]. Qed.

Lemma length_reparent pp dead : length (reparent_children pp dead) = length pp.
Proof.
  unfold reparent_children; generalize (seq 0 MAX_PROCESSES); intros l; revert pp.
  assert (H : forall d heir h pp i, length (adopt_one d heir h pp i) = length pp).
  { intros d heir h pp i; unfold adopt_one; case_match; [| done]; repeat case_match; rewrite ?length_alter, ?length_insert; done. }
  intros pp; match goal with |- length (foldl (adopt_one ?d ?heir ?h) _ _) = _ => generalize d, heir, h end.
  intros d heir h; revert pp; induction l as [| i l IH]; intros pp; simpl; [done |]; by rewrite IH, H.
Qed.

(** ** The invariant of the pool *)

Record pool_ok (pp : list (option pcb)) (np nip : Z) : Prop := {
  o_len : length pp = MAX_PROCESSES;
  o_pid : forall i p, occ pp i p -> ppid p = pid (base p) /\ (1 <= ppid p < np \/ 32000 <= ppid p < nip);
  o_distinct : distinct pp;
  o_parent : forall i p, occ pp i p -> parent_pid (base p) = 0 \/
    exists j q, occ pp j q /\ ppid q = parent_pid (base p) /\ ppid q < ppid p;
  o_owner : forall i p, occ pp i p -> owner_pid (base p) = 0 \/ exists j q, occ pp j q /\ ppid q = owner_pid (base p);
  o_kids : forall i p, occ pp i p -> child_count p = kids pp (ppid p)
}.

Lemma pid_pos pp np nip i p : pool_ok pp np nip -> occ pp i p -> 1 <= ppid p.
Proof. intros O H; destruct (o_pid _ _ _ O i p H) as [_ ?]; lia. Qed.

(** The pid does not change, nor does the parent but by adoption. *)
Lemma ppid_decremented n q : ppid (decremented n q) = ppid q.
Proof. unfold decremented; by destruct (_ && _). Qed.
Lemma parent_decremented n q : parent_pid (base (decremented n q)) = parent_pid (base q).
Proof. unfold decremented; by destruct (_ && _). Qed.
Lemma owner_decremented n q : owner_pid (base (decremented n q)) = owner_pid (base q).
Proof. unfold decremented; by destruct (_ && _). Qed.

Lemma cleaned_fields d h q :
  ppid (cleaned d h q) = ppid q /\ pid (base (cleaned d h q)) = pid (base q) /\
  child_count (cleaned d h q) = child_count q /\
  parent_pid (base (cleaned d h q)) = (if parent_pid (base q) =? d then h else parent_pid (base q)) /\
  owner_pid (base (cleaned d h q)) = (if owner_pid (base q) =? d then 0 else owner_pid (base q)).
Proof.
  unfold cleaned; destruct (owner_pid (base q) =? d); simpl; destruct (parent_pid (base q) =? d); done.
Qed.

Section removal.
Context (pp : list (option pcb)) (np nip : Z) (s : nat) (p : pcb).
Context (O : pool_ok pp np nip) (Hs : occ pp s p).

Definition left_pool : list (option pcb) := child_count_dec (<[s := None]> pp) p.

Lemma removed_occ j q : occ (<[s := None]> pp) j q <-> occ pp j q /\ j <> s.
Proof.
  unfold occ; destruct (decide (j = s)) as [-> | Hj].
  - rewrite list_lookup_insert_eq by (by eapply lookup_lt_Some); split; [done | intros [_ ?]; done].
  - rewrite list_lookup_insert_ne by done; tauto.
Qed.

Lemma removed_distinct : distinct (<[s := None]> pp).
Proof. intros i j a b [Ha _]%removed_occ [Hb _]%removed_occ; by eapply (o_distinct _ _ _ O). Qed.

Lemma left_lookup j : left_pool !! j = fmap (decremented (parent_pid (base p))) <$> <[s := None]> pp !! j.
Proof. apply child_count_dec_spec, removed_distinct. Qed.

Lemma left_occ j q' : occ left_pool j q' <-> exists q, occ pp j q /\ j <> s /\ q' = decremented (parent_pid (base p)) q.
Proof.
  unfold occ; rewrite left_lookup; split.
  - intros H; destruct (<[s := None]> pp !! j) as [[q |] |] eqn:E; simpl in H; simplify_eq.
    exists q; apply removed_occ in E as [? ?]; done.
  - intros (q & H1 & H2 & ->); rewrite (proj2 (removed_occ j q)) by done; done.
Qed.

Lemma kids_left n : kids left_pool n = kids pp n - is_kid n (Some p).
Proof.
  transitivity (kids (<[s := None]> pp) n); [| unfold kids; rewrite (zsum_insert _ pp s (Some p)) by exact Hs; simpl; lia].
  unfold kids; rewrite <- (Z.add_0_r (zsum _ (<[s := None]> pp))), <- (zsum_zero (<[s := None]> pp)).
  apply zsum_two; [unfold left_pool; by rewrite length_child_count_dec |]; intros i a b Ha Hb.
  rewrite left_lookup, Ha in Hb; injection Hb as <-; destruct a as [q |]; simpl; [| done].
  rewrite parent_decremented; lia.
Qed.

(** The heir is one of those left, and older than the dead. *)
Lemma heir_pid_of h n :
  heir_slot left_pool p = Some h -> find_pcb left_pool n = Some h -> n < ppid p ->
  h <> s /\ exists q, occ pp h q /\ heir_pid left_pool p = ppid q /\ ppid q < ppid p.
Proof.
  intros Hh E Hn; pose proof (find_pcb_spec left_pool n) as H; rewrite E in H; destruct H as (q' & Hq & En).
  unfold heir_pid; rewrite Hh; simpl; rewrite (proj2 (proc_at_occ _ _ _) Hq).
  apply left_occ in Hq as (q & Hq & Hne & ->); rewrite ppid_decremented in *.
  split; [done |]; exists q; split; [done |]; split; [done |]; lia.
Qed.

Lemma heir_spec :
  match heir_slot left_pool p with
  | Some h => h <> s /\ exists q, occ pp h q /\ heir_pid left_pool p = ppid q /\ ppid q < ppid p
  | None => heir_pid left_pool p = 0
  end.
Proof.
  destruct (heir_slot left_pool p) as [h |] eqn:Hh; [| unfold heir_pid; by rewrite Hh].
  assert (Hp := pid_pos _ _ _ _ _ O Hs); destruct (o_pid _ _ _ O s p Hs) as [Epid _].
  assert (Hinit : (if pid (base p) =? 1 then None else find_pcb left_pool 1) = Some h ->
    h <> s /\ exists q, occ pp h q /\ heir_pid left_pool p = ppid q /\ ppid q < ppid p).
  { destruct (Z.eqb_spec (pid (base p)) 1); [done |]; intros E; apply (heir_pid_of h 1 Hh E); lia. }
  pose proof Hh as Hh'; unfold heir_slot in Hh'; destruct (Z.ltb_spec 0 (parent_pid (base p))) as [Hpar |]; [| by apply Hinit].
  destruct (find_pcb left_pool (parent_pid (base p))) as [h' |] eqn:E; [| by apply Hinit].
  injection Hh' as ->; apply (heir_pid_of h _ Hh E).
  destruct (o_parent _ _ _ O s p Hs) as [H0 | (j & q & _ & H1 & H2)]; lia.
Qed.

Definition final_pool : list (option pcb) := reparent_children left_pool p.

Definition final_of (j : nat) (q : pcb) : pcb :=
  gained (if_heir (heir_slot left_pool p) j (kids left_pool (ppid p)))
    (cleaned (ppid p) (heir_pid left_pool p) (decremented (parent_pid (base p)) q)).

Lemma final_lookup j : final_pool !! j = fmap (final_of j) <$> <[s := None]> pp !! j.
Proof.
  unfold final_pool; rewrite reparent_spec, left_lookup by
    (unfold left_pool; rewrite length_child_count_dec, length_insert; apply O).
  by destruct (<[s := None]> pp !! j) as [[q |] |].
Qed.

Lemma final_occ j q' : occ final_pool j q' <-> exists q, occ pp j q /\ j <> s /\ q' = final_of j q.
Proof.
  unfold occ; rewrite final_lookup; split.
  - intros H; destruct (<[s := None]> pp !! j) as [[q |] |] eqn:E; simpl in H; simplify_eq.
    exists q; apply removed_occ in E as [? ?]; done.
  - intros (q & H1 & H2 & ->); by rewrite (proj2 (removed_occ j q)).
Qed.

Lemma final_fields j q :
  ppid (final_of j q) = ppid q /\ pid (base (final_of j q)) = pid (base q) /\
  parent_pid (base (final_of j q)) = (if (parent_pid (base q) =? ppid p) then heir_pid left_pool p else parent_pid (base q)) /\
  owner_pid (base (final_of j q)) = (if owner_pid (base q) =? ppid p then 0 else owner_pid (base q)) /\
  child_count (final_of j q) = child_count (decremented (parent_pid (base p)) q) +
    if_heir (heir_slot left_pool p) j (kids left_pool (ppid p)).
Proof.
  destruct (cleaned_fields (ppid p) (heir_pid left_pool p) (decremented (parent_pid (base p)) q)) as (H1 & H2 & H3 & H4 & H5).
  unfold final_of; cbn [gained with_children base child_count].
  rewrite parent_decremented in H4; rewrite owner_decremented in H5; unfold ppid in *; cbn [gained with_children base].
  rewrite H2, H3, H4, H5; unfold decremented; by destruct (_ && _).
Qed.

Lemma kids_final n :
  n <> ppid p -> kids final_pool n = kids left_pool n + if n =? heir_pid left_pool p then kids left_pool (ppid p) else 0.
Proof.
  intros Hn; set (g := fun o => if n =? heir_pid left_pool p then is_kid (ppid p) o else 0).
  transitivity (kids left_pool n + zsum g left_pool).
  2:{ f_equal; unfold g; destruct (n =? heir_pid left_pool p); [done | apply zsum_zero]. }
  unfold kids; apply zsum_two; [unfold final_pool; by rewrite length_reparent |].
  intros i a b Ha Hb; rewrite final_lookup in Hb; rewrite left_lookup in Ha.
  destruct (<[s := None]> pp !! i) as [[q |] |]; [| injection Ha as <-; injection Hb as <-; unfold g; by destruct (n =? _) | done].
  injection Ha as <-; injection Hb as <-.
  unfold g; cbn [is_kid]; destruct (final_fields i q) as (_ & _ & -> & _); rewrite parent_decremented.
  destruct (Z.eqb_spec (parent_pid (base q)) (ppid p)) as [E | E].
  - rewrite E; destruct (Z.eqb_spec (ppid p) n); [congruence |]; rewrite Z.eqb_sym; by destruct (n =? _).
  - destruct (parent_pid (base q) =? n), (n =? heir_pid left_pool p); done.
Qed.

Lemma final_find n :
  (exists j q, occ pp j q /\ ppid q = n) -> n <> ppid p -> exists j q, occ final_pool j q /\ ppid q = n.
Proof.
  intros (j & q & Hq & En) Hn; assert (j <> s) by (intros ->; assert (q = p) by (unfold occ in *; congruence); congruence).
  exists j, (final_of j q); split; [apply final_occ; eauto |]; destruct (final_fields j q) as [-> _]; done.
Qed.

(** The heir is there afterwards, unless its number is 0. *)
Lemma heir_found : heir_pid left_pool p = 0 \/
  (heir_pid left_pool p < ppid p /\ exists j q, occ final_pool j q /\ ppid q = heir_pid left_pool p).
Proof.
  assert (Hh := heir_spec); destruct (heir_slot left_pool p) as [h |]; [right | by left].
  destruct Hh as (Hne & q & Hq & E & Hlt); split; [lia |]; apply final_find; [eauto | lia].
Qed.

(** The counts of the processes left are right. *)
Lemma final_kids j q : occ pp j q -> j <> s -> child_count (final_of j q) = kids final_pool (ppid q).
Proof.
  intros Hq Hj; assert (Hn : ppid q <> ppid p) by (intros E; by apply Hj, (o_distinct _ _ _ O j s q p)).
  destruct (final_fields j q) as (_ & _ & _ & _ & ->); rewrite kids_final, (kids_left (ppid q)) by done; f_equal.
  - assert (Hc := o_kids _ _ _ O j q Hq); assert (Hpos := pid_pos _ _ _ _ _ O Hq); unfold decremented; cbn [is_kid].
    rewrite (Z.eqb_sym (parent_pid (base p))); destruct (Z.eqb_spec (ppid q) (parent_pid (base p))) as [E | E];
      [| rewrite andb_false_r; lia].
    replace (0 <? parent_pid (base p)) with true by lia; simpl.
    assert (Hone := zsum_pos (is_kid (ppid q)) pp s (Some p) (is_kid_nonneg _) Hs); simpl in Hone.
    rewrite E, Z.eqb_refl in Hone; unfold kids in Hc; rewrite E in Hc; destruct (Z.ltb_spec 0 (child_count q)); unfold kids; rewrite ?E; lia.
  - unfold if_heir; assert (Hh := heir_spec); destruct (heir_slot left_pool p) as [h |].
    + destruct Hh as (_ & x & Hx & -> & _); case_decide as Hd.
      * injection Hd as ->; assert (x = q) as -> by (unfold occ in *; congruence); by rewrite Z.eqb_refl.
      * destruct (Z.eqb_spec (ppid q) (ppid x)) as [E |]; [| done]; destruct Hd; f_equal; by eapply (o_distinct _ _ _ O).
    + rewrite Hh; destruct (Z.eqb_spec (ppid q) 0); [| done].
      assert (Hpos := pid_pos _ _ _ _ _ O Hq); lia.
Qed.

Lemma removal_ok : pool_ok final_pool np nip.
Proof.
  constructor.
  - unfold final_pool, left_pool; rewrite length_reparent, length_child_count_dec, length_insert; apply O.
  - intros i q' (q & Hq & _ & ->)%final_occ; destruct (final_fields i q) as (-> & -> & _); by apply (o_pid _ _ _ O i).
  - intros i j a b (qa & Ha & _ & ->)%final_occ (qb & Hb & _ & ->)%final_occ.
    destruct (final_fields i qa) as [-> _], (final_fields j qb) as [-> _]; by apply (o_distinct _ _ _ O).
  - intros i q' (q & Hq & _ & ->)%final_occ; destruct (final_fields i q) as (-> & _ & -> & _).
    destruct (o_parent _ _ _ O i q Hq) as [E | (j & x & Hx & E & Hlt)].
    + destruct (Z.eqb_spec (parent_pid (base q)) (ppid p)) as [E2 |]; [| by left].
      assert (Hpos := pid_pos _ _ _ _ _ O Hs); lia.
    + destruct (Z.eqb_spec (parent_pid (base q)) (ppid p)) as [E2 | E2].
      * destruct heir_found as [-> | (Hl & k & y & Hy & Ey)]; [by left | right]; exists k, y; split; [done |]; split; [done | lia].
      * right; destruct (final_find (parent_pid (base q))) as (k & y & Hy & Ey); [eauto | done |].
        exists k, y; split; [done |]; split; [done | lia].
  - intros i q' (q & Hq & _ & ->)%final_occ; destruct (final_fields i q) as (_ & _ & _ & -> & _).
    destruct (Z.eqb_spec (owner_pid (base q)) (ppid p)) as [E2 |]; [by left |].
    destruct (o_owner _ _ _ O i q Hq) as [E | (j & x & Hx & E)]; [by left | right]; apply final_find; eauto.
  - intros i q' (q & Hq & Hi & ->)%final_occ; rewrite final_kids by done; by destruct (final_fields i q) as [-> _].
Qed.

Lemma removal_active : zsum is_proc final_pool = zsum is_proc pp - 1.
Proof.
  transitivity (zsum is_proc (<[s := None]> pp)); [| rewrite (zsum_insert _ pp s (Some p)) by exact Hs; simpl; lia].
  rewrite <- (Z.add_0_r (zsum _ (<[s := None]> pp))), <- (zsum_zero (<[s := None]> pp)).
  apply zsum_two; [unfold final_pool, left_pool; by rewrite length_reparent, length_child_count_dec |].
  intros i a b Ha Hb; rewrite final_lookup, Ha in Hb; injection Hb as <-; by destruct a.
Qed.
End removal.

(** [process_set_owner] on the descriptors. *)
Definition set_owner (t : table) (n owner : Z) : table :=
  match find_pcb (process_pool t) n, find_pcb (process_pool t) owner with
  | Some i, Some _ => set_pool t (alter (fmap (with_base (fun b => with_owner b owner))) i (process_pool t))
  | _, _ => t
  end.

(** A field update that leaves pids, parents, owners and counts alone. *)
Lemma same_family pp pp' np nip :
  length pp' = length pp ->
  (forall i, (fun o : option pcb => (fun p => (base p, child_count p)) <$> o) <$> pp' !! i =
             (fun o : option pcb => (fun p => (base p, child_count p)) <$> o) <$> pp !! i) ->
  pool_ok pp np nip -> pool_ok pp' np nip /\ zsum is_proc pp' = zsum is_proc pp.
Proof.
  intros Hl H O.
  assert (Hocc : forall i p', occ pp' i p' -> exists p, occ pp i p /\ base p' = base p /\ child_count p' = child_count p).
  { intros i p' Hp; specialize (H i); rewrite Hp in H; destruct (pp !! i) as [[p |] |] eqn:E; simplify_eq/=; eauto. }
  assert (Hocc2 : forall i p, occ pp i p -> exists p', occ pp' i p' /\ base p' = base p).
  { intros i p Hp; specialize (H i); rewrite Hp in H; destruct (pp' !! i) as [[p' |] |] eqn:E; simplify_eq/=; eauto. }
  assert (Hz : forall f, (forall o o', (fun p => (base p, child_count p)) <$> o = (fun p => (base p, child_count p)) <$> o' -> f o = f o') ->
    zsum f pp' = zsum f pp).
  { intros f Hf; rewrite (zsum_two f f (fun _ => 0) pp pp'), zsum_zero; [lia | done |]; intros i a b Ha Hb.
    specialize (H i); rewrite Ha, Hb in H; injection H as H; rewrite (Hf b a H); lia. }
  assert (Hk : forall n, kids pp' n = kids pp n).
  { intros n; apply Hz; intros [a |] [b |] E; try discriminate E; [| done]; injection E as E1 _; simpl; by rewrite E1. }
  assert (Hpid : forall p p' : pcb, base p' = base p -> ppid p' = ppid p) by (unfold ppid; congruence).
  split; [| apply Hz; by intros [a |] [b |] E; try discriminate E].
  constructor.
  - rewrite Hl; apply O.
  - intros i p' (p & Hp & E & _)%Hocc; rewrite (Hpid p p' E), E; by apply (o_pid _ _ _ O i).
  - intros i j p' q' (p & Hp & E & _)%Hocc (q & Hq & E2 & _)%Hocc; rewrite (Hpid p p' E), (Hpid q q' E2); by apply (o_distinct _ _ _ O).
  - intros i p' (p & Hp & E & _)%Hocc; rewrite E, (Hpid p p' E); destruct (o_parent _ _ _ O i p Hp) as [? | (j & q & Hq & H1 & H2)]; [by left | right].
    destruct (Hocc2 j q Hq) as (q' & Hq' & E2); exists j, q'; by rewrite (Hpid q q' E2).
  - intros i p' (p & Hp & E & _)%Hocc; rewrite E; destruct (o_owner _ _ _ O i p Hp) as [? | (j & q & Hq & H1)]; [by left | right].
    destruct (Hocc2 j q Hq) as (q' & Hq' & E2); exists j, q'; by rewrite (Hpid q q' E2).
  - intros i p' (p & Hp & E & Ec)%Hocc; rewrite (Hpid p p' E), Hk, Ec; by apply (o_kids _ _ _ O i).
Qed.

Lemma set_owner_ok t n owner :
  pool_ok (process_pool t) (next_pid t) (next_idle_pid t) ->
  pool_ok (process_pool (set_owner t n owner)) (next_pid t) (next_idle_pid t) /\
  zsum is_proc (process_pool (set_owner t n owner)) = zsum is_proc (process_pool t).
Proof.
  intros O; unfold set_owner; pose proof (find_pcb_spec (process_pool t) n) as H1.
  pose proof (find_pcb_spec (process_pool t) owner) as H2; set (pp := process_pool t) in *.
  destruct (find_pcb pp n) as [i |]; [| done]; destruct (find_pcb pp owner) as [j |]; [| done].
  destruct H1 as (p & Hi & _), H2 as (q & Hj & Eq); cbn [process_pool set_pool]; set (pp' := alter _ i pp).
  assert (Hocc : forall k x', occ pp' k x' -> exists x, occ pp k x /\ ppid x' = ppid x /\ pid (base x') = pid (base x) /\
    parent_pid (base x') = parent_pid (base x) /\ child_count x' = child_count x /\
    (owner_pid (base x') = owner_pid (base x) \/ owner_pid (base x') = owner)).
  { intros k x' Hx; unfold occ, pp' in Hx; destruct (decide (k = i)) as [-> | Hk].
    - rewrite list_lookup_alter_eq, Hi in Hx; injection Hx as <-; exists p; repeat split; auto.
    - rewrite list_lookup_alter_ne in Hx by done; exists x'; repeat split; auto. }
  assert (Hocc2 : forall k x, occ pp k x -> exists x', occ pp' k x' /\ ppid x' = ppid x).
  { intros k x Hx; unfold occ, pp'; destruct (decide (k = i)) as [-> | Hk].
    - rewrite list_lookup_alter_eq, Hx; simpl; by eexists.
    - rewrite list_lookup_alter_ne by done; eauto. }
  assert (Hz : forall f, (forall x, f (Some (with_base (fun b => with_owner b owner) x)) = f (Some x)) -> zsum f pp' = zsum f pp).
  { intros f Hf; rewrite (zsum_two f f (fun _ => 0) pp pp'), zsum_zero; [lia | unfold pp'; by rewrite length_alter |].
    intros k a b Ha Hb; unfold pp' in Hb; destruct (decide (k = i)) as [-> | Hk].
    - rewrite list_lookup_alter_eq, Ha in Hb; injection Hb as <-; destruct a as [x |]; simpl; rewrite ?Hf; lia.
    - rewrite list_lookup_alter_ne, Ha in Hb by done; injection Hb as <-; lia. }
  assert (Hk : forall m, kids pp' m = kids pp m) by (intros m; by apply Hz).
  split; [| by apply Hz]; constructor.
  - unfold pp'; rewrite length_alter; apply O.
  - intros k x' (x & Hx & -> & -> & _)%Hocc; by apply (o_pid _ _ _ O k).
  - intros k l x' y' (x & Hx & -> & _)%Hocc (y & Hy & -> & _)%Hocc; by apply (o_distinct _ _ _ O).
  - intros k x' (x & Hx & -> & _ & -> & _)%Hocc; destruct (o_parent _ _ _ O k x Hx) as [? | (l & y & Hy & E)]; [by left | right].
    destruct (Hocc2 l y Hy) as (y' & Hy' & Ey); exists l, y'; rewrite Ey; done.
  - intros k x' (x & Hx & _ & _ & _ & _ & [-> | ->])%Hocc.
    + destruct (o_owner _ _ _ O k x Hx) as [? | (l & y & Hy & E)]; [by left | right].
      destruct (Hocc2 l y Hy) as (y' & Hy' & Ey); exists l, y'; rewrite Ey; done.
    + right; destruct (Hocc2 j q Hj) as (y' & Hy' & Ey); exists j, y'; rewrite Ey; done.
  - intros k x' (x & Hx & -> & _ & _ & -> & _)%Hocc; rewrite Hk; by apply (o_kids _ _ _ O k).
Qed.

(** ** Creation keeps the invariant *)

(** A new process [x] in a free slot; its parent, if any, counts it. *)
Lemma insert_ok pp np nip np' nip' slot x who :
  pool_ok pp np nip -> pp !! slot = Some None -> np <= np' -> nip <= nip' -> child_count x = 0 -> owner_pid (base x) = 0 ->
  ppid x = pid (base x) -> (1 <= ppid x < np' \/ 32000 <= ppid x < nip') -> (forall i p, occ pp i p -> ppid p <> ppid x) ->
  match who with
  | Some w => exists c, occ pp w c /\ parent_pid (base x) = ppid c /\ ppid c < ppid x
  | None => parent_pid (base x) = 0
  end ->
  let pp' := match who with
             | Some w => alter (fmap (with_children (fun n => n + 1))) w (<[slot := Some x]> pp)
             | None => <[slot := Some x]> pp
             end in
  pool_ok pp' np' nip' /\ zsum is_proc pp' = zsum is_proc pp + 1.
Proof.
  intros O Hs Hnp Hnip Hc0 Ho0 Hxp Hx Hfresh Hw pp'.
  assert (Hlt := lookup_lt_Some _ _ _ Hs).
  assert (Hlook : forall j, pp' !! j = (fmap (fun q => gained (if_heir who j 1) q)) <$> <[slot := Some x]> pp !! j).
  { intros j; unfold pp', if_heir; destruct who as [w |].
    - destruct (decide (Some w = Some j)) as [E | E]; [injection E as ->; by rewrite list_lookup_alter_eq |].
      rewrite list_lookup_alter_ne by congruence; destruct (<[slot := Some x]> pp !! j) as [[q |] |]; simpl; by rewrite ?gained_0.
    - rewrite decide_False by done; destruct (<[slot := Some x]> pp !! j) as [[q |] |]; simpl; by rewrite ?gained_0. }
  assert (Hne : who <> Some slot).
  { intros ->; destruct Hw as (c & Hc & _); unfold occ in Hc; congruence. }
  assert (Hocc : forall j q', occ pp' j q' -> (j = slot /\ q' = x) \/ (exists q, occ pp j q /\ j <> slot /\ q' = gained (if_heir who j 1) q)).
  { intros j q' H; unfold occ in H; rewrite Hlook in H; destruct (decide (j = slot)) as [-> | Hj].
    - rewrite list_lookup_insert_eq in H by done; injection H as <-; left; split; [done |].
      unfold if_heir; rewrite decide_False by done; apply gained_0.
    - rewrite list_lookup_insert_ne in H by done; right; destruct (pp !! j) as [[q |] |] eqn:E; simplify_eq/=; eauto. }
  assert (Hocc2 : forall j q, occ pp j q -> exists q', occ pp' j q' /\ ppid q' = ppid q).
  { intros j q H; assert (j <> slot) by (intros ->; unfold occ in H; congruence); unfold occ; rewrite Hlook, list_lookup_insert_ne, H by done.
    simpl; by eexists. }
  assert (Hz : forall f, (forall n q, f (Some (gained n q)) = f (Some q)) -> f None = 0 -> zsum f pp' = zsum f pp + f (Some x)).
  { intros f Hf H0; transitivity (zsum f (<[slot := Some x]> pp)); [| rewrite (zsum_insert _ _ _ _ _ Hs); lia].
    rewrite (zsum_two f f (fun _ => 0) (<[slot := Some x]> pp) pp'), zsum_zero; [lia | |].
    - unfold pp'; destruct who; by rewrite ?length_alter.
    - intros i a b Ha Hb; rewrite Hlook, Ha in Hb; injection Hb as <-; destruct a; simpl; rewrite ?Hf; lia. }
  assert (Hk : forall n, kids pp' n = kids pp n + is_kid n (Some x)) by (intros n; by apply Hz).
  split; [| by apply Hz]; constructor.
  - transitivity (length (<[slot := Some x]> pp)); [unfold pp'; destruct who; by rewrite ?length_alter | rewrite length_insert; apply O].
  - intros i q' [[-> ->] | (q & Hq & _ & ->)]%Hocc; [done |].
    destruct (o_pid _ _ _ O i q Hq) as [E H]; split; [done |]; unfold ppid in *; simpl; lia.
  - intros i j a b [[-> ->] | (qa & Ha & _ & ->)]%Hocc [[-> ->] | (qb & Hb & _ & ->)]%Hocc E; [done | | |].
    + by destruct (Hfresh j qb Hb).
    + by destruct (Hfresh i qa Ha).
    + by eapply (o_distinct _ _ _ O).
  - intros i q' [[-> ->] | (q & Hq & _ & ->)]%Hocc.
    + destruct who as [w |]; [right | by left]; destruct Hw as (c & Hc & E & Hl).
      destruct (Hocc2 w c Hc) as (c' & Hc' & Ec); exists w, c'; rewrite Ec; done.
    + destruct (o_parent _ _ _ O i q Hq) as [? | (j & y & Hy & E & Hl)]; [by left | right].
      destruct (Hocc2 j y Hy) as (y' & Hy' & Ey); exists j, y'; rewrite Ey; done.
  - intros i q' [[-> ->] | (q & Hq & _ & ->)]%Hocc; [by left |].
    destruct (o_owner _ _ _ O i q Hq) as [? | (j & y & Hy & E)]; [by left | right].
    destruct (Hocc2 j y Hy) as (y' & Hy' & Ey); exists j, y'; rewrite Ey; done.
  - intros i q' [[-> ->] | (q & Hq & Hi & ->)]%Hocc; rewrite Hk.
    + assert (Hz0 : kids pp (ppid x) = 0).
      { unfold kids; rewrite (zsum_ext _ (fun _ => 0)); [apply zsum_zero |]; intros i [q |] Hq; [| done]; simpl.
        destruct (Z.eqb_spec (parent_pid (base q)) (ppid x)) as [E |]; [| done].
        destruct (o_parent _ _ _ O i q Hq) as [E0 | (j & y & Hy & Ey & _)]; [lia | by destruct (Hfresh j y Hy); congruence]. }
      rewrite Hc0, Hz0; simpl; destruct (Z.eqb_spec (parent_pid (base x)) (ppid x)) as [E |]; [| done].
      destruct who as [w |]; [destruct Hw as (c & _ & ? & ?) |]; lia.
    + change (ppid (gained (if_heir who i 1) q)) with (ppid q).
      cbn [gained with_children child_count is_kid]; rewrite (o_kids _ _ _ O i q Hq); f_equal; unfold if_heir.
      destruct who as [w |]; [destruct Hw as (c & Hc & -> & _) |].
      * destruct (decide (Some w = Some i)) as [E | E].
        -- injection E as ->; assert (c = q) as -> by (unfold occ in *; congruence); by rewrite Z.eqb_refl.
        -- destruct (Z.eqb_spec (ppid c) (ppid q)) as [E2 |]; [| done]; destruct E; f_equal; by eapply (o_distinct _ _ _ O).
      * rewrite decide_False by done; rewrite Hw; assert (Hp := pid_pos _ _ _ _ _ O Hq).
        destruct (Z.eqb_spec 0 (ppid q)); [lia | done].
Qed.

Lemma find_free_slot_spec pp :
  0 <= find_free_slot (bases pp) -> pp !! Z.to_nat (find_free_slot (bases pp)) = Some None.
Proof.
  unfold find_free_slot, bases; destruct (list_find _ _) as [[i o] |] eqn:E; [| lia]; intros _.
  apply list_find_Some in E as (Hi & -> & _); rewrite Nat2Z.id; rewrite list_lookup_fmap in Hi.
  destruct (pp !! i) as [[q |] |]; simplify_eq/=; done.
Qed.

(** The table's invariant: the family tree, the counters, and the limit. *)
Record table_ok (t : table) : Prop := {
  t_pool : pool_ok (process_pool t) (next_pid t) (next_idle_pid t);
  t_next : 1 <= next_pid t <= 32000;
  t_idle : 32000 <= next_idle_pid t < 2 ^ 31;
  t_active : active_count t = zsum is_proc (process_pool t);
  t_limit : active_count t <= proc_limit t
}.

Lemma init_ok free_pages : 0 <= free_pages -> table_ok (process_init free_pages).
Proof.
  intros Hf; assert (Hocc : forall i p, ~ occ (replicate MAX_PROCESSES None) i p)
    by (intros i p H; unfold occ in H; apply lookup_replicate in H as [H _]; discriminate H).
  constructor; cbn [process_init process_pool next_pid next_idle_pid active_count proc_limit]; [| lia | lia | done |].
  - constructor; [by rewrite length_replicate | ..]; intros i; intros; by edestruct Hocc.
  - unfold process_limit; destruct (_ <? 8) eqn:E; lia.
Qed.

(** The creator a claim reads, and the pid it gives. *)
Definition creator_of (t : table) (who : option nat) : option pcb := w ← who; proc_at (process_pool t) w.

Definition sane_creator (t : table) (who : option nat) (priority : Z) : Prop :=
  forall w, who = Some w -> exists c, occ (process_pool t) w c /\ (priority = PRIO_IDLE \/ ppid c < next_pid t).

Lemma claim_cases a t who name priority lvl req_caps t' r :
  create_claim a t who name priority lvl req_caps = (t', r) ->
  (r = None /\ t' = t) \/
  exists slot x, r = Some slot /\ check_quota t (creator_of t who) = 0 /\ process_pool t !! slot = Some None /\
    x = snd (create_identity t slot name priority lvl req_caps (creator_of t who) (negb (priority =? PRIO_IDLE) && env_ok a)) /\
    process_pool t' = (match who with
      | Some w => alter (fmap (with_children (fun n => n + 1))) w (<[slot := Some x]> (process_pool t))
      | None => <[slot := Some x]> (process_pool t) end) /\
    next_pid t' = (if priority =? PRIO_IDLE then next_pid t else next_pid t + 1) /\
    next_idle_pid t' = (if priority =? PRIO_IDLE then next_idle_pid t + 1 else next_idle_pid t) /\
    active_count t' = active_count t + 1 /\ proc_limit t' = proc_limit t.
Proof.
  unfold create_claim; fold (creator_of t who).
  destruct (Z.eqb_spec (check_quota t (creator_of t who)) 0) as [Hq |]; [| intros [= <- <-]; by left]; simpl.
  destruct (Z.ltb_spec (find_free_slot (bases (process_pool t))) 0) as [|Hfree]; [intros [= <- <-]; by left |].
  destruct (page_ok a); [| intros [= <- <-]; by left]; intros [= <- <-]; right.
  exists (Z.to_nat (find_free_slot (bases (process_pool t)))); eexists; split; [done |]; split; [done |].
  split; [by apply find_free_slot_spec |]; split; [done |]; done.
Qed.

Lemma identity_fields t slot name priority lvl req_caps creator envblk :
  let x := snd (create_identity t slot name priority lvl req_caps creator envblk) in
  pid (base x) = (if priority =? PRIO_IDLE then next_idle_pid t else next_pid t) /\ child_count x = 0 /\
  owner_pid (base x) = 0 /\ parent_pid (base x) = match creator with Some c => ppid c | None => 0 end.
Proof. done. Qed.

Lemma claim_ok a t who name priority lvl req_caps :
  table_ok t -> sane_creator t who priority -> next_pid t < 32000 -> next_idle_pid t < 2 ^ 31 - 1 ->
  table_ok (fst (create_claim a t who name priority lvl req_caps)).
Proof.
  intros T Hw Hn Hi; destruct (create_claim a t who name priority lvl req_caps) as [t' r] eqn:E.
  apply claim_cases in E as [(_ & ->) | (slot & x & _ & Hq & Hs & Hx & Hpool & En & Ei & Ea & El)]; [done |]; simpl.
  destruct (identity_fields t slot name priority lvl req_caps (creator_of t who) (negb (priority =? PRIO_IDLE) && env_ok a))
    as (Epid & Ec & Eo & Epar); rewrite <- Hx in *.
  destruct T as [O Tn Ti Ta Tl].
  assert (Hpx : ppid x = pid (base x)).
  { unfold ppid; apply i32_small; rewrite Epid; destruct (priority =? PRIO_IDLE); lia. }
  destruct (insert_ok _ _ _ (next_pid t') (next_idle_pid t') slot x who O Hs) as [O' Ha].
  - rewrite En; destruct (priority =? PRIO_IDLE); lia.
  - rewrite Ei; destruct (priority =? PRIO_IDLE); lia.
  - done.
  - done.
  - done.
  - rewrite Hpx, Epid, En, Ei; destruct (priority =? PRIO_IDLE); lia.
  - intros i p Hp; destruct (o_pid _ _ _ O i p Hp) as [_ Hr]; rewrite Hpx, Epid; destruct (priority =? PRIO_IDLE); lia.
  - destruct who as [w |]; [| by rewrite Epar]; destruct (Hw w eq_refl) as (c & Hc & Hlt); exists c; split; [done |].
    assert (Hcr : creator_of t (Some w) = Some c) by (by apply proc_at_occ); rewrite Hcr in Epar; split; [done |].
    destruct (o_pid _ _ _ O w c Hc) as [_ Hr]; rewrite Hpx, Epid.
    destruct Hlt as [-> | Hlt]; [rewrite Z.eqb_refl; lia | destruct (priority =? PRIO_IDLE); lia].
  - rewrite <- Hpool in O', Ha; constructor; [done | | | |].
    + rewrite En; destruct (priority =? PRIO_IDLE); lia.
    + rewrite Ei; destruct (priority =? PRIO_IDLE); lia.
    + lia.
    + unfold check_quota in Hq; destruct (Z.leb_spec (proc_limit t) (active_count t)); lia.
Qed.

Lemma stack_ok_step t slot n :
  table_ok t -> table_ok (set_pages (set_pool t (alter (fmap with_stack) slot (process_pool t))) n).
Proof.
  intros [O Tn Ti Ta Tl]; destruct (same_family (process_pool t) (alter (fmap with_stack) slot (process_pool t))
    (next_pid t) (next_idle_pid t)) as [O' Ha]; [by rewrite length_alter | | done |].
  - intros i; destruct (decide (i = slot)) as [-> | Hi].
    + rewrite list_lookup_alter_eq; by destruct (process_pool t !! slot) as [[|] |].
    + by rewrite list_lookup_alter_ne.
  - constructor; cbn [set_pages set_pool process_pool next_pid next_idle_pid active_count proc_limit]; [done | done | done | lia | done].
Qed.

(** A process left the pool: by one of the ways out. *)
Lemma leave_ok t t' slot p :
  table_ok t -> occ (process_pool t) slot p -> process_pool t' = final_pool (process_pool t) slot p ->
  next_pid t' = next_pid t -> next_idle_pid t' = next_idle_pid t -> active_count t' = active_count t - 1 ->
  proc_limit t' = proc_limit t -> table_ok t'.
Proof.
  intros [O Tn Ti Ta Tl] E Hpool En Ei Ea El; pose proof (removal_ok _ _ _ _ _ O E) as O'.
  pose proof (removal_active _ _ _ _ _ O E) as Ha; rewrite <- Hpool in O', Ha.
  constructor; rewrite ?En, ?Ei; [done | done | done | lia | lia].
Qed.

Lemma release_ok t slot : table_ok t -> table_ok (pool_remove t slot) /\ table_ok (release_created t slot).
Proof.
  intros T; unfold pool_remove, release_created; destruct (proc_at (process_pool t) slot) as [p |] eqn:E; [| done].
  apply proc_at_occ in E; split; (eapply (leave_ok t _ slot p); [exact T | exact E | | reflexivity ..]);
    unfold free_resources; cbn [set_pages set_active set_pool set_reaped process_pool]; unfold final_pool, left_pool; reflexivity.
Qed.

(** A process nobody descends from leaves no trace in the others. *)
Lemma childless_removal pp np nip s p :
  pool_ok pp np nip -> occ pp s p -> kids pp (ppid p) = 0 ->
  (forall i q, occ pp i q -> owner_pid (base q) <> ppid p) -> final_pool pp s p = left_pool pp s p.
Proof.
  intros O Hs Hk Ho; assert (Hno : forall i q, occ pp i q -> parent_pid (base q) <> ppid p).
  { intros i q Hq E; pose proof (zsum_pos (is_kid (ppid p)) pp i (Some q) (is_kid_nonneg _) Hq) as H; simpl in H.
    rewrite E, Z.eqb_refl in H; unfold kids in Hk; lia. }
  apply list_eq; intros j; rewrite (final_lookup _ _ _ _ _ O Hs), (left_lookup _ _ _ _ _ O Hs).
  destruct (<[s := None]> pp !! j) as [[q |] |] eqn:E; simpl; try done; do 2 f_equal.
  apply (removed_occ pp s p Hs) in E as [Hq _]; unfold final_of.
  rewrite (kids_left _ _ _ _ _ O Hs), Hk; simpl.
  destruct (Z.eqb_spec (parent_pid (base p)) (ppid p)) as [E |]; [by destruct (Hno s p Hs) |].
  unfold if_heir; replace (if decide _ then 0 - 0 else 0) with 0 by (by case_decide); rewrite gained_0.
  apply cleaned_id; [rewrite owner_decremented; by eapply Ho | rewrite parent_decremented; by eapply Hno].
Qed.

(** What happens to the table, one locked section at a time.  A creator is in the
    pool and, unless it makes an idle task, is not an idle task; fewer than
    32000 processes have been created.  A half-built child has not run, so that
    nothing descends from it when its creation is rolled back; that nothing has
    been given to it as an owner either is a condition the code does not see to
    (example [rollback_leaves_dead_owner]). *)
Inductive family_step : table -> table -> Prop :=
| step_claim a t who name priority lvl req_caps :
    sane_creator t who priority -> next_pid t < 32000 -> next_idle_pid t < 2 ^ 31 - 1 ->
    family_step t (fst (create_claim a t who name priority lvl req_caps))
| step_built a t slot proc :
    occ (process_pool t) slot proc -> stdio_ok a && stack_ok a = true -> family_step t (fst (create_finish a t slot proc))
| step_rollback a t slot proc :
    occ (process_pool t) slot proc -> stdio_ok a && stack_ok a = false ->
    kids (process_pool t) (ppid proc) = 0 -> (forall i q, occ (process_pool t) i q -> owner_pid (base q) <> ppid proc) ->
    family_step t (fst (create_finish a t slot proc))
| step_owner t n owner : family_step t (set_owner t n owner)
| step_leave t slot : family_step t (pool_remove t slot)
| step_release t slot : family_step t (release_created t slot).

Lemma rollback_ok t slot p :
  table_ok t -> occ (process_pool t) slot p -> kids (process_pool t) (ppid p) = 0 ->
  (forall i q, occ (process_pool t) i q -> owner_pid (base q) <> ppid p) -> table_ok (create_rollback t slot p).
Proof.
  intros T E Hk Ho; unfold create_rollback; eapply (leave_ok t _ slot p); [exact T | exact E | | reflexivity ..].
  cbn [set_pages set_active set_pool process_pool].
  rewrite (childless_removal _ _ _ _ _ (t_pool _ T) E Hk Ho); unfold left_pool; reflexivity.
Qed.

Lemma family_step_ok t t' : table_ok t -> family_step t t' -> table_ok t'.
Proof.
  intros T; destruct 1 as [| a t slot p Hp Hf | a t slot p Hp Hf Hk Ho | t n owner | |].
  - by apply claim_ok.
  - unfold create_finish; destruct (stdio_ok a), (stack_ok a); try discriminate Hf; by apply stack_ok_step.
  - unfold create_finish; destruct (stdio_ok a), (stack_ok a); try discriminate Hf; by apply rollback_ok.
  - destruct (set_owner_ok t n owner (t_pool _ T)) as [O Ha]; destruct T as [_ Tn Ti Ta Tl].
    unfold set_owner in *; destruct (find_pcb _ n); [destruct (find_pcb _ owner) |]; (constructor; [exact O | done | done | | done]);
      cbn [set_pool active_count process_pool] in *; lia.
  - by apply release_ok.
  - by apply release_ok.
Qed.


(** A process never makes one more powerful than itself: the child's level is not
    above the creator's, its capabilities are within the ceiling of its level,
    among those asked for, and, unless the creator is of machine level, among
    the creator's.  And no one gets past the quotas: the limit for everyone; for
    an unprivileged creator, 32 children, and the slots kept for the
    privileged. *)
Theorem spawn_never_gains a t w c name priority lvl req_caps t' slot :
  occ (process_pool t) w c ->
  create_claim a t (Some w) name priority lvl req_caps = (t', Some slot) ->
  exists x, occ (process_pool t') slot x /\ parent_pid (base x) = ppid c /\ owner_pid (base x) = 0 /\
    level (base c) <= level (base x) /\
    (forall b, 0 <= b -> Z.testbit (caps (base x)) b = true ->
       Z.testbit (caps_for_level (level (base x))) b = true /\ Z.testbit req_caps b = true /\
       (level (base c) <> PLVL_MACHINE -> Z.testbit (caps (base c)) b = true)) /\
    active_count t < proc_limit t /\
    (PLVL_ROOT < level (base c) -> child_count c < MAX_PROCS_PER_PARENT /\ active_count t < proc_limit t - RESERVED_PROC_SLOTS).
Proof.
  intros Hc E; apply claim_cases in E as [[? _] | (s & x & [= <-] & Hq & Hs & Ex & Hpool & _)]; [done |].
  assert (Hne : slot <> w) by (intros ->; unfold occ in Hc; congruence).
  assert (Hcr : creator_of t (Some w) = Some c) by (by apply proc_at_occ); rewrite Hcr in *.
  exists x; split; [| rewrite Ex; split; [done |]; split; [done |]; split; [| split; [| split]]].
  - unfold occ; rewrite Hpool, list_lookup_alter_ne, list_lookup_insert_eq by (congruence || by eapply lookup_lt_Some); done.
  - simpl; destruct (Z.ltb_spec (if lvl <? PLVL_COUNT then lvl else PLVL_GUEST) (level (base c))); lia.
  - simpl; intros b Hb; set (l := if _ <? level (base c) then _ else _).
    destruct (Z.eqb_spec (level (base c)) PLVL_MACHINE) as [Hm | Hm]; simpl; rewrite !Z.land_spec;
      [intros [? ?]%andb_true_iff | intros [[? ?]%andb_true_iff ?]%andb_true_iff]; split; auto.
  - unfold check_quota in Hq; destruct (Z.leb_spec (proc_limit t) (active_count t)); lia.
  - intros Hl; unfold check_quota in Hq; destruct (Z.leb_spec (proc_limit t) (active_count t)); [lia |]; simpl in Hq.
    destruct (Z.leb_spec (level (base c)) PLVL_ROOT); [lia |].
    destruct (Z.leb_spec MAX_PROCS_PER_PARENT (child_count c)); [lia |].
    destruct (Z.leb_spec (proc_limit t - RESERVED_PROC_SLOTS) (active_count t)); lia.
Qed.

(** ** Witnesses *)

Definition all_ok : setup := {| env_ok := true; page_ok := true; stdio_ok := true; stack_ok := true |}.

(** The first process, made by the kernel, and a user-level child of it. *)
Definition started : table := process_init 65536.
Definition one : table := fst (create_claim all_ok started None (lit "init") 1 0 31).
Definition two : table := fst (create_claim all_ok one (Some 0%nat) (lit "shell") 2 2 31).

Definition slot_view (t : table) (i : nat) : option (Z * Z * Z * Z * Z) :=
  (fun p => (ppid p, parent_pid (base p), child_count p, level (base p), caps (base p))) <$> proc_at (process_pool t) i.

Lemma two_reached : rtc family_step started two.
Proof.
  apply (rtc_l _ _ one).
  - apply step_claim; [intros w H; discriminate H | by vm_compute | by vm_compute].
  - apply rtc_once, step_claim; [| by vm_compute | by vm_compute].
    intros w [= <-]; destruct (proc_at (process_pool one) 0) as [c |] eqn:E; [| by vm_compute in E].
    exists c; split; [by apply proc_at_occ | right].
    assert (H : fmap ppid (proc_at (process_pool one) 0) = Some 1) by (by vm_compute).
    rewrite E in H; injection H as ->; by vm_compute.
Qed.


(** The shell asks for a root-level guest worker: it gets its own level. *)
Definition shell : pcb := default {| base := {| pid := 0; pname := []; pstate := 0; level := 0; caps := 0; parent_pid := 0;
  owner_pid := 0; env := None |}; asid := 0; prio := 0; child_count := 0; exit_code := 0; exited := false; cwd := [];
  kernel_stack := false |} (proc_at (process_pool two) 1).

Lemma spawn_never_gains_witness :
  snd (create_claim all_ok two (Some 1%nat) (lit "worker") 2 1 9) = Some 2%nat /\
  exists x, occ (process_pool (fst (create_claim all_ok two (Some 1%nat) (lit "worker") 2 1 9))) 2 x /\
    level (base shell) <= level (base x).
Proof.
  assert (Hs : occ (process_pool two) 1 shell) by (by apply proc_at_occ).
  assert (E : create_claim all_ok two (Some 1%nat) (lit "worker") 2 1 9 =
    (fst (create_claim all_ok two (Some 1%nat) (lit "worker") 2 1 9), Some 2%nat)) by (by vm_compute).
  split; [by rewrite E |].
  destruct (spawn_never_gains all_ok two 1 shell (lit "worker") 2 1 9 _ 2 Hs E) as (x & Hx & _ & _ & Hl & _); by exists x.
Defined.

(** When the parent dies its child goes to the grandparent. *)
Example adopted_by_grandparent :
  let t := fst (create_claim all_ok two (Some 1%nat) (lit "worker") 2 2 31) in
  let t' := pool_remove t 1 in
  (slot_view t 2, slot_view t' 2, slot_view t' 0) =
  (Some (3, 2, 0, 2, 31), Some (3, 1, 0, 2, 31), Some (1, 0, 1, 0, 31)).
Proof. by vm_compute. Qed.

(** ** What the code does not prevent *)

(** A creation that fails after the pool was entered loses the environment
    page. *)
Example failed_creation_leaks_a_page :
  pages_out (fst (process_create_caps {| env_ok := true; page_ok := true; stdio_ok := true; stack_ok := false |}
    two (Some 1%nat) (lit "worker") 2 2 31)) = pages_out two + 1.
Proof. by vm_compute. Qed.

(** [OBJ_CTL_SETOWNER] takes the pid of a half-built child for an owner; when the
    creation is rolled back, which adopts nothing, the process keeps an owner
    that is not there. *)
Example rollback_leaves_dead_owner :
  let t := fst (create_claim all_ok two (Some 0%nat) (lit "worker") 2 2 31) in
  let t := set_owner t 2 3 in
  match proc_at (process_pool t) 2 with
  | Some proc =>
    let t := create_rollback t 2 proc in
    (owner_pid ∘ base <$> proc_at (process_pool t) 1, find_pcb (process_pool t) 3, active_count t) = (Some 3, None, 2)
  | None => False
  end.
Proof. by vm_compute. Qed.

(** The pids of ordinary processes reach those of the idle tasks. *)
Example pid_of_idle_task_given_twice :
  let t := fst (create_claim all_ok started None (lit "idle") 31 0 31) in
  let t := {| process_pool := process_pool t; active_count := active_count t; next_pid := 32000;
              next_idle_pid := next_idle_pid t; proc_limit := proc_limit t; reaped_ring := reaped_ring t; pages_out := pages_out t |} in
  let t := fst (create_claim all_ok t None (lit "app") 2 2 31) in
  (ppid <$> proc_at (process_pool t) 0, ppid <$> proc_at (process_pool t) 1) = (Some 32000, Some 32000).
Proof. by vm_compute. Qed.
