(* ===== verification/Ring.v ===== *)
(** * Ring buffers

    The array with a head, a tail and a count that kernel/core/object.c uses
    for the bytes of a pipe and the messages of a port: an element is written
    at the tail and read at the head, both wrapping round at the size of the
    array; the caller adjusts the count.  The contents of a ring are the queue
    it stands for. *)
From Stdlib Require Import ZArith Lia.
From stdpp Require Import base numbers list.
From S2P Require Import Prelude.

Section ring.
Context {A : Type} (dflt : A) (N : Z).

Record ring := { r_buf : list A; r_head : Z; r_tail : Z; r_count : Z }.

Definition ring0 : ring := {| r_buf := replicate (Z.to_nat N) dflt; r_head := 0; r_tail := 0; r_count := 0 |}.

(** [buf[tail] = x; tail = (tail + 1) % N]. *)
Definition ring_put (r : ring) (x : A) : ring :=
  {| r_buf := zset (r_buf r) (r_tail r) x; r_head := r_head r; r_tail := (r_tail r + 1) mod N; r_count := r_count r |}.

(** [x = buf[head]; head = (head + 1) % N]. *)
Definition ring_take (r : ring) : ring * A :=
  ({| r_buf := r_buf r; r_head := (r_head r + 1) mod N; r_tail := r_tail r; r_count := r_count r |},
   znth dflt (r_buf r) (r_head r)).

Definition ring_add (r : ring) (n : Z) : ring :=
  {| r_buf := r_buf r; r_head := r_head r; r_tail := r_tail r; r_count := r_count r + n |}.

(** The loops that move several elements. *)
Definition ring_puts (r : ring) (l : list A) : ring := foldl ring_put r l.

Fixpoint ring_takes (r : ring) (n : nat) : ring * list A :=
  match n with
  | O => (r, [])
  | S n => let '(r, x) := ring_take r in let '(r, l) := ring_takes r n in (r, x :: l)
  end.

(** Write all of [l], then count it; read [n], then count them off. *)
Definition ring_write (r : ring) (l : list A) : ring := ring_add (ring_puts r l) (zlen l).
Definition ring_read (r : ring) (n : nat) : ring * list A :=
  let '(r, l) := ring_takes r n in (ring_add r (- Z.of_nat n), l).

(** The queue a ring stands for. *)
Definition contents (r : ring) : list A :=
  (fun i => znth dflt (r_buf r) ((r_head r + Z.of_nat i) mod N)) <$> seq 0 (Z.to_nat (r_count r)).

Definition ring_ok (r : ring) : Prop :=
  zlen (r_buf r) = N /\ 0 <= r_head r < N /\ 0 <= r_count r <= N /\ r_tail r = (r_head r + r_count r) mod N.

Context (HN : 0 < N).

Lemma ring0_ok : ring_ok ring0.
Proof.
  unfold ring_ok, ring0; simpl; rewrite zlen_replicate by lia; split; [done |]; split; [lia |]; split; [lia |].
  by rewrite Z.mod_small by lia.
Qed.

Lemma contents0 : contents ring0 = [].
Proof. done. Qed.

Lemma length_contents r : ring_ok r -> zlen (contents r) = r_count r.
Proof. intros (_ & _ & H & _); unfold contents, zlen; rewrite length_fmap, length_seq; lia. Qed.

(** One element: the count is adjusted with it. *)
Lemma put_spec r x :
  ring_ok r -> r_count r < N ->
  ring_ok (ring_add (ring_put r x) 1) /\ contents (ring_add (ring_put r x) 1) = contents r ++ [x].
Proof.
  intros (Hl & Hh & Hc & Ht) Hroom; assert (Htr : 0 <= r_tail r < N) by (rewrite Ht; apply Z.mod_pos_bound; lia); split.
  - unfold ring_ok, ring_add, ring_put; simpl; rewrite zlen_zset; split; [done |]; split; [lia |]; split; [lia |].
    rewrite Ht, Zplus_mod_idemp_l; f_equal; lia.
  - unfold contents, ring_add, ring_put; simpl; replace (Z.to_nat (r_count r + 1)) with (S (Z.to_nat (r_count r))) by lia.
    rewrite seq_S, fmap_app; simpl; f_equal.
    + apply list_fmap_ext; intros k i Hi; apply lookup_seq in Hi as [-> Hlt]; apply znth_zset_ne.
      rewrite Ht; intros E; assert (0 <= (r_head r + Z.of_nat (0 + k)) < 2 * N) by lia.
      assert (H1 : (r_head r + r_count r - (r_head r + Z.of_nat (0 + k))) mod N = 0) by (rewrite Zminus_mod, E; by rewrite Z.sub_diag, Zmod_0_l).
      apply Z.mod_divide in H1 as [q Hq]; [| lia]; destruct (Z.le_gt_cases q 0); nia.
    + f_equal; rewrite Z2Nat.id by lia; rewrite <- Ht; apply znth_zset_eq; lia.
Qed.

Lemma take_spec r :
  ring_ok r -> 0 < r_count r ->
  let '(r', x) := ring_take r in
  ring_ok (ring_add r' (-1)) /\ contents r = x :: contents (ring_add r' (-1)).
Proof.
  intros (Hl & Hh & Hc & Ht) Hsome; simpl; split.
  - unfold ring_ok, ring_add; simpl; split; [done |]; split; [apply Z.mod_pos_bound; lia |]; split; [lia |].
    rewrite Ht, Zplus_mod_idemp_l; f_equal; lia.
  - unfold contents; simpl; replace (Z.to_nat (r_count r)) with (S (Z.to_nat (r_count r + -1))) by lia.
    cbn [seq fmap list_fmap]; f_equal; [rewrite Z.add_0_r, Z.mod_small by lia; done |].
    rewrite <- fmap_S_seq, <- list_fmap_compose; apply list_fmap_ext; intros k i _; simpl.
    rewrite Zplus_mod_idemp_l; f_equal; f_equal; lia.
Qed.

Lemma ring_add_add r a b : ring_add (ring_add r a) b = ring_add r (a + b).
Proof. unfold ring_add; simpl; by rewrite Z.add_assoc. Qed.

Lemma ring_add_0 r : ring_add r 0 = r.
Proof. destruct r; unfold ring_add; simpl; by rewrite Z.add_0_r. Qed.

Lemma put_add r x n : ring_put (ring_add r n) x = ring_add (ring_put r x) n.
Proof. done. Qed.

Lemma puts_add r l n : ring_puts (ring_add r n) l = ring_add (ring_puts r l) n.
Proof. revert r; induction l as [| x l IH]; intros r; simpl; [done |]; by rewrite put_add, IH. Qed.

(** A write that fits appends to the queue. *)
Lemma ring_write_spec r l :
  ring_ok r -> r_count r + zlen l <= N -> ring_ok (ring_write r l) /\ contents (ring_write r l) = contents r ++ l.
Proof.
  revert r; induction l as [| x l IH]; intros r Hr Hroom; unfold ring_write; simpl.
  { change (zlen (@nil A)) with 0; rewrite ring_add_0, app_nil_r; done. }
  assert (Hz : zlen (x :: l) = 1 + zlen l) by (unfold zlen; simpl; lia); rewrite Hz in *.
  assert (Hl0 := zlen_nonneg l); destruct (put_spec r x Hr) as [H1 H2]; [lia |].
  destruct (IH _ H1) as [H3 H4]; [simpl; lia |]; unfold ring_write in *; rewrite puts_add, ring_add_add in H3, H4.
  split; [done |]; rewrite H4, H2, <- app_assoc; done.
Qed.

Lemma takes_add r n k : ring_takes (ring_add r k) n = (ring_add (fst (ring_takes r n)) k, snd (ring_takes r n)).
Proof.
  revert r; induction n as [| n IH]; intros r; simpl; [done |].
  specialize (IH {| r_buf := r_buf r; r_head := (r_head r + 1) mod N; r_tail := r_tail r; r_count := r_count r |}).
  unfold ring_add at 1 in IH; simpl in IH; rewrite IH.
  by destruct (ring_takes {| r_buf := r_buf r; r_head := (r_head r + 1) mod N; r_tail := r_tail r; r_count := r_count r |} n).
Qed.

(** A read takes the front of the queue. *)
Lemma ring_read_spec r n :
  ring_ok r -> Z.of_nat n <= r_count r ->
  let '(r', l) := ring_read r n in ring_ok r' /\ contents r = l ++ contents r' /\ length l = n.
Proof.
  unfold ring_read; revert r; induction n as [| n IH]; intros r Hr Hn; cbn [ring_takes].
  { change (ring_ok (ring_add r 0) /\ contents r = [] ++ contents (ring_add r 0) /\ length (@nil A) = 0%nat).
    by rewrite ring_add_0. }
  pose proof (take_spec r Hr) as H1; destruct (ring_take r) as [r1 x]; destruct H1 as [H1 H2]; [lia |].
  specialize (IH _ H1); rewrite takes_add in IH; destruct (ring_takes r1 n) as [r2 l]; simpl in IH.
  destruct IH as (H3 & H4 & H5).
  { assert (Hc : zlen (contents (ring_add r1 (-1))) = r_count r1 + -1) by (exact (length_contents _ H1)).
    assert (E := length_contents r Hr); rewrite H2 in E; unfold zlen in *; simpl in *; lia. }
  rewrite ring_add_add in H3, H4; replace (- Z.of_nat (S n)) with (-1 + - Z.of_nat n) by lia; cbv beta iota.
  split; [done |]; split; [by rewrite H2, H4 | simpl; lia].
Qed.
End ring.

Arguments ring : clear implicits.
