(* ===== verification/Object.v ===== *)
(** * Objects and handles (kernel/core/object.c)

    A kernel object is reference counted; a process names it by an index into
    its own handle table, and each handle carries rights.  Objects live at
    addresses that are never given out again; a process is known by the number
    of its descriptor, and its table is absent until it is first needed.  Each
    definition is a section under [object_lock] or a whole call made of such
    sections; the answers of [kmalloc] and of the copies from and to user memory
    are parameters.  Wakeups are recorded in the order they are made. *)
From Stdlib Require Import ZArith Lia String.
From stdpp Require Import base numbers list gmap.
From S2P Require Import Prelude Gpt CString ProcTab VfsPath Vfs Ipc Ring.

Definition EBADF : Z := 9.
Definition EAGAIN : Z := 11.
Definition ENOTDIR : Z := 20.
Definition EMFILE : Z := 24.
Definition ESPIPE : Z := 29.
Definition EPIPE : Z := 32.

Definition NPROC_HANDLES : nat := 32.
Definition OBJ_FILE_PATH_MAX : Z := 128.
Definition PIPE_BUF_SIZE : Z := 4096.
Definition PORT_QUEUE_MAX : Z := 32.
Definition PORT_NAME_MAX : Z := 32.
Definition PORT_TABLE_MAX : nat := 16.

Definition OBJ_TYPE_REGKEY : Z := 3.
Definition OBJ_TYPE_WINDOW : Z := 4.
Definition OBJ_TYPE_CONSOLE : Z := 5.
Definition OBJ_TYPE_PIPE : Z := 6.
Definition OBJ_TYPE_PORT : Z := 7.
Definition OBJ_TYPE_COUNT : nat := 8.

(** Rights, as bit numbers and as masks. *)
Definition B_READ : Z := 0.
Definition B_WRITE : Z := 1.
Definition OS1_RIGHT_READ : Z := 1.
Definition OS1_RIGHT_WRITE : Z := 2.
Definition OS1_RIGHT_WAIT : Z := 4.
Definition OS1_RIGHT_DUPLICATE : Z := 8.
Definition OS1_RIGHT_TRANSFER : Z := 16.
Definition OS1_RIGHT_DESTROY : Z := 32.
Definition OS1_RIGHT_CREATE : Z := 64.
Definition OS1_RIGHT_MUTATE : Z := 128.
Definition OS1_RIGHT_ALL : Z := 191.

(** [rights & mask] as a truth value. *)
Definition has_any (rights mask : Z) : bool := negb (Z.land rights mask =? 0).

Definition message0 : ipc_message := {| from := 0; mtype := 0; data1 := 0; data2 := 0; payload := [] |}.

(** [struct kpipe] and [struct kport], without their wait queues. *)
Record kpipe := { p_ring : ring Z; readers : Z; writers : Z }.
Record kport := { q_ring : ring ipc_message; senders : Z; receivers : Z; owner_pid : Z; port_name : str }.

Record kobject := {
  ktype : Z;
  refcount : Z;
  knode : vfs_node;
  koffset : Z;
  kpath : str;
  kpid : Z;
  kwindow : Z;
  pipe : option kpipe;
  port : option kport
}.

Record handle_entry := { h_obj : Z; h_rights : Z }.

Abbreviation htable := (list (option handle_entry)).

(** The two wait queues of a pipe or port. *)
Inductive wait_queue := Rq | Wq.

Record objmgr := {
  objs : gmap Z kobject;
  next_obj : Z;
  tables : list (option htable);
  port_table : list (option Z);
  obj_live_count : list Z;
  woken : list (Z * wait_queue)
}.

Definition set_objs (m : objmgr) (x : gmap Z kobject) : objmgr :=
  {| objs := x; next_obj := next_obj m; tables := tables m; port_table := port_table m;
     obj_live_count := obj_live_count m; woken := woken m |}.
Definition set_tables (m : objmgr) (x : list (option htable)) : objmgr :=
  {| objs := objs m; next_obj := next_obj m; tables := x; port_table := port_table m;
     obj_live_count := obj_live_count m; woken := woken m |}.
Definition set_ports (m : objmgr) (x : list (option Z)) : objmgr :=
  {| objs := objs m; next_obj := next_obj m; tables := tables m; port_table := x;
     obj_live_count := obj_live_count m; woken := woken m |}.
Definition set_live (m : objmgr) (x : list Z) : objmgr :=
  {| objs := objs m; next_obj := next_obj m; tables := tables m; port_table := port_table m;
     obj_live_count := x; woken := woken m |}.
Definition wake (m : objmgr) (o : Z) (q : wait_queue) : objmgr :=
  {| objs := objs m; next_obj := next_obj m; tables := tables m; port_table := port_table m;
     obj_live_count := obj_live_count m; woken := woken m ++ [(o, q)] |}.

Definition upd_obj (m : objmgr) (o : Z) (f : kobject -> kobject) : objmgr := set_objs m (alter f o (objs m)).

Definition with_ref (f : Z -> Z) (k : kobject) : kobject :=
  {| ktype := ktype k; refcount := f (refcount k); knode := knode k; koffset := koffset k; kpath := kpath k;
     kpid := kpid k; kwindow := kwindow k; pipe := pipe k; port := port k |}.
Definition with_pipe (p : kpipe) (k : kobject) : kobject :=
  {| ktype := ktype k; refcount := refcount k; knode := knode k; koffset := koffset k; kpath := kpath k;
     kpid := kpid k; kwindow := kwindow k; pipe := Some p; port := port k |}.
Definition with_port (p : kport) (k : kobject) : kobject :=
  {| ktype := ktype k; refcount := refcount k; knode := knode k; koffset := koffset k; kpath := kpath k;
     kpid := kpid k; kwindow := kwindow k; pipe := pipe k; port := Some p |}.
Definition with_file (n : vfs_node) (off : Z) (k : kobject) : kobject :=
  {| ktype := ktype k; refcount := refcount k; knode := n; koffset := off; kpath := kpath k;
     kpid := kpid k; kwindow := kwindow k; pipe := pipe k; port := port k |}.

(** The slot of a handle. *)
Definition table_of (m : objmgr) (p : nat) : option htable := mjoin (tables m !! p).
Definition handle_at (m : objmgr) (p i : nat) : option handle_entry := t ← table_of m p; mjoin (t !! i).

Definition set_handle (m : objmgr) (p i : nat) (h : option handle_entry) : objmgr :=
  set_tables m (alter (fmap (fun t : htable => <[i := h]> t)) p (tables m)).

(** The index a user gave, if it can be one. *)
Definition handle_index (handle : Z) : option nat :=
  if (handle <? 0) || (Z.of_nat NPROC_HANDLES <=? handle) then None else Some (Z.to_nat handle).

(** The predicates a sleeper is put back to sleep by. *)
Definition pipe_readable_block (p : kpipe) : bool := (r_count (p_ring p) =? 0) && (0 <? writers p).
Definition pipe_writable_block (p : kpipe) : bool := (r_count (p_ring p) =? PIPE_BUF_SIZE) && (0 <? readers p).
Definition port_readable_block (p : kport) : bool := (r_count (q_ring p) =? 0) && (0 <? senders p).
Definition port_writable_block (p : kport) : bool := (r_count (q_ring p) =? PORT_QUEUE_MAX) && (0 <? receivers p).

(** ** Allocation *)

Definition count_live (m : objmgr) (type delta : Z) : objmgr :=
  if type <? Z.of_nat OBJ_TYPE_COUNT
  then set_live m (zset (obj_live_count m) type (u64 (znth 0 (obj_live_count m) type + delta))) else m.

(** [kobj_alloc] and the initialisation that follows it: [k] has no references. *)
Definition kobj_alloc (m : objmgr) (k : kobject) : objmgr * Z :=
  let m := count_live m (ktype k) 1 in
  ({| objs := <[next_obj m := with_ref (fun _ => 0) k]> (objs m); next_obj := next_obj m + 1; tables := tables m;
      port_table := port_table m; obj_live_count := obj_live_count m; woken := woken m |}, next_obj m).

Definition kobj_free (m : objmgr) (o : Z) : objmgr :=
  match objs m !! o with
  | None => m
  | Some k => let m := count_live m (ktype k) (-1) in set_objs m (delete o (objs m))
  end.

(** [if (--o->refcount <= 0) kobj_free(o)]. *)
Definition drop_ref (m : objmgr) (o : Z) : objmgr :=
  let m := upd_obj m o (with_ref (fun n => n - 1)) in
  match objs m !! o with
  | Some k => if refcount k <=? 0 then kobj_free m o else m
  | None => m
  end.

(** ** Endpoints *)

(** The name of a port whose last receiver left is withdrawn. *)
Definition unpublish (m : objmgr) (o : Z) : objmgr :=
  set_ports m ((fun e => if bool_decide (e = Some o) then None else e) <$> port_table m).

Definition set_readers (n : Z) (p : kpipe) : kpipe := {| p_ring := p_ring p; readers := n; writers := writers p |}.
Definition set_writers (n : Z) (p : kpipe) : kpipe := {| p_ring := p_ring p; readers := readers p; writers := n |}.
Definition set_receivers (n : Z) (p : kport) : kport :=
  {| q_ring := q_ring p; senders := senders p; receivers := n; owner_pid := owner_pid p; port_name := port_name p |}.
Definition set_senders (n : Z) (p : kport) : kport :=
  {| q_ring := q_ring p; senders := n; receivers := receivers p; owner_pid := owner_pid p; port_name := port_name p |}.

(** The port's half of [pipe_handle_count]: the receive right, then the send
    right. *)
Definition port_handle_count (m : objmgr) (o : Z) (p : kport) (rights delta : Z) : objmgr :=
  let p1 := if Z.testbit rights B_READ then set_receivers (receivers p + delta) p else p in
  let m := upd_obj m o (with_port p1) in
  let m := if Z.testbit rights B_READ && (delta <? 0) && (receivers p1 =? 0) then wake (unpublish m o) o Wq else m in
  let p2 := if Z.testbit rights B_WRITE then set_senders (senders p1 + delta) p1 else p1 in
  let m := upd_obj m o (with_port p2) in
  if Z.testbit rights B_WRITE && (delta <? 0) && (senders p2 =? 0) then wake m o Rq else m.

Definition pipe_end_count (m : objmgr) (o : Z) (p : kpipe) (rights delta : Z) : objmgr :=
  let p1 := if Z.testbit rights B_READ then set_readers (readers p + delta) p else p in
  let m := upd_obj m o (with_pipe p1) in
  let m := if Z.testbit rights B_READ && (delta <? 0) && (readers p1 =? 0) then wake m o Wq else m in
  let p2 := if Z.testbit rights B_WRITE then set_writers (writers p1 + delta) p1 else p1 in
  let m := upd_obj m o (with_pipe p2) in
  if Z.testbit rights B_WRITE && (delta <? 0) && (writers p2 =? 0) then wake m o Rq else m.

(** [pipe_handle_count]. *)
Definition pipe_handle_count (m : objmgr) (o : Z) (rights delta : Z) : objmgr :=
  match objs m !! o with
  | None => m
  | Some k =>
    match (if ktype k =? OBJ_TYPE_PORT then port k else None) with
    | Some p => port_handle_count m o p rights delta
    | None =>
      match (if ktype k =? OBJ_TYPE_PIPE then pipe k else None) with
      | Some p => pipe_end_count m o p rights delta
      | None => m
      end
    end
  end.

(** ** Handles *)

(** [handles_ensure]; [ok] says whether a table could be allocated. *)
Definition handles_ensure (m : objmgr) (p : nat) (ok : bool) : objmgr * Z :=
  match table_of m p with
  | Some _ => (m, 0)
  | None => if ok then (set_tables m (<[p := Some (replicate NPROC_HANDLES None)]> (tables m)), 0) else (m, - ENOMEM)
  end.

(** [handle_install_locked]. *)
Definition handle_install_locked (m : objmgr) (p : nat) (o rights : Z) : objmgr * Z :=
  match table_of m p with
  | None => (m, - EBADF)
  | Some t =>
    match list_find (fun s : option handle_entry => s = None) t with
    | None => (m, - EMFILE)
    | Some (i, _) =>
      let m := set_handle m p i (Some {| h_obj := o; h_rights := rights |}) in
      let m := upd_obj m o (with_ref (fun n => n + 1)) in
      (pipe_handle_count m o rights 1, Z.of_nat i)
    end
  end.

Definition obj_unref (m : objmgr) (o : Z) : objmgr := drop_ref m o.

Definition sys_handle_dup (m : objmgr) (cur : nat) (handle new_rights : Z) : objmgr * Z :=
  match table_of m cur, handle_index handle with
  | Some _, Some i =>
    match handle_at m cur i with
    | None => (m, - EBADF)
    | Some src =>
      if negb (has_any (h_rights src) OS1_RIGHT_DUPLICATE) then (m, - EPERM)
      else handle_install_locked m cur (h_obj src) (Z.land (Z.land new_rights OS1_RIGHT_ALL) (h_rights src))
    end
  | _, _ => (m, - EBADF)
  end.

(** Give up the handle in slot [i]. *)
Definition release_handle (m : objmgr) (p i : nat) (e : handle_entry) : objmgr :=
  let m := pipe_handle_count m (h_obj e) (h_rights e) (-1) in
  drop_ref (set_handle m p i None) (h_obj e).

Definition sys_handle_close (m : objmgr) (cur : nat) (handle : Z) : objmgr * Z :=
  match table_of m cur, handle_index handle with
  | Some _, Some i =>
    match handle_at m cur i with
    | None => (m, - EBADF)
    | Some e => (release_handle m cur i e, 0)
    end
  | _, _ => (m, - EBADF)
  end.

Definition sys_cap_query (m : objmgr) (cur : nat) (handle : Z) : Z :=
  match table_of m cur, handle_index handle with
  | Some _, Some i =>
    match handle_at m cur i with
    | None => - EBADF
    | Some e =>
      match objs m !! h_obj e with
      | Some k => Z.lor (Z.shiftl (Z.land (ktype k) 255) 24) (Z.land (h_rights e) 16777215)
      | None => - EBADF
      end
    end
  | _, _ => - EBADF
  end.

(** [sys_cap_grant]; [allowed] is the answer of [process_ipc_allowed], [tgt] the
    descriptor [__process_find_by_pid] returns. *)
Definition sys_cap_grant (m : objmgr) (cur : nat) (allowed : bool) (tgt : option nat) (handle rights : Z) : objmgr * Z :=
  match table_of m cur, handle_index handle with
  | Some _, Some i =>
    if negb allowed then (m, - EPERM)
    else
      match tgt with
      | None => (m, - ESRCH)
      | Some q =>
        match table_of m q with
        | None => (m, - ENOMEM)
        | Some _ =>
          match handle_at m cur i with
          | None => (m, - EBADF)
          | Some src =>
            if negb (has_any (h_rights src) OS1_RIGHT_TRANSFER) then (m, - EPERM)
            else handle_install_locked m q (h_obj src) (Z.land (Z.land rights OS1_RIGHT_ALL) (h_rights src))
          end
        end
      end
  | _, _ => (m, - EBADF)
  end.

(** [pin_handle]: the pinned object. *)
Definition pin_handle (m : objmgr) (cur : nat) (handle need : Z) : objmgr * (Z + Z) :=
  match table_of m cur, handle_index handle with
  | Some _, Some i =>
    match handle_at m cur i with
    | None => (m, inl (- EBADF))
    | Some e =>
      if negb (Z.land (h_rights e) need =? need) then (m, inl (- EPERM))
      else (upd_obj m (h_obj e) (with_ref (fun n => n + 1)), inr (h_obj e))
    end
  | _, _ => (m, inl (- EBADF))
  end.

(** The end of [sys_handle_create] for an object that is neither pipe nor port:
    a new object is installed, or freed when there is no room. *)
Definition install_new (m : objmgr) (cur : nat) (k : kobject) (rights : Z) : objmgr * Z :=
  let '(m, o) := kobj_alloc m k in
  let '(m, h) := handle_install_locked m cur o rights in
  if h <? 0 then (kobj_free m o, h) else (m, h).

(** ** Standard handles, redirection, teardown *)

Definition blank (type : Z) : kobject :=
  {| ktype := type; refcount := 0; knode := node0; koffset := 0; kpath := []; kpid := 0; kwindow := 0; pipe := None; port := None |}.

(** [process_install_stdio]. *)
Definition process_install_stdio (m : objmgr) (p : nat) (tbl_ok obj_ok : bool) : objmgr * Z :=
  match handles_ensure m p tbl_ok with
  | (m, rc) =>
    if negb (rc =? 0) then (m, - ENOMEM)
    else if negb obj_ok then (m, - ENOMEM)
    else
      let '(m, con) := kobj_alloc m (blank OBJ_TYPE_CONSOLE) in
      let m := set_handle m p 0 (Some {| h_obj := con; h_rights := OS1_RIGHT_READ |}) in
      let m := set_handle m p 1 (Some {| h_obj := con; h_rights := OS1_RIGHT_WRITE |}) in
      let m := set_handle m p 2 (Some {| h_obj := con; h_rights := OS1_RIGHT_WRITE |}) in
      (upd_obj m con (with_ref (fun _ => 3)), 0)
  end.

(** [process_redirect_child_fd_from]. *)
Definition process_redirect_child_fd_from (m : objmgr) (parent child : nat) (child_slot parent_fd : Z) (tbl_ok : bool)
    : objmgr * Z :=
  match handle_index child_slot, handle_index parent_fd with
  | Some d, Some s =>
    match table_of m parent with
    | None => (m, - EBADF)
    | Some _ =>
      match handles_ensure m child tbl_ok with
      | (m, rc) =>
        if negb (rc =? 0) then (m, - ENOMEM)
        else
          match handle_at m parent s with
          | None => (m, - EBADF)
          | Some src =>
            let old := handle_at m child d in
            let m := set_handle m child d (Some src) in
            let m := upd_obj m (h_obj src) (with_ref (fun n => n + 1)) in
            let m := pipe_handle_count m (h_obj src) (h_rights src) 1 in
            (match old with
             | None => m
             | Some old => drop_ref (pipe_handle_count m (h_obj old) (h_rights old) (-1)) (h_obj old)
             end, 0)
          end
      end
    end
  | _, _ => (m, - EBADF)
  end.

(** [process_handles_destroy]: the slots in order, then the table. *)
Definition process_handles_destroy (m : objmgr) (p : nat) : objmgr :=
  match table_of m p with
  | None => m
  | Some t =>
    let m := foldl (fun m i => match handle_at m p i with Some e => release_handle m p i e | None => m end) m (seq 0 (length t)) in
    set_tables m (<[p := None]> (tables m))
  end.

(** ** Pipes *)

Definition new_pipe : kpipe := {| p_ring := ring0 0 PIPE_BUF_SIZE; readers := 0; writers := 0 |}.

(** [sys_pipe]; [copied] says whether the two descriptors reached the user. *)
Definition sys_pipe (m : objmgr) (cur : nat) (tbl_ok kp_ok buf_ok obj_ok copied : bool) : objmgr * Z * option (Z * Z) :=
  let '(m, rc) := handles_ensure m cur tbl_ok in
  if negb (rc =? 0) then (m, - ENOMEM, None)
  else if negb kp_ok || negb buf_ok || negb obj_ok then (m, - ENOMEM, None)
  else
    let '(m, o) := kobj_alloc m (with_pipe new_pipe (blank OBJ_TYPE_PIPE)) in
    let '(m, rfd) := handle_install_locked m cur o (Z.lor OS1_RIGHT_READ (Z.lor OS1_RIGHT_TRANSFER OS1_RIGHT_DUPLICATE)) in
    let '(m, wfd) :=
      if 0 <=? rfd
      then handle_install_locked m cur o (Z.lor OS1_RIGHT_WRITE (Z.lor OS1_RIGHT_TRANSFER OS1_RIGHT_DUPLICATE))
      else (m, rfd) in
    if (rfd <? 0) || (wfd <? 0) then
      if 0 <=? rfd then (fst (sys_handle_close m cur rfd), wfd, None)
      else (kobj_free m o, rfd, None)
    else if negb copied then (fst (sys_handle_close (fst (sys_handle_close m cur rfd)) cur wfd), - EFAULT, None)
    else (m, 0, Some (rfd, wfd)).

(** One round of the read loop of a pipe: [None] is the wait for a writer. *)
Definition pipe_read (m : objmgr) (o : Z) (p : kpipe) (n : Z) : option (objmgr * list Z) :=
  if 0 <? r_count (p_ring p) then
    let take := if r_count (p_ring p) <? n then r_count (p_ring p) else u32 n in
    let '(r, l) := ring_read 0 PIPE_BUF_SIZE (p_ring p) (Z.to_nat take) in
    Some (wake (upd_obj m o (with_pipe {| p_ring := r; readers := readers p; writers := writers p |})) o Wq, l)
  else if writers p =? 0 then Some (m, [])
  else None.

(** One round of the write loop, with [rest] still to be written: what remains,
    or the end of the loop when no reader is left, or the wait. *)
Inductive write_round := Wrote (m : objmgr) (rest : list Z) | Broken | Full.

Definition pipe_write (m : objmgr) (o : Z) (p : kpipe) (rest : list Z) : write_round :=
  if readers p =? 0 then Broken
  else
    let space := PIPE_BUF_SIZE - r_count (p_ring p) in
    if space =? 0 then Full
    else
      let chunk := if zlen rest <? space then zlen rest else space in
      let r := ring_write PIPE_BUF_SIZE (p_ring p) (take (Z.to_nat chunk) rest) in
      Wrote (wake (upd_obj m o (with_pipe {| p_ring := r; readers := readers p; writers := writers p |})) o Rq)
            (drop (Z.to_nat chunk) rest).

(** ** Ports *)

(** An entry of the port table that is published under [name]. *)
Definition port_named (m : objmgr) (name : str) (e : option Z) : Prop :=
  match o ← e; k ← objs m !! o; port k with
  | Some p => strcmp (port_name p) name = 0
  | None => False
  end.

#[global] Instance port_named_dec m name e : Decision (port_named m name e).
Proof. unfold port_named; destruct (o ← e; k ← objs m !! o; port k); apply _. Defined.

Definition port_find_locked (m : objmgr) (name : str) : option Z :=
  e ← snd <$> list_find (port_named m name) (port_table m); e.

(** The locked section of an acquisition without the receive right. *)
Definition port_acquire (m : objmgr) (cur : nat) (name : str) (rights : Z) : objmgr * Z :=
  match port_find_locked m name with
  | None => (m, - ENOENT)
  | Some o => handle_install_locked m cur o (Z.ldiff rights OS1_RIGHT_READ)
  end.

(** The first section of a publication: the slot chosen. *)
Definition port_choose (m : objmgr) (name : str) : Z + nat :=
  match port_find_locked m name with
  | Some _ => inl (- EEXIST)
  | None =>
    match list_find (fun e : option Z => e = None) (port_table m) with
    | Some (i, _) => inr i
    | None => inl (- ENOSPC)
    end
  end.

Definition new_port (pid : Z) (name : str) : kport :=
  {| q_ring := ring0 message0 PORT_QUEUE_MAX; senders := 0; receivers := 0; owner_pid := pid;
     port_name := strcopy PORT_NAME_MAX name |}.

Definition with_pid (n : Z) (k : kobject) : kobject :=
  {| ktype := ktype k; refcount := refcount k; knode := knode k; koffset := koffset k; kpath := kpath k;
     kpid := n; kwindow := kwindow k; pipe := pipe k; port := port k |}.

(** The second section: the object is made, and published in the slot chosen
    before. *)
Definition port_publish (m : objmgr) (cur : nat) (pid : Z) (name : str) (rights : Z) (slot : nat) : objmgr * Z :=
  let '(m, o) := kobj_alloc m (with_pid pid (with_port (new_port pid name) (blank OBJ_TYPE_PORT))) in
  match port_find_locked m name with
  | Some _ => (kobj_free m o, - EEXIST)
  | None =>
    let '(m, h) := handle_install_locked m cur o rights in
    if 0 <=? h then (set_ports m (<[slot := Some o]> (port_table m)), h)
    else (kobj_free m o, h)
  end.

(** [sys_handle_create] in [OS1_NS_PORT], run by one CPU. *)
Definition create_port (m : objmgr) (cur : nat) (pid : Z) (name : str) (rights : Z) (kp_ok obj_ok : bool) : objmgr * Z :=
  if negb (has_any rights OS1_RIGHT_READ) then port_acquire m cur name rights
  else
    match port_choose m name with
    | inl rc => (m, rc)
    | inr slot => if negb kp_ok || negb obj_ok then (m, - ENOMEM) else port_publish m cur pid name rights slot
    end.

(** One round of a receive: the message, nothing left to come, or the wait. *)
Definition port_receive (m : objmgr) (o : Z) (p : kport) : option (objmgr * option ipc_message) :=
  if 0 <? r_count (q_ring p) then
    let '(r, x) := ring_take message0 PORT_QUEUE_MAX (q_ring p) in
    Some (wake (upd_obj m o (with_port {| q_ring := ring_add r (-1); senders := senders p; receivers := receivers p;
                                          owner_pid := owner_pid p; port_name := port_name p |})) o Wq, Some x)
  else if senders p =? 0 then Some (m, None)
  else None.

Definition enqueue_message (m : objmgr) (o : Z) (p : kport) (x : ipc_message) : objmgr :=
  upd_obj m o (with_port {| q_ring := ring_add (ring_put PORT_QUEUE_MAX (q_ring p) x) 1; senders := senders p;
                            receivers := receivers p; owner_pid := owner_pid p; port_name := port_name p |}).

(** One round of a send; [None] is the wait for room. *)
Definition port_send (m : objmgr) (o : Z) (p : kport) (x : ipc_message) : option (objmgr * Z) :=
  if receivers p =? 0 then Some (m, - EPIPE)
  else if r_count (q_ring p) <? PORT_QUEUE_MAX then Some (wake (enqueue_message m o p x) o Rq, 88)
  else None.

(** ** Sending handles through a port *)

(** The loop that installs the sender's handles for the receiver. *)
Fixpoint send_install (m : objmgr) (cur rcv : nat) (fds : list Z) (installed : list nat) : objmgr * Z * list nat :=
  match fds with
  | [] => (m, 0, installed)
  | fd :: fds =>
    match i ← handle_index fd; handle_at m cur i with
    | None => (m, - EBADF, installed)
    | Some src =>
      let '(m, h) := handle_install_locked m rcv (h_obj src) (h_rights src) in
      if h <? 0 then (m, h, installed) else send_install m cur rcv fds (installed ++ [Z.to_nat h])
    end
  end.

Definition send_unwind (m : objmgr) (rcv : nat) (installed : list nat) : objmgr :=
  foldl (fun m i => match handle_at m rcv i with Some e => release_handle m rcv i e | None => m end) m installed.

(** The four bytes of an [int], and the payload with the indices at its front. *)
Definition int_bytes (n : Z) : list Z :=
  [u8 n; u8 (Z.shiftr n 8); u8 (Z.shiftr n 16); u8 (Z.shiftr n 24)].

Definition with_fds (x : ipc_message) (from_pid : Z) (fds : list nat) : ipc_message :=
  let b := concat ((fun i => int_bytes (Z.of_nat i)) <$> fds) in
  {| from := from_pid; mtype := mtype x; data1 := data1 x; data2 := data2 x; payload := b ++ drop (length b) (payload x) |}.

(** The section of [sys_port_send_caps] under both locks. *)
Definition send_caps_locked (m : objmgr) (cur rcv : nat) (pid : Z) (o : Z) (p : kport) (x : ipc_message) (fds : list Z)
    : objmgr * Z :=
  let '(m, ret, installed) := send_install m cur rcv fds [] in
  let '(m, ret) :=
    if negb (ret =? 0) then (m, ret)
    else
      match k ← objs m !! o; port k with
      | None => (m, - EINVAL)
      | Some p =>
        if receivers p =? 0 then (m, - EPIPE)
        else if PORT_QUEUE_MAX <=? r_count (q_ring p) then (m, - EAGAIN)
        else (enqueue_message m o p (with_fds x pid installed), 88)
      end in
  if ret <? 0 then (send_unwind m rcv installed, ret) else (wake m o Rq, ret).

(** [sys_port_send_caps]; [msg] and [fds] are what could be read of the user's,
    [find] is [__process_find_by_pid]. *)
Definition sys_port_send_caps (m : objmgr) (cur : nat) (pid : Z) (find : Z -> option nat) (handle : Z)
    (msg : option ipc_message) (nfds : Z) (fds : option (list Z)) : objmgr * Z :=
  if (nfds <? 0) || (4 <? nfds) then (m, - EINVAL)
  else
    match pin_handle m cur handle OS1_RIGHT_WRITE with
    | (m, inl err) => (m, err)
    | (m, inr o) =>
      let '(m, ret) :=
        match k ← objs m !! o; if ktype k =? OBJ_TYPE_PORT then port k else None with
        | None => (m, - EINVAL)
        | Some p =>
          match msg, (if 0 <? nfds then fds else Some []) with
          | Some x, Some fds =>
            match find (owner_pid p) with
            | None => (m, - ESRCH)
            | Some rcv =>
              match table_of m rcv with
              | None => (m, - ENOMEM)
              | Some _ => send_caps_locked m cur rcv pid o p x (take (Z.to_nat nfds) fds)
              end
            end
          | _, _ => (m, - EFAULT)
          end
        end in
      (obj_unref m o, ret)
    end.
