(* ===== verification/ObjectProofs.v ===== *)
(** * The invariant of the object manager

    Handles in tables and handles in flight are counted together: a pin is a
    handle with no rights that is in no table.  Every operation is made of five
    moves, each of which keeps the invariant: a handle is put into a slot or
    taken out of it, an object is pinned or unpinned, and rights are added to or
    taken from a handle in flight. *)
From Stdlib Require Import ZArith Lia.
From stdpp Require Import base numbers list gmap.
From S2P Require Import Prelude Gpt CString ProcTab VfsPath Vfs Ipc Ring Object.

#[local] Arguments Z.testbit : simpl never.

(** ** Sums over handles *)

Definition weigh (f : handle_entry -> Z) (s : option handle_entry) : Z := match s with Some h => f h | None => 0 end.

Fixpoint tsum (f : handle_entry -> Z) (t : htable) : Z :=
  match t with [] => 0 | s :: t => weigh f s + tsum f t end.

Fixpoint hsum (f : handle_entry -> Z) (ts : list (option htable)) : Z :=
  match ts with [] => 0 | t :: ts => tsum f (default [] t) + hsum f ts end.

Fixpoint esum (f : handle_entry -> Z) (E : list handle_entry) : Z :=
  match E with [] => 0 | h :: E => f h + esum f E end.

Lemma tsum_insert f t i s s' : t !! i = Some s -> tsum f (<[i := s']> t) = tsum f t - weigh f s + weigh f s'.
Proof.
  revert i; induction t as [| x t IH]; intros [| i]; simpl; intros H; simplify_eq; [lia |]; rewrite (IH i H); lia.
Qed.

Lemma hsum_alter f ts p t g :
  ts !! p = Some (Some t) -> hsum f (alter (fmap g) p ts) = hsum f ts - tsum f t + tsum f (g t).
Proof.
  revert p; induction ts as [| x ts IH]; intros [| p]; simpl; intros H; simplify_eq; [simpl; lia |].
  unfold alter in IH; simpl in IH; rewrite (IH p H); lia.
Qed.

Lemma hsum_insert f ts p t t' : ts !! p = Some t -> hsum f (<[p := t']> ts) = hsum f ts - tsum f (default [] t) + tsum f (default [] t').
Proof.
  revert p; induction ts as [| x ts IH]; intros [| p]; simpl; intros H; simplify_eq; [lia |]; rewrite (IH p H); lia.
Qed.

Lemma tsum_nonneg f t : (forall h, 0 <= f h) -> 0 <= tsum f t.
Proof. intros Hf; induction t as [| [h |] t IH]; simpl; [| specialize (Hf h) |]; lia. Qed.

Lemma hsum_nonneg f ts : (forall h, 0 <= f h) -> 0 <= hsum f ts.
Proof. intros Hf; induction ts as [| t ts IH]; simpl; [lia |]; assert (H := tsum_nonneg f (default [] t) Hf); lia. Qed.

Lemma esum_nonneg f E : (forall h, 0 <= f h) -> 0 <= esum f E.
Proof. intros Hf; induction E as [| h E IH]; simpl; [lia |]; specialize (Hf h); lia. Qed.

Lemma tsum_in f t i h : (forall h, 0 <= f h) -> t !! i = Some (Some h) -> f h <= tsum f t.
Proof.
  intros Hf; revert i; induction t as [| s t IH]; intros [| i]; simpl; intros H; simplify_eq.
  - simpl; assert (H := tsum_nonneg f t Hf); lia.
  - specialize (IH i H); destruct s as [h' |]; simpl; [specialize (Hf h') |]; lia.
Qed.

Lemma hsum_in f ts p t i h :
  (forall h, 0 <= f h) -> ts !! p = Some (Some t) -> t !! i = Some (Some h) -> f h <= hsum f ts.
Proof.
  intros Hf; revert p; induction ts as [| x ts IH]; intros [| p]; simpl; intros H Hi; simplify_eq.
  - simpl; assert (H := tsum_in f t i h Hf Hi); assert (H2 := hsum_nonneg f ts Hf); lia.
  - specialize (IH p H Hi); assert (H2 := tsum_nonneg f (default [] x) Hf); lia.
Qed.

Lemma esum_in f E h : (forall h, 0 <= f h) -> h ∈ E -> f h <= esum f E.
Proof.
  intros Hf H; induction H as [h E | h x E _ IH]; simpl; [assert (H := esum_nonneg f E Hf) | specialize (Hf x)]; lia.
Qed.

(** A sum is zero exactly when nothing in it weighs. *)
Lemma hsum_zero f ts : (forall p t i h, ts !! p = Some (Some t) -> t !! i = Some (Some h) -> f h = 0) -> hsum f ts = 0.
Proof.
  assert (Ht : forall t, (forall i h, t !! i = Some (Some h) -> f h = 0) -> tsum f t = 0).
  { induction t as [| s t IH]; intros H; simpl; [done |]; rewrite IH by (intros i h; apply (H (S i) h)).
    destruct s as [h |]; simpl; [rewrite (H 0%nat h eq_refl) |]; done. }
  induction ts as [| t ts IH]; intros H; simpl; [done |]; rewrite IH by (intros p; apply (H (S p))).
  destruct t as [t |]; simpl; [| done]; rewrite Ht; [done |]; intros i h; by apply (H 0%nat t).
Qed.

(** ** References and ends *)

Definition names (o : Z) (h : handle_entry) : Z := if h_obj h =? o then 1 else 0.
Definition is_end (o b : Z) (h : handle_entry) : Z := if (h_obj h =? o) && Z.testbit (h_rights h) b then 1 else 0.

Lemma names_nonneg o h : 0 <= names o h.
Proof. unfold names; case_if; lia. Qed.
Lemma is_end_nonneg o b h : 0 <= is_end o b h.
Proof. unfold is_end; case_if; lia. Qed.

Definition refs (m : objmgr) (E : list handle_entry) (o : Z) : Z := hsum (names o) (tables m) + esum (names o) E.
Definition ends (m : objmgr) (E : list handle_entry) (o b : Z) : Z := hsum (is_end o b) (tables m) + esum (is_end o b) E.

Lemma ends_nonneg m E o b : 0 <= ends m E o b.
Proof.
  unfold ends; pose proof (hsum_nonneg (is_end o b) (tables m) (is_end_nonneg o b)).
  pose proof (esum_nonneg (is_end o b) E (is_end_nonneg o b)); lia.
Qed.

(** The payload of an object agrees with the handles on it. *)
Definition payload_ok (m : objmgr) (E : list handle_entry) (o : Z) (k : kobject) : Prop :=
  (ktype k = OBJ_TYPE_PIPE -> exists p, pipe k = Some p /\ readers p = ends m E o B_READ /\ writers p = ends m E o B_WRITE /\
     ring_ok PIPE_BUF_SIZE (p_ring p)) /\
  (ktype k = OBJ_TYPE_PORT -> exists p, port k = Some p /\ receivers p = ends m E o B_READ /\ senders p = ends m E o B_WRITE /\
     ring_ok PORT_QUEUE_MAX (q_ring p)).

Record obj_ok (m : objmgr) (E : list handle_entry) : Prop := {
  ok_ref : forall o k, objs m !! o = Some k -> refcount k = refs m E o /\ 1 <= refcount k;
  ok_payload : forall o k, objs m !! o = Some k -> payload_ok m E o k;
  ok_handle : forall p t i h, tables m !! p = Some (Some t) -> t !! i = Some (Some h) -> is_Some (objs m !! h_obj h);
  ok_extra : forall h, h ∈ E -> is_Some (objs m !! h_obj h);
  ok_tables : forall p t, tables m !! p = Some (Some t) -> length t = NPROC_HANDLES;
  ok_ports : forall o, Some o ∈ port_table m -> exists k p,
    objs m !! o = Some k /\ ktype k = OBJ_TYPE_PORT /\ port k = Some p /\ 0 < receivers p;
  ok_fresh : forall o k, objs m !! o = Some k -> o < next_obj m
}.

Lemma table_of_Some m p t : table_of m p = Some t <-> tables m !! p = Some (Some t).
Proof. unfold table_of; destruct (tables m !! p) as [[x |] |]; simpl; split; intros H; simplify_eq; done. Qed.

Lemma handle_at_Some m p i h :
  handle_at m p i = Some h <-> exists t, tables m !! p = Some (Some t) /\ t !! i = Some (Some h).
Proof.
  unfold handle_at; destruct (table_of m p) as [t |] eqn:E; simpl.
  - apply table_of_Some in E; split.
    + intros H; exists t; split; [done |]; destruct (t !! i) as [[x |] |]; simplify_eq/=; done.
    + intros (t' & E' & Hi); simplify_eq; by rewrite Hi.
  - split; [done |]; intros (t & E' & _); apply table_of_Some in E'; congruence.
Qed.

(** The tables after a slot was set. *)
Lemma set_handle_lookup m p i s q t :
  tables (set_handle m p i s) !! q = Some (Some t) ->
  exists t0, tables m !! q = Some (Some t0) /\ t = if decide (p = q) then <[i := s]> t0 else t0.
Proof.
  unfold set_handle, set_tables; simpl; case_decide as Hq; [subst q; rewrite list_lookup_alter_eq | rewrite list_lookup_alter_ne by done; eauto].
  destruct (tables m !! p) as [[t0 |] |]; simpl; intros H; simplify_eq; eauto.
Qed.

Lemma set_handle_sum f m p i s s' t :
  tables m !! p = Some (Some t) -> t !! i = Some s ->
  hsum f (tables (set_handle m p i s')) = hsum f (tables m) - weigh f s + weigh f s'.
Proof.
  intros Ht Hi; unfold set_handle, set_tables; simpl; rewrite (hsum_alter f _ _ t) by done.
  rewrite (tsum_insert f t i s s' Hi); lia.
Qed.

(** Two managers with the same objects whose sums agree. *)
Lemma move_ok m E m' E' :
  objs m' = objs m -> port_table m' = port_table m -> next_obj m' = next_obj m ->
  (forall f, hsum f (tables m') + esum f E' = hsum f (tables m) + esum f E) ->
  (forall p t, tables m' !! p = Some (Some t) -> length t = NPROC_HANDLES) -> obj_ok m E -> obj_ok m' E'.
Proof.
  intros Eo Ep En Hs Ht [A1 A2 A3 A4 A5 A6 A7].
  assert (Hr : forall o, refs m' E' o = refs m E o) by (intros o; apply Hs).
  assert (He : forall o b, ends m' E' o b = ends m E o b) by (intros o b; apply Hs).
  assert (Hlive : forall o, 0 < refs m E o -> is_Some (objs m !! o)).
  { intros o Ho; destruct (objs m !! o) as [k |] eqn:Ek; [by eexists | exfalso].
    assert (H1 : hsum (names o) (tables m) = 0).
    { apply hsum_zero; intros p t i h Hp Hi; unfold names; destruct (Z.eqb_spec (h_obj h) o) as [<- |]; [| done].
      destruct (A3 p t i h Hp Hi); congruence. }
    assert (H2 : esum (names o) E = 0).
    { clear - A4 Ek; induction E as [| h E IH]; simpl; [done |]; rewrite IH by (intros x Hx; apply A4; by right).
      unfold names; destruct (Z.eqb_spec (h_obj h) o) as [<- |]; [| done]; destruct (A4 h); [by left | congruence]. }
    unfold refs in Ho; lia. }
  constructor; rewrite ?Eo, ?Ep, ?En; try done.
  - intros o k Hk; rewrite Hr; by apply A1.
  - intros o k Hk; destruct (A2 o k Hk) as [B1 B2]; unfold payload_ok; rewrite !He; done.
  - intros p t i h Hp Hi; apply Hlive; rewrite <- Hr; unfold refs.
    assert (H1 := hsum_in (names (h_obj h)) _ p t i h (names_nonneg _) Hp Hi).
    assert (H2 := esum_nonneg (names (h_obj h)) E' (names_nonneg _)); unfold names at 1 in H1; rewrite Z.eqb_refl in H1; lia.
  - intros h Hh; apply Hlive; rewrite <- Hr; unfold refs.
    assert (H1 := esum_in (names (h_obj h)) E' h (names_nonneg _) Hh).
    assert (H2 := hsum_nonneg (names (h_obj h)) (tables m') (names_nonneg _)); unfold names at 1 in H1; rewrite Z.eqb_refl in H1; lia.
Qed.

Lemma set_handle_lengths m p i s :
  (forall q t, tables m !! q = Some (Some t) -> length t = NPROC_HANDLES) ->
  forall q t, tables (set_handle m p i s) !! q = Some (Some t) -> length t = NPROC_HANDLES.
Proof.
  intros H q t (t0 & H0 & ->)%set_handle_lookup; case_decide; [rewrite length_insert |]; by apply (H q).
Qed.

(** A handle in flight goes into a free slot. *)
Lemma place_ok m E p t i h :
  obj_ok m (h :: E) -> tables m !! p = Some (Some t) -> t !! i = Some None -> obj_ok (set_handle m p i (Some h)) E.
Proof.
  intros O Ht Hi; apply (move_ok m (h :: E)); try done.
  - intros f; rewrite (set_handle_sum f m p i None (Some h) t) by done; simpl; lia.
  - apply set_handle_lengths, O.
Qed.

(** A handle is taken out of its slot. *)
Lemma take_ok m E p i h : obj_ok m E -> handle_at m p i = Some h -> obj_ok (set_handle m p i None) (h :: E).
Proof.
  intros O (t & Ht & Hi)%handle_at_Some; apply (move_ok m E); try done.
  - intros f; rewrite (set_handle_sum f m p i (Some h) None t) by done; simpl; lia.
  - apply set_handle_lengths, O.
Qed.

(** ** Objects in flight *)

Definition pinned (o : Z) : handle_entry := {| h_obj := o; h_rights := 0 |}.

Lemma is_end_pinned o o' b : is_end o b (pinned o') = 0.
Proof. unfold is_end; simpl; rewrite Z.testbit_0_l; by rewrite andb_false_r. Qed.

Lemma refs_pinned m E o o' : refs m (pinned o' :: E) o = refs m E o + if o' =? o then 1 else 0.
Proof. unfold refs, names; simpl; lia. Qed.

Lemma ends_pinned m E o o' b : ends m (pinned o' :: E) o b = ends m E o b.
Proof. unfold ends; simpl; rewrite is_end_pinned; lia. Qed.

Lemma refs_objs m o f E x : refs (upd_obj m o f) E x = refs m E x.
Proof. done. Qed.
Lemma ends_objs m o f E x b : ends (upd_obj m o f) E x b = ends m E x b.
Proof. done. Qed.

Lemma objs_upd m o f x : objs (upd_obj m o f) !! x = if decide (o = x) then f <$> objs m !! x else objs m !! x.
Proof. unfold upd_obj; simpl; case_decide; [subst; apply lookup_alter_eq | by apply lookup_alter_ne]. Qed.

Lemma live_upd m o f x : is_Some (objs m !! x) -> is_Some (objs (upd_obj m o f) !! x).
Proof. intros [k Hk]; rewrite objs_upd; case_decide; rewrite Hk; by eexists. Qed.

(** Facts about ports survive an update that keeps the port. *)
Lemma ports_upd m o f :
  (forall k, ktype (f k) = ktype k /\ port (f k) = port k) ->
  (forall x, Some x ∈ port_table m -> exists k p, objs m !! x = Some k /\ ktype k = OBJ_TYPE_PORT /\ port k = Some p /\ 0 < receivers p) ->
  forall x, Some x ∈ port_table m ->
    exists k p, objs (upd_obj m o f) !! x = Some k /\ ktype k = OBJ_TYPE_PORT /\ port k = Some p /\ 0 < receivers p.
Proof.
  intros Hf H x Hx; destruct (H x Hx) as (k & p & H1 & H2 & H3 & H4); rewrite objs_upd; case_decide; rewrite H1; [| by exists k, p].
  exists (f k), p; destruct (Hf k) as [-> ->]; done.
Qed.

(** Pin an object. *)
Lemma pin_ok m E o : obj_ok m E -> is_Some (objs m !! o) -> obj_ok (upd_obj m o (with_ref (fun n => n + 1))) (pinned o :: E).
Proof.
  intros [A1 A2 A3 A4 A5 A6 A7] Ho; constructor; try done.
  - intros x k Hk; rewrite refs_pinned, refs_objs, objs_upd in *; case_decide as Hox.
    + subst x; destruct (objs m !! o) as [k0 |] eqn:E0; simplify_eq/=; destruct (A1 o k0 E0); rewrite Z.eqb_refl; simpl; lia.
    + destruct (A1 x k Hk); destruct (Z.eqb_spec o x); [done | lia].
  - intros x k Hk; rewrite objs_upd in Hk; assert (H : exists k0, objs m !! x = Some k0 /\ ktype k = ktype k0 /\ pipe k = pipe k0 /\ port k = port k0).
    { case_decide; [destruct (objs m !! x) as [k0 |]; simplify_eq/=; eauto | eauto]. }
    destruct H as (k0 & H0 & Ht & Hpi & Hpo); destruct (A2 x k0 H0) as [B1 B2].
    unfold payload_ok; rewrite Ht, Hpi, Hpo, !ends_pinned; done.
  - intros p t i h Hp Hi; apply live_upd; by eapply A3.
  - intros h Hh; apply live_upd; inversion Hh; subst; [done | by apply A4].
  - exact (ports_upd m o (with_ref (fun n => n + 1)) (fun k => conj eq_refl eq_refl) A6).
  - intros x k Hk; rewrite objs_upd in Hk; case_decide; [destruct (objs m !! x) as [k0 |] eqn:E0; simplify_eq/= | ]; by eapply A7.
Qed.

(** Give a pin up; the object goes with its last reference. *)
Lemma unpin_ok m E o : obj_ok m (pinned o :: E) -> obj_ok (drop_ref m o) E.
Proof.
  intros [A1 A2 A3 A4 A5 A6 A7]; unfold drop_ref.
  destruct (A4 (pinned o)) as [k0 E0]; [by left |]; simpl in E0; set (m1 := upd_obj m o (with_ref (fun n => n - 1))).
  assert (E1 : objs m1 !! o = Some (with_ref (fun n => n - 1) k0)) by (unfold m1; rewrite objs_upd, decide_True, E0 by done; done).
  destruct (A1 o k0 E0) as [Hr _]; rewrite refs_pinned, Z.eqb_refl in Hr.
  assert (Hother : forall x k, x <> o -> objs m1 !! x = Some k -> objs m !! x = Some k).
  { intros x k Hx; unfold m1; by rewrite objs_upd, decide_False. }
  assert (Hpos : 0 <= refs m E o).
  { unfold refs; pose proof (hsum_nonneg (names o) (tables m) (names_nonneg o)); pose proof (esum_nonneg (names o) E (names_nonneg o)); lia. }
  rewrite E1; simpl; destruct (Z.leb_spec (refcount k0 - 1) 0) as [Hz | Hz].
  - assert (Hzero : refs m E o = 0) by lia.
    assert (Hno : forall p t i h, tables m !! p = Some (Some t) -> t !! i = Some (Some h) -> h_obj h <> o).
    { intros p t i h Hp Hi <-; pose proof (hsum_in (names (h_obj h)) _ p t i h (names_nonneg _) Hp Hi) as H1.
      pose proof (esum_nonneg (names (h_obj h)) E (names_nonneg _)); unfold refs in Hzero; unfold names at 1 in H1; rewrite Z.eqb_refl in H1; lia. }
    assert (HnoE : forall h, h ∈ E -> h_obj h <> o).
    { intros h Hh <-; pose proof (esum_in (names (h_obj h)) E h (names_nonneg _) Hh) as H1.
      pose proof (hsum_nonneg (names (h_obj h)) (tables m) (names_nonneg _)); unfold refs in Hzero; unfold names at 1 in H1; rewrite Z.eqb_refl in H1; lia. }
    assert (Hfree : forall x, objs (kobj_free m1 o) !! x = if decide (x = o) then None else objs m !! x).
    { intros x; unfold kobj_free; rewrite E1; unfold count_live; case_if; simpl; case_decide as Hx;
        try (subst x; apply lookup_delete_eq); (rewrite lookup_delete_ne by done; unfold m1; by rewrite lookup_alter_ne). }
    assert (Hsame : tables (kobj_free m1 o) = tables m /\ port_table (kobj_free m1 o) = port_table m /\ next_obj (kobj_free m1 o) = next_obj m).
    { unfold kobj_free; rewrite E1; unfold count_live; case_if; done. }
    destruct Hsame as (Ht & Hp & Hn).
    assert (Hrefs : forall x, refs (kobj_free m1 o) E x = refs m E x) by (intros; unfold refs; by rewrite Ht).
    assert (Hends : forall x b, ends (kobj_free m1 o) E x b = ends m E x b) by (intros; unfold ends; by rewrite Ht).
    constructor; rewrite ?Ht, ?Hp, ?Hn; try done.
    + intros x k; rewrite Hfree, Hrefs; case_decide as Hx; [done |]; intros Hk; destruct (A1 x k Hk).
      rewrite refs_pinned in *; destruct (Z.eqb_spec o x); [by subst | lia].
    + intros x k; rewrite Hfree; case_decide; [done |]; intros Hk; destruct (A2 x k Hk) as [B1 B2]; unfold payload_ok in *.
      rewrite !ends_pinned in B1, B2; rewrite !Hends; done.
    + intros p t i h Hp' Hi; rewrite Hfree, decide_False by (by eapply Hno); by eapply A3.
    + intros h Hh; rewrite Hfree, decide_False by (by apply HnoE); apply A4; by right.
    + intros x Hx; destruct (A6 x Hx) as (k & p & H1 & H2 & H3 & H4); rewrite Hfree; case_decide as Hxo; [exfalso | eauto].
      subst x; rewrite E0 in H1; injection H1 as <-; destruct (A2 o k0 E0) as [_ B]; destruct (B H2) as (p' & Hp' & Hrd & _); rewrite H3 in Hp'; injection Hp' as <-.
      rewrite ends_pinned in Hrd; assert (ends m E o B_READ = 0); [| lia].
      unfold ends; rewrite (hsum_zero _ (tables m)); [| intros q t i h Hq Hi; unfold is_end; destruct (Z.eqb_spec (h_obj h) o); [by destruct (Hno q t i h) | done]].
      clear - HnoE; induction E as [| h E IH]; simpl; [done |]; rewrite Z.add_0_l in IH.
      rewrite IH by (intros x Hx; apply HnoE; by right); unfold is_end; destruct (Z.eqb_spec (h_obj h) o); [destruct (HnoE h); [by left | done] | done].
    + intros x k; rewrite Hfree; case_decide; [done |]; apply A7.
  - constructor; try done.
    + intros x k Hk; destruct (decide (x = o)) as [-> | Hx].
      * simplify_eq; simpl; unfold refs in *; simpl; lia.
      * apply Hother in Hk; [| done]; destruct (A1 x k Hk); rewrite refs_pinned in *; destruct (Z.eqb_spec o x); [by subst |].
        unfold refs in *; simpl; lia.
    + intros x k Hk; assert (H : exists k1, objs m !! x = Some k1 /\ ktype k = ktype k1 /\ pipe k = pipe k1 /\ port k = port k1).
      { destruct (decide (x = o)) as [-> | Hx]; [simplify_eq; eauto | apply Hother in Hk; eauto]. }
      destruct H as (k1 & H0 & Htt & Hpi & Hpo); destruct (A2 x k1 H0) as [B1 B2]; rewrite <- Htt, <- Hpi, <- Hpo in *.
      unfold payload_ok in *; rewrite !ends_pinned in B1, B2; done.
    + intros p t i h Hp Hi; apply live_upd; by eapply A3.
    + intros h Hh; apply live_upd, A4; by right.
    + exact (ports_upd m o (with_ref (fun n => n - 1)) (fun k => conj eq_refl eq_refl) A6).
    + intros x k Hk; destruct (decide (x = o)) as [-> | Hx]; [by eapply A7 | apply Hother in Hk; [by eapply A7 | done]].
Qed.

(** ** Rights in flight *)

(** What [pipe_handle_count] does to the object. *)
Definition bump (rights delta : Z) (k : kobject) : kobject :=
  let d b := if Z.testbit rights b then delta else 0 in
  if ktype k =? OBJ_TYPE_PORT then
    match port k with
    | Some p => with_port (set_senders (senders p + d B_WRITE) (set_receivers (receivers p + d B_READ) p)) k
    | None => k
    end
  else if ktype k =? OBJ_TYPE_PIPE then
    match pipe k with
    | Some p => with_pipe (set_writers (writers p + d B_WRITE) (set_readers (readers p + d B_READ) p)) k
    | None => k
    end
  else k.

Definition withdrawn (rights delta : Z) (k : kobject) : bool :=
  match (if ktype k =? OBJ_TYPE_PORT then port k else None) with
  | Some p => Z.testbit rights B_READ && (delta <? 0) && (receivers p + delta =? 0)
  | None => false
  end.

Lemma with_port_twice p q k : with_port p (with_port q k) = with_port p k.
Proof. done. Qed.
Lemma with_pipe_twice p q k : with_pipe p (with_pipe q k) = with_pipe p k.
Proof. done. Qed.

Lemma alter_as_insert (f : kobject -> kobject) o (ms : gmap Z kobject) k : ms !! o = Some k -> alter f o ms = <[o := f k]> ms.
Proof.
  intros H; apply map_eq; intros x; destruct (decide (o = x)) as [<- | Hx];
    [by rewrite lookup_alter_eq, H, lookup_insert_eq | by rewrite lookup_alter_ne, lookup_insert_ne].
Qed.

Lemma alter_twice (f g : kobject -> kobject) o (ms : gmap Z kobject) k :
  ms !! o = Some k -> alter g o (alter f o ms) = <[o := g (f k)]> ms.
Proof.
  intros H; rewrite (alter_as_insert f o ms k H), (alter_as_insert g o _ (f k)) by apply lookup_insert_eq; apply insert_insert_eq.
Qed.

Lemma count_spec m o rights delta k :
  objs m !! o = Some k ->
  let m' := pipe_handle_count m o rights delta in
  objs m' = <[o := bump rights delta k]> (objs m) /\ tables m' = tables m /\ next_obj m' = next_obj m /\
  port_table m' = if withdrawn rights delta k then port_table (unpublish m o) else port_table m.
Proof.
  intros H; simpl; unfold pipe_handle_count, bump, withdrawn; rewrite H.
  assert (Hk : <[o := k]> (objs m) = objs m) by (apply insert_id, H).
  destruct (ktype k =? OBJ_TYPE_PORT) eqn:Ept; [apply Z.eqb_eq in Ept; rewrite Ept; change (OBJ_TYPE_PORT =? OBJ_TYPE_PIPE) with false; cbv iota |].
  - destruct (port k) as [[qr sn rc ow nm] |]; rewrite ?Hk; [| done]; unfold port_handle_count.
    generalize (Z.testbit rights B_READ), (Z.testbit rights B_WRITE); intros br bw.
    destruct br, bw; simpl; repeat (case_match; simpl); repeat split; try done; rewrite ?Z.add_0_r, (alter_twice _ _ _ _ k H); done.
  - destruct (ktype k =? OBJ_TYPE_PIPE); [destruct (pipe k) as [[pr rd wr] |] |]; rewrite ?Hk; try done; unfold pipe_end_count.
    generalize (Z.testbit rights B_READ), (Z.testbit rights B_WRITE); intros br bw.
    destruct br, bw; simpl; repeat (case_match; simpl); repeat split; try done; rewrite ?Z.add_0_r, (alter_twice _ _ _ _ k H); done.
Qed.

Lemma bump_keeps rights delta k : ktype (bump rights delta k) = ktype k /\ refcount (bump rights delta k) = refcount k.
Proof. unfold bump; repeat case_match; done. Qed.

Lemma names_same m h1 h2 E x : h_obj h1 = h_obj h2 -> refs m (h1 :: E) x = refs m (h2 :: E) x.
Proof. unfold refs, names; simpl; by intros ->. Qed.

Lemma ends_other m h E x b : h_obj h <> x -> ends m (h :: E) x b = ends m E x b.
Proof. unfold ends, is_end; simpl; destruct (Z.eqb_spec (h_obj h) x); [done | simpl; lia]. Qed.

Lemma ends_own m h E b : ends m (h :: E) (h_obj h) b = ends m E (h_obj h) b + if Z.testbit (h_rights h) b then 1 else 0.
Proof. unfold ends, is_end; simpl; rewrite Z.eqb_refl; simpl; lia. Qed.

Lemma same_tables_ends m m' E x b : tables m' = tables m -> ends m' E x b = ends m E x b.
Proof. unfold ends; by intros ->. Qed.
Lemma same_tables_refs m m' E x : tables m' = tables m -> refs m' E x = refs m E x.
Proof. unfold refs; by intros ->. Qed.

(** The rights of a handle in flight change with the counts of its object. *)
Lemma recount_ok m E o rights delta h1 h2 :
  obj_ok m (h1 :: E) -> h_obj h1 = o -> h_obj h2 = o -> delta = 1 \/ delta = -1 ->
  (forall b, Z.testbit (h_rights h2) b = (if delta <? 0 then false else Z.testbit rights b)) ->
  (forall b, Z.testbit (h_rights h1) b = (if delta <? 0 then Z.testbit rights b else false)) ->
  obj_ok (pipe_handle_count m o rights delta) (h2 :: E).
Proof.
  intros [A1 A2 A3 A4 A5 A6 A7] E1 E2 Hd R2 R1; destruct (A4 h1) as [k Hk]; [by left |]; rewrite E1 in Hk.
  destruct (count_spec m o rights delta k Hk) as (Ho & Ht & Hn & Hp); set (m' := pipe_handle_count m o rights delta) in *.
  destruct (bump_keeps rights delta k) as [Bt Br].
  assert (Hlive : forall x, is_Some (objs m !! x) -> is_Some (objs m' !! x)).
  { intros x [k1 H1]; rewrite Ho; destruct (decide (o = x)) as [<- |]; [rewrite lookup_insert_eq | rewrite lookup_insert_ne by done]; eauto. }
  assert (Hends : forall b, ends m (h2 :: E) o b = ends m (h1 :: E) o b + if Z.testbit rights b then delta else 0).
  { intros b; pose proof (ends_own m h1 E b) as W1; pose proof (ends_own m h2 E b) as W2; rewrite E1 in W1; rewrite E2 in W2.
    rewrite W1, W2, R1, R2; destruct (Z.testbit rights b), Hd as [-> | ->]; simpl; lia. }
  constructor; rewrite ?Hn; try (by rewrite Ht).
  - intros x kx; rewrite (same_tables_refs m m'), (names_same m h2 h1) by congruence; rewrite Ho.
    destruct (decide (o = x)) as [<- |]; [rewrite lookup_insert_eq; intros [= <-]; rewrite Br; by apply A1 | rewrite lookup_insert_ne by done; apply A1].
  - intros x kx; rewrite Ho; destruct (decide (o = x)) as [<- | Hx]; [rewrite lookup_insert_eq; intros [= <-] | rewrite lookup_insert_ne by done; intros Hkx].
    + unfold payload_ok; rewrite Bt, !(same_tables_ends m m'), !Hends by done; destruct (A2 o k Hk) as [B1 B2]; unfold bump; split; intros Htk.
      * destruct (B1 Htk) as (q & Hq & Hr & Hw & Hrok); rewrite Htk, Hq; simpl; eexists; split; [done |]; simpl; lia || (split; [lia | split; [lia | done]]).
      * destruct (B2 Htk) as (q & Hq & Hr & Hw & Hrok); rewrite Htk, Hq; simpl; eexists; split; [done |]; simpl; lia || (split; [lia | split; [lia | done]]).
    + destruct (A2 x kx Hkx) as [B1 B2]; unfold payload_ok in *; rewrite !(same_tables_ends m m') by done.
      rewrite !ends_other in * by congruence; done.
  - intros p t i h; rewrite Ht; intros Hp1 Hi; by eapply Hlive, A3.
  - intros h Hh; apply Hlive; inversion Hh; subst; [by rewrite E2 | apply A4; by right].
  - intros x Hx; assert (Hin : Some x ∈ port_table m /\ (x = o -> withdrawn rights delta k = false)).
    { rewrite Hp in Hx; destruct (withdrawn rights delta k); [| by split].
      simpl in Hx; apply list_elem_of_fmap in Hx as (e & He & Hin); case_bool_decide; [done |]; subst e; split; [done | by intros ->]. }
    destruct Hin as [Hin Hw]; destruct (A6 x Hin) as (kx & q & H1 & H2 & H3 & H4); rewrite Ho; destruct (decide (o = x)) as [<- | Hxo];
      [rewrite lookup_insert_eq | rewrite lookup_insert_ne by done; eauto].
    rewrite Hk in H1; injection H1 as <-; specialize (Hw eq_refl); unfold withdrawn in Hw; rewrite H2, H3 in Hw; simpl in Hw.
    exists (bump rights delta k); unfold bump; rewrite H2, H3; simpl; eexists; split; [done |]; split; [done |]; split; [done |]; simpl.
    destruct (Z.testbit rights B_READ), Hd as [-> | ->]; simpl in *; lia.
  - intros x kx; rewrite Ho; destruct (decide (o = x)) as [<- |]; [rewrite lookup_insert_eq; intros [= <-]; by eapply A7 | rewrite lookup_insert_ne by done; apply A7].
Qed.

Lemma gain_ok m E o rights :
  obj_ok m (pinned o :: E) -> obj_ok (pipe_handle_count m o rights 1) ({| h_obj := o; h_rights := rights |} :: E).
Proof. intros O; apply (recount_ok m E o rights 1 (pinned o)); try done; [by left | intros b; apply Z.testbit_0_l]. Qed.

Lemma lose_ok m E o rights :
  obj_ok m ({| h_obj := o; h_rights := rights |} :: E) -> obj_ok (pipe_handle_count m o rights (-1)) (pinned o :: E).
Proof. intros O; apply (recount_ok m E o rights (-1) {| h_obj := o; h_rights := rights |}); try done; [by right | intros b; apply Z.testbit_0_l]. Qed.

(** ** What an operation may do to an object

    Between two states of the manager an object that lives on keeps its type,
    its queue changes only by what was put and got, and a transfer that no
    longer has to wait has its sleepers woken.  This holds of each step and
    composes, so it holds of runs. *)

#[local] Arguments Z.testbit : simpl never.

(** ** Queues and waiting *)

(** What went into and came out of an object. *)
Inductive event := Put (o : Z) (l : list (Z + ipc_message)) | Got (o : Z) (l : list (Z + ipc_message)).

Fixpoint put (o : Z) (tr : list event) : list (Z + ipc_message) :=
  match tr with
  | [] => []
  | Put x l :: tr => (if x =? o then l else []) ++ put o tr
  | Got _ _ :: tr => put o tr
  end.

Fixpoint got (o : Z) (tr : list event) : list (Z + ipc_message) :=
  match tr with
  | [] => []
  | Got x l :: tr => (if x =? o then l else []) ++ got o tr
  | Put _ _ :: tr => got o tr
  end.

Lemma put_app o tr1 tr2 : put o (tr1 ++ tr2) = put o tr1 ++ put o tr2.
Proof. induction tr1 as [| [] tr1 IH]; simpl; by rewrite ?IH, ?app_assoc. Qed.
Lemma got_app o tr1 tr2 : got o (tr1 ++ tr2) = got o tr1 ++ got o tr2.
Proof. induction tr1 as [| [] tr1 IH]; simpl; by rewrite ?IH, ?app_assoc. Qed.

(** The bytes in a pipe, or the messages in a port. *)
Definition queue (k : kobject) : list (Z + ipc_message) :=
  if ktype k =? OBJ_TYPE_PORT then match port k with Some p => inr <$> contents message0 PORT_QUEUE_MAX (q_ring p) | None => [] end
  else if ktype k =? OBJ_TYPE_PIPE then match pipe k with Some p => inl <$> contents 0 PIPE_BUF_SIZE (p_ring p) | None => [] end
  else [].

Definition blocked (q : wait_queue) (k : kobject) : bool :=
  if ktype k =? OBJ_TYPE_PORT then
    match port k with Some p => match q with Rq => port_readable_block p | Wq => port_writable_block p end | None => false end
  else if ktype k =? OBJ_TYPE_PIPE then
    match pipe k with Some p => match q with Rq => pipe_readable_block p | Wq => pipe_writable_block p end | None => false end
  else false.

Record change (o : Z) (w : list (Z * wait_queue)) (tr : list event) (k k' : kobject) : Prop := {
  ch_type : ktype k' = ktype k;
  ch_queue : got o tr ++ queue k' = queue k ++ put o tr;
  ch_wake : forall q, blocked q k = true -> blocked q k' = true \/ (o, q) ∈ w
}.

Record frame (m : objmgr) (w : list (Z * wait_queue)) (tr : list event) (m' : objmgr) : Prop := {
  fr_next : next_obj m <= next_obj m';
  fr_woken : woken m' = woken m ++ w;
  fr_obj : forall o k', objs m' !! o = Some k' -> o < next_obj m -> exists k, objs m !! o = Some k /\ change o w tr k k'
}.

Lemma change_refl o w k : change o w [] k k.
Proof. split; [done | by rewrite app_nil_r | auto]. Qed.

Lemma change_trans o w1 w2 tr1 tr2 k1 k2 k3 :
  change o w1 tr1 k1 k2 -> change o w2 tr2 k2 k3 -> change o (w1 ++ w2) (tr1 ++ tr2) k1 k3.
Proof.
  intros [A1 A2 A3] [B1 B2 B3]; split; [congruence | |].
  - by rewrite got_app, put_app, <- app_assoc, B2, !app_assoc, A2.
  - intros q Hq; rewrite elem_of_app; destruct (A3 q Hq) as [H | H]; [| auto]; destruct (B3 q H); auto.
Qed.

Lemma frame_refl m : frame m [] [] m.
Proof. split; [lia | by rewrite app_nil_r |]; intros o k Hk _; exists k; split; [done | apply change_refl]. Qed.

Lemma frame_trans m1 m2 m3 w1 w2 tr1 tr2 : frame m1 w1 tr1 m2 -> frame m2 w2 tr2 m3 -> frame m1 (w1 ++ w2) (tr1 ++ tr2) m3.
Proof.
  intros [A1 A2 A3] [B1 B2 B3]; split; [lia | by rewrite B2, A2, app_assoc |].
  intros o k3 Hk Ho; destruct (B3 o k3 Hk) as (k2 & H2 & C2); [lia |]; destruct (A3 o k2 H2 Ho) as (k1 & H1 & C1).
  exists k1; split; [done |]; by eapply change_trans.
Qed.

(** A step that puts and gets nothing, with some wakeups. *)
Definition quiet (m m' : objmgr) : Prop := exists w, frame m w [] m'.

Lemma quiet_refl m : quiet m m.
Proof. exists []; apply frame_refl. Qed.

Lemma quiet_trans m1 m2 m3 : quiet m1 m2 -> quiet m2 m3 -> quiet m1 m3.
Proof. intros [w1 F1] [w2 F2]; exists (w1 ++ w2); by apply (frame_trans _ m2 _ _ _ [] []). Qed.

#[global] Instance quiet_preorder : PreOrder quiet.
Proof. split; [exact quiet_refl | exact quiet_trans]. Qed.

Lemma quiet_same m m' : objs m' = objs m -> next_obj m' = next_obj m -> woken m' = woken m -> quiet m m'.
Proof.
  intros Ho Hn Hw; exists []; split; [lia | by rewrite app_nil_r |]; intros o k; rewrite Ho; intros Hk _; exists k; split; [done | apply change_refl].
Qed.

Lemma quiet_set_handle m p i s : quiet m (set_handle m p i s).
Proof. by apply quiet_same. Qed.
Lemma quiet_set_tables m t : quiet m (set_tables m t).
Proof. by apply quiet_same. Qed.
Lemma quiet_set_ports m t : quiet m (set_ports m t).
Proof. by apply quiet_same. Qed.

Lemma quiet_wake m o q : quiet m (wake m o q).
Proof. exists [(o, q)]; split; [simpl; lia | done |]; intros x k Hk _; exists k; split; [done | apply change_refl]. Qed.

(** An update of one object. *)
Lemma frame_upd m o f w tr m2 :
  (forall k, objs m !! o = Some k -> change o w tr k (f k)) -> (forall x, x <> o -> put x tr = [] /\ got x tr = []) ->
  objs m2 = objs (upd_obj m o f) -> next_obj m2 = next_obj m -> woken m2 = woken m ++ w -> frame m w tr m2.
Proof.
  intros Hf Htr Ho Hn Hw; split; [lia | done |].
  intros x k'; rewrite Ho, objs_upd; destruct (decide (o = x)) as [<- | Hx].
  - destruct (objs m !! o) as [k |] eqn:Ek; [| done]; intros [= <-] _; exists k; split; [done | by apply Hf].
  - intros Hk _; exists k'; split; [done |]; destruct (Htr x) as [E1 E2]; [congruence |]; split; [done | by rewrite E1, E2, app_nil_r | auto].
Qed.

Lemma quiet_ref m o f : quiet m (upd_obj m o (with_ref f)).
Proof. exists []; apply (frame_upd m o (with_ref f)); try done; [| by rewrite app_nil_r]; intros k _; split; [done | by rewrite app_nil_r | auto]. Qed.

(** The wakeups of [pipe_handle_count]. *)
Definition count_wakes (rights delta : Z) (o : Z) (k : kobject) : list (Z * wait_queue) :=
  let gone b n := Z.testbit rights b && (delta <? 0) && (n + delta =? 0) in
  let w rd wr := (if gone B_READ rd then [(o, Wq)] else []) ++ (if gone B_WRITE wr then [(o, Rq)] else []) in
  if ktype k =? OBJ_TYPE_PORT then match port k with Some p => w (receivers p) (senders p) | None => [] end
  else if ktype k =? OBJ_TYPE_PIPE then match pipe k with Some p => w (readers p) (writers p) | None => [] end
  else [].

Lemma count_woken m o rights delta k :
  objs m !! o = Some k -> woken (pipe_handle_count m o rights delta) = woken m ++ count_wakes rights delta o k.
Proof.
  intros H; unfold pipe_handle_count, count_wakes; rewrite H.
  destruct (ktype k =? OBJ_TYPE_PORT) eqn:Ept; [apply Z.eqb_eq in Ept; rewrite Ept; change (OBJ_TYPE_PORT =? OBJ_TYPE_PIPE) with false; cbv iota |].
  - destruct (port k) as [[qr sn rc ow nm] |]; [| by rewrite app_nil_r]; unfold port_handle_count.
    generalize (Z.testbit rights B_READ), (Z.testbit rights B_WRITE); intros br bw.
    destruct br, bw; simpl; repeat (case_match; simpl); try done; rewrite ?app_nil_r, <- ?app_assoc; done.
  - destruct (ktype k =? OBJ_TYPE_PIPE); [destruct (pipe k) as [[pr rd wr] |] |]; try (by rewrite app_nil_r); unfold pipe_end_count.
    generalize (Z.testbit rights B_READ), (Z.testbit rights B_WRITE); intros br bw.
    destruct br, bw; simpl; repeat (case_match; simpl); try done; rewrite ?app_nil_r, <- ?app_assoc; done.
Qed.

Lemma last_end (c b : bool) n delta :
  delta = 1 \/ delta = -1 -> c && (0 <? n) = true ->
  c && (0 <? n + (if b then delta else 0)) = true \/ b && (delta <? 0) && (n + delta =? 0) = true.
Proof.
  intros Hd [-> H%Z.ltb_lt]%andb_true_iff; simpl; destruct b; simpl; [| left; lia].
  destruct Hd as [-> | ->]; simpl; lia.
Qed.

(** Losing the last of the other end wakes who waits on it. *)
Lemma bump_change rights delta o k :
  delta = 1 \/ delta = -1 -> change o (count_wakes rights delta o k) [] k (bump rights delta k).
Proof.
  intros Hd; destruct (bump_keeps rights delta k) as [Ht _].
  split; [done | | intros q]; unfold queue, blocked, count_wakes; rewrite ?Ht; unfold bump.
  - rewrite app_nil_r; destruct (ktype k =? OBJ_TYPE_PORT) eqn:E1; [destruct (port k) eqn:Ep; simpl; rewrite ?Ep; done |].
    destruct (ktype k =? OBJ_TYPE_PIPE); [destruct (pipe k) eqn:Ep; simpl; rewrite ?Ep; done | done].
  - destruct (ktype k =? OBJ_TYPE_PORT) eqn:E1; [destruct (port k) as [p |] eqn:Ep; [| done] | destruct (ktype k =? OBJ_TYPE_PIPE) eqn:E2; [destruct (pipe k) as [p |] eqn:Ep |]]; [| | done | done].
    all: destruct q; unfold port_readable_block, port_writable_block, pipe_readable_block, pipe_writable_block; simpl.
    1,3: intros Hq; destruct (last_end _ (Z.testbit rights B_WRITE) _ _ Hd Hq) as [-> | ->]; [by left | right; apply elem_of_app; rewrite list_elem_of_singleton; auto].
    all: intros Hq; destruct (last_end _ (Z.testbit rights B_READ) _ _ Hd Hq) as [-> | ->]; [by left | right; apply elem_of_app; rewrite list_elem_of_singleton; auto].
Qed.

Lemma quiet_count m o rights delta : delta = 1 \/ delta = -1 -> quiet m (pipe_handle_count m o rights delta).
Proof.
  intros Hd; destruct (objs m !! o) as [k |] eqn:Ek; [| unfold pipe_handle_count; rewrite Ek; apply quiet_refl].
  exists (count_wakes rights delta o k); destruct (count_spec m o rights delta k Ek) as (Ho & _ & Hn & _).
  apply (frame_upd m o (bump rights delta)); [| done | | done | by apply count_woken].
  - intros k' Hk'; rewrite Ek in Hk'; injection Hk' as <-; by apply bump_change.
  - rewrite Ho; symmetry; by apply alter_as_insert.
Qed.

Lemma quiet_free m o : quiet m (kobj_free m o).
Proof.
  unfold kobj_free; destruct (objs m !! o) as [k |]; [| apply quiet_refl]; exists []; unfold count_live; case_match;
    (split; [simpl; lia | by rewrite app_nil_r |]; simpl; intros x k' [_ Hk]%lookup_delete_Some _; exists k'; split; [done | apply change_refl]).
Qed.

Lemma quiet_drop m o : quiet m (drop_ref m o).
Proof.
  unfold drop_ref; etransitivity; [apply (quiet_ref m o (fun n => n - 1)) |].
  destruct (objs _ !! o); [case_match; [apply quiet_free | apply quiet_refl] | apply quiet_refl].
Qed.

Lemma quiet_alloc m k m1 o : kobj_alloc m k = (m1, o) -> quiet m m1.
Proof.
  unfold kobj_alloc, count_live; case_match; intros [= <- <-]; exists []; (split; [simpl; lia | by rewrite app_nil_r |]); simpl;
    intros x k' [[<- _] | [_ Hk]]%lookup_insert_Some Hx; try lia; (exists k'; split; [done | apply change_refl]).
Qed.

#[export] Hint Resolve quiet_refl quiet_set_handle quiet_set_tables quiet_set_ports quiet_wake quiet_ref quiet_free quiet_drop : quiet.
#[export] Hint Extern 1 (quiet _ (pipe_handle_count _ _ _ _)) => apply quiet_count; lia : quiet.

(** Chain the last move of an operation with the rest. *)
Ltac quiet_step :=
  match goal with
  | |- quiet _ (wake ?m _ _) => transitivity m
  | |- quiet _ (set_handle ?m _ _ _) => transitivity m
  | |- quiet _ (set_tables ?m _) => transitivity m
  | |- quiet _ (set_ports ?m _) => transitivity m
  | |- quiet _ (upd_obj ?m _ (with_ref _)) => transitivity m
  | |- quiet _ (pipe_handle_count ?m _ _ _) => transitivity m
  | |- quiet _ (drop_ref ?m _) => transitivity m
  | |- quiet _ (kobj_free ?m _) => transitivity m
  | |- quiet _ (fst (sys_handle_close ?m _ _)) => transitivity m
  | |- quiet _ (fst (handle_install_locked ?m _ _ _)) => transitivity m
  end; [| solve [auto with quiet]].

(** ** The operations that move no data *)

Lemma quiet_install m p o r : quiet m (fst (handle_install_locked m p o r)).
Proof.
  unfold handle_install_locked; destruct (table_of m p) as [t |]; [| done]; destruct (list_find _ t) as [[i s] |]; [simpl | done].
  repeat quiet_step; done.
Qed.

Lemma quiet_release m p i h : quiet m (release_handle m p i h).
Proof. unfold release_handle; repeat quiet_step; done. Qed.

Lemma quiet_ensure m p ok : quiet m (fst (handles_ensure m p ok)).
Proof. unfold handles_ensure; destruct (table_of m p); [done |]; destruct ok; simpl; auto with quiet. Qed.

#[export] Hint Resolve quiet_install quiet_release quiet_ensure : quiet.

Lemma quiet_dup m cur handle rights : quiet m (fst (sys_handle_dup m cur handle rights)).
Proof. unfold sys_handle_dup; repeat case_match; simpl; auto with quiet. Qed.

Lemma quiet_close m cur handle : quiet m (fst (sys_handle_close m cur handle)).
Proof. unfold sys_handle_close; repeat case_match; simpl; auto with quiet. Qed.

Lemma quiet_grant m cur a tgt handle rights : quiet m (fst (sys_cap_grant m cur a tgt handle rights)).
Proof. unfold sys_cap_grant; repeat case_match; simpl; auto with quiet. Qed.

Lemma quiet_pin m cur handle need : quiet m (fst (pin_handle m cur handle need)).
Proof. unfold pin_handle; repeat case_match; simpl; auto with quiet. Qed.

#[export] Hint Resolve quiet_dup quiet_close quiet_grant quiet_pin : quiet.

Lemma quiet_redirect m parent child dst src ok : quiet m (fst (process_redirect_child_fd_from m parent child dst src ok)).
Proof.
  unfold process_redirect_child_fd_from; destruct (handle_index dst); [| done]; destruct (handle_index src); [| done].
  destruct (table_of m parent); [| done]; pose proof (quiet_ensure m child ok) as Q; destruct (handles_ensure m child ok) as [m1 rc]; simpl in Q.
  case_match; [done |]; destruct (handle_at m1 parent _); [simpl | done]; transitivity m1; [done |].
  destruct (handle_at m1 child _); simpl; repeat quiet_step; done.
Qed.

Lemma quiet_release_slots m p l : quiet m (foldl (fun m i => match handle_at m p i with Some e => release_handle m p i e | None => m end) m l).
Proof.
  revert m; induction l as [| i l IH]; intros m; simpl; [done |]; etransitivity; [| apply IH]; destruct (handle_at m p i); auto with quiet.
Qed.

Lemma quiet_destroy m p : quiet m (process_handles_destroy m p).
Proof. unfold process_handles_destroy; destruct (table_of m p); [| done]; quiet_step; apply quiet_release_slots. Qed.

Lemma quiet_stdio m p a b : quiet m (fst (process_install_stdio m p a b)).
Proof.
  unfold process_install_stdio; pose proof (quiet_ensure m p a) as Q; destruct (handles_ensure m p a) as [m1 rc]; simpl in Q.
  case_match; [done |]; case_match; [done |]; transitivity m1; [done |]; destruct (kobj_alloc m1 _) as [m2 o] eqn:Ea; simpl.
  transitivity m2; [by eapply quiet_alloc |]; repeat quiet_step; done.
Qed.

Lemma quiet_install_new m p k r : quiet m (fst (install_new m p k r)).
Proof.
  unfold install_new; destruct (kobj_alloc m k) as [m1 o] eqn:Ea; pose proof (quiet_install m1 p o r) as Q.
  destruct (handle_install_locked m1 p o r) as [m2 h]; simpl in Q; transitivity m1; [by eapply quiet_alloc |]; case_match; simpl; repeat quiet_step; done.
Qed.

Lemma quiet_pipe m cur a b c d e : quiet m (fst (fst (sys_pipe m cur a b c d e))).
Proof.
  unfold sys_pipe; pose proof (quiet_ensure m cur a) as Q; destruct (handles_ensure m cur a) as [m1 rc]; simpl in Q.
  case_match; [done |]; case_match; [done |]; transitivity m1; [done |]; destruct (kobj_alloc m1 _) as [m2 o] eqn:Ea.
  transitivity m2; [by eapply quiet_alloc |]; clear.
  pose proof (quiet_install m2 cur o (Z.lor OS1_RIGHT_READ (Z.lor OS1_RIGHT_TRANSFER OS1_RIGHT_DUPLICATE))) as Q1.
  destruct (handle_install_locked m2 cur o _) as [m3 rfd]; simpl in Q1; transitivity m3; [done |].
  pose proof (quiet_install m3 cur o (Z.lor OS1_RIGHT_WRITE (Z.lor OS1_RIGHT_TRANSFER OS1_RIGHT_DUPLICATE))) as Q2.
  destruct (0 <=? rfd), (handle_install_locked m3 cur o _) as [m4 wfd]; simpl in Q2; repeat case_match; simpl; repeat quiet_step; done.
Qed.

Lemma quiet_acquire m cur name rights : quiet m (fst (port_acquire m cur name rights)).
Proof. unfold port_acquire; case_match; simpl; auto with quiet. Qed.

Lemma quiet_publish m cur pid name rights slot : quiet m (fst (port_publish m cur pid name rights slot)).
Proof.
  unfold port_publish; destruct (kobj_alloc m _) as [m1 o] eqn:Ea; transitivity m1; [by eapply quiet_alloc |].
  case_match; simpl; auto with quiet; pose proof (quiet_install m1 cur o rights) as Q; destruct (handle_install_locked m1 cur o rights) as [m2 h]; simpl in Q.
  case_match; simpl; quiet_step; done.
Qed.

#[export] Hint Resolve quiet_acquire quiet_publish : quiet.

Lemma quiet_create_port m cur pid name rights a b : quiet m (fst (create_port m cur pid name rights a b)).
Proof. unfold create_port; repeat case_match; simpl; auto with quiet. Qed.

#[export] Hint Resolve quiet_redirect quiet_destroy quiet_stdio quiet_install_new quiet_pipe quiet_create_port : quiet.
