(* ===== verification/ObjectSteps.v ===== *)
(** * The operations of the object manager keep its invariant

    Each call of object.c is taken apart into the moves of ObjectProofs; the
    steps of the manager are the sections under [object_lock], and in every
    state they reach the counts are exact. *)
From Stdlib Require Import ZArith Lia.
From stdpp Require Import base numbers list gmap.
From S2P Require Import Prelude Gpt CString ProcTab VfsPath Vfs Ipc Ring Object ObjectProofs.

#[local] Arguments Z.testbit : simpl never.

(** ** What the invariant reads of the state *)

Definition same_core (m m' : objmgr) : Prop :=
  objs m' = objs m /\ tables m' = tables m /\ port_table m' = port_table m /\ next_obj m' = next_obj m.

Lemma core_ok m m' E : same_core m m' -> obj_ok m E -> obj_ok m' E.
Proof.
  intros (Ho & Ht & Hp & Hn) O; apply (move_ok m E); try done; [by intros f; rewrite Ht | rewrite Ht; apply O].
Qed.

Lemma swap_ok m E h1 h2 : obj_ok m (h1 :: h2 :: E) -> obj_ok m (h2 :: h1 :: E).
Proof. intros O; apply (move_ok m (h1 :: h2 :: E)); try done; [intros f; simpl; lia | apply O]. Qed.

Lemma wake_ok m E o q : obj_ok m E -> obj_ok (wake m o q) E.
Proof. by apply core_ok. Qed.

(** Slots commute with objects. *)
Lemma set_handle_upd m p i s o f : set_handle (upd_obj m o f) p i s = upd_obj (set_handle m p i s) o f.
Proof. done. Qed.

Lemma set_handle_count m p i s o r d : set_handle (pipe_handle_count m o r d) p i s = pipe_handle_count (set_handle m p i s) o r d.
Proof. unfold pipe_handle_count, port_handle_count, pipe_end_count; simpl; repeat case_match; done. Qed.

Lemma pipe_handle_count_plain m o r d k :
  objs m !! o = Some k -> ktype k <> OBJ_TYPE_PIPE -> ktype k <> OBJ_TYPE_PORT -> pipe_handle_count m o r d = m.
Proof. intros H H1 H2; unfold pipe_handle_count; rewrite H; by rewrite (proj2 (Z.eqb_neq _ _) H2), (proj2 (Z.eqb_neq _ _) H1). Qed.

(** ** Installing *)

Definition free_slot (m : objmgr) (p : nat) : option nat := t ← table_of m p; fst <$> list_find (fun s : option handle_entry => s = None) t.

Lemma free_slot_spec m p i : free_slot m p = Some i -> exists t, tables m !! p = Some (Some t) /\ t !! i = Some None /\ table_of m p = Some t.
Proof.
  unfold free_slot; destruct (table_of m p) as [t |] eqn:Et; simpl; [| done].
  destruct (list_find _ t) as [[j s] |] eqn:Ef; simpl; [| done]; intros [= ->].
  apply list_find_Some in Ef as (Hi & Hs & _); subst s; exists t; by rewrite <- table_of_Some.
Qed.

Lemma install_eq m p o r :
  handle_install_locked m p o r =
  match table_of m p, free_slot m p with
  | None, _ => (m, - EBADF)
  | Some _, None => (m, - EMFILE)
  | Some _, Some i =>
    (set_handle (pipe_handle_count (upd_obj m o (with_ref (fun n => n + 1))) o r 1) p i (Some {| h_obj := o; h_rights := r |}), Z.of_nat i)
  end.
Proof.
  unfold handle_install_locked, free_slot; destruct (table_of m p) as [t |]; simpl; [| done].
  destruct (list_find _ t) as [[i s] |]; simpl; [| done]; by rewrite set_handle_count, set_handle_upd.
Qed.

(** What one more reference to an object makes of an installation. *)
Lemma install_pinned m E p i o r :
  free_slot m p = Some i -> obj_ok (upd_obj m o (with_ref (fun n => n + 1))) (pinned o :: E) ->
  obj_ok (set_handle (pipe_handle_count (upd_obj m o (with_ref (fun n => n + 1))) o r 1) p i (Some {| h_obj := o; h_rights := r |})) E.
Proof.
  intros Hi O; apply (gain_ok _ _ _ r) in O; apply free_slot_spec in Hi as (t & Ht & Hs & _).
  apply (place_ok _ _ p t i) in O; [done | | done].
  destruct (objs m !! o) as [k |] eqn:Ek.
  - destruct (count_spec (upd_obj m o (with_ref (fun n => n + 1))) o r 1 (with_ref (fun n => n + 1) k)) as (_ & -> & _); [| done].
    by rewrite objs_upd, decide_True, Ek.
  - unfold pipe_handle_count; rewrite objs_upd, decide_True, Ek by done; done.
Qed.

Lemma install_ok m E p o r : obj_ok m E -> is_Some (objs m !! o) -> obj_ok (fst (handle_install_locked m p o r)) E.
Proof.
  intros O Ho; rewrite install_eq; destruct (table_of m p); [| done]; destruct (free_slot m p) as [i |] eqn:Ei; [| done]; simpl.
  apply install_pinned; [done |]; by apply pin_ok.
Qed.

Lemma handle_obj_live m E p i h : obj_ok m E -> handle_at m p i = Some h -> is_Some (objs m !! h_obj h).
Proof. intros O (t & Ht & Hi)%handle_at_Some; by eapply O. Qed.

Lemma handle_eta h : h = {| h_obj := h_obj h; h_rights := h_rights h |}.
Proof. by destruct h. Qed.

Lemma release_handle_ok m E p i h : obj_ok m E -> handle_at m p i = Some h -> obj_ok (release_handle m p i h) E.
Proof.
  intros O H; unfold release_handle; rewrite set_handle_count; apply unpin_ok, lose_ok.
  rewrite <- handle_eta; by apply take_ok.
Qed.

(** ** Tables *)

Lemma ensure_ok m E p ok : obj_ok m E -> obj_ok (fst (handles_ensure m p ok)) E.
Proof.
  intros O; unfold handles_ensure; destruct (table_of m p) as [t |] eqn:Et; [done |]; destruct ok; [simpl | done].
  apply (move_ok m E); try done.
  - intros f; simpl; destruct (tables m !! p) as [t |] eqn:Ep.
    + rewrite (hsum_insert f _ _ t) by done; unfold table_of in Et; rewrite Ep in Et; simpl in Et; subst t; simpl; lia.
    + rewrite list_insert_ge by (by apply lookup_ge_None); done.
  - intros q t; simpl; destruct (decide (p = q)) as [<- | Hq]; [| rewrite list_lookup_insert_ne by done; apply O].
    intros H; apply list_lookup_insert_Some in H as [(_ & [= <-] & _) | []]; done.
Qed.

(** ** The calls on handles *)

Lemma dup_ok m E cur handle rights : obj_ok m E -> obj_ok (fst (sys_handle_dup m cur handle rights)) E.
Proof.
  intros O; unfold sys_handle_dup; destruct (table_of m cur); [| done]; destruct (handle_index handle) as [i |]; [| done].
  destruct (handle_at m cur i) as [h |] eqn:Eh; [| done]; case_match; [done |].
  apply install_ok; [done |]; by eapply handle_obj_live.
Qed.

Lemma close_ok m E cur handle : obj_ok m E -> obj_ok (fst (sys_handle_close m cur handle)) E.
Proof.
  intros O; unfold sys_handle_close; destruct (table_of m cur); [| done]; destruct (handle_index handle) as [i |]; [| done].
  destruct (handle_at m cur i) as [h |] eqn:Eh; [| done]; by apply release_handle_ok.
Qed.

Lemma grant_ok m E cur allowed tgt handle rights : obj_ok m E -> obj_ok (fst (sys_cap_grant m cur allowed tgt handle rights)) E.
Proof.
  intros O; unfold sys_cap_grant; destruct (table_of m cur); [| done]; destruct (handle_index handle) as [i |]; [| done].
  destruct allowed; [simpl | done]; destruct tgt as [q |]; [| done]; destruct (table_of m q); [| done].
  destruct (handle_at m cur i) as [h |] eqn:Eh; [| done]; case_match; [done |].
  apply install_ok; [done |]; by eapply handle_obj_live.
Qed.

(** A pin is a handle in flight. *)
Definition pins (P : list Z) : list handle_entry := pinned <$> P.

Lemma pin_call_ok m E cur handle need m' r :
  obj_ok m E -> pin_handle m cur handle need = (m', r) -> obj_ok m' (match r with inl _ => E | inr o => pinned o :: E end).
Proof.
  intros O; unfold pin_handle; destruct (table_of m cur); [| by intros [= <- <-]]; destruct (handle_index handle) as [i |]; [| by intros [= <- <-]].
  destruct (handle_at m cur i) as [h |] eqn:Eh; [| by intros [= <- <-]]; case_match; intros [= <- <-]; [done |].
  apply pin_ok; [done |]; by eapply handle_obj_live.
Qed.

Lemma handle_index_lt handle i : handle_index handle = Some i -> (i < NPROC_HANDLES)%nat.
Proof. unfold handle_index; case_match; [done |]; intros [= <-]; apply orb_false_iff in H as [H1 H2]; apply Z.ltb_ge in H1; apply Z.leb_gt in H2; lia. Qed.

Lemma ensure_table m p ok m' :
  handles_ensure m p ok = (m', 0) -> is_Some (table_of m' p) \/ tables m !! p = None.
Proof.
  unfold handles_ensure; destruct (table_of m p) eqn:Et; [intros [= <-]; left; by eexists |].
  destruct ok; [| done]; intros [= <-]; destruct (tables m !! p) as [t |] eqn:Ep; [left | by right].
  eexists; apply table_of_Some; simpl; apply list_lookup_insert_eq; by eapply lookup_lt_Some.
Qed.

(** A handle in flight takes the place of the one in a slot. *)
Lemma replace_ok m E p t i s h :
  obj_ok m (h :: E) -> tables m !! p = Some (Some t) -> t !! i = Some s ->
  obj_ok (set_handle m p i (Some h)) (match s with Some old => old :: E | None => E end).
Proof.
  intros O Ht Hi; apply (move_ok m (h :: E)); try done; [| apply set_handle_lengths, O].
  intros f; rewrite (set_handle_sum f m p i s (Some h) t) by done; destruct s; simpl; lia.
Qed.

Lemma count_tables m o r d : tables (pipe_handle_count m o r d) = tables m.
Proof.
  destruct (objs m !! o) as [k |] eqn:Ek; [by destruct (count_spec m o r d k Ek) as (_ & -> & _) |].
  unfold pipe_handle_count; by rewrite Ek.
Qed.

(** No process beyond the table: nothing to set. *)
Lemma set_handle_beyond m p i s : tables m !! p = None -> same_core m (set_handle m p i s).
Proof.
  intros H; split; [done |]; split; [| done]; simpl; apply list_eq; intros q; destruct (decide (p = q)) as [<- |];
    [by rewrite list_lookup_alter_eq, H | by rewrite list_lookup_alter_ne].
Qed.

Lemma redirect_ok m E parent child dst src ok :
  obj_ok m E -> (child < length (tables m))%nat ->
  obj_ok (fst (process_redirect_child_fd_from m parent child dst src ok)) E.
Proof.
  intros O Hc; unfold process_redirect_child_fd_from; destruct (handle_index dst) as [d |] eqn:Ed; [| done].
  destruct (handle_index src) as [s |]; [| done]; destruct (table_of m parent); [| done].
  pose proof (ensure_ok m E child ok O) as O1; destruct (handles_ensure m child ok) as [m1 rc] eqn:Een; simpl in O1.
  case_match eqn:Erc; [done |]; apply negb_false_iff, Z.eqb_eq in Erc; subst rc.
  destruct (handle_at m1 parent s) as [[o r] |] eqn:Es; [simpl | done].
  assert (Hlive := handle_obj_live m1 E parent s _ O1 Es); simpl in Hlive.
  destruct (ensure_table _ _ _ _ Een) as [[t Ht%table_of_Some] | Hno]; [| apply lookup_ge_None in Hno; lia].
  destruct (lookup_lt_is_Some_2 t d) as [sl Hsl]; [rewrite (ok_tables _ _ O1 child t Ht); by apply (handle_index_lt dst) |].
  assert (O2 := gain_ok _ E o r (pin_ok _ _ _ O1 Hlive)); apply (replace_ok _ _ child t d sl) in O2; [| by rewrite count_tables | done].
  rewrite set_handle_count, set_handle_upd in O2; unfold handle_at; rewrite (proj2 (table_of_Some _ _ _) Ht); simpl; rewrite Hsl; simpl.
  destruct sl as [old |]; [| done]; apply unpin_ok, lose_ok; by rewrite <- handle_eta.
Qed.

(** The loop that closes the slots of a dying process. *)
Lemma drop_ref_tables m o : tables (drop_ref m o) = tables m.
Proof. unfold drop_ref, kobj_free, count_live; repeat case_match; done. Qed.

Lemma release_tables m p i h q t :
  tables (release_handle m p i h) !! q = Some (Some t) ->
  exists t0, tables m !! q = Some (Some t0) /\ t = if decide (p = q) then <[i := None]> t0 else t0.
Proof.
  unfold release_handle; rewrite drop_ref_tables; intros H; apply set_handle_lookup in H; by rewrite count_tables in H.
Qed.

Definition release_slot (p : nat) (m : objmgr) (i : nat) : objmgr :=
  match handle_at m p i with Some e => release_handle m p i e | None => m end.

Lemma release_slots_ok m E p l : obj_ok m E -> obj_ok (foldl (release_slot p) m l) E.
Proof.
  revert m; induction l as [| i l IH]; intros m O; simpl; [done |]; apply IH; unfold release_slot.
  destruct (handle_at m p i) eqn:Eh; [by apply release_handle_ok | done].
Qed.

(** What is left in the table: the slots not gone through. *)
Lemma release_slots_table m p l t :
  tables (foldl (release_slot p) m l) !! p = Some (Some t) ->
  exists t0, tables m !! p = Some (Some t0) /\ forall i, t !! i = (if decide (i ∈ l) then (fun _ => None) <$> t0 !! i else t0 !! i).
Proof.
  revert m; induction l as [| i l IH]; intros m H; simpl in H.
  { exists t; split; [done |]; intros i; by rewrite decide_False by apply not_elem_of_nil. }
  destruct (IH _ H) as (t1 & H1 & Hi); assert (Hs : exists t0, tables m !! p = Some (Some t0) /\ forall j, t1 !! j = if decide (j = i) then (fun _ => None) <$> t0 !! j else t0 !! j).
  { unfold release_slot in H1; destruct (handle_at m p i) as [h |] eqn:Eh.
    - apply release_tables in H1 as (t0 & H0 & ->); rewrite decide_True by done; exists t0; split; [done |]; intros j.
      destruct (decide (j = i)) as [-> |]; [| by rewrite list_lookup_insert_ne].
      destruct (t0 !! i) eqn:E; [apply list_lookup_insert_eq; by eapply lookup_lt_Some | simpl; rewrite list_insert_ge; [done | by apply lookup_ge_None]].
    - exists t1; split; [done |]; intros j; destruct (decide (j = i)) as [-> |]; [| done]; unfold handle_at in Eh.
      rewrite (proj2 (table_of_Some _ _ _) H1) in Eh; simpl in Eh; by destruct (t1 !! i) as [[x |] |]. }
  destruct Hs as (t0 & H0 & Hj); exists t0; split; [done |]; intros j; rewrite Hi, Hj.
  destruct (decide (j = i)) as [-> | Hne]; [rewrite (decide_True (P := i ∈ i :: l)) by (by left); case_decide; by destruct (t0 !! i) |].
  destruct (decide (j ∈ l)); [rewrite decide_True by (by right); done | rewrite decide_False; [done | by rewrite elem_of_cons; intros []]].
Qed.

Lemma tsum_empty f t : (forall i, t !! i = None \/ t !! i = Some None) -> tsum f t = 0.
Proof.
  induction t as [| s t IH]; intros H; simpl; [done |]; rewrite IH by (intros i; apply (H (S i))).
  destruct (H 0%nat) as [? | [= ->]]; done.
Qed.

Lemma destroy_ok m E p : obj_ok m E -> obj_ok (process_handles_destroy m p) E.
Proof.
  intros O; unfold process_handles_destroy; destruct (table_of m p) as [t |] eqn:Et; [| done].
  change (fun (m : objmgr) (i : nat) => match handle_at m p i with Some e => release_handle m p i e | None => m end) with (release_slot p).
  assert (O1 := release_slots_ok m E p (seq 0 (length t)) O); set (m1 := foldl (release_slot p) m (seq 0 (length t))) in *.
  apply (move_ok m1 E); try done.
  - intros f; simpl; destruct (tables m1 !! p) as [[t1 |] |] eqn:E1; [| rewrite (hsum_insert f _ _ None) by done; simpl; lia |].
    + rewrite (hsum_insert f _ _ (Some t1)) by done; simpl; destruct (release_slots_table m p _ t1 E1) as (t0 & H0 & Hi).
      apply table_of_Some in Et; simplify_eq; rewrite (tsum_empty f t1); [lia |]; intros i; rewrite Hi.
      case_decide as Hin; [destruct (t !! i); auto |]; left; apply lookup_ge_None; rewrite elem_of_seq in Hin; lia.
    + rewrite list_insert_ge by (by apply lookup_ge_None); done.
  - intros q t1; simpl; destruct (decide (p = q)) as [<- |]; [| rewrite list_lookup_insert_ne by done; apply O1].
    intros H; apply list_lookup_insert_Some in H as [(_ & [=] & _) | []]; done.
Qed.

(** ** New objects *)

Definition fresh_payload (k : kobject) : Prop :=
  (ktype k = OBJ_TYPE_PIPE -> exists p, pipe k = Some p /\ readers p = 0 /\ writers p = 0 /\ ring_ok PIPE_BUF_SIZE (p_ring p)) /\
  (ktype k = OBJ_TYPE_PORT -> exists p, port k = Some p /\ receivers p = 0 /\ senders p = 0 /\ ring_ok PORT_QUEUE_MAX (q_ring p)).

Lemma alloc_spec m k m1 o :
  kobj_alloc m k = (m1, o) ->
  o = next_obj m /\ objs m1 = <[o := with_ref (fun _ => 0) k]> (objs m) /\ tables m1 = tables m /\ port_table m1 = port_table m /\
  next_obj m1 = next_obj m + 1.
Proof. unfold kobj_alloc, count_live; case_match; intros [= <- <-]; done. Qed.

Lemma alloc_table m k m1 o p : kobj_alloc m k = (m1, o) -> table_of m1 p = table_of m p /\ free_slot m1 p = free_slot m p.
Proof. intros (_ & _ & Ht & _)%alloc_spec; unfold free_slot, table_of; by rewrite Ht. Qed.

(** A new object nobody names is undone by [kobj_free]. *)
Lemma alloc_free_ok m E k m1 o : obj_ok m E -> kobj_alloc m k = (m1, o) -> obj_ok (kobj_free m1 o) E.
Proof.
  intros O Ha; destruct (alloc_spec _ _ _ _ Ha) as (Eo & Ho & Ht & Hp & Hn).
  assert (Hfresh : objs m !! o = None).
  { destruct (objs m !! o) eqn:Ek; [apply (ok_fresh _ _ O) in Ek; lia | done]. }
  assert (Hc : objs (kobj_free m1 o) = objs m /\ tables (kobj_free m1 o) = tables m /\ port_table (kobj_free m1 o) = port_table m /\
    next_obj (kobj_free m1 o) = next_obj m + 1).
  { unfold kobj_free; rewrite Ho, lookup_insert_eq; unfold count_live; case_match; simpl; rewrite Ho, Ht, Hp, Hn;
      by rewrite delete_insert_id. }
  destruct Hc as (H1 & H2 & H3 & H4); destruct O as [A1 A2 A3 A4 A5 A6 A7].
  constructor; rewrite ?H1, ?H2, ?H3, ?H4; try done.
  - intros x kx Hx; unfold refs; rewrite H2; by apply A1.
  - intros x kx Hx; unfold payload_ok, ends; rewrite H2; by apply A2.
  - intros x kx Hx; apply A7 in Hx; lia.
Qed.

(** A new object is in flight once it has a reference. *)
Lemma alloc_pin_ok m E k m1 o :
  obj_ok m E -> kobj_alloc m k = (m1, o) -> fresh_payload k -> obj_ok (upd_obj m1 o (with_ref (fun n => n + 1))) (pinned o :: E).
Proof.
  intros O Ha [F1 F2]; destruct (alloc_spec _ _ _ _ Ha) as (Eo & Ho & Ht & Hp & Hn); set (m2 := upd_obj m1 o (with_ref (fun n => n + 1))).
  assert (Ho2 : objs m2 = <[o := with_ref (fun _ => 1) k]> (objs m)).
  { unfold m2, upd_obj; simpl; rewrite Ho; erewrite alter_as_insert by apply lookup_insert_eq; by rewrite insert_insert_eq. }
  assert (Hfresh : forall x kx, objs m !! x = Some kx -> o <> x) by (intros x kx Hx; apply (ok_fresh _ _ O) in Hx; lia).
  assert (Hdead : forall x, is_Some (objs m !! x) -> is_Some (objs m2 !! x)).
  { intros x [kx Hx]; rewrite Ho2, lookup_insert_ne by (by eapply Hfresh); by eexists. }
  assert (Hzero : forall f, (forall h, h_obj h <> o -> f h = 0) -> hsum f (tables m) = 0 /\ esum f E = 0).
  { intros f Hf; split.
    - apply hsum_zero; intros p t i h Hpt Hi; apply Hf; destruct (ok_handle _ _ O p t i h Hpt Hi) as [kx Hx]; apply Hfresh in Hx; congruence.
    - pose proof (ok_extra _ _ O) as H; clear - H Hf Hfresh; induction E as [| h E IH]; simpl; [done |].
      rewrite IH by (intros x Hx; apply H; by right); rewrite Hf; [done |]; destruct (H h) as [kx Hx]; [by left |]; apply Hfresh in Hx; congruence. }
  constructor; try (unfold m2; simpl; rewrite ?Ht, ?Hp; apply O).
  - intros x kx; rewrite Ho2, refs_pinned; unfold refs, m2; simpl; rewrite Ht; destruct (decide (o = x)) as [<- | Hx].
    + rewrite lookup_insert_eq; intros [= <-]; rewrite Z.eqb_refl; simpl.
      destruct (Hzero (names o)) as [-> ->]; [intros h Hh; unfold names; by destruct (Z.eqb_spec (h_obj h) o) | lia].
    + rewrite lookup_insert_ne by done; intros Hk; destruct (Z.eqb_spec o x); [done |]; rewrite Z.add_0_r; by apply (ok_ref _ _ O).
  - intros x kx; rewrite Ho2; unfold payload_ok; rewrite !ends_pinned; unfold ends, m2; simpl; rewrite Ht; destruct (decide (o = x)) as [<- | Hx].
    + rewrite lookup_insert_eq; intros [= <-]; simpl.
      assert (Hz : forall b, hsum (is_end o b) (tables m) + esum (is_end o b) E = 0).
      { intros b; destruct (Hzero (is_end o b)) as [-> ->]; [intros h Hh; unfold is_end; by destruct (Z.eqb_spec (h_obj h) o) | done]. }
      rewrite !Hz; done.
    + rewrite lookup_insert_ne by done; apply (ok_payload _ _ O).
  - intros p t i h; unfold m2; simpl; rewrite Ht; intros Hpt Hi; by eapply Hdead, O.
  - intros h Hh; apply elem_of_cons in Hh as [-> | Hh]; [change (is_Some (objs m2 !! o)); rewrite Ho2, lookup_insert_eq; by eexists | by apply Hdead, O].
  - intros x Hx; unfold m2 in Hx; simpl in Hx; rewrite Hp in Hx; destruct (ok_ports _ _ O x Hx) as (kx & p & H1 & H2).
    exists kx, p; by rewrite Ho2, lookup_insert_ne by (by eapply Hfresh).
  - intros x kx; rewrite Ho2; unfold m2; simpl; rewrite Hn; destruct (decide (o = x)) as [<- |]; [intros _; lia | rewrite lookup_insert_ne by done].
    intros Hx; apply (ok_fresh _ _ O) in Hx; lia.
Qed.

(** A new object is installed, or is gone again. *)
Lemma alloc_install_ok m E k m1 o p r :
  obj_ok m E -> kobj_alloc m k = (m1, o) -> fresh_payload k ->
  match handle_install_locked m1 p o r with
  | (m2, h) => if 0 <=? h then obj_ok m2 E else m2 = m1
  end.
Proof.
  intros O Ha F; rewrite install_eq; destruct (table_of m1 p); [| done]; destruct (free_slot m1 p) as [i |] eqn:Ei; [| done].
  rewrite (proj2 (Z.leb_le _ _)) by lia; apply install_pinned; [done |]; by eapply alloc_pin_ok.
Qed.

Lemma new_pipe_fresh : fresh_payload (with_pipe new_pipe (blank OBJ_TYPE_PIPE)).
Proof. split; simpl; [intros _; exists new_pipe; repeat split; try done | done]. Qed.

Lemma new_port_fresh pid name : fresh_payload (with_pid pid (with_port (new_port pid name) (blank OBJ_TYPE_PORT))).
Proof.
  split; simpl; [done |]; intros _; exists (new_port pid name); do 3 (split; [done |]); by apply ring0_ok.
Qed.

Lemma plain_fresh type : type <> OBJ_TYPE_PIPE -> type <> OBJ_TYPE_PORT -> fresh_payload (blank type).
Proof. intros H1 H2; split; simpl; done. Qed.

Lemma count_live_objs m o r d x : is_Some (objs m !! x) -> is_Some (objs (pipe_handle_count m o r d) !! x).
Proof.
  intros Hx; destruct (objs m !! o) as [k |] eqn:Ek; [| unfold pipe_handle_count; by rewrite Ek].
  destruct (count_spec m o r d k Ek) as (-> & _); destruct (decide (o = x)) as [<- |]; [rewrite lookup_insert_eq; by eexists | by rewrite lookup_insert_ne].
Qed.

Lemma install_live m p o r x : is_Some (objs m !! x) -> is_Some (objs (fst (handle_install_locked m p o r)) !! x).
Proof.
  intros Hx; rewrite install_eq; destruct (table_of m p); [| done]; destruct (free_slot m p); [| done]; simpl.
  by apply count_live_objs, live_upd.
Qed.

Lemma alloc_live m k m1 o : kobj_alloc m k = (m1, o) -> is_Some (objs m1 !! o).
Proof. intros (_ & -> & _)%alloc_spec; rewrite lookup_insert_eq; by eexists. Qed.

Lemma sys_pipe_ok m E cur a b c d e : obj_ok m E -> obj_ok (fst (fst (sys_pipe m cur a b c d e))) E.
Proof.
  intros O; unfold sys_pipe; pose proof (ensure_ok m E cur a O) as O1; destruct (handles_ensure m cur a) as [m1 rc]; simpl in O1.
  case_match; [done |]; case_match; [done |]; destruct (kobj_alloc m1 _) as [m2 o] eqn:Ea.
  pose proof (alloc_install_ok m1 E _ m2 o cur (Z.lor OS1_RIGHT_READ (Z.lor OS1_RIGHT_TRANSFER OS1_RIGHT_DUPLICATE)) O1 Ea new_pipe_fresh) as Hi.
  destruct (handle_install_locked m2 cur o _) as [m3 rfd] eqn:E3; destruct (Z.leb_spec 0 rfd) as [Hr | Hr].
  - assert (O4 : obj_ok (fst (handle_install_locked m3 cur o (Z.lor OS1_RIGHT_WRITE (Z.lor OS1_RIGHT_TRANSFER OS1_RIGHT_DUPLICATE)))) E).
    { apply install_ok; [done |]; pose proof (install_live m2 cur o (Z.lor OS1_RIGHT_READ (Z.lor OS1_RIGHT_TRANSFER OS1_RIGHT_DUPLICATE)) o (alloc_live _ _ _ _ Ea)) as H1.
      by rewrite E3 in H1. }
    destruct (handle_install_locked m3 cur o _) as [m4 wfd]; simpl in O4.
    case_match; [by apply close_ok |]; case_match; [by apply close_ok, close_ok | done].
  - subst m3; assert (Hlt : rfd <? 0 = true) by lia; rewrite Hlt; simpl; by eapply alloc_free_ok.
Qed.

(** The three standard handles of a process whose first slots are empty. *)
Definition stdio_free (m : objmgr) (p : nat) : Prop :=
  (p < length (tables m))%nat /\ forall i, (i < 3)%nat -> handle_at m p i = None.

Lemma handle_at_free m p t i : tables m !! p = Some (Some t) -> (i < length t)%nat -> handle_at m p i = None -> t !! i = Some None.
Proof.
  intros Ht Hi H; unfold handle_at in H; rewrite (proj2 (table_of_Some _ _ _) Ht) in H; simpl in H.
  destruct (lookup_lt_is_Some_2 t i Hi) as [[h |] Hs]; [rewrite Hs in H; done | done].
Qed.

(** A handle on an object that counts no ends. *)
Lemma plain_rights m E o k r :
  objs m !! o = Some k -> ktype k <> OBJ_TYPE_PIPE -> ktype k <> OBJ_TYPE_PORT ->
  obj_ok m (pinned o :: E) -> obj_ok m ({| h_obj := o; h_rights := r |} :: E).
Proof. intros Hk H1 H2 O; apply (gain_ok _ _ _ r) in O; by rewrite (pipe_handle_count_plain m o r 1 k Hk H1 H2) in O. Qed.

Lemma place_plain m E p o k r i t :
  objs m !! o = Some k -> ktype k <> OBJ_TYPE_PIPE -> ktype k <> OBJ_TYPE_PORT ->
  obj_ok m (pinned o :: E) -> tables m !! p = Some (Some t) -> t !! i = Some None ->
  obj_ok (set_handle m p i (Some {| h_obj := o; h_rights := r |})) E.
Proof. intros Hk H1 H2 O Ht Hi; apply (place_ok m E p t i); [by eapply plain_rights | done | done]. Qed.

Lemma set_handle_table m p i s t : tables m !! p = Some (Some t) -> tables (set_handle m p i s) !! p = Some (Some (<[i := s]> t)).
Proof. intros H; simpl; by rewrite list_lookup_alter_eq, H. Qed.

Lemma ensure_stdio m p a m1 :
  stdio_free m p -> handles_ensure m p a = (m1, 0) -> exists t, tables m1 !! p = Some (Some t) /\ forall i, (i < 3)%nat -> handle_at m1 p i = None.
Proof.
  intros [Hp Hf] He; destruct (ensure_table _ _ _ _ He) as [[t Ht] | Hno]; [| apply lookup_ge_None in Hno; lia].
  exists t; split; [by apply table_of_Some |]; unfold handles_ensure in He; destruct (table_of m p) eqn:Et; [by simplify_eq |].
  destruct a; [| done]; simplify_eq; intros i Hi; unfold handle_at, table_of; simpl; rewrite list_lookup_insert_eq by done; simpl.
  by destruct i as [| [| [| i]]]; try lia.
Qed.

Lemma install_stdio_ok m E p a b : obj_ok m E -> stdio_free m p -> obj_ok (fst (process_install_stdio m p a b)) E.
Proof.
  intros O Hfree; unfold process_install_stdio; pose proof (ensure_ok m E p a O) as O1.
  destruct (handles_ensure m p a) as [m1 rc] eqn:Een; simpl in O1; case_match eqn:Erc; [done |]; apply negb_false_iff, Z.eqb_eq in Erc; subst rc.
  case_match; [done |]; destruct (kobj_alloc m1 (blank OBJ_TYPE_CONSOLE)) as [m2 o] eqn:Ea; simpl.
  destruct (ensure_stdio m p a m1 Hfree Een) as (t & Ht & Hnone).
  assert (Hl := ok_tables _ _ O1 p t Ht); assert (Hs : forall i, (i < 3)%nat -> t !! i = Some None).
  { intros i Hi; eapply handle_at_free; [done | rewrite Hl; unfold NPROC_HANDLES; lia | by apply Hnone]. }
  destruct (alloc_spec _ _ _ _ Ea) as (_ & Ho & Ht2 & _ & _); rewrite <- Ht2 in Ht; set (inc := with_ref (fun n => n + 1)).
  assert (P1 : obj_ok (upd_obj m2 o inc) (pinned o :: E)) by (by eapply alloc_pin_ok, plain_fresh).
  assert (P2 : obj_ok (upd_obj (upd_obj m2 o inc) o inc) (pinned o :: pinned o :: E)) by (apply pin_ok; [done |]; by eapply live_upd, alloc_live).
  assert (P3 : obj_ok (upd_obj (upd_obj (upd_obj m2 o inc) o inc) o inc) (pinned o :: pinned o :: pinned o :: E)).
  { apply pin_ok; [done |]; by eapply live_upd, live_upd, alloc_live. }
  set (m3 := upd_obj (upd_obj (upd_obj m2 o inc) o inc) o inc) in *.
  assert (Hk : objs m3 !! o = Some (with_ref (fun _ => 3) (blank OBJ_TYPE_CONSOLE))).
  { unfold m3; rewrite !objs_upd, !decide_True, Ho, lookup_insert_eq by done; done. }
  apply (core_ok (set_handle (set_handle (set_handle m3 p 0 (Some {| h_obj := o; h_rights := OS1_RIGHT_READ |}))
    p 1 (Some {| h_obj := o; h_rights := OS1_RIGHT_WRITE |})) p 2 (Some {| h_obj := o; h_rights := OS1_RIGHT_WRITE |}))).
  { split; [| done]; simpl; apply map_eq; intros x; destruct (decide (o = x)) as [<- | Hx].
    - rewrite !lookup_alter_eq, Ho, lookup_insert_eq; done.
    - by rewrite !lookup_alter_ne. }
  assert (T0 := set_handle_table m3 p 0 (Some {| h_obj := o; h_rights := OS1_RIGHT_READ |}) t Ht).
  assert (T1 := set_handle_table _ p 1 (Some {| h_obj := o; h_rights := OS1_RIGHT_WRITE |}) _ T0).
  eapply place_plain; [exact Hk | done | done | | exact T1 | rewrite !list_lookup_insert_ne by done; apply Hs; lia].
  eapply place_plain; [exact Hk | done | done | | exact T0 | rewrite !list_lookup_insert_ne by done; apply Hs; lia].
  eapply place_plain; [exact Hk | done | done | done | exact Ht | apply Hs; lia].
Qed.

(** ** Data *)

Lemma payload_update m E o k f :
  obj_ok m E -> objs m !! o = Some k -> ktype (f k) = ktype k -> refcount (f k) = refcount k ->
  payload_ok m E o (f k) ->
  (forall p, port k = Some p -> exists q, port (f k) = Some q /\ receivers q = receivers p) ->
  obj_ok (upd_obj m o f) E.
Proof.
  intros [A1 A2 A3 A4 A5 A6 A7] Hk Ht Hr Hpay Hport.
  assert (Hx : forall x kx, objs (upd_obj m o f) !! x = Some kx -> (x = o /\ kx = f k) \/ (x <> o /\ objs m !! x = Some kx)).
  { intros x kx; rewrite objs_upd; destruct (decide (o = x)) as [<- |]; [rewrite Hk; intros [= <-]; by left | right; split; [congruence | done]]. }
  constructor; try done.
  - intros x kx [[-> ->] | [_ H]]%Hx; rewrite refs_objs; [rewrite Hr |]; by apply A1.
  - intros x kx [[-> ->] | [_ H]]%Hx; [exact Hpay | exact (A2 x kx H)].
  - intros p t i h Hp Hi; apply live_upd; by eapply A3.
  - intros h Hh; apply live_upd; by apply A4.
  - intros x Hin; destruct (A6 x Hin) as (kx & p & H1 & H2 & H3 & H4); rewrite objs_upd; destruct (decide (o = x)) as [<- |]; [| eauto 6].
    rewrite Hk in *; injection H1 as <-; destruct (Hport p H3) as (q & Hq & Hrq); exists (f k), q; rewrite Ht, Hrq; done.
  - intros x kx [[-> ->] | [_ H]]%Hx; by eapply A7.
Qed.

(** The ring of a pipe, or of a port, is replaced. *)
Lemma pipe_ring_ok m E o k p r :
  obj_ok m E -> objs m !! o = Some k -> pipe k = Some p -> ring_ok PIPE_BUF_SIZE r ->
  obj_ok (upd_obj m o (with_pipe {| p_ring := r; readers := readers p; writers := writers p |})) E.
Proof.
  intros O Hk Hp Hr; destruct (ok_payload _ _ O o k Hk) as [B1 B2]; apply (payload_update m E o k); try done; [| eauto].
  split; simpl; [intros Ht; destruct (B1 Ht) as (q & Hq & H1 & H2 & _); simplify_eq; by eexists | done].
Qed.

Lemma port_ring_ok m E o k p r :
  obj_ok m E -> objs m !! o = Some k -> port k = Some p -> ring_ok PORT_QUEUE_MAX r ->
  obj_ok (upd_obj m o (with_port {| q_ring := r; senders := senders p; receivers := receivers p; owner_pid := owner_pid p; port_name := port_name p |})) E.
Proof.
  intros O Hk Hp Hr; destruct (ok_payload _ _ O o k Hk) as [B1 B2]; apply (payload_update m E o k); try done.
  - split; simpl; [done |]; intros Ht; destruct (B2 Ht) as (q & Hq & H1 & H2 & _); simplify_eq; by eexists.
  - intros q Hq; rewrite Hp in Hq; injection Hq as <-; by eexists.
Qed.

Lemma install_new_ok m E p k r : obj_ok m E -> fresh_payload k -> obj_ok (fst (install_new m p k r)) E.
Proof.
  intros O F; unfold install_new; destruct (kobj_alloc m k) as [m1 o] eqn:Ea.
  pose proof (alloc_install_ok m E k m1 o p r O Ea F) as H; destruct (handle_install_locked m1 p o r) as [m2 h].
  destruct (Z.leb_spec 0 h), (Z.ltb_spec h 0); try lia; [done |]; subst m2; by eapply alloc_free_ok.
Qed.

(** ** Ports *)

Lemma port_acquire_ok m E cur name rights : obj_ok m E -> obj_ok (fst (port_acquire m cur name rights)) E.
Proof.
  intros O; unfold port_acquire, port_find_locked; destruct (list_find (port_named m name) (port_table m)) as [[i [o |]] |] eqn:Ef; simpl; try done.
  apply install_ok; [done |]; apply list_find_Some in Ef as (Hi & _); apply list_elem_of_lookup_2 in Hi.
  destruct (ok_ports _ _ O o Hi) as (k & _ & Hk & _); by eexists.
Qed.

(** A new handle is where it was put. *)
Lemma install_handle m p o r m' h :
  handle_install_locked m p o r = (m', h) -> 0 <= h -> handle_at m' p (Z.to_nat h) = Some {| h_obj := o; h_rights := r |}.
Proof.
  rewrite install_eq; unfold EBADF, EMFILE; destruct (table_of m p); [| intros [= <- <-]; lia].
  destruct (free_slot m p) as [i |] eqn:Ei; [| intros [= <- <-]; lia]; intros [= <- <-] _.
  apply free_slot_spec in Ei as (t & Ht & Hs & _); apply handle_at_Some; rewrite Nat2Z.id; eexists; split.
  - apply set_handle_table; rewrite count_tables; exact Ht.
  - apply list_lookup_insert_eq; by eapply lookup_lt_Some.
Qed.

Lemma install_kind m p o r k :
  objs m !! o = Some k -> exists k', objs (fst (handle_install_locked m p o r)) !! o = Some k' /\ ktype k' = ktype k.
Proof.
  intros Hk; rewrite install_eq; destruct (table_of m p); [| by exists k]; destruct (free_slot m p); [| by exists k]; simpl.
  assert (Hk1 : objs (upd_obj m o (with_ref (fun n => n + 1))) !! o = Some (with_ref (fun n => n + 1) k)) by (by rewrite objs_upd, decide_True, Hk).
  destruct (count_spec _ o r 1 _ Hk1) as (-> & _); rewrite lookup_insert_eq; eexists; split; [done |]; apply (bump_keeps r 1 (with_ref (fun n => n + 1) k)).
Qed.

(** A port somebody can receive from may be published. *)
Lemma publish_ok m E o k p i h slot :
  obj_ok m E -> objs m !! o = Some k -> ktype k = OBJ_TYPE_PORT -> handle_at m p i = Some h -> h_obj h = o -> Z.testbit (h_rights h) B_READ = true ->
  obj_ok (set_ports m (<[slot := Some o]> (port_table m))) E.
Proof.
  intros O Hk Ht Hh Ho Hb; destruct (ok_payload _ _ O o k Hk) as [_ B]; destruct (B Ht) as (q & Hq & Hr & _).
  assert (0 < receivers q).
  { apply handle_at_Some in Hh as (t & Htb & Hi); pose proof (hsum_in (is_end o B_READ) _ p t i h (is_end_nonneg _ _) Htb Hi) as H1.
    pose proof (esum_nonneg (is_end o B_READ) E (is_end_nonneg _ _)); unfold ends in Hr; unfold is_end at 1 in H1; rewrite Ho, Z.eqb_refl, Hb in H1; simpl in H1; lia. }
  destruct O as [A1 A2 A3 A4 A5 A6 A7]; constructor; try done.
  intros x Hx; simpl in Hx; apply list_elem_of_lookup in Hx as [j Hj]; destruct (decide (slot = j)) as [<- | Hne].
  - apply list_lookup_insert_Some in Hj as [(_ & Hj & _) | []]; [injection Hj as <-; by exists k, q | done].
  - rewrite list_lookup_insert_ne in Hj by done; apply list_elem_of_lookup_2 in Hj; by apply A6.
Qed.

Lemma port_publish_ok m E cur pid name rights slot :
  obj_ok m E -> Z.testbit rights B_READ = true -> obj_ok (fst (port_publish m cur pid name rights slot)) E.
Proof.
  intros O Hr; unfold port_publish; set (k := with_pid pid (with_port (new_port pid name) (blank OBJ_TYPE_PORT))).
  destruct (kobj_alloc m k) as [m1 o] eqn:Ea; case_match; [by eapply alloc_free_ok |].
  pose proof (alloc_install_ok m E k m1 o cur rights O Ea (new_port_fresh pid name)) as Hi.
  destruct (alloc_spec _ _ _ _ Ea) as (_ & Ho & _); destruct (install_kind m1 cur o rights (with_ref (fun _ => 0) k)) as (k' & Hk' & Ht);
    [by rewrite Ho, lookup_insert_eq |].
  destruct (handle_install_locked m1 cur o rights) as [m2 h] eqn:E2; destruct (Z.leb_spec 0 h); [| subst m2; by eapply alloc_free_ok].
  apply (publish_ok m2 E o k' cur (Z.to_nat h) {| h_obj := o; h_rights := rights |}); try done; by eapply install_handle.
Qed.

Lemma create_port_ok m E cur pid name rights a b : obj_ok m E -> obj_ok (fst (create_port m cur pid name rights a b)) E.
Proof.
  intros O; unfold create_port, has_any; destruct (Z.land rights OS1_RIGHT_READ =? 0) eqn:Er; simpl; [by apply port_acquire_ok |].
  destruct (port_choose m name); [done |]; case_match; [done |]; apply port_publish_ok; [done |].
  apply Z.eqb_neq in Er; unfold B_READ; destruct (Z.testbit rights 0) eqn:Eb; [done |]; destruct Er; unfold OS1_RIGHT_READ.
  apply Z.bits_inj'; intros b1 Hb1; rewrite Z.land_spec, Z.bits_0; change 1 with (Z.ones 1).
  destruct (Z.eq_dec b1 0) as [-> |]; [by rewrite Eb | rewrite Z.ones_spec_high by lia; by rewrite andb_false_r].
Qed.

(** ** The rounds of a transfer *)

Lemma ring_take_ok {A} (d : A) n r : 0 < n -> ring_ok n r -> 0 < r_count r -> ring_ok n (ring_add (fst (ring_take d n r)) (-1)).
Proof. intros Hn Hr Hc; pose proof (take_spec d n Hn r Hr Hc) as H; destruct (ring_take d n r); apply H. Qed.

Lemma pipe_ring m E o k p : obj_ok m E -> objs m !! o = Some k -> ktype k = OBJ_TYPE_PIPE -> pipe k = Some p -> ring_ok PIPE_BUF_SIZE (p_ring p).
Proof. intros O Hk Ht Hp; destruct (ok_payload _ _ O o k Hk) as [B _]; destruct (B Ht) as (q & Hq & _ & _ & H); by simplify_eq. Qed.

Lemma port_ring m E o k p : obj_ok m E -> objs m !! o = Some k -> ktype k = OBJ_TYPE_PORT -> port k = Some p -> ring_ok PORT_QUEUE_MAX (q_ring p).
Proof. intros O Hk Ht Hp; destruct (ok_payload _ _ O o k Hk) as [_ B]; destruct (B Ht) as (q & Hq & _ & _ & H); by simplify_eq. Qed.

(** How many bytes a read round takes. *)
Lemma read_amount c n : 0 <= n -> 0 <= c <= PIPE_BUF_SIZE -> (if c <? n then c else u32 n) = Z.min c n.
Proof.
  intros Hn Hc; destruct (Z.ltb_spec c n); [lia |]; unfold PIPE_BUF_SIZE in Hc; rewrite u32_small; lia.
Qed.

(** A read round takes the front of the queue, a write round adds to its end. *)
Lemma pipe_read_spec m o p n m' l :
  ring_ok PIPE_BUF_SIZE (p_ring p) -> 0 <= n -> pipe_read m o p n = Some (m', l) ->
  (l = [] /\ m' = m /\ contents 0 PIPE_BUF_SIZE (p_ring p) = [] /\ writers p = 0) \/
  exists r, ring_ok PIPE_BUF_SIZE r /\ contents 0 PIPE_BUF_SIZE (p_ring p) = l ++ contents 0 PIPE_BUF_SIZE r /\
    zlen l = Z.min (r_count (p_ring p)) n /\
    m' = wake (upd_obj m o (with_pipe {| p_ring := r; readers := readers p; writers := writers p |})) o Wq.
Proof.
  intros Hr Hn; unfold pipe_read; assert (Hc : 0 <= r_count (p_ring p) <= PIPE_BUF_SIZE) by apply Hr; rewrite (read_amount _ n Hn Hc).
  destruct (Z.ltb_spec 0 (r_count (p_ring p))) as [H0 | H0].
  - pose proof (ring_read_spec 0 PIPE_BUF_SIZE eq_refl (p_ring p) (Z.to_nat (Z.min (r_count (p_ring p)) n)) Hr) as H.
    destruct (ring_read 0 PIPE_BUF_SIZE (p_ring p) _) as [r x]; destruct H as (H1 & H2 & H3); [lia |]; intros [= <- <-]; right; exists r.
    split; [done |]; split; [done |]; split; [unfold zlen; lia | done].
  - destruct (Z.eqb_spec (writers p) 0); [intros [= <- <-] | done]; left; split; [done |]; split; [done |]; split; [| done].
    assert (r_count (p_ring p) = 0) as E by lia; unfold contents; by rewrite E.
Qed.

Lemma pipe_write_spec m o p rest m' rest' :
  ring_ok PIPE_BUF_SIZE (p_ring p) -> pipe_write m o p rest = Wrote m' rest' ->
  exists r l, rest = l ++ rest' /\ ring_ok PIPE_BUF_SIZE r /\ contents 0 PIPE_BUF_SIZE r = contents 0 PIPE_BUF_SIZE (p_ring p) ++ l /\
    zlen l = Z.min (zlen rest) (PIPE_BUF_SIZE - r_count (p_ring p)) /\
    m' = wake (upd_obj m o (with_pipe {| p_ring := r; readers := readers p; writers := writers p |})) o Rq.
Proof.
  intros Hr; unfold pipe_write; destruct (readers p =? 0); [done |]; assert (Hc : 0 <= r_count (p_ring p) <= PIPE_BUF_SIZE) by apply Hr.
  destruct (Z.eqb_spec (PIPE_BUF_SIZE - r_count (p_ring p)) 0); [done |].
  set (c := if zlen rest <? PIPE_BUF_SIZE - r_count (p_ring p) then zlen rest else PIPE_BUF_SIZE - r_count (p_ring p)).
  assert (Ec : c = Z.min (zlen rest) (PIPE_BUF_SIZE - r_count (p_ring p))).
  { unfold c; destruct (Z.ltb_spec (zlen rest) (PIPE_BUF_SIZE - r_count (p_ring p))); lia. }
  intros [= <- <-]; pose proof (zlen_nonneg rest).
  assert (El : zlen (take (Z.to_nat c) rest) = c) by (unfold zlen in *; rewrite length_take; lia).
  destruct (ring_write_spec 0 PIPE_BUF_SIZE eq_refl (p_ring p) (take (Z.to_nat c) rest) Hr) as [H1 H2]; [lia |].
  exists (ring_write PIPE_BUF_SIZE (p_ring p) (take (Z.to_nat c) rest)), (take (Z.to_nat c) rest).
  split; [by rewrite take_drop |]; split; [done |]; split; [done |]; split; [lia | done].
Qed.

Lemma enqueue_ok m E o k p x :
  obj_ok m E -> objs m !! o = Some k -> port k = Some p -> ring_ok PORT_QUEUE_MAX (q_ring p) -> r_count (q_ring p) < PORT_QUEUE_MAX ->
  obj_ok (enqueue_message m o p x) E.
Proof.
  intros O Hk Hp Hr Hlt; apply (port_ring_ok m E o k p _ O Hk Hp); by apply (put_spec message0 PORT_QUEUE_MAX eq_refl).
Qed.

Lemma port_receive_spec m o p m' x :
  ring_ok PORT_QUEUE_MAX (q_ring p) -> port_receive m o p = Some (m', x) ->
  (x = None /\ m' = m /\ contents message0 PORT_QUEUE_MAX (q_ring p) = [] /\ senders p = 0) \/
  exists r y, x = Some y /\ ring_ok PORT_QUEUE_MAX r /\ contents message0 PORT_QUEUE_MAX (q_ring p) = y :: contents message0 PORT_QUEUE_MAX r /\
    m' = wake (upd_obj m o (with_port {| q_ring := r; senders := senders p; receivers := receivers p; owner_pid := owner_pid p; port_name := port_name p |})) o Wq.
Proof.
  intros Hr; unfold port_receive; destruct (Z.ltb_spec 0 (r_count (q_ring p))) as [H0 | H0].
  - pose proof (take_spec message0 PORT_QUEUE_MAX eq_refl (q_ring p) Hr H0) as H; destruct (ring_take message0 PORT_QUEUE_MAX (q_ring p)) as [r y].
    destruct H as [H1 H2]; intros [= <- <-]; right; eauto 10.
  - destruct (Z.eqb_spec (senders p) 0); [intros [= <- <-] | done]; left; do 2 (split; [done |]); split; [| done].
    assert (r_count (q_ring p) = 0) as E by (destruct Hr as (_ & _ & ? & _); lia); unfold contents; by rewrite E.
Qed.

(** ** Sending handles *)

Lemma send_install_ok m E cur rcv fds l : obj_ok m E -> obj_ok (fst (fst (send_install m cur rcv fds l))) E.
Proof.
  revert m l; induction fds as [| fd fds IH]; intros m l O; simpl; [done |].
  destruct (handle_index fd) as [i |]; simpl; [| done]; destruct (handle_at m cur i) as [h |] eqn:Eh; [| done].
  pose proof (install_ok m E rcv (h_obj h) (h_rights h) O (handle_obj_live _ _ _ _ _ O Eh)) as O1.
  destruct (handle_install_locked m rcv _ _) as [m1 r]; simpl in O1; case_match; [done | by apply IH].
Qed.

Lemma send_install_quiet m cur rcv fds l : quiet m (fst (fst (send_install m cur rcv fds l))).
Proof.
  revert m l; induction fds as [| fd fds IH]; intros m l; simpl; [done |].
  destruct (handle_index fd) as [i |]; simpl; [| done]; destruct (handle_at m cur i) as [h |]; [| done].
  pose proof (quiet_install m rcv (h_obj h) (h_rights h)) as Q; destruct (handle_install_locked m rcv _ _) as [m1 r]; simpl in Q.
  case_match; [done |]; etransitivity; [exact Q | apply IH].
Qed.

Lemma send_unwind_ok m E rcv l : obj_ok m E -> obj_ok (send_unwind m rcv l) E.
Proof. apply (release_slots_ok m E rcv l). Qed.

(** An object that is pinned lives on, with its type. *)
Lemma quiet_keeps m m' E o k :
  quiet m m' -> obj_ok m E -> obj_ok m' E -> pinned o ∈ E -> objs m !! o = Some k ->
  exists k', objs m' !! o = Some k' /\ ktype k' = ktype k.
Proof.
  intros [w [_ _ F]] O O' Hin Hk; destruct (ok_extra _ _ O' _ Hin) as [k' Hk']; simpl in Hk'.
  destruct (F o k' Hk' (ok_fresh _ _ O o k Hk)) as (k0 & H0 & [Ht _ _]); simplify_eq; by exists k'.
Qed.

Lemma send_caps_locked_ok m E cur rcv pid o p x fds k :
  obj_ok m E -> pinned o ∈ E -> objs m !! o = Some k -> ktype k = OBJ_TYPE_PORT ->
  obj_ok (fst (send_caps_locked m cur rcv pid o p x fds)) E.
Proof.
  intros O Hin Hk Ht; unfold send_caps_locked; pose proof (send_install_ok m E cur rcv fds [] O) as O1.
  pose proof (send_install_quiet m cur rcv fds []) as Q; destruct (send_install m cur rcv fds []) as [[m1 ret] inst]; simpl in *.
  destruct (quiet_keeps _ _ _ _ _ Q O O1 Hin Hk) as (k1 & Hk1 & Ht1).
  destruct (Z.eqb_spec ret 0) as [-> | Hret]; simpl; [| destruct (ret <? 0); [by apply send_unwind_ok | by apply wake_ok]]; rewrite Hk1; simpl.
  destruct (port k1) as [q |] eqn:Eq; [| by apply send_unwind_ok].
  destruct (receivers q =? 0); [by apply send_unwind_ok |]; destruct (Z.leb_spec PORT_QUEUE_MAX (r_count (q_ring q))); [by apply send_unwind_ok |].
  simpl; apply wake_ok, (enqueue_ok m1 E o k1 q); try done; eapply port_ring; [exact O1 | exact Hk1 | congruence | done].
Qed.

(** ** The steps of the manager

    The state is the manager and the objects pinned by calls under way; each
    step is one section under the lock, and tells what went in and out. *)
Definition plain (k : kobject) : Prop := ktype k <> OBJ_TYPE_PIPE /\ ktype k <> OBJ_TYPE_PORT.

(** What a send with handles puts into the port. *)
Definition sent_with (m : objmgr) (cur rcv : nat) (pid o : Z) (x : ipc_message) (fds : list Z) (ret : Z) : list event :=
  if ret <? 0 then [] else [Put o [inr (with_fds x pid (snd (send_install m cur rcv fds [])))]].

Inductive obj_step : objmgr -> list Z -> list event -> objmgr -> list Z -> Prop :=
  | step_dup m P cur handle rights : obj_step m P [] (fst (sys_handle_dup m cur handle rights)) P
  | step_close m P cur handle : obj_step m P [] (fst (sys_handle_close m cur handle)) P
  | step_grant m P cur allowed tgt handle rights : obj_step m P [] (fst (sys_cap_grant m cur allowed tgt handle rights)) P
  | step_ensure m P p ok : obj_step m P [] (fst (handles_ensure m p ok)) P
  | step_create m P cur k rights : plain k -> obj_step m P [] (fst (install_new m cur k rights)) P
  | step_pipe m P cur a b c d e : obj_step m P [] (fst (fst (sys_pipe m cur a b c d e))) P
  | step_stdio m P p a b : stdio_free m p -> obj_step m P [] (fst (process_install_stdio m p a b)) P
  | step_redirect m P parent child dst src ok :
      (child < length (tables m))%nat -> obj_step m P [] (fst (process_redirect_child_fd_from m parent child dst src ok)) P
  | step_destroy m P p : obj_step m P [] (process_handles_destroy m p) P
  | step_acquire m P cur name rights : obj_step m P [] (fst (port_acquire m cur name rights)) P
  | step_publish m P cur pid name rights slot :
      Z.testbit rights B_READ = true -> obj_step m P [] (fst (port_publish m cur pid name rights slot)) P
  | step_pin m P cur handle need m' o : pin_handle m cur handle need = (m', inr o) -> obj_step m P [] m' (o :: P)
  | step_unpin m P1 o P2 : obj_step m (P1 ++ o :: P2) [] (obj_unref m o) (P1 ++ P2)
  | step_read m P o k p n m' l :
      o ∈ P -> objs m !! o = Some k -> ktype k = OBJ_TYPE_PIPE -> pipe k = Some p -> 0 < n ->
      pipe_read m o p n = Some (m', l) -> obj_step m P [Got o (inl <$> l)] m' P
  | step_write m P o k p l rest m' :
      o ∈ P -> objs m !! o = Some k -> ktype k = OBJ_TYPE_PIPE -> pipe k = Some p ->
      pipe_write m o p (l ++ rest) = Wrote m' rest -> obj_step m P [Put o (inl <$> l)] m' P
  | step_receive m P o k p m' x :
      o ∈ P -> objs m !! o = Some k -> ktype k = OBJ_TYPE_PORT -> port k = Some p ->
      port_receive m o p = Some (m', x) -> obj_step m P [Got o (inr <$> option_list x)] m' P
  | step_send m P o k p x m' ret :
      o ∈ P -> objs m !! o = Some k -> ktype k = OBJ_TYPE_PORT -> port k = Some p ->
      port_send m o p x = Some (m', ret) -> obj_step m P (if ret <? 0 then [] else [Put o [inr x]]) m' P
  | step_send_caps m P o k p cur rcv pid x fds m' ret :
      o ∈ P -> objs m !! o = Some k -> ktype k = OBJ_TYPE_PORT -> port k = Some p ->
      send_caps_locked m cur rcv pid o p x fds = (m', ret) -> obj_step m P (sent_with m cur rcv pid o x fds ret) m' P.

Inductive obj_run : objmgr -> list Z -> list event -> objmgr -> list Z -> Prop :=
  | run_nil m P : obj_run m P [] m P
  | run_snoc m P tr m1 P1 tr1 m2 P2 : obj_run m P tr m1 P1 -> obj_step m1 P1 tr1 m2 P2 -> obj_run m P (tr ++ tr1) m2 P2.

Lemma perm_ok m E E' : Permutation E E' -> obj_ok m E -> obj_ok m E'.
Proof.
  intros H O; apply (move_ok m E); try done; [| apply O]; intros f; f_equal; clear O.
  induction H; simpl; lia.
Qed.

Lemma obj_step_ok m P tr m' P' : obj_step m P tr m' P' -> obj_ok m (pins P) -> obj_ok m' (pins P').
Proof.
  intros H O; destruct H.
  - by apply dup_ok.
  - by apply close_ok.
  - by apply grant_ok.
  - by apply ensure_ok.
  - apply install_new_ok; [done |]; destruct H as [H1 H2]; by split.
  - by apply sys_pipe_ok.
  - by apply install_stdio_ok.
  - by apply redirect_ok.
  - by apply destroy_ok.
  - by apply port_acquire_ok.
  - by apply port_publish_ok.
  - by apply (pin_call_ok m (pins P) cur handle need m' (inr o)).
  - apply unpin_ok; eapply perm_ok; [| exact O]; unfold pins; rewrite !fmap_app; simpl; symmetry; apply Permutation_middle.
  - assert (Hr := pipe_ring _ _ _ _ _ O H0 H1 H2); destruct (pipe_read_spec _ _ _ _ _ _ Hr (Z.lt_le_incl _ _ H3) H4) as [(_ & -> & _) | (r & Hrr & _ & _ & ->)]; [done |].
    apply wake_ok; by apply (pipe_ring_ok m _ o k p).
  - assert (Hr := pipe_ring _ _ _ _ _ O H0 H1 H2); destruct (pipe_write_spec _ _ _ _ _ _ Hr H3) as (r & l' & _ & Hrr & _ & _ & ->).
    apply wake_ok; by apply (pipe_ring_ok m _ o k p).
  - assert (Hr := port_ring _ _ _ _ _ O H0 H1 H2); destruct (port_receive_spec _ _ _ _ _ Hr H3) as [(_ & -> & _) | (r & y & _ & Hrr & _ & ->)]; [done |].
    apply wake_ok; by apply (port_ring_ok m _ o k p).
  - unfold port_send in H3; case_match; [by simplify_eq |]; destruct (Z.ltb_spec (r_count (q_ring p)) PORT_QUEUE_MAX); simplify_eq.
    apply wake_ok, (enqueue_ok m _ o k p); try done; by eapply port_ring.
  - pose proof (send_caps_locked_ok m (pins P) cur rcv pid o p x fds k O) as Hs; rewrite H3 in Hs; apply Hs; try done.
    apply list_elem_of_fmap; by exists o.
Qed.
