(* ===== verification/ObjectTheorems.v ===== *)
(** * Theorems about objects and handles

    In every state the manager reaches the counts are exact and nothing
    dangles; no right appears that nobody held; what is put into a pipe or a
    port comes out in order; and who waits on one is woken when he need not
    wait any more. *)
From Stdlib Require Import ZArith Lia String.
From stdpp Require Import base numbers list gmap.
From S2P Require Import Prelude Gpt CString ProcTab VfsPath Vfs Ipc Ring Object ObjectProofs ObjectSteps.

#[local] Arguments Z.testbit : simpl never.

(** ** Steps as frames *)

Lemma quiet_event m m' : quiet m m' -> exists w, frame m w [] m'.
Proof. done. Qed.

(** A transfer on [o] leaves the other objects alone. *)
Lemma only_put o l x : x <> o -> put x [Put o l] = [] /\ got x [Put o l] = [].
Proof. simpl; destruct (Z.eqb_spec o x); [congruence | done]. Qed.
Lemma only_got o l x : x <> o -> put x [Got o l] = [] /\ got x [Got o l] = [].
Proof. simpl; destruct (Z.eqb_spec o x); [congruence | done]. Qed.

Lemma put_own o l : put o [Put o l] = l.
Proof. simpl; by rewrite Z.eqb_refl, app_nil_r. Qed.
Lemma got_own o l : got o [Got o l] = l.
Proof. simpl; by rewrite Z.eqb_refl, app_nil_r. Qed.

Definition re_pipe (p : kpipe) (r : ring Z) : kpipe := {| p_ring := r; readers := readers p; writers := writers p |}.
Definition re_port (p : kport) (r : ring ipc_message) : kport :=
  {| q_ring := r; senders := senders p; receivers := receivers p; owner_pid := owner_pid p; port_name := port_name p |}.

Lemma queue_pipe k p : ktype k = OBJ_TYPE_PIPE -> pipe k = Some p -> queue k = inl <$> contents 0 PIPE_BUF_SIZE (p_ring p).
Proof. unfold queue; intros -> ->; done. Qed.
Lemma queue_port k p : ktype k = OBJ_TYPE_PORT -> port k = Some p -> queue k = inr <$> contents message0 PORT_QUEUE_MAX (q_ring p).
Proof. unfold queue; intros -> ->; done. Qed.

Lemma blocked_pipe q k p : ktype k = OBJ_TYPE_PIPE -> pipe k = Some p ->
  blocked q k = match q with Rq => pipe_readable_block p | Wq => pipe_writable_block p end.
Proof. unfold blocked; intros -> ->; done. Qed.
Lemma blocked_port q k p : ktype k = OBJ_TYPE_PORT -> port k = Some p ->
  blocked q k = match q with Rq => port_readable_block p | Wq => port_writable_block p end.
Proof. unfold blocked; intros -> ->; done. Qed.

(** A new ring in a pipe: the queue may only grow when readers are woken, and
    only shrink when writers are. *)
Lemma pipe_frame m o k p r w tr :
  objs m !! o = Some k -> ktype k = OBJ_TYPE_PIPE -> pipe k = Some p -> (forall x, x <> o -> put x tr = [] /\ got x tr = []) ->
  got o tr ++ (inl <$> contents 0 PIPE_BUF_SIZE r) = (inl <$> contents 0 PIPE_BUF_SIZE (p_ring p)) ++ put o tr ->
  ((o, Rq) ∈ w \/ (r_count (p_ring p) = 0 -> r_count r = 0)) ->
  ((o, Wq) ∈ w \/ (r_count (p_ring p) = PIPE_BUF_SIZE -> r_count r = PIPE_BUF_SIZE)) ->
  forall m2, objs m2 = objs (upd_obj m o (with_pipe (re_pipe p r))) -> next_obj m2 = next_obj m -> woken m2 = woken m ++ w -> frame m w tr m2.
Proof.
  intros Hk Ht Hp Hx Hq Hr Hw m2 H1 H2 H3; apply (frame_upd m o (with_pipe (re_pipe p r))); [| done | done | done | done].
  intros k' Hk'; rewrite Hk in Hk'; injection Hk' as <-; split; [done | |].
  - by rewrite (queue_pipe k p), (queue_pipe _ (re_pipe p r)).
  - intros q; rewrite (blocked_pipe q k p), (blocked_pipe q _ (re_pipe p r)) by done; destruct q;
      unfold pipe_readable_block, pipe_writable_block; simpl; intros [Hc Hn]%andb_true_iff; apply Z.eqb_eq in Hc; rewrite Hn.
    + destruct Hr as [Hr | Hr]; [by right | left]; rewrite Hr by done; done.
    + destruct Hw as [Hw | Hw]; [by right | left]; rewrite Hw by done; done.
Qed.

Lemma port_frame m o k p r w tr :
  objs m !! o = Some k -> ktype k = OBJ_TYPE_PORT -> port k = Some p -> (forall x, x <> o -> put x tr = [] /\ got x tr = []) ->
  got o tr ++ (inr <$> contents message0 PORT_QUEUE_MAX r) = (inr <$> contents message0 PORT_QUEUE_MAX (q_ring p)) ++ put o tr ->
  ((o, Rq) ∈ w \/ (r_count (q_ring p) = 0 -> r_count r = 0)) ->
  ((o, Wq) ∈ w \/ (r_count (q_ring p) = PORT_QUEUE_MAX -> r_count r = PORT_QUEUE_MAX)) ->
  forall m2, objs m2 = objs (upd_obj m o (with_port (re_port p r))) -> next_obj m2 = next_obj m -> woken m2 = woken m ++ w -> frame m w tr m2.
Proof.
  intros Hk Ht Hp Hx Hq Hr Hw m2 H1 H2 H3; apply (frame_upd m o (with_port (re_port p r))); [| done | done | done | done].
  intros k' Hk'; rewrite Hk in Hk'; injection Hk' as <-; split; [done | |].
  - by rewrite (queue_port k p), (queue_port _ (re_port p r)).
  - intros q; rewrite (blocked_port q k p), (blocked_port q _ (re_port p r)) by done; destruct q;
      unfold port_readable_block, port_writable_block; simpl; intros [Hc Hn]%andb_true_iff; apply Z.eqb_eq in Hc; rewrite Hn.
    + destruct Hr as [Hr | Hr]; [by right | left]; rewrite Hr by done; done.
    + destruct Hw as [Hw | Hw]; [by right | left]; rewrite Hw by done; done.
Qed.

(** Messages go to the end of a port. *)
Lemma enqueue_frame m o k p x w :
  objs m !! o = Some k -> ktype k = OBJ_TYPE_PORT -> port k = Some p -> ring_ok PORT_QUEUE_MAX (q_ring p) -> r_count (q_ring p) < PORT_QUEUE_MAX ->
  (o, Rq) ∈ w -> forall m2, objs m2 = objs (enqueue_message m o p x) -> next_obj m2 = next_obj m -> woken m2 = woken m ++ w ->
  frame m w [Put o [inr x]] m2.
Proof.
  intros Hk Ht Hp Hr Hlt Hw; destruct (put_spec message0 PORT_QUEUE_MAX eq_refl (q_ring p) x Hr Hlt) as [_ Hc].
  apply (port_frame m o k p (ring_add (ring_put PORT_QUEUE_MAX (q_ring p) x) 1) w [Put o [inr x]] Hk Ht Hp).
  - intros y Hy; by apply only_put.
  - rewrite put_own, Hc, fmap_app; done.
  - by left.
  - right; lia.
Qed.

Lemma send_install_ret m cur rcv fds l : snd (fst (send_install m cur rcv fds l)) <= 0.
Proof.
  revert m l; induction fds as [| fd fds IH]; intros m l; simpl; [lia |].
  destruct (i ← handle_index fd; handle_at m cur i) as [h |]; [| simpl; unfold EBADF; lia].
  destruct (handle_install_locked m rcv _ _) as [m1 r]; destruct (Z.ltb_spec r 0); [simpl; lia | apply IH].
Qed.

Lemma quiet_unwind m rcv l : quiet m (send_unwind m rcv l).
Proof. apply (quiet_release_slots m rcv l). Qed.

Lemma send_caps_frame m E cur rcv pid o p x fds k m' ret :
  obj_ok m E -> pinned o ∈ E -> objs m !! o = Some k -> ktype k = OBJ_TYPE_PORT ->
  send_caps_locked m cur rcv pid o p x fds = (m', ret) -> exists w, frame m w (sent_with m cur rcv pid o x fds ret) m'.
Proof.
  intros O Hin Hk Ht; unfold send_caps_locked, sent_with; pose proof (send_install_ok m E cur rcv fds [] O) as O1.
  pose proof (send_install_ret m cur rcv fds []) as Hret; pose proof (send_install_quiet m cur rcv fds []) as Q.
  destruct (send_install m cur rcv fds []) as [[m1 r] inst]; simpl in *.
  destruct (quiet_keeps _ _ _ _ _ Q O O1 Hin Hk) as (k1 & Hk1 & Ht1); rewrite Ht in Ht1.
  assert (Hback : forall r', r' < 0 -> (send_unwind m1 rcv inst, r') = (m', ret) -> exists w, frame m w (if ret <? 0 then [] else [Put o [inr (with_fds x pid inst)]]) m').
  { intros r' Hr' [= <- <-]; rewrite (proj2 (Z.ltb_lt _ _) Hr'); apply (quiet_trans m m1); [done | apply quiet_unwind]. }
  destruct (Z.eqb_spec r 0) as [-> | Hr]; simpl; [| rewrite (proj2 (Z.ltb_lt r 0)) by lia; apply Hback; lia].
  rewrite Hk1; simpl; destruct (port k1) as [q |] eqn:Eq; [| by apply Hback].
  destruct (receivers q =? 0); [by apply Hback |]; destruct (Z.leb_spec PORT_QUEUE_MAX (r_count (q_ring q))); [by apply Hback |].
  simpl; intros [= <- <-]; simpl; destruct Q as [w Fr]; exists (w ++ [(o, Rq)]).
  apply (frame_trans m m1 _ w [(o, Rq)] [] [Put o [inr (with_fds x pid inst)]] Fr).
  apply (enqueue_frame m1 o k1 q (with_fds x pid inst)); try done; [by eapply port_ring | by left].
Qed.

Lemma contents_count {A} (d : A) n r : ring_ok n r -> contents d n r = [] -> r_count r = 0.
Proof. intros Hr E; rewrite <- (length_contents d n r Hr), E; done. Qed.

Lemma frame_got_nil m o : frame m [] [Got o []] m.
Proof.
  destruct (frame_refl m) as [A1 A2 A3]; split; [done | done |]; intros x kx Hx Hlt; destruct (A3 x kx Hx Hlt) as (k & Hk & [B1 B2 B3]).
  exists k; split; [done |]; split; [done | | done]; simpl in *; by destruct (o =? x).
Qed.

Lemma step_frame m P tr m' P' : obj_step m P tr m' P' -> obj_ok m (pins P) -> exists w, frame m w tr m'.
Proof.
  intros H O; destruct H; try solve [apply quiet_event; auto with quiet].
  - apply quiet_event; pose proof (quiet_pin m cur handle need) as Q; by rewrite H in Q.
  - assert (Hr := pipe_ring _ _ _ _ _ O H0 H1 H2).
    destruct (pipe_read_spec _ _ _ _ _ _ Hr (Z.lt_le_incl _ _ H3) H4) as [(-> & -> & _) | (r & Hrr & Hc & Hl & ->)].
    + exists []; apply frame_got_nil.
    + exists [(o, Wq)]; apply (pipe_frame m o k p r _ _ H0 H1 H2); try done; [intros y Hy; by apply only_got | | | by left; left].
      * rewrite got_own, Hc, fmap_app; simpl; by rewrite app_nil_r.
      * right; intros E; pose proof (length_contents 0 PIPE_BUF_SIZE _ Hr) as L1; pose proof (length_contents 0 PIPE_BUF_SIZE _ Hrr) as L2.
        rewrite Hc in L1; unfold zlen in *; rewrite length_app in L1; destruct Hrr as (_ & _ & ? & _); lia.
  - assert (Hr := pipe_ring _ _ _ _ _ O H0 H1 H2); destruct (pipe_write_spec _ _ _ _ _ _ Hr H3) as (r & l' & El & Hrr & Hc & Hl & ->).
    apply app_inv_tail in El; subst l'; exists [(o, Rq)]; apply (pipe_frame m o k p r _ _ H0 H1 H2); try done; [intros y Hy; by apply only_put | | by left; left |].
    + rewrite put_own, Hc, fmap_app; done.
    + right; intros E; pose proof (length_contents 0 PIPE_BUF_SIZE _ Hr) as L1; pose proof (length_contents 0 PIPE_BUF_SIZE _ Hrr) as L2.
      rewrite Hc in L2; unfold zlen in *; rewrite length_app in L2; destruct Hrr as (_ & _ & ? & _); lia.
  - assert (Hr := port_ring _ _ _ _ _ O H0 H1 H2).
    destruct (port_receive_spec _ _ _ _ _ Hr H3) as [(-> & -> & _) | (r & y & -> & Hrr & Hc & ->)].
    + exists []; apply frame_got_nil.
    + exists [(o, Wq)]; apply (port_frame m o k p r _ _ H0 H1 H2); try done; [intros z Hz; by apply only_got | | | by left; left].
      * rewrite got_own, Hc; simpl; by rewrite app_nil_r.
      * right; intros E; pose proof (length_contents message0 PORT_QUEUE_MAX _ Hr) as L1; rewrite Hc, E in L1; unfold zlen in L1; simpl in L1; lia.
  - unfold port_send in H3; destruct (receivers p =? 0); [injection H3 as <- <-; exists []; apply frame_refl |].
    destruct (Z.ltb_spec (r_count (q_ring p)) PORT_QUEUE_MAX); [| done]; injection H3 as <- <-; exists [(o, Rq)].
    apply (enqueue_frame m o k p x); try done; [by eapply port_ring | by left].
  - eapply send_caps_frame; [exact O | | exact H0 | exact H1 | exact H3]; apply list_elem_of_fmap; by exists o.
Qed.

Lemma run_ok m P tr m' P' : obj_run m P tr m' P' -> obj_ok m (pins P) -> obj_ok m' (pins P').
Proof. induction 1; intros O; [done |]; eapply obj_step_ok; eauto. Qed.

Lemma run_frame m P tr m' P' : obj_run m P tr m' P' -> obj_ok m (pins P) -> exists w, frame m w tr m'.
Proof.
  induction 1 as [| m P tr m1 P1 tr1 m2 P2 Hrun IH Hstep]; intros O; [exists []; apply frame_refl |].
  destruct (IH O) as [w1 F1]; destruct (step_frame _ _ _ _ _ Hstep (run_ok _ _ _ _ _ Hrun O)) as [w2 F2].
  exists (w1 ++ w2); by apply (frame_trans m m1).
Qed.

(** ** Where rights come from *)

(** A handle a step may leave behind, when [m] is the state before: one with no
    more rights than an earlier one on the same object, one on a new object, or
    one on a port found by its name, which cannot receive. *)
Definition sourced (m : objmgr) (h' : handle_entry) : Prop :=
  (exists p i h, handle_at m p i = Some h /\ h_obj h = h_obj h' /\ forall b, Z.testbit (h_rights h') b = true -> Z.testbit (h_rights h) b = true) \/
  next_obj m <= h_obj h' \/
  (exists k, objs m !! h_obj h' = Some k /\ ktype k = OBJ_TYPE_PORT /\ Z.testbit (h_rights h') B_READ = false).

Definition all_sourced (m m' : objmgr) : Prop := forall p i h, handle_at m' p i = Some h -> sourced m h.

Lemma sourced_handle m p i h : handle_at m p i = Some h -> sourced m h.
Proof. intros H; left; exists p, i, h; auto. Qed.

Lemma sourced_refl m : all_sourced m m.
Proof. intros p i h; apply sourced_handle. Qed.

Lemma sourced_sub m o r r' : sourced m {| h_obj := o; h_rights := r |} -> sourced m {| h_obj := o; h_rights := Z.land r' r |}.
Proof.
  assert (Hl : forall b, Z.testbit (Z.land r' r) b = true -> Z.testbit r b = true) by (intros b; rewrite Z.land_spec; apply andb_true_iff).
  intros [(p & i & h & H1 & H2 & H3) | [H | (k & H1 & H2 & H3)]]; simpl in *.
  - left; exists p, i, h; split; [done |]; split; [done |]; intros b Hb; apply H3; by apply Hl.
  - by right; left.
  - right; right; exists k; split; [done |]; split; [done |]; simpl; by rewrite Z.land_spec, H3, andb_false_r.
Qed.

Lemma sourced_tables b m m' : tables m' = tables m -> all_sourced b m -> all_sourced b m'.
Proof. unfold all_sourced, handle_at, table_of; intros ->; auto. Qed.

Lemma handle_at_set m p i s q j h : handle_at (set_handle m p i s) q j = Some h -> s = Some h \/ handle_at m q j = Some h.
Proof.
  intros (t & Ht & Hj)%handle_at_Some; apply set_handle_lookup in Ht as (t0 & H0 & ->); case_decide as Hpq.
  - apply list_lookup_insert_Some in Hj as [(_ & Hs & _) | [_ Hj]]; [left; congruence | right; apply handle_at_Some; eauto].
  - right; apply handle_at_Some; eauto.
Qed.

Lemma sourced_set b m p i s :
  (forall h, s = Some h -> sourced b h) -> all_sourced b m -> all_sourced b (set_handle m p i s).
Proof. intros Hs Hm q j h H; destruct (handle_at_set _ _ _ _ _ _ _ H); [auto | by eapply Hm]. Qed.

Lemma sourced_clear b m p i : all_sourced b m -> all_sourced b (set_handle m p i None).
Proof. by apply sourced_set. Qed.

Lemma sourced_count b m o r d : all_sourced b m -> all_sourced b (pipe_handle_count m o r d).
Proof. apply sourced_tables, count_tables. Qed.

Lemma sourced_drop b m o : all_sourced b m -> all_sourced b (drop_ref m o).
Proof. apply sourced_tables, drop_ref_tables. Qed.

Lemma sourced_free b m o : all_sourced b m -> all_sourced b (kobj_free m o).
Proof. apply sourced_tables; unfold kobj_free, count_live; repeat case_match; done. Qed.

Lemma sourced_ref b m o f : all_sourced b m -> all_sourced b (upd_obj m o f).
Proof. by apply sourced_tables. Qed.

Lemma sourced_ports b m t : all_sourced b m -> all_sourced b (set_ports m t).
Proof. by apply sourced_tables. Qed.

Lemma sourced_wake b m o q : all_sourced b m -> all_sourced b (wake m o q).
Proof. by apply sourced_tables. Qed.

Lemma sourced_alloc b m k m1 o : kobj_alloc m k = (m1, o) -> all_sourced b m -> all_sourced b m1.
Proof. intros (_ & _ & Ht & _)%alloc_spec; by apply sourced_tables. Qed.

#[local] Hint Resolve sourced_clear sourced_count sourced_drop sourced_free sourced_ref sourced_ports sourced_wake : sourced.

Lemma sourced_install b m p o r :
  sourced b {| h_obj := o; h_rights := r |} -> all_sourced b m -> all_sourced b (fst (handle_install_locked m p o r)).
Proof.
  intros Hs Hm; unfold handle_install_locked; destruct (table_of m p); [| done]; destruct (list_find _ _) as [[i s] |]; [simpl | done].
  apply sourced_count, sourced_ref, sourced_set; [by intros h [= <-] | done].
Qed.

Lemma sourced_release b m p i h : all_sourced b m -> all_sourced b (release_handle m p i h).
Proof. intros Hm; unfold release_handle; auto with sourced. Qed.

Lemma sourced_close b m cur handle : all_sourced b m -> all_sourced b (fst (sys_handle_close m cur handle)).
Proof. intros Hm; unfold sys_handle_close; repeat case_match; simpl; auto using sourced_release. Qed.

Lemma sourced_ensure b m p ok : all_sourced b m -> all_sourced b (fst (handles_ensure m p ok)).
Proof.
  intros Hm; unfold handles_ensure; destruct (table_of m p); [done |]; destruct ok; [simpl | done].
  intros q j h (t & Ht & Hj)%handle_at_Some; simpl in Ht; destruct (decide (p = q)) as [<- | Hq].
  - apply list_lookup_insert_Some in Ht as [(_ & [= <-] & _) | []]; [| done]; change (replicate NPROC_HANDLES None !! j = Some (Some h)) in Hj.
    apply lookup_replicate in Hj as [? _]; done.
  - rewrite list_lookup_insert_ne in Ht by done; apply (Hm q j h), handle_at_Some; eauto.
Qed.

Lemma sourced_slots b m p l : all_sourced b m -> all_sourced b (foldl (release_slot p) m l).
Proof.
  revert m; induction l as [| i l IH]; intros m Hm; simpl; [done |]; apply IH; unfold release_slot; destruct (handle_at m p i); auto using sourced_release.
Qed.

Lemma sourced_destroy b m p : all_sourced b m -> all_sourced b (process_handles_destroy m p).
Proof.
  intros Hm; unfold process_handles_destroy; destruct (table_of m p) as [t |]; [| done].
  assert (Hs := sourced_slots b m p (seq 0 (length t)) Hm); intros q j h (t1 & Ht & Hj)%handle_at_Some; simpl in Ht.
  apply list_lookup_insert_Some in Ht as [(_ & [=] & _) | [_ Ht]]; apply (Hs q j h), handle_at_Some; eauto.
Qed.

(** A handle on an object made since [b]. *)
Lemma sourced_new b m k m1 o r : next_obj b <= next_obj m -> kobj_alloc m k = (m1, o) -> sourced b {| h_obj := o; h_rights := r |}.
Proof. intros Hn (-> & _)%alloc_spec; by right; left. Qed.

Lemma ensure_next m p ok : next_obj (fst (handles_ensure m p ok)) = next_obj m.
Proof. unfold handles_ensure; destruct (table_of m p); [done |]; by destruct ok. Qed.

Lemma sourced_install_new m p k r : all_sourced m (fst (install_new m p k r)).
Proof.
  unfold install_new; destruct (kobj_alloc m k) as [m1 o] eqn:Ea.
  pose proof (sourced_install m m1 p o r (sourced_new _ _ _ _ _ r (Z.le_refl _) Ea) (sourced_alloc _ _ _ _ _ Ea (sourced_refl m))) as Hs.
  destruct (handle_install_locked m1 p o r) as [m2 h]; simpl in Hs; case_match; simpl; auto with sourced.
Qed.

Lemma sourced_pipe m cur a b c d e : all_sourced m (fst (fst (sys_pipe m cur a b c d e))).
Proof.
  unfold sys_pipe; pose proof (sourced_ensure m m cur a (sourced_refl m)) as Hs; pose proof (ensure_next m cur a) as Hn.
  destruct (handles_ensure m cur a) as [m1 rc]; simpl in Hs, Hn; case_match; [done |]; case_match; [done |].
  destruct (kobj_alloc m1 _) as [m2 o] eqn:Ea; apply (sourced_alloc _ _ _ _ _ Ea) in Hs.
  assert (Hnew : forall r, sourced m {| h_obj := o; h_rights := r |}) by (intros r; eapply sourced_new; [by rewrite Hn | exact Ea]).
  pose proof (sourced_install m m2 cur o (Z.lor OS1_RIGHT_READ (Z.lor OS1_RIGHT_TRANSFER OS1_RIGHT_DUPLICATE)) (Hnew _) Hs) as H1.
  destruct (handle_install_locked m2 cur o _) as [m3 rfd]; simpl in H1.
  pose proof (sourced_install m m3 cur o (Z.lor OS1_RIGHT_WRITE (Z.lor OS1_RIGHT_TRANSFER OS1_RIGHT_DUPLICATE)) (Hnew _) H1) as H2.
  destruct (0 <=? rfd), (handle_install_locked m3 cur o _) as [m4 wfd]; simpl in H2; repeat case_match; simpl; auto using sourced_close with sourced.
Qed.

Lemma sourced_stdio m p a b : all_sourced m (fst (process_install_stdio m p a b)).
Proof.
  unfold process_install_stdio; pose proof (sourced_ensure m m p a (sourced_refl m)) as Hs; pose proof (ensure_next m p a) as Hn.
  destruct (handles_ensure m p a) as [m1 rc]; simpl in Hs, Hn; case_match; [done |]; case_match; [done |].
  destruct (kobj_alloc m1 _) as [m2 o] eqn:Ea; apply (sourced_alloc _ _ _ _ _ Ea) in Hs; simpl.
  assert (Hnew : forall r, sourced m {| h_obj := o; h_rights := r |}) by (intros r; eapply sourced_new; [by rewrite Hn | exact Ea]).
  apply sourced_ref; repeat (apply sourced_set; [by intros h [= <-] |]); done.
Qed.

Lemma sourced_redirect m parent child dst src ok : all_sourced m (fst (process_redirect_child_fd_from m parent child dst src ok)).
Proof.
  unfold process_redirect_child_fd_from; pose proof (sourced_refl m) as H0.
  destruct (handle_index dst) as [d |]; [| done]; destruct (handle_index src) as [s |]; [| done]; destruct (table_of m parent); [| done].
  pose proof (sourced_ensure m m child ok H0) as Hs; destruct (handles_ensure m child ok) as [m1 rc]; simpl in Hs.
  case_match; [done |]; destruct (handle_at m1 parent s) as [h |] eqn:Eh; [simpl | done].
  assert (H2 : all_sourced m (pipe_handle_count (upd_obj (set_handle m1 child d (Some h)) (h_obj h) (with_ref (fun n => n + 1))) (h_obj h) (h_rights h) 1)).
  { apply sourced_count, sourced_ref, sourced_set; [intros h' [= <-]; by eapply Hs | done]. }
  destruct (handle_at m1 child d); [| exact H2]; auto with sourced.
Qed.

Lemma sourced_acquire m E cur name rights : obj_ok m E -> all_sourced m (fst (port_acquire m cur name rights)).
Proof.
  intros O; unfold port_acquire, port_find_locked; pose proof (sourced_refl m) as H0.
  destruct (list_find (port_named m name) (port_table m)) as [[i [o |]] |] eqn:Ef; simpl; try done.
  apply sourced_install; [right; right | done]; apply list_find_Some in Ef as (Hi & _); apply list_elem_of_lookup_2 in Hi.
  destruct (ok_ports _ _ O o Hi) as (k & _ & Hk & Ht & _); exists k; split; [done |]; split; [done |]; simpl.
  by rewrite Z.ldiff_spec, andb_false_r.
Qed.

Lemma sourced_publish m cur pid name rights slot : all_sourced m (fst (port_publish m cur pid name rights slot)).
Proof.
  unfold port_publish; destruct (kobj_alloc m _) as [m1 o] eqn:Ea.
  pose proof (sourced_alloc _ _ _ _ _ Ea (sourced_refl m)) as H0.
  pose proof (sourced_install m m1 cur o rights (sourced_new _ _ _ _ _ rights (Z.le_refl _) Ea) H0) as Hs.
  destruct (port_find_locked m1 name); [simpl; auto with sourced |].
  destruct (handle_install_locked m1 cur o rights) as [m2 h]; simpl in Hs; destruct (0 <=? h); simpl; auto with sourced.
Qed.

Lemma sourced_dup m cur handle rights : all_sourced m (fst (sys_handle_dup m cur handle rights)).
Proof.
  pose proof (sourced_refl m) as H0; unfold sys_handle_dup; destruct (table_of m cur); [| done]; destruct (handle_index handle) as [i |]; [| done].
  destruct (handle_at m cur i) as [h |] eqn:Eh; [| done]; case_match; [done |].
  apply sourced_install; [| done]; apply sourced_sub; rewrite <- handle_eta; by eapply sourced_handle.
Qed.

Lemma sourced_grant m cur a tgt handle rights : all_sourced m (fst (sys_cap_grant m cur a tgt handle rights)).
Proof.
  pose proof (sourced_refl m) as H0; unfold sys_cap_grant; destruct (table_of m cur); [| done]; destruct (handle_index handle) as [i |]; [| done].
  destruct a; [simpl | done]; destruct tgt as [q |]; [| done]; destruct (table_of m q); [| done].
  destruct (handle_at m cur i) as [h |] eqn:Eh; [| done]; case_match; [done |].
  apply sourced_install; [| done]; apply sourced_sub; rewrite <- handle_eta; by eapply sourced_handle.
Qed.

Lemma sourced_send_install b m cur rcv fds l : all_sourced b m -> all_sourced b (fst (fst (send_install m cur rcv fds l))).
Proof.
  revert m l; induction fds as [| fd fds IH]; intros m l Hm; simpl; [done |].
  destruct (handle_index fd) as [i |]; simpl; [| done]; destruct (handle_at m cur i) as [h |] eqn:Eh; [| done].
  pose proof (sourced_install b m rcv (h_obj h) (h_rights h)) as Hs; rewrite <- handle_eta in Hs; specialize (Hs (Hm _ _ _ Eh) Hm).
  destruct (handle_install_locked m rcv _ _) as [m1 r]; simpl in Hs; case_match; [done | by apply IH].
Qed.

Lemma sourced_send_caps m cur rcv pid o p x fds : all_sourced m (fst (send_caps_locked m cur rcv pid o p x fds)).
Proof.
  unfold send_caps_locked; pose proof (sourced_send_install m m cur rcv fds [] (sourced_refl m)) as Hs.
  destruct (send_install m cur rcv fds []) as [[m1 r] inst]; simpl in Hs.
  assert (Hu : all_sourced m (send_unwind m1 rcv inst)) by (by apply (sourced_slots m m1 rcv inst)).
  destruct (r =? 0); simpl; [| case_match; simpl; auto with sourced]; destruct (k ← objs m1 !! o; port k) as [q |]; [| done].
  destruct (receivers q =? 0); [done |]; destruct (PORT_QUEUE_MAX <=? r_count (q_ring q)); [done |].
  simpl; apply sourced_wake; by apply (sourced_tables m m1).
Qed.

Lemma step_sourced m P tr m' P' : obj_step m P tr m' P' -> obj_ok m (pins P) -> all_sourced m m'.
Proof.
  intros H O; destruct H; pose proof (sourced_refl m) as Hm;
    auto using sourced_dup, sourced_close, sourced_grant, sourced_ensure, sourced_install_new, sourced_pipe, sourced_stdio,
      sourced_redirect, sourced_destroy, sourced_publish with sourced.
  - by eapply sourced_acquire.
  - unfold pin_handle in H; repeat case_match; simplify_eq; auto with sourced.
  - unfold pipe_read in *; repeat case_match; simplify_eq; auto with sourced.
  - unfold pipe_write in *; repeat case_match; simplify_eq; auto with sourced.
  - unfold port_receive in *; repeat case_match; simplify_eq; auto with sourced.
  - unfold port_send, enqueue_message in *; repeat case_match; simplify_eq; auto with sourced.
  - pose proof (sourced_send_caps m cur rcv pid o p x fds) as Hs; by rewrite H3 in Hs.
Qed.

(** ** The manager from its first state *)

(** No object; [n] processes without a table. *)
Definition objmgr0 (n : nat) : objmgr :=
  {| objs := ∅; next_obj := 1; tables := replicate n None; port_table := replicate PORT_TABLE_MAX None;
     obj_live_count := replicate OBJ_TYPE_COUNT 0; woken := [] |}.

Lemma objmgr0_ok n : obj_ok (objmgr0 n) (pins []).
Proof.
  constructor; simpl; try done.
  - intros p t i h Hp; by apply lookup_replicate in Hp as [? _].
  - intros h Hh; by apply not_elem_of_nil in Hh.
  - intros p t Hp; by apply lookup_replicate in Hp as [? _].
  - intros o Ho; change (Some o ∈ replicate PORT_TABLE_MAX None) in Ho; by apply elem_of_replicate in Ho as [? _].
Qed.

Lemma esum_pins o P : esum (names o) (pins P) = zlen (filter (eq o) P).
Proof.
  unfold zlen; induction P as [| x P IH]; simpl; [done |]; unfold names at 1; simpl; rewrite filter_cons.
  destruct (Z.eqb_spec x o) as [-> | Hx]; [rewrite decide_True by done; rewrite length_cons, IH; lia | rewrite decide_False by congruence; rewrite IH; lia].
Qed.

Lemma ends_pins m o b P : ends m (pins P) o b = ends m [] o b.
Proof. induction P as [| x P IH]; [done |]; simpl; by rewrite ends_pinned. Qed.

(** C12: in every state the object manager can reach from its first one, however
    the calls of any number of processes interleave (creating, duplicating,
    closing, granting and redirecting handles, pipes and ports, transfers that
    keep an object pinned while they wait, processes that die), every handle
    and every pin names a live object; the reference count of a live object is
    the number of its handles and pins, and is positive; a pipe counts as
    readers and writers the handles with the read and the write right on it, a
    port its receivers and senders; and a name stays published only while some
    handle can receive from the port. *)
Theorem handles_exact n tr m P :
  obj_run (objmgr0 n) [] tr m P ->
  (forall p i h, handle_at m p i = Some h -> is_Some (objs m !! h_obj h)) /\
  (forall o, o ∈ P -> is_Some (objs m !! o)) /\
  (forall o k, objs m !! o = Some k -> refcount k = refs m [] o + zlen (filter (eq o) P) /\ 0 < refcount k) /\
  (forall o k, objs m !! o = Some k -> ktype k = OBJ_TYPE_PIPE ->
     exists p, pipe k = Some p /\ readers p = ends m [] o B_READ /\ writers p = ends m [] o B_WRITE) /\
  (forall o k, objs m !! o = Some k -> ktype k = OBJ_TYPE_PORT ->
     exists p, port k = Some p /\ receivers p = ends m [] o B_READ /\ senders p = ends m [] o B_WRITE) /\
  (forall o, Some o ∈ port_table m -> is_Some (objs m !! o) /\ 0 < ends m [] o B_READ).
Proof.
  intros Hrun; pose proof (run_ok _ _ _ _ _ Hrun (objmgr0_ok n)) as O.
  split; [intros p i h; by apply handle_obj_live with (pins P) |].
  split; [intros o Ho; apply (ok_extra _ _ O (pinned o)), list_elem_of_fmap; by exists o |].
  split; [| split; [| split]].
  - intros o k Hk; destruct (ok_ref _ _ O o k Hk) as [H1 H2]; unfold refs in *; simpl; rewrite esum_pins in H1; lia.
  - intros o k Hk Ht; destruct (ok_payload _ _ O o k Hk) as [B _]; destruct (B Ht) as (p & H1 & H2 & H3 & _); rewrite !ends_pins in *; eauto.
  - intros o k Hk Ht; destruct (ok_payload _ _ O o k Hk) as [_ B]; destruct (B Ht) as (p & H1 & H2 & H3 & _); rewrite !ends_pins in *; eauto.
  - intros o Ho; destruct (ok_ports _ _ O o Ho) as (k & p & Hk & Ht & Hp & Hr); split; [by eexists |].
    destruct (ok_payload _ _ O o k Hk) as [_ B]; destruct (B Ht) as (q & Hq & Hrq & _); simplify_eq; by rewrite ends_pins in Hrq; rewrite <- Hrq.
Qed.

(** C13: a right nobody holds on an object cannot be had: if no handle on an
    object carries some right, then after any further calls of any processes
    still none does.  For a port, whose name anybody may look up, this is the
    right to receive. *)
Theorem rights_never_gained m P tr m' P' o k b :
  obj_ok m (pins P) -> obj_run m P tr m' P' -> objs m !! o = Some k -> (ktype k = OBJ_TYPE_PORT -> b = B_READ) ->
  (forall p i h, handle_at m p i = Some h -> h_obj h = o -> Z.testbit (h_rights h) b = false) ->
  forall p i h, handle_at m' p i = Some h -> h_obj h = o -> Z.testbit (h_rights h) b = false.
Proof.
  intros O Hrun Hk Hport Hnone; induction Hrun as [| m P tr m1 P1 tr1 m2 P2 Hrun IH Hstep]; [done |].
  intros p i h Hh Ho; pose proof (run_ok _ _ _ _ _ Hrun O) as O1; destruct (run_frame _ _ _ _ _ Hrun O) as [w F].
  apply not_true_is_false; intros Hb; pose proof (ok_fresh _ _ O o k Hk) as Hlt.
  destruct (step_sourced _ _ _ _ _ Hstep O1 p i h Hh) as [(p1 & i1 & h1 & H1 & H2 & H3) | [H1 | (k1 & H1 & H2 & H3)]].
  - specialize (H3 b Hb); rewrite (IH O Hk Hnone p1 i1 h1 H1) in H3; [done | congruence].
  - pose proof (fr_next _ _ _ _ F); lia.
  - rewrite Ho in H1; destruct (fr_obj _ _ _ _ F o k1 H1 Hlt) as (k0 & H0 & C); simplify_eq.
    rewrite Hport in Hb; [congruence |]; by rewrite <- (ch_type _ _ _ _ _ C).
Qed.

(** C14: pipes and ports deliver in order and lose nothing: over any run during
    which an object lives on, what was taken from it followed by what it still
    holds is what it held before followed by what was put into it. *)
Theorem streams_in_order m P tr m' P' o k k' :
  obj_ok m (pins P) -> obj_run m P tr m' P' -> objs m !! o = Some k -> objs m' !! o = Some k' ->
  got o tr ++ queue k' = queue k ++ put o tr.
Proof.
  intros O Hrun Hk Hk'; destruct (run_frame _ _ _ _ _ Hrun O) as [w F].
  destruct (fr_obj _ _ _ _ F o k' Hk' (ok_fresh _ _ O o k Hk)) as (k0 & H0 & C); simplify_eq; apply C.
Qed.


(** ** The theorems at work: a byte through a pipe *)

Definition demo0 : objmgr := objmgr0 2.
Definition demo1 : objmgr := fst (fst (sys_pipe demo0 0 true true true true true)).
Definition demo2 : objmgr := fst (pin_handle demo1 0 0 OS1_RIGHT_READ).
Definition demo3 : objmgr := fst (pin_handle demo2 0 1 OS1_RIGHT_WRITE).

(** The pipe of the demonstration in state [m]. *)
Definition demo_obj (m : objmgr) : kobject := default (blank 0) (objs m !! 1).
Definition demo_pipe (m : objmgr) : kpipe := default new_pipe (pipe (demo_obj m)).

Definition demo4 : objmgr := match pipe_write demo3 1 (demo_pipe demo3) [104; 105] with Wrote m _ => m | _ => demo3 end.
Definition demo5 : objmgr := match pipe_read demo4 1 (demo_pipe demo4) 1 with Some (m, _) => m | None => demo4 end.

Lemma demo_start : obj_run demo0 [] [] demo1 [].
Proof. apply (run_snoc demo0 [] [] demo0 [] [] demo1 []); [apply run_nil | apply (step_pipe demo0 [] 0 true true true true true)]. Qed.

Lemma demo_pins : obj_run demo0 [] [] demo3 [1; 1].
Proof.
  apply (run_snoc _ _ [] demo2 [1] [] demo3 [1; 1]); [apply (run_snoc _ _ [] demo1 [] [] demo2 [1]); [exact demo_start |] |].
  - apply (step_pin demo1 [] 0 0 OS1_RIGHT_READ); reflexivity.
  - apply (step_pin demo2 [1] 0 1 OS1_RIGHT_WRITE); reflexivity.
Qed.

Lemma demo_transfer : obj_run demo3 [1; 1] [Put 1 (inl <$> [104; 105]); Got 1 (inl <$> [104])] demo5 [1; 1].
Proof.
  apply (run_snoc _ _ [Put 1 (inl <$> [104; 105])] demo4 [1; 1] [Got 1 (inl <$> [104])]).
  - apply (run_snoc _ _ [] demo3 [1; 1] [Put 1 (inl <$> [104; 105])]); [apply run_nil |].
    apply (step_write demo3 [1; 1] 1 (demo_obj demo3) (demo_pipe demo3) [104; 105] [] demo4); try (vm_compute; reflexivity); by left.
  - apply (step_read demo4 [1; 1] 1 (demo_obj demo4) (demo_pipe demo4) 1 demo5 [104]); try (vm_compute; reflexivity); by left.
Qed.

Lemma demo_ok : obj_ok demo3 (pins [1; 1]).
Proof. exact (run_ok _ _ _ _ _ demo_pins (objmgr0_ok 2)). Qed.

Lemma handles_exact_witness :
  obj_run demo0 [] [] demo3 [1; 1] /\ is_Some (objs demo3 !! 1) /\ refcount (demo_obj demo3) = 4.
Proof.
  split; [exact demo_pins |]; split; [apply (proj1 (proj2 (handles_exact 2 [] demo3 [1; 1] demo_pins))); by left | vm_compute; reflexivity].
Defined.

(** The read end is duplicated with all rights: no right to destroy comes of it. *)
Definition demo_dup : objmgr := fst (sys_handle_dup demo1 0 0 OS1_RIGHT_ALL).

Lemma demo_dup_run : obj_run demo1 [] [] demo_dup [].
Proof. apply (run_snoc _ _ [] demo1 [] [] demo_dup []); [apply run_nil | apply (step_dup demo1 [] 0 0 OS1_RIGHT_ALL)]. Qed.

Lemma demo_no_destroy p i h : handle_at demo1 p i = Some h -> h_obj h = 1 -> Z.testbit (h_rights h) 5 = false.
Proof.
  intros H _; destruct p as [| [| p]]; [| vm_compute in H; done | unfold handle_at, table_of in H; simpl in H; done].
  do 2 (destruct i as [| i]; [vm_compute in H; injection H as <-; reflexivity |]).
  exfalso; do 30 (destruct i as [| i]; [vm_compute in H; done |]); vm_compute in H; done.
Qed.

Lemma rights_never_gained_witness :
  handle_at demo_dup 0 2 = Some {| h_obj := 1; h_rights := 25 |} /\ Z.testbit 25 5 = false.
Proof.
  assert (H : handle_at demo_dup 0 2 = Some {| h_obj := 1; h_rights := 25 |}) by (vm_compute; reflexivity); split; [exact H |].
  apply (rights_never_gained demo1 [] [] demo_dup [] 1 (demo_obj demo1) 5 (run_ok _ _ _ _ _ demo_start (objmgr0_ok 2)) demo_dup_run)
    with (p := 0%nat) (i := 2%nat) (h := {| h_obj := 1; h_rights := 25 |}); try (vm_compute; done); exact demo_no_destroy.
Defined.

Lemma streams_in_order_witness : [inl 104] ++ queue (demo_obj demo5) = [] ++ [inl 104; inl 105].
Proof.
  exact (streams_in_order demo3 [1; 1] _ demo5 [1; 1] 1 (demo_obj demo3) (demo_obj demo5) demo_ok demo_transfer
    ltac:(vm_compute; reflexivity) ltac:(vm_compute; reflexivity)).
Defined.


(** ** Cases the code does not prevent *)

(** A handle without the transfer right is refused by [sys_cap_grant] but goes
    to another process with a message: process 0 serves port "p", process 1
    holds a handle it may not transfer and sends it. *)
Definition port_p : str := lit "p".

Definition transfer0 : objmgr :=
  let m := fst (handles_ensure (fst (handles_ensure (objmgr0 2) 0 true)) 1 true) in
  let m := fst (create_port m 0 10 port_p (Z.lor OS1_RIGHT_READ OS1_RIGHT_WRITE) true true) in
  let m := fst (create_port m 1 11 port_p OS1_RIGHT_WRITE true true) in
  fst (install_new m 1 (blank OBJ_TYPE_PROCESS) OS1_RIGHT_DESTROY).

Definition transfer1 : objmgr * Z :=
  sys_port_send_caps transfer0 1 11 (fun pid => if pid =? 10 then Some 0%nat else None) 0 (Some message0) 1 (Some [1]).

Example send_caps_ignores_transfer :
  handle_at transfer0 1 1 = Some {| h_obj := 2; h_rights := OS1_RIGHT_DESTROY |} /\
  snd (sys_cap_grant transfer0 1 true (Some 0%nat) 1 OS1_RIGHT_DESTROY) = - EPERM /\
  snd transfer1 = 88 /\ handle_at (fst transfer1) 0 1 = Some {| h_obj := 2; h_rights := OS1_RIGHT_DESTROY |}.
Proof. vm_compute; repeat split; reflexivity. Qed.

(** Two publishers of different names choose the same free slot before either
    publishes: the first name is lost. *)
Definition port_q : str := lit "q".

Definition race : objmgr :=
  let m := fst (handles_ensure (fst (handles_ensure (objmgr0 2) 0 true)) 1 true) in
  match port_choose m port_p, port_choose m port_q with
  | inr i, inr j => fst (port_publish (fst (port_publish m 0 10 port_p OS1_RIGHT_READ i)) 1 11 port_q OS1_RIGHT_READ j)
  | _, _ => m
  end.

Example publish_race_loses_a_name :
  port_find_locked race port_p = None /\ is_Some (port_find_locked race port_q) /\
  handle_at race 0 0 = Some {| h_obj := 1; h_rights := OS1_RIGHT_READ |}.
Proof. vm_compute; repeat split; eauto. Qed.

(** A name longer than the table keeps is compared in full with its stored
    prefix: the second publication of the same name is not refused. *)
Definition long_name : str := replicate 40 (97 : Z).

Definition twice : objmgr * Z :=
  let m := fst (handles_ensure (objmgr0 2) 0 true) in
  create_port (fst (create_port m 0 10 long_name OS1_RIGHT_READ true true)) 0 10 long_name OS1_RIGHT_READ true true.

Example long_name_published_twice : snd twice = 1 /\ length (filter (fun e => is_Some e) (port_table (fst twice))) = 2%nat.
Proof. vm_compute; split; reflexivity. Qed.
