(* ===== verification/ObjectIo.v ===== *)
(** * Object I/O (kernel/core/object.c)

    Acquisition of handles by name, and reading, writing, waiting on,
    controlling and seeking the objects behind them.  The calls run over the
    state of the components they reach: the object manager, the filesystem
    switch, the registry with its process table, the mailboxes over the
    scheduler, and the retained exit statuses.  The compositor is a parameter.
    A call that reaches for a freed object or through a null pointer faults. *)
From Stdlib Require Import ZArith Lia String.
From stdpp Require Import base numbers list gmap.
From S2P Require Import Prelude Gpt CString ProcTab RegDoors VfsPath Vfs Registry ProcLife Sched Ipc Ring Object.

Definition OBJ_MAX_IO_BYTES : Z := 16 * 1024 * 1024.
Definition SIZEOF_IPC_MESSAGE : Z := 88.
Definition IPC_TYPE_INPUT : Z := 1.
Definition OS1_NS_FS : Z := 1.
Definition OS1_NS_PROC : Z := 2.
Definition OS1_NS_REG : Z := 3.
Definition OS1_NS_WIN : Z := 4.
Definition OS1_NS_PORT : Z := 5.
Definition SEEK_SET : Z := 0.
Definition SEEK_CUR : Z := 1.
Definition SEEK_END : Z := 2.

(** The fields of [struct ps_info] that the process table model leaves out:
    priority, processor time in milliseconds, and CPU. *)
Record ps_extra := { ps_priority : Z; ps_cpu_time : Z; ps_on_cpu : Z }.

(** The status block of a process. *)
Definition line (key : string) (v : str) : str := lit key ++ lit "=" ++ v ++ [NEWLINE].

Definition status_text (n : Z) (nm : str) (st : Z) (x : ps_extra) (lin : Z * Z) : str :=
  line "pid" (fmt_d n) ++ line "name" nm ++ line "state" (proc_state_name st) ++ line "prio" (fmt_d (ps_priority x)) ++
  line "cpu_ms" (dec_digits 20 (ps_cpu_time x)) ++ line "oncpu" (fmt_d (ps_on_cpu x)) ++
  line "parent" (fmt_d (fst lin)) ++ line "owner" (fmt_d (snd lin)).

Record kernel {W : Type} := {
  om : objmgr;
  fsw : vfs W;
  world : W;
  rg : registry;
  post : ipc;
  lost : reaped;
  corpses : list corpse;
  terminated : list Z        (* what [process_terminate] was called on, in order *)
}.
Arguments kernel : clear implicits.

(** An object that is gone; a pointer that is null. *)
Inductive fault := FreedObject (o : Z) | NullPointer.

Section io.
Context {W : Type} (kmalloc_ok : nat -> Z -> bool).
(** What a new block of memory holds. *)
Context (garbage : Z -> list Z).
(** The compositor and the terminal. *)
Context (window_owner window_by_pid : Z -> Z) (window_info : Z -> option (list Z)).
Context (compositor_ctl : Z -> Z -> W -> W * Z) (window_text_write : Z -> list Z -> W -> W * Z).
Context (extra : Z -> ps_extra).

(** ** Calls over the state *)

Inductive result (A : Type) := Done (k : kernel W) (a : A) | Fault (f : fault).
Arguments Done {A} k a.
Arguments Fault {A} f.

Definition sys (A : Type) : Type := kernel W -> result A.

#[global] Instance sys_ret : MRet sys := fun A a k => Done k a.
#[global] Instance sys_bind : MBind sys := fun A B f c k => match c k with Done k a => f a k | Fault e => Fault e end.
#[global] Instance sys_fmap : FMap sys := fun A B f c k => match c k with Done k a => Done k (f a) | Fault e => Fault e end.

Definition with_om (k : kernel W) (m : objmgr) : kernel W :=
  {| om := m; fsw := fsw k; world := world k; rg := rg k; post := post k; lost := lost k; corpses := corpses k; terminated := terminated k |}.
Definition with_fs (k : kernel W) (v : vfs W) (w : W) : kernel W :=
  {| om := om k; fsw := v; world := w; rg := rg k; post := post k; lost := lost k; corpses := corpses k; terminated := terminated k |}.
Definition with_rg (k : kernel W) (r : registry) : kernel W :=
  {| om := om k; fsw := fsw k; world := world k; rg := r; post := post k; lost := lost k; corpses := corpses k; terminated := terminated k |}.
Definition with_post (k : kernel W) (s : ipc) : kernel W :=
  {| om := om k; fsw := fsw k; world := world k; rg := rg k; post := s; lost := lost k; corpses := corpses k; terminated := terminated k |}.
Definition with_lost (k : kernel W) (r : reaped) : kernel W :=
  {| om := om k; fsw := fsw k; world := world k; rg := rg k; post := post k; lost := r; corpses := corpses k; terminated := terminated k |}.
Definition with_terminated (k : kernel W) (l : list Z) : kernel W :=
  {| om := om k; fsw := fsw k; world := world k; rg := rg k; post := post k; lost := lost k; corpses := corpses k; terminated := l |}.

Definition ask {A} (f : kernel W -> A) : sys A := fun k => Done k (f k).
Definition objects {A} (f : objmgr -> objmgr * A) : sys A := fun k => let '(m, a) := f (om k) in Done (with_om k m) a.
Definition files {A} (f : vfs W -> W -> option (vfs W * W * A)) : sys A :=
  fun k => match f (fsw k) (world k) with Some (v, w, a) => Done (with_fs k v w) a | None => Fault NullPointer end.
Definition outside {A} (f : W -> W * A) : sys A := files (fun v w => let '(w, a) := f w in Some (v, w, a)).
Definition keys {A} (f : registry -> registry * A) : sys A := fun k => let '(r, a) := f (rg k) in Done (with_rg k r) a.
Definition mail {A} (f : ipc -> option (ipc * A)) : sys A :=
  fun k => match f (post k) with Some (s, a) => Done (with_post k s) a | None => Fault NullPointer end.

Definition current (k : kernel W) : option process := current_process (rg k).
Definition current_pid (k : kernel W) : Z := match current k with Some p => i32 (pid p) | None => 0 end.

(** The object at an address; to reach for a dead one faults. *)
Definition object (o : Z) : sys kobject := fun k => match objs (om k) !! o with Some x => Done k x | None => Fault (FreedObject o) end.
Definition set_file (o : Z) (n : vfs_node) (off : Z) : sys unit := objects (fun m => (upd_obj m o (with_file n off), tt)).

(** Pin the object of a handle, use it, give the pin up. *)
Definition pinned_call {A} (cur : nat) (handle need : Z) (fail : Z -> A) (body : Z -> sys A) : sys A :=
  r ← objects (fun m => pin_handle m cur handle need);
  match r with
  | inl err => mret (fail err)
  | inr o => ret ← body o; _ ← objects (fun m => (obj_unref m o, tt)); mret ret
  end.

(** ** [sys_handle_create] *)

Definition fresh_file (n : vfs_node) (pth : str) : kobject :=
  {| ktype := OBJ_TYPE_FILE; refcount := 0; knode := n; koffset := 0; kpath := strcopy OBJ_FILE_PATH_MAX pth;
     kpid := 0; kwindow := 0; pipe := None; port := None |}.
Definition fresh_key (key : str) : kobject :=
  {| ktype := OBJ_TYPE_REGKEY; refcount := 0; knode := node0; koffset := 0; kpath := strcopy MAX_KEY_LEN key;
     kpid := 0; kwindow := 0; pipe := None; port := None |}.
Definition fresh_window (wid owner : Z) : kobject :=
  {| ktype := OBJ_TYPE_WINDOW; refcount := 0; knode := node0; koffset := 0; kpath := [];
     kpid := owner; kwindow := wid; pipe := None; port := None |}.

(** Allocate the object, install it. *)
Definition install (cur : nat) (ok : bool) (x : kobject) (rights : Z) : sys Z :=
  if negb ok then mret (- ENOMEM) else objects (fun m => install_new m cur x rights).

Definition objref0 : vfs_objref := {| obj_type := 0; o_pid := 0; window_id := 0; o_node := node0 |}.

(** The resolution of the name: an error, or the object it refers to. *)
Definition resolve_name (want_create : bool) (rights : Z) (resolved : str) : sys (Z + vfs_objref) :=
  '(rr, ref) ← files (fun v w => Some (vfs_resolve_object v w resolved objref0));
  if (rr =? -2) then
    mret (if has_any rights (Z.lor OS1_RIGHT_WRITE OS1_RIGHT_CREATE) then inl (- EISDIR) else inr ref)
  else if rr =? 0 then mret (inr ref)
  else if negb want_create || negb (has_any rights OS1_RIGHT_WRITE) then mret (inl (- ENOENT))
  else
    cperm ← ask (fun k => vfs_write_allowed (current k) resolved);
    if negb (cperm =? 0) then mret (inl cperm)
    else
      rc ← files (fun v w => vfs_create v w resolved VFS_TYPE_FILE);
      if negb (rc =? 0) then mret (inl (- EIO))
      else
        '(rr, ref) ← files (fun v w => Some (vfs_resolve_object v w resolved ref));
        mret (if negb (rr =? 0) then inl (- ENOENT) else inr ref).

(** The gates of a file handle: the error, or 0. *)
Definition file_gate (p : option process) (resolved : str) (ref : vfs_objref) (rights : Z) : Z :=
  let wperm := if has_any rights OS1_RIGHT_WRITE then vfs_write_allowed p resolved else 0 in
  if negb (wperm =? 0) then wperm
  else if has_any rights OS1_RIGHT_MUTATE then
    if negb (n_type (o_node ref) =? VFS_TYPE_DIR) then - ENOTDIR else vfs_write_allowed p resolved
  else 0.

Definition create_fs (cur : nat) (cwd : option str) (kpath : str) (want_create : bool) (rights : Z) (obj_ok : bool) : sys Z :=
  let resolved := default [] (vfs_resolve_path cwd kpath OBJ_FILE_PATH_MAX) in
  r ← resolve_name want_create rights resolved;
  match r with
  | inl err => mret err
  | inr ref =>
    if obj_type ref =? OBJ_TYPE_FILE then
      g ← ask (fun k => file_gate (current k) resolved ref rights);
      if negb (g =? 0) then mret g else install cur obj_ok (fresh_file (o_node ref) resolved) rights
    else if obj_type ref =? OBJ_TYPE_PROCESS then
      ok ← ask (fun k => process_kill_allowed (procs (rg k)) (current k) (o_pid ref));
      if has_any rights (Z.lor OS1_RIGHT_DESTROY OS1_RIGHT_WRITE) && negb ok then mret (- EPERM)
      else install cur obj_ok (with_pid (o_pid ref) (blank OBJ_TYPE_PROCESS)) rights
    else mret (- EINVAL)
  end.

Definition create_proc (cur : nat) (kpath : str) (rights : Z) (obj_ok : bool) : sys Z :=
  let n := atoi kpath in
  if n <=? 0 then mret (- EINVAL)
  else
    allowed ← ask (fun k => process_kill_allowed (procs (rg k)) (current k) n);
    if has_any rights (Z.lor OS1_RIGHT_DESTROY OS1_RIGHT_WRITE) && negb allowed then mret (- EPERM)
    else
      p ← ask (fun k => process_find_by_pid (procs (rg k)) n);
      match p with
      | None => mret (- ESRCH)
      | Some _ => install cur obj_ok (with_pid n (blank OBJ_TYPE_PROCESS)) rights
      end.

Definition create_reg (cur : nat) (kpath : str) (rights : Z) (obj_ok : bool) : sys Z :=
  allowed ← ask (fun k => registry_write_allowed (rg k));
  if has_any rights OS1_RIGHT_WRITE && negb (registry_key_is_virtual kpath) && negb allowed then mret (- EPERM)
  else match kpath with [] => mret (- EINVAL) | _ => install cur obj_ok (fresh_key kpath) rights end.

Definition create_win (cur : nat) (kpath : str) (rights : Z) (obj_ok : bool) : sys Z :=
  let wid := atoi kpath in
  if wid <=? 0 then mret (- EINVAL)
  else
    let owner := window_owner wid in
    if owner <? 0 then mret (- ESRCH)
    else
      p ← ask current;
      me ← ask current_pid;
      if negb (owner =? me) && has_any rights (Z.lor OS1_RIGHT_WRITE OS1_RIGHT_DESTROY) && negb (proc_is_machine p)
         && match p with Some p => PLVL_ROOT <? level p | None => false end
      then mret (- EPERM)
      else install cur obj_ok (fresh_window wid owner) rights.

(** [kpath] is what could be copied of the name. *)
Definition sys_handle_create (cur : nat) (cwd : option str) (ns : Z) (kpath : option str) (rights type : Z)
    (tbl_ok kp_ok obj_ok : bool) : sys Z :=
  let want_create := has_any rights OS1_RIGHT_CREATE in
  let rights := Z.land rights OS1_RIGHT_ALL in
  match kpath with
  | None => mret (- EFAULT)
  | Some kpath =>
    rc ← objects (fun m => handles_ensure m cur tbl_ok);
    if negb (rc =? 0) then mret (- ENOMEM)
    else if ns =? OS1_NS_FS then create_fs cur cwd kpath want_create rights obj_ok
    else if ns =? OS1_NS_PORT then
      me ← ask current_pid; objects (fun m => create_port m cur me kpath rights kp_ok obj_ok)
    else if (ns =? OS1_NS_PROC) && (type =? OBJ_TYPE_PROCESS) then create_proc cur kpath rights obj_ok
    else if (ns =? OS1_NS_REG) && (type =? OBJ_TYPE_REGKEY) then create_reg cur kpath rights obj_ok
    else if (ns =? OS1_NS_WIN) && (type =? OBJ_TYPE_WINDOW) then create_win cur kpath rights obj_ok
    else mret (- EINVAL)
  end.

(** ** [sys_object_read]

    A result is the value returned with the bytes that reached the user;
    [inl] is a transfer that sleeps, with the object still pinned. *)
Abbreviation reply := (Z * list Z)%type.

Definition errno (e : Z) : reply := (e, []).

(** Re-resolve the path of a file into its cached node. *)
Definition refresh (o : Z) : sys vfs_node :=
  x ← object o;
  '(_, n) ← files (fun v w => vfs_open v w (kpath x) (knode x));
  _ ← set_file o n (koffset x);
  mret n.

(** A directory: the window of its listing at the cursor. *)
Definition read_listing (x : kobject) (n : Z) (full_ok : bool) : sys reply :=
  let want := u64 (koffset x + n) in
  let want := if OBJ_MAX_IO_BYTES <? want then OBJ_MAX_IO_BYTES else want in
  if negb full_ok then mret (errno (-1))
  else
    '(total, full) ← files (fun v w => vfs_list_dir v w (kpath x) (garbage want) (u32 want));
    if total <? 0 then mret (errno (-1))
    else if total <=? koffset x then mret (0, [])
    else
      let avail := total - koffset x in
      let got := if avail <? n then avail else n in
      mret (got, take (Z.to_nat got) (drop (Z.to_nat (koffset x)) full)).

Definition read_bytes (x : kobject) (nd : vfs_node) (n : Z) : sys reply :=
  files (fun v w => match vfs_read v w nd (koffset x) (u32 n) with Some (w, r) => Some (v, w, r) | None => None end).

Definition read_file (o n : Z) (kb_ok full_ok copied : bool) : sys reply :=
  if n =? 0 then mret (0, [])
  else if negb kb_ok then mret (errno (- ENOMEM))
  else
    nd ← refresh o;
    x ← object o;
    '(got, bytes) ← (if n_type nd =? VFS_TYPE_DIR then read_listing x n full_ok else read_bytes x nd n);
    if got <? 0 then mret (errno (- EIO))
    else if (0 <? got) && negb copied then mret (errno (- EFAULT))
    else _ ← set_file o nd (u64 (koffset x + got)); mret (got, take (Z.to_nat got) bytes).

(** Copy at most [n] of [bytes] out. *)
Definition copy_out (bytes : list Z) (n : Z) (copied : bool) : reply :=
  let cn := if n <? zlen bytes then n else zlen bytes in
  if (0 <? cn) && negb copied then errno (- EFAULT) else (cn, take (Z.to_nat cn) bytes).

Definition read_regkey (x : kobject) (n : Z) (copied : bool) : sys reply :=
  v ← ask (fun k => registry_get (rg k) (Some (kpath x)) MAX_VAL_LEN);
  mret (match v with inl _ => errno (- ENOENT) | inr val => copy_out (val ++ [0]) n copied end).

(** The loop over the input queue: discard until a key press. *)
Fixpoint drain_input (fuel : nat) (st : ipc) (me : Z) (copied : bool) : ipc * reply :=
  match fuel with
  | O => (st, errno (- EAGAIN))
  | S fuel =>
    match pop_message st me (-1) with
    | (st, None) => (st, errno (- EAGAIN))
    | (st, Some m) =>
      if (mtype m =? IPC_TYPE_INPUT) && negb (data2 m =? 0)
      then (st, if copied then (1, [u8 (data1 m)]) else errno (- EFAULT))
      else drain_input fuel st me copied
    end
  end.

Definition read_console (n : Z) (copied : bool) : sys reply :=
  if n =? 0 then mret (0, [])
  else
    me ← ask current_pid;
    mail (fun st => Some (drain_input (S (length (msg_queue (box_of st me)))) st me copied)).

Definition read_process (x : kobject) (n : Z) (copied : bool) : sys reply :=
  pp ← ask (fun k => procs (rg k));
  mret (match proc_get_info pp (kpid x) with
        | None => errno (- ESRCH)
        | Some (nm, st) => copy_out (status_text (kpid x) nm st (extra (kpid x)) (fst (proc_get_lineage pp (kpid x) (0, 0)))) n copied
        end).

(** A message as it lies in memory. *)
Fixpoint le_bytes (n : nat) (x : Z) : list Z :=
  match n with O => [] | S n => u8 x :: le_bytes n (Z.shiftr x 8) end.

Definition message_bytes (m : ipc_message) : list Z :=
  le_bytes 4 (from m) ++ le_bytes 4 (mtype m) ++ le_bytes 8 (data1 m) ++ le_bytes 8 (data2 m) ++ payload m.

(** One attempt at a read; [None] goes to sleep on the read queue. *)
Definition object_read (o n : Z) (kb_ok full_ok copied : bool) : sys (option reply) :=
  x ← object o;
  if ktype x =? OBJ_TYPE_FILE then Some <$> read_file o n kb_ok full_ok copied
  else if ktype x =? OBJ_TYPE_REGKEY then Some <$> read_regkey x n copied
  else if ktype x =? OBJ_TYPE_WINDOW then
    mret (Some (match window_info (kwindow x) with None => errno (- ESRCH) | Some wi => copy_out wi n copied end))
  else if ktype x =? OBJ_TYPE_CONSOLE then Some <$> read_console n copied
  else if ktype x =? OBJ_TYPE_PROCESS then Some <$> read_process x n copied
  else if ktype x =? OBJ_TYPE_PORT then
    match port x with
    | None => mret (Some (errno (- EIO)))
    | Some p =>
      if n <? SIZEOF_IPC_MESSAGE then mret (Some (errno (- EINVAL)))
      else
        objects (fun m =>
          match port_receive m o p with
          | None => (m, None)
          | Some (m, None) => (m, Some (0, []))
          | Some (m, Some y) => (m, Some (if copied then (SIZEOF_IPC_MESSAGE, message_bytes y) else errno (- EFAULT)))
          end)
    end
  else if ktype x =? OBJ_TYPE_PIPE then
    match pipe x with
    | None => mret (Some (if n =? 0 then (0, []) else errno (- EIO)))
    | Some p =>
      if n =? 0 then mret (Some (0, []))
      else if negb kb_ok then mret (Some (errno (- ENOMEM)))
      else
        objects (fun m =>
          match pipe_read m o p n with
          | None => (m, None)
          | Some (m, l) => (m, Some (if negb (zlen l =? 0) && negb copied then errno (- EFAULT) else (zlen l, l)))
          end)
    end
  else mret (Some (errno (- EINVAL))).

(** [inl o] is a call asleep on [o], which it keeps pinned. *)
Definition sys_object_read (cur : nat) (handle n : Z) (kb_ok full_ok copied : bool) : sys (Z + reply) :=
  if OBJ_MAX_IO_BYTES <? n then mret (inr (errno (- EINVAL)))
  else
    r ← objects (fun m => pin_handle m cur handle OS1_RIGHT_READ);
    match r with
    | inl err => mret (inr (errno err))
    | inr o =>
      ret ← object_read o n kb_ok full_ok copied;
      match ret with
      | None => mret (inl o)
      | Some rep => _ ← objects (fun m => (obj_unref m o, tt)); mret (inr rep)
      end
    end.

(** ** [sys_object_write]: [buf] is what could be copied of the user's bytes *)

Definition write_file (o : Z) (buf : option (list Z)) (n : Z) (kb_ok : bool) : sys Z :=
  if n =? 0 then mret 0
  else if negb kb_ok then mret (- ENOMEM)
  else
    match buf with
    | None => mret (- EFAULT)
    | Some kb =>
      x ← object o;
      wr ← files (fun v w => vfs_write_file v w (kpath x) kb (u32 n) (u32 (koffset x)));
      if wr <? 0 then mret (- EIO)
      else
        _ ← set_file o (knode x) (u64 (koffset x + wr));
        _ ← refresh o;
        mret wr
    end.

(** The sender's pid is the kernel's word. *)
Definition stamped (m : ipc_message) (me : Z) : ipc_message :=
  {| from := me; mtype := mtype m; data1 := data1 m; data2 := data2 m; payload := payload m |}.

Definition write_process (x : kobject) (msg : option ipc_message) (n : Z) (node_ok : bool) : sys Z :=
  if negb (n =? SIZEOF_IPC_MESSAGE) then mret (- EINVAL)
  else
    match msg with
    | None => mret (- EFAULT)
    | Some m =>
      me ← ask current_pid;
      rc ← mail (fun st => kernel_ipc_send node_ok st (kpid x) (stamped m me));
      mret (if rc =? 0 then 0 else - ESRCH)
    end.

Definition write_regkey (x : kobject) (buf : option (list Z)) (n : Z) : sys Z :=
  keys (fun r => regkey_write kmalloc_ok r (kpath x) buf n).

(** Where console output goes: the writer's own window unless it draws itself,
    else its terminal, else the window with the keyboard. *)
Definition console_window (me : Z) (self_rendered : bool) (ctty_win focus_pid : Z) : Z :=
  let w := if self_rendered then -1 else window_by_pid me in
  let w := if w <=? 0 then ctty_win else w in
  if (w <=? 0) && (0 <? focus_pid) then window_by_pid focus_pid else w.

(** A write that sleeps on the write queue: the bytes still to go and those
    gone; a message still to send. *)
Inductive unfinished := BytesLeft (rest : list Z) (ndone : Z) | MessageLeft (m : ipc_message).

(** The loop of a pipe's write. *)
Fixpoint pipe_write_loop (fuel : nat) (o : Z) (rest : list Z) (ndone : Z) : sys (unfinished + Z) :=
  match fuel, rest with
  | O, _ => mret (inl (BytesLeft rest ndone))
  | _, [] => mret (inr ndone)
  | S fuel, _ =>
    x ← object o;
    match pipe x with
    | None => mret (inr (- EIO))
    | Some p =>
      r ← objects (fun m => match pipe_write m o p rest with Wrote m rest => (m, inl rest) | Broken => (m, inr true) | Full => (m, inr false) end);
      match r with
      | inl rest' => pipe_write_loop fuel o rest' (ndone + (zlen rest - zlen rest'))
      | inr true => mret (inr (if 0 <? ndone then ndone else - EPIPE))
      | inr false => mret (inl (BytesLeft rest ndone))
      end
    end
  end.

Definition port_write (o : Z) (m : ipc_message) : sys (unfinished + Z) :=
  x ← object o;
  match port x with
  | None => mret (inr (- EIO))
  | Some p => objects (fun om => match port_send om o p m with Some (om, ret) => (om, inr ret) | None => (om, inl (MessageLeft m)) end)
  end.

(** The terminal of the writer, and the process with the keyboard. *)
Record terminal := { self_rendered : bool; ctty_win : Z; focus_pid : Z }.

Definition object_write (o : Z) (t : terminal) (buf : option (list Z)) (msg : option ipc_message) (n : Z) (kb_ok : bool)
    : sys (unfinished + Z) :=
  x ← object o;
  if ktype x =? OBJ_TYPE_FILE then inr <$> write_file o buf n kb_ok
  else if ktype x =? OBJ_TYPE_PROCESS then inr <$> write_process x msg n kb_ok
  else if ktype x =? OBJ_TYPE_REGKEY then inr <$> write_regkey x buf n
  else if ktype x =? OBJ_TYPE_CONSOLE then
    me ← ask current_pid;
    inr <$> outside (window_text_write (console_window me (self_rendered t) (ctty_win t) (focus_pid t)) (default [] buf))
  else if ktype x =? OBJ_TYPE_PORT then
    match port x with
    | None => mret (inr (- EIO))
    | Some _ =>
      if negb (n =? SIZEOF_IPC_MESSAGE) then mret (inr (- EINVAL))
      else
        match msg with
        | None => mret (inr (- EFAULT))
        | Some m => me ← ask current_pid; port_write o (stamped m me)
        end
    end
  else if ktype x =? OBJ_TYPE_PIPE then
    match pipe x with
    | None => mret (inr (if n =? 0 then 0 else - EIO))
    | Some _ =>
      if n =? 0 then mret (inr 0)
      else if negb kb_ok then mret (inr (- ENOMEM))
      else match buf with None => mret (inr (- EFAULT)) | Some b => pipe_write_loop (S (length b)) o b 0 end
    end
  else mret (inr (- EINVAL)).

(** [inl (o, u)] is a call asleep on [o], which it keeps pinned. *)
Definition sys_object_write (cur : nat) (t : terminal) (handle : Z) (buf : option (list Z)) (msg : option ipc_message) (n : Z)
    (kb_ok : bool) : sys (Z * unfinished + Z) :=
  if OBJ_MAX_IO_BYTES <? n then mret (inr (- EINVAL))
  else
    r ← objects (fun m => pin_handle m cur handle OS1_RIGHT_WRITE);
    match r with
    | inl err => mret (inr err)
    | inr o =>
      ret ← object_write o t buf msg n kb_ok;
      match ret with
      | inl u => mret (inl (o, u))
      | inr v => _ ← objects (fun m => (obj_unref m o, tt)); mret (inr v)
      end
    end.

(** ** [sys_object_wait] *)

Definition reap (n : Z) : sys (Z * option Z) :=
  fun k => let '(r, a) := process_wait (corpses k) (lost k) n in Done (with_lost k r) a.

(** With the exit code given to the user, if he wants it. *)
Definition sys_object_wait (cur : nat) (handle : Z) (wants copied : bool) : sys (Z * option Z) :=
  pinned_call cur handle OS1_RIGHT_WAIT (fun e => (e, None)) (fun o =>
    x ← object o;
    if ktype x =? OBJ_TYPE_PROCESS then
      '(ret, code) ← reap (kpid x);
      mret (if negb wants then (ret, None) else if copied then (ret, Some (default 0 code)) else (- EFAULT, None))
    else mret (- EINVAL, None)).

(** ** [sys_object_ctl] *)

Definition OBJ_CTL_KILL : Z := 1.
Definition OBJ_CTL_MINIMIZE : Z := 2.
Definition OBJ_CTL_RESTORE : Z := 3.
Definition OBJ_CTL_FOCUS : Z := 4.
Definition OBJ_CTL_CLOSE : Z := 5.
Definition OBJ_CTL_SEEK : Z := 6.
Definition OBJ_CTL_STAT : Z := 7.
Definition OBJ_CTL_STOP : Z := 8.
Definition OBJ_CTL_CONT : Z := 9.
Definition OBJ_CTL_TRUNCATE : Z := 10.
Definition OBJ_CTL_SETOWNER : Z := 11.
Definition OBJ_CTL_MKDIR : Z := 12.
Definition OBJ_CTL_UNLINK : Z := 13.

Definition kill_subtree (root : Z) : sys Z :=
  fun k => Done (with_terminated k (terminated k ++ process_kill_subtree (procs (rg k)) window_by_pid root)) 0.

Definition ctl_kill (o : Z) : sys Z :=
  x ← object o; if ktype x =? OBJ_TYPE_PROCESS then kill_subtree (kpid x) else mret (- EINVAL).

Definition ctl_job (o cmd : Z) : sys Z :=
  x ← object o;
  if ktype x =? OBJ_TYPE_PROCESS then
    mail (fun st =>
      (fun r => (set_sch st (fst r), snd r)) <$>
        (if cmd =? OBJ_CTL_STOP then Some (process_stop (sch st) (kpid x)) else process_cont (sch st) (kpid x)))
  else mret (- EINVAL).

Definition window_right (cmd : Z) : Z :=
  if cmd =? OBJ_CTL_CLOSE then OS1_RIGHT_DESTROY else if cmd =? OBJ_CTL_FOCUS then OS1_RIGHT_READ else OS1_RIGHT_WRITE.

Definition ctl_window (o cmd : Z) : sys Z :=
  x ← object o;
  if negb (ktype x =? OBJ_TYPE_WINDOW) then mret (- EINVAL)
  else if cmd =? OBJ_CTL_CLOSE then kill_subtree (kpid x)
  else outside (compositor_ctl cmd (kwindow x)).

Definition ctl_seek (o arg : Z) : sys Z :=
  x ← object o;
  if negb (ktype x =? OBJ_TYPE_FILE) || (arg <? 0) then mret (- EINVAL)
  else _ ← set_file o (knode x) (u64 arg); mret (i64 (u64 arg)).

Definition ctl_setowner (o arg : Z) : sys Z :=
  x ← object o;
  if negb (ktype x =? OBJ_TYPE_PROCESS) || (arg <=? 0) then mret (- EINVAL)
  else
    p ← ask current;
    if bool_decide (p = None) || negb (proc_is_privileged p) then mret (- EPERM)
    else keys (fun r => let '(pp, ret) := process_set_owner (procs r) (kpid x) (i32 arg) in (with_procs r pp, ret)).

Definition ctl_truncate (o arg : Z) : sys Z :=
  x ← object o;
  if negb (ktype x =? OBJ_TYPE_FILE) || negb (arg =? 0) then mret (- EINVAL)
  else
    wr ← files (fun v w => vfs_write_file v w (kpath x) [] 0 0);
    if wr <? 0 then mret (- EIO) else _ ← set_file o (knode x) 0; _ ← refresh o; mret 0.

(** The path of a child: one component, within the length of a path. *)
Definition child_path (dir name : str) : option str :=
  if bool_decide (name = []) || (strcmp name (lit ".") =? 0) || (strcmp name (lit "..") =? 0) || existsb (fun c => c =? VfsPath.SLASH) name then None
  else
    let sep := if (strlen dir =? 1) && (znth 0 dir 0 =? VfsPath.SLASH) then [] else [VfsPath.SLASH] in
    if OBJ_FILE_PATH_MAX <=? strlen dir + zlen sep + strlen name then None else Some (dir ++ sep ++ name).

(** [name]: what could be copied of the user's string, which is null if
    [null_name]. *)
Definition ctl_mutate (o cmd : Z) (null_name : bool) (name : option str) : sys Z :=
  x ← object o;
  if negb (ktype x =? OBJ_TYPE_FILE) || negb (n_type (knode x) =? VFS_TYPE_DIR) then mret (- ENOTDIR)
  else if null_name then mret (- EFAULT)
  else
    match name with
    | None => mret (- EFAULT)
    | Some name =>
      match child_path (kpath x) name with
      | None => mret (- EINVAL)
      | Some child =>
        if cmd =? OBJ_CTL_MKDIR then files (fun v w => vfs_create v w child VFS_TYPE_DIR) else files (fun v w => vfs_unlink v w child)
      end
    end.

Definition ctl_stat (o : Z) : sys Z :=
  x ← object o;
  if negb (ktype x =? OBJ_TYPE_FILE) then mret (- EINVAL) else nd ← refresh o; mret (i64 (n_size nd)).

Definition sys_object_ctl (cur : nat) (handle cmd arg : Z) (name : option str) : sys Z :=
  let call := pinned_call cur handle in
  if cmd =? OBJ_CTL_KILL then call OS1_RIGHT_DESTROY id ctl_kill
  else if (cmd =? OBJ_CTL_STOP) || (cmd =? OBJ_CTL_CONT) then call OS1_RIGHT_DESTROY id (fun o => ctl_job o cmd)
  else if (cmd =? OBJ_CTL_MINIMIZE) || (cmd =? OBJ_CTL_RESTORE) || (cmd =? OBJ_CTL_FOCUS) || (cmd =? OBJ_CTL_CLOSE) then
    call (window_right cmd) id (fun o => ctl_window o cmd)
  else if cmd =? OBJ_CTL_SEEK then call 0 id (fun o => ctl_seek o arg)
  else if cmd =? OBJ_CTL_SETOWNER then call OS1_RIGHT_DESTROY id (fun o => ctl_setowner o arg)
  else if cmd =? OBJ_CTL_TRUNCATE then call OS1_RIGHT_WRITE id (fun o => ctl_truncate o arg)
  else if (cmd =? OBJ_CTL_MKDIR) || (cmd =? OBJ_CTL_UNLINK) then
    call OS1_RIGHT_MUTATE id (fun o => ctl_mutate o cmd (arg =? 0) name)
  else if cmd =? OBJ_CTL_STAT then call 0 id ctl_stat
  else mret (- EINVAL).

(** ** [sys_object_lseek] *)

Definition seek_base (x : kobject) (whence : Z) : sys Z :=
  if whence =? SEEK_SET then mret 0
  else if whence =? SEEK_CUR then mret (i64 (koffset x))
  else if whence =? SEEK_END then
    '(rc, st) ← files (fun v w => vfs_stat v w (kpath x));
    mret (match rc =? 0, st with true, Some st => i64 (st_size st) | _, _ => i64 (n_size (knode x)) end)
  else mret (-1).

Definition sys_object_lseek (cur : nat) (handle off whence : Z) : sys Z :=
  pinned_call cur handle 0 id (fun o =>
    x ← object o;
    if negb (ktype x =? OBJ_TYPE_FILE) then mret (- ESPIPE)
    else
      base ← seek_base x whence;
      if base <? 0 then mret (- EINVAL)
      else
        let npos := i64 (base + off) in
        if npos <? 0 then mret (- EINVAL) else _ ← set_file o (knode x) (u64 npos); mret npos).
End io.

Arguments result : clear implicits.
Arguments Done {W A} k a.
Arguments Fault {W A} f.
