(* ===== verification/ObjectIoTheorems.v ===== *)
(** * Theorems about object I/O

    Every call keeps the counts of the object manager exact and never reaches
    for an object that is gone; what a new handle may do was allowed; and what a
    directory handle changes lies in its directory. *)
From Stdlib Require Import ZArith Lia String.
From stdpp Require Import base numbers list gmap.
From S2P Require Import Prelude Gpt CString ProcTab VfsPath Vfs Registry ProcLife Sched Ipc Ring Object.
From S2P Require Import ObjectProofs ObjectSteps ObjectTheorems ObjectIo.

(** ** A small kernel

    A concrete state for the calls on objects: one filesystem whose files are
    byte lists, a registry, and a choice of current process. The witnesses of the
    theorems and the examples of the calls' behaviour run on it. *)

(** Files by path below the mount: the type and the bytes. *)
Abbreviation tree := (list (str * (Z * list Z))).

Definition tree_find (rel : str) (w : tree) : option (nat * (str * (Z * list Z))) :=
  list_find (fun e => e.1 = rel) w.

Definition tree_node (mnt i : nat) (e : str * (Z * list Z)) : vfs_node :=
  {| n_mnt := Some mnt; n_id := Z.of_nat i; n_size := zlen e.2.2; n_type := e.2.1 |}.

(** The bytes of a file with [buf] written at [off]. *)
Definition splice (old buf : list Z) (off : nat) : list Z :=
  take off (old ++ replicate (off - length old) 0) ++ buf ++ drop (off + length buf) old.

Definition treefs : fs_ops tree :=
  {| op_name := lit "treefs"; op_mount := None; op_umount := None; op_object_at := None;
     op_open := Some (fun mnt _ rel out w =>
       (w, match tree_find rel w with Some (i, e) => (0, tree_node mnt i e) | None => (-1, out) end));
     op_read := Some (fun n off size w =>
       (w, match w !! Z.to_nat (n_id n) with
           | Some e => let l := take (Z.to_nat size) (drop (Z.to_nat off) e.2.2) in (zlen l, l)
           | None => (-1, []) end));
     op_write := Some (fun _ _ rel off buf size w =>
       match tree_find rel w with
       | Some (i, e) => (<[i := (e.1, (e.2.1, splice e.2.2 (take (Z.to_nat size) buf) (Z.to_nat off)))]> w, size)
       | None => (w, -1) end);
     op_list := Some (fun _ _ _ buf _ w => (w, (0, buf)));
     op_unlink := Some (fun _ _ rel w => (filter (fun e => e.1 <> rel) w, 0));
     op_create := Some (fun _ _ rel type w => (w ++ [(rel, (type, []))], 0)) |}.

Definition tree_mount (at_path : string) : vfs_mount tree :=
  {| ops := Some treefs; fs_private := 0; mountpoint := Some (lit at_path); part_index := 0; in_use := true; active_ops := 0 |}.
Definition tree_vfs : vfs tree := {| fs_drivers := []; mounts := [tree_mount "/"; tree_mount "/mnt"; mount0; mount0] |}.

Definition small_tree : tree :=
  [(lit "/", (VFS_TYPE_DIR, [])); (lit "/sys", (VFS_TYPE_DIR, [])); (lit "/a", (VFS_TYPE_FILE, lit "hello"))].

(** A process of level [lvl] with every capability but those of [without]. *)
Definition at_level (lvl without : Z) : process :=
  {| pid := 7; pname := lit "sh"; pstate := 1; level := lvl; caps := Z.ldiff CAP_ALL without;
     parent_pid := 1; ProcTab.owner_pid := 0; env := None |}.

Definition idle_sched : sched :=
  {| tasks := ∅; cpus := []; waitqs := []; rr_cpu := 0 |}.

Definition small_kernel (p : process) : kernel tree :=
  {| om := objmgr0 2; fsw := tree_vfs; world := small_tree;
     rg := {| reg_root := empty_node []; registry_count := 0; allocs := 0; procs := []; current_process := Some p |};
     post := {| sch := idle_sched; boxes := ∅ |}; lost := reaped0; corpses := []; terminated := [] |}.

Lemma small_ok p : obj_ok (om (small_kernel p)) [].
Proof. exact (objmgr0_ok 2). Qed.

(** ** The calls, with the parameters of the small kernel *)

Definition no_terminal : terminal := {| self_rendered := false; ctty_win := 0; focus_pid := 0 |}.
Definition no_extra (n : Z) : ps_extra := {| ps_priority := 0; ps_cpu_time := 0; ps_on_cpu := 0 |}.

Definition run_create (ns type : Z) (name : str) (rights : Z) : sys (W := tree) Z :=
  sys_handle_create (fun _ => -1) 0 None ns (Some name) rights type true true true.
Definition run_read (h n : Z) : sys (W := tree) (Z + Z * list Z) :=
  sys_object_read (fun n => replicate (Z.to_nat n) 0) (fun _ => None) no_extra 0 h n true true true.
Definition run_write (h : Z) (buf : str) : sys (W := tree) (Z * unfinished + Z) :=
  sys_object_write (fun _ _ => true) (fun _ => -1) (fun _ _ w => (w, 0)) 0 no_terminal h (Some buf) None (zlen buf) true.
Definition run_ctl (h cmd arg : Z) (name : str) : sys (W := tree) Z :=
  sys_object_ctl (fun _ => -1) (fun _ _ w => (w, 0)) 0 h cmd arg (Some name).
Definition run_lseek (h off whence : Z) : sys (W := tree) Z := sys_object_lseek 0 h off whence.

Definition answer {A} (r : result tree A) : option A := match r with Done _ a => Some a | Fault _ => None end.
Definition after {A} (r : result tree A) (k : kernel tree) : kernel tree := match r with Done k a => k | Fault _ => k end.

#[local] Arguments Z.testbit : simpl never.

Section triples.
Context {W : Type}.
Implicit Types (P : objmgr -> Prop) (k : kernel W).

(** ** What a call does to the object manager

    From a state of the manager satisfying [P] the call ends in one satisfying
    [Q] of its answer, or faults on a null pointer; it reaches for no object
    that is gone. *)
Definition triple {A} P (c : sys (W := W) A) (Q : A -> objmgr -> Prop) : Prop :=
  forall k, P (om k) -> match c k with Done k' a => Q a (om k') | Fault f => f = NullPointer end.

Lemma t_ret {A} P (a : A) Q : (forall m, P m -> Q a m) -> triple P (mret a) Q.
Proof. intros H k Hk; by apply H. Qed.

Lemma t_bind {A B} P (c : sys A) (f : A -> sys B) R Q :
  triple P c R -> (forall a, triple (R a) (f a) Q) -> triple P (c ≫= f) Q.
Proof.
  intros Hc Hf k Hk; specialize (Hc k Hk); unfold mbind, sys_bind; destruct (c k) as [k1 a |]; [| done]; by apply Hf.
Qed.

Lemma t_fmap {A B} P (c : sys A) (f : A -> B) Q : triple P c (fun a => Q (f a)) -> triple P (f <$> c) Q.
Proof. intros Hc k Hk; specialize (Hc k Hk); unfold fmap, sys_fmap; by destruct (c k). Qed.

Lemma t_pre {A} P P' (c : sys A) Q : (forall m, P m -> P' m) -> triple P' c Q -> triple P c Q.
Proof. intros H Hc k Hk; by apply Hc, H. Qed.

Lemma t_post {A} P (c : sys A) Q Q' : (forall a m, Q a m -> Q' a m) -> triple P c Q -> triple P c Q'.
Proof. intros H Hc k Hk; specialize (Hc k Hk); destruct (c k); auto. Qed.

Lemma t_ask {A} P (f : kernel W -> A) : triple P (ask f) (fun _ => P).
Proof. by intros k Hk. Qed.

Lemma t_files {A} P (f : vfs W -> W -> option (vfs W * W * A)) : triple P (files f) (fun _ => P).
Proof. intros k Hk; unfold files; by destruct (f (fsw k) (world k)) as [[[v w] a] |]. Qed.

Lemma t_outside {A} P (f : W -> W * A) : triple P (outside f) (fun _ => P).
Proof. apply t_files. Qed.

Lemma t_keys {A} P (f : registry -> registry * A) : triple P (keys f) (fun _ => P).
Proof. intros k Hk; unfold keys; by destruct (f (rg k)). Qed.

Lemma t_mail {A} P (f : ipc -> option (ipc * A)) : triple P (mail f) (fun _ => P).
Proof. intros k Hk; unfold mail; by destruct (f (post k)) as [[s a] |]. Qed.

Lemma t_objects {A} P (f : objmgr -> objmgr * A) Q : (forall m, P m -> Q (snd (f m)) (fst (f m))) -> triple P (objects f) Q.
Proof. intros H k Hk; specialize (H _ Hk); unfold objects; by destruct (f (om k)). Qed.

(** ** The calls that use one object

    The object [o] is pinned while the call uses it. *)
Definition in_call (E : list handle_entry) (o : Z) : objmgr -> Prop := fun m => obj_ok m (pinned o :: E).

Lemma t_object E o : triple (in_call E o) (object o) (fun x m => in_call E o m /\ objs m !! o = Some x).
Proof.
  intros k Hk; unfold object; destruct (ok_extra _ _ Hk (pinned o)) as [x Hx]; [by left |]; simpl in Hx; by rewrite Hx.
Qed.

Lemma file_ok m E o n off : obj_ok m E -> obj_ok (upd_obj m o (with_file n off)) E.
Proof.
  intros O; destruct (objs m !! o) as [x |] eqn:Ex.
  - apply (payload_update m E o x); try done; [destruct (ok_payload _ _ O o x Ex) as [B1 B2]; by split | by eauto].
  - apply (core_ok m); [| done]; split; [| done]; simpl; apply map_eq; intros y; destruct (decide (o = y)) as [<- |];
      [by rewrite lookup_alter_eq, Ex | by rewrite lookup_alter_ne].
Qed.

Lemma t_set_file E o n off : triple (in_call E o) (set_file o n off) (fun _ => in_call E o).
Proof. apply t_objects; intros m Hm; simpl; by apply file_ok. Qed.

Lemma t_refresh E o : triple (in_call E o) (refresh o) (fun _ => in_call E o).
Proof.
  unfold refresh; eapply t_bind; [apply t_object |]; intros x; simpl.
  eapply t_bind; [eapply t_pre; [| apply (t_files (in_call E o))]; by intros m [] |]; intros [rc n].
  eapply t_bind; [apply t_set_file |]; intros ?; by apply t_ret.
Qed.

Lemma t_unref {A} E o (ret : A) : triple (in_call E o) (_ ← objects (fun m => (obj_unref m o, tt)); mret ret) (fun _ m => obj_ok m E).
Proof.
  eapply t_bind; [apply (t_objects _ _ (fun _ m => obj_ok m E)); intros m Hm; simpl; by apply unpin_ok |]; intros ?; by apply t_ret.
Qed.

Lemma t_pin E cur handle need :
  triple (fun m => obj_ok m E) (objects (fun m => pin_handle m cur handle need))
    (fun r => match r with inl _ => fun m => obj_ok m E | inr o => in_call E o end).
Proof.
  apply t_objects; intros m Hm; destruct (pin_handle m cur handle need) as [m' r] eqn:Ep; simpl.
  pose proof (pin_call_ok m E cur handle need m' r Hm Ep) as H; by destruct r.
Qed.

Lemma t_pinned {A} E cur handle need (fail : Z -> A) body :
  (forall o, triple (in_call E o) (body o) (fun _ => in_call E o)) ->
  triple (fun m => obj_ok m E) (pinned_call cur handle need fail body) (fun _ m => obj_ok m E).
Proof.
  intros Hb; eapply t_bind; [apply t_pin |]; intros [err | o]; [by apply t_ret |].
  eapply t_bind; [apply Hb |]; intros ret; apply t_unref.
Qed.
End triples.

(** One step of a call: an answer, or the next of its parts. *)
Ltac sys_step :=
  match goal with
  | |- triple _ (mret _) _ => apply t_ret; solve [intuition | tauto | naive_solver]
  | |- triple _ (if ?b then _ else _) _ => destruct b
  | |- triple _ (match ?x with _ => _ end) _ => destruct x
  | |- triple _ (object _ ≫= _) _ => eapply t_bind; [apply t_object |]; intros ?; simpl
  | |- triple _ (refresh _ ≫= _) _ => eapply t_bind; [apply t_refresh |]; intros ?; simpl
  | |- triple _ (set_file _ _ _ ≫= _) _ => eapply t_bind; [apply t_set_file |]; intros ?; simpl
  | |- triple (fun m => in_call ?E ?o m /\ _) (_ ≫= _) _ => apply (t_pre _ (in_call E o)); [by intros ? [] |]
  | |- triple (fun m => in_call ?E ?o m /\ _) _ _ => apply (t_pre _ (in_call E o)); [by intros ? [] |]
  | |- triple ?P (ask _ ≫= _) _ => eapply t_bind; [apply t_ask |]; intros ?; simpl
  | |- triple ?P (files _ ≫= _) _ => eapply t_bind; [apply t_files |]; intros ?; simpl
  | |- triple ?P (keys _ ≫= _) _ => eapply t_bind; [apply t_keys |]; intros ?; simpl
  | |- triple ?P (mail _ ≫= _) _ => eapply t_bind; [apply t_mail |]; intros ?; simpl
  | |- triple ?P (ask _) _ => apply t_ask
  | |- triple ?P (files _) _ => apply t_files
  | |- triple ?P (keys _) _ => apply t_keys
  | |- triple ?P (mail _) _ => apply t_mail
  | |- triple ?P (outside _) _ => apply t_outside
  | |- triple _ (_ <$> _) _ => apply t_fmap
  | |- triple ?P (_ ≫= _) _ => apply (t_bind P _ _ (fun _ => P)); [| intros ?; simpl]
  end.

Section io_calls.
Context {W : Type} (kmalloc_ok : nat -> Z -> bool) (garbage : Z -> list Z).
Context (window_owner window_by_pid : Z -> Z) (window_info : Z -> option (list Z)).
Context (compositor_ctl : Z -> Z -> W -> W * Z) (window_text_write : Z -> list Z -> W -> W * Z) (extra : Z -> ps_extra).

Lemma t_read_file E o n a b c : triple (W := W) (in_call E o) (read_file garbage o n a b c) (fun _ => in_call E o).
Proof. unfold read_file, read_listing, read_bytes; repeat sys_step. Qed.

Lemma t_write_file E o buf n a : triple (W := W) (in_call E o) (write_file o buf n a) (fun _ => in_call E o).
Proof. unfold write_file; repeat sys_step. Qed.

Lemma t_write_process E o x msg n a : triple (W := W) (in_call E o) (write_process x msg n a) (fun _ => in_call E o).
Proof. unfold write_process; repeat sys_step. Qed.

Lemma t_write_regkey E o x buf n : triple (W := W) (in_call E o) (write_regkey kmalloc_ok x buf n) (fun _ => in_call E o).
Proof. unfold write_regkey; repeat sys_step. Qed.

Lemma t_read_console E o n c : triple (W := W) (in_call E o) (read_console n c) (fun _ => in_call E o).
Proof. unfold read_console; repeat sys_step. Qed.

Lemma t_kill_subtree E o root : triple (W := W) (in_call E o) (kill_subtree window_by_pid root) (fun _ => in_call E o).
Proof. by intros k Hk. Qed.

(** ** Transfers *)

Lemma pipe_read_ok m E o x p n m' l :
  obj_ok m E -> objs m !! o = Some x -> ktype x = OBJ_TYPE_PIPE -> pipe x = Some p -> 0 <= n ->
  pipe_read m o p n = Some (m', l) -> obj_ok m' E.
Proof.
  intros O Hx Ht Hp Hn Hr; assert (Hring := pipe_ring _ _ _ _ _ O Hx Ht Hp).
  destruct (pipe_read_spec _ _ _ _ _ _ Hring Hn Hr) as [(_ & -> & _) | (r & Hrr & _ & _ & ->)]; [done |].
  apply wake_ok; by apply (pipe_ring_ok m _ o x p).
Qed.

Lemma pipe_write_ok m E o x p rest m' rest' :
  obj_ok m E -> objs m !! o = Some x -> ktype x = OBJ_TYPE_PIPE -> pipe x = Some p ->
  pipe_write m o p rest = Wrote m' rest' -> obj_ok m' E.
Proof.
  intros O Hx Ht Hp Hr; assert (Hring := pipe_ring _ _ _ _ _ O Hx Ht Hp).
  destruct (pipe_write_spec _ _ _ _ _ _ Hring Hr) as (r & l & _ & Hrr & _ & _ & ->); apply wake_ok; by apply (pipe_ring_ok m _ o x p).
Qed.

Lemma port_receive_ok m E o x p m' y :
  obj_ok m E -> objs m !! o = Some x -> ktype x = OBJ_TYPE_PORT -> port x = Some p -> port_receive m o p = Some (m', y) -> obj_ok m' E.
Proof.
  intros O Hx Ht Hp Hr; assert (Hring := port_ring _ _ _ _ _ O Hx Ht Hp).
  destruct (port_receive_spec _ _ _ _ _ Hring Hr) as [(_ & -> & _) | (r & z & _ & Hrr & _ & ->)]; [done |].
  apply wake_ok; by apply (port_ring_ok m _ o x p).
Qed.

Lemma port_send_ok m E o x p y m' ret :
  obj_ok m E -> objs m !! o = Some x -> ktype x = OBJ_TYPE_PORT -> port x = Some p -> port_send m o p y = Some (m', ret) -> obj_ok m' E.
Proof.
  intros O Hx Ht Hp; unfold port_send; destruct (receivers p =? 0); [by intros [= <- _] |].
  destruct (Z.ltb_spec (r_count (q_ring p)) PORT_QUEUE_MAX); [intros [= <- _] | done].
  apply wake_ok, (enqueue_ok m _ o x p); try done; by eapply port_ring.
Qed.

Lemma t_object_read E o n a b c :
  0 <= n -> triple (W := W) (in_call E o) (object_read garbage window_info extra o n a b c) (fun _ => in_call E o).
Proof.
  intros Hn; unfold object_read; eapply t_bind; [apply t_object |]; intros x; simpl.
  destruct (ktype x =? OBJ_TYPE_FILE); [sys_step; apply t_fmap, t_read_file |].
  destruct (ktype x =? OBJ_TYPE_REGKEY); [sys_step; apply t_fmap; unfold read_regkey; repeat sys_step |].
  destruct (ktype x =? OBJ_TYPE_WINDOW); [sys_step |].
  destruct (ktype x =? OBJ_TYPE_CONSOLE); [sys_step; apply t_fmap, t_read_console |].
  destruct (ktype x =? OBJ_TYPE_PROCESS); [sys_step; apply t_fmap; unfold read_process; repeat sys_step |].
  destruct (Z.eqb_spec (ktype x) OBJ_TYPE_PORT) as [Ht |].
  { destruct (port x) as [p |] eqn:Ep; [| sys_step]; destruct (n <? SIZEOF_IPC_MESSAGE); [sys_step |].
    apply t_objects; intros m [O Hx]; destruct (port_receive m o p) as [[m' [y |]] |] eqn:Er; simpl; try done; by eapply port_receive_ok. }
  destruct (Z.eqb_spec (ktype x) OBJ_TYPE_PIPE) as [Ht |]; [| sys_step].
  destruct (pipe x) as [p |] eqn:Ep; [| sys_step]; destruct (n =? 0); [sys_step |]; destruct (negb a); [sys_step |].
  apply t_objects; intros m [O Hx]; destruct (pipe_read m o p n) as [[m' l] |] eqn:Er; simpl; try done; by eapply pipe_read_ok.
Qed.

(** A call on an object whose type is known. *)
Definition typed (E : list handle_entry) (o t : Z) (m : objmgr) : Prop := in_call E o m /\ forall x, objs m !! o = Some x -> ktype x = t.

Lemma t_typed_object E o t : triple (W := W) (typed E o t) (object o) (fun x m => typed E o t m /\ objs m !! o = Some x).
Proof.
  intros k [Hk Ht]; unfold object; destruct (ok_extra _ _ Hk (pinned o)) as [x Hx]; [by left |]; simpl in Hx; by rewrite Hx.
Qed.

Lemma pipe_write_type m o p rest m' rest' x : pipe_write m o p rest = Wrote m' rest' -> objs m !! o = Some x ->
  forall x', objs m' !! o = Some x' -> ktype x' = ktype x.
Proof. unfold pipe_write; repeat case_match; intros [= <- <-] Hx x'; simpl; rewrite lookup_alter_eq, Hx; simpl; by intros [= <-]. Qed.

Lemma t_pipe_write_loop E o fuel rest nd :
  triple (W := W) (typed E o OBJ_TYPE_PIPE) (pipe_write_loop fuel o rest nd) (fun _ => typed E o OBJ_TYPE_PIPE).
Proof.
  revert rest nd; induction fuel as [| fuel IH]; intros rest nd; simpl; [sys_step |]; destruct rest as [| c rest]; [sys_step |].
  eapply t_bind; [apply t_typed_object |]; intros x; simpl; destruct (pipe x) as [p |] eqn:Ep; [| apply t_ret; by intros m []].
  apply (t_bind _ _ _ (fun _ => typed E o OBJ_TYPE_PIPE)).
  - apply t_objects; intros m [[O Ht] Hx]; destruct (pipe_write m o p (c :: rest)) as [m' rest' | |] eqn:Ew; simpl; try done; split.
    + eapply pipe_write_ok; eauto.
    + intros x' Hx'; rewrite (pipe_write_type _ _ _ _ _ _ _ Ew Hx x' Hx'); auto.
  - intros [rest' | []]; [apply IH | sys_step | sys_step].
Qed.

Lemma t_port_write E o y : triple (W := W) (typed E o OBJ_TYPE_PORT) (port_write o y) (fun _ => in_call E o).
Proof.
  unfold port_write; eapply t_bind; [apply t_typed_object |]; intros x; simpl; destruct (port x) as [p |] eqn:Ep; [| apply t_ret; by intros m [[] _]].
  apply t_objects; intros m [[O Ht] Hx]; destruct (port_send m o p y) as [[m' ret] |] eqn:Es; simpl; [eapply port_send_ok; eauto | done].
Qed.

Lemma t_object_write E o t buf msg n a :
  triple (W := W) (in_call E o) (object_write kmalloc_ok window_by_pid window_text_write o t buf msg n a) (fun _ => in_call E o).
Proof.
  unfold object_write; eapply t_bind; [apply t_object |]; intros x; simpl.
  destruct (ktype x =? OBJ_TYPE_FILE); [sys_step; apply t_fmap, t_write_file |].
  destruct (ktype x =? OBJ_TYPE_PROCESS); [sys_step; apply t_fmap, t_write_process |].
  destruct (ktype x =? OBJ_TYPE_REGKEY); [sys_step; apply t_fmap, t_write_regkey |].
  destruct (ktype x =? OBJ_TYPE_CONSOLE); [repeat sys_step |].
  destruct (Z.eqb_spec (ktype x) OBJ_TYPE_PORT) as [Ht |].
  { apply (t_pre _ (typed E o OBJ_TYPE_PORT)); [intros m [O Hx]; split; [done | intros y Hy; by simplify_eq] |].
    assert (Hret : forall v, triple (W := W) (typed E o OBJ_TYPE_PORT) (mret (inr v)) (fun _ : unfinished + Z => in_call E o)) by (intros v; apply t_ret; by intros m []).
    destruct (port x); [| apply Hret]; destruct (negb (n =? SIZEOF_IPC_MESSAGE)); [apply Hret |]; destruct msg as [y |]; [| apply Hret].
    eapply t_bind; [apply t_ask |]; intros me; apply t_port_write. }
  destruct (Z.eqb_spec (ktype x) OBJ_TYPE_PIPE) as [Ht |]; [| sys_step].
  destruct (pipe x); [| sys_step]; destruct (n =? 0); [sys_step |]; destruct (negb a); [sys_step |]; destruct buf as [b |]; [| sys_step].
  apply (t_pre _ (typed E o OBJ_TYPE_PIPE)); [intros m [O Hx]; split; [done | intros y Hy; by simplify_eq] |].
  eapply t_post; [| apply (t_pipe_write_loop E o (S (length b)) b 0)]; by intros ? m [].
Qed.

(** ** The calls *)

Lemma t_sys_object_read E cur handle n a b c :
  0 <= n -> triple (W := W) (fun m => obj_ok m E) (sys_object_read garbage window_info extra cur handle n a b c)
    (fun r => match r with inl o => in_call E o | inr _ => fun m => obj_ok m E end).
Proof.
  intros Hn; unfold sys_object_read; destruct (OBJ_MAX_IO_BYTES <? n); [by apply t_ret |].
  eapply t_bind; [apply t_pin |]; intros [err | o]; [by apply t_ret |].
  eapply t_bind; [by apply t_object_read |]; intros [rep |]; [| by apply t_ret].
  eapply t_bind; [apply (t_objects _ _ (fun _ m => obj_ok m E)); intros m Hm; simpl; by apply unpin_ok |]; intros ?; by apply t_ret.
Qed.

Lemma t_sys_object_write E cur t handle buf msg n a :
  triple (W := W) (fun m => obj_ok m E) (sys_object_write kmalloc_ok window_by_pid window_text_write cur t handle buf msg n a)
    (fun r => match r with inl (o, _) => in_call E o | inr _ => fun m => obj_ok m E end).
Proof.
  unfold sys_object_write; destruct (OBJ_MAX_IO_BYTES <? n); [by apply t_ret |].
  eapply t_bind; [apply t_pin |]; intros [err | o]; [by apply t_ret |].
  eapply t_bind; [apply t_object_write |]; intros [u | v]; [by apply t_ret |].
  eapply t_bind; [apply (t_objects _ _ (fun _ m => obj_ok m E)); intros m Hm; simpl; by apply unpin_ok |]; intros ?; by apply t_ret.
Qed.

Lemma t_sys_object_wait E cur handle a b : triple (W := W) (fun m => obj_ok m E) (sys_object_wait cur handle a b) (fun _ m => obj_ok m E).
Proof.
  apply t_pinned; intros o; sys_step; destruct (ktype a0 =? OBJ_TYPE_PROCESS); [sys_step | sys_step].
  apply (t_bind _ _ _ (fun _ => in_call E o)); [| intros [ret code]; repeat sys_step].
  intros k Hk; unfold reap; by destruct (process_wait (corpses k) (lost k) (kpid a0)).
Qed.

Lemma t_sys_object_ctl E cur handle cmd arg name :
  triple (W := W) (fun m => obj_ok m E) (sys_object_ctl window_by_pid compositor_ctl cur handle cmd arg name) (fun _ m => obj_ok m E).
Proof.
  unfold sys_object_ctl; repeat match goal with |- triple _ (if ?b then _ else _) _ => destruct b end;
    try (by apply t_ret); apply t_pinned; intros o;
    unfold ctl_kill, ctl_job, ctl_window, ctl_seek, ctl_setowner, ctl_truncate, ctl_mutate, ctl_stat; repeat sys_step; apply t_kill_subtree.
Qed.

Lemma t_sys_object_lseek E cur handle off whence :
  triple (W := W) (fun m => obj_ok m E) (sys_object_lseek cur handle off whence) (fun _ m => obj_ok m E).
Proof. apply t_pinned; intros o; unfold seek_base; repeat sys_step. Qed.
(** The state of the manager between calls. *)
Abbreviation idle E := (fun m => obj_ok m E).

Lemma t_install E cur ok x rights :
  ktype x <> OBJ_TYPE_PIPE -> ktype x <> OBJ_TYPE_PORT -> triple (W := W) (idle E) (install cur ok x rights) (fun _ => idle E).
Proof.
  intros H1 H2; unfold install; destruct (negb ok); [by apply t_ret |].
  apply (t_objects _ _ (fun _ => idle E)); intros m Hm; apply install_new_ok; [done |]; by split.
Qed.

Lemma t_resolve_name E want rights resolved : triple (W := W) (idle E) (resolve_name want rights resolved) (fun _ => idle E).
Proof.
  unfold resolve_name; repeat first [sys_step | match goal with |- triple _ (mret _) _ => by apply t_ret end].
Qed.

Lemma t_sys_handle_create E cur cwd ns name rights type a b c :
  triple (W := W) (idle E) (sys_handle_create window_owner cur cwd ns name rights type a b c) (fun _ => idle E).
Proof.
  unfold sys_handle_create, create_fs, create_proc, create_reg, create_win; destruct name as [name |]; [| by apply t_ret].
  eapply t_bind; [apply (t_objects _ _ (fun _ => idle E)); intros m Hm; simpl; by apply ensure_ok |]; intros rc; simpl.
  repeat first [by apply t_ret | by apply t_install | apply t_resolve_name
    | apply (t_objects _ _ (fun _ => idle E)); intros m Hm; by apply create_port_ok | sys_step].
Qed.

(** no call on a handle disturbs the counts: whatever the arguments, the
    allocator's answers and the state of the other components, from a state
    where the reference counts, endpoint counts and waiters of the objects are
    exact, opening, reading, writing, waiting, controlling and seeking end in
    such a state, never reach for a freed object, and leave the object pinned
    exactly when they went to sleep on it; the one way to fault is the null
    pointer of a filesystem provider. *)
Theorem object_calls_keep_counts E cur handle :
  (forall cwd ns name rights type a b c,
    triple (W := W) (idle E) (sys_handle_create window_owner cur cwd ns name rights type a b c) (fun _ => idle E)) /\
  (forall n a b c, 0 <= n ->
    triple (W := W) (idle E) (sys_object_read garbage window_info extra cur handle n a b c)
      (fun r => match r with inl o => in_call E o | inr _ => idle E end)) /\
  (forall t buf msg n a,
    triple (W := W) (idle E) (sys_object_write kmalloc_ok window_by_pid window_text_write cur t handle buf msg n a)
      (fun r => match r with inl (o, _) => in_call E o | inr _ => idle E end)) /\
  (forall a b, triple (W := W) (idle E) (sys_object_wait cur handle a b) (fun _ => idle E)) /\
  (forall cmd arg name,
    triple (W := W) (idle E) (sys_object_ctl window_by_pid compositor_ctl cur handle cmd arg name) (fun _ => idle E)) /\
  (forall off whence, triple (W := W) (idle E) (sys_object_lseek cur handle off whence) (fun _ => idle E)).
Proof.
  split; [intros; apply t_sys_handle_create |]; split; [intros; by apply t_sys_object_read |].
  split; [intros; apply t_sys_object_write |]; split; [intros; apply t_sys_object_wait |].
  split; [intros; apply t_sys_object_ctl | intros; apply t_sys_object_lseek].
Qed.
End io_calls.

(** ** What a call did *)

Section done.
Context {W : Type}.
Implicit Types (k : kernel W).

Lemma bind_done {A B} (c : sys (W := W) A) (f : A -> sys B) k k' b :
  (c ≫= f) k = Done k' b -> exists k1 a, c k = Done k1 a /\ f a k1 = Done k' b.
Proof. unfold mbind, sys_bind; destruct (c k) as [k1 a |]; [eauto | done]. Qed.

Lemma ret_done {A} (a b : A) k k' : mret (M := sys (W := W)) a k = Done k' b -> k' = k /\ b = a.
Proof. by intros [= <- <-]. Qed.

Lemma ask_done {A} (f : kernel W -> A) k k' b : ask f k = Done k' b -> k' = k /\ b = f k.
Proof. by intros [= <- <-]. Qed.

Lemma objects_done {A} (f : objmgr -> objmgr * A) k k' b :
  objects f k = Done k' b -> om k' = fst (f (om k)) /\ b = snd (f (om k)) /\ rg k' = rg k /\ fsw k' = fsw k /\ world k' = world k.
Proof. unfold objects; destruct (f (om k)); by intros [= <- <-]. Qed.

Lemma files_done {A} (f : vfs W -> W -> option (vfs W * W * A)) k k' b :
  files f k = Done k' b -> om k' = om k /\ rg k' = rg k /\ f (fsw k) (world k) = Some (fsw k', world k', b).
Proof. unfold files; destruct (f (fsw k) (world k)) as [[[v w] a] |]; [by intros [= <- <-] | done]. Qed.

(** A new object behind a new handle. *)
Lemma install_new_done m p x r m' h :
  install_new m p x r = (m', h) -> 0 <= h -> plain x ->
  handle_at m' p (Z.to_nat h) = Some {| h_obj := next_obj m; h_rights := r |} /\ objs m' !! next_obj m = Some (with_ref (fun _ => 1) x).
Proof.
  unfold install_new; destruct (kobj_alloc m x) as [m1 o] eqn:Ea; destruct (alloc_spec _ _ _ _ Ea) as (-> & Ho & _).
  destruct (handle_install_locked m1 p (next_obj m) r) as [m2 i] eqn:Ei; destruct (Z.ltb_spec i 0); intros [= <- <-] Hh [H1 H2]; [lia |].
  split; [by eapply install_handle |]; rewrite install_eq in Ei; unfold EBADF, EMFILE in Ei.
  destruct (table_of m1 p); [| simplify_eq; lia]; destruct (free_slot m1 p) as [j |]; [| simplify_eq; lia]; injection Ei as <- _.
  assert (Hx : objs (upd_obj m1 (next_obj m) (with_ref (fun n => n + 1))) !! next_obj m = Some (with_ref (fun _ => 1) x)).
  { rewrite objs_upd, decide_True, Ho, lookup_insert_eq by done; done. }
  by rewrite (pipe_handle_count_plain _ _ _ _ _ Hx).
Qed.

(** [install] gives a handle on an object [G] holds of. *)
Definition opened (k k' : kernel W) (cur : nat) (h r : Z) (G : kobject -> Prop) : Prop :=
  0 <= h -> exists x, handle_at (om k') cur (Z.to_nat h) = Some {| h_obj := next_obj (om k); h_rights := r |} /\
    objs (om k') !! next_obj (om k) = Some x /\ G x.

Lemma install_opened cur ok x r k k' h (G : kobject -> Prop) :
  install cur ok x r k = Done k' h -> plain x -> G (with_ref (fun _ => 1) x) -> opened k k' cur h r G.
Proof.
  unfold install, opened; destruct ok; simpl; [| intros [_ ->]%ret_done; unfold ENOMEM; lia].
  intros (Ho & -> & _)%objects_done Hp HG Hh; destruct (install_new (om k) cur x r) as [m' i] eqn:E; simpl in *; rewrite Ho.
  destruct (install_new_done _ _ _ _ _ _ E Hh Hp) as [H1 H2]; eauto.
Qed.

Lemma opened_errno k k' cur h r G : h < 0 -> opened k k' cur h r G.
Proof. unfold opened; lia. Qed.
End done.

Section authority.
Context {W : Type} (window_owner : Z -> Z).
Implicit Types (k : kernel W).

(** ** What a new handle may do *)

(** The rights [r] of a new handle on [x], opened under [name] in state [k], are
    such as the policies of the components grant the caller. *)
Record may_hold (k : kernel W) (cwd : option str) (name : str) (r : Z) (x : kobject) : Prop := {
  mh_file : ktype x = OBJ_TYPE_FILE -> exists pth,
    pth = default [] (vfs_resolve_path cwd name OBJ_FILE_PATH_MAX) /\ kpath x = strcopy OBJ_FILE_PATH_MAX pth /\
    (has_any r OS1_RIGHT_WRITE = true -> vfs_write_allowed (current k) pth = 0) /\
    (has_any r OS1_RIGHT_MUTATE = true -> vfs_write_allowed (current k) pth = 0 /\ n_type (knode x) = VFS_TYPE_DIR);
  mh_process : ktype x = OBJ_TYPE_PROCESS -> has_any r (Z.lor OS1_RIGHT_DESTROY OS1_RIGHT_WRITE) = true ->
    process_kill_allowed (procs (rg k)) (current k) (kpid x) = true;
  mh_key : ktype x = OBJ_TYPE_REGKEY -> kpath x = strcopy MAX_KEY_LEN name /\
    (has_any r OS1_RIGHT_WRITE = true -> registry_key_is_virtual name = true \/ registry_write_allowed (rg k) = true);
  mh_window : ktype x = OBJ_TYPE_WINDOW -> has_any r (Z.lor OS1_RIGHT_WRITE OS1_RIGHT_DESTROY) = true ->
    window_owner (kwindow x) = current_pid k \/ proc_is_machine (current k) = true \/
    default PLVL_MACHINE (level <$> current k) <= PLVL_ROOT
}.

(** The handles a call opens: on a new object, or on a port that was there. *)
Definition opens (k k' : kernel W) (cur : nat) (cwd : option str) (name : str) (rights h : Z) : Prop :=
  0 <= h -> exists o x r, handle_at (om k') cur (Z.to_nat h) = Some {| h_obj := o; h_rights := r |} /\
    objs (om k') !! o = Some x /\ (forall b, Z.testbit r b = true -> Z.testbit rights b = true /\ Z.testbit OS1_RIGHT_ALL b = true) /\
    may_hold k cwd name r x /\ (o < next_obj (om k) -> ktype x = OBJ_TYPE_PORT /\ Z.testbit r B_READ = false).

Ltac by_type := let H := fresh in intros H; vm_compute in H; congruence.

Lemma write_allowed_errno p pth : vfs_write_allowed p pth <= 0.
Proof. unfold vfs_write_allowed, EPERM, EACCES; repeat case_match; lia. Qed.

Lemma resolve_name_done want r pth k k1 a :
  resolve_name want r pth k = Done k1 a -> om k1 = om k /\ rg k1 = rg k /\ match a with inl e => e < 0 | inr _ => True end.
Proof.
  unfold resolve_name; intros (k2 & [rr ref] & H1 & H)%bind_done; apply files_done in H1 as (Eo & Er & _).
  destruct (rr =? -2); [apply ret_done in H as [-> ->]; by destruct (has_any r _) |]; destruct (rr =? 0); [by apply ret_done in H as [-> ->] |].
  destruct (negb want || negb (has_any r OS1_RIGHT_WRITE)); [by apply ret_done in H as [-> ->] |].
  apply bind_done in H as (k3 & g & H3 & H); apply ask_done in H3 as [-> ->]; pose proof (write_allowed_errno (current k2) pth).
  destruct (Z.eqb_spec (vfs_write_allowed (current k2) pth) 0); simpl in H; [| apply ret_done in H as [-> ->]; do 2 (split; [done |]); lia].
  apply bind_done in H as (k4 & rc & H4 & H); apply files_done in H4 as (E4 & R4 & _).
  destruct (negb (rc =? 0)); [apply ret_done in H as [-> ->]; split; [congruence |]; split; [congruence | done] |].
  apply bind_done in H as (k5 & [rr' ref'] & H5 & H); apply files_done in H5 as (E5 & R5 & _); apply ret_done in H as [-> ->].
  split; [congruence |]; split; [congruence |]; by destruct (rr' =? 0).
Qed.

Lemma opened_om k1 k k' cur h r G : om k1 = om k -> opened k1 k' cur h r G -> opened k k' cur h r G.
Proof. unfold opened; by intros ->. Qed.

(** The gates of files let through what the policy allows. *)
Lemma file_gate_allows p pth ref r :
  file_gate p pth ref r = 0 ->
  (has_any r OS1_RIGHT_WRITE = true -> vfs_write_allowed p pth = 0) /\
  (has_any r OS1_RIGHT_MUTATE = true -> vfs_write_allowed p pth = 0 /\ n_type (o_node ref) = VFS_TYPE_DIR).
Proof.
  unfold file_gate; destruct (has_any r OS1_RIGHT_WRITE).
  - destruct (Z.eqb_spec (vfs_write_allowed p pth) 0) as [E |]; [simpl | done]; intros H; split; [done |]; intros Hm; rewrite Hm in H.
    destruct (Z.eqb_spec (n_type (o_node ref)) VFS_TYPE_DIR); [done | done].
  - simpl; intros H; split; [done |]; intros Hm; rewrite Hm in H; destruct (Z.eqb_spec (n_type (o_node ref)) VFS_TYPE_DIR); done.
Qed.

Lemma file_gate_errno p pth ref r : file_gate p pth ref r <= 0.
Proof. pose proof (write_allowed_errno p pth); unfold file_gate, Object.ENOTDIR; repeat case_match; lia. Qed.

Lemma create_fs_opened cur cwd name want r ok k k' h :
  create_fs cur cwd name want r ok k = Done k' h -> opened k k' cur h r (may_hold k cwd name r).
Proof.
  unfold create_fs; set (pth := default [] (vfs_resolve_path cwd name OBJ_FILE_PATH_MAX)).
  intros (k1 & [err | ref] & H1 & H)%bind_done; destruct (resolve_name_done _ _ _ _ _ _ H1) as (Eo & Er & Ha).
  { apply ret_done in H as [-> ->]; by apply opened_errno. }
  destruct (obj_type ref =? OBJ_TYPE_FILE).
  - apply bind_done in H as (k2 & g & H2 & H); apply ask_done in H2 as [-> ->]; pose proof (file_gate_errno (current k1) pth ref r).
    destruct (Z.eqb_spec (file_gate (current k1) pth ref r) 0) as [Hg |]; simpl in H; [| apply ret_done in H as [-> ->]; apply opened_errno; lia].
    apply file_gate_allows in Hg as [G1 G2]; apply (opened_om k1); [done |]; apply (install_opened _ _ _ _ _ _ _ _ H); [done |].
    unfold current in *; rewrite Er in G1, G2; split; try by_type; intros _; exists pth; done.
  - destruct (obj_type ref =? OBJ_TYPE_PROCESS); [| apply ret_done in H as [-> ->]; by apply opened_errno].
    apply bind_done in H as (k2 & g & H2 & H); apply ask_done in H2 as [-> ->].
    destruct (has_any r (Z.lor OS1_RIGHT_DESTROY OS1_RIGHT_WRITE)) eqn:Ew, (process_kill_allowed (procs (rg k1)) (current k1) (o_pid ref)) eqn:Ek; simpl in H;
      try (apply ret_done in H as [-> ->]; by apply opened_errno).
    all: apply (opened_om k1); [done |]; apply (install_opened _ _ _ _ _ _ _ _ H); [done |]; unfold current in *; rewrite Er in Ek;
      split; try by_type; simpl; intros _ Hw; try done; exfalso; congruence.
Qed.

Lemma create_proc_opened cur cwd name r ok k k' h :
  create_proc cur name r ok k = Done k' h -> opened k k' cur h r (may_hold k cwd name r).
Proof.
  unfold create_proc; destruct (atoi name <=? 0); [intros [-> ->]%ret_done; by apply opened_errno |].
  intros (k1 & g & H1 & H)%bind_done; apply ask_done in H1 as [-> ->].
  destruct (has_any r (Z.lor OS1_RIGHT_DESTROY OS1_RIGHT_WRITE) && negb (process_kill_allowed (procs (rg k)) (current k) (atoi name))) eqn:Eg;
    [apply ret_done in H as [-> ->]; by apply opened_errno |].
  apply bind_done in H as (k2 & q & H2 & H); apply ask_done in H2 as [-> ->].
  destruct (process_find_by_pid (procs (rg k)) (atoi name)); [| apply ret_done in H as [-> ->]; by apply opened_errno].
  apply (install_opened _ _ _ _ _ _ _ _ H); [done |]; split; try by_type; simpl; intros _ Hw; rewrite Hw in Eg; simpl in Eg; by apply negb_false_iff in Eg.
Qed.

Lemma create_reg_opened cur cwd name r ok k k' h :
  create_reg cur name r ok k = Done k' h -> opened k k' cur h r (may_hold k cwd name r).
Proof.
  unfold create_reg; intros (k1 & g & H1 & H)%bind_done; apply ask_done in H1 as [-> ->].
  destruct (has_any r OS1_RIGHT_WRITE && negb (registry_key_is_virtual name) && negb (registry_write_allowed (rg k))) eqn:Eg;
    [apply ret_done in H as [-> ->]; by apply opened_errno |].
  destruct name as [| c t]; [apply ret_done in H as [-> ->]; by apply opened_errno |].
  apply (install_opened _ _ _ _ _ _ _ _ H); [done |]; split; try by_type; intros _; split; [done |]; intros Hw; rewrite Hw in Eg.
  destruct (registry_key_is_virtual (c :: t)); [by left | right]; by apply negb_false_iff in Eg.
Qed.

Lemma create_win_opened cur cwd name r ok k k' h :
  create_win window_owner cur name r ok k = Done k' h -> opened k k' cur h r (may_hold k cwd name r).
Proof.
  unfold create_win; destruct (atoi name <=? 0); [intros [-> ->]%ret_done; by apply opened_errno |].
  destruct (window_owner (atoi name) <? 0); [intros [-> ->]%ret_done; by apply opened_errno |].
  intros (k1 & g & H1 & H)%bind_done; apply ask_done in H1 as [-> ->].
  apply bind_done in H as (k1 & g & H1 & H); apply ask_done in H1 as [-> ->].
  destruct (negb (window_owner (atoi name) =? current_pid k) && has_any r (Z.lor OS1_RIGHT_WRITE OS1_RIGHT_DESTROY) && negb (proc_is_machine (current k))
    && match current k with Some p => PLVL_ROOT <? level p | None => false end) eqn:Eg; [apply ret_done in H as [-> ->]; by apply opened_errno |].
  apply (install_opened _ _ _ _ _ _ _ _ H); [done |]; split; try by_type; simpl; intros _ Hw; rewrite Hw, andb_true_r in Eg.
  destruct (Z.eqb_spec (window_owner (atoi name)) (current_pid k)); [by left | right].
  destruct (proc_is_machine (current k)); [by left | right]; simpl in Eg; destruct (current k); simpl; [lia | done].
Qed.

Lemma port_may_hold k cwd name r x : ktype x = OBJ_TYPE_PORT -> may_hold k cwd name r x.
Proof. intros Hx; split; intros H; vm_compute in H, Hx; congruence. Qed.

Lemma all_rights rights b : Z.testbit (Z.land rights OS1_RIGHT_ALL) b = true -> Z.testbit rights b = true /\ Z.testbit OS1_RIGHT_ALL b = true.
Proof. rewrite Z.land_spec; apply andb_true_iff. Qed.

Lemma opened_opens k k1 k' cur cwd name rights h :
  rg k1 = rg k -> next_obj (om k1) = next_obj (om k) ->
  opened k1 k' cur h (Z.land rights OS1_RIGHT_ALL) (may_hold k1 cwd name (Z.land rights OS1_RIGHT_ALL)) -> opens k k' cur cwd name rights h.
Proof.
  intros Er En Ho Hh; destruct (Ho Hh) as (x & H1 & H2 & H3); exists (next_obj (om k1)), x, (Z.land rights OS1_RIGHT_ALL).
  split; [done |]; split; [done |]; split; [apply all_rights |]; split; [| lia].
  destruct H3 as [A1 A2 A3 A4]; unfold current, current_pid, current in *; rewrite Er in *; by split.
Qed.

(** Publication makes a new port; acquisition cannot receive. *)
Lemma create_port_opens m E cur me name rights a b m' h :
  obj_ok m E -> create_port m cur me name rights a b = (m', h) -> 0 <= h ->
  exists o x r, handle_at m' cur (Z.to_nat h) = Some {| h_obj := o; h_rights := r |} /\ objs m' !! o = Some x /\ ktype x = OBJ_TYPE_PORT /\
    (forall c, Z.testbit r c = true -> Z.testbit rights c = true) /\ (o < next_obj m -> Z.testbit r B_READ = false).
Proof.
  intros O; unfold create_port; destruct (negb (has_any rights OS1_RIGHT_READ)).
  - unfold port_acquire, port_find_locked; destruct (list_find (port_named m name) (port_table m)) as [[i [o |]] |] eqn:Ef; simpl;
      try (intros [= <- <-]; unfold ENOENT; lia).
    intros Hi Hh; apply list_find_Some in Ef as (Hin & _); apply list_elem_of_lookup_2 in Hin; destruct (ok_ports _ _ O o Hin) as (x & _ & Hx & Ht & _).
    destruct (install_kind m cur o (Z.ldiff rights OS1_RIGHT_READ) x Hx) as (x' & Hx' & Ht'); rewrite Hi in Hx'; simpl in Hx'.
    exists o, x', (Z.ldiff rights OS1_RIGHT_READ); split; [by eapply install_handle |]; split; [done |]; split; [congruence |].
    split; [intros c; rewrite Z.ldiff_spec; by intros [? _]%andb_true_iff | by rewrite Z.ldiff_spec, andb_false_r].
  - destruct (port_choose m name) as [rc | slot] eqn:Ec.
    { intros [= <- <-]; unfold port_choose in Ec; destruct (port_find_locked m name); [simplify_eq; unfold EEXIST; lia |].
      destruct (list_find (fun e : option Z => e = None) (port_table m)) as [[]|]; simplify_eq; unfold ENOSPC; lia. }
    destruct (negb a || negb b); [intros [= <- <-]; unfold ENOMEM; lia |]; unfold port_publish.
    destruct (kobj_alloc m _) as [m1 o] eqn:Ea; destruct (alloc_spec _ _ _ _ Ea) as (Eo & Ho & _).
    destruct (port_find_locked m1 name); [intros [= <- <-]; unfold EEXIST; lia |].
    destruct (install_kind m1 cur o rights (with_ref (fun _ => 0) (with_pid me (with_port (new_port me name) (blank OBJ_TYPE_PORT))))) as (x' & Hx' & Ht');
      [by rewrite Ho, lookup_insert_eq |].
    destruct (handle_install_locked m1 cur o rights) as [m2 i] eqn:Ei; simpl in Hx'; destruct (Z.leb_spec 0 i); intros [= <- <-] Hh; [| lia].
    exists o, x', rights; split; [exact (install_handle _ _ _ _ _ _ Ei Hh) |]; split; [done |]; split; [done |]; split; [done | lia].
Qed.

Lemma ensure_next' m p ok : next_obj (fst (handles_ensure m p ok)) = next_obj m.
Proof. unfold handles_ensure; destruct (table_of m p); [done |]; by destruct ok. Qed.

(** C16: a handle comes only with rights the policies grant: whatever namespace a
    name is in, the handle [sys_handle_create] returns carries no right that was
    not asked for and never the right to create; to write a file or to change a
    directory the write policy for its resolved path was asked, to kill or to
    message a process the rule of ancestry, to write a registry key the
    registry's capability unless the key is a process's own, to control
    another's window the machine or root level; and the receive right comes only
    with a port the call itself made. *)
Theorem handles_opened_by_policy E cur cwd ns name rights type a b c k k' h :
  obj_ok (om k) E ->
  sys_handle_create window_owner cur cwd ns (Some name) rights type a b c k = Done k' h -> opens k k' cur cwd name rights h.
Proof.
  intros O; unfold sys_handle_create; intros (k1 & rc & H1 & H)%bind_done; apply objects_done in H1 as (Eo & -> & Er & _).
  pose proof (ensure_next' (om k) cur a) as En; pose proof (ensure_ok (om k) E cur a O) as O1; rewrite <- Eo in En, O1.
  assert (Herr : forall k2 e, e < 0 -> mret (M := sys (W := W)) e k2 = Done k' h -> opens k k' cur cwd name rights h).
  { intros k2 e He [-> ->]%ret_done Hh; lia. }
  destruct (negb (snd (handles_ensure (om k) cur a) =? 0)); [by apply (Herr k1 (- ENOMEM)) |].
  destruct (ns =? OS1_NS_FS); [eapply opened_opens; [exact Er | exact En | by eapply create_fs_opened] |].
  destruct (ns =? OS1_NS_PORT).
  - apply bind_done in H as (k2 & me & H2 & H); apply ask_done in H2 as [-> ->]; apply objects_done in H as (Eo' & -> & _); intros Hh.
    destruct (create_port (om k1) cur (current_pid k1) name (Z.land rights OS1_RIGHT_ALL) b c) as [m' i] eqn:Ep; simpl in *.
    destruct (create_port_opens _ _ _ _ _ _ _ _ _ _ O1 Ep Hh) as (o & x & r & H3 & H4 & H5 & H6 & H7); exists o, x, r; rewrite Eo'.
    split; [done |]; split; [done |]; split; [intros d Hd; by apply all_rights, H6 |]; split; [by apply port_may_hold |]; rewrite <- En; auto.
  - destruct ((ns =? OS1_NS_PROC) && (type =? OBJ_TYPE_PROCESS)); [eapply opened_opens; [exact Er | exact En | by eapply create_proc_opened] |].
    destruct ((ns =? OS1_NS_REG) && (type =? OBJ_TYPE_REGKEY)); [eapply opened_opens; [exact Er | exact En | by eapply create_reg_opened] |].
    destruct ((ns =? OS1_NS_WIN) && (type =? OBJ_TYPE_WINDOW)); [eapply opened_opens; [exact Er | exact En | by eapply create_win_opened] |].
    by apply (Herr k1 (- EINVAL)).
Qed.
End authority.

(** ** The theorems at work *)

(** Root opens "/sys" to change it. *)
Definition open_sys : result tree Z := run_create OS1_NS_FS OBJ_TYPE_FILE (lit "/sys") OS1_RIGHT_MUTATE (small_kernel (at_level PLVL_ROOT 0)).

Lemma object_calls_keep_counts_witness :
  0 <= 4 /\ match run_read 0 4 (after open_sys (small_kernel (at_level PLVL_ROOT 0))) with
            | Done k' (inr _) => obj_ok (om k') []
            | _ => False
            end.
Proof.
  split; [lia |]; pose proof (object_calls_keep_counts (W := tree) (fun _ _ => true) (fun n => replicate (Z.to_nat n) 0)
    (fun _ => -1) (fun _ => -1) (fun _ => None) (fun _ _ w => (w, 0)) (fun _ _ w => (w, 0)) no_extra [] 0 0) as (H1 & H2 & _).
  specialize (H1 None OS1_NS_FS (Some (lit "/sys")) OS1_RIGHT_MUTATE OBJ_TYPE_FILE true true true _ (small_ok (at_level PLVL_ROOT 0))).
  assert (E : obj_ok (om (after open_sys (small_kernel (at_level PLVL_ROOT 0)))) []) by exact H1.
  specialize (H2 4 true true true ltac:(lia) _ E); revert H2; unfold run_read.
  assert (Hb : match run_read 0 4 (after open_sys (small_kernel (at_level PLVL_ROOT 0))) with Done _ (inr _) => True | _ => False end)
    by (vm_compute; exact I).
  revert Hb; unfold run_read; destruct (sys_object_read _ _ _ _ _ _ _ _ _ _) as [k' [|] | ]; done.
Defined.

Lemma handles_opened_by_policy_witness :
  answer open_sys = Some 0 /\
  opens (fun _ => -1) (small_kernel (at_level PLVL_ROOT 0)) (after open_sys (small_kernel (at_level PLVL_ROOT 0))) 0 None (lit "/sys") OS1_RIGHT_MUTATE 0.
Proof.
  split; [by vm_compute |].
  by apply (handles_opened_by_policy (W := tree) (fun _ => -1) [] 0 None OS1_NS_FS (lit "/sys") OS1_RIGHT_MUTATE OBJ_TYPE_FILE true true true
    (small_kernel (at_level PLVL_ROOT 0)) _ 0 (small_ok _)).
Defined.

(** A write after seeking to 2^32 lands at the start of the file: the write
    truncates the offset to 32 bits. *)
Example write_past_4g_lands_at_zero :
  let k := small_kernel (at_level PLVL_ROOT 0) in
  let r := (h ← run_create OS1_NS_FS OBJ_TYPE_FILE (lit "/a") (Z.lor OS1_RIGHT_READ OS1_RIGHT_WRITE);
            off ← run_lseek h (2 ^ 32) SEEK_SET; n ← run_write h (lit "J"); mret (off, n)) k in
  answer r = Some (2 ^ 32, inr 1) /\ tree_find (lit "/a") (world (after r k)) = Some (2%nat, (lit "/a", (VFS_TYPE_FILE, lit "Jello"))).
Proof. split; by vm_compute. Qed.

(** A file read after its filesystem was unmounted: the refresh fails, and the
    cached node leads through a null pointer. *)
Example read_after_umount_faults :
  let k := small_kernel (at_level PLVL_ROOT 0) in
  let opened := run_create OS1_NS_FS OBJ_TYPE_FILE (lit "/mnt/a") OS1_RIGHT_READ k in
  answer opened = Some 0 /\
  match vfs_umount (fsw (after opened k)) (world (after opened k)) (Some (lit "/mnt")) with
  | Some (v, w, rc) => rc = 0 /\ run_read 0 4 (with_fs (after opened k) v w) = Fault NullPointer
  | None => False
  end.
Proof. by vm_compute. Qed.

(** A registry key whose full name is a process's own, and which is stored cut
    to one that is not. *)
Definition long_env_key : str := lit "sys.proc." ++ replicate 60 48 ++ lit ".env.x".

(** A guest without the registry capability gets a handle to write it, and
    writes an ordinary key; asked for by its own name the key is refused. *)
Example cut_key_escapes_the_capability :
  let k := small_kernel (at_level PLVL_GUEST CAP_REG_WRITE) in
  let r := (h ← run_create OS1_NS_REG OBJ_TYPE_REGKEY long_env_key OS1_RIGHT_WRITE; run_write h (lit "J")) k in
  registry_write_allowed (rg k) = false /\ registry_key_is_virtual (strcopy MAX_KEY_LEN long_env_key) = false /\
  answer (run_create OS1_NS_REG OBJ_TYPE_REGKEY (strcopy MAX_KEY_LEN long_env_key) OS1_RIGHT_WRITE k) = Some (- EPERM) /\
  answer r = Some (inr 1) /\ registry_get (rg (after r k)) (Some (strcopy MAX_KEY_LEN long_env_key)) MAX_VAL_LEN = inr (lit "J").
Proof. repeat split; by vm_compute. Qed.
