(* ===== verification/DirHandles.v ===== *)
(** * Directory handles

    What the two directory commands of [sys_object_ctl] can change through a
    handle, and how far the write policy that was asked when the handle was
    opened covers it. *)
From Stdlib Require Import ZArith Lia String.
From stdpp Require Import base numbers list gmap.
From S2P Require Import Prelude Gpt CString ProcTab VfsPath Vfs Registry ProcLife Sched Ipc Ring Object ObjectProofs ObjectSteps ObjectTheorems ObjectIo ObjectIoTheorems.

#[local] Arguments Z.testbit : simpl never.

(** ** The policy for a child *)

Lemma under_snoc t cs n : under t (cs ++ [n]) = under t cs || bool_decide (t = cs ++ [n]).
Proof.
  unfold under; apply eq_true_iff_eq; rewrite orb_true_iff, !bool_decide_eq_true; split.
  - intros [k Hk]; destruct k as [| y k _] using rev_ind; [right; by rewrite app_nil_r in Hk |].
    rewrite app_assoc in Hk; apply app_inj_tail in Hk as [-> _]; left; by eexists.
  - intros [[k ->] | ->]; [| done]; exists (k ++ [n]); by rewrite app_assoc.
Qed.

(** The names that only the machine may write although their parents are open
    to root. *)
Definition closed_names : list (list str) := [[lit "sys"; lit "bin"]; [lit "sbin"]; [lit "system"]].

Lemma privileged_not_guest p : proc_is_privileged p = true -> (PLVL_GUEST <=? default 0 (level <$> p)) = false.
Proof.
  destruct p as [p |]; [| done]; unfold proc_is_privileged, PLVL_GUEST, PLVL_ROOT; simpl.
  rewrite ?orb_true_iff, ?andb_true_iff, ?Z.leb_le; intros; apply Z.leb_gt; lia.
Qed.

Lemma policy_child p cs n : write_policy p cs = 0 -> write_policy p (cs ++ [n]) = 0 \/ cs ++ [n] ∈ closed_names.
Proof.
  unfold write_policy; destruct (negb (proc_has_cap p CAP_FS_WRITE)); [done |]; destruct (proc_is_machine p); [by left |].
  rewrite !under_snoc; destruct (under [lit "tmp"] cs || under [lit "var"; lit "tmp"] cs) eqn:Et.
  { intros _; left; apply orb_true_iff in Et as [-> | ->]; rewrite ?orb_true_r; done. }
  apply orb_false_iff in Et as [-> ->]; cbn [orb]; destruct (bool_decide ([lit "tmp"] = _) || bool_decide ([lit "var"; lit "tmp"] = _)); [by left |].
  destruct (under [lit "home"] cs) eqn:Eh; cbn [orb].
  - destruct (bool_decide (is_Some p)), (under [lit "home"; lit "shared"] cs), (PLVL_GUEST <=? _); simpl; try done; intros _; left; by rewrite ?andb_false_r.
  - destruct (under [lit "sys"; lit "bin"] cs || under [lit "sbin"] cs || under [lit "system"] cs) eqn:Ec; [done |].
    rewrite !orb_false_iff in Ec; destruct Ec as [[-> ->] ->]; cbn [orb]; destruct (proc_is_privileged p) eqn:Ep; [| done]; intros _.
    rewrite (privileged_not_guest _ Ep), andb_false_r; destruct (bool_decide ([lit "home"] = _)); [by left |].
    destruct (bool_decide ([lit "sys"; lit "bin"] = _) || bool_decide ([lit "sbin"] = _) || bool_decide ([lit "system"] = _)) eqn:Er; [| by left].
    right; unfold closed_names; rewrite !orb_true_iff, !bool_decide_eq_true in Er; rewrite !elem_of_cons; naive_solver.
Qed.

(** ** The child's path *)

Lemma slashed_snoc cs n : slashed (cs ++ [n]) = slashed cs ++ SLASH :: n.
Proof. unfold slashed; rewrite fmap_app, concat_app; simpl; by rewrite app_nil_r. Qed.

Lemma render_snoc cs n : render (cs ++ [n]) = slashed cs ++ SLASH :: n.
Proof. unfold render; destruct (cs ++ [n]) eqn:E; [by destruct cs |]; by rewrite <- E, slashed_snoc. Qed.

Lemma existsb_slash n : existsb (fun c => c =? SLASH) n = bool_decide (SLASH ∈ n).
Proof.
  apply eq_true_iff_eq; rewrite existsb_exists, bool_decide_eq_true; split.
  - intros (c & Hc & ->%Z.eqb_eq); by apply list_elem_of_In.
  - intros Hn; exists SLASH; split; [by apply list_elem_of_In | apply Z.eqb_refl].
Qed.

(** The path of a child is that of its directory with one more name. *)
Lemma child_path_names cs name child :
  Forall VfsPath.plain cs -> is_cstr name -> child_path (render cs) name = Some child ->
  VfsPath.plain name /\ child = render (cs ++ [name]) /\ zlen child < OBJ_FILE_PATH_MAX.
Proof.
  intros Hcs Hn; unfold child_path; destruct lit_cstr_dots as [D1 D2].
  destruct (_ || _) eqn:Eb; [done |]; rewrite !orb_false_iff, existsb_slash, !bool_decide_eq_false in Eb.
  destruct Eb as [[[E1 E2] E3] E4]; intros H.
  assert (Hp : VfsPath.plain name).
  { split; [done |]; split; [done |]; split; [done |]; split; intros ->; rewrite strcmp_refl in *; done. }
  match type of H with (if ?a <=? ?b then _ else _) = _ => destruct (Z.leb_spec a b) as [| Hlen]; [done |] end.
  injection H as <-; split; [done |]; rewrite render_snoc; destruct cs as [| c cs].
  - simpl in *; split; [done |]; unfold strlen, zlen in *; simpl in *; lia.
  - change (render (c :: cs)) with (slashed (c :: cs)) in *.
    assert (Hl : (strlen (slashed (c :: cs)) =? 1) = false).
    { inversion Hcs as [| ? ? (_ & _ & Hc & _)]; destruct c as [| ch c]; [done |]; apply Z.eqb_neq.
      unfold strlen, slashed, zlen; simpl; lia. }
    rewrite Hl in *; cbn [andb] in *; split; [done |]; unfold strlen, zlen in *; rewrite ?length_app in *; simpl in *; lia.
Qed.

Section confined.
Context {W : Type} (window_by_pid : Z -> Z) (compositor_ctl : Z -> Z -> W -> W * Z).

(** The filesystem is as before. *)
Definition same_files (k k' : kernel W) : Prop := fsw k' = fsw k /\ world k' = world k.

Lemma pin_done m cur handle need m' o :
  pin_handle m cur handle need = (m', inr o) ->
  exists h, handle_at m cur (Z.to_nat handle) = Some h /\ h_obj h = o /\ Z.land (h_rights h) need = need /\
    m' = upd_obj m o (with_ref (fun n => n + 1)).
Proof.
  unfold pin_handle; destruct (table_of m cur); [| done]; destruct (handle_index handle) as [i |] eqn:Ei; [| done].
  unfold handle_index in Ei; destruct (_ || _); [done |]; injection Ei as <-.
  destruct (handle_at m cur (Z.to_nat handle)) as [h |]; [| done].
  destruct (Z.eqb_spec (Z.land (h_rights h) need) need); simpl; [| done]; intros [= <- <-]; by exists h.
Qed.

(** One of the two commands, on the pinned object. *)
Definition mutation (cmd : Z) (v : vfs W) (w : W) (child : str) : option (vfs W * W * Z) :=
  if cmd =? OBJ_CTL_MKDIR then vfs_create v w child VFS_TYPE_DIR else vfs_unlink v w child.

Lemma ctl_mutate_done k k' o cmd b name ret :
  ctl_mutate o cmd b name k = Done k' ret ->
  (same_files k k' /\ ret < 0) \/
  exists x nm child, objs (om k) !! o = Some x /\ ktype x = OBJ_TYPE_FILE /\ n_type (knode x) = VFS_TYPE_DIR /\ name = Some nm /\
    child_path (kpath x) nm = Some child /\ mutation cmd (fsw k) (world k) child = Some (fsw k', world k', ret).
Proof.
  unfold ctl_mutate, object; intros (k1 & x & H1 & H)%bind_done; destruct (objs (om k) !! o) as [y |] eqn:Ho; [| done]; simplify_eq.
  assert (Herr : forall e, e < 0 -> mret (M := sys (W := W)) e k1 = Done k' ret -> same_files k1 k' /\ ret < 0).
  { intros e He [-> ->]%ret_done; by split. }
  destruct (Z.eqb_spec (ktype x) OBJ_TYPE_FILE); simpl in H; [| left; by apply (Herr (- ENOTDIR))].
  destruct (Z.eqb_spec (n_type (knode x)) VFS_TYPE_DIR); simpl in H; [| left; by apply (Herr (- ENOTDIR))].
  destruct b; [left; by apply (Herr (- EFAULT)) |]; destruct name as [nm |]; [| left; by apply (Herr (- EFAULT))].
  destruct (child_path (kpath x) nm) as [child |] eqn:Ec; [| left; by apply (Herr (- EINVAL))].
  right; exists x, nm, child; repeat (split; [done |]); unfold mutation.
  destruct (cmd =? OBJ_CTL_MKDIR); by apply files_done in H as (_ & _ & H).
Qed.

(** C17: a directory handle reaches one name below its directory.  Whatever name
    a process passes, making or removing a directory entry through a handle on
    the directory of names [cs] fails leaving the filesystem alone, or the
    handle has the right to mutate and the filesystem did that one operation on
    the path of [cs] with one more plain name, shorter than the longest path;
    and whoever may write [cs] may write that path, but for the three names the
    policy closes below directories open to root. *)
Theorem directory_handle_confined cur handle cmd arg name k k' ret :
  cmd = OBJ_CTL_MKDIR \/ cmd = OBJ_CTL_UNLINK ->
  (forall o x, objs (om k) !! o = Some x -> ktype x = OBJ_TYPE_FILE -> exists cs, Forall VfsPath.plain cs /\ kpath x = render cs) ->
  (forall nm, name = Some nm -> is_cstr nm) ->
  sys_object_ctl window_by_pid compositor_ctl cur handle cmd arg name k = Done k' ret ->
  (same_files k k' /\ ret < 0) \/
  exists h x cs nm, handle_at (om k) cur (Z.to_nat handle) = Some h /\ objs (om k) !! h_obj h = Some x /\
    Z.land (h_rights h) OS1_RIGHT_MUTATE = OS1_RIGHT_MUTATE /\ kpath x = render cs /\ n_type (knode x) = VFS_TYPE_DIR /\
    name = Some nm /\ VfsPath.plain nm /\ zlen (render (cs ++ [nm])) < OBJ_FILE_PATH_MAX /\
    mutation cmd (fsw k) (world k) (render (cs ++ [nm])) = Some (fsw k', world k', ret) /\
    forall p, vfs_write_allowed p (kpath x) = 0 -> vfs_write_allowed p (render (cs ++ [nm])) = 0 \/ cs ++ [nm] ∈ closed_names.
Proof.
  intros Hcmd Hpaths Hname H; assert (Hc : pinned_call cur handle OS1_RIGHT_MUTATE id (fun o => ctl_mutate o cmd (arg =? 0) name) k = Done k' ret).
  { by destruct Hcmd as [-> | ->]. }
  clear H; unfold pinned_call in Hc; apply bind_done in Hc as (k1 & r & H1 & H); apply objects_done in H1 as (Eo & -> & _ & Ef & Ew).
  destruct (pin_handle (om k) cur handle OS1_RIGHT_MUTATE) as [m' [err | o]] eqn:Ep; simpl in *.
  - apply ret_done in H as [-> ->]; left; split; [by split |].
    unfold pin_handle in Ep; repeat case_match; simplify_eq; unfold id, EBADF, EPERM; lia.
  - apply bind_done in H as (k2 & r2 & H2 & H); apply bind_done in H as (k3 & [] & H3 & H).
    apply objects_done in H3 as (_ & _ & _ & Ef3 & Ew3); apply ret_done in H as [-> ->].
    destruct (pin_done _ _ _ _ _ _ Ep) as (h & Hh & <- & Hr & ->); rewrite <- Ef, <- Ew, Ef3, Ew3; unfold same_files.
    apply ctl_mutate_done in H2 as [[[A1 A2] Hret] | (x & nm & child & Hx & Ht & Hn & -> & Hchild & Hm)]; [left; split; [split; congruence | done] |].
    right; rewrite Eo, objs_upd, decide_True in Hx by done; destruct (objs (om k) !! h_obj h) as [y |] eqn:Hy; [| done]; simplify_eq/=.
    destruct (Hpaths _ _ Hy Ht) as (cs & Hcs & Ey); rewrite Ey in Hchild.
    destruct (child_path_names _ _ _ Hcs (Hname _ eq_refl) Hchild) as (Hp & -> & Hl).
    exists h, y, cs, nm; repeat (split; [done |]); intros p; rewrite Ey, !write_allowed_policy; [apply policy_child | by apply Forall_app_2; [| constructor] | done].
Qed.
End confined.

(** ** The theorem at work *)

Lemma open_sys_path o x : objs (om (after open_sys (small_kernel (at_level PLVL_ROOT 0)))) !! o = Some x -> kpath x = render [lit "sys"].
Proof.
  change (objs (om (after open_sys (small_kernel (at_level PLVL_ROOT 0))))) with (<[1 := with_ref (fun _ => 1) (fresh_file (tree_node 0 1 (lit "/sys", (VFS_TYPE_DIR, []))) (lit "/sys"))]> (∅ : gmap Z kobject)).
  destruct (decide (o = 1)) as [-> | Hne]; [rewrite lookup_insert_eq; by intros [= <-] | by rewrite lookup_insert_ne].
Qed.

(** The policy gives root "/sys" and keeps "/sys/bin" from him, and the
    handle on the first makes and removes the second. *)
Lemma directory_handle_confined_witness :
  let k := after open_sys (small_kernel (at_level PLVL_ROOT 0)) in
  let r := run_ctl 0 OBJ_CTL_MKDIR 1 (lit "bin") k in
  answer r = Some 0 /\ tree_find (lit "/sys/bin") (world (after r k)) <> None /\
  vfs_write_allowed (Some (at_level PLVL_ROOT 0)) (lit "/sys/bin") = - EACCES /\
  exists cs nm, cs ++ [nm] ∈ closed_names /\ mutation OBJ_CTL_MKDIR (fsw k) (world k) (render (cs ++ [nm])) = Some (fsw (after r k), world (after r k), 0).
Proof.
  intros k r; split; [by vm_compute |]; split; [by vm_compute |]; split; [by vm_compute |].
  destruct (directory_handle_confined (W := tree) (fun _ => -1) (fun _ _ w => (w, 0)) 0 0 OBJ_CTL_MKDIR 1 (Some (lit "bin")) k (after r k) 0)
    as [[_ H] | (h & x & cs & nm & _ & Hx & _ & Ep & _ & [= <-] & _ & _ & Hm & Hp)].
  - by left.
  - intros o x Hx _; exists [lit "sys"]; split; [by refine (bool_decide_eq_true_1 _ _) | by eapply open_sys_path].
  - intros nm [= <-]; by refine (bool_decide_eq_true_1 _ _).
  - by vm_compute.
  - lia.
  - exists cs, (lit "bin"); split; [| exact Hm].
    rewrite (open_sys_path _ _ Hx) in Ep, Hp; destruct (Hp (Some (at_level PLVL_ROOT 0))) as [H | H]; [by vm_compute | | done].
    assert (E : slashed cs = lit "/sys") by (destruct cs; [done | exact (eq_sym Ep)]).
    rewrite render_snoc, E in H; by vm_compute in H.
Defined.
