(* ===== verification/Paging.v ===== *)
(** * Page tables (kernel/arch/amd64/mm/mmu.c, kernel/mm/vmm.c)

    The four levels of x86-64 tables in physical memory, the walks over them,
    mapping, unmapping, protection, the address spaces of processes, and the
    generic layer above.  A pointer to a table is the table's physical address:
    the kernel reaches it through the direct map.  The page allocator is any
    instance of [PageAlloc]. *)
From Stdlib Require Import ZArith Lia.
From stdpp Require Import base numbers list gmap.
From S2P Require Import Prelude Pmm Kmalloc.

#[local] Existing Instance amd64.

(** ** Entries *)

Definition X86_PTE_P : Z := 0x001.
Definition X86_PTE_RW : Z := 0x002.
Definition X86_PTE_US : Z := 0x004.
Definition X86_PTE_PWT : Z := 0x008.
Definition X86_PTE_PCD : Z := 0x010.
Definition X86_PTE_PS : Z := 0x080.
Definition X86_PTE_NX : Z := 2 ^ 63.
Definition PTE_ADDR_MASK : Z := 0x000FFFFFFFFFF000.

(** The flags of the generic layer (amd64 profile). *)
Definition PTE_VALID : Z := 1.
Definition PTE_RW : Z := 2.
Definition PTE_USER : Z := 4.
Definition PTE_PWT : Z := 8.
Definition PTE_PCD : Z := 16.
Definition PTE_NX : Z := 2 ^ 63.
Definition PTE_UXN : Z := 2 ^ 54.
Definition PTE_PXN : Z := 2 ^ 53.
Definition PAGE_KERNEL : Z := Z.lor PTE_VALID (Z.lor PTE_RW PTE_NX).
Definition PAGE_KERNEL_RX : Z := PTE_VALID.
Definition PAGE_KERNEL_RO : Z := Z.lor PTE_VALID PTE_NX.
Definition PAGE_DEVICE : Z := Z.lor PTE_VALID (Z.lor PTE_RW (Z.lor PTE_PCD (Z.lor PTE_PWT PTE_NX))).
Definition PAGE_USER : Z := Z.lor PTE_VALID (Z.lor PTE_RW PTE_USER).
Definition PAGE_USER_DATA : Z := Z.lor PAGE_USER PTE_NX.
Definition PAGE_USER_RX : Z := Z.lor PTE_VALID PTE_USER.
Definition PAGE_USER_RO : Z := Z.lor PTE_VALID (Z.lor PTE_USER PTE_NX).

Definition has (e bits : Z) : bool := negb (Z.land e bits =? 0).
Definition present (e : Z) : bool := has e X86_PTE_P.
Definition large (e : Z) : bool := has e X86_PTE_PS.
Definition pte_addr (e : Z) : Z := Z.land e PTE_ADDR_MASK.
Definition pte_flags (e : Z) : Z := Z.land e (not64 PTE_ADDR_MASK).

Definition PML4_INDEX (a : Z) : Z := Z.land (Z.shiftr a 39) 0x1FF.
Definition PDPT_INDEX (a : Z) : Z := Z.land (Z.shiftr a 30) 0x1FF.
Definition PD_INDEX (a : Z) : Z := Z.land (Z.shiftr a 21) 0x1FF.
Definition PT_INDEX (a : Z) : Z := Z.land (Z.shiftr a 12) 0x1FF.

Definition x86_leaf_flags (flags : Z) : Z :=
  let x := X86_PTE_P in
  let x := if has flags PTE_USER then Z.lor x X86_PTE_US else x in
  let x := if has flags PTE_RW then Z.lor x X86_PTE_RW else x in
  let x := if has flags PTE_PWT then Z.lor x X86_PTE_PWT else x in
  let x := if has flags PTE_PCD then Z.lor x X86_PTE_PCD else x in
  if has flags PTE_NX || (has flags PTE_UXN && has flags PTE_PXN) then Z.lor x X86_PTE_NX else x.

(** ** State *)

(** What the TLBs were told, oldest first. *)
Inductive tlb_event := Invlpg (va : Z) | FlushAll | ShootVa (va : Z) | ShootAll | LoadCr3 (pgd : Z).

Record mmu {P : Type} := {
  ram : gmap Z Z;       (* the words of memory written so far, by physical address *)
  pool : P;
  cr3 : Z;
  kernel_pgd : Z;
  tlb : list tlb_event
}.
Arguments mmu : clear implicits.

Section paging.
Context {P : Type} `{PageAlloc P}.
(** What a word of memory holds before anything is written to it. *)
Context (ram0 : Z -> Z).
Implicit Types (s : mmu P).

Definition with_ram s (m : gmap Z Z) : mmu P :=
  {| ram := m; pool := pool s; cr3 := cr3 s; kernel_pgd := kernel_pgd s; tlb := tlb s |}.
Definition with_pool s (p : P) : mmu P :=
  {| ram := ram s; pool := p; cr3 := cr3 s; kernel_pgd := kernel_pgd s; tlb := tlb s |}.
Definition with_kernel_pgd s (pgd : Z) : mmu P :=
  {| ram := ram s; pool := pool s; cr3 := cr3 s; kernel_pgd := pgd; tlb := tlb s |}.
Definition log_tlb s (e : tlb_event) : mmu P :=
  {| ram := ram s; pool := pool s; cr3 := cr3 s; kernel_pgd := kernel_pgd s; tlb := tlb s ++ [e] |}.
Definition load_cr3 s (pgd : Z) : mmu P :=
  {| ram := ram s; pool := pool s; cr3 := pgd; kernel_pgd := kernel_pgd s; tlb := tlb s ++ [LoadCr3 pgd] |}.

Definition word (m : gmap Z Z) (a : Z) : Z := default (ram0 a) (m !! a).

(** Entry [i] of the table at [t]. *)
Definition slot_addr (t i : Z) : Z := t + 8 * i.
Definition entry s (t i : Z) : Z := word (ram s) (slot_addr t i).
Definition set_entry s (t i e : Z) : mmu P := with_ram s (<[slot_addr t i := e]> (ram s)).

(** All entries of a table, the [i]th to [f i]. *)
Definition fill s (t : Z) (f : Z -> Z) : mmu P := foldl (fun s i => set_entry s t i (f i)) s (seqZ 0 512).

(** A new, zeroed table. *)
Definition new_table s : mmu P * option Z :=
  let '(p, page) := pa_alloc 1 (pool s) in
  let s := with_pool s p in
  if page =? 0 then (s, None) else (fill s (virt_to_phys page) (fun _ => 0), Some (virt_to_phys page)).

(** ** Walking: [get_next_table] of mmu.c *)

Definition table_entry (t : Z) : Z := Z.lor t (Z.lor X86_PTE_P (Z.lor X86_PTE_RW X86_PTE_US)).

(** The entries a block of level [level] is split into. *)
Definition split_entry (e level i : Z) : Z :=
  if level =? 1 then Z.lor (u64 (pte_addr e + i * 0x200000)) (pte_flags e)
  else if level =? 2 then Z.lor (u64 (pte_addr e + i * 4096)) (Z.land (pte_flags e) (not64 X86_PTE_PS))
  else 0.

Definition get_next_table s (table index : Z) (alloc : bool) (level : Z) : mmu P * option Z :=
  let e := entry s table index in
  if present e then
    if large e then
      if negb alloc then (s, None)
      else
        match new_table s with
        | (s, None) => (s, None)
        | (s, Some t) => (set_entry (fill s t (split_entry e level)) table index (table_entry t), Some t)
        end
    else (s, Some (pte_addr e))
  else if negb alloc then (s, None)
  else
    match new_table s with
    | (s, None) => (s, None)
    | (s, Some t) => (set_entry s table index (table_entry t), Some t)
    end.

(** ** Single pages *)

Definition arch_vmm_map s (pgd va pa flags : Z) : mmu P * Z :=
  match get_next_table s pgd (PML4_INDEX va) true 0 with
  | (s, None) => (s, -1)
  | (s, Some pdpt) =>
    match get_next_table s pdpt (PDPT_INDEX va) true 1 with
    | (s, None) => (s, -1)
    | (s, Some pd) =>
      match get_next_table s pd (PD_INDEX va) true 2 with
      | (s, None) => (s, -1)
      | (s, Some pt) =>
        let s := set_entry s pt (PT_INDEX va) (Z.lor (pte_addr pa) (x86_leaf_flags flags)) in
        (if pte_addr pgd =? pte_addr (cr3 s) then log_tlb s (Invlpg va) else s, 0)
      end
    end
  end.

(** The walk looks at the present bit only. *)
Definition arch_vmm_unmap s (pgd va : Z) : mmu P * Z :=
  let e4 := entry s pgd (PML4_INDEX va) in
  if negb (present e4) then (s, 0)
  else
    let e3 := entry s (pte_addr e4) (PDPT_INDEX va) in
    if negb (present e3) then (s, 0)
    else
      let e2 := entry s (pte_addr e3) (PD_INDEX va) in
      if negb (present e2) then (s, 0)
      else (log_tlb (set_entry s (pte_addr e2) (PT_INDEX va) 0) (ShootVa va), 0).

Definition arch_vmm_get_physical s (pgd va : Z) : Z :=
  let e4 := entry s pgd (PML4_INDEX va) in
  if negb (present e4) then 0
  else
    let e3 := entry s (pte_addr e4) (PDPT_INDEX va) in
    if negb (present e3) then 0
    else if large e3 then Z.lor (Z.land (pte_addr e3) (not64 0x3FFFFFFF)) (Z.land va 0x3FFFFFFF)
    else
      let e2 := entry s (pte_addr e3) (PD_INDEX va) in
      if negb (present e2) then 0
      else if large e2 then Z.lor (Z.land (pte_addr e2) (not64 0x1FFFFF)) (Z.land va 0x1FFFFF)
      else
        let e1 := entry s (pte_addr e2) (PT_INDEX va) in
        if negb (present e1) then 0 else Z.lor (pte_addr e1) (Z.land va 0xFFF).

(** ** Ranges *)

(** The rounding of a range to pages. *)
Definition page_down (a : Z) : Z := Z.land a (not64 0xFFF).
Definition page_end (va size : Z) : Z := page_down (u64 (u64 (va + size) + 0xFFF)).

(** The table behind an entry of level [level], a block split on the way. *)
Definition descend s (table index level : Z) : mmu P * option Z :=
  let e := entry s table index in
  if negb (present e) then (s, None)
  else if large e then get_next_table s table index true level
  else (s, Some (pte_addr e)).

(** One page of [arch_vmm_protect]; [None] leaves the loop. *)
Definition protect_page s (pgd v x86_flags : Z) : mmu P * bool :=
  let e4 := entry s pgd (PML4_INDEX v) in
  if negb (present e4) then (s, false)
  else
    match descend s (pte_addr e4) (PDPT_INDEX v) 1 with
    | (s, None) => (s, false)
    | (s, Some pd) =>
      match descend s pd (PD_INDEX v) 2 with
      | (s, None) => (s, false)
      | (s, Some pt) =>
        let e := entry s pt (PT_INDEX v) in
        if negb (present e) then (s, false)
        else (set_entry s pt (PT_INDEX v) (Z.lor (pte_addr e) x86_flags), true)
      end
    end.

(** The loops over the pages of [[v, e)]: [fuel] is the number of pages. *)
Fixpoint protect_loop (fuel : nat) s (pgd v e x86_flags : Z) : mmu P * Z :=
  match fuel with
  | O => (s, 0)
  | S fuel =>
    if negb (v <? e) then (s, 0)
    else
      match protect_page s pgd v x86_flags with
      | (s, false) => (s, -1)
      | (s, true) => protect_loop fuel s pgd (u64 (v + 4096)) e x86_flags
      end
  end.

Definition pages (v e : Z) : nat := Z.to_nat ((e - v) / 4096).

Definition arch_vmm_protect s (pgd va size flags : Z) : mmu P * Z :=
  let v := page_down va in
  let e := page_end va size in
  let '(s, rc) := protect_loop (pages v e) s pgd v e (x86_leaf_flags flags) in
  (log_tlb s ShootAll, rc).

Definition LARGE_PAGE : Z := 0x200000.

(** One round of [arch_vmm_map_range]: the bytes mapped, or failure. *)
Definition map_chunk s (pgd v p remaining flags : Z) : mmu P * option Z :=
  if (Z.land v 0x1FFFFF =? 0) && (Z.land p 0x1FFFFF =? 0) && (LARGE_PAGE <=? remaining) then
    match get_next_table s pgd (PML4_INDEX v) true 0 with
    | (s, None) => (s, None)
    | (s, Some pdpt) =>
      match get_next_table s pdpt (PDPT_INDEX v) true 1 with
      | (s, None) => (s, None)
      | (s, Some pd) =>
        (set_entry s pd (PD_INDEX v) (Z.lor (pte_addr p) (Z.lor (x86_leaf_flags flags) X86_PTE_PS)), Some LARGE_PAGE)
      end
    end
  else
    match arch_vmm_map s pgd v p flags with
    | (s, rc) => (s, if rc =? 0 then Some 4096 else None)
    end.

Fixpoint map_range_loop (fuel : nat) s (pgd v p e flags : Z) : mmu P * option Z :=
  match fuel with
  | O => (s, None)
  | S fuel =>
    if negb (v <? e) then (s, Some 0)
    else
      match map_chunk s pgd v p (u64 (e - v)) flags with
      | (s, None) => (s, Some (-1))
      | (s, Some n) => map_range_loop fuel s pgd (u64 (v + n)) (u64 (p + n)) e flags
      end
  end.

(** [None]: the loop has not ended within a round per page. *)
Definition arch_vmm_map_range s (pgd va pa size flags : Z) : mmu P * option Z :=
  let e := u64 (va + size) in
  match map_range_loop (S (Z.to_nat ((e - va) / 4096 + 1))) s pgd va pa e flags with
  | (s, Some 0) => (log_tlb s FlushAll, Some 0)
  | (s, rc) => (s, rc)
  end.

Definition ENOMEM : Z := 12.

Fixpoint map_device_loop (fuel : nat) s (a e : Z) : mmu P * Z :=
  match fuel with
  | O => (s, 0)
  | S fuel =>
    if negb (a <? e) then (s, 0)
    else
      match arch_vmm_map s (kernel_pgd s) (phys_to_virt a) a PAGE_DEVICE with
      | (s, rc) => if negb (rc =? 0) then (s, - ENOMEM) else map_device_loop fuel s (u64 (a + 4096)) e
      end
  end.

Definition arch_vmm_map_device s (base size : Z) : mmu P * Z :=
  if (base =? 0) || (size =? 0) then (s, -1)
  else
    let a := page_down base in
    let e := page_end base size in
    let '(s, rc) := map_device_loop (pages a e) s a e in
    (log_tlb s FlushAll, rc).

(** ** Address spaces *)

(** The physical address of the new table, 0 if there is no page. *)
Definition arch_vmm_create_process_pgd s : mmu P * Z :=
  match new_table s with
  | (s, None) => (s, 0)
  | (s, Some pml4) =>
    (foldl (fun s i => set_entry s pml4 i (entry s (kernel_pgd s) i)) s (seqZ 256 256), pml4)
  end.

(** ** The generic layer (vmm.c) *)

Definition VMM_ADDR_MASK : Z := 0x0000FFFFFFFFF000.
Definition vmm_addr (e : Z) : Z := Z.land e VMM_ADDR_MASK.

(** [get_next_table] of vmm.c with [alloc] 0: a block is not told from a table. *)
Definition vmm_next_table s (table index : Z) : option Z :=
  if has (entry s table index) PTE_VALID then Some (vmm_addr (entry s table index)) else None.

Definition vmm_map_page s (pgd virt phys flags : Z) : mmu P * Z :=
  if has virt 0xFFF || has phys 0xFFF then (s, -1) else arch_vmm_map s pgd virt phys flags.

(** One page of [vmm_check_range]. *)
Definition check_page s (pgd v flags_mask : Z) : bool :=
  match vmm_next_table s pgd (PML4_INDEX v) with
  | None => false
  | Some pud =>
    match vmm_next_table s pud (PDPT_INDEX v) with
    | None => false
    | Some pmd =>
      match vmm_next_table s pmd (PD_INDEX v) with
      | None => false
      | Some pt =>
        let e := entry s pt (PT_INDEX v) in
        has e PTE_VALID && ((flags_mask =? 0) || (Z.land e flags_mask =? flags_mask))
      end
    end
  end.

Fixpoint check_loop (fuel : nat) s (pgd v e flags_mask : Z) : Z :=
  match fuel with
  | O => 0
  | S fuel =>
    if negb (v <? e) then 0
    else if negb (check_page s pgd v flags_mask) then -1 else check_loop fuel s pgd (u64 (v + 4096)) e flags_mask
  end.

Definition vmm_check_range s (pgd virt size flags_mask : Z) : Z :=
  let v := page_down virt in
  let e := page_end virt size in
  check_loop (pages v e) s pgd v e flags_mask.

Definition vmm_get_phys s (pgd virt : Z) : Z := arch_vmm_get_physical s pgd virt.

Definition vmm_unmap_page s (pgd virt : Z) : outcome (mmu P) :=
  let '(s, rc) := arch_vmm_unmap s pgd virt in if negb (rc =? 0) then Panic else Ret s.

Definition vmm_protect s (pgd virt size flags : Z) : mmu P * Z := arch_vmm_protect s pgd virt size flags.

Fixpoint vmm_map_loop (fuel : nat) s (pgd v p e flags : Z) : mmu P * Z :=
  match fuel with
  | O => (s, 0)
  | S fuel =>
    if negb (v <? e) then (s, 0)
    else
      match vmm_map_page s pgd v p flags with
      | (s, rc) => if negb (rc =? 0) then (s, -1) else vmm_map_loop fuel s pgd (u64 (v + 4096)) (u64 (p + 4096)) e flags
      end
  end.

Definition vmm_map s (pgd virt phys size flags : Z) : mmu P * Z :=
  let v := page_down virt in
  let e := page_end virt size in
  vmm_map_loop (pages v e) s pgd v (page_down phys) e flags.

Definition vmm_create_pgd s : mmu P * Z := arch_vmm_create_process_pgd s.

(** ** Teardown *)

(** Free the page at a physical address. *)
Definition free_frame (o : outcome (mmu P)) (phys : Z) : outcome (mmu P) :=
  match o with
  | Ret s => match pa_free (phys_to_virt phys) 1 (pool s) with Ret p => Ret (with_pool s p) | Panic => Panic end
  | Panic => Panic
  end.

Definition obind_mmu (o : outcome (mmu P)) (f : mmu P -> outcome (mmu P)) : outcome (mmu P) :=
  match o with Ret s => f s | Panic => Panic end.

(** The user frames of a page table, then the table. *)
Definition destroy_pt (o : outcome (mmu P)) (pt : Z) : outcome (mmu P) :=
  let o := foldl (fun o k => obind_mmu o (fun s =>
    let pte := entry s pt k in
    if has pte PTE_VALID && has pte PTE_USER then free_frame o (vmm_addr pte) else o)) o (seqZ 0 512) in
  free_frame o pt.

(** [k]: the kernel's table at the same place, if there is one. *)
Definition shared s (k : option Z) (e i : Z) : bool :=
  match k with Some t => e =? entry s t i | None => false end.

Definition destroy_pmd (o : outcome (mmu P)) (pmd : Z) (k_pmd : option Z) : outcome (mmu P) :=
  let o := foldl (fun o j => obind_mmu o (fun s =>
    let e := entry s pmd j in
    if negb (has e PTE_VALID) || shared s k_pmd e j || large e then o else destroy_pt o (vmm_addr e))) o (seqZ 0 512) in
  free_frame o pmd.

Definition kernel_table s (k : option Z) (i : Z) : option Z :=
  match k with
  | Some t => let e := entry s t i in if has e PTE_VALID && negb (large e) then Some (vmm_addr e) else None
  | None => None
  end.

Definition destroy_pud (o : outcome (mmu P)) (pud : Z) (k_pud : option Z) : outcome (mmu P) :=
  let o := foldl (fun o i => obind_mmu o (fun s =>
    let e := entry s pud i in
    if negb (has e PTE_VALID) || shared s k_pud e i || large e then o else destroy_pmd o (vmm_addr e) (kernel_table s k_pud i)))
    o (seqZ 0 512) in
  free_frame o pud.

(** [pgd] 0 stands for a null pointer. *)
Definition vmm_destroy_pgd s (pgd : Z) : outcome (mmu P) :=
  if pgd =? 0 then Ret s
  else
    let s := log_tlb s ShootAll in
    let first t := let e := entry s t 0 in if has e PTE_VALID then Some (vmm_addr e) else None in
    let k_pud0 := first (kernel_pgd s) in
    let o := match first pgd with
             | Some pud0 => if bool_decide (Some pud0 = k_pud0) then Ret s else destroy_pud (Ret s) pud0 k_pud0
             | None => Ret s
             end in
    free_frame o pgd.

End paging.
