(* ===== verification/PagingProofs.v ===== *)
(** * The tree of page tables

    What the walks of a page-table tree see, the invariant that makes the tables
    reachable from a root a tree, and what a step of a walk keeps. *)
From Stdlib Require Import ZArith Lia.
From stdpp Require Import base numbers list gmap.
From S2P Require Import Prelude Pmm Kmalloc Paging.

#[local] Existing Instance amd64.

(** ** Addresses and flags *)

Definition is_addr (a : Z) : Prop := Z.land a PTE_ADDR_MASK = a.
Definition is_flags (f : Z) : Prop := Z.land f (not64 PTE_ADDR_MASK) = f.
Definition is_index (i : Z) : Prop := 0 <= i < 512.

Lemma mask_split : Z.land PTE_ADDR_MASK (not64 PTE_ADDR_MASK) = 0.
Proof. reflexivity. Qed.

Lemma pte_addr_is_addr e : is_addr (pte_addr e).
Proof. unfold is_addr, pte_addr; by rewrite <- Z.land_assoc, Z.land_diag. Qed.

Lemma pte_flags_is_flags e : is_flags (pte_flags e).
Proof. unfold is_flags, pte_flags; by rewrite <- Z.land_assoc, Z.land_diag. Qed.

Lemma addr_no_flags a : is_addr a -> pte_flags a = 0.
Proof. unfold is_addr, pte_flags; intros <-; by rewrite <- Z.land_assoc, mask_split, Z.land_0_r. Qed.

Lemma flags_no_addr f : is_flags f -> pte_addr f = 0.
Proof. unfold is_flags, pte_addr; intros <-; by rewrite <- Z.land_assoc, (Z.land_comm (not64 _)), mask_split, Z.land_0_r. Qed.

Lemma pte_addr_lor a f : is_addr a -> is_flags f -> pte_addr (Z.lor a f) = a.
Proof.
  intros Ha Hf; pose proof (flags_no_addr f Hf) as E; unfold pte_addr in *.
  by rewrite Z.land_lor_distr_l, E, Z.lor_0_r.
Qed.

Lemma pte_flags_lor a f : is_addr a -> is_flags f -> pte_flags (Z.lor a f) = f.
Proof.
  intros Ha Hf; pose proof (addr_no_flags a Ha) as E; unfold pte_flags in *.
  by rewrite Z.land_lor_distr_l, E, Z.lor_0_l.
Qed.

(** A test of flag bits looks at the flags. *)
Lemma has_flags e b : is_flags b -> has e b = has (pte_flags e) b.
Proof.
  intros Hb; unfold has, pte_flags; do 2 f_equal.
  by rewrite <- Z.land_assoc, (Z.land_comm (not64 _)), Hb.
Qed.

Lemma present_flags e : present e = has (pte_flags e) X86_PTE_P.
Proof. by apply has_flags. Qed.
Lemma large_flags e : large e = has (pte_flags e) X86_PTE_PS.
Proof. by apply has_flags. Qed.

Lemma land_flags f m : is_flags f -> is_flags (Z.land f m).
Proof. unfold is_flags; intros Hf; by rewrite <- Z.land_assoc, (Z.land_comm m), Z.land_assoc, Hf. Qed.

Lemma addr_mask_testbit i : Z.testbit PTE_ADDR_MASK i = (12 <=? i) && (i <? 52).
Proof.
  destruct (Z_lt_le_dec i 0) as [| Hi]; [rewrite Z.testbit_neg_r by lia; by destruct (Z.leb_spec 12 i); [lia |] |].
  change PTE_ADDR_MASK with (Z.shiftl (Z.ones 40) 12); rewrite Z.shiftl_spec by lia.
  destruct (Z_lt_le_dec i 12); [rewrite Z.testbit_neg_r by lia; by destruct (Z.leb_spec 12 i); [lia |] |].
  rewrite Z.testbit_ones by lia; destruct (Z.leb_spec 0 (i - 12)), (Z.ltb_spec (i - 12) 40), (Z.leb_spec 12 i), (Z.ltb_spec i 52); simpl; lia || done.
Qed.

Lemma is_addr_iff a : is_addr a <-> 0 <= a < 2 ^ 52 /\ a mod 4096 = 0.
Proof.
  unfold is_addr; split.
  - intros E; assert (Hn : 0 <= a) by (rewrite <- E; apply Z.land_nonneg; right; done).
    split; [split; [done |] |].
    + apply bits_below; [lia | done |]; intros i Hi; rewrite <- E, Z.land_spec, addr_mask_testbit.
      destruct (Z.ltb_spec i 52); [lia |]; by rewrite andb_false_r, andb_false_r.
    + change 4096 with (2 ^ 12); apply Z.bits_inj'; intros i Hi; rewrite Z.bits_0; destruct (Z_lt_le_dec i 12).
      * rewrite Z.mod_pow2_bits_low, <- E, Z.land_spec, addr_mask_testbit by lia.
        destruct (Z.leb_spec 12 i); [lia |]; by rewrite andb_false_r.
      * by rewrite Z.mod_pow2_bits_high by lia.
  - intros [Hb Hm]; apply Z.bits_inj'; intros i Hi; rewrite Z.land_spec, addr_mask_testbit.
    destruct (Z.leb_spec 12 i); simpl.
    + destruct (Z.ltb_spec i 52); [by rewrite andb_true_r |].
      by rewrite andb_false_r, (testbit_above a 52) by lia.
    + rewrite andb_false_r; symmetry; rewrite <- (Z.mod_pow2_bits_low a 12) by lia.
      change (2 ^ 12) with 4096; by rewrite Hm, Z.bits_0.
Qed.

Lemma leaf_flags_ok f : is_flags (x86_leaf_flags f).
Proof. unfold x86_leaf_flags; repeat case_match; reflexivity. Qed.

Lemma leaf_present f : has (x86_leaf_flags f) X86_PTE_P = true.
Proof. unfold x86_leaf_flags; repeat case_match; reflexivity. Qed.

Lemma table_entry_ok t : is_addr t -> present (table_entry t) = true /\ large (table_entry t) = false /\ pte_addr (table_entry t) = t.
Proof.
  intros Ht; rewrite present_flags, large_flags; unfold table_entry.
  rewrite pte_addr_lor, pte_flags_lor by done; by repeat split.
Qed.

Lemma index_range a k : is_index (Z.land (Z.shiftr a k) 0x1FF).
Proof. change 0x1FF with (Z.ones 9); rewrite Z.land_ones by lia; unfold is_index; apply Z.mod_pos_bound; lia. Qed.

(** ** Entries after writes *)

Section entries.
Context {P : Type} `{PageAlloc P} (ram0 : Z -> Z).
Implicit Types (s : mmu P).
#[local] Abbreviation entry := (entry ram0).

Lemma slot_addr_inj t i t' i' :
  is_addr t -> is_addr t' -> is_index i -> is_index i' -> slot_addr t i = slot_addr t' i' -> t = t' /\ i = i'.
Proof.
  rewrite !is_addr_iff; unfold is_index, slot_addr; intros [_ H1] [_ H2] Hi Hi' E.
  pose proof (Z.div_mod t 4096 ltac:(lia)); pose proof (Z.div_mod t' 4096 ltac:(lia)); assert (t / 4096 = t' / 4096) by lia; lia.
Qed.

Lemma entry_set s t i e t' i' :
  is_addr t -> is_addr t' -> is_index i -> is_index i' ->
  entry (set_entry s t i e) t' i' = if decide (t' = t /\ i' = i) then e else entry s t' i'.
Proof.
  intros H1 H2 H3 H4; unfold entry, set_entry, word; simpl; case_decide as E; [destruct E as [-> ->]; by rewrite lookup_insert_eq |].
  rewrite lookup_insert_ne; [done |]; intros Hs; apply slot_addr_inj in Hs as [-> ->]; auto.
Qed.

Lemma entry_foldl s t f (l : list Z) t' i' :
  is_addr t -> is_addr t' -> Forall is_index l -> is_index i' ->
  entry (foldl (fun s i => set_entry s t i (f i)) s l) t' i' = if decide (t' = t /\ i' ∈ l) then f i' else entry s t' i'.
Proof.
  intros Ht Ht' Hl Hi'; revert s; induction Hl as [| i l Hi Hl IH]; intros s; simpl.
  { rewrite decide_False by (intros [_ []%elem_of_nil]); done. }
  rewrite IH, entry_set by done.
  destruct (decide (t' = t /\ i' ∈ l)) as [[? ?] | Hn]; [by rewrite decide_True by (split; [done | by right]) |].
  destruct (decide (t' = t /\ i' = i)) as [[-> ->] | Hn']; [by rewrite decide_True by (split; [done | by left]) |].
  rewrite decide_False; [done |]; intros [-> [-> |]%elem_of_cons]; auto.
Qed.

Lemma seq_index n m : 0 <= n -> 0 <= m -> n + m <= 512 -> Forall is_index (seqZ n m).
Proof. intros ? ? ?; apply Forall_forall; intros i Hi; apply elem_of_seqZ in Hi; unfold is_index; lia. Qed.

Lemma entry_fill s t f t' i' :
  is_addr t -> is_addr t' -> is_index i' -> entry (fill s t f) t' i' = if decide (t' = t) then f i' else entry s t' i'.
Proof.
  intros H1 H2 H3; unfold fill; rewrite entry_foldl by (done || apply seq_index; lia).
  assert (i' ∈ seqZ 0 512) by (apply elem_of_seqZ; unfold is_index in *; lia).
  destruct (decide (t' = t)) as [-> |]; [by rewrite decide_True | by rewrite decide_False by tauto].
Qed.

(** What a fill leaves alone. *)
Lemma fill_rest s t f : pool (fill s t f) = pool s /\ cr3 (fill s t f) = cr3 s /\ kernel_pgd (fill s t f) = kernel_pgd s /\ tlb (fill s t f) = tlb s.
Proof.
  unfold fill; set (l := seqZ 0 512); clearbody l; revert s; induction l as [| i l IH]; intros s; [done |].
  simpl; destruct (IH (set_entry s t i (f i))) as (-> & -> & -> & ->); done.
Qed.
End entries.

(** ** What a walk sees *)

Section walks.
Context {P : Type} `{PageAlloc P} (ram0 : Z -> Z).
Implicit Types (s : mmu P) (q js : list Z).
#[local] Abbreviation entry := (entry ram0).

(** The place of a page among those below an entry, given its indices. *)
Fixpoint digits js : Z := match js with [] => 0 | i :: js => i * 512 ^ zlen js + digits js end.

(** The page a leaf entry maps, [js] the indices left: its frame and its flags. *)
Definition leaf_of (e : Z) js : Z * Z :=
  (pte_addr e + 4096 * digits js, match js with [] => pte_flags e | _ => Z.land (pte_flags e) (not64 X86_PTE_PS) end).

(** The page at the end of a walk from table [t]. *)
Fixpoint walk s (t : Z) js : option (Z * Z) :=
  match js with
  | [] => None
  | i :: rest =>
    let e := entry s t i in
    if negb (present e) then None
    else match rest with
         | [] => Some (leaf_of e [])
         | _ => if large e then Some (leaf_of e rest) else walk s (pte_addr e) rest
         end
  end.

Definition indices (va : Z) : list Z := [PML4_INDEX va; PDPT_INDEX va; PD_INDEX va; PT_INDEX va].

(** The page that holds [va] in the address space of [pgd]: the frame and the
    flags. *)
Definition translate s (pgd va : Z) : option (Z * Z) := walk s pgd (indices va).

Lemma indices_ok va : Forall is_index (indices va).
Proof. repeat constructor; apply index_range. Qed.

(** ** The tree below a root

    [T] gives every table its path from the root. *)
Definition block_size q : Z := 4096 * 512 ^ (3 - zlen q).

Definition entry_ok (T : gmap Z (list Z)) (e : Z) q (i : Z) : Prop :=
  present e = true -> (length q < 3)%nat ->
  if large e then q <> [] /\ pte_addr e mod block_size q = 0 else T !! pte_addr e = Some (q ++ [i]).

Record tree s (pgd : Z) (T : gmap Z (list Z)) : Prop := {
  tr_pool : pa_valid (pool s);
  tr_root f : T !! f = Some [] <-> f = pgd;
  tr_frame f q : T !! f = Some q -> is_addr f /\ (length q <= 3)%nat /\ Forall is_index q;
  tr_held f q : T !! f = Some q -> pa_held (pool s) (phys_to_virt f);
  tr_child f q i : T !! f = Some q -> is_index i -> entry_ok T (entry s f i) q i;
  tr_parent f q i : T !! f = Some (q ++ [i]) -> exists g, T !! g = Some q /\ present (entry s g i) = true /\
    large (entry s g i) = false /\ pte_addr (entry s g i) = f
}.

Lemma tree_index s pgd T f q i : tree s pgd T -> T !! f = Some (q ++ [i]) -> is_index i.
Proof. intros O Hf; apply (tr_frame _ _ _ O) in Hf as (_ & _ & Hq); apply Forall_app in Hq as [_ Hq]; by inversion Hq. Qed.

(** The walk to a page passes the tables on its path. *)
Lemma walk_path s pgd T q f js : tree s pgd T -> T !! f = Some q -> js <> [] -> walk s pgd (q ++ js) = walk s f js.
Proof.
  intros O; revert f js; induction q as [| i q IH] using rev_ind; intros f js Hf Hj.
  { apply (tr_root _ _ _ O) in Hf as ->; done. }
  destruct (tr_parent _ _ _ O _ _ _ Hf) as (g & Hg & Hp & Hl & <-).
  rewrite <- app_assoc, (IH g) by done; simpl; rewrite Hp, Hl; by destruct js.
Qed.

(** A write to entry [i0] of the table at path [q0] is seen by the walks that
    pass it alone. *)
Definition differs_at s s' (T : gmap Z (list Z)) (q0 : list Z) (i0 : Z) : Prop :=
  forall f q i, T !! f = Some q -> is_index i -> ~ (q = q0 /\ i = i0) -> entry s' f i = entry s f i.

Lemma walk_from s s' pgd T q0 i0 f q js :
  tree s pgd T -> differs_at s s' T q0 i0 -> T !! f = Some q -> (length q + length js <= 4)%nat -> Forall is_index js ->
  ~ (q0 ++ [i0]) `prefix_of` (q ++ js) -> walk s' f js = walk s f js.
Proof.
  intros O D; revert f q; induction js as [| i js IH]; intros f q Hf Hl Hj Hn; [done |].
  apply Forall_cons in Hj as [Hi Hj]; assert (E : entry s' f i = entry s f i).
  { apply (D f q i Hf Hi); intros [-> ->]; apply Hn; exists js; by rewrite <- app_assoc. }
  simpl; rewrite E; destruct (present (entry s f i)) eqn:Ep; [| done]; simpl; destruct js as [| j js]; [done |].
  pose proof (tr_child _ _ _ O _ _ _ Hf Hi Ep ltac:(simpl in Hl; lia)) as Hc; destruct (large (entry s f i)); [done |].
  apply (IH _ (q ++ [i]) Hc); [rewrite length_app; simpl in *; lia | done |]; by rewrite <- app_assoc.
Qed.

Lemma walk_other s s' pgd T q0 i0 js :
  tree s pgd T -> differs_at s s' T q0 i0 -> length js = 4%nat -> Forall is_index js ->
  ~ (q0 ++ [i0]) `prefix_of` js -> walk s' pgd js = walk s pgd js.
Proof.
  intros O D Hl Hj Hn; apply (walk_from s s' pgd T q0 i0 pgd []); simpl; try done; [by apply (tr_root _ _ _ O) | lia].
Qed.
End walks.

(** The allocator's pages lie in the direct map. *)
Class PageAllocDirect (P : Type) `{PageAlloc P} : Prop :=
  pa_direct p p' b : pa_valid p -> pa_alloc 1 p = (p', b) -> b <> 0 -> KERNEL_VIRT_BASE <= b.

Section steps.
Context {P : Type} `{PageAllocOk P} `{!PageAllocDirect P} (ram0 : Z -> Z).
Implicit Types (s : mmu P) (q js : list Z) (T : gmap Z (list Z)).
#[local] Abbreviation entry := (entry ram0).
#[local] Abbreviation tree := (tree ram0).
#[local] Abbreviation walk := (walk ram0).

(** The state grew: pages in use stay in use, and their words stay but in the
    tables of [F]. *)
Record grows s s' (F : Z -> Prop) : Prop := {
  gr_held a : pa_held (pool s) a -> pa_held (pool s') a;
  gr_keep f i : is_addr f -> is_index i -> pa_held (pool s) (phys_to_virt f) -> ~ F f -> entry s' f i = entry s f i;
  gr_cr3 : cr3 s' = cr3 s;
  gr_kernel : kernel_pgd s' = kernel_pgd s
}.

Lemma grows_refl s F : grows s s F.
Proof. by split. Qed.

Lemma grows_trans s1 s2 s3 (F1 F2 F : Z -> Prop) :
  grows s1 s2 F1 -> grows s2 s3 F2 -> (forall f, F1 f -> F f) -> (forall f, pa_held (pool s1) (phys_to_virt f) -> F2 f -> F f) -> grows s1 s3 F.
Proof.
  intros [A1 A2 A3 A4] [B1 B2 B3 B4] H1 H2; split; [auto | | congruence | congruence].
  intros f i Hf Hi Hh Hn; rewrite B2, A2 by auto; auto.
Qed.

(** Tables were added to the tree, on pages that were free. *)
Definition extends s T T' : Prop := T ⊆ T' /\ forall f q, T' !! f = Some q -> T !! f = Some q \/ ~ pa_held (pool s) (phys_to_virt f).

Lemma extends_refl s T : extends s T T.
Proof. split; [done |]; auto. Qed.

Lemma extends_trans s s' F T1 T2 T3 : grows s s' F -> extends s T1 T2 -> extends s' T2 T3 -> extends s T1 T3.
Proof.
  intros G [A1 A2] [B1 B2]; split; [by etrans |]; intros f q Hq; destruct (B2 f q Hq) as [Hq' | Hq']; [auto |].
  right; intros Hh; by apply Hq', (gr_held _ _ _ G).
Qed.

(** *** A new table *)

Lemma phys_virt b : KERNEL_VIRT_BASE <= b < 2 ^ 64 -> phys_to_virt (virt_to_phys b) = b.
Proof. intros Hb; unfold phys_to_virt, virt_to_phys; change KERNEL_VIRT_BASE with 0xFFFF800000000000 in *.
  rewrite (u64_small (b - _)), u64_small by lia; lia.
Qed.

(** The allocator has no page left. *)
Definition exhausted s : Prop := snd (pa_alloc 1 (pool s)) = 0.

Lemma new_table_ok s s' r :
  pa_valid (pool s) -> new_table s = (s', r) ->
  match r with
  | None => s' = s /\ exhausted s
  | Some t =>
    is_addr t /\ ~ pa_held (pool s) (phys_to_virt t) /\ pa_held (pool s') (phys_to_virt t) /\ pa_valid (pool s') /\
    (forall i, is_index i -> entry s' t i = 0) /\ grows s s' (fun _ => False)
  end.
Proof.
  intros Hv; unfold new_table; destruct (pa_alloc 1 (pool s)) as [p page] eqn:Ea; destruct (Z.eqb_spec page 0) as [-> | Hne]; intros [= <- <-].
  { split; [| unfold exhausted; by rewrite Ea]; apply pa_alloc_fail in Ea as ->; [by destruct s | done | lia]. }
  pose proof (pa_direct _ _ _ Hv Ea Hne) as Hd; destruct (pa_alloc_ok _ 1 _ _ Hv ltac:(lia) Ea Hne) as (Hv' & Hal & Hpos & Hlt & Hfree & Hheld).
  assert (Hin : in_pages page 1 page) by (unfold in_pages; lia).
  assert (Ht : is_addr (virt_to_phys page)).
  { apply is_addr_iff; unfold virt_to_phys; change KERNEL_VIRT_BASE with 0xFFFF800000000000 in *; rewrite u64_small by lia.
    split; [lia |]; rewrite Zminus_mod, Hal; done. }
  rewrite phys_virt by lia; destruct (fill_rest (with_pool s p) (virt_to_phys page) (fun _ => 0)) as (-> & E1 & E2 & E3).
  split; [done |]; split; [by apply Hfree |]; split; [by apply Hheld; right |]; split; [done |]; split.
  { intros i Hi; by rewrite entry_fill, decide_True. }
  split; try done; [intros a Ha; destruct (fill_rest (with_pool s p) (virt_to_phys page) (fun _ => 0)) as (-> & _); apply Hheld; by left |].
  intros f i Hf Hi Hh _; rewrite entry_fill by done; case_decide as Hc; [| done].
  subst f; rewrite phys_virt in Hh by lia; by destruct (Hfree page Hin).
Qed.

(** A new table is the root of a space in which nothing is mapped. *)
Lemma new_root s s' t : pa_valid (pool s) -> new_table s = (s', Some t) -> tree s' t {[t := []]} /\ forall va, translate ram0 s' t va = None.
Proof.
  intros Hv En; destruct (new_table_ok _ _ _ Hv En) as (Ht & _ & Hheld & Hv' & Hz & _).
  assert (Hl : forall f q, ({[t := []]} : gmap Z (list Z)) !! f = Some q <-> f = t /\ q = []) by (intros f q; rewrite lookup_singleton_Some; split; intros [? ?]; done).
  split; [split |].
  - done.
  - intros f; rewrite Hl; tauto.
  - intros f q [-> ->]%Hl; repeat split; try done; simpl; lia.
  - by intros f q [-> ->]%Hl.
  - intros f q i [-> ->]%Hl Hi; rewrite Hz by done; done.
  - intros f q i [_ E]%Hl; by destruct q.
  - intros va; unfold translate, indices; simpl; rewrite Hz by apply (index_range va 39); done.
Qed.

(** *** Putting a new table into the tree *)

Lemma entry_ok_mono T T' e q i : T ⊆ T' -> entry_ok T e q i -> entry_ok T' e q i.
Proof. intros Hs Ho Hp Hl; specialize (Ho Hp Hl); destruct (large e); [done |]; by eapply lookup_weaken. Qed.

Lemma attach s s2 pgd T f q i t :
  tree s pgd T -> T !! f = Some q -> (length q < 3)%nat -> is_index i ->
  (present (entry s f i) = true -> large (entry s f i) = true) ->
  is_addr t -> ~ pa_held (pool s) (phys_to_virt t) -> pa_held (pool s2) (phys_to_virt t) ->
  pa_valid (pool s2) -> grows s s2 (fun g => g = f) ->
  entry s2 f i = table_entry t -> (forall j, is_index j -> j <> i -> entry s2 f j = entry s f j) ->
  (forall j, is_index j -> entry_ok T (entry s2 t j) (q ++ [i]) j) ->
  tree s2 pgd (<[t := q ++ [i]]> T) /\ extends s T (<[t := q ++ [i]]> T).
Proof.
  intros O Hf Hl Hi Hold Ht Hfresh Hheld Hv G Ef Efj Et.
  assert (HtT : T !! t = None).
  { destruct (T !! t) eqn:E; [| done]; by apply (tr_held _ _ _ _ O) in E. }
  assert (Hsub : T ⊆ <[t := q ++ [i]]> T) by (by apply insert_subseteq).
  assert (Hinv : forall g r, <[t := q ++ [i]]> T !! g = Some r -> (g = t /\ r = q ++ [i]) \/ (g <> t /\ T !! g = Some r)).
  { intros g r; rewrite lookup_insert_Some; intros [[<- <-] | [? ?]]; auto. }
  assert (Hsame : forall g r j, T !! g = Some r -> is_index j -> ~ (g = f /\ j = i) -> entry s2 g j = entry s g j).
  { intros g r j Hg Hj Hn; destruct (decide (g = f)) as [-> | Hne]; [apply Efj; naive_solver |].
    apply (gr_keep _ _ _ G); [by apply (tr_frame _ _ _ _ O) in Hg as [] | done | by eapply tr_held | done]. }
  split; [split |].
  - done.
  - intros g; rewrite lookup_insert_Some, (tr_root _ _ _ _ O); split; [intros [[_ E] | [_ E]]; [by destruct q | done] |].
    intros ->; right; split; [| done]; intros ->; pose proof (proj2 (tr_root _ _ _ _ O pgd) eq_refl); congruence.
  - intros g r [[-> ->] | [_ Hg]]%Hinv; [| by apply (tr_frame _ _ _ _ O)].
    destruct (tr_frame _ _ _ _ O _ _ Hf) as (_ & _ & Hq); split; [done |]; rewrite length_app, Forall_app; simpl.
    split; [lia |]; split; [done | by constructor].
  - intros g r [[-> ->] | [_ Hg]]%Hinv; [done |]; by eapply (gr_held _ _ _ G), tr_held.
  - intros g r j [[-> ->] | [_ Hg]]%Hinv Hj; [eapply entry_ok_mono; [exact Hsub | by apply Et] |].
    destruct (decide (g = f /\ j = i)) as [[-> ->] | Hn].
    + rewrite Ef; intros _ _; destruct (table_entry_ok t Ht) as (_ & -> & ->); rewrite Hf in Hg; injection Hg as <-; by rewrite lookup_insert_eq.
    + rewrite (Hsame g r j) by done; eapply entry_ok_mono; [exact Hsub | by eapply tr_child].
  - intros g r j [[-> E] | [_ Hg]]%Hinv.
    + apply app_inj_tail in E as [-> ->]; exists f; rewrite lookup_insert_ne by congruence; rewrite Ef; split; [done | by apply table_entry_ok].
    + destruct (tr_parent _ _ _ _ O _ _ _ Hg) as (h & Hh & H1 & H2 & H3); exists h; rewrite lookup_insert_ne by congruence.
      rewrite (Hsame h r j Hh (tree_index _ _ _ _ _ _ _ O Hg)); [done |]; intros [-> ->]; rewrite Hold in H2; done.
  - split; [done |]; intros g r [[-> ->] | [_ Hg]]%Hinv; auto.
Qed.

(** *** Splitting a block *)

Lemma block_room a m k : is_addr a -> a mod m = 0 -> 0 <= k < m -> m mod 4096 = 0 -> 0 < m -> 2 ^ 52 mod m = 0 -> k mod 4096 = 0 -> is_addr (a + k).
Proof.
  rewrite !is_addr_iff; intros [Ha H4] Hm Hk Hm4 Hpos Htop Hk4.
  pose proof (Z.div_mod a m ltac:(lia)); pose proof (Z.div_mod (2 ^ 52) m ltac:(lia)).
  assert (a / m < 2 ^ 52 / m) by nia; split; [nia |]; rewrite Zplus_mod, H4, Hk4; done.
Qed.

(** What a block of level 2 is split into: its pages. *)
Lemma split_2 e i : pte_addr e mod 0x200000 = 0 -> is_index i -> present e = true ->
  present (split_entry e 2 i) = true /\ pte_addr (split_entry e 2 i) = pte_addr e + 4096 * i /\
  pte_flags (split_entry e 2 i) = Z.land (pte_flags e) (not64 X86_PTE_PS).
Proof.
  unfold is_index, split_entry; simpl; intros Hm Hi Hp; pose proof (pte_addr_is_addr e) as Ha; pose proof (pte_flags_is_flags e) as Hf.
  assert (Hr : is_addr (pte_addr e + i * 4096)).
  { apply (block_room _ 0x200000); try done; [lia | by rewrite Z.mod_mul]. }
  rewrite present_flags, u64_small by (apply is_addr_iff in Hr; lia).
  rewrite pte_addr_lor, pte_flags_lor by (done || by apply land_flags); split; [| split; [lia | done]].
  rewrite present_flags in Hp; unfold has in *; rewrite <- Z.land_assoc; exact Hp.
Qed.

(** And one of level 1: its blocks of level 2. *)
Lemma split_1 e i : pte_addr e mod 0x40000000 = 0 -> is_index i -> present e = true -> large e = true ->
  present (split_entry e 1 i) = true /\ large (split_entry e 1 i) = true /\ pte_addr (split_entry e 1 i) = pte_addr e + 0x200000 * i /\
  pte_flags (split_entry e 1 i) = pte_flags e.
Proof.
  unfold is_index, split_entry; simpl; intros Hm Hi Hp Hl; pose proof (pte_addr_is_addr e) as Ha; pose proof (pte_flags_is_flags e) as Hf.
  assert (Hr : is_addr (pte_addr e + i * 0x200000)).
  { apply (block_room _ 0x40000000); try done; [lia |]; change 0x200000 with (512 * 4096); by rewrite Z.mul_assoc, Z.mod_mul. }
  rewrite present_flags, large_flags, u64_small by (apply is_addr_iff in Hr; lia).
  rewrite pte_addr_lor, pte_flags_lor by done; rewrite present_flags in Hp; rewrite large_flags in Hl; repeat split; try done; lia.
Qed.

(** The walks through a split block see what they saw. *)
Lemma split_leaf e q j rest :
  present e = true -> large e = true -> q <> [] -> (length q + S (length rest) = 3)%nat -> pte_addr e mod block_size q = 0 ->
  Forall is_index (j :: rest) ->
  let e' := split_entry e (zlen q) j in
  present e' = true /\ leaf_of e (j :: rest) = leaf_of e' rest /\ (rest <> [] -> large e' = true).
Proof.
  intros Hp Hl Hq Hlen Hm Hj; apply Forall_cons in Hj as [Hj _]; destruct q as [| a [| b [| c q]]]; simpl in Hlen; [done | | | lia].
  - destruct rest as [| k [| l rest]]; simpl in Hlen; try lia; change (zlen [a]) with 1; change (block_size [a]) with 0x40000000 in Hm.
    destruct (split_1 e j Hm Hj Hp Hl) as (H1 & H2 & H3 & H4); simpl; split; [done |]; split; [| done].
    unfold leaf_of; rewrite H3, H4; simpl; change (zlen [k]) with 1; change (zlen (@nil Z)) with 0; f_equal; lia.
  - destruct rest as [| k rest]; simpl in Hlen; try lia; change (zlen [a; b]) with 2; change (block_size [a; b]) with 0x200000 in Hm.
    destruct (split_2 e j Hm Hj Hp) as (H1 & H2 & H3); simpl; split; [done |]; split; [| done].
    unfold leaf_of; rewrite H2, H3; simpl; change (zlen (@nil Z)) with 0; f_equal; lia.
Qed.

(** The entries of the new table fit the tree. *)
Lemma split_entry_ok T e q i j :
  present e = true -> large e = true -> q <> [] -> (length q < 3)%nat -> pte_addr e mod block_size q = 0 -> is_index j ->
  entry_ok T (split_entry e (zlen q) j) (q ++ [i]) j.
Proof.
  intros Hp Hl Hq Hlen Hm Hj _; rewrite length_app; simpl; intros Hlen2; destruct q as [| a [| b q]]; simpl in *; [done | | lia].
  change (zlen [a]) with 1; change (block_size [a]) with 0x40000000 in Hm; destruct (split_1 e j Hm Hj Hp Hl) as (_ & -> & -> & _).
  split; [done |]; change (block_size [a; i]) with 0x200000; rewrite Z.mul_comm, Z.mod_add by lia.
  apply Z.mod_divide in Hm as [k ->]; [| lia]; change 0x40000000 with (512 * 0x200000); by rewrite Z.mul_assoc, Z.mod_mul.
Qed.

(** ** A step of a walk

    [next_ok]: the step failed and changed nothing; or it leads to the table
    below, which the tree now has, and no walk sees a difference. *)
Definition next_ok s pgd T (f : Z) q (i : Z) s' (r : option Z) : Prop :=
  match r with
  | None => s' = s /\ exhausted s
  | Some t => exists T', extends s T T' /\ tree s' pgd T' /\ T' !! t = Some (q ++ [i]) /\ grows s s' (fun g => g = f) /\
      forall js, length js = 4%nat -> Forall is_index js -> walk s' pgd js = walk s pgd js
  end.

(** A table [t], new in [s1], put into the tree behind entry [i] of [f]. *)
Lemma next_attach s s1 pgd T f q i t g :
  tree s pgd T -> T !! f = Some q -> (length q < 3)%nat -> is_index i ->
  (present (entry s f i) = true -> large (entry s f i) = true) ->
  is_addr t -> ~ pa_held (pool s) (phys_to_virt t) -> pa_held (pool s1) (phys_to_virt t) -> pa_valid (pool s1) ->
  grows s s1 (fun _ => False) -> (forall j, is_index j -> entry s1 t j = g j) ->
  (forall j, is_index j -> entry_ok T (g j) (q ++ [i]) j) ->
  (forall j rest, length q + S (length rest) = 3 -> Forall is_index (j :: rest) ->
    (if negb (present (entry s f i)) then None else Some (leaf_of (entry s f i) (j :: rest))) =
    (if negb (present (g j)) then None else Some (leaf_of (g j) rest)) /\
    (present (g j) = true -> rest <> [] -> large (g j) = true))%nat ->
  next_ok s pgd T f q i (set_entry s1 f i (table_entry t)) (Some t).
Proof.
  intros O Hf Hlq Hi Hold Ht Hfresh Hheld Hv G Hg Hgok Hw; destruct (tr_frame _ _ _ _ O _ _ Hf) as (Hfa & _ & _).
  assert (Hne : t <> f) by (intros ->; by eapply Hfresh, tr_held).
  set (s2 := set_entry s1 f i (table_entry t)).
  assert (Es : forall h j, is_addr h -> is_index j -> entry s2 h j = if decide (h = f /\ j = i) then table_entry t else entry s1 h j)
    by (intros; by apply entry_set).
  assert (Ef : entry s2 f i = table_entry t) by (by rewrite Es, decide_True).
  assert (Efj : forall j, is_index j -> j <> i -> entry s2 f j = entry s f j).
  { intros j Hj Hn; rewrite Es, decide_False by (done || tauto); apply (gr_keep _ _ _ G); auto; by eapply tr_held. }
  assert (Et : forall j, is_index j -> entry s2 t j = g j) by (intros j Hj; rewrite Es, decide_False by (done || tauto); auto).
  assert (G2 : grows s s2 (fun h => h = f)).
  { destruct G as [G1 G2 G3 G4]; split; try done; intros h j Hh Hj Hheld' Hn; rewrite Es, decide_False by (done || tauto); auto. }
  destruct (attach s s2 pgd T f q i t O Hf Hlq Hi Hold Ht Hfresh Hheld Hv G2 Ef Efj) as [O2 X].
  { intros j Hj; rewrite Et by done; auto. }
  exists (<[t := q ++ [i]]> T); split; [done |]; split; [done |]; split; [by rewrite lookup_insert_eq |]; split; [done |].
  intros js Hlen Hjs; destruct (decide ((q ++ [i]) `prefix_of` js)) as [[rest ->] | Hn].
  - rewrite length_app, length_app in Hlen; simpl in Hlen; apply Forall_app in Hjs as [_ Hrest]; destruct rest as [| j rest]; [simpl in *; lia |].
    rewrite (walk_path ram0 s2 pgd _ _ t (j :: rest) O2) by (done || by rewrite lookup_insert_eq).
    rewrite <- app_assoc; rewrite (walk_path ram0 s pgd T q f _ O Hf) by done.
    destruct (Hw j rest ltac:(simpl in *; lia) Hrest) as [Hw1 Hw2]; apply Forall_cons in Hrest as [Hj Hrest]; simpl; rewrite (Et j Hj).
    destruct (present (entry s f i)) eqn:Ep; simpl in *; [rewrite (Hold eq_refl) |]; rewrite Hw1;
      destruct (present (g j)); simpl; try done; destruct rest; try done; by rewrite Hw2.
  - apply (walk_other ram0 s s2 pgd T q i js O); try done.
    intros h r j Hh Hj Hne2; destruct (decide (h = f)) as [-> | Hne3]; [apply Efj; [done | intros ->; apply Hne2; split; [congruence | done]] |].
    apply (gr_keep _ _ _ G2); [by apply (tr_frame _ _ _ _ O) in Hh as [] | done | by eapply tr_held | done].
Qed.

Lemma next_table_ok s pgd T f q i s' r :
  tree s pgd T -> T !! f = Some q -> (length q < 3)%nat -> is_index i ->
  get_next_table ram0 s f i true (zlen q) = (s', r) -> next_ok s pgd T f q i s' r.
Proof.
  intros O Hf Hl Hi; unfold get_next_table; simpl; pose proof (tr_child _ _ _ _ O _ _ _ Hf Hi) as Hc.
  destruct (present (entry s f i)) eqn:Ep; [destruct (large (entry s f i)) eqn:El |].
  - destruct (new_table s) as [s1 [t |]] eqn:En; pose proof (new_table_ok _ _ _ (tr_pool _ _ _ _ O) En) as Hn; simpl in Hn; intros [= <- <-]; [| done].
    destruct Hn as (Ht & Hfresh & Hheld & Hv & Hz & G); specialize (Hc Ep Hl); rewrite El in Hc; destruct Hc as [Hq Hm].
    set (g := split_entry (entry s f i) (zlen q)); destruct (fill_rest s1 t g) as (Hp1 & Hc1 & Hk1 & Ht1).
    apply (next_attach s (fill s1 t g) pgd T f q i t g); try done; try by rewrite Hp1.
    + destruct G as [G1 G2 G3 G4]; split; rewrite ?Hp1, ?Hc1, ?Hk1, ?Ht1; try done.
      intros h j Hh Hj Hhold _; rewrite entry_fill by done; rewrite decide_False by (intros ->; contradiction); apply G2; auto.
    + intros j Hj; by rewrite entry_fill, decide_True.
    + intros j Hj; by apply split_entry_ok.
    + intros j rest Hlen Hjs; destruct (split_leaf (entry s f i) q j rest Ep El Hq Hlen Hm Hjs) as (H1 & H2 & H3).
      fold g in H1, H2, H3; rewrite Ep, H1, H2; split; [done |]; auto.
  - intros [= <- <-]; exists T; split; [apply extends_refl |]; split; [done |].
    specialize (Hc Ep Hl); rewrite El in Hc; split; [done |]; split; [apply grows_refl | done].
  - destruct (new_table s) as [s1 [t |]] eqn:En; pose proof (new_table_ok _ _ _ (tr_pool _ _ _ _ O) En) as Hn; simpl in Hn; intros [= <- <-]; [| done].
    destruct Hn as (Ht & Hfresh & Hheld & Hv & Hz & G).
    apply (next_attach s s1 pgd T f q i t (fun _ => 0)); try done; [by rewrite Ep |].
    intros j rest _ _; by rewrite Ep.
Qed.
End steps.
