(* ===== verification/PagingTheorems.v ===== *)
(** * Theorems about page tables

    Mapping, unmapping and protecting pages change the translation of exactly
    the pages asked for; the lookup reads it; the spaces of processes share the
    kernel's half and nothing else. *)
From Stdlib Require Import ZArith Lia.
From stdpp Require Import base numbers list gmap.
From S2P Require Import Prelude Bitmap Pmm PmmBoot PmmTheorems Kmalloc KmallocTheorems Paging PagingProofs.

(** ** Page tables on 32 MiB of memory

    The page allocator of pmm.c, on x86-64, under the page tables: a root, and a
    space in which one page is mapped.  The witnesses run on it. *)

#[export] Existing Instance amd64.
#[export] Instance pages_amd64 : PageAlloc pmm := pmm_page_alloc (A := amd64) 0.
#[export] Instance pages_amd64_ok : PageAllocOk pmm.
Proof. exact (pmm_page_alloc_ok (A := amd64) 0). Qed.

(** The pages of pmm.c lie in the direct map. *)
#[export] Instance pages_amd64_direct : PageAllocDirect pmm.
Proof.
  intros s s' b W E Hb; destruct (alloc_pages_took (A := amd64) 1 0 s s' b W ltac:(lia) E) as [[-> _] | (q & Hq & Hqn & -> & _)]; [done |].
  pose proof (total_bound s W); rewrite page_va_eq by lia; change (@KERNEL_VIRT_BASE amd64) with 0xFFFF800000000000; change (@MEMORY_BASE amd64) with 0; lia.
Qed.

Definition free_amd64 : pmm :=
  fresh_zones (A := amd64)
    {| page_array := replicate (Z.to_nat 8192) page0; page_array_va := 1; zone_dma := zone0;
       zone_normal := zone0; total_pages := 8192; free_pages := 0; usable_pages := 8192;
       pmm_metadata_end_phys := 0; stat_alloc_calls := 0; stat_free_calls := 0;
       stat_ticks_total := 0; stat_ticks_max := 0; mem_log := [] |}.

Lemma free_amd64_wf : pmm_wf free_amd64.
Proof. apply (fresh_zones_ok (A := amd64)); [simpl; lia | done]. Qed.

(** Memory that reads as zeroes, with no table in it. *)
Definition zero_ram (a : Z) : Z := 0.
Definition mmu0 : mmu pmm := {| ram := ∅; pool := free_amd64; cr3 := 0; kernel_pgd := 0; tlb := [] |}.

Definition mmu1 : mmu pmm := fst (new_table mmu0).
Definition root1 : Z := default 0 (snd (new_table mmu0)).

Lemma mmu1_new : new_table mmu0 = (mmu1, Some root1).
Proof.
  rewrite (surjective_pairing (new_table mmu0)); apply f_equal2; [done |]; unfold root1.
  assert (E : match snd (new_table mmu0) with Some _ => true | None => false end = true) by (by vm_compute).
  by destruct (snd (new_table mmu0)).
Qed.

(** A space in which nothing is mapped. *)
Lemma mmu1_tree : tree zero_ram mmu1 root1 {[root1 := []]}.
Proof. apply (new_root zero_ram mmu0 mmu1 root1); [exact free_amd64_wf | exact mmu1_new]. Qed.

(** One page mapped. *)
Definition mmu2 : mmu pmm := fst (arch_vmm_map zero_ram mmu1 root1 0x400000 0x200000 PAGE_USER).
Lemma mmu2_eq : arch_vmm_map zero_ram mmu1 root1 0x400000 0x200000 PAGE_USER = (mmu2, 0).
Proof. rewrite (surjective_pairing (arch_vmm_map _ _ _ _ _ _)); apply f_equal2; [done | by vm_compute]. Qed.

#[local] Existing Instance amd64.

Section theorems.
Context {P : Type} `{PageAllocOk P} `{!PageAllocDirect P} (ram0 : Z -> Z).
Implicit Types (s : mmu P) (q js : list Z) (T : gmap Z (list Z)).
#[local] Abbreviation entry := (entry ram0).
#[local] Abbreviation tree := (tree ram0).
#[local] Abbreviation walk := (walk ram0).
#[local] Abbreviation translate := (translate ram0).

(** ** Writing a leaf *)

Lemma prefix_full q i js : length q = 3%nat -> length js = 4%nat -> (q ++ [i]) `prefix_of` js -> js = q ++ [i].
Proof.
  intros Hq Hj [k ->]; rewrite !length_app in Hj; simpl in Hj; destruct k; [by rewrite app_nil_r | simpl in Hj; lia].
Qed.

Lemma set_leaf s pgd T pt q i e :
  tree s pgd T -> T !! pt = Some q -> length q = 3%nat -> is_index i ->
  let s' := set_entry s pt i e in
  tree s' pgd T /\ grows ram0 s s' (fun g => g = pt) /\
  walk s' pgd (q ++ [i]) = (if present e then Some (leaf_of e []) else None) /\
  forall js, length js = 4%nat -> Forall is_index js -> js <> q ++ [i] -> walk s' pgd js = walk s pgd js.
Proof.
  intros O Hf Hl Hi s'; destruct (tr_frame _ _ _ _ O _ _ Hf) as (Hfa & _ & _).
  assert (Es : forall h j, is_addr h -> is_index j -> entry s' h j = if decide (h = pt /\ j = i) then e else entry s h j)
    by (intros; by apply entry_set).
  assert (Ed : forall g r j, T !! g = Some r -> is_index j -> ~ (r = q /\ j = i) -> entry s' g j = entry s g j).
  { intros g r j Hg Hj Hn; rewrite Es; [| by apply (tr_frame _ _ _ _ O) in Hg as [] | done].
    rewrite decide_False; [done |]; intros [-> ->]; apply Hn; split; congruence. }
  assert (O' : tree s' pgd T).
  { destruct O as [O1 O2 O3 O4 O5 O6]; split; try done.
    - intros g r j Hg Hj; destruct (decide (r = q /\ j = i)) as [[-> ->] | Hn]; [intros _ ?; lia | rewrite (Ed g r j) by done; by apply O5].
    - intros g r j Hg; destruct (O6 _ _ _ Hg) as (h & Hh & H2 & H3 & H4); exists h.
      assert (Hj : is_index j) by (apply O3 in Hg as (_ & _ & Hg); apply Forall_app in Hg as [_ Hg]; by inversion Hg).
      rewrite (Ed h r j) by (done || intros [-> _]; apply O3 in Hg as (_ & Hg & _); rewrite length_app in Hg; simpl in Hg; lia); done. }
  split; [done |]; split; [| split].
  - split; try done; intros h j Hh Hj _ Hn; rewrite Es, decide_False by (done || tauto); done.
  - rewrite (walk_path ram0 s' pgd T q pt [i]) by done; simpl; rewrite Es, decide_True by done; by destruct (present e).
  - intros js Hjl Hj Hn; apply (walk_other ram0 s s' pgd T q i js O Ed Hjl Hj); intros Hp; by apply Hn, prefix_full.
Qed.

(** The tables passed on the way to a page. *)
Definition on_path T js (f : Z) : Prop := exists q, T !! f = Some q /\ q `prefix_of` js.

(** Three steps down to the page table of [va]. *)
Definition walk_down s (pgd va : Z) : mmu P * option Z :=
  match get_next_table ram0 s pgd (PML4_INDEX va) true 0 with
  | (s, None) => (s, None)
  | (s, Some pdpt) =>
    match get_next_table ram0 s pdpt (PDPT_INDEX va) true 1 with
    | (s, None) => (s, None)
    | (s, Some pd) => get_next_table ram0 s pd (PD_INDEX va) true 2
    end
  end.

(** The state after some steps towards [va]: no walk sees a difference. *)
Record down s pgd T (va : Z) s' T' : Prop := {
  dn_extends : extends s T T';
  dn_tree : tree s' pgd T';
  dn_grows : grows ram0 s s' (on_path T (indices va));
  dn_same js : length js = 4%nat -> Forall is_index js -> walk s' pgd js = walk s pgd js
}.

Lemma down_refl s pgd T va : tree s pgd T -> down s pgd T va s T.
Proof. intros O; split; [apply extends_refl | done | apply grows_refl | done]. Qed.

Lemma down_step s pgd T va s1 T1 f q i s2 r :
  down s pgd T va s1 T1 -> T1 !! f = Some q -> (length q < 3)%nat -> is_index i -> (q ++ [i]) `prefix_of` indices va ->
  get_next_table ram0 s1 f i true (zlen q) = (s2, r) ->
  exists T2, down s pgd T va s2 T2 /\ match r with None => exhausted s2 | Some t => T2 !! t = Some (q ++ [i]) end.
Proof.
  intros [X O1 G W] Hf Hl Hi Hp Hr; pose proof (next_table_ok ram0 _ _ _ _ _ _ _ _ O1 Hf Hl Hi Hr) as Hn; destruct r as [t |]; simpl in Hn.
  - destruct Hn as (T2 & X2 & O2 & Ht & G2 & W2); exists T2; split; [| done]; split; [by eapply extends_trans | done | |].
    + apply (grows_trans ram0 s s1 s2 _ _ _ G G2); [done |]; intros g Hh ->; exists q; split.
      * destruct X as [_ X]; destruct (X _ _ Hf); [done | contradiction].
      * etrans; [| exact Hp]; by exists [i].
    + intros js H1 H2; by rewrite W2, W.
  - destruct Hn as [-> Hx]; by exists T1.
Qed.

Lemma walk_down_ok s pgd T va s' r :
  tree s pgd T -> walk_down s pgd va = (s', r) ->
  exists T', down s pgd T va s' T' /\
    match r with None => exhausted s' | Some pt => T' !! pt = Some [PML4_INDEX va; PDPT_INDEX va; PD_INDEX va] end.
Proof.
  intros O; unfold walk_down; pose proof (down_refl s pgd T va O) as D; pose proof (proj2 (tr_root _ _ _ _ O pgd) eq_refl) as Hr.
  destruct (get_next_table ram0 s pgd (PML4_INDEX va) true 0) as [s1 r1] eqn:E1.
  destruct (down_step s pgd T va s T pgd [] _ s1 r1 D Hr ltac:(simpl; lia) (index_range _ _) ltac:(by eexists) E1) as (T1 & D1 & H1).
  destruct r1 as [pdpt |]; [| intros [= <- <-]; by exists T1].
  destruct (get_next_table ram0 s1 pdpt (PDPT_INDEX va) true 1) as [s2 r2] eqn:E2.
  destruct (down_step s pgd T va s1 T1 pdpt _ _ s2 r2 D1 H1 ltac:(simpl; lia) (index_range _ _) ltac:(by eexists) E2) as (T2 & D2 & H2).
  destruct r2 as [pd |]; [| intros [= <- <-]; by exists T2]; intros E3.
  exact (down_step s pgd T va s2 T2 pd _ _ s' r D2 H2 ltac:(simpl; lia) (index_range _ _) ltac:(by eexists) E3).
Qed.

Lemma arch_vmm_map_eq s pgd va pa flags :
  arch_vmm_map ram0 s pgd va pa flags =
  match walk_down s pgd va with
  | (s, None) => (s, -1)
  | (s, Some pt) =>
    let s := set_entry s pt (PT_INDEX va) (Z.lor (pte_addr pa) (x86_leaf_flags flags)) in
    (if pte_addr pgd =? pte_addr (cr3 s) then log_tlb s (Invlpg va) else s, 0)
  end.
Proof.
  unfold arch_vmm_map, walk_down; destruct (get_next_table ram0 s pgd _ true 0) as [s1 [pdpt |]]; [| done].
  destruct (get_next_table ram0 s1 pdpt _ true 1) as [s2 [pd |]]; [| done].
  by destruct (get_next_table ram0 s2 pd _ true 2) as [s3 [pt |]].
Qed.

(** ** Mapping *)

Lemma tree_log s pgd T e : tree s pgd T -> tree (log_tlb s e) pgd T.
Proof. intros [A1 A2 A3 A4 A5 A6]; by split. Qed.

Lemma indices_eq va va' : indices va' = [PML4_INDEX va; PDPT_INDEX va; PD_INDEX va] ++ [PT_INDEX va] <-> indices va' = indices va.
Proof. done. Qed.

Lemma leaf_entry pa flags :
  let e := Z.lor (pte_addr pa) (x86_leaf_flags flags) in present e = true /\ leaf_of e [] = (pte_addr pa, x86_leaf_flags flags).
Proof.
  simpl; pose proof (leaf_flags_ok flags); pose proof (pte_addr_is_addr pa); rewrite present_flags; unfold leaf_of.
  rewrite pte_addr_lor, pte_flags_lor by done; split; [apply leaf_present | simpl; by rewrite Z.add_0_r].
Qed.

(** What an operation on the space of [pgd] keeps: the tree, extended by tables
    on pages that were free, and every table off the way to [va]. *)
Definition keeps s pgd T (va : Z) s' T' : Prop :=
  extends s T T' /\ tree s' pgd T' /\ grows ram0 s s' (on_path T (indices va)).

Lemma arch_vmm_map_ok s pgd T va pa flags s' rc :
  tree s pgd T -> arch_vmm_map ram0 s pgd va pa flags = (s', rc) ->
  exists T', keeps s pgd T va s' T' /\
    ((rc = -1 /\ exhausted s' /\ forall va', translate s' pgd va' = translate s pgd va') \/
     (rc = 0 /\ forall va', translate s' pgd va' =
        if decide (indices va' = indices va) then Some (pte_addr pa, x86_leaf_flags flags) else translate s pgd va')).
Proof.
  intros O; rewrite arch_vmm_map_eq; destruct (walk_down s pgd va) as [s1 r] eqn:Ew.
  destruct (walk_down_ok _ _ _ _ _ _ O Ew) as (T1 & [X O1 G W] & Hpt); destruct r as [pt |].
  - set (e := Z.lor (pte_addr pa) (x86_leaf_flags flags)).
    destruct (set_leaf s1 pgd T1 pt _ (PT_INDEX va) e O1 Hpt eq_refl (index_range _ _)) as (O2 & G2 & W1 & W2).
    destruct (leaf_entry pa flags) as [Hp Hle]; fold e in Hp, Hle; rewrite Hp, Hle in W1.
    assert (Hg : grows ram0 s (set_entry s1 pt (PT_INDEX va) e) (on_path T (indices va))).
    { apply (grows_trans ram0 s s1 _ _ _ _ G G2); [done |]; intros g Hh ->; destruct X as [_ X]; destruct (X _ _ Hpt) as [Hx | Hx]; [| contradiction].
      exists [PML4_INDEX va; PDPT_INDEX va; PD_INDEX va]; split; [done | by exists [PT_INDEX va]]. }
    assert (Ht : forall va', translate (set_entry s1 pt (PT_INDEX va) e) pgd va' =
      if decide (indices va' = indices va) then Some (pte_addr pa, x86_leaf_flags flags) else translate s pgd va').
    { intros va'; case_decide as E; unfold PagingProofs.translate; [by rewrite E |].
      rewrite W2 by (done || apply indices_ok); apply W; [done | apply indices_ok]. }
    intros Hrc; exists T1; simpl in Hrc; destruct (pte_addr pgd =? pte_addr (cr3 s1)); injection Hrc as <- <-.
    + split; [| by right]; split; [done |]; split; [by apply tree_log |]; destruct Hg as [B1 B2 B3 B4]; by split.
    + split; [| by right]; by split.
  - intros [= <- <-]; exists T1; split; [by split |]; left; split; [done |]; split; [done |]; intros va'; apply W; [done | apply indices_ok].
Qed.

(** C18: [arch_vmm_map] maps one page.  On a tree of tables the call fails only
    for lack of memory, and then no address translates differently; otherwise
    the addresses with the four indices of [va] translate to the frame of [pa]
    with the flags asked for, and all others as before, the 2 MiB and 1 GiB pages
    that had to be split on the way included.  The tables stay a tree, new ones
    lie on pages that were free, and no other table of memory is written. *)
Theorem map_changes_one_page s pgd T va pa flags s' rc :
  tree s pgd T -> arch_vmm_map ram0 s pgd va pa flags = (s', rc) ->
  exists T', keeps s pgd T va s' T' /\
    ((rc = -1 /\ exhausted s' /\ forall va', translate s' pgd va' = translate s pgd va') \/
     (rc = 0 /\ forall va', translate s' pgd va' =
        if decide (indices va' = indices va) then Some (pte_addr pa, x86_leaf_flags flags) else translate s pgd va')).
Proof. apply arch_vmm_map_ok. Qed.

(** ** Lookup *)

Lemma lor_low a b k : 0 <= k -> a mod 2 ^ k = 0 -> 0 <= b < 2 ^ k -> Z.lor a b = a + b.
Proof.
  intros Hk Ha Hb; assert (E : Z.land a b = 0).
  { apply Z.bits_inj'; intros i Hi; rewrite Z.land_spec, Z.bits_0; destruct (Z_lt_le_dec i k).
    - rewrite <- (Z.mod_pow2_bits_low a k i), Ha, Z.bits_0 by lia; done.
    - rewrite (testbit_above b k i), andb_false_r by lia; done. }
  rewrite <- Z.lxor_lor by done; by rewrite Z.add_nocarry_lxor.
Qed.

Lemma land_ones_mod a k : 0 <= k -> Z.land a (2 ^ k - 1) = a mod 2 ^ k.
Proof. intros; replace (2 ^ k - 1) with (Z.ones k) by (rewrite Z.ones_equiv; lia); by rewrite Z.land_ones. Qed.

Lemma mod_split a m n : 0 < m -> 0 < n -> a mod (m * n) = a mod m + m * ((a / m) mod n).
Proof. intros; by rewrite Z.rem_mul_r by lia. Qed.

Lemma index_mod a k : 0 <= k -> Z.land (Z.shiftr a k) 0x1FF = (a / 2 ^ k) mod 512.
Proof. intros; rewrite Z.shiftr_div_pow2 by lia; exact (land_ones_mod (a / 2 ^ k) 9 ltac:(lia)). Qed.

(** The bytes of [va] below a page of level 3, 2, 1. *)
Lemma offset_2m va : va mod 0x200000 = 4096 * PT_INDEX va + va mod 4096.
Proof. unfold PT_INDEX; rewrite index_mod by lia; change 0x200000 with (4096 * 512); rewrite mod_split by lia; change (2 ^ 12) with 4096; lia. Qed.

Lemma offset_1g va : va mod 0x40000000 = 4096 * (PD_INDEX va * 512 + PT_INDEX va) + va mod 4096.
Proof.
  unfold PD_INDEX; rewrite index_mod by lia; change 0x40000000 with (0x200000 * 512); rewrite mod_split, offset_2m by lia.
  change (2 ^ 21) with 0x200000; lia.
Qed.

Lemma block_byte a va k : 0 <= k -> 0 <= a < 2 ^ 64 -> a mod 2 ^ k = 0 -> k < 64 ->
  Z.lor (Z.land a (not64 (2 ^ k - 1))) (Z.land va (2 ^ k - 1)) = a + va mod 2 ^ k.
Proof.
  intros Hk Ha Hm Hlt; rewrite align_down, land_ones_mod by (unfold is_u64; lia); pose proof (Z.mod_pos_bound va (2 ^ k) ltac:(lia)).
  pose proof (Z.div_mod a (2 ^ k) ltac:(lia)); replace (a / 2 ^ k * 2 ^ k) with a by lia; by apply (lor_low _ _ k).
Qed.

Lemma pte_addr_range e : 0 <= pte_addr e < 2 ^ 52 /\ pte_addr e mod 4096 = 0.
Proof. apply is_addr_iff, pte_addr_is_addr. Qed.

Lemma get_physical_ok s pgd T va :
  tree s pgd T ->
  arch_vmm_get_physical ram0 s pgd va = match translate s pgd va with Some (frame, _) => frame + va mod 4096 | None => 0 end.
Proof.
  intros O; pose proof (proj2 (tr_root _ _ _ _ O pgd) eq_refl) as Hr; unfold arch_vmm_get_physical, PagingProofs.translate, indices; simpl.
  set (e4 := entry s pgd (PML4_INDEX va)); destruct (present e4) eqn:P4; simpl; [| done].
  pose proof (tr_child _ _ _ _ O _ _ _ Hr (index_range va 39) P4 ltac:(simpl; lia)) as H4; fold (PML4_INDEX va) e4 in H4.
  destruct (large e4); [by destruct H4 |]; simpl in H4.
  set (e3 := entry s (pte_addr e4) (PDPT_INDEX va)); destruct (present e3) eqn:P3; simpl; [| done].
  pose proof (tr_child _ _ _ _ O _ _ _ H4 (index_range va 30) P3 ltac:(simpl; lia)) as H3; fold (PDPT_INDEX va) e3 in H3.
  pose proof (pte_addr_range e3); destruct (large e3).
  { destruct H3 as [_ H3]; change (block_size _) with (2 ^ 30) in H3; change 0x3FFFFFFF with (2 ^ 30 - 1).
    rewrite block_byte by lia; change (2 ^ 30) with 0x40000000; rewrite offset_1g; unfold leaf_of; simpl; change (zlen [_]) with 1; change (zlen (@nil Z)) with 0; lia. }
  simpl in H3; set (e2 := entry s (pte_addr e3) (PD_INDEX va)); destruct (present e2) eqn:P2; simpl; [| done].
  pose proof (tr_child _ _ _ _ O _ _ _ H3 (index_range va 21) P2 ltac:(simpl; lia)) as H2; fold (PD_INDEX va) e2 in H2.
  pose proof (pte_addr_range e2); destruct (large e2).
  { destruct H2 as [_ H2]; change (block_size _) with (2 ^ 21) in H2; change 0x1FFFFF with (2 ^ 21 - 1).
    rewrite block_byte by lia; change (2 ^ 21) with 0x200000; rewrite offset_2m; unfold leaf_of; simpl; change (zlen (@nil Z)) with 0; lia. }
  destruct (present (entry s (pte_addr e2) (PT_INDEX va))); simpl; [| done]; pose proof (pte_addr_range (entry s (pte_addr e2) (PT_INDEX va))).
  change 0xFFF with (2 ^ 12 - 1); rewrite land_ones_mod by lia; rewrite (lor_low _ _ 12); [unfold leaf_of; simpl; change (2 ^ 12) with 4096; lia | lia | tauto |].
  apply Z.mod_pos_bound; lia.
Qed.

(** [arch_vmm_get_physical] reads the translation: on a tree of tables it
    returns the frame of the page, whatever its size, plus the place of the
    byte in it, and 0 where nothing is mapped. *)
Theorem lookup_reads_translation s pgd T va :
  tree s pgd T ->
  arch_vmm_get_physical ram0 s pgd va = match translate s pgd va with Some (frame, _) => frame + va mod 4096 | None => 0 end.
Proof. apply get_physical_ok. Qed.

(** ** Unmapping *)

(** No 2 MiB or 1 GiB page lies on the way to [va]. *)
Definition small_pages s T (va : Z) : Prop :=
  forall f q i, T !! f = Some q -> (length q < 3)%nat -> (q ++ [i]) `prefix_of` indices va -> present (entry s f i) = true -> large (entry s f i) = false.

Lemma table_below s pgd T va f q i :
  tree s pgd T -> small_pages s T va -> T !! f = Some q -> (length q < 3)%nat -> is_index i -> (q ++ [i]) `prefix_of` indices va ->
  present (entry s f i) = true -> T !! pte_addr (entry s f i) = Some (q ++ [i]).
Proof. intros O S Hf Hl Hi Hp Hpr; pose proof (tr_child _ _ _ _ O _ _ _ Hf Hi Hpr Hl) as Hc; by rewrite (S _ _ _ Hf Hl Hp Hpr) in Hc. Qed.

(** The four steps of a translation. *)
Lemma translate_eq s pgd va :
  translate s pgd va =
  let e4 := entry s pgd (PML4_INDEX va) in
  if negb (present e4) then None
  else if large e4 then Some (leaf_of e4 [PDPT_INDEX va; PD_INDEX va; PT_INDEX va])
  else
    let e3 := entry s (pte_addr e4) (PDPT_INDEX va) in
    if negb (present e3) then None
    else if large e3 then Some (leaf_of e3 [PD_INDEX va; PT_INDEX va])
    else
      let e2 := entry s (pte_addr e3) (PD_INDEX va) in
      if negb (present e2) then None
      else if large e2 then Some (leaf_of e2 [PT_INDEX va])
      else let e1 := entry s (pte_addr e2) (PT_INDEX va) in if negb (present e1) then None else Some (leaf_of e1 []).
Proof. done. Qed.

(** The same, read off the state. *)
Definition small_walk s (pgd va : Z) : bool :=
  let e4 := entry s pgd (PML4_INDEX va) in
  let e3 := entry s (pte_addr e4) (PDPT_INDEX va) in
  let e2 := entry s (pte_addr e3) (PD_INDEX va) in
  negb (present e4) || (negb (large e4) && (negb (present e3) || (negb (large e3) && (negb (present e2) || negb (large e2))))).

Lemma small_walk_pages s pgd T va : tree s pgd T -> small_walk s pgd va = true -> small_pages s T va.
Proof.
  intros O S f q i Hf Hl [k Hp] Hpr; unfold small_walk in S; cbv zeta in S; pose proof (tr_parent _ _ _ _ O) as HP.
  destruct q as [| a [| b [| c q]]]; simpl in Hl; [| | | lia]; cbn [app] in Hp.
  - injection Hp as <- _; apply (tr_root _ _ _ _ O) in Hf as ->; rewrite Hpr in S; by destruct (large _).
  - injection Hp as <- <- _; destruct (HP f [] _ Hf) as (g & Hg & H1 & H2 & H3); apply (tr_root _ _ _ _ O) in Hg as ->.
    rewrite H1, H2, H3, Hpr in S; by destruct (large (entry s f _)).
  - injection Hp as <- <- <- _; destruct (HP f [_] _ Hf) as (g & Hg & H1 & H2 & H3); destruct (HP g [] _ Hg) as (h & Hh & H4 & H5 & H6).
    apply (tr_root _ _ _ _ O) in Hh as ->; rewrite H4, H5, H6, H1, H2, H3, Hpr in S; by destruct (large (entry s f _)).
Qed.

(** [arch_vmm_unmap] unmaps one page.  Where no 2 MiB or 1 GiB page lies on
    the way, afterwards the page of [va] translates no more, every other address
    as before, and no other table is written. *)
Theorem unmap_removes_one_page s pgd T va s' rc :
  tree s pgd T -> small_walk s pgd va = true -> arch_vmm_unmap ram0 s pgd va = (s', rc) ->
  rc = 0 /\ keeps s pgd T va s' T /\
  forall va', translate s' pgd va' = if decide (indices va' = indices va) then None else translate s pgd va'.
Proof.
  intros O S%(small_walk_pages s pgd T va O); unfold arch_vmm_unmap; pose proof (proj2 (tr_root _ _ _ _ O pgd) eq_refl) as Hr.
  assert (Habsent : translate s pgd va = None -> (s, 0) = (s', rc) -> rc = 0 /\ keeps s pgd T va s' T /\
    forall va', translate s' pgd va' = if decide (indices va' = indices va) then None else translate s pgd va').
  { intros Hn [= <- <-]; split; [done |]; split; [split; [apply extends_refl | split; [done | apply grows_refl]] |].
    intros va'; case_decide as E; [| done]; unfold PagingProofs.translate in *; by rewrite E. }
  rewrite (translate_eq s pgd va) in Habsent; cbv zeta in Habsent.
  destruct (present (entry s pgd (PML4_INDEX va))) eqn:P4; cbn [negb] in *; [| by apply Habsent].
  pose proof (table_below s pgd T va _ _ (PML4_INDEX va) O S Hr ltac:(simpl; lia) (index_range va 39) ltac:(by eexists) P4) as H4.
  rewrite (S _ _ _ Hr ltac:(simpl; lia) ltac:(by eexists) P4) in Habsent.
  destruct (present (entry s (pte_addr (entry s pgd (PML4_INDEX va))) (PDPT_INDEX va))) eqn:P3; cbn [negb] in *; [| by apply Habsent].
  pose proof (table_below s pgd T va _ _ (PDPT_INDEX va) O S H4 ltac:(simpl; lia) (index_range va 30) ltac:(by eexists) P3) as H3.
  rewrite (S _ _ _ H4 ltac:(simpl; lia) ltac:(by eexists) P3) in Habsent.
  destruct (present (entry s (pte_addr (entry s (pte_addr (entry s pgd (PML4_INDEX va))) (PDPT_INDEX va))) (PD_INDEX va))) eqn:P2; cbn [negb] in *; [| by apply Habsent].
  pose proof (table_below s pgd T va _ _ (PD_INDEX va) O S H3 ltac:(simpl; lia) (index_range va 21) ltac:(by eexists) P2) as H2.
  clear Habsent; set (pt := pte_addr (entry s _ (PD_INDEX va))) in *; intros [= <- <-]; split; [done |].
  destruct (set_leaf s pgd T pt _ (PT_INDEX va) 0 O H2 eq_refl (index_range _ _)) as (O2 & G2 & W1 & W2); split.
  - split; [apply extends_refl |]; split; [by apply tree_log |]; destruct G2 as [B1 B2 B3 B4]; split; try done.
    intros g i Hg Hi Hh Hn; apply B2; try done; intros ->; apply Hn; exists [PML4_INDEX va; PDPT_INDEX va; PD_INDEX va]; split; [done | by exists [PT_INDEX va]].
  - intros va'; case_decide as E; unfold PagingProofs.translate; [rewrite E; exact W1 | exact (W2 (indices va') eq_refl (indices_ok va') E)].
Qed.
End theorems.

(** ** The theorems at work *)

Lemma map_changes_one_page_witness :
  translate zero_ram mmu2 root1 0x400ABC = Some (0x200000, PAGE_USER) /\ translate zero_ram mmu2 root1 0x401000 = None.
Proof.
  destruct (map_changes_one_page zero_ram mmu1 root1 _ _ _ _ _ _ mmu1_tree mmu2_eq) as (T' & _ & [(E & _) | [_ H]]); [done |].
  rewrite (H 0x400ABC), (H 0x401000); split; by vm_compute.
Defined.

Lemma lookup_reads_translation_witness : arch_vmm_get_physical zero_ram mmu1 root1 0x400ABC = 0.
Proof. rewrite (lookup_reads_translation zero_ram mmu1 root1 _ 0x400ABC mmu1_tree); by vm_compute. Defined.

Lemma mmu2_tree : exists T, tree zero_ram mmu2 root1 T.
Proof. destruct (arch_vmm_map_ok zero_ram mmu1 root1 _ _ _ _ _ _ mmu1_tree mmu2_eq) as (T' & (_ & O & _) & _); by exists T'. Qed.

Definition mmu3 : mmu pmm := fst (arch_vmm_unmap zero_ram mmu2 root1 0x400000).

Lemma unmap_removes_one_page_witness :
  small_walk zero_ram mmu2 root1 0x400000 = true /\ translate zero_ram mmu3 root1 0x400ABC = None.
Proof.
  assert (S : small_walk zero_ram mmu2 root1 0x400000 = true) by (by vm_compute); split; [exact S |].
  destruct mmu2_tree as [T O].
  destruct (unmap_removes_one_page zero_ram mmu2 root1 T 0x400000 mmu3 _ O S (surjective_pairing _)) as (_ & _ & H).
  rewrite (H 0x400ABC), decide_True; [done | by vm_compute].
Defined.

(** Unmapping a page inside a 2 MiB page writes into the memory the large page
    maps: the block is taken for a table. *)
Definition mmu_block : mmu pmm := fst (map_chunk zero_ram mmu1 root1 0x200000 0x600000 0x200000 PAGE_USER).
Example unmap_in_large_page_writes_memory :
  let s := with_ram mmu_block (<[slot_addr 0x600000 5 := 42]> (ram mmu_block)) in
  translate zero_ram s root1 0x205000 = Some (0x605000, PAGE_USER) /\
  let s' := fst (arch_vmm_unmap zero_ram s root1 0x205000) in
  translate zero_ram s' root1 0x205000 = Some (0x605000, PAGE_USER) /\ word zero_ram (ram s) (slot_addr 0x600000 5) = 42 /\
  word zero_ram (ram s') (slot_addr 0x600000 5) = 0.
Proof. repeat split; by vm_compute. Qed.
