(* ===== verification/PagingSpaces.v ===== *)
(** * Address spaces

    The space of a new process has the kernel's half and an empty user half;
    what one process maps in its user half no other space sees; what the kernel
    maps in its half all see. *)
From Stdlib Require Import ZArith Lia.
From stdpp Require Import base numbers list gmap.
From S2P Require Import Prelude Bitmap Pmm PmmTheorems Kmalloc KmallocTheorems Paging PagingProofs PagingTheorems.

(** ** Ranges of pages and address spaces

    Protection and mapping of ranges, the check of user ranges, and what the
    spaces of processes share. *)

#[local] Existing Instance amd64.

Section ranges.
Context {P : Type} `{PageAllocOk P} `{!PageAllocDirect P} (ram0 : Z -> Z).
Implicit Types (s : mmu P) (q js : list Z) (T : gmap Z (list Z)).
#[local] Abbreviation entry := (entry ram0).
#[local] Abbreviation tree := (tree ram0).
#[local] Abbreviation walk := (walk ram0).
#[local] Abbreviation translate := (translate ram0).
#[local] Abbreviation down := (down ram0).

(** ** Protection *)

Definition reflag (x : Z) (o : option (Z * Z)) : option (Z * Z) := (fun '(frame, _) => (frame, x)) <$> o.

Lemma descend_eq s f i lvl : descend ram0 s f i lvl = if present (entry s f i) then get_next_table ram0 s f i true lvl else (s, None).
Proof. unfold descend, get_next_table; destruct (present (entry s f i)); [| done]; by destruct (large (entry s f i)). Qed.

Lemma descend_step s pgd T va s1 T1 f q i s2 r :
  down s pgd T va s1 T1 -> T1 !! f = Some q -> (length q < 3)%nat -> is_index i -> (q ++ [i]) `prefix_of` indices va ->
  descend ram0 s1 f i (zlen q) = (s2, r) ->
  exists T2, down s pgd T va s2 T2 /\
    match r with None => present (entry s1 f i) = false \/ exhausted s2 | Some t => T2 !! t = Some (q ++ [i]) end.
Proof.
  intros D Hf Hl Hi Hp; rewrite descend_eq; destruct (present (entry s1 f i)) eqn:E.
  - intros Hr; destruct (down_step ram0 s pgd T va s1 T1 f q i s2 r D Hf Hl Hi Hp Hr) as (T2 & D2 & Ht); exists T2; split; [done |]; destruct r; auto.
  - intros [= <- <-]; exists T1; auto.
Qed.

(** Nothing is mapped below an absent entry. *)
Lemma absent_below s pgd T va s1 T1 f q i rest :
  down s pgd T va s1 T1 -> T1 !! f = Some q -> indices va = q ++ i :: rest -> present (entry s1 f i) = false -> translate s pgd va = None.
Proof.
  intros D Hf E Hp; unfold PagingProofs.translate; rewrite <- (dn_same _ _ _ _ _ _ _ D (indices va)) by (done || apply indices_ok).
  rewrite E, (walk_path ram0 s1 pgd T1 q f _ (dn_tree _ _ _ _ _ _ _ D) Hf) by done; simpl; by rewrite Hp.
Qed.

Lemma protect_page_ok s pgd T v x s' ok :
  tree s pgd T -> is_flags x -> has x X86_PTE_P = true -> protect_page ram0 s pgd v x = (s', ok) ->
  exists T', tree s' pgd T' /\ (ok = false -> translate s pgd v = None \/ exhausted s') /\ forall va', translate s' pgd va' =
    if decide (ok = true /\ indices va' = indices v) then reflag x (translate s pgd va') else translate s pgd va'.
Proof.
  intros O Hx Hxp; unfold protect_page; pose proof (proj2 (tr_root _ _ _ _ O pgd) eq_refl) as Hr; pose proof (down_refl ram0 s pgd T v O) as D.
  assert (Hfail : forall s1 T1, down s pgd T v s1 T1 -> translate s pgd v = None \/ exhausted s1 -> (s1, false) = (s', ok) ->
    exists T', tree s' pgd T' /\ (ok = false -> translate s pgd v = None \/ exhausted s') /\ forall va',
    translate s' pgd va' = if decide (ok = true /\ indices va' = indices v) then reflag x (translate s pgd va') else translate s pgd va').
  { intros s1 T1 D1 Hx1 [= <- <-]; exists T1; split; [apply D1 |]; split; [done |].
    intros va'; rewrite decide_False by (by intros []); apply D1; [done | apply indices_ok]. }
  destruct (present (entry s pgd (PML4_INDEX v))) eqn:P4; cbn [negb]; [| apply (Hfail s T D); left; exact (absent_below s pgd T v s T pgd [] _ [_; _; _] D Hr eq_refl P4)].
  pose proof (tr_child _ _ _ _ O _ _ _ Hr (index_range v 39) P4 ltac:(simpl; lia)) as H4; fold (PML4_INDEX v) in H4.
  destruct (large (entry s pgd (PML4_INDEX v))); [by destruct H4 |]; cbn [app] in H4.
  destruct (descend ram0 s _ (PDPT_INDEX v) 1) as [s2 r2] eqn:E2.
  destruct (descend_step s pgd T v s T _ [PML4_INDEX v] _ s2 r2 D H4 ltac:(simpl; lia) (index_range _ _) ltac:(by eexists) E2) as (T2 & D2 & H2).
  destruct r2 as [pd |]; [| apply (Hfail s2 T2 D2); destruct H2 as [H2 |]; [left; exact (absent_below s pgd T v s T _ [_] _ [_; _] D H4 eq_refl H2) | by right]].
  destruct (descend ram0 s2 pd (PD_INDEX v) 2) as [s3 r3] eqn:E3.
  destruct (descend_step s pgd T v s2 T2 pd _ _ s3 r3 D2 H2 ltac:(simpl; lia) (index_range _ _) ltac:(by eexists) E3) as (T3 & D3 & H3).
  destruct r3 as [pt |]; [| apply (Hfail s3 T3 D3); destruct H3 as [H3 |]; [left; exact (absent_below s pgd T v s2 T2 _ [_; _] _ [_] D2 H2 eq_refl H3) | by right]]; cbn [app] in H3.
  destruct (present (entry s3 pt (PT_INDEX v))) eqn:P1; cbn [negb]; [| apply (Hfail s3 T3 D3); left; exact (absent_below s pgd T v s3 T3 _ [_; _; _] _ [] D3 H3 eq_refl P1)]; intros [= <- <-].
  set (e := entry s3 pt (PT_INDEX v)) in *.
  destruct (set_leaf ram0 s3 pgd T3 pt _ (PT_INDEX v) (Z.lor (pte_addr e) x) (dn_tree _ _ _ _ _ _ _ D3) H3 eq_refl (index_range _ _)) as (O4 & _ & W1 & W2).
  exists T3; split; [done |]; split; [done |]; intros va'; destruct (decide (true = true /\ indices va' = indices v)) as [[_ E] | Hn].
  - assert (Hw : walk s3 pgd (indices v) = Some (leaf_of e [])).
    { etrans; [exact (walk_path ram0 s3 pgd T3 _ pt [PT_INDEX v] (dn_tree _ _ _ _ _ _ _ D3) H3 ltac:(done)) |]; simpl; fold e; by rewrite P1. }
    rewrite present_flags, pte_flags_lor, Hxp in W1 by (done || apply pte_addr_is_addr).
    unfold PagingProofs.translate; rewrite E, <- (dn_same _ _ _ _ _ _ _ D3 (indices v)), Hw by (done || apply indices_ok).
    etrans; [exact W1 |]; unfold leaf_of, reflag; simpl; by rewrite pte_addr_lor, pte_flags_lor by (done || apply pte_addr_is_addr).
  - unfold PagingProofs.translate; rewrite W2 by (done || apply indices_ok || (intros E; by apply Hn)); apply D3; [done | apply indices_ok].
Qed.

(** ** Pages of a range *)

(** One of the [n] pages from [v] on has the indices of [va]. *)
Fixpoint touches (n : nat) (v va : Z) : bool :=
  match n with O => false | S n => bool_decide (indices va = indices v) || touches n (v + 4096) va end.

Lemma page_number va : 0 <= va < 2 ^ 48 -> va / 4096 = ((PML4_INDEX va * 512 + PDPT_INDEX va) * 512 + PD_INDEX va) * 512 + PT_INDEX va.
Proof.
  intros Hva; unfold PML4_INDEX, PDPT_INDEX, PD_INDEX, PT_INDEX; rewrite !index_mod by lia.
  change (2 ^ 39) with (2 ^ 12 * 512 * 512 * 512); change (2 ^ 30) with (2 ^ 12 * 512 * 512); change (2 ^ 21) with (2 ^ 12 * 512).
  rewrite <- !Z.div_div by lia; change (2 ^ 12) with 4096; set (x := va / 4096).
  assert (0 <= x < 512 * 512 * 512 * 512) by (unfold x; split; [apply Z.div_pos; lia | apply Z.div_lt_upper_bound; lia]); clearbody x.
  rewrite (Z.mod_small (x / 512 / 512 / 512)) by (rewrite !Z.div_div by lia; split; [apply Z.div_pos; lia | apply Z.div_lt_upper_bound; lia]).
  pose proof (Z.div_mod x 512 ltac:(lia)); pose proof (Z.div_mod (x / 512) 512 ltac:(lia)); pose proof (Z.div_mod (x / 512 / 512) 512 ltac:(lia)); lia.
Qed.

Lemma index_of_page a k : 12 <= k -> Z.land (Z.shiftr a k) 0x1FF = Z.land (Z.shiftr (a / 4096) (k - 12)) 0x1FF.
Proof. intros Hk; change 4096 with (2 ^ 12); rewrite <- Z.shiftr_div_pow2, Z.shiftr_shiftr by lia; do 2 f_equal; lia. Qed.

(** The indices of an address below 2^48 are its page. *)
Lemma indices_page va va' : 0 <= va < 2 ^ 48 -> 0 <= va' < 2 ^ 48 -> indices va = indices va' <-> va / 4096 = va' / 4096.
Proof.
  intros H1 H2; split; [intros [= E1 E2 E3 E4]; rewrite !page_number by done; congruence |]; intros E.
  unfold indices, PML4_INDEX, PDPT_INDEX, PD_INDEX, PT_INDEX; by rewrite !(index_of_page va), !(index_of_page va'), E by lia.
Qed.

(** Below 2^48 these are the addresses of the pages. *)
Lemma touches_range n v va :
  v mod 4096 = 0 -> 0 <= v -> v + 4096 * Z.of_nat n <= 2 ^ 48 -> 0 <= va < 2 ^ 48 ->
  touches n v va = bool_decide (v <= va < v + 4096 * Z.of_nat n).
Proof.
  revert v; induction n as [| n IH]; intros v Hm Hv Hn Hva; cbn [touches]; [rewrite bool_decide_eq_false_2; [done | lia] |].
  rewrite IH by (try lia; by rewrite Zplus_mod, Hm); pose proof (Z.div_mod va 4096 ltac:(lia)); pose proof (Z.mod_pos_bound va 4096 ltac:(lia));
    pose proof (Z.div_mod v 4096 ltac:(lia)); apply eq_true_iff_eq; rewrite orb_true_iff, !bool_decide_eq_true, indices_page by lia; lia.
Qed.

(** ** Protecting a range *)

Lemma reflag_twice x o : reflag x (reflag x o) = reflag x o.
Proof. by destruct o as [[]|]. Qed.

Lemma next_page v e : 0 <= v -> v < e -> e < 2 ^ 64 -> v mod 4096 = 0 -> e mod 4096 = 0 ->
  v + 4096 <= e /\ u64 (v + 4096) = v + 4096 /\ (v + 4096) mod 4096 = 0 /\ pages v e = S (pages (v + 4096) e).
Proof.
  intros H1 H2 H3 Hv He; pose proof (Z.div_mod v 4096 ltac:(lia)); pose proof (Z.div_mod e 4096 ltac:(lia)).
  assert (v + 4096 <= e) by lia; rewrite u64_small by lia; split; [done |]; split; [done |]; split; [by rewrite Zplus_mod, Hv |].
  unfold pages; replace (e - v) with (e - (v + 4096) + 1 * 4096) by lia; rewrite Z.div_add by lia.
  pose proof (Z.div_pos (e - (v + 4096)) 4096 ltac:(lia) ltac:(lia)); lia.
Qed.

Lemma pages_none v e : e <= v -> 0 < 4096 -> pages v e = O.
Proof. intros Hv _; unfold pages; assert ((e - v) / 4096 <= 0); [| lia]; apply Z.div_le_upper_bound; lia. Qed.

(** The state after [k] pages of a loop from [v] on: their translations went
    through [f], the others stayed. *)
Definition after_pages s s' (pgd : Z) (v : Z) (k : nat) (f : Z -> option (Z * Z) -> option (Z * Z)) : Prop :=
  forall va, translate s' pgd va = if touches k v va then f va (translate s pgd va) else translate s pgd va.

Lemma protect_loop_ok n s pgd T v e x s' rc :
  tree s pgd T -> is_flags x -> has x X86_PTE_P = true -> 0 <= v -> e < 2 ^ 64 -> v mod 4096 = 0 -> e mod 4096 = 0 -> n = pages v e ->
  protect_loop ram0 n s pgd v e x = (s', rc) ->
  exists T' k, tree s' pgd T' /\ after_pages s s' pgd v k (fun _ => reflag x) /\
    (rc = 0 /\ k = n \/ rc = -1 /\ (k < n)%nat /\ (translate s' pgd (v + 4096 * Z.of_nat k) = None \/ exhausted s')).
Proof.
  intros O Hx Hp; revert s T v O; induction n as [| n IH]; intros s T v O Hv He Hvm Hem Hn; simpl.
  { intros [= <- <-]; exists T, 0%nat; split; [done |]; split; [done | by left]. }
  destruct (Z.ltb_spec v e) as [Hlt |]; cbn [negb]; [| rewrite pages_none in Hn by lia; done].
  destruct (next_page v e Hv Hlt He Hvm Hem) as (Hle & Eu & Hm' & En); rewrite Eu.
  destruct (protect_page ram0 s pgd v x) as [s1 ok] eqn:E1; destruct (protect_page_ok s pgd T v x s1 ok O Hx Hp E1) as (T1 & O1 & Hf & Ht); destruct ok.
  - intros Hl; destruct (IH s1 T1 (v + 4096) O1 ltac:(lia) He Hm' Hem ltac:(congruence) Hl) as (T2 & k & O2 & Hk & Hrc).
    exists T2, (S k); split; [done |]; split; [| destruct Hrc as [[-> ->] | (-> & Hlk & Hs)]; [by left | right; split; [done |]; split; [lia |];
      by replace (v + 4096 * Z.of_nat (S k)) with (v + 4096 + 4096 * Z.of_nat k) by lia]].
    intros va; cbn [touches]; rewrite (Hk va), (Ht va); case_bool_decide as E; cbn [orb].
    + rewrite decide_True by done; destruct (touches k (v + 4096) va); [apply reflag_twice | done].
    + by rewrite decide_False by tauto.
  - intros [= <- <-]; exists T1, 0%nat; split; [done |]; split; [intros va; rewrite (Ht va), decide_False by (by intros []); done |].
    right; split; [done |]; split; [lia |]; rewrite Z.add_0_r; destruct (Hf eq_refl) as [Hn0 | Hx0]; [left | by right].
    by rewrite (Ht v), decide_False by (by intros []).
Qed.

Lemma page_down_eq a : is_u64 a -> page_down a = a / 4096 * 4096.
Proof. intros Ha; unfold page_down; change 0xFFF with (2 ^ 12 - 1); rewrite align_down by (done || lia); done. Qed.

(** The bounds of a range rounded to pages. *)
Lemma page_bounds va size :
  0 <= va -> 0 <= size -> va + size + 0xFFF < 2 ^ 64 ->
  0 <= page_down va <= va /\ va < page_down va + 4096 /\ page_down va mod 4096 = 0 /\
  va + size <= page_end va size < va + size + 4096 /\ page_end va size mod 4096 = 0 /\ page_end va size < 2 ^ 64.
Proof.
  intros H1 H2 H3; unfold page_end; rewrite !(u64_small (va + size)), u64_small, !page_down_eq by (unfold is_u64; lia).
  rewrite !Z.mod_mul by lia; pose proof (Z.div_mod va 4096 ltac:(lia)); pose proof (Z.mod_pos_bound va 4096 ltac:(lia)).
  pose proof (Z.div_mod (va + size + 0xFFF) 4096 ltac:(lia)); pose proof (Z.mod_pos_bound (va + size + 0xFFF) 4096 ltac:(lia)).
  pose proof (Z.div_pos va 4096 ltac:(lia) ltac:(lia)); lia.
Qed.

(** [arch_vmm_protect] changes the flags and nothing else.  On a range of
    any size and alignment it gives the pages of the range the flags asked for,
    in order, large pages split as needed, each keeping its frame, and every
    other address translates as before; it stops only at a page that is not
    mapped or when the memory for a split is lacking, and then exactly the pages
    before have changed. *)
Theorem protect_changes_only_flags s pgd T va size flags s' rc :
  tree s pgd T -> 0 <= va -> 0 <= size -> va + size + 0xFFF < 2 ^ 64 ->
  arch_vmm_protect ram0 s pgd va size flags = (s', rc) ->
  let v := page_down va in
  let n := pages v (page_end va size) in
  exists T' k, tree s' pgd T' /\ after_pages s s' pgd v k (fun _ => reflag (x86_leaf_flags flags)) /\
    (rc = 0 /\ k = n \/ rc = -1 /\ (k < n)%nat /\ (translate s' pgd (v + 4096 * Z.of_nat k) = None \/ exhausted s')).
Proof.
  intros O H1 H2 H3; unfold arch_vmm_protect; destruct (page_bounds va size H1 H2 H3) as (A1 & _ & A3 & _ & A5 & A6).
  destruct (protect_loop ram0 _ s pgd _ _ _) as [s1 rc1] eqn:E; intros [= <- <-].
  destruct (protect_loop_ok _ s pgd T _ _ _ s1 rc1 O (leaf_flags_ok flags) (leaf_present flags) (proj1 A1) A6 A3 A5 eq_refl E) as (T' & k & O' & Hk & Hrc).
  exists T', k; split; [by apply tree_log |]; split; [done | exact Hrc].
Qed.

(** ** Mapping a range (vmm.c) *)

(** The translation of the page of [va] in a range mapped from [v] on to the
    frames from [p] on. *)
Definition mapped_to (v p flags va : Z) (_ : option (Z * Z)) : option (Z * Z) :=
  Some (p + (va / 4096 * 4096 - v), x86_leaf_flags flags).

Lemma has_low a : has a 0xFFF = negb (a mod 4096 =? 0).
Proof. unfold has; change 0xFFF with (2 ^ 12 - 1); by rewrite land_ones_mod. Qed.

Lemma vmm_map_loop_ok n s pgd T v p e flags s' rc :
  tree s pgd T -> 0 <= v -> e <= 2 ^ 48 -> v mod 4096 = 0 -> e mod 4096 = 0 -> 0 <= p -> p mod 4096 = 0 -> p + (e - v) <= 2 ^ 52 ->
  n = pages v e -> vmm_map_loop ram0 n s pgd v p e flags = (s', rc) ->
  exists T' k, tree s' pgd T' /\
    (forall va, 0 <= va < 2 ^ 48 -> translate s' pgd va = if touches k v va then mapped_to v p flags va (translate s pgd va) else translate s pgd va) /\
    (rc = 0 /\ k = n \/ rc = -1 /\ (k < n)%nat /\ exhausted s').
Proof.
  intros O; revert s T v p O; induction n as [| n IH]; intros s T v p O Hv He Hvm Hem Hp Hpm Hpe Hn; simpl.
  { intros [= <- <-]; exists T, 0%nat; split; [done |]; split; [done | by left]. }
  destruct (Z.ltb_spec v e) as [Hlt |]; cbn [negb]; [| rewrite pages_none in Hn by lia; done].
  destruct (next_page v e Hv Hlt ltac:(lia) Hvm Hem) as (Hle & Eu & Hm' & En).
  rewrite Eu, (u64_small (p + 4096)) by lia; unfold vmm_map_page; rewrite !has_low, Hvm, Hpm; cbn [Z.eqb negb orb].
  destruct (arch_vmm_map ram0 s pgd v p flags) as [s1 rc1] eqn:E1.
  destruct (arch_vmm_map_ok ram0 s pgd T v p flags s1 rc1 O E1) as (T1 & (_ & O1 & _) & [(-> & Hx & Ht) | (-> & Ht)]); cbn [Z.eqb negb].
  - intros [= <- <-]; exists T1, 0%nat; split; [done |]; split; [intros va _; apply Ht |]; right; split; [done |]; split; [lia | done].
  - intros Hl; assert (Hpm' : (p + 4096) mod 4096 = 0) by (by rewrite Zplus_mod, Hpm).
    destruct (IH s1 T1 (v + 4096) (p + 4096) O1 ltac:(lia) He Hm' Hem ltac:(lia) Hpm' ltac:(lia) ltac:(congruence) Hl) as (T2 & k & O2 & Hk & Hrc).
    exists T2, (S k); split; [done |]; split; [| destruct Hrc as [[-> ->] | (-> & Hlk & Hs)]; [by left | right; split; [done |]; split; [lia | done]]].
    intros va Hva; cbn [touches]; rewrite (Hk va Hva), (Ht va); unfold mapped_to; case_bool_decide as E; cbn [orb].
    + rewrite decide_True by done; assert (Ep : pte_addr p = p) by (apply is_addr_iff; lia); rewrite Ep.
      apply indices_page in E; [| done | lia]; rewrite E; pose proof (Z.div_mod v 4096 ltac:(lia)).
      destruct (touches k (v + 4096) va); do 2 f_equal; lia.
    + rewrite decide_False by done; destruct (touches k (v + 4096) va); do 2 f_equal; lia.
Qed.

(** ** The check of user ranges *)

(** The tables lie below 2^48, where vmm.c's mask of addresses ends. *)
Definition low_tables T : Prop := forall f q, T !! f = Some q -> f < 2 ^ 48.

Lemma vmm_addr_low e : pte_addr e < 2 ^ 48 -> vmm_addr e = pte_addr e.
Proof.
  intros He; unfold vmm_addr; change VMM_ADDR_MASK with (Z.land PTE_ADDR_MASK (Z.ones 48)); rewrite Z.land_assoc, Z.land_ones by lia.
  fold (pte_addr e); apply Z.mod_small; pose proof (pte_addr_range e); lia.
Qed.

(** A page the check accepts. *)
Definition page_grants (mask : Z) (o : option (Z * Z)) : bool :=
  match o with Some (_, fl) => (mask =? 0) || (Z.land fl mask =? mask) | None => false end.

Lemma vmm_next_low s pgd T f q i :
  tree s pgd T -> low_tables T -> T !! f = Some q -> (length q < 3)%nat -> is_index i ->
  (present (entry s f i) = true -> large (entry s f i) = false) ->
  vmm_next_table ram0 s f i = if present (entry s f i) then Some (pte_addr (entry s f i)) else None.
Proof.
  intros O L Hf Hl Hi Hs; unfold vmm_next_table; change (has (entry s f i) PTE_VALID) with (present (entry s f i)).
  destruct (present (entry s f i)) eqn:E; [| done]; rewrite vmm_addr_low; [done |].
  pose proof (tr_child _ _ _ _ O _ _ _ Hf Hi E Hl) as Hc; rewrite Hs in Hc by done; by eapply L.
Qed.

Lemma check_page_ok s pgd T v mask :
  tree s pgd T -> low_tables T -> small_pages ram0 s T v -> is_flags mask ->
  check_page ram0 s pgd v mask = page_grants mask (translate s pgd v).
Proof.
  intros O L S Hm; rewrite translate_eq; unfold check_page; cbv zeta; pose proof (proj2 (tr_root _ _ _ _ O pgd) eq_refl) as Hr.
  pose proof (fun a b c d => table_below ram0 s pgd T v a b c O S d) as TB.
  assert (S4 : present (entry s pgd (PML4_INDEX v)) = true -> large (entry s pgd (PML4_INDEX v)) = false) by (apply (S pgd []); [done | simpl; lia | by eexists]).
  rewrite (vmm_next_low s pgd T _ _ (PML4_INDEX v) O L Hr ltac:(simpl; lia) (index_range v 39) S4).
  destruct (present (entry s pgd (PML4_INDEX v))) eqn:P4; cbn [negb]; [| done]; rewrite S4 by done.
  pose proof (TB _ _ (PML4_INDEX v) Hr ltac:(simpl; lia) (index_range v 39) ltac:(by eexists) P4) as H4.
  set (t3 := pte_addr (entry s pgd (PML4_INDEX v))) in *.
  assert (S3 : present (entry s t3 (PDPT_INDEX v)) = true -> large (entry s t3 (PDPT_INDEX v)) = false) by (apply (S t3 _ _ H4); [simpl; lia | by eexists]).
  rewrite (vmm_next_low s pgd T _ _ (PDPT_INDEX v) O L H4 ltac:(simpl; lia) (index_range v 30) S3).
  destruct (present (entry s t3 (PDPT_INDEX v))) eqn:P3; cbn [negb]; [| done]; rewrite S3 by done.
  pose proof (TB _ _ (PDPT_INDEX v) H4 ltac:(simpl; lia) (index_range v 30) ltac:(by eexists) P3) as H3.
  set (t2 := pte_addr (entry s t3 (PDPT_INDEX v))) in *.
  assert (S2 : present (entry s t2 (PD_INDEX v)) = true -> large (entry s t2 (PD_INDEX v)) = false) by (apply (S t2 _ _ H3); [simpl; lia | by eexists]).
  rewrite (vmm_next_low s pgd T _ _ (PD_INDEX v) O L H3 ltac:(simpl; lia) (index_range v 21) S2).
  destruct (present (entry s t2 (PD_INDEX v))) eqn:P2; cbn [negb]; [| done]; rewrite S2 by done.
  change (has (entry s _ (PT_INDEX v)) PTE_VALID) with (present (entry s (pte_addr (entry s t2 (PD_INDEX v))) (PT_INDEX v))).
  destruct (present (entry s (pte_addr (entry s t2 (PD_INDEX v))) (PT_INDEX v))); cbn [negb andb]; [| done].
  unfold leaf_of, page_grants, pte_flags; do 2 f_equal; rewrite <- Z.land_assoc, (Z.land_comm (not64 _)), Hm; done.
Qed.

(** The indices of an address are those of its page. *)
Lemma indices_down w : indices (w / 4096 * 4096) = indices w.
Proof.
  unfold indices, PML4_INDEX, PDPT_INDEX, PD_INDEX, PT_INDEX; by rewrite !(index_of_page (w / 4096 * 4096)), !(index_of_page w), Z.div_mul by lia.
Qed.

Lemma translate_down s pgd w : translate s pgd (w / 4096 * 4096) = translate s pgd w.
Proof. unfold PagingProofs.translate; by rewrite indices_down. Qed.

Lemma check_loop_ok n s pgd T v e mask :
  tree s pgd T -> low_tables T -> (forall w, v <= w < e -> small_walk ram0 s pgd w = true) -> is_flags mask ->
  0 <= v -> e < 2 ^ 64 -> v mod 4096 = 0 -> e mod 4096 = 0 -> n = pages v e ->
  check_loop ram0 n s pgd v e mask = 0 <-> forall w, v <= w < e -> page_grants mask (translate s pgd w) = true.
Proof.
  intros O L S Hm; revert v S; induction n as [| n IH]; intros v S Hv He Hvm Hem Hn; simpl;
    (destruct (Z.ltb_spec v e) as [Hlt |]; cbn [negb]; [| split; [intros _ w Hw; lia | done]]);
    destruct (next_page v e Hv Hlt He Hvm Hem) as (Hle & Eu & Hm' & En); [congruence |].
  rewrite Eu, (check_page_ok s pgd T v mask O L (small_walk_pages ram0 s pgd T v O (S v ltac:(lia))) Hm).
  assert (Hpage : forall w, v <= w < v + 4096 -> translate s pgd w = translate s pgd v).
  { intros w Hw; rewrite <- (translate_down s pgd w); f_equal; pose proof (Z.div_mod w 4096 ltac:(lia)); pose proof (Z.mod_pos_bound w 4096 ltac:(lia));
      pose proof (Z.div_mod v 4096 ltac:(lia)); lia. }
  destruct (page_grants mask (translate s pgd v)) eqn:Eg; cbn [negb].
  - rewrite (IH (v + 4096)) by (done || lia || congruence || (intros w Hw; apply S; lia)); split; intros Hall w Hw; [| apply Hall; lia].
    destruct (Z_lt_le_dec w (v + 4096)); [by rewrite Hpage by lia | apply Hall; lia].
  - split; [done |]; intros Hall; specialize (Hall v ltac:(lia)); congruence.
Qed.

Lemma check_range_exact s pgd T virt size mask :
  tree s pgd T -> low_tables T -> is_flags mask -> 0 <= virt -> 0 <= size -> virt + size + 0xFFF < 2 ^ 64 ->
  (forall w, page_down virt <= w < page_end virt size -> small_walk ram0 s pgd w = true) ->
  vmm_check_range ram0 s pgd virt size mask = 0 <->
  forall w, page_down virt <= w < page_end virt size -> page_grants mask (translate s pgd w) = true.
Proof.
  intros O L Hm H1 H2 H3 S; destruct (page_bounds virt size H1 H2 H3) as (A1 & _ & A3 & _ & A5 & A6).
  apply (check_loop_ok _ s pgd T _ _ mask O L S Hm (proj1 A1) A6 A3 A5 eq_refl).
Qed.

(** ** Mapping a range, as called *)

(** [vmm_map] maps the pages of a range to consecutive frames, in order: of
    the pages below 2^48 that the rounded range covers, a prefix, all of them
    unless memory ran out, now translate to their frame with the flags asked
    for; every other address translates as before. *)
Theorem range_mapped_in_order s pgd T virt phys size flags s' rc :
  tree s pgd T -> 0 <= virt -> 0 <= size -> page_end virt size <= 2 ^ 48 -> virt + size < 2 ^ 48 -> 0 <= phys -> phys + size + 8192 < 2 ^ 52 ->
  vmm_map ram0 s pgd virt phys size flags = (s', rc) ->
  let v := page_down virt in
  let n := pages v (page_end virt size) in
  exists T' k, tree s' pgd T' /\
    (forall va, 0 <= va < 2 ^ 48 -> translate s' pgd va =
       if touches k v va then mapped_to v (page_down phys) flags va (translate s pgd va) else translate s pgd va) /\
    (rc = 0 /\ k = n \/ rc = -1 /\ (k < n)%nat /\ exhausted s').
Proof.
  intros O H1 H2 H3 H4 H5 H6 Hmap; destruct (page_bounds virt size H1 H2 ltac:(lia)) as (A1 & A2 & A3 & A4 & A5 & A6).
  unfold vmm_map in Hmap; eapply (vmm_map_loop_ok _ s pgd T _ (page_down phys)); try exact Hmap; try done; try lia;
    rewrite page_down_eq by (unfold is_u64; lia); [pose proof (Z.div_pos phys 4096 ltac:(lia) ltac:(lia)); lia | by rewrite Z.mod_mul |].
  pose proof (Z.div_mod phys 4096 ltac:(lia)); pose proof (Z.mod_pos_bound phys 4096 ltac:(lia)); lia.
Qed.
End ranges.

(** ** The theorems at work *)

Lemma pmm_low_tables ram0 (s : mmu pmm) pgd T : tree ram0 s pgd T -> low_tables T.
Proof.
  intros O f q Hf; pose proof (total_bound _ (tr_pool _ _ _ _ O)) as Hb; destruct (tr_frame _ _ _ _ O _ _ Hf) as (Ha & _); apply is_addr_iff in Ha.
  destruct (tr_held _ _ _ _ O _ _ Hf) as (p & Hp & _ & _ & Hin); unfold in_pages in Hin; rewrite page_va_eq in Hin by lia.
  unfold phys_to_virt, u64 in Hin; change (@KERNEL_VIRT_BASE amd64) with 0xFFFF800000000000 in *; change (@MEMORY_BASE amd64) with 0 in *.
  pose proof (Z.div_mod (f + 0xFFFF800000000000) (2 ^ 64) ltac:(lia)); pose proof (Z.mod_pos_bound (f + 0xFFFF800000000000) (2 ^ 64) ltac:(lia)); lia.
Qed.

Definition mmu_ro : mmu pmm := fst (arch_vmm_protect zero_ram mmu2 root1 0x400123 0x100 PTE_VALID).

Lemma protect_changes_only_flags_witness :
  translate zero_ram mmu2 root1 0x400ABC = Some (0x200000, PAGE_USER) /\ translate zero_ram mmu_ro root1 0x400ABC = Some (0x200000, X86_PTE_P).
Proof.
  destruct mmu2_tree as [T O]; split; [by vm_compute |].
  assert (E : arch_vmm_protect zero_ram mmu2 root1 0x400123 0x100 PTE_VALID = (mmu_ro, 0)) by (rewrite (surjective_pairing (arch_vmm_protect _ _ _ _ _ _)); apply f_equal2; [done | by vm_compute]).
  destruct (protect_changes_only_flags zero_ram mmu2 root1 T 0x400123 0x100 PTE_VALID mmu_ro 0 O ltac:(lia) ltac:(lia) ltac:(lia) E)
    as (T' & k & _ & H & [[_ Hk] | [Hc _]]); [| discriminate].
  rewrite (H 0x400ABC), Hk; by vm_compute.
Defined.

Definition mmu_two : mmu pmm := fst (vmm_map zero_ram mmu1 root1 0x400000 0x200000 0x1001 PAGE_USER).

Lemma range_mapped_in_order_witness :
  translate zero_ram mmu_two root1 0x400ABC = Some (0x200000, PAGE_USER) /\ translate zero_ram mmu_two root1 0x401000 = Some (0x201000, PAGE_USER) /\
  translate zero_ram mmu_two root1 0x402000 = None.
Proof.
  assert (E : vmm_map zero_ram mmu1 root1 0x400000 0x200000 0x1001 PAGE_USER = (mmu_two, 0)) by (rewrite (surjective_pairing (vmm_map _ _ _ _ _ _ _)); apply f_equal2; [done | by vm_compute]).
  destruct (range_mapped_in_order zero_ram mmu1 root1 _ 0x400000 0x200000 0x1001 PAGE_USER mmu_two 0 mmu1_tree ltac:(lia) ltac:(lia) ltac:(by vm_compute) ltac:(lia) ltac:(lia) ltac:(lia) E)
    as (T' & k & _ & H & [[_ Hk] | [Hc _]]); [| discriminate].
  rewrite (H 0x400ABC ltac:(lia)), (H 0x401000 ltac:(lia)), (H 0x402000 ltac:(lia)), Hk; repeat split; by vm_compute.
Defined.

(** A range that ends within a page of 2^64 rounds to nothing: the check of it
    succeeds whatever is mapped. *)
Example check_range_wraps : vmm_check_range zero_ram mmu1 root1 (2 ^ 64 - 4096) 4096 PTE_VALID = 0.
Proof. by vm_compute. Qed.

#[local] Existing Instance amd64.

Section spaces.
Context {P : Type} `{PageAllocOk P} `{!PageAllocDirect P} (ram0 : Z -> Z).
Implicit Types (s : mmu P) (q js : list Z) (T : gmap Z (list Z)).
#[local] Abbreviation entry := (entry ram0).
#[local] Abbreviation tree := (tree ram0).
#[local] Abbreviation walk := (walk ram0).
#[local] Abbreviation translate := (translate ram0).

(** ** Trees that were not written *)

Lemma walk_kept s s' pgd T f q js :
  tree s pgd T -> (forall f q i, T !! f = Some q -> is_index i -> entry s' f i = entry s f i) ->
  T !! f = Some q -> (length q + length js <= 4)%nat -> Forall is_index js -> walk s' f js = walk s f js.
Proof.
  intros O K Hf Hl Hj; apply (walk_from ram0 s s' pgd T [] (-1) f q js O); try done.
  - intros g r i Hg Hi _; by eapply K.
  - intros [k E]; destruct q as [| i q]; simpl in E.
    + destruct js as [| j js]; [done |]; injection E as -> _; apply Forall_cons in Hj as [Hj _]; unfold is_index in Hj; lia.
    + injection E as -> _; apply (tr_frame _ _ _ _ O) in Hf as (_ & _ & Hq); apply Forall_cons in Hq as [Hq _]; unfold is_index in Hq; lia.
Qed.

(** The tables are still in use and their words unchanged. *)
Lemma tree_kept_on s s' pgd T :
  tree s pgd T -> pa_valid (pool s') -> (forall f q, T !! f = Some q -> pa_held (pool s') (phys_to_virt f)) ->
  (forall f q i, T !! f = Some q -> is_index i -> entry s' f i = entry s f i) ->
  tree s' pgd T /\ forall va, translate s' pgd va = translate s pgd va.
Proof.
  intros O Hv Hh K; split.
  - destruct O as [O1 O2 O3 O4 O5 O6]; split; try done.
    + intros f q i Hf Hi; rewrite (K f q i) by done; by apply O5.
    + intros f q i Hf; destruct (O6 f q i Hf) as (g & Hg & H2); exists g; rewrite (K g q i); [done | done |].
      apply O3 in Hf as (_ & _ & Hf); apply Forall_app in Hf as [_ Hf]; by inversion Hf.
  - intros va; apply (walk_kept s s' pgd T pgd []); [done | done | by apply (tr_root _ _ _ _ O) | simpl; lia | apply indices_ok].
Qed.

Lemma tree_kept s s' pgd T :
  tree s pgd T -> pa_valid (pool s') -> (forall a, pa_held (pool s) a -> pa_held (pool s') a) ->
  (forall f q i, T !! f = Some q -> is_index i -> entry s' f i = entry s f i) ->
  tree s' pgd T /\ forall va, translate s' pgd va = translate s pgd va.
Proof. intros O Hv Hh K; apply tree_kept_on; try done; intros f q Hf; eapply Hh, tr_held; eauto. Qed.

Lemma tree_with_kernel s k pgd T : tree s pgd T -> tree (with_kernel_pgd s k) pgd T.
Proof. intros [O1 O2 O3 O4 O5 O6]; split; assumption. Qed.

(** ** Two spaces *)

(** The tables two spaces share lie at the same place of the kernel's half. *)
Definition apart (TA TB : gmap Z (list Z)) : Prop :=
  forall f qa qb, TA !! f = Some qa -> TB !! f = Some qb -> qa = qb /\ exists i q, qa = i :: q /\ 256 <= i.

(** C19: what a process maps in its user half is its own.  Where two spaces share
    tables of the kernel's half only, mapping a page below the kernel's half in
    one, successful or not, changes no translation of the other and keeps the
    two apart. *)
Theorem user_mapping_private s A B TA TB va pa flags s' rc :
  tree s A TA -> tree s B TB -> apart TA TB -> PML4_INDEX va < 256 -> arch_vmm_map ram0 s A va pa flags = (s', rc) ->
  exists TA', tree s' A TA' /\ tree s' B TB /\ apart TA' TB /\ forall va', translate s' B va' = translate s B va'.
Proof.
  intros OA OB X Hva Hm; destruct (arch_vmm_map_ok ram0 s A TA va pa flags s' rc OA Hm) as (TA' & (E & OA' & G) & _).
  assert (K : forall f q i, TB !! f = Some q -> is_index i -> entry s' f i = entry s f i).
  { intros f q i Hf Hi; apply (gr_keep _ _ _ _ G); [by apply (tr_frame _ _ _ _ OB) in Hf as [] | done | by eapply tr_held |].
    intros (qa & Hqa & Hp); destruct (X f qa q Hqa Hf) as (-> & j & r & -> & Hj); apply prefix_cons_inv_1 in Hp; lia. }
  destruct (tree_kept s s' B TB OB (tr_pool _ _ _ _ OA') (gr_held _ _ _ _ G) K) as [OB' HB].
  exists TA'; split; [done |]; split; [done |]; split; [| done]; intros f qa qb Ha Hb; destruct E as [_ E]; destruct (E _ _ Ha) as [Ha' | Hn].
  - by apply (X f).
  - by destruct Hn; eapply tr_held.
Qed.

(** The root of [B] has the entries of the kernel's half of [K]. *)
Definition shares s (K B : Z) : Prop := forall i, 256 <= i < 512 -> entry s B i = entry s K i.

Lemma translate_head s pgd va :
  translate s pgd va =
  let e := entry s pgd (PML4_INDEX va) in
  let rest := [PDPT_INDEX va; PD_INDEX va; PT_INDEX va] in
  if negb (present e) then None else if large e then Some (leaf_of e rest) else walk s (pte_addr e) rest.
Proof. done. Qed.

Lemma shares_translate s K B va : shares s K B -> 256 <= PML4_INDEX va -> translate s B va = translate s K va.
Proof. intros Hs Hi; rewrite !translate_head, (Hs (PML4_INDEX va)); [done |]; pose proof (index_range va 39); unfold PML4_INDEX, is_index in *; lia. Qed.

(** what the kernel maps in its half every process sees.  Where the root of a
    process has the kernel's top-level entries and the kernel's entry for the
    page is there, after a mapping in the kernel's space every address of the
    kernel's half translates for the process as for the kernel. *)
Theorem kernel_mapping_visible s K B TK TB va pa flags s' rc :
  tree s K TK -> tree s B TB -> TK !! B = None -> shares s K B ->
  256 <= PML4_INDEX va -> present (entry s K (PML4_INDEX va)) = true -> arch_vmm_map ram0 s K va pa flags = (s', rc) ->
  forall va', 256 <= PML4_INDEX va' -> translate s' B va' = translate s' K va'.
Proof.
  intros OK OB HB Hs Hva Hpres Hm va' Hva'; destruct (arch_vmm_map_ok ram0 s K TK va pa flags s' rc OK Hm) as (TK' & ([Hsub _] & OK' & G) & Hres).
  pose proof (proj2 (tr_root _ _ _ _ OK K) eq_refl) as HrK; pose proof (proj2 (tr_root _ _ _ _ OB B) eq_refl) as HrB.
  set (i := PML4_INDEX va') in *; assert (Hi : is_index i) by apply (index_range va' 39).
  assert (EB : entry s' B i = entry s K i).
  { rewrite <- (Hs i) by (unfold is_index in Hi; lia); apply (gr_keep _ _ _ _ G); [by apply (tr_frame _ _ _ _ OB) in HrB as [] | done | by eapply tr_held |].
    intros (q & Hq & _); congruence. }
  rewrite (translate_head s' B), (translate_head s' K); fold i; cbv zeta; rewrite EB; destruct (present (entry s K i)) eqn:Ep; cbn [negb].
  - pose proof (tr_child _ _ _ _ OK _ _ _ HrK Hi Ep ltac:(simpl; lia)) as Hc; destruct (large (entry s K i)); [by destruct Hc |].
    pose proof (lookup_weaken _ _ _ _ Hc Hsub) as Hc'; destruct (tr_parent _ _ _ _ OK' _ [] i Hc') as (g & Hg & H1 & H2 & H3).
    apply (tr_root _ _ _ _ OK') in Hg as ->; by rewrite H1, H2, H3.
  - assert (Hn : indices va' <> indices va) by (intros [= E _ _ _]; unfold i in Ep; congruence).
    assert (Ht : translate s' K va' = translate s K va') by (destruct Hres as [(_ & _ & ->) | [_ ->]]; [done | by rewrite decide_False]).
    rewrite !translate_head in Ht; fold i in Ht; cbv zeta in Ht; rewrite Ep in Ht; cbn [negb] in Ht; done.
Qed.

(** ** A new process *)

(** The tables of the kernel's half. *)
Definition upper (T : gmap Z (list Z)) : gmap Z (list Z) := filter (fun e => 256 <= default 0 (head e.2)) T.

Lemma upper_spec T f q : upper T !! f = Some q <-> T !! f = Some q /\ exists i r, q = i :: r /\ 256 <= i.
Proof.
  unfold upper; rewrite map_lookup_filter_Some; simpl; split; intros [Hf Hq]; split; try done.
  - destruct q as [| i r]; simpl in Hq; [lia | eauto].
  - destruct Hq as (i & r & -> & Hi); done.
Qed.

(** The copy of the kernel's entries. *)
Lemma entry_copied s t l f i :
  is_addr t -> is_addr (kernel_pgd s) -> kernel_pgd s <> t -> Forall is_index l -> is_addr f -> is_index i ->
  entry (foldl (fun s i => set_entry s t i (entry s (kernel_pgd s) i)) s l) f i =
  if decide (f = t /\ i ∈ l) then entry s (kernel_pgd s) i else entry s f i.
Proof.
  intros Ht Hk Hne Hl Hf Hi; revert s Hk Hne; induction Hl as [| j l Hj Hl IH]; intros s Hk Hne; simpl.
  { rewrite decide_False by (intros [_ []%elem_of_nil]); done. }
  rewrite IH by done; simpl; rewrite !entry_set by done.
  rewrite (decide_False (P := kernel_pgd s = t /\ i = j)) by tauto.
  destruct (decide (f = t /\ i ∈ l)) as [[-> Hin] |]; [by rewrite decide_True by (split; [done | by right]) |].
  destruct (decide (f = t /\ i = j)) as [[-> ->] |]; [by rewrite decide_True by (split; [done | by left]) |].
  rewrite decide_False; [done |]; intros [-> [-> |]%elem_of_cons]; tauto.
Qed.

Lemma copy_rest s t l : let s' := foldl (fun s i => set_entry s t i (entry s (kernel_pgd s) i)) s l in pool s' = pool s /\ kernel_pgd s' = kernel_pgd s.
Proof. revert s; induction l as [| i l IH]; intros s; [done |]; simpl; by destruct (IH (set_entry s t i (entry s (kernel_pgd s) i))) as [-> ->]. Qed.

Lemma new_space_ok s TK s' pml4 :
  tree s (kernel_pgd s) TK -> arch_vmm_create_process_pgd ram0 s = (s', pml4) ->
  (s' = s /\ pml4 = 0 /\ exhausted s) \/
  exists T, tree s' pml4 T /\ tree s' (kernel_pgd s) TK /\ apart T TK /\ TK !! pml4 = None /\ shares s' (kernel_pgd s) pml4 /\
    (forall va, translate s' (kernel_pgd s) va = translate s (kernel_pgd s) va) /\
    forall va, translate s' pml4 va = if PML4_INDEX va <? 256 then None else translate s (kernel_pgd s) va.
Proof.
  intros O; unfold arch_vmm_create_process_pgd.
  assert (Hidx : Forall is_index (seqZ 256 256)) by (apply seq_index; lia).
  assert (Hin : forall i, i ∈ seqZ 256 256 <-> 256 <= i < 256 + 256) by (intros i; apply elem_of_seqZ).
  generalize dependent (seqZ 256 256); intros l Hidx Hin; destruct (new_table s) as [s1 [t |]] eqn:En; pose proof (new_table_ok ram0 _ _ _ (tr_pool _ _ _ _ O) En) as Hn.
  2: { destruct Hn as [-> Hx]; intros [= <- <-]; by left. }
  destruct Hn as (Ht & Hfresh & Hheld & Hv & Hz & G); intros [= <- <-]; right; set (K := kernel_pgd s) in *.
  pose proof (proj2 (tr_root _ _ _ _ O K) eq_refl) as HrK; destruct (tr_frame _ _ _ _ O _ _ HrK) as (HK & _ & _).
  assert (HtT : TK !! t = None) by (destruct (TK !! t) eqn:E; [by destruct Hfresh; eapply tr_held | done]).
  assert (Hne : K <> t) by congruence; pose proof (gr_kernel _ _ _ _ G) as Ek; fold K in Ek.
  pose proof (entry_copied s1 t l) as Ec; rewrite Ek in Ec.
  destruct (copy_rest s1 t l) as [Ep _]; cbv zeta in Ep; set (s2 := foldl _ s1 l) in *.
  assert (Kk : forall f q i, TK !! f = Some q -> is_index i -> entry s2 f i = entry s f i).
  { intros f q i Hf Hi; rewrite Ec; try done; [| by apply (tr_frame _ _ _ _ O) in Hf as []]; rewrite decide_False by (intros [-> _]; congruence).
    apply (gr_keep _ _ _ _ G); [by apply (tr_frame _ _ _ _ O) in Hf as [] | done | by eapply tr_held | auto]. }
  destruct (tree_kept s s2 K TK O) as [OK HK2]; [by rewrite Ep | rewrite Ep; apply (gr_held _ _ _ _ G) | exact Kk |].
  assert (Et : forall i, is_index i -> entry s2 t i = if 256 <=? i then entry s2 K i else 0).
  { intros i Hi; rewrite (Kk K [] i HrK Hi), Ec by done; destruct (Z.leb_spec 256 i).
    - rewrite decide_True by (split; [done | apply Hin; unfold is_index in Hi; lia]).
      apply (gr_keep _ _ _ _ G); [done | done | by eapply tr_held | auto].
    - rewrite decide_False by (intros [_ Hl%Hin]; lia); by apply Hz. }
  assert (Hs : shares s2 K t) by (intros i Hi; rewrite Et by (unfold is_index; lia); by destruct (Z.leb_spec 256 i); [| lia]).
  exists (<[t := []]> (upper TK)).
  assert (Hlook : forall f q, <[t := []]> (upper TK) !! f = Some q <-> (f = t /\ q = []) \/ (TK !! f = Some q /\ exists i r, q = i :: r /\ 256 <= i)).
  { intros f q; rewrite lookup_insert_Some, upper_spec; split; [intros [[<- <-] | [_ ?]]; auto |].
    intros [[-> ->] | [Hf Hq]]; [by left | right; split; [congruence | done]]. }
  split; [| split; [done |]; split; [| split; [done |]; split; [done |]; split; [done |]]].
  - split.
    + by rewrite Ep.
    + intros f; rewrite Hlook; split; [intros [[-> _] | [_ (i & r & ? & _)]]; done | intros ->; by left].
    + intros f q [[-> ->] | [Hf _]]%Hlook; [split; [done |]; split; [simpl; lia | done] | by apply (tr_frame _ _ _ _ O)].
    + intros f q [[-> ->] | [Hf _]]%Hlook; rewrite Ep; [done | by eapply (gr_held _ _ _ _ G), tr_held].
    + intros f q i Hf Hi Hpr Hl; apply Hlook in Hf as [[-> ->] | (Hf & j & r & -> & Hj)].
      * rewrite Et in * by done; destruct (Z.leb_spec 256 i); [| done]; pose proof (tr_child _ _ _ _ OK _ _ _ HrK Hi Hpr Hl) as Hc.
        destruct (large (entry s2 K i)); [done |]; apply Hlook; right; split; [done |]; by exists i, [].
      * pose proof (tr_child _ _ _ _ OK _ _ _ Hf Hi Hpr Hl) as Hc; destruct (large (entry s2 f i)); [done |].
        apply Hlook; right; split; [done |]; by exists j, (r ++ [i]).
    + intros f q i [[-> E] | (Hf & j & r & E & Hj)]%Hlook; [by destruct q |].
      destruct (tr_parent _ _ _ _ OK _ _ _ Hf) as (g & Hg & H1 & H2 & H3); destruct q as [| j' q].
      * apply (tr_root _ _ _ _ OK) in Hg as ->; injection E as -> <-; exists t; rewrite Hlook.
        pose proof (tree_index ram0 _ _ _ f [] j OK Hf) as Hi; rewrite (Hs j) by (unfold is_index in Hi; lia); split; [by left | done].
      * injection E as -> _; exists g; rewrite Hlook; split; [right; split; [done | by exists j, q] | done].
  - intros f qa qb [[-> ->] | (Hf & i & r & -> & Hi)]%Hlook Hb; [congruence |]; rewrite Hf in Hb; injection Hb as <-; eauto.
  - intros va; destruct (Z.ltb_spec (PML4_INDEX va) 256).
    + rewrite translate_head; cbv zeta; rewrite Et by apply (index_range va 39); by destruct (Z.leb_spec 256 (PML4_INDEX va)); [lia |].
    + rewrite (shares_translate s2 K t va Hs) by lia; apply HK2.
Qed.

(** a new process starts with the kernel's half and nothing else.  If a page
    is left, [arch_vmm_create_process_pgd] returns the root of a tree on that
    page in which the addresses of the user half translate to nothing and those
    of the kernel's half as the kernel's own; it shares no table with the kernel
    but those of the kernel's half, and the kernel's space is as before. *)
Theorem new_space_is_kernel_half s TK s' pml4 :
  tree s (kernel_pgd s) TK -> arch_vmm_create_process_pgd ram0 s = (s', pml4) ->
  (s' = s /\ pml4 = 0 /\ exhausted s) \/
  exists T, tree s' pml4 T /\ tree s' (kernel_pgd s) TK /\ apart T TK /\ TK !! pml4 = None /\ shares s' (kernel_pgd s) pml4 /\
    (forall va, translate s' (kernel_pgd s) va = translate s (kernel_pgd s) va) /\
    forall va, translate s' pml4 va = if PML4_INDEX va <? 256 then None else translate s (kernel_pgd s) va.
Proof. apply new_space_ok. Qed.
End spaces.

(** ** The theorems at work *)

(** The kernel has mapped one page of its half; a process is created. *)
Definition KERNEL_VA : Z := 0xFFFF900000000000.
Definition mmuk : mmu pmm := with_kernel_pgd (fst (arch_vmm_map zero_ram mmu1 root1 KERNEL_VA 0x200000 PAGE_KERNEL)) root1.
Definition mmup : mmu pmm := fst (arch_vmm_create_process_pgd zero_ram mmuk).
Definition rootp : Z := snd (arch_vmm_create_process_pgd zero_ram mmuk).

Lemma mmuk_tree : exists T, tree zero_ram mmuk (kernel_pgd mmuk) T.
Proof.
  destruct (arch_vmm_map_ok zero_ram mmu1 root1 _ KERNEL_VA 0x200000 PAGE_KERNEL _ _ mmu1_tree (surjective_pairing _)) as (T & (_ & O & _) & _).
  exists T; exact (tree_with_kernel zero_ram _ root1 root1 T O).
Qed.

Lemma mmup_new : arch_vmm_create_process_pgd zero_ram mmuk = (mmup, rootp) /\ rootp <> 0.
Proof. split; [apply surjective_pairing | by vm_compute]. Qed.

Lemma new_space_is_kernel_half_witness :
  translate zero_ram mmup rootp 0x400000 = None /\ translate zero_ram mmup rootp KERNEL_VA = Some (0x200000, x86_leaf_flags PAGE_KERNEL).
Proof.
  destruct mmuk_tree as [T O], mmup_new as [E Hne].
  destruct (new_space_is_kernel_half zero_ram mmuk T mmup rootp O E) as [(_ & Hz & _) | (T' & _ & _ & _ & _ & _ & _ & H)]; [destruct (Hne Hz) |].
  rewrite (H 0x400000), (H KERNEL_VA); split; by vm_compute.
Defined.

(** The process maps a page of its own. *)
Definition mmup1 : mmu pmm := fst (arch_vmm_map zero_ram mmup rootp 0x400000 0x300000 PAGE_USER).

Lemma user_mapping_private_witness :
  translate zero_ram mmup1 root1 0x400000 = None /\ translate zero_ram mmup1 rootp 0x400000 = Some (0x300000, PAGE_USER).
Proof.
  destruct mmuk_tree as [T O], mmup_new as [E Hne].
  destruct (new_space_ok zero_ram mmuk T mmup rootp O E) as [(_ & Hz & _) | (T' & OB & OK & X & _ & _ & HK & _)]; [destruct (Hne Hz) |].
  destruct (user_mapping_private zero_ram mmup rootp root1 T' T 0x400000 0x300000 PAGE_USER mmup1 _ OB OK X ltac:(by vm_compute) (surjective_pairing _))
    as (_ & _ & _ & _ & H).
  split; [rewrite (H 0x400000); exact (eq_trans (HK 0x400000) ltac:(by vm_compute)) | by vm_compute].
Defined.

(** The kernel maps a second page next to the first. *)
Definition mmuk1 : mmu pmm := fst (arch_vmm_map zero_ram mmup root1 (KERNEL_VA + 4096) 0x300000 PAGE_KERNEL).

Lemma kernel_mapping_visible_witness :
  translate zero_ram mmup rootp (KERNEL_VA + 4096) = None /\
  translate zero_ram mmuk1 rootp (KERNEL_VA + 4096) = Some (0x300000, x86_leaf_flags PAGE_KERNEL).
Proof.
  destruct mmuk_tree as [T O], mmup_new as [E Hne].
  destruct (new_space_ok zero_ram mmuk T mmup rootp O E) as [(_ & Hz & _) | (T' & OB & OK & _ & HT & Hs & _)]; [destruct (Hne Hz) |].
  split; [by vm_compute |].
  rewrite (kernel_mapping_visible zero_ram mmup root1 rootp T T' (KERNEL_VA + 4096) 0x300000 PAGE_KERNEL mmuk1 _ OK OB HT Hs
    ltac:(by vm_compute) ltac:(by vm_compute) (surjective_pairing _) (KERNEL_VA + 4096) ltac:(by vm_compute)); by vm_compute.
Defined.
