(* ===== verification/Uaccess.v ===== *)
(** * User memory (kernel/arch/amd64/mm/uaccess.c)

    The copies between the kernel and user memory, over the page tables of the
    current process: what is checked, what is then read or written, and when the
    access itself traps: the checks walk the tables in software, the access is
    the processor's.  It takes a general protection fault at an address from
    2^47 on, which is not canonical, and a page fault when it writes a page that
    some level of the tables does not let it write (CR0.WP is set). *)
From Stdlib Require Import ZArith Lia.
From stdpp Require Import base numbers list gmap.
From S2P Require Import Prelude Pmm Kmalloc Paging PagingProofs PagingTheorems PagingSpaces.

Definition vmm_is_user_addr (addr : Z) : bool := (0x1000 <=? addr) && (Z.land addr 0xFFFF000000000000 =? 0).

(** How a copy ends: done, refused with -1, or cut short by a trap in the kernel.
    The handler kills the process for a page fault inside a copy; nothing
    catches a general protection fault there. *)
Inductive trap := GP | PF.
Inductive copied (A : Type) := Copied (a : A) | Refused | Trapped (t : trap).
#[global] Arguments Copied {A} a.
#[global] Arguments Refused {A}.
#[global] Arguments Trapped {A} t.

Section uaccess.
Context {P : Type} `{PageAlloc P} (ram0 : Z -> Z).
(** The bytes of memory, by physical address. *)
Context (phys : Z -> Z).
Implicit Types (s : mmu P).

(** The byte at a user address. *)
Definition user_byte s (pgd a : Z) : Z := phys (arch_vmm_get_physical ram0 s pgd a).

(** What the processor does at an address below 2^48 that is mapped. *)
Definition canonical (a : Z) : bool := a <? 2 ^ 47.

Definition read_trap (a : Z) : option trap := if canonical a then None else Some GP.

(** Every level down to the page allows writing. *)
Definition hw_writable s (pgd a : Z) : bool :=
  let rw e := negb (Z.land e X86_PTE_RW =? 0) in
  let e4 := entry ram0 s pgd (PML4_INDEX a) in
  rw e4 &&
  let e3 := entry ram0 s (pte_addr e4) (PDPT_INDEX a) in
  rw e3 && (large e3 ||
    let e2 := entry ram0 s (pte_addr e3) (PD_INDEX a) in
    rw e2 && (large e2 || rw (entry ram0 s (pte_addr e2) (PT_INDEX a)))).

Definition write_trap s (pgd a : Z) : option trap :=
  if negb (canonical a) then Some GP else if hw_writable s pgd a then None else Some PF.

(** The first trap of the accesses to the bytes from [a] on, in order. *)
Definition first_trap (f : Z -> option trap) (a n : Z) : option trap := head (omap f (seqZ a n)).

(** The checks before a copy; [pgd] is the page table of the current process,
    if there is one. [n] is not 0. *)
Definition range_checked s (pgd : option Z) (addr n : Z) : bool :=
  negb (negb (vmm_is_user_addr addr) || negb (vmm_is_user_addr (u64 (addr + n - 1)))) &&
  match pgd with Some pgd => vmm_check_range ram0 s pgd addr n PTE_VALID =? 0 | None => false end.

(** The bytes read; -1 is [Refused]. *)
Definition arch_copy_from_user s (pgd : option Z) (src n : Z) : copied (list Z) :=
  if u64 (src + n) <? src then Refused
  else if n =? 0 then Copied []
  else if range_checked s pgd src n then
    match first_trap read_trap src n with
    | Some t => Trapped t
    | None => Copied ((fun i => user_byte s (default 0 pgd) (src + i)) <$> seqZ 0 n)
    end
  else Refused.

(** The bytes written, with their physical addresses.  What a copy that traps has
    written before is not in its result. *)
Definition arch_copy_to_user s (pgd : option Z) (dest : Z) (bytes : list Z) : copied (list (Z * Z)) :=
  let n := zlen bytes in
  if u64 (dest + n) <? dest then Refused
  else if n =? 0 then Copied []
  else if range_checked s pgd dest n then
    match first_trap (write_trap s (default 0 pgd)) dest n with
    | Some t => Trapped t
    | None => Copied (imap (fun i b => (arch_vmm_get_physical ram0 s (default 0 pgd) (dest + Z.of_nat i), b)) bytes)
    end
  else Refused.

(** The loop of the string copy from index [i] on, with [room] bytes left:
    the result, the length, and the bytes stored, the last of them the NUL if it
    was met. *)
Fixpoint copy_string_loop (room : nat) s (pgd src i : Z) : copied (Z * Z * list Z) :=
  match room with
  | O => Copied (0, i, [])
  | S room =>
    let a := u64 (src + i) in
    if ((i =? 0) || (Z.land a 0xFFF =? 0)) && negb (vmm_check_range ram0 s pgd a 1 PTE_VALID =? 0) then Copied (-1, i, [])
    else if negb (canonical a) then Trapped GP
    else
      let c := user_byte s pgd a in
      if c =? 0 then Copied (0, i, [0])
      else
        match copy_string_loop room s pgd src (i + 1) with
        | Copied (ret, len, l) => Copied (ret, len, c :: l)
        | other => other
        end
  end.

(** The result, the length, whether the source was longer, the bytes stored. *)
Definition arch_copy_string_from_user_n s (pgd : option Z) (src max_len : Z) : copied (Z * Z * bool * list Z) :=
  if negb (vmm_is_user_addr src) then Copied (-1, 0, false, [])
  else
    match pgd with
    | None => Copied (-1, 0, false, [])
    | Some pgd =>
      if max_len =? 0 then Copied (-1, 0, false, [])
      else
        match copy_string_loop (Z.to_nat (max_len - 1)) s pgd src 0 with
        | Copied (ret, len, l) => Copied (ret, len, (ret =? 0) && (len =? max_len - 1), l)
        | Refused => Refused
        | Trapped t => Trapped t
        end
    end.
End uaccess.

(** ** What the checks give *)

Lemma user_addr_spec a : is_u64 a -> vmm_is_user_addr a = true <-> 0x1000 <= a < 2 ^ 48.
Proof.
  unfold is_u64, vmm_is_user_addr; intros Ha; rewrite andb_true_iff, Z.leb_le, Z.eqb_eq.
  assert (E : Z.land a 0xFFFF000000000000 = a / 2 ^ 48 * 2 ^ 48).
  { change 0xFFFF000000000000 with (not64 (2 ^ 48 - 1)); apply align_down; [done | lia]. }
  rewrite E; pose proof (Z.div_mod a (2 ^ 48) ltac:(lia)); pose proof (Z.mod_pos_bound a (2 ^ 48) ltac:(lia)); split; intros [H1 H2]; split; lia.
Qed.

Section checks.
Context {P : Type} `{PageAllocOk P} `{!PageAllocDirect P} (ram0 phys : Z -> Z).
Implicit Types (s : mmu P).

(** A mapped page grants what the copies ask for: a leaf is always valid. *)
Lemma grants_valid s pgd a : page_grants PTE_VALID (translate ram0 s pgd a) = bool_decide (is_Some (translate ram0 s pgd a)).
Proof.
  destruct (translate ram0 s pgd a) as [[f fl] |] eqn:E; simpl; [| done].
  assert (Hv : Z.land fl PTE_VALID = PTE_VALID); [| rewrite Hv; done].
  revert E; unfold translate; generalize (indices a); intros js; revert pgd; induction js as [| i js IH]; intros t; [done |]; simpl.
  destruct (present (entry ram0 s t i)) eqn:Ep; [| done]; rewrite present_flags in Ep; cbn [negb].
  assert (Hb : Z.land (pte_flags (entry ram0 s t i)) 1 = 1).
  { unfold has, X86_PTE_P in Ep; apply negb_true_iff, Z.eqb_neq in Ep; change 1 with (Z.ones 1) in *; rewrite Z.land_ones in * by lia;
      pose proof (Z.mod_pos_bound (pte_flags (entry ram0 s t i)) (2 ^ 1) ltac:(lia)); change (2 ^ 1) with 2 in *; change (Z.ones 1) with 1; lia. }
  destruct js as [| j js]; [intros [= _ <-]; exact Hb |]; destruct (large (entry ram0 s t i)); [| apply IH].
  intros [= _ <-]; unfold PTE_VALID; by rewrite <- Z.land_assoc.
Qed.
End checks.

Section copies.
Context {P : Type} `{PageAllocOk P} `{!PageAllocDirect P} (ram0 phys : Z -> Z).
Implicit Types (s : mmu P).

Lemma indices_same a b : a / 4096 = b / 4096 -> indices a = indices b.
Proof. intros E; by rewrite <- (indices_down a), <- (indices_down b), E. Qed.

Lemma small_walk_same s pgd a b : indices a = indices b -> small_walk ram0 s pgd a = small_walk ram0 s pgd b.
Proof. unfold indices; intros [= E4 E3 E2 E1]; unfold small_walk; by rewrite E4, E3, E2. Qed.

(** Every page of a rounded range has a byte of the range. *)
Lemma page_byte a n w : 0 <= a -> 0 < n -> a + n + 0xFFF < 2 ^ 64 -> page_down a <= w < page_end a n ->
  exists b, a <= b < a + n /\ indices b = indices w.
Proof.
  intros Ha Hn Hb Hw; destruct (page_bounds a n Ha ltac:(lia) Hb) as (A1 & A2 & A3 & A4 & A5 & A6).
  pose proof (Z.div_mod w 4096 ltac:(lia)); pose proof (Z.mod_pos_bound w 4096 ltac:(lia)).
  pose proof (Z.div_mod (page_down a) 4096 ltac:(lia)); pose proof (Z.div_mod (page_end a n) 4096 ltac:(lia)).
  exists (Z.max a (w / 4096 * 4096)); split; [lia |]; apply indices_same; destruct (Z.max_spec a (w / 4096 * 4096)) as [[_ ->] | [? ->]].
  - by rewrite Z.div_mul.
  - symmetry; apply (Z.div_unique a 4096 (w / 4096) (a - w / 4096 * 4096)); lia.
Qed.

Lemma check_bytes s pgd T a n :
  tree ram0 s pgd T -> low_tables T -> 0 <= a -> 0 < n -> a + n + 0xFFF < 2 ^ 64 ->
  (forall b, a <= b < a + n -> small_walk ram0 s pgd b = true) ->
  vmm_check_range ram0 s pgd a n PTE_VALID = 0 <-> forall b, a <= b < a + n -> is_Some (translate ram0 s pgd b).
Proof.
  intros O L H1 H2 H3 S; rewrite (check_range_exact ram0 s pgd T a n PTE_VALID O L) by
    (first [done | lia | intros w Hw; destruct (page_byte a n w H1 H2 H3 Hw) as (b & Hb & E); rewrite <- (small_walk_same s pgd b w E); by apply S]).
  destruct (page_bounds a n H1 ltac:(lia) H3) as (A1 & A2 & A3 & A4 & A5 & A6).
  split; intros F b Hb.
  - specialize (F b ltac:(lia)); rewrite grants_valid in F; by apply bool_decide_eq_true in F.
  - destruct (page_byte a n b H1 H2 H3 Hb) as (c & Hc & E); rewrite grants_valid; apply bool_decide_eq_true.
    unfold translate; rewrite <- E; by apply F.
Qed.

(** What the checks accept: they end at 2^48, and walk whatever half of the tables
    an address indexes. *)
Definition accepted s (pgd a n : Z) : Prop :=
  0x1000 <= a /\ a + n <= 2 ^ 48 /\ forall b, a <= b < a + n -> is_Some (translate ram0 s pgd b).

Lemma range_checked_spec s pgd T a n :
  tree ram0 s pgd T -> low_tables T -> is_u64 a -> 0 < n -> a + n < 2 ^ 64 ->
  (forall b, a <= b < a + n -> small_walk ram0 s pgd b = true) ->
  range_checked ram0 s (Some pgd) a n = true <-> accepted s pgd a n.
Proof.
  intros O L Ha Hn Hb S; unfold is_u64 in Ha; unfold range_checked; rewrite u64_small by lia.
  rewrite andb_true_iff, negb_true_iff, orb_false_iff, !negb_false_iff, !user_addr_spec, Z.eqb_eq by (unfold is_u64; lia).
  unfold accepted; split.
  - intros [[U1 U2] C]; split; [lia |]; split; [lia |]; apply (check_bytes s pgd T a n O L); [lia | lia | lia | done | done].
  - intros (U1 & U2 & C); split; [lia |]; apply (check_bytes s pgd T a n O L); [lia | lia | lia | done | done].
Qed.

(** Reading traps exactly when a byte lies at 2^47 or above. *)
Lemma read_traps a n : 0 < n -> first_trap read_trap a n = if a + n <=? 2 ^ 47 then None else Some GP.
Proof.
  intros Hn; unfold first_trap; assert (G : forall l, head (omap read_trap l) = if forallb canonical l then None else Some GP).
  { induction l as [| x l IH]; [done |]; simpl; unfold read_trap at 1; destruct (canonical x); simpl; [exact IH | done]. }
  rewrite G; destruct (Z.leb_spec (a + n) (2 ^ 47)) as [Hle | Hgt].
  - assert (E : forallb canonical (seqZ a n) = true); [| by rewrite E].
    apply forallb_forall; intros x Hx%list_elem_of_In%elem_of_seqZ; apply Z.ltb_lt; lia.
  - assert (E : forallb canonical (seqZ a n) = false); [| by rewrite E].
    apply not_true_iff_false; intros E; rewrite forallb_forall in E; specialize (E (a + n - 1)).
    unfold canonical in E; rewrite Z.ltb_lt in E; assert (a + n - 1 < 2 ^ 47); [| lia]; apply E, list_elem_of_In, elem_of_seqZ; lia.
Qed.

(** C20: [arch_copy_from_user] over a tree of small pages ends in one of three
    ways.  It succeeds exactly if the range is empty, or lies in
    [[0x1000, 2^47)] and every byte of it is mapped; then the bytes are those at
    the translations of their addresses, in order.  It returns -1 exactly if
    the range wraps around, leaves [[0x1000, 2^48)], or has a byte that the walk
    finds unmapped.  Between the two it takes a general protection fault in the
    kernel: the checks accept addresses from 2^47 to 2^48, which are not
    canonical, when the kernel half of the tables maps what they index.  (A page
    need only be present: the user bit is not asked for.) *)
Theorem user_copy_checked s pgd T a n :
  tree ram0 s pgd T -> low_tables T -> is_u64 a -> is_u64 n ->
  (forall b, a <= b < a + n -> small_walk ram0 s pgd b = true) ->
  match arch_copy_from_user ram0 phys s (Some pgd) a n with
  | Copied l => n = 0 /\ l = [] /\ a + n < 2 ^ 64 \/ 0 < n /\ accepted s pgd a n /\ a + n <= 2 ^ 47 /\ zlen l = n /\
      forall i, 0 <= i < n -> exists frame fl, translate ram0 s pgd (a + i) = Some (frame, fl) /\ l !! Z.to_nat i = Some (phys (frame + (a + i) mod 4096))
  | Refused => 2 ^ 64 <= a + n \/ 0 < n /\ ~ accepted s pgd a n
  | Trapped t => t = GP /\ 0 < n /\ accepted s pgd a n /\ 2 ^ 47 < a + n
  end.
Proof.
  unfold is_u64; intros O L Ha Hn S; unfold arch_copy_from_user.
  destruct (Z_lt_le_dec (a + n) (2 ^ 64)) as [Hlt | Hge].
  2: { assert (E : u64 (a + n) = a + n - 2 ^ 64) by (unfold u64; symmetry; apply (Z.mod_unique _ _ 1); lia).
    rewrite E; destruct (Z.ltb_spec (a + n - 2 ^ 64) a); [by left | lia]. }
  rewrite u64_small by lia; destruct (Z.ltb_spec (a + n) a); [lia |]; destruct (Z.eqb_spec n 0); [by left |].
  pose proof (range_checked_spec s pgd T a n O L Ha ltac:(lia) Hlt S) as R; destruct (range_checked ram0 s (Some pgd) a n); simpl.
  2: { right; split; [lia |]; intros U; by apply R in U. }
  destruct R as [R _]; specialize (R eq_refl) as U; rewrite read_traps by lia; destruct (Z.leb_spec (a + n) (2 ^ 47)); [| split; [done |]; split; [lia | done]].
  right; split; [lia |]; split; [done |]; split; [done |]; split.
  { unfold zlen; rewrite length_fmap, length_seqZ; lia. }
  intros i Hi; destruct U as (_ & _ & U); destruct (U (a + i) ltac:(lia)) as [[frame fl] E]; exists frame, fl; split; [done |].
  rewrite list_lookup_fmap, lookup_seqZ_lt by lia; cbn [fmap option_fmap option_map].
  rewrite Z.add_0_l, Z2Nat.id by lia; unfold user_byte; change (default 0 (Some pgd)) with pgd; by rewrite (get_physical_ok ram0 s pgd T (a + i) O), E.
Qed.
End copies.

(** ** The checks at work *)

Definition low_bytes (a : Z) : Z := a mod 251.

Lemma user_copy_checked_witness :
  arch_copy_from_user zero_ram low_bytes mmu2 (Some root1) 0x400FFE 2 = Copied [low_bytes 0x200FFE; low_bytes 0x200FFF] /\
  ~ accepted zero_ram mmu2 root1 0x400FFE 3.
Proof.
  destruct mmu2_tree as [T O]; pose proof (pmm_low_tables _ _ _ _ O) as L.
  assert (S : forall b, 0x400FFE <= b < 0x400FFE + 3 -> small_walk zero_ram mmu2 root1 b = true).
  { intros b Hb; assert (b = 0x400FFE \/ b = 0x400FFF \/ b = 0x401000) as [-> | [-> | ->]] by lia; by vm_compute. }
  pose proof (user_copy_checked zero_ram low_bytes mmu2 root1 T 0x400FFE 3 O L ltac:(unfold is_u64; lia) ltac:(unfold is_u64; lia) S) as H.
  assert (E : arch_copy_from_user zero_ram low_bytes mmu2 (Some root1) 0x400FFE 3 = Refused) by (by vm_compute).
  rewrite E in H; split; [by vm_compute | destruct H as [H | [_ H]]; [lia | exact H]].
Defined.

(** The user test accepts addresses with bit 47 set, which no x86-64 program can
    use; the walk takes the kernel's half for them and finds it mapped; the
    access traps. *)
Example high_address_passes_user_test :
  vmm_is_user_addr 0x900000000000 = true /\ PML4_INDEX 0x900000000000 = PML4_INDEX 0xFFFF900000000000 /\
  range_checked zero_ram mmup (Some rootp) 0x900000000000 1 = true /\
  arch_copy_from_user zero_ram low_bytes mmup (Some rootp) 0x900000000000 1 = Trapped GP.
Proof. split_and!; by vm_compute. Qed.

(** The checks before a copy to user memory do not ask whether it may be written:
    a copy onto a read-only page of the process passes them and faults. *)
Example copy_to_read_only_page_faults :
  let m := fst (arch_vmm_map zero_ram mmu1 root1 0x400000 0x200000 PAGE_USER_RO) in
  range_checked zero_ram m (Some root1) 0x400000 1 = true /\ arch_copy_to_user zero_ram m (Some root1) 0x400000 [7] = Trapped PF /\
  arch_copy_to_user zero_ram mmu2 (Some root1) 0x400000 [7] = Copied [(0x200000, 7)].
Proof. split_and!; by vm_compute. Qed.
