(* ===== verification/Elf.v ===== *)
(** * The ELF loader (kernel/sched/elf.c)

    The header checks, the pages of the segments and of the stack put into the
    address space of a new process, and the argument block on its stack.  The
    tables are those of Paging.v; the file is what vfs_read answers. *)
From Stdlib Require Import ZArith Lia.
From stdpp Require Import base numbers list gmap.
From S2P Require Import Prelude Bytes Pmm Kmalloc Gpt Paging.

#[local] Existing Instance amd64.

Definition ELF_MAX_ARGS : Z := 16.
Definition EM_X86_64 : Z := 62.
Definition ELFCLASS64 : Z := 2.
Definition PT_LOAD : Z := 1.
Definition PF_X : Z := 1.
Definition PF_W : Z := 2.
Definition EHDR_SIZE : Z := 64.
Definition PHDR_SIZE : Z := 56.

(** The fields of the headers the loader reads. *)
Definition e_class (b : list Z) : Z := znth 0 b 4.
Definition e_machine (b : list Z) : Z := le16 b 18.
Definition e_entry (b : list Z) : Z := le64 b 24.
Definition e_phoff (b : list Z) : Z := le64 b 32.
Definition e_phentsize (b : list Z) : Z := le16 b 54.
Definition e_phnum (b : list Z) : Z := le16 b 56.

Record phdr := { p_type : Z; p_flags : Z; p_offset : Z; p_vaddr : Z; p_filesz : Z; p_memsz : Z }.
Definition phdr_of (b : list Z) : phdr :=
  {| p_type := le32 b 0; p_flags := le32 b 4; p_offset := le64 b 8; p_vaddr := le64 b 16;
     p_filesz := le64 b 32; p_memsz := le64 b 40 |}.

Definition header_ok (b : list Z) : bool :=
  bool_decide (take 4 b = [0x7F; 0x45; 0x4C; 0x46]) && (e_class b =? ELFCLASS64) && (e_machine b =? EM_X86_64).

Definition USER_LOW : Z := 0x70000000.
Definition USER_HIGH : Z := 0xC0000000.
Definition STACK_SIZE : Z := 0x100000.

Definition in_window (ph : phdr) : bool :=
  negb ((p_vaddr ph <? USER_LOW) || (USER_HIGH <=? p_vaddr ph) || (USER_HIGH - p_vaddr ph <? p_memsz ph)).

Definition segment_flags (ph : phdr) : Z :=
  if has (p_flags ph) PF_W then if has (p_flags ph) PF_X then PAGE_USER else PAGE_USER_DATA
  else if has (p_flags ph) PF_X then PAGE_USER_RX else PAGE_USER_RO.

(** ** The argument block

    A page as its bytes; a word, least byte first. *)
Definition le_bytes (x : Z) : list Z := (fun i => Z.land (Z.shiftr x (8 * i)) 0xFF) <$> seqZ 0 8.

(** The strings from the last to the first, below [uptr]: the page, the new
    [uptr], the addresses of the strings. *)
Fixpoint push_strings (page : list Z) (page_uva uptr : Z) (args : list (list Z)) : option (list Z * Z * list Z) :=
  match args with
  | [] => Some (page, uptr, [])
  | a :: args =>
    '(page, uptr, vas) ← push_strings page page_uva uptr args;
    let s := a ++ [0] in
    let uptr := uptr - zlen s in
    page ← poke page (uptr - page_uva) s;
    Some (page, uptr, uptr :: vas)
  end.

(** The page and the stack pointer, which is the address of argv. *)
Definition setup_user_args (page : list Z) (stack_top : Z) (args : list (list Z)) : option (list Z * Z) :=
  let page_uva := stack_top - 4096 in
  '(page, uptr, vas) ← push_strings page page_uva stack_top args;
  let uptr := Z.land uptr (not64 7) in
  let uptr := uptr - (zlen args + 1) * 8 in
  let uptr := Z.land uptr (not64 15) in
  page ← poke page (uptr - page_uva) (concat (le_bytes <$> vas ++ [0]));
  Some (page, uptr).

(** ** Loading *)

(** The tables, and the bytes of the frames taken, by physical address. *)
Record loader {P : Type} := { mm : mmu P; frames : gmap Z (list Z) }.
Arguments loader : clear implicits.

(** What the loader sets in the process. *)
Record image := { heap_start : Z; user_entry : Z; user_stack : Z; user_argc : Z; user_argv : Z }.

Definition zero_page : list Z := replicate (Z.to_nat 4096) 0.

Section elf.
Context {P : Type} `{PageAlloc P} (ram0 : Z -> Z).
(** [vfs_read] of the open file: the result, and the bytes stored. *)
Context (exe : Z -> Z -> Z * list Z).
Implicit Types (st : loader P) (ph : phdr).

Definition with_mm st (s : mmu P) : loader P := {| mm := s; frames := frames st |}.
Definition with_frame st (f : Z) (l : list Z) : loader P := {| mm := mm st; frames := <[f := l]> (frames st) |}.

(** A page of the allocator, which zeroes it (pmm_alloc_page). *)
Definition alloc_frame st : loader P * option Z :=
  let '(p, page) := pa_alloc 1 (pool (mm st)) in
  let st := with_mm st (with_pool (mm st) p) in
  if page =? 0 then (st, None)
  else (with_frame st (virt_to_phys page) zero_page, Some (virt_to_phys page)).

(** A new frame mapped at [v]: the frame, or nothing on failure. *)
Definition map_new st (pgd v flags : Z) : outcome (loader P * option Z) :=
  match alloc_frame st with
  | (st, None) => Ret (st, None)
  | (st, Some f) =>
    match vmm_map_page ram0 (mm st) pgd v f flags with
    | (s, rc) =>
      if rc =? 0 then Ret (with_mm st s, Some f)
      else match pa_free (phys_to_virt f) 1 (pool s) with
           | Ret p => Ret (with_mm st (with_pool s p), None)
           | Panic => Panic
           end
    end
  end.

(** The bytes of the file a page of a segment gets. *)
Definition fill_page st ph (v f : Z) : loader P * bool :=
  let seg_vend_file := u64 (p_vaddr ph + p_filesz ph) in
  let copy_start := Z.max v (p_vaddr ph) in
  let copy_end := Z.min (v + 4096) seg_vend_file in
  if copy_start <? copy_end then
    let copy_len := copy_end - copy_start in
    let '(rd, l) := exe (u64 (p_offset ph + (copy_start - p_vaddr ph))) copy_len in
    if (rd <? 0) || negb (rd =? copy_len) then (st, false)
    else
      match poke (default [] (frames st !! f)) (copy_start - v) l with
      | Some l => (with_frame st f l, true)
      | None => (st, false)
      end
  else (st, true).

Definition load_page st (pgd : Z) ph (v : Z) : outcome (loader P * bool) :=
  match map_new st pgd v (segment_flags ph) with
  | Ret (st, Some f) => Ret (fill_page st ph v f)
  | Ret (st, None) => Ret (st, false)
  | Panic => Panic
  end.

(** The pages of [[v, e)]. *)
Fixpoint load_pages (n : nat) st (pgd : Z) ph (v e : Z) : outcome (loader P * bool) :=
  match n with
  | O => Ret (st, true)
  | S n =>
    if negb (v <? e) then Ret (st, true)
    else
      match load_page st pgd ph v with
      | Ret (st, true) => load_pages n st pgd ph (v + 4096) e
      | r => r
      end
  end.

Definition segment_start ph : Z := page_down (p_vaddr ph).
Definition segment_end ph : Z := page_end (p_vaddr ph) (p_memsz ph).

(** The program headers [i], ..., [i + n - 1]; [max_vaddr] so far. *)
Fixpoint load_segments (n : nat) st (pgd : Z) (eh : list Z) (i max_vaddr : Z) : outcome (loader P * option Z) :=
  match n with
  | O => Ret (st, Some max_vaddr)
  | S n =>
    let '(rd, b) := exe (u32 (e_phoff eh + i * e_phentsize eh)) PHDR_SIZE in
    if negb (rd =? PHDR_SIZE) then Ret (st, None)
    else
      let ph := phdr_of b in
      if negb (p_type ph =? PT_LOAD) then load_segments n st pgd eh (i + 1) max_vaddr
      else if negb (in_window ph) then Ret (st, None)
      else
        match load_pages (pages (segment_start ph) (segment_end ph)) st pgd ph (segment_start ph) (segment_end ph) with
        | Ret (st, true) => load_segments n st pgd eh (i + 1) (Z.max max_vaddr (segment_end ph))
        | Ret (st, false) => Ret (st, None)
        | Panic => Panic
        end
  end.

(** The stack from [v] up: the frame of its last page. *)
Fixpoint load_stack (n : nat) st (pgd v : Z) (top : option Z) : outcome (loader P * option (option Z)) :=
  match n with
  | O => Ret (st, Some top)
  | S n =>
    match map_new st pgd v PAGE_USER_DATA with
    | Ret (st, Some f) => load_stack n st pgd (v + 4096) (Some f)
    | Ret (st, None) => Ret (st, None)
    | Panic => Panic
    end
  end.

Definition STACK_TOP : Z := USER_HIGH + STACK_SIZE.

(** The arguments put on the top page, if there are any. *)
Definition load_args st (top : option Z) (args : list (list Z)) : option (loader P * Z * Z) :=
  match args, top with
  | _ :: _, Some f =>
    '(page, sp) ← setup_user_args (default [] (frames st !! f)) STACK_TOP args;
    Some (with_frame st f page, sp, sp)
  | _, _ => Some (st, STACK_TOP, 0)
  end.

(** The rest of [process_load_elf_args] once the file is open.  [None] is -1; a
    block of arguments that does not fit its page leaves the model. *)
Definition load_image st (pgd : Z) (args : list (list Z)) : outcome (loader P * option image) :=
  let args := take (Z.to_nat ELF_MAX_ARGS) args in
  let '(rd, eh) := exe 0 EHDR_SIZE in
  if negb (rd =? EHDR_SIZE) then Ret (st, None)
  else if negb (header_ok eh) then Ret (st, None)
  else
    match load_segments (Z.to_nat (e_phnum eh)) st pgd eh 0 0 with
    | Ret (st, Some max_vaddr) =>
      match load_stack (Z.to_nat (STACK_SIZE / 4096)) st pgd USER_HIGH None with
      | Ret (st, Some top) =>
        match load_args st top args with
        | Some (st, sp, argv) =>
          Ret (st, Some {| heap_start := max_vaddr; user_entry := e_entry eh; user_stack := sp; user_argc := zlen args; user_argv := argv |})
        | None => Panic
        end
      | Ret (st, None) => Ret (st, None)
      | Panic => Panic
      end
    | Ret (st, None) => Ret (st, None)
    | Panic => Panic
    end.
End elf.
