(* ===== verification/ElfArgs.v ===== *)
(** * The argument block of a new process

    What [setup_user_args] lays out on the top page of the stack, a user program
    reads back: argv, its strings, the terminating null. *)
From Stdlib Require Import ZArith Lia.
From stdpp Require Import base numbers list gmap.
From S2P Require Import Prelude Bytes Gpt Elf.

(** ** Words *)

Lemma zlen_le_bytes x : zlen (le_bytes x) = 8.
Proof. reflexivity. Qed.

Lemma znth_le_bytes x k : 0 <= k < 8 -> znth 0 (le_bytes x) k = (x / 2 ^ (8 * k)) mod 256.
Proof.
  intros Hk; unfold le_bytes, znth; destruct (Z.ltb_spec k 0); [lia |]; rewrite list_lookup_fmap, lookup_seqZ_lt by lia.
  cbn [fmap option_fmap option_map default]; rewrite Z.add_0_l, Z2Nat.id, Z.shiftr_div_pow2 by lia; change 0xFF with (Z.ones 8); by rewrite Z.land_ones by lia.
Qed.

(** The bytes of a list of words. *)
Lemma znth_words l i k : 0 <= i < zlen l -> 0 <= k < 8 -> znth 0 (concat (le_bytes <$> l)) (8 * i + k) = znth 0 (le_bytes (znth 0 l i)) k.
Proof.
  revert i; induction l as [| x l IH]; intros i Hi Hk; [unfold zlen in Hi; simpl in Hi; lia |]; cbn [fmap list_fmap concat].
  rewrite zlen_cons in Hi; destruct (Z.eq_dec i 0) as [-> | Hne].
  - rewrite znth_app_l by (rewrite zlen_le_bytes; lia); done.
  - rewrite znth_app_r by (rewrite ?zlen_le_bytes; lia); rewrite zlen_le_bytes.
    replace (8 * i + k - 8) with (8 * (i - 1) + k) by lia; rewrite IH by lia; by rewrite znth_cons_pos by lia.
Qed.

Lemma zlen_words l : zlen (concat (le_bytes <$> l)) = 8 * zlen l.
Proof. induction l as [| x l IH]; [done |]; cbn [fmap list_fmap concat]; rewrite zlen_app, zlen_le_bytes, IH, zlen_cons; lia. Qed.

#[local] Ltac by_div := rewrite !Z.div_div by lia; reflexivity.

#[local] Ltac next_digit x y :=
  pose proof (Z.div_mod x 256 ltac:(lia)); set (y := x / 256) in *; generalize dependent (x mod 256); clearbody y; intros.

Lemma le64_bytes b o x : 0 <= x < 2 ^ 64 -> (forall k, 0 <= k < 8 -> znth 0 b (o + k) = (x / 2 ^ (8 * k)) mod 256) -> le64 b o = x.
Proof.
  intros Hx Hb; unfold le64, le32, le16; replace (o + 4 + 2) with (o + 6) by lia; replace (o + 6 + 1) with (o + 7) by lia.
  replace (o + 4 + 1) with (o + 5) by lia; replace (o + 2 + 1) with (o + 3) by lia; replace (znth 0 b o) with (znth 0 b (o + 0)) by (f_equal; lia).
  rewrite !Hb by lia; change (2 ^ (8 * 0)) with 1; rewrite Z.div_1_r.
  replace (x / 2 ^ (8 * 7)) with (x / 256 / 256 / 256 / 256 / 256 / 256 / 256) by by_div.
  replace (x / 2 ^ (8 * 6)) with (x / 256 / 256 / 256 / 256 / 256 / 256) by by_div.
  replace (x / 2 ^ (8 * 5)) with (x / 256 / 256 / 256 / 256 / 256) by by_div.
  replace (x / 2 ^ (8 * 4)) with (x / 256 / 256 / 256 / 256) by by_div.
  replace (x / 2 ^ (8 * 3)) with (x / 256 / 256 / 256) by by_div.
  replace (x / 2 ^ (8 * 2)) with (x / 256 / 256) by by_div; change (2 ^ (8 * 1)) with 256.
  assert (x / 256 / 256 / 256 / 256 / 256 / 256 / 256 < 256) by (rewrite !Z.div_div by lia; apply Z.div_lt_upper_bound; lia).
  assert (0 <= x / 256 / 256 / 256 / 256 / 256 / 256 / 256) by (repeat apply Z.div_pos; lia).
  rewrite (Z.mod_small (x / 256 / 256 / 256 / 256 / 256 / 256 / 256)) by lia.
  next_digit x y1; next_digit y1 y2; next_digit y2 y3; next_digit y3 y4; next_digit y4 y5; next_digit y5 y6; next_digit y6 y7; lia.
Qed.

(** ** Strings pushed down the page *)

(** The bytes of [s] and a NUL at an offset of the page. *)
Definition cstr_at (page : list Z) (off : Z) (s : list Z) : Prop :=
  forall j, 0 <= j <= zlen s -> znth 0 page (off + j) = znth 0 (s ++ [0]) j.

Definition room (args : list (list Z)) : Z := foldr (fun a n => zlen a + 1 + n) 0 args.

Lemma push_strings_ok page base top args :
  base <= top - room args -> top <= base + zlen page ->
  exists page' vas, push_strings page base top args = Some (page', top - room args, vas) /\ zlen page' = zlen page /\
    Forall2 (fun a va => top - room args <= va /\ va + zlen a < top /\ cstr_at page' (va - base) a) args vas.
Proof.
  induction args as [| a args IH]; intros H1 H2; simpl in *; [exists page, []; rewrite Z.sub_0_r; done |].
  assert (Hr : 0 <= room args) by (clear; induction args as [| b l IH]; simpl; unfold zlen in *; lia).
  pose proof (zlen_nonneg a); destruct IH as (p1 & vas & -> & L1 & F); [lia | lia |]; cbn [mbind option_bind]; rewrite zlen_app; change (zlen [0]) with 1.
  destruct (poke_ok p1 (top - room args - (zlen a + 1) - base) (a ++ [0])) as (p2 & -> & L2 & E2); [lia | rewrite zlen_app; change (zlen [0]) with 1; lia |].
  rewrite zlen_app in E2; change (zlen [0]) with 1 in E2; cbn [mbind option_bind].
  exists p2, (top - room args - (zlen a + 1) :: vas); split; [do 3 f_equal; lia |]; split; [lia |].
  constructor.
  - split; [lia |]; split; [lia |]; intros j Hj; rewrite E2 by lia.
    destruct (Z.leb_spec (top - room args - (zlen a + 1) - base) (top - room args - (zlen a + 1) - base + j)); [| lia]; simpl.
    destruct (Z.ltb_spec (top - room args - (zlen a + 1) - base + j) (top - room args - (zlen a + 1) - base + (zlen a + 1))); [f_equal; lia | lia].
  - eapply Forall2_impl; [exact F |]; intros b va (A1 & A2 & A3); pose proof (zlen_nonneg b); split; [lia |]; split; [lia |]; intros j Hj.
    rewrite E2, <- A3 by lia; destruct (Z.leb_spec (top - room args - (zlen a + 1) - base) (va - base + j)); [| lia]; simpl.
    destruct (Z.ltb_spec (va - base + j) (top - room args - (zlen a + 1) - base + (zlen a + 1))); [lia | done].
Qed.

Lemma align_step x n k : 0 <= k < 64 -> n = 2 ^ k - 1 -> 0 <= x < 2 ^ 64 -> Z.land x (not64 n) mod 2 ^ k = 0 /\ x - n <= Z.land x (not64 n) <= x.
Proof.
  intros Hk -> Hx; rewrite align_down by (unfold is_u64; lia); rewrite Z.mod_mul by lia.
  pose proof (Z.div_mod x (2 ^ k) ltac:(lia)); pose proof (Z.mod_pos_bound x (2 ^ k) ltac:(lia)); lia.
Qed.

Lemma arguments_fit page top args :
  zlen page = 4096 -> top mod 4096 = 0 -> 4096 <= top < 2 ^ 48 -> (length args <= 16)%nat -> Forall (fun a => zlen a <= 127) args ->
  exists page' sp, setup_user_args page top args = Some (page', sp) /\
    let base := top - 4096 in
    zlen page' = 4096 /\ sp mod 16 = 0 /\ base <= sp /\ sp + 8 * (zlen args + 1) <= top /\ le64 page' (sp - base + 8 * zlen args) = 0 /\
    forall i a, args !! i = Some a -> let va := le64 page' (sp - base + 8 * Z.of_nat i) in
      sp + 8 * (zlen args + 1) <= va /\ va + zlen a < top /\ cstr_at page' (va - base) a.
Proof.
  intros Hp Ht Hb Hn Hl; unfold setup_user_args; set (base := top - 4096).
  assert (Hr : 0 <= room args <= 128 * zlen args).
  { clear Hn; induction Hl as [| a l Ha Hl IH]; simpl; [done |]; rewrite zlen_cons; pose proof (zlen_nonneg a); lia. }
  assert (Hz : zlen args <= 16) by (unfold zlen; lia).
  destruct (push_strings_ok page base top args) as (p1 & vas & -> & L1 & F); [lia | lia |]; cbn [mbind option_bind].
  set (u0 := top - room args) in *; destruct (align_step u0 7 3 ltac:(lia) eq_refl ltac:(lia)) as [_ B1].
  set (u1 := Z.land u0 (not64 7)) in *; set (u2 := u1 - (zlen args + 1) * 8).
  destruct (align_step u2 15 4 ltac:(lia) eq_refl ltac:(lia)) as [A2 B2]; set (sp := Z.land u2 (not64 15)) in *.
  pose proof (Forall2_length _ _ _ F) as Hlen; assert (Hv : zlen (vas ++ [0]) = zlen args + 1) by (rewrite zlen_app; unfold zlen; simpl; lia).
  destruct (poke_ok p1 (sp - base) (concat (le_bytes <$> vas ++ [0]))) as (p2 & -> & L2 & E2); [lia | rewrite zlen_words; lia |].
  cbn [mbind option_bind]; exists p2, sp; split; [done |]; rewrite zlen_words, Hv in E2.
  assert (Hw : forall i, 0 <= i <= zlen args -> 0 <= znth 0 (vas ++ [0]) i < 2 ^ 64 -> le64 p2 (sp - base + 8 * i) = znth 0 (vas ++ [0]) i).
  { intros i Hi Hx; apply le64_bytes; [done |]; intros k Hk; rewrite E2 by lia.
    destruct (Z.leb_spec (sp - base) (sp - base + 8 * i + k)); [| lia]; simpl.
    destruct (Z.ltb_spec (sp - base + 8 * i + k) (sp - base + 8 * (zlen args + 1))); [| lia].
    replace (sp - base + 8 * i + k - (sp - base)) with (8 * i + k) by lia; rewrite znth_words, znth_le_bytes by lia; done. }
  split; [lia |]; split; [done |]; split; [lia |]; split; [lia |]; split.
  - assert (E : znth 0 (vas ++ [0]) (zlen args) = 0) by (rewrite znth_app_r by (unfold zlen; lia); unfold zlen; by replace (_ - _) with 0 by lia).
    rewrite (Hw (zlen args)) by (rewrite ?E; lia); exact E.
  - intros i a Hi; destruct (Forall2_lookup_l _ _ _ _ _ F Hi) as (va & Hva & C1 & C2 & C3); pose proof (lookup_lt_Some _ _ _ Hi); pose proof (zlen_nonneg a).
    assert (E : znth 0 (vas ++ [0]) (Z.of_nat i) = va).
    { apply znth_lookup; [lia |]; rewrite Nat2Z.id; by apply lookup_app_l_Some. }
    rewrite Hw by (unfold zlen; lia); rewrite E; split; [lia |]; split; [lia |]; intros j Hj; rewrite E2, <- C3 by lia.
    destruct (Z.leb_spec (sp - base) (va - base + j)); [| done]; simpl.
    destruct (Z.ltb_spec (va - base + j) (sp - base + 8 * (zlen args + 1))); [lia | done].
Qed.

(** C36: the arguments of a new process reach it.  For at most 16 arguments of at
    most 127 bytes the block fits the top page of the stack; the stack pointer is
    a multiple of 16 inside the page, and what the program reads there is argv:
    a pointer to each argument in order, each to the bytes of that argument and a
    NUL within the page above the array, and a null pointer at the end. *)
Theorem arguments_on_stack page top args :
  zlen page = 4096 -> top mod 4096 = 0 -> 4096 <= top < 2 ^ 48 -> (length args <= 16)%nat -> Forall (fun a => zlen a <= 127) args ->
  exists page' sp, setup_user_args page top args = Some (page', sp) /\
    let base := top - 4096 in
    zlen page' = 4096 /\ sp mod 16 = 0 /\ base <= sp /\ sp + 8 * (zlen args + 1) <= top /\ le64 page' (sp - base + 8 * zlen args) = 0 /\
    forall i a, args !! i = Some a -> let va := le64 page' (sp - base + 8 * Z.of_nat i) in
      sp + 8 * (zlen args + 1) <= va /\ va + zlen a < top /\ cstr_at page' (va - base) a.
Proof. apply arguments_fit. Qed.

Lemma arguments_on_stack_witness :
  exists page' sp, setup_user_args (replicate 4096 0) 0xC0100000 [[108; 115]; [45; 97]] = Some (page', sp) /\ sp = 0xC00FFFE0 /\ le64 page' (sp - 0xC00FF000 + 16) = 0.
Proof.
  destruct (arguments_on_stack (replicate 4096 0) 0xC0100000 [[108; 115]; [45; 97]]) as (page' & sp & E & _ & _ & _ & _ & H & _);
    [done | done | lia | simpl; lia | repeat constructor; done |].
  exists page', sp; split; [exact E |]; split; [| exact H].
  assert (E2 : snd <$> setup_user_args (replicate 4096 0) 0xC0100000 [[108; 115]; [45; 97]] = Some 0xC00FFFE0) by (by vm_compute).
  rewrite E in E2; by injection E2.
Defined.
