(* ===== verification/ElfTheorems.v ===== *)
(** * Loading a program: theorems

    A program that is loaded is in memory byte by byte as its headers say, under
    the protection they ask for; one that is refused leaves nothing behind
    outside the window of programs. *)
From Stdlib Require Import ZArith Lia.
From stdpp Require Import base numbers list gmap.
From S2P Require Import Prelude Bytes Bitmap Pmm Kmalloc Gpt Paging PagingProofs PagingTheorems.
From S2P Require Import PagingSpaces Elf ElfArgs.

(** ** What the loader builds

    The image of a program, byte by byte, and the proof that the pages the
    loader maps hold it. *)

#[local] Existing Instance amd64.

(** ** The image

    A byte of memory and the flags of its page, by address. *)
Definition picture := Z -> option (Z * Z).
Definition blank : picture := fun _ => None.

Definition seg_byte (file : Z -> Z) ph a : Z :=
  if (p_vaddr ph <=? a) && (a <? u64 (p_vaddr ph + p_filesz ph)) then file (u64 (p_offset ph + (a - p_vaddr ph))) else 0.

(** A later segment covers an earlier one, page by page. *)
Definition add_segment (file : Z -> Z) (m : picture) ph : picture := fun a =>
  if (p_type ph =? PT_LOAD) && (segment_start ph <=? a) && (a <? segment_end ph) then Some (seg_byte file ph a, segment_flags ph) else m a.

(** The stack above the segments; its last page is [top]. *)
Definition add_stack (m : picture) (top : list Z) : picture := fun a =>
  if (USER_HIGH <=? a) && (a <? STACK_TOP)
  then Some (if STACK_TOP - 4096 <=? a then znth 0 top (a - (STACK_TOP - 4096)) else 0, PAGE_USER_DATA) else m a.

Definition program (file : Z -> Z) (phs : list phdr) (top : list Z) : picture := add_stack (foldl (add_segment file) blank phs) top.

(** Reads give the bytes of the file, which ends below 2^64. *)
Definition reads (exe : Z -> Z -> Z * list Z) (file : Z -> Z) : Prop :=
  forall off n rd l, 0 <= n -> exe off n = (rd, l) -> rd = n -> off + n <= 2 ^ 64 /\ l = file <$> seqZ off n.

Lemma zero_page_len : zlen zero_page = 4096.
Proof. reflexivity. Qed.
Lemma zero_page_znth i : znth 0 zero_page i = 0.
Proof. destruct (decide (0 <= i < 4096)); [by apply znth_replicate | apply znth_out; rewrite zero_page_len; lia]. Qed.

Lemma le64_nonneg b o : Forall (fun x => 0 <= x) b -> 0 <= le64 b o.
Proof.
  intros Hb; assert (Hz : forall i, 0 <= znth 0 b i) by (intros i; by apply Forall_znth).
  unfold le64, le32, le16; pose proof (Hz o); pose proof (Hz (o + 1)); pose proof (Hz (o + 2)); pose proof (Hz (o + 2 + 1)).
  pose proof (Hz (o + 4)); pose proof (Hz (o + 4 + 1)); pose proof (Hz (o + 4 + 2)); pose proof (Hz (o + 4 + 2 + 1)); lia.
Qed.

Section elf.
Context {P : Type} `{PageAllocOk P} `{!PageAllocDirect P} (ram0 : Z -> Z).
Implicit Types (st : loader P) (ph : phdr) (m : picture) (T : gmap Z (list Z)).
#[local] Abbreviation translate := (translate ram0).

(** A byte that the space of [pgd] shows, in a frame in use; where [m] is blank,
    what the space showed before. *)
Definition byte_at (before : Z -> option (Z * Z)) st (pgd : Z) m (a : Z) : Prop :=
  match m a with
  | Some (b, fl) => exists f page, translate (mm st) pgd a = Some (f, x86_leaf_flags fl) /\ is_addr f /\ pa_held (pool (mm st)) (phys_to_virt f) /\
      frames st !! f = Some page /\ length page = 4096%nat /\ page !! Z.to_nat (a mod 4096) = Some b
  | None => translate (mm st) pgd a = before a
  end.

Record shows (before : Z -> option (Z * Z)) st (pgd : Z) m : Prop := {
  sh_tree : exists T, tree ram0 (mm st) pgd T;
  sh_byte a : 0 <= a < 2 ^ 48 -> byte_at before st pgd m a
}.

(** Pictures that agree are shown alike. *)
Lemma shows_ext before st pgd m m' : shows before st pgd m -> (forall a, 0 <= a < 2 ^ 48 -> m' a = m a) -> shows before st pgd m'.
Proof. intros [O S] E; split; [done |]; intros a Ha; unfold byte_at; rewrite E by done; by apply S. Qed.

Lemma byte_kept before st st2 pgd m a :
  byte_at before st pgd m a -> translate (mm st2) pgd a = translate (mm st) pgd a ->
  (forall b, pa_held (pool (mm st)) b -> pa_held (pool (mm st2)) b) ->
  (forall f, pa_held (pool (mm st)) (phys_to_virt f) -> frames st2 !! f = frames st !! f) -> byte_at before st2 pgd m a.
Proof.
  unfold byte_at; intros B Et Hh Hf; destruct (m a) as [[b fl] |]; [| congruence].
  destruct B as (f & page & B1 & B2 & B3 & B4 & B5 & B6); exists f, page; rewrite Et, Hf by done; do 2 (split; [done |]); split; [by apply Hh | done].
Qed.

Lemma own_page b : in_pages b 1 b.
Proof. unfold in_pages; lia. Qed.

Lemma alloc_frame_ok st st' r pgd T :
  tree ram0 (mm st) pgd T -> alloc_frame st = (st', r) ->
  match r with
  | None => mm st' = mm st /\ frames st' = frames st
  | Some f => is_addr f /\ phys_to_virt f mod 4096 = 0 /\
      (forall a, in_pages (phys_to_virt f) 1 a -> ~ pa_held (pool (mm st)) a) /\
      (forall a, pa_held (pool (mm st')) a <-> pa_held (pool (mm st)) a \/ in_pages (phys_to_virt f) 1 a) /\
      frames st' = <[f := zero_page]> (frames st) /\
      tree ram0 (mm st') pgd T /\ forall va, translate (mm st') pgd va = translate (mm st) pgd va
  end.
Proof.
  intros O; pose proof (tr_pool _ _ _ _ O) as Hv; unfold alloc_frame; destruct (pa_alloc 1 (pool (mm st))) as [p page] eqn:Ea; destruct (Z.eqb_spec page 0) as [-> | Hne]; intros [= <- <-].
  { apply pa_alloc_fail in Ea as ->; [by destruct st as [[] ?] | done | lia]. }
  pose proof (pa_direct _ _ _ Hv Ea Hne) as Hd; destruct (pa_alloc_ok _ 1 _ _ Hv ltac:(lia) Ea Hne) as (Hv' & Hal & Hpos & Hlt & Hfree & Hheld).
  assert (Ht : is_addr (virt_to_phys page)).
  { apply is_addr_iff; unfold virt_to_phys; change KERNEL_VIRT_BASE with 0xFFFF800000000000 in *; rewrite u64_small by lia.
    split; [lia |]; rewrite Zminus_mod, Hal; done. }
  rewrite phys_virt by lia; do 5 (split; [done |]).
  apply (tree_kept ram0 (mm st) (with_pool (mm st) p) pgd T O Hv'); [intros a Ha; apply Hheld; by left | done].
Qed.

(** A frame that was not in use is none of those in use. *)
Lemma new_frame st f g : (forall a, in_pages (phys_to_virt f) 1 a -> ~ pa_held (pool (mm st)) a) -> pa_held (pool (mm st)) (phys_to_virt g) -> g <> f.
Proof. intros Hn Hg ->; apply (Hn _ (own_page _) Hg). Qed.

(** A page added: what is shown elsewhere, and where the new page lies. *)
Definition page_added before st' (pgd : Z) m (v fl f : Z) : Prop :=
  (exists T, tree ram0 (mm st') pgd T) /\ is_addr f /\ pa_held (pool (mm st')) (phys_to_virt f) /\ frames st' !! f = Some zero_page /\
  (forall a, 0 <= a < 2 ^ 48 -> a / 4096 = v / 4096 -> translate (mm st') pgd a = Some (f, x86_leaf_flags fl)) /\
  forall page a, 0 <= a < 2 ^ 48 -> a / 4096 <> v / 4096 -> byte_at before (with_frame st' f page) pgd m a.

Lemma map_new_ok before st pgd m v fl :
  shows before st pgd m -> 0 <= v < 2 ^ 48 -> v mod 4096 = 0 ->
  exists st' r, map_new ram0 st pgd v fl = Ret (st', r) /\
    match r with None => shows before st' pgd m | Some f => page_added before st' pgd m v fl f end.
Proof.
  intros [[T O] S] Hv Hal; unfold map_new; destruct (alloc_frame st) as [st1 [f |]] eqn:Ea; pose proof (alloc_frame_ok st st1 _ pgd T O Ea) as A; simpl in A.
  2: { destruct A as [E1 E2]; exists st1, None; split; [done |]; split; [exists T; by rewrite E1 |].
       intros a Ha; apply (byte_kept before st); [by apply S | by rewrite E1 | by rewrite E1 | by rewrite E2]. }
  destruct A as (Hf & Hpv & Hfree & Hheld & F1 & O1 & W1); assert (Hfm : f mod 4096 = 0) by (apply is_addr_iff in Hf; tauto).
  unfold vmm_map_page; rewrite !has_low, Hal, Hfm; cbn [Z.eqb negb orb].
  destruct (arch_vmm_map ram0 (mm st1) pgd v f fl) as [s rc] eqn:Em; destruct (arch_vmm_map_ok ram0 _ _ _ _ _ _ _ _ O1 Em) as (T2 & (X2 & O2 & G2) & R).
  assert (Hmono : forall a, pa_held (pool (mm st)) a -> pa_held (pool s) a) by (intros a Ha; apply (gr_held _ _ _ _ G2), Hheld; by left).
  assert (Hown : forall a, in_pages (phys_to_virt f) 1 a -> pa_held (pool s) a) by (intros a Ha; apply (gr_held _ _ _ _ G2), Hheld; by right).
  assert (Hfr : forall g, pa_held (pool (mm st)) (phys_to_virt g) -> frames st1 !! g = frames st !! g).
  { intros g Hg; rewrite F1, lookup_insert_ne; [done |]; intros ->; by apply (new_frame st g g Hfree). }
  destruct R as [(-> & _ & W2) | (-> & W2)]; cbn [Z.eqb].
  - destruct (pa_free_ok (pool s) 1 (phys_to_virt f) (tr_pool _ _ _ _ O2) ltac:(lia) Hpv Hown) as (p & -> & Hvp & Hp).
    exists (with_mm st1 (with_pool s p)), None; split; [done |].
    destruct (tree_kept_on ram0 s (with_pool s p) pgd T2 O2 Hvp) as [O3 W3]; [| done |].
    { intros g q Hg; apply Hp; split; [by eapply tr_held |]; intros Hin; destruct X2 as [_ X2]; destruct (X2 g q Hg) as [Hg' | Hg'].
      - apply (Hfree _ Hin); by eapply tr_held.
      - apply Hg', Hheld; by right. }
    split; [by exists T2 |]; intros a Ha; apply (byte_kept before st); [by apply S | simpl; by rewrite W3, W2, W1 | | exact Hfr].
    intros b Hb; simpl; apply Hp; split; [by apply Hmono |]; intros Hin; by apply (Hfree b).
  - exists (with_mm st1 s), (Some f); split; [done |]; split; [by exists T2 |]; split; [done |]; split; [by apply Hown, own_page |].
    split; [simpl; by rewrite F1, lookup_insert_eq |]; split.
    + intros a Ha E; simpl; rewrite W2, decide_True by (by apply indices_page); unfold pte_addr; by rewrite Hf.
    + intros page a Ha E; apply (byte_kept before st); [by apply S | | exact Hmono |].
      * simpl; rewrite W2, decide_False by (intros Hi; apply E; by apply indices_page); apply W1.
      * intros g Hg; simpl; rewrite lookup_insert_ne by (apply not_eq_sym; by apply (new_frame st f g Hfree)); by apply Hfr.
Qed.

(** ** The bytes of a page *)

Lemma u64_step x d : 0 <= d -> u64 x + d < 2 ^ 64 -> u64 (x + d) = u64 x + d.
Proof.
  intros Hd Hlt; pose proof (u64_range x); unfold u64 in *; rewrite Zplus_mod, (Z.mod_small d) by lia.
  apply Z.mod_small; lia.
Qed.

Context (exe : Z -> Z -> Z * list Z) (file : Z -> Z) (Hfile : reads exe file).

(** What the loader may have left: the tables whole, no address outside the
    window and the stack touched. *)
Definition spoiled before st (pgd : Z) : Prop :=
  (exists T, tree ram0 (mm st) pgd T) /\ forall a, 0 <= a < 2 ^ 48 -> a < USER_LOW \/ STACK_TOP <= a -> translate (mm st) pgd a = before a.

Definition inside m : Prop := forall a, a < USER_LOW \/ STACK_TOP <= a -> m a = None.

Lemma shows_spoiled before st pgd m : shows before st pgd m -> inside m -> spoiled before st pgd.
Proof. intros [O S] I; split; [done |]; intros a Ha Ho; specialize (S a Ha); unfold byte_at in S; by rewrite I in S. Qed.

Lemma same_page a v : v mod 4096 = 0 -> a / 4096 = v / 4096 <-> v <= a < v + 4096.
Proof.
  intros Hv; pose proof (Z.div_mod v 4096 ltac:(lia)); pose proof (Z.div_mod a 4096 ltac:(lia)); pose proof (Z.mod_pos_bound a 4096 ltac:(lia)).
  split; [intros E | intros Ha]; [lia |]; nia.
Qed.

Lemma outside_page a v : v mod 4096 = 0 -> USER_LOW <= v < STACK_TOP -> a < USER_LOW \/ STACK_TOP <= a -> a / 4096 <> v / 4096.
Proof.
  intros Hv Hw Ho E%same_page; [| done]; unfold USER_LOW, STACK_TOP, USER_HIGH, STACK_SIZE in *.
  pose proof (Z.div_mod v 4096 ltac:(lia)); lia.
Qed.

(** A new page filled. *)
Lemma page_added_shows before st pgd m v fl f page (g : Z -> Z) :
  page_added before st pgd m v fl f -> v mod 4096 = 0 -> zlen page = 4096 -> (forall a, v <= a < v + 4096 -> znth 0 page (a - v) = g a) ->
  shows before (with_frame st f page) pgd (fun a => if (v <=? a) && (a <? v + 4096) then Some (g a, fl) else m a).
Proof.
  intros (O & Hf & Hh & Hz & Hv & Ho) Hal Hl Hg; split; [done |]; intros a Ha; unfold byte_at; pose proof (same_page a v Hal) as E.
  destruct (Z.leb_spec v a), (Z.ltb_spec a (v + 4096)); simpl; try (apply (Ho page a Ha); intros E2%E; lia).
  exists f, page; split; [apply Hv; [done | by apply E] |]; do 2 (split; [done |]); split; [apply lookup_insert_eq |]; split; [unfold zlen in Hl; lia |].
  pose proof (Z.div_mod a 4096 ltac:(lia)); pose proof (Z.div_mod v 4096 ltac:(lia)); assert (a mod 4096 = a - v) as -> by (apply proj2 in E; lia).
  rewrite (znth_in_range 0) by lia; f_equal; apply Hg; lia.
Qed.

Lemma page_added_spoiled before st pgd m v fl f :
  page_added before st pgd m v fl f -> inside m -> USER_LOW <= v < STACK_TOP -> v mod 4096 = 0 -> spoiled before st pgd.
Proof.
  intros (O & _ & _ & _ & _ & Ho) I Hw Hal; split; [done |]; intros a Ha Hout.
  specialize (Ho [] a Ha (outside_page a v Hal Hw Hout)); unfold byte_at in Ho; by rewrite I in Ho.
Qed.

Lemma with_frame_same st f page : frames st !! f = Some page -> with_frame st f page = st.
Proof. destruct st as [s F]; unfold with_frame; simpl; intros; by rewrite insert_id. Qed.

Lemma fill_page_ok before st pgd m ph v f st' ok :
  page_added before st pgd m v (segment_flags ph) f -> inside m -> USER_LOW <= v < STACK_TOP -> v mod 4096 = 0 ->
  fill_page exe st ph v f = (st', ok) ->
  if ok then shows before st' pgd (fun a => if (v <=? a) && (a <? v + 4096) then Some (seg_byte file ph a, segment_flags ph) else m a)
  else spoiled before st' pgd.
Proof.
  intros A I Hw Hal; pose proof (page_added_spoiled _ _ _ _ _ _ _ A I Hw Hal) as Bad; unfold fill_page.
  assert (Hz : frames st !! f = Some zero_page) by (apply A); rewrite Hz; change (default [] (Some zero_page)) with zero_page.
  set (cs := Z.max v (p_vaddr ph)); set (ce := Z.min (v + 4096) (u64 (p_vaddr ph + p_filesz ph))).
  destruct (Z.ltb_spec cs ce) as [Hlt | Hge].
  - destruct (exe (u64 (p_offset ph + (cs - p_vaddr ph))) (ce - cs)) as [rd l] eqn:Er; destruct (Z.ltb_spec rd 0); simpl; [by intros [= <- <-] |].
    destruct (Z.eqb_spec rd (ce - cs)); simpl; [| by intros [= <- <-]]; destruct (Hfile _ (ce - cs) _ _ ltac:(lia) Er ltac:(done)) as [Hend ->].
    assert (Hl : zlen (file <$> seqZ (u64 (p_offset ph + (cs - p_vaddr ph))) (ce - cs)) = ce - cs) by (unfold zlen; rewrite length_fmap, length_seqZ; lia).
    destruct (poke_ok zero_page (cs - v) (file <$> seqZ (u64 (p_offset ph + (cs - p_vaddr ph))) (ce - cs))) as (page & -> & Hp & Hb);
      [lia | rewrite Hl, zero_page_len; lia |].
    rewrite zero_page_len in *; intros [= <- <-]; apply (page_added_shows _ _ _ _ _ _ _ _ _ A Hal Hp); intros a Ha; rewrite Hb, Hl by lia; unfold seg_byte.
    destruct (Z.leb_spec (cs - v) (a - v)), (Z.leb_spec (p_vaddr ph) a); try lia; cbn [andb]; [| apply zero_page_znth].
    destruct (Z.ltb_spec (a - v) (cs - v + (ce - cs))), (Z.ltb_spec a (u64 (p_vaddr ph + p_filesz ph))); try lia; [| apply zero_page_znth].
    apply znth_lookup; [lia |]; rewrite list_lookup_fmap, lookup_seqZ_lt by lia; cbn [fmap option_fmap option_map]; do 2 f_equal; rewrite Z2Nat.id by lia.
    replace (p_offset ph + (a - p_vaddr ph)) with (p_offset ph + (cs - p_vaddr ph) + (a - v - (cs - v))) by lia; symmetry; apply u64_step; lia.
  - intros [= <- <-]; rewrite <- (with_frame_same st f zero_page Hz); apply (page_added_shows _ _ _ _ _ _ _ _ _ A Hal zero_page_len); intros a Ha.
    rewrite zero_page_znth; unfold seg_byte; destruct (Z.leb_spec (p_vaddr ph) a); [| done]; cbn [andb].
    destruct (Z.ltb_spec a (u64 (p_vaddr ph + p_filesz ph))); [lia | done].
Qed.

(** ** Segments *)

Lemma load_page_ok before st pgd m ph v :
  shows before st pgd m -> inside m -> USER_LOW <= v < STACK_TOP -> v mod 4096 = 0 ->
  exists st' ok, load_page ram0 exe st pgd ph v = Ret (st', ok) /\
    if ok then shows before st' pgd (fun a => if (v <=? a) && (a <? v + 4096) then Some (seg_byte file ph a, segment_flags ph) else m a)
    else spoiled before st' pgd.
Proof.
  intros S I Hw Hal; unfold load_page; assert (Hv : 0 <= v < 2 ^ 48) by (unfold USER_LOW, STACK_TOP, USER_HIGH, STACK_SIZE in Hw; lia).
  destruct (map_new_ok before st pgd m v (segment_flags ph) S Hv Hal) as (st1 & [f |] & -> & A).
  - destruct (fill_page exe st1 ph v f) as [st2 ok] eqn:Ef; exists st2, ok; split; [done |]; by apply (fill_page_ok before st1 pgd m ph v f).
  - exists st1, false; split; [done | by eapply shows_spoiled].
Qed.

(** The pages from [v] up to [e] of a segment put over [m]. *)
Definition over m ph (v e : Z) : picture := fun a => if (v <=? a) && (a <? e) then Some (seg_byte file ph a, segment_flags ph) else m a.

Lemma over_inside m ph v e : inside m -> USER_LOW <= v -> e <= STACK_TOP -> inside (over m ph v e).
Proof. intros I Hv He a Ha; unfold over; destruct (Z.leb_spec v a), (Z.ltb_spec a e); simpl; try lia; by apply I. Qed.

Lemma load_pages_ok n before st pgd m ph v e :
  shows before st pgd m -> inside m -> USER_LOW <= v -> e <= STACK_TOP -> v mod 4096 = 0 -> e mod 4096 = 0 -> n = pages v e ->
  exists st' ok, load_pages ram0 exe n st pgd ph v e = Ret (st', ok) /\
    if ok then shows before st' pgd (over m ph v e) else spoiled before st' pgd.
Proof.
  revert st m v; induction n as [| n IH]; intros st m v S I Hv He Hal Hae Hn; simpl.
  - exists st, true; split; [done |]; apply (shows_ext before st pgd m); [done |]; intros a _; unfold over.
    destruct (Z.leb_spec v a), (Z.ltb_spec a e); simpl; try done; unfold pages in Hn.
    pose proof (Z.div_mod v 4096 ltac:(lia)); pose proof (Z.div_mod e 4096 ltac:(lia)); assert (4096 <= e - v) by lia.
    pose proof (Z.div_le_mono 4096 (e - v) 4096 ltac:(lia) ltac:(lia)); change (4096 / 4096) with 1 in *; lia.
  - unfold USER_LOW, STACK_TOP, USER_HIGH, STACK_SIZE in Hv, He; destruct (Z.ltb_spec v e) as [Hlt | Hge]; [| by rewrite pages_none in Hn by lia]; cbn [negb].
    destruct (load_page_ok before st pgd m ph v S I) as (st1 & ok & -> & A); [unfold USER_LOW, STACK_TOP, USER_HIGH, STACK_SIZE; lia | done |].
    destruct ok; [| by exists st1, false].
    destruct (next_page v e ltac:(lia) Hlt ltac:(lia) Hal Hae) as (H1 & _ & H3 & H4); rewrite H4 in Hn; injection Hn as Hn.
    set (m1 := fun a => if (v <=? a) && (a <? v + 4096) then _ else m a) in A.
    destruct (IH st1 m1 (v + 4096) A) as (st2 & ok2 & -> & B); [| unfold USER_LOW; lia | unfold STACK_TOP, USER_HIGH, STACK_SIZE; lia | done | done | done |].
    { intros a Ha; unfold m1, USER_LOW, STACK_TOP, USER_HIGH, STACK_SIZE in *; destruct (Z.leb_spec v a), (Z.ltb_spec a (v + 4096)); simpl; try lia; by apply I. }
    exists st2, ok2; split; [done |]; destruct ok2; [| done]; apply (shows_ext _ _ _ _ _ B); intros a _; unfold over, m1.
    destruct (Z.leb_spec v a), (Z.leb_spec (v + 4096) a), (Z.ltb_spec a (v + 4096)), (Z.ltb_spec a e); simpl; done || lia.
Qed.

(** The program headers [i], ..., [i + n - 1] of the file. *)
Definition headers (eh : list Z) (i n : Z) : list phdr :=
  (fun k => phdr_of (file <$> seqZ (u32 (e_phoff eh + k * e_phentsize eh)) PHDR_SIZE)) <$> seqZ i n.

Definition loadable ph : Prop := p_type ph = PT_LOAD -> in_window ph = true.
Definition add_brk (mx : Z) ph : Z := if p_type ph =? PT_LOAD then Z.max mx (segment_end ph) else mx.

(** A segment in the window covers pages of it. *)
Lemma window_pages ph : in_window ph = true -> 0 <= p_memsz ph ->
  USER_LOW <= segment_start ph /\ segment_start ph mod 4096 = 0 /\ segment_end ph <= USER_HIGH /\ segment_end ph mod 4096 = 0.
Proof.
  unfold in_window, segment_start, segment_end, USER_LOW, USER_HIGH; rewrite negb_true_iff, !orb_false_iff, !Z.ltb_ge, Z.leb_gt; intros [[H1 H2] H3] Hm.
  destruct (page_bounds (p_vaddr ph) (p_memsz ph) ltac:(lia) Hm ltac:(lia)) as (A1 & A2 & A3 & A4 & A5 & A6).
  pose proof (Z.div_mod (page_down (p_vaddr ph)) 4096 ltac:(lia)); pose proof (Z.div_mod (page_end (p_vaddr ph) (p_memsz ph)) 4096 ltac:(lia)); lia.
Qed.

Lemma load_segments_ok n before st pgd m eh i mx :
  (forall k, 0 <= file k < 256) -> shows before st pgd m -> inside m ->
  exists st' r, load_segments ram0 exe n st pgd eh i mx = Ret (st', r) /\
    match r with
    | Some mx' => let phs := headers eh i (Z.of_nat n) in
        Forall loadable phs /\ shows before st' pgd (foldl (add_segment file) m phs) /\ inside (foldl (add_segment file) m phs) /\ mx' = foldl add_brk mx phs
    | None => spoiled before st' pgd
    end.
Proof.
  intros Hb; revert st m i mx; induction n as [| n IH]; intros st m i mx S I; cbn [load_segments].
  { exists st, (Some mx); done. }
  assert (Bad : spoiled before st pgd) by (by eapply shows_spoiled).
  destruct (exe (u32 (e_phoff eh + i * e_phentsize eh)) PHDR_SIZE) as [rd b] eqn:Er; destruct (Z.eqb_spec rd PHDR_SIZE) as [Hrd | Hrd]; cbn [negb]; [| by exists st, None].
  destruct (Hfile _ PHDR_SIZE _ _ ltac:(done) Er Hrd) as [_ ->]; unfold headers; rewrite (seqZ_cons i) by lia; cbn [fmap list_fmap foldl]; set (ph := phdr_of _).
  replace (Z.pred (Z.of_nat (Datatypes.S n))) with (Z.of_nat n) by lia; replace (Z.succ i) with (i + 1) by lia; fold (headers eh (i + 1) (Z.of_nat n)).
  destruct (Z.eqb_spec (p_type ph) PT_LOAD) as [Ht | Ht]; cbn [negb].
  - destruct (in_window ph) eqn:Ew; cbn [negb]; [| by exists st, None].
    assert (Hm : 0 <= p_memsz ph) by (apply le64_nonneg, Forall_fmap; apply Forall_forall; intros k _; simpl; pose proof (Hb k); lia).
    destruct (window_pages ph Ew Hm) as (W1 & W2 & W3 & W4).
    destruct (load_pages_ok _ before st pgd m ph (segment_start ph) (segment_end ph) S I W1 ltac:(unfold STACK_TOP, STACK_SIZE; lia) W2 W4 eq_refl) as (st1 & ok & -> & A).
    destruct ok; [| by exists st1, None].
    assert (E : forall a, add_segment file m ph a = over m ph (segment_start ph) (segment_end ph) a) by (intros a; unfold add_segment, over; rewrite Ht; done).
    destruct (IH st1 (add_segment file m ph) (i + 1) (Z.max mx (segment_end ph))) as (st2 & r & -> & B).
    + by apply (shows_ext _ _ _ _ _ A).
    + intros a Ha; rewrite E; apply over_inside; [done | done | unfold STACK_TOP, STACK_SIZE; lia | done].
    + exists st2, r; split; [done |]; destruct r; [| done]; destruct B as (B1 & B2 & B3 & B4); split; [by constructor; [intros _ |] |].
      split; [done |]; split; [done |]; assert (Eb : add_brk mx ph = Z.max mx (segment_end ph)) by (unfold add_brk; by rewrite Ht); by rewrite Eb.
  - destruct (IH st m (i + 1) mx S I) as (st2 & r & -> & B); exists st2, r; split; [done |]; destruct r; [| done].
    apply Z.eqb_neq in Ht; assert (E : add_segment file m ph = m) by (unfold add_segment; by rewrite Ht).
    assert (Eb : add_brk mx ph = mx) by (unfold add_brk; by rewrite Ht); rewrite E, Eb; destruct B as (B1 & B2 & B3 & B4); split; [| done]; constructor; [| done].
    intros Ht'; apply Z.eqb_neq in Ht; done.
Qed.

(** ** The stack *)

(** The stack pages from [v] up; the last one is [top]. *)
Definition stack_from m (v : Z) (top : list Z) : picture := fun a =>
  if (v <=? a) && (a <? STACK_TOP)
  then Some (if STACK_TOP - 4096 <=? a then znth 0 top (a - (STACK_TOP - 4096)) else 0, PAGE_USER_DATA) else m a.

Lemma load_stack_ok n before st pgd m v top :
  shows before st pgd m -> inside m -> (n <= 256)%nat -> v = STACK_TOP - 4096 * Z.of_nat n ->
  exists st' r, load_stack ram0 n st pgd v top = Ret (st', r) /\
    match r with
    | Some top' => n <> O -> exists f, top' = Some f /\ frames st' !! f = Some zero_page /\
        forall page, zlen page = 4096 -> shows before (with_frame st' f page) pgd (stack_from m v page)
    | None => spoiled before st' pgd
    end.
Proof.
  revert st m v top; induction n as [| n IH]; intros st m v top S I Hn Hv; cbn [load_stack]; [by exists st, (Some top) |].
  assert (Hr : USER_LOW <= v < STACK_TOP /\ 0 <= v < 2 ^ 48 /\ v mod 4096 = 0 /\ (STACK_TOP - 4096) - v = 4096 * Z.of_nat n).
  { unfold USER_LOW, STACK_TOP, USER_HIGH, STACK_SIZE in *; split; [lia |]; split; [lia |]; split; [| lia].
    replace v with ((786688 - Z.of_nat (Datatypes.S n)) * 4096) by lia; by apply Z.mod_mul. }
  destruct Hr as (H1 & H2 & H3 & H4); destruct (map_new_ok before st pgd m v PAGE_USER_DATA S H2 H3) as (st1 & [f |] & -> & A);
    [| exists st1, None; split; [done | by eapply shows_spoiled]].
  destruct n as [| n].
  - exists st1, (Some (Some f)); split; [done |]; intros _; exists f; split; [done |]; split; [apply A |]; intros page Hl.
    apply (shows_ext _ _ _ _ _ (page_added_shows _ _ _ _ _ _ _ page (fun a => znth 0 page (a - v)) A H3 Hl ltac:(done))).
    intros a _; unfold stack_from; replace (STACK_TOP - 4096) with v by lia; destruct (Z.leb_spec v a); simpl; [| done].
    by replace STACK_TOP with (v + 4096) by lia.
  - assert (Hz : frames st1 !! f = Some zero_page) by apply A.
    pose proof (page_added_shows _ _ _ _ _ _ _ zero_page (fun _ => 0) A H3 zero_page_len ltac:(intros; apply zero_page_znth)) as B; rewrite with_frame_same in B by done.
    set (m1 := fun a => if (v <=? a) && (a <? v + 4096) then Some (0, PAGE_USER_DATA) else m a) in B.
    destruct (IH st1 m1 (v + 4096) (Some f) B) as (st2 & r & -> & C); [| lia | lia |].
    { intros a Ha; unfold m1; destruct (Z.leb_spec v a), (Z.ltb_spec a (v + 4096)); simpl; try by apply I. unfold USER_LOW in *; lia. }
    exists st2, r; split; [done |]; destruct r as [top' |]; [| done]; intros _; destruct (C ltac:(done)) as (g & -> & Hg & D); exists g; split; [done |]; split; [done |].
    intros page Hl; apply (shows_ext _ _ _ _ _ (D page Hl)); intros a _; unfold stack_from, m1.
    destruct (Z.leb_spec v a), (Z.leb_spec (v + 4096) a), (Z.ltb_spec a (v + 4096)), (Z.ltb_spec a STACK_TOP), (Z.leb_spec (STACK_TOP - 4096) a); simpl; done || lia.
Qed.
End elf.

#[local] Existing Instance amd64.

(** The top page of the stack of a program started with [args], its stack pointer
    and its argv. *)
Definition top_page (args : list (list Z)) : option (list Z * Z * Z) :=
  match args with
  | [] => Some (zero_page, STACK_TOP, 0)
  | _ => '(page, sp) ← setup_user_args zero_page STACK_TOP args; Some (page, sp, sp)
  end.

Lemma top_page_ok args : (length args <= 16)%nat -> Forall (fun a => zlen a <= 127) args -> exists top sp argv, top_page args = Some (top, sp, argv) /\ zlen top = 4096.
Proof.
  intros Hn Hl; destruct args as [| a args]; [by exists zero_page, STACK_TOP, 0 |]; unfold top_page.
  destruct (arguments_fit zero_page STACK_TOP (a :: args) zero_page_len eq_refl ltac:(unfold STACK_TOP, USER_HIGH, STACK_SIZE; lia) Hn Hl) as (page & sp & -> & Hp & _).
  by exists page, sp, sp.
Qed.

(** The window a program is mapped in. *)
Lemma blank_inside : inside blank.
Proof. by intros a _. Qed.

Section theorems.
Context {P : Type} `{PageAllocOk P} `{!PageAllocDirect P} (ram0 : Z -> Z).
Context (exe : Z -> Z -> Z * list Z) (file : Z -> Z).
Implicit Types (st : loader P) (ph : phdr) (T : gmap Z (list Z)).
#[local] Abbreviation translate := (translate ram0).

(** What a successful call has made, given the space before. *)
Definition loaded before st' (pgd : Z) (args : list (list Z)) (img : image) : Prop :=
  let eh := file <$> seqZ 0 EHDR_SIZE in
  let phs := headers file eh 0 (e_phnum eh) in
  header_ok eh = true /\ Forall loadable phs /\
  heap_start img = foldl add_brk 0 phs /\ user_entry img = e_entry eh /\ user_argc img = zlen args /\
  exists top, top_page args = Some (top, user_stack img, user_argv img) /\ shows ram0 before st' pgd (program file phs top).

Lemma load_image_ok st pgd T args :
  reads exe file -> (forall k, 0 <= file k < 256) -> tree ram0 (mm st) pgd T -> Forall (fun a => zlen a <= 127) args ->
  exists st' r, load_image ram0 exe st pgd args = Ret (st', r) /\
    match r with
    | Some img => loaded (translate (mm st) pgd) st' pgd (take 16 args) img
    | None => spoiled ram0 (translate (mm st) pgd) st' pgd
    end.
Proof.
  intros Hfile Hb O Hargs; unfold load_image; change (Z.to_nat ELF_MAX_ARGS) with 16%nat; set (as' := take 16 args).
  assert (Hlen : (length as' <= 16)%nat) by (unfold as'; rewrite length_take; lia).
  assert (Hl : Forall (fun a => zlen a <= 127) as') by (by apply Forall_take).
  destruct (top_page_ok as' Hlen Hl) as (top & sp & argv & Htop & Hzt); clearbody as'; set (before := translate (mm st) pgd).
  assert (S : shows ram0 before st pgd blank) by (split; [by exists T | done]).
  pose proof (shows_spoiled ram0 _ _ _ _ S blank_inside) as Bad.
  destruct (exe 0 EHDR_SIZE) as [rd eh] eqn:Ee; destruct (Z.eqb_spec rd EHDR_SIZE) as [Hrd | Hrd]; cbn [negb]; [| by exists st, None].
  destruct (Hfile _ EHDR_SIZE _ _ ltac:(done) Ee Hrd) as [_ ->]; unfold loaded; set (eh := file <$> seqZ 0 EHDR_SIZE); destruct (header_ok eh) eqn:Eh; cbn [negb]; [| by exists st, None].
  assert (Hn : Z.of_nat (Z.to_nat (e_phnum eh)) = e_phnum eh).
  { apply Z2Nat.id; unfold e_phnum, le16; assert (Hz : forall i, 0 <= znth 0 eh i); [| pose proof (Hz 56); pose proof (Hz (56 + 1)); lia].
    intros i; apply Forall_znth; [| done]; apply Forall_fmap, Forall_forall; intros k _; simpl; pose proof (Hb k); lia. }
  destruct (load_segments_ok ram0 exe file Hfile (Z.to_nat (e_phnum eh)) before st pgd blank eh 0 0 Hb S blank_inside) as (st1 & r & -> & A).
  destruct r as [mx |]; [| by exists st1, None]; cbv zeta in A; rewrite Hn in A; destruct A as (A1 & A2 & A3 & A4).
  destruct (load_stack_ok ram0 256 before st1 pgd _ USER_HIGH None A2 A3 ltac:(lia) eq_refl) as (st2 & r & E2 & B); change (Z.to_nat (STACK_SIZE / 4096)) with 256%nat; rewrite E2.
  destruct r as [top' |]; [| by exists st2, None]; destruct (B ltac:(done)) as (f & -> & Hz & D).
  assert (Ea : load_args st2 (Some f) as' = Some (with_frame st2 f top, sp, argv)).
  { unfold load_args, top_page in *; destruct as' as [| a as']; [injection Htop as <- <- <-; by rewrite with_frame_same |].
    rewrite Hz; change (default [] (Some zero_page)) with zero_page; by destruct (setup_user_args zero_page STACK_TOP (a :: as')) as [[page sp'] |]; [injection Htop as <- <- <- |]. }
  rewrite Ea; eexists _, _; split; [done |]; cbn; do 5 (split; [done |]); exists top; split; [done |].
  apply (shows_ext ram0 _ _ _ _ _ (D top Hzt)); intros a _; done.
Qed.

(** C35: a program that is loaded is in memory as its file says.  Whatever the file
    holds, the loader returns; if it succeeds, the header was an ELF header for
    this machine, every loadable segment lies in the window of user programs, and
    the space shows the program: every byte of the pages of a segment is the byte
    of the file or zero beyond it, under the flags of the last segment on that
    page; the stack above is zero but for the arguments; every other address
    translates as before.  If it fails, only addresses of the window and the
    stack may translate differently, and the tables are whole. *)
Theorem program_loaded st pgd T args :
  reads exe file -> (forall k, 0 <= file k < 256) -> tree ram0 (mm st) pgd T -> Forall (fun a => zlen a <= 127) args ->
  exists st' r, load_image ram0 exe st pgd args = Ret (st', r) /\
    match r with
    | Some img => loaded (translate (mm st) pgd) st' pgd (take 16 args) img
    | None => spoiled ram0 (translate (mm st) pgd) st' pgd
    end.
Proof. apply load_image_ok. Qed.

(** A byte of a loaded program. *)
Lemma loaded_byte before st' pgd args img a b fl :
  loaded before st' pgd args img -> 0 <= a < 2 ^ 48 ->
  (forall top, program file (headers file (file <$> seqZ 0 EHDR_SIZE) 0 (e_phnum (file <$> seqZ 0 EHDR_SIZE))) top a = Some (b, fl)) ->
  exists f page, translate (mm st') pgd a = Some (f, x86_leaf_flags fl) /\ frames st' !! f = Some page /\ page !! Z.to_nat (a mod 4096) = Some b.
Proof.
  intros (_ & _ & _ & _ & _ & top & _ & [_ S]) Ha Hp; specialize (S a Ha); unfold byte_at in S; rewrite Hp in S.
  destruct S as (f & page & S1 & _ & _ & S2 & _ & S3); by exists f, page.
Qed.

(** ** Protection *)

(** The segment behind a byte. *)
Definition covers ph a : Prop := p_type ph = PT_LOAD /\ segment_start ph <= a < segment_end ph.

Lemma segments_from phs a b fl : foldl (add_segment file) blank phs a = Some (b, fl) -> exists ph, ph ∈ phs /\ covers ph a /\ fl = segment_flags ph.
Proof.
  induction phs as [| ph phs IH] using rev_ind; [done |]; rewrite foldl_app; simpl; unfold add_segment at 1.
  destruct (Z.eqb_spec (p_type ph) PT_LOAD), (Z.leb_spec (segment_start ph) a), (Z.ltb_spec a (segment_end ph)); simpl;
    try (intros E; destruct (IH E) as (q & Hq & Hc); exists q; split; [apply elem_of_app; by left | done]).
  intros [= _ <-]; exists ph; split; [apply elem_of_app; right; by apply list_elem_of_singleton | done].
Qed.

Lemma user_flags ph :
  let x := x86_leaf_flags (segment_flags ph) in
  has x X86_PTE_US = true /\ has x X86_PTE_RW = has (p_flags ph) PF_W /\ has x X86_PTE_NX = negb (has (p_flags ph) PF_X).
Proof. unfold segment_flags; simpl; destruct (has (p_flags ph) PF_W), (has (p_flags ph) PF_X); by vm_compute. Qed.

(** No page of a program is both writable and executable unless a segment
    asks for both.  After a successful load into a space whose user half was
    empty, every page of the user half is open to the user, and is executable
    only if a segment on it is, writable only if it is the stack or a segment on
    it is. *)
Theorem pages_protected st pgd T args st' img va f x :
  reads exe file -> (forall k, 0 <= file k < 256) -> tree ram0 (mm st) pgd T -> Forall (fun a => zlen a <= 127) args ->
  (forall a, PML4_INDEX a < 256 -> translate (mm st) pgd a = None) ->
  load_image ram0 exe st pgd args = Ret (st', Some img) ->
  0 <= va < 2 ^ 47 -> translate (mm st') pgd va = Some (f, x) ->
  has x X86_PTE_US = true /\
  ((USER_HIGH <= va < STACK_TOP /\ has x X86_PTE_RW = true /\ has x X86_PTE_NX = true) \/
   exists ph, ph ∈ headers file (file <$> seqZ 0 EHDR_SIZE) 0 (e_phnum (file <$> seqZ 0 EHDR_SIZE)) /\ covers ph va /\
     has x X86_PTE_RW = has (p_flags ph) PF_W /\ has x X86_PTE_NX = negb (has (p_flags ph) PF_X)).
Proof.
  intros Hfile Hb O Hargs Hnew E Hva Ht; destruct (load_image_ok st pgd T args Hfile Hb O Hargs) as (st2 & r & E2 & A).
  rewrite E in E2; injection E2 as <- <-; destruct A as (_ & _ & _ & _ & _ & top & _ & [_ S]); specialize (S va ltac:(lia)).
  unfold byte_at, program, add_stack in S; destruct (Z.leb_spec USER_HIGH va), (Z.ltb_spec va STACK_TOP); cbn [andb] in S.
  1: { destruct S as (g & _ & Hg & _); rewrite Ht in Hg; injection Hg as <- ->; split; [done |]; left; by split. }
  all: destruct (foldl (add_segment file) blank _ va) as [[b fl] |] eqn:Ef;
    [| rewrite Hnew in S; [congruence |]; unfold PML4_INDEX; rewrite index_mod, Z.mod_small by (lia || (split; [apply Z.div_pos | apply Z.div_lt_upper_bound]; lia));
       apply Z.div_lt_upper_bound; lia].
  all: destruct S as (g & _ & Hg & _); rewrite Ht in Hg; injection Hg as <- ->; apply segments_from in Ef as (ph & Hph & Hc & ->).
  all: destruct (user_flags ph) as (U1 & U2 & U3); split; [done |]; right; exists ph; done.
Qed.
End theorems.

(** ** A small program

    One page of code at 0x80000000: four bytes, eight in memory. *)
Definition word_bytes (n : nat) (x : Z) : list Z := (fun i => Z.land (Z.shiftr x (8 * Z.of_nat i)) 0xFF) <$> seq 0 n.
Definition elf_header (phnum : Z) : list Z :=
  [0x7F; 0x45; 0x4C; 0x46; 2; 1; 1; 0] ++ replicate 8 0 ++ word_bytes 2 2 ++ word_bytes 2 EM_X86_64 ++ word_bytes 4 1 ++ word_bytes 8 0x80000000 ++
  word_bytes 8 64 ++ word_bytes 8 0 ++ word_bytes 4 0 ++ word_bytes 2 64 ++ word_bytes 2 56 ++ word_bytes 2 phnum ++ word_bytes 6 0.
Definition program_header (flags offset vaddr filesz memsz : Z) : list Z :=
  word_bytes 4 PT_LOAD ++ word_bytes 4 flags ++ word_bytes 8 offset ++ word_bytes 8 vaddr ++ word_bytes 8 vaddr ++ word_bytes 8 filesz ++
  word_bytes 8 memsz ++ word_bytes 8 4096.

Definition small_elf : list Z := elf_header 1 ++ program_header 5 120 0x80000000 4 8 ++ [0x0F; 0x05; 0xEB; 0xFE].

(** The file a list of bytes makes, and its reads. *)
Definition file_of (l : list Z) (k : Z) : Z := u8 (znth 0 l k).
Definition exe_of (l : list Z) (off n : Z) : Z * list Z :=
  if (0 <=? off) && (off + n <=? zlen l) then (n, file_of l <$> seqZ off n) else (-1, []).

Lemma exe_reads l : zlen l < 2 ^ 63 -> reads (exe_of l) (file_of l).
Proof.
  intros Hl off n rd b Hn; unfold exe_of; destruct (Z.leb_spec 0 off), (Z.leb_spec (off + n) (zlen l)); simpl; intros [= <- <-]; intros; try lia; by split; [lia |].
Qed.

Lemma file_byte l k : 0 <= file_of l k < 256.
Proof. apply Z.mod_pos_bound; lia. Qed.

Definition load0 : loader pmm := {| mm := mmup; frames := ∅ |}.

Lemma mmup_tree : (exists T, tree zero_ram mmup rootp T) /\ forall a, PML4_INDEX a < 256 -> translate zero_ram mmup rootp a = None.
Proof.
  destruct mmuk_tree as [T O], mmup_new as [E Hne].
  destruct (new_space_ok zero_ram mmuk T mmup rootp O E) as [(_ & Hz & _) | (T' & OB & _ & _ & _ & _ & _ & H)]; [destruct (Hne Hz) |].
  split; [by exists T' |]; intros a Ha; rewrite (H a); by destruct (Z.ltb_spec (PML4_INDEX a) 256); [| lia].
Qed.

#[local] Abbreviation run_small := (load_image zero_ram (exe_of small_elf) load0 rootp [[108; 115]]).

Lemma load0_tree : (exists T, tree zero_ram (mm load0) rootp T) /\ forall a, PML4_INDEX a < 256 -> translate zero_ram (mm load0) rootp a = None.
Proof. exact mmup_tree. Qed.

Lemma small_reads : reads (exe_of small_elf) (file_of small_elf).
Proof. apply exe_reads; by vm_compute. Qed.

Lemma small_args : Forall (fun a : list Z => zlen a <= 127) [[108; 115]].
Proof. repeat constructor; done. Qed.

Definition success {A B} (o : outcome (A * option B)) : bool := match o with Ret (_, Some _) => true | _ => false end.

Lemma small_runs : success run_small = true.
Proof. by vm_compute. Qed.

Lemma succeeded {A B} (o : outcome (A * option B)) a r :
  success o = true -> o = Ret (a, r) -> exists b, r = Some b /\ o = Ret (a, Some b).
Proof. intros R ->; destruct r as [b |]; [by exists b | done]. Qed.

Lemma small_program top :
  let file := file_of small_elf in
  program file (headers file (file <$> seqZ 0 EHDR_SIZE) 0 (e_phnum (file <$> seqZ 0 EHDR_SIZE))) top 0x80000002 = Some (0xEB, PAGE_USER_RX).
Proof. by vm_compute. Qed.

Lemma program_loaded_witness : exists st' img f page,
  run_small = Ret (st', Some img) /\ translate zero_ram (mm st') rootp 0x80000002 = Some (f, x86_leaf_flags PAGE_USER_RX) /\
  frames st' !! f = Some page /\ page !! Z.to_nat (0x80000002 mod 4096) = Some 0xEB.
Proof.
  destruct load0_tree as [[T O] _].
  destruct (program_loaded zero_ram (exe_of small_elf) (file_of small_elf) load0 rootp T [[108; 115]] small_reads (file_byte small_elf) O small_args) as (st' & r & E & A).
  destruct (succeeded run_small st' r small_runs E) as (img & Hr & E2); rewrite Hr in A; exists st', img.
  destruct (loaded_byte zero_ram (file_of small_elf) _ st' rootp _ img 0x80000002 _ _ A ltac:(lia) small_program) as (f & page & H); exists f, page.
  split; [exact E2 | exact H].
Defined.

Lemma small_byte : exists st' img f, run_small = Ret (st', Some img) /\ translate zero_ram (mm st') rootp 0x80000002 = Some (f, x86_leaf_flags PAGE_USER_RX).
Proof.
  destruct load0_tree as [[T O] _].
  destruct (load_image_ok zero_ram (exe_of small_elf) (file_of small_elf) load0 rootp T [[108; 115]] small_reads (file_byte small_elf) O small_args) as (st' & r & E & A).
  destruct (succeeded run_small st' r small_runs E) as (img & Hr & E2); rewrite Hr in A; exists st', img.
  destruct (loaded_byte zero_ram (file_of small_elf) _ st' rootp _ img 0x80000002 _ _ A ltac:(lia) small_program) as (f & page & H & _); exists f.
  split; [exact E2 | exact H].
Qed.

Lemma pages_protected_witness : exists st' img f x,
  run_small = Ret (st', Some img) /\ translate zero_ram (mm st') rootp 0x80000002 = Some (f, x) /\ has x X86_PTE_US = true.
Proof.
  destruct small_byte as (st' & img & f & E & S); exists st', img, f, (x86_leaf_flags PAGE_USER_RX); split; [exact E |]; split; [exact S |].
  destruct load0_tree as [[T O] Hnew].
  apply (pages_protected zero_ram (exe_of small_elf) (file_of small_elf) load0 rootp T [[108; 115]] st' img 0x80000002 f _
    small_reads (file_byte small_elf) O small_args Hnew E ltac:(lia) S).
Defined.

(** Two segments that share a page: the bytes of the first on that page are lost. *)
Definition shared_elf : list Z :=
  elf_header 2 ++ program_header 5 176 0x80000000 4 4 ++ program_header 6 180 0x80000800 4 4 ++ [0x0F; 0x05; 0xEB; 0xFE; 1; 2; 3; 4].
Example shared_page_loses_first_segment :
  match load_image zero_ram (exe_of shared_elf) load0 rootp [] with
  | Ret (st', Some _) =>
    match translate zero_ram (mm st') rootp 0x80000000 with
    | Some (f, x) => has x X86_PTE_NX = true /\ (default [] (frames st' !! f)) !! 0%nat = Some 0 /\ (default [] (frames st' !! f)) !! 0x800%nat = Some 1
    | None => False
    end
  | _ => False
  end.
Proof. by vm_compute. Qed.
