(* ===== verification/Timer.v ===== *)
(** * Timers (kernel/core/timer.c)

    The clock read off the hardware counter, the tick schedule of a CPU, and the
    software timers: a list per CPU under the lock of that CPU, and calls from
    any thread interleaved.  The counter and its frequency come from the
    hardware. *)
From Stdlib Require Import ZArith Lia.
From stdpp Require Import base numbers list relations.
From S2P Require Import Prelude.

Definition HZ : Z := 1000.
Definition NSEC_PER_SEC : Z := 1000000000.
Definition NS_PER_TICK : Z := NSEC_PER_SEC / HZ.
Definition MAX_CPUS : Z := 64.

(** ** The clock *)

Definition timer_counts_to_ns (freq counts : Z) : Z :=
  let freq := if freq =? 0 then 1 else freq in
  u64 (counts * NSEC_PER_SEC / freq).

(** The epoch, once taken. *)
Record clock := { clk_boot_count : Z; clk_ready : bool }.

(** The counter is read once for the epoch, if it is not taken, and once more. *)
Definition mono_ns (c : clock) (freq first count : Z) : clock * Z :=
  let c := if clk_ready c then c else {| clk_boot_count := first; clk_ready := true |} in
  (c, timer_counts_to_ns freq (u64 (count - clk_boot_count c))).

(** What CPU 0 does to [jiffies] on its tick. *)
Definition reconcile (jiffies ns : Z) : Z :=
  let expected := ns / NS_PER_TICK in
  if jiffies <? expected then expected else jiffies.

(** ** The tick schedule of a CPU *)
Record tick_state := { next_tick_target : Z; tick_error_acc : Z }.

Definition timer_percpu_arm (freq count : Z) : tick_state :=
  {| next_tick_target := u64 (count + freq / HZ); tick_error_acc := 0 |}.

Definition timer_percpu_tick (freq now : Z) (s : tick_state) : tick_state :=
  let interval := freq / HZ in
  let acc := u64 (tick_error_acc s + freq mod HZ) in
  let '(interval, acc) := if HZ <=? acc then (interval + 1, acc - HZ) else (interval, acc) in
  let target := u64 (next_tick_target s + interval) in
  {| next_tick_target := if target <=? now then u64 (now + interval) else target; tick_error_acc := acc |}.

(** ** Software timers *)
Record timer := { expires : Z; pending : bool; tcpu : Z }.
Record timers := { tms : list timer; queues : list (list nat) }.

Definition set_timer (s : timers) (t : nat) (x : timer) : timers := {| tms := <[t := x]> (tms s); queues := queues s |}.

(** [list_del] and [list_add_tail]. *)
Definition unlink (s : timers) (t c : nat) : timers := {| tms := tms s; queues := alter (filter (fun u => u <> t)) c (queues s) |}.
Definition add_tail (s : timers) (t c : nat) : timers := {| tms := tms s; queues := alter (fun q => q ++ [t]) c (queues s) |}.

Definition timer0 : timer := {| expires := 0; pending := false; tcpu := -1 |}.
Definition the_timer (s : timers) (t : nat) : timer := default timer0 (tms s !! t).

Definition timer_setup (s : timers) (t : nat) : timers :=
  set_timer s t {| expires := expires (the_timer s t); pending := false; tcpu := -1 |}.

(** The locked section of [timer_add] on CPU [c]. *)
Definition add_section (s : timers) (t : nat) (e : Z) (c : nat) : timers :=
  add_tail (set_timer s t {| expires := e; pending := true; tcpu := Z.of_nat c |}) t c.

(** The two halves of taking a timer off its list, in [timer_del] and in the tick:
    unlinked and no longer pending, then on no CPU.  The second store is apart,
    because [timer_add] looks at [pending] without the lock. *)
Definition clear_pending (s : timers) (t c : nat) : timers :=
  set_timer (unlink s t c) t {| expires := expires (the_timer s t); pending := false; tcpu := tcpu (the_timer s t) |}.
Definition clear_cpu (s : timers) (t : nat) : timers :=
  set_timer s t {| expires := expires (the_timer s t); pending := pending (the_timer s t); tcpu := -1 |}.

(** What [timer_del] finds with the lock of CPU [c]: the timer moved, is not
    pending, or is unlinked now, with its CPU still to be cleared. *)
Inductive del_found := Moved | NotPending | Unlinked.

Definition del_section (s : timers) (t c : nat) : timers * del_found :=
  if negb (tcpu (the_timer s t) =? Z.of_nat c) then (s, Moved)
  else if pending (the_timer s t) then (clear_pending s t c, Unlinked) else (s, NotPending).

(** ** Calls interleaved

    Where a thread is: before [timer_add] looks at the timer; before its locked
    section; before [timer_del] reads the CPU; before it takes the lock of CPU
    [c]; with that lock, before it clears the CPU of a timer it unlinked.  A
    [timer_del] called by [timer_add] goes on with the expiry and the CPU of the
    caller.  A step is the part of a locked section up to the next store that
    matters outside the lock, or one read outside a lock. *)
Inductive pc :=
| PIdle
| PAdd (t : nat) (e : Z) (c : nat)
| PLink (t : nat) (e : Z) (c : nat)
| PDel (t : nat) (next : option (Z * nat))
| PLock (t c : nat) (next : option (Z * nat))
| PClear (t c : nat) (next : option (Z * nat)).

(** The walk of a tick over the list of its CPU: what is left of the list, and the
    timer whose CPU is yet to be cleared. *)
Record walk := { todo : list nat; late : option nat }.

Record world := { tq : timers; pcs : list pc; walks : list (option walk); fired : list nat }.

Definition goto (w : world) (i : nat) (s : timers) (p : pc) : world :=
  {| tq := s; pcs := <[i := p]> (pcs w); walks := walks w; fired := fired w |}.
Definition walk_on (w : world) (c : nat) (s : timers) (k : option walk) (l : list nat) : world :=
  {| tq := s; pcs := pcs w; walks := <[c := k]> (walks w); fired := fired w ++ l |}.

Definition del_return (t : nat) (next : option (Z * nat)) : pc := match next with Some (e, c) => PLink t e c | None => PIdle end.

(** The lock of CPU [c], between the steps: held by a walk, or by a thread that
    has unlinked a timer. *)
Definition clearing (c : nat) (p : pc) : bool := match p with PClear _ d _ => (d =? c)%nat | _ => false end.
Definition lock_held (w : world) (c : nat) : bool :=
  match walks w !! c with Some (Some _) => true | _ => existsb (clearing c) (pcs w) end.

(** The next step of thread [i]; [None] while it waits for a lock. *)
Definition thread_step (w : world) (i : nat) : option world :=
  match pcs w !! i with
  | Some (PAdd t e c) => Some (goto w i (tq w) (if pending (the_timer (tq w) t) then PDel t (Some (e, c)) else PLink t e c))
  | Some (PLink t e c) => if lock_held w c then None else Some (goto w i (add_section (tq w) t e c) PIdle)
  | Some (PDel t next) =>
    let cpu := tcpu (the_timer (tq w) t) in
    Some (goto w i (tq w) (if (cpu <? 0) || (MAX_CPUS <=? cpu) then del_return t next else PLock t (Z.to_nat cpu) next))
  | Some (PLock t c next) =>
    if lock_held w c then None
    else
      match del_section (tq w) t c with
      | (s, Moved) => Some (goto w i s (PDel t next))
      | (s, NotPending) => Some (goto w i s (del_return t next))
      | (s, Unlinked) => Some (goto w i s (PClear t c next))
      end
  | Some (PClear t c next) => Some (goto w i (clear_cpu (tq w) t) (del_return t next))
  | _ => None
  end.

(** The next step of the tick of CPU [c]: it takes the lock; it visits a timer at the
    time [jiffies], which CPU 0 may advance during the walk of another CPU; it
    clears the CPU of a timer that fires and runs the callback; it gives the lock
    back. *)
Definition tick_step (w : world) (c : nat) (jiffies : Z) : option world :=
  match walks w !! c with
  | Some None =>
    if lock_held w c then None
    else Some (walk_on w c (tq w) (Some {| todo := default [] (queues (tq w) !! c); late := None |}) [])
  | Some (Some {| todo := q; late := Some t |}) =>
    Some (walk_on w c (clear_cpu (tq w) t) (Some {| todo := q; late := None |}) [t])
  | Some (Some {| todo := t :: q; late := None |}) =>
    Some (if expires (the_timer (tq w) t) <=? jiffies
          then walk_on w c (clear_pending (tq w) t c) (Some {| todo := q; late := Some t |}) []
          else walk_on w c (tq w) (Some {| todo := q; late := None |}) [])
  | Some (Some {| todo := []; late := None |}) => Some (walk_on w c (tq w) None [])
  | None => None
  end.

(** The steps: only the thread a timer belongs to sets it up and adds it; any
    thread deletes it; any CPU ticks.  [may_read] restricts when a thread looks
    at [pending] outside the lock, as [timer_pending] does for the set-up. *)
Inductive step (owner : nat -> nat) (may_read : world -> nat -> Prop) : world -> world -> Prop :=
| s_setup w i t : owner t = i -> pcs w !! i = Some PIdle -> (t < length (tms (tq w)))%nat -> pending (the_timer (tq w) t) = false -> may_read w t ->
    step owner may_read w (goto w i (timer_setup (tq w) t) PIdle)
| s_add w i t e c : owner t = i -> pcs w !! i = Some PIdle -> (t < length (tms (tq w)))%nat -> (c < length (queues (tq w)))%nat ->
    step owner may_read w (goto w i (tq w) (PAdd t e c))
| s_del w i t : pcs w !! i = Some PIdle -> step owner may_read w (goto w i (tq w) (PDel t None))
| s_go w i w' : (forall t e c, pcs w !! i = Some (PAdd t e c) -> may_read w t) -> thread_step w i = Some w' -> step owner may_read w w'
| s_tick w c j w' : tick_step w c j = Some w' -> step owner may_read w w'.

(** Every interleaving; and those in which no thread looks at [pending] of a timer
    that a tick or a [timer_del] is about to clear the CPU of. *)
Definition any_time (w : world) (t : nat) : Prop := True.
Definition settled (w : world) (t : nat) : Prop :=
  (forall c k, walks w !! c = Some (Some k) -> late k <> Some t) /\ (forall i c nx, pcs w !! i <> Some (PClear t c nx)).

Definition start (n ncpu nthreads : nat) : world :=
  {| tq := {| tms := replicate n timer0; queues := replicate ncpu [] |}; pcs := replicate nthreads PIdle;
     walks := replicate ncpu None; fired := [] |}.
