(* ===== verification/TimerTheorems.v ===== *)
(** * Timers: theorems

    Every timer is queued where it says it is, or nowhere; a cancelled timer is
    on no list; the schedule of ticks does not drift. *)
From Stdlib Require Import ZArith Lia.
From stdpp Require Import base numbers list relations.
From S2P Require Import Prelude Timer.

(** ** The well-formed queues *)

(** Timer [t] is on the list of CPU [c]. *)
Definition on_list (s : timers) (t c : nat) : Prop := exists q, queues s !! c = Some q /\ t ∈ q.

Record queues_ok (s : timers) : Prop := {
  q_once c q : queues s !! c = Some q -> NoDup q;
  q_pending t c : on_list s t c -> (t < length (tms s))%nat /\ pending (the_timer s t) = true /\ tcpu (the_timer s t) = Z.of_nat c;
  q_queued t : pending (the_timer s t) = true -> on_list s t (Z.to_nat (tcpu (the_timer s t))) /\ 0 <= tcpu (the_timer s t) < MAX_CPUS;
  q_cpus : Z.of_nat (length (queues s)) <= MAX_CPUS
}.

Lemma the_timer_set s t x u : (t < length (tms s))%nat -> the_timer (set_timer s t x) u = if decide (u = t) then x else the_timer s u.
Proof.
  intros Ht; unfold the_timer, set_timer; simpl; case_decide; [subst; by rewrite list_lookup_insert_eq |]; by rewrite list_lookup_insert_ne by done.
Qed.

Lemma the_timer_out s t : ~ (t < length (tms s))%nat -> the_timer s t = timer0.
Proof. intros Ht; unfold the_timer; by rewrite lookup_ge_None_2 by lia. Qed.

(** A pending timer exists. *)
Lemma pending_exists s t : pending (the_timer s t) = true -> (t < length (tms s))%nat.
Proof. intros Hp; destruct (decide (t < length (tms s))%nat); [done |]; by rewrite the_timer_out in Hp. Qed.

(** A timer is on one list only. *)
Lemma one_list s t c d : queues_ok s -> on_list s t c -> on_list s t d -> c = d.
Proof. intros O H1%(q_pending s O) H2%(q_pending s O); lia. Qed.

Lemma not_pending_off s t c : queues_ok s -> pending (the_timer s t) = false -> ~ on_list s t c.
Proof. intros O Hp (_ & H & _)%(q_pending s O); congruence. Qed.

Lemma on_list_alter s t c d f : on_list {| tms := tms s; queues := alter f d (queues s) |} t c <->
  if decide (c = d) then exists q, queues s !! c = Some q /\ t ∈ f q else on_list s t c.
Proof.
  unfold on_list; simpl; case_decide as E.
  - subst; rewrite list_lookup_alter_eq; split; [intros (q & (q' & ? & ->)%fmap_Some & Hq); by exists q' | intros (q & -> & Hq); by exists (f q)].
  - by rewrite list_lookup_alter_ne.
Qed.

(** *** The stores of the locked sections *)

Lemma clear_pending_timer s t c u : (t < length (tms s))%nat ->
  the_timer (clear_pending s t c) u =
  if decide (u = t) then {| expires := expires (the_timer s t); pending := false; tcpu := tcpu (the_timer s t) |} else the_timer s u.
Proof. apply (the_timer_set (unlink s t c)). Qed.

Lemma clear_cpu_timer s t u : (t < length (tms s))%nat ->
  the_timer (clear_cpu s t) u =
  if decide (u = t) then {| expires := expires (the_timer s t); pending := pending (the_timer s t); tcpu := -1 |} else the_timer s u.
Proof. apply the_timer_set. Qed.

Lemma clear_pending_lists s t c u d : queues_ok s -> on_list s t c -> on_list (clear_pending s t c) u d <-> on_list s u d /\ u <> t.
Proof.
  intros O H; change (on_list (clear_pending s t c) u d) with (on_list {| tms := tms s; queues := alter (filter (fun u => u <> t)) c (queues s) |} u d).
  rewrite on_list_alter; case_decide as Ed.
  - subst; split; [intros (q & Hq & [Hne Hu]%list_elem_of_filter); split; [by exists q | done] |].
    intros [(q & Hq & Hu) Hne]; exists q; split; [done | by apply list_elem_of_filter].
  - split; [intros Hu; split; [done |]; intros ->; by apply Ed, (one_list s t d c) | by intros []].
Qed.

Lemma clear_pending_queues s t c : queues_ok s -> on_list s t c -> queues_ok (clear_pending s t c).
Proof.
  intros O H; destruct (q_pending s O t c H) as (Ht & _ & _); split.
  - intros d q Hq; simpl in Hq; destruct (decide (d = c)) as [-> |].
    + rewrite list_lookup_alter_eq in Hq; apply fmap_Some in Hq as (q' & Hq' & ->); by apply NoDup_filter, (q_once s O c).
    + rewrite list_lookup_alter_ne in Hq by done; by apply (q_once s O d).
  - intros u d [Hu Hne]%clear_pending_lists; [| done..]; rewrite clear_pending_timer, decide_False by done; simpl; rewrite length_insert; by apply (q_pending s O).
  - intros u; rewrite clear_pending_timer by done; case_decide as Eu; [done |]; intros Hp; destruct (q_queued s O u Hp); split; [by apply clear_pending_lists | done].
  - simpl; rewrite length_alter; apply (q_cpus s O).
Qed.

(** A store to the timer off the lists. *)
Lemma set_idle_queues s t x : queues_ok s -> (t < length (tms s))%nat -> pending (the_timer s t) = false -> pending x = false -> queues_ok (set_timer s t x).
Proof.
  intros O Ht Hp Hx; split.
  - apply (q_once s O).
  - intros u d H; destruct (decide (u = t)) as [-> | Hne]; [by destruct (not_pending_off s t d O Hp) |].
    rewrite the_timer_set, decide_False by done; simpl; rewrite length_insert; by apply (q_pending s O).
  - intros u; rewrite the_timer_set by done; case_decide; [congruence | apply (q_queued s O)].
  - apply (q_cpus s O).
Qed.

Lemma add_section_timer s t e c u : (t < length (tms s))%nat ->
  the_timer (add_section s t e c) u = if decide (u = t) then {| expires := e; pending := true; tcpu := Z.of_nat c |} else the_timer s u.
Proof. apply (the_timer_set s t _ u). Qed.

Lemma add_section_ok s t e c : queues_ok s -> (t < length (tms s))%nat -> (c < length (queues s))%nat -> pending (the_timer s t) = false ->
  queues_ok (add_section s t e c) /\ (forall u d, on_list (add_section s t e c) u d <-> on_list s u d \/ u = t /\ d = c).
Proof.
  intros O Ht Hc Hp; set (x := {| expires := e; pending := true; tcpu := Z.of_nat c |}); set (s' := add_section s t e c); pose proof (q_cpus s O) as Hm.
  assert (E : forall u, the_timer s' u = if decide (u = t) then x else the_timer s u) by (intros u; by apply add_section_timer).
  assert (L : forall u d, on_list s' u d <-> on_list s u d \/ u = t /\ d = c).
  { intros u d; change (on_list s' u d) with (on_list {| tms := tms s; queues := alter (fun q => q ++ [t]) c (queues s) |} u d); rewrite on_list_alter.
    case_decide as Ed; [subst | split; [by left | by intros [? | [_ ?]]]]; destruct (lookup_lt_is_Some_2 _ _ Hc) as [q Hq]; split.
    - intros (q' & Hq' & [Hu | ->%list_elem_of_singleton]%elem_of_app); [left; by exists q' | by right].
    - intros [(q' & Hq' & Hu) | [-> _]]; [exists q' | exists q]; (split; [done |]); apply elem_of_app; [by left | right; by apply list_elem_of_singleton]. }
  split; [split | exact L].
  - intros d q Hq; unfold s', add_section, add_tail in Hq; simpl in Hq; destruct (decide (d = c)) as [-> |].
    + rewrite list_lookup_alter_eq in Hq; apply fmap_Some in Hq as (q' & Hq' & ->); apply NoDup_app; split; [by apply (q_once s O c) |].
      split; [| apply NoDup_singleton]; intros u Hu ->%list_elem_of_singleton; apply (not_pending_off s t c O Hp); by exists q'.
    + rewrite list_lookup_alter_ne in Hq by done; by apply (q_once s O d).
  - intros u d [Hu | [-> ->]]%L; rewrite E; unfold s', add_section, add_tail, set_timer; simpl; rewrite length_insert.
    + rewrite decide_False by (intros ->; by apply (not_pending_off s t d O Hp)); by apply (q_pending s O).
    + by rewrite decide_True.
  - intros u; rewrite E; case_decide as Eu; [subst; intros _; simpl; rewrite Nat2Z.id; split; [apply L; by right | lia] |].
    intros Hpu; destruct (q_queued s O u Hpu); split; [apply L; by left | done].
  - unfold s', add_section, add_tail; simpl; by rewrite length_alter.
Qed.

(** ** Calls interleaved *)

(** Who clears the CPU of a timer: the walk of a CPU, or a thread. *)
Inductive holder := ByTick (c : nat) | ByThread (i : nat).

(** [h] has unlinked [t] from the list of CPU [c], and is yet to clear its CPU. *)
Definition mid (w : world) (h : holder) (t c : nat) : Prop :=
  match h with
  | ByTick d => d = c /\ exists k, walks w !! c = Some (Some k) /\ late k = Some t
  | ByThread i => exists nx, pcs w !! i = Some (PClear t c nx)
  end.

Lemma settled_mid w t : settled w t <-> forall h c, ~ mid w h t c.
Proof.
  split.
  - intros [H1 H2] [d | i] c; [intros [-> (k & Hk & Hl)]; by apply (H1 c k) | intros (nx & Hn); by apply (H2 i c nx)].
  - intros H; split; [intros c k Hk Hl; apply (H (ByTick c) c); split; [done | by exists k] | intros i c nx Hn; apply (H (ByThread i) c); by exists nx].
Qed.

(** The holder of a timer holds the lock of its CPU. *)
Lemma mid_held w h t c : mid w h t c -> lock_held w c = true.
Proof.
  unfold lock_held; destruct h as [d | i]; [intros [_ (k & -> & _)]; done |]; intros (nx & Hn).
  destruct (walks w !! c) as [[k |] |]; [done | |]; (apply existsb_exists; exists (PClear t c nx); split; [apply list_elem_of_In; by eapply list_elem_of_lookup_2 | simpl; apply Nat.eqb_refl]).
Qed.

Section interleaved.
Context (owner : nat -> nat).
Implicit Types (w : world) (s : timers).

(** What a thread relies on where it is. *)
Definition pc_ok w (i : nat) (p : pc) : Prop :=
  match p with
  | PAdd t e c | PDel t (Some (e, c)) | PLock t _ (Some (e, c)) | PClear t _ (Some (e, c)) =>
    owner t = i /\ (t < length (tms (tq w)))%nat /\ (c < length (queues (tq w)))%nat
  | PLink t e c => owner t = i /\ (t < length (tms (tq w)))%nat /\ (c < length (queues (tq w)))%nat /\ pending (the_timer (tq w) t) = false /\ settled w t
  | _ => True
  end.

Record world_ok w : Prop := {
  w_queues : queues_ok (tq w);
  w_pcs i p : pcs w !! i = Some p -> pc_ok w i p;
  w_walks c k : walks w !! c = Some (Some k) -> NoDup (todo k) /\ forall t, t ∈ todo k -> on_list (tq w) t c;
  w_mid h t c : mid w h t c -> (t < length (tms (tq w)))%nat /\ pending (the_timer (tq w) t) = false /\ tcpu (the_timer (tq w) t) = Z.of_nat c /\ Z.of_nat c < MAX_CPUS;
  w_one h1 h2 t c1 c2 : mid w h1 t c1 -> mid w h2 t c2 -> h1 = h2
}.

Definition is_clear (p : pc) : bool := match p with PClear _ _ _ => true | _ => false end.

(** Where a thread is after a step of its own, or of another. *)
Lemma goto_pcs w i s p j q : pcs (goto w i s p) !! j = Some q -> (j = i /\ q = p) \/ (j <> i /\ pcs w !! j = Some q).
Proof. intros [(-> & <- & _) | [? ?]]%list_lookup_insert_Some; [by left | by right]. Qed.

Lemma goto_mid w i s p h t c : is_clear p = false -> mid (goto w i s p) h t c -> mid w h t c.
Proof.
  intros Hp; destruct h as [d | j]; [done |]; intros (nx & [[_ <-] | [_ Hn]]%goto_pcs); [done | by exists nx].
Qed.

(** A step of thread [i] that leaves no timer half off its list: it may read, set
    up a timer that is not pending, or queue one. *)
Lemma world_goto w i s p p0 :
  world_ok w -> pcs w !! i = Some p0 -> is_clear p = false -> queues_ok s ->
  length (tms s) = length (tms (tq w)) -> length (queues s) = length (queues (tq w)) ->
  (forall h t c, mid w h t c -> the_timer s t = the_timer (tq w) t) ->
  (forall c k t, walks w !! c = Some (Some k) -> t ∈ todo k -> on_list s t c) ->
  (forall t, owner t <> i -> pending (the_timer (tq w) t) = false -> pending (the_timer s t) = false) ->
  pc_ok (goto w i s p) i p -> world_ok (goto w i s p).
Proof.
  intros W Hi Hc O Lt Lq Hm Hk Ho Hp; split; [exact O | | | |].
  - intros j q [[-> ->] | [Hne Hj]]%goto_pcs; [done |]; pose proof (w_pcs w W j q Hj) as Q.
    destruct q as [| t e c | t e c | t [[e c] |] | t k [[e c] |] | t k [[e c] |]]; simpl in Q |- *; rewrite ?Lt, ?Lq; try done.
    destruct Q as (Q1 & Q2 & Q3 & Q4 & Q5); split_and!; try done; [apply Ho; [congruence | done] |].
    rewrite settled_mid in Q5 |- *; intros h d M; by apply goto_mid, Q5 in M.
  - intros c k E; split; [by apply (w_walks w W c) | intros t Ht; by eapply Hk].
  - intros h t c M%goto_mid; [| done]; simpl; rewrite Lt, (Hm h t c M); by apply (w_mid w W h).
  - intros h1 h2 t c1 c2 M1%goto_mid M2%goto_mid; [| done..]; by apply (w_one w W h1 h2 t c1 c2).
Qed.

(** [h] unlinks [t], and is to clear its CPU. *)
Lemma unlink_ok w w' h t c :
  world_ok w -> on_list (tq w) t c -> tq w' = clear_pending (tq w) t c ->
  (forall h' t' c', mid w' h' t' c' -> mid w h' t' c' \/ h' = h /\ t' = t /\ c' = c) ->
  (forall d k, walks w' !! d = Some (Some k) -> NoDup (todo k) /\ forall u, u ∈ todo k -> on_list (tq w) u d /\ u <> t) ->
  (forall i p, pcs w' !! i = Some p -> pcs w !! i = Some p \/ exists nx, p = PClear t c nx /\ pcs w !! i = Some (PLock t c nx)) -> world_ok w'.
Proof.
  intros W H Eq Hm Hw Hp; pose proof (w_queues w W) as O; destruct (q_pending _ O t c H) as (Ht & Hpt & Hct); pose proof (proj2 (q_queued _ O t Hpt)) as Hm64; split; rewrite ?Eq.
  - by apply clear_pending_queues.
  - intros i p E; assert (K : pc_ok w i p) by (destruct (Hp i p E) as [E0 | (nx & -> & E0)]; exact (w_pcs w W i _ E0)).
    destruct p as [| u e d | u e d | u [[e d] |] | u k [[e d] |] | u k [[e d] |]]; simpl in K |- *; rewrite ?Eq; simpl; rewrite ?length_insert, ?length_alter; try done.
    destruct K as (K1 & K2 & K3 & K4 & K5); assert (Hne : u <> t) by congruence; split_and!; try done.
    + by rewrite clear_pending_timer, decide_False.
    + rewrite settled_mid in K5 |- *; intros h' d' [M | (_ & ? & _)]%Hm; [by apply K5 in M | done].
  - intros d k E; destruct (Hw d k E) as [Hn Hk]; split; [done |]; intros u Hu; by apply clear_pending_lists, Hk.
  - intros h' t' c' [M | (-> & -> & ->)]%Hm; simpl; rewrite length_insert; [| rewrite clear_pending_timer, decide_True by done; simpl; split_and!; try done; lia].
    destruct (w_mid w W h' t' c' M) as (M1 & M2 & M3); rewrite clear_pending_timer, decide_False by congruence; done.
  - intros h1 h2 t' c1 c2 [M1 | (-> & -> & _)]%Hm [M2 | (-> & E2 & _)]%Hm; subst; [by apply (w_one w W h1 h2 t' c1 c2) | | | done].
    + destruct (w_mid w W _ _ _ M1) as (_ & ? & _); congruence.
    + destruct (w_mid w W _ _ _ M2) as (_ & ? & _); congruence.
Qed.

(** [h] clears the CPU of [t]. *)
Lemma settle_ok w w' h t c :
  world_ok w -> mid w h t c -> tq w' = clear_cpu (tq w) t ->
  (forall h' t' c', mid w' h' t' c' -> mid w h' t' c' /\ h' <> h) ->
  (forall d k, walks w' !! d = Some (Some k) -> exists k0, walks w !! d = Some (Some k0) /\ todo k = todo k0) ->
  (forall i p, pcs w' !! i = Some p -> pcs w !! i = Some p \/ exists nx, p = del_return t nx /\ pcs w !! i = Some (PClear t c nx)) -> world_ok w'.
Proof.
  intros W M Eq Hm Hw Hp; destruct (w_mid w W h t c M) as (Ht & Hpt & Hct).
  assert (St : settled w' t) by (apply settled_mid; intros h' c' [M' Hne]%Hm; by apply Hne, (w_one w W h' h t c' c)).
  assert (Sp : forall u, pending (the_timer (clear_cpu (tq w) t) u) = pending (the_timer (tq w) u))
    by (intros u; rewrite clear_cpu_timer by done; case_decide; by subst).
  split; rewrite ?Eq.
  - by apply set_idle_queues; [apply (w_queues w W) | ..].
  - intros i p E; destruct (Hp i p E) as [E0 | (nx & -> & E0)]; pose proof (w_pcs w W i _ E0) as K.
    + destruct p as [| u e d | u e d | u [[e d] |] | u k [[e d] |] | u k [[e d] |]]; simpl in K |- *; rewrite ?Eq; simpl; rewrite ?length_insert; try done.
      rewrite Sp; destruct K as (K1 & K2 & K3 & K4 & K5); split_and!; try done.
      rewrite settled_mid in K5 |- *; intros h' d' [M' _]%Hm; by apply K5 in M'.
    + destruct nx as [[e d] |]; simpl in K |- *; rewrite ?Eq; simpl; rewrite ?length_insert, ?Sp; try done.
      destruct K as (K1 & K2 & K3); split_and!; done.
  - intros d k E; destruct (Hw d k E) as (k0 & E0 & ->); by apply (w_walks w W d k0).
  - intros h' t' c' [M' Hne]%Hm; simpl; rewrite length_insert; assert (t' <> t) by (intros ->; by apply Hne, (w_one w W h' h t c' c)).
    rewrite clear_cpu_timer, decide_False by done; by apply (w_mid w W h').
  - intros h1 h2 t' c1 c2 [M1 _]%Hm [M2 _]%Hm; by apply (w_one w W h1 h2 t' c1 c2).
Qed.

(** *** The steps of a thread and of a tick *)

Lemma thread_ok w i w' :
  world_ok w -> (forall t e c, pcs w !! i = Some (PAdd t e c) -> settled w t) -> thread_step w i = Some w' -> world_ok w'.
Proof.
  intros W Hset Hs; pose proof (w_queues w W) as O; unfold thread_step in Hs; destruct (pcs w !! i) as [p |] eqn:Ei; [| done].
  pose proof (w_pcs w W i p Ei) as K.
  assert (G : forall q, is_clear q = false -> pc_ok (goto w i (tq w) q) i q -> world_ok (goto w i (tq w) q)).
  { intros q Hq Hi; apply (world_goto w i (tq w) q p); try done; intros c k t E; by apply (w_walks w W c k). }
  assert (Sg : forall t q, is_clear q = false -> settled w t -> settled (goto w i (tq w) q) t).
  { intros t q Hq S; rewrite settled_mid in S |- *; intros h c M%goto_mid; [by apply S in M | done]. }
  destruct p as [| t e c | t e c | t nx | t k nx | t k nx]; [done | | | | |].
  - injection Hs as <-; destruct (pending (the_timer (tq w) t)) eqn:E; apply G; try done.
    destruct K as (K1 & K2 & K3); split_and!; try done; apply Sg; [done | by eapply Hset].
  - destruct (lock_held w c) eqn:El; [done |]; injection Hs as <-; destruct K as (K1 & K2 & K3 & K4 & K5).
    destruct (add_section_ok (tq w) t e c O K2 K3 K4) as [O1 L1]; rewrite settled_mid in K5.
    apply (world_goto w i _ _ (PLink t e c)); try done; [apply length_insert | apply length_alter | | |].
    + intros h u d M; rewrite add_section_timer, decide_False; [done | intros -> | done]; by apply K5 in M.
    + intros d k u E Hu; apply L1; left; by apply (w_walks w W d k).
    + intros u Hu Hp; rewrite add_section_timer, decide_False; [done | congruence | done].
  - injection Hs as <-; apply G; [destruct (_ || _), nx as [[e c] |]; done |].
    destruct (Z.ltb_spec (tcpu (the_timer (tq w) t)) 0) as [Hlt |], (Z.leb_spec MAX_CPUS (tcpu (the_timer (tq w) t))) as [Hge |];
      cbn [orb]; destruct nx as [[e c] |]; simpl in K |- *; try done; destruct K as (K1 & K2 & K3); split_and!; try done.
    1, 3, 5: destruct (pending (the_timer (tq w) t)) eqn:E; [apply (q_queued _ O) in E; lia | done].
    all: apply Sg; [done |]; apply settled_mid; intros h d M; destruct (w_mid w W _ _ _ M) as (_ & _ & E); try lia.
  - destruct (lock_held w k) eqn:El; [done |]; unfold del_section in Hs.
    destruct (Z.eqb_spec (tcpu (the_timer (tq w) t)) (Z.of_nat k)) as [Ek | Ek]; cbn [negb] in Hs; [| injection Hs as <-; by apply G].
    destruct (pending (the_timer (tq w) t)) eqn:Ep; injection Hs as <-.
    + destruct (q_queued _ O t Ep) as [H _]; rewrite Ek, Nat2Z.id in H; apply (unlink_ok w _ (ByThread i) t k); [done | done | done | | |].
      * intros [d | j] u d'; [by left |]; intros (nx' & [[-> [= -> -> _]] | [_ E]]%goto_pcs); [by right | left; by exists nx'].
      * intros d wk E; destruct (w_walks w W d wk E) as [W1 W2]; split; [done |]; intros u Hu; split; [by apply W2 |]; intros ->.
        assert (d = k) as -> by (by eapply one_list; [| apply W2 |]); unfold lock_held in El; simpl in E; by rewrite E in El.
      * intros j q [[-> ->] | [_ E]]%goto_pcs; [right; by exists nx | by left].
    + apply G; [by destruct nx as [[e c] |] |]; destruct nx as [[e c] |]; [| done]; destruct K as (K1 & K2 & K3); split_and!; try done.
      apply Sg; [done |]; apply settled_mid; intros h d M; destruct (w_mid w W _ _ _ M) as (_ & _ & E & _).
      assert (d = k) as -> by lia; apply mid_held in M; congruence.
  - injection Hs as <-; assert (M : mid w (ByThread i) t k) by (by exists nx); apply (settle_ok w _ (ByThread i) t k); [done | done | done | | |].
    + intros [d | j] u d'; [done |]; intros (nx' & [[-> E] | [Hne E]]%goto_pcs); [by destruct nx as [[e c] |] | split; [by exists nx' | congruence]].
    + intros d wk E; by exists wk.
    + intros j q [[-> ->] | [_ E]]%goto_pcs; [right; by exists nx | by left].
Qed.

Lemma walk_lookup w c s k l d x : walks (walk_on w c s k l) !! d = Some x -> (d = c /\ x = k) \/ (d <> c /\ walks w !! d = Some x).
Proof. intros [(-> & <- & _) | [? ?]]%list_lookup_insert_Some; [by left | by right]. Qed.

(** A step of a walk that does not touch the timers. *)
Lemma walk_quiet w c k l :
  world_ok w -> (forall x, k = Some x -> late x = None /\ NoDup (todo x) /\ forall t, t ∈ todo x -> on_list (tq w) t c) ->
  world_ok (walk_on w c (tq w) k l).
Proof.
  intros W Hk.
  assert (Hm : forall h t d, mid (walk_on w c (tq w) k l) h t d -> mid w h t d).
  { intros [e | i] t d; [| done]; intros [-> (x & [[-> <-] | [_ E]]%walk_lookup & L)]; [| split; [done |]; by exists x].
    destruct (Hk x eq_refl) as [? _]; congruence. }
  split; [apply (w_queues w W) | | | |].
  - intros i p E; pose proof (w_pcs w W i p E) as K; destruct p as [| u e d | u e d | u [[e d] |] | u x [[e d] |] | u x [[e d] |]]; simpl in K |- *; try done.
    destruct K as (K1 & K2 & K3 & K4 & K5); split_and!; try done; rewrite settled_mid in K5 |- *; intros h d' M%Hm; by apply K5 in M.
  - intros d x [[-> E] | [_ E]]%walk_lookup; [by apply Hk | by apply (w_walks w W d x)].
  - intros h t d M%Hm; by apply (w_mid w W h).
  - intros h1 h2 t c1 c2 M1%Hm M2%Hm; by apply (w_one w W h1 h2 t c1 c2).
Qed.

Lemma tick_ok w c j w' : world_ok w -> tick_step w c j = Some w' -> world_ok w'.
Proof.
  intros W Hs; pose proof (w_queues w W) as O; unfold tick_step in Hs; destruct (walks w !! c) as [[[q [t |]] |] |] eqn:Ec; [| | | done].
  - assert (Es : w' = walk_on w c (clear_cpu (tq w) t) (Some {| todo := q; late := None |}) [t]) by (by destruct q; injection Hs).
    subst w'; clear Hs; destruct (w_walks w W c _ Ec) as [W1 W2]; assert (M : mid w (ByTick c) t c) by (split; [done |]; by eexists); apply (settle_ok w _ (ByTick c) t c); [done | done | done | | |].
    + intros [d | i] u d'; [| by split]; intros [-> (x & [[-> [= ->]] | [Hne E]]%walk_lookup & L)]; [done |].
      split; [split; [done |]; by exists x | congruence].
    + intros d x [[-> [= ->]] | [_ E]]%walk_lookup; [by eexists | by exists x].
    + intros i p E; by left.
  - destruct (w_walks w W c _ Ec) as [W1 W2]; simpl in W1, W2; destruct q as [| t q]; [injection Hs as <-; by apply walk_quiet |].
    apply NoDup_cons in W1 as [Hnin Hnd]; assert (Ht : on_list (tq w) t c) by (apply W2; by left).
    destruct (expires (the_timer (tq w) t) <=? j); injection Hs as <-.
    + apply (unlink_ok w _ (ByTick c) t c); [done | done | done | | |].
      * intros [d | i] u d'; [| by left]; intros [-> (x & [[-> [= ->]] | [_ E]]%walk_lookup & L)]; [injection L as <-; by right | left; split; [done |]; by exists x].
      * intros d x [[-> [= ->]] | [Hne E]]%walk_lookup; [split; [done |]; intros u Hu; split; [apply W2; by right | by intros ->] |].
        destruct (w_walks w W d x E) as [X1 X2]; split; [done |]; intros u Hu; split; [by apply X2 |]; intros ->; apply Hne; by eapply one_list; [| apply X2 |].
      * intros i p E; by left.
    + apply walk_quiet; [done |]; intros x [= <-]; split; [done |]; split; [done |]; intros u Hu; apply W2; by right.
  - destruct (lock_held w c); [done |]; injection Hs as <-; apply walk_quiet; [done |]; intros x [= <-]; simpl; split; [done |].
    destruct (queues (tq w) !! c) as [q |] eqn:Eq; simpl; [| split; [constructor | by intros t Ht%elem_of_nil]].
    split; [by apply (q_once _ O c) | intros t Ht; by exists q].
Qed.

Lemma timer_step_ok w w' : world_ok w -> step owner settled w w' -> world_ok w'.
Proof.
  intros W; pose proof (w_queues w W) as O; inversion 1 as [w0 i t Ho Hi Ht Hp Hr | w0 i t e c Ho Hi Ht Hc | w0 i t Hi | w0 i w1 Hr Hs | w0 c j w1 Hs]; subst.
  - rewrite settled_mid in Hr; apply (world_goto w _ _ _ PIdle); try done; [by apply set_idle_queues | apply length_insert | | |].
    + intros h u d M; unfold timer_setup; rewrite the_timer_set, decide_False; [done | intros ->; by apply Hr in M | done].
    + intros c k u E; apply (w_walks w W c k E).
    + intros u Hu E; unfold timer_setup; rewrite the_timer_set by done; by case_decide.
  - apply (world_goto w _ _ _ PIdle); try done; intros d k u E; apply (w_walks w W d k E).
  - apply (world_goto w _ _ _ PIdle); try done; intros d k u E; apply (w_walks w W d k E).
  - by eapply thread_ok.
  - by eapply tick_ok.
Qed.

Lemma timer_start_ok n ncpu nthreads : Z.of_nat ncpu <= MAX_CPUS -> world_ok (start n ncpu nthreads).
Proof.
  intros Hc; assert (Ht : forall t, the_timer (tq (start n ncpu nthreads)) t = timer0).
  { intros t; unfold the_timer, start; simpl; destruct (replicate n timer0 !! t) eqn:E; [| done]; by apply lookup_replicate in E as [-> _]. }
  assert (Hq : forall c q, queues (tq (start n ncpu nthreads)) !! c = Some q -> q = []) by (intros c q Hq; by apply lookup_replicate in Hq as [-> _]).
  assert (Hw : forall c x, walks (start n ncpu nthreads) !! c = Some x -> x = None) by (intros c x Hx; by apply lookup_replicate in Hx as [-> _]).
  assert (Hp : forall i p, pcs (start n ncpu nthreads) !! i = Some p -> p = PIdle) by (intros i p E; by apply lookup_replicate in E as [-> _]).
  assert (Hm : forall h t c, ~ mid (start n ncpu nthreads) h t c) by (intros [d | i] t c; [intros [-> (k & E%Hw & _)] | intros (nx & E%Hp)]; done).
  split; [split | | | |].
  - intros c q ->%Hq; constructor.
  - intros t c (q & ->%Hq & Hin); by apply elem_of_nil in Hin.
  - intros t; by rewrite Ht.
  - simpl; by rewrite length_replicate.
  - by intros i p ->%Hp.
  - by intros c k E%Hw.
  - by intros h t c M%Hm.
  - by intros h1 h2 t c1 c2 M%Hm.
Qed.

Lemma timer_reach_ok n ncpu nthreads w : Z.of_nat ncpu <= MAX_CPUS -> rtc (step owner settled) (start n ncpu nthreads) w -> world_ok w.
Proof.
  intros Hc Hr; assert (G : forall w0, rtc (step owner settled) w0 w -> world_ok w0 -> world_ok w) by (induction 1; eauto using timer_step_ok).
  by apply (G _ Hr), timer_start_ok.
Qed.


(** C37: a timer is queued exactly where it says.  Calls of timer_add and timer_del,
    on any threads, and the ticks of the CPUs interleave, store by store where a
    timer is taken off its list; only the owner of a timer adds it.  If no owner
    looks at [pending] of its timer, in timer_add or timer_pending, between the
    two stores by which a tick or a timer_del takes the timer off its list, then
    at every point a timer is pending and of CPU [c] exactly if it is on the list
    of [c], and it is there once.  The code does nothing to bring that condition
    about, and without it the property fails: the example
    [late_clear_strands_timer]. *)
Theorem timers_queued_once n ncpu nthreads w t :
  Z.of_nat ncpu <= MAX_CPUS -> rtc (step owner settled) (start n ncpu nthreads) w ->
  (forall c q, queues (tq w) !! c = Some q -> NoDup q) /\
  forall c, on_list (tq w) t c <-> pending (the_timer (tq w) t) = true /\ tcpu (the_timer (tq w) t) = Z.of_nat c.
Proof.
  intros Hc Hr; pose proof (w_queues w (timer_reach_ok n ncpu nthreads w Hc Hr)) as O; split; [apply (q_once _ O) |]; intros c; split.
  - intros H; by destruct (q_pending _ O t c H) as (_ & ? & ?).
  - intros [Hp He]; destruct (q_queued _ O t Hp) as [H _]; by rewrite He, Nat2Z.id in H.
Qed.

(** Only the owner's locked section puts a timer on a list. *)
Lemma queued_by_owner w w' t c : world_ok w -> step owner settled w w' -> on_list (tq w') t c ->
  on_list (tq w) t c \/ exists e, pcs w !! owner t = Some (PLink t e c).
Proof.
  intros W Hs H; pose proof (w_queues w W) as O; inversion Hs as [w0 i u Ho Hi Ht Hu | w0 i u e d Ho Hi Ht Hd | w0 i u Hi | w0 i w1 _ Hg | w0 d j w1 Hg]; subst; auto.
  - unfold thread_step in Hg; destruct (pcs w !! i) as [p |] eqn:Ei; [| done]; pose proof (w_pcs w W i p Ei) as K.
    destruct p as [| u e d | u e d | u nx | u k nx | u k nx]; [done | injection Hg as <-; auto | | injection Hg as <-; auto | | injection Hg as <-; auto].
    + destruct (lock_held w d); [done |]; injection Hg as <-; destruct K as (K1 & K2 & K3 & K4 & K5).
      apply (add_section_ok _ _ _ _ O K2 K3 K4) in H as [H | [-> ->]]; [by left | right; exists e; congruence].
    + destruct (lock_held w k); [done |]; unfold del_section in Hg; destruct (Z.eqb_spec (tcpu (the_timer (tq w) u)) (Z.of_nat k)) as [Ek |]; cbn [negb] in Hg; [| injection Hg as <-; auto].
      destruct (pending (the_timer (tq w) u)) eqn:Ep; injection Hg as <-; [| auto]; left.
      destruct (q_queued _ O u Ep) as [Hk _]; rewrite Ek, Nat2Z.id in Hk; by apply (clear_pending_lists _ _ _ _ _ O Hk) in H as [? _].
  - left; unfold tick_step in Hg; destruct (walks w !! d) as [[[q [u |]] |] |] eqn:Ed; [destruct q; by injection Hg as <- | | destruct (lock_held w d); [done | by injection Hg as <-] | done].
    destruct q as [| u q]; [by injection Hg as <- |]; destruct (_ <=? _); injection Hg as <-; [| done].
    apply (clear_pending_lists (tq w) u d) in H as [? _]; [done | done |]; apply (w_walks w W d _ Ed); by left.
Qed.

(** A timer that [timer_del] has cancelled is on no list.  At the step at
    which a call of timer_del returns, whichever way and whatever the other
    threads are at, the timer is on no list, and from then on the only step that
    puts it on one is the locked section of a timer_add by its owner: once the
    owner is gone its memory may be freed. *)
Theorem deleted_timer_unlinked n ncpu nthreads w w' i t :
  Z.of_nat ncpu <= MAX_CPUS -> rtc (step owner settled) (start n ncpu nthreads) w ->
  (pcs w !! i = Some (PDel t None) \/ exists c, pcs w !! i = Some (PLock t c None) \/ pcs w !! i = Some (PClear t c None)) ->
  thread_step w i = Some w' -> pcs w' !! i = Some PIdle ->
  (forall c, ~ on_list (tq w') t c) /\
  forall w2 w3 c, rtc (step owner settled) w' w2 -> step owner settled w2 w3 -> on_list (tq w3) t c ->
    on_list (tq w2) t c \/ exists e, pcs w2 !! owner t = Some (PLink t e c).
Proof.
  intros Hc Hr Hpc Hs Hret; pose proof (timer_reach_ok n ncpu nthreads w Hc Hr) as W.
  assert (W' : world_ok w') by (eapply thread_ok; [exact W | | exact Hs]; intros u e d E; destruct Hpc as [E' | (x & [E' | E'])]; congruence).
  assert (Hlt : (i < length (pcs w))%nat) by (destruct Hpc as [E | (x & [E | E])]; by apply lookup_lt_Some in E).
  split; [intros c; apply not_pending_off; [apply (w_queues w' W') |] |].
  - unfold thread_step in Hs; destruct Hpc as [E | (d & [E | E])]; rewrite E in Hs.
    + injection Hs as <-; simpl in Hret |- *; rewrite list_lookup_insert_eq in Hret by done; destruct (pending (the_timer (tq w) t)) eqn:Ep; [| done].
      apply (q_queued _ (w_queues w W)) in Ep as [_ Hb]; destruct (Z.ltb_spec (tcpu (the_timer (tq w) t)) 0), (Z.leb_spec MAX_CPUS (tcpu (the_timer (tq w) t))); try lia; done.
    + destruct (lock_held w d); [done |]; unfold del_section in Hs; destruct (negb _); [| destruct (pending (the_timer (tq w) t)) eqn:Ep];
        injection Hs as <-; simpl in Hret |- *; rewrite list_lookup_insert_eq in Hret by done; done.
    + injection Hs as <-; destruct (w_mid w W (ByThread i) t d) as (Ht & Hp & _); [by exists None |]; simpl; by rewrite clear_cpu_timer, decide_True.
  - intros w2 w3 c Hr2; apply queued_by_owner, (timer_reach_ok n ncpu nthreads w2 Hc); etrans; [exact Hr |]; eapply rtc_l; [| exact Hr2].
    apply (s_go owner settled w i); [intros u e d E; destruct Hpc as [E' | (x & [E' | E'])]; congruence | done].
Qed.
End interleaved.

(** ** The tick schedule *)

(** The ticks at the counter values [nows], one after the other. *)
Definition ticks (freq : Z) (nows : list Z) (s : tick_state) : tick_state := fold_left (fun s now => timer_percpu_tick freq now s) nows s.

(** Every tick is taken before the one after it is due. *)
Fixpoint on_time (freq : Z) (nows : list Z) (s : tick_state) : Prop :=
  match nows with [] => True | now :: nows => now < next_tick_target s + freq / HZ /\ on_time freq nows (timer_percpu_tick freq now s) end.

Lemma tick_exact freq now s :
  0 <= freq < 2 ^ 63 -> 0 <= tick_error_acc s < HZ -> 0 <= next_tick_target s -> next_tick_target s + freq / HZ + 1 < 2 ^ 64 ->
  now < next_tick_target s + freq / HZ -> let s' := timer_percpu_tick freq now s in
  0 <= tick_error_acc s' < HZ /\ next_tick_target s + freq / HZ <= next_tick_target s' <= next_tick_target s + freq / HZ + 1 /\
  next_tick_target s' * HZ + tick_error_acc s' = next_tick_target s * HZ + tick_error_acc s + freq.
Proof.
  intros Hf Ha Ht Hb; unfold timer_percpu_tick; assert (Hz : HZ = 1000) by reflexivity; pose proof (Z.div_mod freq HZ ltac:(lia)) as Hd.
  pose proof (Z.mod_pos_bound freq HZ ltac:(lia)) as Hm; pose proof (Z.div_pos freq HZ ltac:(lia) ltac:(lia)).
  rewrite (u64_small (tick_error_acc s + _)) by lia; destruct (Z.leb_spec HZ (tick_error_acc s + freq mod HZ)); cbn [next_tick_target tick_error_acc];
    rewrite (u64_small (next_tick_target s + _)) by lia; intros Hn; rewrite (proj2 (Z.leb_gt _ _)) by lia; lia.
Qed.

(** C38: the schedule of ticks does not drift.  When every tick is taken before the
    one after it is due, then after [n] ticks the next one is due [n] times the
    exact, unrounded interval after the first, rounded down: the accumulated
    remainder is less than one count of the hardware. *)
Theorem tick_schedule_exact freq nows s :
  0 <= freq < 2 ^ 63 -> 0 <= tick_error_acc s < HZ -> 0 <= next_tick_target s ->
  next_tick_target s + Z.of_nat (length nows) * (freq / HZ + 1) < 2 ^ 64 -> on_time freq nows s ->
  next_tick_target (ticks freq nows s) = (next_tick_target s * HZ + tick_error_acc s + Z.of_nat (length nows) * freq) / HZ /\
  tick_error_acc (ticks freq nows s) = (next_tick_target s * HZ + tick_error_acc s + Z.of_nat (length nows) * freq) mod HZ.
Proof.
  intros Hf Ha Ht Hb Ho; assert (Hz : HZ = 1000) by reflexivity; pose proof (Z.div_pos freq HZ ltac:(lia) ltac:(lia)) as Hd.
  assert (K : 0 <= tick_error_acc (ticks freq nows s) < HZ /\ next_tick_target (ticks freq nows s) * HZ + tick_error_acc (ticks freq nows s) =
    next_tick_target s * HZ + tick_error_acc s + Z.of_nat (length nows) * freq).
  { revert s Ha Ht Hb Ho; induction nows as [| now nows IH]; intros s Ha Ht Hb Ho; cbn [ticks fold_left length] in *; [lia |].
    destruct Ho as [Hn Ho]; destruct (tick_exact freq now s) as (Ha' & Ht' & E); [lia.. |]; destruct (IH (timer_percpu_tick freq now s)) as [IH1 IH2]; [lia.. | exact Ho |].
    unfold ticks in IH1, IH2; split; [exact IH1 | rewrite IH2, E; lia]. }
  destruct K as [K1 K2]; rewrite <- K2, Z.add_comm, Z.div_add, Z.mod_add, Z.div_small, Z.mod_small by lia; lia.
Qed.

Lemma tick_schedule_exact_witness :
  next_tick_target (ticks 62500001 [62600; 125010; 187600] {| next_tick_target := 62500; tick_error_acc := 998 |}) = 250001.
Proof.
  rewrite (proj1 (tick_schedule_exact 62500001 [62600; 125010; 187600] {| next_tick_target := 62500; tick_error_acc := 998 |} ltac:(lia) ltac:(vm_compute; split; congruence)
    ltac:(vm_compute; congruence) ltac:(vm_compute; congruence) ltac:(vm_compute; repeat split))); vm_compute; reflexivity.
Defined.

(** A late tick starts over from the counter and does not replay the missed ones. *)
Example late_tick_starts_over : timer_percpu_tick 1000000 50000 {| next_tick_target := 10000; tick_error_acc := 0 |} = {| next_tick_target := 51000; tick_error_acc := 0 |}.
Proof. vm_compute; reflexivity. Qed.

(** [jiffies] on CPU 0 never goes back and is never behind the clock. *)
Lemma jiffies_monotone j ns : j <= reconcile j ns /\ ns / NS_PER_TICK <= reconcile j ns.
Proof. unfold reconcile; destruct (Z.ltb_spec j (ns / NS_PER_TICK)); lia. Qed.

(** ** Examples *)

(** Three timers on two CPUs; thread 0 owns the first and queues it on CPU 1,
    then thread 1 cancels it. *)
Definition demo_step (w : world) (i : nat) : world := default w (thread_step w i).
Definition demo_added : world := demo_step (demo_step (goto (start 3 2 2) 0 (tq (start 3 2 2)) (PAdd 0 5 1)) 0) 0.
Definition demo_deleting : world := demo_step (demo_step (goto demo_added 1 (tq demo_added) (PDel 0 None)) 1) 1.
Definition demo_owner (_ : nat) : nat := 0%nat.

(** A world in which no timer is half off its list. *)
Lemma all_settled w t : forallb (fun k => match k with Some {| late := Some _ |} => false | _ => true end) (walks w) = true ->
  forallb (fun p => negb (is_clear p)) (pcs w) = true -> settled w t.
Proof.
  rewrite !forallb_forall; intros H1 H2; split.
  - intros c k E L; specialize (H1 _ (proj1 (list_elem_of_In _ _) (list_elem_of_lookup_2 _ _ _ E))); destruct k as [? [? |]]; done.
  - intros i c nx E; by specialize (H2 _ (proj1 (list_elem_of_In _ _) (list_elem_of_lookup_2 _ _ _ E))).
Qed.

Lemma demo_added_reach : rtc (step demo_owner settled) (start 3 2 2) demo_added.
Proof.
  eapply rtc_l; [by apply (s_add demo_owner settled _ 0%nat 0%nat 5 1%nat); simpl; try reflexivity; lia |].
  eapply rtc_l; [apply (s_go demo_owner settled _ 0%nat); [intros; by apply all_settled | reflexivity] |].
  eapply rtc_l; [apply (s_go demo_owner settled _ 0%nat); [intros; by apply all_settled | reflexivity] | apply rtc_refl].
Qed.

Lemma demo_deleting_reach : rtc (step demo_owner settled) (start 3 2 2) demo_deleting.
Proof.
  etrans; [apply demo_added_reach |]; eapply rtc_l; [by apply (s_del demo_owner settled _ 1%nat 0%nat) |].
  eapply rtc_l; [apply (s_go demo_owner settled _ 1%nat); [intros; by apply all_settled | reflexivity] |].
  eapply rtc_l; [apply (s_go demo_owner settled _ 1%nat); [intros; by apply all_settled | reflexivity] | apply rtc_refl].
Qed.

Lemma timers_queued_once_witness : pending (the_timer (tq demo_added) 0) = true /\ on_list (tq demo_added) 0 1.
Proof. split; [reflexivity |]; apply (timers_queued_once demo_owner 3 2 2 demo_added 0 ltac:(done) demo_added_reach); split; reflexivity. Defined.

Lemma deleted_timer_unlinked_witness :
  tcpu (the_timer (tq demo_deleting) 0) = 1 /\ ~ on_list (tq (demo_step demo_deleting 1)) 0 1 /\ pcs (demo_step demo_deleting 1) !! 1%nat = Some PIdle.
Proof.
  split; [reflexivity |]; split; [| reflexivity].
  apply (deleted_timer_unlinked demo_owner 3 2 2 demo_deleting (demo_step demo_deleting 1) 1 0 ltac:(done) demo_deleting_reach);
    [right; exists 1%nat; by right | reflexivity..].
Defined.

(** Between the two stores by which a tick of CPU 0 takes a timer off its list, an
    owner that adds the timer on CPU 1 reads that it is not pending and does not
    wait for the lock of CPU 0; the second store then leaves a queued timer with
    no CPU, which a later timer_del does not unlink. *)
Definition tick1 (w : world) (c : nat) : world := default w (tick_step w c 9).
Definition add_on (w : world) (c : nat) : world :=
  demo_step (demo_step (goto w 0 (tq w) (PAdd 0 5 c)) 0) 0.
Definition half_off : world := tick1 (tick1 (add_on (start 1 2 1) 0) 0) 0.
Definition stranded : world := tick1 (add_on half_off 1) 0.

Lemma add_on_reach w c : pcs w !! 0%nat = Some PIdle /\ (0 < length (tms (tq w)))%nat -> (c < length (queues (tq w)))%nat ->
  (exists w1, thread_step (goto w 0 (tq w) (PAdd 0 5 c)) 0 = Some w1 /\ exists w2, thread_step w1 0 = Some w2) -> rtc (step demo_owner any_time) w (add_on w c).
Proof.
  intros [Hi Ht] Hc (w1 & E1 & w2 & E2); unfold add_on, demo_step; rewrite E1; simpl; rewrite E2; simpl.
  eapply rtc_l; [by apply (s_add demo_owner any_time w 0%nat 0%nat 5 c) |].
  eapply rtc_l; [by apply (s_go demo_owner any_time _ 0%nat) |]; by apply rtc_once, (s_go demo_owner any_time _ 0%nat).
Qed.

Lemma tick1_reach w c w1 : tick_step w c 9 = Some w1 -> rtc (step demo_owner any_time) w (tick1 w c).
Proof. intros E; unfold tick1; rewrite E; by apply rtc_once, (s_tick demo_owner any_time w c 9). Qed.

Example late_clear_strands_timer :
  rtc (step demo_owner any_time) (start 1 2 1) stranded /\ ~ settled half_off 0 /\
  on_list (tq stranded) 0 1 /\ tcpu (the_timer (tq stranded) 0) = -1 /\
  tq <$> thread_step (goto stranded 0 (tq stranded) (PDel 0 None)) 0 = Some (tq stranded).
Proof.
  split; [| split; [intros [H _]; by apply (H 0%nat {| todo := []; late := Some 0%nat |}) | split; [exists [0%nat]; split; [reflexivity | by left] | by split]]].
  transitivity half_off; [transitivity (tick1 (add_on (start 1 2 1) 0) 0); [transitivity (add_on (start 1 2 1) 0) |] | transitivity (add_on half_off 1)].
  - apply add_on_reach; [by split; [| simpl; lia] | simpl; lia |]; eexists; split; [reflexivity | eexists; reflexivity].
  - eapply tick1_reach; reflexivity.
  - eapply tick1_reach; reflexivity.
  - apply add_on_reach; [by split; [| simpl; lia] | simpl; lia |]; eexists; split; [reflexivity | eexists; reflexivity].
  - eapply tick1_reach; reflexivity.
Qed.
