(* ===== verification/Ext4Disk.v ===== *)
(** * ext4: the device and the structures on it (kernel/fs/ext4.c, sections 1-7)

    The disk by sectors, the superblock and the group descriptors as the bytes the
    driver keeps of them, the bitmaps, the repair at mount, and the inode table.

    Every kmalloc and every transfer may fail: [oracle] says how the next ones
    end, and past its end they succeed.  A transfer that fails changes nothing on
    the disk.  [None] of the monad is a fault: an access outside a buffer, or a
    loop that does not end. *)
From Stdlib Require Import ZArith Lia.
From stdpp Require Import base numbers list.
From S2P Require Import Prelude Bytes Gpt.

Definition EXT4_SUPERBLOCK_OFFSET : Z := 1024.
Definition EXT4_MAGIC : Z := 0xEF53.
Definition EXT4_BLOCK_SIZE : Z := 4096.
Definition EXT4_SECTORS_PER_BLOCK : Z := 8.
Definition EXT4_ROOT_INO : Z := 2.
Definition EXT4_MAX_GROUPS : Z := 128.
Definition EXT4_INCOMPAT_SUPPORTED : Z := Z.lor 0x0002 (Z.lor 0x0040 0x0200).
Definition EXT4_RO_COMPAT_WRITE_SAFE : Z := Z.lor 0x0001 (Z.lor 0x0002 (Z.lor 0x0020 0x0040)).
Definition EXT4_INODE_TABLE_BLOCKS : Z := 64.
Definition GN_META_BLOCKS : Z := 3.
Definition EXT4_SUPERBLOCK_SECTOR : Z := EXT4_SUPERBLOCK_OFFSET / 512.
Definition EXT4_SUPERBLOCK_SECTORS : Z := 1024 / 512.
Definition EXT4_GDT_BLOCK : Z := 1.
Definition EXT4_BITS_PER_BITMAP : Z := EXT4_BLOCK_SIZE * 8.
Definition EXT4_BITMAP_FULL : Z := 0xFFFFFFFF.

(** ** State *)

(** [struct ext4_fs]: [sb] is the superblock, [bgs] the descriptors, 32 bytes each. *)
Record ext4_fs := {
  part_start_lba : Z;
  inode_size : Z;
  read_only : bool;
  n_groups : Z;
  blocks_per_group : Z;
  sb : list Z;
  bgs : list Z
}.

(** [heap]: what a buffer fresh from kmalloc holds. *)
Record disk := { dev : Z -> list Z; oracle : list bool; heap : list Z; fs : ext4_fs }.

Definition with_sb (f : ext4_fs) (b : list Z) : ext4_fs :=
  {| part_start_lba := part_start_lba f; inode_size := inode_size f; read_only := read_only f; n_groups := n_groups f;
     blocks_per_group := blocks_per_group f; sb := b; bgs := bgs f |}.
Definition with_bgs (f : ext4_fs) (b : list Z) : ext4_fs :=
  {| part_start_lba := part_start_lba f; inode_size := inode_size f; read_only := read_only f; n_groups := n_groups f;
     blocks_per_group := blocks_per_group f; sb := sb f; bgs := b |}.

Definition s_inodes_count (f : ext4_fs) : Z := le32 (sb f) 0.
Definition s_blocks_count_lo (f : ext4_fs) : Z := le32 (sb f) 4.
Definition s_free_blocks_count_lo (f : ext4_fs) : Z := le32 (sb f) 12.
Definition s_free_inodes_count (f : ext4_fs) : Z := le32 (sb f) 16.
Definition s_log_block_size (f : ext4_fs) : Z := le32 (sb f) 24.
Definition s_blocks_per_group (f : ext4_fs) : Z := le32 (sb f) 32.
Definition s_magic (f : ext4_fs) : Z := le16 (sb f) 56.
Definition s_rev_level (f : ext4_fs) : Z := le32 (sb f) 76.
Definition s_inode_size (f : ext4_fs) : Z := le16 (sb f) 88.
Definition s_feature_incompat (f : ext4_fs) : Z := le32 (sb f) 96.
Definition s_feature_ro_compat (f : ext4_fs) : Z := le32 (sb f) 100.

Definition set_free_blocks (f : ext4_fs) (n : Z) : ext4_fs := with_sb f (splice (sb f) 12 (bytes32 n)).
Definition set_free_inodes (f : ext4_fs) (n : Z) : ext4_fs := with_sb f (splice (sb f) 16 (bytes32 n)).

Definition bg_block_bitmap_lo (f : ext4_fs) (g : Z) : Z := le32 (bgs f) (32 * g).
Definition bg_inode_bitmap_lo (f : ext4_fs) (g : Z) : Z := le32 (bgs f) (32 * g + 4).
Definition bg_inode_table_lo (f : ext4_fs) (g : Z) : Z := le32 (bgs f) (32 * g + 8).
Definition bg_free_blocks_count_lo (f : ext4_fs) (g : Z) : Z := le16 (bgs f) (32 * g + 12).
Definition bg_free_inodes_count_lo (f : ext4_fs) (g : Z) : Z := le16 (bgs f) (32 * g + 14).

Definition set_bg_free_blocks (f : ext4_fs) (g n : Z) : ext4_fs := with_bgs f (splice (bgs f) (32 * g + 12) (bytes16 n)).
Definition set_bg_free_inodes (f : ext4_fs) (g n : Z) : ext4_fs := with_bgs f (splice (bgs f) (32 * g + 14) (bytes16 n)).

(** ** The monad *)

Definition M (A : Type) : Type := disk -> option (disk * A).
#[global] Instance M_ret : MRet M := fun A a s => Some (s, a).
#[global] Instance M_bind : MBind M := fun A B k m s => match m s with Some (s, a) => k a s | None => None end.

Definition fault {A} : M A := fun _ => None.
Definition get_fs : M ext4_fs := fun s => Some (s, fs s).
Definition fresh : M (list Z) := fun s => Some (s, heap s).
Definition set_fs (f : ext4_fs) : M unit := fun s => Some ({| dev := dev s; oracle := oracle s; heap := heap s; fs := f |}, tt).

(** How the next allocation or transfer ends. *)
Definition ask : M bool := fun s =>
  match oracle s with
  | [] => Some (s, true)
  | b :: l => Some ({| dev := dev s; oracle := l; heap := heap s; fs := fs s |}, b)
  end.

Definition read_sectors (d : Z -> list Z) (sector count : Z) : list Z := concat (d <$> seqZ sector count).
Definition write_sectors (d : Z -> list Z) (sector count : Z) (l : list Z) : Z -> list Z :=
  fun x => if (sector <=? x) && (x <? sector + count) then slice l (512 * (x - sector)) 512 else d x.

Definition get_sectors (sector count : Z) : M (list Z) := fun s => Some (s, read_sectors (dev s) sector count).
Definition put_sectors (sector count : Z) (l : list Z) : M unit := fun s =>
  Some ({| dev := write_sectors (dev s) sector count l; oracle := oracle s; heap := heap s; fs := fs s |}, tt).

Definition ext4_bread (sector count : Z) : M (option (list Z)) :=
  ok ← ask;
  if (ok : bool) then l ← get_sectors sector count; mret (Some l) else mret None.

Definition ext4_bwrite (sector count : Z) (l : list Z) : M bool :=
  ok ← ask;
  if (ok : bool) then _ ← put_sectors sector count l; mret true else mret false.

Definition block_sector (f : ext4_fs) (blk : Z) : Z := u64 (part_start_lba f + u64 (blk * EXT4_SECTORS_PER_BLOCK)).

Definition ext4_read_block (blk : Z) : M (option (list Z)) := f ← get_fs; ext4_bread (block_sector f blk) EXT4_SECTORS_PER_BLOCK.
Definition ext4_write_block (blk : Z) (l : list Z) : M bool := f ← get_fs; ext4_bwrite (block_sector f blk) EXT4_SECTORS_PER_BLOCK l.

(** [kmalloc] of a buffer, and a block read into it; the caller tells the two
    failures apart only where the code does. *)
Definition kmalloc_buf : M bool := ask.
Definition load_block (blk : Z) : M (option (list Z)) :=
  ok ← kmalloc_buf;
  if (ok : bool) then ext4_read_block blk else mret None.

(** ** Bitmaps *)

Definition bitmap_bit_test (bm : list Z) (bit : Z) : bool := Z.testbit (znth 0 bm (bit / 8)) (bit mod 8).
Definition bitmap_bit_set (bm : list Z) (bit : Z) : list Z := zset bm (bit / 8) (Z.lor (znth 0 bm (bit / 8)) (u8 (Z.shiftl 1 (bit mod 8)))).
Definition bitmap_bit_clear (bm : list Z) (bit : Z) : list Z := zset bm (bit / 8) (Z.land (znth 0 bm (bit / 8)) (u8 (Z.lnot (Z.shiftl 1 (bit mod 8))))).

(** The inner loop, over the bits of a byte. *)
Fixpoint scan_byte (n : nat) (c idx bit limit : Z) : option Z :=
  match n with
  | O => None
  | S n => if limit <=? idx then None else if negb (Z.testbit c bit) then Some idx else scan_byte n c (idx + 1) (bit + 1) limit
  end.

Fixpoint find_clear_loop (bytes : list Z) (byte limit : Z) : Z :=
  match bytes with
  | [] => EXT4_BITMAP_FULL
  | c :: bytes =>
    if c =? 0xFF then find_clear_loop bytes (byte + 1) limit
    else match scan_byte 8 c (byte * 8) 0 limit with Some idx => idx | None => find_clear_loop bytes (byte + 1) limit end
  end.

Definition bitmap_find_first_clear (bm : list Z) (limit : Z) : Z :=
  let limit := Z.min limit EXT4_BITS_PER_BITMAP in
  find_clear_loop (take (Z.to_nat ((limit + 7) / 8)) bm) 0 limit.

(** [while (b) { free_bits++; b &= b - 1; }]: a byte has eight bits. *)
Fixpoint popcount_loop (n : nat) (b acc : Z) : Z :=
  match n with
  | O => acc
  | S n => if b =? 0 then acc else popcount_loop n (Z.land b (b - 1)) (acc + 1)
  end.

Definition bitmap_count_clear (bm : list Z) (nbytes : Z) : Z :=
  foldl (fun acc c => popcount_loop 8 (u8 (Z.lnot c)) acc) 0 (take (Z.to_nat nbytes) bm).

(** ** The superblock and the descriptors written back *)

Definition gdt_block (f : ext4_fs) : list Z :=
  let gdt_bytes := Z.min (n_groups f * 32) EXT4_BLOCK_SIZE in
  splice (zeroes EXT4_BLOCK_SIZE) 0 (take (Z.to_nat gdt_bytes) (bgs f)).

(** Failures are only logged. *)
Definition ext4_sync_bg_sb : M unit :=
  f ← get_fs;
  ok ← kmalloc_buf;
  _ ← (if (ok : bool) then ext4_write_block EXT4_GDT_BLOCK (gdt_block f) else mret false);
  ok ← kmalloc_buf;
  _ ← (if (ok : bool) then ext4_bwrite (u64 (part_start_lba f + EXT4_SUPERBLOCK_SECTOR)) EXT4_SUPERBLOCK_SECTORS (sb f) else mret false);
  mret tt.

(** ** Repair at mount *)

(** Group [g]: the counter set to what the bitmap says. *)
Definition verify_group (g : Z) : M unit :=
  f ← get_fs;
  r ← load_block (bg_block_bitmap_lo f g);
  match r with
  | None => mret tt
  | Some bitmap =>
    let free_in_bitmap := bitmap_count_clear bitmap EXT4_BLOCK_SIZE in
    if negb (free_in_bitmap =? bg_free_blocks_count_lo f g)
    then _ ← set_fs (set_bg_free_blocks f g (u16 free_in_bitmap)); ext4_sync_bg_sb
    else mret tt
  end.

Fixpoint verify_loop (n : nat) (g : Z) : M unit :=
  match n with
  | O => mret tt
  | S n => _ ← verify_group g; verify_loop n (g + 1)
  end.

Definition ext4_verify_free_count : M unit := f ← get_fs; verify_loop (Z.to_nat (n_groups f)) 0.

(** The bits [b], [b + 1], ..., [b + n - 1] set; how many were not. *)
Fixpoint mark_used (n : nat) (b : Z) (bm : list Z) (repaired : Z) : list Z * Z :=
  match n with
  | O => (bm, repaired)
  | S n => if bitmap_bit_test bm b then mark_used n (b + 1) bm repaired else mark_used n (b + 1) (bitmap_bit_set bm b) (repaired + 1)
  end.

Definition reduced (count repaired : Z) : Z := if repaired <=? count then count - repaired else 0.

(** The metadata blocks of group [g]; [false] if the loop over the groups goes on
    with the next group at once. *)
Definition repair_blocks (g : Z) : M (option bool) :=
  f ← get_fs;
  ok ← kmalloc_buf;
  if negb ok then mret None
  else
    r ← ext4_read_block (bg_block_bitmap_lo f g);
    match r with
    | None => mret (if g =? 0 then None else Some false)
    | Some bitmap =>
      let meta_end := if g =? 0 then u32 (bg_inode_table_lo f g + EXT4_INODE_TABLE_BLOCKS) else GN_META_BLOCKS in
      let '(bitmap, repaired) := mark_used (Z.to_nat (Z.min meta_end EXT4_BITS_PER_BITMAP)) 0 bitmap 0 in
      if 0 <? repaired then
        ok ← ext4_write_block (bg_block_bitmap_lo f g) bitmap;
        if negb ok then mret (if g =? 0 then None else Some false)
        else
          let f := set_bg_free_blocks f g (reduced (bg_free_blocks_count_lo f g) repaired) in
          _ ← set_fs (set_free_blocks f (reduced (s_free_blocks_count_lo f) repaired));
          mret (Some true)
      else mret (Some true)
    end.

(** The reserved inodes, in group 0. *)
Definition repair_inodes : M bool :=
  f ← get_fs;
  r ← load_block (bg_inode_bitmap_lo f 0);
  match r with
  | None => mret false
  | Some ibitmap =>
    let '(ibitmap, repaired) := mark_used 10 0 ibitmap 0 in
    if 0 <? repaired then
      _ ← ext4_write_block (bg_inode_bitmap_lo f 0) ibitmap;
      let f := set_bg_free_inodes f 0 (reduced (bg_free_inodes_count_lo f 0) repaired) in
      _ ← set_fs (set_free_inodes f (reduced (s_free_inodes_count f) repaired));
      mret true
    else mret true
  end.

Definition gdt_in_range (f : ext4_fs) (g : Z) : bool :=
  let total_blocks := s_blocks_count_lo f in
  negb ((bg_block_bitmap_lo f g =? 0) || (total_blocks <=? bg_block_bitmap_lo f g) || (bg_inode_bitmap_lo f g =? 0)
        || (total_blocks <=? bg_inode_bitmap_lo f g) || (bg_inode_table_lo f g =? 0)).

Definition repair_group (g : Z) : M bool :=
  f ← get_fs;
  if negb (gdt_in_range f g) then mret (negb (g =? 0))
  else
    r ← repair_blocks g;
    match r with
    | None => mret false
    | Some false => mret true
    | Some true => if g =? 0 then repair_inodes else mret true
    end.

Fixpoint repair_loop (n : nat) (g : Z) : M bool :=
  match n with
  | O => mret true
  | S n => ok ← repair_group g; if (ok : bool) then repair_loop n (g + 1) else mret false
  end.

Definition ext4_repair_structural_sanity : M bool :=
  f ← get_fs;
  ok ← repair_loop (Z.to_nat (n_groups f)) 0;
  if (ok : bool) then _ ← ext4_sync_bg_sb; mret true else mret false.

(** ** Inodes

    An inode is the 128 bytes of [struct ext4_inode]. *)
Definition INODE_BYTES : Z := 128.
Definition i_mode (i : list Z) : Z := le16 i 0.
Definition i_size_lo (i : list Z) : Z := le32 i 4.
Definition i_links_count (i : list Z) : Z := le16 i 26.
Definition i_blocks_lo (i : list Z) : Z := le32 i 28.
Definition i_flags (i : list Z) : Z := le32 i 32.
Definition i_block (i : list Z) (k : Z) : Z := le32 i (40 + 4 * k).
Definition i_size_high (i : list Z) : Z := le32 i 108.

Definition set_i_mode (i : list Z) (x : Z) : list Z := splice i 0 (bytes16 x).
Definition set_i_size_lo (i : list Z) (x : Z) : list Z := splice i 4 (bytes32 x).
Definition set_i_links_count (i : list Z) (x : Z) : list Z := splice i 26 (bytes16 x).
Definition set_i_blocks_lo (i : list Z) (x : Z) : list Z := splice i 28 (bytes32 x).
Definition set_i_block (i : list Z) (k x : Z) : list Z := splice i (40 + 4 * k) (bytes32 x).

Definition file_size (i : list Z) : Z := Z.lor (i_size_lo i) (Z.shiftl (i_size_high i) 32).

(** The sector of an inode and its offset there. *)
Definition inode_pos (f : ext4_fs) (ino : Z) : Z * Z :=
  let inode_offset := bg_inode_table_lo f 0 * EXT4_BLOCK_SIZE + (ino - 1) * inode_size f in
  (u64 (part_start_lba f + inode_offset / 512), inode_offset mod 512).

Definition bad_ino (f : ext4_fs) (ino : Z) : bool := (ino =? 0) || (s_inodes_count f <? ino).

Definition get_inode_struct (ino : Z) : M (option (list Z)) :=
  f ← get_fs;
  if bad_ino f ino then mret None
  else
    let '(sector, sector_off) := inode_pos f ino in
    ok ← kmalloc_buf;
    if negb ok then mret None
    else
      r ← ext4_bread sector 1;
      mret ((fun k_buf => slice k_buf sector_off INODE_BYTES) <$> (r : option (list Z))).

Definition ext4_update_inode (ino : Z) (inode : list Z) : M bool :=
  f ← get_fs;
  if bad_ino f ino then mret false
  else
    let '(sector, sector_off) := inode_pos f ino in
    ok ← kmalloc_buf;
    if negb ok then mret false
    else
      r ← ext4_bread sector 1;
      match r with
      | None => mret false
      | Some k_buf => ext4_bwrite sector 1 (splice k_buf sector_off inode)
      end.
