(* ===== verification/Ext4Map.v ===== *)
(** * ext4: from paths to inodes and from inodes to blocks

    kernel/fs/ext4.c, sections 8-11: the cache of interior blocks, the extent
    tree and the pointer blocks, the reading of data, directories and paths. *)
From Stdlib Require Import ZArith Lia.
From stdpp Require Import base numbers list.
From S2P Require Import Prelude Bytes CString Gpt Ext4Disk.

Definition EXT4_EXTENTS_FL : Z := 0x00080000.
Definition EXT4_EXT_MAGIC : Z := 0xF30A.
Definition EXT4_EXT_UNWRITTEN_LEN : Z := 32768.
Definition EXT4_EXT_MAX_DEPTH : Z := 5.
Definition EXT4_MAX_PATH_LEN : Z := 4096.
Definition EXT4_LEAF_RECORDS : Z := (EXT4_BLOCK_SIZE - 12) / 12.

(** ** The cache of interior blocks: a block and its buffer per level *)
Definition slot : Type := Z * option (list Z).
Definition icache : Type := slot * slot.
Definition EXT4_ICACHE_INIT : icache := ((0, None), (0, None)).

Definition icache_invalidate (c : icache) : icache := ((0, snd (fst c)), (0, snd (snd c))).

Definition slot_of (c : icache) (level : Z) : slot := if level =? 0 then fst c else snd c.
Definition set_slot (c : icache) (level : Z) (x : slot) : icache := if level =? 0 then (x, snd c) else (fst c, x).

Definition icache_get (c : icache) (level blk : Z) : M (icache * option (list Z)) :=
  let read_in c :=
    r ← ext4_read_block blk;
    match r with
    | None => mret (set_slot c level (0, snd (slot_of c level)), None)
    | Some l => mret (set_slot c level (blk, Some l), Some l)
    end in
  match snd (slot_of c level) with
  | Some b => if fst (slot_of c level) =? blk then mret (c, Some b) else read_in c
  | None =>
    ok ← kmalloc_buf;
    if negb ok then mret (c, None)
    else l ← fresh; read_in (set_slot c level (fst (slot_of c level), Some l))
  end.

(** ** Extents

    A node is the bytes from its header on: the root in the inode, or a block. *)
Definition eh_magic (nd : list Z) : Z := le16 nd 0.
Definition eh_entries (nd : list Z) : Z := le16 nd 2.
Definition eh_max (nd : list Z) : Z := le16 nd 4.
Definition eh_depth (nd : list Z) : Z := le16 nd 6.
Definition record_at (i : Z) : Z := 12 + 12 * i.
Definition ei_block (nd : list Z) (i : Z) : Z := le32 nd (record_at i).
Definition ei_leaf (nd : list Z) (i : Z) : Z := Z.lor (le32 nd (record_at i + 4)) (Z.shiftl (le16 nd (record_at i + 8)) 32).
Definition ee_block (nd : list Z) (i : Z) : Z := le32 nd (record_at i).
Definition ee_len (nd : list Z) (i : Z) : Z := le16 nd (record_at i + 4).
Definition ee_start_hi (nd : list Z) (i : Z) : Z := le16 nd (record_at i + 6).
Definition ee_start_lo (nd : list Z) (i : Z) : Z := le32 nd (record_at i + 8).
Definition ee_start (nd : list Z) (i : Z) : Z := Z.lor (ee_start_lo nd i) (Z.shiftl (ee_start_hi nd i) 32).
Definition unwritten (nd : list Z) (i : Z) : bool := EXT4_EXT_UNWRITTEN_LEN <? ee_len nd i.
Definition extent_len (nd : list Z) (i : Z) : Z := if unwritten nd i then ee_len nd i - EXT4_EXT_UNWRITTEN_LEN else ee_len nd i.

(** The root, with what follows it in the inode. *)
Definition extent_root (inode : list Z) : list Z := drop 40 inode.

(** The last entry of an interior node with [ei_block <= blk]. *)
Fixpoint select_child (n : nat) (nd : list Z) (i blk sel : Z) : Z :=
  match n with
  | O => sel
  | S n => if ei_block nd i <=? blk then select_child n nd (i + 1) blk i else sel
  end.

(** The block a leaf maps [blk] to, or 0. *)
Fixpoint find_extent (n : nat) (nd : list Z) (i blk : Z) : Z :=
  match n with
  | O => 0
  | S n =>
    if (ee_block nd i <=? blk) && (blk <? u32 (ee_block nd i + extent_len nd i))
    then if unwritten nd i then 0 else u64 (ee_start nd i + (blk - ee_block nd i))
    else find_extent n nd (i + 1) blk
  end.

Definition node_ok (nd : list Z) (max_entries : Z) : bool :=
  (eh_magic nd =? EXT4_EXT_MAGIC) && (eh_entries nd <=? eh_max nd) && (eh_entries nd <=? max_entries).

(** The walk from level [level] down; [n] levels are allowed. *)
Fixpoint extent_walk (n : nat) (level : Z) (nd : list Z) (max_entries blk : Z) (c : icache) : M (icache * option Z) :=
  match n with
  | O => mret (c, None)
  | S n =>
    if negb (node_ok nd max_entries) then mret (c, None)
    else if 0 <? eh_depth nd then
      let sel := select_child (Z.to_nat (eh_entries nd)) nd 0 blk (-1) in
      if sel <? 0 then mret (c, Some 0)
      else
        '(c, r) ← icache_get c (Z.min level 1) (ei_leaf nd sel);
        match r with
        | None => mret (c, None)
        | Some nd => extent_walk n (level + 1) nd EXT4_LEAF_RECORDS blk c
        end
    else mret (c, Some (find_extent (Z.to_nat (eh_entries nd)) nd 0 blk))
  end.

Definition ext4_extent_lookup (inode : list Z) (blk : Z) (c : icache) : M (icache * option Z) :=
  extent_walk (Z.to_nat (EXT4_EXT_MAX_DEPTH + 1)) 0 (extent_root inode) 4 blk c.

(** The block behind a logical block, 0 for a hole; [None] is -1. *)
Definition ext4_bmap (inode : list Z) (block_idx : Z) (c : icache) : M (icache * option Z) :=
  if negb (Z.land (i_flags inode) EXT4_EXTENTS_FL =? 0) then ext4_extent_lookup inode block_idx c
  else if block_idx <? 12 then mret (c, Some (i_block inode block_idx))
  else if block_idx <? 12 + 1024 then
    let ind := i_block inode 12 in
    if ind =? 0 then mret (c, Some 0)
    else
      '(c, r) ← icache_get c 0 ind;
      mret (c, (fun b => le32 b (4 * (block_idx - 12))) <$> (r : option (list Z)))
  else
    let d_idx := block_idx - 12 - 1024 in
    let master_idx := d_idx / 1024 in
    let sub_idx := d_idx mod 1024 in
    let double_indir_blk := i_block inode 13 in
    if (double_indir_blk =? 0) || (1024 <=? master_idx) then mret (c, if double_indir_blk =? 0 then Some 0 else None)
    else
      '(c, r) ← icache_get c 0 double_indir_blk;
      match r with
      | None => mret (c, None)
      | Some master =>
        let sub_indir_blk := le32 master (4 * master_idx) in
        if sub_indir_blk =? 0 then mret (c, Some 0)
        else
          '(c, r) ← icache_get c 1 sub_indir_blk;
          mret (c, (fun b => le32 b (4 * sub_idx)) <$> (r : option (list Z)))
      end.

(** ** Data

    The rest of a read from [cur] on: the bytes, or [None] for -1. *)
Fixpoint read_loop (n : nat) (inode : list Z) (cur left : Z) (c : icache) (acc : list Z) : M (option (list Z)) :=
  if left <=? 0 then mret (Some acc)
  else
    match n with
    | O => fault
    | S n =>
      let block_off := cur mod EXT4_BLOCK_SIZE in
      let to_copy := Z.min (EXT4_BLOCK_SIZE - block_off) left in
      '(c, phys) ← ext4_bmap inode (u32 (cur / EXT4_BLOCK_SIZE)) c;
      match phys with
      | None => mret None
      | Some phys =>
        b ← (if phys =? 0 then mret (Some (zeroes EXT4_BLOCK_SIZE)) else ext4_read_block phys);
        match b with
        | None => mret None
        | Some b => read_loop n inode (cur + to_copy) (left - to_copy) c (acc ++ slice b block_off to_copy)
        end
      end
    end.

(** The count, or -1, and the bytes. *)
Definition ext4_read_data (inode : list Z) (offset size : Z) : M (Z * list Z) :=
  if size =? 0 then mret (0, [])
  else if file_size inode <=? offset then mret (0, [])
  else
    let size := if file_size inode <? u64 (offset + size) then u32 (file_size inode - offset) else size in
    ok ← kmalloc_buf;
    if negb ok then mret (-1, [])
    else
      r ← read_loop (Z.to_nat (size / EXT4_BLOCK_SIZE + 2)) inode offset size EXT4_ICACHE_INIT [];
      mret match r with Some l => (i32 size, l) | None => (-1, []) end.

Definition read_inode_data (ino offset size : Z) : M (Z * list Z) :=
  r ← get_inode_struct ino;
  match r with
  | None => mret (-1, [])
  | Some inode => ext4_read_data inode offset size
  end.

(** ** Directories *)

Definition ext4_path_len_bounded (path : str) : option Z := if EXT4_MAX_PATH_LEN <? zlen path then None else Some (zlen path).

Definition ext4_dir_size_sane (f : ext4_fs) (dir_size : Z) : bool := dir_size <=? s_blocks_count_lo f * EXT4_BLOCK_SIZE.

Definition de_inode (b : list Z) (o : Z) : Z := le32 b o.
Definition de_rec_len (b : list Z) (o : Z) : Z := le16 b (o + 4).
Definition de_name_len (b : list Z) (o : Z) : Z := znth 0 b (o + 6).
Definition de_name (b : list Z) (o : Z) : list Z := slice b (o + 8) (de_name_len b o).

(** [memcmp] of the bytes at [o] with a name; [None]: it leaves the buffer. *)
Fixpoint memcmp_eq (b : list Z) (o : Z) (name : list Z) : option bool :=
  match name with
  | [] => Some true
  | c :: name => if zlen b <=? o then None else if znth 0 b o =? c then memcmp_eq b (o + 1) name else Some false
  end.

(** The header of the entry at [o]: [None] if reading its length leaves the
    buffer, otherwise whether the walk goes on. *)
Definition entry_ok (b : list Z) (o : Z) : option bool :=
  if EXT4_BLOCK_SIZE <? o + 6 then None
  else Some (negb ((de_rec_len b o <? 8) || (EXT4_BLOCK_SIZE - o <? de_rec_len b o))).

Definition is_entry (b : list Z) (o : Z) (name : list Z) : option bool :=
  if negb (de_inode b o =? 0) && (de_name_len b o =? zlen name) then memcmp_eq b (o + 8) name else Some false.

(** A walk over the entries of a block takes at most 512 steps. *)
Definition DIR_STEPS : nat := 513.

(** The live entry of a name: its offset, if there is one. *)
Fixpoint find_entry (n : nat) (b : list Z) (o : Z) (name : list Z) : option (option Z) :=
  match n with
  | O => None
  | S n =>
    if EXT4_BLOCK_SIZE <=? o then Some None
    else
      ok ← entry_ok b o;
      if negb ok then Some None
      else
        here ← is_entry b o name;
        if (here : bool) then Some (Some o) else find_entry n b (o + de_rec_len b o) name
  end.

Definition lift {A} (r : option A) : M A := match r with Some a => mret a | None => fault end.

(** The blocks of a directory from [blk_off] on, through one buffer. *)
Fixpoint lookup_blocks (n : nat) (inode : list Z) (dir_size blk_off : Z) (buf name : list Z) : M (option Z) :=
  match n with
  | O => fault
  | S n =>
    if dir_size <=? blk_off then mret None
    else
      '(rc, l) ← ext4_read_data inode blk_off EXT4_BLOCK_SIZE;
      if rc <=? 0 then mret None
      else
        let buf := load buf l in
        r ← lift (find_entry DIR_STEPS buf 0 name);
        match r with
        | Some o => mret (Some (de_inode buf o))
        | None => lookup_blocks n inode dir_size (u32 (blk_off + EXT4_BLOCK_SIZE)) buf name
        end
  end.

Definition dir_blocks (dir_size : Z) : nat := Z.to_nat (dir_size / EXT4_BLOCK_SIZE + 2).

Definition ext4_lookup_in_dir (dir_ino : Z) (name : list Z) : M (option Z) :=
  r ← get_inode_struct dir_ino;
  match r with
  | None => mret None
  | Some inode =>
    let dir_size := i_size_lo inode in
    f ← get_fs;
    if negb (ext4_dir_size_sane f dir_size) then mret None
    else
      ok ← kmalloc_buf;
      if negb ok then mret None
      else b ← fresh; lookup_blocks (dir_blocks dir_size) inode dir_size 0 b name
  end.

(** ** Paths *)

(** The bytes up to the next slash, and the rest. *)
Fixpoint take_component (p : str) : str * str :=
  match p with
  | [] => ([], [])
  | c :: t => if c =? 47 then ([], p) else let '(a, r) := take_component t in (c :: a, r)
  end.

Definition skip_slash (p : str) : str := match p with c :: t => if c =? 47 then t else p | [] => [] end.

Fixpoint walk_path (n : nat) (p : str) (ino : Z) : M (option Z) :=
  match n with
  | O => fault
  | S n =>
    match p with
    | [] => mret (Some ino)
    | _ =>
      let '(name, rest) := take_component p in
      r ← (match name with [] => mret (Some ino) | _ => ext4_lookup_in_dir ino name end);
      match r with
      | None => mret None
      | Some ino => walk_path n (skip_slash rest) ino
      end
    end
  end.

Definition ext4_find_ino (path : str) : M (option Z) :=
  match ext4_path_len_bounded path with
  | None => mret None
  | Some _ => walk_path (S (length path)) (skip_slash path) EXT4_ROOT_INO
  end.

Definition dot_or_dotdot (name : str) : bool := bool_decide (name = [46]) || bool_decide (name = [46; 46]).

(** The parent's inode and the last component. *)
Definition ext4_resolve_parent (path : str) : M (option (Z * str)) :=
  match ext4_path_len_bounded path with
  | None => mret None
  | Some _ =>
    let '(rname, rest) := take_component (rev path) in
    let name := rev rname in
    if (zlen name =? 0) || (255 <? zlen name) then mret None
    else if dot_or_dotdot name then mret None
    else
      match rest with
      | [] | [_] => mret (Some (EXT4_ROOT_INO, name))
      | _ :: rparent =>
        if 256 <=? zlen rparent then mret None
        else
          r ← ext4_find_ino (rev rparent);
          mret ((fun parent => (parent, name)) <$> (r : option Z))
      end
  end.
