(* ===== verification/Ext4Alloc.v ===== *)
(** * ext4: allocation, growth and release of blocks

    kernel/fs/ext4.c, sections 12-15.  A run under [fs->lock] is one call here. *)
From Stdlib Require Import ZArith Lia.
From stdpp Require Import base numbers list.
From S2P Require Import Prelude Bytes CString Gpt Ext4Disk Ext4Map.

(** ** Allocation *)

(** What a group has to offer: nothing, an end of the search, or a bit. *)
Inductive grab := GNext | GFail | GBit (bit : Z).

Definition alloc_in_group (g : Z) : M grab :=
  f ← get_fs;
  if bg_free_blocks_count_lo f g =? 0 then mret GNext
  else
    ok ← kmalloc_buf;
    if negb ok then mret GFail
    else
      r ← ext4_read_block (bg_block_bitmap_lo f g);
      match r with
      | None => mret GNext
      | Some bitmap =>
        let bit := bitmap_find_first_clear bitmap EXT4_BITS_PER_BITMAP in
        if bit =? EXT4_BITMAP_FULL then mret GNext
        else
          ok ← ext4_write_block (bg_block_bitmap_lo f g) (bitmap_bit_set bitmap bit);
          if negb ok then mret GFail
          else
            let f := set_bg_free_blocks f g (u16 (bg_free_blocks_count_lo f g - 1)) in
            _ ← set_fs (set_free_blocks f (u32 (s_free_blocks_count_lo f - 1)));
            _ ← ext4_sync_bg_sb;
            mret (GBit bit)
      end.

(** The new block zeroed; a failure is only logged. *)
Definition zero_block (blk : Z) : M unit :=
  ok ← kmalloc_buf;
  _ ← (if (ok : bool) then ext4_write_block blk (zeroes EXT4_BLOCK_SIZE) else mret false);
  mret tt.

Fixpoint alloc_loop (n : nat) (g : Z) : M Z :=
  match n with
  | O => mret 0
  | S n =>
    r ← alloc_in_group g;
    match r with
    | GNext => alloc_loop n (g + 1)
    | GFail => mret 0
    | GBit bit =>
      f ← get_fs;
      let abs_block := u32 (g * blocks_per_group f + bit) in
      _ ← zero_block abs_block;
      mret abs_block
    end
  end.

Definition ext4_alloc_block : M Z := f ← get_fs; alloc_loop (Z.to_nat (n_groups f)) 0.

Definition ext4_alloc_inode : M Z :=
  f ← get_fs;
  if bg_free_inodes_count_lo f 0 =? 0 then mret 0
  else
    r ← load_block (bg_inode_bitmap_lo f 0);
    match r with
    | None => mret 0
    | Some bitmap =>
      let bit := bitmap_find_first_clear bitmap (Z.min (s_inodes_count f) EXT4_BITS_PER_BITMAP) in
      if bit =? EXT4_BITMAP_FULL then mret 0
      else
        ok ← ext4_write_block (bg_inode_bitmap_lo f 0) (bitmap_bit_set bitmap bit);
        if negb ok then mret 0
        else
          let f := set_bg_free_inodes f 0 (u16 (bg_free_inodes_count_lo f 0 - 1)) in
          _ ← set_fs (set_free_inodes f (u32 (s_free_inodes_count f - 1)));
          _ ← ext4_sync_bg_sb;
          mret (bit + 1)
    end.

(** ** Release *)

(** The bits [bit], ..., [bit + n - 1] cleared; how many were set. *)
Fixpoint clear_bits (n : nat) (bit : Z) (bm : list Z) (freed : Z) : list Z * Z :=
  match n with
  | O => (bm, freed)
  | S n =>
    if EXT4_BITS_PER_BITMAP <=? bit then (bm, freed)
    else if bitmap_bit_test bm bit then clear_bits n (bit + 1) (bitmap_bit_clear bm bit) (freed + 1)
    else clear_bits n (bit + 1) bm freed
  end.

(** [count] blocks of group [g] from bit [off] on. *)
Definition free_run (g off count : Z) : M unit :=
  f ← get_fs;
  r ← load_block (bg_block_bitmap_lo f g);
  match r with
  | None => mret tt
  | Some bitmap =>
    let '(bitmap, freed) := clear_bits (Z.to_nat count) off bitmap 0 in
    if freed =? 0 then mret tt
    else
      ok ← ext4_write_block (bg_block_bitmap_lo f g) bitmap;
      if negb ok then mret tt
      else
        let f := set_bg_free_blocks f g (u16 (bg_free_blocks_count_lo f g + u16 freed)) in
        _ ← set_fs (set_free_blocks f (u32 (s_free_blocks_count_lo f + freed)));
        ext4_sync_bg_sb
  end.

Definition ext4_free_block (blk : Z) : M unit :=
  f ← get_fs;
  if blk =? 0 then mret tt
  else if n_groups f <=? blk / blocks_per_group f then mret tt
  else free_run (blk / blocks_per_group f) (blk mod blocks_per_group f) 1.

(** One block at a time. *)
Fixpoint free_each (n : nat) (blk : Z) : M unit :=
  match n with
  | O => mret tt
  | S n => _ ← ext4_free_block (u32 blk); free_each n (blk + 1)
  end.

Definition ext4_free_block_range (start count : Z) : M unit :=
  f ← get_fs;
  if (count =? 0) || (start =? 0) then mret tt
  else
    let g0 := start / blocks_per_group f in
    let g1 := u32 (start + count - 1) / blocks_per_group f in
    if negb (g0 =? g1) || (n_groups f <=? g0) then free_each (Z.to_nat count) start
    else free_run g0 (start mod blocks_per_group f) count.

Definition ext4_free_inode (ino : Z) : M unit :=
  if ino =? 0 then mret tt
  else if EXT4_BITS_PER_BITMAP <=? ino - 1 then mret tt
  else
    f ← get_fs;
    r ← load_block (bg_inode_bitmap_lo f 0);
    match r with
    | None => mret tt
    | Some bitmap =>
      if negb (bitmap_bit_test bitmap (ino - 1)) then mret tt
      else
        ok ← ext4_write_block (bg_inode_bitmap_lo f 0) (bitmap_bit_clear bitmap (ino - 1));
        if negb ok then mret tt
        else
          let f := set_bg_free_inodes f 0 (u16 (bg_free_inodes_count_lo f 0 + 1)) in
          _ ← set_fs (set_free_inodes f (u32 (s_free_inodes_count f + 1)));
          ext4_sync_bg_sb
    end.

(** ** Growth of an extent tree

    A node in its buffer: the bytes of the root that are in the inode, or a
    block.  [None]: an access outside the buffer. *)

(** The end of the last extent. *)
Definition last_end (nd : list Z) : option Z :=
  let i := eh_entries nd - 1 in
  if zlen nd <? record_at (i + 1) then None else Some (u32 (ee_block nd i + extent_len nd i)).

Definition ext4_extent_leaf_can_append (nd : list Z) (logical : Z) : option bool :=
  if negb (eh_magic nd =? EXT4_EXT_MAGIC) || negb (eh_depth nd =? 0) then Some false
  else if 0 <? eh_entries nd then
    e ← last_end nd;
    Some (if logical <? e then false else eh_entries nd <? eh_max nd)
  else Some (eh_entries nd <? eh_max nd).

(** The last extent is made longer. *)
Definition joins_last (nd : list Z) (logical phys : Z) : bool :=
  let i := eh_entries nd - 1 in
  (0 <? eh_entries nd) && (ee_len nd i <? EXT4_EXT_UNWRITTEN_LEN - 1) && (logical =? u32 (ee_block nd i + ee_len nd i))
  && (phys =? u32 (ee_start_lo nd i + ee_len nd i)) && (ee_start_hi nd i =? 0).

Definition extent_bytes (logical len phys : Z) : list Z := bytes32 logical ++ bytes16 len ++ bytes16 0 ++ bytes32 phys.

Definition ext4_extent_leaf_do_append (nd : list Z) (logical phys : Z) : option (list Z) :=
  let n := eh_entries nd in
  if joins_last nd logical phys then poke nd (record_at (n - 1) + 4) (bytes16 (ee_len nd (n - 1) + 1))
  else
    nd ← poke nd (record_at n) (extent_bytes logical 1 phys);
    poke nd 2 (bytes16 (u16 (n + 1))).

Definition header_bytes (entries max depth : Z) : list Z :=
  bytes16 EXT4_EXT_MAGIC ++ bytes16 entries ++ bytes16 max ++ bytes16 depth ++ bytes32 0.

Definition index_bytes (logical leaf : Z) : list Z := bytes32 logical ++ bytes32 leaf ++ bytes16 0 ++ bytes16 0.

Definition ext4_extent_can_grow (inode : list Z) (logical : Z) : M bool :=
  let root := extent_root inode in
  if negb (eh_magic root =? EXT4_EXT_MAGIC) then mret false
  else if eh_depth root =? 0 then
    ok ← lift (ext4_extent_leaf_can_append root logical);
    if (ok : bool) then mret true
    else if eh_entries root <? eh_max root then mret false
    else e ← lift (last_end root); mret (e <=? logical)
  else if eh_depth root =? 1 then
    if eh_entries root =? 0 then mret false
    else if zlen root <? record_at (eh_entries root) then fault
    else
      r ← load_block (ei_leaf root (eh_entries root - 1));
      match r with
      | None => mret false
      | Some leaf =>
        ok ← lift (ext4_extent_leaf_can_append leaf logical);
        if (ok : bool) then mret true
        else if eh_entries leaf <? eh_max leaf then mret false
        else mret (eh_entries root <? eh_max root)
      end
  else mret false.

Definition with_root (inode root : list Z) : list Z := take 40 inode ++ root.
Definition count_meta (inode : list Z) : list Z := set_i_blocks_lo inode (u32 (i_blocks_lo inode + EXT4_SECTORS_PER_BLOCK)).

(** A block written, or given back. *)
Definition write_or_free (blk : Z) (l : list Z) : M bool :=
  ok ← ext4_write_block blk l;
  if (ok : bool) then mret true else _ ← ext4_free_block blk; mret false.

(** The full root of depth 0 moved to a leaf of its own. *)
Definition extent_promote (inode : list Z) (logical phys : Z) : M (list Z * bool) :=
  let root := extent_root inode in
  leaf_blk ← ext4_alloc_block;
  if leaf_blk =? 0 then mret (inode, false)
  else
    ok ← kmalloc_buf;
    if negb ok then _ ← ext4_free_block leaf_blk; mret (inode, false)
    else
      let records := slice root 12 (12 * eh_entries root) in
      if negb (zlen records =? 12 * eh_entries root) then fault
      else
        leaf ← lift (poke (zeroes EXT4_BLOCK_SIZE) 0 (header_bytes (eh_entries root) EXT4_LEAF_RECORDS 0 ++ records));
        ok ← lift (ext4_extent_leaf_can_append leaf logical);
        if negb ok then _ ← ext4_free_block leaf_blk; mret (inode, false)
        else
          leaf ← lift (ext4_extent_leaf_do_append leaf logical phys);
          ok ← write_or_free leaf_blk leaf;
          if negb ok then mret (inode, false)
          else mret (count_meta (with_root inode (splice root 0 (header_bytes 1 4 1 ++ index_bytes 0 leaf_blk))), true).

(** A second leaf for a root of depth 1. *)
Definition extent_new_leaf (inode : list Z) (logical phys : Z) : M (list Z * bool) :=
  let root := extent_root inode in
  blk ← ext4_alloc_block;
  if blk =? 0 then mret (inode, false)
  else
    ok ← kmalloc_buf;
    if negb ok then _ ← ext4_free_block blk; mret (inode, false)
    else
      leaf ← lift (ext4_extent_leaf_do_append (splice (zeroes EXT4_BLOCK_SIZE) 0 (header_bytes 0 EXT4_LEAF_RECORDS 0)) logical phys);
      ok ← write_or_free blk leaf;
      if negb ok then mret (inode, false)
      else
        root ← lift (poke root (record_at (eh_entries root)) (index_bytes logical blk));
        mret (count_meta (with_root inode (splice root 2 (bytes16 (u16 (eh_entries root + 1))))), true).

(** The inode after it, and whether it worked. *)
Definition ext4_extent_grow (inode : list Z) (logical phys : Z) : M (list Z * bool) :=
  let root := extent_root inode in
  if negb (eh_magic root =? EXT4_EXT_MAGIC) then mret (inode, false)
  else if eh_depth root =? 0 then
    ok ← lift (ext4_extent_leaf_can_append root logical);
    if (ok : bool) then root ← lift (ext4_extent_leaf_do_append root logical phys); mret (with_root inode root, true)
    else if eh_entries root <? eh_max root then mret (inode, false)
    else extent_promote inode logical phys
  else if eh_depth root =? 1 then
    if eh_entries root =? 0 then mret (inode, false)
    else if zlen root <? record_at (eh_entries root) then fault
    else
      let leaf_blk := ei_leaf root (eh_entries root - 1) in
      r ← load_block leaf_blk;
      match r with
      | None => mret (inode, false)
      | Some leaf =>
        ok ← lift (ext4_extent_leaf_can_append leaf logical);
        if (ok : bool) then
          leaf ← lift (ext4_extent_leaf_do_append leaf logical phys);
          ok ← ext4_write_block leaf_blk leaf;
          mret (inode, ok)
        else if negb (eh_max leaf <=? eh_entries leaf) then mret (inode, false)
        else if eh_max root <=? eh_entries root then mret (inode, false)
        else extent_new_leaf inode logical phys
      end
  else mret (inode, false).

(** ** Growth of a block mapping *)

Definition ext4_indirect_install_ptr (ptr_blk slot_idx val : Z) : M bool :=
  f ← get_fs;
  let slot_off := ptr_blk * EXT4_BLOCK_SIZE + slot_idx * 4 in
  let slot_sector := u64 (part_start_lba f + slot_off / 512) in
  ok ← kmalloc_buf;
  if negb ok then mret false
  else
    r ← ext4_bread slot_sector 1;
    match r with
    | None => mret false
    | Some secbuf => ext4_bwrite slot_sector 1 (splice secbuf (slot_off mod 512) (bytes32 val))
    end.

Definition EXT4_LEGACY_MAX_BLOCK_IDX : Z := 12 + 1024 + 1024 * 1024.

Definition is_extents (inode : list Z) : bool := negb (Z.land (i_flags inode) EXT4_EXTENTS_FL =? 0).

Definition ext4_can_grow_block_mapping (inode : list Z) (block_idx : Z) : M bool :=
  if is_extents inode then ext4_extent_can_grow inode block_idx else mret (block_idx <? EXT4_LEGACY_MAX_BLOCK_IDX).

(** A pointer block of the inode: the one it has, or a new one; 0 if none. *)
Definition pointer_block (inode : list Z) (k : Z) : M (list Z * Z) :=
  let ind := i_block inode k in
  if negb (ind =? 0) then mret (inode, ind)
  else
    ind ← ext4_alloc_block;
    mret (if ind =? 0 then inode else count_meta (set_i_block inode k ind), ind).

(** The inode, the cache, and whether it worked. *)
Definition grow_indirect (inode : list Z) (block_idx phys : Z) (c : icache) : M (list Z * icache * bool) :=
  '(inode, ind) ← pointer_block inode 12;
  if ind =? 0 then mret (inode, c, false)
  else
    ok ← ext4_indirect_install_ptr ind (block_idx - 12) phys;
    mret (inode, (if (ok : bool) then icache_invalidate c else c), ok).

Definition grow_double (inode : list Z) (block_idx phys : Z) (c : icache) : M (list Z * icache * bool) :=
  let d_idx := block_idx - 12 - 1024 in
  let master_idx := d_idx / 1024 in
  '(inode, dbl) ← pointer_block inode 13;
  if dbl =? 0 then mret (inode, c, false)
  else
    '(c, r) ← icache_get c 0 dbl;
    match r with
    | None => mret (inode, c, false)
    | Some master =>
      let sub := le32 master (4 * master_idx) in
      let install inode c sub :=
        ok ← ext4_indirect_install_ptr sub (d_idx mod 1024) phys;
        mret (inode, (if (ok : bool) then icache_invalidate c else c), ok) in
      if negb (sub =? 0) then install inode c sub
      else
        sub ← ext4_alloc_block;
        if sub =? 0 then mret (inode, c, false)
        else
          ok ← ext4_indirect_install_ptr dbl master_idx sub;
          if negb ok then mret (inode, c, false) else install (count_meta inode) (icache_invalidate c) sub
    end.

Definition ext4_grow_block_mapping (inode : list Z) (block_idx phys : Z) (c : icache) : M (list Z * icache * bool) :=
  if is_extents inode then
    '(inode, ok) ← ext4_extent_grow inode block_idx phys;
    mret (inode, (if (ok : bool) then icache_invalidate c else c), ok)
  else if block_idx <? 12 then mret (set_i_block inode block_idx phys, c, true)
  else if block_idx <? 12 + 1024 then grow_indirect inode block_idx phys c
  else if block_idx <? EXT4_LEGACY_MAX_BLOCK_IDX then grow_double inode block_idx phys c
  else mret (inode, c, false).

(** ** Release of a file's blocks *)

Fixpoint free_extents (n : nat) (nd : list Z) (i : Z) : M unit :=
  match n with
  | O => mret tt
  | S n =>
    if zlen nd <? record_at (i + 1) then fault
    else _ ← ext4_free_block_range (u32 (ee_start nd i)) (extent_len nd i); free_extents n nd (i + 1)
  end.

Definition free_self (phys : Z) : M unit := if phys =? 0 then mret tt else ext4_free_block phys.

Section children.
(** The subtree of a child, from its node and its block. *)
Variable free_child : list Z -> Z -> M unit.

Fixpoint free_children (n : nat) (nd : list Z) (i : Z) : M unit :=
  match n with
  | O => mret tt
  | S n =>
    if zlen nd <? record_at (i + 1) then fault
    else
      let child := ei_leaf nd i in
      r ← load_block child;
      _ ← (match r with None => ext4_free_block (u32 child) | Some cbuf => free_child cbuf (u32 child) end);
      free_children n nd (i + 1)
  end.
End children.

(** The children of a node at the depth limit: freed without a look inside. *)
Fixpoint free_blind (n : nat) (nd : list Z) (i : Z) : M unit :=
  match n with
  | O => mret tt
  | S n =>
    if zlen nd <? record_at (i + 1) then fault
    else _ ← ext4_free_block (u32 (ei_leaf nd i)); free_blind n nd (i + 1)
  end.

(** The walk with its stack of nodes; [depth] more levels have room on it. *)
Fixpoint free_tree (depth : nat) (nd : list Z) (phys : Z) : M unit :=
  if negb (eh_magic nd =? EXT4_EXT_MAGIC) || (eh_max nd <? eh_entries nd) then mret tt
  else
    let n := Z.to_nat (eh_entries nd) in
    _ ← (if eh_depth nd =? 0 then free_extents n nd 0
         else match depth with
              | O => free_blind n nd 0
              | S depth => free_children (free_tree depth) n nd 0
              end);
    free_self phys.

Definition ext4_extent_free_tree (root : list Z) : M unit := free_tree (Z.to_nat EXT4_EXT_MAX_DEPTH) root 0.

(** The blocks a pointer block [b] names, from slot [i] on. *)
Fixpoint free_pointers (n : nat) (b : list Z) (i : Z) : M unit :=
  match n with
  | O => mret tt
  | S n => _ ← (if le32 b (4 * i) =? 0 then mret tt else ext4_free_block (le32 b (4 * i))); free_pointers n b (i + 1)
  end.

(** A pointer block and what it names. *)
Definition free_indirect (blk : Z) : M unit :=
  r ← load_block blk;
  _ ← (match r with None => mret tt | Some b => free_pointers 1024 b 0 end);
  ext4_free_block blk.

Fixpoint free_masters (n : nat) (b : list Z) (i : Z) : M unit :=
  match n with
  | O => mret tt
  | S n => _ ← (if le32 b (4 * i) =? 0 then mret tt else free_indirect (le32 b (4 * i))); free_masters n b (i + 1)
  end.

Definition free_double (blk : Z) : M unit :=
  r ← load_block blk;
  _ ← (match r with None => mret tt | Some b => free_masters 1024 b 0 end);
  ext4_free_block blk.

Definition ext4_free_inode_blocks (inode : list Z) : M unit :=
  if is_extents inode then ext4_extent_free_tree (extent_root inode)
  else
    _ ← free_pointers 12 (drop 40 inode) 0;
    _ ← (if i_block inode 12 =? 0 then mret tt else free_indirect (i_block inode 12));
    if i_block inode 13 =? 0 then mret tt else free_double (i_block inode 13).
