(* ===== verification/Ext4Dir.v ===== *)
(** * ext4: directory entries (kernel/fs/ext4.c, section 16) *)
From Stdlib Require Import ZArith Lia.
From stdpp Require Import base numbers list.
From S2P Require Import Prelude Bytes CString Gpt Ext4Disk Ext4Map Ext4Alloc.

Definition dirent_ideal_len (name_len : Z) : Z := u16 (Z.land (8 + name_len + 3) (u32 (Z.lnot 3))).

Definition ext4_write_dir_block (inode : list Z) (block_idx : Z) (buf : list Z) : M bool :=
  '(_, phys) ← ext4_bmap inode block_idx EXT4_ICACHE_INIT;
  match phys with
  | None => mret false
  | Some phys => if phys =? 0 then mret false else ext4_write_block phys buf
  end.

(** ** A block of entries *)

Inductive found := Slot (off : Z) | NoSlot | Corrupt.

Definition slack (b : list Z) (o : Z) : Z :=
  u16 (de_rec_len b o - (if de_inode b o =? 0 then 0 else dirent_ideal_len (de_name_len b o))).

Fixpoint find_slot_loop (n : nat) (b : list Z) (o need : Z) : option found :=
  match n with
  | O => None
  | S n =>
    if EXT4_BLOCK_SIZE <=? o then Some NoSlot
    else
      ok ← entry_ok b o;
      if negb ok then Some Corrupt
      else if need <=? slack b o then Some (Slot o)
      else find_slot_loop n b (o + de_rec_len b o) need
  end.

Definition ext4_dir_find_slot (b : list Z) (need : Z) : option found := find_slot_loop DIR_STEPS b 0 need.

Definition dirent_bytes (ino rec_len ft : Z) (name : list Z) : list Z := bytes32 ino ++ bytes16 rec_len ++ [u8 (zlen name); ft] ++ name.

(** The new entry put into the slot at [o]: a freed entry is taken whole, a live
    one gives up what it does not need. *)
Definition fill_slot (b : list Z) (o ino ft : Z) (name : list Z) : option (list Z) :=
  if de_inode b o =? 0 then poke b o (dirent_bytes ino (de_rec_len b o) ft name)
  else
    let ideal := dirent_ideal_len (de_name_len b o) in
    b' ← poke b (o + 4) (bytes16 ideal);
    poke b' (o + ideal) (dirent_bytes ino (u16 (de_rec_len b o - ideal)) ft name).

(** A block with one entry that takes all of it. *)
Definition single_entry (ino ft : Z) (name : list Z) : list Z := splice (zeroes EXT4_BLOCK_SIZE) 0 (dirent_bytes ino EXT4_BLOCK_SIZE ft name).

(** ** Insertion *)

(** A new block at the end of the directory. *)
Definition dir_append (dir_ino : Z) (dir_inode : list Z) (dir_size new_ino ft : Z) (name : list Z) : M bool :=
  let new_blk_idx := if 0 <? dir_size then (dir_size - 1) / EXT4_BLOCK_SIZE + 1 else 0 in
  ok ← ext4_can_grow_block_mapping dir_inode new_blk_idx;
  if negb ok then mret false
  else
    nb ← ext4_alloc_block;
    if nb =? 0 then mret false
    else
      '(dir_inode, _, ok) ← ext4_grow_block_mapping dir_inode new_blk_idx nb EXT4_ICACHE_INIT;
      if negb ok then _ ← ext4_free_block nb; mret false
      else
        let dir_inode := count_meta dir_inode in
        ok ← ext4_write_block nb (single_entry new_ino ft name);
        if negb ok then mret false
        else ext4_update_inode dir_ino (set_i_size_lo dir_inode (u32 ((new_blk_idx + 1) * EXT4_BLOCK_SIZE))).

(** The blocks from [bidx] on: the result, or [None] if no block had room. *)
Fixpoint insert_blocks (n : nat) (dir_inode : list Z) (dir_size bidx : Z) (buf : list Z) (need new_ino ft : Z) (name : list Z) : M (option bool) :=
  match n with
  | O => fault
  | S n =>
    if dir_size <=? bidx * EXT4_BLOCK_SIZE then mret None
    else
      '(rc, l) ← ext4_read_data dir_inode (bidx * EXT4_BLOCK_SIZE) EXT4_BLOCK_SIZE;
      if rc <=? 0 then mret None
      else
        let buf := load buf l in
        r ← lift (ext4_dir_find_slot buf need);
        match r with
        | Corrupt => mret None
        | NoSlot => insert_blocks n dir_inode dir_size (bidx + 1) buf need new_ino ft name
        | Slot o =>
          buf ← lift (fill_slot buf o new_ino ft name);
          ok ← ext4_write_dir_block dir_inode bidx buf;
          mret (Some ok)
        end
  end.

Definition ext4_dir_insert (dir_ino : Z) (name : list Z) (new_ino ft : Z) : M bool :=
  r ← get_inode_struct dir_ino;
  match r with
  | None => mret false
  | Some dir_inode =>
    let dir_size := i_size_lo dir_inode in
    f ← get_fs;
    if negb (ext4_dir_size_sane f dir_size) then mret false
    else
      ok ← kmalloc_buf;
      if negb ok then mret false
      else
        b ← fresh;
        r ← insert_blocks (dir_blocks dir_size) dir_inode dir_size 0 b (dirent_ideal_len (zlen name)) new_ino ft name;
        match r with
        | Some ok => mret ok
        | None => dir_append dir_ino dir_inode dir_size new_ino ft name
        end
  end.

(** ** Removal *)

Definition clear_entry (b : list Z) (o : Z) : list Z := splice b o (bytes32 0).

Fixpoint remove_blocks (n : nat) (dir_inode : list Z) (dir_size bidx : Z) (buf : list Z) (name : list Z) : M bool :=
  match n with
  | O => fault
  | S n =>
    if dir_size <=? bidx * EXT4_BLOCK_SIZE then mret false
    else
      '(rc, l) ← ext4_read_data dir_inode (bidx * EXT4_BLOCK_SIZE) EXT4_BLOCK_SIZE;
      if rc <=? 0 then mret false
      else
        let buf := load buf l in
        r ← lift (find_entry DIR_STEPS buf 0 name);
        match r with
        | Some o => ext4_write_dir_block dir_inode bidx (clear_entry buf o)
        | None => remove_blocks n dir_inode dir_size (bidx + 1) buf name
        end
  end.

Definition ext4_dir_remove (dir_ino : Z) (name : list Z) : M bool :=
  r ← get_inode_struct dir_ino;
  match r with
  | None => mret false
  | Some dir_inode =>
    let dir_size := i_size_lo dir_inode in
    f ← get_fs;
    if negb (ext4_dir_size_sane f dir_size) then mret false
    else
      ok ← kmalloc_buf;
      if negb ok then mret false
      else b ← fresh; remove_blocks (dir_blocks dir_size) dir_inode dir_size 0 b name
  end.

(** ** Emptiness *)

(** Only dot entries in the block, as far as it can be walked. *)
Fixpoint only_dots (n : nat) (b : list Z) (o : Z) : option bool :=
  match n with
  | O => None
  | S n =>
    if EXT4_BLOCK_SIZE <=? o then Some true
    else
      ok ← entry_ok b o;
      if negb ok then Some true
      else if de_inode b o =? 0 then only_dots n b (o + de_rec_len b o)
      else
        let is_dot := (de_name_len b o =? 1) && (znth 0 b (o + 8) =? 46) in
        let is_dotdot := (de_name_len b o =? 2) && (znth 0 b (o + 8) =? 46) && (znth 0 b (o + 9) =? 46) in
        if negb is_dot && negb is_dotdot then Some false else only_dots n b (o + de_rec_len b o)
  end.

Fixpoint empty_blocks (n : nat) (inode : list Z) (dir_size bidx : Z) (buf : list Z) : M bool :=
  match n with
  | O => fault
  | S n =>
    if dir_size <=? bidx * EXT4_BLOCK_SIZE then mret true
    else
      '(rc, l) ← ext4_read_data inode (bidx * EXT4_BLOCK_SIZE) EXT4_BLOCK_SIZE;
      if rc <=? 0 then mret true
      else
        let buf := load buf l in
        r ← lift (only_dots DIR_STEPS buf 0);
        if (r : bool) then empty_blocks n inode dir_size (bidx + 1) buf else mret false
  end.

(** [None] is -1. *)
Definition ext4_dir_is_empty (inode : list Z) : M (option bool) :=
  f ← get_fs;
  if negb (ext4_dir_size_sane f (i_size_lo inode)) then mret None
  else
    ok ← kmalloc_buf;
    if negb ok then mret None
    else b ← fresh; r ← empty_blocks (dir_blocks (i_size_lo inode)) inode (i_size_lo inode) 0 b; mret (Some r).
