(* ===== verification/Ext4Ops.v ===== *)
(** * ext4: the operations of the provider (kernel/fs/ext4.c, section 17)

    [ext4_fs_ops] hands these to the switch; the mount's private state is the
    driver's part of the disk. *)
From Stdlib Require Import ZArith Lia.
From stdpp Require Import base numbers list.
From S2P Require Import Prelude Bytes CString ProcTab VfsPath Gpt Ext4Disk Ext4Map Ext4Alloc Ext4Dir.

Definition EXT4_MAX_IO_SIZE : Z := 64 * 1024 * 1024.
Definition EXT4_FT_REG_FILE : Z := 1.
Definition EXT4_FT_DIR : Z := 2.

(** ** Mounting *)

Definition inode_size_of (f : ext4_fs) : Z := if s_rev_level f =? 0 then 128 else s_inode_size f.

(** A superblock the driver takes: the state it gives. *)
Definition accept_superblock (l : list Z) : option ext4_fs :=
  let f := {| part_start_lba := 0; inode_size := 0; read_only := false; n_groups := 0; blocks_per_group := 0; sb := l; bgs := [] |} in
  if negb (s_magic f =? EXT4_MAGIC) then None
  else if negb (s_log_block_size f =? 2) then None
  else if negb (Z.land (s_feature_incompat f) (u32 (Z.lnot EXT4_INCOMPAT_SUPPORTED)) =? 0) then None
  else if (inode_size_of f <? 128) || (EXT4_BLOCK_SIZE <? inode_size_of f) || negb (inode_size_of f mod 128 =? 0) then None
  else Some {| part_start_lba := 0; inode_size := inode_size_of f;
               read_only := negb (Z.land (s_feature_ro_compat f) (u32 (Z.lnot EXT4_RO_COMPAT_WRITE_SAFE)) =? 0);
               n_groups := 0; blocks_per_group := 0; sb := l; bgs := [] |}.

Definition ext4_mount_read_superblock (p : partition) : M (option ext4_fs) :=
  ok ← kmalloc_buf;
  if negb ok then mret None
  else
    r ← ext4_bread (u64 (start_lba p + EXT4_SUPERBLOCK_SECTOR)) EXT4_SUPERBLOCK_SECTORS;
    mret ((r : option (list Z)) ≫= accept_superblock).

Definition groups_of (f : ext4_fs) : Z * Z :=
  let bpg := if s_blocks_per_group f =? 0 then EXT4_BITS_PER_BITMAP else s_blocks_per_group f in
  let n := u32 (s_blocks_count_lo f + bpg - 1) / bpg in
  (bpg, if n =? 0 then 1 else n).

Definition with_groups (f : ext4_fs) (part bpg n : Z) (b : list Z) : ext4_fs :=
  {| part_start_lba := part; inode_size := inode_size f; read_only := read_only f; n_groups := n; blocks_per_group := bpg; sb := sb f; bgs := b |}.

Definition ext4_mount_load_group_desc (f : ext4_fs) (part : Z) : M bool :=
  let '(bpg, n_grps) := groups_of f in
  if EXT4_MAX_GROUPS <? n_grps then mret false
  else
    ok ← kmalloc_buf;
    if negb ok then mret false
    else
      _ ← set_fs (with_groups f part bpg n_grps []);
      r ← load_block EXT4_GDT_BLOCK;
      match r with
      | None => mret false
      | Some l => _ ← set_fs (with_groups f part bpg n_grps (take (Z.to_nat (n_grps * 32)) l)); mret true
      end.

Definition ext4_mount (p : partition) : M bool :=
  ok ← kmalloc_buf;
  if negb ok then mret false
  else
    r ← ext4_mount_read_superblock p;
    match r with
    | None => mret false
    | Some f =>
      ok ← ext4_mount_load_group_desc f (start_lba p);
      if negb ok then mret false
      else
        ok ← ext4_repair_structural_sanity;
        if negb ok then mret false else _ ← ext4_verify_free_count; mret true
    end.

(** ** Open and read *)

Definition is_dir (inode : list Z) : bool := Z.shiftr (i_mode inode) 12 =? 4.

(** The id, the size and the type of the node. *)
Definition ext4_open (path : str) : M (option (Z * Z * Z)) :=
  r ← ext4_find_ino path;
  match r with
  | None => mret None
  | Some ino =>
    r ← get_inode_struct ino;
    mret ((fun inode => (ino, file_size inode, if is_dir inode then VFS_TYPE_DIR else VFS_TYPE_FILE)) <$> (r : option (list Z)))
  end.

Definition ext4_read (id offset size : Z) : M (Z * list Z) :=
  if EXT4_MAX_IO_SIZE <? size then mret (-1, []) else read_inode_data (u32 id) offset size.

(** ** Write *)

Definition ext4_write_new_size (offset old_size end_offset : Z) : Z :=
  if offset =? 0 then end_offset else if old_size <? end_offset then end_offset else old_size.

(** The block behind [block_idx], mapped now if it was not: inode, cache, block. *)
Definition mapped_block (inode : list Z) (block_idx : Z) (c : icache) : M (list Z * icache * option Z) :=
  '(c, phys) ← ext4_bmap inode block_idx c;
  match phys with
  | None => mret (inode, c, None)
  | Some phys =>
    if negb (phys =? 0) then mret (inode, c, Some phys)
    else
      ok ← ext4_can_grow_block_mapping inode block_idx;
      if negb ok then mret (inode, c, None)
      else
        nb ← ext4_alloc_block;
        if nb =? 0 then mret (inode, c, None)
        else
          '(inode, c, ok) ← ext4_grow_block_mapping inode block_idx nb c;
          if negb ok then _ ← ext4_free_block nb; mret (inode, c, None)
          else mret (count_meta inode, c, Some nb)
  end.

(** The bytes [l] put at [off] of block [phys]; the rest of the block is kept. *)
Definition write_part (phys off : Z) (l buf : list Z) : M (option (list Z)) :=
  r ← (if negb (off =? 0) || negb (zlen l =? EXT4_BLOCK_SIZE) then ext4_read_block phys else mret (Some buf));
  match r with
  | None => mret None
  | Some buf =>
    let buf := splice buf off l in
    ok ← ext4_write_block phys buf;
    mret (if (ok : bool) then Some buf else None)
  end.

(** The loop of [ext4_write]: the inode and the offset at the end. *)
Fixpoint write_loop (n : nat) (inode : list Z) (cur : Z) (data : list Z) (c : icache) (buf : list Z) : M (option (list Z * Z)) :=
  match data with
  | [] => mret (Some (inode, cur))
  | _ =>
    match n with
    | O => fault
    | S n =>
      let block_off := cur mod EXT4_BLOCK_SIZE in
      let to_copy := Z.min (EXT4_BLOCK_SIZE - block_off) (zlen data) in
      '(inode, c, phys) ← mapped_block inode (cur / EXT4_BLOCK_SIZE) c;
      match phys with
      | None => mret None
      | Some phys =>
        r ← write_part phys block_off (take (Z.to_nat to_copy) data) buf;
        match r with
        | None => mret None
        | Some buf => write_loop n inode (u32 (cur + to_copy)) (drop (Z.to_nat to_copy) data) c buf
        end
      end
    end
  end.

Definition write_rounds (data : list Z) : nat := Z.to_nat (zlen data / EXT4_BLOCK_SIZE + 2).

Definition ext4_write (path : str) (offset64 : Z) (data : list Z) : M Z :=
  f ← get_fs;
  if read_only f then mret (-1)
  else if EXT4_MAX_IO_SIZE <? zlen data then mret (-1)
  else
    r ← ext4_find_ino path;
    match r with
    | None => mret (-1)
    | Some ino =>
      r ← get_inode_struct ino;
      match r with
      | None => mret (-1)
      | Some inode =>
        if (0xFFFFFFFF <? offset64) || (i_size_lo inode + 1048576 <? offset64) then mret (-1)
        else
          ok ← kmalloc_buf;
          if negb ok then mret (-1)
          else
            b ← fresh;
            r ← write_loop (write_rounds data) inode offset64 data EXT4_ICACHE_INIT b;
            match r with
            | None => mret (-1)
            | Some (inode', cur) =>
              ok ← ext4_update_inode ino (set_i_size_lo inode' (ext4_write_new_size offset64 (i_size_lo inode') cur));
              mret (if (ok : bool) then zlen data else -1)
            end
      end
    end.

(** ** List *)

(** The names of a block appended to the text; [size] is that of the buffer. *)
Fixpoint list_block (n : nat) (b : list Z) (o size : Z) (text : list Z) : option (list Z) :=
  match n with
  | O => None
  | S n =>
    if EXT4_BLOCK_SIZE <=? o then Some text
    else
      ok ← entry_ok b o;
      if negb ok then Some text
      else
        let len := de_name_len b o in
        if negb (de_inode b o =? 0) && (0 <? len) && (zlen text + len + 1 <? size)
        then if zlen b <? o + 8 + len then None else list_block n b (o + de_rec_len b o) size (text ++ de_name b o ++ [32])
        else list_block n b (o + de_rec_len b o) size text
  end.

Fixpoint list_blocks (n : nat) (inode : list Z) (dir_size blk_off : Z) (buf : list Z) (size : Z) (text : list Z) : M (list Z) :=
  match n with
  | O => fault
  | S n =>
    if dir_size <=? blk_off then mret text
    else
      '(rc, l) ← ext4_read_data inode blk_off EXT4_BLOCK_SIZE;
      if rc <=? 0 then mret text
      else
        let buf := load buf l in
        text ← lift (list_block DIR_STEPS buf 0 size text);
        list_blocks n inode dir_size (u32 (blk_off + EXT4_BLOCK_SIZE)) buf size text
  end.

(** The result and the text stored, its NUL included if there is room for one. *)
Definition ext4_list (path : str) (size : Z) : M (Z * list Z) :=
  r ← ext4_find_ino path;
  match r with
  | None => mret (-1, [])
  | Some dir_ino =>
    r ← get_inode_struct dir_ino;
    match r with
    | None => mret (-1, [])
    | Some inode =>
      f ← get_fs;
      if negb (is_dir inode) then mret (-2, [])
      else if negb (ext4_dir_size_sane f (i_size_lo inode)) then mret (-1, [])
      else
        ok ← kmalloc_buf;
        if negb ok then mret (-1, [])
        else
          b ← fresh;
          text ← list_blocks (dir_blocks (i_size_lo inode)) inode (i_size_lo inode) 0 b size [];
          mret (zlen text, if 0 <? size then text ++ [0] else [])
    end
  end.

(** ** Create and unlink *)

(** The first block of a directory. *)
Definition dot_block (ino parent : Z) : list Z :=
  splice (zeroes EXT4_BLOCK_SIZE) 0
    (dirent_bytes ino (dirent_ideal_len 1) EXT4_FT_DIR [46] ++ zeroes 3
     ++ dirent_bytes parent (EXT4_BLOCK_SIZE - dirent_ideal_len 1) EXT4_FT_DIR [46; 46]).

Definition inode0 : list Z := zeroes INODE_BYTES.

Definition file_inode : list Z := set_i_links_count (set_i_mode inode0 (Z.lor 0x8000 0x1A4)) 1.
Definition dir_inode (db : Z) : list Z :=
  let i := set_i_links_count (set_i_mode inode0 (Z.lor 0x4000 0x1ED)) 2 in
  set_i_blocks_lo (set_i_size_lo (set_i_block i 0 db) EXT4_BLOCK_SIZE) EXT4_SECTORS_PER_BLOCK.

(** The inode of a new file or directory, or an error; on an error [new_ino] is
    given back. *)
Definition new_inode (vfs_type new_ino parent_ino : Z) : M (list Z + Z) :=
  if negb (vfs_type =? VFS_TYPE_DIR) then mret (inl file_inode)
  else
    db ← ext4_alloc_block;
    if db =? 0 then _ ← ext4_free_inode new_ino; mret (inr (- ENOSPC))
    else
      ok ← kmalloc_buf;
      if negb ok then _ ← ext4_free_block db; _ ← ext4_free_inode new_ino; mret (inr (- ENOMEM))
      else
        ok ← ext4_write_block db (dot_block new_ino parent_ino);
        if negb ok then _ ← ext4_free_block db; _ ← ext4_free_inode new_ino; mret (inr (- EIO))
        else mret (inl (dir_inode db)).

(** One link more, or fewer, for a parent. *)
Definition change_links (parent_ino d : Z) : M unit :=
  r ← get_inode_struct parent_ino;
  match r with
  | None => mret tt
  | Some p =>
    if (d <? 0) && (i_links_count p =? 0) then mret tt
    else _ ← ext4_update_inode parent_ino (set_i_links_count p (u16 (i_links_count p + d))); mret tt
  end.

Definition give_back (vfs_type new_ino : Z) (inode : list Z) : M unit :=
  _ ← (if vfs_type =? VFS_TYPE_DIR then ext4_free_block (i_block inode 0) else mret tt);
  ext4_free_inode new_ino.

Definition ext4_create (path : str) (vfs_type : Z) : M Z :=
  f ← get_fs;
  if read_only f then mret (- EROFS)
  else if negb (vfs_type =? VFS_TYPE_FILE) && negb (vfs_type =? VFS_TYPE_DIR) then mret (- EINVAL)
  else
    r ← ext4_find_ino path;
    match r with
    | Some _ => mret (- EEXIST)
    | None =>
      r ← ext4_resolve_parent path;
      match r with
      | None => mret (- ENOENT)
      | Some (parent_ino, name) =>
        new_ino ← ext4_alloc_inode;
        if new_ino =? 0 then mret (- ENOSPC)
        else
          r ← new_inode vfs_type new_ino parent_ino;
          match r with
          | inr e => mret e
          | inl inode =>
            ok ← ext4_update_inode new_ino inode;
            if negb ok then _ ← give_back vfs_type new_ino inode; mret (- EIO)
            else
              ok ← ext4_dir_insert parent_ino name new_ino (if vfs_type =? VFS_TYPE_DIR then EXT4_FT_DIR else EXT4_FT_REG_FILE);
              if negb ok then _ ← give_back vfs_type new_ino inode; mret (- EIO)
              else _ ← (if vfs_type =? VFS_TYPE_DIR then change_links parent_ino 1 else mret tt); mret 0
          end
      end
    end.

Definition unlink_entry (ino : Z) (inode : list Z) (path : str) : M Z :=
  r ← ext4_resolve_parent path;
  match r with
  | None => mret (- ENOENT)
  | Some (parent_ino, name) =>
    if dot_or_dotdot name then mret (- EINVAL)
    else
      ok ← ext4_dir_remove parent_ino name;
      if negb ok then mret (- EIO)
      else
        _ ← ext4_free_inode_blocks inode;
        _ ← ext4_free_inode ino;
        _ ← (if is_dir inode then change_links parent_ino (-1) else mret tt);
        mret 0
  end.

Definition ext4_unlink (path : str) : M Z :=
  f ← get_fs;
  if read_only f then mret (- EROFS)
  else
    r ← ext4_find_ino path;
    match r with
    | None => mret (- ENOENT)
    | Some ino =>
      r ← get_inode_struct ino;
      match r with
      | None => mret (- EIO)
      | Some inode =>
        if is_dir inode then
          e ← ext4_dir_is_empty inode;
          match e with
          | None => mret (- EIO)
          | Some false => mret (- ENOTEMPTY)
          | Some true => unlink_entry ino inode path
          end
        else unlink_entry ino inode path
      end
    end.
