(* ===== verification/Ext4Proofs.v ===== *)
(** * ext4: reasoning about the device

    [runs m s Q]: the call [m] comes back from state [s], however the transfers
    and allocations end, in a state and with a result that satisfy [Q].  A state
    whose oracle is empty has no failures. *)
From Stdlib Require Import ZArith Lia.
From stdpp Require Import base numbers list.
From S2P Require Import Prelude Bytes Gpt CString Ext4Disk.

(** ** Sectors *)

Definition bytes (l : list Z) : Prop := Forall (fun c => 0 <= c < 256) l.
Definition dev_ok (d : Z -> list Z) : Prop := forall x, zlen (d x) = 512 /\ bytes (d x).

Implicit Types (d : Z -> list Z) (f : ext4_fs) (o : list bool) (h : list Z).

Lemma u16_small x : 0 <= x < 65536 -> u16 x = x.
Proof. intros; unfold u16; by apply Z.mod_small. Qed.

Lemma read_sectors_cons d s n : 0 < n -> read_sectors d s n = d s ++ read_sectors d (s + 1) (n - 1).
Proof. intros Hn; unfold read_sectors; rewrite (seqZ_cons s n) by lia; cbn [fmap list_fmap concat]; f_equal; do 3 f_equal; lia. Qed.

Lemma read_sectors_nil d s n : n <= 0 -> read_sectors d s n = [].
Proof. intros Hn; unfold read_sectors; by rewrite seqZ_nil by lia. Qed.

Lemma zlen_read_sectors d s n : dev_ok d -> 0 <= n -> zlen (read_sectors d s n) = 512 * n.
Proof.
  intros Hd Hn; revert s; pattern n; apply natlike_ind; [intros s; by rewrite read_sectors_nil by lia | | done]; clear n Hn; intros n Hn IH s.
  rewrite read_sectors_cons, zlen_app, (proj1 (Hd s)) by lia; replace (Z.succ n - 1) with n by lia; rewrite IH; lia.
Qed.

Lemma znth_read_sectors d s n i : dev_ok d -> 0 <= i < 512 * n -> znth 0 (read_sectors d s n) i = znth 0 (d (s + i / 512)) (i mod 512).
Proof.
  intros Hd Hi; assert (Hn : 0 <= n) by lia; revert s i Hi; pattern n; apply natlike_ind; [lia | | done]; clear n Hn; intros n Hn IH s i Hi.
  rewrite read_sectors_cons by lia; replace (Z.succ n - 1) with n by lia; destruct (decide (i < 512)) as [Hlt | Hge].
  - rewrite znth_app_l by (rewrite (proj1 (Hd s)); lia); rewrite Z.div_small, Z.mod_small by lia; do 2 f_equal; lia.
  - rewrite znth_app_r by (rewrite (proj1 (Hd s)); lia); rewrite (proj1 (Hd s)), IH by lia.
    replace i with (i - 512 + 1 * 512) at 3 4 by lia; rewrite Z.div_add, Z.mod_add by lia; do 2 f_equal; lia.
Qed.

Lemma bytes_read_sectors d s n : dev_ok d -> bytes (read_sectors d s n).
Proof.
  intros Hd; unfold read_sectors, bytes; apply Forall_concat, Forall_fmap, Forall_forall; intros x _; simpl; apply Hd.
Qed.

Lemma read_sectors_ext d d' s n : (forall x, s <= x < s + n -> d' x = d x) -> read_sectors d' s n = read_sectors d s n.
Proof.
  intros E; unfold read_sectors; f_equal; apply list_fmap_ext; intros i x Hx; apply E.
  apply list_elem_of_lookup_2, elem_of_seqZ in Hx; lia.
Qed.

Lemma write_sectors_out d s n l x : ~ (s <= x < s + n) -> write_sectors d s n l x = d x.
Proof. intros Hx; unfold write_sectors; destruct (Z.leb_spec s x), (Z.ltb_spec x (s + n)); try done; lia. Qed.

Lemma write_sectors_in d s n l x : s <= x < s + n -> write_sectors d s n l x = slice l (512 * (x - s)) 512.
Proof. intros Hx; unfold write_sectors; destruct (Z.leb_spec s x), (Z.ltb_spec x (s + n)); try lia; done. Qed.

Lemma bytes_slice l a n : bytes l -> bytes (slice l a n).
Proof. intros Hl; unfold slice, bytes; by apply Forall_take, Forall_drop. Qed.

Lemma dev_ok_write d s n l : dev_ok d -> zlen l = 512 * n -> bytes l -> dev_ok (write_sectors d s n l).
Proof.
  intros Hd Hl Hb x; destruct (decide (s <= x < s + n)) as [Hx | Hx]; [| rewrite write_sectors_out by done; apply Hd].
  rewrite write_sectors_in by done; split; [apply zlen_slice; lia | by apply bytes_slice].
Qed.

Lemma read_write_same d s n l : dev_ok d -> zlen l = 512 * n -> bytes l -> 0 <= n -> read_sectors (write_sectors d s n l) s n = l.
Proof.
  intros Hd Hl Hb Hn; pose proof (dev_ok_write d s n l Hd Hl Hb) as Hd'; apply (znth_ext 0); [rewrite zlen_read_sectors by done; lia |].
  intros i Hi; rewrite zlen_read_sectors in Hi by done; rewrite znth_read_sectors by (done || lia).
  pose proof (Z.div_mod i 512 ltac:(lia)); pose proof (Z.mod_pos_bound i 512 ltac:(lia)).
  assert (0 <= i / 512 < n) by (split; [apply Z.div_pos | apply Z.div_lt_upper_bound]; lia).
  rewrite write_sectors_in, znth_slice by lia; f_equal; lia.
Qed.

Lemma read_write_disjoint d s n l t k : t + k <= s \/ s + n <= t -> read_sectors (write_sectors d s n l) t k = read_sectors d t k.
Proof. intros Hd; apply read_sectors_ext; intros x Hx; apply write_sectors_out; lia. Qed.

(** ** Blocks *)

Definition blk d f (b : Z) : list Z := read_sectors d (block_sector f b) 8.
Definition part_ok f : Prop := 0 <= part_start_lba f < 2 ^ 60.
(** A block number of the format: 48 bits. *)
Definition blkno (b : Z) : Prop := 0 <= b < 2 ^ 48.

Lemma block_sector_eq f b : part_ok f -> blkno b -> block_sector f b = part_start_lba f + 8 * b.
Proof.
  unfold part_ok, blkno, block_sector, EXT4_SECTORS_PER_BLOCK; intros Hp Hb; rewrite (u64_small (b * 8)) by lia; rewrite u64_small by lia; lia.
Qed.

Lemma zlen_blk d f b : dev_ok d -> zlen (blk d f b) = 4096.
Proof. intros Hd; unfold blk; by rewrite zlen_read_sectors by done. Qed.

Lemma bytes_blk d f b : dev_ok d -> bytes (blk d f b).
Proof. apply bytes_read_sectors. Qed.

Definition put_blk d f (b : Z) (l : list Z) : Z -> list Z := write_sectors d (block_sector f b) EXT4_SECTORS_PER_BLOCK l.

Lemma dev_ok_put d f b l : dev_ok d -> zlen l = 4096 -> bytes l -> dev_ok (put_blk d f b l).
Proof. intros Hd Hl Hb; by apply dev_ok_write. Qed.

Lemma blk_put d f b l b' :
  dev_ok d -> part_ok f -> blkno b -> blkno b' -> zlen l = 4096 -> bytes l -> blk (put_blk d f b l) f b' = if decide (b' = b) then l else blk d f b'.
Proof.
  intros Hd Hp Hb Hb' Hl Hy; unfold blk, put_blk; case_decide as E; [subst; by apply read_write_same |].
  apply read_write_disjoint; rewrite !block_sector_eq by done; unfold EXT4_SECTORS_PER_BLOCK; lia.
Qed.

(** Two devices that differ only in some blocks. *)
Definition same_but d d' f (P : Z -> Prop) : Prop := dev_ok d' /\ forall b, blkno b -> ~ P b -> blk d' f b = blk d f b.

Lemma same_refl d f P : dev_ok d -> same_but d d f P.
Proof. by split. Qed.

Lemma same_trans d1 d2 d3 f (P : Z -> Prop) : same_but d1 d2 f P -> same_but d2 d3 f P -> same_but d1 d3 f P.
Proof. intros [_ H1] [? H2]; split; [done |]; intros b Hb Hn; by rewrite H2, H1. Qed.

Lemma same_weaken d1 d2 f (P Q : Z -> Prop) : (forall b, P b -> Q b) -> same_but d1 d2 f P -> same_but d1 d2 f Q.
Proof. intros E [? H]; split; auto. Qed.

Lemma same_put d f b l : dev_ok d -> part_ok f -> blkno b -> zlen l = 4096 -> bytes l -> same_but d (put_blk d f b l) f (eq b).
Proof.
  intros Hd Hp Hb Hl Hy; split; [by apply dev_ok_put |]; intros b' Hb' Hn; rewrite blk_put by done; case_decide as E; [by destruct Hn | done].
Qed.

(** ** Runs *)

Abbreviation mk d o h f := {| dev := d; oracle := o; heap := h; fs := f |}.

Definition runs {A} (m : M A) (s : disk) (Q : disk -> A -> Prop) : Prop := exists s' a, m s = Some (s', a) /\ Q s' a.

Lemma runs_ret {A} (a : A) s (Q : disk -> A -> Prop) : Q s a -> runs (mret a) s Q.
Proof. intros HQ; by exists s, a. Qed.

Lemma runs_bind {A B} (m : M B) (k : B -> M A) s (Q : disk -> A -> Prop) : runs m s (fun s' b => runs (k b) s' Q) -> runs (m ≫= k) s Q.
Proof. intros (s1 & b & E & s2 & a & E2 & HQ); exists s2, a; split; [| done]; unfold mbind, M_bind; by rewrite E. Qed.

Lemma runs_unbind {A B} (m : M B) (k : B -> M A) s (Q : disk -> A -> Prop) : runs (m ≫= k) s Q -> runs m s (fun s' b => runs (k b) s' Q).
Proof.
  intros (s2 & a & E & HQ); unfold mbind, M_bind in E; destruct (m s) as [[s1 b] |] eqn:E1; [| done]; exists s1, b; split; [done |]; by exists s2, a.
Qed.

Lemma runs_tail {A} (m : M A) s (Q : disk -> A -> Prop) : runs (m ≫= mret) s Q -> runs m s Q.
Proof. intros H; apply runs_unbind in H; destruct H as (s' & a & E & s2 & b & [= <- <-] & HQ); by exists s', a. Qed.

Lemma runs_mono {A} (m : M A) s (Q R : disk -> A -> Prop) : runs m s Q -> (forall s' a, Q s' a -> R s' a) -> runs m s R.
Proof. intros (s' & a & E & HQ) HR; exists s', a; auto. Qed.

Lemma runs_get_fs {A} (k : ext4_fs -> M A) d o h f Q : runs (k f) (mk d o h f) Q -> runs (get_fs ≫= k) (mk d o h f) Q.
Proof. intros HQ; apply runs_bind; by exists (mk d o h f), f. Qed.

Lemma runs_fresh {A} (k : list Z -> M A) d o h f Q : runs (k h) (mk d o h f) Q -> runs (fresh ≫= k) (mk d o h f) Q.
Proof. intros HQ; apply runs_bind; by exists (mk d o h f), h. Qed.

Lemma runs_set_fs {A} (k : unit -> M A) d o h f f' Q : runs (k tt) (mk d o h f') Q -> runs (set_fs f' ≫= k) (mk d o h f) Q.
Proof. intros HQ; apply runs_bind; by exists (mk d o h f'), tt. Qed.

(** With no failures to come there are none later. *)
Definition calm o o' : Prop := o = [] -> o' = [].

Lemma calm_same o : calm o o.
Proof. by unfold calm. Qed.

Lemma calm_trans o1 o2 o3 : calm o1 o2 -> calm o2 o3 -> calm o1 o3.
Proof. unfold calm; auto. Qed.

Lemma runs_ask {A} (k : bool -> M A) d o h f Q :
  (forall o' b, calm o o' -> (o = [] -> b = true) -> runs (k b) (mk d o' h f) Q) -> runs (ask ≫= k) (mk d o h f) Q.
Proof.
  intros HQ; apply runs_bind; destruct o as [| b o'].
  - exists (mk d [] h f), true; split; [done | by apply HQ].
  - exists (mk d o' h f), b; split; [done | by apply HQ].
Qed.

Lemma runs_kmalloc {A} (k : bool -> M A) d o h f Q :
  (forall o' b, calm o o' -> (o = [] -> b = true) -> runs (k b) (mk d o' h f) Q) -> runs (kmalloc_buf ≫= k) (mk d o h f) Q.
Proof. apply runs_ask. Qed.

Lemma runs_bread {A} sector count (k : option (list Z) -> M A) d o h f Q :
  (forall o', calm o o' -> o <> [] -> runs (k None) (mk d o' h f) Q) ->
  (forall o', calm o o' -> runs (k (Some (read_sectors d sector count))) (mk d o' h f) Q) -> runs (ext4_bread sector count ≫= k) (mk d o h f) Q.
Proof.
  intros H1 H2; apply runs_bind; unfold ext4_bread; apply runs_ask; intros o' [|] Hc Hb.
  - apply runs_bind; exists (mk d o' h f), (read_sectors d sector count); split; [done |]; apply runs_ret; by apply H2.
  - apply runs_ret, H1; [done | intros Ho; by specialize (Hb Ho)].
Qed.

Lemma runs_bwrite {A} sector count l (k : bool -> M A) d o h f Q :
  (forall o', calm o o' -> o <> [] -> runs (k false) (mk d o' h f) Q) ->
  (forall o', calm o o' -> runs (k true) (mk (write_sectors d sector count l) o' h f) Q) -> runs (ext4_bwrite sector count l ≫= k) (mk d o h f) Q.
Proof.
  intros H1 H2; apply runs_bind; unfold ext4_bwrite; apply runs_ask; intros o' [|] Hc Hb.
  - apply runs_bind; exists (mk (write_sectors d sector count l) o' h f), tt; split; [done |]; apply runs_ret; by apply H2.
  - apply runs_ret, H1; [done | intros Ho; by specialize (Hb Ho)].
Qed.

Lemma runs_read_block {A} b (k : option (list Z) -> M A) d o h f Q :
  (forall o', calm o o' -> o <> [] -> runs (k None) (mk d o' h f) Q) ->
  (forall o', calm o o' -> runs (k (Some (blk d f b))) (mk d o' h f) Q) -> runs (ext4_read_block b ≫= k) (mk d o h f) Q.
Proof. by intros H1 H2; apply runs_bind; unfold ext4_read_block; apply runs_get_fs, runs_unbind, runs_bread. Qed.

Lemma runs_write_block {A} b l (k : bool -> M A) d o h f Q :
  (forall o', calm o o' -> o <> [] -> runs (k false) (mk d o' h f) Q) ->
  (forall o', calm o o' -> runs (k true) (mk (put_blk d f b l) o' h f) Q) -> runs (ext4_write_block b l ≫= k) (mk d o h f) Q.
Proof. by intros H1 H2; apply runs_bind; unfold ext4_write_block; apply runs_get_fs, runs_unbind, runs_bwrite. Qed.

Lemma runs_load_block {A} b (k : option (list Z) -> M A) d o h f Q :
  (forall o', calm o o' -> o <> [] -> runs (k None) (mk d o' h f) Q) ->
  (forall o', calm o o' -> runs (k (Some (blk d f b))) (mk d o' h f) Q) -> runs (load_block b ≫= k) (mk d o h f) Q.
Proof.
  intros H1 H2; apply runs_bind; unfold load_block; apply runs_kmalloc; intros o' [|] Hc Hb.
  - apply runs_unbind, runs_read_block; intros o2 Hc2; [intros Hn; apply H1 | apply H2]; first [by eapply calm_trans | by intros ->; apply Hn, Hc].
  - apply runs_ret, H1; [done | intros Ho; by specialize (Hb Ho)].
Qed.

(** ** ext4: the allocation bitmaps

    What setting, clearing, searching and counting do to the bits of a block. *)

(** ** Bytes, by cases *)

Definition for_bytes (p : Z -> Z -> bool) : bool := forallb (fun c => forallb (p c) (seqZ 0 8)) (seqZ 0 256).

Lemma for_bytes_spec p c k : for_bytes p = true -> 0 <= c < 256 -> 0 <= k < 8 -> p c k = true.
Proof.
  unfold for_bytes; rewrite forallb_forall; intros H Hc Hk; specialize (H c); rewrite forallb_forall in H; apply H.
  - apply list_elem_of_In, elem_of_seqZ; lia.
  - apply list_elem_of_In, elem_of_seqZ; lia.
Qed.

Definition zeros (c : Z) : Z := popcount_loop 8 (u8 (Z.lnot c)) 0.
Definition set_bit (c k : Z) : Z := Z.lor c (u8 (Z.shiftl 1 k)).
Definition clear_bit (c k : Z) : Z := Z.land c (u8 (Z.lnot (Z.shiftl 1 k))).

Definition byte_facts (c k : Z) : bool :=
  (0 <=? set_bit c k) && (set_bit c k <? 256) && (0 <=? clear_bit c k) && (clear_bit c k <? 256)
  && forallb (fun j => Bool.eqb (Z.testbit (set_bit c k) j) ((j =? k) || Z.testbit c j)) (seqZ 0 8)
  && forallb (fun j => Bool.eqb (Z.testbit (clear_bit c k) j) (negb (j =? k) && Z.testbit c j)) (seqZ 0 8)
  && (zeros (set_bit c k) =? zeros c - (if Z.testbit c k then 0 else 1))
  && (zeros (clear_bit c k) =? zeros c + (if Z.testbit c k then 1 else 0))
  && (0 <=? zeros c) && (zeros c <=? 8) && Bool.eqb (zeros c =? 0) (c =? 255)
  && Bool.eqb (forallb (Z.testbit c) (seqZ 0 8)) (c =? 255).

Lemma all_byte_facts : for_bytes byte_facts = true.
Proof. vm_compute; reflexivity. Qed.

Lemma byte_cases c k : 0 <= c < 256 -> 0 <= k < 8 ->
  0 <= set_bit c k < 256 /\ 0 <= clear_bit c k < 256 /\
  (forall j, 0 <= j < 8 -> Z.testbit (set_bit c k) j = (j =? k) || Z.testbit c j) /\
  (forall j, 0 <= j < 8 -> Z.testbit (clear_bit c k) j = negb (j =? k) && Z.testbit c j) /\
  zeros (set_bit c k) = zeros c - (if Z.testbit c k then 0 else 1) /\ zeros (clear_bit c k) = zeros c + (if Z.testbit c k then 1 else 0) /\
  0 <= zeros c <= 8 /\ (zeros c = 0 <-> c = 255) /\ ((forall j, 0 <= j < 8 -> Z.testbit c j = true) -> c = 255).
Proof.
  intros Hc Hk; pose proof (for_bytes_spec byte_facts c k all_byte_facts Hc Hk) as H; unfold byte_facts in H.
  rewrite !andb_true_iff, !forallb_forall, !eqb_true_iff, !Z.eqb_eq, !Z.leb_le, !Z.ltb_lt in H.
  destruct H as [[[[[[[[[[[H1 H2] H3] H4] H5] H6] H7] H8] H9] H10] H11] H12].
  assert (Hin : forall j, 0 <= j < 8 -> In j (seqZ 0 8)) by (intros j Hj; apply list_elem_of_In, elem_of_seqZ; lia).
  split; [lia |]; split; [lia |]; split; [intros j Hj; by apply eqb_prop, H5, Hin |]; split; [intros j Hj; by apply eqb_prop, H6, Hin |].
  split; [done |]; split; [done |]; split; [lia |]; split.
  - destruct (Z.eqb_spec (zeros c) 0), (Z.eqb_spec c 255); simpl in H11; try done; lia.
  - intros Hj; destruct (Z.eqb_spec c 255); [done |]; assert (E : forallb (Z.testbit c) (seqZ 0 8) = true); [| congruence].
    apply forallb_forall; intros j Hj2%list_elem_of_In%elem_of_seqZ; apply Hj; lia.
Qed.

(** ** The bits of a bitmap *)

Section bitmap.
Implicit Types (bm : list Z) (b i : Z).

Lemma bit_pos i : 0 <= i -> 0 <= i mod 8 < 8 /\ i = 8 * (i / 8) + i mod 8 /\ 0 <= i / 8.
Proof. intros Hi; pose proof (Z.mod_pos_bound i 8); pose proof (Z.div_mod i 8); pose proof (Z.div_pos i 8); lia. Qed.

Lemma byte_of bm i : bytes bm -> 0 <= znth 0 bm i < 256.
Proof. apply bytes_range. Qed.

Lemma zlen_bit_set bm b : zlen (bitmap_bit_set bm b) = zlen bm.
Proof. apply zlen_zset. Qed.

Lemma zlen_bit_clear bm b : zlen (bitmap_bit_clear bm b) = zlen bm.
Proof. apply zlen_zset. Qed.

Lemma bytes_bit_set bm b : bytes bm -> 0 <= b -> bytes (bitmap_bit_set bm b).
Proof.
  intros Hb Hp; apply Forall_zset; [done |]; apply (byte_cases (znth 0 bm (b / 8)) (b mod 8)); [by apply byte_of | by apply bit_pos].
Qed.

Lemma bytes_bit_clear bm b : bytes bm -> 0 <= b -> bytes (bitmap_bit_clear bm b).
Proof.
  intros Hb Hp; apply Forall_zset; [done |]; apply (byte_cases (znth 0 bm (b / 8)) (b mod 8)); [by apply byte_of | by apply bit_pos].
Qed.

Lemma bit_test_set bm b i : bytes bm -> 0 <= b < 8 * zlen bm -> 0 <= i -> bitmap_bit_test (bitmap_bit_set bm b) i = (i =? b) || bitmap_bit_test bm i.
Proof.
  intros Hy Hb Hi; destruct (bit_pos b) as (B1 & B2 & B3), (bit_pos i) as (I1 & I2 & I3); [lia.. |].
  unfold bitmap_bit_test, bitmap_bit_set; rewrite znth_zset by lia; destruct (Z.eqb_spec (b / 8) (i / 8)) as [E | E].
  - rewrite <- E; fold (set_bit (znth 0 bm (b / 8)) (b mod 8)).
    destruct (byte_cases (znth 0 bm (b / 8)) (b mod 8) (byte_of _ _ Hy) B1) as (_ & _ & T & _); rewrite T by done; f_equal.
    destruct (Z.eqb_spec (i mod 8) (b mod 8)), (Z.eqb_spec i b); try done; lia.
  - destruct (Z.eqb_spec i b); [by subst | done].
Qed.

Lemma bit_test_clear bm b i : bytes bm -> 0 <= b < 8 * zlen bm -> 0 <= i -> bitmap_bit_test (bitmap_bit_clear bm b) i = negb (i =? b) && bitmap_bit_test bm i.
Proof.
  intros Hy Hb Hi; destruct (bit_pos b) as (B1 & B2 & B3), (bit_pos i) as (I1 & I2 & I3); [lia.. |].
  unfold bitmap_bit_test, bitmap_bit_clear; rewrite znth_zset by lia; destruct (Z.eqb_spec (b / 8) (i / 8)) as [E | E].
  - rewrite <- E; fold (clear_bit (znth 0 bm (b / 8)) (b mod 8)).
    destruct (byte_cases (znth 0 bm (b / 8)) (b mod 8) (byte_of _ _ Hy) B1) as (_ & _ & _ & T & _); rewrite T by done; do 2 f_equal.
    destruct (Z.eqb_spec (i mod 8) (b mod 8)), (Z.eqb_spec i b); try done; lia.
  - destruct (Z.eqb_spec i b); [by subst | done].
Qed.

(** ** Counting *)

Definition sum_zeros (bm : list Z) : Z := foldr (fun c n => zeros c + n) 0 bm.

Lemma popcount_acc n x acc : popcount_loop n x acc = acc + popcount_loop n x 0.
Proof.
  revert x acc; induction n as [| n IH]; intros x acc; simpl; [lia |]; destruct (x =? 0); [lia |].
  rewrite IH, (IH _ (0 + 1)); lia.
Qed.

Lemma count_clear_sum bm : bitmap_count_clear bm (zlen bm) = sum_zeros bm.
Proof.
  unfold bitmap_count_clear, zlen; rewrite Nat2Z.id, take_ge by done.
  assert (G : forall acc, foldl (fun acc c => popcount_loop 8 (u8 (Z.lnot c)) acc) acc bm = acc + sum_zeros bm); [| by rewrite G].
  induction bm as [| c bm IH]; intros acc; cbn [foldl sum_zeros foldr]; [lia |]; rewrite IH, popcount_acc; unfold sum_zeros, zeros; lia.
Qed.

Lemma sum_zeros_range bm : bytes bm -> 0 <= sum_zeros bm <= 8 * zlen bm.
Proof.
  induction 1 as [| c bm Hc _ IH]; [done |]; rewrite zlen_cons; cbn [sum_zeros foldr]; fold (sum_zeros bm).
  destruct (byte_cases c 0 Hc) as (_ & _ & _ & _ & _ & _ & Z & _); lia.
Qed.

Lemma sum_zeros_zset bm k c : 0 <= k < zlen bm -> sum_zeros (zset bm k c) = sum_zeros bm - zeros (znth 0 bm k) + zeros c.
Proof.
  revert k; induction bm as [| x bm IH]; intros k Hk; [unfold zlen in Hk; simpl in Hk; lia |]; rewrite zlen_cons in Hk.
  destruct (decide (k = 0)) as [-> | Hne]; [change (zset (x :: bm) 0 c) with (c :: bm); change (znth 0 (x :: bm) 0) with x; cbn [sum_zeros foldr]; lia |]; rewrite znth_cons_pos by lia.
  assert (E : zset (x :: bm) k c = x :: zset bm (k - 1) c).
  { unfold zset; destruct (Z.ltb_spec k 0), (Z.ltb_spec (k - 1) 0); try lia; replace (Z.to_nat k) with (S (Z.to_nat (k - 1))) by lia; done. }
  rewrite E; cbn [sum_zeros foldr]; fold (sum_zeros bm) (sum_zeros (zset bm (k - 1) c)); rewrite IH by lia; lia.
Qed.

Lemma count_set bm b : bytes bm -> 0 <= b < 8 * zlen bm -> bitmap_bit_test bm b = false -> sum_zeros (bitmap_bit_set bm b) = sum_zeros bm - 1.
Proof.
  intros Hy Hb Ht; destruct (bit_pos b) as (B1 & B2 & B3); [lia |]; unfold bitmap_bit_set; rewrite sum_zeros_zset by lia.
  destruct (byte_cases (znth 0 bm (b / 8)) (b mod 8) (byte_of _ _ Hy) B1) as (_ & _ & _ & _ & C & _).
  fold (set_bit (znth 0 bm (b / 8)) (b mod 8)); rewrite C; unfold bitmap_bit_test in Ht; rewrite Ht; lia.
Qed.

Lemma count_clear_bit bm b : bytes bm -> 0 <= b < 8 * zlen bm -> bitmap_bit_test bm b = true -> sum_zeros (bitmap_bit_clear bm b) = sum_zeros bm + 1.
Proof.
  intros Hy Hb Ht; destruct (bit_pos b) as (B1 & B2 & B3); [lia |]; unfold bitmap_bit_clear; rewrite sum_zeros_zset by lia.
  destruct (byte_cases (znth 0 bm (b / 8)) (b mod 8) (byte_of _ _ Hy) B1) as (_ & _ & _ & _ & _ & C & _).
  fold (clear_bit (znth 0 bm (b / 8)) (b mod 8)); rewrite C; unfold bitmap_bit_test in Ht; rewrite Ht; lia.
Qed.

(** ** The search *)

Lemma scan_byte_ok n c idx bit limit :
  idx + Z.of_nat n <= limit ->
  match scan_byte n c idx bit limit with
  | Some r => idx <= r < idx + Z.of_nat n /\ Z.testbit c (bit + (r - idx)) = false
  | None => forall j, bit <= j < bit + Z.of_nat n -> Z.testbit c j = true
  end.
Proof.
  revert idx bit; induction n as [| n IH]; intros idx bit Hl; simpl; [lia |]; destruct (Z.leb_spec limit idx); [lia |].
  destruct (Z.testbit c bit) eqn:Et; simpl; [| split; [lia |]; by replace (bit + (idx - idx)) with bit by lia].
  specialize (IH (idx + 1) (bit + 1) ltac:(lia)); destruct (scan_byte n c (idx + 1) (bit + 1) limit) as [r |].
  - destruct IH as [IH1 IH2]; split; [lia |]; by replace (bit + (r - idx)) with (bit + 1 + (r - (idx + 1))) by lia.
  - intros j Hj; destruct (decide (j = bit)) as [-> |]; [done | apply IH; lia].
Qed.

Lemma find_clear_ok l byte limit :
  bytes l -> 0 <= byte -> 8 * (byte + zlen l) = limit ->
  let r := find_clear_loop l byte limit in
  r = EXT4_BITMAP_FULL /\ Forall (fun c => c = 255) l \/
  8 * byte <= r < limit /\ Z.testbit (znth 0 l (r / 8 - byte)) (r mod 8) = false.
Proof.
  intros Hy; revert byte; induction Hy as [| c l Hc Hy IH]; intros byte Hb Hl; cbn [find_clear_loop]; [by left |]; rewrite zlen_cons in Hl.
  assert (Next : let r := find_clear_loop l (byte + 1) limit in c = 255 -> r = EXT4_BITMAP_FULL /\ Forall (fun c => c = 255) (c :: l) \/
    8 * byte <= r < limit /\ Z.testbit (znth 0 (c :: l) (r / 8 - byte)) (r mod 8) = false).
  { intros r Hc255; destruct (IH (byte + 1) ltac:(lia) ltac:(lia)) as [[E F] | [R T]]; [left; split; [done | by constructor] | right]; fold r in R, T; split; [lia |].
    assert (byte + 1 <= r / 8) by (apply Z.div_le_lower_bound; lia); rewrite znth_cons_pos by lia; by replace (r / 8 - byte - 1) with (r / 8 - (byte + 1)) by lia. }
  destruct (Z.eqb_spec c 0xFF) as [E | E]; [by apply Next |].
  pose proof (zlen_nonneg l); pose proof (scan_byte_ok 8 c (byte * 8) 0 limit ltac:(lia)) as S; destruct (scan_byte 8 c (byte * 8) 0 limit) as [r |].
  - destruct S as [R T]; right; split; [lia |]; assert (Er : r / 8 = byte) by (symmetry; apply (Z.div_unique r 8 byte (r - byte * 8)); lia).
    rewrite Er, Z.sub_diag; replace (r mod 8) with (0 + (r - byte * 8)) by (pose proof (Z.div_mod r 8); lia); exact T.
  - apply Next; apply (byte_cases c 0 Hc ltac:(lia)); intros j Hj; apply S; lia.
Qed.

Lemma find_first_clear_ok bm :
  bytes bm -> zlen bm = 4096 ->
  let r := bitmap_find_first_clear bm EXT4_BITS_PER_BITMAP in
  r = EXT4_BITMAP_FULL /\ sum_zeros bm = 0 \/ 0 <= r < 32768 /\ bitmap_bit_test bm r = false.
Proof.
  intros Hy Hl; unfold bitmap_find_first_clear; change (Z.min EXT4_BITS_PER_BITMAP EXT4_BITS_PER_BITMAP) with 32768; change ((32768 + 7) / 8) with 4096.
  rewrite take_ge by (unfold zlen in Hl; lia); destruct (find_clear_ok bm 0 32768 Hy ltac:(lia) ltac:(lia)) as [[E F] | [R T]].
  - left; split; [done |]; clear -F; induction F as [| c bm -> _ IH]; [done |]; cbn [sum_zeros foldr]; fold (sum_zeros bm); rewrite IH; done.
  - right; split; [lia |]; unfold bitmap_bit_test; by rewrite Z.sub_0_r in T.
Qed.
End bitmap.

(** ** Bitmaps with the same bits *)

Lemma byte_eq c c' : 0 <= c < 256 -> 0 <= c' < 256 -> (forall j, 0 <= j < 8 -> Z.testbit c j = Z.testbit c' j) -> c = c'.
Proof.
  intros Hc Hc' E; apply Z.bits_inj'; intros n Hn; destruct (decide (n < 8)) as [H8 | H8]; [by apply E |].
  rewrite <- (Z.mod_small c (2 ^ 8)), <- (Z.mod_small c' (2 ^ 8)) by lia; by rewrite !Z.mod_pow2_bits_high by lia.
Qed.

Lemma bitmap_eq l l' : bytes l -> bytes l' -> zlen l = zlen l' -> (forall i, 0 <= i < 8 * zlen l -> bitmap_bit_test l i = bitmap_bit_test l' i) -> l = l'.
Proof.
  intros Hy Hy' Hl E; apply (znth_ext 0); [done |]; intros i Hi; apply byte_eq; [by apply byte_of.. |]; intros j Hj; specialize (E (8 * i + j) ltac:(lia)).
  unfold bitmap_bit_test in E; replace ((8 * i + j) / 8) with i in E by (rewrite (Z.mul_comm 8), Z.div_add_l, Z.div_small by lia; lia).
  by replace ((8 * i + j) mod 8) with j in E by (rewrite Z.add_comm, Z.mul_comm, Z.mod_add, Z.mod_small by lia; lia).
Qed.
