(* ===== verification/Ext4AllocProofs.v ===== *)
(** * ext4: the state of the allocator

    The invariant that ties the bitmaps on the disk to the counters in memory, and
    what one search of a group, one release and the write-back do to it. *)
From Stdlib Require Import ZArith Lia.
From stdpp Require Import base numbers list.
From S2P Require Import Prelude Bytes CString Gpt Ext4Disk Ext4Map Ext4Alloc Ext4Proofs.

Implicit Types (d : Z -> list Z) (f : ext4_fs) (o : list bool) (h : list Z) (g b : Z).

(** ** The invariant *)

Definition bm d f g : list Z := blk d f (bg_block_bitmap_lo f g).
Definition used d f b : bool := bitmap_bit_test (bm d f (b / 32768)) (b mod 32768).
(** A block of the partition. *)
Definition block_of f b : Prop := 0 <= b < 32768 * n_groups f.
(** The superblock, the descriptors and the bitmaps. *)
Definition fixed_block f b : Prop := b = 0 \/ b = 1 \/ exists g, 0 <= g < n_groups f /\ b = bg_block_bitmap_lo f g.

Record fs_ok f : Prop := {
  f_part : part_ok f;
  f_bpg : blocks_per_group f = 32768;
  f_groups : 1 <= n_groups f <= 128;
  f_bgs : zlen (bgs f) = 32 * n_groups f /\ bytes (bgs f);
  f_sb : zlen (sb f) = 1024 /\ bytes (sb f)
}.

(** The bitmaps have places of their own. *)
Record places d f : Prop := {
  a_fs : fs_ok f;
  a_dev : dev_ok d;
  a_range g : 0 <= g < n_groups f -> 2 <= bg_block_bitmap_lo f g /\ block_of f (bg_block_bitmap_lo f g);
  a_inj g g' : 0 <= g < n_groups f -> 0 <= g' < n_groups f -> bg_block_bitmap_lo f g = bg_block_bitmap_lo f g' -> g = g'
}.

(** They mark the driver's own blocks, and the counters agree with them. *)
Record alloc_ok d f : Prop := {
  a_places :> places d f;
  a_fixed b : fixed_block f b -> used d f b = true;
  a_counts g : 0 <= g < n_groups f -> bg_free_blocks_count_lo f g = sum_zeros (bm d f g)
}.

(** What the counters do not touch. *)
Record geo f f' : Prop := {
  g_part : part_start_lba f' = part_start_lba f;
  g_bpg : blocks_per_group f' = blocks_per_group f;
  g_groups : n_groups f' = n_groups f;
  g_isize : inode_size f' = inode_size f;
  g_ro : read_only f' = read_only f;
  g_bitmaps g : 0 <= g < n_groups f -> bg_block_bitmap_lo f' g = bg_block_bitmap_lo f g;
  g_ibitmaps g : 0 <= g < n_groups f -> bg_inode_bitmap_lo f' g = bg_inode_bitmap_lo f g;
  g_tables g : 0 <= g < n_groups f -> bg_inode_table_lo f' g = bg_inode_table_lo f g;
  g_inodes : s_inodes_count f' = s_inodes_count f;
  g_blocks : s_blocks_count_lo f' = s_blocks_count_lo f
}.

Lemma geo_refl f : geo f f.
Proof. by split. Qed.

Lemma geo_trans f1 f2 f3 : geo f1 f2 -> geo f2 f3 -> geo f1 f3.
Proof.
  intros G1 G2; pose proof (g_groups _ _ G1) as N; destruct G1 as [a1 a2 a3 a4 a5 a6 a7 a8 a9 a10], G2 as [b1 b2 b3 b4 b5 b6 b7 b8 b9 b10]; split; try congruence.
  - intros g Hg; rewrite b6 by (by rewrite N); by apply a6.
  - intros g Hg; rewrite b7 by (by rewrite N); by apply a7.
  - intros g Hg; rewrite b8 by (by rewrite N); by apply a8.
Qed.

Lemma geo_sym f f' : geo f f' -> geo f' f.
Proof. intros G; pose proof (g_groups _ _ G) as N; destruct G; split; try congruence; intros g Hg; rewrite N in Hg; symmetry; auto. Qed.

Lemma blk_geo d f f' b : geo f f' -> blk d f' b = blk d f b.
Proof. intros G; unfold blk, block_sector; by rewrite (g_part _ _ G). Qed.

Lemma put_geo d f f' b l : geo f f' -> put_blk d f' b l = put_blk d f b l.
Proof. intros G; unfold put_blk, block_sector; by rewrite (g_part _ _ G). Qed.

(** *** Counters *)

Definition with_counts f g (n m : Z) : ext4_fs := set_free_blocks (set_bg_free_blocks f g n) m.

Lemma with_counts_ok f g n m :
  fs_ok f -> 0 <= g < n_groups f -> 0 <= n < 65536 ->
  fs_ok (with_counts f g n m) /\ geo f (with_counts f g n m) /\
  forall g', 0 <= g' < n_groups f -> bg_free_blocks_count_lo (with_counts f g n m) g' = if decide (g' = g) then n else bg_free_blocks_count_lo f g'.
Proof.
  intros [P B N [G1 G2] [S1 S2]] Hg Hn; unfold with_counts, set_free_blocks, set_bg_free_blocks; split; [| split].
  - split; simpl; [exact P | done | done | |]; split; try (apply splice_ok; [done | apply bytes16_ok || apply bytes32_ok]);
      rewrite zlen_splice; rewrite ?zlen_bytes16, ?zlen_bytes32; lia.
  - split; simpl; try done; [intros g' Hg' | intros g' Hg' | intros g' Hg' | |]; unfold bg_block_bitmap_lo, bg_inode_bitmap_lo, bg_inode_table_lo, s_inodes_count, s_blocks_count_lo; simpl;
      apply le32_splice_ne; rewrite ?zlen_bytes16, ?zlen_bytes32; lia.
  - intros g' Hg'; unfold bg_free_blocks_count_lo; simpl; case_decide as E; [subst; apply le16_splice_eq; lia | apply le16_splice_ne; rewrite ?zlen_bytes16; lia].
Qed.

(** *** Where a block's bit is *)

Lemma block_bit g i : 0 <= i < 32768 -> (g * 32768 + i) / 32768 = g /\ (g * 32768 + i) mod 32768 = i.
Proof. intros Hi; split; [symmetry; apply (Z.div_unique _ _ _ i) | symmetry; apply (Z.mod_unique _ _ g)]; lia. Qed.

Lemma block_split f b : block_of f b -> 0 <= b / 32768 < n_groups f /\ 0 <= b mod 32768 < 32768 /\ b = b / 32768 * 32768 + b mod 32768.
Proof.
  unfold block_of; intros Hb; pose proof (Z.mod_pos_bound b 32768); pose proof (Z.div_mod b 32768); split; [| lia].
  split; [apply Z.div_pos | apply Z.div_lt_upper_bound]; lia.
Qed.

Lemma blkno_of f b : fs_ok f -> block_of f b -> blkno b.
Proof. intros [_ _ ? _ _]; unfold block_of, blkno; lia. Qed.

Lemma fixed_in d f b : places d f -> fixed_block f b -> block_of f b.
Proof.
  intros [F _ R _] [-> | [-> | (g & Hg & ->)]]; [| | by apply R]; unfold block_of; pose proof (f_groups f F); lia.
Qed.

(** Two states that agree on the bitmaps agree on what is used. *)
Lemma used_same d d' f b (P : Z -> Prop) :
  places d f -> same_but d d' f P -> (forall g, 0 <= g < n_groups f -> ~ P (bg_block_bitmap_lo f g)) -> block_of f b -> used d' f b = used d f b.
Proof.
  intros A [_ S] HP Hb; destruct (block_split f b Hb) as (Hg & _); unfold used, bm; rewrite S; [done | | by apply HP].
  apply (blkno_of f); [apply A | by apply (a_range d f A)].
Qed.

Lemma places_same d d' f (P : Z -> Prop) : places d f -> same_but d d' f P -> places d' f.
Proof. intros [F D R I] S; split; try done; apply S. Qed.

Lemma bm_same d d' f (P : Z -> Prop) : places d f -> same_but d d' f P -> (forall g, 0 <= g < n_groups f -> ~ P (bg_block_bitmap_lo f g)) ->
  forall g, 0 <= g < n_groups f -> bm d' f g = bm d f g.
Proof. intros A [_ S] HP g Hg; unfold bm; apply S; [| by apply HP]; apply (blkno_of f), (a_range d f A g Hg); apply A. Qed.

Lemma alloc_same d d' f (P : Z -> Prop) :
  alloc_ok d f -> same_but d d' f P -> (forall g, 0 <= g < n_groups f -> ~ P (bg_block_bitmap_lo f g)) -> alloc_ok d' f.
Proof.
  intros [A X C] S HP; split; [by eapply places_same | |].
  - intros b Hb; rewrite (used_same d d' f b P A S HP); [by apply X | by eapply fixed_in].
  - intros g Hg; rewrite C by done; by rewrite (bm_same d d' f P).
Qed.

(** ** The write-back *)

Lemma bytes_zeroes n : bytes (zeroes n).
Proof. by apply Forall_replicate. Qed.

Lemma runs_sync {A} (k : unit -> M A) d o h f Q :
  fs_ok f -> dev_ok d ->
  (forall o' d', calm o o' -> same_but d d' f (fun b => b = 0 \/ b = 1) -> runs (k tt) (mk d' o' h f) Q) -> runs (ext4_sync_bg_sb ≫= k) (mk d o h f) Q.
Proof.
  intros [P B N [G1 G2] [S1 S2]] Hd HQ; apply runs_bind; unfold ext4_sync_bg_sb; apply runs_get_fs, runs_kmalloc; intros o1 ok1 C1 _; apply runs_bind.
  apply (runs_mono _ _ (fun s _ => exists o' d', s = mk d' o' h f /\ calm o1 o' /\ same_but d d' f (fun b => b = 0 \/ b = 1))).
  { assert (Z1 : zlen (gdt_block f) = 4096 /\ bytes (gdt_block f)).
    { unfold gdt_block; rewrite Z.min_l by (unfold EXT4_BLOCK_SIZE; lia); rewrite take_ge by (unfold zlen in G1; lia).
      split; [rewrite zlen_splice; [done | lia | change (zlen (zeroes EXT4_BLOCK_SIZE)) with 4096; lia] | apply splice_ok; [apply bytes_zeroes | done]]. }
    destruct ok1; [| apply runs_ret; exists o1, d; split; [done | split; [apply calm_same | by apply same_refl]]].
    apply runs_tail, runs_write_block; intros o2 C2; [intros _ |]; apply runs_ret; do 2 eexists; (split; [done |]; split; [done |]); [by apply same_refl |].
    apply (same_weaken _ _ _ (eq EXT4_GDT_BLOCK)); [intros b <-; by right |]; apply same_put; try done; apply Z1. }
  intros s1 _ (o2 & d2 & -> & C2 & D2); apply runs_kmalloc; intros o3 ok3 C3 _; apply runs_bind.
  assert (C : calm o o3) by (repeat (eapply calm_trans; [eassumption |]); apply calm_same).
  destruct ok3; [| by apply runs_ret, runs_ret, HQ].
  apply runs_unbind, runs_bwrite; intros o4 C4; [intros _ |]; apply runs_ret, HQ; try (by eapply calm_trans); [done |].
    destruct D2 as [D2 E2]; split; [apply dev_ok_write; done |]; intros b Hb Hn; rewrite <- E2 by done; apply read_write_disjoint.
    rewrite block_sector_eq by done; unfold part_ok, blkno in *; change EXT4_SUPERBLOCK_SECTOR with 2; change EXT4_SUPERBLOCK_SECTORS with 2.
    rewrite u64_small by lia; cbv beta in Hn; lia.
Qed.

(** ** A bitmap replaced *)

Lemma places_geo d f f' : places d f -> fs_ok f' -> geo f f' -> places d f'.
Proof.
  intros [F D R I] F' G; split; try done; rewrite (g_groups _ _ G).
  - intros g Hg; rewrite (g_bitmaps _ _ G) by done; unfold block_of; rewrite (g_groups _ _ G); by apply R.
  - intros g1 g2 H1 H2; rewrite !(g_bitmaps _ _ G) by done; by apply I.
Qed.

Lemma used_geo d f f' b : geo f f' -> block_of f b -> used d f' b = used d f b.
Proof. intros G Hb; destruct (block_split f b Hb) as (Hg & _); unfold used, bm; by rewrite (g_bitmaps _ _ G), (blk_geo d f f'). Qed.

Lemma fixed_geo f f' b : geo f f' -> fixed_block f' b -> fixed_block f b.
Proof.
  intros G [-> | [-> | (g & Hg & ->)]]; [by left | by right; left |]; rewrite (g_groups _ _ G) in Hg; right; right; exists g; by rewrite (g_bitmaps _ _ G).
Qed.

Lemma same_geo d d' f f' (P : Z -> Prop) : geo f f' -> same_but d d' f' P -> same_but d d' f P.
Proof. intros G [D S]; split; [done |]; intros b Hb Hn; rewrite <- !(blk_geo _ f f') by done; by apply S. Qed.

(** Group [g] gets the bitmap [l]. *)
Lemma places_put d f f' g l :
  places d f -> fs_ok f' -> geo f f' -> 0 <= g < n_groups f -> zlen l = 4096 -> bytes l ->
  let d' := put_blk d f (bg_block_bitmap_lo f g) l in
  places d' f' /\ same_but d d' f (eq (bg_block_bitmap_lo f g)) /\
  (forall g', 0 <= g' < n_groups f -> bm d' f' g' = if decide (g' = g) then l else bm d f g') /\
  forall b, block_of f b -> used d' f' b = if decide (b / 32768 = g) then bitmap_bit_test l (b mod 32768) else used d f b.
Proof.
  intros A F' G Hg Hl Hy d'; pose proof A as [F D R I].
  assert (Hb : forall g', 0 <= g' < n_groups f -> blkno (bg_block_bitmap_lo f g')) by (intros g' Hg'; apply (blkno_of f _ F), R, Hg').
  assert (S : same_but d d' f (eq (bg_block_bitmap_lo f g))) by (apply same_put; auto; apply F).
  assert (Ebm : forall g', 0 <= g' < n_groups f -> bm d' f' g' = if decide (g' = g) then l else bm d f g').
  { intros g' Hg'; unfold bm; rewrite (g_bitmaps _ _ G) by done; rewrite (blk_geo _ _ _ _ G); unfold d'; rewrite blk_put by (auto; apply F).
    case_decide as E1; case_decide as E2; try done; [by apply I in E1 | by subst]. }
  split; [apply (places_geo _ f); [by eapply places_same | done | done] |]; split; [done |]; split; [done |].
  intros b Hbl; destruct (block_split f b Hbl) as (Hg' & _); unfold used; rewrite Ebm by done; by case_decide.
Qed.

(** Group [g] gets the bitmap [l], and the counter that goes with it. *)
Lemma bitmap_put d f g l m :
  alloc_ok d f -> 0 <= g < n_groups f -> zlen l = 4096 -> bytes l -> (forall b, fixed_block f b -> b / 32768 = g -> bitmap_bit_test l (b mod 32768) = true) ->
  let f' := with_counts f g (sum_zeros l) m in let d' := put_blk d f (bg_block_bitmap_lo f g) l in
  alloc_ok d' f' /\ geo f f' /\ same_but d d' f (eq (bg_block_bitmap_lo f g)) /\
  forall b, block_of f b -> used d' f' b = if decide (b / 32768 = g) then bitmap_bit_test l (b mod 32768) else used d f b.
Proof.
  intros [A X C] Hg Hl Hy Hx f' d'; pose proof (a_fs d f A) as F; pose proof (sum_zeros_range l Hy) as Hz; rewrite Hl in Hz.
  destruct (with_counts_ok f g (sum_zeros l) m F Hg ltac:(lia)) as (F' & G & K); fold f' in F', G, K.
  destruct (places_put d f f' g l A F' G Hg Hl Hy) as (A' & S & Ebm & U); fold d' in A', S, Ebm, U.
  split; [split; [done | |] | split; [done | by split]].
  - intros b Hfb; apply (fixed_geo f f') in Hfb; [| done]; rewrite U; [case_decide; [by apply Hx | by apply X] | by apply (fixed_in d)].
  - intros g' Hg'; rewrite (g_groups _ _ G) in Hg'; rewrite K, Ebm by done; case_decide; [done | by apply C].
Qed.
