(* ===== verification/Ext4Blocks.v ===== *)
(** * ext4: what one call of the allocator does

    [takes]: a block handed out; [releases]: a run of blocks given back.  Every call
    keeps the invariant, whichever transfers fail. *)
From Stdlib Require Import ZArith Lia.
From stdpp Require Import base numbers list relations.
From S2P Require Import Prelude Bytes Gpt CString Ext4Disk Ext4Map Ext4Alloc Ext4Proofs Ext4AllocProofs.

Implicit Types (d : Z -> list Z) (f : ext4_fs) (o : list bool) (h : list Z) (g b : Z).

(** ** Taking a block *)

(** Nothing but block [r] was taken, and of the other blocks only those the
    driver keeps its own records in may have changed. *)
Record takes d f d' f' (r : Z) : Prop := {
  t_ok : alloc_ok d' f';
  t_geo : geo f f';
  t_block : block_of f r;
  t_free : used d f r = false;
  t_used b : block_of f b -> used d' f' b = (b =? r) || used d f b;
  t_data : same_but d d' f (fun b => fixed_block f b \/ b = r)
}.

Lemma used_bit d f g i : 0 <= i < 32768 -> used d f (g * 32768 + i) = bitmap_bit_test (bm d f g) i.
Proof. intros Hi; unfold used; by destruct (block_bit g i Hi) as [-> ->]. Qed.

Lemma meta_fixed f b : b = 0 \/ b = 1 -> fixed_block f b.
Proof. intros [-> | ->]; [by left | by right; left]. Qed.

(** The write-back after a bitmap has been replaced. *)
Lemma sync_after d f d' f' : alloc_ok d f -> alloc_ok d' f' -> geo f f' -> same_but d d' f (fixed_block f) ->
  forall d2, same_but d' d2 f' (fun b => b = 0 \/ b = 1) ->
  alloc_ok d2 f' /\ same_but d d2 f (fixed_block f) /\ forall b, block_of f' b -> used d2 f' b = used d' f' b.
Proof.
  intros A A' G S d2 S2; assert (N : forall g, 0 <= g < n_groups f' -> ~ (bg_block_bitmap_lo f' g = 0 \/ bg_block_bitmap_lo f' g = 1))
    by (intros g Hg; pose proof (a_range d' f' A' g Hg); lia).
  split; [by eapply alloc_same | split; [| intros b Hb; exact (used_same d' d2 f' b _ A' S2 N Hb)]].
  eapply same_trans; [exact S |]; apply (same_weaken _ _ _ (fun b => b = 0 \/ b = 1)); [apply meta_fixed |].
  destruct S2 as [? S2]; split; [done |]; intros b Hb Hn; rewrite <- !(blk_geo _ f f') by done; by apply S2.
Qed.

Lemma runs_alloc_in_group {A} g (k : grab -> M A) d o h f Q :
  alloc_ok d f -> 0 <= g < n_groups f ->
  (forall o' r, calm o o' -> r = GNext \/ r = GFail -> (o = [] -> r = GNext /\ sum_zeros (bm d f g) = 0) -> runs (k r) (mk d o' h f) Q) ->
  (forall o' d' f' bit, calm o o' -> 0 <= bit < 32768 -> takes d f d' f' (g * 32768 + bit) -> runs (k (GBit bit)) (mk d' o' h f') Q) ->
  runs (alloc_in_group g ≫= k) (mk d o h f) Q.
Proof.
  intros HA Hg HN HB; pose proof (a_counts d f HA g Hg) as HC; apply runs_bind; unfold alloc_in_group; apply runs_get_fs.
  destruct (Z.eqb_spec (bg_free_blocks_count_lo f g) 0) as [E | E].
  { apply runs_ret, (HN o); [apply calm_same | by left |]; intros _; split; [done | congruence]. }
  apply runs_kmalloc; intros o1 [|] C1 H1; cbn [negb]; [| apply runs_ret, HN; [done | by right | intros Ho; by specialize (H1 Ho)]].
  apply runs_read_block; intros o2 C2.
  { intros Hn; apply runs_ret, HN; [by eapply calm_trans | by left | by intros ->; destruct Hn; apply C1]. }
  fold (bm d f g); set (l := bm d f g) in *; assert (Hl : zlen l = 4096 /\ bytes l) by (split; [apply zlen_blk | apply bytes_blk]; apply HA).
  destruct (find_first_clear_ok l) as [[E1 E2] | [R T]]; [apply Hl | apply Hl | |].
  { rewrite E1; apply runs_ret, HN; [by eapply calm_trans | by left | intros _; by split]. }
  set (bit := bitmap_find_first_clear l EXT4_BITS_PER_BITMAP) in *; destruct (Z.eqb_spec bit EXT4_BITMAP_FULL) as [E1 | E1]; [unfold EXT4_BITMAP_FULL in E1; lia |].
  assert (T' : used d f (g * 32768 + bit) = false) by (by rewrite used_bit).
  destruct (bitmap_put d f g (bitmap_bit_set l bit) (u32 (s_free_blocks_count_lo f - 1)) HA Hg) as (A' & G & S & U);
    [rewrite zlen_bit_set; apply Hl | apply bytes_bit_set; [apply Hl | lia] | |].
  { intros b Hb Eb; rewrite bit_test_set by (try apply Hl; destruct (block_split f b (fixed_in d f b HA Hb)); lia).
    pose proof (a_fixed d f HA b Hb) as X; unfold used in X; rewrite Eb in X; fold l in X; rewrite X; apply orb_true_r. }
  rewrite count_set in A', G, U by (try apply Hl; try done; lia).
  pose proof (sum_zeros_range l (proj2 Hl)) as Hz; apply runs_write_block; intros o3 C3.
  { intros Hn; apply runs_ret, HN; [repeat (eapply calm_trans; [eassumption |]); apply calm_same | by right | by intros ->; destruct Hn; apply C2, C1]. }
  change (s_free_blocks_count_lo (set_bg_free_blocks f g (u16 (bg_free_blocks_count_lo f g - 1)))) with (s_free_blocks_count_lo f).
  fold (with_counts f g (u16 (bg_free_blocks_count_lo f g - 1)) (u32 (s_free_blocks_count_lo f - 1))).
  rewrite u16_small, HC by (fold l in HC; lia); fold l; apply runs_set_fs; set (f' := with_counts f g _ _) in *.
  rewrite <- (put_geo d f f') in * by done; set (d' := put_blk d f' _ _) in *.
  assert (S' : same_but d d' f (fixed_block f)) by (apply (same_weaken _ _ _ _ _ (fun b E => or_intror (or_intror (ex_intro _ g (conj Hg (eq_sym E))))) S)).
  apply runs_sync; [apply A' | apply A' |]; intros o4 d4 C4 S4; destruct (sync_after d f d' f' HA A' G S' d4 S4) as (A4 & D4 & U4).
  apply runs_ret, HB; [repeat (eapply calm_trans; [eassumption |]); apply calm_same | lia |]; split; try done.
  - unfold block_of; lia.
  - intros b Hb; rewrite U4, U by (unfold block_of in *; rewrite ?(g_groups _ _ G); done).
    destruct (block_split f b Hb) as (B1 & B2 & B3); case_decide as Eb.
    + rewrite bit_test_set by (try apply Hl; lia); unfold used; rewrite Eb; fold l; f_equal; destruct (Z.eqb_spec (b mod 32768) bit), (Z.eqb_spec b (g * 32768 + bit)); lia.
    + destruct (Z.eqb_spec b (g * 32768 + bit)) as [-> |]; [| done]; by destruct Eb; apply block_bit.
  - eapply same_weaken; [| exact D4]; intros b Hb; by left.
Qed.

Lemma takes_not_fixed d f d' f' r : alloc_ok d f -> takes d f d' f' r -> ~ fixed_block f r.
Proof. intros A T Hx; apply (a_fixed d f A) in Hx; by rewrite (t_free _ _ _ _ _ T) in Hx. Qed.

Lemma takes_put d f d' f' r l :
  alloc_ok d f -> takes d f d' f' r -> zlen l = 4096 -> bytes l -> takes d f (put_blk d' f' r l) f' r /\ blk (put_blk d' f' r l) f' r = l.
Proof.
  intros A T Hl Hy; pose proof (takes_not_fixed _ _ _ _ _ A T) as Hn; pose proof T as [A' G B F U D].
  assert (Br : blkno r) by (by apply (blkno_of f); [apply A |]).
  assert (S : same_but d' (put_blk d' f' r l) f' (eq r)) by (apply same_put; try done; apply A').
  assert (N : forall g, 0 <= g < n_groups f' -> r <> bg_block_bitmap_lo f' g).
  { intros g Hg ->; rewrite (g_groups _ _ G) in Hg; apply Hn; right; right; exists g; by rewrite (g_bitmaps _ _ G). }
  split; [split; try done | rewrite blk_put by (try done; apply A'); by rewrite decide_True].
  - by eapply alloc_same.
  - intros b Hb; rewrite (used_same d' _ f' b (eq r) A' S N) by (unfold block_of in *; by rewrite (g_groups _ _ G)); by apply U.
  - eapply same_trans; [exact D |]; destruct S as [S1 S2]; split; [done |]; intros b Hb Hnb; rewrite <- !(blk_geo _ f f') by done.
    apply S2; [done | intros ->; apply Hnb; by right].
Qed.

Lemma runs_zero_block {A} r (k : unit -> M A) d o h f d0 f0 Q :
  alloc_ok d0 f0 -> takes d0 f0 d f r ->
  (forall o' d', calm o o' -> takes d0 f0 d' f r -> (o = [] -> blk d' f r = zeroes EXT4_BLOCK_SIZE) -> runs (k tt) (mk d' o' h f) Q) ->
  runs (zero_block r ≫= k) (mk d o h f) Q.
Proof.
  intros A0 T HQ; apply runs_bind; unfold zero_block; apply runs_kmalloc; intros o1 [|] C1 H1; apply runs_bind.
  - destruct (takes_put d0 f0 d f r (zeroes EXT4_BLOCK_SIZE) A0 T eq_refl (bytes_zeroes _)) as [T' E].
    apply runs_unbind, runs_write_block; intros o2 C2; [intros Hn |]; apply runs_ret, HQ; try (by eapply calm_trans); try done; intros ->; destruct Hn; by apply C1.
  - apply runs_ret, runs_ret, HQ; [done | done | intros Ho; by specialize (H1 Ho)].
Qed.

Lemma runs_alloc_loop {A} (P : Prop) n (k : Z -> M A) d o h f Q :
  alloc_ok d f -> (P -> o = []) -> forall g, 0 <= g -> g + Z.of_nat n = n_groups f -> (P -> forall i, 0 <= i < g -> sum_zeros (bm d f i) = 0) ->
  (forall o', calm o o' -> (P -> forall i, 0 <= i < n_groups f -> sum_zeros (bm d f i) = 0) -> runs (k 0) (mk d o' h f) Q) ->
  (forall o' d' f' r, calm o o' -> takes d f d' f' r -> (P -> blk d' f' r = zeroes EXT4_BLOCK_SIZE) -> runs (k r) (mk d' o' h f') Q) ->
  runs (alloc_loop n g ≫= k) (mk d o h f) Q.
Proof.
  intros HA; revert o; induction n as [| n IH]; intros o HP g Hg0 Hgn HZ H0 H1; cbn [alloc_loop].
  { apply runs_bind, runs_ret, H0; [apply calm_same |]; intros Ho i Hi; apply HZ; [done | lia]. }
  apply runs_bind, runs_alloc_in_group; [done | lia | |].
  - intros o1 r C1 Hr Hd; destruct Hr as [-> | ->].
    + apply runs_unbind, IH; try lia; [by intros Hp; apply C1, HP | | |].
      * intros Hp i Hi; destruct (decide (i = g)) as [-> | Hne]; [by apply Hd, HP | apply HZ; [done | lia]].
      * intros o2 C2 Z2; apply H0; [by eapply calm_trans | done].
      * intros o2 d2 f2 r2 C2 T2 E2; apply H1; [by eapply calm_trans | done..].
    + apply runs_ret, H0; [done | intros Hp; by destruct (Hd (HP Hp))].
  - intros o1 d' f' bit C1 Hbit T; apply runs_get_fs; rewrite (g_bpg _ _ (t_geo _ _ _ _ _ T)), (f_bpg f (a_fs d f HA)).
    pose proof (f_groups f (a_fs d f HA)); rewrite u32_small by lia.
    apply (runs_zero_block _ _ d' o1 h f' d f); [done | done |]; intros o2 d2 C2 T2 E2; apply runs_ret, H1; [by eapply calm_trans | done |].
    intros Hp; by apply E2, C1, HP.
Qed.

Lemma runs_alloc_block {A} (k : Z -> M A) d o h f Q :
  alloc_ok d f ->
  (forall o', calm o o' -> (o = [] -> forall g, 0 <= g < n_groups f -> sum_zeros (bm d f g) = 0) -> runs (k 0) (mk d o' h f) Q) ->
  (forall o' d' f' r, calm o o' -> takes d f d' f' r -> (o = [] -> blk d' f' r = zeroes EXT4_BLOCK_SIZE) -> runs (k r) (mk d' o' h f') Q) ->
  runs (ext4_alloc_block ≫= k) (mk d o h f) Q.
Proof.
  intros A0 H0 H1; apply runs_bind; unfold ext4_alloc_block; apply runs_get_fs, runs_unbind; pose proof (f_groups f (a_fs d f A0)).
  by apply (runs_alloc_loop (o = [])); try done; [lia | intros; lia].
Qed.

(** ** Giving blocks back *)

Lemma clear_bits_ok n : forall bit bm freed, bytes bm -> zlen bm = 4096 -> 0 <= bit ->
  let '(bm', freed') := clear_bits n bit bm freed in
  zlen bm' = 4096 /\ bytes bm' /\ sum_zeros bm' = sum_zeros bm + (freed' - freed) /\ freed <= freed' /\ (freed' = freed -> bm' = bm) /\
  forall i, 0 <= i < 32768 -> bitmap_bit_test bm' i = bitmap_bit_test bm i && negb ((bit <=? i) && (i <? bit + Z.of_nat n)).
Proof.
  induction n as [| n IH]; intros bit bm freed Hy Hl Hb; cbn [clear_bits].
  { split; [done |]; split; [done |]; split; [lia |]; split; [lia |]; split; [done |]; intros i Hi.
    destruct (Z.leb_spec bit i), (Z.ltb_spec i (bit + Z.of_nat 0)); try lia; by rewrite andb_true_r. }
  destruct (Z.leb_spec EXT4_BITS_PER_BITMAP bit) as [Hend | Hin]; change EXT4_BITS_PER_BITMAP with 32768 in *.
  { split; [done |]; split; [done |]; split; [lia |]; split; [lia |]; split; [done |]; intros i Hi.
    destruct (Z.leb_spec bit i); try lia; by rewrite andb_true_r. }
  destruct (bitmap_bit_test bm bit) eqn:Ht.
  - specialize (IH (bit + 1) (bitmap_bit_clear bm bit) (freed + 1) (bytes_bit_clear _ _ Hy Hb) ltac:(by rewrite zlen_bit_clear) ltac:(lia)).
    destruct (clear_bits _ _ _ _) as [bm' freed']; destruct IH as (I1 & I2 & I3 & I4 & _ & I6).
    rewrite count_clear_bit in I3 by (done || lia); split; [done |]; split; [done |]; split; [lia |]; split; [lia |]; split; [lia |].
    intros i Hi; rewrite I6, bit_test_clear by (done || lia).
    destruct (Z.eqb_spec i bit), (Z.leb_spec (bit + 1) i), (Z.leb_spec bit i), (Z.ltb_spec i (bit + 1 + Z.of_nat n)), (Z.ltb_spec i (bit + Z.of_nat (S n)));
      try lia; cbn [negb andb]; by rewrite ?andb_true_r, ?andb_false_r.
  - specialize (IH (bit + 1) bm freed Hy Hl ltac:(lia)); destruct (clear_bits _ _ _ _) as [bm' freed']; destruct IH as (I1 & I2 & I3 & I4 & I5 & I6).
    repeat (split; [done |]); intros i Hi; rewrite I6 by done.
    destruct (Z.eq_dec i bit) as [-> | Hne]; [by rewrite Ht |].
    destruct (Z.leb_spec (bit + 1) i), (Z.leb_spec bit i), (Z.ltb_spec i (bit + 1 + Z.of_nat n)), (Z.ltb_spec i (bit + Z.of_nat (S n))); try lia; done.
Qed.

(** Blocks outside [R] are used as before and hold what they did; blocks of [R]
    may have become free. *)
Record releases d f d' f' (R : Z -> Prop) : Prop := {
  r_ok : alloc_ok d' f';
  r_geo : geo f f';
  r_keeps b : block_of f b -> ~ R b -> used d' f' b = used d f b;
  r_none b : block_of f b -> used d' f' b = true -> used d f b = true;
  r_data : same_but d d' f (fixed_block f)
}.

Lemma releases_refl d f R : alloc_ok d f -> releases d f d f R.
Proof. intros A; split; try done; apply same_refl, A. Qed.

Lemma releases_weaken d f d' f' (R R' : Z -> Prop) : (forall b, R b -> R' b) -> releases d f d' f' R -> releases d f d' f' R'.
Proof. intros E [A G K N D]; split; auto. Qed.

Lemma releases_trans d f d1 f1 d2 f2 R : releases d f d1 f1 R -> releases d1 f1 d2 f2 R -> releases d f d2 f2 R.
Proof.
  intros [A1 G1 K1 N1 D1] [A2 G2 K2 N2 D2]; assert (B : forall b, block_of f b -> block_of f1 b) by (intros b; unfold block_of; by rewrite (g_groups _ _ G1)).
  split; [done | by eapply geo_trans | | by auto |].
  - intros b Hb Hn; rewrite K2 by auto; by apply K1.
  - eapply same_trans; [done |]; apply (same_geo _ _ f f1) in D2; [| done]; eapply same_weaken; [| done]; intros b; by apply fixed_geo.
Qed.

Definition span (a n b : Z) : Prop := a <= b < a + n.

Lemma runs_free_run {A} g off n (k : unit -> M A) d o h f Q :
  alloc_ok d f -> 0 <= g < n_groups f -> 0 <= off -> 0 <= n -> off + n <= 32768 -> (forall b, fixed_block f b -> ~ span (g * 32768 + off) n b) ->
  (forall o' d' f', calm o o' -> releases d f d' f' (span (g * 32768 + off) n) ->
     (o = [] -> forall b, span (g * 32768 + off) n b -> used d' f' b = false) -> runs (k tt) (mk d' o' h f') Q) ->
  runs (free_run g off n ≫= k) (mk d o h f) Q.
Proof.
  intros HA Hg Ho Hn Hon HX HQ; pose proof (f_groups f (a_fs d f HA)) as HG; apply runs_bind; unfold free_run; apply runs_get_fs, runs_load_block; intros o1 C1.
  { intros Hne; apply runs_ret, HQ; [done | by apply releases_refl | done]. }
  fold (bm d f g); set (l := bm d f g); assert (Hl : zlen l = 4096 /\ bytes l) by (split; [apply zlen_blk | apply bytes_blk]; apply HA); destruct Hl as [Hl Hy].
  pose proof (clear_bits_ok (Z.to_nat n) off l 0 Hy Hl Ho) as H; destruct (clear_bits _ _ _ _) as [l' freed]; destruct H as (L1 & L2 & L3 & L4 & L5 & L6); rewrite Z2Nat.id in L6 by done.
  assert (Span : forall b, block_of f b -> b / 32768 = g -> span (g * 32768 + off) n b <-> off <= b mod 32768 < off + n).
  { intros b Hb E; destruct (block_split f b Hb) as (_ & _ & B); unfold span; rewrite E in B; lia. }
  assert (Group : forall b, span (g * 32768 + off) n b -> block_of f b /\ b / 32768 = g).
  { intros b Hb; unfold span in Hb; destruct (block_bit g (b - g * 32768)) as [E _]; [lia |]; replace (g * 32768 + (b - g * 32768)) with b in E by lia; unfold block_of; lia. }
  pose proof (a_counts d f HA g Hg) as HC; fold l in HC; pose proof (sum_zeros_range l' L2) as Hz; pose proof (sum_zeros_range l Hy) as Hz0.
  destruct (Z.eqb_spec freed 0) as [E0 | E0].
  { apply runs_ret, HQ; [done | by apply releases_refl |]; intros _ b Hb; destruct (Group b Hb) as [Hbl Eg]; unfold used; rewrite Eg; fold l.
    destruct (block_split f b Hbl) as (_ & B2 & _); rewrite <- (L5 ltac:(lia)), L6 by done; apply Span in Hb; [| done | done].
    destruct (Z.leb_spec off (b mod 32768)), (Z.ltb_spec (b mod 32768) (off + n)); try lia; apply andb_false_r. }
  apply runs_write_block; intros o2 C2.
  { intros Hne; apply runs_ret, HQ; [by eapply calm_trans | by apply releases_refl | intros ->; by destruct Hne; apply C1]. }
  destruct (bitmap_put d f g l' (u32 (s_free_blocks_count_lo f + freed)) HA Hg L1 L2) as (A' & G & S & U).
  { intros b Hb Eb; destruct (block_split f b (fixed_in d f b HA Hb)) as (_ & B2 & _); rewrite L6 by done.
    pose proof (a_fixed d f HA b Hb) as X; unfold used in X; rewrite Eb in X; fold l in X; rewrite X.
    destruct (Z.leb_spec off (b mod 32768)), (Z.ltb_spec (b mod 32768) (off + n)); try done; destruct (HX b Hb); apply Span; [by apply (fixed_in d f _ HA) | done | lia]. }
  change (s_free_blocks_count_lo (set_bg_free_blocks f g ?x)) with (s_free_blocks_count_lo f).
  rewrite (u16_small freed) by lia; rewrite u16_small by lia; replace (bg_free_blocks_count_lo f g + freed) with (sum_zeros l') by lia.
  fold (with_counts f g (sum_zeros l') (u32 (s_free_blocks_count_lo f + freed))); apply runs_set_fs; set (f' := with_counts f g _ _) in *.
  set (d' := put_blk d f _ _) in *.
  assert (S' : same_but d d' f (fixed_block f)) by (apply (same_weaken _ _ _ _ _ (fun b E => or_intror (or_intror (ex_intro _ g (conj Hg (eq_sym E))))) S)).
  apply runs_unbind, runs_sync; [apply A' | apply A' |]; intros o4 d4 C4 S4; destruct (sync_after d f d' f' HA A' G S' d4 S4) as (A4 & D4 & U4).
  assert (U5 : forall b, block_of f b -> used d4 f' b = if decide (b / 32768 = g) then bitmap_bit_test l' (b mod 32768) else used d f b)
    by (intros b Hb; rewrite U4 by (unfold block_of in *; by rewrite (g_groups _ _ G)); by apply U).
  apply HQ; [repeat (eapply calm_trans; [eassumption |]); apply calm_same | split; try done |].
  - intros b Hb Hnb; rewrite U5 by done; case_decide as Eb; [| done]; destruct (block_split f b Hb) as (_ & B2 & _); rewrite L6 by done; unfold used; rewrite Eb; fold l.
    rewrite Span in Hnb by done; destruct (Z.leb_spec off (b mod 32768)), (Z.ltb_spec (b mod 32768) (off + n)); try lia; apply andb_true_r.
  - intros b Hb; rewrite U5 by done; case_decide as Eb; [| done]; destruct (block_split f b Hb) as (_ & B2 & _); rewrite L6 by done; unfold used; rewrite Eb; fold l.
    by intros [? _]%andb_prop.
  - intros _ b Hb; destruct (Group b Hb) as [Hbl Eg]; rewrite U5, decide_True by done; destruct (block_split f b Hbl) as (_ & B2 & _); rewrite L6 by done.
    apply Span in Hb; [| done | done]; destruct (Z.leb_spec off (b mod 32768)), (Z.ltb_spec (b mod 32768) (off + n)); try lia; apply andb_false_r.
Qed.

(** A run of blocks the file system may give back: of the partition, none of
    them its own. *)
Definition spare f (a n : Z) : Prop := 0 <= a /\ 0 <= n /\ a + n <= 32768 * n_groups f /\ forall b, fixed_block f b -> ~ span a n b.

Lemma spare_geo f f' a n : geo f f' -> spare f a n -> spare f' a n.
Proof.
  intros G (H1 & H2 & H3 & H4); unfold spare; rewrite (g_groups _ _ G); repeat (split; [done |]); intros b Hb; by apply H4, (fixed_geo f f').
Qed.

Lemma runs_free_block {A} b (k : unit -> M A) d o h f Q :
  alloc_ok d f -> spare f b 1 ->
  (forall o' d' f', calm o o' -> releases d f d' f' (span b 1) -> (o = [] -> used d' f' b = false) -> runs (k tt) (mk d' o' h f') Q) ->
  runs (ext4_free_block b ≫= k) (mk d o h f) Q.
Proof.
  intros HA (H1 & _ & H3 & H4) HQ; apply runs_bind; unfold ext4_free_block; apply runs_get_fs.
  destruct (Z.eqb_spec b 0) as [-> | Hb]; [destruct (H4 0); [by left | unfold span; lia] |].
  assert (Hbl : block_of f b) by (unfold block_of; lia); destruct (block_split f b Hbl) as (B1 & B2 & B3); rewrite (f_bpg f (a_fs d f HA)).
  assert (Es : b / 32768 * 32768 + b mod 32768 = b) by lia.
  destruct (Z.leb_spec (n_groups f) (b / 32768)); [lia |]; apply runs_unbind, runs_free_run; rewrite ?Es; try done; try lia.
  intros o' d' f' C R E; apply HQ; [done | done |]; intros Ho; apply E; [done | unfold span; lia].
Qed.

Lemma runs_free_each {A} (P : Prop) n (k : unit -> M A) h Q : forall d o f a, alloc_ok d f -> (P -> o = []) -> spare f a (Z.of_nat n) ->
  (forall o' d' f', calm o o' -> releases d f d' f' (span a (Z.of_nat n)) -> (P -> forall b, span a (Z.of_nat n) b -> used d' f' b = false) -> runs (k tt) (mk d' o' h f') Q) ->
  runs (free_each n a ≫= k) (mk d o h f) Q.
Proof.
  induction n as [| n IH]; intros d o f a HA HP HS HQ; cbn [free_each].
  { apply runs_bind, runs_ret, HQ; [apply calm_same | by apply releases_refl | intros _ b Hb; unfold span in Hb; lia]. }
  pose proof HS as (S1 & _ & S3 & S4); pose proof (f_groups f (a_fs d f HA)); apply runs_bind; rewrite u32_small by lia; apply runs_free_block; [done | |].
  { repeat split; try lia; intros b Hb Hs; apply (S4 b Hb); unfold span in *; lia. }
  intros o1 d1 f1 C1 R1 E1; pose proof (r_geo _ _ _ _ _ R1) as G1; apply runs_unbind, IH; [apply R1 | by intros Hp; apply C1, HP | |].
  { apply (spare_geo f); [done |]; repeat split; try lia; intros b Hb Hs; apply (S4 b Hb); unfold span in *; lia. }
  intros o2 d2 f2 C2 R2 E2; apply HQ; [by eapply calm_trans | |].
  - eapply releases_trans; (eapply releases_weaken; [| eassumption]); unfold span; intros; lia.
  - intros Hp b Hb; destruct (decide (b = a)) as [-> | Hne]; [| apply E2; [done | unfold span in *; lia]].
    assert (B : block_of f1 a) by (unfold block_of; rewrite (g_groups _ _ G1); lia).
    rewrite (r_keeps _ _ _ _ _ R2) by (try done; unfold span; lia); by apply E1, HP.
Qed.

Lemma runs_free_block_range {A} a n (k : unit -> M A) d o h f Q :
  alloc_ok d f -> spare f a n ->
  (forall o' d' f', calm o o' -> releases d f d' f' (span a n) -> (o = [] -> forall b, span a n b -> used d' f' b = false) -> runs (k tt) (mk d' o' h f') Q) ->
  runs (ext4_free_block_range a n ≫= k) (mk d o h f) Q.
Proof.
  intros HA HS HQ; pose proof HS as (S1 & S2 & S3 & S4); pose proof (f_groups f (a_fs d f HA)); apply runs_bind; unfold ext4_free_block_range; apply runs_get_fs.
  destruct (Z.eqb_spec n 0) as [-> | Hn]; [apply runs_ret, HQ; [apply calm_same | by apply releases_refl | intros _ b Hb; unfold span in Hb; lia] |].
  destruct (Z.eqb_spec a 0) as [-> | Ha]; [destruct (S4 0); [by left | unfold span; lia] |]; cbn [orb].
  rewrite (f_bpg f (a_fs d f HA)), u32_small by lia.
  assert (B0 : block_of f a) by (unfold block_of; lia); assert (B1 : block_of f (a + n - 1)) by (unfold block_of; lia).
  destruct (block_split f _ B0) as (D1 & D2 & D3), (block_split f _ B1) as (D4 & D5 & D6).
  destruct (Z.eqb_spec (a / 32768) ((a + n - 1) / 32768)) as [Eg | Eg]; cbn [negb orb].
  - destruct (Z.leb_spec (n_groups f) (a / 32768)); [lia |]; assert (Es : a / 32768 * 32768 + a mod 32768 = a) by lia.
    apply runs_unbind, runs_free_run; rewrite ?Es; try done; lia.
  - apply runs_unbind, (runs_free_each (o = [])); rewrite ?Z2Nat.id by lia; done.
Qed.

(** States that use the same blocks have the same bitmaps and counters. *)
Lemma same_used_bm d f d' f' : alloc_ok d f -> alloc_ok d' f' -> geo f f' -> (forall b, block_of f b -> used d' f' b = used d f b) ->
  forall g, 0 <= g < n_groups f -> bm d' f' g = bm d f g /\ bg_free_blocks_count_lo f' g = bg_free_blocks_count_lo f g.
Proof.
  intros A A' G U g Hg; assert (E : bm d' f' g = bm d f g).
  { apply bitmap_eq; [apply bytes_blk, A' | apply bytes_blk, A | unfold bm; rewrite !zlen_blk by (apply A || apply A'); done |].
    unfold bm at 1; rewrite zlen_blk by apply A'; intros i Hi; rewrite <- !used_bit by lia; apply U; unfold block_of; lia. }
  split; [done |]; rewrite (a_counts d f A g Hg), (a_counts d' f' A'), E by (by rewrite (g_groups _ _ G)); done.
Qed.

Implicit Types (bs : list Z).

(** ** ext4: what calls on a file leave alone

    Blocks a file holds, and calls that may take blocks, give them back and write
    some of those the file holds. *)

(** A block of the partition, in use, not the allocator's own. *)
Definition held d f b : Prop := block_of f b /\ used d f b = true /\ ~ fixed_block f b.

(** ** What a call leaves alone *)

(** The allocator's invariant holds; what was in use still is; and a block that
    was in use, not one of [bs] and not the allocator's own, holds what it did. *)
Record kept d f d' f' bs : Prop := {
  kp_alloc : alloc_ok d' f';
  kp_geo : geo f f';
  kp_used b : block_of f b -> used d f b = true -> used d' f' b = true;
  kp_data b : held d f b -> b ∉ bs -> blk d' f' b = blk d f b
}.

Lemma kept_refl d f bs : alloc_ok d f -> kept d f d f bs.
Proof. intros A; split; [done | apply geo_refl | done | done]. Qed.

Lemma kept_takes d f d' f' r bs : takes d f d' f' r -> fs_ok f -> kept d f d' f' bs.
Proof.
  intros [A G B Fr U [_ D]] F; split; try done.
  - intros b Hb Hu; rewrite U by done; by rewrite Hu, orb_true_r.
  - intros b (Hb & Hu & Hx) _; rewrite (blk_geo _ _ _ _ G); apply D; [by apply (blkno_of f) |]; intros [? | ->]; [done | congruence].
Qed.

Lemma kept_takes_frees d f d1 f1 d2 f2 r bs : takes d f d1 f1 r -> releases d1 f1 d2 f2 (span r 1) -> fs_ok f -> kept d f d2 f2 bs.
Proof.
  intros [A G B Fr U [_ D]] [A2 G2 K2 N2 [_ D2]] F; assert (F1 : fs_ok f1) by apply A; split; [done | by eapply geo_trans | |].
  - intros b Hb Hu; rewrite K2, U, Hu by (try done; first [by unfold block_of in *; rewrite (g_groups _ _ G) | intros Hs; unfold span in Hs; replace b with r in Hu by lia; congruence]); apply orb_true_r.
  - intros b (Hb & Hu & Hx) _; rewrite (blk_geo _ _ _ _ G2), D2, (blk_geo _ _ _ _ G), D; try done; try (by apply (blkno_of f)).
    + intros [? | ->]; [done | congruence].
    + intros X; by apply Hx, (fixed_geo f f1).
Qed.

(** One of the blocks [bs] changed, or written. *)
Lemma kept_same d f d' b bs : alloc_ok d f -> held d f b -> b ∈ bs -> same_but d d' f (eq b) -> kept d f d' f bs.
Proof.
  intros A (Hb & Hu & Hx) Hin S; pose proof (a_fs d f A) as F.
  assert (NB : forall g, 0 <= g < n_groups f -> b <> bg_block_bitmap_lo f g) by (intros g Hg ->; apply Hx; right; right; by exists g).
  split; [by eapply alloc_same | apply geo_refl | |].
  - intros b' Hb' Hu'; by rewrite (used_same d _ f b' (eq b) A S NB Hb').
  - intros b' (Hb' & _ & _) Hn; apply S; [by apply (blkno_of f) | by intros ->].
Qed.

Lemma kept_put d f b l bs : alloc_ok d f -> held d f b -> b ∈ bs -> zlen l = 4096 -> bytes l -> kept d f (put_blk d f b l) f bs /\ blk (put_blk d f b l) f b = l.
Proof.
  intros A H Hin Hl Hy; pose proof (a_fs d f A) as F; pose proof (blkno_of f b F (proj1 H)) as HB.
  split; [apply (kept_same d f _ b); try done; apply same_put; try done; [apply A | apply F] | rewrite blk_put by (try done; try apply A; apply F); by rewrite decide_True].
Qed.

Lemma held_kept d f d' f' bs b : kept d f d' f' bs -> held d f b -> held d' f' b.
Proof.
  intros [A G U S] (H1 & H2 & H3); split; [unfold block_of; by rewrite (g_groups _ _ G) | split; [by apply U |]]; intros X; by apply H3, (fixed_geo f f').
Qed.

Lemma kept_trans d1 f1 d2 f2 d3 f3 bs : kept d1 f1 d2 f2 bs -> kept d2 f2 d3 f3 bs -> kept d1 f1 d3 f3 bs.
Proof.
  intros K1 K2; pose proof (kp_geo _ _ _ _ _ K1) as G1; split; [apply K2 | eapply geo_trans; [exact G1 | apply K2] | |].
  - intros b Hb Hu; apply (kp_used _ _ _ _ _ K2); [unfold block_of; by rewrite (g_groups _ _ G1) | by apply (kp_used _ _ _ _ _ K1)].
  - intros b Hb Hn; rewrite (kp_data _ _ _ _ _ K2), (kp_data _ _ _ _ _ K1); try done; by eapply held_kept.
Qed.

Lemma kept_more d f d' f' bs bs' : kept d f d' f' bs -> (forall b, b ∈ bs -> b ∈ bs') -> kept d f d' f' bs'.
Proof. intros [A G U S] H; split; auto. Qed.

Lemma kept_step d f d1 f1 d2 f2 mt bs : kept d f d1 f1 mt -> kept d1 f1 d2 f2 bs -> (forall b, b ∈ bs -> b ∈ mt \/ used d f b = false) -> kept d f d2 f2 mt.
Proof.
  intros K1 K2 H; pose proof (kp_geo _ _ _ _ _ K1) as G1; split; [apply K2 | eapply geo_trans; [exact G1 | apply K2] | |].
  - intros b Hb Hu; apply (kp_used _ _ _ _ _ K2); [unfold block_of; by rewrite (g_groups _ _ G1) | by apply (kp_used _ _ _ _ _ K1)].
  - intros b Hb Hn; rewrite (kp_data _ _ _ _ _ K2), (kp_data _ _ _ _ _ K1); try done; [by eapply held_kept |]; intros Hin; destruct Hb as (_ & Hu & _); destruct (H b Hin); [done | congruence].
Qed.

Lemma unused_before d f d' f' bs b : kept d f d' f' bs -> block_of f b -> used d' f' b = false -> used d f b = false.
Proof. intros K Hb Hu; destruct (used d f b) eqn:E; [| done]; rewrite (kp_used _ _ _ _ _ K) in Hu; done. Qed.

(** ** A block taken, written or given back *)

Lemma spare_takes d f d' f' r : alloc_ok d f -> takes d f d' f' r -> spare f' r 1.
Proof.
  intros A T; pose proof (takes_not_fixed _ _ _ _ _ A T) as Hx; pose proof T as [_ G B _ _ _]; unfold block_of in B; repeat split; rewrite ?(g_groups _ _ G); try lia.
  intros b Hb Hs; apply (fixed_geo f f') in Hb; [| done]; unfold span in Hs; by replace b with r in Hb by lia.
Qed.

Lemma takes_held d f d' f' r : alloc_ok d f -> takes d f d' f' r -> held d' f' r /\ 0 < r < 2 ^ 32.
Proof.
  intros A T; pose proof (takes_not_fixed _ _ _ _ _ A T) as Hx; pose proof T as [_ G B _ U _]; pose proof (f_groups f (a_fs d f A)); split.
  - split; [unfold block_of; by rewrite (g_groups _ _ G) | split; [rewrite U by done; by rewrite Z.eqb_refl |]]; intros X; by apply Hx, (fixed_geo f f').
  - assert (r <> 0) by (intros ->; apply Hx; by left); unfold block_of in B; lia.
Qed.

Lemma runs_give_back {A} r (k : unit -> M A) d0 f0 d o h f Q :
  alloc_ok d0 f0 -> takes d0 f0 d f r -> (forall o' d' f', calm o o' -> kept d0 f0 d' f' [] -> runs (k tt) (mk d' o' h f') Q) ->
  runs (ext4_free_block r ≫= k) (mk d o h f) Q.
Proof.
  intros A0 T HQ; apply runs_free_block; [apply T | by eapply spare_takes |]; intros o' d' f' C R _; apply HQ; [done |]; eapply kept_takes_frees; [exact T | exact R | apply A0].
Qed.

Lemma runs_write_or_free {A} r l (k : bool -> M A) d0 f0 d o h f Q :
  alloc_ok d0 f0 -> takes d0 f0 d f r -> zlen l = 4096 -> bytes l ->
  (forall o' d' f', calm o o' -> o <> [] -> kept d0 f0 d' f' [] -> runs (k false) (mk d' o' h f') Q) ->
  (forall o' d', calm o o' -> takes d0 f0 d' f r -> blk d' f r = l -> runs (k true) (mk d' o' h f) Q) ->
  runs (write_or_free r l ≫= k) (mk d o h f) Q.
Proof.
  intros A0 T Hl Hy H0 H1; apply runs_bind; unfold write_or_free; apply runs_write_block; intros o1 C1.
  - intros Hn; apply (runs_give_back _ _ d0 f0); [done | done |]; intros o2 d2 f2 C2 K; apply runs_ret, H0; [by eapply calm_trans | done | done].
  - destruct (takes_put d0 f0 d f r l A0 T Hl Hy) as [T' E]; by apply runs_ret, H1.
Qed.

Lemma runs_lift {A B} (a : B) (k : B -> M A) s Q : runs (k a) s Q -> runs (lift (Some a) ≫= k) s Q.
Proof. intros H; by apply runs_bind, runs_ret. Qed.

Lemma held_spare d f b : held d f b -> spare f b 1.
Proof.
  intros (Hb & _ & Hx); unfold block_of in Hb; repeat split; try lia; intros b' Hb' Hs; unfold span in Hs; by replace b' with b in Hb' by lia.
Qed.


(** ** A full disk *)

Definition all_full d f : Prop := forall g, 0 <= g < n_groups f -> sum_zeros (bm d f g) = 0.

(** At most one block of the partition is free. *)
Definition nearly_full d f : Prop := forall b b', block_of f b -> block_of f b' -> used d f b = false -> used d f b' = false -> b = b'.

Lemma all_full_used d f b : alloc_ok d f -> all_full d f -> block_of f b -> used d f b = true.
Proof.
  intros A F Hb; destruct (block_split f b Hb) as (B1 & B2 & B3); specialize (F _ B1); destruct (used d f b) eqn:E; [done |]; unfold used in E.
  assert (Hy : bytes (bm d f (b / 32768))) by apply bytes_blk, A; assert (Hl : zlen (bm d f (b / 32768)) = 4096) by apply zlen_blk, A.
  apply count_set in E; [| done | lia]; pose proof (sum_zeros_range _ (bytes_bit_set _ _ Hy (proj1 B2))); lia.
Qed.

(** No block is free. *)
Definition none_free d f : Prop := forall b, block_of f b -> used d f b = true.

Lemma none_free_kept d f d' f' bs : kept d f d' f' bs -> none_free d f -> none_free d' f'.
Proof.
  intros K H b Hb; assert (Hb' : block_of f b) by (unfold block_of in *; by rewrite <- (g_groups _ _ (kp_geo _ _ _ _ _ K))); apply (kp_used _ _ _ _ _ K); auto.
Qed.

(** A full disk that gives one block back has that one. *)
Lemma nearly_full_frees d f d' f' r : alloc_ok d f -> none_free d f -> releases d f d' f' (span r 1) -> nearly_full d' f'.
Proof.
  intros A F [A' G K N _]; assert (R : forall b, block_of f' b -> used d' f' b = false -> b = r).
  { intros b Hb Hu; assert (Hb' : block_of f b) by (unfold block_of in *; by rewrite (g_groups _ _ G) in Hb); destruct (decide (b = r)) as [| Hne]; [done |].
    rewrite K, (F b Hb') in Hu by (try done; unfold span; lia); done. }
  intros b b' Hb Hb' Hu Hu'; by rewrite (R b), (R b').
Qed.

Lemma nearly_full_full d f : alloc_ok d f -> all_full d f -> nearly_full d f.
Proof. intros A F b b' Hb _ Hu; by rewrite (all_full_used d f b A F) in Hu. Qed.

Implicit Types (inode : list Z) (ino : Z).

(** ** ext4: inodes on the disk

    The inode an index stands for, its update in place, and the reading of a
    block of a file whose blocks the inode names itself. *)

(** ** Where an inode is *)

(** Byte offset, sector and block of the partition. *)
Definition inode_offset f ino : Z := bg_inode_table_lo f 0 * EXT4_BLOCK_SIZE + (ino - 1) * inode_size f.
Definition inode_sector f ino : Z := part_start_lba f + inode_offset f ino / 512.
Definition table_block f ino : Z := inode_offset f ino / EXT4_BLOCK_SIZE.

(** An index of the table, and an inode that lies within one sector of a block
    that is in use and not the allocator's own. *)
Record ino_ok d f ino : Prop := {
  i_good : bad_ino f ino = false;
  i_size : 128 <= inode_size f <= EXT4_BLOCK_SIZE /\ inode_size f mod 128 = 0;
  i_pos : 1 <= ino <= s_inodes_count f;
  i_block_of : block_of f (table_block f ino);
  i_used : used d f (table_block f ino) = true;
  i_fixed : ~ fixed_block f (table_block f ino)
}.

Lemma inode_offset_geo f f' ino : geo f f' -> 1 <= n_groups f -> inode_offset f' ino = inode_offset f ino.
Proof. intros G Hn; unfold inode_offset; by rewrite (g_isize _ _ G), (g_tables _ _ G) by lia. Qed.

Lemma inode_pos_eq d f ino : fs_ok f -> ino_ok d f ino -> inode_pos f ino = (inode_sector f ino, inode_offset f ino mod 512) /\ 0 <= inode_offset f ino < 2 ^ 40.
Proof.
  intros F [_ _ H1 H2 _ _]; pose proof (f_part f F); pose proof (f_groups f F); unfold part_ok, block_of, table_block, EXT4_BLOCK_SIZE in *.
  pose proof (Z.div_mod (inode_offset f ino) 4096 ltac:(lia)); pose proof (Z.mod_pos_bound (inode_offset f ino) 4096 ltac:(lia)).
  assert (R : 0 <= inode_offset f ino < 2 ^ 40) by lia; split; [| done]; unfold inode_pos; fold (inode_offset f ino); unfold inode_sector; f_equal.
  apply u64_small; pose proof (Z.div_pos (inode_offset f ino) 512 ltac:(lia) ltac:(lia)); pose proof (Z.div_le_upper_bound (inode_offset f ino) 512 (2 ^ 40) ltac:(lia) ltac:(lia)); lia.
Qed.

(** The inode does not cross the end of its sector. *)
Lemma inode_fits d f ino : fs_ok f -> ino_ok d f ino -> 0 <= inode_offset f ino mod 512 /\ inode_offset f ino mod 512 + 128 <= 512.
Proof.
  intros F H; pose proof (i_size _ _ _ H) as [_ Hm]; apply Z.mod_divide in Hm as [k Hk]; [| lia]; pose proof (Z.mod_pos_bound (inode_offset f ino) 512 ltac:(lia)).
  split; [lia |]; assert (E : inode_offset f ino = 128 * (bg_inode_table_lo f 0 * 32 + (ino - 1) * k)) by (unfold inode_offset, EXT4_BLOCK_SIZE; lia).
  rewrite E; change 512 with (128 * 4) at 1; rewrite Z.mul_mod_distr_l by lia; pose proof (Z.mod_pos_bound (bg_inode_table_lo f 0 * 32 + (ino - 1) * k) 4 ltac:(lia)); lia.
Qed.

Lemma inode_in_block d f ino : fs_ok f -> ino_ok d f ino ->
  block_sector f (table_block f ino) <= inode_sector f ino < block_sector f (table_block f ino) + 8.
Proof.
  intros F H; destruct (inode_pos_eq d f ino F H) as [_ R]; rewrite block_sector_eq by (try apply F; apply (blkno_of f _ F), H); unfold inode_sector, table_block, EXT4_BLOCK_SIZE.
  change 4096 with (512 * 8); rewrite <- Z.div_div by lia; pose proof (Z.div_mod (inode_offset f ino / 512) 8 ltac:(lia)); pose proof (Z.mod_pos_bound (inode_offset f ino / 512) 8 ltac:(lia)); lia.
Qed.

(** ** A sector of a block *)

Lemma sector_of_blk d f b x : dev_ok d -> block_sector f b <= x < block_sector f b + 8 -> d x = slice (blk d f b) (512 * (x - block_sector f b)) 512.
Proof.
  intros Hd Hx; pose proof (zlen_blk d f b Hd) as Hl; apply (znth_ext 0); [rewrite zlen_slice, (proj1 (Hd x)) by lia; done |].
  rewrite (proj1 (Hd x)); intros i Hi; rewrite znth_slice by lia; unfold blk; rewrite znth_read_sectors by (done || lia).
  set (k := x - block_sector f b); replace ((512 * k + i) / 512) with k by (rewrite (Z.mul_comm 512), Z.div_add_l, (Z.div_small i) by lia; lia).
  replace ((512 * k + i) mod 512) with i by (rewrite Z.add_comm, (Z.mul_comm 512), Z.mod_add, Z.mod_small by lia; done); do 2 f_equal; lia.
Qed.

Lemma sector_same d d' f b x : dev_ok d -> dev_ok d' -> blk d' f b = blk d f b -> block_sector f b <= x < block_sector f b + 8 -> d' x = d x.
Proof. intros Hd Hd' E Hx; rewrite (sector_of_blk d f b x), (sector_of_blk d' f b x), E by done; done. Qed.

Lemma write_one_same d f b x l : dev_ok d -> part_ok f -> blkno b -> zlen l = 512 -> bytes l -> block_sector f b <= x < block_sector f b + 8 ->
  same_but d (write_sectors d x 1 l) f (eq b) /\ write_sectors d x 1 l x = l.
Proof.
  intros Hd Hp Hb Hl Hy Hx; split.
  - split; [apply dev_ok_write; [done | lia | done] |]; intros b' Hb' Hn; apply read_write_disjoint; rewrite !block_sector_eq in * by done; lia.
  - rewrite write_sectors_in by lia; replace (512 * (x - x)) with 0 by lia; unfold slice; rewrite drop_0, take_ge by (unfold zlen in Hl; lia); done.
Qed.

(** ** Reading and updating an inode *)

Definition inode_at d f ino : list Z := slice (d (inode_sector f ino)) (inode_offset f ino mod 512) INODE_BYTES.

Lemma inode_sector_geo f f' ino : geo f f' -> 1 <= n_groups f -> inode_sector f' ino = inode_sector f ino.
Proof. intros G Hn; unfold inode_sector; by rewrite (g_part _ _ G), (inode_offset_geo f f'). Qed.

Lemma inode_at_geo d f f' ino : geo f f' -> 1 <= n_groups f -> inode_at d f' ino = inode_at d f ino.
Proof. intros G Hn; unfold inode_at; by rewrite (inode_sector_geo f f'), (inode_offset_geo f f'). Qed.

Lemma table_block_geo f f' ino : geo f f' -> 1 <= n_groups f -> table_block f' ino = table_block f ino.
Proof. intros G Hn; unfold table_block; by rewrite (inode_offset_geo f f'). Qed.

Lemma fixed_geo' f f' b : geo f f' -> fixed_block f b -> fixed_block f' b.
Proof.
  intros G [-> | [-> | (g & Hg & ->)]]; [by left | by right; left |]; right; right; exists g; rewrite (g_groups _ _ G); by rewrite (g_bitmaps _ _ G).
Qed.

Lemma ino_ok_geo d f d' f' ino : geo f f' -> 1 <= n_groups f -> ino_ok d f ino -> used d' f' (table_block f ino) = true -> ino_ok d' f' ino.
Proof.
  intros G Hn [H1 H2 H3 H4 H5 H6] Hu; split; rewrite ?(table_block_geo f f'), ?(g_isize _ _ G), ?(g_inodes _ _ G) by done; try done.
  - unfold bad_ino; by rewrite (g_inodes _ _ G).
  - unfold block_of; by rewrite (g_groups _ _ G).
  - intros X; by apply H6, (fixed_geo f f').
Qed.

Lemma inode_at_same d d' f ino P : fs_ok f -> dev_ok d -> ino_ok d f ino -> same_but d d' f P -> ~ P (table_block f ino) -> inode_at d' f ino = inode_at d f ino.
Proof.
  intros F Hd H [Hd' S] Hn; unfold inode_at; f_equal; apply (sector_same d d' f (table_block f ino)); try done; [| by apply (inode_in_block d)].
  apply S; [by apply (blkno_of f), H | done].
Qed.

Lemma zlen_inode_at d f ino : fs_ok f -> dev_ok d -> ino_ok d f ino -> zlen (inode_at d f ino) = 128.
Proof. intros F Hd H; pose proof (inode_fits d f ino F H); unfold inode_at; apply zlen_slice; unfold INODE_BYTES; rewrite ?(proj1 (Hd _)); lia. Qed.

Lemma runs_get_inode {A} ino (k : option (list Z) -> M A) d o h f Q :
  fs_ok f -> ino_ok d f ino ->
  (forall o', calm o o' -> o <> [] -> runs (k None) (mk d o' h f) Q) ->
  (forall o', calm o o' -> runs (k (Some (inode_at d f ino))) (mk d o' h f) Q) -> runs (get_inode_struct ino ≫= k) (mk d o h f) Q.
Proof.
  intros F H H1 H2; destruct (inode_pos_eq d f ino F H) as [E _]; apply runs_bind; unfold get_inode_struct; apply runs_get_fs; rewrite (i_good _ _ _ H), E.
  apply runs_kmalloc; intros o1 [|] C1 Hb; cbn [negb]; [| apply runs_ret, H1; [done | intros Ho; by specialize (Hb Ho)]].
  apply runs_bread; intros o2 C2; [intros Hn; apply runs_ret, H1; [by eapply calm_trans | by intros ->; apply Hn, C1] |].
  apply runs_ret; cbn [fmap option_fmap option_map]; rewrite read_sectors_cons, read_sectors_nil, app_nil_r by lia; apply H2; by eapply calm_trans.
Qed.

Lemma runs_update_inode {A} ino inode (k : bool -> M A) d o h f Q :
  fs_ok f -> dev_ok d -> ino_ok d f ino -> zlen inode = 128 -> bytes inode ->
  (forall o', calm o o' -> o <> [] -> runs (k false) (mk d o' h f) Q) ->
  (forall o' d', calm o o' -> same_but d d' f (eq (table_block f ino)) -> inode_at d' f ino = inode -> runs (k true) (mk d' o' h f) Q) ->
  runs (ext4_update_inode ino inode ≫= k) (mk d o h f) Q.
Proof.
  intros F Hd H Hl Hy H1 H2; destruct (inode_pos_eq d f ino F H) as [E _]; pose proof (inode_fits d f ino F H) as [X1 X2]; apply runs_bind; unfold ext4_update_inode; apply runs_get_fs; rewrite (i_good _ _ _ H), E.
  apply runs_kmalloc; intros o1 [|] C1 Hb; cbn [negb]; [| apply runs_ret, H1; [done | intros Ho; by specialize (Hb Ho)]].
  apply runs_bread; intros o2 C2; [intros Hn; apply runs_ret, H1; [by eapply calm_trans | by intros ->; apply Hn, C1] |].
  rewrite read_sectors_cons, read_sectors_nil, app_nil_r by lia; set (x := inode_sector f ino); set (l := splice (d x) (inode_offset f ino mod 512) inode).
  assert (Hz : zlen l = 512) by (unfold l; rewrite zlen_splice; rewrite ?(proj1 (Hd x)); lia).
  destruct (write_one_same d f (table_block f ino) x l) as [S W]; [done | apply F | apply (blkno_of f), H; done | done | apply splice_ok; [apply Hd | done] | by apply (inode_in_block d) |].
  apply runs_unbind, runs_bwrite; intros o3 C3.
  - intros Hn; apply H1; [repeat (eapply calm_trans; [eassumption |]); apply calm_same | by intros ->; apply Hn, C2, C1].
  - apply H2; [repeat (eapply calm_trans; [eassumption |]); apply calm_same | done |].
    unfold inode_at; fold x; rewrite W; apply (znth_ext 0); [rewrite zlen_slice by (unfold INODE_BYTES; lia); done |]; intros i Hi; rewrite zlen_slice in Hi by (unfold INODE_BYTES; lia); unfold INODE_BYTES in *.
    rewrite znth_slice by lia; unfold l; apply znth_splice_in; rewrite ?(proj1 (Hd x)); lia.
Qed.
