(* ===== verification/SmallDisk.v ===== *)
(** * A small ext4 image: one group, two hundred blocks, a root directory with one file *)
From Stdlib Require Import ZArith Lia String.
From stdpp Require Import base numbers list.
From S2P Require Import Prelude Bytes CString ProcTab VfsPath Gpt Ext4Disk Ext4Map Ext4Alloc Ext4Dir Ext4Ops.
From S2P Require Import Ext4Proofs Ext4AllocProofs.

(** 200 blocks and 100 inodes, 130 and 89 of them free. *)
Definition demo_sb : list Z :=
  splice (splice (splice (splice (zeroes 1024) 0 (bytes32 100 ++ bytes32 200)) 12 (bytes32 130 ++ bytes32 89 ++ bytes32 0 ++ bytes32 2)) 32 (bytes32 32768)) 56 (bytes16 EXT4_MAGIC).
Definition demo_bgs : list Z := bytes32 2 ++ bytes32 3 ++ bytes32 4 ++ bytes16 130 ++ bytes16 89 ++ zeroes 16.
Definition demo_fs : ext4_fs :=
  {| part_start_lba := 0; inode_size := 128; read_only := false; n_groups := 1; blocks_per_group := 32768; sb := demo_sb; bgs := demo_bgs |}.

(** The entries of the root directory, [a] being inode 11; the file. *)
Definition demo_root_block : list Z := default [] (fill_slot (dot_block 2 2) 12 11 EXT4_FT_REG_FILE [97]).
Definition demo_file : list Z := set_i_size_lo (set_i_block file_inode 0 69) 5.

Definition demo_block (b : Z) : list Z :=
  if b =? 0 then splice (zeroes 4096) 1024 demo_sb
  else if b =? 1 then splice (zeroes 4096) 0 demo_bgs
  else if b =? 2 then splice (splice (replicate 4096 255) 8 (zeroes 17)) 8 [63]
  else if b =? 3 then splice (zeroes 4096) 0 [255; 7]
  else if b =? 4 then splice (splice (zeroes 4096) 128 (dir_inode 68)) 1280 demo_file
  else if b =? 68 then demo_root_block
  else if b =? 69 then splice (zeroes 4096) 0 (lit "hello")
  else zeroes 4096.
Definition demo_dev (x : Z) : list Z := slice (demo_block (x / 8)) (512 * (x mod 8)) 512.
Definition demo : disk := {| dev := demo_dev; oracle := []; heap := []; fs := demo_fs |}.

Definition result {A} (m : M A) (s : disk) : option A := snd <$> m s.
Definition after {A} (m : M A) (s : disk) : disk := match m s with Some (s, _) => s | None => s end.

(** ** The invariant holds of it *)

Lemma bytes_forallb l : forallb (fun c => (0 <=? c) && (c <? 256)) l = true -> bytes l.
Proof. intros H; apply Forall_forall; intros c Hc; rewrite forallb_forall in H; apply list_elem_of_In in Hc; apply H in Hc; lia. Qed.

Lemma demo_block_ok b : zlen (demo_block b) = 4096 /\ bytes (demo_block b).
Proof. unfold demo_block; repeat case_match; (split; [vm_compute; reflexivity | apply bytes_forallb; vm_compute; reflexivity]). Qed.

Lemma demo_dev_ok : dev_ok demo_dev.
Proof.
  intros x; destruct (demo_block_ok (x / 8)) as [L B]; pose proof (Z.mod_pos_bound x 8); unfold demo_dev; split; [apply zlen_slice; lia | by apply bytes_slice].
Qed.

Lemma demo_groups g : 0 <= g < n_groups demo_fs -> g = 0.
Proof. change (n_groups demo_fs) with 1; lia. Qed.

Lemma demo_alloc_ok : alloc_ok demo_dev demo_fs.
Proof.
  split; [split; [split | apply demo_dev_ok | ..] | ..].
  - vm_compute; split; [discriminate | reflexivity].
  - reflexivity.
  - vm_compute; split; discriminate.
  - split; [reflexivity | apply bytes_forallb; vm_compute; reflexivity].
  - split; [reflexivity | apply bytes_forallb; vm_compute; reflexivity].
  - intros g ->%demo_groups; unfold block_of; vm_compute; repeat split; discriminate.
  - intros g g' ->%demo_groups ->%demo_groups _; reflexivity.
  - intros b [-> | [-> | (g & ->%demo_groups & ->)]]; vm_compute; reflexivity.
  - intros g ->%demo_groups; vm_compute; reflexivity.
Qed.

Lemma result_after {A} (m : M A) s a : result m s = Some a -> m s = Some (after m s, a).
Proof. unfold result, after; destruct (m s) as [[s' a'] |]; [by intros [= ->] | done]. Qed.
