(* ===== verification/Ext4AllocTheorems.v ===== *)
(** * ext4: allocation of blocks, theorems *)
From Stdlib Require Import ZArith Lia.
From stdpp Require Import base numbers list relations.
From S2P Require Import Prelude Bytes CString Gpt Ext4Disk Ext4Map Ext4Alloc Ext4Proofs Ext4AllocProofs Ext4Blocks SmallDisk.

Implicit Types (d : Z -> list Z) (f : ext4_fs) (o : list bool) (h : list Z) (g b : Z) (s : disk) (held : list Z).

(** A client of the allocator and the blocks it holds: it takes blocks, writes the
    ones it has and gives runs of them back. *)
Inductive client : disk * list Z -> disk * list Z -> Prop :=
| client_takes s s' r held : ext4_alloc_block s = Some (s', r) -> client (s, held) (s', if r =? 0 then held else r :: held)
| client_writes s s' b l ok held : b ∈ held -> zlen l = EXT4_BLOCK_SIZE -> bytes l -> ext4_write_block b l s = Some (s', ok) -> client (s, held) (s', held)
| client_frees s s' a n held :
    0 <= n -> (forall b, span a n b -> b ∈ held) -> ext4_free_block_range a n s = Some (s', tt) ->
    client (s, held) (s', filter (fun b => negb ((a <=? b) && (b <? a + n))) held).

Definition ok_state s : Prop := alloc_ok (dev s) (fs s).

(** What holds of the state [s0] the client began in, of a later one and of the
    blocks it then has. *)
Record holds s0 s held : Prop := {
  h_ok : ok_state s;
  h_geo : geo (fs s0) (fs s);
  h_nodup : NoDup held;
  h_held b : b ∈ held -> block_of (fs s0) b /\ used (dev s0) (fs s0) b = false /\ used (dev s) (fs s) b = true;
  h_old b : block_of (fs s0) b -> used (dev s0) (fs s0) b = true ->
    used (dev s) (fs s) b = true /\ (~ fixed_block (fs s0) b -> blk (dev s) (fs s) b = blk (dev s0) (fs s0) b)
}.

Lemma runs_inv {A} (m : M A) s Q s' a : runs m s Q -> m s = Some (s', a) -> Q s' a.
Proof. by intros (s1 & a1 & E & HQ) E'; rewrite E in E'; injection E' as <- <-. Qed.

Lemma block_alloc_spec s : ok_state s ->
  runs ext4_alloc_block s (fun s' r => r = 0 /\ dev s' = dev s /\ fs s' = fs s \/ r <> 0 /\ takes (dev s) (fs s) (dev s') (fs s') r).
Proof.
  destruct s as [d o h f]; intros HA; apply runs_tail, runs_alloc_block; [done | |].
  - intros o' _ _; apply runs_ret; by left.
  - intros o' d' f' r _ T _; apply runs_ret; right; split; [| done]; intros ->; destruct (takes_not_fixed _ _ _ _ _ HA T); by left.
Qed.

Lemma free_spec s a n : ok_state s -> spare (fs s) a n ->
  runs (ext4_free_block_range a n) s (fun s' _ => releases (dev s) (fs s) (dev s') (fs s') (span a n)).
Proof. destruct s as [d o h f]; intros HA HS; apply runs_tail, runs_free_block_range; [done | done |]; intros o' d' f' _ R _; by apply runs_ret. Qed.

Lemma write_spec s b l : runs (ext4_write_block b l) s (fun s' ok => s' = mk (if ok : bool then put_blk (dev s) (fs s) b l else dev s) (oracle s') (heap s) (fs s)).
Proof. destruct s as [d o h f]; apply runs_tail, runs_write_block; intros o' _; [intros _ |]; by apply runs_ret. Qed.

Section step.
Context (s0 : disk) (A0 : ok_state s0).

Lemma held_block s held b : holds s0 s held -> b ∈ held -> blkno b /\ ~ fixed_block (fs s0) b.
Proof.
  intros H Hb; destruct (h_held _ _ _ H b Hb) as (B & F & _); split; [by apply (blkno_of (fs s0)); [apply A0 |] |].
  intros Hx; apply (a_fixed _ _ A0) in Hx; congruence.
Qed.

Lemma take_keeps s held s' r : holds s0 s held -> takes (dev s) (fs s) (dev s') (fs s') r -> holds s0 s' (r :: held).
Proof.
  intros H T; pose proof H as [A G N HH HO]; pose proof T as [A' G' B F U [_ D]]; assert (BB : forall b, block_of (fs s0) b <-> block_of (fs s) b) by (intros b; unfold block_of; by rewrite (g_groups _ _ G)).
  split; [done | by eapply geo_trans | | |].
  - apply NoDup_cons; split; [| done]; intros Hr; destruct (HH r Hr) as (_ & _ & E); congruence.
  - intros b [-> | Hb]%elem_of_cons; [| destruct (HH b Hb) as (B1 & B2 & B3); split; [done |]; split; [done |]; rewrite U, B3 by (by apply BB); apply orb_true_r].
    split; [by apply BB |]; split; [| rewrite U by done; by rewrite Z.eqb_refl].
    destruct (used (dev s0) (fs s0) r) eqn:E; [| done]; destruct (HO r ltac:(by apply BB) E); congruence.
  - intros b Hb Hu; destruct (HO b Hb Hu) as [O1 O2]; split; [rewrite U, O1 by (by apply BB); apply orb_true_r |]; intros Hx; rewrite <- (O2 Hx), (blk_geo _ _ _ _ G').
    apply D; [by apply (blkno_of (fs s0)); [apply A0 |] |]; intros [Hf | ->]; [| congruence]; by apply Hx, (fixed_geo (fs s0) (fs s)).
Qed.

Lemma write_keeps s held b l : holds s0 s held -> b ∈ held -> zlen l = EXT4_BLOCK_SIZE -> bytes l ->
  forall o, holds s0 (mk (put_blk (dev s) (fs s) b l) o (heap s) (fs s)) held.
Proof.
  intros H Hb Hl Hy o; pose proof H as [A G N HH HO]; destruct (held_block s held b H Hb) as [Bn Bx].
  assert (Bx' : ~ fixed_block (fs s) b) by (intros X; by apply Bx, (fixed_geo (fs s0) (fs s))).
  assert (S : same_but (dev s) (put_blk (dev s) (fs s) b l) (fs s) (eq b)) by (apply same_put; try done; apply A).
  assert (NB : forall g, 0 <= g < n_groups (fs s) -> b <> bg_block_bitmap_lo (fs s) g) by (intros g Hg ->; apply Bx'; right; right; by exists g).
  assert (U : forall x, block_of (fs s0) x -> used (put_blk (dev s) (fs s) b l) (fs s) x = used (dev s) (fs s) x)
    by (intros x Hx; eapply (used_same _ _ _ _ _ A S NB); unfold block_of in *; by rewrite (g_groups _ _ G)).
  split; cbn [dev fs]; [by eapply alloc_same | done | done | |].
  - intros x Hx; rewrite U by (by apply HH); by apply HH.
  - intros x Hx Hu; rewrite U by done; destruct (HO x Hx Hu) as [O1 O2]; split; [done |]; intros Hf; rewrite <- (O2 Hf).
    apply S; [by apply (blkno_of (fs s0)); [apply A0 |] |]; intros ->; destruct (HH x Hb) as (_ & E & _); congruence.
Qed.

Lemma free_keeps s held s' a n : holds s0 s held -> (forall b, span a n b -> b ∈ held) ->
  releases (dev s) (fs s) (dev s') (fs s') (span a n) -> holds s0 s' (filter (fun b => negb ((a <=? b) && (b <? a + n))) held).
Proof.
  intros H HS R; pose proof H as [A G N HH HO]; pose proof R as [A' G' K NN [_ D]].
  assert (BB : forall b, block_of (fs s0) b <-> block_of (fs s) b) by (intros b; unfold block_of; by rewrite (g_groups _ _ G)).
  split; [done | by eapply geo_trans | by apply NoDup_filter | |].
  - intros b [Hb Hin]%list_elem_of_filter; destruct (HH b Hin) as (B1 & B2 & B3); split; [done |]; split; [done |]; rewrite K; [done | by apply BB |].
    unfold span; destruct (Z.leb_spec a b), (Z.ltb_spec b (a + n)); try done; lia.
  - intros b Hb Hu; destruct (HO b Hb Hu) as [O1 O2]; split.
    + rewrite K; [done | by apply BB |]; intros Hs; destruct (HH b (HS b Hs)) as (_ & E & _); congruence.
    + intros Hf; rewrite <- (O2 Hf), (blk_geo _ _ _ _ G'); apply D; [by apply (blkno_of (fs s0)); [apply A0 |] |]; intros X; by apply Hf, (fixed_geo (fs s0) (fs s)).
Qed.

Lemma spare_held s held a n : holds s0 s held -> 0 <= n -> (forall b, span a n b -> b ∈ held) -> n = 0 \/ spare (fs s) a n.
Proof.
  intros H Hn HS; destruct (decide (n = 0)) as [| Hne]; [by left | right].
  assert (B : forall b, span a n b -> block_of (fs s) b) by (intros b Hb; unfold block_of; rewrite (g_groups _ _ (h_geo _ _ _ H)); by apply (h_held _ _ _ H), HS).
  pose proof (B a ltac:(unfold span; lia)) as B1; pose proof (B (a + n - 1) ltac:(unfold span; lia)) as B2; unfold block_of in *.
  repeat split; try lia; intros b Hx Hs; destruct (held_block s held b H (HS b Hs)) as [_ X]; by apply X, (fixed_geo (fs s0) (fs s)), Hx; apply H.
Qed.

Lemma client_keeps s held s' held' : client (s, held) (s', held') -> holds s0 s held -> holds s0 s' held'.
Proof.
  intros C H; inversion C as [? ? r ? E | ? ? b l ok ? Hb Hl Hy E | ? ? a n ? Hn Hs E]; subst; clear C.
  - apply (runs_inv _ _ _ _ _ (block_alloc_spec s (h_ok _ _ _ H))) in E; destruct E as [(-> & Ed & Ef) | [Hr T]].
    + destruct H; split; unfold ok_state in *; rewrite ?Ed, ?Ef; done.
    + destruct (Z.eqb_spec r 0); [done |]; by apply (take_keeps s).
  - apply (runs_inv _ _ _ _ _ (write_spec s b l)) in E; rewrite E; destruct ok; [by apply write_keeps | by destruct H].
  - destruct (spare_held s held a n H Hn Hs) as [-> | HS].
    + unfold ext4_free_block_range in E; cbn in E; injection E as <-; replace (filter _ held) with held; [done |].
      clear; induction held as [| b l IH]; [done |]; rewrite filter_cons; destruct (decide _) as [| Hn]; [by f_equal |].
      destruct Hn; destruct (Z.leb_spec a b), (Z.ltb_spec b (a + 0)); try done; lia.
    + apply (runs_inv _ _ _ _ _ (free_spec s a n (h_ok _ _ _ H) HS)) in E; by apply (free_keeps s).
Qed.

Lemma holds_start : holds s0 s0 [].
Proof. split; try done; [constructor | by intros b ?%not_elem_of_nil]. Qed.

Lemma clients_keep s held : rtc client (s0, []) (s, held) -> holds s0 s held.
Proof.
  intros H; remember (s, held) as y eqn:Ey; revert s held Ey; pattern y; eapply rtc_ind_r; [| | exact H].
  - by intros s held [= <- <-]; apply holds_start.
  - intros [s1 held1] z _ C IH s held ->; by eapply client_keeps, IH.
Qed.
End step.

(** ** Properties *)

(** C8: Blocks are handed out once. However a client of the allocator has taken
    blocks, written them and given runs of them back, and whichever transfers and
    allocations failed on the way: the blocks it holds are different blocks of
    the partition, free when it began and marked used now; a block that was in
    use before is still marked used and, bitmaps and counters apart, holds what it
    did; every group's counter is the number of clear bits in its bitmap; and the
    next request comes back, with a block unless every group is full or a
    transfer failed. *)
Theorem blocks_handed_out_once s0 s held :
  ok_state s0 -> rtc client (s0, []) (s, held) ->
  holds s0 s held /\
  exists s' r, ext4_alloc_block s = Some (s', r) /\ (r <> 0 -> r ∉ held) /\
    (r = 0 -> oracle s = [] -> forall g, 0 <= g < n_groups (fs s) -> bg_free_blocks_count_lo (fs s) g = 0).
Proof.
  intros A0 HC; pose proof (clients_keep s0 A0 s held HC) as H; split; [done |]; pose proof (h_ok _ _ _ H) as A; destruct s as [d o h f].
  assert (R : runs ext4_alloc_block (mk d o h f) (fun _ r => (r <> 0 -> r ∉ held) /\ (r = 0 -> o = [] -> forall g, 0 <= g < n_groups f -> bg_free_blocks_count_lo f g = 0))).
  { apply runs_tail, runs_alloc_block; [done | intros o' _ Z; apply runs_ret; split; [done |] | intros o' d' f' r _ T _; apply runs_ret; split].
    - intros _ Ho g Hg; rewrite (a_counts d f A g Hg); by apply Z.
    - intros _ Hin; destruct (h_held _ _ _ H r Hin) as (_ & _ & E); pose proof (t_free _ _ _ _ _ T) as T'; cbn in E; congruence.
    - intros ->; destruct (takes_not_fixed _ _ _ _ _ A T); by left. }
  destruct R as (s' & r & E & Q); by exists s', r.
Qed.

(** Two blocks taken, one written, one given back. *)
Definition demo_block_1 : list Z := replicate 4096 7.
Definition demo_1 : disk := after ext4_alloc_block demo.
Definition demo_2 : disk := after ext4_alloc_block demo_1.
Definition demo_3 : disk := after (ext4_write_block 70 demo_block_1) demo_2.
Definition demo_4 : disk := after (ext4_free_block_range 71 1) demo_3.

Lemma blocks_handed_out_once_witness :
  rtc client (demo, []) (demo_4, [70]) /\ holds demo demo_4 [70] /\
  exists s' r, ext4_alloc_block demo_4 = Some (s', r) /\ (r <> 0 -> r ∉ [70]) /\
    (r = 0 -> oracle demo_4 = [] -> forall g, 0 <= g < n_groups (fs demo_4) -> bg_free_blocks_count_lo (fs demo_4) g = 0).
Proof.
  assert (C : rtc client (demo, []) (demo_4, [70])).
  { apply (rtc_l _ _ (demo_1, [70])); [refine (client_takes demo demo_1 70 [] (result_after ext4_alloc_block demo 70 _)); vm_compute; reflexivity |].
    apply (rtc_l _ _ (demo_2, [71; 70])); [refine (client_takes demo_1 demo_2 71 [70] (result_after ext4_alloc_block demo_1 71 _)); vm_compute; reflexivity |].
    apply (rtc_l _ _ (demo_3, [71; 70])).
    { apply (client_writes demo_2 demo_3 70 demo_block_1 true); [by right; left | reflexivity | apply bytes_forallb; vm_compute; reflexivity | refine (result_after (ext4_write_block 70 demo_block_1) demo_2 true _); vm_compute; reflexivity]. }
    apply rtc_once; apply (client_frees demo_3 demo_4 71 1 [71; 70]); [lia | intros b Hb; replace b with 71 by (unfold span in Hb; lia); by left | refine (result_after (ext4_free_block_range 71 1) demo_3 tt _); vm_compute; reflexivity]. }
  split; [exact C |]; exact (blocks_handed_out_once demo demo_4 [70] demo_alloc_ok C).
Defined.

(** A block taken and given back. When no transfer and no allocation fails
    and some group counts a free block, [ext4_alloc_block] returns the number of a
    block that was free, marks this one and no other, zeroes it and leaves the
    other blocks as they were, bitmaps and counters apart; giving it back with
    [ext4_free_block_range] restores every bitmap and every group's counter. *)
Theorem block_taken_and_given_back s g :
  ok_state s -> oracle s = [] -> 0 <= g < n_groups (fs s) -> bg_free_blocks_count_lo (fs s) g <> 0 ->
  exists s1 r s2, ext4_alloc_block s = Some (s1, r) /\ ext4_free_block_range r 1 s1 = Some (s2, tt) /\
    takes (dev s) (fs s) (dev s1) (fs s1) r /\ blk (dev s1) (fs s1) r = zeroes EXT4_BLOCK_SIZE /\
    ok_state s2 /\ same_but (dev s) (dev s2) (fs s) (fun b => fixed_block (fs s) b \/ b = r) /\
    forall i, 0 <= i < n_groups (fs s) ->
      bm (dev s2) (fs s2) i = bm (dev s) (fs s) i /\ bg_free_blocks_count_lo (fs s2) i = bg_free_blocks_count_lo (fs s) i.
Proof.
  destruct s as [d o h f]; intros A Ho Hg Hfree; cbn in Ho, Hg, Hfree; assert (R : runs ext4_alloc_block (mk d o h f)
    (fun s1 r => oracle s1 = [] /\ takes d f (dev s1) (fs s1) r /\ blk (dev s1) (fs s1) r = zeroes EXT4_BLOCK_SIZE)).
  { apply runs_tail, runs_alloc_block; [done | intros o' _ Z; rewrite (a_counts d f A g Hg) in Hfree; by destruct (Hfree (Z Ho g Hg)) |].
    intros o' d' f' r C T E; apply runs_ret; split; [by apply C | by split; [| apply E]]. }
  destruct R as ([d1 o1 h1 f1] & r & E1 & Ho1 & T & Z1); cbn in Ho1, T, Z1; pose proof T as [A1 G1 B1 F1 U1 D1].
  assert (S1 : spare f1 r 1).
  { pose proof (takes_not_fixed _ _ _ _ _ A T) as Hx; unfold block_of in B1; repeat split; rewrite ?(g_groups _ _ G1); try lia.
    intros b Hb Hs; apply (fixed_geo f f1) in Hb; [| done]; unfold span in Hs; by replace b with r in Hb by lia. }
  assert (R : runs (ext4_free_block_range r 1) (mk d1 o1 h1 f1)
    (fun s2 _ => releases d1 f1 (dev s2) (fs s2) (span r 1) /\ used (dev s2) (fs s2) r = false)).
  { apply runs_tail, runs_free_block_range; [done | done |]; intros o' d' f' _ Rl E; apply runs_ret; split; [done | apply E; [done | unfold span; lia]]. }
  destruct R as (s2 & [] & E2 & Rl & Z2); pose proof Rl as [A2 G2 K2 N2 D2].
  assert (U : forall b, block_of f b -> used (dev s2) (fs s2) b = used d f b).
  { intros b Hb; destruct (decide (b = r)) as [-> | Hne]; [congruence |].
    rewrite K2, U1 by (try (unfold span; lia); unfold block_of in *; rewrite ?(g_groups _ _ G1); done); by destruct (Z.eqb_spec b r). }
  exists (mk d1 o1 h1 f1), r, s2; do 4 (split; [done |]); split; [done |]; split.
  - eapply same_trans; [exact D1 |]; apply (same_geo _ _ f f1) in D2; [| done]; eapply same_weaken; [| exact D2]; intros b Hb; left; by apply (fixed_geo f f1).
  - intros i Hi; apply same_used_bm; try done; by eapply geo_trans.
Qed.

Lemma block_taken_and_given_back_witness :
  bg_free_blocks_count_lo demo_fs 0 = 130 /\
  exists s1 r s2, ext4_alloc_block demo = Some (s1, r) /\ ext4_free_block_range r 1 s1 = Some (s2, tt) /\
    takes demo_dev demo_fs (dev s1) (fs s1) r /\ blk (dev s1) (fs s1) r = zeroes EXT4_BLOCK_SIZE /\
    ok_state s2 /\ same_but demo_dev (dev s2) demo_fs (fun b => fixed_block demo_fs b \/ b = r) /\
    forall i, 0 <= i < n_groups demo_fs ->
      bm (dev s2) (fs s2) i = bm demo_dev demo_fs i /\ bg_free_blocks_count_lo (fs s2) i = bg_free_blocks_count_lo demo_fs i.
Proof.
  split; [reflexivity |]; refine (block_taken_and_given_back demo 0 demo_alloc_ok eq_refl _ _); [split; [lia | reflexivity] | vm_compute; discriminate].
Defined.
