(* ===== verification/Ext4MountTheorems.v ===== *)
(** * ext4: mounting, theorems *)
From Stdlib Require Import ZArith Lia.
From stdpp Require Import base numbers list.
From S2P Require Import Prelude Bytes Gpt CString ProcTab VfsPath Ext4Disk Ext4Map Ext4Alloc Ext4Dir Ext4Ops.
From S2P Require Import Ext4Proofs Ext4AllocProofs Ext4Blocks SmallDisk.

Implicit Types (d : Z -> list Z) (f : ext4_fs) (o : list bool) (h : list Z) (g b : Z).

(** ** ext4: the repair and the recount at mount

    From bitmaps that have a place of their own, the repair marks the driver's
    blocks and the recount sets the counters: the allocator's invariant.  The
    device is taken to answer: a mount with failures may skip a group. *)

Lemma mark_used_ok n : forall bit bm r0, bytes bm -> zlen bm = 4096 -> 0 <= bit -> bit + Z.of_nat n <= 32768 ->
  let '(bm', r) := mark_used n bit bm r0 in
  zlen bm' = 4096 /\ bytes bm' /\ r0 <= r /\ (r = r0 -> bm' = bm) /\
  forall i, 0 <= i < 32768 -> bitmap_bit_test bm' i = bitmap_bit_test bm i || ((bit <=? i) && (i <? bit + Z.of_nat n)).
Proof.
  induction n as [| n IH]; intros bit bm r0 Hy Hl Hb Hn; cbn [mark_used].
  { split; [done |]; split; [done |]; split; [lia |]; split; [done |]; intros i Hi.
    destruct (Z.leb_spec bit i), (Z.ltb_spec i (bit + Z.of_nat 0)); try lia; by rewrite orb_false_r. }
  destruct (bitmap_bit_test bm bit) eqn:Ht.
  - specialize (IH (bit + 1) bm r0 Hy Hl ltac:(lia) ltac:(lia)); destruct (mark_used _ _ _ _) as [bm' r]; destruct IH as (I1 & I2 & I3 & I4 & I5).
    repeat (split; [done |]); intros i Hi; rewrite I5 by done; destruct (Z.eq_dec i bit) as [-> | Hne]; [by rewrite Ht |].
    destruct (Z.leb_spec (bit + 1) i), (Z.leb_spec bit i), (Z.ltb_spec i (bit + 1 + Z.of_nat n)), (Z.ltb_spec i (bit + Z.of_nat (S n))); try lia; done.
  - specialize (IH (bit + 1) (bitmap_bit_set bm bit) (r0 + 1) (bytes_bit_set _ _ Hy Hb) ltac:(by rewrite zlen_bit_set) ltac:(lia) ltac:(lia)).
    destruct (mark_used _ _ _ _) as [bm' r]; destruct IH as (I1 & I2 & I3 & _ & I5).
    split; [done |]; split; [done |]; split; [lia |]; split; [lia |]; intros i Hi; rewrite I5, bit_test_set by (done || lia).
    destruct (Z.eqb_spec i bit), (Z.leb_spec (bit + 1) i), (Z.leb_spec bit i), (Z.ltb_spec i (bit + 1 + Z.of_nat n)), (Z.ltb_spec i (bit + Z.of_nat (S n)));
      try lia; cbn [orb andb]; by rewrite ?orb_true_r, ?orb_false_r.
Qed.

(** The bits of group [g] that the repair marks. *)
Definition meta_end f g : Z := Z.min (if g =? 0 then u32 (bg_inode_table_lo f g + EXT4_INODE_TABLE_BLOCKS) else GN_META_BLOCKS) EXT4_BITS_PER_BITMAP.
Definition metadata f b : Prop := b mod 32768 < meta_end f (b / 32768).

(** The layout the formatter gives a partition: every bitmap among the blocks
    that are marked, the descriptors in range, the inode bitmap a block of its own. *)
Record laid_out f : Prop := {
  l_bpg : blocks_per_group f = 32768;
  l_part : part_ok f;
  l_range g : 0 <= g < n_groups f -> 2 <= bg_block_bitmap_lo f g /\ block_of f (bg_block_bitmap_lo f g);
  l_inj g g' : 0 <= g < n_groups f -> 0 <= g' < n_groups f -> bg_block_bitmap_lo f g = bg_block_bitmap_lo f g' -> g = g';
  l_gdt g : 0 <= g < n_groups f -> gdt_in_range f g = true;
  l_meta b : fixed_block f b -> metadata f b;
  l_ibitmap : block_of f (bg_inode_bitmap_lo f 0) /\ ~ fixed_block f (bg_inode_bitmap_lo f 0)
}.

Lemma meta_end_geo f f' g : geo f f' -> 0 <= g < n_groups f -> meta_end f' g = meta_end f g.
Proof. intros G Hg; unfold meta_end; by rewrite (g_tables _ _ G). Qed.

Lemma meta_end_range f g : 0 <= meta_end f g <= 32768.
Proof.
  unfold meta_end, EXT4_BITS_PER_BITMAP, EXT4_BLOCK_SIZE, GN_META_BLOCKS, u32; case_match; [| lia].
  pose proof (Z.mod_pos_bound (bg_inode_table_lo f g + EXT4_INODE_TABLE_BLOCKS) (2 ^ 32) ltac:(lia)); lia.
Qed.

Lemma fixed_geo_iff f f' b : geo f f' -> fixed_block f' b <-> fixed_block f b.
Proof. intros G; split; [by apply fixed_geo | apply fixed_geo; by apply geo_sym]. Qed.

Lemma gdt_geo f f' g : geo f f' -> 0 <= g < n_groups f -> gdt_in_range f' g = gdt_in_range f g.
Proof. intros G Hg; unfold gdt_in_range; by rewrite (g_blocks _ _ G), (g_bitmaps _ _ G), (g_ibitmaps _ _ G), (g_tables _ _ G). Qed.

Lemma laid_out_geo f f' : 1 <= n_groups f -> geo f f' -> laid_out f -> laid_out f'.
Proof.
  intros Hn G [L1 L2 L3 L4 L5 L6 [L7 L8]]; split; rewrite ?(g_groups _ _ G), ?(g_bpg _ _ G); try done.
  - unfold part_ok; by rewrite (g_part _ _ G).
  - intros g Hg; rewrite (g_bitmaps _ _ G) by done; unfold block_of; rewrite (g_groups _ _ G); by apply L3.
  - intros g g' Hg Hg'; rewrite !(g_bitmaps _ _ G) by done; by apply L4.
  - intros g Hg; rewrite (gdt_geo f f') by done; by apply L5.
  - intros b Hb; rewrite (fixed_geo_iff f f') in Hb by done; unfold metadata; pose proof (L6 b Hb) as Hm; rewrite (meta_end_geo f f'); [done | done |].
    destruct Hb as [-> | [-> | (g & Hg & ->)]]; [change (0 / 32768) with 0; lia | change (1 / 32768) with 0; lia |]; apply (block_split f), L3, Hg.
  - rewrite (g_ibitmaps _ _ G) by lia; split; [unfold block_of; by rewrite (g_groups _ _ G) | by rewrite (fixed_geo_iff f f')].
Qed.

(** ** The repair of a group *)

(** What the repair may write. *)
Definition repaired f b : Prop := fixed_block f b \/ b = bg_inode_bitmap_lo f 0.

Record fixed_up d f d' f' (R : Z -> Prop) : Prop := {
  x_places : places d' f';
  x_geo : geo f f';
  x_used b : block_of f b -> used d f b = true -> used d' f' b = true;
  x_marked b : block_of f b -> R b -> used d' f' b = true;
  x_data : same_but d d' f (repaired f)
}.

Lemma fixed_up_refl d f : places d f -> fixed_up d f d f (fun _ => False).
Proof. intros A; split; try done; apply same_refl, A. Qed.

Lemma repaired_geo f f' b : 1 <= n_groups f -> geo f f' -> repaired f' b -> repaired f b.
Proof. intros Hn G [H | ->]; [left; by apply (fixed_geo f f') | right; apply (g_ibitmaps _ _ G); lia]. Qed.

Lemma fixed_up_trans d f d1 f1 d2 f2 (R R1 : Z -> Prop) : 1 <= n_groups f -> fixed_up d f d1 f1 R -> fixed_up d1 f1 d2 f2 R1 -> fixed_up d f d2 f2 (fun b => R b \/ R1 b).
Proof.
  intros Hn [A1 G1 U1 M1 D1] [A2 G2 U2 M2 D2]; assert (B : forall b, block_of f b -> block_of f1 b) by (intros b; unfold block_of; by rewrite (g_groups _ _ G1)).
  split; [done | by eapply geo_trans | auto | intros b Hb [?|?]; auto |].
  eapply same_trans; [exact D1 |]; apply (same_geo _ _ f f1) in D2; [| done]; eapply same_weaken; [| exact D2]; intros b; by apply repaired_geo.
Qed.

Lemma fixed_up_weaken d f d' f' (R R' : Z -> Prop) : (forall b, block_of f b -> R' b -> R b) -> fixed_up d f d' f' R -> fixed_up d f d' f' R'.
Proof. intros E [A G U M D]; split; auto. Qed.

Lemma reduced_range c r : 0 <= c < 65536 -> 0 <= r -> 0 <= reduced c r < 65536.
Proof. unfold reduced; intros; destruct (Z.leb_spec r c); lia. Qed.

Lemma bytes_bgs_count f g : fs_ok f -> 0 <= bg_free_blocks_count_lo f g < 65536.
Proof. intros F; apply le16_range, F. Qed.

Lemma runs_repair_blocks {A} g (k : option bool -> M A) d h f Q :
  places d f -> laid_out f -> 0 <= g < n_groups f ->
  (forall d' f', fixed_up d f d' f' (fun b => b / 32768 = g /\ b mod 32768 < meta_end f g) -> runs (k (Some true)) (mk d' [] h f') Q) ->
  runs (repair_blocks g ≫= k) (mk d [] h f) Q.
Proof.
  intros HA HL Hg HQ; pose proof HA as [F Hd R I]; apply runs_bind; unfold repair_blocks; apply runs_get_fs, runs_kmalloc; intros o1 ok C1 Hok.
  rewrite (C1 eq_refl), (Hok eq_refl); cbn [negb]; apply runs_read_block; intros o2 C2; [by intros [] |]; rewrite (C2 eq_refl).
  fold (bm d f g); set (l := bm d f g) in *; assert (Hl : zlen l = 4096 /\ bytes l) by (split; [by apply zlen_blk | by apply bytes_blk]); destruct Hl as [Hl Hy].
  cbv zeta; fold (meta_end f g); pose proof (meta_end_range f g) as HM; pose proof (mark_used_ok (Z.to_nat (meta_end f g)) 0 l 0 Hy Hl ltac:(lia) ltac:(lia)) as HU.
  destruct (mark_used _ _ _ _) as [l' r]; rewrite Z2Nat.id in HU by lia; destruct HU as (U1 & U2 & U3 & U4 & U5).
  assert (Bit : forall b, block_of f b -> b / 32768 = g -> used d f b = bitmap_bit_test l (b mod 32768) /\ 0 <= b mod 32768 < 32768)
    by (intros b Hb E; destruct (block_split f b Hb) as (_ & B2 & _); unfold used; by rewrite E).
  destruct (Z.ltb_spec 0 r) as [Hr | Hr].
  - apply runs_write_block; intros o3 C3; [by intros [] |]; rewrite (C3 eq_refl); cbn [negb].
    change (s_free_blocks_count_lo (set_bg_free_blocks f g ?x)) with (s_free_blocks_count_lo f); fold (with_counts f g (reduced (bg_free_blocks_count_lo f g) r) (reduced (s_free_blocks_count_lo f) r)).
    destruct (with_counts_ok f g (reduced (bg_free_blocks_count_lo f g) r) (reduced (s_free_blocks_count_lo f) r) F Hg) as (F' & G & _); [apply reduced_range; [by apply bytes_bgs_count | done] |].
    apply runs_set_fs, runs_ret, HQ; destruct (places_put d f _ g l' HA F' G Hg U1 U2) as (A' & S & _ & U); split; [done | done | | |].
    + intros b Hb Hu; rewrite U by done; case_decide as Eb; [| done]; destruct (Bit b Hb Eb) as [E1 E2]; rewrite U5 by done; rewrite E1 in Hu; by rewrite Hu.
    + intros b Hb [Eb Em]; rewrite U, decide_True by done; destruct (Bit b Hb Eb) as [_ E2]; rewrite U5 by done.
      destruct (Z.leb_spec 0 (b mod 32768)), (Z.ltb_spec (b mod 32768) (0 + meta_end f g)); try lia; apply orb_true_r.
    + eapply same_weaken; [| exact S]; intros b <-; left; right; right; by exists g.
  - apply runs_ret, HQ; split; [done | by split | done | | by apply same_refl]; intros b Hb [Eb Em]; destruct (Bit b Hb Eb) as [E1 E2]; rewrite E1, <- (U4 ltac:(lia)), U5 by done.
    destruct (Z.leb_spec 0 (b mod 32768)), (Z.ltb_spec (b mod 32768) (0 + meta_end f g)); try lia; apply orb_true_r.
Qed.

Definition with_icounts f g (n m : Z) : ext4_fs := set_free_inodes (set_bg_free_inodes f g n) m.

Lemma with_icounts_ok f g n m : fs_ok f -> 0 <= g < n_groups f -> fs_ok (with_icounts f g n m) /\ geo f (with_icounts f g n m).
Proof.
  intros [P B N [G1 G2] [S1 S2]] Hg; unfold with_icounts, set_free_inodes, set_bg_free_inodes; split.
  - split; simpl; [exact P | done | done | |]; split; try (apply splice_ok; [done | apply bytes16_ok || apply bytes32_ok]);
      rewrite zlen_splice; rewrite ?zlen_bytes16, ?zlen_bytes32; lia.
  - split; simpl; try done; [intros g' Hg' | intros g' Hg' | intros g' Hg' | |]; unfold bg_block_bitmap_lo, bg_inode_bitmap_lo, bg_inode_table_lo, s_inodes_count, s_blocks_count_lo; simpl;
      apply le32_splice_ne; rewrite ?zlen_bytes16, ?zlen_bytes32; lia.
Qed.

Lemma runs_repair_inodes {A} (k : bool -> M A) d h f Q :
  places d f -> laid_out f ->
  (forall d' f', fixed_up d f d' f' (fun _ => False) -> runs (k true) (mk d' [] h f') Q) ->
  runs (repair_inodes ≫= k) (mk d [] h f) Q.
Proof.
  intros HA HL HQ; pose proof HA as [F Hd R I]; destruct (l_ibitmap f HL) as [L1 L2]; pose proof (f_groups f F); apply runs_bind; unfold repair_inodes; apply runs_get_fs, runs_load_block; intros o1 C1; [by intros [] |].
  rewrite (C1 eq_refl); set (x := bg_inode_bitmap_lo f 0) in *; pose proof (mark_used_ok 10 0 (blk d f x) 0 (bytes_blk d f x Hd) (zlen_blk d f x Hd) ltac:(lia) ltac:(lia)) as HU.
  destruct (mark_used _ _ _ _) as [l' r]; destruct HU as (U1 & U2 & _ & _ & _); destruct (Z.ltb_spec 0 r); [| by apply runs_ret, HQ, fixed_up_refl].
  assert (S : same_but d (put_blk d f x l') f (eq x)) by (apply same_put; try done; [apply F | by apply (blkno_of f)]).
  assert (NB : forall g, 0 <= g < n_groups f -> x <> bg_block_bitmap_lo f g) by (intros g Hg E; apply L2; right; right; by exists g).
  apply runs_write_block; intros o2 C2; [by intros [] |]; rewrite (C2 eq_refl).
  change (s_free_inodes_count (set_bg_free_inodes f 0 ?x)) with (s_free_inodes_count f); fold (with_icounts f 0 (reduced (bg_free_inodes_count_lo f 0) r) (reduced (s_free_inodes_count f) r)).
  destruct (with_icounts_ok f 0 (reduced (bg_free_inodes_count_lo f 0) r) (reduced (s_free_inodes_count f) r) F ltac:(lia)) as [F' G].
  apply runs_set_fs, runs_ret, HQ; split; [apply (places_geo _ f); [by eapply places_same | done | done] | done | | done |].
  - intros b Hb Hu; rewrite (used_geo _ f) by done; by rewrite (used_same d _ f b _ HA S NB Hb).
  - eapply same_weaken; [| exact S]; intros b <-; by right.
Qed.

Lemma runs_repair_group {A} g (k : bool -> M A) d h f Q :
  places d f -> laid_out f -> 0 <= g < n_groups f ->
  (forall d' f', fixed_up d f d' f' (fun b => b / 32768 = g /\ b mod 32768 < meta_end f g) -> runs (k true) (mk d' [] h f') Q) ->
  runs (repair_group g ≫= k) (mk d [] h f) Q.
Proof.
  intros HA HL Hg HQ; apply runs_bind; unfold repair_group; apply runs_get_fs; rewrite (l_gdt f HL g Hg); cbn [negb].
  apply runs_repair_blocks; [done | done | done |]; intros d1 f1 X1; pose proof X1 as [A1 G1 _ _ _]; pose proof (f_groups f (a_fs d f HA)) as HN.
  destruct (Z.eqb_spec g 0) as [-> | Hne]; [| by apply runs_ret, HQ].
  apply runs_unbind, runs_repair_inodes; [done | apply (laid_out_geo f); [lia | done | done] |]; intros d2 f2 X2; apply HQ.
  eapply fixed_up_weaken; [| apply (fixed_up_trans d f d1 f1 d2 f2 _ _ ltac:(lia) X1 X2)]; intros b _ Hb; by left.
Qed.

Lemma runs_repair_loop {A} n (k : bool -> M A) h Q : forall g d f,
  places d f -> laid_out f -> 0 <= g -> g + Z.of_nat n = n_groups f ->
  (forall d' f', fixed_up d f d' f' (fun b => g <= b / 32768 /\ metadata f b) -> runs (k true) (mk d' [] h f') Q) ->
  runs (repair_loop n g ≫= k) (mk d [] h f) Q.
Proof.
  induction n as [| n IH]; intros g d f HA HL Hg Hn HQ; cbn [repair_loop]; apply runs_bind; pose proof (f_groups f (a_fs d f HA)) as HN.
  { apply runs_ret, HQ; eapply fixed_up_weaken; [| by apply fixed_up_refl]; intros b Hb [Hm _]; destruct (block_split f b Hb); lia. }
  apply runs_repair_group; [done | done | lia |]; intros d1 f1 X1; pose proof X1 as [A1 G1 _ _ _]; apply runs_unbind, IH; [done | apply (laid_out_geo f); [lia | done | done] | lia | rewrite (g_groups _ _ G1); lia |].
  intros d2 f2 X2; apply HQ; eapply fixed_up_weaken; [| apply (fixed_up_trans d f d1 f1 d2 f2 _ _ ltac:(lia) X1 X2)]; intros b Hb [H1 H2]; cbn.
  destruct (block_split f b Hb) as (B1 & _); destruct (decide (b / 32768 = g)) as [E | Hne]; [left; split; [done |]; unfold metadata in H2; by rewrite E in H2 | right].
  split; [lia |]; unfold metadata in *; by rewrite (meta_end_geo f f1).
Qed.

Lemma sync_fixed_up d f d' f' d2 R : fixed_up d f d' f' R -> same_but d' d2 f' (fun b => b = 0 \/ b = 1) -> fixed_up d f d2 f' R.
Proof.
  intros [A G U M D] S; assert (NB : forall g, 0 <= g < n_groups f' -> ~ (bg_block_bitmap_lo f' g = 0 \/ bg_block_bitmap_lo f' g = 1))
    by (intros g Hg; pose proof (a_range d' f' A g Hg); lia).
  assert (E : forall b, block_of f b -> used d2 f' b = used d' f' b) by (intros b Hb; apply (used_same d' d2 f' b _ A S NB); unfold block_of; by rewrite (g_groups _ _ G)).
  split; [by eapply places_same | done | intros b Hb Hu; rewrite E by done; auto | intros b Hb Hr; rewrite E by done; auto |].
  eapply same_trans; [exact D |]; apply (same_geo _ _ f f') in S; [| done]; eapply same_weaken; [| exact S]; intros b Hb; left; by apply meta_fixed.
Qed.

Lemma runs_repair {A} (k : bool -> M A) d h f Q :
  places d f -> laid_out f ->
  (forall d' f', fixed_up d f d' f' (metadata f) -> runs (k true) (mk d' [] h f') Q) ->
  runs (ext4_repair_structural_sanity ≫= k) (mk d [] h f) Q.
Proof.
  intros HA HL HQ; pose proof (f_groups f (a_fs d f HA)) as HN; apply runs_bind; unfold ext4_repair_structural_sanity; apply runs_get_fs, runs_repair_loop; [done | done | lia | lia |].
  intros d1 f1 X1; apply runs_sync; [apply X1 | apply X1 |]; intros o2 d2 C2 S2; rewrite (C2 eq_refl); apply runs_ret, HQ.
  eapply sync_fixed_up; [| exact S2]; eapply fixed_up_weaken; [| exact X1]; intros b Hb Hm; split; [by apply (block_split f b Hb) | done].
Qed.

(** ** The recount *)

Record counted d f d' f' g : Prop := {
  c_places : places d' f';
  c_geo : geo f f';
  c_bm i : 0 <= i < n_groups f -> bm d' f' i = bm d f i;
  c_count i : 0 <= i < n_groups f -> i < g -> bg_free_blocks_count_lo f' i = sum_zeros (bm d f i);
  c_data : same_but d d' f (fixed_block f)
}.

Lemma runs_verify_group {A} g (k : unit -> M A) d0 f0 d h f Q :
  1 <= n_groups f0 -> 0 <= g < n_groups f0 -> counted d0 f0 d f g ->
  (forall d' f', counted d0 f0 d' f' (g + 1) -> runs (k tt) (mk d' [] h f') Q) -> runs (verify_group g ≫= k) (mk d [] h f) Q.
Proof.
  intros HN Hg [PA G B C D] HQ; pose proof PA as [F Hd _ _]; apply runs_bind; unfold verify_group; apply runs_get_fs, runs_load_block; intros o1 C1; [by intros [] |]; rewrite (C1 eq_refl).
  fold (bm d f g); assert (Hl : zlen (bm d f g) = 4096 /\ bytes (bm d f g)) by (split; [by apply zlen_blk | by apply bytes_blk]); destruct Hl as [Hl Hy].
  change EXT4_BLOCK_SIZE with 4096; rewrite <- Hl, count_clear_sum; cbv zeta; pose proof (sum_zeros_range _ Hy) as Hz; rewrite Hl in Hz.
  destruct (Z.eqb_spec (sum_zeros (bm d f g)) (bg_free_blocks_count_lo f g)) as [E | E]; cbn [negb].
  - apply runs_ret, HQ; split; try done; intros i Hi Hlt; destruct (decide (i = g)) as [-> | Hne]; [by rewrite <- E, B | apply C; [done | lia]].
  - rewrite u16_small by lia; set (f' := set_bg_free_blocks f g (sum_zeros (bm d f g))).
    assert (Hg' : 0 <= g < n_groups f) by (by rewrite (g_groups _ _ G)).
    assert (W : fs_ok f' /\ geo f f' /\ forall i, 0 <= i < n_groups f -> bg_free_blocks_count_lo f' i = if decide (i = g) then sum_zeros (bm d f g) else bg_free_blocks_count_lo f i).
    { destruct (with_counts_ok f g (sum_zeros (bm d f g)) 0 F Hg' ltac:(lia)) as ([X1 X2 X3 X4 X5] & G' & K); split; [split; try done; apply F | split; [| exact K]].
      destruct G' as [Y1 Y2 Y3 Y4 Y5 Y6 Y7 Y8 Y9 Y10]; by split. }
    destruct W as (F' & G' & K); apply runs_set_fs, runs_unbind, runs_sync; [done | done |]; intros o2 d2 C2 S2; rewrite (C2 eq_refl).
    assert (A' : places d f') by (by apply (places_geo d f)).
    assert (NB : forall i, 0 <= i < n_groups f' -> ~ (bg_block_bitmap_lo f' i = 0 \/ bg_block_bitmap_lo f' i = 1)) by (intros i Hi; pose proof (a_range d f' A' i Hi); lia).
    assert (E2 : forall i, 0 <= i < n_groups f0 -> bm d2 f' i = bm d0 f0 i).
    { intros i Hi; assert (Hi' : 0 <= i < n_groups f) by (by rewrite (g_groups _ _ G)); rewrite (bm_same d d2 f' _ A' S2 NB) by (by rewrite (g_groups _ _ G')).
      unfold bm at 1; rewrite (g_bitmaps _ _ G'), (blk_geo d f f') by done; fold (bm d f i); by apply B. }
    apply HQ; split; [by eapply places_same | by eapply geo_trans | done | |].
    + intros i Hi Hlt; rewrite K by (by rewrite (g_groups _ _ G)); case_decide as Ei; [subst; by rewrite B | apply C; [done | lia]].
    + eapply same_trans; [exact D |]; apply (same_geo _ _ f0 f') in S2; [| by eapply geo_trans]; eapply same_weaken; [| exact S2]; intros b Hb; by apply meta_fixed.
Qed.

Lemma runs_verify_loop {A} n (k : unit -> M A) d0 f0 h Q : 1 <= n_groups f0 -> forall g d f,
  counted d0 f0 d f g -> 0 <= g -> g + Z.of_nat n = n_groups f0 ->
  (forall d' f', counted d0 f0 d' f' (n_groups f0) -> runs (k tt) (mk d' [] h f') Q) -> runs (verify_loop n g ≫= k) (mk d [] h f) Q.
Proof.
  intros HN; induction n as [| n IH]; intros g d f HC Hg Hn HQ; cbn [verify_loop]; apply runs_bind.
  - apply runs_ret, HQ; replace (n_groups f0) with g by lia; done.
  - apply (runs_verify_group _ _ d0 f0); [done | lia | done |]; intros d1 f1 C1; apply runs_unbind, IH; [done | lia | lia | done].
Qed.

Lemma runs_verify {A} (k : unit -> M A) d h f Q :
  places d f -> (forall d' f', counted d f d' f' (n_groups f) -> runs (k tt) (mk d' [] h f') Q) -> runs (ext4_verify_free_count ≫= k) (mk d [] h f) Q.
Proof.
  intros HA HQ; pose proof (f_groups f (a_fs d f HA)) as HN; apply runs_bind; unfold ext4_verify_free_count; apply runs_get_fs, runs_unbind.
  apply (runs_verify_loop _ _ d f); [lia | | lia | lia | done]; split; try done; [intros; lia | apply same_refl, HA].
Qed.

(** ** Both *)

Lemma repair_and_recount d f d1 f1 d2 f2 :
  laid_out f -> places d f -> fixed_up d f d1 f1 (metadata f) -> counted d1 f1 d2 f2 (n_groups f1) ->
  alloc_ok d2 f2 /\ geo f f2 /\ same_but d d2 f (repaired f) /\
  (forall b, block_of f b -> used d f b = true \/ metadata f b -> used d2 f2 b = true).
Proof.
  intros HL HA [A1 G1 U1 M1 D1] [A2 G2 B2 C2 D2]; pose proof (f_groups f (a_fs d f HA)) as HN; assert (G : geo f f2) by (by eapply geo_trans).
  assert (U : forall b, block_of f b -> used d2 f2 b = used d1 f1 b).
  { intros b Hb; destruct (block_split f b Hb) as (Hg & _); unfold used; rewrite B2; [done | by rewrite (g_groups _ _ G1)]. }
  assert (M : forall b, block_of f b -> used d f b = true \/ metadata f b -> used d2 f2 b = true) by (intros b Hb [Hu | Hm]; rewrite U by done; auto).
  split; [split; [done | |] | split; [done | split; [| done]]].
  - intros b Hb; apply (fixed_geo f f2) in Hb; [| done]; apply M; [by apply (fixed_in d) | right; by apply (l_meta f HL)].
  - intros g Hg; rewrite (g_groups _ _ G) in Hg; assert (Hg1 : 0 <= g < n_groups f1) by (by rewrite (g_groups _ _ G1)); rewrite C2, B2 by (done || lia); done.
  - eapply same_trans; [exact D1 |]; apply (same_geo _ _ f f1) in D2; [| done]; eapply same_weaken; [| exact D2]; intros b Hb; left; by apply (fixed_geo f f1).
Qed.

Implicit Types (s : disk) (p : partition).

(** What the partition describes: the superblock, if the driver takes it, and the
    descriptors of its groups. *)
Definition described d p : option ext4_fs :=
  f ← accept_superblock (read_sectors d (u64 (start_lba p + EXT4_SUPERBLOCK_SECTOR)) EXT4_SUPERBLOCK_SECTORS);
  let '(bpg, n) := groups_of f in
  if EXT4_MAX_GROUPS <? n then None
  else Some (with_groups f (start_lba p) bpg n (take (Z.to_nat (n * 32)) (blk d (with_groups f (start_lba p) bpg n []) EXT4_GDT_BLOCK))).

Lemma accept_sb l f : accept_superblock l = Some f -> sb f = l.
Proof. unfold accept_superblock; repeat case_match; try done; by intros [= <-]. Qed.

Lemma described_ok d p f : dev_ok d -> described d p = Some f -> laid_out f -> places d f.
Proof.
  intros Hd E HL; unfold described in E; destruct (accept_superblock _) as [f0 |] eqn:Ea; [| done]; cbn [mbind option_bind] in E; destruct (groups_of f0) as [bpg n] eqn:Eg.
  destruct (Z.ltb_spec EXT4_MAX_GROUPS n) as [| Hn]; [done |]; injection E as <-; pose proof (l_bpg _ HL) as Hb; cbn in Hb; apply accept_sb in Ea; unfold groups_of in Eg; injection Eg as E1 E2.
  assert (Hn1 : 1 <= n).
  { rewrite E1, Hb in E2; set (x := u32 _) in E2; assert (Hx : 0 <= x / 32768) by (apply Z.div_pos; [apply Z.mod_pos_bound; lia | lia]).
    destruct (Z.eqb_spec (x / 32768) 0); lia. }
  unfold EXT4_MAX_GROUPS in Hn; split; [split | done | apply HL | apply HL]; cbn [part_start_lba blocks_per_group n_groups bgs sb with_groups].
  - apply (l_part _ HL).
  - done.
  - lia.
  - split; [| apply Forall_take, bytes_blk, Hd]; pose proof (zlen_blk d (with_groups f0 (start_lba p) bpg n []) EXT4_GDT_BLOCK Hd) as Hl.
    unfold zlen in *; rewrite length_take; lia.
  - rewrite Ea; split; [by rewrite zlen_read_sectors | by apply bytes_read_sectors].
Qed.

Lemma runs_mount {A} p (k : bool -> M A) d h f0 Q :
  dev_ok d ->
  (described d p = None -> forall s', runs (k false) s' Q) ->
  (forall f, described d p = Some f -> runs (ext4_repair_structural_sanity ≫= fun ok => if negb ok then k false else ext4_verify_free_count ≫= fun _ => k true) (mk d [] h f) Q) ->
  runs (ext4_mount p ≫= k) (mk d [] h f0) Q.
Proof.
  intros Hd H1 H2; unfold described in *; apply runs_bind; unfold ext4_mount, ext4_mount_read_superblock; apply runs_kmalloc; intros o1 ok1 C1 Hok; rewrite (C1 eq_refl), (Hok eq_refl); cbn [negb]; clear o1 ok1 C1 Hok.
  apply runs_bind, runs_kmalloc; intros o1 ok1 C1 Hok; rewrite (C1 eq_refl), (Hok eq_refl); cbn [negb]; clear o1 ok1 C1 Hok.
  apply runs_bread; intros o1 C1; [by intros [] |]; rewrite (C1 eq_refl); apply runs_ret; cbn [mbind option_bind]; destruct (accept_superblock _) as [f |]; [| by apply runs_ret, H1].
  cbn [mbind option_bind] in *; unfold ext4_mount_load_group_desc; destruct (groups_of f) as [bpg n]; destruct (EXT4_MAX_GROUPS <? n); [by apply runs_bind, runs_ret, runs_ret, H1 |].
  apply runs_bind, runs_kmalloc; intros o2 ok1 C2 Hok; rewrite (C2 eq_refl), (Hok eq_refl); cbn [negb]; clear o2 ok1 C2 Hok.
  apply runs_set_fs, runs_load_block; intros o2 C2; [by intros [] |]; rewrite (C2 eq_refl); apply runs_set_fs, runs_ret; cbn [negb].
  set (f1 := with_groups _ _ _ _ (take _ _)) in *; specialize (H2 f1 eq_refl); apply runs_unbind in H2; apply runs_bind; eapply runs_mono; [exact H2 |].
  intros s' ok H; destruct ok; cbn [negb] in *; [apply runs_bind; apply runs_unbind in H; eapply runs_mono; [exact H |]; intros s2 [] H3; by apply runs_ret | by apply runs_ret].
Qed.

(** C27: Mounting establishes the allocator's invariant. When the device answers:
    a partition that does not describe a file system the driver takes is refused;
    one that does, laid out as the formatter lays it out, is mounted, and then,
    whatever its bitmaps and counters said, the driver's own blocks and the
    metadata of every group are marked used, every counter is the number of clear
    bits in its group's bitmap, no block that was in use has become free, and no
    block but the superblock, the descriptors, the bitmaps and the inode bitmap
    has changed. *)
Theorem mount_establishes_invariant s p :
  dev_ok (dev s) -> oracle s = [] ->
  match described (dev s) p with
  | None => exists s', ext4_mount p s = Some (s', false)
  | Some f => laid_out f -> exists s', ext4_mount p s = Some (s', true) /\
      alloc_ok (dev s') (fs s') /\ geo f (fs s') /\ same_but (dev s) (dev s') f (repaired f) /\
      forall b, block_of f b -> used (dev s) f b = true \/ metadata f b -> used (dev s') (fs s') b = true
  end.
Proof.
  destruct s as [d o h f0]; cbn [dev oracle]; intros Hd ->; destruct (described d p) as [f |] eqn:E.
  - intros HL; pose proof (described_ok d p f Hd E HL) as HA; assert (R : runs (ext4_mount p) (mk d [] h f0) (fun s' ok => ok = true /\ alloc_ok (dev s') (fs s') /\ geo f (fs s') /\
      same_but d (dev s') f (repaired f) /\ forall b, block_of f b -> used d f b = true \/ metadata f b -> used (dev s') (fs s') b = true)).
    { apply runs_tail, runs_mount; [done | congruence |]; intros f1 E1; rewrite E in E1; injection E1 as <-; apply runs_repair; [done | done |]; intros d1 f1 X; cbn [negb].
      apply runs_verify; [apply X |]; intros d2 f2 C; apply runs_ret; split; [done |]; by apply (repair_and_recount d f d1 f1). }
    destruct R as (s' & ok & E' & -> & Q); by exists s'.
  - assert (R : runs (ext4_mount p) (mk d [] h f0) (fun _ ok => ok = false)) by (apply runs_tail, runs_mount; [done | intros _ s'; by apply runs_ret | congruence]).
    by destruct R as (s' & ok & E' & ->); exists s'.
Qed.

(** The small image with its block bitmap lost: all zeroes. *)
Definition damaged_block (b : Z) : list Z := if b =? 2 then zeroes 4096 else demo_block b.
Definition damaged_dev (x : Z) : list Z := slice (damaged_block (x / 8)) (512 * (x mod 8)) 512.
Definition damaged : disk := {| dev := damaged_dev; oracle := []; heap := []; fs := demo_fs |}.
Definition demo_part : partition := {| start_lba := 0; end_lba := 0; size_sectors := 0; pindex := 0; type_guid := [] |}.

Lemma damaged_dev_ok : dev_ok damaged_dev.
Proof.
  intros x; assert (B : zlen (damaged_block (x / 8)) = 4096 /\ bytes (damaged_block (x / 8)))
    by (unfold damaged_block; case_match; [split; [reflexivity | apply bytes_zeroes] | apply demo_block_ok]).
  destruct B as [B1 B2]; pose proof (Z.mod_pos_bound x 8); unfold damaged_dev; split; [apply zlen_slice; lia | by apply bytes_slice].
Qed.

Lemma demo_laid_out : laid_out demo_fs.
Proof.
  split.
  - reflexivity.
  - vm_compute; split; [discriminate | reflexivity].
  - apply (a_range _ _ demo_alloc_ok).
  - apply (a_inj _ _ demo_alloc_ok).
  - intros g ->%demo_groups; vm_compute; reflexivity.
  - intros b [-> | [-> | (g & ->%demo_groups & ->)]]; vm_compute; reflexivity.
  - split; [unfold block_of; vm_compute; split; [discriminate | reflexivity] |]; intros [E | [E | (g & ->%demo_groups & E)]]; vm_compute in E; discriminate.
Qed.

Lemma mount_establishes_invariant_witness :
  described damaged_dev demo_part = Some demo_fs /\ laid_out demo_fs /\ used damaged_dev demo_fs 2 = false /\
  exists s', ext4_mount demo_part damaged = Some (s', true) /\
    alloc_ok (dev s') (fs s') /\ geo demo_fs (fs s') /\ same_but damaged_dev (dev s') demo_fs (repaired demo_fs) /\
    forall b, block_of demo_fs b -> used damaged_dev demo_fs b = true \/ metadata demo_fs b -> used (dev s') (fs s') b = true.
Proof.
  assert (E : described damaged_dev demo_part = Some demo_fs) by (vm_compute; reflexivity).
  split; [exact E |]; split; [exact demo_laid_out |]; split; [vm_compute; reflexivity |].
  pose proof (mount_establishes_invariant damaged demo_part damaged_dev_ok eq_refl) as H; cbn [dev damaged] in H; rewrite E in H; exact (H demo_laid_out).
Defined.
