(* ===== verification/Ext4DirBlock.v ===== *)
(** * ext4: a block of directory entries

    [seg b o l e]: the entries at the offsets [l] lead from [o] to [e]; [names]:
    what the live ones say. *)
From Stdlib Require Import ZArith Lia.
From stdpp Require Import base numbers list gmap.
From S2P Require Import Prelude Bytes CString Gpt Ext4Disk Ext4Map Ext4Alloc Ext4Dir Ext4Ops Ext4Proofs.

Implicit Types (b name : list Z) (o e : Z) (l : list Z).

Definition name_ok name : Prop := 1 <= zlen name <= 255 /\ bytes name.

(** An entry ends inside the block, and a live one has room for its name. *)
Record entry_wf b o : Prop := {
  w_len : 8 <= de_rec_len b o;
  w_end : o + de_rec_len b o <= EXT4_BLOCK_SIZE;
  w_name : de_inode b o <> 0 -> dirent_ideal_len (de_name_len b o) <= de_rec_len b o
}.

Inductive seg b : Z -> list Z -> Z -> Prop :=
| seg_nil o : seg b o [] o
| seg_cons o l e : entry_wf b o -> seg b (o + de_rec_len b o) l e -> seg b o (o :: l) e.

Definition live b o : Prop := de_inode b o <> 0.
#[global] Instance live_dec b o : Decision (live b o).
Proof. unfold live; apply _. Defined.

Definition names b l : list (list Z * Z) := (fun o => (de_name b o, de_inode b o)) <$> filter (live b) l.

Lemma ideal_bounds n : 0 <= n < 256 -> 8 + n <= dirent_ideal_len n <= 8 + n + 3.
Proof.
  intros Hn; assert (T : forallb (fun n => (8 + n <=? dirent_ideal_len n) && (dirent_ideal_len n <=? 8 + n + 3)) (seqZ 0 256) = true) by (vm_compute; reflexivity).
  rewrite forallb_forall in T; specialize (T n); rewrite <- list_elem_of_In, elem_of_seqZ in T; apply andb_prop in T; lia.
Qed.

Lemma names_app b l1 l2 : names b (l1 ++ l2) = names b l1 ++ names b l2.
Proof. unfold names; by rewrite filter_app, fmap_app. Qed.

Lemma names_live b o l : live b o -> names b (o :: l) = (de_name b o, de_inode b o) :: names b l.
Proof. intros H; unfold names; by rewrite filter_cons_True. Qed.

Lemma names_dead b o l : ~ live b o -> names b (o :: l) = names b l.
Proof. intros H; unfold names; by rewrite filter_cons_False. Qed.

Lemma seg_app b o l1 l2 e : seg b o (l1 ++ l2) e <-> exists m, seg b o l1 m /\ seg b m l2 e.
Proof.
  split.
  - revert o; induction l1 as [| x l1 IH]; intros o H; [by exists o; split; [constructor |] |].
    inversion H as [| ? ? ? W S]; subst; destruct (IH _ S) as (m & S1 & S2); exists m; by split; [constructor |].
  - intros (m & S1 & S2); induction S1; [done |]; simpl; constructor; auto.
Qed.

Lemma seg_le b o l e : seg b o l e -> o + 8 * zlen l <= e.
Proof. induction 1 as [| o l e [W1 W2 W3] _ IH]; [unfold zlen; simpl; lia |]; rewrite zlen_cons; lia. Qed.

(** ** Entries that are left alone *)

Lemma de_name_len_range b o : bytes b -> 0 <= de_name_len b o < 256.
Proof. apply bytes_range. Qed.

Lemma entry_same b b' o : bytes b -> zlen b' = zlen b -> 0 <= o -> entry_wf b o -> (forall i, o <= i < o + de_rec_len b o -> znth 0 b' i = znth 0 b i) ->
  de_inode b' o = de_inode b o /\ de_rec_len b' o = de_rec_len b o /\ de_name_len b' o = de_name_len b o /\ entry_wf b' o /\ (live b o -> de_name b' o = de_name b o).
Proof.
  intros Hy Hz Ho [W1 W2 W3] E; assert (E1 : de_inode b' o = de_inode b o) by (apply le32_ext; intros k Hk; apply E; lia).
  assert (E2 : de_rec_len b' o = de_rec_len b o) by (apply le16_ext; intros k Hk; apply E; lia).
  assert (E3 : de_name_len b' o = de_name_len b o) by (apply E; lia).
  split; [done |]; split; [done |]; split; [done |]; split; [split; rewrite ?E1, ?E2, ?E3; done |].
  intros Hl; unfold de_name; rewrite E3; pose proof (de_name_len_range b o Hy) as Hn; pose proof (ideal_bounds _ Hn); specialize (W3 Hl).
  apply slice_ext; [done | lia |]; intros i Hi; apply E; lia.
Qed.

Lemma seg_same b b' o l e : bytes b -> zlen b' = zlen b -> 0 <= o -> seg b o l e -> (forall i, o <= i < e -> znth 0 b' i = znth 0 b i) -> seg b' o l e /\ names b' l = names b l.
Proof.
  intros Hy Hz Ho S; induction S as [| o l e W S IH]; intros E; [by split; [constructor |] |]; pose proof (w_len _ _ W); pose proof (seg_le _ _ _ _ S); pose proof (zlen_nonneg l).
  destruct (entry_same b b' o Hy Hz Ho W) as (E1 & E2 & E3 & W' & E4); [intros i Hi; apply E; lia |].
  destruct IH as [S' N]; [lia | intros i Hi; apply E; lia |]; split; [constructor; [done | by rewrite E2] |].
  assert (EL : live b' o <-> live b o) by (unfold live; by rewrite E1).
  destruct (decide (live b o)) as [Hl | Hl]; [rewrite !names_live by tauto; by rewrite E1, E4, N | by rewrite !names_dead by tauto].
Qed.

(** ** An entry that is written *)

Lemma zlen_dirent ino rl ft name : zlen (dirent_bytes ino rl ft name) = 8 + zlen name.
Proof. unfold dirent_bytes; rewrite !zlen_app; change (zlen [u8 (zlen name); ft]) with 2; rewrite zlen_bytes32, zlen_bytes16; lia. Qed.

Lemma dirent_read ino rl ft name b o :
  0 <= ino < 2 ^ 32 -> 0 <= rl < 65536 -> zlen name <= 255 -> (forall i, 0 <= i < 8 + zlen name -> znth 0 b (o + i) = znth 0 (dirent_bytes ino rl ft name) i) -> 0 <= o ->
  o + 8 + zlen name <= zlen b ->
  de_inode b o = ino /\ de_rec_len b o = rl /\ de_name_len b o = zlen name /\ de_name b o = name.
Proof.
  intros Hi Hr Hn E Ho Hb; pose proof (zlen_nonneg name); assert (EN : de_name_len b o = zlen name).
  { unfold de_name_len; rewrite E by lia; change (znth 0 (dirent_bytes ino rl ft name) 6) with (u8 (zlen name)); unfold u8; apply Z.mod_small; lia. }
  split; [| split; [| split; [done |]]].
  - rewrite <- (le32_bytes32 ino) by done; apply le32_ext; intros k Hk; rewrite E, Z.add_0_l by lia; unfold dirent_bytes; by rewrite znth_app_l by (rewrite zlen_bytes32; lia).
  - rewrite <- (le16_bytes16 rl) by done; apply le16_ext; intros k Hk; rewrite <- Z.add_assoc, E, Z.add_0_l by lia; unfold dirent_bytes.
    rewrite znth_app_r, zlen_bytes32, znth_app_l by (rewrite ?zlen_bytes32, ?zlen_bytes16; lia); f_equal; lia.
  - unfold de_name; rewrite EN; apply (znth_ext 0); [rewrite zlen_slice by lia; done |]; intros i Hi'; rewrite zlen_slice in Hi' by lia.
    rewrite znth_slice, <- Z.add_assoc, E by lia; unfold dirent_bytes; rewrite !app_assoc, znth_app_r; rewrite ?zlen_app, zlen_bytes32, zlen_bytes16;
      change (zlen [u8 (zlen name); ft]) with 2; [f_equal; lia | lia].
Qed.

(** ** The walks *)

Lemma memcmp_slice b o name : 0 <= o -> o + zlen name <= zlen b -> memcmp_eq b o name = Some (bool_decide (slice b o (zlen name) = name)).
Proof.
  revert o; induction name as [| c name IH]; intros o Ho Hl; cbn [memcmp_eq]; [by rewrite bool_decide_eq_true_2 |]; rewrite zlen_cons in Hl; pose proof (zlen_nonneg name).
  destruct (Z.leb_spec (zlen b) o); [lia |]; rewrite zlen_cons.
  assert (Es : slice b o (zlen name + 1) = znth 0 b o :: slice b (o + 1) (zlen name)).
  { apply (znth_ext 0); [rewrite zlen_cons, !zlen_slice by lia; lia |]; intros i Hi; rewrite zlen_slice in Hi by lia; rewrite znth_slice by lia.
    destruct (decide (i = 0)) as [-> | Hne]; [by rewrite Z.add_0_r | rewrite znth_cons_pos, znth_slice by lia; f_equal; lia]. }
  rewrite Es; destruct (Z.eqb_spec (znth 0 b o) c) as [-> | Hne].
  - rewrite IH by lia; f_equal; apply bool_decide_ext; split; [by intros -> | by intros [= ?]].
  - rewrite bool_decide_eq_false_2; [done | by intros [= ? ?]].
Qed.

Section walks.
Context (b : list Z) (Hy : bytes b) (Hb : zlen b = EXT4_BLOCK_SIZE).

Lemma entry_ok_wf o : entry_wf b o -> entry_ok b o = Some true.
Proof using Hy Hb.
  intros [W1 W2 W3]; unfold entry_ok; destruct (Z.ltb_spec EXT4_BLOCK_SIZE (o + 6)); [lia |]; do 2 f_equal.
  destruct (Z.ltb_spec (de_rec_len b o) 8), (Z.ltb_spec (EXT4_BLOCK_SIZE - o) (de_rec_len b o)); try lia; done.
Qed.

Lemma is_entry_wf o name : 0 <= o -> entry_wf b o -> is_entry b o name = Some (bool_decide (live b o /\ de_name b o = name)).
Proof using Hy Hb.
  intros Ho W; pose proof W as [W1 W2 W3]; unfold is_entry; pose proof (de_name_len_range b o Hy) as Hn; pose proof (ideal_bounds _ Hn).
  destruct (Z.eqb_spec (de_inode b o) 0) as [E | E]; cbn [negb andb]; [rewrite bool_decide_eq_false_2; [done | by intros [? _]] |]; specialize (W3 E).
  assert (L : zlen (de_name b o) = de_name_len b o) by (unfold de_name; apply zlen_slice; lia).
  destruct (Z.eqb_spec (de_name_len b o) (zlen name)) as [E2 | E2].
  - rewrite memcmp_slice, <- E2 by lia; f_equal; apply bool_decide_ext; unfold de_name; tauto.
  - rewrite bool_decide_eq_false_2; [done |]; intros [_ <-]; congruence.
Qed.

Lemma find_entry_seg name o l e : 0 <= o -> seg b o l e -> e = EXT4_BLOCK_SIZE -> forall n, zlen l < Z.of_nat n ->
  exists r, find_entry n b o name = Some r /\
    match r with
    | Some p => exists l1 l2, l = l1 ++ p :: l2 /\ live b p /\ de_name b p = name /\ name ∉ (names b l1).*1
    | None => name ∉ (names b l).*1
    end.
Proof using Hy Hb.
  intros Ho S; induction S as [o | o l e W S IH]; intros Ee n Hn; (destruct n as [| n]; [unfold zlen in Hn; lia |]); cbn [find_entry].
  { exists None; rewrite Ee, Z.leb_refl; split; [done | by apply not_elem_of_nil]. }
  pose proof (w_len _ _ W); pose proof (w_end _ _ W); rewrite zlen_cons in Hn; destruct (Z.leb_spec EXT4_BLOCK_SIZE o); [lia |].
  rewrite entry_ok_wf by done; cbn [negb mbind option_bind]; rewrite is_entry_wf by done; cbn [mbind option_bind]; case_bool_decide as Hd.
  { exists (Some o); split; [done |]; exists [], l; destruct Hd; repeat split; try done; by apply not_elem_of_nil. }
  destruct (IH ltac:(lia) Ee n ltac:(lia)) as (r & -> & Hr); exists r; split; [done |].
  assert (N : forall l', name ∉ (names b l').*1 -> name ∉ (names b (o :: l')).*1).
  { intros l' Hl'; destruct (decide (live b o)) as [Hl | Hl]; [rewrite names_live by done | by rewrite names_dead]; cbn; intros [-> | Hin]%elem_of_cons; tauto. }
  destruct r as [p |]; [| by apply N]; destruct Hr as (l1 & l2 & -> & Hp1 & Hp2 & Hp3); exists (o :: l1), l2; auto.
Qed.

Lemma slack_wf o : 0 <= o -> entry_wf b o -> slack b o = de_rec_len b o - (if decide (live b o) then dirent_ideal_len (de_name_len b o) else 0).
Proof using Hy Hb.
  intros Ho [W1 W2 W3]; unfold slack, live; pose proof (de_name_len_range b o Hy) as Hn; pose proof (ideal_bounds _ Hn); unfold EXT4_BLOCK_SIZE in *.
  destruct (Z.eqb_spec (de_inode b o) 0); case_decide; try tauto; [| specialize (W3 n)]; unfold u16; apply Z.mod_small; lia.
Qed.

Lemma find_slot_seg need o l e : 0 <= o -> seg b o l e -> e = EXT4_BLOCK_SIZE -> forall n, zlen l < Z.of_nat n ->
  exists r, find_slot_loop n b o need = Some r /\
    match r with
    | Slot p => exists l1 l2, l = l1 ++ p :: l2 /\ need <= de_rec_len b p - (if decide (live b p) then dirent_ideal_len (de_name_len b p) else 0)
    | NoSlot => Forall (fun p => de_rec_len b p - (if decide (live b p) then dirent_ideal_len (de_name_len b p) else 0) < need) l
    | Corrupt => False
    end.
Proof using Hy Hb.
  intros Ho S; induction S as [o | o l e W S IH]; intros Ee n Hn; (destruct n as [| n]; [unfold zlen in Hn; lia |]); cbn [find_slot_loop].
  { exists NoSlot; by rewrite Ee, Z.leb_refl. }
  pose proof (w_len _ _ W); pose proof (w_end _ _ W); rewrite zlen_cons in Hn; destruct (Z.leb_spec EXT4_BLOCK_SIZE o); [lia |].
  rewrite entry_ok_wf by done; cbn [negb mbind option_bind]; rewrite slack_wf by done; case_match eqn:Hs.
  { exists (Slot o); split; [done |]; exists [], l; split; [done | lia]. }
  destruct (IH ltac:(lia) Ee n ltac:(lia)) as (r & -> & Hr); exists r; split; [done |].
  destruct r as [p | |]; [| constructor; [lia | done] | done]; destruct Hr as (l1 & l2 & -> & Hp); by exists (o :: l1), l2.
Qed.
End walks.

(** ** Changes between two entries *)

Lemma seg_replace b b' l1 lm l2 p q : bytes b -> zlen b = EXT4_BLOCK_SIZE -> zlen b' = zlen b -> 0 <= p <= q ->
  seg b 0 l1 p -> seg b q l2 EXT4_BLOCK_SIZE -> (forall i, 0 <= i < p \/ q <= i -> znth 0 b' i = znth 0 b i) -> seg b' p lm q ->
  seg b' 0 (l1 ++ lm ++ l2) EXT4_BLOCK_SIZE /\ names b' (l1 ++ lm ++ l2) = names b l1 ++ names b' lm ++ names b l2.
Proof.
  intros Hy Hb Hz Hpq S1 S2 E Sm; destruct (seg_same b b' 0 l1 p) as [S1' N1]; try done; [intros i Hi; apply E; lia |].
  destruct (seg_same b b' q l2 EXT4_BLOCK_SIZE) as [S2' N2]; try done; [lia | intros i Hi; apply E; lia |].
  split; [apply seg_app; exists p; split; [done |]; apply seg_app; by exists q | by rewrite !names_app, N1, N2].
Qed.

Lemma seg_split b l1 p l2 : seg b 0 (l1 ++ p :: l2) EXT4_BLOCK_SIZE ->
  0 <= p /\ seg b 0 l1 p /\ entry_wf b p /\ seg b (p + de_rec_len b p) l2 EXT4_BLOCK_SIZE.
Proof.
  intros (m & S1 & S2)%seg_app; inversion S2 as [| ? ? ? W S]; subst.
  pose proof (seg_le _ _ _ _ S1); pose proof (zlen_nonneg l1); split; [lia |]; split; [done |]; by split.
Qed.

Lemma bytes_dirent ino rl ft name : bytes name -> 0 <= ft < 256 -> bytes (dirent_bytes ino rl ft name).
Proof.
  intros Hn Hf; unfold dirent_bytes, bytes; rewrite !Forall_app; split; [apply bytes32_ok |]; split; [apply bytes16_ok |]; split; [| done].
  constructor; [apply Z.mod_pos_bound; lia |]; by constructor.
Qed.

(** What a slot must offer. *)
Definition room b p : Z := de_rec_len b p - (if decide (live b p) then dirent_ideal_len (de_name_len b p) else 0).

Lemma poke_splice b o l : 0 <= o -> o + zlen l <= zlen b -> poke b o l = Some (splice b o l).
Proof. intros Ho Hl; unfold poke; destruct (Z.leb_spec 0 o), (Z.leb_spec (o + zlen l) (zlen b)); try lia; done. Qed.

Section fill.
Context (b : list Z) (Hy : bytes b) (Hb : zlen b = EXT4_BLOCK_SIZE) (ino ft : Z) (name : list Z) (Hn : name_ok name) (Hi : 0 < ino < 2 ^ 32) (Hf : 0 <= ft < 256).
Context (l1 l2 : list Z) (p : Z) (S : seg b 0 (l1 ++ p :: l2) EXT4_BLOCK_SIZE) (Hr : dirent_ideal_len (zlen name) <= room b p).

Definition filled (b' : list Z) : Prop :=
  zlen b' = EXT4_BLOCK_SIZE /\ bytes b' /\
  exists l', seg b' 0 l' EXT4_BLOCK_SIZE /\ names b' l' ≡ₚ (name, ino) :: names b (l1 ++ p :: l2).

Lemma fill_dead : ~ live b p -> exists b', fill_slot b p ino ft name = Some b' /\ filled b'.
Proof using All.
  intros Hl; destruct (seg_split _ _ _ _ S) as (Hp & S1 & [W1 W2 W3] & S2); destruct Hn as [HN HNb]; pose proof (ideal_bounds (zlen name) ltac:(lia)) as HI.
  unfold room in Hr; rewrite decide_False in Hr by done; unfold fill_slot; unfold live in Hl; destruct (Z.eqb_spec (de_inode b p) 0); [| tauto].
  set (D := dirent_bytes ino (de_rec_len b p) ft name); assert (ZD : zlen D = 8 + zlen name) by apply zlen_dirent.
  rewrite poke_splice by lia; set (b' := splice b p D).
  assert (Hz : zlen b' = zlen b) by (apply zlen_splice; lia).
  destruct (dirent_read ino (de_rec_len b p) ft name b' p) as (R1 & R2 & R3 & R4); try lia.
  { split; [lia |]; unfold EXT4_BLOCK_SIZE in W2; lia. }
  { intros i Hi'; fold D; apply znth_splice_in; lia. }
  assert (Wp : entry_wf b' p) by (split; rewrite ?R2, ?R3; lia).
  destruct (seg_replace b b' l1 [p] l2 p (p + de_rec_len b p)) as [S' N']; try done; try lia.
  { intros i Hi'; apply znth_splice_ne; lia. }
  { constructor; [done |]; rewrite R2; constructor. }
  exists b'; split; [done |]; split; [lia |]; split; [by apply splice_ok, bytes_dirent |]; exists (l1 ++ [p] ++ l2); split; [done |].
  rewrite N', names_live by (unfold live; lia); rewrite R1, R4, names_app, names_dead by (unfold live; lia); cbn; by rewrite Permutation_middle.
Qed.

Lemma fill_live : live b p -> exists b', fill_slot b p ino ft name = Some b' /\ filled b'.
Proof using All.
  intros Hl; destruct (seg_split _ _ _ _ S) as (Hp & S1 & [W1 W2 W3] & S2); destruct Hn as [HN HNb]; pose proof (ideal_bounds (zlen name) ltac:(lia)) as HI.
  unfold room in Hr; rewrite decide_True in Hr by done; unfold fill_slot; unfold live in Hl; destruct (Z.eqb_spec (de_inode b p) 0); [tauto |].
  pose proof (de_name_len_range b p Hy) as Hnl; pose proof (ideal_bounds _ Hnl) as HI2; set (ideal := dirent_ideal_len (de_name_len b p)) in *; specialize (W3 Hl); unfold EXT4_BLOCK_SIZE in W2, Hb.
  rewrite (u16_small (de_rec_len b p - ideal)) by lia; set (rl := de_rec_len b p - ideal) in *.
  set (D := dirent_bytes ino rl ft name); assert (ZD : zlen D = 8 + zlen name) by apply zlen_dirent; set (b1 := splice b (p + 4) (bytes16 ideal)).
  assert (Hz1 : zlen b1 = zlen b) by (apply zlen_splice; rewrite ?zlen_bytes16; lia).
  rewrite poke_splice by (rewrite ?zlen_bytes16; lia); cbn [mbind option_bind]; fold b1; rewrite poke_splice by lia; set (b' := splice b1 (p + ideal) D).
  assert (Hz : zlen b' = zlen b) by (unfold b'; rewrite zlen_splice; lia).
  assert (Out : forall i, 0 <= i < p + ideal \/ p + ideal + zlen D <= i -> znth 0 b' i = znth 0 b1 i) by (intros i Hi'; apply znth_splice_ne; lia).
  assert (Out1 : forall i, 0 <= i < p + 4 \/ p + 6 <= i -> znth 0 b1 i = znth 0 b i) by (intros i Hi'; apply znth_splice_ne; rewrite ?zlen_bytes16; lia).
  destruct (dirent_read ino rl ft name b' (p + ideal)) as (R1 & R2 & R3 & R4); try lia; [intros i Hi'; fold D; apply znth_splice_in; lia |].
  assert (Wq : entry_wf b' (p + ideal)) by (split; unfold EXT4_BLOCK_SIZE; rewrite ?R2, ?R3; lia).
  assert (P1 : de_inode b' p = de_inode b p) by (apply le32_ext; intros k Hk; rewrite Out, Out1 by lia; done).
  assert (P2 : de_rec_len b' p = ideal).
  { transitivity (de_rec_len b1 p); [apply le16_ext; intros k Hk; apply Out; lia | apply le16_splice_eq; lia]. }
  assert (P3 : de_name_len b' p = de_name_len b p) by (unfold de_name_len; rewrite Out, Out1 by lia; done).
  assert (P4 : de_name b' p = de_name b p) by (unfold de_name; rewrite P3; apply slice_ext; [lia | lia |]; intros i Hi'; rewrite Out, Out1 by lia; done).
  assert (Wp : entry_wf b' p) by (split; unfold EXT4_BLOCK_SIZE; rewrite ?P2, ?P3; fold ideal; lia).
  destruct (seg_replace b b' l1 [p; p + ideal] l2 p (p + de_rec_len b p)) as [S' N']; try done; try lia.
  { intros i Hi'; rewrite Out, Out1 by lia; done. }
  { constructor; [done |]; rewrite P2; constructor; [done |]; rewrite R2; replace (p + ideal + rl) with (p + de_rec_len b p) by lia; constructor. }
  exists b'; split; [done |]; split; [unfold EXT4_BLOCK_SIZE; lia |]; split; [by apply splice_ok, bytes_dirent; [apply splice_ok, bytes16_ok |..] |].
  exists (l1 ++ [p; p + ideal] ++ l2); split; [done |].
  rewrite N', names_app, !names_live by (unfold live; lia); rewrite R1, R4, P1, P4; cbn.
  rewrite (Permutation_middle (names b l1) _ (_, _)), <- !Permutation_middle; by constructor.
Qed.
End fill.

Lemma clear_ok b l1 p l2 : bytes b -> zlen b = EXT4_BLOCK_SIZE -> seg b 0 (l1 ++ p :: l2) EXT4_BLOCK_SIZE ->
  let b' := clear_entry b p in
  zlen b' = EXT4_BLOCK_SIZE /\ bytes b' /\ seg b' 0 (l1 ++ p :: l2) EXT4_BLOCK_SIZE /\ names b' (l1 ++ p :: l2) = names b l1 ++ names b l2.
Proof.
  intros Hy Hb S b'; destruct (seg_split _ _ _ _ S) as (Hp & S1 & [W1 W2 W3] & S2).
  assert (Hz : zlen b' = zlen b) by (apply zlen_splice; rewrite ?zlen_bytes32; lia).
  assert (Out : forall i, 0 <= i < p \/ p + 4 <= i -> znth 0 b' i = znth 0 b i) by (intros i Hi; apply znth_splice_ne; rewrite ?zlen_bytes32; lia).
  assert (P1 : de_inode b' p = 0) by (apply le32_splice_eq; lia).
  assert (P2 : de_rec_len b' p = de_rec_len b p) by (apply le16_ext; intros k Hk; apply Out; lia).
  destruct (seg_replace b b' l1 [p] l2 p (p + de_rec_len b p)) as [S' N']; try done; try lia.
  { intros i Hi; apply Out; lia. }
  { constructor; [split; rewrite ?P1, ?P2; done | rewrite P2; constructor]. }
  split; [congruence |]; split; [by apply splice_ok; [| apply bytes32_ok] |]; split; [exact S' |].
  change (l1 ++ p :: l2) with (l1 ++ [p] ++ l2); rewrite N', names_dead by (unfold live; lia); done.
Qed.

(** ** A block as a map from names to inodes *)

Record dir_block b (m : gmap (list Z) Z) : Prop := {
  d_len : zlen b = EXT4_BLOCK_SIZE;
  d_bytes : bytes b;
  d_seg : exists l, seg b 0 l EXT4_BLOCK_SIZE /\ NoDup (names b l).*1 /\ list_to_map (names b l) = m
}.

Lemma seg_steps b l : seg b 0 l EXT4_BLOCK_SIZE -> zlen l < Z.of_nat DIR_STEPS.
Proof. intros S%seg_le; unfold EXT4_BLOCK_SIZE in S; unfold DIR_STEPS; lia. Qed.

Lemma dir_find b m name : dir_block b m ->
  exists r, find_entry DIR_STEPS b 0 name = Some r /\ de_inode b <$> r = m !! name.
Proof.
  intros [Hb Hy (l & S & N & <-)]; destruct (find_entry_seg b Hy Hb name 0 l _ ltac:(lia) S eq_refl DIR_STEPS (seg_steps b l S)) as (r & E & Hr).
  exists r; split; [done |]; destruct r as [p |]; [| by rewrite (not_elem_of_list_to_map_1 _ _ Hr)].
  destruct Hr as (l1 & l2 & -> & Hl & <- & _); symmetry; apply elem_of_list_to_map_1; [done |].
  rewrite names_app, names_live by done; apply elem_of_app; right; by left.
Qed.

Lemma dir_remove b m name p : dir_block b m -> find_entry DIR_STEPS b 0 name = Some (Some p) -> dir_block (clear_entry b p) (delete name m).
Proof.
  intros [Hb Hy (l & S & N & <-)] E; destruct (find_entry_seg b Hy Hb name 0 l _ ltac:(lia) S eq_refl DIR_STEPS (seg_steps b l S)) as (r & E' & Hr).
  rewrite E in E'; injection E' as <-; destruct Hr as (l1 & l2 & -> & Hl & <- & Hn).
  destruct (clear_ok b l1 p l2 Hy Hb S) as (Z1 & Z2 & Z3 & Z4); split; [done | done |]; exists (l1 ++ p :: l2); split; [done |]; rewrite Z4.
  rewrite names_app, names_live in N |- * by done; rewrite fmap_app in N |- *; cbn in N; apply NoDup_app in N as (N1 & N2 & N3); apply NoDup_cons in N3 as [N3 N4].
  split; [apply NoDup_app; split; [done |]; split; [| done]; intros x Hx Hx'; apply (N2 x Hx); by right |].
  rewrite !list_to_map_app; cbn; rewrite delete_union, delete_insert_id; f_equal; rewrite ?delete_id; try done; by apply not_elem_of_list_to_map_1.
Qed.

Lemma dir_slot b m need : dir_block b m ->
  exists r, ext4_dir_find_slot b need = Some r /\
    match r with
    | Slot p => exists l1 l2, seg b 0 (l1 ++ p :: l2) EXT4_BLOCK_SIZE /\ NoDup (names b (l1 ++ p :: l2)).*1 /\ list_to_map (names b (l1 ++ p :: l2)) = m /\ need <= room b p
    | NoSlot => exists l, seg b 0 l EXT4_BLOCK_SIZE /\ Forall (fun p => room b p < need) l
    | Corrupt => False
    end.
Proof.
  intros [Hb Hy (l & S & N & E)]; destruct (find_slot_seg b Hy Hb need 0 l _ ltac:(lia) S eq_refl DIR_STEPS (seg_steps b l S)) as (r & Er & Hr).
  exists r; split; [done |]; destruct r as [p | |]; [| by exists l | done]; destruct Hr as (l1 & l2 & -> & Hr); by exists l1, l2.
Qed.

Lemma dir_fill b m name p ino ft : dir_block b m -> name_ok name -> 0 < ino < 2 ^ 32 -> 0 <= ft < 256 -> m !! name = None ->
  ext4_dir_find_slot b (dirent_ideal_len (zlen name)) = Some (Slot p) ->
  exists b', fill_slot b p ino ft name = Some b' /\ dir_block b' (<[name := ino]> m).
Proof.
  intros HD Hn Hi Hf Hm E; destruct (dir_slot b m (dirent_ideal_len (zlen name)) HD) as (r & E' & Hr); rewrite E in E'; injection E' as <-.
  destruct Hr as (l1 & l2 & S & N & EM & Hr), HD as [Hb Hy _].
  assert (F : exists b', fill_slot b p ino ft name = Some b' /\ filled b ino name l1 l2 p b').
  { destruct (decide (live b p)); [by apply fill_live | by apply fill_dead]. }
  destruct F as (b' & E' & Z1 & Z2 & l' & S' & P); exists b'; split; [done |]; split; [done | done |]; exists l'; split; [done |].
  assert (N' : NoDup ((name, ino) :: names b (l1 ++ p :: l2)).*1).
  { cbn; apply NoDup_cons; split; [| done]; apply not_elem_of_list_to_map_2; by rewrite EM. }
  split; [by rewrite P |]; rewrite (list_to_map_proper _ ((name, ino) :: names b (l1 ++ p :: l2))); [cbn; by rewrite EM | by rewrite P | done].
Qed.

(** *** Emptiness *)

Definition dot_name name : Prop := name = [46] \/ name = [46; 46].
#[global] Instance dot_name_dec name : Decision (dot_name name).
Proof. unfold dot_name; apply _. Defined.

Lemma slice1 b o : 0 <= o -> o + 1 <= zlen b -> slice b o 1 = [znth 0 b o].
Proof.
  intros Ho Hl; apply (znth_ext 0); [by rewrite zlen_slice by lia |]; intros i Hi; rewrite zlen_slice in Hi by lia; rewrite znth_slice by lia.
  replace i with 0 by lia; by rewrite Z.add_0_r.
Qed.

Lemma slice2 b o : 0 <= o -> o + 2 <= zlen b -> slice b o 2 = [znth 0 b o; znth 0 b (o + 1)].
Proof.
  intros Ho Hl; apply (znth_ext 0); [by rewrite zlen_slice by lia |]; intros i Hi; rewrite zlen_slice in Hi by lia; rewrite znth_slice by lia.
  destruct (decide (i = 0)) as [-> | Hne]; [by rewrite Z.add_0_r | by replace i with 1 by lia].
Qed.

Lemma dot_bytes b o : bytes b -> zlen b = EXT4_BLOCK_SIZE -> 0 <= o -> entry_wf b o -> live b o ->
  (de_name_len b o =? 1) && (znth 0 b (o + 8) =? 46) || (de_name_len b o =? 2) && (znth 0 b (o + 8) =? 46) && (znth 0 b (o + 9) =? 46) = bool_decide (dot_name (de_name b o)).
Proof.
  intros Hy Hb Ho [W1 W2 W3] Hl; specialize (W3 Hl); pose proof (de_name_len_range b o Hy) as Hn; pose proof (ideal_bounds _ Hn); unfold dot_name, de_name.
  assert (L : zlen (slice b (o + 8) (de_name_len b o)) = de_name_len b o) by (apply zlen_slice; lia); symmetry.
  destruct (Z.eqb_spec (de_name_len b o) 1) as [E1 | E1]; [rewrite E1, slice1 by lia; cbn [andb orb] |].
  - rewrite orb_false_r; destruct (Z.eqb_spec (znth 0 b (o + 8)) 46) as [-> | Hne]; [by rewrite bool_decide_eq_true_2; [| left] |].
    rewrite bool_decide_eq_false_2; [done |]; by intros [[= ?] | [=]].
  - destruct (Z.eqb_spec (de_name_len b o) 2) as [E2 | E2]; [rewrite E2, slice2 by lia; replace (o + 8 + 1) with (o + 9) by lia; cbn [andb orb] |].
    + destruct (Z.eqb_spec (znth 0 b (o + 8)) 46) as [-> | Hne], (Z.eqb_spec (znth 0 b (o + 9)) 46) as [-> | Hne2]; cbn [andb];
        first [by rewrite bool_decide_eq_true_2; [| right] | rewrite bool_decide_eq_false_2; [done |]; intros [? | ?]; congruence].
    + cbn [andb orb]; rewrite bool_decide_eq_false_2; [done |]; intros [E | E]; rewrite E in L; unfold zlen in L; cbn in L; lia.
Qed.

Lemma only_dots_seg b o l e : bytes b -> zlen b = EXT4_BLOCK_SIZE -> 0 <= o -> seg b o l e -> e = EXT4_BLOCK_SIZE -> forall n, zlen l < Z.of_nat n ->
  only_dots n b o = Some (bool_decide (Forall dot_name (names b l).*1)).
Proof.
  intros Hy Hb Ho S; induction S as [o | o l e W S IH]; intros Ee n Hn; (destruct n as [| n]; [unfold zlen in Hn; lia |]); cbn [only_dots].
  { rewrite Ee, Z.leb_refl; by rewrite bool_decide_eq_true_2 by constructor. }
  pose proof (w_len _ _ W); pose proof (w_end _ _ W); rewrite zlen_cons in Hn; destruct (Z.leb_spec EXT4_BLOCK_SIZE o); [lia |].
  rewrite entry_ok_wf by done; cbn [negb mbind option_bind]; specialize (IH ltac:(lia) Ee n ltac:(lia)); destruct (Z.eqb_spec (de_inode b o) 0) as [E | E].
  { by rewrite IH, names_dead by (unfold live; lia). }
  rewrite names_live by done; cbn [fmap list_fmap fst]; pose proof (dot_bytes b o Hy Hb Ho W E) as HD.
  rewrite <- negb_orb, HD; case_bool_decide as Hd; cbn [negb].
  - rewrite IH; f_equal; apply bool_decide_ext; rewrite Forall_cons; tauto.
  - rewrite bool_decide_eq_false_2; [done |]; rewrite Forall_cons; tauto.
Qed.

Lemma dir_only_dots b m : dir_block b m -> only_dots DIR_STEPS b 0 = Some (bool_decide (map_Forall (fun k _ => dot_name k) m)).
Proof.
  intros [Hb Hy (l & S & N & <-)]; rewrite (only_dots_seg b 0 l _ Hy Hb ltac:(lia) S eq_refl DIR_STEPS (seg_steps b l S)); f_equal; apply bool_decide_ext.
  rewrite Forall_forall; split.
  - intros H k i Hk; apply H; apply elem_of_list_to_map_2 in Hk; apply list_elem_of_fmap; by exists (k, i).
  - intros H k ((k' & i) & -> & Hk)%list_elem_of_fmap; apply (H k' i); by apply elem_of_list_to_map_1.
Qed.

(** ** Blocks made anew *)

Lemma dir_single ino ft name : name_ok name -> 0 < ino < 2 ^ 32 -> 0 <= ft < 256 -> dir_block (single_entry ino ft name) {[ name := ino ]}.
Proof.
  intros [HN HNb] Hi Hf; pose proof (zlen_dirent ino EXT4_BLOCK_SIZE ft name) as ZD; pose proof (ideal_bounds (zlen name) ltac:(lia)).
  assert (ZZ : zlen (zeroes EXT4_BLOCK_SIZE) = EXT4_BLOCK_SIZE) by (by rewrite zlen_zeroes); set (b := single_entry ino ft name).
  assert (Z : zlen b = EXT4_BLOCK_SIZE) by (unfold b, single_entry; rewrite zlen_splice; unfold EXT4_BLOCK_SIZE in *; lia).
  destruct (dirent_read ino EXT4_BLOCK_SIZE ft name b 0) as (R1 & R2 & R3 & R4); try (unfold EXT4_BLOCK_SIZE in *; lia).
  { intros i Hi'; unfold b, single_entry; apply znth_splice_in; unfold EXT4_BLOCK_SIZE in *; lia. }
  split; [done | by apply splice_ok; [apply Forall_replicate | apply bytes_dirent] |]; exists [0]; split; [| split].
  - constructor; [split; rewrite ?R2, ?R3; unfold EXT4_BLOCK_SIZE; lia | rewrite R2; constructor].
  - rewrite names_live by (unfold live; lia); cbn; apply NoDup_singleton.
  - rewrite names_live, R1, R4 by (unfold live; lia); done.
Qed.

Lemma dir_dots ino parent : 0 < ino < 2 ^ 32 -> 0 < parent < 2 ^ 32 -> dir_block (dot_block ino parent) {[ [46] := ino; [46; 46] := parent ]}.
Proof.
  intros Hi Hp; assert (ZZ : zlen (zeroes EXT4_BLOCK_SIZE) = 4096) by done.
  unfold dot_block; change (dirent_ideal_len 1) with 12; set (l := dirent_bytes ino 12 EXT4_FT_DIR [46] ++ zeroes 3 ++ dirent_bytes parent (EXT4_BLOCK_SIZE - 12) EXT4_FT_DIR [46; 46]).
  assert (Zl : zlen l = 22) by done; set (b := splice (zeroes EXT4_BLOCK_SIZE) 0 l).
  assert (Z : zlen b = EXT4_BLOCK_SIZE) by (unfold b; rewrite zlen_splice, ?ZZ; (done || lia)).
  assert (In : forall i, 0 <= i < 22 -> znth 0 b i = znth 0 l i) by (intros i Hi'; unfold b; rewrite <- (Z.add_0_l i) at 1; apply znth_splice_in; lia).
  destruct (dirent_read ino 12 EXT4_FT_DIR [46] b 0) as (R1 & R2 & R3 & R4); try (change (zlen [46]) with 1; rewrite ?Z; unfold EXT4_BLOCK_SIZE; lia).
  { change (zlen [46]) with 1; intros i Hi'; rewrite Z.add_0_l, In by lia; unfold l; by rewrite znth_app_l by (change (zlen (dirent_bytes ino 12 EXT4_FT_DIR [46])) with 9; lia). }
  destruct (dirent_read parent (EXT4_BLOCK_SIZE - 12) EXT4_FT_DIR [46; 46] b 12) as (Q1 & Q2 & Q3 & Q4); try (change (zlen [46; 46]) with 2; rewrite ?Z; unfold EXT4_BLOCK_SIZE; lia).
  { change (zlen [46; 46]) with 2; intros i Hi'; rewrite In by lia; unfold l; rewrite app_assoc, znth_app_r; change (zlen (dirent_bytes ino 12 EXT4_FT_DIR [46] ++ zeroes 3)) with 12; [f_equal; lia | lia]. }
  split; [done | apply splice_ok; [apply Forall_replicate; lia |] |].
  { unfold l; rewrite !Forall_app; repeat split; try (apply bytes_dirent; [repeat constructor; lia | unfold EXT4_FT_DIR; lia]); apply Forall_replicate; lia. }
  exists [0; 12]; split; [| split].
  - constructor; [split; rewrite ?R2, ?R3; unfold EXT4_BLOCK_SIZE; try lia; intros _; change (dirent_ideal_len (zlen [46])) with 12; lia |]; rewrite R2; change (0 + 12) with 12.
    constructor; [split; rewrite ?Q2, ?Q3; unfold EXT4_BLOCK_SIZE; try lia; intros _; change (dirent_ideal_len (zlen [46; 46])) with 12; lia |]; rewrite Q2; constructor.
  - rewrite !names_live by (unfold live; lia); rewrite R4, Q4; cbn; apply NoDup_cons; split; [| apply NoDup_singleton]; by intros ?%list_elem_of_singleton.
  - rewrite !names_live by (unfold live; lia); rewrite R1, R4, Q1, Q4; done.
Qed.
