(* ===== verification/Ext4DirProofs.v ===== *)
(** * ext4: a directory on the disk

    A directory whose blocks its inode names itself is a map from names to
    inodes; what the walks over its blocks find and change. *)
From Stdlib Require Import ZArith Lia.
From stdpp Require Import base numbers list gmap.
From S2P Require Import Prelude Bytes CString Gpt Ext4Disk Ext4Map Ext4Alloc Ext4Dir.
From S2P Require Import Ext4Proofs Ext4AllocProofs Ext4Blocks Ext4DirBlock.

Implicit Types (d : Z -> list Z) (f : ext4_fs) (o : list bool) (h inode bs : list Z) (b ino : Z) (m : gmap (list Z) Z).

(** ** Files of direct blocks *)

Record direct inode bs : Prop := {
  di_len : zlen inode = 128;
  di_bytes : bytes inode;
  di_legacy : is_extents inode = false;
  di_size : i_size_lo inode = EXT4_BLOCK_SIZE * zlen bs;
  di_high : i_size_high inode = 0;
  di_few : zlen bs <= 12;
  di_block j : 0 <= j < zlen bs -> i_block inode j = znth 0 bs j
}.

Lemma bmap_direct inode bs j c : direct inode bs -> 0 <= j < zlen bs -> ext4_bmap inode j c = mret (c, Some (znth 0 bs j)).
Proof.
  intros H Hj; pose proof (di_few _ _ H); pose proof (di_legacy _ _ H) as HL; unfold ext4_bmap; unfold is_extents in HL; rewrite HL.
  destruct (Z.ltb_spec j 12); [| lia]; by rewrite (di_block _ _ H).
Qed.

Lemma read_loop_done n inode cur c acc : read_loop n inode cur 0 c acc = mret (Some acc).
Proof. by destruct n. Qed.

Lemma read_loop_step n inode cur left c acc : 0 < left ->
  read_loop (S n) inode cur left c acc =
    ('(c, phys) ← ext4_bmap inode (u32 (cur / EXT4_BLOCK_SIZE)) c;
     match phys with
     | None => mret None
     | Some phys =>
       b ← (if phys =? 0 then mret (Some (zeroes EXT4_BLOCK_SIZE)) else ext4_read_block phys);
       match b with
       | None => mret None
       | Some b =>
         let to_copy := Z.min (EXT4_BLOCK_SIZE - cur mod EXT4_BLOCK_SIZE) left in
         read_loop n inode (cur + to_copy) (left - to_copy) c (acc ++ slice b (cur mod EXT4_BLOCK_SIZE) to_copy)
       end
     end).
Proof. intros Hl; cbn [read_loop]; destruct (Z.leb_spec left 0); [lia | done]. Qed.

Lemma runs_read_direct {A} inode bs j (k : Z * list Z -> M A) d o h f Q :
  dev_ok d -> direct inode bs -> 0 <= j < zlen bs -> znth 0 bs j <> 0 ->
  (forall o', calm o o' -> o <> [] -> runs (k (-1, [])) (mk d o' h f) Q) ->
  (forall o', calm o o' -> runs (k (EXT4_BLOCK_SIZE, blk d f (znth 0 bs j))) (mk d o' h f) Q) ->
  runs (ext4_read_data inode (j * EXT4_BLOCK_SIZE) EXT4_BLOCK_SIZE ≫= k) (mk d o h f) Q.
Proof.
  intros Hd H Hj Hne H1 H2; pose proof H as [_ _ _ HS HH HF _]; unfold EXT4_BLOCK_SIZE in *; apply runs_bind; unfold ext4_read_data; cbn [Z.eqb].
  assert (EF : file_size inode = 4096 * zlen bs) by (unfold file_size; rewrite HS, HH; apply Z.lor_0_r); rewrite EF.
  destruct (Z.leb_spec (4096 * zlen bs) (j * 4096)); [lia |]; rewrite u64_small by lia; destruct (Z.ltb_spec (4096 * zlen bs) (j * 4096 + 4096)); [lia |].
  apply runs_kmalloc; intros o1 [|] C1 Hb; cbn [negb]; [| apply runs_ret, H1; [done | intros Ho; by specialize (Hb Ho)]].
  change (Z.to_nat (4096 / EXT4_BLOCK_SIZE + 2)) with 3%nat; rewrite read_loop_step by lia; unfold EXT4_BLOCK_SIZE; rewrite Z.mod_mul, Z.div_mul by lia; rewrite u32_small by lia.
  rewrite (bmap_direct _ bs) by done; change (Z.min (4096 - 0) 4096) with 4096; change (4096 - 4096) with 0.
  apply runs_bind, runs_bind, runs_ret; destruct (Z.eqb_spec (znth 0 bs j) 0); [done |]; apply runs_read_block; intros o2 C2.
  - intros Hn; apply runs_ret, runs_ret, H1; [by eapply calm_trans | by intros ->; apply Hn, C1].
  - cbv zeta; rewrite read_loop_done; apply runs_ret, runs_ret; cbn [app]; change (i32 4096) with 4096; rewrite slice_all by (by rewrite zlen_blk); apply H2; by eapply calm_trans.
Qed.

Lemma load_block_all (x l : list Z) : zlen x <= zlen l -> load x l = l.
Proof. intros Hl; unfold load; rewrite drop_ge by (unfold zlen in Hl; lia); apply app_nil_r. Qed.

(** ** The map of a list of blocks *)

Fixpoint dir_list d f (bs : list Z) (m : gmap (list Z) Z) : Prop :=
  match bs with
  | [] => m = ∅
  | b :: bs => exists m1 m2, dir_block (blk d f b) m1 /\ dir_list d f bs m2 /\ m1 ##ₘ m2 /\ m = m1 ∪ m2
  end.

Lemma dir_list_same d d' f f' bs m : (forall b, b ∈ bs -> blk d' f' b = blk d f b) -> dir_list d f bs m -> dir_list d' f' bs m.
Proof.
  revert m; induction bs as [| b bs IH]; intros m E; [done |]; intros (m1 & m2 & H1 & H2 & H3 & H4); exists m1, m2; rewrite E by (by left).
  repeat split; try done; apply H1 || (apply IH; [intros x Hx; apply E; by right | done]).
Qed.

(** One more block at the end. *)
Lemma dir_list_app d f bs b m m1 : dir_list d f bs m -> dir_block (blk d f b) m1 -> m ##ₘ m1 -> dir_list d f (bs ++ [b]) (m ∪ m1).
Proof.
  revert m; induction bs as [| x bs IH]; intros m; cbn [dir_list app].
  - intros -> H1 _; exists m1, ∅; split; [done |]; split; [done |]; split; [apply map_disjoint_empty_r |]; by rewrite map_empty_union, map_union_empty.
  - intros (k1 & k2 & H1 & H2 & H3 & ->) Hb [D1 D2]%map_disjoint_union_l; exists k1, (k2 ∪ m1); split; [done |]; split; [by apply IH |].
    split; [by apply map_disjoint_union_r | by rewrite map_union_assoc].
Qed.

(** A suffix of the blocks of the directory, from index [j] on. *)
Definition suffix_at (bs : list Z) (j : Z) (suf : list Z) : Prop := 0 <= j /\ j + zlen suf = zlen bs /\ forall i, 0 <= i < zlen suf -> znth 0 bs (j + i) = znth 0 suf i.

Lemma suffix_at_all bs : suffix_at bs 0 bs.
Proof. repeat split; try lia. Qed.

Lemma suffix_at_cons bs j b suf : suffix_at bs j (b :: suf) -> 0 <= j < zlen bs /\ znth 0 bs j = b /\ suffix_at bs (j + 1) suf.
Proof.
  intros (H1 & H2 & H3); rewrite zlen_cons in *; pose proof (zlen_nonneg suf); split; [lia |]; split; [by rewrite <- (Z.add_0_r j), H3 by lia |].
  repeat split; try lia; intros i Hi; rewrite <- Z.add_assoc, H3, znth_cons_pos by lia; f_equal; lia.
Qed.

Section walks.
Context d f (Hd : dev_ok d) inode bs (Hi : direct inode bs) (Hne : Forall (fun b => b <> 0) bs).

Lemma size_test j suf : suffix_at bs j suf -> (i_size_lo inode <=? j * EXT4_BLOCK_SIZE) = bool_decide (suf = []).
Proof using Hi.
  intros (H1 & H2 & _); rewrite (di_size _ _ Hi); unfold EXT4_BLOCK_SIZE; destruct suf as [| x suf]; [rewrite bool_decide_eq_true_2 by done; unfold zlen in H2; cbn in H2; unfold zlen; lia |].
  rewrite bool_decide_eq_false_2 by done; rewrite zlen_cons in H2; pose proof (zlen_nonneg suf); lia.
Qed.

Lemma suffix_ne j b suf : suffix_at bs j (b :: suf) -> 0 <= j < zlen bs /\ znth 0 bs j = b /\ b <> 0 /\ suffix_at bs (j + 1) suf.
Proof using Hne.
  intros H; destruct (suffix_at_cons _ _ _ _ H) as (H1 & H2 & H3); repeat (split; [done |]); split; [| done]; rewrite <- H2.
  rewrite Forall_forall in Hne; apply Hne; unfold znth; destruct (Z.ltb_spec j 0); [lia |].
  destruct (bs !! Z.to_nat j) eqn:E; [by apply list_elem_of_lookup_2 in E | apply lookup_ge_None in E; unfold zlen in H1; lia].
Qed.

Lemma runs_lookup_blocks {A} name (k : option Z -> M A) h Q : forall suf n j m o buf,
  suffix_at bs j suf -> dir_list d f suf m -> zlen suf < Z.of_nat n -> zlen buf <= EXT4_BLOCK_SIZE ->
  (forall o', calm o o' -> o <> [] -> runs (k None) (mk d o' h f) Q) ->
  (forall o', calm o o' -> runs (k (m !! name)) (mk d o' h f) Q) ->
  runs (lookup_blocks n inode (i_size_lo inode) (j * EXT4_BLOCK_SIZE) buf name ≫= k) (mk d o h f) Q.
Proof using Hd Hi Hne.
  induction suf as [| b suf IH]; intros n j m o buf HS HD Hn Hbuf H1 H2; (destruct n as [| n]; [unfold zlen in Hn; lia |]); cbn [lookup_blocks];
    rewrite (size_test _ _ HS); case_bool_decide as Eb; try done.
  { cbn in HD; subst m; apply runs_bind, runs_ret; rewrite <- (lookup_empty name); apply H2, calm_same. }
  destruct (suffix_ne _ _ _ HS) as (Hj & Ej & Hb0 & HS'); destruct HD as (m1 & m2 & D1 & D2 & D3 & ->); rewrite zlen_cons in Hn.
  apply runs_bind, (runs_read_direct inode bs); [done | done | done | by rewrite Ej | |]; intros o1 C1.
  { intros Ho; apply runs_ret; by apply H1. }
  rewrite Ej; cbn [Z.leb Z.compare EXT4_BLOCK_SIZE]; pose proof (d_len _ _ D1) as DL; rewrite load_block_all by (by rewrite DL).
  destruct (dir_find _ _ name D1) as (r & -> & Hr); cbn [lift]; apply runs_bind, runs_ret; destruct r as [p |]; cbn in Hr.
  - apply runs_ret; rewrite (lookup_union_Some_l m1 m2 name (de_inode (blk d f b) p)) in H2 by done; by apply H2.
  - rewrite lookup_union_r in H2 by done; pose proof (di_few _ _ Hi); unfold EXT4_BLOCK_SIZE at 2; rewrite u32_small by (unfold EXT4_BLOCK_SIZE; lia).
    replace (j * EXT4_BLOCK_SIZE + 4096) with ((j + 1) * EXT4_BLOCK_SIZE) by (unfold EXT4_BLOCK_SIZE; lia).
    apply runs_unbind, (IH n (j + 1) m2); try done; [lia | by rewrite DL | |]; intros o2 C2; [intros Ho; apply H1 | apply H2]; try (by eapply calm_trans); by intros ->; apply Ho, C1.
Qed.

Context (Hp : part_ok f) (Hb : Forall blkno bs) (Hnd : NoDup bs).

Lemma suffix_elem j suf x : suffix_at bs j suf -> x ∈ suf -> x ∈ bs.
Proof using Type.
  intros (H1 & H2 & H3) (i & Hx)%list_elem_of_lookup; pose proof (lookup_lt_Some _ _ _ Hx); specialize (H3 (Z.of_nat i) ltac:(unfold zlen; lia)).
  rewrite (znth_lookup 0 suf (Z.of_nat i) x) in H3 by (rewrite ?Nat2Z.id; done || lia); unfold znth in H3; destruct (Z.ltb_spec (j + Z.of_nat i) 0); [lia |].
  destruct (bs !! Z.to_nat (j + Z.of_nat i)) eqn:E; cbn in H3; [subst; by eapply list_elem_of_lookup_2 |].
  apply lookup_ge_None in E; unfold zlen in *; lia.
Qed.

Lemma suffix_nodup j b suf : suffix_at bs j (b :: suf) -> b ∉ suf.
Proof using Hnd.
  intros H (i & Hx)%list_elem_of_lookup; destruct (suffix_at_cons _ _ _ _ H) as (Hj & Ej & H1 & H2 & H3); pose proof (lookup_lt_Some _ _ _ Hx).
  specialize (H3 (Z.of_nat i) ltac:(unfold zlen; lia)); rewrite (znth_lookup 0 suf (Z.of_nat i) b) in H3 by (rewrite ?Nat2Z.id; done || lia).
  assert (L : forall q, 0 <= q < zlen bs -> bs !! Z.to_nat q = Some (znth 0 bs q)).
  { intros q Hq; by apply znth_in_range. }
  pose proof (L j Hj) as L1; pose proof (L (j + 1 + Z.of_nat i) ltac:(unfold zlen in *; lia)) as L2.
  rewrite Ej in L1; rewrite H3 in L2; pose proof (NoDup_lookup _ _ _ _ Hnd L1 L2); lia.
Qed.

Lemma runs_write_dir_block {A} j l (k : bool -> M A) o h Q : 0 <= j < zlen bs -> znth 0 bs j <> 0 ->
  (forall o', calm o o' -> o <> [] -> runs (k false) (mk d o' h f) Q) ->
  (forall o', calm o o' -> runs (k true) (mk (put_blk d f (znth 0 bs j) l) o' h f) Q) -> runs (ext4_write_dir_block inode j l ≫= k) (mk d o h f) Q.
Proof using Hi.
  intros Hj Hz H1 H2; apply runs_bind; unfold ext4_write_dir_block; rewrite (bmap_direct _ bs) by done; apply runs_bind, runs_ret.
  destruct (Z.eqb_spec (znth 0 bs j) 0); [done |]; by apply runs_unbind, runs_write_block.
Qed.

(** Block [b] of the directory replaced. *)
Lemma dir_list_put b suf l m1 m2 : blkno b -> b ∉ suf -> Forall blkno suf -> dir_block l m1 -> dir_list d f suf m2 -> m1 ##ₘ m2 ->
  let d' := put_blk d f b l in same_but d d' f (eq b) /\ dir_list d' f (b :: suf) (m1 ∪ m2).
Proof using Hd Hp.
  intros Hbn Hs HF D1 D2 D3 d'; pose proof D1 as [L1 L2 _]; assert (S : same_but d d' f (eq b)) by (by apply same_put); split; [done |].
  exists m1, m2; split; [by unfold d'; rewrite blk_put, decide_True |]; split; [| done]; apply (dir_list_same d _ f); [| done].
  intros x Hx; apply S; [rewrite Forall_forall in HF; by apply HF | by intros ->].
Qed.

(** [None]: no block had room, or a transfer failed; nothing changed. *)
Lemma runs_insert_blocks {A} name ino ft (k : option bool -> M A) h Q :
  name_ok name -> 0 < ino < 2 ^ 32 -> 0 <= ft < 256 -> forall suf n j m o buf,
  suffix_at bs j suf -> dir_list d f suf m -> m !! name = None -> zlen suf < Z.of_nat n -> zlen buf <= EXT4_BLOCK_SIZE -> Forall blkno suf ->
  (forall o', calm o o' -> runs (k None) (mk d o' h f) Q) ->
  (forall o', calm o o' -> o <> [] -> runs (k (Some false)) (mk d o' h f) Q) ->
  (forall o' d', calm o o' -> same_but d d' f (fun x => x ∈ suf) -> dir_list d' f suf (<[name := ino]> m) -> runs (k (Some true)) (mk d' o' h f) Q) ->
  runs (insert_blocks n inode (i_size_lo inode) j buf (dirent_ideal_len (zlen name)) ino ft name ≫= k) (mk d o h f) Q.
Proof using Hd Hi Hne Hp Hnd.
  intros Hn Hino Hft; induction suf as [| b suf IH]; intros n j m o buf HS HD Hm Hlen Hbuf HF H1 H2 H3; (destruct n as [| n]; [unfold zlen in Hlen; lia |]); cbn [insert_blocks];
    rewrite (size_test _ _ HS); case_bool_decide as Eb; try done.
  { apply runs_bind, runs_ret, H1, calm_same. }
  destruct (suffix_ne _ _ _ HS) as (Hj & Ej & Hb0 & HS'); pose proof (suffix_nodup _ _ _ HS) as Hbs; destruct HD as (m1 & m2 & D1 & D2 & D3 & ->); rewrite zlen_cons in Hlen.
  apply Forall_cons in HF as [Hbn HF]; apply lookup_union_None in Hm as [Hm1 Hm2].
  apply runs_bind, (runs_read_direct inode bs); [done | done | done | by rewrite Ej | |]; intros o1 C1.
  { intros Ho; apply runs_ret; by apply H1. }
  rewrite Ej; cbn [Z.leb Z.compare EXT4_BLOCK_SIZE]; pose proof (d_len _ _ D1) as DL; rewrite load_block_all by (by rewrite DL).
  destruct (dir_slot _ _ (dirent_ideal_len (zlen name)) D1) as (r & Er & Hr); rewrite Er; cbn [lift]; apply runs_bind, runs_ret; destruct r as [p | |]; [| | done].
  - destruct (dir_fill _ m1 name p ino ft D1 Hn Hino Hft Hm1 Er) as (b' & -> & D1'); cbn [lift]; apply runs_bind, runs_ret, runs_write_dir_block; [done | by rewrite Ej | |]; intros o2 C2.
    + intros Ho; apply runs_ret, H2; [by eapply calm_trans | by intros ->; apply Ho, C1].
    + rewrite Ej; assert (D3' : <[name := ino]> m1 ##ₘ m2) by (by apply map_disjoint_insert_l).
      destruct (dir_list_put b suf b' _ m2 Hbn Hbs HF D1' D2 D3') as [S' L']; apply runs_ret, H3; [by eapply calm_trans | | by rewrite insert_union_l].
      eapply same_weaken; [| exact S']; intros x <-; by left.
  - apply runs_unbind, (IH n (j + 1) m2); try done; [lia | by rewrite DL | | |].
    + intros o2 C2; apply H1; by eapply calm_trans.
    + intros o2 C2 Ho; apply H2; [by eapply calm_trans | by intros ->; apply Ho, C1].
    + intros o2 d' C2 S' L'; apply H3; [by eapply calm_trans | eapply same_weaken; [| exact S']; intros x Hx; by right |].
      exists m1, (<[name := ino]> m2); destruct S' as [? S']; rewrite (S' b) by done; repeat split; try done; try apply D1; [by apply map_disjoint_insert_r | by rewrite insert_union_r].
Qed.

Lemma runs_remove_blocks {A} name (k : bool -> M A) h Q : forall suf n j m o buf,
  suffix_at bs j suf -> dir_list d f suf m -> zlen suf < Z.of_nat n -> zlen buf <= EXT4_BLOCK_SIZE -> Forall blkno suf ->
  (forall o', calm o o' -> (o = [] -> m !! name = None) -> runs (k false) (mk d o' h f) Q) ->
  (forall o' d', calm o o' -> is_Some (m !! name) -> same_but d d' f (fun x => x ∈ suf) -> dir_list d' f suf (delete name m) -> runs (k true) (mk d' o' h f) Q) ->
  runs (remove_blocks n inode (i_size_lo inode) j buf name ≫= k) (mk d o h f) Q.
Proof using Hd Hi Hne Hp Hnd.
  induction suf as [| b suf IH]; intros n j m o buf HS HD Hlen Hbuf HF H1 H2; (destruct n as [| n]; [unfold zlen in Hlen; lia |]); cbn [remove_blocks];
    rewrite (size_test _ _ HS); case_bool_decide as Eb; try done.
  { apply runs_bind, runs_ret, H1; [apply calm_same |]; intros _; cbn in HD; by subst. }
  destruct (suffix_ne _ _ _ HS) as (Hj & Ej & Hb0 & HS'); pose proof (suffix_nodup _ _ _ HS) as Hbs; destruct HD as (m1 & m2 & D1 & D2 & D3 & ->); rewrite zlen_cons in Hlen.
  apply Forall_cons in HF as [Hbn HF]; apply runs_bind, (runs_read_direct inode bs); [done | done | done | by rewrite Ej | |]; intros o1 C1.
  { intros Ho; apply runs_ret; by apply H1. }
  rewrite Ej; cbn [Z.leb Z.compare EXT4_BLOCK_SIZE]; pose proof (d_len _ _ D1) as DL; rewrite load_block_all by (by rewrite DL).
  destruct (dir_find _ _ name D1) as (r & Er & Hr); rewrite Er; cbn [lift]; apply runs_bind, runs_ret; destruct r as [p |]; cbn in Hr.
  - pose proof (dir_remove _ m1 name p D1 Er) as D1'; assert (N2 : m2 !! name = None) by (by eapply map_disjoint_Some_l).
    apply runs_unbind, runs_write_dir_block; [done | by rewrite Ej | |]; intros o2 C2.
    + intros Ho; apply H1; [by eapply calm_trans | by intros ->; destruct Ho; apply C1].
    + rewrite Ej; assert (D3' : delete name m1 ##ₘ m2) by (by apply map_disjoint_delete_l); destruct (dir_list_put b suf _ _ m2 Hbn Hbs HF D1' D2 D3') as [S' L'].
      apply H2; [by eapply calm_trans | exists (de_inode (blk d f b) p); by apply lookup_union_Some_l | eapply same_weaken; [| exact S']; intros x <-; by left |].
      by rewrite delete_union, (delete_id m2).
  - apply runs_unbind, (IH n (j + 1) m2); try done; [lia | by rewrite DL | |].
    + intros o2 C2 Hm; apply H1; [by eapply calm_trans |]; intros Ho; rewrite lookup_union_r by done; by apply Hm, C1.
    + intros o2 d' C2 Hs S' L'; apply H2; [by eapply calm_trans | by rewrite lookup_union_r | eapply same_weaken; [| exact S']; intros x Hx; by right |].
      exists m1, (delete name m2); destruct S' as [? S']; rewrite (S' b) by done; repeat split; try done; try apply D1; [by apply map_disjoint_delete_r | by rewrite delete_union, (delete_id m1)].
Qed.
End walks.
