(* ===== verification/Ext4DirTheorems.v ===== *)
(** * ext4: directories, theorems *)
From Stdlib Require Import ZArith Lia.
From stdpp Require Import base numbers list gmap.
From S2P Require Import Prelude Bytes Gpt CString Ext4Disk Ext4Map Ext4Alloc Ext4Dir Ext4Ops Ext4Proofs.
From S2P Require Import Ext4AllocProofs Ext4Blocks SmallDisk Ext4DirBlock Ext4DirProofs.

Implicit Types (d : Z -> list Z) (f : ext4_fs) (o : list bool) (h inode bs : list Z) (ino : Z).

(** ** ext4: look-up, insertion and removal in a directory

    Each call on a directory whose blocks its inode names itself keeps the
    allocator's invariant and changes the directory's map as it should, or not at
    all. *)

(** ** A directory *)

Record dir_on d f ino bs m : Prop := {
  on_direct : direct (inode_at d f ino) bs;
  on_nodup : NoDup bs;
  on_sane : zlen bs <= s_blocks_count_lo f;
  on_blocks : Forall (fun b => block_of f b /\ used d f b = true /\ ~ fixed_block f b /\ b <> table_block f ino) bs;
  on_map : dir_list d f bs m
}.

(** The state a call on the directory [ino] begins and ends in. *)
Record dir_state d f ino bs m : Prop := {
  ds_alloc : alloc_ok d f;
  ds_ino : ino_ok d f ino;
  ds_dir : dir_on d f ino bs m
}.

Lemma dir_on_ne d f ino bs m : alloc_ok d f -> dir_on d f ino bs m -> Forall (fun b => b <> 0) bs /\ Forall blkno bs.
Proof.
  intros A H; split; (eapply Forall_impl; [apply (on_blocks _ _ _ _ _ H) |]); intros b (H1 & H2 & H3 & H4); cbn.
  - intros ->; apply H3; by left.
  - by apply (blkno_of f); [apply A |].
Qed.

(** The calls that leave the directory's own blocks alone. *)
Lemma dir_state_frame d f d' f' ino bs m (P : Z -> Prop) :
  dir_state d f ino bs m -> alloc_ok d' f' -> geo f f' -> same_but d d' f P -> (forall b, block_of f b -> used d f b = true -> used d' f' b = true) ->
  (forall b, block_of f b -> used d f b = true -> ~ fixed_block f b -> ~ P b) -> dir_state d' f' ino bs m.
Proof.
  intros [A I D] A' G S U HP; pose proof (a_fs d f A) as F; pose proof (f_groups f F); pose proof I as [_ _ _ I1 I2 I3].
  assert (I' : ino_ok d' f' ino) by (by eapply ino_ok_geo; [exact G | lia | exact I | apply U]); split; [done | done |].
  assert (EI : inode_at d' f' ino = inode_at d f ino).
  { rewrite (inode_at_geo _ f f') by (done || lia); eapply inode_at_same; [done | apply A | done | exact S | by apply HP]. }
  destruct D as [D1 D2 D3 D4 D5]; split; rewrite ?EI; try done.
  - by rewrite (g_blocks _ _ G).
  - eapply Forall_impl; [exact D4 |]; intros b (B1 & B2 & B3 & B4); cbn; split; [unfold block_of; by rewrite (g_groups _ _ G) |]; split; [by apply U |].
    split; [intros X; by apply B3, (fixed_geo f f') | by rewrite (table_block_geo f f') by (done || lia)].
  - apply (dir_list_same d d' f f'); [| done]; intros b Hb; rewrite Forall_forall in D4; destruct (D4 b Hb) as (B1 & B2 & B3 & B4).
    rewrite (blk_geo d' f f') by done; destruct S as [_ S]; apply S; [by apply (blkno_of f) | by apply HP].
Qed.

Lemma sane_dir d f ino bs m : dir_on d f ino bs m -> ext4_dir_size_sane f (i_size_lo (inode_at d f ino)) = true.
Proof. intros D; unfold ext4_dir_size_sane; rewrite (di_size _ _ (on_direct _ _ _ _ _ D)); pose proof (on_sane _ _ _ _ _ D); unfold EXT4_BLOCK_SIZE; apply Z.leb_le; lia. Qed.

Lemma dir_blocks_enough d f ino bs m : dir_on d f ino bs m -> zlen bs < Z.of_nat (dir_blocks (i_size_lo (inode_at d f ino))).
Proof.
  intros D; rewrite (di_size _ _ (on_direct _ _ _ _ _ D)); unfold dir_blocks, EXT4_BLOCK_SIZE; rewrite (Z.mul_comm 4096), Z.div_mul by lia; pose proof (zlen_nonneg bs); lia.
Qed.

(** ** Look-up *)

Lemma runs_lookup_in_dir {A} ino name (k : option Z -> M A) d o h f bs m Q :
  dir_state d f ino bs m -> zlen h <= EXT4_BLOCK_SIZE ->
  (forall o', calm o o' -> o <> [] -> runs (k None) (mk d o' h f) Q) ->
  (forall o', calm o o' -> runs (k (m !! name)) (mk d o' h f) Q) -> runs (ext4_lookup_in_dir ino name ≫= k) (mk d o h f) Q.
Proof.
  intros [HA I D] Hh H1 H2; pose proof HA as [[F Hd _ _] _ _]; destruct (dir_on_ne _ _ _ _ _ HA D) as [Hne Hbn]; apply runs_bind; unfold ext4_lookup_in_dir.
  apply runs_get_inode; [done | done | |]; intros o1 C1; [intros Hn; by apply runs_ret, H1 |]; cbv zeta.
  apply runs_get_fs; rewrite (sane_dir _ _ _ _ _ D); cbn [negb]; apply runs_kmalloc; intros o2 [|] C2 Hb; cbn [negb].
  - apply runs_fresh, runs_unbind; rewrite <- (Z.mul_0_l EXT4_BLOCK_SIZE).
    apply (runs_lookup_blocks d f Hd _ bs (on_direct _ _ _ _ _ D) Hne name _ h _ bs _ 0 m); [apply suffix_at_all | apply D | by eapply dir_blocks_enough | done | |]; intros o3 C3.
    + intros Hn; apply H1; [repeat (eapply calm_trans; [eassumption |]); apply calm_same | by intros ->; apply Hn, C2, C1].
    + apply H2; repeat (eapply calm_trans; [eassumption |]); apply calm_same.
  - apply runs_ret, H1; [by eapply calm_trans | intros Ho; by specialize (Hb (C1 Ho))].
Qed.

(** ** Changes to the directory's own blocks *)

Lemma dir_state_change d f d' ino bs m m' :
  dir_state d f ino bs m -> same_but d d' f (fun x => x ∈ bs) -> dir_list d' f bs m' -> dir_state d' f ino bs m'.
Proof.
  intros [HA I D] S L; pose proof HA as [[F Hd _ _] _ _]; pose proof D as [D1 D2 D3 D4 D5]; rewrite Forall_forall in D4.
  assert (NB : forall g, 0 <= g < n_groups f -> bg_block_bitmap_lo f g ∉ bs) by (intros g Hg Hb; destruct (D4 _ Hb) as (_ & _ & X & _); apply X; right; right; by exists g).
  assert (U : forall b, block_of f b -> used d' f b = used d f b) by (intros b Hb; exact (used_same d d' f b _ HA S NB Hb)).
  assert (NT : table_block f ino ∉ bs) by (intros Hb; by destruct (D4 _ Hb) as (_ & _ & _ & X)).
  split; [by eapply alloc_same | destruct I; split; try done; by rewrite U |].
  assert (EI : inode_at d' f ino = inode_at d f ino) by (by eapply inode_at_same).
  split; rewrite ?EI; try done; apply Forall_forall; intros b Hb; destruct (D4 b Hb) as (B1 & B2 & B3 & B4); rewrite U; done.
Qed.

Lemma runs_dir_remove {A} ino name (k : bool -> M A) d o h f bs m Q :
  dir_state d f ino bs m -> zlen h <= EXT4_BLOCK_SIZE ->
  (forall o', calm o o' -> (o = [] -> m !! name = None) -> runs (k false) (mk d o' h f) Q) ->
  (forall o' d', calm o o' -> is_Some (m !! name) -> dir_state d' f ino bs (delete name m) -> runs (k true) (mk d' o' h f) Q) ->
  runs (ext4_dir_remove ino name ≫= k) (mk d o h f) Q.
Proof.
  intros HS Hh H1 H2; pose proof HS as [HA I D]; pose proof HA as [[F Hd _ _] _ _]; destruct (dir_on_ne _ _ _ _ _ HA D) as [Hne Hbn]; apply runs_bind; unfold ext4_dir_remove.
  apply runs_get_inode; [done | done | |]; intros o1 C1; [intros Hn; by apply runs_ret, H1 |]; cbv zeta.
  apply runs_get_fs; rewrite (sane_dir _ _ _ _ _ D); cbn [negb]; apply runs_kmalloc; intros o2 [|] C2 Hb; cbn [negb].
  - apply runs_fresh, runs_unbind.
    apply (runs_remove_blocks d f Hd _ bs (on_direct _ _ _ _ _ D) Hne (f_part f F) (on_nodup _ _ _ _ _ D) name _ h _ bs _ 0 m);
      [apply suffix_at_all | apply D | by eapply dir_blocks_enough | done | done | |].
    + intros o3 C3 Hm; apply H1; [repeat (eapply calm_trans; [eassumption |]); apply calm_same | by intros Ho; apply Hm, C2, C1].
    + intros o3 d' C3 Hs S L; apply H2; [repeat (eapply calm_trans; [eassumption |]); apply calm_same | done | by eapply dir_state_change].
  - apply runs_ret, H1; [by eapply calm_trans | intros Ho; by specialize (Hb (C1 Ho))].
Qed.

(** ** A new block at the end *)

Definition appended inode n nb : list Z := set_i_size_lo (count_meta (set_i_block inode n nb)) (u32 ((n + 1) * EXT4_BLOCK_SIZE)).

Lemma direct_app inode bs nb : direct inode bs -> zlen bs < 12 -> 0 <= nb < 2 ^ 32 ->
  direct (appended inode (zlen bs) nb) (bs ++ [nb]).
Proof.
  intros [H1 H2 H3 H4 H5 H6 H7] Hn Hnb; set (n := zlen bs) in *; assert (0 <= n) by apply zlen_nonneg; unfold appended, count_meta, set_i_block, set_i_blocks_lo, set_i_size_lo.
  set (x := u32 ((n + 1) * EXT4_BLOCK_SIZE)); set (i1 := splice inode (40 + 4 * n) (bytes32 nb)); set (y := u32 _); set (i2 := splice i1 28 (bytes32 y)).
  assert (L1 : zlen i1 = 128) by (unfold i1; rewrite zlen_splice; rewrite ?zlen_bytes32; lia).
  assert (L2 : zlen i2 = 128) by (unfold i2; rewrite zlen_splice; rewrite ?zlen_bytes32; lia).
  assert (Hx : 0 <= x < 2 ^ 32) by (unfold x, EXT4_BLOCK_SIZE; rewrite u32_small; lia).
  assert (K : forall p, 0 <= p -> 8 <= p -> p + 4 <= 28 \/ 32 <= p -> le32 (splice i2 4 (bytes32 x)) p = le32 i1 p).
  { intros p Hp0 Hp Hd; rewrite le32_splice_ne by (rewrite ?zlen_bytes32; lia); unfold i2; rewrite le32_splice_ne by (rewrite ?zlen_bytes32; lia); done. }
  split.
  - rewrite zlen_splice; rewrite ?zlen_bytes32; lia.
  - repeat (apply splice_ok; [| apply bytes32_ok]); done.
  - unfold is_extents, i_flags in *; rewrite K by lia; unfold i1; rewrite le32_splice_ne by (rewrite ?zlen_bytes32; lia); done.
  - unfold i_size_lo; rewrite le32_splice_eq by lia; unfold x; rewrite zlen_app; change (zlen [nb]) with 1; fold n; rewrite u32_small by (unfold EXT4_BLOCK_SIZE; lia); lia.
  - unfold i_size_high in *; rewrite K by lia; unfold i1; rewrite le32_splice_ne by (rewrite ?zlen_bytes32; lia); done.
  - rewrite zlen_app; change (zlen [nb]) with 1; lia.
  - rewrite zlen_app; change (zlen [nb]) with 1; fold n; intros j Hj; unfold i_block in *; rewrite K by lia; unfold i1; destruct (decide (j = n)) as [-> | Hne].
    + rewrite le32_splice_eq by lia; rewrite znth_app_r by (unfold n; lia); fold n; by rewrite Z.sub_diag.
    + rewrite le32_splice_ne by (rewrite ?zlen_bytes32; lia); rewrite H7 by lia; by rewrite znth_app_l by (fold n; lia).
Qed.

Lemma append_index bs : (if 0 <? EXT4_BLOCK_SIZE * zlen bs then (EXT4_BLOCK_SIZE * zlen bs - 1) / EXT4_BLOCK_SIZE + 1 else 0) = zlen bs.
Proof.
  pose proof (zlen_nonneg bs); unfold EXT4_BLOCK_SIZE; destruct (Z.ltb_spec 0 (4096 * zlen bs)); [| lia].
  replace (4096 * zlen bs - 1) with ((zlen bs - 1) * 4096 + 4095) by lia; rewrite Z.div_add_l, Z.div_small by lia; lia.
Qed.

Lemma takes_frame d f d' f' r ino bs m : dir_state d f ino bs m -> takes d f d' f' r -> dir_state d' f' ino bs m.
Proof.
  intros H T; pose proof T as [A' G B F U D]; eapply (dir_state_frame d f d' f' ino bs m); [exact H | done | done | exact D | |].
  - intros b Hb Hu; rewrite U, Hu by done; apply orb_true_r.
  - intros b Hb Hu Hx [X | ->]; [done | congruence].
Qed.

(** The block [r] just taken is written and the inode updated. *)
Lemma dir_state_append d f d2 ino bs m m1 r inode :
  dir_state d f ino bs m -> zlen bs < 12 -> zlen bs + 1 <= s_blocks_count_lo f ->
  block_of f r -> used d f r = true -> ~ fixed_block f r -> r <> table_block f ino -> r ∉ bs -> m ##ₘ m1 -> dir_block (blk d f r) m1 ->
  inode = appended (inode_at d f ino) (zlen bs) r -> same_but d d2 f (eq (table_block f ino)) -> inode_at d2 f ino = inode ->
  dir_state d2 f ino (bs ++ [r]) (m ∪ m1).
Proof.
  intros [HA I D] Hb Hsb R1 R2 R3 R4 R5 Hm D1 -> S EI; pose proof HA as [[F Hd _ _] _ _]; pose proof D as [E1 E2 E3 E4 E5].
  pose proof (f_groups f F); pose proof (blkno_of f r F R1); assert (Hr : 0 <= r < 32768 * n_groups f) by exact R1.
  assert (NB : forall g, 0 <= g < n_groups f -> table_block f ino <> bg_block_bitmap_lo f g) by (intros g Hg E; apply (i_fixed _ _ _ I); rewrite E; right; right; by exists g).
  assert (U : forall b, block_of f b -> used d2 f b = used d f b) by (intros b Hx; exact (used_same d d2 f b _ HA S NB Hx)).
  assert (E4' : Forall (fun b => block_of f b /\ used d f b = true /\ ~ fixed_block f b /\ b <> table_block f ino) (bs ++ [r])) by (apply Forall_app; split; [done |]; constructor; [| constructor]; do 3 (split; [done |]); done).
  split; [by eapply alloc_same | destruct I; split; try done; by rewrite U |]; split.
  - rewrite EI; apply direct_app; [done | done | lia].
  - apply NoDup_app; split; [done |]; split; [| apply NoDup_singleton]; by intros x Hx ->%list_elem_of_singleton.
  - rewrite zlen_app; change (zlen [r]) with 1; lia.
  - eapply Forall_impl; [exact E4' |]; intros b (B1 & B2 & B3 & B4); by rewrite U.
  - apply (dir_list_same d _ f); [| by apply dir_list_app].
    intros b Hx; rewrite Forall_forall in E4'; destruct (E4' b Hx) as (B1 & B2 & B3 & B4); apply S; [by apply (blkno_of f) | by intros <-].
Qed.

(** ** Insertion *)

Lemma runs_dir_append {A} ino name new ft (k : bool -> M A) d o h f bs m Q :
  dir_state d f ino bs m -> zlen bs < 12 -> zlen bs + 1 <= s_blocks_count_lo f -> name_ok name -> 0 < new < 2 ^ 32 -> 0 <= ft < 256 -> m !! name = None ->
  (forall o' d' f', calm o o' -> geo f f' -> dir_state d' f' ino bs m -> (o = [] -> forall g, 0 <= g < n_groups f -> bg_free_blocks_count_lo f g = 0) -> runs (k false) (mk d' o' h f') Q) ->
  (forall o' d' f' r, calm o o' -> geo f f' -> dir_state d' f' ino (bs ++ [r]) (<[name := new]> m) -> runs (k true) (mk d' o' h f') Q) ->
  runs (dir_append ino (inode_at d f ino) (i_size_lo (inode_at d f ino)) new ft name ≫= k) (mk d o h f) Q.
Proof.
  intros HS Hb Hsb Hn Hnew Hft Hm H1 H2; pose proof HS as [HA I D]; pose proof D as [E1 E2 E3 E4 E5]; pose proof E1 as [X1 X2 X3 X4 X5 X6 X7]; pose proof (zlen_nonneg bs).
  apply runs_bind; unfold dir_append; rewrite X4, append_index; cbv zeta; unfold ext4_can_grow_block_mapping; rewrite X3.
  unfold EXT4_LEGACY_MAX_BLOCK_IDX; destruct (Z.ltb_spec (zlen bs) (12 + 1024 + 1024 * 1024)); [| lia]; apply runs_bind, runs_ret; cbn [negb].
  apply runs_alloc_block; [done | intros o1 C1 Z; apply runs_ret, H1; [done | by split | done | intros Ho g Hg; rewrite (a_counts d f HA g Hg); by apply Z] |].
  intros o1 d1 f1 r C1 T _; pose proof T as [A1 G B FR U D1]; pose proof (takes_not_fixed _ _ _ _ _ HA T) as Hx; pose proof (takes_frame _ _ _ _ _ _ _ _ HS T) as HS1.
  destruct (Z.eqb_spec r 0) as [-> |]; [destruct Hx; by left |]; unfold ext4_grow_block_mapping; rewrite X3; destruct (Z.ltb_spec (zlen bs) 12); [| lia]; apply runs_bind, runs_ret; cbn [negb].
  pose proof (f_groups f (a_fs d f HA)) as HG.
  assert (Hs : zlen (single_entry new ft name) = 4096 /\ bytes (single_entry new ft name)) by (destruct (dir_single new ft name Hn Hnew Hft); by split).
  destruct (takes_put d f d1 f1 r (single_entry new ft name) HA T (proj1 Hs) (proj2 Hs)) as [T2 ER]; apply runs_write_block; intros o2 C2.
  { intros Hne; apply runs_ret, H1; [by eapply calm_trans | done | done | intros ->; by destruct Hne; apply C1]. }
  set (d2 := put_blk d1 f1 r _) in *; pose proof (takes_frame _ _ _ _ _ _ _ _ HS T2) as HS2; pose proof HS2 as [A2 I2 D2].
  assert (EI : inode_at d2 f1 ino = inode_at d f ino).
  { rewrite (inode_at_geo _ f f1) by (done || lia); eapply inode_at_same; [apply HA | apply HA | done | apply T2 |]; intros [X | X]; [by apply (i_fixed _ _ _ I) |].
    pose proof (i_used _ _ _ I) as X'; rewrite X in X'; congruence. }
  fold (appended (inode_at d f ino) (zlen bs) r).
  assert (Br : 0 <= r < 2 ^ 32) by (unfold block_of in B; lia); pose proof (direct_app _ _ r E1 Hb Br) as [Y1 Y2 _ _ _ _ _].
  apply runs_unbind, runs_update_inode; [apply A2 | apply A2 | done | done | done | |].
  - intros o3 C3 Hne; apply H1; [repeat (eapply calm_trans; [eassumption |]); apply calm_same | done | done | intros ->; by destruct Hne; apply C2, C1].
  - intros o3 d3 C3 S3 E6; apply (H2 o3 d3 f1 r); [repeat (eapply calm_trans; [eassumption |]); apply calm_same | done |].
    assert (Em : <[name := new]> m = m ∪ {[ name := new ]}) by (rewrite insert_union_singleton_l, map_union_comm; [done | by apply map_disjoint_singleton_l_2]); rewrite Em.
    pose proof (i_used _ _ _ I) as IU; apply (dir_state_append d2 f1 d3 ino bs m {[ name := new ]} r (appended (inode_at d f ino) (zlen bs) r)); try done.
    + by rewrite (g_blocks _ _ G).
    + unfold block_of; by rewrite (g_groups _ _ G).
    + rewrite (t_used _ _ _ _ _ T2) by done; by rewrite Z.eqb_refl.
    + intros Y; by apply Hx, (fixed_geo f f1).
    + rewrite (table_block_geo f f1) by (done || lia); intros Y; rewrite Y in FR; congruence.
    + intros Y; rewrite Forall_forall in E4; destruct (E4 r Y) as (_ & Y' & _); congruence.
    + by apply map_disjoint_singleton_r_2.
    + rewrite ER; by apply dir_single.
    + by rewrite EI.
Qed.

Lemma runs_dir_insert {A} ino name new ft (k : bool -> M A) d o h f bs m Q :
  dir_state d f ino bs m -> zlen h <= EXT4_BLOCK_SIZE -> zlen bs < 12 -> zlen bs + 1 <= s_blocks_count_lo f ->
  name_ok name -> 0 < new < 2 ^ 32 -> 0 <= ft < 256 -> m !! name = None ->
  (forall o' d' f', calm o o' -> geo f f' -> dir_state d' f' ino bs m -> (o = [] -> forall g, 0 <= g < n_groups f -> bg_free_blocks_count_lo f g = 0) -> runs (k false) (mk d' o' h f') Q) ->
  (forall o' d' f' bs', calm o o' -> geo f f' -> dir_state d' f' ino bs' (<[name := new]> m) -> runs (k true) (mk d' o' h f') Q) ->
  runs (ext4_dir_insert ino name new ft ≫= k) (mk d o h f) Q.
Proof.
  intros HS Hh Hb Hsb Hn Hnew Hft Hm H1 H2; pose proof HS as [HA I D]; pose proof HA as [[F Hd _ _] _ _]; destruct (dir_on_ne _ _ _ _ _ HA D) as [Hne Hbn]; apply runs_bind; unfold ext4_dir_insert.
  assert (HF : forall o', calm o o' -> o <> [] -> runs (k false) (mk d o' h f) Q) by (intros o' C Ho; by apply H1).
  apply runs_get_inode; [done | done | |]; intros o1 C1; [intros Ho; by apply runs_ret, HF |]; cbv zeta.
  apply runs_get_fs; rewrite (sane_dir _ _ _ _ _ D); cbn [negb]; apply runs_kmalloc; intros o2 [|] C2 Hok; cbn [negb]; [| apply runs_ret, HF; [by eapply calm_trans | intros Ho; by specialize (Hok (C1 Ho))]].
  assert (C12 : calm o o2) by (by eapply calm_trans); apply runs_fresh.
  apply (runs_insert_blocks d f Hd _ bs (on_direct _ _ _ _ _ D) Hne (f_part f F) (on_nodup _ _ _ _ _ D) name new ft _ h _ Hn Hnew Hft bs _ 0 m);
    [apply suffix_at_all | apply D | done | by eapply dir_blocks_enough | done | done | | |].
  - intros o3 C3; apply runs_unbind, (runs_dir_append ino name new ft k d o3 h f bs m); try done.
    + intros o4 d4 f4 C4 G4 S4 Z; apply H1; [repeat (eapply calm_trans; [eassumption |]); apply calm_same | done | done |]; intros Ho; by apply Z, C3, C12.
    + intros o4 d4 f4 r C4 G4 S4; apply (H2 o4 d4 f4 (bs ++ [r])); [repeat (eapply calm_trans; [eassumption |]); apply calm_same | done | done].
  - intros o3 C3 Ho; apply runs_ret, HF; [by eapply calm_trans | by intros ->; apply Ho, C12].
  - intros o3 d3 C3 S3 L3; apply runs_ret, (H2 o3 d3 f bs); [by eapply calm_trans | done |]; by eapply dir_state_change.
Qed.

Implicit Types (name : list Z) (s : disk).

(** ** A block *)

(** C28: A directory block is a map. In a block whose entries form a well-formed
    chain with different names, and [m] the map from the live names to inodes:
    every walk ends within its bound; the search for a name finds the entry with
    the map's inode, or none; clearing the entry found gives the block of the map
    without the name; the search for room never takes the block for corrupt, and
    filling the slot it finds gives the block of the map with the new name, inside
    the block, whether the slot was a freed entry or the tail of a live one; and
    the test for emptiness says whether there are other names than the dots. *)
Theorem directory_block_refines_map (b : list Z) m :
  dir_block b m ->
  (forall name, exists r, find_entry DIR_STEPS b 0 name = Some r /\ de_inode b <$> r = m !! name /\
     forall p, r = Some p -> dir_block (clear_entry b p) (delete name m)) /\
  (forall name, exists r, ext4_dir_find_slot b (dirent_ideal_len (zlen name)) = Some r /\ r <> Corrupt /\
     forall p ino ft, r = Slot p -> name_ok name -> 0 < ino < 2 ^ 32 -> 0 <= ft < 256 -> m !! name = None ->
       exists b', fill_slot b p ino ft name = Some b' /\ dir_block b' (<[name := ino]> m)) /\
  only_dots DIR_STEPS b 0 = Some (bool_decide (map_Forall (fun k _ => dot_name k) m)).
Proof.
  intros H; split; [| split; [| by apply dir_only_dots]].
  - intros name; destruct (dir_find b m name H) as (r & E & Hr); exists r; split; [done |]; split; [done |]; intros p ->; by apply dir_remove.
  - intros name; destruct (dir_slot b m (dirent_ideal_len (zlen name)) H) as (r & E & Hr); exists r; split; [done |]; split; [by intros -> |].
    intros p ino ft -> Hn Hi Hf Hm; by apply dir_fill.
Qed.

(** The block of a new directory. *)
Lemma directory_block_refines_map_witness :
  let b := dot_block 5 2 in let m : gmap (list Z) Z := {[ [46] := 5; [46; 46] := 2 ]} in
  dir_block b m /\
  (forall name, exists r, find_entry DIR_STEPS b 0 name = Some r /\ de_inode b <$> r = m !! name /\
     forall p, r = Some p -> dir_block (clear_entry b p) (delete name m)) /\
  (forall name, exists r, ext4_dir_find_slot b (dirent_ideal_len (zlen name)) = Some r /\ r <> Corrupt /\
     forall p ino ft, r = Slot p -> name_ok name -> 0 < ino < 2 ^ 32 -> 0 <= ft < 256 -> m !! name = None ->
       exists b', fill_slot b p ino ft name = Some b' /\ dir_block b' (<[name := ino]> m)) /\
  only_dots DIR_STEPS b 0 = Some (bool_decide (map_Forall (fun k _ => dot_name k) m)).
Proof.
  intros b m; assert (H : dir_block b m) by (apply dir_dots; lia); split; [exact H |]; exact (directory_block_refines_map b m H).
Defined.

(** ** A directory *)

(** C7: A directory is a map, whichever transfers fail. On a directory whose
    blocks its inode names itself (the form [ext4_create] gives it): a look-up
    gives the map's inode, or fails if a transfer did, and changes nothing; a
    removal that succeeds takes the name out of the map, one that fails leaves the
    map, and without failures it succeeds exactly when the name is there; an
    insertion of a new name that succeeds puts it into the map, in the slack of a
    block or in a new block taken from the allocator, one that fails leaves the
    map, and without failures it fails only on a full disk. The allocator's
    invariant is kept by all of them, and each call returns. *)
Theorem directory_refines_map s ino bs m :
  dir_state (dev s) (fs s) ino bs m -> zlen (heap s) <= EXT4_BLOCK_SIZE ->
  (forall name, exists s' r, ext4_lookup_in_dir ino name s = Some (s', r) /\ dev s' = dev s /\ fs s' = fs s /\
     (r = m !! name \/ r = None /\ oracle s <> [])) /\
  (forall name, exists s' ok, ext4_dir_remove ino name s = Some (s', ok) /\
     dir_state (dev s') (fs s') ino bs (if ok : bool then delete name m else m) /\
     (ok = true -> is_Some (m !! name)) /\ (ok = false -> oracle s = [] -> m !! name = None)) /\
  (forall name new ft, name_ok name -> 0 < new < 2 ^ 32 -> 0 <= ft < 256 -> m !! name = None -> zlen bs < 12 -> zlen bs + 1 <= s_blocks_count_lo (fs s) ->
     exists s' ok bs', ext4_dir_insert ino name new ft s = Some (s', ok) /\
       dir_state (dev s') (fs s') ino bs' (if ok : bool then <[name := new]> m else m) /\
       (ok = false -> oracle s = [] -> forall g, 0 <= g < n_groups (fs s) -> bg_free_blocks_count_lo (fs s) g = 0)).
Proof.
  destruct s as [d o h f]; cbn [dev fs heap oracle]; intros H Hh; split; [| split].
  - intros name; assert (R : runs (ext4_lookup_in_dir ino name) (mk d o h f) (fun s' r => dev s' = d /\ fs s' = f /\ (r = m !! name \/ r = None /\ o <> []))).
    { apply runs_tail, (runs_lookup_in_dir _ _ _ _ _ _ _ bs m); [done | done | |]; intros o' C; [intros Ho |]; apply runs_ret; auto. }
    destruct R as (s' & r & E & Q); by exists s', r.
  - intros name; assert (R : runs (ext4_dir_remove ino name) (mk d o h f) (fun s' ok => dir_state (dev s') (fs s') ino bs (if ok : bool then delete name m else m) /\
      (ok = true -> is_Some (m !! name)) /\ (ok = false -> o = [] -> m !! name = None))).
    { apply runs_tail, (runs_dir_remove _ _ _ _ _ _ _ bs m); [done | done | |]; [intros o' C Hm | intros o' d' C Hs S]; by apply runs_ret. }
    destruct R as (s' & r & E & Q); by exists s', r.
  - intros name new ft Hn Hnew Hft Hm Hb Hsb; assert (R : runs (ext4_dir_insert ino name new ft) (mk d o h f) (fun s' ok => exists bs',
      dir_state (dev s') (fs s') ino bs' (if ok : bool then <[name := new]> m else m) /\ (ok = false -> o = [] -> forall g, 0 <= g < n_groups f -> bg_free_blocks_count_lo f g = 0))).
    { apply runs_tail, (runs_dir_insert _ _ _ _ _ _ _ _ _ bs m); try done; [intros o' d' f' C G S Z | intros o' d' f' bs' C G S]; apply runs_ret; [by exists bs | by exists bs']. }
    destruct R as (s' & r & E & bs' & Q); by exists s', r, bs'.
Qed.

(** The root directory of the small image. *)
Definition demo_root : gmap (list Z) Z := <[ [97] := 11 ]> {[ [46] := 2; [46; 46] := 2 ]}.

Lemma demo_dir_state : dir_state demo_dev demo_fs EXT4_ROOT_INO [68] demo_root.
Proof.
  split; [apply demo_alloc_ok | split |].
  - reflexivity.
  - vm_compute; repeat split; discriminate.
  - vm_compute; split; discriminate.
  - unfold block_of; vm_compute; split; [discriminate | reflexivity].
  - vm_compute; reflexivity.
  - intros [E | [E | (g & ->%demo_groups & E)]]; vm_compute in E; discriminate.
  - split.
    + split; try (vm_compute; first [reflexivity | discriminate]); [apply bytes_forallb; vm_compute; reflexivity |].
      change (zlen [68]) with 1; intros j Hj; replace j with 0 by lia; vm_compute; reflexivity.
    + apply NoDup_singleton.
    + vm_compute; discriminate.
    + constructor; [| constructor]; split; [unfold block_of; vm_compute; split; [discriminate | reflexivity] |]; split; [vm_compute; reflexivity |]; split; [| vm_compute; discriminate].
      intros [E | [E | (g & ->%demo_groups & E)]]; vm_compute in E; discriminate.
    + exists demo_root, ∅; split; [| split; [done | split; [apply map_disjoint_empty_r | by rewrite map_union_empty]]].
      assert (E : blk demo_dev demo_fs 68 = demo_root_block) by (vm_compute; reflexivity); rewrite E; unfold demo_root_block.
      destruct (dir_fill (dot_block 2 2) {[ [46] := 2; [46; 46] := 2 ]} [97] 12 11 EXT4_FT_REG_FILE) as (b' & -> & H); [apply dir_dots; lia | | lia | unfold EXT4_FT_REG_FILE; lia | reflexivity | vm_compute; reflexivity | exact H].
      split; [vm_compute; split; discriminate | repeat constructor; lia].
Qed.

Lemma directory_refines_map_witness :
  dir_state (dev demo) (fs demo) EXT4_ROOT_INO [68] demo_root /\
  exists s' ok bs', ext4_dir_insert EXT4_ROOT_INO [98] 12 1 demo = Some (s', ok) /\
    dir_state (dev s') (fs s') EXT4_ROOT_INO bs' (if ok : bool then <[ [98] := 12 ]> demo_root else demo_root) /\
    (ok = false -> oracle demo = [] -> forall g, 0 <= g < n_groups (fs demo) -> bg_free_blocks_count_lo (fs demo) g = 0).
Proof.
  split; [exact demo_dir_state |]; assert (Hh : zlen (heap demo) <= EXT4_BLOCK_SIZE) by (vm_compute; discriminate).
  refine (proj2 (proj2 (directory_refines_map demo EXT4_ROOT_INO [68] demo_root demo_dir_state Hh)) [98] 12 1 _ _ _ _ _ _);
    [split; [split; vm_compute; discriminate | repeat constructor; lia] | lia | lia | reflexivity | reflexivity | vm_compute; discriminate].
Defined.
