(* ===== verification/Ext4ExtentTree.v ===== *)
(** * ext4: extent trees

    A tree of depth 0 or 1, the shapes the driver builds, stands for the list of
    its extents; a look-up through the cache of interior blocks. *)
From Stdlib Require Import ZArith Lia.
From stdpp Require Import base numbers list.
From S2P Require Import Prelude Bytes Gpt CString Ext4Disk Ext4Map Ext4Alloc Ext4Proofs Ext4AllocProofs.
From S2P Require Import Ext4Blocks.

Implicit Types (nd : list Z) (lo hi b : Z).

(** ** ext4: the extents of a node

    A leaf of an extent tree stands for a list of extents in order; what a look-up
    in it finds and what an append does to it, in terms of that list. *)

(** ** Lists of extents *)

Record ext := Ext { e_block : Z; e_len : Z; e_start : Z; e_unwritten : bool }.
Implicit Types (x : ext) (xs ys zs : list ext).

(** The block a list maps [b] to; 0 for a hole. *)
Fixpoint search xs b : Z :=
  match xs with
  | [] => 0
  | x :: xs =>
    if (e_block x <=? b) && (b <? e_block x + e_len x) then (if e_unwritten x then 0 else e_start x + (b - e_block x))
    else search xs b
  end.

(** In order from [lo] to [hi], none over another, and of 32-bit blocks. *)
Fixpoint chain lo xs hi : Prop :=
  match xs with
  | [] => lo <= hi
  | x :: xs => lo <= e_block x /\ 0 <= e_len x /\ e_start x + e_len x <= 2 ^ 32 /\ chain (e_block x + e_len x) xs hi
  end.

Fixpoint end_of lo xs : Z := match xs with [] => lo | x :: xs => end_of (e_block x + e_len x) xs end.

Lemma chain_le lo xs hi : chain lo xs hi -> lo <= hi.
Proof. revert lo; induction xs as [| x xs IH]; intros lo; cbn; [done |]; intros (? & ? & _ & ?%IH); lia. Qed.

Lemma chain_end lo xs hi : chain lo xs hi -> chain lo xs (end_of lo xs) /\ lo <= end_of lo xs <= hi.
Proof.
  revert lo; induction xs as [| x xs IH]; intros lo; cbn; [lia |]; intros (H1 & H2 & H3 & H); destruct (IH _ H) as [? ?]; split; [done | lia].
Qed.

Lemma chain_hi lo xs hi hi' : chain lo xs hi -> hi <= hi' -> chain lo xs hi'.
Proof. revert lo; induction xs as [| x xs IH]; intros lo; cbn; [lia |]; intros (H1 & H2 & H3 & H) ?; eauto. Qed.

Lemma chain_lo lo lo' xs hi : chain lo xs hi -> lo' <= lo -> chain lo' xs hi.
Proof. destruct xs as [| x xs]; cbn; [lia |]; intros (H1 & H2 & H3 & H) ?; repeat split; try done; lia. Qed.

Lemma chain_app lo xs ys hi : chain lo (xs ++ ys) hi <-> exists m, chain lo xs m /\ chain m ys hi.
Proof.
  revert lo; induction xs as [| x xs IH]; intros lo; cbn.
  - split; [intros H; exists lo; split; [lia | done] |]; intros (m & H1 & H2); by apply (chain_lo m).
  - rewrite IH; split; [intros (H1 & H2 & H3 & m & H4 & H5); by exists m | intros (m & (H1 & H2 & H3 & H4) & H5); repeat (split; [done |]); by exists m].
Qed.

Lemma end_app lo xs ys : end_of lo (xs ++ ys) = end_of (end_of lo xs) ys.
Proof. revert lo; induction xs as [| x xs IH]; intros lo; cbn; [done | apply IH]. Qed.

Lemma search_below lo xs hi b : chain lo xs hi -> b < lo -> search xs b = 0.
Proof.
  revert lo; induction xs as [| x xs IH]; intros lo; cbn; [done |]; intros (H1 & H2 & H3 & H) Hb; destruct (Z.leb_spec (e_block x) b); [lia |]; cbn [andb].
  apply (IH _ H); lia.
Qed.

Lemma search_above lo xs hi b : chain lo xs hi -> hi <= b -> search xs b = 0.
Proof.
  revert lo; induction xs as [| x xs IH]; intros lo; cbn; [done |]; intros (H1 & H2 & H3 & H) Hb; pose proof (chain_le _ _ _ H).
  destruct (Z.ltb_spec b (e_block x + e_len x)); [lia |]; rewrite andb_false_r; by apply (IH _ H).
Qed.

Lemma search_app_r lo xs ys m b : chain lo xs m -> m <= b -> search (xs ++ ys) b = search ys b.
Proof.
  revert lo; induction xs as [| x xs IH]; intros lo; cbn; [done |]; intros (H1 & H2 & H3 & H) Hb; pose proof (chain_le _ _ _ H).
  destruct (Z.ltb_spec b (e_block x + e_len x)); [lia |]; rewrite andb_false_r; by apply (IH _ H).
Qed.

Lemma search_app_l xs ys m hi b : chain m ys hi -> b < m -> search (xs ++ ys) b = search xs b.
Proof. intros H Hb; induction xs as [| x xs IH]; cbn; [by apply (search_below m _ hi) | by rewrite IH]. Qed.

(** ** Leaves *)

Definition ext_at nd (i : Z) : ext := Ext (ee_block nd i) (extent_len nd i) (ee_start nd i) (unwritten nd i).
Definition exts nd : list ext := ext_at nd <$> seqZ 0 (eh_entries nd).

(** A leaf of [xs] with room for [cap] records. *)
Record leaf_ok nd (cap : Z) xs : Prop := {
  lf_magic : eh_magic nd = EXT4_EXT_MAGIC;
  lf_depth : eh_depth nd = 0;
  lf_max : eh_entries nd <= eh_max nd <= cap;
  lf_fits : record_at cap <= zlen nd;
  lf_bytes : bytes nd;
  lf_exts : exts nd = xs
}.

Lemma ee_start_range nd i : bytes nd -> 0 <= ee_start nd i.
Proof.
  intros H; unfold ee_start, ee_start_lo, ee_start_hi; apply Z.lor_nonneg; split; [apply le32_range; done | apply Z.shiftl_nonneg, le16_range; done].
Qed.

Lemma find_extent_search n nd i b lo hi :
  bytes nd -> 0 <= lo -> hi < 2 ^ 32 -> chain lo (ext_at nd <$> seqZ i (Z.of_nat n)) hi ->
  find_extent n nd i b = search (ext_at nd <$> seqZ i (Z.of_nat n)) b.
Proof.
  revert i lo; induction n as [| n IH]; intros i lo Hy Hlo Hhi; [done |]; rewrite seqZ_cons by lia; rewrite fmap_cons; cbn [chain search find_extent].
  replace (Z.pred (Z.of_nat (S n))) with (Z.of_nat n) by lia; replace (Z.succ i) with (i + 1) by lia; cbn [e_block e_len e_start e_unwritten ext_at].
  intros (H1 & H2 & H3 & H); pose proof (chain_le _ _ _ H); rewrite u32_small by lia.
  destruct (Z.leb_spec (ee_block nd i) b), (Z.ltb_spec b (ee_block nd i + extent_len nd i)); cbn [andb]; [| by apply (IH (i + 1) (ee_block nd i + extent_len nd i)); try lia ..].
  destruct (unwritten nd i); [done |]; pose proof (ee_start_range nd i Hy); apply u64_small; lia.
Qed.

(** ** Appending to a leaf *)

Lemma ext_at_ext nd nd' i : (forall k, record_at i <= k < record_at i + 12 -> znth 0 nd' k = znth 0 nd k) -> ext_at nd' i = ext_at nd i.
Proof.
  intros E; assert (E1 : forall o, 0 <= o <= 10 -> le16 nd' (record_at i + o) = le16 nd (record_at i + o))
    by (intros o Ho; apply le16_ext; intros k Hk; apply E; lia).
  assert (E2 : forall o, 0 <= o <= 8 -> le32 nd' (record_at i + o) = le32 nd (record_at i + o))
    by (intros o Ho; apply le32_ext; intros k Hk; apply E; lia).
  pose proof (E2 0 ltac:(lia)) as E0; rewrite Z.add_0_r in E0.
  unfold ext_at, extent_len, unwritten, ee_start, ee_start_lo, ee_start_hi, ee_block, ee_len; by rewrite E0, !E1, !E2 by lia.
Qed.

Lemma exts_ext nd nd' : eh_entries nd' = eh_entries nd -> (forall k, 12 <= k < record_at (eh_entries nd) -> znth 0 nd' k = znth 0 nd k) -> exts nd' = exts nd.
Proof.
  intros En E; unfold exts; rewrite En; apply list_fmap_ext; intros j i Hi; apply list_elem_of_lookup_2, elem_of_seqZ in Hi.
  apply ext_at_ext; intros k Hk; apply E; unfold record_at in *; lia.
Qed.

Lemma exts_snoc nd : 0 < eh_entries nd -> exts nd = (ext_at nd <$> seqZ 0 (eh_entries nd - 1)) ++ [ext_at nd (eh_entries nd - 1)].
Proof.
  intros Hn; unfold exts; replace (eh_entries nd) with (eh_entries nd - 1 + 1) at 1 by lia; rewrite seqZ_app by lia; rewrite fmap_app; do 2 f_equal.
Qed.

Lemma leaf_entries nd cap xs : leaf_ok nd cap xs -> 0 <= eh_entries nd < 65536 /\ record_at (eh_entries nd) <= zlen nd.
Proof.
  intros [_ _ Hm Hf Hy _]; pose proof (le16_range nd 2 Hy); fold (eh_entries nd) in *; unfold record_at in *; lia.
Qed.

Lemma leaf_find nd cap xs lo hi b : leaf_ok nd cap xs -> 0 <= lo -> hi < 2 ^ 32 -> chain lo xs hi -> find_extent (Z.to_nat (eh_entries nd)) nd 0 b = search xs b.
Proof.
  intros HL Hlo Hhi HC; destruct (leaf_entries _ _ _ HL) as [Hn _]; rewrite <- (lf_exts _ _ _ HL) in *; unfold exts in *; rewrite <- (Z2Nat.id (eh_entries nd)) in HC |- * at 2 by lia.
  eapply find_extent_search; [apply HL | exact Hlo | exact Hhi |]; by rewrite Z2Nat.id in HC |- * by lia.
Qed.

Lemma leaf_last_end nd cap xs hi : leaf_ok nd cap xs -> chain 0 xs hi -> hi < 2 ^ 32 -> 0 < eh_entries nd -> last_end nd = Some (end_of 0 xs).
Proof.
  intros HL HC Hhi Hn; destruct (leaf_entries _ _ _ HL) as [_ Hf]; unfold last_end; replace (eh_entries nd - 1 + 1) with (eh_entries nd) by lia.
  destruct (Z.ltb_spec (zlen nd) (record_at (eh_entries nd))); [lia |]; destruct (chain_end _ _ _ HC) as [_ He]; revert He.
  rewrite <- (lf_exts _ _ _ HL), exts_snoc, end_app by done; cbn [end_of ext_at e_block e_len]; intros He; by rewrite u32_small by lia.
Qed.

Lemma leaf_can_append nd cap xs hi L : leaf_ok nd cap xs -> chain 0 xs hi -> hi < 2 ^ 32 -> 0 <= L ->
  ext4_extent_leaf_can_append nd L = Some ((end_of 0 xs <=? L) && (eh_entries nd <? eh_max nd)).
Proof.
  intros HL HC Hhi HLp; destruct (leaf_entries _ _ _ HL) as [Hn Hf]; unfold ext4_extent_leaf_can_append; rewrite (lf_magic _ _ _ HL), (lf_depth _ _ _ HL); cbn [Z.eqb negb orb Pos.eqb].
  change (negb (EXT4_EXT_MAGIC =? EXT4_EXT_MAGIC) || negb (0 =? 0)) with false; cbv iota; destruct (Z.ltb_spec 0 (eh_entries nd)) as [Hp | Hp].
  - rewrite (leaf_last_end _ _ _ _ HL HC Hhi Hp); cbn [mbind option_bind]; by destruct (Z.ltb_spec L (end_of 0 xs)), (Z.leb_spec (end_of 0 xs) L); try lia.
  - replace xs with ([] : list ext); [cbn [end_of]; by destruct (Z.leb_spec 0 L); [| lia] |].
    rewrite <- (lf_exts _ _ _ HL); unfold exts; by rewrite seqZ_nil by lia.
Qed.

(** The header after a change of the number of entries. *)
Lemma set_entries nd n : 12 <= zlen nd -> 0 <= n < 65536 -> bytes nd ->
  let nd' := splice nd 2 (bytes16 n) in
  zlen nd' = zlen nd /\ bytes nd' /\ eh_magic nd' = eh_magic nd /\ eh_entries nd' = n /\ eh_max nd' = eh_max nd /\ eh_depth nd' = eh_depth nd /\
  forall k, 4 <= k -> znth 0 nd' k = znth 0 nd k.
Proof.
  intros Hl Hn Hy nd'; unfold nd', eh_magic, eh_entries, eh_max, eh_depth; repeat split.
  - apply zlen_splice; rewrite ?zlen_bytes16; lia.
  - apply splice_ok; [done | apply bytes16_ok].
  - apply le16_splice_ne; rewrite ?zlen_bytes16; lia.
  - apply le16_splice_eq; lia.
  - apply le16_splice_ne; rewrite ?zlen_bytes16; lia.
  - apply le16_splice_ne; rewrite ?zlen_bytes16; lia.
  - intros k Hk; apply znth_splice_ne; rewrite ?zlen_bytes16; lia.
Qed.

(** Bytes behind the header do not change it. *)
Lemma header_splice nd o l : 12 <= o -> o + zlen l <= zlen nd -> bytes nd -> bytes l ->
  let nd' := splice nd o l in
  zlen nd' = zlen nd /\ bytes nd' /\ eh_magic nd' = eh_magic nd /\ eh_entries nd' = eh_entries nd /\ eh_max nd' = eh_max nd /\ eh_depth nd' = eh_depth nd.
Proof.
  intros Ho Hl Hy Hyl nd'; pose proof (zlen_nonneg l); unfold nd', eh_magic, eh_entries, eh_max, eh_depth; repeat split;
    first [apply zlen_splice; lia | by apply splice_ok | apply le16_splice_ne; lia].
Qed.

Lemma extent_bytes_record nd i L n P : 0 <= i -> record_at (i + 1) <= zlen nd -> 0 <= L < 2 ^ 32 -> 0 <= n <= EXT4_EXT_UNWRITTEN_LEN -> 0 <= P < 2 ^ 32 ->
  ext_at (splice nd (record_at i) (extent_bytes L n P)) i = Ext L n P false.
Proof.
  intros Hi Hl HL Hn HP; unfold record_at, EXT4_EXT_UNWRITTEN_LEN in *; set (o := 12 + 12 * i) in *; set (nd' := splice _ _ _).
  assert (Hz : zlen (extent_bytes L n P) = 12) by reflexivity.
  assert (E : forall k, 0 <= k < 12 -> znth 0 nd' (o + k) = znth 0 (extent_bytes L n P) k) by (intros k Hk; unfold nd'; apply znth_splice_in; lia).
  assert (B : ee_block nd' i = L) by (unfold ee_block, record_at; fold o; rewrite <- (le32_bytes32 L) by done; apply le32_ext; intros k Hk; rewrite E by lia; unfold extent_bytes; by rewrite znth_app_l by (rewrite ?zlen_bytes32; lia)).
  assert (N : ee_len nd' i = n).
  { unfold ee_len, record_at; fold o; rewrite <- (le16_bytes16 n) by lia; apply le16_ext; intros k Hk; rewrite <- Z.add_assoc, E by lia; unfold extent_bytes.
    rewrite znth_app_r, zlen_bytes32, znth_app_l by (rewrite ?zlen_bytes32, ?zlen_bytes16; lia); f_equal; lia. }
  assert (S1 : ee_start_hi nd' i = 0).
  { unfold ee_start_hi, record_at; fold o; change 0 with (le16 (bytes16 0) 0) at 1; apply le16_ext; intros k Hk; rewrite <- Z.add_assoc, E by lia; unfold extent_bytes.
    rewrite znth_app_r, zlen_bytes32, znth_app_r, zlen_bytes16, znth_app_l by (rewrite ?zlen_bytes32, ?zlen_bytes16; lia); f_equal; lia. }
  assert (S2 : ee_start_lo nd' i = P).
  { unfold ee_start_lo, record_at; fold o; rewrite <- (le32_bytes32 P) by done; apply le32_ext; intros k Hk; rewrite <- Z.add_assoc, E by lia; unfold extent_bytes.
    rewrite znth_app_r, zlen_bytes32, znth_app_r, zlen_bytes16, znth_app_r, zlen_bytes16 by (rewrite ?zlen_bytes32, ?zlen_bytes16; lia); f_equal; lia. }
  unfold ext_at, ee_start, extent_len, unwritten, EXT4_EXT_UNWRITTEN_LEN; rewrite B, N, S1, S2; cbn [Z.shiftl Z.mul]; rewrite Z.lor_0_r; destruct (Z.ltb_spec 32768 n); [lia | done].
Qed.

(** The last record made one longer. *)
Lemma ext_at_longer nd i n : bytes nd -> 0 <= i -> record_at (i + 1) <= zlen nd -> 0 <= ee_len nd i < EXT4_EXT_UNWRITTEN_LEN -> n = ee_len nd i + 1 ->
  ext_at (splice nd (record_at i + 4) (bytes16 n)) i = Ext (ee_block nd i) n (ee_start nd i) false.
Proof.
  intros Hy Hi Hl Hr ->; unfold record_at, EXT4_EXT_UNWRITTEN_LEN in *; set (n := ee_len nd i + 1); set (o := 12 + 12 * i) in *; set (nd' := splice _ _ _).
  assert (B : ee_block nd' i = ee_block nd i) by (unfold ee_block, record_at, nd'; fold o; apply le32_splice_ne; rewrite ?zlen_bytes16; lia).
  assert (N : ee_len nd' i = n) by (unfold ee_len, record_at, nd'; fold o; apply le16_splice_eq; lia).
  assert (S1 : ee_start_hi nd' i = ee_start_hi nd i) by (unfold ee_start_hi, record_at, nd'; fold o; apply le16_splice_ne; rewrite ?zlen_bytes16; lia).
  assert (S2 : ee_start_lo nd' i = ee_start_lo nd i) by (unfold ee_start_lo, record_at, nd'; fold o; apply le32_splice_ne; rewrite ?zlen_bytes16; lia).
  unfold ext_at, ee_start, extent_len, unwritten, EXT4_EXT_UNWRITTEN_LEN; rewrite B, N, S1, S2; destruct (Z.ltb_spec 32768 n); [lia | done].
Qed.

(** What an append does to the list: one more block at its end. *)
Record appended (lo : Z) xs (L P : Z) xs' : Prop := {
  ap_chain : chain lo xs' (L + 1);
  ap_search b : search xs' b = if b =? L then P else search xs b
}.

Lemma appended_snoc lo xs L P : chain lo xs L -> 0 < P < 2 ^ 32 -> appended lo xs L P (xs ++ [Ext L 1 P false]).
Proof.
  intros HC HP; split.
  - apply chain_app; exists L; split; [done | cbn; lia].
  - intros b; destruct (Z.eqb_spec b L) as [-> | Hne].
    + rewrite (search_app_r lo _ _ L) by (done || lia); cbn; destruct (Z.leb_spec L L), (Z.ltb_spec L (L + 1)); try lia; cbn; lia.
    + destruct (Z.ltb_spec b L) as [Hb | Hb]; [apply (search_app_l _ _ L (L + 1)); [cbn; lia | done] |].
      rewrite (search_app_r lo _ _ L), (search_above lo xs L b) by (done || lia); cbn; destruct (Z.leb_spec L b), (Z.ltb_spec b (L + 1)); try lia; done.
Qed.

Lemma appended_join lo ys x L P : chain lo (ys ++ [x]) L -> e_unwritten x = false -> L = e_block x + e_len x -> P = e_start x + e_len x -> P < 2 ^ 32 ->
  appended lo (ys ++ [x]) L P (ys ++ [Ext (e_block x) (e_len x + 1) (e_start x) false]).
Proof.
  intros HC Hu HL HP HP2; apply chain_app in HC as (m & C1 & (C2 & C3 & C4 & _)); split.
  - apply chain_app; exists m; split; [done | cbn; lia].
  - intros b; destruct (Z.ltb_spec b m) as [Hb | Hb].
    + rewrite !(search_app_l ys _ m (L + 1)) by (cbn; lia); destruct (Z.eqb_spec b L); [lia | done].
    + rewrite !(search_app_r lo ys _ m) by (done || lia); cbn; rewrite Hu.
      destruct (Z.eqb_spec b L), (Z.leb_spec (e_block x) b), (Z.ltb_spec b (e_block x + (e_len x + 1))), (Z.ltb_spec b (e_block x + e_len x)); cbn [andb]; lia.
Qed.

Lemma poke_eq nd o l : 0 <= o -> o + zlen l <= zlen nd -> poke nd o l = Some (splice nd o l).
Proof. intros Ho Hl; unfold poke; destruct (Z.leb_spec 0 o), (Z.leb_spec (o + zlen l) (zlen nd)); try lia; done. Qed.

Lemma extent_bytes_ok L n P : bytes (extent_bytes L n P).
Proof. unfold extent_bytes; repeat (apply Forall_app; split); apply bytes32_ok || apply bytes16_ok. Qed.

Lemma leaf_new_record nd cap xs L P :
  leaf_ok nd cap xs -> eh_entries nd < eh_max nd -> 0 <= L < 2 ^ 32 -> 0 < P < 2 ^ 32 ->
  let nd' := splice (splice nd (record_at (eh_entries nd)) (extent_bytes L 1 P)) 2 (bytes16 (eh_entries nd + 1)) in
  leaf_ok nd' cap (xs ++ [Ext L 1 P false]) /\ zlen nd' = zlen nd /\ eh_max nd' = eh_max nd /\ forall i, record_at cap <= i -> znth 0 nd' i = znth 0 nd i.
Proof.
  intros HL Hroom HLr HP; destruct (leaf_entries _ _ _ HL) as [Hn _]; pose proof HL as [Hmg Hdp Hmx Hcap Hy Hx]; pose proof (le16_range nd 4 Hy); fold (eh_max nd) in *.
  set (n := eh_entries nd) in *; assert (Hz : zlen (extent_bytes L 1 P) = 12) by reflexivity; unfold record_at in Hcap.
  destruct (header_splice nd (record_at n) (extent_bytes L 1 P)) as (A1 & A2 & A3 & A4 & A5 & A6); [unfold record_at; lia | unfold record_at; lia | done | apply extent_bytes_ok |].
  set (nd1 := splice nd _ _) in *; destruct (set_entries nd1 (n + 1)) as (B1 & B2 & B3 & B4 & B5 & B6 & B7); [lia | lia | done |]; set (nd' := splice nd1 _ _) in *; cbv zeta.
  assert (Ex : exts nd' = xs ++ [Ext L 1 P false]).
  { rewrite exts_snoc, B4 by lia; replace (n + 1 - 1) with n by lia; rewrite <- Hx; unfold exts; fold n; f_equal.
    - apply list_fmap_ext; intros j i Hi; apply list_elem_of_lookup_2, elem_of_seqZ in Hi; apply ext_at_ext; intros k Hk; unfold record_at in *.
      rewrite B7 by lia; apply znth_splice_ne; lia.
    - f_equal; transitivity (ext_at nd1 n); [apply ext_at_ext; intros k Hk; apply B7; unfold record_at in *; lia |].
      apply extent_bytes_record; unfold EXT4_EXT_UNWRITTEN_LEN; try lia; unfold record_at; lia. }
  split; [split; unfold record_at; congruence || lia | split; [congruence | split; [congruence |]]].
  unfold record_at; intros i Hi; rewrite B7 by lia; apply znth_splice_ne; unfold record_at; lia.
Qed.

Lemma leaf_longer nd cap xs ys x n :
  leaf_ok nd cap xs -> xs = ys ++ [x] -> 0 < eh_entries nd -> let i := eh_entries nd - 1 in 0 <= ee_len nd i < EXT4_EXT_UNWRITTEN_LEN -> n = ee_len nd i + 1 ->
  let nd' := splice nd (record_at i + 4) (bytes16 n) in
  leaf_ok nd' cap (ys ++ [Ext (e_block x) n (e_start x) false]) /\ zlen nd' = zlen nd /\ eh_max nd' = eh_max nd /\
  forall i, record_at cap <= i -> znth 0 nd' i = znth 0 nd i.
Proof.
  intros HL Hxs Hp i Hr Hn nd'; destruct (leaf_entries _ _ _ HL) as [Hne Hf]; pose proof HL as [Hmg Hdp Hmx Hcap Hy Hx]; unfold record_at in Hf.
  destruct (header_splice nd (record_at i + 4) (bytes16 n)) as (A1 & A2 & A3 & A4 & A5 & A6); [unfold record_at; lia | rewrite zlen_bytes16; unfold record_at; lia | done | apply bytes16_ok |]; fold nd' in A1, A2, A3, A4, A5, A6.
  rewrite exts_snoc in Hx by done; rewrite Hxs in Hx; apply app_inj_2 in Hx as [Hys Hl]; [| done]; injection Hl as Hl.
  assert (Ex : exts nd' = ys ++ [Ext (e_block x) n (e_start x) false]).
  { rewrite exts_snoc, A4 by lia; fold i; f_equal.
    - rewrite <- Hys; apply list_fmap_ext; intros j k Hk; apply list_elem_of_lookup_2, elem_of_seqZ in Hk; apply ext_at_ext; intros q Hq; unfold record_at in *.
      apply znth_splice_ne; rewrite ?zlen_bytes16; unfold record_at; lia.
    - f_equal; rewrite <- Hl; unfold nd'; rewrite ext_at_longer; try done; unfold record_at; lia. }
  split; [split; unfold record_at in *; congruence || lia | split; [congruence | split; [congruence |]]].
  unfold record_at in *; intros j Hj; apply znth_splice_ne; rewrite ?zlen_bytes16; unfold record_at; lia.
Qed.

Lemma leaf_do_append nd cap xs lo hi L P :
  leaf_ok nd cap xs -> 0 <= lo -> chain lo xs hi -> end_of lo xs <= L -> eh_entries nd < eh_max nd -> L + 1 < 2 ^ 32 -> 0 < P < 2 ^ 32 ->
  exists nd' xs', ext4_extent_leaf_do_append nd L P = Some nd' /\ leaf_ok nd' cap xs' /\ zlen nd' = zlen nd /\ eh_max nd' = eh_max nd /\
    appended lo xs L P xs' /\ forall i, record_at cap <= i -> znth 0 nd' i = znth 0 nd i.
Proof.
  intros HL Hlo HC HE Hroom HLm HP; destruct (leaf_entries _ _ _ HL) as [Hn Hf]; pose proof HL as [Hmg Hdp Hmx Hcap Hy Hx]; destruct (chain_end _ _ _ HC) as [HC' HE'].
  assert (HCL : chain lo xs L) by (by eapply chain_hi); pose proof (le16_range nd 4 Hy); fold (eh_max nd) in *; unfold record_at in Hf, Hcap.
  unfold ext4_extent_leaf_do_append; destruct (joins_last nd L P) eqn:J.
  - unfold joins_last in J; set (i := eh_entries nd - 1) in *; rewrite !andb_true_iff, !Z.ltb_lt, !Z.eqb_eq in J; destruct J as [[[[J J1] J2] J3] J4].
    assert (Es : xs = (ext_at nd <$> seqZ 0 i) ++ [ext_at nd i]) by (rewrite <- Hx; by apply exts_snoc).
    pose proof (le16_range nd (record_at i + 4) Hy); fold (ee_len nd i) in *; unfold EXT4_EXT_UNWRITTEN_LEN in *.
    assert (Eu : unwritten nd i = false) by (unfold unwritten, EXT4_EXT_UNWRITTEN_LEN; apply Z.ltb_ge; lia).
    assert (En : extent_len nd i = ee_len nd i) by (unfold extent_len; by rewrite Eu).
    assert (Est : ee_start nd i = ee_start_lo nd i) by (unfold ee_start; rewrite J4; cbn; apply Z.lor_0_r).
    pose proof HCL as HCx; rewrite Es in HCx; apply chain_app in HCx as (m & C1 & C2); cbn in C2; rewrite En, Est in C2; pose proof (chain_le _ _ _ C1); pose proof (le32_range nd (record_at i + 8) Hy); fold (ee_start_lo nd i) in *.
    destruct (leaf_longer nd cap xs _ _ (ee_len nd i + 1) HL Es J) as (L1 & L2 & L3 & L4); [unfold EXT4_EXT_UNWRITTEN_LEN; fold i; lia | done |].
    eexists _, _; split; [apply poke_eq; rewrite ?zlen_bytes16; unfold record_at; lia |]; split; [exact L1 |]; split; [exact L2 |]; split; [exact L3 |]; split; [| exact L4].
    rewrite Es; cbn [e_block e_start ext_at]; replace (ee_len nd i + 1) with (extent_len nd i + 1) by lia; apply (appended_join lo _ (ext_at nd i)); cbn [ext_at e_block e_len e_start e_unwritten]; try done.
    + by rewrite <- Es.
    + rewrite En, J2; apply u32_small; lia.
    + rewrite Est, En; destruct (decide (ee_start_lo nd i + ee_len nd i = 2 ^ 32)) as [E |]; [rewrite J3, E in HP; change (u32 (2 ^ 32)) with 0 in HP; lia | rewrite J3; apply u32_small; lia].
    + lia.
  - destruct (leaf_new_record nd cap xs L P HL Hroom ltac:(lia) HP) as (L1 & L2 & L3 & L4); rewrite poke_eq by (change (zlen (extent_bytes L 1 P)) with 12; unfold record_at; lia).
    cbn [mbind option_bind]; rewrite u16_small by lia; eexists _, _; split; [apply poke_eq; [lia |] |]; [| split; [exact L1 |]; split; [exact L2 |]; split; [exact L3 |]; split; [by apply appended_snoc | exact L4]].
    rewrite zlen_bytes16, zlen_splice; change (zlen (extent_bytes L 1 P)) with 12; unfold record_at; lia.
Qed.

Implicit Types (d : Z -> list Z) (f : ext4_fs) (o : list bool) (h inode root : list Z) (bs : list Z) (c : icache).

(** ** The tree *)

(** Child [i] of an interior root is the leaf [b] of [ys], from its key to [m]. *)
Record child d f root (i lo b : Z) ys (m : Z) : Prop := {
  ch_leaf : ei_leaf root i = b;
  ch_lo : lo <= ei_block root i;
  ch_chain : chain (ei_block root i) ys m;
  ch_m : m < 2 ^ 32;
  ch_ok : leaf_ok (blk d f b) EXT4_LEAF_RECORDS ys;
  ch_some : ys <> []
}.

Fixpoint children d f root (i lo : Z) bs xs (hi : Z) : Prop :=
  match bs with
  | [] => xs = [] /\ lo <= hi
  | b :: bs => exists ys zs m, xs = ys ++ zs /\ child d f root i lo b ys m /\ children d f root (i + 1) m bs zs hi
  end.

(** The tree of an inode has the leaves [bs] and the extents [xs]. *)
Record tree d f inode bs xs : Prop := {
  tr_len : zlen inode = 128;
  tr_bytes : bytes inode;
  tr_magic : eh_magic (extent_root inode) = EXT4_EXT_MAGIC;
  tr_max : 1 <= eh_max (extent_root inode) <= 4;
  tr_shape :
    (bs = [] /\ leaf_ok (extent_root inode) 4 xs /\ exists hi, chain 0 xs hi /\ hi < 2 ^ 32) \/
    (bs <> [] /\ eh_depth (extent_root inode) = 1 /\ eh_entries (extent_root inode) = zlen bs /\ zlen bs <= eh_max (extent_root inode) /\
     exists hi, children d f (extent_root inode) 0 0 bs xs hi /\ hi < 2 ^ 32);
  tr_held : Forall (held d f) bs;
  tr_nodup : NoDup bs
}.

Lemma children_le d f root i lo bs xs hi : children d f root i lo bs xs hi -> lo <= hi.
Proof.
  revert i lo xs; induction bs as [| b bs IH]; intros i lo xs; cbn; [tauto |]; intros (ys & zs & m & -> & [_ H1 H2 _ _ _] & H3%IH); apply chain_le in H2; lia.
Qed.

Lemma children_chain d f root i lo bs xs hi : children d f root i lo bs xs hi -> chain lo xs hi.
Proof.
  revert i lo xs; induction bs as [| b bs IH]; intros i lo xs; cbn; [by intros [-> ?] |].
  intros (ys & zs & m & -> & [_ H1 H2 _ _ _] & H3%IH); apply chain_app; exists m; split; [by eapply chain_lo | done].
Qed.

Lemma children_app d f root i lo bs1 bs2 xs hi :
  children d f root i lo (bs1 ++ bs2) xs hi <->
  exists xs1 xs2 m, xs = xs1 ++ xs2 /\ children d f root i lo bs1 xs1 m /\ children d f root (i + zlen bs1) m bs2 xs2 hi.
Proof.
  revert i lo xs; induction bs1 as [| b bs1 IH]; intros i lo xs; cbn [app children].
  - change (zlen (@nil Z)) with 0; rewrite Z.add_0_r; split; [intros H; exists [], xs, lo; split; [done |]; split; [split; [done | lia] | done] |].
    intros (xs1 & xs2 & m & -> & [-> Hm] & H); cbn [app]; destruct bs2 as [| b bs2]; cbn in *; [intuition lia |].
    destruct H as (ys & zs & m' & -> & [] & H); exists ys, zs, m'; split; [done |]; split; [split; try done; lia | done].
  - rewrite zlen_cons; split.
    + intros (ys & zs & m & -> & HC & H); apply IH in H as (x1 & x2 & m2 & -> & H1 & H2); exists (ys ++ x1), x2, m2; rewrite app_assoc; split; [done |].
      split; [by exists ys, x1, m |]; by replace (i + (zlen bs1 + 1)) with (i + 1 + zlen bs1) by lia.
    + intros (x1 & x2 & m2 & -> & (ys & zs & m & -> & HC & H1) & H2); exists ys, (zs ++ x2), m; rewrite app_assoc; split; [done |]; split; [done |].
      apply IH; exists zs, x2, m2; split; [done |]; split; [done |]; by replace (i + 1 + zlen bs1) with (i + (zlen bs1 + 1)) by lia.
Qed.

(** Children depend on their records in the root and on their blocks only. *)
Lemma children_ext d f root d' f' root' i lo bs xs hi :
  (forall j, i <= j < i + zlen bs -> ei_leaf root' j = ei_leaf root j /\ ei_block root' j = ei_block root j) ->
  (forall b, b ∈ bs -> blk d' f' b = blk d f b) -> children d f root i lo bs xs hi -> children d' f' root' i lo bs xs hi.
Proof.
  revert i lo xs; induction bs as [| b bs IH]; intros i lo xs HR HB; cbn; [done |]; rewrite zlen_cons in HR; pose proof (zlen_nonneg bs).
  intros (ys & zs & m & -> & HC & HT); exists ys, zs, m; split; [done |]; split; [| apply IH; [intros; apply HR; lia | intros; by apply HB; right | done]].
  destruct (HR i ltac:(lia)) as [R1 R2]; destruct HC; split; rewrite ?R1, ?R2, ?HB by (by left); done.
Qed.

(** ** The cache of interior blocks *)

(** A buffer is of none, or holds what the disk has of one of [bs]. *)
Definition cache_ok d f bs c : Prop :=
  forall level l, snd (slot_of c level) = Some l -> fst (slot_of c level) = 0 \/ fst (slot_of c level) ∈ bs /\ l = blk d f (fst (slot_of c level)).

Lemma cache_init d f bs : cache_ok d f bs EXT4_ICACHE_INIT.
Proof. intros level l; unfold slot_of; by destruct (level =? 0). Qed.

Lemma cache_invalidate d f bs c : cache_ok d f bs (icache_invalidate c).
Proof. intros level l _; left; unfold slot_of, icache_invalidate; by destruct (level =? 0). Qed.

Lemma cache_same d f d' f' bs bs' c : (forall b, b ∈ bs -> b ∈ bs' /\ blk d' f' b = blk d f b) -> cache_ok d f bs c -> cache_ok d' f' bs' c.
Proof. intros E H level l El; destruct (H level l El) as [| [Hb ->]]; [by left | right]; destruct (E _ Hb) as [? ->]; done. Qed.

Lemma cache_slot_set c level (x : slot) level' : slot_of (set_slot c level x) level' = if Bool.eqb (level =? 0) (level' =? 0) then x else slot_of c level'.
Proof. unfold slot_of, set_slot; by destruct (level =? 0), (level' =? 0). Qed.

Lemma held_ne0 d f bs : Forall (held d f) bs -> 0 ∉ bs.
Proof. rewrite Forall_forall; intros H Hb; destruct (H 0 Hb) as (_ & _ & X); apply X; by left. Qed.

Lemma runs_icache_get {A} level b (k : icache * option (list Z) -> M A) d o h f bs c Q :
  b ∈ bs -> 0 ∉ bs -> cache_ok d f bs c ->
  (forall o' c', calm o o' -> o <> [] -> cache_ok d f bs c' -> runs (k (c', None)) (mk d o' h f) Q) ->
  (forall o' c', calm o o' -> cache_ok d f bs c' -> runs (k (c', Some (blk d f b))) (mk d o' h f) Q) ->
  runs (icache_get c level b ≫= k) (mk d o h f) Q.
Proof.
  intros Hb H0 HC HN HS; apply runs_bind; unfold icache_get.
  assert (C0 : forall c', cache_ok d f bs c' -> forall l, cache_ok d f bs (set_slot c' level (0, l)))
    by (intros c' H l level' l'; rewrite cache_slot_set; case_match; [by left | apply H]).
  assert (CB : forall c', cache_ok d f bs c' -> cache_ok d f bs (set_slot c' level (b, Some (blk d f b))))
    by (intros c' H level' l'; rewrite cache_slot_set; case_match; [intros [= <-]; by right | apply H]).
  destruct (snd (slot_of c level)) as [buf |] eqn:Es.
  - destruct (Z.eqb_spec (fst (slot_of c level)) b) as [Eb | Hne].
    + apply runs_ret; destruct (HC level buf Es) as [E0 | [_ ->]]; [congruence |]; rewrite Eb; by apply HS; [apply calm_same |].
    + apply runs_read_block; intros o1 C1; [intros Hn |]; apply runs_ret; [apply HN | apply HS]; auto.
  - apply runs_kmalloc; intros o1 [|] C1 Hok; cbn [negb]; [| apply runs_ret, HN; [done | intros Ho; by specialize (Hok Ho) | done]].
    apply runs_fresh.
    apply runs_read_block; intros o2 C2; [intros Hn |]; apply runs_ret; [apply HN | apply HS]; try (by eapply calm_trans); try (by intros ->; apply Hn, C1);
      intros level' l'; rewrite !cache_slot_set; case_match; try (apply HC); [by left | intros [= <-]; by right].
Qed.

(** ** Looking up *)

(** The child chosen for a block is the one its extent is in, if there is one. *)
Lemma select_child_ok d f root blk_idx bs i lo xs hi sel :
  children d f root i lo bs xs hi -> 0 <= i -> 0 <= lo ->
  let r := select_child (length bs) root i blk_idx sel in
  (r = sel /\ forall ys, search (ys ++ xs) blk_idx = search ys blk_idx) \/
  (lo <= blk_idx /\ i <= r /\ exists b ys key m, b ∈ bs /\ child d f root r key b ys m /\ 0 <= ei_block root r /\ search xs blk_idx = search ys blk_idx).
Proof.
  revert i lo xs sel; induction bs as [| b bs IH]; intros i lo xs sel; cbn [length select_child children].
  - intros [-> _] _ _; left; split; [done |]; intros ys; by rewrite app_nil_r.
  - intros (ys & zs & m & -> & HC & HT) Hi Hlo; pose proof HC as [_ H1 H2 _ _ _]; pose proof (chain_le _ _ _ H2); destruct (Z.leb_spec (ei_block root i) blk_idx) as [Hk | Hk].
    + right; split; [lia |]; specialize (IH (i + 1) m zs i HT ltac:(lia) ltac:(lia)); cbv zeta in IH; destruct IH as [[-> E] | (E1 & E2 & b' & ys' & key & m' & E3 & E4 & E5 & E6)].
      * split; [lia |]; exists b, ys, lo, m; split; [by left |]; split; [done |]; split; [lia | apply E].
      * split; [lia |]; exists b', ys', key, m'; split; [by right |]; split; [done |]; split; [done |]; rewrite <- E6; by apply (search_app_r (ei_block root i) _ _ m).
    + left; split; [done |]; intros us; apply (search_app_l _ _ (ei_block root i) hi); [| done]; apply chain_app; exists m; split; [done | by eapply children_chain].
Qed.

Lemma leaf_node_ok nd cap xs : leaf_ok nd cap xs -> node_ok nd cap = true.
Proof.
  intros [Hm _ Hx _ _ _]; unfold node_ok; rewrite Hm, Z.eqb_refl; destruct (Z.leb_spec (eh_entries nd) (eh_max nd)), (Z.leb_spec (eh_entries nd) cap); try lia; done.
Qed.

Lemma runs_extent_lookup {A} inode blk_idx (k : icache * option Z -> M A) d o h f bs xs c Q :
  tree d f inode bs xs -> cache_ok d f bs c ->
  (forall o' c', calm o o' -> o <> [] -> cache_ok d f bs c' -> runs (k (c', None)) (mk d o' h f) Q) ->
  (forall o' c', calm o o' -> cache_ok d f bs c' -> runs (k (c', Some (search xs blk_idx))) (mk d o' h f) Q) ->
  runs (ext4_extent_lookup inode blk_idx c ≫= k) (mk d o h f) Q.
Proof.
  intros [Hl Hy Hm Hx HS HH HN] HC H1 H2; apply runs_bind; unfold ext4_extent_lookup; change (Z.to_nat (EXT4_EXT_MAX_DEPTH + 1)) with 6%nat; cbn [extent_walk].
  destruct HS as [(-> & HL & hi & HCh & Hhi) | (Hne & Hd & He & Hb & hi & HCh & Hhi)].
  - rewrite (leaf_node_ok _ _ _ HL), (lf_depth _ _ _ HL); cbn [negb Z.ltb Z.compare]; apply runs_ret; rewrite (leaf_find _ _ _ _ _ _ HL (Z.le_refl 0) Hhi HCh); by apply H2; [apply calm_same |].
  - assert (Hok : node_ok (extent_root inode) 4 = true)
      by (unfold node_ok; rewrite Hm, Z.eqb_refl, He; destruct (Z.leb_spec (zlen bs) (eh_max (extent_root inode))), (Z.leb_spec (zlen bs) 4); try lia; done).
    rewrite Hok, He, Hd; cbn [negb Z.ltb Z.compare].
    replace (Z.to_nat (zlen bs)) with (length bs) by (unfold zlen; lia).
    destruct (select_child_ok d f _ blk_idx bs 0 0 xs hi (-1) HCh ltac:(lia) ltac:(lia)) as [[-> E] | (_ & Hr & b & ys & key & m & Eb & HCb & Hk & Es)]; cbv zeta in *.
    + cbn [Z.ltb Z.compare]; apply runs_ret; specialize (E []); cbn [app search] in E; rewrite E in H2; by apply H2; [apply calm_same |].
    + set (r := select_child _ _ _ _ _) in *; destruct (Z.ltb_spec r 0); [lia |]; rewrite (ch_leaf _ _ _ _ _ _ _ _ HCb); pose proof (ch_ok _ _ _ _ _ _ _ _ HCb) as HL.
      apply (runs_icache_get _ _ _ d o h f bs); [done | by apply held_ne0 in HH | done | |]; intros o1 c1 C1; [intros Hn|]; intros HC1; [apply runs_ret; by apply H1 |].
      cbn [extent_walk]; rewrite (leaf_node_ok _ _ _ HL), (lf_depth _ _ _ HL); cbn [negb Z.ltb Z.compare]; apply runs_ret.
      rewrite (leaf_find _ _ _ _ _ _ HL Hk (ch_m _ _ _ _ _ _ _ _ HCb) (ch_chain _ _ _ _ _ _ _ _ HCb)), <- Es; by apply H2.
Qed.
