(* ===== verification/Ext4ExtentTheorems.v ===== *)
(** * ext4: extent trees, theorems *)
From Stdlib Require Import ZArith Lia.
From stdpp Require Import base numbers list.
From S2P Require Import Prelude Bytes Gpt CString Ext4Disk Ext4Map Ext4Alloc Ext4Proofs Ext4AllocProofs.
From S2P Require Import Ext4Blocks SmallDisk Ext4ExtentTree.

Implicit Types (d : Z -> list Z) (f : ext4_fs) (o : list bool) (h inode root nd : list Z) (b : Z) (bs : list Z) (xs ys zs : list ext).

(** ** ext4: the growth of an extent tree

    A block appended to a tree: into the leaf, by moving the root's extents to a
    leaf, or with a new leaf; what stays as it was when it fails. *)

(** ** The root in its inode *)

(** The fields of an inode that growth leaves alone: all but the count of
    sectors and the sixty bytes of the root. *)
Definition same_fields inode inode' : Prop := forall i, 0 <= i < 28 \/ 32 <= i < 40 \/ 100 <= i -> znth 0 inode' i = znth 0 inode i.

Lemma same_fields_trans i1 i2 i3 : same_fields i1 i2 -> same_fields i2 i3 -> same_fields i1 i3.
Proof. intros H1 H2 i Hi; by rewrite H2, H1. Qed.

Lemma zlen_root inode : zlen inode = 128 -> zlen (extent_root inode) = 88.
Proof. unfold extent_root, zlen; rewrite length_drop; lia. Qed.

Lemma znth_root inode i : 0 <= i -> znth 0 (extent_root inode) i = znth 0 inode (40 + i).
Proof.
  intros Hi; unfold extent_root, znth; destruct (Z.ltb_spec i 0), (Z.ltb_spec (40 + i) 0); try lia; rewrite lookup_drop; do 2 f_equal; lia.
Qed.

Lemma root_with inode root : zlen inode = 128 -> bytes inode -> zlen root = 88 -> bytes root -> (forall i, 60 <= i -> znth 0 root i = znth 0 (extent_root inode) i) ->
  let inode' := with_root inode root in zlen inode' = 128 /\ bytes inode' /\ extent_root inode' = root /\ same_fields inode inode'.
Proof.
  intros Hl Hy Hr Hyr HE inode'; assert (Ht : length (take 40 inode) = 40%nat) by (rewrite length_take; unfold zlen in Hl; lia); repeat split.
  - unfold inode', with_root, zlen in *; rewrite length_app, Ht; lia.
  - apply Forall_app; split; [by apply Forall_take | done].
  - unfold inode', with_root, extent_root; rewrite drop_app_length'; done.
  - intros i Hi; destruct (Z.ltb_spec i 40) as [Hlt | Hge].
    + unfold inode', with_root; rewrite znth_app_l by (unfold zlen; lia); unfold znth; destruct (Z.ltb_spec i 0); [lia |]; by rewrite lookup_take_lt by lia.
    + unfold inode', with_root; rewrite znth_app_r by (unfold zlen; lia); unfold zlen; rewrite Ht, HE, znth_root by lia; f_equal; lia.
Qed.

Lemma count_meta_ok inode : zlen inode = 128 -> bytes inode ->
  let inode' := count_meta inode in zlen inode' = 128 /\ bytes inode' /\ extent_root inode' = extent_root inode /\ same_fields inode inode'.
Proof.
  intros Hl Hy inode'; assert (Hz : zlen inode' = 128) by (unfold inode', count_meta, set_i_blocks_lo; rewrite zlen_splice; rewrite ?zlen_bytes32; lia).
  assert (HE : forall i, 0 <= i < 28 \/ 32 <= i -> znth 0 inode' i = znth 0 inode i) by (intros i Hi; apply znth_splice_ne; rewrite ?zlen_bytes32; lia).
  repeat split; [done | apply splice_ok; [done | apply bytes32_ok] | | intros i Hi; apply HE; lia].
  apply (znth_ext 0); [by rewrite !zlen_root |]; rewrite zlen_root by done; intros i Hi; rewrite !znth_root by lia; apply HE; lia.
Qed.

(** ** Headers and records written *)

Lemma header_read nd n mx dp : (forall k, 0 <= k < 12 -> znth 0 nd k = znth 0 (header_bytes n mx dp) k) -> 0 <= n < 65536 -> 0 <= mx < 65536 -> 0 <= dp < 65536 ->
  eh_magic nd = EXT4_EXT_MAGIC /\ eh_entries nd = n /\ eh_max nd = mx /\ eh_depth nd = dp.
Proof.
  intros E Hn Hm Hd; assert (R : forall (p x : Z), 0 <= p <= 10 -> le16 (header_bytes n mx dp) p = x -> le16 nd p = x)
    by (intros p x Hp <-; apply le16_ext; intros k Hk; apply E; lia).
  unfold eh_magic, eh_entries, eh_max, eh_depth; repeat split; apply R; try lia; [reflexivity | exact (le16_bytes16 n Hn) | exact (le16_bytes16 mx Hm) | exact (le16_bytes16 dp Hd)].
Qed.

Lemma index_read nd i L b : (forall k, 0 <= k < 12 -> znth 0 nd (record_at i + k) = znth 0 (index_bytes L b) k) -> 0 <= L < 2 ^ 32 -> 0 <= b < 2 ^ 32 ->
  ei_block nd i = L /\ ei_leaf nd i = b.
Proof.
  intros E HL Hb; assert (R : forall (p x : Z), 0 <= p <= 8 -> le32 (index_bytes L b) p = x -> le32 nd (record_at i + p) = x)
    by (intros p x Hp <-; apply le32_ext; intros k Hk; rewrite <- Z.add_assoc, E by lia; f_equal; lia).
  split.
  - unfold ei_block; rewrite <- (Z.add_0_r (record_at i)); apply R; [lia | exact (le32_bytes32 L HL)].
  - unfold ei_leaf; assert (E8 : le16 nd (record_at i + 8) = 0).
    { change 0 with (le16 (index_bytes L b) 8); apply le16_ext; intros k Hk; rewrite <- Z.add_assoc, E by lia; f_equal; lia. }
    rewrite E8, (R 4 b); [apply Z.lor_0_r | lia | exact (le32_bytes32 b Hb)].
Qed.

Lemma header_bytes_ok n mx dp : zlen (header_bytes n mx dp) = 12 /\ bytes (header_bytes n mx dp).
Proof. split; [reflexivity |]; unfold header_bytes; repeat (apply Forall_app; split); apply bytes16_ok || apply bytes32_ok. Qed.

Lemma index_bytes_ok L b : zlen (index_bytes L b) = 12 /\ bytes (index_bytes L b).
Proof. split; [reflexivity |]; unfold index_bytes; repeat (apply Forall_app; split); apply bytes16_ok || apply bytes32_ok. Qed.

(** A block made a leaf of the records [l]. *)
Lemma new_leaf_ok n l nd : 0 <= n <= 4 -> zlen l = 12 * n -> bytes l -> n <= eh_entries nd -> (forall k, 0 <= k < 12 * n -> znth 0 l k = znth 0 nd (12 + k)) ->
  let leaf := splice (zeroes EXT4_BLOCK_SIZE) 0 (header_bytes n EXT4_LEAF_RECORDS 0 ++ l) in
  leaf_ok leaf EXT4_LEAF_RECORDS (ext_at nd <$> seqZ 0 n) /\ zlen leaf = 4096 /\ eh_max leaf = EXT4_LEAF_RECORDS /\ eh_entries leaf = n.
Proof.
  intros Hn Hl Hy Hne HE leaf; destruct (header_bytes_ok n EXT4_LEAF_RECORDS 0) as [Hz Hyh].
  assert (Hzl : zlen (header_bytes n EXT4_LEAF_RECORDS 0 ++ l) = 12 + 12 * n) by (rewrite zlen_app, Hl; reflexivity).
  assert (Hzz : zlen (zeroes EXT4_BLOCK_SIZE) = 4096) by reflexivity.
  assert (Hz4 : zlen leaf = 4096) by (unfold leaf; rewrite zlen_splice; lia).
  assert (EB : forall k, 0 <= k < 12 + 12 * n -> znth 0 leaf k = znth 0 (header_bytes n EXT4_LEAF_RECORDS 0 ++ l) k)
    by (intros k Hk; pose proof (znth_splice_in (zeroes EXT4_BLOCK_SIZE) 0 (header_bytes n EXT4_LEAF_RECORDS 0 ++ l) k (Z.le_refl 0) ltac:(lia) ltac:(lia)) as X; by rewrite Z.add_0_l in X).
  destruct (header_read leaf n EXT4_LEAF_RECORDS 0) as (A1 & A2 & A3 & A4); [intros k Hk; rewrite EB by lia; by rewrite znth_app_l by lia | lia | vm_compute; split; [discriminate | reflexivity] | lia |].
  assert (Ex : exts leaf = ext_at nd <$> seqZ 0 n).
  { unfold exts; rewrite A2; apply list_fmap_ext; intros j i Hi; apply list_elem_of_lookup_2, elem_of_seqZ in Hi; apply ext_at_ext; intros k Hk; unfold record_at in *.
    rewrite EB by lia; rewrite znth_app_r by lia; change (zlen (header_bytes n EXT4_LEAF_RECORDS 0)) with 12; rewrite HE by lia; f_equal; lia. }
  split; [| done]; split; try done; [rewrite A2, A3; change EXT4_LEAF_RECORDS with 340; lia | rewrite Hz4; vm_compute; discriminate |].
  apply splice_ok; [apply bytes_zeroes | by apply Forall_app].
Qed.

(** ** Growth *)

(** A tree none of whose blocks were written. *)
Lemma extent_tree_kept d f d' f' inode bs xs : kept d f d' f' [] -> tree d f inode bs xs -> tree d' f' inode bs xs.
Proof.
  intros K [H1 H2 H3 H4 HS HH HN]; rewrite Forall_forall in HH.
  assert (E : forall b, b ∈ bs -> blk d' f' b = blk d f b) by (intros b Hb; apply (kp_data _ _ _ _ _ K); [by apply HH | apply not_elem_of_nil]).
  split; try done; [| apply Forall_forall; intros b Hb; eapply held_kept; eauto].
  destruct HS as [HS | (Hne & Hd & He & Hb & hi & HC & Hhi)]; [by left | right]; repeat (split; [done |]); exists hi; split; [| done].
  by eapply children_ext; [| exact E | exact HC].
Qed.

(** The last leaf has room. *)
Definition leaf_room d f bs : Prop := forall b, last bs = Some b -> eh_entries (blk d f b) < eh_max (blk d f b).

(** Logical block [L] now maps to [P], the rest to what it did. *)
Record grown d f inode bs xs (L P : Z) d' f' inode' bs' xs' : Prop := {
  gr_kept : kept d f d' f' bs;
  gr_tree : tree d' f' inode' bs' xs';
  gr_add : appended 0 xs L P xs';
  gr_fields : same_fields inode inode';
  gr_blocks b : b ∈ bs' -> b ∈ bs \/ used d f b = false
}.

Lemma tree_chain d f inode bs xs : tree d f inode bs xs -> exists hi, chain 0 xs hi /\ hi < 2 ^ 32.
Proof. intros T; destruct (tr_shape _ _ _ _ _ T) as [(_ & _ & H) | (_ & _ & _ & _ & hi & H%children_chain & ?)]; eauto. Qed.

(** Into the root. *)
Lemma grow_root d f inode xs L P : alloc_ok d f -> tree d f inode [] xs -> eh_depth (extent_root inode) = 0 -> end_of 0 xs <= L -> eh_entries (extent_root inode) < eh_max (extent_root inode) ->
  L + 1 < 2 ^ 32 -> 0 < P < 2 ^ 32 ->
  exists root' xs', ext4_extent_leaf_do_append (extent_root inode) L P = Some root' /\ grown d f inode [] xs L P d f (with_root inode root') [] xs'.
Proof.
  intros A [Hl Hy Hm Hx HS HH HN] Hd HE Hroom HL HP; destruct HS as [(_ & HLf & hi & HC & Hhi) | (Hne & _)]; [| done]; pose proof (zlen_root _ Hl) as Hzr.
  destruct (leaf_do_append _ _ _ _ _ _ _ HLf (Z.le_refl 0) HC HE Hroom HL HP) as (root' & xs' & E & HL' & Hz & Hmx & HA & HF); exists root', xs'; split; [done |].
  destruct (root_with inode root') as (R1 & R2 & R3 & R4); [done | done | lia | apply HL' | intros i Hi; apply HF; unfold record_at; lia |].
  split; [by apply kept_refl | | done | done | by intros b ?%not_elem_of_nil]; split; rewrite ?R3; try done; [apply HL' | by rewrite Hmx |].
  left; split; [done |]; split; [done |]; exists (L + 1); split; [apply HA | done].
Qed.

Lemma root_records d f inode bs xs : tree d f inode bs xs -> eh_depth (extent_root inode) = 0 -> let root := extent_root inode in
  let n := eh_entries root in 0 <= n <= 4 /\ zlen (slice root 12 (12 * n)) = 12 * n /\ bytes (slice root 12 (12 * n)) /\
  forall k, 0 <= k < 12 * n -> znth 0 (slice root 12 (12 * n)) k = znth 0 root (12 + k).
Proof.
  intros [Hl Hy Hm Hx HS HH HN] Hd root n; pose proof (zlen_root _ Hl) as Hz; fold root in Hz, Hx; destruct HS as [(_ & HL & _) | (_ & E & _)]; [| by rewrite Hd in E].
  destruct (leaf_entries _ _ _ HL) as [Hn _]; fold root in Hn, HL; fold n in Hn; pose proof (lf_max _ _ _ HL) as Hmm; fold n in Hmm.
  split; [lia |]; split; [apply zlen_slice; lia | split; [apply bytes_slice, HL | intros k Hk; apply znth_slice; lia]].
Qed.

(** A root that points to one leaf. *)
Lemma tree_one_leaf d f inode r xs hi : zlen inode = 128 -> bytes inode -> held d f r -> 0 <= r < 2 ^ 32 -> chain 0 xs hi -> hi < 2 ^ 32 -> xs <> [] ->
  leaf_ok (blk d f r) EXT4_LEAF_RECORDS xs ->
  let inode' := count_meta (with_root inode (splice (extent_root inode) 0 (header_bytes 1 4 1 ++ index_bytes 0 r))) in
  tree d f inode' [r] xs /\ same_fields inode inode'.
Proof.
  intros Hl Hy Hh Hr HC Hhi Hxs HL inode'; pose proof (zlen_root _ Hl) as Hz; destruct (header_bytes_ok 1 4 1) as [Z1 Y1], (index_bytes_ok 0 r) as [Z2 Y2].
  set (l := header_bytes 1 4 1 ++ index_bytes 0 r) in *; assert (Zl : zlen l = 24) by (unfold l; rewrite zlen_app, Z1, Z2; reflexivity).
  assert (Yr : bytes (extent_root inode)) by (by apply Forall_drop); pose (root1 := splice (extent_root inode) 0 l).
  assert (EB : forall k, 0 <= k < 24 -> znth 0 root1 k = znth 0 l k).
  { intros k Hk; pose proof (znth_splice_in (extent_root inode) 0 l k (Z.le_refl 0) ltac:(lia) ltac:(lia)) as X; by rewrite Z.add_0_l in X. }
  destruct (root_with inode root1) as (R1 & R2 & R3 & R4); [done | done | unfold root1; rewrite zlen_splice; lia | apply splice_ok; [done | by apply Forall_app] | intros i Hi; apply znth_splice_ne; lia |].
  destruct (count_meta_ok (with_root inode root1) R1 R2) as (M1 & M2 & M3 & M4).
  change inode' with (count_meta (with_root inode root1)); clear inode'.
  destruct (header_read root1 1 4 1) as (A1 & A2 & A3 & A4); [intros k Hk; rewrite EB by lia; unfold l; by rewrite znth_app_l by lia | lia | lia | lia |].
  destruct (index_read root1 0 0 r) as (B1 & B2); [| lia | lia |].
  { intros k Hk; change (record_at 0) with 12; rewrite EB by lia; unfold l; rewrite znth_app_r, Z1 by lia; f_equal; lia. }
  split; [| by eapply same_fields_trans]; split; rewrite ?M3, ?R3; try done; [right | by constructor | apply NoDup_singleton].
  split; [done |]; split; [done |]; split; [done |]; split; [rewrite A3; vm_compute; discriminate |]; exists hi; split; [| done].
  cbn; exists xs, [], hi; rewrite app_nil_r; split; [done |]; split; [split; rewrite ?B1, ?B2; done | split; [done | lia]].
Qed.

Lemma appended_ne lo xs L P xs' : 0 < P -> appended lo xs L P xs' -> xs' <> [].
Proof. intros HP [_ H] ->; specialize (H L); rewrite Z.eqb_refl in H; cbn in H; lia. Qed.

(** The full root moved to a leaf. *)
Lemma runs_extent_promote {A} inode L P (k : list Z * bool -> M A) d o h f xs Q :
  alloc_ok d f -> tree d f inode [] xs -> eh_depth (extent_root inode) = 0 -> 0 <= L -> L + 1 < 2 ^ 32 -> 0 < P < 2 ^ 32 ->
  (forall o' d' f', calm o o' -> kept d f d' f' [] -> (o = [] -> L < end_of 0 xs \/ all_full d f) -> runs (k (inode, false)) (mk d' o' h f') Q) ->
  (forall o' d' f' inode' bs' xs', calm o o' -> grown d f inode [] xs L P d' f' inode' bs' xs' -> runs (k (inode', true)) (mk d' o' h f') Q) ->
  runs (extent_promote inode L P ≫= k) (mk d o h f) Q.
Proof.
  intros A0 T Hd HL0 HL HP H0 H1; destruct (root_records _ _ _ _ _ T Hd) as (N1 & N2 & N3 & N4); destruct (tree_chain _ _ _ _ _ T) as (hi & HC & Hhi); apply runs_bind; unfold extent_promote; pose proof T as [Hl Hy Hm Hx HS HH HN].
  destruct HS as [(_ & HLf & _) | (Hne & _)]; [| done]; set (n := eh_entries (extent_root inode)) in *; set (l := slice (extent_root inode) 12 (12 * n)) in *.
  destruct (new_leaf_ok n l (extent_root inode) N1 N2 N3 (Z.le_refl n) N4) as (LL & LZ & LM & LE); set (leaf := splice (zeroes EXT4_BLOCK_SIZE) 0 _) in *.
  assert (Exs : ext_at (extent_root inode) <$> seqZ 0 n = xs) by (rewrite <- (lf_exts _ _ _ HLf); reflexivity); rewrite Exs in LL.
  apply runs_alloc_block; [done | intros o1 C1 ZF; cbn [Z.eqb]; apply runs_ret, H0; [done | by apply kept_refl | intros Ho; right; exact (ZF Ho)] |].
  intros o1 d1 f1 r C1 TK _; destruct (takes_held _ _ _ _ _ A0 TK) as [Hr Hr2]; destruct (Z.eqb_spec r 0); [lia |].
  apply runs_kmalloc; intros o2 [|] C2 Hok; cbn [negb].
  2:{ apply (runs_give_back _ _ d f); [done | done |]; intros o3 d3 f3 C3 K; apply runs_ret, H0; [repeat (eapply calm_trans; [eassumption |]); apply calm_same | done | intros Ho; by specialize (Hok (C1 Ho))]. }
  rewrite N2, Z.eqb_refl; cbn [negb]; rewrite poke_eq; [| lia | rewrite zlen_app, N2; change (zlen (header_bytes n EXT4_LEAF_RECORDS 0)) with 12; change (zlen (zeroes EXT4_BLOCK_SIZE)) with 4096; lia].
  apply runs_lift; fold leaf; rewrite (leaf_can_append _ _ _ _ _ LL HC Hhi HL0), LE, LM; apply runs_lift.
  destruct (Z.leb_spec (end_of 0 xs) L) as [He | He]; cbn [andb negb].
  2:{ apply (runs_give_back _ _ d f); [done | done |]; intros o3 d3 f3 C3 K; apply runs_ret, H0; [repeat (eapply calm_trans; [eassumption |]); apply calm_same | done | by left]. }
  change EXT4_LEAF_RECORDS with 340 in *; destruct (Z.ltb_spec n 340); [cbn [negb] | lia].
  destruct (leaf_do_append _ _ _ _ _ L P LL (Z.le_refl 0) HC He ltac:(lia) HL HP) as (leaf' & xs' & -> & LL' & LZ' & _ & HA & _); apply runs_lift.
  apply (runs_write_or_free _ _ _ d f); [done | done | lia | apply LL' | |].
  - intros o3 d3 f3 C3 Hn K; apply runs_ret, H0; [repeat (eapply calm_trans; [eassumption |]); apply calm_same | done | intros ->; by destruct Hn; apply C2, C1].
  - intros o3 d3 C3 TK3 E3; cbn [negb]; apply runs_ret; destruct (takes_held _ _ _ _ _ A0 TK3) as [Hr3 _].
    destruct (tree_one_leaf d3 f1 inode r xs' (L + 1)) as [T' S']; [done | done | done | lia | apply HA | done | apply (appended_ne 0 xs L P); [lia | done] | by rewrite E3 |].
    eapply H1; [repeat (eapply calm_trans; [eassumption |]); apply calm_same | split; [eapply kept_takes; [exact TK3 | apply A0] | exact T' | exact HA | exact S' |]].
    intros b ->%list_elem_of_singleton; right; apply TK.
Qed.

(** *** Trees of depth 1 *)

Lemma end_some lo lo' xs : xs <> [] -> end_of lo xs = end_of lo' xs.
Proof. by destruct xs. Qed.

(** An append to the last of two lists. *)
Lemma appended_app lo zs m key ys hi L P ys' : chain lo zs m -> m <= key -> key <= L -> chain key ys hi -> appended key ys L P ys' -> appended lo (zs ++ ys) L P (zs ++ ys').
Proof.
  intros C1 Hm Hk C2 [C3 S]; apply (chain_lo _ m) in C2; [| done]; apply (chain_lo _ m) in C3; [| done]; split; [apply chain_app; by exists m |].
  intros b; destruct (Z.ltb_spec b m) as [Hb | Hb].
  - rewrite (search_app_l _ _ m (L + 1)), (search_app_l _ _ m hi) by done; destruct (Z.eqb_spec b L); [lia | done].
  - rewrite !(search_app_r lo zs _ m) by done; apply S.
Qed.

(** The last child of a root. *)
Lemma last_child d f root bs xs hi : children d f root 0 0 bs xs hi -> bs <> [] ->
  exists bs1 b zs ys m m', bs = bs1 ++ [b] /\ xs = zs ++ ys /\ children d f root 0 0 bs1 zs m /\ child d f root (zlen bs - 1) m b ys m' /\ m' <= hi /\ chain 0 zs m /\ end_of 0 ys = end_of 0 xs.
Proof.
  intros H Hne; destruct (exists_last Hne) as (bs1 & b & ->); apply children_app in H as (zs & ys & m & -> & H1 & H2); cbn in H2; destruct H2 as (ys' & zs' & m' & -> & HC & -> & Hm).
  rewrite app_nil_r; exists bs1, b, zs, ys', m, m'; split; [done |]; split; [done |]; split; [done |]; split; [| split; [done |]].
  - rewrite zlen_app; change (zlen [b]) with 1; by replace (zlen bs1 + 1 - 1) with (0 + zlen bs1) by lia.
  - split; [by eapply children_chain |]; rewrite end_app; apply end_some, HC.
Qed.

(** The end of the last child may be taken as that of its extents. *)
Lemma children_end d f root i lo bs xs hi : children d f root i lo bs xs hi -> bs <> [] -> children d f root i lo bs xs (end_of lo xs).
Proof.
  revert i lo xs; induction bs as [| b bs IH]; intros i lo xs; [done |]; cbn; intros (ys & zs & m & -> & HC & H) _; pose proof HC as [C1 C2 C3 C4 C5 C6]; destruct (chain_end _ _ _ C3) as [E1 E2].
  rewrite end_app, (end_some lo (ei_block root i) ys) by done; destruct bs as [| b' bs].
  - destruct H as [-> Hm]; cbn; exists ys, [], (end_of (ei_block root i) ys); rewrite app_nil_r; split; [done |]; split; [split; try done; lia | split; [done | lia]].
  - exists ys, zs, m; split; [done |]; split; [done |]; rewrite (end_some _ m); [by apply IH |]; destruct H as (ys2 & zs2 & m2 & -> & [_ _ _ _ _ N] & _); intros X; by apply app_nil in X as [X _].
Qed.

(** Its leaf written with one more block. *)
Lemma grow_last_leaf d f inode bs1 b xs zs ys m m' hi L P leaf' ys' : alloc_ok d f -> let bs := bs1 ++ [b] in tree d f inode bs xs ->
  eh_depth (extent_root inode) = 1 -> xs = zs ++ ys -> children d f (extent_root inode) 0 0 bs1 zs m -> child d f (extent_root inode) (zlen bs - 1) m b ys m' -> m' <= hi -> chain 0 zs m ->
  ei_block (extent_root inode) (zlen bs - 1) <= L -> L + 1 < 2 ^ 32 -> 0 < P ->
  leaf_ok leaf' EXT4_LEAF_RECORDS ys' -> zlen leaf' = 4096 -> appended (ei_block (extent_root inode) (zlen bs - 1)) ys L P ys' ->
  grown d f inode bs xs L P (put_blk d f b leaf') f inode bs (zs ++ ys').
Proof.
  intros A bs T Hd -> HB HC Hm HZ Hk HL HP HLf Hz HA; pose proof T as [T1 T2 T3 T4 TS TH TN]; destruct TS as [(E & _) | (_ & _ & He & Hb & _)]; [by apply app_nil in E as [_ E] |].
  pose proof TH as TH'; rewrite Forall_forall in TH; assert (Hin : b ∈ bs) by (apply elem_of_app; right; by left).
  destruct (kept_put d f b leaf' bs A (TH b Hin) Hin Hz (lf_bytes _ _ _ HLf)) as [K E]; pose proof HC as [C1 C2 C3 C4 C5 C6]; split; try done; [| by eapply appended_app | by auto].
  apply NoDup_app in TN as TN'; destruct TN' as (_ & TD & _); split; try done; [right | apply Forall_forall; intros b' Hb'; eapply held_kept; [exact K | by apply TH]].
  split; [intros X; by apply app_nil in X as [_ X] |]; split; [done |]; split; [done |]; split; [done |]; exists (L + 1); split; [| done]; apply children_app; exists zs, ys', m; split; [done |]; split.
  - eapply children_ext; [done | | exact HB]; intros b' Hb'; assert (F : fs_ok f) by apply A.
    assert (Hn : blkno b /\ blkno b') by (split; apply (blkno_of f); try done; apply TH; [done | apply elem_of_app; by left]).
    rewrite blk_put by first [done | apply Hn | apply A | apply F | apply HLf]; rewrite decide_False; [done |]; intros ->; apply (TD b Hb'); by left.
  - cbn; exists ys', [], (L + 1); rewrite app_nil_r; split; [done |]; split; [| split; [done | lia]].
    assert (Ei : 0 + zlen bs1 = zlen bs - 1) by (unfold bs; rewrite zlen_app; change (zlen [b]) with 1; lia); rewrite Ei.
    split; rewrite ?E; try done; [apply HA | by eapply appended_ne].
Qed.

Lemma index_ext nd nd' i : (forall k, record_at i <= k < record_at i + 12 -> znth 0 nd' k = znth 0 nd k) -> ei_leaf nd' i = ei_leaf nd i /\ ei_block nd' i = ei_block nd i.
Proof.
  intros E; split; [unfold ei_leaf; f_equal; [| f_equal] |]; (apply le32_ext || apply le16_ext); intros k Hk; apply E; lia.
Qed.

(** A leaf of its own for the new block. *)
Lemma grow_new_leaf d f inode bs xs L P d' f' r ys' : alloc_ok d f -> tree d f inode bs xs -> bs <> [] -> zlen bs < eh_max (extent_root inode) -> end_of 0 xs <= L -> L + 1 < 2 ^ 32 -> 0 < P -> 0 <= L ->
  takes d f d' f' r -> leaf_ok (blk d' f' r) EXT4_LEAF_RECORDS ys' -> appended L [] L P ys' ->
  let root' := splice (splice (extent_root inode) (record_at (zlen bs)) (index_bytes L r)) 2 (bytes16 (zlen bs + 1)) in
  grown d f inode bs xs L P d' f' (count_meta (with_root inode root')) (bs ++ [r]) (xs ++ ys').
Proof.
  intros A T Hne Hmx HE HL HP HL0 TK HLf HA root'; pose proof T as [T1 T2 T3 T4 TS TH TN]; destruct TS as [(E & _) | (_ & Hd & He & Hb & hi & HC & Hhi)]; [done |].
  pose proof (zlen_root _ T1) as Zr; destruct (takes_held _ _ _ _ _ A TK) as [Hr Hr2]; destruct (index_bytes_ok L r) as [Zi Yi]; pose proof (zlen_nonneg bs).
  set (n := zlen bs) in *; assert (Yr : bytes (extent_root inode)) by (by apply Forall_drop).
  destruct (header_splice (extent_root inode) (record_at n) (index_bytes L r)) as (A1 & A2 & A3 & A4 & A5 & A6); [unfold record_at; lia | unfold record_at; lia | done | done |].
  pose (root1 := splice (extent_root inode) (record_at n) (index_bytes L r)); fold root1 in root', A1, A2, A3, A4, A5, A6.
  destruct (set_entries root1 (n + 1)) as (B1 & B2 & B3 & B4 & B5 & B6 & B7); [lia | lia | done |]; fold root' in B1, B2, B3, B4, B5, B6, B7.
  destruct (root_with inode root') as (R1 & R2 & R3 & R4); [done | done | lia | done | intros i Hi; rewrite B7 by lia; apply znth_splice_ne; unfold record_at; lia |].
  destruct (count_meta_ok (with_root inode root') R1 R2) as (M1 & M2 & M3 & M4); rewrite R3 in M3.
  pose proof (children_chain _ _ _ _ _ _ _ _ HC) as HCh; destruct (chain_end _ _ _ HCh) as [HCe HCl]; 
  assert (F : fs_ok f) by apply A; pose proof (kept_takes _ _ _ _ _ bs TK F) as K; pose proof (kept_takes _ _ _ _ _ [] TK F) as K0; rewrite Forall_forall in TH.
  assert (Nr : r ∉ bs) by (intros Hin; destruct (TH r Hin) as (_ & U & _); by rewrite (t_free _ _ _ _ _ TK) in U).
  assert (HI : ei_block root' n = L /\ ei_leaf root' n = r).
  { apply index_read; [| lia | lia]; intros k Hk; rewrite B7 by (unfold record_at; lia); apply znth_splice_in; unfold record_at; lia. }
  assert (HJ : forall j, 0 <= j < n -> ei_leaf root' j = ei_leaf (extent_root inode) j /\ ei_block root' j = ei_block (extent_root inode) j).
  { intros j Hj; apply index_ext; intros k Hk; unfold record_at in Hk; rewrite B7 by lia; apply znth_splice_ne; unfold record_at; lia. }
  split; [done | | rewrite <- (app_nil_r xs) at 1; eapply (appended_app 0 xs (end_of 0 xs) L [] L); [done | done | lia | cbn; lia | done] | by eapply same_fields_trans |].
  2:{ intros b [Hb' | ->%list_elem_of_singleton]%elem_of_app; [by left | right; apply TK]. }
  split; rewrite ?M3; try done; [congruence | congruence | right | |].
  - split; [intros X; by apply app_nil in X as [_ X] |]; rewrite zlen_app; change (zlen [r]) with 1; fold n; repeat (split; [congruence || lia |]); exists (L + 1); split; [| done].
    apply children_app; exists xs, ys', (end_of 0 xs); split; [done |]; split; [| cbn; exists ys', [], (L + 1); rewrite app_nil_r; split; [done |]; split; [| split; [done | lia]]].
    + apply (children_ext d f (extent_root inode)); [intros j Hj; apply HJ; lia | | by eapply children_end].
      intros b Hb'; apply (kp_data _ _ _ _ _ K0); [by apply TH | apply not_elem_of_nil].
    + change (0 + zlen bs) with n; destruct HI as [HI1 HI2]; split; rewrite ?HI1, ?HI2; first [done | lia | apply HA | by apply (appended_ne L [] L P)].
  - apply Forall_app; split; [apply Forall_forall; intros b Hb'; eapply held_kept; [exact K | by apply TH] | by constructor].
  - apply NoDup_app; split; [done |]; split; [| apply NoDup_singleton]; intros b Hb' ->%list_elem_of_singleton; done.
Qed.

(** No leaf can be added to the root. *)
Definition root_full inode bs : Prop := bs <> [] /\ eh_max (extent_root inode) <= zlen bs.

Lemma runs_new_leaf {A} inode L P (k : list Z * bool -> M A) d o h f bs xs Q :
  alloc_ok d f -> tree d f inode bs xs -> bs <> [] -> zlen bs < eh_max (extent_root inode) -> end_of 0 xs <= L -> 0 <= L -> L + 1 < 2 ^ 32 -> 0 < P < 2 ^ 32 ->
  (forall o' d' f', calm o o' -> kept d f d' f' [] -> (o = [] -> all_full d f) -> runs (k (inode, false)) (mk d' o' h f') Q) ->
  (forall o' d' f' inode' bs' xs', calm o o' -> grown d f inode bs xs L P d' f' inode' bs' xs' -> runs (k (inode', true)) (mk d' o' h f') Q) ->
  runs (extent_new_leaf inode L P ≫= k) (mk d o h f) Q.
Proof.
  intros A0 T Hne Hmx HE HL0 HL HP H0 H1; apply runs_bind; unfold extent_new_leaf; pose proof T as [Hl Hy Hm Hx HS HH HN]; destruct HS as [(E & _) | (_ & Hd & He & _)]; [done |].
  apply runs_alloc_block; [done | intros o1 C1 ZF; cbn [Z.eqb]; apply runs_ret, H0; [done | by apply kept_refl | exact ZF] |].
  intros o1 d1 f1 r C1 TK _; destruct (takes_held _ _ _ _ _ A0 TK) as [Hr Hr2]; destruct (Z.eqb_spec r 0); [lia |].
  apply runs_kmalloc; intros o2 [|] C2 Hok; cbn [negb].
  2:{ apply (runs_give_back _ _ d f); [done | done |]; intros o3 d3 f3 C3 K; apply runs_ret, H0; [repeat (eapply calm_trans; [eassumption |]); apply calm_same | done | intros Ho; by specialize (Hok (C1 Ho))]. }
  destruct (new_leaf_ok 0 [] (zeroes 4096)) as (LL & LZ & LM & LE); [lia | done | constructor | vm_compute; discriminate | lia |]; change (ext_at (zeroes 4096) <$> seqZ 0 0) with (@nil ext) in LL; rewrite app_nil_r in LL, LZ, LM, LE; set (leaf := splice (zeroes EXT4_BLOCK_SIZE) 0 _) in *.
  destruct (leaf_do_append leaf _ _ L L L P LL HL0) as (leaf' & ys' & -> & LL' & LZ' & _ & HA & _); [cbn; lia | cbn; lia | rewrite LE, LM; vm_compute; reflexivity | done | done |]; apply runs_lift.
  apply (runs_write_or_free _ _ _ d f); [done | done | lia | apply LL' | |].
  - intros o3 d3 f3 C3 Hn K; apply runs_ret, H0; [repeat (eapply calm_trans; [eassumption |]); apply calm_same | done | intros ->; by destruct Hn; apply C2, C1].
  - intros o3 d3 C3 TK3 E3; cbn [negb]; pose proof (zlen_nonneg bs); pose proof (zlen_root _ Hl); rewrite poke_eq by (try rewrite (proj1 (index_bytes_ok L r)); unfold record_at; lia); apply runs_lift, runs_ret.
    destruct (header_splice (extent_root inode) (record_at (zlen bs)) (index_bytes L r)) as (_ & _ & _ & EE & _);
      [unfold record_at; lia | rewrite (proj1 (index_bytes_ok L r)); unfold record_at; lia | by apply Forall_drop | apply index_bytes_ok |].
    rewrite He, EE, He, u16_small by lia; eapply H1; [repeat (eapply calm_trans; [eassumption |]); apply calm_same | apply grow_new_leaf; try done; [lia | by rewrite E3]].
Qed.

Lemma runs_extent_grow {A} inode L P (k : list Z * bool -> M A) d o h f bs xs Q :
  alloc_ok d f -> tree d f inode bs xs -> 0 <= L -> L + 1 < 2 ^ 32 -> 0 < P < 2 ^ 32 -> end_of 0 xs <= L \/ leaf_room d f bs ->
  (forall o' d' f', calm o o' -> kept d f d' f' [] -> (o = [] -> L < end_of 0 xs \/ root_full inode bs /\ ~ leaf_room d f bs \/ all_full d f) -> runs (k (inode, false)) (mk d' o' h f') Q) ->
  (forall o' d' f' inode' bs' xs', calm o o' -> grown d f inode bs xs L P d' f' inode' bs' xs' -> runs (k (inode', true)) (mk d' o' h f') Q) ->
  runs (ext4_extent_grow inode L P ≫= k) (mk d o h f) Q.
Proof.
  intros A0 T HL0 HL HP HR H0 H1; apply runs_bind; unfold ext4_extent_grow; pose proof T as [Hl Hy Hm Hx HS HH HN]; rewrite Hm, Z.eqb_refl; cbn [negb].
  destruct HS as [(-> & HLf & hi & HC & Hhi) | (Hne & Hd & He & Hb & hi & HC & Hhi)].
  - rewrite (lf_depth _ _ _ HLf); cbn [Z.eqb]; rewrite (leaf_can_append _ _ _ _ _ HLf HC Hhi HL0); apply runs_lift.
    destruct (Z.leb_spec (end_of 0 xs) L) as [HE | HE], (Z.ltb_spec (eh_entries (extent_root inode)) (eh_max (extent_root inode))) as [Hr | Hr]; cbn [andb].
    + destruct (grow_root d f inode xs L P A0 T (lf_depth _ _ _ HLf) HE Hr HL HP) as (root' & xs' & -> & G); apply runs_lift, runs_ret; eapply H1; [apply calm_same | exact G].
    + apply runs_unbind, (runs_extent_promote _ _ _ _ _ _ _ _ xs); try done; [by apply HLf | intros o1 d1 f1 C1 K HF; apply H0; [done | done |]; intros Ho; destruct (HF Ho); auto].
    + apply runs_ret, H0; [apply calm_same | by apply kept_refl | auto].
    + apply runs_unbind, (runs_extent_promote _ _ _ _ _ _ _ _ xs); try done; [by apply HLf | intros o1 d1 f1 C1 K HF; apply H0; [done | done |]; intros Ho; destruct (HF Ho); auto].
  - pose proof (zlen_root _ Hl) as Zr; pose proof (zlen_nonneg bs); assert (Hz : zlen bs <> 0) by (destruct bs as [| b bs']; [done |]; rewrite zlen_cons; pose proof (zlen_nonneg bs'); lia).
    rewrite Hd, He; cbn [Z.eqb]; destruct (Z.eqb_spec (zlen bs) 0); [lia |]; destruct (Z.ltb_spec (zlen (extent_root inode)) (record_at (zlen bs))); [unfold record_at in *; lia |]; change (1 =? 1) with true; cbv iota.
    destruct (last_child _ _ _ _ _ _ HC Hne) as (bs1 & b & zs & ys & m & m' & Ebs & Exs & HB & HCh & Hm' & HZ & Een); pose proof HCh as [C1 C2 C3 C4 C5 C6]; rewrite C1.
    pose proof (children_le _ _ _ _ _ _ _ _ HB); assert (CH0 : chain 0 ys m') by (eapply chain_lo; [exact C3 | lia]).
    apply runs_load_block; intros o1 K1; [intros Hn; apply runs_ret, H0; [done | by apply kept_refl | done] |].
    rewrite (leaf_can_append _ _ _ _ _ C5 CH0 C4 HL0), Een; apply runs_lift.
    destruct (Z.leb_spec (end_of 0 xs) L) as [HE | HE], (Z.ltb_spec (eh_entries (blk d f b)) (eh_max (blk d f b))) as [Hr | Hr]; cbn [andb].
    + destruct (leaf_do_append (blk d f b) _ ys (ei_block (extent_root inode) (zlen bs - 1)) m' L P C5 ltac:(lia) C3) as (leaf' & ys' & -> & LL' & LZ' & _ & HA & _); [rewrite (end_some _ 0) by done; lia | done | done | done |]; apply runs_lift.
      apply runs_write_block; intros o2 K2; [intros Hn; apply runs_ret, H0; [by eapply calm_trans | by apply kept_refl | intros ->; by destruct Hn; apply K1] |].
      destruct (chain_end _ _ _ C3) as [_ Hk]; rewrite (end_some _ 0), Een in Hk by done.
      apply runs_ret; eapply H1; [by eapply calm_trans |]; rewrite Ebs in *; eapply grow_last_leaf; try done; [lia | lia | by rewrite LZ'; apply zlen_blk, A0].
    + destruct (Z.leb_spec (eh_max (blk d f b)) (eh_entries (blk d f b))); [| lia]; cbn [negb]; destruct (Z.leb_spec (eh_max (extent_root inode)) (zlen bs)) as [Hf | Hf].
      * apply runs_ret, H0; [done | by apply kept_refl | intros _; right; left; split; [done |]; intros X; specialize (X b); rewrite Ebs, last_snoc in X; specialize (X eq_refl); lia].
      * apply runs_unbind, (runs_new_leaf _ _ _ _ _ _ _ _ bs xs); try done.
        -- intros o2 d2 f2 K2 K HF; apply H0; [by eapply calm_trans | done |]; intros Ho; right; right; apply HF, K1, Ho.
        -- intros o2 d2 f2 inode2 bs2 xs2 K2 G; eapply H1; [by eapply calm_trans | exact G].
    + destruct (Z.leb_spec (eh_max (blk d f b)) (eh_entries (blk d f b))); [lia |]; cbn [negb]; apply runs_ret, H0; [done | by apply kept_refl | auto].
    + destruct HR as [HR | HR]; [lia |]; specialize (HR b); rewrite Ebs, last_snoc in HR; specialize (HR eq_refl); lia.
Qed.

(** ** The test before growth *)

(** There is room for [L] at the end of the tree, disk space apart. *)
Definition roomy d f inode bs xs (L : Z) : Prop := end_of 0 xs <= L /\ (root_full inode bs -> leaf_room d f bs).

Lemma runs_extent_can_grow {A} inode L (k : bool -> M A) d o h f bs xs Q :
  tree d f inode bs xs -> 0 <= L -> end_of 0 xs <= L \/ leaf_room d f bs ->
  (forall o', calm o o' -> o <> [] -> runs (k false) (mk d o' h f) Q) ->
  (forall o' (ok : bool), calm o o' -> (ok = true <-> roomy d f inode bs xs L) -> runs (k ok) (mk d o' h f) Q) ->
  runs (ext4_extent_can_grow inode L ≫= k) (mk d o h f) Q.
Proof.
  intros T HL0 HR H0 H1; apply runs_bind; unfold ext4_extent_can_grow; pose proof T as [Hl Hy Hm Hx HS HH HN]; rewrite Hm, Z.eqb_refl; cbn [negb].
  destruct HS as [(-> & HLf & hi & HC & Hhi) | (Hne & Hd & He & Hb & hi & HC & Hhi)].
  - assert (RF : root_full inode [] <-> False) by (split; [by intros [? _] | done]).
    rewrite (lf_depth _ _ _ HLf); cbn [Z.eqb]; rewrite (leaf_can_append _ _ _ _ _ HLf HC Hhi HL0); apply runs_lift.
    destruct (Z.leb_spec (end_of 0 xs) L) as [HE | HE], (Z.ltb_spec (eh_entries (extent_root inode)) (eh_max (extent_root inode))) as [Hr | Hr]; cbn [andb].
    1, 3 : apply runs_ret, H1; [apply calm_same |]; unfold roomy; rewrite RF; split; [intros; by split | done || (intros [? _]; lia)].
    all : rewrite (leaf_last_end _ _ _ _ HLf HC Hhi) by lia; apply runs_lift, runs_ret, H1; [apply calm_same |]; unfold roomy; rewrite RF, Z.leb_le; split; [intros; by split | by intros [? _]].
  - pose proof (zlen_root _ Hl) as Zr; pose proof (zlen_nonneg bs); assert (Hz : zlen bs <> 0) by (destruct bs as [| b bs']; [done |]; rewrite zlen_cons; pose proof (zlen_nonneg bs'); lia).
    rewrite Hd, He; cbn [Z.eqb]; destruct (Z.eqb_spec (zlen bs) 0); [lia |]; destruct (Z.ltb_spec (zlen (extent_root inode)) (record_at (zlen bs))); [unfold record_at in *; lia |]; change (1 =? 1) with true; cbv iota.
    destruct (last_child _ _ _ _ _ _ HC Hne) as (bs1 & b & zs & ys & m & m' & Ebs & Exs & HB & HCh & Hm' & HZ & Een); pose proof HCh as [C1 C2 C3 C4 C5 C6]; rewrite C1.
    pose proof (children_le _ _ _ _ _ _ _ _ HB); assert (CH0 : chain 0 ys m') by (eapply chain_lo; [exact C3 | lia]).
    assert (LR : leaf_room d f bs <-> eh_entries (blk d f b) < eh_max (blk d f b)).
    { unfold leaf_room; rewrite Ebs, last_snoc; split; [by intros X; apply X | by intros X ? [= <-]]. }
    apply runs_load_block; intros o1 K1; [intros Hn; by apply runs_ret, H0 |].
    rewrite (leaf_can_append _ _ _ _ _ C5 CH0 C4 HL0), Een; apply runs_lift.
    destruct (Z.leb_spec (end_of 0 xs) L) as [HE | HE], (Z.ltb_spec (eh_entries (blk d f b)) (eh_max (blk d f b))) as [Hr | Hr]; cbn [andb]; apply runs_ret, H1; try done; unfold roomy, root_full.
    + split; [intros _; split; [done | intros _; by apply LR] | done].
    + rewrite Z.ltb_lt, LR; split; [intros Hlt; split; [done | intros [_ ?]; lia] | intros [_ X]; destruct (decide (eh_max (extent_root inode) <= zlen bs)) as [Y |]; [| lia]; specialize (X (conj Hne Y)); lia].
    + split; [done | intros [? _]; lia].
    + exfalso; destruct HR as [HR | HR]; [lia | apply (proj1 LR) in HR; lia].
Qed.

Implicit Types (s : disk) (c : icache).

(** C9: An extent tree is a map, whichever transfers fail. On a tree of depth 0
    or 1 with the extents [xs] in order: a look-up finds the block the extents map
    a logical block to, or none, or fails if a transfer did, and keeps the cache
    of interior blocks true to the disk; the test before growth says yes only if
    there is room behind the last extent, and without failures exactly then; and
    growth, unless it is for a hole inside a full last leaf, either maps the new
    block and leaves every other mapping as it was, in the root, in the last leaf,
    in a leaf the root's extents move to or in a second leaf taken from the
    allocator, or leaves inode, tree and every other block in use alone, and
    without failures only if the block is not at the end, the tree is full or the
    disk is. *)
Theorem extent_tree_refines_map s inode bs xs :
  alloc_ok (dev s) (fs s) -> tree (dev s) (fs s) inode bs xs ->
  (forall b c, cache_ok (dev s) (fs s) bs c -> exists s' c' r, ext4_extent_lookup inode b c s = Some (s', (c', r)) /\
     dev s' = dev s /\ fs s' = fs s /\ cache_ok (dev s) (fs s) bs c' /\ (r = Some (search xs b) \/ r = None /\ oracle s <> [])) /\
  (forall L, 0 <= L -> end_of 0 xs <= L \/ leaf_room (dev s) (fs s) bs -> exists s' ok, ext4_extent_can_grow inode L s = Some (s', ok) /\
     dev s' = dev s /\ fs s' = fs s /\ (ok = true -> roomy (dev s) (fs s) inode bs xs L) /\
     (oracle s = [] -> roomy (dev s) (fs s) inode bs xs L -> ok = true)) /\
  (forall L P, 0 <= L -> L + 1 < 2 ^ 32 -> 0 < P < 2 ^ 32 -> end_of 0 xs <= L \/ leaf_room (dev s) (fs s) bs ->
     exists s' inode' ok, ext4_extent_grow inode L P s = Some (s', (inode', ok)) /\
       if ok : bool then exists bs' xs', grown (dev s) (fs s) inode bs xs L P (dev s') (fs s') inode' bs' xs'
       else inode' = inode /\ kept (dev s) (fs s) (dev s') (fs s') [] /\ tree (dev s') (fs s') inode bs xs /\
            (oracle s = [] -> L < end_of 0 xs \/ root_full inode bs /\ ~ leaf_room (dev s) (fs s) bs \/ all_full (dev s) (fs s))).
Proof.
  destruct s as [d o h f]; cbn [dev fs oracle]; intros A T; split; [| split].
  - intros b c HC; assert (R : runs (ext4_extent_lookup inode b c) (mk d o h f) (fun s' r => dev s' = d /\ fs s' = f /\ cache_ok d f bs (fst r) /\
      (snd r = Some (search xs b) \/ snd r = None /\ o <> []))).
    { apply runs_tail, (runs_extent_lookup _ _ _ _ _ _ _ bs xs); try done; [intros o' c' C Hn HC' | intros o' c' C HC']; apply runs_ret; cbn [fst snd dev fs]; auto 7. }
    destruct R as (s' & [c' r] & E & Q); by exists s', c', r.
  - intros L HL HR; assert (R : runs (ext4_extent_can_grow inode L) (mk d o h f) (fun s' ok => dev s' = d /\ fs s' = f /\ (ok = true -> roomy d f inode bs xs L) /\ (o = [] -> roomy d f inode bs xs L -> ok = true))).
    { apply runs_tail, (runs_extent_can_grow _ _ _ _ _ _ _ bs xs); try done; [intros o' C Hn | intros o' ok C [H1 H2]]; apply runs_ret; cbn [dev fs]; (split; [done |]; split; [done |]); [split; [done | intros Ho; by destruct (Hn Ho)] | auto]. }
    destruct R as (s' & ok & E & Q); by exists s', ok.
  - intros L P HL HL1 HP HR; assert (R : runs (ext4_extent_grow inode L P) (mk d o h f) (fun s' r => if snd r then exists bs' xs', grown d f inode bs xs L P (dev s') (fs s') (fst r) bs' xs'
      else fst r = inode /\ kept d f (dev s') (fs s') [] /\ tree (dev s') (fs s') inode bs xs /\ (o = [] -> L < end_of 0 xs \/ root_full inode bs /\ ~ leaf_room d f bs \/ all_full d f))).
    { apply runs_tail, (runs_extent_grow _ _ _ _ _ _ _ _ bs xs); try done; [intros o' d' f' C K W | intros o' d' f' i' bs' xs' C G]; apply runs_ret; cbn [fst snd dev fs]; [| by exists bs', xs'].
      split; [done |]; split; [done |]; split; [| done]; eapply extent_tree_kept; [exact K | exact T]. }
    destruct R as (s' & [i' ok] & E & Q); by exists s', i', ok.
Qed.

(** A root full with four extents: the next block moves them to a leaf. *)
Definition demo_tree : list Z :=
  splice (splice (zeroes 128) 32 (bytes32 EXT4_EXTENTS_FL)) 40 (header_bytes 4 4 0 ++ extent_bytes 0 1 90 ++ extent_bytes 2 1 92 ++ extent_bytes 4 1 94 ++ extent_bytes 6 2 96).
Definition demo_exts : list ext := [Ext 0 1 90 false; Ext 2 1 92 false; Ext 4 1 94 false; Ext 6 2 96 false].

Lemma demo_tree_ok : tree demo_dev demo_fs demo_tree [] demo_exts.
Proof.
  split; [reflexivity | apply bytes_forallb; vm_compute; reflexivity | vm_compute; reflexivity | vm_compute; split; discriminate | left | constructor | constructor].
  split; [done |]; split; [split | exists 8; split; [vm_compute; repeat split; discriminate | lia]].
  - vm_compute; reflexivity.
  - vm_compute; reflexivity.
  - vm_compute; split; discriminate.
  - vm_compute; discriminate.
  - apply bytes_forallb; vm_compute; reflexivity.
  - vm_compute; reflexivity.
Qed.

Lemma extent_tree_refines_map_witness :
  alloc_ok (dev demo) (fs demo) /\ tree (dev demo) (fs demo) demo_tree [] demo_exts /\
  exists s' inode' ok, ext4_extent_grow demo_tree 8 98 demo = Some (s', (inode', ok)) /\
    if ok : bool then exists bs' xs', grown (dev demo) (fs demo) demo_tree [] demo_exts 8 98 (dev s') (fs s') inode' bs' xs'
    else inode' = demo_tree /\ kept (dev demo) (fs demo) (dev s') (fs s') [] /\ tree (dev s') (fs s') demo_tree [] demo_exts /\
         (oracle demo = [] -> 8 < end_of 0 demo_exts \/ root_full demo_tree [] /\ ~ leaf_room (dev demo) (fs demo) [] \/ all_full (dev demo) (fs demo)).
Proof.
  split; [exact demo_alloc_ok |]; split; [exact demo_tree_ok |].
  refine (proj2 (proj2 (extent_tree_refines_map demo demo_tree [] demo_exts demo_alloc_ok demo_tree_ok)) 8 98 _ _ _ _); [lia | lia | lia | left; vm_compute; discriminate].
Defined.

(** The case the theorem leaves out: block 1 is a hole between the two extents of
    a full leaf; growth starts a second leaf for it, and block 2 is lost. *)
Definition hole_leaf : list Z := splice (zeroes 4096) 0 (header_bytes 2 2 0 ++ extent_bytes 0 1 90 ++ extent_bytes 2 1 92).
Definition hole_tree : list Z := splice (splice (zeroes 128) 32 (bytes32 EXT4_EXTENTS_FL)) 40 (header_bytes 1 4 1 ++ index_bytes 0 69).
Definition hole_disk : disk := {| dev := put_blk demo_dev demo_fs 69 hole_leaf; oracle := []; heap := []; fs := demo_fs |}.
Definition found_at (inode : list Z) (b : Z) (s : disk) : option (option Z) := snd <$> result (ext4_extent_lookup inode b EXT4_ICACHE_INIT) s.

Example hole_in_full_leaf_loses_block :
  found_at hole_tree 2 hole_disk = Some (Some 92) /\
  result (ext4_extent_can_grow hole_tree 1) hole_disk = Some true /\
  (r ← result (ext4_extent_grow hole_tree 1 91) hole_disk; let s := after (ext4_extent_grow hole_tree 1 91) hole_disk in
   Some (snd r, found_at (fst r) 1 s, found_at (fst r) 2 s)) = Some (true, Some (Some 91), Some (Some 0)).
Proof. vm_compute; done. Qed.
