(* ===== verification/Ext4FileMap.v ===== *)
(** * ext4: what a block mapping promises

    The data of a file is read and written through a mapping from logical blocks
    to blocks of the disk: pointers in the inode and in pointer blocks, or an
    extent tree.  [file_map] is what the operations on data use of either. *)
From Stdlib Require Import ZArith Lia.
From stdpp Require Import base numbers list.
From S2P Require Import Prelude Bytes Gpt CString ProcTab VfsPath Ext4Disk Ext4Map Ext4Alloc Ext4Dir Ext4Ops.
From S2P Require Import Ext4Proofs Ext4AllocProofs Ext4Blocks Ext4ExtentTree Ext4ExtentTheorems.

Implicit Types (d : Z -> list Z) (f : ext4_fs) (o : list bool) (h inode : list Z) (b j P : Z) (mp : Z -> Z) (mt : list Z) (c : icache).

(** The fields of an inode that its mapping reads. *)
Definition same_map inode inode' : Prop := forall i, 32 <= i < 36 \/ 40 <= i < 100 -> znth 0 inode' i = znth 0 inode i.

(** [mp] with [P] at [j]. *)
Definition put_at mp j P mp2 : Prop := forall i, mp2 i = if i =? j then P else mp i.

(** A mapping of up to [fm_limit] blocks.  [fm_ok d f inode mp mt]: the inode maps
    block [i] to [mp i], 0 for a hole, with the help of the blocks [mt].
    [fm_can]: a hole it may be asked to fill; [fm_room]: it has room for one more. *)
Record file_map := {
  fm_limit : Z;
  fm_ok : (Z -> list Z) -> ext4_fs -> list Z -> (Z -> Z) -> list Z -> Prop;
  fm_can : (Z -> Z) -> Z -> Prop;
  fm_room : (Z -> list Z) -> ext4_fs -> list Z -> list Z -> Prop;
  fm_small : 0 < fm_limit < 2 ^ 32;
  fm_inode d f inode mp mt : fm_ok d f inode mp mt -> zlen inode = 128 /\ bytes inode;
  fm_held d f inode mp mt : fm_ok d f inode mp mt -> Forall (held d f) mt;
  fm_frame d f inode mp mt d' f' inode' : fm_ok d f inode mp mt ->
    (forall b, b ∈ mt -> blk d' f' b = blk d f b /\ held d' f' b) -> zlen inode' = 128 -> bytes inode' -> same_map inode inode' ->
    fm_ok d' f' inode' mp mt /\ (fm_room d f inode mt -> fm_room d' f' inode' mt);
  fm_can_next mp j P mp2 j' : fm_can mp j -> put_at mp j P mp2 -> j < j' -> fm_can mp2 j';
  fm_bmap A j (k : icache * option Z -> M A) d h f inode mp mt c Q :
    fm_ok d f inode mp mt -> cache_ok d f mt c -> 0 <= j < fm_limit ->
    (forall c', cache_ok d f mt c' -> runs (k (c', Some (mp j))) (mk d [] h f) Q) -> runs (ext4_bmap inode j c ≫= k) (mk d [] h f) Q;
  fm_can_grow A j (k : bool -> M A) d h f inode mp mt Q :
    fm_ok d f inode mp mt -> 0 <= j < fm_limit -> fm_can mp j ->
    (fm_room d f inode mt -> runs (k true) (mk d [] h f) Q) -> (~ fm_room d f inode mt -> runs (k false) (mk d [] h f) Q) ->
    runs (ext4_can_grow_block_mapping inode j ≫= k) (mk d [] h f) Q;
  fm_grow A j P (k : list Z * icache * bool -> M A) d h f inode mp mt c Q :
    alloc_ok d f -> fm_ok d f inode mp mt -> fm_room d f inode mt -> cache_ok d f mt c -> 0 <= j < fm_limit -> mp j = 0 -> fm_can mp j ->
    held d f P -> P ∉ mt -> P < 2 ^ 32 ->
    (forall d' f' inode' c', alloc_ok d' f' -> held d' f' P -> none_free d' f' -> runs (k (inode', c', false)) (mk d' [] h f') Q) ->
    (forall d' f' inode' mp2 mt' c', kept d f d' f' mt -> fm_ok d' f' inode' mp2 mt' -> cache_ok d' f' mt' c' -> put_at mp j P mp2 -> same_fields inode inode' ->
       (forall b, b ∈ mt' -> b ∈ mt \/ used d f b = false) -> runs (k (inode', c', true)) (mk d' [] h f') Q) ->
    runs (ext4_grow_block_mapping inode j P c ≫= k) (mk d [] h f) Q
}.


Lemma same_fields_map inode inode' : same_fields inode inode' -> extent_root inode' = extent_root inode -> zlen inode = 128 -> zlen inode' = 128 -> same_map inode inode'.
Proof.
  intros H E H1 H2 i [Hi | Hi]; [apply H; lia |]; replace i with (40 + (i - 40)) by lia; rewrite <- !znth_root by lia; by rewrite E.
Qed.

Lemma same_map_refl inode : same_map inode inode.
Proof. by intros i Hi. Qed.

Section mapped.
Context (F : file_map).

(** Calls that leave the mapping's blocks alone. *)
Lemma fm_kept d f inode mp mt d' f' : kept d f d' f' [] -> fm_ok F d f inode mp mt ->
  fm_ok F d' f' inode mp mt /\ (fm_room F d f inode mt -> fm_room F d' f' inode mt).
Proof.
  intros K H; destruct (fm_inode F _ _ _ _ _ H) as [H1 H2]; apply (fm_frame F d f inode mp mt); try done.
  intros b Hb; pose proof (fm_held F _ _ _ _ _ H) as HH; rewrite Forall_forall in HH; specialize (HH b Hb).
  split; [apply (kp_data _ _ _ _ _ K); [done | apply not_elem_of_nil] | by eapply held_kept].
Qed.

Lemma fm_count_meta d f inode mp mt : fm_ok F d f inode mp mt -> fm_ok F d f (count_meta inode) mp mt /\ same_fields inode (count_meta inode).
Proof.
  intros H; destruct (fm_inode F _ _ _ _ _ H) as [H1 H2]; destruct (count_meta_ok inode H1 H2) as (M1 & M2 & M3 & M4); split; [| done].
  apply (fm_frame F d f inode mp mt); try done; [| by apply same_fields_map].
  intros b Hb; pose proof (fm_held F _ _ _ _ _ H) as HH; rewrite Forall_forall in HH; split; [done | by apply HH].
Qed.

Lemma cache_kept d f d' f' mt c : kept d f d' f' [] -> Forall (held d f) mt -> cache_ok d f mt c -> cache_ok d' f' mt c.
Proof.
  intros K HH; rewrite Forall_forall in HH; apply cache_same; intros b Hb; split; [done |]; apply (kp_data _ _ _ _ _ K); [by apply HH | apply not_elem_of_nil].
Qed.

(** The block behind [j], mapped now if it was not. *)
Lemma runs_mapped {A} j c (k : list Z * icache * option Z -> M A) d h f inode mp mt Q :
  alloc_ok d f -> fm_ok F d f inode mp mt -> cache_ok d f mt c -> 0 <= j < fm_limit F -> (mp j = 0 -> fm_can F mp j) ->
  (forall d' f' inode' c', alloc_ok d' f' -> nearly_full d' f' \/ d' = d /\ f' = f /\ ~ fm_room F d f inode mt -> runs (k (inode', c', None)) (mk d' [] h f') Q) ->
  (mp j <> 0 -> forall c', cache_ok d f mt c' -> runs (k (inode, c', Some (mp j))) (mk d [] h f) Q) ->
  (mp j = 0 -> forall d' f' inode' mp' mt' c' r, kept d f d' f' mt -> fm_ok F d' f' inode' mp' mt' -> cache_ok d' f' mt' c' -> put_at mp j r mp' -> same_fields inode inode' ->
     (forall b, b ∈ mt' -> b ∈ mt \/ used d f b = false) -> used d f r = false -> held d' f' r -> r ∉ mt' -> blk d' f' r = zeroes EXT4_BLOCK_SIZE ->
     runs (k (inode', c', Some r)) (mk d' [] h f') Q) ->
  runs (mapped_block inode j c ≫= k) (mk d [] h f) Q.
Proof.
  intros A0 HF HC Hj Hcan HN HH HM; pose proof (fm_held F _ _ _ _ _ HF) as Hmt; rewrite Forall_forall in Hmt; apply runs_bind; unfold mapped_block; apply (fm_bmap F _ _ _ _ _ _ _ mp mt); try done; intros c1 HC1.
  destruct (Z.eqb_spec (mp j) 0) as [E | E]; cbn [negb]; [| by apply runs_ret, HH]; specialize (Hcan E); specialize (HM E).
  apply (fm_can_grow F _ _ _ _ _ _ _ mp mt); try done; [intros Room; cbn [negb] | intros NR; cbn [negb]; apply runs_ret, HN; [done | by right]].
  apply runs_alloc_block; [done | intros o1 C1 ZF; rewrite (C1 eq_refl); cbn [Z.eqb]; apply runs_ret, HN; [done | left; exact (nearly_full_full d f A0 (ZF eq_refl))] |].
  intros o1 d1 f1 r C1 T Zr; rewrite (C1 eq_refl); specialize (Zr eq_refl); destruct (takes_held _ _ _ _ _ A0 T) as [Hr Hr2]; destruct (Z.eqb_spec r 0); [lia |].
  pose proof (kept_takes _ _ _ _ _ [] T (a_fs d f A0)) as K1; destruct (fm_kept d f inode mp mt d1 f1 K1 HF) as [HF1 Room1]; pose proof (t_free _ _ _ _ _ T) as Fr.
  assert (Nr : r ∉ mt) by (intros Hin; destruct (Hmt r Hin) as (_ & U & _); congruence).
  apply (fm_grow F _ _ _ _ _ _ _ _ mp mt); try done; [apply T | by apply Room1 | by eapply cache_kept; [exact K1 | apply Forall_forall |] | lia | |].
  - intros d2 f2 inode2 c2 A2 H2 Full; cbn [negb]; apply runs_free_block; [done | by apply (held_spare d2) |]; intros o3 d3 f3 C3 R3 _; rewrite (C3 eq_refl).
    apply runs_ret, HN; [apply R3 | left; by eapply nearly_full_frees].
  - intros d2 f2 inode2 mp2 mt2 c2 K2 HF2 HC2 PA SF Sub; cbn [negb]; destruct (fm_count_meta d2 f2 inode2 mp2 mt2 HF2) as [HF3 SF3].
    pose proof (fm_held F _ _ _ _ _ HF2) as Hmt2; rewrite Forall_forall in Hmt2.
    assert (Sub2 : forall b, b ∈ mt2 -> b ∈ mt \/ used d f b = false).
    { intros b Hb; destruct (Sub b Hb) as [| Hu]; [by left | right]; destruct (used d f b) eqn:Eu; [| done]; exfalso; destruct (Hmt2 b Hb) as (B & _ & _).
      rewrite (kp_used _ _ _ _ _ K1 b) in Hu; [done | | done]; unfold block_of in *; by rewrite <- (g_groups _ _ (kp_geo _ _ _ _ _ K1)), <- (g_groups _ _ (kp_geo _ _ _ _ _ K2)). }
    apply runs_ret, (HM d2 f2 _ mp2 mt2 c2); try done; [| by eapply same_fields_trans | by eapply held_kept | |].
    + eapply kept_trans; [eapply kept_more; [exact K1 | by intros b ?%not_elem_of_nil] | exact K2].
    + intros Hin; destruct (Sub r Hin) as [| Hu]; [done |]; destruct Hr as (_ & Hu' & _); congruence.
    + by rewrite (kp_data _ _ _ _ _ K2).
Qed.
End mapped.

(** ** ext4: pointers in the inode and in pointer blocks

    The mapping of the files the driver makes itself: twelve blocks named by the
    inode, then those named by its indirect block, then those named by the blocks
    its double indirect block names.  Nodes [-2] and [-1] are the indirect and the
    double indirect block, node [m] the [m]-th block below the latter. *)

(** ** The nodes *)

Definition entry d f b (i : Z) : Z := le32 (blk d f b) (4 * i).

Definition node d f inode (s : Z) : Z :=
  if s =? -2 then i_block inode 12
  else if s =? -1 then i_block inode 13
  else if i_block inode 13 =? 0 then 0 else entry d f (i_block inode 13) s.

(** The node that names block [j], and the entry there. *)
Definition slot_for j : Z := if j <? 12 + 1024 then -2 else (j - 12 - 1024) / 1024.
Definition idx_for j : Z := if j <? 12 + 1024 then j - 12 else (j - 12 - 1024) mod 1024.

Definition pointer_at d f inode j : Z :=
  if j <? 12 then i_block inode j
  else if node d f inode (slot_for j) =? 0 then 0 else entry d f (node d f inode (slot_for j)) (idx_for j).

Record pointers d f inode mp mt : Prop := {
  pt_len : zlen inode = 128;
  pt_bytes : bytes inode;
  pt_legacy : is_extents inode = false;
  pt_at j : 0 <= j < EXT4_LEGACY_MAX_BLOCK_IDX -> mp j = pointer_at d f inode j;
  pt_nodes s : -2 <= s < 1024 -> node d f inode s <> 0 -> node d f inode s ∈ mt;
  pt_inj s s' : -2 <= s < 1024 -> -2 <= s' < 1024 -> node d f inode s <> 0 -> node d f inode s = node d f inode s' -> s = s';
  pt_held : Forall (held d f) mt
}.

Lemma slot_range j : 12 <= j < EXT4_LEGACY_MAX_BLOCK_IDX -> -2 <= slot_for j < 1024 /\ slot_for j <> -1 /\ 0 <= idx_for j < 1024.
Proof.
  unfold EXT4_LEGACY_MAX_BLOCK_IDX, slot_for, idx_for; intros Hj; destruct (Z.ltb_spec j (12 + 1024)); [lia |].
  pose proof (Z.mod_pos_bound (j - 12 - 1024) 1024 ltac:(lia)); pose proof (Z.div_mod (j - 12 - 1024) 1024 ltac:(lia)); lia.
Qed.

Lemma slot_inj j j' : 12 <= j < EXT4_LEGACY_MAX_BLOCK_IDX -> 12 <= j' < EXT4_LEGACY_MAX_BLOCK_IDX -> slot_for j = slot_for j' -> idx_for j = idx_for j' -> j = j'.
Proof.
  unfold EXT4_LEGACY_MAX_BLOCK_IDX, slot_for, idx_for; intros Hj Hj'; pose proof (Z.mod_pos_bound (j - 12 - 1024) 1024 ltac:(lia)); pose proof (Z.div_mod (j - 12 - 1024) 1024 ltac:(lia)).
  pose proof (Z.mod_pos_bound (j' - 12 - 1024) 1024 ltac:(lia)); pose proof (Z.div_mod (j' - 12 - 1024) 1024 ltac:(lia)); destruct (Z.ltb_spec j (12 + 1024)), (Z.ltb_spec j' (12 + 1024)); lia.
Qed.

(** ** Looking up *)

Lemma runs_pointers_bmap {A} j (k : icache * option Z -> M A) d h f inode mp mt c Q :
  pointers d f inode mp mt -> cache_ok d f mt c -> 0 <= j < EXT4_LEGACY_MAX_BLOCK_IDX ->
  (forall c', cache_ok d f mt c' -> runs (k (c', Some (mp j))) (mk d [] h f) Q) -> runs (ext4_bmap inode j c ≫= k) (mk d [] h f) Q.
Proof.
  intros [Hl Hy HL HA HN HI HH] HC Hj HQ; pose proof (held_ne0 _ _ _ HH) as N0; unfold ext4_bmap; unfold is_extents in HL; rewrite HL; rewrite HA in HQ by done; unfold pointer_at in HQ.
  destruct (Z.ltb_spec j 12); [by apply runs_bind, runs_ret, HQ |]; destruct (slot_range j ltac:(lia)) as (S1 & S2 & S3).
  pose proof (HN (slot_for j) S1) as HNs; pose proof (HN (-1) ltac:(lia)) as HNd; unfold slot_for, idx_for in *; destruct (Z.ltb_spec j (12 + 1024)).
  - change (node d f inode (-2)) with (i_block inode 12) in *; destruct (Z.eqb_spec (i_block inode 12) 0) as [E | E]; [by apply runs_bind, runs_ret, HQ |].
    apply runs_bind, (runs_icache_get _ _ _ _ _ _ _ mt); try done; [by apply HNs |]; intros o' c' C HC'; rewrite (C eq_refl); by apply runs_ret, HQ.
  - change (node d f inode (-1)) with (i_block inode 13) in HNd; assert (Hm : 0 <= (j - 12 - 1024) / 1024) by (apply Z.div_pos; lia); set (m := (j - 12 - 1024) / 1024) in *; unfold node in HQ, HNs; destruct (Z.eqb_spec m (-2)), (Z.eqb_spec m (-1)); try lia.
    destruct (Z.leb_spec 1024 m); [lia |]; rewrite orb_false_r; destruct (Z.eqb_spec (i_block inode 13) 0) as [E | E]; [by apply runs_bind, runs_ret, HQ |].
    apply runs_bind, (runs_icache_get _ _ _ _ _ _ _ mt); try done; [by apply HNd |]; intros o' c' C HC'; rewrite (C eq_refl); fold (entry d f (i_block inode 13) m).
    destruct (Z.eqb_spec (entry d f (i_block inode 13) m) 0) as [E2 | E2]; [by apply runs_ret, HQ |].
    apply (runs_icache_get _ _ _ _ _ _ _ mt); try done; [by apply HNs |]; intros o2 c2 C2 HC2; rewrite (C2 eq_refl); by apply runs_ret, HQ.
Qed.

Lemma le32_inode_same inode inode' k : same_map inode inode' -> 0 <= k < 15 -> i_block inode' k = i_block inode k.
Proof. intros S Hk; apply le32_ext; intros i Hi; apply S; lia. Qed.

Lemma pointers_frame d f inode mp mt d' f' inode' : pointers d f inode mp mt -> (forall b, b ∈ mt -> blk d' f' b = blk d f b /\ held d' f' b) ->
  zlen inode' = 128 -> bytes inode' -> same_map inode inode' -> pointers d' f' inode' mp mt.
Proof.
  intros [Hl Hy HL HA HN HI HH] E L' Y' SM; assert (B : forall k, 0 <= k < 15 -> i_block inode' k = i_block inode k) by (intros k Hk; by apply le32_inode_same).
  assert (Nd : forall s, -2 <= s < 1024 -> node d' f' inode' s = node d f inode s).
  { intros s Hs; unfold node; rewrite !B by lia; repeat case_match; try done; unfold entry; rewrite (proj1 (E (i_block inode 13) ltac:(apply (HN (-1)); [lia | by apply Z.eqb_neq]))); done. }
  split; try done.
  - assert (EF : i_flags inode' = i_flags inode) by (apply le32_ext; intros k Hk; apply SM; lia); unfold is_extents; by rewrite EF.
  - intros j Hj; rewrite HA by done; unfold pointer_at; destruct (Z.ltb_spec j 12); [by rewrite B by lia |]; destruct (slot_range j ltac:(lia)) as (S1 & S2 & S3).
    rewrite Nd by done; case_match eqn:En; [done |]; unfold entry; by rewrite (proj1 (E _ (HN _ S1 ltac:(by apply Z.eqb_neq)))).
  - intros s Hs; rewrite Nd by done; by apply HN.
  - intros s s' Hs Hs'; rewrite !Nd by done; by apply HI.
  - apply Forall_forall; intros b Hb; by apply E.
Qed.

(** ** An entry written *)

Lemma blk_sector d f b x l : dev_ok d -> part_ok f -> blkno b -> zlen l = 512 -> bytes l -> block_sector f b <= x < block_sector f b + 8 ->
  forall i, 0 <= i < 4096 -> znth 0 (blk (write_sectors d x 1 l) f b) i = if i / 512 =? x - block_sector f b then znth 0 l (i mod 512) else znth 0 (blk d f b) i.
Proof.
  intros Hd Hp Hb Hl Hy Hx i Hi; unfold blk; rewrite !znth_read_sectors by (done || lia || (apply dev_ok_write; [done | lia | done])).
  destruct (Z.eqb_spec (i / 512) (x - block_sector f b)) as [E | E].
  - replace (block_sector f b + i / 512) with x by lia; rewrite write_sectors_in by lia; replace (512 * (x - x)) with 0 by lia; unfold slice; rewrite drop_0, take_ge by (unfold zlen in Hl; lia); done.
  - rewrite write_sectors_out; [done | lia].
Qed.

Lemma runs_install {A} b i P (k : bool -> M A) d h f Q :
  alloc_ok d f -> held d f b -> 0 <= i < 1024 ->
  (forall d', same_but d d' f (eq b) -> blk d' f b = splice (blk d f b) (4 * i) (bytes32 P) -> runs (k true) (mk d' [] h f) Q) ->
  runs (ext4_indirect_install_ptr b i P ≫= k) (mk d [] h f) Q.
Proof.
  intros A0 (Hb & Hu & Hx) Hi HQ; pose proof (a_fs d f A0) as Fs; pose proof (f_part f Fs) as HP; pose proof (f_groups f Fs); assert (Bn : blkno b) by (by apply (blkno_of f)); assert (Hd : dev_ok d) by apply A0.
  apply runs_bind; unfold ext4_indirect_install_ptr; apply runs_get_fs; unfold EXT4_BLOCK_SIZE; unfold block_of in Hb.
  assert (E1 : (b * 4096 + i * 4) / 512 = 8 * b + (4 * i) / 512) by (replace (b * 4096 + i * 4) with (4 * i + 8 * b * 512) by lia; rewrite Z.div_add by lia; lia).
  assert (E2 : (b * 4096 + i * 4) mod 512 = (4 * i) mod 512) by (replace (b * 4096 + i * 4) with (4 * i + 8 * b * 512) by lia; by rewrite Z.mod_add by lia).
  pose proof (Z.div_mod (4 * i) 512 ltac:(lia)) as D; pose proof (Z.mod_pos_bound (4 * i) 512 ltac:(lia)) as D2; assert (Hm : (4 * i) mod 512 + 4 <= 512).
  { change 512 with (4 * 128) at 1; rewrite Z.mul_mod_distr_l by lia; pose proof (Z.mod_pos_bound i 128 ltac:(lia)); lia. }
  unfold part_ok in HP; rewrite E1, E2, u64_small by lia; set (x := part_start_lba f + (8 * b + 4 * i / 512)); pose proof (block_sector_eq f b HP Bn) as EB; assert (Hxb : block_sector f b <= x < block_sector f b + 8) by lia.
  apply runs_kmalloc; intros o1 ok C1 Hok; rewrite (C1 eq_refl), (Hok eq_refl); cbn [negb]; apply runs_bread; intros o2 C2; [intros Hn; by specialize (Hn eq_refl) |]; rewrite (C2 eq_refl).
  rewrite read_sectors_cons, read_sectors_nil, app_nil_r by lia; destruct (Hd x) as [Zx Yx]; set (l := splice (d x) ((4 * i) mod 512) (bytes32 P)).
  assert (Zl : zlen l = 512) by (unfold l; rewrite zlen_splice; rewrite ?zlen_bytes32; lia); assert (Yl : bytes l) by (apply splice_ok; [done | apply bytes32_ok]).
  apply runs_unbind, runs_bwrite; intros o3 C3; [intros Hn; by specialize (Hn eq_refl) |]; rewrite (C3 eq_refl); destruct (write_one_same d f b x l Hd HP Bn Zl Yl Hxb) as [S _]; apply HQ; [done |].
  pose proof (zlen_blk d f b Hd) as Zb; apply (znth_ext 0); [rewrite zlen_splice; rewrite ?zlen_bytes32; rewrite ?zlen_blk by (done || apply S); lia |]; rewrite zlen_blk by apply S; intros p Hp.
  rewrite (blk_sector d f b x l) by done; rewrite znth_splice by (rewrite ?zlen_bytes32; lia); rewrite zlen_bytes32.
  pose proof (Z.div_mod p 512 ltac:(lia)); pose proof (Z.mod_pos_bound p 512 ltac:(lia)); destruct (Z.eqb_spec (p / 512) (x - block_sector f b)) as [E | E].
  - unfold l; rewrite znth_splice by (rewrite ?zlen_bytes32; lia); rewrite zlen_bytes32; assert (EX : d x = slice (blk d f b) (512 * (x - block_sector f b)) 512) by (by apply sector_of_blk).
    destruct (Z.leb_spec ((4 * i) mod 512) (p mod 512)), (Z.ltb_spec (p mod 512) ((4 * i) mod 512 + 4)), (Z.leb_spec (4 * i) p), (Z.ltb_spec p (4 * i + 4)); try lia; cbn [andb];
      first [f_equal; lia | rewrite EX, znth_slice by lia; f_equal; lia].
  - destruct (Z.leb_spec (4 * i) p), (Z.ltb_spec p (4 * i + 4)); try lia; done.
Qed.

Lemma entry_splice d d' f b i P i' : dev_ok d -> blk d' f b = splice (blk d f b) (4 * i) (bytes32 P) -> 0 <= i < 1024 -> 0 <= i' < 1024 -> 0 <= P < 2 ^ 32 ->
  entry d' f b i' = if i' =? i then P else entry d f b i'.
Proof.
  intros Hd E Hi Hi' HP; unfold entry; rewrite E; pose proof (zlen_blk d f b Hd) as Hz; destruct (Z.eqb_spec i' i) as [-> | Hne]; [apply le32_splice_eq; lia | apply le32_splice_ne; rewrite ?zlen_bytes32; lia].
Qed.

(** Block [j] mapped by an entry of a node. *)
Lemma pointers_entry d f inode mp mt d' j P mp' : alloc_ok d f -> pointers d f inode mp mt -> 12 <= j < EXT4_LEGACY_MAX_BLOCK_IDX -> let b := node d f inode (slot_for j) in b <> 0 ->
  same_but d d' f (eq b) -> blk d' f b = splice (blk d f b) (4 * idx_for j) (bytes32 P) -> 0 <= P < 2 ^ 32 -> put_at mp j P mp' ->
  pointers d' f inode mp' mt /\ kept d f d' f [b].
Proof.
  intros A0 [Hl Hy HL HA HN HI HH] Hj b Hb S E HP PA; destruct (slot_range j Hj) as (S1 & S2 & S3); pose proof HH as HH'; rewrite Forall_forall in HH'; assert (Hin : b ∈ mt) by (by apply HN).
  pose proof (kept_same d f d' b [b] A0 (HH' b Hin) ltac:(by left) S) as K; split; [| done].
  assert (Ex : forall n, n ∈ mt -> n <> b -> blk d' f n = blk d f n) by (intros n Hn Hne; apply (kp_data _ _ _ _ _ K); [by apply HH' | by intros X%list_elem_of_singleton]).
  assert (Nd : forall s, -2 <= s < 1024 -> node d' f inode s = node d f inode s).
  { intros s Hs; unfold node; repeat case_match; try done; unfold entry; rewrite Ex; [done | apply (HN (-1)); [lia | by apply Z.eqb_neq] |].
    intros X; apply S2; symmetry; apply (HI (-1) (slot_for j)); [lia | done | change (i_block inode 13 <> 0); by apply Z.eqb_neq | exact X]. }
  split; try done.
  - intros i Hi; rewrite (PA i); unfold pointer_at; destruct (Z.ltb_spec i 12) as [H12 | H12].
    + destruct (Z.eqb_spec i j); [lia |]; rewrite HA by done; unfold pointer_at; destruct (Z.ltb_spec i 12); [done | lia].
    + destruct (slot_range i ltac:(lia)) as (T1 & T2 & T3); rewrite Nd by done; destruct (Z.eqb_spec i j) as [-> | Hne].
      * fold b; destruct (Z.eqb_spec b 0); [done |]; rewrite (entry_splice d d' f b (idx_for j) P) by (done || apply A0); by rewrite Z.eqb_refl.
      * rewrite HA by done; unfold pointer_at; destruct (Z.ltb_spec i 12); [lia |]; destruct (Z.eqb_spec (node d f inode (slot_for i)) 0) as [| Hn]; [done |].
        destruct (decide (node d f inode (slot_for i) = b)) as [Eb | Eb]; [| unfold entry; by rewrite Ex by auto].
        rewrite Eb, (entry_splice d d' f b (idx_for j) P) by (done || apply A0); destruct (Z.eqb_spec (idx_for i) (idx_for j)) as [Ei |]; [| done].
        destruct Hne; apply slot_inj; [lia | done | by apply HI | done].
  - intros s Hs; rewrite Nd by done; by apply HN.
  - intros s s' Hs Hs'; rewrite !Nd by done; by apply HI.
  - apply Forall_forall; intros n Hn; eapply held_kept; [exact K | by apply HH'].
Qed.

(** ** A node added *)

Lemma entry_zero d f b i : blk d f b = zeroes EXT4_BLOCK_SIZE -> entry d f b i = 0.
Proof. intros E; unfold entry; rewrite E; unfold le32, le16; by rewrite !znth_zeroes. Qed.

Lemma pointers_node d f inode mp mt d' f' inode' s r : pointers d f inode mp mt -> -2 <= s < 1024 -> node d f inode s = 0 ->
  zlen inode' = 128 -> bytes inode' -> is_extents inode' = false -> (forall k, 0 <= k < 12 -> i_block inode' k = i_block inode k) ->
  held d' f' r -> r ∉ mt -> blk d' f' r = zeroes EXT4_BLOCK_SIZE ->
  (forall s', -2 <= s' < 1024 -> node d' f' inode' s' = if s' =? s then r else node d f inode s') ->
  (forall s', -2 <= s' < 1024 -> s' <> -1 -> node d f inode s' <> 0 -> blk d' f' (node d f inode s') = blk d f (node d f inode s')) ->
  Forall (held d' f') mt -> pointers d' f' inode' mp (r :: mt).
Proof.
  intros [Hl Hy HL HA HN HI HH] Hs Es L' Y' X' B' Hr Nr Zr Nd Bk HH'; assert (Hr0 : r <> 0) by (intros ->; destruct Hr as (_ & _ & X); apply X; by left); split; try done.
  - intros j Hj; rewrite HA by done; unfold pointer_at; destruct (Z.ltb_spec j 12); [by rewrite B' by lia |]; destruct (slot_range j ltac:(lia)) as (S1 & S2 & S3).
    rewrite Nd by done; destruct (Z.eqb_spec (slot_for j) s) as [-> | Hne].
    + rewrite Es; destruct (Z.eqb_spec r 0); [done |]; cbn [Z.eqb]; by rewrite entry_zero.
    + destruct (Z.eqb_spec (node d f inode (slot_for j)) 0) as [| Hn]; [done |]; unfold entry; by rewrite Bk.
  - intros s' Hs'; rewrite Nd by done; destruct (Z.eqb_spec s' s); intros Hn; [by left | right; by apply HN].
  - intros s1 s2 H1 H2; rewrite !Nd by done; destruct (Z.eqb_spec s1 s) as [-> | N1], (Z.eqb_spec s2 s) as [-> | N2]; try done.
    + intros _ E; destruct Nr; rewrite E; apply HN; [done | congruence].
    + intros Hn E; destruct Nr; rewrite <- E; by apply HN.
    + by apply HI.
  - by constructor.
Qed.

Lemma set_pointer inode k r : zlen inode = 128 -> bytes inode -> 0 <= k < 15 -> 0 <= r < 2 ^ 32 ->
  let inode' := set_i_block inode k r in zlen inode' = 128 /\ bytes inode' /\ same_fields inode inode' /\ is_extents inode' = is_extents inode /\
  forall k', 0 <= k' < 15 -> i_block inode' k' = if k' =? k then r else i_block inode k'.
Proof.
  intros Hl Hy Hk Hr inode'; unfold set_i_block in inode'; assert (E : forall i, 0 <= i < 40 + 4 * k \/ 44 + 4 * k <= i -> znth 0 inode' i = znth 0 inode i) by (intros i Hi; apply znth_splice_ne; rewrite ?zlen_bytes32; lia).
  split; [unfold inode'; rewrite zlen_splice; rewrite ?zlen_bytes32; lia |]; split; [apply splice_ok; [done | apply bytes32_ok] |]; split; [intros i Hi; apply E; lia |]; split.
  - unfold is_extents; do 3 f_equal; apply le32_ext; intros i Hi; apply E; lia.
  - intros k' Hk'; unfold i_block; destruct (Z.eqb_spec k' k) as [-> | Hne]; [apply le32_splice_eq; lia | apply le32_ext; intros i Hi; apply E; lia].
Qed.

Lemma meta_pointers inode : zlen inode = 128 -> bytes inode -> let inode' := count_meta inode in
  zlen inode' = 128 /\ bytes inode' /\ same_fields inode inode' /\ is_extents inode' = is_extents inode /\ forall k, 0 <= k < 15 -> i_block inode' k = i_block inode k.
Proof.
  intros Hl Hy inode'; destruct (count_meta_ok inode Hl Hy) as (M1 & M2 & M3 & M4); fold inode' in M1, M2, M3, M4; pose proof (same_fields_map _ _ M4 M3 Hl M1) as SM.
  repeat (split; [done |]); split; [unfold is_extents; do 3 f_equal; apply le32_ext; intros i Hi; apply SM; lia | intros k Hk; by apply le32_inode_same].
Qed.

(** The indirect block, or the double indirect block, of the inode. *)
Lemma runs_pointer_block {A} k s (K : list Z * Z -> M A) d h f inode mp mt Q : k = 12 /\ s = -2 \/ k = 13 /\ s = -1 ->
  alloc_ok d f -> pointers d f inode mp mt ->
  (all_full d f -> runs (K (inode, 0)) (mk d [] h f) Q) ->
  (forall d' f' inode' mt' n, kept d f d' f' [] -> pointers d' f' inode' mp mt' -> n <> 0 -> i_block inode' k = n -> same_fields inode inode' ->
     (forall b, b ∈ mt' -> b ∈ mt \/ used d f b = false) -> (forall b, b ∈ mt -> b ∈ mt') -> runs (K (inode', n)) (mk d' [] h f') Q) ->
  runs (pointer_block inode k ≫= K) (mk d [] h f) Q.
Proof.
  intros Hk A0 T H0 H1; pose proof T as [Hl Hy HL HA HN HI HH]; pose proof HH as HH'; rewrite Forall_forall in HH'; apply runs_bind; unfold pointer_block.
  destruct (Z.eqb_spec (i_block inode k) 0) as [E | E]; cbn [negb].
  2:{ apply runs_ret, (H1 d f inode mt); first [done | by apply kept_refl | by intros b Hb; left | by intros i Hi]. }
  apply runs_alloc_block; [done | intros o1 C1 ZF; rewrite (C1 eq_refl); cbn [Z.eqb]; apply runs_ret, H0; exact (ZF eq_refl) |].
  intros o1 d1 f1 r C1 TK Zr; rewrite (C1 eq_refl); specialize (Zr eq_refl); destruct (takes_held _ _ _ _ _ A0 TK) as [Hr Hr2]; destruct (Z.eqb_spec r 0); [lia |]; pose proof (t_free _ _ _ _ _ TK) as Fr.
  pose proof (kept_takes _ _ _ _ _ [] TK (a_fs d f A0)) as K1; assert (Nr : r ∉ mt) by (intros Hin; destruct (HH' r Hin) as (_ & U & _); congruence).
  destruct (set_pointer inode k r Hl Hy ltac:(lia) ltac:(lia)) as (P1 & P2 & P3 & P4 & P5); destruct (meta_pointers _ P1 P2) as (M1 & M2 & M3 & M4 & M5).
  assert (B : forall j, 0 <= j < 15 -> i_block (count_meta (set_i_block inode k r)) j = if j =? k then r else i_block inode j) by (intros j Hj; by rewrite M5, P5).
  assert (Bk : forall b, b ∈ mt -> blk d1 f1 b = blk d f b) by (intros b Hb; apply (kp_data _ _ _ _ _ K1); [by apply HH' | apply not_elem_of_nil]).
  assert (Ns : node d f inode s = 0) by (destruct Hk as [[-> ->] | [-> ->]]; exact E).
  apply runs_ret, (H1 d1 f1 _ (r :: mt)); try done; [| rewrite B by lia; by rewrite Z.eqb_refl | by eapply same_fields_trans | intros b [-> | ?]%elem_of_cons; auto | by right].
  apply (pointers_node d f inode mp mt d1 f1 _ s r); try done; [lia | congruence | intros j Hj; rewrite B by lia; destruct (Z.eqb_spec j k); [lia | done] | | intros s' Hs' _ Hn; apply Bk, HN; done |].
  - intros s' Hs'; unfold node; rewrite !B by lia; destruct Hk as [[-> ->] | [-> ->]]; cbn [Z.eqb Pos.eqb].
    + destruct (Z.eqb_spec s' (-2)); [done |]; destruct (Z.eqb_spec s' (-1)); [done |]; destruct (Z.eqb_spec (i_block inode 13) 0) as [| Hd]; [done |]; unfold entry; rewrite Bk; [done | by apply (HN (-1))].
    + destruct (Z.eqb_spec s' (-1)) as [-> | N1]; [done |]; destruct (Z.eqb_spec s' (-2)); [done |]; rewrite E; destruct (Z.eqb_spec r 0); [done |]; cbn [Z.eqb]; by apply entry_zero.
  - apply Forall_forall; intros b Hb; eapply held_kept; [exact K1 | by apply HH'].
Qed.

(** ** Growth *)

Lemma grow_entry d0 f0 mt0 d f inode mp mt j P c d' : alloc_ok d f -> pointers d f inode mp mt -> 12 <= j < EXT4_LEGACY_MAX_BLOCK_IDX -> let b := node d f inode (slot_for j) in b <> 0 ->
  kept d0 f0 d f mt0 -> (forall b, b ∈ mt -> b ∈ mt0 \/ used d0 f0 b = false) -> 0 <= P < 2 ^ 32 ->
  same_but d d' f (eq b) -> blk d' f b = splice (blk d f b) (4 * idx_for j) (bytes32 P) ->
  kept d0 f0 d' f mt0 /\ pointers d' f inode (fun i => if i =? j then P else mp i) mt /\ cache_ok d' f mt (icache_invalidate c).
Proof.
  intros A0 T Hj b Hb K Sub HP S E; destruct (pointers_entry d f inode mp mt d' j P (fun i => if i =? j then P else mp i) A0 T Hj Hb S E HP) as [T' K']; [by intros i |].
  split; [| split; [done | apply cache_invalidate]]; eapply kept_step; [exact K | exact K' |]; intros x ->%list_elem_of_singleton; apply Sub, (pt_nodes _ _ _ _ _ T); [by apply slot_range | done].
Qed.

Lemma runs_grow_indirect {A} j P (K : list Z * icache * bool -> M A) d h f inode mp mt c Q :
  alloc_ok d f -> pointers d f inode mp mt -> 12 <= j < 12 + 1024 -> held d f P -> 0 <= P < 2 ^ 32 ->
  (forall d' f' inode' c', alloc_ok d' f' -> held d' f' P -> all_full d' f' -> runs (K (inode', c', false)) (mk d' [] h f') Q) ->
  (forall d' f' inode' mp' mt' c', kept d f d' f' mt -> pointers d' f' inode' mp' mt' -> cache_ok d' f' mt' c' -> put_at mp j P mp' -> same_fields inode inode' ->
     (forall b, b ∈ mt' -> b ∈ mt \/ used d f b = false) -> runs (K (inode', c', true)) (mk d' [] h f') Q) ->
  runs (grow_indirect inode j P c ≫= K) (mk d [] h f) Q.
Proof.
  intros A0 T Hj HP HPr H0 H1; apply runs_bind; unfold grow_indirect; apply (runs_pointer_block 12 (-2) _ _ _ _ _ mp mt); [by left | done | done | intros Full; cbn [Z.eqb]; apply runs_ret, H0; done |].
  intros d1 f1 inode1 mt1 n K1 T1 Hn En SF Sub1 Sub2; destruct (Z.eqb_spec n 0); [done |].
  assert (Es : slot_for j = -2 /\ idx_for j = j - 12) by (unfold slot_for, idx_for; by destruct (Z.ltb_spec j (12 + 1024)); [| lia]); destruct Es as [Es Ei].
  assert (Nn : node d1 f1 inode1 (slot_for j) = n) by (by rewrite Es); assert (Hin : n ∈ mt1) by (rewrite <- Nn; apply (pt_nodes _ _ _ _ _ T1); [lia | by rewrite Nn]).
  pose proof (pt_held _ _ _ _ _ T1) as HH1; rewrite Forall_forall in HH1; apply runs_install; [apply K1 | by apply HH1 | lia |]; intros d2 S E; rewrite <- Ei, <- Nn in E; rewrite <- Nn in S.
  destruct (grow_entry d f mt d1 f1 inode1 mp mt1 j P c d2) as (G1 & G2 & G3); try done; [apply K1 | unfold EXT4_LEGACY_MAX_BLOCK_IDX; lia | by rewrite Nn | eapply kept_more; [exact K1 | by intros b ?%not_elem_of_nil] |].
  apply runs_ret; by eapply H1; [exact G1 | exact G2 | exact G3 | intros i | |].
Qed.

Lemma pointers_meta d f inode mp mt : pointers d f inode mp mt -> pointers d f (count_meta inode) mp mt /\ same_fields inode (count_meta inode).
Proof.
  intros T; destruct (meta_pointers inode (pt_len _ _ _ _ _ T) (pt_bytes _ _ _ _ _ T)) as (M1 & M2 & M3 & M4 & M5); split; [| done].
  destruct (count_meta_ok inode (pt_len _ _ _ _ _ T) (pt_bytes _ _ _ _ _ T)) as (_ & _ & R & _); pose proof (pt_held _ _ _ _ _ T) as HH; rewrite Forall_forall in HH.
  apply (pointers_frame d f inode mp mt); try done; [intros b Hb; split; [done | by apply HH] | by apply same_fields_map; [| | apply T |]].
Qed.

(** A block below the double indirect block, taken and named there. *)
Lemma pointers_sub d f inode mp mt d1 f1 d2 m r : alloc_ok d f -> pointers d f inode mp mt -> 0 <= m < 1024 -> i_block inode 13 <> 0 -> node d f inode m = 0 ->
  takes d f d1 f1 r -> blk d1 f1 r = zeroes EXT4_BLOCK_SIZE -> let dbl := i_block inode 13 in
  same_but d1 d2 f1 (eq dbl) -> blk d2 f1 dbl = splice (blk d1 f1 dbl) (4 * m) (bytes32 r) ->
  pointers d2 f1 inode mp (r :: mt) /\ kept d f d2 f1 mt /\ node d2 f1 inode m = r.
Proof.
  intros A0 T Hm Hd Es TK Zr dbl S E; pose proof T as [Hl Hy HL HA HN HI HH]; pose proof HH as HH'; rewrite Forall_forall in HH'; destruct (takes_held _ _ _ _ _ A0 TK) as [Hr Hr2]; pose proof (t_free _ _ _ _ _ TK) as Fr.
  pose proof (kept_takes _ _ _ _ _ [] TK (a_fs d f A0)) as K1; assert (Nr : r ∉ mt) by (intros Hin; destruct (HH' r Hin) as (_ & U & _); congruence).
  assert (Hin : dbl ∈ mt) by (by apply (HN (-1)); [lia |]); assert (Hdh : held d1 f1 dbl) by (eapply held_kept; [exact K1 | by apply HH']); pose proof (kept_same d1 f1 d2 dbl [dbl] (t_ok _ _ _ _ _ TK) Hdh ltac:(by left) S) as K2.
  assert (Bk1 : forall b, b ∈ mt -> blk d1 f1 b = blk d f b) by (intros b Hb; apply (kp_data _ _ _ _ _ K1); [by apply HH' | apply not_elem_of_nil]).
  assert (Bk : forall b, b ∈ mt -> b <> dbl -> blk d2 f1 b = blk d f b).
  { intros b Hb Hne; rewrite (kp_data _ _ _ _ _ K2); [by apply Bk1 | eapply held_kept; [exact K1 | by apply HH'] | by intros X%list_elem_of_singleton]. }
  assert (Hrd : r <> dbl) by (intros ->; done).
  assert (Nd : forall s', -2 <= s' < 1024 -> node d2 f1 inode s' = if s' =? m then r else node d f inode s').
  { intros s' Hs'; unfold node; fold dbl; destruct (Z.eqb_spec s' (-2)) as [-> | N1]; [by destruct (Z.eqb_spec (-2) m); [lia |] |]; destruct (Z.eqb_spec s' (-1)) as [-> | N2]; [by destruct (Z.eqb_spec (-1) m); [lia |] |].
    destruct (Z.eqb_spec dbl 0); [done |]; rewrite (entry_splice d1 d2 f1 dbl m r) by (done || lia || apply TK); destruct (Z.eqb_spec s' m); [done |]; unfold entry; by rewrite Bk1. }
  split; [| split; [| rewrite Nd by lia; by rewrite Z.eqb_refl]].
  - apply (pointers_node d f inode mp mt d2 f1 inode m r); try done; [lia | by eapply held_kept | | |].
    + rewrite (kp_data _ _ _ _ _ K2); [done | done | by intros X%list_elem_of_singleton].
    + intros s' Hs' N1 Hn; apply Bk; [by apply HN |]; intros X; apply N1, (HI s' (-1)); try done; lia.
    + apply Forall_forall; intros b Hb; eapply held_kept; [exact K2 |]; eapply held_kept; [exact K1 | by apply HH'].
  - eapply kept_step; [eapply kept_more; [exact K1 | by intros b ?%not_elem_of_nil] | exact K2 |]; intros b ->%list_elem_of_singleton; by left.
Qed.


Lemma runs_grow_double {A} j P (K : list Z * icache * bool -> M A) d h f inode mp mt c Q :
  alloc_ok d f -> pointers d f inode mp mt -> cache_ok d f mt c -> 12 + 1024 <= j < EXT4_LEGACY_MAX_BLOCK_IDX -> held d f P -> 0 <= P < 2 ^ 32 ->
  (forall d' f' inode' c', alloc_ok d' f' -> held d' f' P -> all_full d' f' -> runs (K (inode', c', false)) (mk d' [] h f') Q) ->
  (forall d' f' inode' mp' mt' c', kept d f d' f' mt -> pointers d' f' inode' mp' mt' -> cache_ok d' f' mt' c' -> put_at mp j P mp' -> same_fields inode inode' ->
     (forall b, b ∈ mt' -> b ∈ mt \/ used d f b = false) -> runs (K (inode', c', true)) (mk d' [] h f') Q) ->
  runs (grow_double inode j P c ≫= K) (mk d [] h f) Q.
Proof.
  intros A0 T HC Hj HP HPr H0 H1; destruct (slot_range j ltac:(lia)) as (S1 & S2 & S3); apply runs_bind; unfold grow_double.
  assert (Es : slot_for j = (j - 12 - 1024) / 1024 /\ idx_for j = (j - 12 - 1024) mod 1024) by (unfold slot_for, idx_for; by destruct (Z.ltb_spec j (12 + 1024)); [lia |]); destruct Es as [Es Ei].
  assert (Hm : 0 <= slot_for j < 1024) by (split; [rewrite Es; apply Z.div_pos; lia | apply S1]); rewrite <- Es, <- Ei; clear Es Ei; set (m := slot_for j) in *.
  pose proof (pt_held _ _ _ _ _ T) as HH0; rewrite Forall_forall in HH0.
  apply (runs_pointer_block 13 (-1) _ _ _ _ _ mp mt); [by right | done | done | intros Full; cbn [Z.eqb]; apply runs_ret, H0; done |].
  intros d1 f1 inode1 mt1 dbl K1 T1 Hn En SF Sub1 Sub2; destruct (Z.eqb_spec dbl 0); [done |]; pose proof (pt_held _ _ _ _ _ T1) as HH1; pose proof (held_ne0 _ _ _ HH1) as N0; rewrite Forall_forall in HH1.
  assert (Hin : dbl ∈ mt1) by (rewrite <- En; apply (pt_nodes _ _ _ _ _ T1 (-1)); [lia |]; change (i_block inode1 13 <> 0); congruence).
  assert (HC1 : cache_ok d1 f1 mt1 c) by (eapply cache_same; [| exact HC]; intros b Hb; split; [by apply Sub2 | apply (kp_data _ _ _ _ _ K1); [by apply HH0 | apply not_elem_of_nil]]).
  apply (runs_icache_get _ _ _ _ _ _ _ mt1); try done; intros o1 c1 C1 HC1'; rewrite (C1 eq_refl); fold (entry d1 f1 dbl m).
  assert (Nm : node d1 f1 inode1 m = entry d1 f1 dbl m) by (unfold node; rewrite En; destruct (Z.eqb_spec m (-2)), (Z.eqb_spec m (-1)), (Z.eqb_spec dbl 0); try lia; done).
  destruct (Z.eqb_spec (entry d1 f1 dbl m) 0) as [E | E]; cbn [negb].
  - apply runs_alloc_block; [apply K1 | intros o2 C2 ZF; rewrite (C2 eq_refl); cbn [Z.eqb]; apply runs_ret, H0; [apply K1 | eapply held_kept; [exact K1 | done] | exact (ZF eq_refl)] |].
    intros o2 d2 f2 r C2 TK Zr; rewrite (C2 eq_refl); specialize (Zr eq_refl); destruct (takes_held d1 f1 d2 f2 r ltac:(apply K1) TK) as [Hr Hr2]; destruct (Z.eqb_spec r 0); [lia |].
    pose proof (kept_takes _ _ _ _ _ [] TK (a_fs _ _ (kp_alloc _ _ _ _ _ K1))) as K2.
    apply runs_install; [apply TK | eapply held_kept; [exact K2 | by apply HH1] | done |]; intros d3 S E3; cbn [negb].
    destruct (pointers_sub d1 f1 inode1 mp mt1 d2 f2 d3 m r (kp_alloc _ _ _ _ _ K1) T1 Hm) as (T3 & K3 & N3); try (rewrite ?En; done); [by rewrite Nm |].
    destruct (pointers_meta _ _ _ _ _ T3) as [T4 SF4].
    assert (N4 : node d3 f2 (count_meta inode1) m = r).
    { rewrite <- N3; destruct (meta_pointers inode1 (pt_len _ _ _ _ _ T1) (pt_bytes _ _ _ _ _ T1)) as (_ & _ & _ & _ & B); unfold node; by rewrite !B by lia. }
    apply runs_install; [apply K3 | apply (Forall_forall (held d3 f2) (r :: mt1)); [apply T3 | by left] | done |]; intros d4 S4 E4; rewrite <- N4 in S4, E4.
    destruct (grow_entry d1 f1 mt1 d3 f2 (count_meta inode1) mp (r :: mt1) j P (icache_invalidate c1) d4) as (G1 & G2 & G3); try done; [apply K3 | lia | by fold m; rewrite N4 | intros b [-> | ?]%elem_of_cons; [right; apply TK | by left] |].
    assert (Fr : forall b, b ∈ r :: mt1 -> b ∈ mt \/ used d f b = false).
    { intros b [-> | Hb]%elem_of_cons; [right | by apply Sub1]; eapply unused_before; [exact K1 | | apply TK]; pose proof (t_block _ _ _ _ _ TK) as B; unfold block_of in *; by rewrite <- (g_groups _ _ (kp_geo _ _ _ _ _ K1)). }
    assert (G0 : kept d f d4 f2 mt) by (eapply kept_step; [eapply kept_more; [exact K1 | by intros b ?%not_elem_of_nil] | exact G1 | exact Sub1]).
    apply runs_ret; eapply H1; [exact G0 | exact G2 | exact G3 | by intros i | by eapply same_fields_trans | exact Fr].
  - rewrite <- Nm in E |- *; apply runs_install; [apply K1 | apply HH1, (pt_nodes _ _ _ _ _ T1); [lia | done] | done |]; intros d2 S E2.
    destruct (grow_entry d f mt d1 f1 inode1 mp mt1 j P c1 d2) as (G1 & G2 & G3); try done; [apply K1 | lia | eapply kept_more; [exact K1 | by intros b ?%not_elem_of_nil] |].
    apply runs_ret; by eapply H1; [exact G1 | exact G2 | exact G3 | intros i | |].
Qed.

Lemma pointers_direct d f inode mp mt j P : pointers d f inode mp mt -> 0 <= j < 12 -> 0 <= P < 2 ^ 32 ->
  pointers d f (set_i_block inode j P) (fun i => if i =? j then P else mp i) mt /\ same_fields inode (set_i_block inode j P).
Proof.
  intros [Hl Hy HL HA HN HI HH] Hj HP; destruct (set_pointer inode j P Hl Hy ltac:(lia) HP) as (P1 & P2 & P3 & P4 & P5); split; [| done].
  assert (Nd : forall s, node d f (set_i_block inode j P) s = node d f inode s)
    by (intros s; unfold node; rewrite !P5 by lia; destruct (Z.eqb_spec 12 j), (Z.eqb_spec 13 j); lia || done).
  split; try done.
  - congruence.
  - intros i Hi; unfold pointer_at; rewrite Nd; destruct (Z.ltb_spec i 12) as [H12 | H12]; [rewrite P5 by lia |]; destruct (Z.eqb_spec i j); try done; try lia; rewrite HA by done; unfold pointer_at; destruct (Z.ltb_spec i 12); lia || done.
  - intros s; rewrite Nd; apply HN.
  - intros s s' Hs Hs'; rewrite !Nd; by apply HI.
Qed.

Lemma runs_pointers_grow {A} j P (K : list Z * icache * bool -> M A) d h f inode mp mt c Q :
  alloc_ok d f -> pointers d f inode mp mt -> cache_ok d f mt c -> 0 <= j < EXT4_LEGACY_MAX_BLOCK_IDX -> held d f P -> P < 2 ^ 32 ->
  (forall d' f' inode' c', alloc_ok d' f' -> held d' f' P -> all_full d' f' -> runs (K (inode', c', false)) (mk d' [] h f') Q) ->
  (forall d' f' inode' mp' mt' c', kept d f d' f' mt -> pointers d' f' inode' mp' mt' -> cache_ok d' f' mt' c' -> put_at mp j P mp' -> same_fields inode inode' ->
     (forall b, b ∈ mt' -> b ∈ mt \/ used d f b = false) -> runs (K (inode', c', true)) (mk d' [] h f') Q) ->
  runs (ext4_grow_block_mapping inode j P c ≫= K) (mk d [] h f) Q.
Proof.
  intros A0 T HC Hj HP HPr H0 H1; unfold ext4_grow_block_mapping; rewrite (pt_legacy _ _ _ _ _ T); assert (0 <= P < 2 ^ 32) by (destruct HP as (B & _); unfold block_of in B; lia).
  destruct (Z.ltb_spec j 12); [| destruct (Z.ltb_spec j (12 + 1024)); [by apply (runs_grow_indirect _ _ _ _ _ _ _ mp mt) |]].
  - apply runs_bind, runs_ret; destruct (pointers_direct d f inode mp mt j P T ltac:(lia) ltac:(done)) as [T' SF].
    eapply H1; [by apply kept_refl | exact T' | exact HC | by intros i | exact SF | intros b Hb; by left].
  - destruct (Z.ltb_spec j EXT4_LEGACY_MAX_BLOCK_IDX); [| lia]; by apply (runs_grow_double _ _ _ _ _ _ _ mp mt).
Qed.

(** ** The interface *)

Program Definition pointer_map : file_map := {|
  fm_limit := EXT4_LEGACY_MAX_BLOCK_IDX;
  fm_ok := pointers;
  fm_can _ _ := True;
  fm_room _ _ _ _ := True
|}.
Next Obligation. done. Qed.
Next Obligation. intros d f inode mp mt T; split; apply T. Qed.
Next Obligation. intros d f inode mp mt T; apply T. Qed.
Next Obligation. intros d f inode mp mt d' f' inode' T; intros; split; [by eapply pointers_frame | done]. Qed.
Next Obligation. done. Qed.
Next Obligation. intros A j k d h f inode mp mt c Q T; intros; by eapply runs_pointers_bmap. Qed.
Next Obligation.
  intros A j k d h f inode mp mt Q T Hj _ H _; apply runs_bind; unfold ext4_can_grow_block_mapping; rewrite (pt_legacy _ _ _ _ _ T); destruct (Z.ltb_spec j EXT4_LEGACY_MAX_BLOCK_IDX); [by apply runs_ret, H | lia].
Qed.
Next Obligation. intros A j P k d h f inode mp mt c Q A0 T _ HC Hj _ _ HP _ HPr H0 H1.
  by apply (runs_pointers_grow _ _ _ _ _ _ _ mp mt); try done; intros d' f' inode' c' A' HP' Full; apply H0; [| | intros b; apply all_full_used]. Qed.

Implicit Types (xs : list ext).

(** ** ext4: an extent tree as a block mapping

    The mapping of a file whose inode has an extent tree of depth 0 or 1, its last
    extent with blocks and written: blocks are added behind the last one. *)

(** [mp] is the tree's; its last block is mapped, if it has any. *)
Definition extents d f inode mp mt : Prop := is_extents inode = true /\ exists xs,
  tree d f inode mt xs /\ (forall j, mp j = search xs j) /\ (end_of 0 xs = 0 \/ mp (end_of 0 xs - 1) <> 0).

(** Nothing is mapped from [j] on. *)
Definition behind mp j : Prop := forall i, j <= i -> mp i = 0.

Definition tree_room d f inode mt : Prop := root_full inode mt -> leaf_room d f mt.

Lemma behind_end mp xs j : (end_of 0 xs = 0 \/ mp (end_of 0 xs - 1) <> 0) -> behind mp j -> 0 <= j -> end_of 0 xs <= j.
Proof. intros [H | H] HB Hj; [lia |]; destruct (Z.leb_spec (end_of 0 xs) j); [done |]; destruct H; apply HB; lia. Qed.

Lemma leaf_ok_ext nd nd' cap xs : leaf_ok nd cap xs -> 0 <= cap -> zlen nd' = zlen nd -> bytes nd' -> (forall k, 0 <= k < record_at cap -> znth 0 nd' k = znth 0 nd k) -> leaf_ok nd' cap xs.
Proof.
  intros HL Hc Hz Hy E; pose proof HL as [H1 H2 H3 H4 H5 H6]; destruct (leaf_entries _ _ _ HL) as [Hn _]; unfold record_at in *.
  assert (R : forall p : Z, 0 <= p <= 10 -> le16 nd' p = le16 nd p) by (intros p Hp; apply le16_ext; intros k Hk; apply E; lia).
  split; unfold eh_magic, eh_depth, eh_entries, eh_max; rewrite ?R by lia; try done; [by rewrite Hz |].
  rewrite <- H6; apply exts_ext; [unfold eh_entries; by rewrite R by lia | intros k Hk; apply E; unfold record_at in *; lia].
Qed.

Lemma tree_frame d f inode mt xs d' f' inode' : tree d f inode mt xs -> (forall b, b ∈ mt -> blk d' f' b = blk d f b /\ held d' f' b) ->
  zlen inode' = 128 -> bytes inode' -> same_map inode inode' ->
  tree d' f' inode' mt xs /\ eh_max (extent_root inode') = eh_max (extent_root inode).
Proof.
  intros [Hl Hy Hm Hx HS HH HN] E L' Y' SM.
  assert (RE : forall k, 0 <= k < 60 -> znth 0 (extent_root inode') k = znth 0 (extent_root inode) k) by (intros k Hk; rewrite !znth_root by lia; apply SM; lia).
  assert (R : forall p : Z, 0 <= p <= 10 -> le16 (extent_root inode') p = le16 (extent_root inode) p) by (intros p Hp; apply le16_ext; intros k Hk; apply RE; lia).
  assert (EM : eh_max (extent_root inode') = eh_max (extent_root inode)) by (apply R; lia); split; [| done].
  split; try done; [rewrite <- Hm; apply R; lia | by rewrite EM | | apply Forall_forall; intros b Hb; by apply E].
  destruct HS as [(-> & HL & HC) | (Hne & Hd & He & Hb & hi & HC & Hhi)]; [left | right].
  - split; [done |]; split; [| done]; apply (leaf_ok_ext (extent_root inode)); try done; [by rewrite !zlen_root | by apply Forall_drop].
  - split; [done |]; split; [rewrite <- Hd; apply R; lia |]; split; [rewrite <- He; apply R; lia |]; split; [by rewrite EM |]; exists hi; split; [| done].
    eapply children_ext; [| | exact HC]; [| intros b Hb'; by apply E]; intros i Hi; apply index_ext; intros k Hk; apply RE; unfold record_at in *; lia.
Qed.

Lemma extents_grown d f inode mt xs mp L P d' f' inode' mt' xs' : grown d f inode mt xs L P d' f' inode' mt' xs' -> is_extents inode = true -> (forall j, mp j = search xs j) -> 0 <= L -> 0 < P ->
  extents d' f' inode' (search xs') mt' /\ put_at mp L P (search xs').
Proof.
  intros [K T' [AC AS] SF Sub] HX HM HL HP; split; [| by intros i; rewrite AS, HM]; split; [| exists xs'; split; [done |]; split; [done |]].
  - rewrite <- HX; unfold is_extents; do 3 f_equal; apply le32_ext; intros k Hk; apply SF; lia.
  - destruct (chain_end _ _ _ AC) as [C1 C2]; right; destruct (Z.leb_spec (end_of 0 xs') L) as [Hle | Hgt].
    + pose proof (search_above _ _ _ L C1 Hle) as X; rewrite AS, Z.eqb_refl in X; lia.
    + replace (end_of 0 xs' - 1) with L by lia; rewrite AS, Z.eqb_refl; lia.
Qed.

Program Definition extent_map : file_map := {|
  fm_limit := 2 ^ 32 - 1;
  fm_ok := extents;
  fm_can := behind;
  fm_room := tree_room
|}.
Next Obligation. done. Qed.
Next Obligation. intros d f inode mp mt (_ & xs & T & _); split; apply T. Qed.
Next Obligation. intros d f inode mp mt (_ & xs & T & _); apply T. Qed.
Next Obligation.
  intros d f inode mp mt d' f' inode' (HX & xs & T & HM & HE) E L' Y' SM; destruct (tree_frame _ _ _ _ _ d' f' inode' T E L' Y' SM) as [T' EM]; split.
  - split; [| by exists xs]; rewrite <- HX; unfold is_extents; do 3 f_equal; apply le32_ext; intros k Hk; apply SM; lia.
  - unfold tree_room, root_full; rewrite EM; intros R F b Hb; rewrite (proj1 (E b ltac:(by apply last_Some_elem_of))); by apply R.
Qed.
Next Obligation. intros mp j P mp2 j' HB PA Hj i Hi; rewrite (PA i); destruct (Z.eqb_spec i j); [lia | apply HB; lia]. Qed.
Next Obligation.
  intros A j k d h f inode mp mt c Q (HX & xs & T & HM & HE) HC Hj HQ; unfold ext4_bmap; unfold is_extents in HX; rewrite HX; cbv iota.
  apply (runs_extent_lookup _ _ _ _ _ _ _ mt xs); try done; intros o' c' C HC'; rewrite (C eq_refl), <- HM; by apply HQ.
Qed.
Next Obligation.
  intros A j k d h f inode mp mt Q (HX & xs & T & HM & HE) Hj HB H1 H0; unfold ext4_can_grow_block_mapping; rewrite HX.
  pose proof (behind_end _ _ _ HE HB ltac:(lia)) as HL; apply (runs_extent_can_grow _ _ _ _ _ _ _ mt xs); try done; [lia | by left |].
  intros o' [|] C [R1 R2]; rewrite (C eq_refl); [destruct (R1 eq_refl) as [_ Room]; by apply H1 | apply H0; intros X; by discriminate (R2 (conj HL X))].
Qed.
Next Obligation.
  intros A j P k d h f inode mp mt c Q A0 (HX & xs & T & HM & HE) Room HC Hj Ej HB HP Nin HPr H0 H1; unfold ext4_grow_block_mapping; rewrite HX.
  pose proof (behind_end _ _ _ HE HB ltac:(lia)) as HL; assert (HP0 : 0 < P) by (destruct HP as (B & _ & X); unfold block_of in B; assert (P <> 0) by (intros ->; apply X; by left); lia).
  apply runs_bind, (runs_extent_grow _ _ _ _ _ _ _ _ mt xs); try done; try lia.
  - intros o' d' f' C K HF; rewrite (C eq_refl); apply runs_ret, H0; [apply K | by eapply held_kept |]; destruct (HF eq_refl) as [| [[RF NR] | Full]]; [lia | by destruct NR; apply Room |].
    eapply none_free_kept; [exact K |]; intros b; by apply all_full_used.
  - intros o' d' f' inode' mt' xs' C G; rewrite (C eq_refl); destruct (extents_grown _ _ _ _ _ mp _ _ _ _ _ _ _ G HX HM ltac:(lia) HP0) as [HO PA].
    apply runs_ret; eapply H1; [apply G | exact HO | apply cache_invalidate | exact PA | apply G | apply G].
Qed.
