(* ===== verification/Ext4FileTheorems.v ===== *)
(** * ext4: the data of a file, theorems

    What is written is read back, for the files the driver makes, whose blocks
    pointers name, and for those with an extent tree. *)
From stdpp Require Import base numbers list.
From Stdlib Require Import ZArith Lia String.
From S2P Require Import Prelude Bytes Gpt CString ProcTab VfsPath Ext4Disk Ext4Map Ext4Alloc Ext4Dir Ext4Ops.
From S2P Require Import Ext4Proofs Ext4AllocProofs Ext4Blocks SmallDisk Ext4DirProofs Ext4ExtentTree.
From S2P Require Import Ext4ExtentTheorems Ext4FileMap.

Implicit Types (d : Z -> list Z) (f : ext4_fs) (o : list bool) (h inode data : list Z) (b ino : Z) (mp : Z -> Z) (mt : list Z).

(** ** ext4: the data of a file

    A file is a sequence of bytes, zero where no block is mapped; reading and
    writing it through any block mapping. *)

(** ** Helpers for the loops *)

Lemma splice_whole buf l : zlen buf <= zlen l -> splice buf 0 l = l.
Proof. intros H; unfold splice; rewrite take_0, drop_ge by (unfold zlen in *; lia); cbn; apply app_nil_r. Qed.

Lemma runs_write_part {A} phys off l buf (k : option (list Z) -> M A) d h f Q :
  dev_ok d -> zlen buf <= EXT4_BLOCK_SIZE -> 0 <= off -> off + zlen l <= EXT4_BLOCK_SIZE ->
  (let buf' := splice (blk d f phys) off l in runs (k (Some buf')) (mk (put_blk d f phys buf') [] h f) Q) -> runs (write_part phys off l buf ≫= k) (mk d [] h f) Q.
Proof.
  intros Hd Hb Ho Hl HQ; apply runs_bind; unfold write_part; destruct (negb (off =? 0) || negb (zlen l =? EXT4_BLOCK_SIZE)) eqn:E.
  - apply runs_read_block; intros o1 C1; [by intros [] |]; rewrite (C1 eq_refl); cbv zeta; apply runs_write_block; intros o2 C2; [by intros [] |]; rewrite (C2 eq_refl); by apply runs_ret.
  - apply orb_false_iff in E as [E1 E2]; apply negb_false_iff in E1, E2; apply Z.eqb_eq in E1, E2; subst off.
    apply runs_bind, runs_ret; cbv zeta in *; rewrite (splice_whole buf) by lia; rewrite splice_whole in HQ by (rewrite zlen_blk by done; unfold EXT4_BLOCK_SIZE in *; lia).
    apply runs_write_block; intros o2 C2; [by intros [] |]; rewrite (C2 eq_refl); by apply runs_ret.
Qed.

(** The bytes of the file with [data] at [cur]. *)
Definition patched (old : Z -> Z) (cur : Z) data (i : Z) : Z := if (cur <=? i) && (i <? cur + zlen data) then znth 0 data (i - cur) else old i.

Lemma write_loop_nil n inode cur c buf : write_loop n inode cur [] c buf = mret (Some (inode, cur)).
Proof. by destruct n. Qed.

Lemma write_loop_step n inode cur data c buf : data <> [] ->
  write_loop (S n) inode cur data c buf =
    (let block_off := cur mod EXT4_BLOCK_SIZE in
     let to_copy := Z.min (EXT4_BLOCK_SIZE - block_off) (zlen data) in
     '(inode, c, phys) ← mapped_block inode (cur / EXT4_BLOCK_SIZE) c;
     match phys with
     | None => mret None
     | Some phys =>
       r ← write_part phys block_off (take (Z.to_nat to_copy) data) buf;
       match r with
       | None => mret None
       | Some buf => write_loop n inode (u32 (cur + to_copy)) (drop (Z.to_nat to_copy) data) c buf
       end
     end).
Proof. by destruct data. Qed.

Lemma patched_split old cur data t i : 0 <= t <= zlen data ->
  patched (patched old cur (take (Z.to_nat t) data)) (cur + t) (drop (Z.to_nat t) data) i = patched old cur data i.
Proof.
  intros Ht; assert (L1 : zlen (take (Z.to_nat t) data) = t) by (unfold zlen in *; rewrite length_take; lia).
  assert (L2 : zlen (drop (Z.to_nat t) data) = zlen data - t) by (unfold zlen in *; rewrite length_drop; lia).
  assert (E : data = take (Z.to_nat t) data ++ drop (Z.to_nat t) data) by (by rewrite take_drop); unfold patched; rewrite L1, L2.
  destruct (Z.leb_spec (cur + t) i), (Z.ltb_spec i (cur + t + (zlen data - t))), (Z.leb_spec cur i), (Z.ltb_spec i (cur + zlen data)), (Z.ltb_spec i (cur + t)); try lia; cbn [andb]; try done.
  - rewrite E at 2; rewrite znth_app_r by lia; rewrite L1; f_equal; lia.
  - rewrite E at 2; by rewrite znth_app_l by lia.
Qed.

Lemma patched_ext old old' cur data i : old i = old' i -> patched old cur data i = patched old' cur data i.
Proof. intros E; unfold patched; by rewrite E. Qed.

Lemma patched_cur old cur data i : ~ (cur <= i < cur + zlen data) -> patched old cur data i = old i.
Proof. intros H; unfold patched; destruct (Z.leb_spec cur i), (Z.ltb_spec i (cur + zlen data)); try done; lia. Qed.

(** ** Files *)

Lemma inode_at_kept d f d' f' ino mt : kept d f d' f' mt -> alloc_ok d f -> ino_ok d f ino -> table_block f ino ∉ mt ->
  inode_at d' f' ino = inode_at d f ino /\ ino_ok d' f' ino.
Proof.
  intros K A I Hn; pose proof (a_fs d f A) as Fs; pose proof (f_groups f Fs); pose proof (kp_geo _ _ _ _ _ K) as G; split.
  - rewrite (inode_at_geo _ f f') by (done || lia); unfold inode_at; f_equal; apply (sector_same d d' f (table_block f ino)); [apply A | apply (kp_alloc _ _ _ _ _ K) | | by apply (inode_in_block d)].
    rewrite <- (blk_geo _ _ _ _ G); apply (kp_data _ _ _ _ _ K); [split; [apply I | split; apply I] | done].
  - eapply ino_ok_geo; [exact G | lia | exact I |]; apply (kp_used _ _ _ _ _ K); apply I.
Qed.

Section file.
Context (F : file_map).

Definition limit_bytes : Z := fm_limit F * EXT4_BLOCK_SIZE.

(** The blocks of a file: in use, its own, none of the driver's. *)
Record owns d f ino mp mt : Prop := {
  o_alloc : alloc_ok d f;
  o_ino : ino_ok d f ino;
  o_block j : 0 <= j < fm_limit F -> mp j <> 0 -> held d f (mp j) /\ (mp j ∉ mt) /\ mp j <> table_block f ino;
  o_inj i j : 0 <= i < fm_limit F -> 0 <= j < fm_limit F -> mp i <> 0 -> mp i = mp j -> i = j;
  o_meta : table_block f ino ∉ mt
}.

Definition byte_at d f mp (i : Z) : Z :=
  if mp (i / EXT4_BLOCK_SIZE) =? 0 then 0 else znth 0 (blk d f (mp (i / EXT4_BLOCK_SIZE))) (i mod EXT4_BLOCK_SIZE).

Lemma pos_split i : 0 <= i < limit_bytes -> 0 <= i / EXT4_BLOCK_SIZE < fm_limit F /\ 0 <= i mod EXT4_BLOCK_SIZE < EXT4_BLOCK_SIZE /\ i = i / EXT4_BLOCK_SIZE * EXT4_BLOCK_SIZE + i mod EXT4_BLOCK_SIZE.
Proof.
  unfold limit_bytes, EXT4_BLOCK_SIZE; intros Hi; pose proof (Z.mod_pos_bound i 4096 ltac:(lia)); pose proof (Z.div_mod i 4096 ltac:(lia)); lia.
Qed.

(** ** Reading *)

Lemma byte_at_slice d f mp cur n : dev_ok d -> 0 <= cur < limit_bytes -> 0 <= n -> cur mod EXT4_BLOCK_SIZE + n <= EXT4_BLOCK_SIZE ->
  slice (if mp (cur / EXT4_BLOCK_SIZE) =? 0 then zeroes EXT4_BLOCK_SIZE else blk d f (mp (cur / EXT4_BLOCK_SIZE))) (cur mod EXT4_BLOCK_SIZE) n
  = (byte_at d f mp <$> seqZ cur n).
Proof.
  intros Hd Hc Hn Hf; destruct (pos_split cur Hc) as (C1 & C2 & C3); set (p := mp (cur / EXT4_BLOCK_SIZE)); set (l := if p =? 0 then _ else _).
  assert (Hl : zlen l = EXT4_BLOCK_SIZE) by (unfold l; case_match; [done | by apply zlen_blk]).
  assert (Hz : zlen (slice l (cur mod EXT4_BLOCK_SIZE) n) = n) by (apply zlen_slice; lia).
  apply (znth_ext 0); [rewrite Hz; unfold zlen; rewrite length_fmap, length_seqZ; lia |]; rewrite Hz; intros i Hi; rewrite znth_slice by lia.
  rewrite (znth_lookup 0 (byte_at d f mp <$> seqZ cur n) i (byte_at d f mp (cur + i))); [| lia | rewrite list_lookup_fmap, (lookup_seqZ_lt _ _ (Z.to_nat i)) by lia; cbn; do 2 f_equal; lia].
  assert (Q : (cur + i) / EXT4_BLOCK_SIZE = cur / EXT4_BLOCK_SIZE) by (symmetry; apply (Z.div_unique _ _ _ (cur mod EXT4_BLOCK_SIZE + i)); lia).
  assert (R : (cur + i) mod EXT4_BLOCK_SIZE = cur mod EXT4_BLOCK_SIZE + i) by (symmetry; apply (Z.mod_unique _ _ (cur / EXT4_BLOCK_SIZE)); lia).
  unfold byte_at; rewrite Q, R; fold p; unfold l; case_match; [by rewrite znth_zeroes | done].
Qed.

Lemma runs_read_mapped {A} d f inode mp mt (k : option (list Z) -> M A) h Q : dev_ok d -> fm_ok F d f inode mp mt -> forall n cur left c acc,
  cache_ok d f mt c -> 0 <= cur -> 0 <= left -> cur + left <= limit_bytes -> left = 0 \/ cur mod EXT4_BLOCK_SIZE + left <= EXT4_BLOCK_SIZE * Z.of_nat n ->
  runs (k (Some (acc ++ (byte_at d f mp <$> seqZ cur left)))) (mk d [] h f) Q -> runs (read_loop n inode cur left c acc ≫= k) (mk d [] h f) Q.
Proof.
  intros Hd Hp; induction n as [| n IH]; intros cur left c acc HC Hc Hl Hb Hn HQ.
  { pose proof (Z.mod_pos_bound cur EXT4_BLOCK_SIZE ltac:(done)); assert (left = 0) as -> by lia; rewrite read_loop_done; apply runs_bind, runs_ret; by rewrite app_nil_r in HQ. }
  destruct (decide (left = 0)) as [-> | Hne]; [rewrite read_loop_done; apply runs_bind, runs_ret; by rewrite app_nil_r in HQ |].
  pose proof (fm_small F) as HL; destruct (pos_split cur ltac:(lia)) as (C1 & C2 & C3); rewrite read_loop_step by lia; rewrite u32_small by lia.
  apply runs_bind, (fm_bmap F _ _ _ _ _ _ _ mp mt); try done; intros c1 HC1.
  set (p := mp (cur / EXT4_BLOCK_SIZE)); set (t := Z.min (EXT4_BLOCK_SIZE - cur mod EXT4_BLOCK_SIZE) left); assert (Ht : 0 < t <= left) by lia.
  assert (Step : runs (read_loop n inode (cur + t) (left - t) c1 (acc ++ slice (if p =? 0 then zeroes EXT4_BLOCK_SIZE else blk d f p) (cur mod EXT4_BLOCK_SIZE) t) ≫= k) (mk d [] h f) Q).
  { apply IH; try lia; [done | |].
    - destruct (decide (t = left)) as [E | E].
      + left; lia.
      + right; assert (E2 : cur + t = (cur / EXT4_BLOCK_SIZE + 1) * EXT4_BLOCK_SIZE) by lia; rewrite E2, Z.mod_mul by done; lia.
    - unfold p; rewrite byte_at_slice by (done || lia); rewrite <- app_assoc, <- fmap_app.
      replace (seqZ cur t ++ seqZ (cur + t) (left - t)) with (seqZ cur left); [done |]; rewrite <- seqZ_app by lia; f_equal; lia. }
  destruct (Z.eqb_spec p 0); [by apply runs_bind, runs_ret, runs_unbind |].
  apply runs_read_block; intros o2 C; [by intros [] |]; rewrite (C eq_refl); by apply runs_unbind.
Qed.

(** ** Mapping a block *)

Lemma held_blkno d f b : alloc_ok d f -> held d f b -> blkno b.
Proof. intros A [Hb _]; by apply (blkno_of f); [apply A |]. Qed.

(** A zeroed block for a hole. *)
Lemma owns_mapped d f ino mp mt d' f' mp' mt' j r : owns d f ino mp mt -> Forall (held d f) mt ->
  kept d f d' f' mt -> put_at mp j r mp' -> mp j = 0 -> (forall b, b ∈ mt' -> b ∈ mt \/ used d f b = false) ->
  used d f r = false -> held d' f' r -> r ∉ mt' -> blk d' f' r = zeroes EXT4_BLOCK_SIZE ->
  owns d' f' ino mp' mt' /\ inode_at d' f' ino = inode_at d f ino /\ forall i, 0 <= i < limit_bytes -> byte_at d' f' mp' i = byte_at d f mp i.
Proof.
  intros [HA I B J Mt] Hmt K PA Ej Sub Fr Hr Nr Zr; destruct (inode_at_kept _ _ _ _ _ _ K HA I Mt) as [EI I']; pose proof (kp_geo _ _ _ _ _ K) as G; pose proof (f_groups f (a_fs d f HA)) as HG.
  assert (Et : table_block f' ino = table_block f ino) by (apply table_block_geo; [done | lia]).
  assert (Hr0 : r <> 0) by (intros ->; destruct Hr as (_ & _ & X); apply X; by left).
  assert (Out : forall b, held d f b -> b ∉ mt -> b ∉ mt') by (intros b (_ & Hu & _) Hb Hin; destruct (Sub b Hin); [done | congruence]).
  split; [split | split; [done |]].
  - apply K.
  - done.
  - intros i Hi; rewrite (PA i), Et; destruct (Z.eqb_spec i j) as [-> | Hne].
    + intros _; split; [done |]; split; [done |]; intros ->; pose proof (i_used _ _ _ I); congruence.
    + intros Hn; destruct (B i Hi Hn) as (B1 & B2 & B3); split; [by eapply held_kept |]; split; [by apply Out | done].
  - intros i i' Hi Hi'; rewrite (PA i), (PA i'); destruct (Z.eqb_spec i j) as [-> | Hne], (Z.eqb_spec i' j) as [-> | Hne']; try done; [| | by apply J].
    + intros _ E; destruct (B i' Hi') as ((_ & U & _) & _ & _); [congruence |]; rewrite <- E in U; congruence.
    + intros Hn E; destruct (B i Hi Hn) as ((_ & U & _) & _ & _); rewrite E in U; congruence.
  - rewrite Et; apply Out; [split; [apply I | split; apply I] | done].
  - intros i Hi; destruct (pos_split i Hi) as (S1 & S2 & S3); unfold byte_at; rewrite (PA (i / EXT4_BLOCK_SIZE)); destruct (Z.eqb_spec (i / EXT4_BLOCK_SIZE) j) as [-> | Hne].
    + rewrite Ej; destruct (Z.eqb_spec r 0); [done |]; cbn [Z.eqb]; by rewrite Zr, znth_zeroes.
    + destruct (Z.eqb_spec (mp (i / EXT4_BLOCK_SIZE)) 0) as [| Hn]; [done |]; destruct (B _ S1 Hn) as (B1 & B2 & _); by rewrite (kp_data _ _ _ _ _ K).
Qed.

(** ** Writing *)

(** Calls that write blocks outside the mapping's own. *)
Lemma fm_same d f inode mp mt d' f' bs : kept d f d' f' bs -> (forall b, b ∈ bs -> b ∉ mt) -> fm_ok F d f inode mp mt -> fm_ok F d' f' inode mp mt.
Proof.
  intros K Hn H; destruct (fm_inode F _ _ _ _ _ H) as [H1 H2]; pose proof (fm_held F _ _ _ _ _ H) as HH; rewrite Forall_forall in HH.
  apply (fm_frame F d f inode mp mt); try done; intros b Hb; split; [apply (kp_data _ _ _ _ _ K); [by apply HH | intros Hin; by apply (Hn b)] | eapply held_kept; [exact K | by apply HH]].
Qed.

Lemma owns_put d f ino mp mt j l : owns d f ino mp mt -> 0 <= j < fm_limit F -> mp j <> 0 -> zlen l = 4096 -> bytes l ->
  let d' := put_blk d f (mp j) l in
  owns d' f ino mp mt /\ kept d f d' f [mp j] /\
  forall i, 0 <= i < limit_bytes -> byte_at d' f mp i = if decide (i / EXT4_BLOCK_SIZE = j) then znth 0 l (i mod EXT4_BLOCK_SIZE) else byte_at d f mp i.
Proof.
  intros H Hj Hn Hl Hy d'; pose proof H as [HA I B J Mt]; destruct (B j Hj Hn) as (B1 & B2 & B3); destruct (kept_put d f (mp j) l [mp j] HA B1 ltac:(by left) Hl Hy) as [K E]; fold d' in K, E.
  assert (Hne : table_block f ino ∉ [mp j]) by (by intros X%list_elem_of_singleton; apply B3); destruct (inode_at_kept _ _ _ _ _ _ K HA I Hne) as [_ I'].
  split; [split; try done; [apply K | intros i Hi Hx; destruct (B i Hi Hx) as (X1 & X2 & X3); split; [by eapply held_kept | done]] | split; [done |]].
  intros i Hi; destruct (pos_split i Hi) as (P1 & P2 & P3); unfold byte_at; case_decide as Ej.
  - rewrite Ej; destruct (Z.eqb_spec (mp j) 0); [done |]; by rewrite E.
  - destruct (Z.eqb_spec (mp (i / EXT4_BLOCK_SIZE)) 0) as [| Hx]; [done |]; destruct (B _ P1 Hx) as (X1 & _ & _); rewrite (kp_data _ _ _ _ _ K); [done | done |].
    intros X%list_elem_of_singleton; apply Ej; by apply J.
Qed.

(** One round: [l] put at [cur], inside one block. *)
Lemma round_bytes d f ino mp mt cur l : owns d f ino mp mt -> 0 <= cur < limit_bytes -> cur mod EXT4_BLOCK_SIZE + zlen l <= EXT4_BLOCK_SIZE -> bytes l ->
  let j := cur / EXT4_BLOCK_SIZE in let buf := splice (blk d f (mp j)) (cur mod EXT4_BLOCK_SIZE) l in mp j <> 0 ->
  let d' := put_blk d f (mp j) buf in
  owns d' f ino mp mt /\ kept d f d' f [mp j] /\ zlen buf = EXT4_BLOCK_SIZE /\ forall i, 0 <= i < limit_bytes -> byte_at d' f mp i = patched (byte_at d f mp) cur l i.
Proof.
  intros HO Hc Hl Hy j buf Hj d'; destruct (pos_split cur Hc) as (C1 & C2 & C3); pose proof HO as [HA _ _ _ _]; fold j in C1, C3.
  assert (Hd : dev_ok d) by apply HA; pose proof (zlen_blk d f (mp j) Hd) as Hz; change EXT4_BLOCK_SIZE with 4096 in *.
  assert (Hb : zlen buf = 4096) by (unfold buf; rewrite zlen_splice; lia).
  destruct (owns_put d f ino mp mt j buf HO C1 Hj Hb) as (O' & K & Y); [apply splice_ok; [by apply bytes_blk | done] |]; fold d' in O', K, Y; split; [done |]; split; [done |]; split; [done |].
  intros i Hi; rewrite Y by done; destruct (pos_split i Hi) as (P1 & P2 & P3); change EXT4_BLOCK_SIZE with 4096 in *; unfold patched; case_decide as E.
  - unfold buf; rewrite znth_splice by lia; unfold byte_at; change EXT4_BLOCK_SIZE with 4096; rewrite E; destruct (Z.eqb_spec (mp j) 0); [done |].
    destruct (Z.leb_spec (cur mod 4096) (i mod 4096)), (Z.ltb_spec (i mod 4096) (cur mod 4096 + zlen l)), (Z.leb_spec cur i), (Z.ltb_spec i (cur + zlen l)); try lia; cbn [andb]; try done; f_equal; lia.
  - destruct (Z.leb_spec cur i), (Z.ltb_spec i (cur + zlen l)); try done; lia.
Qed.

(** A mapping that maps what [mp] does has no room for a block more. *)
Definition stuck d f mp : Prop := exists inode mp' mt, fm_ok F d f inode mp' mt /\ ~ fm_room F d f inode mt /\ forall i, mp i <> 0 -> mp' i = mp i.

Lemma stuck_before d f mp mp' : stuck d f mp' -> (forall i, mp i <> 0 -> mp' i = mp i) -> stuck d f mp.
Proof. intros (inode & mp2 & mt & H1 & H2 & H3) E; exists inode, mp2, mt; repeat (split; [done |]); intros i Hi; rewrite <- E, H3; by rewrite ?E. Qed.

(** The holes a write of [n] bytes at [cur] meets may be filled. *)
Definition fillable mp (cur n : Z) : Prop := forall j, cur / EXT4_BLOCK_SIZE <= j -> j * EXT4_BLOCK_SIZE < cur + n -> mp j = 0 -> fm_can F mp j.

Lemma fillable_put mp j r mp' cur n t : fillable mp cur n -> mp j = 0 -> r <> 0 -> put_at mp j r mp' -> j = cur / EXT4_BLOCK_SIZE -> 0 <= cur -> 0 < t -> t <= n -> fillable mp' (cur + t) (n - t).
Proof.
  intros HF Ej Hr PA E Hc Ht Htn i H1 H2 H3; subst j; unfold EXT4_BLOCK_SIZE in *; pose proof (Z.div_le_mono cur (cur + t) 4096 ltac:(lia) ltac:(lia)) as Hm.
  rewrite (PA i) in H3; destruct (Z.eqb_spec i (cur / 4096)) as [-> | Hne]; [done |]; eapply (fm_can_next F mp (cur / 4096) r); [| exact PA | lia].
  apply HF; unfold EXT4_BLOCK_SIZE; [lia | | done]; pose proof (Z.div_mod cur 4096 ltac:(lia)); pose proof (Z.mod_pos_bound cur 4096 ltac:(lia)); lia.
Qed.

Lemma fillable_rest mp cur n t : fillable mp cur n -> 0 < t -> fillable mp (cur + t) (n - t).
Proof.
  intros HF Ht j H1 H2; apply HF; [| lia]; unfold EXT4_BLOCK_SIZE in *; pose proof (Z.div_le_mono cur (cur + t) 4096 ltac:(lia) ltac:(lia)); lia.
Qed.

Lemma sizes_same inode inode' : same_fields inode inode' -> i_size_lo inode' = i_size_lo inode /\ i_size_high inode' = i_size_high inode.
Proof. intros S; split; apply le32_ext; intros k Hk; apply S; lia. Qed.

Lemma runs_write_loop {A} ino (k : option (list Z * Z) -> M A) h Q : forall n d f inode mp mt cur data c buf,
  owns d f ino mp mt -> fm_ok F d f inode mp mt -> cache_ok d f mt c -> zlen buf <= EXT4_BLOCK_SIZE -> bytes data -> 0 <= cur -> cur + zlen data <= limit_bytes -> cur + zlen data < 2 ^ 32 ->
  data = [] \/ cur mod EXT4_BLOCK_SIZE + zlen data <= EXT4_BLOCK_SIZE * Z.of_nat n -> fillable mp cur (zlen data) ->
  (forall d' f', alloc_ok d' f' -> nearly_full d' f' \/ stuck d' f' mp -> runs (k None) (mk d' [] h f') Q) ->
  (forall d' f' inode' mp' mt', geo f f' -> owns d' f' ino mp' mt' -> fm_ok F d' f' inode' mp' mt' -> i_size_lo inode' = i_size_lo inode -> i_size_high inode' = i_size_high inode ->
     (forall i, 0 <= i < limit_bytes -> byte_at d' f' mp' i = patched (byte_at d f mp) cur data i) ->
     runs (k (Some (inode', cur + zlen data))) (mk d' [] h f') Q) ->
  runs (write_loop n inode cur data c buf ≫= k) (mk d [] h f) Q.
Proof.
  induction n as [| n IH]; intros d f inode mp mt cur data c buf HO HP HC Hbuf Hy Hc Hb Hb2 Hn HF H1 H2.
  all: destruct (decide (data = [])) as [-> | Hne]; [rewrite write_loop_nil; apply runs_bind, runs_ret; rewrite <- (Z.add_0_r cur) at 1; apply (H2 d f inode mp mt); try done; by intros i Hi; rewrite patched_cur by (unfold zlen; cbn; lia) |].
  { pose proof (Z.mod_pos_bound cur EXT4_BLOCK_SIZE ltac:(done)); destruct Hn as [| Hn]; [done |]; destruct data; [done |]; rewrite zlen_cons in Hn; pose proof (zlen_nonneg data); lia. }
  assert (Hlen : 0 < zlen data) by (destruct data; [done |]; rewrite zlen_cons; pose proof (zlen_nonneg data); lia); destruct Hn as [| Hn]; [done |].
  destruct (pos_split cur ltac:(lia)) as (C1 & C2 & C3); rewrite write_loop_step by done; cbv zeta; set (t := Z.min (EXT4_BLOCK_SIZE - cur mod EXT4_BLOCK_SIZE) (zlen data)); assert (Ht : 0 < t <= zlen data) by lia.
  assert (Lt : zlen (take (Z.to_nat t) data) = t) by (unfold zlen in *; rewrite length_take; lia); assert (Ld : zlen (drop (Z.to_nat t) data) = zlen data - t) by (unfold zlen in *; rewrite length_drop; lia).
  (** One round, from a state in which the block is mapped. *)
  assert (Round : forall d1 f1 inode1 mp1 mt1 c1, geo f f1 -> owns d1 f1 ino mp1 mt1 -> fm_ok F d1 f1 inode1 mp1 mt1 -> cache_ok d1 f1 mt1 c1 -> same_fields inode inode1 -> (forall i, mp i <> 0 -> mp1 i = mp i) ->
    mp1 (cur / EXT4_BLOCK_SIZE) <> 0 -> (forall i, 0 <= i < limit_bytes -> byte_at d1 f1 mp1 i = byte_at d f mp i) -> fillable mp1 (cur + t) (zlen data - t) ->
    runs (write_part (mp1 (cur / EXT4_BLOCK_SIZE)) (cur mod EXT4_BLOCK_SIZE) (take (Z.to_nat t) data) buf ≫= fun r =>
      match r with None => mret None | Some buf => write_loop n inode1 (u32 (cur + t)) (drop (Z.to_nat t) data) c1 buf end) (mk d1 [] h f1) (fun s' x => runs (k x) s' Q)).
  { intros d1 f1 inode1 mp1 mt1 c1 G1 O1 P1 HC1 SF Ex Nz B1 HF1; destruct (sizes_same _ _ SF) as [S1 S1']; pose proof O1 as [A1 _ X1 _ _]; apply runs_write_part; [apply A1 | done | lia | lia |]; cbv zeta.
    destruct (round_bytes d1 f1 ino mp1 mt1 cur (take (Z.to_nat t) data) O1 ltac:(lia) ltac:(lia) ltac:(by apply Forall_take) Nz) as (O2 & K2 & L2 & B2).
    set (buf2 := splice _ _ _) in *; set (d2 := put_blk _ _ _ _) in *; rewrite u32_small by lia; destruct (X1 _ C1 Nz) as (_ & Nm & _).
    assert (Nb : forall b, b ∈ [mp1 (cur / EXT4_BLOCK_SIZE)] -> b ∉ mt1) by (by intros b ->%list_elem_of_singleton); pose proof (fm_held F _ _ _ _ _ P1) as HH; rewrite Forall_forall in HH.
    apply runs_unbind, (IH d2 f1 inode1 mp1 mt1); try done.
    - by eapply fm_same.
    - eapply cache_same; [| exact HC1]; intros b Hb'; split; [done |]; apply (kp_data _ _ _ _ _ K2); [by apply HH | intros Hin; by apply (Nb b)].
    - by rewrite L2.
    - by apply Forall_drop.
    - lia.
    - lia.
    - lia.
    - destruct (decide (t = zlen data)) as [E | E]; [left; rewrite E; unfold zlen; rewrite Nat2Z.id; by apply drop_all |]; right.
      assert (E2 : cur + t = (cur / EXT4_BLOCK_SIZE + 1) * EXT4_BLOCK_SIZE) by lia; rewrite E2, Z.mod_mul by done; lia.
    - by rewrite Ld.
    - intros d3 f3 A3 [Z3 | Z3]; apply H1; [done | by left | done | right; by eapply stuck_before].
    - intros d3 f3 inode3 mp3 mt3 G3 O3 P3 S3 S3' B3; rewrite Ld; replace (cur + t + (zlen data - t)) with (cur + zlen data) by lia.
      apply (H2 d3 f3 inode3 mp3 mt3); try done; [by eapply geo_trans | congruence | congruence |].
      intros i Hi; rewrite B3 by done; rewrite <- (patched_split (byte_at d f mp) cur data t) by lia.
      apply patched_ext; rewrite B2 by done; by apply patched_ext, B1. }
  apply runs_bind, (runs_mapped F _ _ _ _ _ _ inode mp mt); try done; [apply HO | apply HF; unfold EXT4_BLOCK_SIZE in *; lia | | |].
  - intros d1 f1 inode1 c1 A1 [Z1 | Z1]; apply runs_ret; (apply H1; [done |]); [by left | right; destruct Z1 as (-> & -> & Z1); by exists inode, mp, mt].
  - intros Nz c1 HC1; apply (Round d f inode mp mt); try done; by apply fillable_rest; [| lia].
  - intros Ez d1 f1 inode1 mp1 mt1 c1 r K1 P1 HC1 PA SF Sub Fr Hr Nr Zr; destruct (owns_mapped _ _ _ _ _ _ _ _ _ _ _ HO (fm_held F _ _ _ _ _ HP) K1 PA Ez Sub Fr Hr Nr Zr) as (O1 & _ & B1).
    assert (Hr0 : r <> 0) by (intros ->; destruct Hr as (_ & _ & X); apply X; by left); pose proof (PA (cur / EXT4_BLOCK_SIZE)) as Er; rewrite Z.eqb_refl in Er; rewrite <- Er.
    apply (Round d1 f1 inode1 mp1 mt1); try done; [apply K1 | intros i Hi; rewrite (PA i); by destruct (Z.eqb_spec i (cur / EXT4_BLOCK_SIZE)) as [-> |] | by rewrite Er | by eapply fillable_put; [exact HF | exact Ez | exact Hr0 | exact PA | done | done | lia | lia]].
Qed.

(** ** The inode written back *)

Lemma owns_inode d f d' ino mp mt : owns d f ino mp mt -> Forall (held d f) mt -> same_but d d' f (eq (table_block f ino)) ->
  owns d' f ino mp mt /\ kept d f d' f [table_block f ino] /\ forall i, 0 <= i < limit_bytes -> byte_at d' f mp i = byte_at d f mp i.
Proof.
  intros [HA I B J Mt] Hmt S; assert (Ht : held d f (table_block f ino)) by (split; [apply I | split; apply I]).
  pose proof (kept_same d f d' _ [table_block f ino] HA Ht ltac:(by left) S) as K; pose proof (kp_used _ _ _ _ _ K _ (proj1 Ht) (proj1 (proj2 Ht))) as U.
  split; [split; try done; [apply K | destruct I; by split | intros j Hj Hn; destruct (B j Hj Hn) as (X1 & X2 & X3); split; [by eapply held_kept | done]] | split; [done |]].
  intros i Hi; destruct (pos_split i Hi) as (P1 & P2 & P3); unfold byte_at; destruct (Z.eqb_spec (mp (i / EXT4_BLOCK_SIZE)) 0) as [| Hn]; [done |].
  destruct (B _ P1 Hn) as (X1 & X2 & X3); rewrite (kp_data _ _ _ _ _ K); [done | done | by intros X%list_elem_of_singleton].
Qed.

Lemma fm_size d f inode mp mt x : fm_ok F d f inode mp mt -> 0 <= x < 2 ^ 32 ->
  let inode' := set_i_size_lo inode x in fm_ok F d f inode' mp mt /\ zlen inode' = 128 /\ bytes inode' /\ i_size_lo inode' = x /\ i_size_high inode' = i_size_high inode.
Proof.
  intros H Hx inode'; destruct (fm_inode F _ _ _ _ _ H) as [H1 H2]; pose proof (fm_held F _ _ _ _ _ H) as HH; rewrite Forall_forall in HH; unfold set_i_size_lo in inode'.
  assert (K : forall i, 8 <= i -> znth 0 inode' i = znth 0 inode i) by (intros i Hi; apply znth_splice_ne; rewrite ?zlen_bytes32; lia).
  assert (L1 : zlen inode' = 128) by (unfold inode'; rewrite zlen_splice; rewrite ?zlen_bytes32; lia); assert (L2 : bytes inode') by (apply splice_ok; [done | apply bytes32_ok]).
  split; [apply (fm_frame F d f inode mp mt); try done; [intros b Hb; split; [done | by apply HH] | intros i Hi; apply K; lia] |]; repeat (split; [done |]); split.
  - apply le32_splice_eq; lia.
  - apply le32_ext; intros k Hk; apply K; lia.
Qed.

(** ** Whole files *)

(** A file of [size] bytes. *)
Record file_on d f ino mp mt (size : Z) : Prop := {
  fo_owns : owns d f ino mp mt;
  fo_map : fm_ok F d f (inode_at d f ino) mp mt;
  fo_size : i_size_lo (inode_at d f ino) = size;
  fo_high : i_size_high (inode_at d f ino) = 0;
  fo_range : 0 <= size <= limit_bytes /\ size < 2 ^ 32
}.

(** What a read of [n] bytes at [off] of a file of [size] bytes returns. *)
Definition available (size off n : Z) : Z := Z.max 0 (Z.min n (size - off)).

Lemma runs_read {A} ino off n (k : Z * list Z -> M A) d h f mp mt size Q :
  file_on d f ino mp mt size -> 0 <= off < 2 ^ 63 -> 0 <= n <= EXT4_MAX_IO_SIZE ->
  runs (k (available size off n, byte_at d f mp <$> seqZ off (available size off n))) (mk d [] h f) Q -> runs (ext4_read ino off n ≫= k) (mk d [] h f) Q.
Proof.
  intros [HO HP HS HH [HR HR2]] Ho Hn HQ; pose proof HO as [HA I _ _ _]; pose proof (a_fs d f HA) as Fs; pose proof (i_pos _ _ _ I) as HI; pose proof (le32_range (sb f) 0 (proj2 (f_sb f Fs))) as HC.
  apply runs_bind; unfold ext4_read; destruct (Z.ltb_spec EXT4_MAX_IO_SIZE n); [lia |]; unfold EXT4_MAX_IO_SIZE in *.
  unfold s_inodes_count in HI; rewrite u32_small by lia; unfold read_inode_data; apply runs_get_inode; [done | done | by intros o1 _ [] |]; intros o1 C1; rewrite (C1 eq_refl).
  assert (Hf : file_size (inode_at d f ino) = size) by (unfold file_size; rewrite HS, HH; apply Z.lor_0_r); unfold ext4_read_data; rewrite Hf; unfold available in HQ.
  destruct (Z.eqb_spec n 0) as [-> | Hn0]; [apply runs_ret; by rewrite Z.max_l in HQ by lia |].
  destruct (Z.leb_spec size off); [apply runs_ret; by rewrite Z.max_l in HQ by lia |]; rewrite u64_small by lia.
  set (m := if size <? off + n then u32 (size - off) else n); assert (Em : m = Z.max 0 (Z.min n (size - off))).
  { unfold m; destruct (Z.ltb_spec size (off + n)); [rewrite u32_small by lia |]; lia. }
  apply runs_kmalloc; intros o2 ok C2 Hok; rewrite (C2 eq_refl), (Hok eq_refl); cbn [negb]; apply (runs_read_mapped d f _ mp mt); [apply HA | done | apply cache_init | lia | lia | lia | |].
  - right; unfold EXT4_BLOCK_SIZE; pose proof (Z.mod_pos_bound off 4096 ltac:(lia)); pose proof (Z.div_mod m 4096 ltac:(lia)); pose proof (Z.mod_pos_bound m 4096 ltac:(lia)); lia.
  - apply runs_ret; rewrite i32_small, Em by lia; exact HQ.
Qed.

(** A write leaves a file with the data in its place, or fails. *)
Lemma runs_write d h f path ino mp mt size offset data :
  file_on d f ino mp mt size -> zlen h <= EXT4_BLOCK_SIZE -> read_only f = false -> ext4_find_ino path (mk d [] h f) = Some (mk d [] h f, Some ino) ->
  bytes data -> 0 <= offset <= size + 1048576 -> zlen data <= EXT4_MAX_IO_SIZE -> offset + zlen data <= limit_bytes -> offset + zlen data < 2 ^ 32 -> fillable mp offset (zlen data) ->
  runs (ext4_write path offset data) (mk d [] h f) (fun s' r => alloc_ok (dev s') (fs s') /\
    ((r = -1 /\ (nearly_full (dev s') (fs s') \/ stuck (dev s') (fs s') mp)) \/
     (r = zlen data /\ oracle s' = [] /\ exists mp' mt', file_on (dev s') (fs s') ino mp' mt' (ext4_write_new_size offset size (offset + zlen data)) /\
        forall i, 0 <= i < limit_bytes -> byte_at (dev s') (fs s') mp' i = patched (byte_at d f mp) offset data i))).
Proof.
  intros [HO HP HS HH [HR HR2]] Hh Hro Hp Hy Ho Hl Hb Hb2 HF; pose proof HO as [HA I _ _ _]; pose proof (a_fs d f HA) as Fs; pose proof (f_groups f Fs) as HG.
  pose proof (zlen_nonneg data); apply runs_tail, runs_bind; unfold ext4_write; apply runs_get_fs; rewrite Hro; destruct (Z.ltb_spec EXT4_MAX_IO_SIZE (zlen data)); [lia |].
  apply runs_bind; exists (mk d [] h f), (Some ino); split; [exact Hp |]; cbv beta; apply runs_get_inode; [done | done | by intros o1 _ [] |]; intros o1 C1; rewrite (C1 eq_refl), HS.
  destruct (Z.ltb_spec 0xFFFFFFFF offset), (Z.ltb_spec (size + 1048576) offset); try lia; cbn [orb].
  apply runs_kmalloc; intros o2 ok C2 Hok; rewrite (C2 eq_refl), (Hok eq_refl); cbn [negb]; apply runs_fresh, (runs_write_loop ino _ h _ _ d f _ mp mt); try done; [apply cache_init | lia | | |].
  - right; unfold write_rounds, EXT4_BLOCK_SIZE; pose proof (Z.mod_pos_bound offset 4096 ltac:(lia)); pose proof (Z.div_mod (zlen data) 4096 ltac:(lia)); pose proof (Z.mod_pos_bound (zlen data) 4096 ltac:(lia)); lia.
  - intros d1 f1 A1 Z1; apply runs_ret, runs_ret; split; [done |]; by left.
  - intros d1 f1 inode1 mp1 mt1 G1 O1 P1 S1 S1' B1; rewrite S1, HS; pose proof O1 as [A1 I1 _ _ _].
    assert (Hs : 0 <= ext4_write_new_size offset size (offset + zlen data) <= limit_bytes /\ ext4_write_new_size offset size (offset + zlen data) < 2 ^ 32)
      by (unfold ext4_write_new_size; repeat case_match; lia).
    destruct (fm_size d1 f1 inode1 mp1 mt1 (ext4_write_new_size offset size (offset + zlen data)) P1 ltac:(lia)) as (P2 & L2 & Y2 & S2 & S2').
    apply runs_update_inode; [apply A1 | apply A1 | done | done | done | by intros o3 _ [] |]; intros o3 d3 C3 S3 E3; rewrite (C3 eq_refl).
    destruct (owns_inode d1 f1 d3 ino mp1 mt1 O1 (fm_held F _ _ _ _ _ P1) S3) as (O3 & K3 & B3); apply runs_ret, runs_ret; split; [apply (o_alloc _ _ _ _ _ O3) |]; right; split; [done |]; split; [done |].
    exists mp1, mt1; split; [| intros i Hi; cbn [dev fs]; rewrite B3 by done; by apply B1].
    split; cbn [dev fs]; rewrite ?E3; [exact O3 | | exact S2 | by rewrite S2', S1' | exact Hs].
    eapply fm_same; [exact K3 | | exact P2]; intros b ->%list_elem_of_singleton; apply (o_meta _ _ _ _ _ O1).
Qed.
End file.

Implicit Types (s : disk).

(** Every read of the file returns the bytes of [content] there are below [size]. *)
Definition reads_as s ino (size : Z) (content : Z -> Z) : Prop := forall off n, 0 <= off < 2 ^ 63 -> 0 <= n <= EXT4_MAX_IO_SIZE ->
  exists s', ext4_read ino off n s = Some (s', (available size off n, content <$> seqZ off (available size off n))).

Lemma write_then_read (F : file_map) s path ino mp mt size offset data :
  file_on F (dev s) (fs s) ino mp mt size -> oracle s = [] -> zlen (heap s) <= EXT4_BLOCK_SIZE -> read_only (fs s) = false ->
  ext4_find_ino path s = Some (s, Some ino) -> bytes data -> 0 <= offset <= size + 1048576 -> zlen data <= EXT4_MAX_IO_SIZE ->
  offset + zlen data <= limit_bytes F -> offset + zlen data < 2 ^ 32 -> fillable F mp offset (zlen data) ->
  exists s' r, ext4_write path offset data s = Some (s', r) /\ alloc_ok (dev s') (fs s') /\
    ((r = -1 /\ (nearly_full (dev s') (fs s') \/ stuck F (dev s') (fs s') mp)) \/
     (r = zlen data /\ exists mp' mt', let size' := ext4_write_new_size offset size (offset + zlen data) in
        file_on F (dev s') (fs s') ino mp' mt' size' /\ reads_as s' ino size' (patched (byte_at (dev s) (fs s) mp) offset data))).
Proof.
  destruct s as [d o h f]; cbn [dev oracle heap fs]; intros HF -> Hh Hro Hp Hy Ho Hl Hb Hb2 HC.
  destruct (runs_write F d h f path ino mp mt size offset data) as (s' & r & E & A' & [[-> Z] | (-> & Ho' & mp' & mt' & HF' & HB)]); try done; eexists s', _; (split; [exact E |]; split; [exact A' |]); [by left |].
  right; split; [done |]; exists mp', mt'; cbv zeta; split; [done |]; intros off n Hoff Hn; destruct s' as [d' o' h' f']; cbn [dev fs oracle] in *; subst o'; set (size' := ext4_write_new_size _ _ _) in *.
  assert (R : runs (ext4_read ino off n) (mk d' [] h' f') (fun _ r => r = (available size' off n, byte_at d' f' mp' <$> seqZ off (available size' off n)))).
  { apply runs_tail, (runs_read F _ _ _ _ _ _ _ mp' mt' size'); [done | done | done | by apply runs_ret]. }
  destruct R as (s'' & r & E2 & ->); exists s''; rewrite E2; do 3 f_equal; apply list_fmap_ext; intros i x Hx; apply HB; apply list_elem_of_lookup_2, elem_of_seqZ in Hx.
  pose proof (fo_range _ _ _ _ _ _ _ HF') as [HR _]; unfold available in Hx; lia.
Qed.

(** C6: What is written is read back, in a file whose blocks the inode, its
    indirect block and the blocks below its double indirect block name. The mount
    is writable, the device answers, a block buffer can be had and the length is
    at most [EXT4_MAX_IO_SIZE]. Then a file, whatever of it is mapped, reads as a
    sequence of bytes, and past its end as nothing; a write of [data] at
    [offset], up to a megabyte past the end and below 4 GiB, either returns the
    length, and then every later read sees [data] there and the old bytes
    elsewhere (zeroes where no block was mapped), up to the new size, or returns
    -1, and then the disk is full but for at most one block. The allocator's
    invariant is kept, and so is the file's: each block of data and each pointer
    block serves one purpose. *)
Theorem written_data_is_read_back s path ino mp mt size offset data :
  file_on pointer_map (dev s) (fs s) ino mp mt size -> oracle s = [] -> zlen (heap s) <= EXT4_BLOCK_SIZE -> read_only (fs s) = false ->
  ext4_find_ino path s = Some (s, Some ino) -> bytes data -> 0 <= offset <= size + 1048576 -> zlen data <= EXT4_MAX_IO_SIZE -> offset + zlen data < 2 ^ 32 ->
  exists s' r, ext4_write path offset data s = Some (s', r) /\ alloc_ok (dev s') (fs s') /\
    ((r = -1 /\ nearly_full (dev s') (fs s')) \/
     (r = zlen data /\ exists mp' mt', let size' := ext4_write_new_size offset size (offset + zlen data) in
        file_on pointer_map (dev s') (fs s') ino mp' mt' size' /\ reads_as s' ino size' (patched (byte_at (dev s) (fs s) mp) offset data))).
Proof.
  intros HF Ho Hh Hro Hp Hy Hr Hl Hb; destruct (write_then_read pointer_map s path ino mp mt size offset data) as (s' & r & E & A & [[-> [Z | (inode & mp' & mt' & _ & X & _)]] | X]); try done.
  - change (limit_bytes pointer_map) with 4299210752; lia.
  - exists s', (-1); auto.
  - exists s', r; auto.
Qed.

(** C10: What is appended is read back in a file with a small extent tree. The
    limits: the tree is of depth 0 or 1 and its last extent is written and not
    empty; the mount is writable, the device answers every transfer and a block
    buffer can be had; the offset is at most 1 MiB past the end (the driver
    refuses a larger one), the end of the write below 4 GiB, its length at most
    [EXT4_MAX_IO_SIZE], and every block of it not mapped yet lies behind the last
    mapped one. Then the write either returns the length, and every later read
    sees [data] at [offset] and the old bytes elsewhere (zeroes in a gap), up to
    the new size, or returns -1, and then the disk is full but for at most one
    block or the tree has no room for a further extent (the driver does not grow
    it beyond depth 1). The invariants of the allocator, the file and its tree
    are kept. *)
Theorem appended_data_is_read_back s path ino mp mt size offset data :
  file_on extent_map (dev s) (fs s) ino mp mt size -> oracle s = [] -> zlen (heap s) <= EXT4_BLOCK_SIZE -> read_only (fs s) = false ->
  ext4_find_ino path s = Some (s, Some ino) -> bytes data -> 0 <= offset <= size + 1048576 -> zlen data <= EXT4_MAX_IO_SIZE -> offset + zlen data < 2 ^ 32 ->
  (forall j, offset / EXT4_BLOCK_SIZE <= j -> j * EXT4_BLOCK_SIZE < offset + zlen data -> mp j = 0 -> behind mp j) ->
  exists s' r, ext4_write path offset data s = Some (s', r) /\ alloc_ok (dev s') (fs s') /\
    ((r = -1 /\ (nearly_full (dev s') (fs s') \/ stuck extent_map (dev s') (fs s') mp)) \/
     (r = zlen data /\ exists mp' mt', let size' := ext4_write_new_size offset size (offset + zlen data) in
        file_on extent_map (dev s') (fs s') ino mp' mt' size' /\ reads_as s' ino size' (patched (byte_at (dev s) (fs s) mp) offset data))).
Proof. intros; apply (write_then_read extent_map s path ino mp mt); try done; change (limit_bytes extent_map) with 17592186040320; lia. Qed.

(** ** The small image *)

(** Its file [a], five bytes in one block. *)
Definition demo_map (j : Z) : Z := if j =? 0 then 69 else 0.

Lemma demo_held d b : used d demo_fs b = true -> 3 <= b < 200 -> held d demo_fs b.
Proof.
  intros U Hb; assert (E : bg_block_bitmap_lo demo_fs 0 = 2) by (vm_compute; reflexivity).
  split; [unfold block_of; change (n_groups demo_fs) with 1; lia | split; [done |]]; intros [-> | [-> | (g & ->%demo_groups & ->)]]; lia.
Qed.

Lemma demo_owns (F : file_map) d : alloc_ok d demo_fs -> used d demo_fs 4 = true -> used d demo_fs 69 = true -> owns F d demo_fs 11 demo_map [].
Proof.
  intros A U4 U69; assert (T : table_block demo_fs 11 = 4) by (vm_compute; reflexivity); destruct (demo_held d 4 U4 ltac:(lia)) as (B & _ & X); split.
  - done.
  - split; [reflexivity | vm_compute; repeat split; discriminate | vm_compute; split; discriminate | by rewrite T ..].
  - intros j _; unfold demo_map; destruct (Z.eqb_spec j 0); [intros _ | done]; split; [by apply demo_held | split; [apply not_elem_of_nil | by rewrite T]].
  - intros i j _ _; unfold demo_map; destruct (Z.eqb_spec i 0), (Z.eqb_spec j 0); congruence.
  - apply not_elem_of_nil.
Qed.

Lemma demo_file_on : file_on pointer_map demo_dev demo_fs 11 demo_map [] 5.
Proof.
  split; [apply demo_owns; [apply demo_alloc_ok | vm_compute; reflexivity ..] | | vm_compute; reflexivity | vm_compute; reflexivity | vm_compute; repeat split; discriminate].
  assert (P : forallb (fun j => i_block (inode_at demo_dev demo_fs 11) j =? demo_map j) (seqZ 0 15) = true) by (vm_compute; reflexivity).
  assert (B : forall j, 0 <= j < 15 -> i_block (inode_at demo_dev demo_fs 11) j = demo_map j) by (intros j Hj; rewrite forallb_forall in P; apply Z.eqb_eq, P, list_elem_of_In, elem_of_seqZ; lia).
  assert (N : forall k, node demo_dev demo_fs (inode_at demo_dev demo_fs 11) k = 0) by (intros k; unfold node; rewrite !B by lia; by repeat case_match).
  split.
  - vm_compute; reflexivity.
  - apply bytes_forallb; vm_compute; reflexivity.
  - vm_compute; reflexivity.
  - intros j Hj; unfold pointer_at; rewrite N; destruct (Z.ltb_spec j 12); [by rewrite B by lia |]; unfold demo_map; by destruct (Z.eqb_spec j 0); [lia |].
  - intros k _; rewrite (N k); intros X; by destruct X.
  - intros k k' _ _; rewrite (N k); intros X; by destruct X.
  - constructor.
Qed.

(** Written in the second block and, through a new indirect block, in the thirteenth. *)
Lemma written_data_is_read_back_witness :
  ext4_find_ino (lit "/a") demo = Some (demo, Some 11) /\
  exists s' r, ext4_write (lit "/a") 50000 (lit "good morning") demo = Some (s', r) /\ alloc_ok (dev s') (fs s') /\
    ((r = -1 /\ nearly_full (dev s') (fs s')) \/
     (r = zlen (lit "good morning") /\ exists mp' mt', let size' := ext4_write_new_size 50000 5 (50000 + zlen (lit "good morning")) in
        file_on pointer_map (dev s') (fs s') 11 mp' mt' size' /\ reads_as s' 11 size' (patched (byte_at (dev demo) (fs demo) demo_map) 50000 (lit "good morning")))).
Proof.
  assert (E : ext4_find_ino (lit "/a") demo = Some (demo, Some 11)) by (vm_compute; reflexivity); split; [exact E |].
  refine (written_data_is_read_back demo (lit "/a") 11 demo_map [] 5 50000 (lit "good morning") demo_file_on eq_refl _ eq_refl E _ _ _ _);
    [vm_compute; discriminate | apply bytes_forallb; vm_compute; reflexivity | lia | vm_compute; discriminate | vm_compute; reflexivity].
Defined.

(** The image with an extent tree for the same file. *)
Definition ext_file : list Z := splice (splice demo_file 32 (bytes32 EXT4_EXTENTS_FL)) 40 (header_bytes 1 4 0 ++ extent_bytes 0 1 69).
Definition ext_dev : Z -> list Z := put_blk demo_dev demo_fs 4 (splice (demo_block 4) 1280 ext_file).
Definition ext_demo : disk := {| dev := ext_dev; oracle := []; heap := []; fs := demo_fs |}.

Lemma ext_alloc_ok : alloc_ok ext_dev demo_fs.
Proof.
  assert (U : used demo_dev demo_fs 4 = true) by (vm_compute; reflexivity).
  eapply (kept_put demo_dev demo_fs 4 _ [4]); [apply demo_alloc_ok | by apply demo_held | by left | vm_compute; reflexivity | apply bytes_forallb; vm_compute; reflexivity].
Qed.

Lemma ext_file_on : file_on extent_map ext_dev demo_fs 11 demo_map [] 5.
Proof.
  split; [apply demo_owns; [apply ext_alloc_ok | vm_compute; reflexivity ..] | | vm_compute; reflexivity | vm_compute; reflexivity | vm_compute; repeat split; discriminate].
  split; [vm_compute; reflexivity |]; exists [Ext 0 1 69 false]; split; [| split; [| right; vm_compute; discriminate]].
  - split; [vm_compute; reflexivity | apply bytes_forallb; vm_compute; reflexivity | vm_compute; reflexivity | vm_compute; split; discriminate | left | constructor | constructor].
    split; [done |]; split; [split | exists 1; split; [vm_compute; repeat split; discriminate | lia]];
      first [vm_compute; reflexivity | vm_compute; split; discriminate | vm_compute; discriminate | apply bytes_forallb; vm_compute; reflexivity].
  - intros j; unfold demo_map; cbn; destruct (Z.eqb_spec j 0) as [-> | Hj]; [reflexivity |]; destruct (Z.leb_spec 0 j), (Z.ltb_spec j (0 + 1)); lia || done.
Qed.

Lemma appended_data_is_read_back_witness :
  ext4_find_ino (lit "/a") ext_demo = Some (ext_demo, Some 11) /\
  exists s' r, ext4_write (lit "/a") 4090 (lit "good morning") ext_demo = Some (s', r) /\ alloc_ok (dev s') (fs s') /\
    ((r = -1 /\ (nearly_full (dev s') (fs s') \/ stuck extent_map (dev s') (fs s') demo_map)) \/
     (r = zlen (lit "good morning") /\ exists mp' mt', let size' := ext4_write_new_size 4090 5 (4090 + zlen (lit "good morning")) in
        file_on extent_map (dev s') (fs s') 11 mp' mt' size' /\ reads_as s' 11 size' (patched (byte_at (dev ext_demo) (fs ext_demo) demo_map) 4090 (lit "good morning")))).
Proof.
  assert (E : ext4_find_ino (lit "/a") ext_demo = Some (ext_demo, Some 11)) by (vm_compute; reflexivity); split; [exact E |].
  refine (appended_data_is_read_back ext_demo (lit "/a") 11 demo_map [] 5 4090 (lit "good morning") ext_file_on eq_refl _ eq_refl E _ _ _ _ _);
    [vm_compute; discriminate | apply bytes_forallb; vm_compute; reflexivity | lia | vm_compute; discriminate | vm_compute; reflexivity |].
  intros j H0 _ Hj i Hi; change (4090 / EXT4_BLOCK_SIZE) with 0 in H0; unfold demo_map in *; destruct (Z.eqb_spec j 0); [done |]; destruct (Z.eqb_spec i 0); [lia | done].
Defined.
